(* ===== verification/_CoqProject ===== *)
-Q . S2P
Prelude.v
PyData.v
Sha256.v
PyFloat.v
Json.v
JsonFacts.v
Core.v
CoreFacts.v
Storage.v
Receipts.v
Builtins.v
GoalSpec.v
Verifier.v
Brakes.v
Loop.v
Providers.v
Engine.v
EngineFacts.v
EngineTheorems.v
Journal.v
Lease.v
Store.v
Delivery.v
Recovery.v
Transactions.v
ControlPlane.v
Quarantine.v
Gateway.v
Scheduler.v
Isolation.v
Tenancy.v
Structural.v
Extensions.v
Graph.v
JsonPlain.v
Plan.v
PlanFacts.v
PlanTheorems.v
WorkerContract.v
AttemptGuard.v
GuardFacts.v
EvidenceReceipts.v
ReceiptFacts.v
EvidenceBus.v
BusFacts.v
BusTheorems.v
M4Evidence.v
M4Theorems.v
Market.v
M4Scheduler.v
SchedulerFacts.v
ReplanFacts.v
AesGcm.v
AesGcmTheorems.v
Crypto.v
CryptoTheorems.v
Hadr.v
HadrTheorems.v
FailoverTheorems.v
Backup.v
BackupTheorems.v
Compliance.v
ComplianceTheorems.v
ComplianceServices.v
NetAddr.v
IamEvents.v
IamLogFacts.v
IamAccess.v
Totp.v
Iam.v
IamFacts.v
IamTheorems.v
SessionTheorems.v
AccountTheorems.v
Observations.v
ObservationBus.v
RuntimeJournal.v
RuntimeFacts.v
RuntimeTheorems.v
