(* ===== verification/Prelude.v ===== *)
(** * A verification of the RESIDUAL agent harness

    RESIDUAL runs a goal as a graph of obligations.  A solver or a model
    proposes a value for each obligation, a registered check decides whether it
    is accepted, and everything around that core -- budgets, privacy, receipts,
    traces, brakes, quarantine, replication, governance, tenancy -- limits what
    a proposal can do.  Above it, the factory turns requirements into an
    approved plan, runs each task as a guarded attempt under a contract, turns
    verified results into signed receipts, and schedules and integrates by those
    receipts.  This library is a shallow embedding of that code: pure
    functions are functions, fallible ones return [res] (a value or the
    exception raised), stateful ones are computations [SM] that keep the state
    they changed even when they raise, and host code (checks, solvers, models,
    policies, executors, clocks, evaluators, extension hooks) is a parameter.

    ** The files and the code they model (paths under src/residual)

    - Prelude: exceptions, the result and state monads with their notations,
      Hoare-style rules ([triple], [preserves]) with the hint database [sm].
    - PyData, PyFloat, Sha256: what the code uses of Python: code-point strings,
      stable sorting, insertion-ordered dictionaries, IEEE-754 floats with
      [repr], SHA-256.
    - Json, JsonFacts: [canonical], [strict_json] and [digest] of core.py.
    - Core, CoreFacts, Builtins: the rest of core.py: artifacts, obligations,
      tasks, contexts, the registry, and the built-in checks and solvers.
    - Storage: the cache and the hash-linked ledger of storage.py.
    - Receipts, GoalSpec, Verifier, Brakes, Loop: receipts.py, goalspec.py,
      verifier.py, brakes.py, loop.py.  The loop is proved against the brake
      interface [BrakeOps]; the standard brakes and the guarded extension brakes
      are instances of it.
    - Providers, Engine, EngineFacts, EngineTheorems: engine.py ([Harness.run]
      and everything it calls) over the provider contract of providers.py.
    - Extensions: extensions.py (registration, composition, guarded brakes,
      hooks) and the bus of lifecycle.py.
    - Quarantine: quarantine.py, as atomic steps of concurrent users; Gateway:
      gateway/ (intents, the executor allowlist, submissions) on top of it.
    - Structural: the finite models of cic.py, up to [_restricted].
    - Journal, Lease, Store, Delivery, Recovery: dsm/ (journal, lease,
      ownership, store, delivery, faults, evidence, recovery).
    - Transactions, ControlPlane: control_plane/ (the saga coordinator over its
      four host callables, of which [emit] is not guarded;
      amendments, policies, routing, environment, invariants).
    - Scheduler, Isolation, Tenancy: tenancy/ (scheduler; isolation, with records
      as dicts on a heap that tenants can change, and policies; tenant, lifecycle and delegation, with tenant states in a heap
      because several managers hold the same objects).
    - Graph, JsonPlain: acyclicity of finite dependency maps, and JSON values
      that survive a round trip; shared by the files below.
    - Plan, PlanFacts, PlanTheorems: factory/models.py and factory/compiler.py.
    - WorkerContract, AttemptGuard, GuardFacts: factory/worker_contract.py (the
      contract; the guard that mediates an attempt).
    - EvidenceReceipts, ReceiptFacts: factory/evidence_receipts.py.
    - EvidenceBus, BusFacts, BusTheorems: factory/evidence_bus.py and
      factory/station_issuer.py, over the tables of the bus.
    - M4Evidence, M4Theorems: factory/m4_evidence.py, over the bus.
    - Market: assurance/market.py.
    - M4Scheduler, SchedulerFacts, ReplanFacts: factory/m4_scheduler.py, over
      plans, the bus and the market.
    - AesGcm, AesGcmTheorems, Crypto, CryptoTheorems: crypto/
      (the AES-GCM fallback, against polynomials over GF(2); the provider with its
      key management interface; key rotation).
    - Hadr, HadrTheorems, FailoverTheorems: hadr/
      (receipt chains, the event journal, replication, the station registry,
      failover, degraded mode).  Backup, BackupTheorems: hadr/ (backups and
      restore drills), with [json.loads] and UTF-8 decoding.
    - Compliance, ComplianceTheorems, ComplianceServices:
      compliance/ (log, tagging, legal_hold, retention, erasure, residency,
      signing, reports, siem) as computations on one shared state.
    - NetAddr, IamEvents, IamLogFacts, IamAccess, Totp, Iam, IamFacts,
      IamTheorems, SessionTheorems, AccountTheorems:
      iam/ (events, rbac and abac; jit, sessions, service_accounts and mfa as
      computations on one state over a shared log).  NetAddr and Totp hold what
      they use of ipaddress, SHA-1 and HMAC.
    - Observations, ObservationBus: observation_layer/core.py (observations,
      digests, the sequencer, chain verification), bus.py and filters.py.
    - RuntimeJournal, RuntimeFacts, RuntimeTheorems: factory/runtime_journal.py
      over the observations.

    Each definition has the name of the function it translates where that is
    free ([_authorize] is [authorize], [__post_init__] of [Job] is [Job_new]).

    ** What the theorems show

    - Engine: an accepted value was passed by its check in a context of accepted
      dependencies and is never replaced; private artifacts reach no remote
      provider; budgets hold; success means every obligation is accepted; the
      run ends; its trace verifies.
    - Loop, Verifier, Brakes, Extensions: every outcome is justified by a
      verified candidate or a trip, passes are bounded, verification is fail
      closed and refines its specification, budgets trip, guarded extension
      brakes fail closed.
    - Quarantine: no execution without a hold and an allowing evaluation, at
      most one execution per hold, under every interleaving.  Gateway: what a
      submission does to the store, the verifier's and the executor's world.
    - Storage, Receipts, GoalSpec, Json: round trips, tamper evidence (modulo an
      explicit hash collision), binding hashes, sound receipt graphs, bounded
      amendments.
    - Store, Lease, Delivery, Recovery: one accepted writer at a time (the holder
      of the latest standing grant), at most
      one acceptance per event, convergence under the fault schedules, recovery
      from the journal.
    - Transactions, ControlPlane: transactions settle unless [emit] raises, effects
      respect their dependencies, approvals are independent.
    - Tenancy: tenants whose records hold no nested objects do not interfere, delegation needs an approved request,
      deletion is final; scheduling drains and is fair.
    - Structural: the search decides satisfiability within its budget, grouping
      by components is exact, min-fill certificates verify.
    - Plan: compilation ends in questions or in a well-formed acyclic plan,
      derived tasks mirror the requirements, plans survive storage, an approval
      binds one plan up to order.
    - AttemptGuard: an attempt stays within its contract whatever the audit
      sink, the stop hook and the clock do, and ends once.
    - EvidenceBus: receipts are only appended, consumption is exact (stored,
      signed, not superseded through any chain of parents, or approved), and
      only passing, intact work is issued.
    - M4Evidence, Market, M4Scheduler: readiness and integration follow the
      approved graph and do not depend on the order of receipts; the market and
      the placement take the best admissible choice; capacity stays within
      bounds; replanning proposes exactly the bottlenecks with valid plans.
    - Iam: access is what roles and approved, unexpired elevations give; sessions
      are bound, expire, end for good and are few; service accounts are never
      privileged and hold one credential; deny overrides; privileged actions need
      a second factor; the audit trail is one chain that only grows.
    - Crypto: the AES-GCM fallback opens exactly what it sealed, under the right key
      and data, and its multiplications are those of the fields; envelopes open;
      a key ring verifies a signature as long as the window allows and no longer.
    - Hadr, Backup: no acknowledged receipt is lost and full copies that are not
      marked unavailable stay full; failover picks the right station and keeps chain and completed work; ticks
      detect exactly the overdue stations; synchronizing loses no queued work; a
      backup restores to what was backed up and the drill reports it.
    - Compliance: retention given the hold manager deletes exactly what is expired,
      archived and not held; erasure replaces the user as actor of the log's
      observations and nothing else; transfers
      need an approval; reports are signed and exact; forwarding is at least once.
    - ObservationBus: whatever a filter that keeps identifiers and plain JSON, as
      those of filters.py do, and the sinks do, one verified chain is sealed, and the sinks hold it exactly when nothing was lost.
    - RuntimeJournal: one live attempt per task, strictly increasing lease
      generations, lost leases stay lost, and the observations read back as one
      verified chain.
    - Divergences found: [PlanTheorems.derived_tasks_mirror] and
      [ReplanFacts.structural_replan_sound] (identifiers grow past their limit),
      [Storage.ledger_line_separator_unreadable],
      [Store.terminal_not_absorbing], [Transactions.compensated_despite_failure],
      [Transactions.emit_strands_effect], [Isolation.shared_nested_writable],
      [Tenancy.approval_replayed], [Tenancy.undigestible_tenant_lost],
      [Isolation.nan_threshold_accepted], [ObservationBus.key_not_redacted],
      [ObservationBus.renaming_filter_breaks_chain],
      [IamTheorems.elevation_unobserved], [IamTheorems.request_discarded],
      [AesGcmTheorems.long_key_truncated],
      [CryptoTheorems.failed_rotation_retires],
      [CryptoTheorems.spare_key_never_retired], and at the end of
      FailoverTheorems ([replica_gap] to [merge_republishes]) and
      ComplianceServices ([retention_breaks_chain] to [nan_clock_deletes]).

    ** Bounds and fuel

    Recursion that is not structural carries fuel, and a theorem shows that the
    fuel is enough: the JSON parser has twice the text length and two
    ([strict_json_total]); dependency resolution and the engine's rounds have
    one unit per obligation and one ([dependency_cycles_decided],
    [run_loop_terminates]); the loop has one pass per allowed pass; the
    scheduler has one round per unit of demand and one ([run_until_idle_drains]);
    min-fill one step per node ([min_fill_certified]); components one pop per
    edge end ([groups_decompose]); the acyclicity check of a plan one round per
    node ([assert_acyclic_spec]); the search for
    superseded ancestors one step per parent link and one ([consumable_exact]);
    the integration order one round per task ([integration_plan_sound]); the
    dependents of a task one step per dependency link and one
    ([structural_replan_sound]).  Integers bound to SQLite columns are checked
    for 64 bits; other integers are Python's unbounded ones; the
    4300-digit limit of integer text is kept.

    ** Not modelled

    File, socket, process and SQLite input and output (files are their text, the
    cache is its table); HTTP transports; [json_sum] (float summation differs
    between interpreter versions); the introspection of hook signatures; the
    structural and cic routing modes of the engine and [cic.prepare]; the
    trajectory, memory and TUI bindings of lifecycle.py; the processes, git
    worktrees and sandboxes of the factory (runtime.py, runtime_workspace.py,
    m4_integrator.py, m4_sandbox.py, m4_safety.py), lock contention of its
    journal and key files; the SAML and OIDC parsers of iam/; the CSV, JSON and PDF
    exports of compliance reports and the text of the files its residency store
    and spool write (their values are kept); the evaluation
    harnesses, the user interfaces and the service adapters.  Ed25519, random
    tokens, libm's log and pow
    and the iteration order of sets are parameters.  Memory
    exhaustion, recursion limits and [KeyboardInterrupt] are outside the model,
    and so are the mutation of a JSON value by host code that holds it (Isolation
    excepted) and policies that call back into the quarantine store that is
    evaluating them. *)

From Stdlib Require Import ZArith NArith Lia Ascii.
From stdpp Require Export base gmap sets list strings numbers option sorting.

#[global] Set Default Proof Using "Type".

(** ** Python exceptions and results

    [ContractError] is [residual.core.ContractError], a subclass of
    [ValueError]; [JSONDecodeError] and [UnicodeEncodeError] are [ValueError]s
    too.  The message only identifies the raise site. *)
Inductive exn : Type :=
| ContractError (msg : string)
| ValueError (msg : string)
| TypeError (msg : string)
| KeyError (msg : string)
| IndexError (msg : string)
| AttributeError (msg : string)
| RuntimeError (msg : string)
| AssertionError (msg : string)
| OtherError (msg : string).

#[export] Instance exn_eq_dec : EqDecision exn.
Proof. solve_decision. Defined.

(** [isinstance(e, ValueError)] *)
Definition is_ValueError (e : exn) : bool :=
  match e with ContractError _ | ValueError _ => true | _ => false end.

Inductive res (A : Type) : Type :=
| Ok (a : A)
| Raise (e : exn).
Arguments Ok {_} _.
Arguments Raise {_} _.

#[export] Instance res_eq_dec `{EqDecision A} : EqDecision (res A).
Proof. solve_decision. Defined.

#[export] Instance res_ret : MRet res := λ A a, Ok a.
#[export] Instance res_bind : MBind res := λ A B f m,
  match m with Ok a => f a | Raise e => Raise e end.
#[export] Instance res_fmap : FMap res := λ A B f m,
  match m with Ok a => Ok (f a) | Raise e => Raise e end.

Definition is_ok {A} (r : res A) : bool := match r with Ok _ => true | Raise _ => false end.

Declare Scope py_scope.
Delimit Scope py_scope with py.
Notation "'when' b 'raise' e ;; k" := (if b then Raise e else k)
  (at level 100, b at level 99, e at level 99, k at level 200, right associativity,
   format "'[v' 'when'  b  'raise'  e  ;; '/' k ']'") : py_scope.
#[global] Open Scope py_scope.

Definition of_option {A} (e : exn) (o : option A) : res A :=
  match o with Some a => Ok a | None => Raise e end.

Lemma bind_Ok {A B} (m : res A) (f : A → res B) b :
  (m ≫= f) = Ok b ↔ ∃ a, m = Ok a ∧ f a = Ok b.
Proof.
  destruct m as [a|e]; cbn; split.
  - eauto.
  - by intros (? & [= <-] & ?).
  - done.
  - by intros (? & ? & _).
Qed.

Lemma fmap_Ok {A B} (m : res A) (f : A → B) b :
  (f <$> m) = Ok b ↔ ∃ a, m = Ok a ∧ f a = b.
Proof.
  destruct m as [a|e]; cbn; split.
  - intros [= <-]; eauto.
  - by intros (? & [= <-] & <-).
  - done.
  - by intros (? & ? & _).
Qed.

Lemma of_option_Ok {A} e (o : option A) a : of_option e o = Ok a ↔ o = Some a.
Proof. destruct o; cbn; split; congruence. Qed.

(** Invert a successful computation down to the guards it passed. *)
Ltac res_step :=
  match goal with
  | H : Ok _ = Ok _ |- _ => injection H as H; try subst
  | H : Raise _ = Raise _ |- _ => injection H as H; try subst
  | H : Raise _ = Ok _ |- _ => discriminate H
  | H : Ok _ = Raise _ |- _ => discriminate H
  | H : mret _ = Ok _ |- _ => injection H as H; try subst
  | H : (_ ≫= _) = Ok _ |- _ => apply bind_Ok in H as (? & ? & H)
  | H : (_ <$> _) = Ok _ |- _ => apply fmap_Ok in H as (? & ? & H)
  | H : of_option _ _ = Ok _ |- _ => apply of_option_Ok in H
  | H : (if ?b then Raise _ else _) = Ok _ |- _ => destruct b eqn:?; [discriminate H|]
  | H : (if ?b then _ else Raise _) = Ok _ |- _ => destruct b eqn:?; [|discriminate H]
  end.
Ltac res_inv := repeat (res_step; cbn beta iota in *).

(** Pass one [when ... raise] guard of the named hypothesis, keeping its
    negation under the given name. *)
Ltac guard_as H n :=
  match type of H with
  | (if ?b then Raise _ else _) = Ok _ => destruct b eqn:n; [discriminate H|]; cbv beta in H
  end.
Tactic Notation "pass_guard" hyp(H) "as" ident(n) := guard_as H n.
Tactic Notation "pass_guard" hyp(H) := let n := fresh "Hg" in guard_as H n.

(** Boolean guards as propositions. *)
Ltac bool_prop :=
  repeat match goal with
  | H : _ && _ = true |- _ => apply andb_true_iff in H as [? ?]
  | H : _ && _ = false |- _ => apply andb_false_iff in H
  | H : _ || _ = false |- _ => apply orb_false_iff in H as [? ?]
  | H : _ || _ = true |- _ => apply orb_true_iff in H
  | H : negb _ = true |- _ => apply negb_true_iff in H
  | H : negb _ = false |- _ => apply negb_false_iff in H
  | H : bool_decide _ = true |- _ => apply bool_decide_eq_true in H
  | H : bool_decide _ = false |- _ => apply bool_decide_eq_false in H
  | H : (_ =? _)%Z = true |- _ => apply Z.eqb_eq in H
  | H : (_ =? _)%Z = false |- _ => apply Z.eqb_neq in H
  | H : (_ <? _)%Z = true |- _ => apply Z.ltb_lt in H
  | H : (_ <? _)%Z = false |- _ => apply Z.ltb_ge in H
  | H : (_ <=? _)%Z = true |- _ => apply Z.leb_le in H
  | H : (_ <=? _)%Z = false |- _ => apply Z.leb_gt in H
  | H : (_ =? _)%nat = true |- _ => apply Nat.eqb_eq in H
  | H : (_ =? _)%nat = false |- _ => apply Nat.eqb_neq in H
  | H : (_ <? _)%nat = true |- _ => apply Nat.ltb_lt in H
  | H : (_ <? _)%nat = false |- _ => apply Nat.ltb_ge in H
  | H : (_ <=? _)%nat = true |- _ => apply Nat.leb_le in H
  | H : (_ <=? _)%nat = false |- _ => apply Nat.leb_gt in H
  end.

(** [mapM] over results: success is pointwise success. *)
Lemma mapM_res_Ok {A B} (f : A → res B) l k :
  mapM f l = Ok k ↔ Forall2 (λ x y, f x = Ok y) l k.
Proof.
  revert k; induction l as [|x l IH]; intros k; cbn.
  - split; [intros [= <-]; constructor | inversion 1; done].
  - split.
    + intros H; res_inv. constructor; [done|]. by apply IH.
    + inversion 1 as [|? y ? k' Hx Hk]; subst. rewrite Hx; cbn.
      apply IH in Hk. by rewrite Hk.
Qed.

Lemma NoDup_key_inj {A B} (f : A → B) (l : list A) x y : NoDup (f <$> l) → x ∈ l → y ∈ l → f x = f y → x = y.
Proof.
  intros Hnd [i Hi]%list_elem_of_lookup [j Hj]%list_elem_of_lookup E.
  assert (i = j) as ->; [|congruence]. eapply NoDup_lookup; [exact Hnd|rewrite list_lookup_fmap, Hi; reflexivity|].
  rewrite list_lookup_fmap, Hj. cbn. by rewrite E.
Qed.

(** Joining lists. *)
Lemma mjoin_nil {A B} (f : A → list B) l : (∀ x, x ∈ l → f x = []) → mjoin (f <$> l) = [].
Proof. induction l as [|x l IH]; intros H; cbn; [done|]. rewrite (H x) by left. apply IH. intros y Hy. apply H. by right. Qed.
Lemma mjoin_app {A} (l k : list (list A)) : mjoin (l ++ k) = mjoin l ++ mjoin k.
Proof. induction l as [|x l IH]; [done|]. cbn [app]. transitivity (x ++ mjoin (l ++ k)); [done|]. rewrite IH, app_assoc. done. Qed.

(** ** Stateful computations that may raise

    A Python statement that mutates an object and may raise keeps the
    mutations made before the raise: the state is returned on both exits. *)
Definition SM (S A : Type) : Type := S → res A * S.

#[export] Instance SM_ret S : MRet (SM S) := λ A a s, (Ok a, s).
#[export] Instance SM_bind S : MBind (SM S) := λ A B f m s,
  match m s with
  | (Ok a, s') => f a s'
  | (Raise e, s') => (Raise e, s')
  end.

Definition sm_get {S} : SM S S := λ s, (Ok s, s).
Definition sm_mod {S} (f : S → S) : SM S unit := λ s, (Ok tt, f s).
Definition sm_raise {S A} (e : exn) : SM S A := λ s, (Raise e, s).
Definition sm_lift {S A} (r : res A) : SM S A := λ s, (r, s).
(** [try: m except: h] *)
Definition sm_try {S A} (m : SM S A) (h : exn → SM S A) : SM S A := λ s,
  match m s with
  | (Ok a, s') => (Ok a, s')
  | (Raise e, s') => h e s'
  end.

Fixpoint sm_for {S A} (l : list A) (body : A → SM S unit) : SM S unit :=
  match l with
  | [] => mret tt
  | x :: l => body x ≫= λ _, sm_for l body
  end.

Lemma sm_bind_Ok {S A B} (m : SM S A) (f : A → SM S B) s b s' :
  (m ≫= f) s = (Ok b, s') ↔ ∃ a s1, m s = (Ok a, s1) ∧ f a s1 = (Ok b, s').
Proof.
  unfold mbind, SM_bind. destruct (m s) as [[a|e] s1]; split.
  - eauto.
  - by intros (? & ? & [= <- <-] & ?).
  - done.
  - by intros (? & ? & ? & _).
Qed.

Lemma sm_bind_Raise {S A B} (m : SM S A) (f : A → SM S B) s e s' :
  (m ≫= f) s = (Raise e, s') ↔
  m s = (Raise e, s') ∨ ∃ a s1, m s = (Ok a, s1) ∧ f a s1 = (Raise e, s').
Proof.
  unfold mbind, SM_bind. destruct (m s) as [[a|x] s1]; split.
  - eauto.
  - by intros [?|(? & ? & [= <- <-] & ?)].
  - intros [= <- <-]. by left.
  - by intros [[= <- <-]|(? & ? & ? & _)].
Qed.

Lemma sm_lift_Ok {S A} (r : res A) (s s' : S) a : sm_lift r s = (Ok a, s') ↔ r = Ok a ∧ s' = s.
Proof. unfold sm_lift. split; [by intros [= -> ->]|by intros [-> ->]]. Qed.

(** *** Hoare triples with a normal and an exceptional postcondition *)
Definition triple {S A} (P : S → Prop) (m : SM S A)
    (Q : A → S → Prop) (E : exn → S → Prop) : Prop :=
  ∀ s, P s → match m s with (Ok a, s') => Q a s' | (Raise e, s') => E e s' end.

Section triple_rules.
Context {S A B : Type}.
Implicit Types (P I : S → Prop) (E : exn → S → Prop).

Lemma triple_ret P E a (Q : A → S → Prop) :
  (∀ s, P s → Q a s) → triple P (mret a) Q E.
Proof. by intros H s Hs; apply H. Qed.

Lemma triple_raise P E e (Q : A → S → Prop) :
  (∀ s, P s → E e s) → triple P (sm_raise e) Q E.
Proof. by intros H s Hs; apply H. Qed.

Lemma triple_bind P (m : SM S A) (f : A → SM S B) R Q E :
  triple P m R E → (∀ a, triple (R a) (f a) Q E) → triple P (m ≫= f) Q E.
Proof.
  intros Hm Hf s Hs. specialize (Hm s Hs). unfold mbind, SM_bind.
  destruct (m s) as [[a|e] s']; [by apply Hf | done].
Qed.

Lemma triple_get P (Q : S → S → Prop) E :
  (∀ s, P s → Q s s) → triple P sm_get Q E.
Proof. intros H s Hs; by apply H. Qed.

Lemma triple_mod P f Q E :
  (∀ s, P s → Q tt (f s)) → triple P (sm_mod f) Q E.
Proof. intros H s Hs; by apply H. Qed.

Lemma triple_lift P (r : res A) Q E :
  (∀ s a, P s → r = Ok a → Q a s) → (∀ s e, P s → r = Raise e → E e s) →
  triple P (sm_lift r) Q E.
Proof. intros H1 H2 s Hs; unfold sm_lift; destruct r; eauto. Qed.

Lemma triple_try P (m : SM S A) h Q R E :
  triple P m Q R → (∀ e, triple (R e) (h e) Q E) → triple P (sm_try m h) Q E.
Proof.
  intros Hm Hh s Hs. specialize (Hm s Hs). unfold sm_try.
  destruct (m s) as [[a|e] s']; [done | by apply Hh].
Qed.

Lemma triple_conseq P P' (m : SM S A) Q Q' E E' :
  triple P' m Q' E' → (∀ s, P s → P' s) →
  (∀ a s, Q' a s → Q a s) → (∀ e s, E' e s → E e s) → triple P m Q E.
Proof.
  intros Hm H1 H2 H3 s Hs. specialize (Hm s (H1 s Hs)).
  destruct (m s) as [[a|e] s']; eauto.
Qed.

End triple_rules.

Lemma triple_for {S A} (I : S → Prop) (l : list A) body E :
  (∀ x, x ∈ l → triple I (body x) (λ _, I) E) → triple I (sm_for l body) (λ _, I) E.
Proof.
  induction l as [|x l IH]; intros Hb; cbn; [by intros s Hs|].
  eapply triple_bind; [apply Hb, list_elem_of_here|].
  intros u. apply IH. intros y Hy. apply Hb. by apply list_elem_of_further.
Qed.


(** Preservation of an invariant on both exits. *)
Definition preserves {S A} (I : S → Prop) (m : SM S A) : Prop :=
  triple I m (λ _, I) (λ _, I).

Create HintDb sm.

Section preserves_rules.
Context {S A B : Type} (I : S → Prop).

Lemma preserves_ret (a : A) : preserves I (mret a).
Proof. by intros s Hs. Qed.
Lemma preserves_raise e : preserves I (sm_raise (A := A) e).
Proof. by intros s Hs. Qed.
Lemma preserves_lift (r : res A) : preserves I (sm_lift r).
Proof. intros s Hs; unfold sm_lift; by destruct r. Qed.
Lemma preserves_get : preserves I sm_get.
Proof. by intros s Hs. Qed.
Lemma preserves_mod f : (∀ s, I s → I (f s)) → preserves I (sm_mod f).
Proof. intros H s Hs; by apply H. Qed.
Lemma preserves_bind (m : SM S A) (f : A → SM S B) :
  preserves I m → (∀ a, preserves I (f a)) → preserves I (m ≫= f).
Proof. intros Hm Hf. eapply triple_bind; [apply Hm | apply Hf]. Qed.
Lemma preserves_try (m : SM S A) h :
  preserves I m → (∀ e, preserves I (h e)) → preserves I (sm_try m h).
Proof. intros Hm Hf. eapply triple_try; [apply Hm | apply Hf]. Qed.
Lemma preserves_for (l : list A) body :
  (∀ x, x ∈ l → preserves I (body x)) → preserves I (sm_for l body).
Proof. exact (triple_for I l body (λ _, I)). Qed.
Lemma preserves_if (b : bool) (m n : SM S A) :
  (b = true → preserves I m) → (b = false → preserves I n) →
  preserves I (if b then m else n).
Proof. destruct b; auto. Qed.
End preserves_rules.

#[export] Hint Resolve preserves_ret preserves_raise preserves_lift preserves_get
  preserves_bind preserves_try preserves_for preserves_if : sm.

(** Walks a computation down to its primitive steps. *)
Ltac sm_walk :=
  repeat first
    [ progress intros
    | solve [auto 2 with sm]
    | apply preserves_bind
    | apply preserves_if
    | match goal with |- preserves _ (match ?x with _ => _ end) => destruct x end ].
