(* ===== verification/PyData.v ===== *)
(** * Python strings, stable sorting and insertion-ordered dictionaries

    What the sources use of Python's built-in types: [str] as a list of code
    points (a lone surrogate is a legal element, as in Python), [sorted] as a
    stable sort, and [dict] as an association list in insertion order. *)

From Stdlib Require Import ZArith NArith Lia Ascii Permutation.
From S2P Require Import Prelude.

(** ** Stable sorting ([sorted], [list.sort]) *)
Section sort.
Context {A : Type} (leb : A → A → bool).

Fixpoint insert_by (x : A) (l : list A) : list A :=
  match l with
  | [] => [x]
  | y :: l' => if leb x y then x :: l else y :: insert_by x l'
  end.

Definition sort_by (l : list A) : list A := foldr insert_by [] l.

Definition sorted_by (l : list A) : Prop := StronglySorted (λ x y, leb x y = true) l.

Lemma insert_by_perm x l : insert_by x l ≡ₚ x :: l.
Proof.
  induction l as [|y l IH]; cbn; [done|].
  destruct (leb x y); [done|]. rewrite IH. apply Permutation_swap.
Qed.

Lemma sort_by_perm l : sort_by l ≡ₚ l.
Proof. induction l as [|x l IH]; cbn; [done|]. by rewrite insert_by_perm, IH. Qed.

Lemma elem_of_sort_by x l : x ∈ sort_by l ↔ x ∈ l.
Proof. by rewrite sort_by_perm. Qed.

Lemma length_sort_by l : length (sort_by l) = length l.
Proof. by rewrite sort_by_perm. Qed.

Lemma NoDup_sort_by l : NoDup (sort_by l) ↔ NoDup l.
Proof. by rewrite sort_by_perm. Qed.

Lemma sort_by_sorted l : sorted_by l → sort_by l = l.
Proof.
  induction 1 as [|x l Hl IH Hx]; [done|]. change (insert_by x (sort_by l) = x :: l). rewrite IH.
  destruct l as [|y l]; cbn; [done|]. apply Forall_cons in Hx as [-> _]. done.
Qed.

Context (leb_total : ∀ x y, leb x y = true ∨ leb y x = true)
        (leb_trans : ∀ x y z, leb x y = true → leb y z = true → leb x z = true).

Lemma insert_by_sorted x l : sorted_by l → sorted_by (insert_by x l).
Proof using leb_total leb_trans.
  induction 1 as [|y l Hl IH Hy]; cbn; [repeat constructor|].
  destruct (leb x y) eqn:Hxy.
  - constructor; [by constructor|]. constructor; [done|].
    eapply Forall_impl; [exact Hy|]. eauto.
  - assert (Hyx : leb y x = true) by (destruct (leb_total x y); congruence).
    constructor; [exact IH|]. rewrite insert_by_perm. by constructor.
Qed.

Lemma sort_by_is_sorted l : sorted_by (sort_by l).
Proof using leb_total leb_trans.
  induction l; cbn; [constructor|]. by apply insert_by_sorted.
Qed.

Lemma sort_by_idemp l : sort_by (sort_by l) = sort_by l.
Proof using leb_total leb_trans. apply sort_by_sorted, sort_by_is_sorted. Qed.

(** Two sorted lists with the same elements are equal when the order is
    antisymmetric on them. *)
Lemma sorted_by_unique l k :
  (∀ x y, x ∈ l → y ∈ l → leb x y = true → leb y x = true → x = y) →
  sorted_by l → sorted_by k → l ≡ₚ k → l = k.
Proof.
  intros Hanti Hl. revert k Hanti. induction Hl as [|x l Hl IH Hx]; intros k Hanti Hk Hp.
  - by apply Permutation_nil in Hp.
  - destruct Hk as [|y k Hk Hy]; [by apply Permutation_sym, Permutation_nil in Hp|].
    assert (x = y) as ->.
    { assert (Hin : y ∈ x :: l) by (rewrite Hp; apply list_elem_of_here).
      assert (Hin' : x ∈ y :: k) by (rewrite <- Hp; apply list_elem_of_here).
      rewrite elem_of_cons in Hin, Hin'.
      destruct Hin as [->|Hin]; [done|]. destruct Hin' as [->|Hin']; [done|].
      rewrite Forall_forall in Hx, Hy.
      apply Hanti; [apply list_elem_of_here|by apply list_elem_of_further| |]; auto. }
    f_equal. apply IH; [|done|by eapply Permutation_cons_inv].
    intros a b Ha Hb. apply Hanti; by apply list_elem_of_further.
Qed.
End sort.

Lemma sort_by_ext {A} (f g : A → A → bool) l :
  (∀ x y, f x y = g x y) → sort_by f l = sort_by g l.
Proof.
  intros H. induction l as [|x l IH]; [done|].
  change (insert_by f x (sort_by f l) = insert_by g x (sort_by g l)). rewrite IH. clear IH.
  induction (sort_by g l) as [|y k IH]; cbn; [done|]. by rewrite H, IH.
Qed.

(** ** Strings *)
Abbreviation pystr := (list N).

(** An ASCII literal of the source. *)
Definition str (s : string) : pystr := N_of_ascii <$> String.list_ascii_of_string s.
Arguments str _%_string_scope.

#[export] Instance str_inj : Inj eq eq str.
Proof.
  intros s t H. unfold str in H. apply list_fmap_eq_inj in H.
  - by rewrite <- (String.string_of_list_ascii_of_string s), H,
      String.string_of_list_ascii_of_string.
  - intros a b Hab. by rewrite <- (ascii_N_embedding a), Hab, ascii_N_embedding.
Qed.

(** Comparison by code points. *)
Fixpoint str_compare (s t : pystr) : comparison :=
  match s, t with
  | [], [] => Eq
  | [], _ => Lt
  | _, [] => Gt
  | a :: s, b :: t => match (a ?= b)%N with Eq => str_compare s t | c => c end
  end.
Definition str_leb (s t : pystr) : bool := match str_compare s t with Gt => false | _ => true end.
Definition str_ltb (s t : pystr) : bool := match str_compare s t with Lt => true | _ => false end.

Lemma str_compare_eq s t : str_compare s t = Eq ↔ s = t.
Proof.
  revert t; induction s as [|a s IH]; intros [|b t]; cbn; try done.
  destruct (N.compare_spec a b) as [->|H|H].
  - rewrite IH. split; congruence.
  - split; [done|]. intros [= -> _]. lia.
  - split; [done|]. intros [= -> _]. lia.
Qed.

Lemma str_compare_antisym s t : str_compare t s = CompOpp (str_compare s t).
Proof.
  revert t; induction s as [|a s IH]; intros [|b t]; cbn; try done.
  rewrite (N.compare_antisym a b). destruct (a ?= b)%N; cbn; auto.
Qed.

Lemma str_compare_lt_trans s t r :
  str_compare s t = Lt → str_compare t r = Lt → str_compare s r = Lt.
Proof.
  revert t r; induction s as [|a s IH]; intros [|b t] [|c r]; cbn; try done.
  destruct (N.compare_spec a b), (N.compare_spec b c), (N.compare_spec a c);
    subst; try lia; try done; eauto.
Qed.

Lemma str_leb_total s t : str_leb s t = true ∨ str_leb t s = true.
Proof. unfold str_leb. rewrite (str_compare_antisym s t). destruct (str_compare s t); auto. Qed.

Lemma str_leb_antisym s t : str_leb s t = true → str_leb t s = true → s = t.
Proof.
  unfold str_leb. rewrite (str_compare_antisym s t). intros.
  apply str_compare_eq. by destruct (str_compare s t).
Qed.

Lemma str_leb_trans s t r : str_leb s t = true → str_leb t r = true → str_leb s r = true.
Proof.
  unfold str_leb. intros H1 H2.
  destruct (str_compare s t) eqn:E1; [|clear H1|done].
  - apply str_compare_eq in E1 as ->. done.
  - destruct (str_compare t r) eqn:E2; [|clear H2|done].
    + apply str_compare_eq in E2 as ->. by rewrite E1.
    + by rewrite (str_compare_lt_trans _ _ _ E1 E2).
Qed.

Lemma str_leb_refl s : str_leb s s = true.
Proof. by destruct (str_leb_total s s). Qed.

Lemma str_ltb_leb s t : str_ltb s t = negb (str_leb t s).
Proof. unfold str_ltb, str_leb. rewrite (str_compare_antisym s t). by destruct (str_compare s t). Qed.

Abbreviation sort_str := (sort_by str_leb).

Lemma sort_str_sorted l : sorted_by str_leb (sort_str l).
Proof. apply sort_by_is_sorted; [apply str_leb_total | apply str_leb_trans]. Qed.

Lemma sort_str_perm l k : l ≡ₚ k → sort_str l = sort_str k.
Proof.
  intros Hp. apply (sorted_by_unique str_leb).
  - intros x y _ _. apply str_leb_antisym.
  - apply sort_str_sorted.
  - apply sort_str_sorted.
  - by rewrite !(sort_by_perm str_leb).
Qed.

(** *** Character classes and string methods *)
Definition in_range (lo hi c : N) : bool := (lo <=? c)%N && (c <=? hi)%N.
Definition is_alpha (c : N) : bool := in_range 65 90 c || in_range 97 122 c.
Definition is_digit (c : N) : bool := in_range 48 57 c.

(** [str.isspace] on one code point, the set [str.strip] removes. *)
Definition is_space (c : N) : bool :=
  in_range 9 13 c || in_range 28 32 c
  || bool_decide (c ∈ [133; 160; 5760; 8232; 8233; 8239; 8287; 12288]%N)
  || in_range 8192 8202 c.

(** [not s.strip()] *)
Definition blank (s : pystr) : bool := forallb is_space s.

(** [s.split(c)] for a one-character separator: never empty. *)
Fixpoint split_on (c : N) (s : pystr) : list pystr :=
  match s with
  | [] => [[]]
  | a :: s =>
      match split_on c s with
      | [] => [[a]]
      | w :: ws => if (a =? c)%N then [] :: w :: ws else (a :: w) :: ws
      end
  end.

Definition count_char (c : N) (s : pystr) : nat := length (filter (λ a, a = c) s).

Fixpoint join (sep : pystr) (l : list pystr) : pystr :=
  match l with
  | [] => []
  | [s] => s
  | s :: l => s ++ sep ++ join sep l
  end.

(** Line boundaries of [str.splitlines]. *)
Definition is_linebreak (c : N) : bool :=
  in_range 10 13 c || in_range 28 30 c || bool_decide (c ∈ [133; 8232; 8233]%N).

(** [s.splitlines(keepends=True)]; [\r\n] is one boundary. *)
Fixpoint splitlines_keep (s : pystr) : list pystr :=
  match s with
  | [] => []
  | a :: s' =>
      match a, s' with
      | 13%N, 10%N :: s'' => [13%N; 10%N] :: splitlines_keep s''
      | _, _ =>
        if is_linebreak a then [a] :: splitlines_keep s'
        else match splitlines_keep s' with
             | [] => [[a]]
             | w :: ws => (a :: w) :: ws
             end
      end
  end.

(** Drop the trailing boundary of one kept line. *)
Fixpoint drop_ending (s : pystr) : pystr :=
  match s with
  | [] => []
  | a :: s' => if is_linebreak a then [] else a :: drop_ending s'
  end.

(** [s.splitlines()] *)
Definition splitlines (s : pystr) : list pystr := drop_ending <$> splitlines_keep s.

(** [str(n)] for an integer. *)
Definition digit_char (d : Z) : N := (48 + Z.to_N d)%N.
Fixpoint dec_digits (fuel : nat) (n : Z) (acc : pystr) : pystr :=
  match fuel with
  | O => acc
  | S fuel =>
      let acc := digit_char (n mod 10) :: acc in
      if (n <? 10)%Z then acc else dec_digits fuel (n / 10) acc
  end.
Definition str_of_nonneg (n : Z) : pystr := dec_digits (S (Z.to_nat (Z.log2 n))) n [].
Definition str_of_Z (n : Z) : pystr :=
  if (n <? 0)%Z then 45%N :: str_of_nonneg (- n) else str_of_nonneg n.

(** [s.encode("utf-8")]: a surrogate code point raises [UnicodeEncodeError]. *)
Definition utf8_char (c : N) : res (list N) :=
  if (c <? 128)%N then Ok [c]
  else if (c <? 2048)%N then
    Ok [192 + c / 64; 128 + c mod 64]%N
  else if in_range 55296 57343 c then Raise (ValueError "surrogates not allowed")
  else if (c <? 65536)%N then
    Ok [224 + c / 4096; 128 + (c / 64) mod 64; 128 + c mod 64]%N
  else
    Ok [240 + c / 262144; 128 + (c / 4096) mod 64; 128 + (c / 64) mod 64; 128 + c mod 64]%N.

Fixpoint encode (s : pystr) : res (list N) :=
  match s with
  | [] => Ok []
  | c :: s => b ← utf8_char c; bs ← encode s; Ok (b ++ bs)
  end.

(** A Python value bound to a parameter of an SQLite statement. *)
Definition sql_int (z : Z) : res Z :=
  when negb ((- 2 ^ 63 <=? z)%Z && (z <? 2 ^ 63)%Z) raise OtherError "OverflowError: Python int too large to convert to SQLite INTEGER";;
  Ok z.
Lemma sql_int_Ok z n : sql_int z = Ok n → n = z.
Proof. unfold sql_int. destruct (negb _); [done|]. by intros [= ->]. Qed.
Definition sql_text (s : pystr) : res pystr := _ ← encode s; Ok s.

Definition encodable (s : pystr) : bool := forallb (λ c, negb (in_range 55296 57343 c)) s.

Lemma in_range_iff lo hi c : in_range lo hi c = true ↔ (lo <= c <= hi)%N.
Proof. unfold in_range. rewrite andb_true_iff, !N.leb_le. done. Qed.

Lemma utf8_char_ok c : negb (in_range 55296 57343 c) = true → ∃ b, utf8_char c = Ok b.
Proof.
  intros H%negb_true_iff. unfold utf8_char. rewrite H.
  repeat case_match; eauto.
Qed.

Lemma encode_ok s : encodable s = true → ∃ b, encode s = Ok b.
Proof.
  induction s as [|c s IH]; cbn; [eauto|].
  intros [Hc Hs]%andb_true_iff. destruct (utf8_char_ok c Hc) as [b ->].
  destruct (IH Hs) as [bs ->]. cbn. eauto.
Qed.

Lemma encode_encodable s b : encode s = Ok b → encodable s = true.
Proof.
  unfold encodable. revert b; induction s as [|c s IH]; intros b H; cbn in *; [done|].
  res_inv. erewrite IH by done. rewrite andb_true_r.
  unfold utf8_char, in_range in *.
  destruct (c <? 128)%N eqn:E1; [apply N.ltb_lt in E1|].
  { apply negb_true_iff, andb_false_iff. left. apply N.leb_gt. lia. }
  destruct (c <? 2048)%N eqn:E2; [apply N.ltb_lt in E2|].
  { apply negb_true_iff, andb_false_iff. left. apply N.leb_gt. lia. }
  by destruct ((55296 <=? c)%N && (c <=? 57343)%N).
Qed.

Lemma encode_app s t b c : encode s = Ok b → encode t = Ok c → encode (s ++ t) = Ok (b ++ c).
Proof.
  revert b; induction s as [|a s IH]; intros b H Ht; cbn in *; [by res_inv|].
  destruct (utf8_char a) as [x|]; cbn in *; [|done].
  destruct (encode s) as [bs|]; cbn in *; [|done].
  injection H as <-. rewrite (IH bs eq_refl Ht). cbn. by rewrite (assoc_L (++)).
Qed.

Lemma encodable_app s t : encodable (s ++ t) = encodable s && encodable t.
Proof. apply forallb_app. Qed.

(** ** Dictionaries in insertion order *)
Abbreviation dict V := (list (pystr * V)).

Section dict.
Context {K : Type} `{EqDecision K} {V : Type}.
Implicit Types (d : list (K * V)) (k : K) (v : V).

(** [d.get(k)] *)
Fixpoint dget k d : option V :=
  match d with
  | [] => None
  | (k', v) :: d => if decide (k = k') then Some v else dget k d
  end.

(** [k in d] *)
Definition dmem k d : bool := match dget k d with Some _ => true | None => false end.

(** [d[k] = v]: an existing key keeps its position. *)
Fixpoint dset k v d : list (K * V) :=
  match d with
  | [] => [(k, v)]
  | (k', v') :: d => if decide (k = k') then (k', v) :: d else (k', v') :: dset k v d
  end.

(** [d.pop(k, None)], [del d[k]] *)
Fixpoint ddel k d : list (K * V) :=
  match d with
  | [] => []
  | (k', v') :: d => if decide (k = k') then d else (k', v') :: ddel k d
  end.

(** [d.update(e)] *)
Definition dupdate d (e : list (K * V)) : list (K * V) :=
  foldl (λ d kv, dset kv.1 kv.2 d) d e.

Definition wf_dict d : Prop := NoDup d.*1.

Lemma dget_dset_eq k v d : dget k (dset k v d) = Some v.
Proof.
  induction d as [|[k' v'] d IH]; cbn; [by rewrite decide_True|].
  destruct (decide (k = k')) as [->|]; cbn; [by rewrite decide_True|].
  by rewrite decide_False.
Qed.

Lemma dget_dset_ne k k' v d : k ≠ k' → dget k (dset k' v d) = dget k d.
Proof.
  intros Hne. induction d as [|[j w] d IH]; cbn; [by rewrite decide_False|].
  destruct (decide (k' = j)) as [->|]; cbn; [by rewrite !decide_False|].
  by rewrite IH.
Qed.

Lemma dget_dset k k' v d :
  dget k (dset k' v d) = if decide (k = k') then Some v else dget k d.
Proof. case_decide; subst; [apply dget_dset_eq | by apply dget_dset_ne]. Qed.

Lemma dget_Some_elem k v d : dget k d = Some v → (k, v) ∈ d.
Proof.
  induction d as [|[j w] d IH]; cbn; [done|].
  destruct (decide (k = j)) as [->|].
  - intros [= ->]. apply list_elem_of_here.
  - intros H. apply list_elem_of_further; auto.
Qed.

Lemma dget_None k d : dget k d = None ↔ k ∉ d.*1.
Proof.
  induction d as [|[j w] d IH]; cbn; [split; [intros _; apply not_elem_of_nil|done]|].
  rewrite not_elem_of_cons. destruct (decide (k = j)); [split; [done|by intros []]|].
  rewrite IH. tauto.
Qed.

Lemma dget_is_Some k d : is_Some (dget k d) ↔ k ∈ d.*1.
Proof.
  destruct (decide (k ∈ d.*1)) as [H|H].
  - split; [done|]. intros _. destruct (dget k d) eqn:E; [eauto|]. by apply dget_None in E.
  - split; [|done]. apply dget_None in H as ->. by intros [].
Qed.

Lemma dmem_true k d : dmem k d = true ↔ k ∈ d.*1.
Proof.
  rewrite <- dget_is_Some. unfold dmem.
  destruct (dget k d); split; done || by intros [].
Qed.

Lemma dmem_false k d : dmem k d = false ↔ k ∉ d.*1.
Proof. rewrite <- dget_None. unfold dmem. by destruct (dget k d). Qed.

Lemma dget_elem k v d : wf_dict d → (k, v) ∈ d → dget k d = Some v.
Proof.
  induction d as [|[j w] d IH]; cbn; [by intros _ ?%not_elem_of_nil|].
  intros [Hj Hd]%NoDup_cons [[= -> ->]|Hin]%elem_of_cons; [by rewrite decide_True|].
  rewrite decide_False; [by apply IH|]. intros ->. apply Hj.
  apply (list_elem_of_fmap_2 fst) in Hin. done.
Qed.

Lemma dkeys_dset k v d :
  (dset k v d).*1 = if decide (k ∈ d.*1) then d.*1 else d.*1 ++ [k].
Proof.
  induction d as [|[j w] d IH]; cbn; [done|].
  destruct (decide (k = j)) as [->|Hne]; cbn.
  - rewrite decide_True; [done|apply list_elem_of_here].
  - rewrite IH. destruct (decide (k ∈ d.*1)) as [H|H].
    + rewrite decide_True; [done|]. by apply list_elem_of_further.
    + rewrite decide_False; [done|]. rewrite not_elem_of_cons. done.
Qed.

Lemma elem_of_dkeys_dset j k v d : j ∈ (dset k v d).*1 ↔ j = k ∨ j ∈ d.*1.
Proof. rewrite dkeys_dset. case_decide; set_solver. Qed.

Lemma wf_dset k v d : wf_dict d → wf_dict (dset k v d).
Proof.
  unfold wf_dict. rewrite dkeys_dset. case_decide; [done|]. intros.
  apply NoDup_app. split; [done|]. split; [|apply NoDup_singleton]. set_solver.
Qed.

Lemma elem_of_ddel kv k d : kv ∈ ddel k d → kv ∈ d.
Proof.
  induction d as [|[j w] d IH]; cbn; [done|].
  case_decide; rewrite ?elem_of_cons; tauto.
Qed.

Lemma dkeys_ddel_sublist k d : sublist (ddel k d).*1 d.*1.
Proof.
  induction d as [|[j w] d IH]; cbn; [done|].
  case_decide; [by apply sublist_cons | by apply sublist_skip].
Qed.

Lemma wf_ddel k d : wf_dict d → wf_dict (ddel k d).
Proof. unfold wf_dict. intros H. eapply sublist_NoDup; [exact H | apply dkeys_ddel_sublist]. Qed.

Lemma dget_ddel_ne k k' d : k ≠ k' → dget k (ddel k' d) = dget k d.
Proof.
  intros Hne. induction d as [|[j w] d IH]; cbn; [done|].
  destruct (decide (k' = j)) as [->|]; cbn; [by rewrite decide_False|]. by rewrite IH.
Qed.

Lemma dget_ddel_eq k d : wf_dict d → dget k (ddel k d) = None.
Proof.
  induction d as [|[j w] d IH]; cbn; [done|]. intros [Hj Hd]%NoDup_cons.
  destruct (decide (k = j)) as [->|]; cbn; [by apply dget_None|].
  rewrite decide_False by done. by apply IH.
Qed.

Lemma dget_perm k d e : wf_dict d → d ≡ₚ e → dget k d = dget k e.
Proof.
  intros Hd Hp. assert (He : wf_dict e) by (unfold wf_dict in *; by rewrite <- Hp).
  destruct (dget k e) as [v|] eqn:E.
  - apply dget_elem; [done|]. rewrite Hp. by apply dget_Some_elem.
  - apply dget_None. apply dget_None in E. by rewrite Hp.
Qed.

Lemma dset_fresh k v d : k ∉ d.*1 → dset k v d = d ++ [(k, v)].
Proof.
  induction d as [|[j w] d IH]; cbn; [done|]. rewrite not_elem_of_cons.
  intros [Hne Hd]. rewrite decide_False by done. by rewrite IH.
Qed.
End dict.

(** [{k: v for ...}]: a later duplicate overwrites in place. *)
Definition dict_of {K V} `{EqDecision K} (l : list (K * V)) : list (K * V) := dupdate [] l.

Section dict_of.
Context {K : Type} `{EqDecision K} {V : Type}.
Implicit Types (l : list (K * V)).

Lemma dupdate_fresh d l : NoDup (d ++ l).*1 → dupdate d l = d ++ l.
Proof.
  revert d. induction l as [|[k v] l IH]; intros d H; [by rewrite app_nil_r|].
  change (dupdate (dset k v d) l = d ++ (k, v) :: l).
  assert (Hk : k ∉ d.*1).
  { rewrite fmap_app in H. apply NoDup_app in H as (_ & H & _). intros Hin.
    apply (H k Hin). apply list_elem_of_here. }
  rewrite dset_fresh by done. rewrite IH; rewrite <- app_assoc; done.
Qed.

Lemma dict_of_NoDup l : NoDup l.*1 → dict_of l = l.
Proof. apply (dupdate_fresh []). Qed.
End dict_of.

(** A set made of a list has no more elements than the list. *)
Lemma size_list_to_set_le (l : list pystr) : size (list_to_set l : gset pystr) ≤ length l.
Proof.
  induction l as [|x l IH]; cbn; [by rewrite size_empty|]. rewrite size_union_alt, size_singleton. assert (size (list_to_set l ∖ {[x]} : gset pystr) ≤ size (list_to_set l : gset pystr))
    by (apply subseteq_size; set_solver). lia.
Qed.
