(* ===== verification/Sha256.v ===== *)
(** * SHA-256 ([hashlib.sha256(...).hexdigest()])

    An executable FIPS 180-4 SHA-256 over lists of octets, with the digest as
    the 64-character lowercase hexadecimal string the sources store and
    compare.  The round constants are computed from their definition (the
    fractional parts of roots of the first primes), and the standard test
    vectors are checked below. *)

From Stdlib Require Import ZArith NArith Lia.
From S2P Require Import Prelude PyData.

#[local] Open Scope N_scope.

Definition mask32 (x : N) : N := N.land x 4294967295.
Definition add32 (x y : N) : N := mask32 (x + y).
Definition rotr (n x : N) : N := N.lor (N.shiftr x n) (mask32 (N.shiftl x (32 - n))).
Definition big_sigma0 (x : N) : N := N.lxor (rotr 2 x) (N.lxor (rotr 13 x) (rotr 22 x)).
Definition big_sigma1 (x : N) : N := N.lxor (rotr 6 x) (N.lxor (rotr 11 x) (rotr 25 x)).
Definition small_sigma0 (x : N) : N := N.lxor (rotr 7 x) (N.lxor (rotr 18 x) (N.shiftr x 3)).
Definition small_sigma1 (x : N) : N := N.lxor (rotr 17 x) (N.lxor (rotr 19 x) (N.shiftr x 10)).
Definition choose (x y z : N) : N := N.lxor (N.land x y) (N.land (N.lxor x 4294967295) z).
Definition majority (x y z : N) : N :=
  N.lxor (N.land x y) (N.lxor (N.land x z) (N.land y z)).

(** Largest [r] with [r ^ 3 <= n], bit by bit. *)
Fixpoint cbrt_bits (k : nat) (n r : N) : N :=
  match k with
  | O => r
  | S k => let r' := r + 2 ^ N.of_nat k in cbrt_bits k n (if r' * r' * r' <=? n then r' else r)
  end.

Definition primes64 : list N :=
  [2;3;5;7;11;13;17;19;23;29;31;37;41;43;47;53;59;61;67;71;73;79;83;89;97;101;103;107;109;113;
   127;131;137;139;149;151;157;163;167;173;179;181;191;193;197;199;211;223;227;229;233;239;241;
   251;257;263;269;271;277;281;283;293;307;311].

Definition round_constants : list N :=
  Eval vm_compute in (λ p, mask32 (cbrt_bits 40 (p * 2 ^ 96) 0)) <$> primes64.

Record words8 : Type := W8 { w_a : N; w_b : N; w_c : N; w_d : N; w_e : N; w_f : N; w_g : N; w_h : N }.

Definition initial_hash : words8 :=
  Eval vm_compute in
    let s p := mask32 (N.sqrt (p * 2 ^ 64)) in W8 (s 2) (s 3) (s 5) (s 7) (s 11) (s 13) (s 17) (s 19).

Definition compress (h : words8) (k w : N) : words8 :=
  let t1 := add32 (w_h h) (add32 (big_sigma1 (w_e h))
              (add32 (choose (w_e h) (w_f h) (w_g h)) (add32 k w))) in
  let t2 := add32 (big_sigma0 (w_a h)) (majority (w_a h) (w_b h) (w_c h)) in
  W8 (add32 t1 t2) (w_a h) (w_b h) (w_c h) (add32 (w_d h) t1) (w_e h) (w_f h) (w_g h).

(** Rounds over a sliding window of the last sixteen schedule words. *)
Fixpoint rounds (ks window : list N) (h : words8) : words8 :=
  match ks, window with
  | k :: ks, w0 :: rest =>
      let next := add32 (small_sigma1 (nth 14 window 0))
                    (add32 (nth 9 window 0) (add32 (small_sigma0 (nth 1 window 0)) w0)) in
      rounds ks (rest ++ [next]) (compress h k w0)
  | _, _ => h
  end.

Definition add_words (h k : words8) : words8 :=
  W8 (add32 (w_a h) (w_a k)) (add32 (w_b h) (w_b k)) (add32 (w_c h) (w_c k)) (add32 (w_d h) (w_d k))
     (add32 (w_e h) (w_e k)) (add32 (w_f h) (w_f k)) (add32 (w_g h) (w_g k)) (add32 (w_h h) (w_h k)).

(** Big-endian words of an octet list. *)
Fixpoint be_words (l : list N) : list N :=
  match l with
  | a :: b :: c :: d :: l => (a * 16777216 + b * 65536 + c * 256 + d) :: be_words l
  | _ => []
  end.

Definition be_octets (n : nat) (x : N) : list N :=
  (λ i, N.land (N.shiftr x (8 * N.of_nat i)) 255) <$> rev (seq 0 n).

Definition padded (msg : list N) : list N :=
  let zeros := Z.to_nat ((55 - Z.of_nat (length msg)) mod 64) in
  msg ++ [128] ++ replicate zeros 0 ++ be_octets 8 (8 * N.of_nat (length msg)).

Fixpoint blocks (fuel : nat) (ws : list N) (h : words8) : words8 :=
  match fuel, ws with
  | S fuel, _ :: _ => blocks fuel (drop 16 ws) (add_words h (rounds round_constants (take 16 ws) h))
  | _, _ => h
  end.

Definition hex_digit (d : N) : N := if d <? 10 then 48 + d else 87 + d.
Definition hex_word (x : N) : pystr :=
  (λ i, hex_digit (N.land (N.shiftr x (4 * N.of_nat i)) 15)) <$> rev (seq 0 8).

(** [hashlib.sha256(msg).hexdigest()] *)
Definition sha256_hex (msg : list N) : pystr :=
  let ws := be_words (padded msg) in
  let h := blocks (S (length ws / 16)) ws initial_hash in
  mjoin (hex_word <$> [w_a h; w_b h; w_c h; w_d h; w_e h; w_f h; w_g h; w_h h]).

Example sha256_empty :
  sha256_hex [] = str "e3b0c44298fc1c149afbf4c8996fb92427ae41e4649b934ca495991b7852b855".
Proof. vm_compute. reflexivity. Qed.

Example sha256_abc :
  sha256_hex (str "abc") = str "ba7816bf8f01cfea414140de5dae2223b00361a396177a9cb410ff61f20015ad".
Proof. vm_compute. reflexivity. Qed.

Example sha256_two_blocks :
  sha256_hex (str "abcdbcdecdefdefgefghfghighijhijkijkljklmklmnlmnomnopnopq")
  = str "248d6a61d20638b8e5c026930c3e6039a33ce45964ff2167f6ecedd419db06c1".
Proof. vm_compute. reflexivity. Qed.

(** ** Shape of a digest: 64 characters of [0-9a-f] *)
Definition is_hex (c : N) : bool := in_range 48 57 c || in_range 97 102 c.

Definition is_digest (s : pystr) : bool := (length s =? 64)%nat && forallb is_hex s.

Lemma hex_digit_is_hex d : d < 16 → is_hex (hex_digit d) = true.
Proof.
  intros H. unfold is_hex, hex_digit. apply orb_true_iff. rewrite !in_range_iff.
  destruct (d <? 10) eqn:E; [apply N.ltb_lt in E; left | apply N.ltb_ge in E; right]; lia.
Qed.

Lemma hex_word_shape x : length (hex_word x) = 8%nat ∧ forallb is_hex (hex_word x) = true.
Proof.
  split; [done|]. apply forallb_forall. intros c Hc. unfold hex_word in Hc.
  apply list_elem_of_In, list_elem_of_fmap in Hc as (i & -> & _).
  apply hex_digit_is_hex. change 15 with (N.ones 4). rewrite N.land_ones.
  by apply N.mod_lt.
Qed.

Lemma sha256_hex_is_digest msg : is_digest (sha256_hex msg) = true.
Proof.
  unfold sha256_hex. generalize (blocks (S (length (be_words (padded msg)) / 16))
    (be_words (padded msg)) initial_hash). intros h. cbn [fmap list_fmap].
  unfold is_digest. cbn [mjoin list_join].
  repeat match goal with |- context [hex_word ?x] =>
    destruct (hex_word_shape x); generalize dependent (hex_word x); intros end.
  rewrite !length_app, !forallb_app. cbn [length forallb].
  repeat match goal with H : length _ = 8%nat |- _ => rewrite H; clear H
                       | H : forallb _ _ = true |- _ => rewrite H; clear H end.
  done.
Qed.
