(* ===== verification/PyFloat.v ===== *)
(** * Python floats

    A Python [float] is an IEEE-754 binary64 number, represented by the
    standard library's [spec_float] with precision 53 and maximal exponent
    1024.  This file adds what the sources use beyond arithmetic: decimal
    conversion ([float(text)], correctly rounded), [repr] (the shortest
    decimal that converts back) and the exact comparison of integers and
    floats. *)

From Stdlib Require Import ZArith NArith Lia SpecFloat.
From S2P Require Import Prelude PyData.

#[local] Open Scope Z_scope.

Abbreviation float := spec_float.

#[export] Instance float_eq_dec : EqDecision float.
Proof. solve_decision. Defined.

Definition fadd : float → float → float := SFadd 53 1024.
Definition fsub : float → float → float := SFsub 53 1024.
Definition fmul : float → float → float := SFmul 53 1024.
Definition fdiv : float → float → float := SFdiv 53 1024.
(** [float(n)] *)
Definition float_of_Z (n : Z) : float := binary_normalize 53 1024 n 0 false.
Definition fzero : float := S754_zero false.

Definition is_finite (f : float) : bool :=
  match f with S754_zero _ | S754_finite _ _ _ => true | _ => false end.

(** ** Decimal to binary: [(-1)^neg * d * 10^e], round to nearest even. *)
Definition float_of_dec (neg : bool) (d e : Z) : float :=
  if (d =? 0) then S754_zero neg
  else if (0 <=? e) then binary_normalize 53 1024 (cond_Zopp neg (d * 10 ^ e)) 0 neg
  else
    let den := 10 ^ (- e) in
    let k := Z.max 0 (Z.log2 den - Z.log2 d + 66) in
    let q := d * 2 ^ k / den in
    let sticky := if (d * 2 ^ k mod den =? 0) then 0 else 1 in
    binary_normalize 53 1024 (cond_Zopp neg (2 * q + sticky)) (- (k + 1)) neg.

(** ** [repr] *)

(** [p] with [10 ^ (p-1) <= num/den < 10 ^ p], from an estimate. *)
Fixpoint decimal_point (fuel : nat) (num den p : Z) : Z :=
  match fuel with
  | O => p
  | S fuel =>
      if (if 0 <=? p then den * 10 ^ p <=? num else den <=? num * 10 ^ (- p))
      then decimal_point fuel num den (p + 1)
      else if (if 0 <=? p - 1 then num <? den * 10 ^ (p - 1) else num * 10 ^ (1 - p) <? den)
      then decimal_point fuel num den (p - 1)
      else p
  end.

(** The shortest digit string, trying [n], [n+1], ... digits. *)
Fixpoint shortest (fuel : nat) (m : positive) (e : Z) (num den p n : Z) : Z * Z :=
  let '(sn, sd) := if 0 <=? n - p then (num * 10 ^ (n - p), den) else (num, den * 10 ^ (p - n)) in
  let lo := sn / sd in
  let r := sn mod sd in
  let hits d := bool_decide (float_of_dec false d (p - n) = S754_finite false m e) in
  let best := if 2 * r <=? sd then (lo, lo + 1) else (lo + 1, lo) in
  if hits best.1 then (best.1, n)
  else if hits best.2 then (best.2, n)
  else match fuel with
       | O => (best.1, n)
       | S fuel => shortest fuel m e num den p (n + 1)
       end.

Fixpoint strip_zeros (s : pystr) : pystr :=
  match s with
  | [] => []
  | c :: s => match strip_zeros s with
              | [] => if (c =? 48)%N then [] else [c]
              | s' => c :: s'
              end
  end.

Definition zeros (n : Z) : pystr := replicate (Z.to_nat n) 48%N.

Definition exponent_text (e : Z) : pystr :=
  (if e <? 0 then [45%N] else [43%N])
  ++ (if Z.abs e <? 10 then [48%N] else []) ++ str_of_nonneg (Z.abs e).

Definition repr_digits (ds : pystr) (p : Z) : pystr :=
  let k := Z.of_nat (length ds) in
  if (-4 <? p) && (p <=? 16) then
    if p <=? 0 then str "0." ++ zeros (- p) ++ ds
    else if k <=? p then ds ++ zeros (p - k) ++ str ".0"
    else take (Z.to_nat p) ds ++ [46%N] ++ drop (Z.to_nat p) ds
  else
    match ds with
    | [] => []
    | [c] => [c] ++ [101%N] ++ exponent_text (p - 1)
    | c :: cs => [c] ++ [46%N] ++ cs ++ [101%N] ++ exponent_text (p - 1)
    end.

Definition repr_pos (m : positive) (e : Z) : pystr :=
  let '(num, den) := if 0 <=? e then (Zpos m * 2 ^ e, 1) else (Zpos m, 2 ^ (- e)) in
  let p := decimal_point 8 num den ((Z.log2 num - Z.log2 den) * 30103 / 100000) in
  let '(d, n) := shortest 16 m e num den p 1 in
  if d =? 10 ^ n then repr_digits [49%N] (p + 1)
  else repr_digits (strip_zeros (str_of_nonneg d)) p.

(** [float.__repr__] *)
Definition float_repr (f : float) : pystr :=
  match f with
  | S754_zero false => str "0.0"
  | S754_zero true => str "-0.0"
  | S754_infinity false => str "inf"
  | S754_infinity true => str "-inf"
  | S754_nan => str "nan"
  | S754_finite s m e => (if s then [45%N] else []) ++ repr_pos m e
  end.

(** ** Numbers: Python compares integers and floats exactly *)
Inductive num : Type := NInt (z : Z) | NFloat (f : float).

Definition dyadic_compare (m1 e1 m2 e2 : Z) : comparison :=
  let e := Z.min e1 e2 in m1 * 2 ^ (e1 - e) ?= m2 * 2 ^ (e2 - e).

Definition to_float_view (x : num) : float + (Z * Z) :=
  match x with
  | NInt z => inr (z, 0)
  | NFloat (S754_zero _) => inr (0, 0)
  | NFloat (S754_finite s m e) => inr (cond_Zopp s (Zpos m), e)
  | NFloat f => inl f
  end.

(** [None] when one side is NaN. *)
Definition num_compare (x y : num) : option comparison :=
  match to_float_view x, to_float_view y with
  | inr (m1, e1), inr (m2, e2) => Some (dyadic_compare m1 e1 m2 e2)
  | inl f, inl g => SFcompare f g
  | inl f, inr _ => SFcompare f fzero
  | inr _, inl g => SFcompare fzero g
  end.

Definition num_eqb (x y : num) : bool :=
  match num_compare x y with Some Eq => true | _ => false end.
Definition num_ltb (x y : num) : bool :=
  match num_compare x y with Some Lt => true | _ => false end.
Definition num_leb (x y : num) : bool :=
  match num_compare x y with Some (Lt | Eq) => true | _ => false end.
(** [math.isfinite] *)
Definition num_finite (x : num) : bool :=
  match x with NInt _ => true | NFloat f => is_finite f end.

(** [round(x, n)]: the decimal with [n] places nearest to the exact value
    (ties to even), read back as a float. *)
Definition round_half_even (p q : Z) : Z :=
  let d := p / q in
  match (2 * (p mod q) ?= q)%Z with
  | Lt => d
  | Gt => d + 1
  | Eq => if Z.even d then d else d + 1
  end.
Definition fround (f : float) (places : Z) : float :=
  match f with
  | S754_finite s m e =>
      let d := if (0 <=? e)%Z then Zpos m * 2 ^ e * 10 ^ places
               else round_half_even (Zpos m * 10 ^ places) (2 ^ (- e)) in
      float_of_dec s d (- places)
  | _ => f
  end.

Example round_half : float_repr (fround (float_of_dec false 2675 (-3)) 2) = str "2.67".
Proof. vm_compute. reflexivity. Qed.
Example round_tie : float_repr (fround (float_of_dec false 125 (-3)) 2) = str "0.12".
Proof. vm_compute. reflexivity. Qed.
Example round_small : float_repr (fround (float_of_dec true 4 (-4)) 3) = str "-0.0".
Proof. vm_compute. reflexivity. Qed.

Example repr_tenth : float_repr (float_of_dec false 1 (-1)) = str "0.1".
Proof. vm_compute. reflexivity. Qed.
Example repr_third : float_repr (fdiv (float_of_Z 1) (float_of_Z 3)) = str "0.3333333333333333".
Proof. vm_compute. reflexivity. Qed.
Example repr_big : float_repr (float_of_dec false 1 16) = str "1e+16".
Proof. vm_compute. reflexivity. Qed.
Example repr_1e15 : float_repr (float_of_dec true 1 15) = str "-1000000000000000.0".
Proof. vm_compute. reflexivity. Qed.
Example repr_small : float_repr (float_of_dec false 1234 (-8)) = str "1.234e-05".
Proof. vm_compute. reflexivity. Qed.
Example repr_pow2 : float_repr (float_of_dec false 9007199254740993 0) = str "9007199254740992.0".
Proof. vm_compute. reflexivity. Qed.
Example repr_denorm : float_repr (float_of_dec false 5 (-324)) = str "5e-324".
Proof. vm_compute. reflexivity. Qed.
Example repr_gay : float_repr (S754_finite false 4503599627370496 (-96)) = str "5.684341886080802e-14".
Proof. vm_compute. reflexivity. Qed.
Example repr_half_ms : float_repr (fmul (fsub (float_of_dec false 15 (-1)) (float_of_Z 1)) (float_of_Z 1000)) = str "500.0".
Proof. vm_compute. reflexivity. Qed.
