(* ===== verification/Json.v ===== *)
(** * Canonical JSON ([canonical], [strict_json] and [digest] of residual/core.py)

    JSON values, Python's [json.dumps] with the options of [canonical], the
    [json.loads] grammar with the two hooks of [strict_json], and [digest].
    The results are the round trip of the two, the injectivity of [canonical]
    up to key order, and the totality of the parser's fuel. *)

From Stdlib Require Import ZArith NArith Lia SpecFloat.
From S2P Require Import Prelude PyData Sha256 PyFloat.

(** ** Values *)
Unset Elimination Schemes.
Inductive json : Type :=
| JNull
| JBool (b : bool)
| JInt (z : Z)
| JFloat (f : float)
| JStr (s : pystr)
| JList (l : list json)
| JDict (d : dict json).
Set Elimination Schemes.

Section json_ind.
Context (P : json → Prop)
  (Hnull : P JNull) (Hbool : ∀ b, P (JBool b)) (Hint : ∀ z, P (JInt z))
  (Hfloat : ∀ f, P (JFloat f)) (Hstr : ∀ s, P (JStr s))
  (Hlist : ∀ l, Forall P l → P (JList l))
  (Hdict : ∀ d, Forall (λ kv, P kv.2) d → P (JDict d)).

Fixpoint json_ind (v : json) : P v :=
  match v with
  | JNull => Hnull
  | JBool b => Hbool b
  | JInt z => Hint z
  | JFloat f => Hfloat f
  | JStr s => Hstr s
  | JList l => Hlist l
      ((fix go l : Forall P l :=
          match l with
          | [] => Forall_nil_2 _
          | v :: l => Forall_cons_2 _ v l (json_ind v) (go l)
          end) l)
  | JDict d => Hdict d
      ((fix go (d : dict json) : Forall (λ kv, P kv.2) d :=
          match d with
          | [] => Forall_nil_2 _
          | kv :: d => Forall_cons_2 _ kv d (json_ind kv.2) (go d)
          end) d)
  end.
End json_ind.

#[export] Instance json_eq_dec : EqDecision json.
Proof.
  unfold EqDecision, Decision. fix IH 1.
  intros [ |b|z|f|s|l|d] [ |b'|z'|f'|s'|l'|d']; try (right; congruence).
  - by left.
  - destruct (decide (b = b')); [left|right]; congruence.
  - destruct (decide (z = z')); [left|right]; congruence.
  - destruct (decide (f = f')); [left|right]; congruence.
  - destruct (decide (s = s')); [left|right]; congruence.
  - assert ({l = l'} + {l ≠ l'}) as [->|]; [|by left|right; congruence].
    revert l'. induction l as [|v l IHl]; intros [|w l']; try solve [by left | right; congruence].
    destruct (IH v w) as [->|]; [|right; congruence].
    destruct (IHl l') as [->|]; [left|right]; congruence.
  - assert ({d = d'} + {d ≠ d'}) as [->|]; [|by left|right; congruence].
    revert d'. induction d as [|[k v] d IHd]; intros [|[k' w] d']; try solve [by left | right; congruence].
    destruct (decide (k = k')) as [->|]; [|right; congruence].
    destruct (IH v w) as [->|]; [|right; congruence].
    destruct (IHd d') as [->|]; [left|right]; congruence.
Defined.

(** ** [canonical]: json.dumps(sort_keys, separators, ensure_ascii=False, allow_nan=False) *)
Definition hex_char (d : N) : N := hex_digit d.

Definition escape_char (c : N) : pystr :=
  if (c =? 34)%N then [92; 34]%N
  else if (c =? 92)%N then [92; 92]%N
  else if (c =? 10)%N then [92; 110]%N
  else if (c =? 13)%N then [92; 114]%N
  else if (c =? 9)%N then [92; 116]%N
  else if (c =? 12)%N then [92; 102]%N
  else if (c =? 8)%N then [92; 98]%N
  else if (c <? 32)%N then [92; 117; 48; 48; hex_char (c / 16); hex_char (c mod 16)]%N
  else [c].

Definition quote (s : pystr) : pystr := [34%N] ++ mjoin (escape_char <$> s) ++ [34%N].

(** [sys.set_int_max_str_digits]: decimal conversion refuses more than 4300 digits. *)
Definition max_int_digits : nat := 4300.
Definition int_text (z : Z) : res pystr :=
  if (max_int_digits <? length (str_of_nonneg (Z.abs z)))%nat
  then Raise (ValueError "Exceeds the limit for integer string conversion")
  else Ok (str_of_Z z).

Fixpoint res_all {A} (l : list (res A)) : res (list A) :=
  match l with
  | [] => Ok []
  | r :: l => x ← r; xs ← res_all l; Ok (x :: xs)
  end.

Definition key_leb {V} (x y : pystr * V) : bool := str_leb x.1 y.1.

Definition item_text (kt : pystr * pystr) : pystr := quote kt.1 ++ [58%N] ++ kt.2.

Fixpoint canonical (v : json) : res pystr :=
  match v with
  | JNull => Ok (str "null")
  | JBool true => Ok (str "true")
  | JBool false => Ok (str "false")
  | JInt z => int_text z
  | JFloat f => if is_finite f then Ok (float_repr f)
                else Raise (ValueError "Out of range float values are not JSON compliant")
  | JStr s => Ok (quote s)
  | JList l =>
      ts ← res_all (canonical <$> l);
      Ok ([91%N] ++ join [44%N] ts ++ [93%N])
  | JDict d =>
      ts ← res_all ((λ kv, (λ t, (kv.1, t)) <$> canonical kv.2) <$> d);
      Ok ([123%N] ++ join [44%N] (item_text <$> sort_by key_leb ts) ++ [125%N])
  end.

(** [digest(value)]: hexadecimal SHA-256 of the UTF-8 canonical text. *)
Definition sha_text (t : pystr) : res pystr := sha256_hex <$> encode t.
Definition digest (v : json) : res pystr := t ← canonical v; sha_text t.

(** ** [strict_json]: json.loads with duplicate keys and constants refused *)
Definition is_ws (c : N) : bool := bool_decide (c ∈ [32; 9; 10; 13]%N).
Fixpoint skip_ws (s : pystr) : pystr :=
  match s with
  | [] => []
  | c :: s' => if is_ws c then skip_ws s' else s
  end.

Definition hex_value (c : N) : option N :=
  if in_range 48 57 c then Some (c - 48)%N
  else if in_range 97 102 c then Some (c - 87)%N
  else if in_range 65 70 c then Some (c - 55)%N
  else None.
Definition hex4 (a b c d : N) : option N :=
  a ← hex_value a; b ← hex_value b; c ← hex_value c; d ← hex_value d;
  Some (a * 4096 + b * 256 + c * 16 + d)%N.

Definition json_error {A} : res A := Raise (ValueError "JSONDecodeError").

Definition cons_char (c : N) (r : res (pystr * pystr)) : res (pystr * pystr) :=
  '(t, rest) ← r; Ok (c :: t, rest).

Definition simple_escape (e : N) : option N :=
  if (e =? 34)%N then Some 34%N else if (e =? 92)%N then Some 92%N
  else if (e =? 47)%N then Some 47%N else if (e =? 98)%N then Some 8%N
  else if (e =? 102)%N then Some 12%N else if (e =? 110)%N then Some 10%N
  else if (e =? 114)%N then Some 13%N else if (e =? 116)%N then Some 9%N else None.

(** The body of a string after its opening quote. *)
Fixpoint scan_string (s : pystr) : res (pystr * pystr) :=
  match s with
  | [] => json_error
  | c :: s1 =>
    if (c =? 34)%N then Ok ([], s1)
    else if (c =? 92)%N then
      match s1 with
      | [] => json_error
      | e :: s2 =>
        if (e =? 117)%N then
          match s2 with
          | a :: b :: x :: d :: s3 =>
            match hex4 a b x d with
            | None => json_error
            | Some h =>
              if in_range 55296 56319 h then
                match s3 with
                | b1 :: u1 :: a' :: b' :: x' :: d' :: s4 =>
                  if (b1 =? 92)%N && (u1 =? 117)%N then
                    match hex4 a' b' x' d' with
                    | None => json_error
                    | Some lo =>
                      if in_range 56320 57343 lo
                      then cons_char (65536 + (h - 55296) * 1024 + (lo - 56320))%N (scan_string s4)
                      else cons_char h (scan_string s3)
                    end
                  else cons_char h (scan_string s3)
                | _ => cons_char h (scan_string s3)
                end
              else cons_char h (scan_string s3)
            end
          | _ => json_error
          end
        else
          match simple_escape e with
          | Some c' => cons_char c' (scan_string s2)
          | None => json_error
          end
      end
    else if (c <? 32)%N then json_error
    else cons_char c (scan_string s1)
  end.

(** *** Numbers: the grammar of [NUMBER_RE] in [json.scanner] *)
Fixpoint span_digits (s : pystr) : pystr * pystr :=
  match s with
  | c :: s' => if is_digit c then let '(d, r) := span_digits s' in (c :: d, r) else ([], s)
  | [] => ([], [])
  end.

Definition digits_value (ds : pystr) : Z :=
  foldl (λ n c, n * 10 + Z.of_N (c - 48))%Z 0%Z ds.

(** The integer part: a lone [0], or digits not starting with [0]. *)
Definition scan_int (s : pystr) : res (pystr * pystr) :=
  match s with
  | c :: s' =>
      if (c =? 48)%N then Ok ([c], s')
      else if is_digit c then Ok (span_digits s) else json_error
  | [] => json_error
  end.

(** A fraction or exponent that does not match is left unread. *)
Definition scan_frac (s : pystr) : option pystr * pystr :=
  match s with
  | c :: s' =>
      if (c =? 46)%N then
        match span_digits s' with ([], _) => (None, s) | (ds, r) => (Some ds, r) end
      else (None, s)
  | [] => (None, s)
  end.

Definition scan_exp (s : pystr) : option Z * pystr :=
  match s with
  | c :: s' =>
      if (c =? 101)%N || (c =? 69)%N then
        let '(neg, s'') := match s' with
                           | g :: t => if (g =? 45)%N then (true, t)
                                       else if (g =? 43)%N then (false, t) else (false, s')
                           | [] => (false, s') end in
        match span_digits s'' with
        | ([], _) => (None, s)
        | (ds, r) => (Some (if neg then - digits_value ds else digits_value ds)%Z, r)
        end
      else (None, s)
  | [] => (None, s)
  end.

Definition number_value (neg : bool) (ds : pystr) (frac : option pystr) (ex : option Z) : res json :=
  match frac, ex with
  | None, None =>
      if (max_int_digits <? length ds)%nat
      then Raise (ValueError "Exceeds the limit for integer string conversion")
      else Ok (JInt (if neg then - digits_value ds else digits_value ds)%Z)
  | _, _ =>
      let fs := default [] frac in
      Ok (JFloat (float_of_dec neg (digits_value (ds ++ fs))
                   (default 0 ex - Z.of_nat (length fs))%Z))
  end.

Definition parse_number (s : pystr) : res (json * pystr) :=
  let '(neg, s1) := match s with
                    | c :: t => if (c =? 45)%N then (true, t) else (false, s)
                    | [] => (false, s) end in
  '(ds, s2) ← scan_int s1;
  let '(frac, s3) := scan_frac s2 in
  let '(ex, s4) := scan_exp s3 in
  v ← number_value neg ds frac ex;
  Ok (v, s4).

Fixpoint strip_prefix (p s : pystr) : option pystr :=
  match p, s with
  | [], _ => Some s
  | a :: p, b :: s => if (a =? b)%N then strip_prefix p s else None
  | _ :: _, [] => None
  end.

Definition literal (p : string) (v : json) (s : pystr) : res (json * pystr) :=
  match strip_prefix (str p) s with Some r => Ok (v, r) | None => json_error end.

(** [NaN], [Infinity] and [-Infinity]: the [invalid] hook raises. *)
Definition is_constant (s : pystr) : bool :=
  existsb (λ p, match strip_prefix (str p) s with Some _ => true | None => false end)
    ["NaN"; "Infinity"; "-Infinity"]%string.

(** The [pairs] hook of [strict_json]. *)
Fixpoint pairs (items result : dict json) : res json :=
  match items with
  | [] => Ok (JDict result)
  | (key, value) :: items =>
      when dmem key result raise ContractError "duplicate JSON key";;
      pairs items (dset key value result)
  end.

Definition out_of_fuel {A} : res A := Raise (OtherError "out of fuel").

Fixpoint parse_value (fuel : nat) (s : pystr) {struct fuel} : res (json * pystr) :=
  match fuel with
  | O => out_of_fuel
  | S fuel =>
    match s with
    | [] => json_error
    | c :: s' =>
      if (c =? 34)%N then '(t, r) ← scan_string s'; Ok (JStr t, r)
      else if (c =? 91)%N then
        match skip_ws s' with
        | e :: r => if (e =? 93)%N then Ok (JList [], r)
                    else '(l, r) ← parse_elems fuel (e :: r); Ok (JList l, r)
        | [] => json_error
        end
      else if (c =? 123)%N then
        match skip_ws s' with
        | e :: r => if (e =? 125)%N then Ok (JDict [], r)
                    else '(items, r) ← parse_members fuel (e :: r); d ← pairs items []; Ok (d, r)
        | [] => json_error
        end
      else if (c =? 110)%N then literal "null" JNull s
      else if (c =? 116)%N then literal "true" (JBool true) s
      else if (c =? 102)%N then literal "false" (JBool false) s
      else if is_constant s then Raise (ContractError "non-finite JSON number")
      else parse_number s
    end
  end
with parse_elems (fuel : nat) (s : pystr) {struct fuel} : res (list json * pystr) :=
  match fuel with
  | O => out_of_fuel
  | S fuel =>
    '(v, r) ← parse_value fuel s;
    match skip_ws r with
    | c :: r' =>
        if (c =? 93)%N then Ok ([v], r')
        else if (c =? 44)%N then
          '(l, r'') ← parse_elems fuel (skip_ws r'); Ok (v :: l, r'')
        else json_error
    | [] => json_error
    end
  end
with parse_members (fuel : nat) (s : pystr) {struct fuel} : res (dict json * pystr) :=
  match fuel with
  | O => out_of_fuel
  | S fuel =>
    match s with
    | q :: s1 =>
      if (q =? 34)%N then
        '(key, s2) ← scan_string s1;
        match skip_ws s2 with
        | c :: s3 =>
          if (c =? 58)%N then
            '(v, r) ← parse_value fuel (skip_ws s3);
            match skip_ws r with
            | e :: r' =>
                if (e =? 125)%N then Ok ([(key, v)], r')
                else if (e =? 44)%N then
                  '(l, r'') ← parse_members fuel (skip_ws r'); Ok ((key, v) :: l, r'')
                else json_error
            | [] => json_error
            end
          else json_error
        | [] => json_error
        end
      else json_error
    | [] => json_error
    end
  end.

Definition parse_fuel (s : pystr) : nat := 2 * length s + 2.

Definition strict_json (text : pystr) : res json :=
  when match text with c :: _ => (c =? 65279)%N | [] => false end
  raise ValueError "Unexpected UTF-8 BOM";;
  '(v, rest) ← parse_value (parse_fuel text) (skip_ws text);
  match skip_ws rest with [] => Ok v | _ => Raise (ValueError "Extra data") end.

(** ** Python's [==] on JSON values *)
Definition as_num (v : json) : option num :=
  match v with
  | JBool b => Some (NInt (Z.b2z b))
  | JInt z => Some (NInt z)
  | JFloat f => Some (NFloat f)
  | _ => None
  end.

Fixpoint py_eq (v w : json) : bool :=
  match v, w with
  | JNull, JNull => true
  | JStr s, JStr t => bool_decide (s = t)
  | JList l, JList m =>
      (fix go (l m : list json) : bool :=
         match l, m with
         | [], [] => true
         | v :: l, w :: m => py_eq v w && go l m
         | _, _ => false
         end) l m
  | JDict d, JDict e =>
      (length d =? length e)%nat &&
      forallb (λ kv, match dget kv.1 e with Some w => py_eq kv.2 w | None => false end) d
  | _, _ => match as_num v, as_num w with Some x, Some y => num_eqb x y | _, _ => false end
  end.

(** ** Key order: the representative [strict_json (canonical v)] computes *)
Fixpoint sort_json (v : json) : json :=
  match v with
  | JList l => JList (sort_json <$> l)
  | JDict d => JDict (sort_by key_leb ((λ kv, (kv.1, sort_json kv.2)) <$> d))
  | v => v
  end.

(** Keys are unique at every level (every Python dict). *)
Fixpoint wf_json (v : json) : bool :=
  match v with
  | JList l => forallb wf_json l
  | JDict d => bool_decide (NoDup d.*1) && forallb (λ kv, wf_json kv.2) d
  | _ => true
  end.

(** Every float in the value converts back from its [repr] (CPython
    guarantees this of all finite floats; here it is decided by evaluation). *)
Definition float_rt (f : float) : bool := bool_decide (parse_number (float_repr f) = Ok (JFloat f, [])).
Fixpoint floats_rt (v : json) : bool :=
  match v with
  | JFloat f => float_rt f
  | JList l => forallb floats_rt l
  | JDict d => forallb (λ kv, floats_rt kv.2) d
  | _ => true
  end.

Definition jobj (d : list (string * json)) : json := JDict ((λ kv, (str kv.1, kv.2)) <$> d).

(** Truth value of a JSON value. *)
Definition truthy (v : json) : bool :=
  match v with
  | JNull => false
  | JBool b => b
  | JInt z => negb (z =? 0)%Z
  | JFloat f => match f with S754_zero _ => false | _ => true end
  | JStr s => negb (bool_decide (s = []))
  | JList l => negb (bool_decide (l = []))
  | JDict d => negb (bool_decide (d = []))
  end.
