(* ===== verification/JsonFacts.v ===== *)
(** * Facts about canonical JSON: round trip, injectivity, fuel *)

From Stdlib Require Import ZArith NArith Lia.
From S2P Require Import Prelude PyData Sha256 PyFloat Json.

#[local] Arguments digits_value : simpl never.

(** ** Decimal text of integers *)
Section decimal.
Open Scope Z_scope.

Lemma digit_char_digit d : 0 <= d < 10 → is_digit (digit_char d) = true.
Proof. intros. unfold is_digit, digit_char. apply in_range_iff. lia. Qed.

Lemma digits_value_app ds es :
  digits_value (ds ++ es) = foldl (λ n c, n * 10 + Z.of_N (c - 48)) (digits_value ds) es.
Proof. unfold digits_value. by rewrite foldl_app. Qed.

Lemma dec_digits_spec fuel n acc :
  0 <= n < 2 ^ Z.of_nat fuel → (0 < fuel)%nat →
  ∃ d ds, dec_digits fuel n acc = (d :: ds) ++ acc ∧
    Forall (λ c, is_digit c = true) (d :: ds) ∧
    digits_value (d :: ds) = n ∧ (d = 48%N → ds = [] ∧ n = 0).
Proof.
  revert n acc. induction fuel as [|fuel IH]; intros n acc Hn Hf; [lia|]. cbn [dec_digits].
  pose proof (Z.mod_pos_bound n 10 ltac:(lia)) as Hm.
  destruct (n <? 10) eqn:E; [apply Z.ltb_lt in E | apply Z.ltb_ge in E].
  - exists (digit_char (n mod 10)), []. rewrite (Z.mod_small n 10) by lia.
    split; [done|]. split; [repeat constructor; by apply digit_char_digit; lia|].
    unfold digits_value, digit_char; cbn. split; [lia|]. intros. split; [done|lia].
  - assert (Hn' : 0 <= n / 10 < 2 ^ Z.of_nat fuel).
    { split; [apply Z.div_pos; lia|]. apply Z.div_lt_upper_bound; [lia|].
      rewrite Nat2Z.inj_succ, Z.pow_succ_r in Hn by lia. lia. }
    destruct fuel as [|fuel]; [change (2 ^ Z.of_nat 0) with 1 in Hn'; lia|].
    destruct (IH (n / 10) (digit_char (n mod 10) :: acc) Hn' ltac:(lia))
      as (d & ds & -> & Hds & Hv & Hz).
    exists d, (ds ++ [digit_char (n mod 10)]). split; [by rewrite app_comm_cons, <- app_assoc|].
    split; [rewrite app_comm_cons; apply Forall_app; split; [done|];
            repeat constructor; by apply digit_char_digit|].
    split.
    + rewrite app_comm_cons, digits_value_app, Hv. cbn. unfold digit_char.
      pose proof (Z.div_mod n 10 ltac:(lia)). lia.
    + intros Hd. destruct (Hz Hd) as [_ H0].
      assert (1 <= n / 10) by (apply Z.div_le_lower_bound; lia). lia.
Qed.

Lemma str_of_nonneg_spec n :
  0 <= n →
  ∃ d ds, str_of_nonneg n = d :: ds ∧ Forall (λ c, is_digit c = true) (d :: ds) ∧
    digits_value (d :: ds) = n ∧ (d = 48%N → ds = []).
Proof.
  intros Hn. unfold str_of_nonneg.
  destruct (dec_digits_spec (S (Z.to_nat (Z.log2 n))) n []) as (d & ds & -> & H1 & H2 & H3).
  - split; [done|]. rewrite Nat2Z.inj_succ, Z2Nat.id by apply Z.log2_nonneg.
    destruct (decide (n = 0)) as [->|]; [done|]. apply Z.log2_spec. lia.
  - lia.
  - exists d, ds. rewrite app_nil_r. repeat split; try done. intros. by apply H3.
Qed.
End decimal.

(** ** Numbers *)

(** What may follow a number in canonical text. *)
Definition terminated (rest : pystr) : Prop :=
  match rest with
  | [] => True
  | c :: _ => is_digit c = false ∧ c ≠ 46%N ∧ c ≠ 101%N ∧ c ≠ 69%N
  end.

Lemma span_digits_app s d r rest :
  span_digits s = (d, r) → (r = [] → match rest with [] => True | c :: _ => is_digit c = false end) →
  span_digits (s ++ rest) = (d, r ++ rest).
Proof.
  revert d r. induction s as [|c s IH]; intros d r H Hr; cbn in *.
  - injection H as <- <-. destruct rest as [|c rest]; [done|]. cbn. by rewrite (Hr eq_refl).
  - destruct (is_digit c); [|by injection H as <- <-].
    destruct (span_digits s) as [d' r'] eqn:E. injection H as <- <-.
    by erewrite IH by done.
Qed.

Lemma span_digits_all ds rest :
  Forall (λ c, is_digit c = true) ds →
  match rest with [] => True | c :: _ => is_digit c = false end →
  span_digits (ds ++ rest) = (ds, rest).
Proof.
  intros H Hr. induction H as [|c ds Hc Hds IH]; cbn.
  - destruct rest as [|c rest]; [done|]. cbn. by rewrite Hr.
  - by rewrite Hc, IH.
Qed.

Lemma scan_frac_terminated rest : terminated rest → scan_frac rest = (None, rest).
Proof.
  destruct rest as [|c rest]; cbn; [done|]. intros (_ & H & _).
  by rewrite (proj2 (N.eqb_neq c 46) H).
Qed.

Lemma scan_exp_terminated rest : terminated rest → scan_exp rest = (None, rest).
Proof.
  destruct rest as [|c rest]; cbn; [done|]. intros (_ & _ & H1 & H2).
  by rewrite (proj2 (N.eqb_neq c 101) H1), (proj2 (N.eqb_neq c 69) H2).
Qed.

Lemma digit_not c x : is_digit c = true → is_digit x = false → (c =? x)%N = false.
Proof. intros H1 H2. apply N.eqb_neq. intros ->. congruence. Qed.

Lemma parse_number_int z t rest :
  int_text z = Ok t → terminated rest → parse_number (t ++ rest) = Ok (JInt z, rest).
Proof.
  unfold int_text. intros H Hr. destruct (_ <? _)%nat eqn:Hlen; [done|]. injection H as <-.
  destruct (str_of_nonneg_spec (Z.abs z) ltac:(lia)) as (d & ds & E & Hds & Hv & H0).
  rewrite E in Hlen. pose proof (Forall_inv Hds) as Hd.
  assert (Hscan : scan_int ((d :: ds) ++ rest) = Ok (d :: ds, rest)).
  { cbn [scan_int app]. destruct (d =? 48)%N eqn:E0.
    - apply N.eqb_eq in E0. by rewrite (H0 E0).
    - rewrite Hd. f_equal. apply (span_digits_all (d :: ds) rest); [done|].
      destruct rest; [done|]. apply Hr. }
  unfold parse_number, str_of_Z. destruct (z <? 0)%Z eqn:Hz.
  - apply Z.ltb_lt in Hz. rewrite Z.abs_neq in * by lia. rewrite E, <- app_comm_cons.
    change (45 =? 45)%N with true. cbv iota. rewrite Hscan. unfold mbind at 1, res_bind at 1.
    rewrite (scan_frac_terminated _ Hr), (scan_exp_terminated _ Hr).
    unfold number_value. rewrite Hlen. cbn. rewrite Hv. do 2 f_equal. f_equal. lia.
  - apply Z.ltb_ge in Hz. rewrite Z.abs_eq in * by lia. rewrite E.
    change ((d :: ds) ++ rest) with (d :: (ds ++ rest)) at 1. cbv iota.
    rewrite (digit_not d 45 Hd) by done. rewrite Hscan. unfold mbind at 1, res_bind at 1.
    rewrite (scan_frac_terminated _ Hr), (scan_exp_terminated _ Hr).
    unfold number_value. rewrite Hlen. cbn. by rewrite Hv.
Qed.

Lemma span_digits_terminated s d r rest :
  terminated rest → span_digits s = (d, r) → span_digits (s ++ rest) = (d, r ++ rest).
Proof.
  intros Hr H. apply span_digits_app; [done|]. intros _. destruct rest; [done|]. apply Hr.
Qed.

Lemma scan_int_app s ds r rest :
  terminated rest → scan_int s = Ok (ds, r) → scan_int (s ++ rest) = Ok (ds, r ++ rest).
Proof.
  intros Hr H. destruct s as [|c s]; [done|]. cbn [app scan_int] in *.
  destruct (c =? 48)%N; [by injection H as <- <-|].
  destruct (is_digit c); [|done]. injection H as H. f_equal.
  by apply (span_digits_terminated (c :: s)).
Qed.

Lemma scan_frac_app s f r rest :
  terminated rest → scan_frac s = (f, r) → scan_frac (s ++ rest) = (f, r ++ rest).
Proof.
  intros Hr H. destruct s as [|c s].
  - injection H as <- <-. by apply scan_frac_terminated.
  - cbn [app scan_frac] in *. destruct (c =? 46)%N; [|by injection H as <- <-].
    destruct (span_digits s) as [ds r'] eqn:E.
    rewrite (span_digits_terminated _ _ _ _ Hr E).
    destruct ds; by injection H as <- <-.
Qed.

Lemma scan_exp_app s ex rest :
  terminated rest → scan_exp s = (ex, []) → scan_exp (s ++ rest) = (ex, rest).
Proof.
  intros Hr H. destruct s as [|c s].
  { injection H as <-. by apply scan_exp_terminated. }
  cbn [app scan_exp] in *. destruct ((c =? 101)%N || (c =? 69)%N); [|done].
  destruct s as [|g s]; [done|]. cbn [app].
  destruct (if (g =? 45)%N then (true, s) else if (g =? 43)%N then (false, s) else (false, g :: s))
    as [neg s''] eqn:Eg.
  assert (Eg' : (if (g =? 45)%N then (true, s ++ rest) else if (g =? 43)%N then (false, s ++ rest)
                 else (false, g :: s ++ rest)) = (neg, s'' ++ rest)).
  { destruct (g =? 45)%N; [by injection Eg as <- <-|].
    destruct (g =? 43)%N; by injection Eg as <- <-. }
  rewrite Eg'. destruct (span_digits s'') as [ds r'] eqn:E.
  rewrite (span_digits_terminated _ _ _ _ Hr E).
  destruct ds; [done|]. by injection H as <- ->.
Qed.

Lemma parse_number_app s v rest :
  terminated rest → parse_number s = Ok (v, []) → parse_number (s ++ rest) = Ok (v, rest).
Proof.
  intros Hr H. destruct s as [|c s]; [done|]. unfold parse_number in *. cbn [app].
  destruct (if (c =? 45)%N then (true, s) else (false, c :: s)) as [neg s1] eqn:Ec.
  assert (Ec' : (if (c =? 45)%N then (true, s ++ rest) else (false, c :: s ++ rest)) = (neg, s1 ++ rest)).
  { destruct (c =? 45)%N; by injection Ec as <- <-. }
  rewrite Ec'. apply bind_Ok in H as ([ds s2] & H1 & H).
  rewrite (scan_int_app _ _ _ _ Hr H1). unfold mbind at 1, res_bind at 1.
  destruct (scan_frac s2) as [fr s3] eqn:E3. rewrite (scan_frac_app _ _ _ _ Hr E3).
  destruct (scan_exp s3) as [ex s4] eqn:E4.
  apply bind_Ok in H as (v' & Hv & [= -> ->]).
  rewrite (scan_exp_app _ _ _ Hr E4). by rewrite Hv.
Qed.

(** The first characters of a number. *)
Definition number_head (s : pystr) : Prop :=
  match s with
  | c :: s' => is_digit c = true ∨ (c = 45%N ∧ match s' with d :: _ => is_digit d = true | [] => False end)
  | [] => False
  end.

Lemma scan_int_head s r : scan_int s = Ok r → match s with d :: _ => is_digit d = true | [] => False end.
Proof.
  destruct s as [|c s]; cbn; [done|]. destruct (c =? 48)%N eqn:E.
  - by apply N.eqb_eq in E as ->.
  - by destruct (is_digit c).
Qed.

Lemma parse_number_head s r : parse_number s = Ok r → number_head s.
Proof.
  destruct s as [|c s]; [done|]. unfold parse_number. cbn.
  destruct (c =? 45)%N eqn:E; intros H; apply bind_Ok in H as ([ds s2] & H & _).
  - apply N.eqb_eq in E. right. split; [done|]. by apply scan_int_head in H.
  - left. by apply (scan_int_head (c :: s)) in H.
Qed.

Lemma number_head_app s rest : number_head s → number_head (s ++ rest).
Proof. destruct s as [|c [|d s]]; cbn; tauto. Qed.

(** Dispatch of [parse_value] on a number. *)
Lemma parse_value_number fuel s :
  number_head s → parse_value (S fuel) s = parse_number s.
Proof.
  destruct s as [|c s]; [done|]. intros H. cbn [parse_value].
  assert (Hne : ∀ x, is_digit x = false → x ≠ 45%N → (c =? x)%N = false).
  { intros x Hx Hx'. destruct H as [H|[-> H]]; [by apply digit_not|]. by apply N.eqb_neq. }
  rewrite !Hne by done.
  assert (is_constant (c :: s) = false) as ->; [|done].
  unfold is_constant. cbn [existsb].
  change (str "NaN") with [78; 97; 78]%N.
  change (str "Infinity") with (73%N :: str "nfinity").
  change (str "-Infinity") with (45%N :: 73%N :: str "nfinity"). cbn [strip_prefix].
  rewrite (N.eqb_sym 78 c), (N.eqb_sym 73 c), (Hne 78%N), (Hne 73%N) by done.
  destruct (45 =? c)%N eqn:E; [|done]. apply N.eqb_eq in E as <-.
  destruct H as [H|[_ H]]; [done|]. destruct s as [|d s]; [done|].
  assert ((73 =? d)%N = false) as ->; [|done]. rewrite N.eqb_sym. by apply digit_not.
Qed.

(** ** Strings *)
Lemma escape_control_hex c :
  (c < 32)%N → hex4 48 48 (hex_char (c / 16)) (hex_char (c mod 16)) = Some c.
Proof.
  assert (H : forallb (λ n, let c := N.of_nat n in
    bool_decide (hex4 48 48 (hex_char (c / 16)) (hex_char (c mod 16)) = Some c)) (seq 0 32) = true)
    by (vm_compute; reflexivity).
  intros Hc. rewrite forallb_forall in H.
  specialize (H (N.to_nat c)). cbv zeta in H. rewrite N2Nat.id in H.
  eapply bool_decide_eq_true_1, H, in_seq. lia.
Qed.

Lemma scan_string_char c s :
  scan_string (escape_char c ++ s) = cons_char c (scan_string s).
Proof.
  unfold escape_char.
  destruct (c =? 34)%N eqn:E1; [by apply N.eqb_eq in E1 as ->|].
  destruct (c =? 92)%N eqn:E2; [by apply N.eqb_eq in E2 as ->|].
  destruct (c =? 10)%N eqn:E3; [by apply N.eqb_eq in E3 as ->|].
  destruct (c =? 13)%N eqn:E4; [by apply N.eqb_eq in E4 as ->|].
  destruct (c =? 9)%N eqn:E5; [by apply N.eqb_eq in E5 as ->|].
  destruct (c =? 12)%N eqn:E6; [by apply N.eqb_eq in E6 as ->|].
  destruct (c =? 8)%N eqn:E7; [by apply N.eqb_eq in E7 as ->|].
  destruct (c <? 32)%N eqn:E8.
  - apply N.ltb_lt in E8. cbn -[hex4 hex_char N.eqb in_range].
    change (92 =? 34)%N with false. change (92 =? 92)%N with true. change (117 =? 117)%N with true.
    cbv iota. rewrite escape_control_hex by done.
    assert (in_range 55296 56319 c = false) as ->; [|done].
    apply not_true_iff_false. rewrite in_range_iff. lia.
  - cbn -[N.eqb N.ltb]. by rewrite E1, E2, E8.
Qed.

Lemma scan_string_quote s rest :
  scan_string (mjoin (escape_char <$> s) ++ 34%N :: rest) = Ok (s, rest).
Proof.
  induction s as [|c s IH]; [done|].
  change (mjoin (escape_char <$> c :: s)) with (escape_char c ++ mjoin (escape_char <$> s)).
  by rewrite <- app_assoc, scan_string_char, IH.
Qed.

Lemma quote_cons s rest : quote s ++ rest = 34%N :: (mjoin (escape_char <$> s) ++ 34%N :: rest).
Proof. unfold quote. by rewrite <- !app_assoc. Qed.

(** ** The round trip *)

(** [t] reads back as [v], whatever legal text follows. *)
Definition reads (t : pystr) (v : json) : Prop :=
  ∀ rest fuel, terminated rest → (2 * length t ≤ fuel)%nat →
    parse_value fuel (t ++ rest) = Ok (v, rest).

(** First character of a canonical text. *)
Definition head_ok (t : pystr) : Prop :=
  match t with c :: _ => is_ws c = false ∧ c ≠ 93%N ∧ c ≠ 125%N | [] => False end.

Lemma head_ok_number t : number_head t → head_ok t.
Proof.
  destruct t as [|c t]; [done|]. intros [H|[-> _]]; [|done].
  assert (Hne : ∀ x, is_digit x = false → c ≠ x) by (intros x ? ->; congruence).
  split; [|split; by apply Hne]. apply bool_decide_eq_false.
  rewrite !not_elem_of_cons. repeat split; try (by apply Hne). apply not_elem_of_nil.
Qed.

Lemma skip_ws_head t rest : head_ok t → skip_ws (t ++ rest) = t ++ rest.
Proof. destruct t as [|c t]; [done|]. intros [H _]. cbn. by rewrite H. Qed.

Lemma reads_number t v :
  number_head t → (∀ rest, terminated rest → parse_number (t ++ rest) = Ok (v, rest)) → reads t v.
Proof.
  intros Hh Hp rest [|fuel] Hr Hf.
  - destruct t; [done|cbn in Hf; lia].
  - rewrite parse_value_number; [by apply Hp|by apply number_head_app].
Qed.

Lemma skip_ws_cons c rest : is_ws c = false → skip_ws (c :: rest) = c :: rest.
Proof. intros H. cbn. by rewrite H. Qed.

(** One element, then the rest of a list. *)
Lemma parse_elems_reads ts vs rest fuel :
  Forall2 (λ t v, reads t v ∧ head_ok t) ts vs → ts ≠ [] →
  (2 * length (join [44%N] ts) + 1 ≤ fuel)%nat →
  parse_elems fuel (join [44%N] ts ++ 93%N :: rest) = Ok (vs, rest).
Proof.
  intros H. revert fuel. induction H as [|t v ts vs [Ht Hh] Hts IH]; intros fuel Hne Hf; [done|].
  destruct fuel as [|fuel]; [lia|]. cbn [parse_elems].
  destruct ts as [|t' ts].
  - apply Forall2_nil_inv_l in Hts as ->. cbn [join] in *.
    rewrite Ht; [|done|lia]. cbn. done.
  - change (join [44%N] (t :: t' :: ts)) with (t ++ 44%N :: join [44%N] (t' :: ts)) in *.
    rewrite length_app in Hf. cbn [length] in Hf.
    rewrite <- app_assoc, <- app_comm_cons, Ht; [|done|lia].
    unfold mbind at 1, res_bind at 1. rewrite skip_ws_cons by done.
    change (44 =? 93)%N with false. change (44 =? 44)%N with true. cbv iota.
    assert (Hskip : skip_ws (join [44%N] (t' :: ts) ++ 93%N :: rest)
                    = join [44%N] (t' :: ts) ++ 93%N :: rest).
    { inversion Hts as [|? ? ? ? [_ Hh'] _]; subst. destruct ts; cbn [join].
      - by apply skip_ws_head.
      - rewrite <- app_assoc. by apply skip_ws_head. }
    rewrite Hskip, IH by (done || lia). done.
Qed.

(** Members of an object; the key is the quoted first component. *)
Lemma parse_members_reads kts kvs rest fuel :
  Forall2 (λ kt kv, kt.1 = kv.1 ∧ reads kt.2 kv.2 ∧ head_ok kt.2) kts kvs → kts ≠ [] →
  (2 * length (join [44%N] (item_text <$> kts)) + 1 ≤ fuel)%nat →
  parse_members fuel (join [44%N] (item_text <$> kts) ++ 125%N :: rest) = Ok (kvs, rest).
Proof.
  intros H. revert fuel.
  induction H as [|[k t] [k' v] kts kvs (Hk & Ht & Hh) Hts IH]; intros fuel Hne Hf; [done|].
  cbn in Hk, Ht, Hh. subst k'. destruct fuel as [|fuel]; [lia|].
  set (tail := match kts with [] => 125%N :: rest
                | _ => 44%N :: join [44%N] (item_text <$> kts) ++ 125%N :: rest end).
  assert (Htail : terminated tail) by (unfold tail; by destruct kts).
  assert (Hlen : (2 * length t + 1 ≤ fuel)%nat).
  { destruct kts; cbn in Hf; unfold item_text in Hf; cbn in Hf; rewrite ?length_app in Hf; cbn in Hf; lia. }
  assert (join [44%N] (item_text <$> (k, t) :: kts) ++ 125%N :: rest
          = 34%N :: (mjoin (escape_char <$> k) ++ 34%N :: 58%N :: (t ++ tail))) as ->.
  { unfold tail, item_text. destruct kts as [|kt kts]; cbn [fmap list_fmap join fst snd];
      rewrite <- !app_assoc, quote_cons; done. }
  cbn [parse_members]. change (34 =? 34)%N with true. cbv iota.
  rewrite scan_string_quote. unfold mbind at 1, res_bind at 1.
  rewrite skip_ws_cons by done. change (58 =? 58)%N with true. cbv iota.
  rewrite skip_ws_head by done. rewrite Ht by (done || lia). unfold mbind at 1, res_bind at 1.
  unfold tail in *. destruct kts as [|kt kts].
  - apply Forall2_nil_inv_l in Hts as ->. done.
  - rewrite skip_ws_cons by done. change (44 =? 125)%N with false. change (44 =? 44)%N with true.
    cbv iota.
    assert (Hskip : skip_ws (join [44%N] (item_text <$> kt :: kts) ++ 125%N :: rest)
                    = join [44%N] (item_text <$> kt :: kts) ++ 125%N :: rest).
    { destruct kts; cbn [fmap list_fmap join]; unfold item_text;
        rewrite <- ?app_assoc, ?quote_cons; done. }
    rewrite Hskip, IH; [done|done|].
    change (item_text <$> (k, t) :: kt :: kts) with (item_text (k, t) :: (item_text <$> kt :: kts)) in Hf.
    change (join [44%N] (item_text (k, t) :: (item_text <$> kt :: kts)))
      with (item_text (k, t) ++ [44%N] ++ join [44%N] (item_text <$> kt :: kts)) in Hf.
    rewrite !length_app in Hf. cbn [length] in Hf. lia.
Qed.

Lemma pairs_fresh items result :
  NoDup (result ++ items).*1 → pairs items result = Ok (JDict (result ++ items)).
Proof.
  revert result. induction items as [|[k v] items IH]; intros result H; cbn.
  - by rewrite app_nil_r.
  - assert (Hk : k ∉ result.*1).
    { rewrite fmap_app in H. apply NoDup_app in H as (_ & H & _). intros Hin.
      apply (H k Hin). apply list_elem_of_here. }
    rewrite (proj2 (dmem_false k result) Hk), dset_fresh by done.
    rewrite IH; rewrite <- app_assoc; done.
Qed.

Lemma sort_by_Forall2 {A B} (R : A → B → Prop) leA leB l k :
  (∀ a b a' b', R a b → R a' b' → leA a a' = leB b b') →
  Forall2 R l k → Forall2 R (sort_by leA l) (sort_by leB k).
Proof.
  intros Hc H. induction H as [|a b l k Hab Hlk IH]; [constructor|].
  change (Forall2 R (insert_by leA a (sort_by leA l)) (insert_by leB b (sort_by leB k))).
  induction IH as [|a' b' l' k' Hab' Hlk' IH']; cbn; [by repeat constructor|].
  rewrite (Hc a b a' b') by done. destruct (leB b b'); repeat constructor; done.
Qed.

Lemma res_all_Forall2 {A B} (f : A → res B) l k :
  res_all (f <$> l) = Ok k ↔ Forall2 (λ x y, f x = Ok y) l k.
Proof.
  revert k; induction l as [|x l IH]; intros k; cbn.
  - split; [intros [= <-]; constructor | inversion 1; done].
  - split.
    + intros H; res_inv. constructor; [done|]. by apply IH.
    + inversion 1 as [|? y ? k' Hx Hk]; subst. rewrite Hx; cbn. apply IH in Hk. by rewrite Hk.
Qed.

Definition readable (v : json) : Prop :=
  ∀ t, canonical v = Ok t → wf_json v = true → floats_rt v = true → reads t (sort_json v) ∧ head_ok t.

Lemma readable_constant v t :
  canonical v = Ok t → sort_json v = v → head_ok t →
  (∀ rest fuel, parse_value (S fuel) (t ++ rest) = Ok (v, rest)) → readable v.
Proof.
  intros Ht Hs Hh Hp t' Ht' _ _. rewrite Ht in Ht'. injection Ht' as <-. rewrite Hs.
  split; [|done]. intros rest [|fuel] _ Hf; [|by apply Hp].
  destruct t; [done|cbn in Hf; lia].
Qed.

Lemma readable_int z : readable (JInt z).
Proof.
  intros t Ht _ _. cbn in Ht.
  assert (Hn : number_head t).
  { pose proof (parse_number_int z t [] Ht I) as H. rewrite app_nil_r in H.
    by eapply parse_number_head. }
  split; [|by apply head_ok_number]. apply reads_number; [done|].
  intros. by apply parse_number_int.
Qed.

Lemma readable_float f : readable (JFloat f).
Proof.
  intros t Ht _ Hrt. cbn in Ht, Hrt. destruct (is_finite f); [|done]. injection Ht as <-.
  apply bool_decide_eq_true in Hrt. assert (Hn := parse_number_head _ _ Hrt).
  split; [|by apply head_ok_number]. apply reads_number; [done|].
  intros. by apply parse_number_app.
Qed.

Lemma readable_str s : readable (JStr s).
Proof.
  intros t [= <-] _ _. split; [|done]. intros rest [|fuel] Hr Hf; [cbn in Hf; lia|].
  rewrite quote_cons. cbn [parse_value]. change (34 =? 34)%N with true. cbv iota.
  by rewrite scan_string_quote.
Qed.

Lemma readable_list l : Forall readable l → readable (JList l).
Proof.
  intros Hl t Ht Hwf Hrt. cbn in Ht, Hwf, Hrt. apply bind_Ok in Ht as (ts & Hts & [= <-]).
  apply res_all_Forall2 in Hts. split; [|done].
  assert (H : Forall2 (λ t v, reads t v ∧ head_ok t) ts (sort_json <$> l)).
  { clear -Hl Hts Hwf Hrt. induction Hts as [|v t l ts Hv Hts IH]; cbn; [constructor|].
    cbn in Hwf, Hrt. bool_prop. apply Forall_cons in Hl as [Hv' Hl]. constructor; [|by apply IH].
    by apply Hv'. }
  intros rest [|fuel] Hr Hf; [cbn in Hf; lia|].
  cbn [parse_value app]. change (91 =? 34)%N with false. change (91 =? 91)%N with true. cbv iota.
  rewrite <- !app_assoc. cbn [sort_json].
  destruct ts as [|t ts]; [by apply Forall2_nil_inv_l in H as ->|].
  assert (Hj : head_ok (join [44%N] (t :: ts))).
  { inversion H as [|? ? ? ? [_ Hh] _]; subst. destruct t; [done|]. by destruct ts. }
  rewrite skip_ws_head by done.
  cbn [length] in Hf. rewrite !length_app in Hf. cbn [length] in Hf.
  pose proof (parse_elems_reads (t :: ts) (sort_json <$> l) rest fuel H ltac:(done) ltac:(lia)) as Hp.
  change ([93%N] ++ rest) with (93%N :: rest).
  destruct (join [44%N] (t :: ts)) as [|c j] eqn:E; [done|]. cbn [app] in *.
  destruct Hj as (_ & Hc & _). by rewrite (proj2 (N.eqb_neq c 93) Hc), Hp.
Qed.

Lemma readable_dict d : Forall (λ kv, readable kv.2) d → readable (JDict d).
Proof.
  intros Hd t Ht Hwf Hrt. cbn in Ht, Hwf, Hrt. apply bind_Ok in Ht as (ts & Hts & [= <-]).
  apply res_all_Forall2 in Hts. split; [|done]. bool_prop.
  assert (HF : Forall2 (λ kt kv, kt.1 = kv.1 ∧ reads kt.2 kv.2 ∧ head_ok kt.2)
                 ts ((λ kv, (kv.1, sort_json kv.2)) <$> d)).
  { clear -Hd Hts H0 Hrt. induction Hts as [|[k v] [k' t] d ts Hv Hts IH]; cbn; [constructor|].
    cbn in H0, Hrt. bool_prop. apply Forall_cons in Hd as [Hv' Hd].
    constructor; [|by apply IH]. cbn in Hv. apply fmap_Ok in Hv as (t' & Ht' & [= <- <-]).
    split; [done|]. by apply Hv'. }
  apply (sort_by_Forall2 _ key_leb key_leb) in HF; [|by intros [] [] [] [] [? _] [? _]; cbn in *; subst].
  cbn [sort_json]. set (kts := sort_by key_leb ts) in *.
  set (kvs := sort_by key_leb ((λ kv, (kv.1, sort_json kv.2)) <$> d)) in *.
  assert (Hnd : NoDup kvs.*1).
  { unfold kvs. rewrite sort_by_perm, <- list_fmap_compose. done. }
  intros rest [|fuel] Hr Hf; [cbn in Hf; lia|].
  cbn [parse_value app]. change (123 =? 34)%N with false. change (123 =? 91)%N with false.
  change (123 =? 123)%N with true. cbv iota. rewrite <- !app_assoc.
  destruct kts as [|kt kts]; [by apply Forall2_nil_inv_l in HF as ->|].
  cbn [length] in Hf. rewrite !length_app in Hf. cbn [length] in Hf.
  pose proof (parse_members_reads (kt :: kts) kvs rest fuel HF ltac:(done) ltac:(lia)) as Hp.
  change ([125%N] ++ rest) with (125%N :: rest).
  destruct (join [44%N] (item_text <$> kt :: kts)) as [|c j] eqn:E.
  { exfalso. destruct kts; cbn in E; discriminate. }
  assert (c = 34%N) as ->. { destruct kts; cbn in E; congruence. }
  cbn [app] in *. rewrite skip_ws_cons by done. change (34 =? 125)%N with false. cbv iota.
  rewrite Hp. unfold mbind at 1, res_bind at 1. by rewrite pairs_fresh.
Qed.

Lemma canonical_readable v : readable v.
Proof.
  induction v as [|b|z|f|s|l IH|d IH] using json_ind.
  - by eapply readable_constant.
  - destruct b; by eapply readable_constant.
  - apply readable_int.
  - apply readable_float.
  - apply readable_str.
  - by apply readable_list.
  - by apply readable_dict.
Qed.

(** Printing a JSON value canonically and reading it back strictly gives the
    same value with the keys of every object in sorted order. *)
Lemma strict_json_canonical v t :
  canonical v = Ok t → wf_json v = true → floats_rt v = true → strict_json t = Ok (sort_json v).
Proof.
  intros Ht Hwf Hrt. destruct (canonical_readable v t Ht Hwf Hrt) as [Hr Hh].
  unfold strict_json, parse_fuel. destruct t as [|c t]; [done|].
  assert ((c =? 65279)%N = false) as ->.
  { apply N.eqb_neq. intros ->. specialize (Hr [] (S (S (2 * length t))) I ltac:(cbn; lia)).
    rewrite app_nil_r in Hr. discriminate Hr. }
  pose proof (skip_ws_head (c :: t) [] Hh) as Hs. rewrite app_nil_r in Hs. rewrite Hs.
  specialize (Hr [] (2 * length (c :: t) + 2) I ltac:(lia)). rewrite app_nil_r in Hr.
  by rewrite Hr.
Qed.

(** ** Key order *)
Lemma key_leb_total {V} (x y : pystr * V) : key_leb x y = true ∨ key_leb y x = true.
Proof. apply str_leb_total. Qed.
Lemma key_leb_trans {V} (x y z : pystr * V) :
  key_leb x y = true → key_leb y z = true → key_leb x z = true.
Proof. apply str_leb_trans. Qed.

Lemma canonical_sort_json v t : canonical v = Ok t → canonical (sort_json v) = Ok t.
Proof.
  revert t. induction v as [|b|z|f|s|l IH|d IH] using json_ind; intros t Ht; try done.
  - cbn in *. apply bind_Ok in Ht as (ts & Hts & [= <-]). apply res_all_Forall2 in Hts.
    assert (res_all (canonical <$> (sort_json <$> l)) = Ok ts) as ->; [|done].
    apply res_all_Forall2. clear -IH Hts.
    induction Hts as [|v t l ts Hv Hts IHts]; cbn; [constructor|].
    apply Forall_cons in IH as [Hv' Hl]. constructor; auto.
  - cbn in *. apply bind_Ok in Ht as (ts & Hts & [= <-]). apply res_all_Forall2 in Hts.
    assert (HF : Forall2 (λ kv kt, (λ t, (kv.1, t)) <$> canonical kv.2 = Ok kt)
                   ((λ kv, (kv.1, sort_json kv.2)) <$> d) ts).
    { clear -IH Hts. induction Hts as [|[k v] [k' t] d ts Hv Hts IHts]; cbn; [constructor|].
      apply Forall_cons in IH as [Hv' Hd]. constructor; [|by apply IHts].
      apply fmap_Ok in Hv as (t' & Ht' & [= <- <-]). cbn in *. by rewrite (Hv' _ Ht'). }
    apply (sort_by_Forall2 _ key_leb key_leb) in HF.
    + apply res_all_Forall2 in HF. rewrite HF. cbn. do 4 f_equal.
      rewrite sort_by_idemp; [done|apply key_leb_total|apply key_leb_trans].
    + intros [? v1] [? t1] [? v2] [? t2] H1 H2.
      apply fmap_Ok in H1 as (? & _ & [= -> _]). apply fmap_Ok in H2 as (? & _ & [= -> _]). done.
Qed.

Lemma digest_sort_json v h : digest v = Ok h → digest (sort_json v) = Ok h.
Proof.
  unfold digest. intros H. apply bind_Ok in H as (t & Ht & H).
  by rewrite (canonical_sort_json _ _ Ht).
Qed.

(** Two values with the same canonical text are the same value up to the order
    of object keys. *)
Lemma canonical_injective v w t :
  canonical v = Ok t → canonical w = Ok t →
  wf_json v = true → wf_json w = true → floats_rt v = true → floats_rt w = true →
  sort_json v = sort_json w.
Proof.
  intros Hv Hw Wv Ww Fv Fw.
  pose proof (strict_json_canonical v t Hv Wv Fv) as H1.
  pose proof (strict_json_canonical w t Hw Ww Fw) as H2. congruence.
Qed.

(** ** Dictionaries read by [strict_json] have unique keys *)
Lemma forallb_dset (P : json → bool) k v (d : dict json) :
  P v = true → forallb (λ kv, P kv.2) d = true → forallb (λ kv, P kv.2) (dset k v d) = true.
Proof.
  intros Hv. induction d as [|[j w] d IH]; cbn; [by rewrite Hv|]. intros [Hw Hd]%andb_true_iff.
  case_decide; cbn; [by rewrite Hv, Hd|]. by rewrite Hw, IH.
Qed.

Lemma pairs_wf items result v :
  wf_json (JDict result) = true → forallb (λ kv, wf_json kv.2) items = true →
  pairs items result = Ok v → wf_json v = true.
Proof.
  revert result. induction items as [|[k w] items IH]; intros result Hr Hi H; cbn in *; res_inv; [done|].
  bool_prop. eapply IH; [|done|exact H]. apply andb_true_iff. split.
  - apply bool_decide_eq_true. by apply wf_dset.
  - by apply forallb_dset.
Qed.

Lemma parse_number_wf s v r : parse_number s = Ok (v, r) → wf_json v = true.
Proof.
  unfold parse_number. intros H. destruct (match s with [] => _ | _ => _ end) as [neg s1].
  apply bind_Ok in H as ([ds s2] & _ & H). destruct (scan_frac s2) as [fr s3].
  destruct (scan_exp s3) as [ex s4]. apply bind_Ok in H as (w & Hw & [= -> <-]).
  unfold number_value in Hw. by destruct fr, ex; res_inv.
Qed.

Lemma parse_wf fuel :
  (∀ s v r, parse_value fuel s = Ok (v, r) → wf_json v = true) ∧
  (∀ s l r, parse_elems fuel s = Ok (l, r) → forallb wf_json l = true) ∧
  (∀ s d r, parse_members fuel s = Ok (d, r) → forallb (λ kv, wf_json kv.2) d = true).
Proof.
  induction fuel as [|fuel (IHv & IHe & IHm)]; [done|]. split; [|split].
  - intros [|c s] v r H; [done|]. cbn [parse_value] in H. unfold literal, json_error in H.
    repeat (case_match; try done); repeat (res_inv; try case_match); try done;
      simplify_eq/=; eauto using parse_number_wf.
    + eapply pairs_wf; [| |done]; [done|eauto].
  - intros s l r H. cbn [parse_elems] in H. apply bind_Ok in H as ([v r'] & Hv & H).
    unfold json_error in H. repeat (case_match; try done); repeat (res_inv; try case_match); try done;
      simplify_eq/=; rewrite (IHv _ _ _ Hv); cbn; eauto.
  - intros [|q s] d r H; [done|]. cbn [parse_members] in H. unfold json_error in H.
    destruct (q =? 34)%N; [|done]. apply bind_Ok in H as ([key s2] & _ & H).
    destruct (skip_ws s2) as [|c s3]; [done|]. destruct (c =? 58)%N; [|done].
    apply bind_Ok in H as ([v r'] & Hv & H).
    repeat (case_match; try done); repeat (res_inv; try case_match); try done;
      simplify_eq/=; rewrite (IHv _ _ _ Hv); cbn; eauto.
Qed.

Lemma strict_json_wf t v : strict_json t = Ok v → wf_json v = true.
Proof.
  unfold strict_json. intros H. res_inv. destruct x as [w rest].
  destruct (skip_ws rest); [|done]. injection H as <-. by eapply (proj1 (parse_wf _)).
Qed.

(** ** The parser's fuel is always enough *)
Lemma skip_ws_length s : length (skip_ws s) ≤ length s.
Proof. induction s as [|c s IH]; cbn; [done|]. destruct (is_ws c); cbn; lia. Qed.

Lemma span_digits_length s d r : span_digits s = (d, r) → length r ≤ length s.
Proof.
  revert d r. induction s as [|c s IH]; intros d r H; cbn in *; [by injection H as <- <-|].
  destruct (is_digit c); [|by injection H as <- <-].
  destruct (span_digits s) as [d' r'] eqn:E. injection H as <- <-. specialize (IH _ _ eq_refl). lia.
Qed.

Lemma scan_int_length s ds r : scan_int s = Ok (ds, r) → length r < length s.
Proof.
  destruct s as [|c s]; [done|]. cbn [scan_int]. destruct (c =? 48)%N.
  - intros [= <- <-]. cbn. lia.
  - destruct (is_digit c) eqn:Hd; [|done]. intros [= H]. cbn in H. rewrite Hd in H.
    destruct (span_digits s) as [d r'] eqn:E. injection H as <- <-.
    apply span_digits_length in E. cbn. lia.
Qed.

Lemma scan_frac_length s f r : scan_frac s = (f, r) → length r ≤ length s.
Proof.
  destruct s as [|c s]; cbn; [by intros [= <- <-]|]. destruct (c =? 46)%N; [|by intros [= <- <-]].
  destruct (span_digits s) as [[|d ds] r'] eqn:E; intros [= <- <-]; [done|].
  apply span_digits_length in E. lia.
Qed.

Lemma scan_exp_length s ex r : scan_exp s = (ex, r) → length r ≤ length s.
Proof.
  destruct s as [|c s]; cbn; [by intros [= <- <-]|]. intros H.
  destruct ((c =? 101)%N || (c =? 69)%N); [|by injection H as <- <-].
  destruct (match s with [] => _ | _ => _ end) as [neg s''] eqn:Es.
  assert (length s'' ≤ length s).
  { repeat (case_match; simplify_eq/=); lia. }
  destruct (span_digits s'') as [[|d ds] r'] eqn:E; injection H as <- <-; [done|].
  apply span_digits_length in E. lia.
Qed.

Lemma parse_number_length s v r : parse_number s = Ok (v, r) → length r < length s.
Proof.
  unfold parse_number. intros H. destruct (match s with [] => _ | _ => _ end) as [neg s1] eqn:Es.
  assert (length s1 ≤ length s) by (repeat (case_match; simplify_eq/=); lia).
  apply bind_Ok in H as ([ds s2] & Hi & H). destruct (scan_frac s2) as [fr s3] eqn:E3.
  destruct (scan_exp s3) as [ex s4] eqn:E4. apply bind_Ok in H as (w & Hw & [= -> <-]).
  apply scan_int_length in Hi. apply scan_frac_length in E3. apply scan_exp_length in E4. lia.
Qed.

Lemma strip_prefix_length p s r : strip_prefix p s = Some r → length p + length r = length s.
Proof.
  revert s. induction p as [|a p IH]; intros s H; cbn in *; [congruence|].
  destruct s as [|b s]; [done|]. destruct (a =? b)%N; [|done]. cbn. by rewrite (IH s).
Qed.

(** A computation that is not out of fuel and shortens its input. *)
Definition productive {A} (s : pystr) (r : res (A * pystr)) : Prop :=
  match r with
  | Ok (_, rest) => length rest < length s
  | Raise e => e ≠ OtherError "out of fuel"
  end.

Lemma scan_string_productive s n : length s ≤ n → productive s (scan_string s).
Proof.
  revert s. induction n as [|n IH]; intros s Hn; destruct s as [|c s1]; try done; [cbn in Hn; lia|].
  cbn [length] in Hn.
  assert (Hrec : ∀ c' s', length s' ≤ length s1 → productive (c :: s1) (cons_char c' (scan_string s'))).
  { intros c' s' Hs'. specialize (IH s' ltac:(lia)). unfold cons_char.
    destruct (scan_string s') as [[t r]|e]; cbn in *; [lia|done]. }
  cbn [scan_string]. unfold json_error.
  repeat (case_match; try done); try (cbn; lia); (apply Hrec; subst; cbn; lia).
Qed.

Lemma parse_number_productive s : productive s (parse_number s).
Proof.
  destruct (parse_number s) as [[v r]|e] eqn:E; cbn; [by eapply parse_number_length|].
  intros ->. unfold parse_number in E. destruct (match s with [] => _ | _ => _ end) as [neg s1].
  unfold scan_int, json_error in E. unfold mbind, res_bind in E.
  repeat (case_match; simplify_eq/=); unfold number_value in *; repeat (case_match; simplify_eq/=).
Qed.

Lemma literal_productive p v s : str p ≠ [] → productive s (literal p v s).
Proof.
  intros Hp. unfold literal. destruct (strip_prefix (str p) s) eqn:E; cbn; [|done].
  apply strip_prefix_length in E. destruct (str p); [done|]. cbn in E. lia.
Qed.

Lemma pairs_no_fuel items result : pairs items result ≠ Raise (OtherError "out of fuel").
Proof. revert result. induction items as [|[k v] items IH]; intros result; cbn; [done|]. case_match; auto. Qed.

Lemma productive_bind {A B} s s' (r : res (A * pystr)) (f : A * pystr → res (B * pystr)) :
  productive s r → length s ≤ length s' →
  (∀ a rest, length rest < length s → productive s' (f (a, rest))) →
  productive s' (r ≫= f).
Proof. intros Hr Hs Hf. destruct r as [[a rest]|e]; cbn in *; [by apply Hf|done]. Qed.

Lemma productive_le {A} s s' (r : res (A * pystr)) :
  productive s r → length s ≤ length s' → productive s' r.
Proof. destruct r as [[a rest]|e]; cbn; [lia|done]. Qed.

Lemma parse_productive fuel :
  (∀ s, 2 * length s + 1 ≤ fuel → productive s (parse_value fuel s)) ∧
  (∀ s, 2 * length s + 2 ≤ fuel → productive s (parse_elems fuel s)) ∧
  (∀ s, 2 * length s + 2 ≤ fuel → productive s (parse_members fuel s)).
Proof.
  induction fuel as [|fuel (IHv & IHe & IHm)]; [repeat split; lia|].
  assert (Hskip := skip_ws_length). split; [|split].
  - intros [|c s] Hf; [done|]. cbn [parse_value]. cbn [length] in Hf.
    destruct (c =? 34)%N.
    { eapply productive_bind; [by apply (scan_string_productive s (length s))|cbn; lia|].
      intros. cbn. lia. }
    destruct (c =? 91)%N.
    { specialize (Hskip s). destruct (skip_ws s) as [|e r]; [done|]. cbn [length] in Hskip.
      destruct (e =? 93)%N; [cbn; lia|].
      eapply productive_bind; [apply IHe; cbn; lia|cbn; lia|]. intros. cbn in *. lia. }
    destruct (c =? 123)%N.
    { specialize (Hskip s). destruct (skip_ws s) as [|e r]; [done|]. cbn [length] in Hskip.
      destruct (e =? 125)%N; [cbn; lia|].
      eapply productive_bind; [apply IHm; cbn; lia|cbn; lia|]. intros items rest Hr.
      pose proof (pairs_no_fuel items []). destruct (pairs items []); cbn in *; [lia|congruence]. }
    destruct (c =? 110)%N; [by apply literal_productive|].
    destruct (c =? 116)%N; [by apply literal_productive|].
    destruct (c =? 102)%N; [by apply literal_productive|].
    destruct (is_constant (c :: s)); [done|]. apply parse_number_productive.
  - intros s Hf. cbn [parse_elems]. eapply productive_bind; [apply IHv; lia|done|].
    intros v r Hr. cbn beta iota. specialize (Hskip r). destruct (skip_ws r) as [|c r']; [done|].
    cbn [length] in Hskip. destruct (c =? 93)%N; [cbn; lia|]. destruct (c =? 44)%N; [|done].
    pose proof (skip_ws_length r'). eapply productive_bind; [apply IHe; lia|lia|].
    intros. cbn in *. lia.
  - intros [|q s] Hf; [done|]. cbn [parse_members]. cbn [length] in Hf. destruct (q =? 34)%N; [|done].
    eapply productive_bind; [by apply (scan_string_productive s (length s))|cbn; lia|].
    intros key s2 Hs2. cbn beta iota. specialize (Hskip s2).
    destruct (skip_ws s2) as [|c s3]; [done|]. cbn [length] in Hskip.
    destruct (c =? 58)%N; [|done]. pose proof (skip_ws_length s3).
    eapply productive_bind; [apply IHv; lia|cbn; lia|].
    intros v r Hr. cbn beta iota. pose proof (skip_ws_length r) as Hskip'.
    destruct (skip_ws r) as [|e r']; [done|]. cbn [length] in Hskip'.
    destruct (e =? 125)%N; [cbn; lia|]. destruct (e =? 44)%N; [|done].
    pose proof (skip_ws_length r'). eapply productive_bind; [apply IHm; lia|cbn; lia|].
    intros. cbn in *. lia.
Qed.

(** [strict_json] always decides: the fuel derived from the length of the
    text is never exhausted. *)
Theorem strict_json_total text : strict_json text ≠ out_of_fuel.
Proof.
  unfold strict_json. destruct (match text with [] => _ | _ => _ end); [done|].
  pose proof (skip_ws_length text).
  pose proof (proj1 (parse_productive (parse_fuel text)) (skip_ws text)) as Hp.
  unfold parse_fuel in *. specialize (Hp ltac:(lia)).
  destruct (parse_value _ _) as [[v r]|e]; cbn in *; [by destruct (skip_ws r)|].
  unfold out_of_fuel. congruence.
Qed.

(** Canonical JSON round trips.  Reading the canonical text of a value back
    gives the value with the keys of every object in sorted order, and every
    value with that text is the same value up to the order of object keys, so a
    digest binds a value and not a spelling. *)
Theorem canonical_round_trip v t :
  canonical v = Ok t → wf_json v = true → floats_rt v = true →
  strict_json t = Ok (sort_json v) ∧
  ∀ w, canonical w = Ok t → wf_json w = true → floats_rt w = true → sort_json w = sort_json v.
Proof.
  intros Ht Hw Hf. split; [by apply strict_json_canonical|]. intros w Ht' Hw' Hf'. by apply (canonical_injective w v t).
Qed.

Definition demo_value : json := jobj [("b", JList [JInt (-7); JBool true; JNull]); ("a", JStr (str "x/y"))].

Lemma canonical_round_trip_witness :
  ∃ t, canonical demo_value = Ok t ∧ strict_json t = Ok (sort_json demo_value).
Proof.
  destruct (canonical demo_value) as [t|e] eqn:E; [|vm_compute in E; discriminate E].
  exists t. split; [reflexivity|]. apply (canonical_round_trip demo_value t E); vm_compute; reflexivity.
Defined.

(** ** Lookups in a value read back *)
Lemma dget_sort_fields (k : pystr) (d : dict json) :
  wf_dict d → dget k (sort_by key_leb ((λ kv, (kv.1, sort_json kv.2)) <$> d)) = sort_json <$> dget k d.
Proof.
  intros Hd. assert (((λ kv : pystr * json, (kv.1, sort_json kv.2)) <$> d).*1 = d.*1) as E by (by rewrite <- list_fmap_compose).
  rewrite (dget_perm k _ ((λ kv, (kv.1, sort_json kv.2)) <$> d)).
  - clear. induction d as [|[j v] d IH]; [done|]. cbn. by case_decide.
  - unfold wf_dict. rewrite sort_by_perm, E. exact Hd.
  - apply sort_by_perm.
Qed.
