(* ===== verification/Core.v ===== *)
(** * Contracts of the core harness (residual/core.py)

    Identifiers, artifacts, obligations, tasks with their dependency graph,
    verdicts, verifier contexts, the registry of host plugins and the built-in
    checks.  Constructors are the validating [__post_init__] methods: they
    return the record or raise.  A Python argument with a fixed type in every
    caller is typed here, so [isinstance] tests of it disappear; values read
    from JSON stay [json] and keep their tests. *)

From Stdlib Require Import ZArith NArith Lia.
From S2P Require Import Prelude PyData Sha256 PyFloat Json JsonFacts.

(** ** Scalars *)
Definition ident_char (c : N) : bool :=
  is_alpha c || is_digit c || bool_decide (c ∈ [95; 46; 45]%N).

(** [re.fullmatch(r"[a-zA-Z][a-zA-Z0-9_.-]{0,95}", value)] *)
Definition ident_ok (s : pystr) : bool :=
  match s with
  | c :: s' => is_alpha c && (length s' <=? 95)%nat && forallb ident_char s'
  | [] => false
  end.

Definition identifier (value : pystr) : res pystr :=
  when negb (ident_ok value) raise ContractError "invalid identifier";;
  Ok value.

Definition positive_int (value : json) (allow_zero : bool) : res Z :=
  match value with
  | JInt n => when (n <? (if allow_zero then 0 else 1))%Z
              raise ContractError "must be a positive integer";;
              Ok n
  | _ => Raise (ContractError "must be a positive integer")
  end.

(** [hash_id] of residual/receipts.py *)
Definition hash_id (value : pystr) : res pystr :=
  when negb (is_digest value) raise ContractError "expected a lowercase SHA-256 digest";;
  Ok value.

(** ** Artifacts *)
Record Artifact : Type := mkArtifact { a_id : pystr; a_text : pystr; a_cloud : bool }.

Definition Artifact_new (id text : pystr) (cloud : bool) : res Artifact :=
  _ ← identifier id;
  Ok (mkArtifact id text cloud).

Definition artifact_sha256 (a : Artifact) : res pystr := sha_text (a_text a).

Definition artifact_lines (a : Artifact) : list pystr :=
  match splitlines_keep (a_text a) with [] => [[]] | l => l end.

Definition excerpt (a : Artifact) (first last : Z) : res json :=
  _ ← positive_int (JInt first) false;
  _ ← positive_int (JInt last) false;
  when (last <? first)%Z || (Z.of_nat (length (artifact_lines a)) <? last)%Z
  raise ContractError "evidence window outside artifact";;
  let text := mjoin (take (Z.to_nat (last - first + 1)) (drop (Z.to_nat (first - 1)) (artifact_lines a))) in
  whole ← artifact_sha256 a;
  part ← sha_text text;
  Ok (jobj [("artifact_id", JStr (a_id a)); ("artifact_sha256", JStr whole);
            ("start_line", JInt first); ("end_line", JInt last); ("text", JStr text);
            ("excerpt_sha256", JStr part)]).

(** ** Obligations *)
Record Obligation : Type := mkObligation {
  o_id : pystr;
  o_instruction : pystr;
  o_check : pystr;
  o_evidence : list pystr;
  o_depends_on : list pystr;
  o_parameters : dict json;
  o_solver : option pystr;
  o_cloud : bool
}.

Fixpoint identifiers (l : list pystr) : res unit :=
  match l with
  | [] => Ok tt
  | s :: l => _ ← identifier s; identifiers l
  end.

Definition Obligation_new (o : Obligation) : res Obligation :=
  _ ← identifier (o_id o);
  _ ← identifiers (split_on 58 (o_check o));
  when (1 <? count_char 58 (o_check o))%nat raise ContractError "invalid verifier name";;
  when blank (o_instruction o) raise ContractError "obligation requires an instruction";;
  _ ← canonical (JDict (o_parameters o));
  when negb (bool_decide (NoDup (o_evidence o))) || negb (bool_decide (NoDup (o_depends_on o)))
  raise ContractError "duplicate obligation dependencies";;
  Ok o.

Definition json_strs (l : list pystr) : json := JList (JStr <$> l).
Definition json_opt_str (o : option pystr) : json := match o with Some s => JStr s | None => JNull end.

(** [dataclasses.asdict(o)] *)
Definition obligation_dict (o : Obligation) : json :=
  jobj [("id", JStr (o_id o)); ("instruction", JStr (o_instruction o)); ("check", JStr (o_check o));
        ("evidence", json_strs (o_evidence o)); ("depends_on", json_strs (o_depends_on o));
        ("parameters", JDict (o_parameters o)); ("solver", json_opt_str (o_solver o));
        ("cloud", JBool (o_cloud o))].

(** ** Tasks *)
Record Task : Type := mkTask {
  t_id : pystr;
  t_goal : pystr;
  t_artifacts : dict Artifact;
  t_obligations : list Obligation;
  t_structure : option pystr
}.

Definition ids (obs : list Obligation) : list pystr := o_id <$> obs.

Definition subset (l : list pystr) (s : gset pystr) : bool := bool_decide (list_to_set l ⊆ s).

(** The [while len(resolved) < len(ids)] loop of [Task.__post_init__]. *)
Definition ready_set (obs : list Obligation) (resolved : gset pystr) : gset pystr :=
  list_to_set (ids (filter (λ o : Obligation, subset (o_depends_on o) resolved = true) obs)).

Fixpoint resolve (fuel : nat) (obs : list Obligation) (resolved : gset pystr) : res (gset pystr) :=
  match fuel with
  | O => out_of_fuel
  | S fuel =>
      if (size resolved <? length (ids obs))%nat then
        let ready := ready_set obs resolved in
        when bool_decide (ready ∖ resolved = ∅) raise ContractError "obligation dependency cycle";;
        resolve fuel obs (resolved ∪ ready)
      else Ok resolved
  end.

Fixpoint for_all {A} (l : list A) (f : A → res unit) : res unit :=
  match l with
  | [] => Ok tt
  | x :: l => _ ← f x; for_all l f
  end.

Definition Task_new (id goal : pystr) (artifacts : dict Artifact) (obligations : list Obligation)
    (structure : option pystr) : res Task :=
  _ ← identifier id;
  when blank goal || bool_decide (obligations = []) raise ContractError "task requires a goal and obligations";;
  when negb (bool_decide (NoDup (ids obligations))) raise ContractError "duplicate obligation id";;
  _ ← for_all artifacts (λ ka,
        when negb (bool_decide (ka.1 = a_id ka.2)) raise ContractError "artifact key/id mismatch";; Ok tt);
  when match structure with Some s => negb (dmem s artifacts) | None => false end
  raise ContractError "unknown structural artifact";;
  _ ← for_all obligations (λ o,
        when negb (forallb (λ a, dmem a artifacts) (o_evidence o))
             || negb (forallb (λ d, bool_decide (d ∈ ids obligations)) (o_depends_on o))
        raise ContractError "unknown artifact or dependency";; Ok tt);
  _ ← resolve (S (length obligations)) obligations ∅;
  Ok (mkTask id goal artifacts obligations structure).

#[export] Instance Obligation_eq_dec : EqDecision Obligation.
Proof. solve_decision. Defined.

Definition by_id (t : Task) : dict Obligation := dict_of ((λ o, (o_id o, o)) <$> t_obligations t).

(** [d[k]] *)
Definition dgetitem {V} (k : pystr) (d : dict V) : res V := of_option (KeyError "missing key") (dget k d).

(** [all(f(x) for x in l)]: stops at the first [False]. *)
Fixpoint all_res {A} (f : A → res bool) (l : list A) : res bool :=
  match l with
  | [] => Ok true
  | x :: l => b ← f x; if (b : bool) then all_res f l else Ok false
  end.

Fixpoint cloud_allowed_rec (fuel : nat) (t : Task) (node_id : pystr) : res bool :=
  match fuel with
  | O => out_of_fuel
  | S fuel =>
      o ← dgetitem node_id (by_id t);
      if o_cloud o then
        ev ← all_res (λ a, a_cloud <$> dgetitem a (t_artifacts t)) (o_evidence o);
        if (ev : bool) then all_res (cloud_allowed_rec fuel t) (o_depends_on o) else Ok false
      else Ok false
  end.

Definition cloud_allowed_res (t : Task) (node_id : pystr) : res bool :=
  cloud_allowed_rec (S (length (t_obligations t))) t node_id.

(** On a constructed task the lookups cannot fail, so the result is a boolean
    ([cloud_allowed_total] below). *)
Definition cloud_allowed (t : Task) (node_id : pystr) : bool :=
  match cloud_allowed_res t node_id with Ok b => b | Raise _ => false end.

(** ** Verdicts and contexts *)
Inductive Status : Type := SPass | SFail | SUnknown.
#[export] Instance Status_eq_dec : EqDecision Status.
Proof. solve_decision. Defined.
Definition status_str (s : Status) : pystr :=
  match s with SPass => str "pass" | SFail => str "fail" | SUnknown => str "unknown" end.

Record Verdict : Type := mkVerdict { v_status : Status; v_code : pystr; v_message : pystr }.
Definition Verdict_passed : Verdict := mkVerdict SPass (str "contract_satisfied") [].
Definition Verdict_fail (code message : pystr) : Verdict := mkVerdict SFail code message.

Record Context_ : Type := mkContext {
  ctx_obligation : Obligation;
  ctx_artifacts : dict Artifact;
  ctx_accepted : dict json
}.

Definition ctx_evidence (ctx : Context_) (artifact_id : pystr) : res pystr :=
  when negb (bool_decide (artifact_id ∈ o_evidence (ctx_obligation ctx)))
  raise ContractError "verifier accessed undeclared evidence";;
  a_text <$> dgetitem artifact_id (ctx_artifacts ctx).

Definition ctx_dependency (ctx : Context_) (node_id : pystr) : res json :=
  when negb (bool_decide (node_id ∈ o_depends_on (ctx_obligation ctx)))
  raise ContractError "verifier accessed undeclared dependency";;
  v ← dgetitem node_id (ctx_accepted ctx);
  t ← canonical v;
  strict_json t.

(** ** Registry of host plugins

    A check is trusted host code: a function of the candidate and its context
    that returns a verdict ([None] when the result is not a [Verdict]) or
    raises. *)
Definition Check_ : Type := json → Context_ → res (option Verdict).
Definition Solver_ : Type := Context_ → res json.

Inductive CheckType : Type := MECHANICAL | STRUCTURAL | JUDGE.
#[export] Instance CheckType_eq_dec : EqDecision CheckType.
Proof. solve_decision. Defined.
Definition check_type_str (c : CheckType) : pystr :=
  match c with MECHANICAL => str "mechanical" | STRUCTURAL => str "structural" | JUDGE => str "judge" end.

(** [VerifierRevision] of residual/extensions.py *)
Record VerifierRevision : Type := mkVerifierRevision {
  implementation_hash : pystr;
  configuration_hash : pystr;
  policy_hash : pystr;
  proof_hash : option pystr
}.

Definition VerifierRevision_new (r : VerifierRevision) : res VerifierRevision :=
  _ ← hash_id (implementation_hash r);
  _ ← hash_id (configuration_hash r);
  _ ← hash_id (policy_hash r);
  _ ← match proof_hash r with Some h => hash_id h | None => Ok [] end;
  Ok r.

Definition effective_revision (r : VerifierRevision) : res pystr :=
  digest (jobj [("schema", JStr (str "residual.verifier.revision.v1"));
                ("implementation_hash", JStr (implementation_hash r));
                ("configuration_hash", JStr (configuration_hash r));
                ("policy_hash", JStr (policy_hash r));
                ("proof_hash", json_opt_str (proof_hash r))]).

Record Registry : Type := mkRegistry {
  checks : dict (pystr * Check_);
  identities : dict (VerifierRevision * CheckType);
  solvers : dict Solver_
}.
Definition Registry_new : Registry := mkRegistry [] [] [].

Definition Registry_check (r : Registry) (name : pystr) (function : Check_) (revision : pystr)
    (identity : option (VerifierRevision * CheckType)) : res Registry :=
  _ ← identifiers (split_on 58 name);
  when (1 <? count_char 58 name)%nat raise ContractError "invalid verifier name";;
  when dmem name (checks r) || bool_decide (revision = [])
  raise ContractError "duplicate check or missing revision";;
  Ok (mkRegistry (dset name (revision, function) (checks r))
        (match identity with Some i => dset name i (identities r) | None => identities r end)
        (solvers r)).

Definition Registry_solver (r : Registry) (name : pystr) (function : Solver_) : res Registry :=
  _ ← identifier name;
  when dmem name (solvers r) raise ContractError "duplicate solver";;
  Ok (mkRegistry (checks r) (identities r) (dset name function (solvers r))).
