(* ===== verification/CoreFacts.v ===== *)
(** * Facts about tasks: the dependency graph and the export permission *)

From Stdlib Require Import ZArith NArith Lia.
From S2P Require Import Prelude PyData Sha256 PyFloat Json JsonFacts Core.

(** ** Generic *)
Lemma for_all_Ok {A} (l : list A) f : for_all l f = Ok tt ↔ Forall (λ x, f x = Ok tt) l.
Proof.
  induction l as [|x l IH]; cbn; [split; [constructor|done]|].
  rewrite Forall_cons. destruct (f x) as [[]|e]; cbn; [rewrite IH; tauto|]. split; [done|by intros []].
Qed.

Lemma all_res_total {A} (f : A → res bool) l :
  (∀ x, x ∈ l → ∃ b, f x = Ok b) →
  ∃ b, all_res f l = Ok b ∧ (b = true ↔ ∀ x, x ∈ l → f x = Ok true).
Proof.
  induction l as [|x l IH]; intros H; cbn.
  - exists true. split; [done|]. split; [intros _ x ?%not_elem_of_nil|]; done.
  - destruct IH as (b & Hb & Hiff); [intros y Hy; apply H; by apply list_elem_of_further|].
    destruct (H x (list_elem_of_here _ _)) as [[] Hx]; rewrite Hx; cbn.
    + exists b. split; [done|]. rewrite Hiff. setoid_rewrite elem_of_cons. naive_solver.
    + exists false. split; [done|]. split; [done|]. intros Hall.
      specialize (Hall x (list_elem_of_here _ _)). congruence.
Qed.

Lemma forallb_true {A} (f : A → bool) l : forallb f l = true ↔ ∀ x, x ∈ l → f x = true.
Proof.
  rewrite forallb_forall. split; intros H x Hx; apply H; by apply list_elem_of_In.
Qed.

Lemma dgetitem_Ok {V} k (d : dict V) v : dgetitem k d = Ok v ↔ dget k d = Some v.
Proof. apply of_option_Ok. Qed.

(** ** The dependency graph *)
Definition dep (obs : list Obligation) (n d : pystr) : Prop :=
  ∃ o, o ∈ obs ∧ o_id o = n ∧ d ∈ o_depends_on o.

(** [ranked obs k n]: the dependencies of [n] are resolved within [k] rounds. *)
Inductive ranked (obs : list Obligation) : nat → pystr → Prop :=
| ranked_intro k o :
    o ∈ obs → (∀ d, d ∈ o_depends_on o → ranked obs k d) → ranked obs (S k) (o_id o).

Lemma ranked_mono obs k j n : k ≤ j → ranked obs k n → ranked obs j n.
Proof.
  intros Hk H. revert j Hk. induction H as [k o Ho Hd IH]; intros [|j] Hk; [lia|].
  constructor; [done|]. intros d Hd'. apply IH; [done|lia].
Qed.

Lemma elem_of_ready obs R n :
  n ∈ ready_set obs R ↔ ∃ o, o ∈ obs ∧ o_id o = n ∧ ∀ d, d ∈ o_depends_on o → d ∈ R.
Proof.
  unfold ready_set, ids. rewrite elem_of_list_to_set, list_elem_of_fmap.
  split; [intros (o & -> & Ho) | intros (o & Ho & <- & Hd)].
  - apply list_elem_of_filter in Ho as [Hs Ho]. exists o. repeat split; try done.
    unfold subset in Hs. apply bool_decide_eq_true in Hs. intros d Hd. apply Hs.
    by apply elem_of_list_to_set.
  - exists o. split; [done|]. apply list_elem_of_filter. split; [|done].
    apply bool_decide_eq_true. intros d Hd'. apply Hd. by apply elem_of_list_to_set in Hd'.
Qed.

Lemma resolve_ranked fuel obs R R' k :
  resolve fuel obs R = Ok R' → (∀ n, n ∈ R → ranked obs k n) →
  (∀ n, n ∈ R' → ranked obs (k + fuel) n) ∧ length (ids obs) ≤ size R'.
Proof.
  revert R k. induction fuel as [|fuel IH]; intros R k H HR; [done|]. cbn [resolve] in H.
  destruct (_ <? _)%nat eqn:E.
  - res_inv. apply (IH _ (S k)) in H.
    + destruct H as [H ?]. split; [|done]. intros n Hn. rewrite <- Nat.add_succ_comm. by apply H.
    + intros n [Hn|Hn]%elem_of_union.
      * apply (ranked_mono _ k); [lia|auto].
      * apply elem_of_ready in Hn as (o & Ho & <- & Hd). constructor; auto.
  - res_inv. bool_prop. split; [|done]. intros n Hn. apply (ranked_mono _ k); [lia|auto].
Qed.

Lemma ready_subset obs R : ready_set obs R ⊆ list_to_set (ids obs).
Proof.
  intros n Hn. apply elem_of_ready in Hn as (o & Ho & <- & _).
  apply elem_of_list_to_set. by apply list_elem_of_fmap_2.
Qed.

Lemma resolve_subset fuel obs R R' :
  resolve fuel obs R = Ok R' → R ⊆ list_to_set (ids obs) → R' ⊆ list_to_set (ids obs).
Proof.
  revert R. induction fuel as [|fuel IH]; intros R H HR; [done|]. cbn [resolve] in H.
  destruct (_ <? _)%nat; res_inv; [|done]. apply (IH _ H). apply union_least; [done | apply ready_subset].
Qed.

Lemma resolve_all fuel obs R' n :
  NoDup (ids obs) → resolve fuel obs ∅ = Ok R' → n ∈ ids obs → n ∈ R'.
Proof.
  intros Hnd H Hn. pose proof (resolve_subset _ _ _ _ H (empty_subseteq _)) as Hsub.
  destruct (resolve_ranked _ _ _ _ 0 H ltac:(set_solver)) as [_ Hsize].
  assert (R' = list_to_set (ids obs)) as ->.
  { apply set_eq_subseteq. split; [done|].
    assert (size (list_to_set (ids obs) : gset pystr) ≤ size R') as Hs
      by (by rewrite size_list_to_set).
    destruct (decide (list_to_set (ids obs) ⊆ R')) as [|Hns]; [done|]. exfalso.
    assert (R' ⊂ list_to_set (ids obs)) as Hss by done.
    apply subset_size in Hss. lia. }
  by apply elem_of_list_to_set.
Qed.

(** Rounds strictly grow the resolved set, so the loop ends. *)
Lemma resolve_terminates fuel obs R :
  NoDup (ids obs) → R ⊆ list_to_set (ids obs) →
  length (ids obs) < size R + fuel → resolve fuel obs R ≠ out_of_fuel.
Proof.
  intros Hnd. revert R. induction fuel as [|fuel IH]; intros R HR Hf; cbn [resolve].
  - apply subseteq_size in HR. rewrite size_list_to_set in HR by done. lia.
  - destruct (_ <? _)%nat; [|done].
    case_bool_decide as Hr; [done|]. pose proof (ready_subset obs R).
    apply IH; [set_solver|].
    assert (size R < size (R ∪ ready_set obs R)); [|lia].
    apply subset_size. split; [set_solver|]. intros Hsub. apply Hr. set_solver.
Qed.

(** A set of obligations each of which depends on another of the set. *)
Definition cyclic_core (obs : list Obligation) (U : gset pystr) : Prop :=
  U ≠ ∅ ∧ ∀ n, n ∈ U → ∃ d, dep obs n d ∧ d ∈ U.

Lemma ranked_no_core obs k n U :
  NoDup (ids obs) → ranked obs k n → cyclic_core obs U → n ∉ U.
Proof.
  intros Hnd H [_ HU]. induction H as [k o Ho Hd IH]. intros Hn.
  destruct (HU _ Hn) as (d & (o' & Ho' & Heq & Hd') & HdU).
  assert (o' = o) as ->; [|by apply (IH d)].
  apply list_elem_of_lookup in Ho as [i Hi], Ho' as [j Hj].
  assert (j = i) as ->; [|congruence].
  apply (NoDup_lookup _ _ _ (o_id o) Hnd); unfold ids; rewrite list_lookup_fmap;
    [rewrite Hj; cbn; by rewrite Heq | by rewrite Hi].
Qed.

Lemma resolve_cycle fuel obs R e :
  NoDup (ids obs) → (∀ n d, dep obs n d → d ∈ ids obs) → R ⊆ list_to_set (ids obs) →
  resolve fuel obs R = Raise e → e ≠ OtherError "out of fuel" →
  e = ContractError "obligation dependency cycle" ∧ ∃ U, cyclic_core obs U.
Proof.
  intros Hnd Hcl. revert R. induction fuel as [|fuel IH]; intros R HR H He; [by injection H as <-|].
  cbn [resolve] in H. destruct (_ <? _)%nat eqn:E; [|done]. bool_prop.
  case_bool_decide as Hr.
  - injection H as <-. split; [done|]. exists (list_to_set (ids obs) ∖ R). split.
    + intros Hempty%empty_difference_subseteq_L%subseteq_size.
      rewrite size_list_to_set in Hempty by done. lia.
    + intros n [Hn HnR]%elem_of_difference. apply elem_of_list_to_set in Hn.
      apply list_elem_of_fmap in Hn as (o & -> & Ho).
      destruct (decide (Exists (λ d, d ∉ R) (o_depends_on o))) as [Hex|Hex].
      * apply Exists_exists in Hex as (d & Hd & HdR). exists d.
        assert (Hdep : dep obs (o_id o) d) by (by exists o).
        split; [done|]. apply elem_of_difference. split; [|done].
        apply elem_of_list_to_set. eauto.
      * exfalso. assert (o_id o ∈ ready_set obs R ∖ R) as Hin; [|by rewrite Hr in Hin].
        apply elem_of_difference. split; [|done]. apply elem_of_ready. exists o. repeat split; try done.
        intros d Hd. destruct (decide (d ∈ R)); [done|]. exfalso. apply Hex, Exists_exists. eauto.
  - apply (IH _) in H; [done| |done]. apply union_least; [done | apply ready_subset].
Qed.

(** ** Constructed tasks *)
Record task_ok (t : Task) : Prop := {
  ok_nodup : NoDup (ids (t_obligations t));
  ok_evidence : ∀ o a, o ∈ t_obligations t → a ∈ o_evidence o → is_Some (dget a (t_artifacts t));
  ok_dep : ∀ n d, dep (t_obligations t) n d → d ∈ ids (t_obligations t);
  ok_artifact : ∀ k a, (k, a) ∈ t_artifacts t → k = a_id a;
  ok_ranked : ∀ n, n ∈ ids (t_obligations t) → ranked (t_obligations t) (S (length (t_obligations t))) n
}.

Lemma Task_new_ok id goal artifacts obligations structure t :
  Task_new id goal artifacts obligations structure = Ok t →
  t = mkTask id goal artifacts obligations structure ∧ task_ok t.
Proof.
  unfold Task_new. intros H.
  apply bind_Ok in H as (? & _ & H). res_step. res_step. bool_prop.
  apply bind_Ok in H as ([] & Hart & H). res_step.
  apply bind_Ok in H as ([] & Hobs & H). apply bind_Ok in H as (R & HR & [= <-]).
  apply for_all_Ok in Hart, Hobs. rewrite Forall_forall in Hart. rewrite Forall_forall in Hobs.
  split; [done|].
  assert (Ho : ∀ o, o ∈ obligations →
    (∀ a, a ∈ o_evidence o → is_Some (dget a artifacts)) ∧
    (∀ d, d ∈ o_depends_on o → d ∈ ids obligations)).
  { intros o Hin. specialize (Hobs o Hin). cbn in Hobs. res_inv. bool_prop.
    rewrite !forallb_true in *. split.
    - intros a Ha. apply dget_is_Some, dmem_true. auto.
    - intros d Hd. specialize (H2 d Hd). by bool_prop. }
  split; cbn; try done.
  - intros o a Hin. by apply Ho.
  - intros n d (o & Hin & _ & Hd). by eapply Ho.
  - intros k a Hin. specialize (Hart _ Hin). cbn in Hart. res_inv. by bool_prop.
  - intros n Hn. eapply (proj1 (resolve_ranked _ _ _ _ 0 HR ltac:(set_solver))).
    by eapply resolve_all.
Qed.

Lemma dget_by_id t n o :
  NoDup (ids (t_obligations t)) →
  dget n (by_id t) = Some o ↔ o ∈ t_obligations t ∧ o_id o = n.
Proof.
  intros Hnd. assert (Hk : ((λ o, (o_id o, o)) <$> t_obligations t).*1 = ids (t_obligations t))
    by (rewrite <- list_fmap_compose; done).
  unfold by_id. rewrite dict_of_NoDup by (by rewrite Hk). split.
  - intros H%dget_Some_elem. apply list_elem_of_fmap in H as (o' & [= -> ->] & ?). done.
  - intros [Hin <-]. apply dget_elem; [unfold wf_dict; by rewrite Hk|].
    by apply (list_elem_of_fmap_2 (λ o, (o_id o, o))).
Qed.

Lemma by_id_total t n :
  NoDup (ids (t_obligations t)) → n ∈ ids (t_obligations t) → ∃ o, dget n (by_id t) = Some o.
Proof.
  intros Hnd Hn. apply list_elem_of_fmap in Hn as (o & -> & Ho). exists o. by apply dget_by_id.
Qed.

(** ** Export permission *)
Definition node_cloud (t : Task) (n : pystr) : Prop :=
  ∃ o, dget n (by_id t) = Some o ∧ o_cloud o = true ∧
       ∀ a, a ∈ o_evidence o → ∃ art, dget a (t_artifacts t) = Some art ∧ a_cloud art = true.

Lemma evidence_cloud t o :
  task_ok t → o ∈ t_obligations t →
  ∃ b, all_res (λ a, a_cloud <$> dgetitem a (t_artifacts t)) (o_evidence o) = Ok b ∧
    (b = true ↔ ∀ a, a ∈ o_evidence o →
       ∃ art, dget a (t_artifacts t) = Some art ∧ a_cloud art = true).
Proof.
  intros Hok Ho.
  destruct (all_res_total (λ a, a_cloud <$> dgetitem a (t_artifacts t)) (o_evidence o)) as (b & Hb & Hiff).
  - intros a Ha. destruct (ok_evidence t Hok o a Ho Ha) as [art Hart].
    rewrite (proj2 (dgetitem_Ok _ _ _) Hart). cbn. eauto.
  - exists b. split; [done|]. rewrite Hiff. split; intros H a Ha.
    + specialize (H a Ha). apply fmap_Ok in H as (art & Hart & Hc). apply dgetitem_Ok in Hart. eauto.
    + destruct (H a Ha) as (art & Hart & Hc). rewrite (proj2 (dgetitem_Ok _ _ _) Hart). cbn. by rewrite Hc.
Qed.

Lemma rtc_dep_inv t o m :
  task_ok t → o ∈ t_obligations t → rtc (dep (t_obligations t)) (o_id o) m →
  m = o_id o ∨ ∃ d, d ∈ o_depends_on o ∧ rtc (dep (t_obligations t)) d m.
Proof.
  intros Hok Ho H. inversion H as [|? d ? (o' & Ho' & Heq & Hd) Hrest]; subst; [by left|].
  right. exists d. split; [|done].
  assert (H1 : dget (o_id o) (by_id t) = Some o) by (apply dget_by_id; [apply Hok|done]).
  assert (H2 : dget (o_id o) (by_id t) = Some o') by (apply dget_by_id; [apply Hok|done]).
  congruence.
Qed.

Lemma cloud_allowed_rec_total t k n :
  task_ok t → ranked (t_obligations t) k n →
  ∃ b, cloud_allowed_rec k t n = Ok b ∧
    (b = true ↔ ∀ m, rtc (dep (t_obligations t)) n m → node_cloud t m).
Proof.
  intros Hok H. induction H as [k o Ho Hd IH]. cbn [cloud_allowed_rec].
  assert (Hget : dget (o_id o) (by_id t) = Some o) by (apply dget_by_id; [apply Hok|done]).
  assert (Hself : ¬ node_cloud t (o_id o) →
    (false = true ↔ ∀ m, rtc (dep (t_obligations t)) (o_id o) m → node_cloud t m)).
  { intros Hn. split; [done|]. intros Hall. destruct Hn. by apply Hall. }
  rewrite (proj2 (dgetitem_Ok _ _ _) Hget). cbn.
  destruct (o_cloud o) eqn:Hc.
  2:{ exists false. split; [done|]. apply Hself. intros (o' & Ho' & Hc' & _). congruence. }
  destruct (evidence_cloud t o Hok Ho) as (b & -> & Hb). cbn. destruct b.
  2:{ exists false. split; [done|]. apply Hself. intros (o' & Ho' & _ & Hev).
      assert (o' = o) as -> by congruence. by apply Hb in Hev. }
  destruct (all_res_total (cloud_allowed_rec k t) (o_depends_on o)) as (b & -> & Hbd).
  { intros d Hd'. destruct (IH d Hd') as (b & -> & _). eauto. }
  exists b. split; [done|]. rewrite Hbd. split.
  - intros Hall m Hm. destruct (rtc_dep_inv t o m Hok Ho Hm) as [->|(d & Hd' & Hm')].
    + exists o. split; [done|]. split; [done|]. by apply Hb.
    + destruct (IH d Hd') as (b' & Hb' & Hiff). rewrite Hall in Hb' by done.
      injection Hb' as <-. by apply Hiff.
  - intros Hall d Hd'. destruct (IH d Hd') as (b' & -> & Hiff). f_equal. apply Hiff.
    intros m Hm. apply Hall. eapply rtc_l; [|exact Hm]. by exists o.
Qed.

Lemma cloud_allowed_total t n :
  task_ok t → n ∈ ids (t_obligations t) → cloud_allowed_res t n = Ok (cloud_allowed t n).
Proof.
  intros Hok Hn. unfold cloud_allowed, cloud_allowed_res.
  destruct (cloud_allowed_rec_total t _ n Hok (ok_ranked t Hok n Hn)) as (b & -> & _). done.
Qed.

Lemma cloud_allowed_iff t n :
  task_ok t → n ∈ ids (t_obligations t) →
  cloud_allowed t n = true ↔ ∀ m, rtc (dep (t_obligations t)) n m → node_cloud t m.
Proof.
  intros Hok Hn. unfold cloud_allowed, cloud_allowed_res.
  by destruct (cloud_allowed_rec_total t _ n Hok (ok_ranked t Hok n Hn)) as (b & -> & Hb).
Qed.

(** ** Properties *)
(** Task construction decides dependency cycles.  For obligations with
    distinct ids and known dependencies the resolution loop ends: it either
    resolves every obligation, and then no set of obligations depends on itself,
    or raises the cycle error, and then such a set exists. *)
Theorem dependency_cycles_decided obs :
  NoDup (ids obs) → (∀ n d, dep obs n d → d ∈ ids obs) →
  (∃ R, resolve (S (length obs)) obs ∅ = Ok R ∧ (∀ n, n ∈ ids obs → n ∈ R) ∧ ¬ ∃ U, cyclic_core obs U) ∨
  (resolve (S (length obs)) obs ∅ = Raise (ContractError "obligation dependency cycle") ∧ ∃ U, cyclic_core obs U).
Proof.
  intros Hnd Hcl. assert (Hlen : length (ids obs) = length obs) by apply length_fmap.
  assert (Ht : resolve (S (length obs)) obs ∅ ≠ out_of_fuel) by (apply resolve_terminates; [done|set_solver|lia]).
  destruct (resolve (S (length obs)) obs ∅) as [R|e] eqn:E; [left|right].
  - exists R. split_and!; [done|by intros n Hn; eapply resolve_all|].
    intros (U & HU). destruct (resolve_ranked _ _ _ _ 0 E ltac:(set_solver)) as [Hr _].
    assert (HU' := HU). destruct HU' as [Hne Hdep]. apply set_choose_L in Hne as [n Hn].
    eapply (ranked_no_core obs _ n U Hnd); [apply Hr; eapply resolve_all; [done|done|]|done|done].
    destruct (Hdep n Hn) as (d & (o & Ho & <- & _) & _). by apply list_elem_of_fmap_2.
  - destruct (resolve_cycle _ _ ∅ e Hnd Hcl ltac:(set_solver) E) as [-> HU]; [|done].
    intros ->. by apply Ht.
Qed.

(** [cloud_allowed] is exact.  In a constructed task the recursion ends, and
    an obligation may be exported exactly when it and everything it depends on,
    directly or through any chain, is marked exportable and uses only
    exportable artifacts. *)
Theorem cloud_allowed_exact id goal artifacts obligations structure t n :
  Task_new id goal artifacts obligations structure = Ok t → n ∈ ids (t_obligations t) →
  cloud_allowed_res t n = Ok (cloud_allowed t n) ∧
  (cloud_allowed t n = true ↔ ∀ m, rtc (dep (t_obligations t)) n m → node_cloud t m).
Proof.
  intros Ht Hn. destruct (Task_new_ok _ _ _ _ _ _ Ht) as [_ Hok].
  split; [by apply cloud_allowed_total|by apply cloud_allowed_iff].
Qed.

Definition demo_node (n : string) (evidence deps : list string) (cloud : bool) : Obligation :=
  mkObligation (str n) (str "do it") (str "json_value") (str <$> evidence) (str <$> deps) [] None cloud.
Definition demo_obligations : list Obligation := [demo_node "b" [] ["a"] true; demo_node "a" ["doc"] [] true].
Definition demo_artifacts : dict Artifact := [(str "doc", mkArtifact (str "doc") (str "text") false)].
Definition demo_task : Task := mkTask (str "t") (str "goal") demo_artifacts demo_obligations None.

Lemma dependency_cycles_decided_witness :
  (∃ R, resolve 3 demo_obligations ∅ = Ok R) ∨ ∃ U, cyclic_core demo_obligations U.
Proof.
  destruct (dependency_cycles_decided demo_obligations) as [(R & H & _)|[_ H]].
  - apply (bool_decide_eq_true_1 _). vm_compute. reflexivity.
  - intros n d (o & Ho & _ & Hd). unfold demo_obligations in Ho. rewrite !elem_of_cons in Ho.
    destruct Ho as [->|[->|Ho]]; [|by apply not_elem_of_nil in Hd|by apply not_elem_of_nil in Ho].
    cbn in Hd. apply list_elem_of_singleton in Hd as ->. right. left.
  - left. exists R. exact H.
  - right. exact H.
Defined.

Lemma cloud_allowed_exact_witness : cloud_allowed_res demo_task (str "b") = Ok (cloud_allowed demo_task (str "b")).
Proof.
  apply (cloud_allowed_exact (str "t") (str "goal") demo_artifacts demo_obligations None).
  - vm_compute. reflexivity.
  - left.
Defined.
