(* ===== verification/Storage.v ===== *)
(** * Result cache and hash-linked run ledger (residual/storage.py)

    The cache table is an association list from key to stored text.  The
    ledger is the list of its events and the current head.  [time.time_ns()]
    is an argument of [Ledger_add]; files are their text. *)

From Stdlib Require Import ZArith NArith Lia.
From S2P Require Import Prelude PyData Sha256 PyFloat Json JsonFacts Core CoreFacts.

(** ** Cache *)
Module Cache.
(** [results (key TEXT PRIMARY KEY, value TEXT NOT NULL)] *)
Record t : Type := mk { rows : dict pystr }.
Definition empty : t := mk [].

(** [(False, None)] is [None]; a stored text that does not parse is a miss. *)
Definition get (c : t) (key : pystr) : option json :=
  match dget key (rows c) with
  | None => None
  | Some text => match strict_json text with Ok v => Some v | Raise _ => None end
  end.

(** sqlite encodes the bound text as UTF-8. *)
Definition put (c : t) (key : pystr) (value : json) : res t :=
  text ← canonical value;
  _ ← encode text;
  Ok (mk (dset key text (rows c))).
End Cache.

(** ** Ledger *)
Definition genesis : pystr := replicate 64 48%N.

Record Event : Type := mkEvent {
  e_seq : Z;
  e_kind : pystr;
  e_time_ns : Z;
  e_previous : pystr;
  e_data : dict json;
  e_sha256 : pystr
}.

(** The [payload] of [Ledger.add], which is what the digest covers. *)
Definition payload_dict (seq : Z) (kind : pystr) (time_ns : Z) (previous : pystr) (data : dict json) : dict json :=
  [(str "seq", JInt seq); (str "kind", JStr kind); (str "time_ns", JInt time_ns);
   (str "previous", JStr previous); (str "data", JDict data)].
Definition event_payload (e : Event) : json :=
  JDict (payload_dict (e_seq e) (e_kind e) (e_time_ns e) (e_previous e) (e_data e)).
(** [{**payload, "sha256": head}] *)
Definition event_json (e : Event) : json :=
  JDict (payload_dict (e_seq e) (e_kind e) (e_time_ns e) (e_previous e) (e_data e)
         ++ [(str "sha256", JStr (e_sha256 e))]).

Record Ledger : Type := mkLedger { l_events : list Event; l_head : pystr }.
Definition Ledger_new : Ledger := mkLedger [] genesis.

Definition Ledger_add (l : Ledger) (kind : pystr) (time_ns : Z) (data : dict json) : res Ledger :=
  let seq := Z.of_nat (length (l_events l)) in
  h ← digest (JDict (payload_dict seq kind time_ns (l_head l) data));
  Ok (mkLedger (l_events l ++ [mkEvent seq kind time_ns (l_head l) data h]) h).

Fixpoint ledger_lines (es : list Event) : res pystr :=
  match es with
  | [] => Ok []
  | e :: es => t ← canonical (event_json e); ts ← ledger_lines es; Ok (t ++ [10%N] ++ ts)
  end.
Definition Ledger_write (l : Ledger) : res pystr := ledger_lines (l_events l).

(** ** [verify_ledger] *)

(** [event.pop("sha256")] on the parsed line *)
Definition pop_sha (event : json) : res (json * dict json) :=
  match event with
  | JDict d => h ← dgetitem (str "sha256") d; Ok (h, ddel (str "sha256") d)
  | JList _ => Raise (TypeError "pop expects an index")
  | _ => Raise (AttributeError "no attribute pop")
  end.

Fixpoint verify_lines (index : Z) (previous : json) (lines : list pystr) : res (list (dict json) * json) :=
  match lines with
  | [] => Ok ([], previous)
  | line :: lines =>
      event ← strict_json line;
      '(expected, body) ← pop_sha event;
      seq ← dgetitem (str "seq") body;
      when negb (py_eq seq (JInt index)) raise ContractError "trace integrity mismatch";;
      prev ← dgetitem (str "previous") body;
      when negb (py_eq prev previous) raise ContractError "trace integrity mismatch";;
      h ← digest (JDict body);
      when negb (py_eq (JStr h) expected) raise ContractError "trace integrity mismatch";;
      '(events, root) ← verify_lines (index + 1) expected lines;
      Ok (body :: events, root)
  end.

Record LedgerReport : Type := mkLedgerReport { r_events : nat; r_root : json; r_anchored : bool }.

Definition kind_is (kind : string) (event : dict json) : res bool :=
  v ← dgetitem (str "kind") event; Ok (py_eq v (JStr (str kind))).

Definition verify_ledger (text : pystr) (expected_root : option json) : res LedgerReport :=
  '(events, root) ← verify_lines 0 (JStr genesis) (splitlines text);
  match head events, last events with
  | Some first, Some final =>
      started ← kind_is "run_started" first;
      when negb started raise ContractError "trace is empty or incomplete";;
      finished ← kind_is "run_finished" final;
      when negb finished raise ContractError "trace is empty or incomplete";;
      when match expected_root with Some r => negb (py_eq root r) | None => false end
      raise ContractError "trace differs from supplied root";;
      Ok (mkLedgerReport (length events) root (match expected_root with Some _ => true | None => false end))
  | _, _ => Raise (ContractError "trace is empty or incomplete")
  end.

(** ** Well-formed ledgers *)

(** Events from index [n] on, chained from [prev]. *)
Fixpoint chained (n : nat) (prev : pystr) (es : list Event) : Prop :=
  match es with
  | [] => True
  | e :: es =>
      e_seq e = Z.of_nat n ∧ e_previous e = prev ∧ digest (event_payload e) = Ok (e_sha256 e) ∧
      chained (S n) (e_sha256 e) es
  end.

Definition chain_head (prev : pystr) (es : list Event) : pystr :=
  match last es with Some e => e_sha256 e | None => prev end.

Definition ledger_wf (l : Ledger) : Prop :=
  chained 0 genesis (l_events l) ∧ l_head l = chain_head genesis (l_events l).

Lemma chained_app n prev es es' :
  chained n prev (es ++ es') ↔ chained n prev es ∧ chained (n + length es) (chain_head prev es) es'.
Proof.
  revert n prev. induction es as [|e es IH]; intros n prev; cbn.
  - rewrite Nat.add_0_r. tauto.
  - rewrite IH. assert (chain_head (e_sha256 e) es = chain_head prev (e :: es)) as ->.
    { unfold chain_head. rewrite last_cons. by destruct (last es). }
    rewrite Nat.add_succ_comm. tauto.
Qed.

Lemma chain_head_snoc prev es e : chain_head prev (es ++ [e]) = e_sha256 e.
Proof. unfold chain_head. by rewrite last_snoc. Qed.

Lemma Ledger_new_wf : ledger_wf Ledger_new.
Proof. done. Qed.

Lemma Ledger_add_wf l kind time data l' :
  ledger_wf l → Ledger_add l kind time data = Ok l' → ledger_wf l'.
Proof.
  intros [Hc Hh] H. unfold Ledger_add in H. apply bind_Ok in H as (h & Hd & [= <-]). split; cbn.
  - apply chained_app. split; [done|]. by repeat split.
  - by rewrite chain_head_snoc.
Qed.

Lemma digest_shape v h : digest v = Ok h → is_digest h = true.
Proof.
  unfold digest, sha_text. intros H. apply bind_Ok in H as (t & _ & H).
  apply fmap_Ok in H as (b & _ & <-). apply sha256_hex_is_digest.
Qed.

Lemma genesis_shape : is_digest genesis = true.
Proof. reflexivity. Qed.

Lemma ledger_head_shape l : ledger_wf l → is_digest (l_head l) = true.
Proof.
  intros [Hc ->]. unfold chain_head. destruct (last (l_events l)) as [e|] eqn:E; [|done].
  apply last_Some in E as [es E]. rewrite E in Hc. apply chained_app in Hc as [_ (_ & _ & H & _)].
  by eapply digest_shape.
Qed.

(** ** Lines *)
Definition no_breaks (s : pystr) : bool := forallb (λ c, negb (is_linebreak c)) s.

Lemma splitlines_keep_line t rest :
  no_breaks t = true → splitlines_keep (t ++ 10%N :: rest) = (t ++ [10%N]) :: splitlines_keep rest.
Proof.
  induction t as [|c t IH]; intros H; [done|].
  cbn in H. apply andb_true_iff in H as [Hc Ht]. specialize (IH Ht).
  apply negb_true_iff in Hc.
  assert (Hc13 : c ≠ 13%N) by (intros ->; done).
  assert (splitlines_keep ((c :: t) ++ 10%N :: rest) =
          if is_linebreak c then [c] :: splitlines_keep (t ++ 10%N :: rest)
          else match splitlines_keep (t ++ 10%N :: rest) with
               | [] => [[c]] | w :: ws => (c :: w) :: ws end) as ->.
  { cbn [app splitlines_keep]. repeat (case_match; subst; try done). }
  rewrite Hc, IH. done.
Qed.

Lemma drop_ending_line t : no_breaks t = true → drop_ending (t ++ [10%N]) = t.
Proof.
  induction t as [|c t IH]; cbn; [done|]. intros [Hc%negb_true_iff Ht]%andb_true_iff.
  by rewrite Hc, IH.
Qed.

Lemma splitlines_line t rest :
  no_breaks t = true → splitlines (t ++ 10%N :: rest) = t :: splitlines rest.
Proof.
  intros H. unfold splitlines. rewrite splitlines_keep_line by done. cbn [fmap list_fmap].
  by rewrite drop_ending_line.
Qed.

(** ** A written ledger verifies *)

(** What the payload of an event looks like when read back. *)
Definition read_payload (e : Event) : dict json :=
  [(str "data", sort_json (JDict (e_data e))); (str "kind", JStr (e_kind e));
   (str "previous", JStr (e_previous e)); (str "seq", JInt (e_seq e));
   (str "time_ns", JInt (e_time_ns e))].

Lemma sort_event_payload e : sort_json (event_payload e) = JDict (read_payload e).
Proof. reflexivity. Qed.

Lemma sort_event_json e :
  ∃ d, sort_json (event_json e) = JDict d ∧ dget (str "sha256") d = Some (JStr (e_sha256 e)) ∧
       ddel (str "sha256") d = read_payload e.
Proof. eexists. split; [reflexivity|]. split; reflexivity. Qed.

(** The event's text is one line: no key, string or number of it holds a
    character at which [str.splitlines] breaks. *)
Definition event_ok (e : Event) : Prop :=
  wf_json (JDict (e_data e)) = true ∧ floats_rt (JDict (e_data e)) = true ∧
  ∀ t, canonical (event_json e) = Ok t → no_breaks t = true.

Lemma event_json_wf e : wf_json (JDict (e_data e)) = true → wf_json (event_json e) = true.
Proof. intros H. cbn in *. rewrite H. reflexivity. Qed.

Lemma event_json_floats e : floats_rt (JDict (e_data e)) = true → floats_rt (event_json e) = true.
Proof. intros H. cbn in *. rewrite H. reflexivity. Qed.

Lemma py_eq_str s t : py_eq (JStr s) (JStr t) = bool_decide (s = t).
Proof. done. Qed.

Lemma num_eqb_int a b : num_eqb (NInt a) (NInt b) = (a =? b)%Z.
Proof.
  unfold num_eqb, num_compare, to_float_view, dyadic_compare.
  change (Z.min 0 0) with 0%Z. change (2 ^ (0 - 0))%Z with 1%Z. rewrite !Z.mul_1_r.
  by rewrite Z.eqb_compare; destruct (a ?= b)%Z.
Qed.

Lemma py_eq_int a b : py_eq (JInt a) (JInt b) = (a =? b)%Z.
Proof. apply num_eqb_int. Qed.

Lemma ledger_lines_verify es n prev text :
  Forall event_ok es → chained n prev es → ledger_lines es = Ok text →
  verify_lines (Z.of_nat n) (JStr prev) (splitlines text)
  = Ok (read_payload <$> es, JStr (chain_head prev es)).
Proof.
  intros Hok. revert n prev text.
  induction Hok as [|e es (Hwf & Hrt & Hnb) Hes IH]; intros n prev text Hc Ht; cbn [ledger_lines] in Ht.
  - by injection Ht as <-.
  - apply bind_Ok in Ht as (t & Ht & H). apply bind_Ok in H as (ts & Hts & [= <-]).
    destruct Hc as (Hseq & Hprev & Hdig & Hc).
    change (t ++ [10%N] ++ ts) with (t ++ 10%N :: ts). rewrite splitlines_line by auto.
    cbn [verify_lines]. rewrite (strict_json_canonical _ _ Ht (event_json_wf _ Hwf) (event_json_floats _ Hrt)).
    destruct (sort_event_json e) as (d & -> & Hsha & Hdel). cbn [mbind res_bind pop_sha].
    rewrite (proj2 (dgetitem_Ok _ _ _) Hsha). cbn [mbind res_bind]. rewrite Hdel.
    change (dgetitem (str "seq") (read_payload e)) with (Ok (JInt (e_seq e))). cbn [mbind res_bind].
    rewrite py_eq_int, Hseq, Z.eqb_refl. cbn [negb].
    change (dgetitem (str "previous") (read_payload e)) with (Ok (JStr (e_previous e))).
    cbn [mbind res_bind]. rewrite py_eq_str, Hprev, bool_decide_eq_true_2 by done. cbn [negb].
    rewrite <- sort_event_payload, (digest_sort_json _ _ Hdig). cbn [mbind res_bind].
    rewrite py_eq_str, bool_decide_eq_true_2 by done. cbn [negb].
    replace (Z.of_nat n + 1)%Z with (Z.of_nat (S n)) by lia.
    rewrite (IH _ _ _ Hc Hts). cbn [mbind res_bind fmap list_fmap]. do 3 f_equal.
    unfold chain_head. rewrite last_cons. by destruct (last es).
Qed.

(** ** Tamper evidence *)

(** These two texts are different and have the same SHA-256 digest. *)
Definition collide (s t : pystr) : Prop := s ≠ t ∧ ∃ h, sha_text s = Ok h ∧ sha_text t = Ok h.
(** The canonical texts of these two values collide. *)
Definition json_collide (v w : json) : Prop := ∃ s t, canonical v = Ok s ∧ canonical w = Ok t ∧ collide s t.
(** Two of these events collide. *)
Definition bodies_collide (bs bs' : list (dict json)) : Prop :=
  ∃ b b', b ∈ bs ∧ b' ∈ bs' ∧ json_collide (JDict b) (JDict b').

Lemma digest_injective v w h :
  digest v = Ok h → digest w = Ok h →
  wf_json v = true → wf_json w = true → floats_rt v = true → floats_rt w = true →
  sort_json v = sort_json w ∨ json_collide v w.
Proof.
  unfold digest. intros Hv Hw ? ? ? ?.
  apply bind_Ok in Hv as (s & Hs & Hv). apply bind_Ok in Hw as (t & Ht & Hw).
  destruct (decide (s = t)) as [->|Hne]; [left; by eapply canonical_injective|].
  right. exists s, t. split_and!; [done..|]. split; [done|by exists h].
Qed.

Lemma py_eq_to_str v s : py_eq v (JStr s) = true → v = JStr s.
Proof. destruct v; cbn; try done. intros H. bool_prop. by subst. Qed.

Lemma py_eq_of_str v s : py_eq (JStr s) v = true → v = JStr s.
Proof. destruct v; cbn; try done. intros H. bool_prop. by subst. Qed.

Lemma dyadic_eq m e a :
  dyadic_compare m e a 0 = Eq → (m * 2 ^ (e - Z.min e 0) = a * 2 ^ (0 - Z.min e 0))%Z.
Proof. unfold dyadic_compare. apply Z.compare_eq. Qed.

Lemma num_eqb_unique x a b :
  num_eqb x (NInt a) = true → num_eqb x (NInt b) = true → a = b.
Proof.
  unfold num_eqb, num_compare. cbn [to_float_view].
  destruct (to_float_view x) as [f|[m e]] eqn:Ev.
  - destruct x as [z|[[]|[]| |]]; cbn in Ev; simplify_eq; cbn; done.
  - destruct (dyadic_compare m e a 0) eqn:E1, (dyadic_compare m e b 0) eqn:E2; try done.
    intros _ _. apply dyadic_eq in E1, E2. rewrite E1 in E2.
    eapply Z.mul_cancel_r; [|exact E2]. apply Z.pow_nonzero; lia.
Qed.

Lemma py_eq_int_unique v a b : py_eq v (JInt a) = true → py_eq v (JInt b) = true → a = b.
Proof.
  destruct v as [ |b0|z|f|s|l|d]; try done.
  - apply (num_eqb_unique (NInt (Z.b2z b0))).
  - apply (num_eqb_unique (NInt z)).
  - apply (num_eqb_unique (NFloat f)).
Qed.

Lemma sort_json_number v a : py_eq v (JInt a) = true → sort_json v = v.
Proof. by destruct v. Qed.

Lemma dget_sort_json d k v :
  wf_json (JDict d) = true → dget k d = Some v →
  ∃ d', sort_json (JDict d) = JDict d' ∧ dget k d' = Some (sort_json v).
Proof.
  intros Hwf Hk. cbn in Hwf. bool_prop. eexists. split; [done|]. by rewrite dget_sort_fields, Hk by done.
Qed.

(** Verified bodies form a hash chain ending in the root. *)
Definition body_step (n : Z) (prev : json) (b : dict json) (h : pystr) : Prop :=
  (∃ sq, dget (str "seq") b = Some sq ∧ py_eq sq (JInt n) = true) ∧
  (∃ p, dget (str "previous") b = Some p ∧ py_eq p prev = true) ∧
  digest (JDict b) = Ok h ∧ wf_json (JDict b) = true.

Inductive body_chain : list (dict json) → pystr → Prop :=
| body_chain_nil : body_chain [] genesis
| body_chain_snoc bs prev b h :
    body_chain bs prev → body_step (Z.of_nat (length bs)) (JStr prev) b h →
    body_chain (bs ++ [b]) h.

Lemma wf_json_ddel k d : wf_json (JDict d) = true → wf_json (JDict (ddel k d)) = true.
Proof.
  cbn. intros H. bool_prop. apply andb_true_iff. split.
  - apply bool_decide_eq_true. by apply wf_ddel.
  - rewrite forallb_true in *. intros kv Hkv. apply H0. by eapply elem_of_ddel.
Qed.

Lemma verify_lines_chain lines bs prev bs' root :
  body_chain bs prev → verify_lines (Z.of_nat (length bs)) (JStr prev) lines = Ok (bs', root) →
  ∃ h, root = JStr h ∧ body_chain (bs ++ bs') h.
Proof.
  revert bs prev bs'. induction lines as [|line lines IH]; intros bs prev bs' Hc H; cbn [verify_lines] in H.
  - injection H as <- <-. exists prev. by rewrite app_nil_r.
  - apply bind_Ok in H as (event & Hev & H). apply bind_Ok in H as ([expected body] & Hpop & H).
    apply bind_Ok in H as (sq & Hsq & H). res_step. apply bind_Ok in H as (p & Hp & H). res_step.
    apply bind_Ok in H as (h & Hd & H). res_step.
    apply bind_Ok in H as ([evs root'] & Hrec & [= <- <-]). bool_prop.
    apply py_eq_of_str in Heqb1 as ->. apply dgetitem_Ok in Hsq, Hp.
    assert (Hwf : wf_json (JDict body) = true).
    { apply strict_json_wf in Hev. destruct event; try done. cbn [pop_sha] in Hpop.
      apply bind_Ok in Hpop as (? & _ & [= _ <-]). by apply wf_json_ddel. }
    replace (Z.of_nat (length bs) + 1)%Z with (Z.of_nat (length (bs ++ [body]))) in Hrec
      by (rewrite length_app; cbn; lia).
    apply IH in Hrec; [by rewrite <- app_assoc in Hrec|].
    eapply body_chain_snoc; [done|]. repeat split; eauto.
Qed.

(** Equal last digests mean equal last events, hence equal positions and
    equal predecessor hashes. *)
Lemma body_step_same n n' prev prev' b b' h :
  floats_rt (JDict b) = true → floats_rt (JDict b') = true →
  body_step n (JStr prev) b h → body_step n' (JStr prev') b' h →
  json_collide (JDict b) (JDict b') ∨ (sort_json (JDict b) = sort_json (JDict b') ∧ n = n' ∧ prev = prev').
Proof.
  intros F F' ((sq & Hsq & Eq) & (p & Hp & Ep) & Hd & Hwf) ((sq' & Hsq' & Eq') & (p' & Hp' & Ep') & Hd' & Hwf').
  destruct (digest_injective _ _ _ Hd Hd' Hwf Hwf' F F') as [Hs|]; [right|by left].
  split; [done|].
  destruct (dget_sort_json _ _ _ Hwf Hsq) as (d & Hsd & Hg).
  destruct (dget_sort_json _ _ _ Hwf' Hsq') as (d' & Hsd' & Hg').
  destruct (dget_sort_json _ _ _ Hwf Hp) as (e & Hse & Hge).
  destruct (dget_sort_json _ _ _ Hwf' Hp') as (e' & Hse' & Hge').
  assert (d' = d ∧ e = d ∧ e' = d) as (-> & -> & ->) by (split_and!; congruence).
  rewrite (sort_json_number _ _ Eq) in Hg. rewrite (sort_json_number _ _ Eq') in Hg'.
  apply py_eq_to_str in Ep as ->, Ep' as ->. cbn in Hge, Hge'.
  assert (sq' = sq) as -> by congruence. split; [by eapply py_eq_int_unique|congruence].
Qed.

Lemma body_chain_same bs h :
  body_chain bs h → ∀ bs', body_chain bs' h → length bs = length bs' →
  Forall (λ b, floats_rt (JDict b) = true) bs → Forall (λ b, floats_rt (JDict b) = true) bs' →
  bodies_collide bs bs' ∨ ((λ b, sort_json (JDict b)) <$> bs = (λ b, sort_json (JDict b)) <$> bs').
Proof.
  induction 1 as [|bs prev b h Hc IH Hb]; intros bs' Hc' Hlen F F'.
  - destruct bs'; [by right|done].
  - destruct Hc' as [|bs' prev' b' h Hc' Hb']; [by rewrite length_app in Hlen; cbn in Hlen; lia|].
    rewrite !length_app in Hlen. cbn in Hlen.
    apply Forall_app in F as [F Fb], F' as [F' Fb']. rewrite Forall_singleton in Fb; rewrite Forall_singleton in Fb'.
    destruct (body_step_same _ _ _ _ _ _ _ Fb Fb' Hb Hb') as [Hcol|(Hs & _ & ->)].
    { left. exists b, b'. set_solver. }
    destruct (IH bs' Hc' ltac:(lia) F F') as [(x & x' & Hx & Hx' & Hcol)|Heq]; [left; exists x, x'; set_solver|]. right.
    by rewrite !fmap_app, Heq; cbn [fmap list_fmap]; rewrite Hs.
Qed.

(** The events [verify_ledger] accepted. *)
Definition accepted_bodies (text : pystr) (bodies : list (dict json)) (root : pystr) : Prop :=
  verify_lines 0 (JStr genesis) (splitlines text) = Ok (bodies, JStr root).

Lemma chain_unique text bs text' bs' root :
  accepted_bodies text bs root → accepted_bodies text' bs' root → bs ≠ [] → bs' ≠ [] →
  Forall (λ b, floats_rt (JDict b) = true) bs → Forall (λ b, floats_rt (JDict b) = true) bs' →
  bodies_collide bs bs' ∨ ((λ b, sort_json (JDict b)) <$> bs = (λ b, sort_json (JDict b)) <$> bs').
Proof.
  intros H H' Hne Hne' F F'.
  apply (verify_lines_chain _ [] genesis) in H as (h & [= <-] & Hc); [|constructor].
  apply (verify_lines_chain _ [] genesis) in H' as (h' & [= <-] & Hc'); [|constructor].
  cbn in Hc, Hc'. destruct (decide (length bs = length bs')) as [Hlen|Hlen]; [by eapply body_chain_same|].
  left. destruct Hc as [|bs prev b h Hc Hb]; [done|].
  destruct Hc' as [|bs' prev' b' h Hc' Hb']; [done|].
  apply Forall_app in F as [F Fb], F' as [F' Fb']. rewrite Forall_singleton in Fb; rewrite Forall_singleton in Fb'.
  destruct (body_step_same _ _ _ _ _ _ _ Fb Fb' Hb Hb') as [Hcol|(_ & Hn & _)]; [exists b, b'; set_solver|].
  rewrite !length_app in Hlen. cbn in Hlen. lia.
Qed.

(** ** Properties *)

(** A run with one model call whose provider reported [finish_reason]. *)
Definition demo_ledger (finish_reason : pystr) : res Ledger :=
  l ← Ledger_add Ledger_new (str "run_started") 0 [(str "task_id", JStr (str "demo"))];
  l ← Ledger_add l (str "call_completed") 1 [(str "finish_reason", JStr finish_reason)];
  Ledger_add l (str "run_finished") 2 [(str "success", JBool true)].

Lemma ledger_verifies l text first final anchored :
  ledger_wf l → Forall event_ok (l_events l) → Ledger_write l = Ok text →
  head (l_events l) = Some first → e_kind first = str "run_started" →
  last (l_events l) = Some final → e_kind final = str "run_finished" →
  verify_ledger text (if (anchored : bool) then Some (JStr (l_head l)) else None)
  = Ok (mkLedgerReport (length (l_events l)) (JStr (l_head l)) anchored).
Proof.
  intros [Hc Hh] Hok Hw Hf Hfk Hl Hlk. unfold verify_ledger.
  change 0%Z with (Z.of_nat 0).
  rewrite (ledger_lines_verify _ 0 genesis text Hok Hc Hw). cbn [mbind res_bind]. rewrite <- Hh.
  assert (head (read_payload <$> l_events l) = Some (read_payload first)) as ->
    by (destruct (l_events l); cbn in *; congruence).
  rewrite fmap_last, Hl. cbn [fmap option_fmap option_map].
  change (kind_is "run_started" (read_payload first)) with (Ok (py_eq (JStr (e_kind first)) (JStr (str "run_started")))).
  change (kind_is "run_finished" (read_payload final)) with (Ok (py_eq (JStr (e_kind final)) (JStr (str "run_finished")))).
  rewrite Hfk, Hlk, !py_eq_str, !bool_decide_eq_true_2 by done. cbn [mbind res_bind negb].
  rewrite length_fmap. destruct anchored; [|done].
  by rewrite py_eq_str, bool_decide_eq_true_2.
Qed.

(** Writing a ledger and verifying the file succeeds and returns the
    ledger's own head: for every ledger built by [Ledger.add] whose event
    lines contain no line-breaking character, [verify_ledger] of the written
    text accepts, counts every event and reports the head as root, anchored
    or not. *)
Theorem ledger_write_verify l text first final anchored :
  ledger_wf l → Forall event_ok (l_events l) → Ledger_write l = Ok text →
  head (l_events l) = Some first → e_kind first = str "run_started" →
  last (l_events l) = Some final → e_kind final = str "run_finished" →
  verify_ledger text (if (anchored : bool) then Some (JStr (l_head l)) else None)
  = Ok (mkLedgerReport (length (l_events l)) (JStr (l_head l)) anchored).
Proof. apply ledger_verifies. Qed.

Definition demo_final : Ledger :=
  Eval vm_compute in match demo_ledger (str "stop") with Ok l => l | Raise _ => Ledger_new end.
Definition demo_text : pystr :=
  Eval vm_compute in match Ledger_write demo_final with Ok t => t | Raise _ => [] end.

Lemma ledger_write_verify_witness :
  Ledger_write demo_final = Ok demo_text ∧
  verify_ledger demo_text None = Ok (mkLedgerReport 3 (JStr (l_head demo_final)) false).
Proof.
  assert (Hw : Ledger_write demo_final = Ok demo_text) by (vm_compute; reflexivity).
  split; [exact Hw|].
  refine (ledger_write_verify demo_final demo_text _ _ false _ _ Hw eq_refl eq_refl eq_refl eq_refl).
  - vm_compute. repeat split.
  - repeat constructor; try (vm_compute; reflexivity);
      intros t Ht; vm_compute in Ht; injection Ht as <-; vm_compute; reflexivity.
Defined.

(** A ledger cannot be rewritten under a fixed root: if two trace files
    pass the chain check of [verify_ledger] with the same root, then they hold
    the same events in the same order (up to the order of object keys), or
    an event of one and an event of the other have different texts with one
    SHA-256 digest. *)
Theorem ledger_tamper_evident text bs text' bs' root :
  accepted_bodies text bs root → accepted_bodies text' bs' root → bs ≠ [] → bs' ≠ [] →
  Forall (λ b, floats_rt (JDict b) = true) bs → Forall (λ b, floats_rt (JDict b) = true) bs' →
  bodies_collide bs bs' ∨ ((λ b, sort_json (JDict b)) <$> bs = (λ b, sort_json (JDict b)) <$> bs').
Proof. apply chain_unique. Qed.

Definition demo_bodies : list (dict json) * pystr :=
  Eval vm_compute in match verify_lines 0 (JStr genesis) (splitlines demo_text) with
                     | Ok (bs, JStr r) => (bs, r) | _ => ([], []) end.

Lemma demo_accepted : accepted_bodies demo_text demo_bodies.1 demo_bodies.2.
Proof. vm_compute. reflexivity. Qed.
Lemma demo_floats : Forall (λ b, floats_rt (JDict b) = true) demo_bodies.1.
Proof. apply Forall_forall. apply forallb_true. vm_compute. reflexivity. Qed.

Lemma ledger_tamper_evident_witness :
  accepted_bodies demo_text demo_bodies.1 demo_bodies.2 ∧
  (bodies_collide demo_bodies.1 demo_bodies.1 ∨ ((λ b, sort_json (JDict b)) <$> demo_bodies.1 = (λ b, sort_json (JDict b)) <$> demo_bodies.1)).
Proof.
  split; [exact demo_accepted|].
  exact (ledger_tamper_evident _ _ _ _ _ demo_accepted demo_accepted
           ltac:(discriminate) ltac:(discriminate) demo_floats demo_floats).
Defined.

(** A trace can be written that its own verifier cannot read.  [canonical]
    leaves U+2028 unescaped and [verify_ledger] splits the file with
    [str.splitlines], which breaks at U+2028: a ledger whose events are
    correctly chained, start and finish, but whose provider reported a
    [finish_reason] holding U+2028, is written and then rejected as malformed
    JSON. *)
Theorem ledger_line_separator_unreadable :
  ∃ l text, demo_ledger [8232%N] = Ok l ∧ ledger_wf l ∧ Ledger_write l = Ok text ∧
    verify_ledger text None = Raise (ValueError "JSONDecodeError").
Proof.
  assert (H : (l ← demo_ledger [8232%N]; t ← Ledger_write l; Ok (verify_ledger t None))
              = Ok (Raise (ValueError "JSONDecodeError"))) by (vm_compute; reflexivity).
  destruct (demo_ledger [8232%N]) as [l|e] eqn:El; [|discriminate H]. cbn [mbind res_bind] in H.
  destruct (Ledger_write l) as [text|e] eqn:Ht; [|discriminate H]. cbn [mbind res_bind] in H.
  exists l, text. split; [reflexivity|]. split; [|split; [exact Ht|congruence]].
  unfold demo_ledger in El. apply bind_Ok in El as (l1 & H1 & El).
  apply bind_Ok in El as (l2 & H2 & El). eauto using Ledger_add_wf, Ledger_new_wf.
Qed.
