(* ===== verification/Receipts.v ===== *)
(** * Station receipts (residual/receipts.py)

    Receipt references, station receipts with their two schema versions, the
    wire envelope ([to_dict]/[from_dict]), cache keys and the prerequisite
    graph check. *)

From Stdlib Require Import ZArith NArith Lia.
From S2P Require Import Prelude PyData Sha256 PyFloat Json JsonFacts Core CoreFacts Storage.

Definition RECEIPT_SCHEMA : pystr := str "residual.station.receipt.v2".
Definition LEGACY_RECEIPT_SCHEMA : pystr := str "residual.station.receipt.v1".
Definition CACHE_SCHEMA : pystr := str "residual.station.cache.v1".

Definition verifier_id (value : pystr) : res pystr :=
  when negb (count_char 58 value =? 1)%nat raise ContractError "verifier name must be domain:evaluator";;
  _ ← identifiers (split_on 58 value);
  Ok value.

(** [sha256(schema + "\n" + canonical(payload))] *)
Definition domain_hash (schema : pystr) (payload : json) : res pystr :=
  t ← canonical payload;
  sha_text (schema ++ [10%N] ++ t).

(** [CheckResult] of residual/verifier.py *)
Inductive CheckResult : Type := CR_PASS | CR_FAIL | CR_UNKNOWN | CR_SKIPPED.
#[export] Instance CheckResult_eq_dec : EqDecision CheckResult.
Proof. solve_decision. Defined.
Definition check_result_str (r : CheckResult) : pystr :=
  match r with
  | CR_PASS => str "pass" | CR_FAIL => str "fail" | CR_UNKNOWN => str "unknown" | CR_SKIPPED => str "skipped"
  end.
(** [CheckResult(value)] *)
Definition check_result_of (s : pystr) : option CheckResult :=
  if decide (s = str "pass") then Some CR_PASS
  else if decide (s = str "fail") then Some CR_FAIL
  else if decide (s = str "unknown") then Some CR_UNKNOWN
  else if decide (s = str "skipped") then Some CR_SKIPPED
  else None.

Record ReceiptReference : Type := mkRef { ref_task_id : pystr; ref_receipt_hash : pystr }.
#[export] Instance ReceiptReference_eq_dec : EqDecision ReceiptReference.
Proof. solve_decision. Defined.

Definition ReceiptReference_new (task_id receipt_hash : pystr) : res ReceiptReference :=
  _ ← identifier task_id;
  _ ← hash_id receipt_hash;
  Ok (mkRef task_id receipt_hash).

(** [order=True]: tuples compare lexicographically. *)
Definition ref_leb (a b : ReceiptReference) : bool :=
  match str_compare (ref_task_id a) (ref_task_id b) with
  | Lt => true
  | Gt => false
  | Eq => str_leb (ref_receipt_hash a) (ref_receipt_hash b)
  end.

Definition ref_dict (r : ReceiptReference) : json :=
  jobj [("task_id", JStr (ref_task_id r)); ("receipt_hash", JStr (ref_receipt_hash r))].

Record StationReceipt : Type := mkReceipt {
  sr_task_id : pystr;
  sr_cache_key : pystr;
  sr_value_hash : pystr;
  sr_verifier_name : pystr;
  sr_verifier_revision : pystr;
  sr_verdict : CheckResult;
  sr_parents : list ReceiptReference;
  sr_engine_name : pystr;
  sr_engine_version : pystr;
  sr_legacy : bool  (* [_schema_version] is the legacy schema *)
}.
#[export] Instance StationReceipt_eq_dec : EqDecision StationReceipt.
Proof. solve_decision. Defined.

Definition unknown : pystr := str "unknown".

Definition distinct_parents (task_id : pystr) (refs : list ReceiptReference) : bool :=
  bool_decide (NoDup (ref_task_id <$> refs)) && negb (bool_decide (task_id ∈ ref_task_id <$> refs)).

(** [__post_init__]; [verdict] is the argument before [CheckResult(...)]. *)
Definition StationReceipt_new (task_id cache_key value_hash verifier_name verifier_revision verdict : pystr)
    (parents : list ReceiptReference) (engine_name engine_version : pystr) : res StationReceipt :=
  _ ← identifier task_id;
  _ ← hash_id cache_key;
  _ ← hash_id value_hash;
  _ ← hash_id verifier_revision;
  _ ← verifier_id verifier_name;
  when blank engine_name raise ContractError "receipt engine_name is required";;
  when blank engine_version raise ContractError "receipt engine_version is required";;
  verdict ← of_option (ContractError "invalid receipt verdict") (check_result_of verdict);
  when bool_decide (verdict = CR_SKIPPED) raise ContractError "skipped checks cannot issue receipts";;
  let refs := sort_by ref_leb parents in
  when negb (distinct_parents task_id refs) raise ContractError "duplicate or self-dependent receipt";;
  Ok (mkReceipt task_id cache_key value_hash verifier_name verifier_revision verdict refs
        engine_name engine_version false).

Definition receipt_payload (r : StationReceipt) : dict json :=
  [(str "task_id", JStr (sr_task_id r)); (str "cache_key", JStr (sr_cache_key r));
   (str "value_hash", JStr (sr_value_hash r)); (str "verifier_name", JStr (sr_verifier_name r));
   (str "verifier_revision", JStr (sr_verifier_revision r));
   (str "verdict", JStr (check_result_str (sr_verdict r)));
   (str "parent_receipts", JList (ref_dict <$> sr_parents r))]
  ++ (if sr_legacy r then []
      else [(str "engine_name", JStr (sr_engine_name r)); (str "engine_version", JStr (sr_engine_version r))]).

Definition receipt_schema (r : StationReceipt) : pystr :=
  if sr_legacy r then LEGACY_RECEIPT_SCHEMA else RECEIPT_SCHEMA.

Definition receipt_hash (r : StationReceipt) : res pystr :=
  domain_hash (receipt_schema r) (JDict (receipt_payload r)).

Definition receipt_to_dict (r : StationReceipt) : res json :=
  h ← receipt_hash r;
  Ok (jobj [("schema_version", JStr (receipt_schema r)); ("hash_algorithm", JStr (str "sha256"));
            ("receipt_hash", JStr h); ("payload", JDict (receipt_payload r))]).

(** ** [from_dict]: every failure becomes one [ContractError] *)
Definition bad_envelope {A} : res A := Raise (ContractError "invalid receipt envelope or integrity mismatch").

Definition as_str (v : json) : res pystr := match v with JStr s => Ok s | _ => bad_envelope end.
Definition as_dict (v : json) : res (dict json) := match v with JDict d => Ok d | _ => bad_envelope end.

(** [set(d) != {...}] *)
Definition keys_are (d : dict json) (ks : list string) : bool :=
  bool_decide ((list_to_set d.*1 : gset pystr) = list_to_set (str <$> ks)).

Definition str_field (k : string) (d : dict json) : res pystr := v ← dgetitem (str k) d; as_str v.

(** [ReceiptReference( **p )] *)
Definition ref_of_json (p : json) : res ReceiptReference :=
  d ← as_dict p;
  when negb (keys_are d ["task_id"; "receipt_hash"]) raise TypeError "unexpected keyword";;
  t ← str_field "task_id" d;
  h ← str_field "receipt_hash" d;
  ReceiptReference_new t h.

Definition v1_fields : list string :=
  ["task_id"; "cache_key"; "value_hash"; "verifier_name"; "verifier_revision"; "verdict"; "parent_receipts"].

Definition set_legacy (b : bool) (r : StationReceipt) : StationReceipt :=
  mkReceipt (sr_task_id r) (sr_cache_key r) (sr_value_hash r) (sr_verifier_name r)
    (sr_verifier_revision r) (sr_verdict r) (sr_parents r) (sr_engine_name r) (sr_engine_version r) b.

Definition from_dict_try (envelope : json) : res StationReceipt :=
  env ← as_dict envelope;
  when negb (keys_are env ["schema_version"; "hash_algorithm"; "receipt_hash"; "payload"]) raise ValueError "";;
  schema ← str_field "schema_version" env;
  when negb (bool_decide (schema = RECEIPT_SCHEMA)) && negb (bool_decide (schema = LEGACY_RECEIPT_SCHEMA))
  raise ValueError "";;
  algorithm ← dgetitem (str "hash_algorithm") env;
  when negb (py_eq algorithm (JStr (str "sha256"))) raise ValueError "";;
  let legacy := bool_decide (schema = LEGACY_RECEIPT_SCHEMA) in
  payload ← dgetitem (str "payload") env;
  p ← as_dict payload;
  when negb (keys_are p (v1_fields ++ (if legacy then [] else ["engine_name"; "engine_version"])))
  raise ValueError "";;
  parents ← dgetitem (str "parent_receipts") p;
  parents ← match parents with JList l => Ok l | _ => Raise (ValueError "") end;
  h ← domain_hash schema payload;
  envelope_hash ← dgetitem (str "receipt_hash") env;
  when negb (py_eq (JStr h) envelope_hash) raise ValueError "";;
  refs ← mapM ref_of_json parents;
  task_id ← str_field "task_id" p;
  cache_key ← str_field "cache_key" p;
  value_hash ← str_field "value_hash" p;
  verifier_name ← str_field "verifier_name" p;
  verifier_revision ← str_field "verifier_revision" p;
  verdict ← str_field "verdict" p;
  engine_name ← (if legacy then Ok unknown else str_field "engine_name" p);
  engine_version ← (if legacy then Ok unknown else str_field "engine_version" p);
  receipt ← StationReceipt_new task_id cache_key value_hash verifier_name verifier_revision verdict
              refs engine_name engine_version;
  let receipt := set_legacy legacy receipt in
  when negb (py_eq (JDict (receipt_payload receipt)) payload) raise ValueError "";;
  rh ← receipt_hash receipt;
  when negb (py_eq (JStr rh) envelope_hash) raise ValueError "";;
  Ok receipt.

Definition from_dict (envelope : json) : res StationReceipt :=
  match from_dict_try envelope with Ok r => Ok r | Raise _ => bad_envelope end.

Definition from_json (text : pystr) : res StationReceipt := v ← strict_json text; from_dict v.

(** [matches]: [digest(value)] may raise; the other tests are pure. *)
Definition receipt_matches (r : StationReceipt) (value : json) (cache_key verifier_name verifier_revision : pystr)
    (parents : list ReceiptReference) (engine_name engine_version : option pystr) : res bool :=
  if negb (bool_decide (sr_verdict r = CR_PASS)) then Ok false
  else
    h ← digest value;
    Ok (bool_decide (sr_value_hash r = h) && bool_decide (sr_cache_key r = cache_key)
        && bool_decide (sr_verifier_name r = verifier_name)
        && bool_decide (sr_verifier_revision r = verifier_revision)
        && bool_decide (sr_parents r = sort_by ref_leb parents)
        && match engine_name with Some n => bool_decide (sr_engine_name r = n) | None => true end
        && match engine_version with Some n => bool_decide (sr_engine_version r = n) | None => true end).

(** ** Cache keys *)
Definition cache_key (project_id task_id goal_hash contract_hash verifier_name verifier_revision : pystr)
    (check_type : CheckType) (artifacts : dict pystr) (parents : list ReceiptReference) : res pystr :=
  _ ← identifier project_id;
  _ ← identifier task_id;
  _ ← verifier_id verifier_name;
  _ ← for_all (goal_hash :: contract_hash :: verifier_revision :: artifacts.*2) (λ h, _ ← hash_id h; Ok tt);
  _ ← for_all artifacts.*1 (λ n, _ ← identifier n; Ok tt);
  let refs := sort_by ref_leb parents in
  when negb (distinct_parents task_id refs) raise ContractError "invalid prerequisite references";;
  domain_hash CACHE_SCHEMA
    (jobj [("schema_version", JStr CACHE_SCHEMA); ("hash_algorithm", JStr (str "sha256"));
           ("project_id", JStr project_id); ("task_id", JStr task_id); ("goal_hash", JStr goal_hash);
           ("contract_hash", JStr contract_hash); ("verifier_name", JStr verifier_name);
           ("verifier_revision", JStr verifier_revision); ("check_type", JStr (check_type_str check_type));
           ("artifacts", JDict ((λ kv, (kv.1, JStr kv.2)) <$> artifacts));
           ("parent_receipts", JList (ref_dict <$> refs))]).

(** ** The prerequisite graph *)
Definition expected_parents (receipts : dict StationReceipt) (deps : list pystr) : res (list ReceiptReference) :=
  refs ← mapM (λ d, r ← dgetitem d receipts; h ← receipt_hash r; ReceiptReference_new d h) deps;
  Ok (sort_by ref_leb refs).

Definition graph_ready (dependencies : dict (list pystr)) (resolved : gset pystr) : gset pystr :=
  list_to_set (filter (λ kd : pystr * list pystr, subset kd.2 resolved = true) dependencies).*1 ∖ resolved.

Fixpoint graph_resolve (fuel : nat) (n : nat) (dependencies : dict (list pystr)) (resolved : gset pystr) : res unit :=
  match fuel with
  | O => out_of_fuel
  | S fuel =>
      if (size resolved <? n)%nat then
        let ready := graph_ready dependencies resolved in
        when bool_decide (ready = ∅) raise ContractError "receipt dependency cycle";;
        graph_resolve fuel n dependencies (resolved ∪ ready)
      else Ok tt
  end.

Definition validate_receipt_graph (receipts : dict StationReceipt) (dependencies : dict (list pystr)) : res unit :=
  when negb (bool_decide ((list_to_set receipts.*1 : gset pystr) = list_to_set dependencies.*1))
  raise ContractError "missing receipt or dependency declaration";;
  _ ← for_all receipts (λ kr,
        deps ← dgetitem kr.1 dependencies;
        when negb (bool_decide (sr_task_id kr.2 = kr.1)) || negb (bool_decide (NoDup deps))
             || negb (forallb (λ d, dmem d receipts) deps)
        raise ContractError "invalid receipt graph";;
        expected ← expected_parents receipts deps;
        when negb (bool_decide (sr_parents kr.2 = expected)) raise ContractError "prerequisite receipt mismatch";;
        Ok tt);
  graph_resolve (S (length receipts)) (length receipts) dependencies ∅.

(** ** Equality of a value with its key-sorted reading *)
Fixpoint nan_free (v : json) : bool :=
  match v with
  | JFloat f => is_finite f
  | JList l => forallb nan_free l
  | JDict d => forallb (λ kv, nan_free kv.2) d
  | _ => true
  end.

Lemma num_eqb_refl x : num_finite x = true → num_eqb x x = true.
Proof.
  intros H. unfold num_eqb, num_compare. destruct x as [z|[s|s| |s m e]]; cbn in *; try done;
    unfold dyadic_compare; by rewrite Z.compare_refl.
Qed.

Lemma py_eq_sort v : wf_json v = true → nan_free v = true → py_eq v (sort_json v) = true.
Proof.
  induction v as [|b|z|f|s|l IH|d IH] using json_ind; intros Hwf Hn; cbn [sort_json] in *.
  - done.
  - by apply (num_eqb_refl (NInt (Z.b2z b))).
  - by apply (num_eqb_refl (NInt z)).
  - by apply (num_eqb_refl (NFloat f)).
  - cbn. by rewrite bool_decide_eq_true_2.
  - cbn in Hwf, Hn |- *. clear -IH Hwf Hn. induction IH as [|v l Hv Hl IHl]; [done|].
    cbn in Hwf, Hn. bool_prop. cbn. rewrite Hv by done. by apply IHl.
  - cbn [wf_json nan_free] in Hwf, Hn. bool_prop.
    change (((length d =? length (sort_by key_leb ((λ kv, (kv.1, sort_json kv.2)) <$> d)))%nat &&
      forallb (λ kv, match dget kv.1 (sort_by key_leb ((λ kv, (kv.1, sort_json kv.2)) <$> d)) with
                     | Some w => py_eq kv.2 w | None => false end) d) = true).
    rewrite length_sort_by, length_fmap, Nat.eqb_refl. cbn [andb].
    apply forallb_true. intros [k v] Hkv. cbn.
    assert (Hwf' : wf_json (JDict d) = true) by (cbn; rewrite H0, bool_decide_eq_true_2; done).
    destruct (dget_sort_json d k v Hwf' (dget_elem _ _ _ H Hkv)) as (d' & [= <-] & Hd').
    rewrite Hd'. rewrite Forall_forall in IH. rewrite forallb_true in H0. rewrite forallb_true in Hn.
    apply (IH (k, v)); [done|by apply (H0 (k, v))|by apply (Hn (k, v))].
Qed.

(** ** Well-formed receipts *)
Definition ref_ok (r : ReceiptReference) : Prop :=
  ident_ok (ref_task_id r) = true ∧ is_digest (ref_receipt_hash r) = true.

Record receipt_ok (r : StationReceipt) : Prop := {
  rok_new : StationReceipt_new (sr_task_id r) (sr_cache_key r) (sr_value_hash r) (sr_verifier_name r)
      (sr_verifier_revision r) (check_result_str (sr_verdict r)) (sr_parents r)
      (sr_engine_name r) (sr_engine_version r) = Ok (set_legacy false r);
  rok_parents : Forall ref_ok (sr_parents r);
  rok_legacy : sr_legacy r = true → sr_engine_name r = unknown ∧ sr_engine_version r = unknown
}.

Lemma ref_leb_total a b : ref_leb a b = true ∨ ref_leb b a = true.
Proof.
  unfold ref_leb. rewrite (str_compare_antisym (ref_task_id a)).
  destruct (str_compare (ref_task_id a) (ref_task_id b)); cbn; auto. apply str_leb_total.
Qed.

Lemma ref_leb_trans a b c : ref_leb a b = true → ref_leb b c = true → ref_leb a c = true.
Proof.
  unfold ref_leb. destruct (str_compare (ref_task_id a) (ref_task_id b)) eqn:E1; [|intros _|done].
  - apply str_compare_eq in E1 as ->. destruct (str_compare _ (ref_task_id c)); try done.
    apply str_leb_trans.
  - destruct (str_compare (ref_task_id b) (ref_task_id c)) eqn:E2; [|intros _|done].
    + apply str_compare_eq in E2 as <-. by rewrite E1.
    + by rewrite (str_compare_lt_trans _ _ _ E1 E2).
Qed.

Lemma sort_refs_idemp l : sort_by ref_leb (sort_by ref_leb l) = sort_by ref_leb l.
Proof. apply sort_by_idemp; [apply ref_leb_total | apply ref_leb_trans]. Qed.

Lemma check_result_str_of r : check_result_of (check_result_str r) = Some r.
Proof. by destruct r. Qed.

Lemma check_result_of_str s r : check_result_of s = Some r → s = check_result_str r.
Proof.
  unfold check_result_of. repeat case_decide; intros [= <-]; subst; reflexivity.
Qed.

Lemma identifier_Ok s r : identifier s = Ok r ↔ ident_ok s = true ∧ r = s.
Proof. unfold identifier. destruct (ident_ok s); cbn; split; intros; res_inv; naive_solver. Qed.

Lemma hash_id_Ok s r : hash_id s = Ok r ↔ is_digest s = true ∧ r = s.
Proof. unfold hash_id. destruct (is_digest s); cbn; split; intros; res_inv; naive_solver. Qed.

Lemma StationReceipt_new_ok tid ck vh vn vr vd ps en ev r :
  Forall ref_ok ps → StationReceipt_new tid ck vh vn vr vd ps en ev = Ok r → receipt_ok r.
Proof.
  intros Hps H. assert (H' := H). unfold StationReceipt_new in H.
  do 5 (apply bind_Ok in H as (? & _ & H)). do 2 pass_guard H.
  apply bind_Ok in H as (v & Hv & H). do 2 pass_guard H. injection H as <-.
  apply of_option_Ok in Hv. apply check_result_of_str in Hv as ->.
  split; cbn; [|by rewrite sort_by_perm|done].
  unfold StationReceipt_new in *. rewrite sort_refs_idemp. exact H'.
Qed.

Lemma receipt_ok_sorted r : receipt_ok r → sort_by ref_leb (sr_parents r) = sr_parents r.
Proof.
  intros [H _ _]. unfold StationReceipt_new in H.
  do 5 (apply bind_Ok in H as (? & _ & H)). do 2 pass_guard H.
  apply bind_Ok in H as (v & Hv & H). do 2 pass_guard H.
  by apply (f_equal (λ x, match x with Ok y => sr_parents y | Raise _ => [] end)) in H.
Qed.

(** ** Reading an envelope back *)
Lemma ref_of_json_ok r : ref_ok r → ref_of_json (sort_json (ref_dict r)) = Ok r.
Proof.
  intros [Hi Hd]. destruct r as [t h]. cbn [ref_task_id ref_receipt_hash] in *.
  change (sort_json (ref_dict (mkRef t h))) with (jobj [("receipt_hash", JStr h); ("task_id", JStr t)]).
  unfold ref_of_json. cbn [as_dict jobj mbind res_bind].
  assert (keys_are ((λ kv, (str kv.1, kv.2)) <$> [("receipt_hash", JStr h); ("task_id", JStr t)])
            ["task_id"; "receipt_hash"] = true) as -> by (vm_compute; reflexivity).
  unfold str_field. change (dgetitem (str "task_id") _) with (Ok (JStr t)).
  change (dgetitem (str "receipt_hash") _) with (Ok (JStr h)). cbn [mbind res_bind as_str negb].
  unfold ReceiptReference_new. rewrite (proj2 (identifier_Ok t t)), (proj2 (hash_id_Ok h h)); done.
Qed.

Lemma refs_of_json_ok rs : Forall ref_ok rs → mapM ref_of_json (sort_json <$> (ref_dict <$> rs)) = Ok rs.
Proof.
  intros H. apply mapM_res_Ok. induction H as [|r rs Hr Hrs IH]; cbn [fmap list_fmap]; constructor; [|done].
  by apply ref_of_json_ok.
Qed.

Lemma refs_json_good rs :
  forallb wf_json (ref_dict <$> rs) = true ∧ forallb floats_rt (ref_dict <$> rs) = true ∧
  forallb nan_free (ref_dict <$> rs) = true.
Proof. induction rs as [|r rs (IH1 & IH2 & IH3)]; [done|]. cbn. by rewrite IH1, IH2, IH3. Qed.

Lemma payload_good r :
  wf_json (JDict (receipt_payload r)) = true ∧ floats_rt (JDict (receipt_payload r)) = true ∧
  nan_free (JDict (receipt_payload r)) = true.
Proof.
  destruct (refs_json_good (sr_parents r)) as (H1 & H2 & H3). unfold receipt_payload.
  destruct (sr_legacy r); cbn; by rewrite H1, H2, H3.
Qed.

Lemma domain_hash_sort schema v h : domain_hash schema v = Ok h → domain_hash schema (sort_json v) = Ok h.
Proof.
  unfold domain_hash. intros H. apply bind_Ok in H as (t & Ht & H).
  by rewrite (canonical_sort_json _ _ Ht).
Qed.

(** The fields of a payload after sorting its keys. *)
Lemma sorted_payload_fields r :
  ∃ p, sort_json (JDict (receipt_payload r)) = JDict p ∧
    keys_are p (v1_fields ++ (if sr_legacy r then [] else ["engine_name"; "engine_version"])) = true ∧
    dgetitem (str "parent_receipts") p = Ok (JList (sort_json <$> (ref_dict <$> sr_parents r))) ∧
    str_field "task_id" p = Ok (sr_task_id r) ∧ str_field "cache_key" p = Ok (sr_cache_key r) ∧
    str_field "value_hash" p = Ok (sr_value_hash r) ∧
    str_field "verifier_name" p = Ok (sr_verifier_name r) ∧
    str_field "verifier_revision" p = Ok (sr_verifier_revision r) ∧
    str_field "verdict" p = Ok (check_result_str (sr_verdict r)) ∧
    (sr_legacy r = false → str_field "engine_name" p = Ok (sr_engine_name r) ∧
                           str_field "engine_version" p = Ok (sr_engine_version r)).
Proof.
  unfold receipt_payload. destruct (sr_legacy r); eexists; (split; [reflexivity|]);
    (split; [vm_compute; reflexivity|]); do 7 (split; [reflexivity|]).
  - done.
  - intros _. split; reflexivity.
Qed.

Lemma from_dict_to_dict r env :
  receipt_ok r → receipt_to_dict r = Ok env → from_dict (sort_json env) = Ok r.
Proof.
  intros Hok H. unfold receipt_to_dict in H. apply bind_Ok in H as (h & Hh & [= <-]).
  destruct (sorted_payload_fields r) as (p & Hp & Hkeys & Hpar & Ht & Hc & Hv & Hn & Hr & Hd & Hen).
  assert (sort_json (jobj [("schema_version", JStr (receipt_schema r)); ("hash_algorithm", JStr (str "sha256"));
            ("receipt_hash", JStr h); ("payload", JDict (receipt_payload r))])
          = jobj [("hash_algorithm", JStr (str "sha256")); ("payload", sort_json (JDict (receipt_payload r)));
                  ("receipt_hash", JStr h); ("schema_version", JStr (receipt_schema r))]) as -> by reflexivity.
  rewrite Hp. set (env := [("hash_algorithm", JStr (str "sha256")); ("payload", JDict p);
                  ("receipt_hash", JStr h); ("schema_version", JStr (receipt_schema r))]).
  unfold from_dict, from_dict_try. cbn [as_dict jobj mbind res_bind].
  assert (keys_are ((λ kv, (str kv.1, kv.2)) <$> env)
            ["schema_version"; "hash_algorithm"; "receipt_hash"; "payload"] = true) as ->
    by (vm_compute; reflexivity). cbn [negb].
  change (str_field "schema_version" _) with (Ok (receipt_schema r)). cbn [mbind res_bind].
  assert (negb (bool_decide (receipt_schema r = RECEIPT_SCHEMA))
            && negb (bool_decide (receipt_schema r = LEGACY_RECEIPT_SCHEMA)) = false) as ->
    by (unfold receipt_schema; destruct (sr_legacy r); reflexivity).
  change (dgetitem (str "hash_algorithm") _) with (Ok (JStr (str "sha256"))). cbn [mbind res_bind].
  change (negb (py_eq (JStr (str "sha256")) (JStr (str "sha256")))) with false. cbv iota.
  assert (bool_decide (receipt_schema r = LEGACY_RECEIPT_SCHEMA) = sr_legacy r) as ->
    by (unfold receipt_schema; destruct (sr_legacy r); reflexivity).
  change (dgetitem (str "payload") _) with (Ok (JDict p)). cbn [mbind res_bind as_dict].
  rewrite Hkeys, Hpar. cbn [mbind res_bind negb].
  assert (Hh' : domain_hash (receipt_schema r) (JDict p) = Ok h)
    by (rewrite <- Hp; by apply domain_hash_sort).
  rewrite Hh'. change (dgetitem (str "receipt_hash") _) with (Ok (JStr h)). cbn [mbind res_bind].
  rewrite py_eq_str, bool_decide_eq_true_2 by done. cbn [negb].
  rewrite refs_of_json_ok by apply Hok. cbn [mbind res_bind].
  rewrite Ht, Hc, Hv, Hn, Hr, Hd. cbn [mbind res_bind].
  assert ((if sr_legacy r then Ok unknown else str_field "engine_name" p) = Ok (sr_engine_name r)) as ->.
  { destruct (sr_legacy r) eqn:El; [by rewrite (proj1 (rok_legacy r Hok El))|by apply Hen]. }
  assert ((if sr_legacy r then Ok unknown else str_field "engine_version" p) = Ok (sr_engine_version r)) as ->.
  { destruct (sr_legacy r) eqn:El; [by rewrite (proj2 (rok_legacy r Hok El))|by apply Hen]. }
  cbn [mbind res_bind]. rewrite (rok_new r Hok). cbn [mbind res_bind].
  assert (set_legacy (sr_legacy r) (set_legacy false r) = r) as -> by (by destruct r).
  destruct (payload_good r) as (Hw & _ & Hnf). rewrite <- Hp, py_eq_sort by done. cbn [negb].
  rewrite Hh. cbn [mbind res_bind]. by rewrite py_eq_str, bool_decide_eq_true_2.
Qed.

Lemma canonical_envelope a b c p t :
  canonical p = Ok t →
  ∃ u, canonical (jobj [("schema_version", JStr a); ("hash_algorithm", JStr b);
                        ("receipt_hash", JStr c); ("payload", p)]) = Ok u.
Proof. intros H. cbn [jobj fmap list_fmap canonical res_all mbind res_bind fst snd res_fmap]. rewrite H. by eexists. Qed.

(** A receipt written as canonical JSON reads back as the same receipt:
    for every constructed receipt whose hash can be computed, [from_json] of the
    canonical text of [to_dict] returns it. *)
Theorem receipt_wire_round_trip tid ck vh vn vr vd ps en ev r h :
  Forall ref_ok ps → StationReceipt_new tid ck vh vn vr vd ps en ev = Ok r → receipt_hash r = Ok h →
  ∃ env text, receipt_to_dict r = Ok env ∧ canonical env = Ok text ∧ from_json text = Ok r.
Proof.
  intros Hps Hnew Hh. apply StationReceipt_new_ok in Hnew as Hok; [|done].
  assert (He := Hh). unfold receipt_hash, domain_hash in He. apply bind_Ok in He as (t & Ht & _).
  destruct (canonical_envelope (receipt_schema r) (str "sha256") h _ t Ht) as [u Hu].
  assert (Hd : receipt_to_dict r = Ok (jobj [("schema_version", JStr (receipt_schema r));
    ("hash_algorithm", JStr (str "sha256")); ("receipt_hash", JStr h); ("payload", JDict (receipt_payload r))]))
    by (unfold receipt_to_dict; by rewrite Hh).
  eexists _, u. split_and!; [done..|]. unfold from_json.
  destruct (payload_good r) as (Hw & Hf & _).
  rewrite (strict_json_canonical _ _ Hu); [by apply (from_dict_to_dict r)| |]; cbn in *; by rewrite ?Hw, ?Hf.
Qed.

Definition zero_hash : pystr := Eval vm_compute in sha256_hex [].
Definition demo_ref : ReceiptReference := mkRef (str "parent") zero_hash.
Definition demo_receipt : StationReceipt := Eval vm_compute in
  match StationReceipt_new (str "child") zero_hash zero_hash (str "core:same_as") zero_hash (str "pass")
          [demo_ref] (str "engine") (str "1") with
  | Ok r => r | Raise _ => mkReceipt [] [] [] [] [] CR_FAIL [] [] [] false end.
Definition demo_receipt_hash : pystr := Eval vm_compute in
  match receipt_hash demo_receipt with Ok h => h | Raise _ => [] end.

Lemma demo_receipt_new :
  StationReceipt_new (str "child") zero_hash zero_hash (str "core:same_as") zero_hash (str "pass")
    [demo_ref] (str "engine") (str "1") = Ok demo_receipt.
Proof. vm_compute. reflexivity. Qed.
Lemma demo_receipt_hashed : receipt_hash demo_receipt = Ok demo_receipt_hash.
Proof. vm_compute. reflexivity. Qed.
Lemma demo_ref_ok : Forall ref_ok [demo_ref].
Proof. constructor; [|constructor]. split; vm_compute; reflexivity. Qed.

Lemma receipt_wire_round_trip_witness :
  ∃ env text, receipt_to_dict demo_receipt = Ok env ∧ canonical env = Ok text ∧ from_json text = Ok demo_receipt.
Proof. exact (receipt_wire_round_trip _ _ _ _ _ _ _ _ _ _ _ demo_ref_ok demo_receipt_new demo_receipt_hashed). Defined.

(** ** The hash binds the receipt *)
Lemma schema_text_inj r r' t t' :
  receipt_schema r ++ [10%N] ++ t = receipt_schema r' ++ [10%N] ++ t' →
  receipt_schema r = receipt_schema r' ∧ t = t'.
Proof.
  unfold receipt_schema. destruct (sr_legacy r), (sr_legacy r'); cbn; intros H; try (injection H as H; done).
  all: discriminate H.
Qed.

(** The texts hashed for the two receipts collide. *)
Definition receipts_collide (r r' : StationReceipt) : Prop :=
  ∃ t t', canonical (JDict (receipt_payload r)) = Ok t ∧ canonical (JDict (receipt_payload r')) = Ok t' ∧
    collide (receipt_schema r ++ [10%N] ++ t) (receipt_schema r' ++ [10%N] ++ t').

(** A receipt hash commits to the whole receipt: two constructed receipts
    (of either schema version) with the same hash are equal, unless the two
    texts that were hashed differ and have one SHA-256 digest. *)
Theorem receipt_hash_binds r r' h :
  receipt_ok r → receipt_ok r' → receipt_hash r = Ok h → receipt_hash r' = Ok h → r = r' ∨ receipts_collide r r'.
Proof.
  intros Hok Hok' Hh Hh'. assert (He := Hh). assert (He' := Hh').
  unfold receipt_hash, domain_hash in He, He'.
  apply bind_Ok in He as (t & Ht & He), He' as (t' & Ht' & He').
  destruct (decide (receipt_schema r ++ [10%N] ++ t = receipt_schema r' ++ [10%N] ++ t')) as [E|Hne];
    [left | right; exists t, t'; split_and!; [done..|]; split; [done|by exists h]].
  apply schema_text_inj in E as [Es <-].
  destruct (payload_good r) as (Hw & Hf & _), (payload_good r') as (Hw' & Hf' & _).
  pose proof (canonical_injective _ _ _ Ht Ht' Hw Hw' Hf Hf') as Hs.
  assert (∀ q, receipt_hash q = Ok h → receipt_to_dict q = Ok (jobj [("schema_version", JStr (receipt_schema q));
    ("hash_algorithm", JStr (str "sha256")); ("receipt_hash", JStr h); ("payload", JDict (receipt_payload q))]))
    as Hd by (intros q Hq; unfold receipt_to_dict; by rewrite Hq).
  pose proof (from_dict_to_dict r _ Hok (Hd r Hh)) as H1.
  pose proof (from_dict_to_dict r' _ Hok' (Hd r' Hh')) as H2.
  assert (∀ a b c p, sort_json (jobj [("schema_version", a); ("hash_algorithm", b); ("receipt_hash", c);
            ("payload", p)]) = jobj [("hash_algorithm", sort_json b); ("payload", sort_json p);
            ("receipt_hash", sort_json c); ("schema_version", sort_json a)]) as Hsort by reflexivity.
  rewrite Hsort, Es, Hs in H1. rewrite Hsort in H2. congruence.
Qed.

Lemma receipt_hash_binds_witness :
  receipt_ok demo_receipt ∧ (demo_receipt = demo_receipt ∨ receipts_collide demo_receipt demo_receipt).
Proof.
  pose proof (StationReceipt_new_ok _ _ _ _ _ _ _ _ _ _ demo_ref_ok demo_receipt_new) as Hok.
  split; [exact Hok|]. exact (receipt_hash_binds _ _ _ Hok Hok demo_receipt_hashed demo_receipt_hashed).
Defined.

Lemma ref_of_json_sound p r : ref_of_json p = Ok r → ref_ok r.
Proof.
  unfold ref_of_json, ReceiptReference_new. intros H. res_inv.
  apply identifier_Ok in H3 as [? ->]. apply hash_id_Ok in H4 as [? ->]. done.
Qed.

(** [from_dict] accepts an envelope only when it carries a valid receipt
    and the receipt's own hash: the result satisfies every constructor check,
    its recomputed hash is the envelope's [receipt_hash], and the envelope's
    payload equals the receipt's payload.  Every other input raises the one
    [ContractError] of the reader. *)
Theorem from_dict_sound envelope :
  match from_dict envelope with
  | Ok r => receipt_ok r ∧ ∃ d h p, envelope = JDict d ∧ dget (str "receipt_hash") d = Some (JStr h) ∧
              dget (str "payload") d = Some p ∧ receipt_hash r = Ok h ∧
              py_eq (JDict (receipt_payload r)) p = true
  | Raise e => e = ContractError "invalid receipt envelope or integrity mismatch"
  end.
Proof.
  unfold from_dict. destruct (from_dict_try envelope) as [r|e] eqn:H; [|done].
  unfold from_dict_try in H.
  apply bind_Ok in H as (env & Henv & H). destruct envelope as [| | | | | |d]; try discriminate Henv.
  injection Henv as <-. pass_guard H.
  apply bind_Ok in H as (schema & _ & H). pass_guard H.
  apply bind_Ok in H as (alg & _ & H). pass_guard H. cbv zeta in H.
  set (legacy := bool_decide (schema = LEGACY_RECEIPT_SCHEMA)) in *. clearbody legacy.
  apply bind_Ok in H as (payload & Hpay & H). apply bind_Ok in H as (p & Hp & H). pass_guard H.
  apply bind_Ok in H as (ps & _ & H). apply bind_Ok in H as (pl & _ & H).
  apply bind_Ok in H as (h & _ & H). apply bind_Ok in H as (eh & Heh & H). pass_guard H.
  apply bind_Ok in H as (refs & Hrefs & H).
  do 6 (apply bind_Ok in H as (? & _ & H)).
  apply bind_Ok in H as (en & Hen & H). apply bind_Ok in H as (ev & Hev & H).
  apply bind_Ok in H as (r0 & Hnew & H). pass_guard H as Hpe.
  apply bind_Ok in H as (rh & Hrh & H). pass_guard H as Hrhe. injection H as <-.
  apply negb_false_iff in Hpe. apply negb_false_iff, py_eq_of_str in Hrhe as ->.
  apply dgetitem_Ok in Hpay. apply dgetitem_Ok in Heh.
  split; [|by eexists _, _, _].
  assert (Forall ref_ok refs) as Hok.
  { apply mapM_res_Ok in Hrefs. clear -Hrefs. induction Hrefs; constructor; [|done]. by eapply ref_of_json_sound. }
  assert (sr_engine_name r0 = en ∧ sr_engine_version r0 = ev) as [Een Eev].
  { clear -Hnew. unfold StationReceipt_new in Hnew. do 5 (apply bind_Ok in Hnew as (? & _ & Hnew)).
    do 2 pass_guard Hnew. apply bind_Ok in Hnew as (v & Hv & Hnew). do 2 pass_guard Hnew. by injection Hnew as <-. }
  destruct (StationReceipt_new_ok _ _ _ _ _ _ _ _ _ _ Hok Hnew) as [A1 A2 A3].
  split; [by destruct r0|done|]. cbn. intros ->. injection Hen as <-. injection Hev as <-. done.
Qed.

(** ** The prerequisite graph is well-founded *)
Lemma size_keys_le (l : list pystr) : size (list_to_set l : gset pystr) ≤ length l.
Proof.
  induction l as [|x l IH]; [done|]. rewrite list_to_set_cons, size_union_alt, size_singleton. cbn [length].
  assert (size ((list_to_set l : gset pystr) ∖ {[x]}) ≤ size (list_to_set l : gset pystr))
    by (apply subseteq_size; set_solver). lia.
Qed.

Section graph.
Context (deps : dict (list pystr)) (Hwf : wf_dict deps).

(** [depends d k]: the receipt of [k] has the receipt of [d] as parent. *)
Definition depends (d k : pystr) : Prop := ∃ l, dget k deps = Some l ∧ d ∈ l.

Lemma elem_of_graph_ready R k :
  k ∈ graph_ready deps R ↔ (¬ (k ∈ R) ∧ ∃ l, dget k deps = Some l ∧ subset l R = true).
Proof using Hwf.
  unfold graph_ready. rewrite elem_of_difference, elem_of_list_to_set, list_elem_of_fmap. split.
  - intros [([k' l] & -> & Hin) Hk]. apply list_elem_of_filter in Hin as [Hs Hin]. split; [done|].
    exists l. split; [by apply dget_elem|done].
  - intros [Hk (l & Hl & Hs)]. split; [|done]. exists (k, l). split; [done|].
    apply list_elem_of_filter. split; [done|]. by apply dget_Some_elem.
Qed.

Lemma graph_resolve_acc fuel n R :
  size (list_to_set deps.*1 : gset pystr) ≤ n →
  R ⊆ list_to_set deps.*1 → (∀ k, k ∈ R → Acc depends k) →
  graph_resolve fuel n deps R = Ok tt → ∀ k, k ∈ deps.*1 → Acc depends k.
Proof using Hwf.
  intros Hn. revert R. induction fuel as [|fuel IH]; intros R HR Hacc; cbn [graph_resolve]; [done|].
  destruct (size R <? n)%nat eqn:Hlt; bool_prop.
  - intros H. pass_guard H. revert H. apply IH.
    + apply union_least; [done|]. intros k Hk. apply elem_of_graph_ready in Hk as (_ & l & Hl & _).
      apply elem_of_list_to_set, dget_is_Some. by exists l.
    + intros k [Hk|Hk]%elem_of_union; [by apply Hacc|].
      apply elem_of_graph_ready in Hk as (_ & l & Hl & Hs). constructor. intros d (l' & Hl' & Hd).
      assert (l' = l) as -> by congruence. apply Hacc. unfold subset in Hs. bool_prop. set_solver.
  - intros _ k Hk. apply Hacc.
    assert (R ≡ list_to_set deps.*1) as ->; [|by apply elem_of_list_to_set].
    apply set_subseteq_size_equiv; [done|lia].
Qed.

Lemma graph_resolve_total fuel n R :
  n - size R < fuel → graph_resolve fuel n deps R ≠ out_of_fuel.
Proof using Hwf.
  revert R. induction fuel as [|fuel IH]; intros R Hf; cbn [graph_resolve]; [lia|].
  destruct (size R <? n)%nat eqn:Hlt; bool_prop; [|done].
  destruct (bool_decide _) eqn:He; [done|]. bool_prop. apply IH.
  assert (size R < size (R ∪ graph_ready deps R)); [|lia].
  rewrite size_union by (intros x; rewrite elem_of_graph_ready; naive_solver).
  assert (size (graph_ready deps R) ≠ 0); [|lia]. rewrite size_non_empty_iff. by rewrite leibniz_equiv_iff.
Qed.
End graph.

(** One receipt of an accepted graph: its id, and parents that are exactly the
    recomputed hashes of its declared prerequisites. *)
Definition receipt_linked (receipts : dict StationReceipt) (deps : dict (list pystr)) (k : pystr)
    (r : StationReceipt) : Prop :=
  sr_task_id r = k ∧ ∃ ds refs, dget k deps = Some ds ∧ NoDup ds ∧
    Forall2 (λ d p, ref_task_id p = d ∧ ∃ q, dget d receipts = Some q ∧
                    receipt_hash q = Ok (ref_receipt_hash p)) ds refs ∧
    sr_parents r = sort_by ref_leb refs.

Lemma expected_parents_Ok receipts ds ps :
  expected_parents receipts ds = Ok ps →
  ∃ refs, Forall2 (λ d p, ref_task_id p = d ∧ ∃ q, dget d receipts = Some q ∧
                          receipt_hash q = Ok (ref_receipt_hash p)) ds refs ∧ ps = sort_by ref_leb refs.
Proof.
  unfold expected_parents. intros H. apply bind_Ok in H as (refs & Hrefs & [= <-]). exists refs. split; [|done].
  apply mapM_res_Ok in Hrefs. eapply Forall2_impl; [exact Hrefs|]. cbn. intros d p H.
  apply bind_Ok in H as (q & Hq & H). apply bind_Ok in H as (h & Hh & H).
  unfold ReceiptReference_new in H. apply bind_Ok in H as (? & _ & H). apply bind_Ok in H as (? & _ & [= <-]).
  apply dgetitem_Ok in Hq. cbn. eauto.
Qed.

(** An accepted receipt graph is sound: every receipt sits under its own
    task id, lists exactly the (sorted) ids and recomputed hashes of the
    receipts of its declared prerequisites, and no chain of prerequisites is
    circular.  The resolution loop never exhausts its bound. *)
Theorem receipt_graph_sound receipts deps :
  wf_dict deps →
  graph_resolve (S (length receipts)) (length receipts) deps ∅ ≠ out_of_fuel ∧
  (validate_receipt_graph receipts deps = Ok tt →
   (∀ k r, (k, r) ∈ receipts → receipt_linked receipts deps k r) ∧
   (∀ k, k ∈ receipts.*1 → Acc (depends deps) k)).
Proof.
  intros Hwf. split; [apply graph_resolve_total; [done|lia]|].
  unfold validate_receipt_graph. intros H. pass_guard H as Hk. bool_prop.
  apply bind_Ok in H as ([] & Hall & H). apply for_all_Ok in Hall. split.
  - rewrite Forall_forall in Hall. intros k r Hin. specialize (Hall _ Hin). cbn in Hall.
    apply bind_Ok in Hall as (ds & Hds & Hall). pass_guard Hall as Hg.
    apply bind_Ok in Hall as (ps & Hps & Hall). pass_guard Hall as He. bool_prop.
    apply dgetitem_Ok in Hds. apply expected_parents_Ok in Hps as (refs & Hrefs & ->).
    split; [done|]. by exists ds, refs.
  - intros k Hin. eapply graph_resolve_acc in H; [exact H|done| |set_solver|set_solver|].
    + rewrite <- Hk, <- (length_fmap fst). apply size_keys_le.
    + apply (elem_of_list_to_set (C := gset pystr)). rewrite <- Hk. by apply elem_of_list_to_set.
Qed.

Definition demo_parent : StationReceipt := Eval vm_compute in
  match StationReceipt_new (str "parent") zero_hash zero_hash (str "core:same_as") zero_hash (str "pass")
          [] (str "engine") (str "1") with Ok r => r | Raise _ => demo_receipt end.
Definition demo_graph : dict StationReceipt := Eval vm_compute in
  match (h ← receipt_hash demo_parent;
         StationReceipt_new (str "child") zero_hash zero_hash (str "core:same_as") zero_hash (str "pass")
          [mkRef (str "parent") h] (str "engine") (str "1")) with
  | Ok r => [(str "parent", demo_parent); (str "child", r)] | Raise _ => [] end.
Definition demo_deps : dict (list pystr) := [(str "parent", []); (str "child", [str "parent"])].

Lemma receipt_graph_sound_witness :
  validate_receipt_graph demo_graph demo_deps = Ok tt ∧
  (∀ k, k ∈ demo_graph.*1 → Acc (depends demo_deps) k).
Proof.
  assert (H : validate_receipt_graph demo_graph demo_deps = Ok tt) by (vm_compute; reflexivity).
  split; [exact H|].
  apply (receipt_graph_sound demo_graph demo_deps); [|exact H].
  apply (bool_decide_unpack _). vm_compute. exact I.
Defined.
