(* ===== verification/Builtins.v ===== *)
(** * Built-in checks and solvers (residual/core.py)

    [json_pointer], the [json_value] extractor, the [same_as] comparison, the
    plan simulator [transition_plan] and [dependency_count].  The [json_sum]
    check is left out: [sum] over floats differs between the supported
    interpreter versions. *)

From Stdlib Require Import ZArith NArith Lia.
From S2P Require Import Prelude PyData PyFloat Json JsonFacts Core CoreFacts.

(** ** [int(token)] on a string *)
(** Zero digits of the decimal-digit blocks of Unicode (each block has ten). *)
Definition digit_zeros : list N :=
  [48; 1632; 1776; 1984; 2406; 2534; 2662; 2790; 2918; 3046; 3174; 3302; 3430; 3558; 3664; 3792;
   3872; 4160; 4240; 6112; 6160; 6470; 6608; 6784; 6800; 6992; 7088; 7232; 7248; 42528; 43216;
   43264; 43472; 43504; 43600; 44016; 65296; 66720; 68912; 69734; 69872; 69942; 70096; 70384;
   70736; 70864; 71248; 71360; 71472; 71904; 72016; 72784; 73040; 73120; 92768; 92864; 93008;
   120782; 120792; 120802; 120812; 120822; 123200; 123632; 125264; 130032]%N.

Definition decimal_digit (c : N) : option Z :=
  (λ z, Z.of_N (c - z)) <$> head (filter (λ z, in_range z (z + 9) c = true) digit_zeros).

Fixpoint lstrip (s : pystr) : pystr :=
  match s with
  | c :: s' => if is_space c then lstrip s' else s
  | [] => []
  end.
Definition strip (s : pystr) : pystr := reverse (lstrip (reverse (lstrip s))).

(** Digits with single underscores between them; [after] says that a digit
    must come next. *)
Fixpoint int_digits (s : pystr) (after : bool) (acc : Z) : option Z :=
  match s with
  | [] => if after then None else Some acc
  | c :: s =>
      if (c =? 95)%N then (if after then None else int_digits s true acc)
      else match decimal_digit c with
           | Some d => int_digits s false (10 * acc + d)
           | None => None
           end
  end.

Definition py_int (s : pystr) : res Z :=
  let bad := Raise (ValueError "invalid literal for int() with base 10") in
  let body sgn t :=
    if (max_int_digits <? length (filter (λ c : N, c ≠ 95%N) t))%nat then bad
    else match int_digits t true 0 with Some n => Ok (sgn * n)%Z | None => bad end in
  match strip s with
  | 43%N :: t => body 1%Z t
  | 45%N :: t => body (-1)%Z t
  | t => body 1%Z t
  end.

(** ** JSON pointers *)
(** [s.replace("~" + d, r)] *)
Fixpoint replace_tilde (d r : N) (s : pystr) : pystr :=
  match s with
  | 126%N :: s' =>
      match s' with
      | c :: s'' => if (c =? d)%N then r :: replace_tilde d r s'' else 126%N :: replace_tilde d r s'
      | [] => [126%N]
      end
  | c :: s' => c :: replace_tilde d r s'
  | [] => []
  end.

Definition unescape (token : pystr) : pystr := replace_tilde 48 126 (replace_tilde 49 47 token).

(** [l[i]]: a negative index counts from the end. *)
Definition list_item (l : list json) (i : Z) : res json :=
  let j := if (i <? 0)%Z then (i + Z.of_nat (length l))%Z else i in
  if (j <? 0)%Z then Raise (IndexError "list index out of range")
  else of_option (IndexError "list index out of range") (l !! Z.to_nat j).

Definition pointer_step (data : json) (token : pystr) : res json :=
  let token := unescape token in
  match data with
  | JList l => i ← py_int token; list_item l i
  | JDict d => dgetitem token d
  | _ => Raise (TypeError "value is not subscriptable by a string")
  end.

Fixpoint pointer_walk (data : json) (tokens : list pystr) : res json :=
  match tokens with
  | [] => Ok data
  | t :: tokens => d ← pointer_step data t; pointer_walk d tokens
  end.

Definition json_pointer (data : json) (pointer : json) : res json :=
  match pointer with
  | JStr [] => Ok data
  | JStr (47%N :: rest) => pointer_walk data (split_on 47 rest)
  | JStr _ => Raise (ContractError "JSON pointer must start with /")
  | _ => Raise (AttributeError "startswith")
  end.

(** ** [extract], [same_as], [dependency_count] *)
Definition extract (ctx : Context_) : res json :=
  let p := o_parameters (ctx_obligation ctx) in
  artifact ← dgetitem (str "artifact") p;
  text ← match artifact with
         | JStr a => ctx_evidence ctx a
         | _ => Raise (ContractError "verifier accessed undeclared evidence")
         end;
  v ← strict_json text;
  json_pointer v (default (JStr []) (dget (str "pointer") p)).

Definition same_as (compute : Solver_) : Check_ := λ value ctx,
  a ← canonical value;
  expected ← compute ctx;
  b ← canonical expected;
  Ok (Some (if decide (a = b) then Verdict_passed
            else Verdict_fail (str "value_mismatch")
                   (str "Recompute the requested value from the declared evidence."))).

Definition dependency_count (ctx : Context_) : res json :=
  d ← dgetitem (str "dependency") (o_parameters (ctx_obligation ctx));
  value ← match d with
          | JStr n => ctx_dependency ctx n
          | _ => Raise (ContractError "verifier accessed undeclared dependency")
          end;
  match value with
  | JList l => Ok (JInt (Z.of_nat (length l)))
  | JDict d => Ok (JInt (Z.of_nat (length d)))
  | JStr s => Ok (JInt (Z.of_nat (length s)))
  | _ => Raise (ContractError "dependency_count requires a collection")
  end.

(** ** [transition_plan] *)
(** [state.update(value)] / [dict(value)] on a JSON value: an object, or a
    sequence of pairs.  A pair may be any two-element sequence; a key that is
    not a string never matches a pattern and is dropped, an unhashable one
    raises. *)
Definition pair_of (v : json) : res (json * json) :=
  let pick l := match l with [a; b] => Ok (a, b) | _ => Raise (ValueError "update sequence element") end in
  match v with
  | JList l => pick l
  | JDict d => pick (JStr <$> d.*1)
  | JStr s => pick ((λ c, JStr [c]) <$> s)
  | _ => Raise (TypeError "cannot convert dictionary update sequence element")
  end.

Definition update_pair (state : dict json) (kv : json * json) : res (dict json) :=
  match kv.1 with
  | JStr k => Ok (dset k kv.2 state)
  | JList _ | JDict _ => Raise (TypeError "unhashable type")
  | _ => Ok state
  end.

Fixpoint update_pairs (state : dict json) (l : list json) : res (dict json) :=
  match l with
  | [] => Ok state
  | v :: l => kv ← pair_of v; state ← update_pair state kv; update_pairs state l
  end.

Definition py_update (state : dict json) (v : json) : res (dict json) :=
  match v with
  | JDict d => Ok (dupdate state d)
  | JList l => update_pairs state l
  | JStr s => update_pairs state ((λ c, JStr [c]) <$> s)
  | _ => Raise (TypeError "object is not iterable")
  end.

(** [matches(pattern)] *)
Definition matches (state : dict json) (pattern : json) : res bool :=
  match pattern with
  | JDict p => all_res (λ kv : pystr * json,
      match dget kv.1 state with
      | None => Ok false
      | Some w => a ← canonical w; b ← canonical kv.2; Ok (bool_decide (a = b))
      end) p
  | _ => Raise (AttributeError "items")
  end.

(** [any(f(x) for x in l)] *)
Fixpoint any_res {A} (f : A → res bool) (l : list A) : res bool :=
  match l with
  | [] => Ok false
  | x :: l => b ← f x; if (b : bool) then Ok true else any_res f l
  end.

(** Iterating a JSON value. *)
Definition iterate (v : json) : res (list json) :=
  match v with
  | JList l => Ok l
  | JDict d => Ok (JStr <$> d.*1)
  | JStr s => Ok ((λ c, JStr [c]) <$> s)
  | _ => Raise (TypeError "object is not iterable")
  end.

Definition forbidden_in (forbidden : json) (state : dict json) : res bool :=
  l ← iterate forbidden; any_res (matches state) l.

Definition step_message (i : nat) (s : string) : pystr :=
  str "Step " ++ str_of_Z (Z.of_nat i + 1) ++ str s.

(** The [for i, action_id in enumerate(value)] loop and the goal test. *)
Fixpoint run_plan (actions : dict json) (forbidden goal : json) (i : nat) (plan : list pystr)
    (state : dict json) : res Verdict :=
  match plan with
  | [] =>
      g ← matches state goal;
      Ok (if (g : bool) then Verdict_passed
          else Verdict_fail (str "goal_unsatisfied") (str "The simulated final state does not satisfy the goal."))
  | a :: plan =>
      match dget a actions with
      | None => Ok (Verdict_fail (str "unknown_action")
                      (step_message i " references an action absent from the declared action map."))
      | Some (JDict action) =>
          m ← matches state (default (JDict []) (dget (str "requires") action));
          if negb m then
            Ok (Verdict_fail (str "precondition_failed")
                  (step_message i " has an unsatisfied precondition. Revise the action ordering."))
          else
            state ← py_update state (default (JDict []) (dget (str "sets") action));
            f ← forbidden_in forbidden state;
            if (f : bool) then
              Ok (Verdict_fail (str "forbidden_state") (step_message i " enters a forbidden state."))
            else run_plan actions forbidden goal (S i) plan state
      | Some _ => Raise (AttributeError "get")
      end
  end.

(** [isinstance(value, list)] with string elements. *)
Definition plan_of (value : json) : option (list pystr) :=
  match value with
  | JList l => mapM (λ v, match v with JStr s => Some s | _ => None end) l
  | _ => None
  end.

Definition json_num (v : json) : res num :=
  match v with
  | JInt z => Ok (NInt z)
  | JBool b => Ok (NInt (Z.b2z b))
  | JFloat f => Ok (NFloat f)
  | _ => Raise (TypeError "'<=' not supported")
  end.

Definition transition_plan : Check_ := λ value ctx,
  spec ← extract ctx;
  match plan_of value with
  | None => Ok (Some (Verdict_fail (str "plan_type") (str "Return a JSON array of action IDs in execution order.")))
  | Some plan =>
      let wrong_length := Ok (Some (Verdict_fail (str "plan_length")
                            (str "The plan must have between one and max_steps actions."))) in
      if bool_decide (plan = []) then wrong_length
      else
        spec ← match spec with JDict d => Ok d | _ => Raise (AttributeError "get") end;
        limit ← json_num (default (JInt 32) (dget (str "max_steps") spec));
        if negb (num_leb (NInt (Z.of_nat (length plan))) limit) then wrong_length
        else
          initial ← dgetitem (str "initial") spec;
          state ← py_update [] initial;
          actions ← dgetitem (str "actions") spec;
          goal ← dgetitem (str "goal") spec;
          match actions, goal with
          | JDict actions, JDict ((_ :: _) as g) =>
              let forbidden := default (JList []) (dget (str "forbidden") spec) in
              f ← forbidden_in forbidden state;
              if (f : bool) then
                Ok (Some (mkVerdict SUnknown (str "initial_state_forbidden")
                            (str "The task begins in a forbidden state.")))
              else Some <$> run_plan actions forbidden (JDict g) 0 plan state
          | _, _ => Raise (ContractError "plan requires action definitions and a nonempty goal")
          end
  end.

(** ** Plans: the check is the simulation *)
Section plans.
Context (actions : dict json) (forbidden : json).

Definition requires (action : dict json) : json := default (JDict []) (dget (str "requires") action).
Definition sets (action : dict json) : json := default (JDict []) (dget (str "sets") action).

(** The plan runs from one state to another: every action is declared and
    enabled where it runs, and no state entered is forbidden. *)
Inductive simulates : dict json → list pystr → dict json → Prop :=
| sim_done s : simulates s [] s
| sim_step s a action s' plan s'' :
    dget a actions = Some (JDict action) → matches s (requires action) = Ok true →
    py_update s (sets action) = Ok s' → forbidden_in forbidden s' = Ok false →
    simulates s' plan s'' → simulates s (a :: plan) s''.

Lemma run_plan_decides goal i plan s vd :
  run_plan actions forbidden goal i plan s = Ok vd →
  v_status vd = SPass ↔ ∃ s', simulates s plan s' ∧ matches s' goal = Ok true.
Proof.
  revert i s. induction plan as [|a plan IH]; intros i s H; cbn [run_plan] in H.
  - apply bind_Ok in H as (g & Hg & H). split.
    + intros Hp. exists s. split; [constructor|]. by destruct g; injection H as <-.
    + intros (s' & Hs & Hm). inversion Hs; subst. rewrite Hm in Hg. injection Hg as <-. by injection H as <-.
  - destruct (dget a actions) as [[ | | | | | |action]|] eqn:Ha; try discriminate H.
    2: { injection H as <-. split; [done|]. intros (s' & Hs & _). inversion Hs; congruence. }
    apply bind_Ok in H as (m & Hm & H). destruct m; cbn [negb] in H.
    2: { injection H as <-. split; [done|]. intros (s' & Hs & _).
         inversion Hs as [|? ? act ? ? ? Ha' Hm']; subst. rewrite Ha in Ha'. injection Ha' as <-.
         unfold requires in Hm'. congruence. }
    apply bind_Ok in H as (s1 & Hs1 & H). apply bind_Ok in H as (f & Hf & H). destruct f.
    + injection H as <-. split; [done|]. intros (s' & Hs & _).
      inversion Hs as [|? ? act ? ? ? Ha' Hm' Hu' Hf']; subst. rewrite Ha in Ha'. injection Ha' as <-.
      unfold sets in Hu'. congruence.
    + apply IH in H as ->. split; intros (s' & Hs & Hg); exists s'; (split; [|done]).
      * by eapply sim_step.
      * inversion Hs as [|? ? act ? ? ? Ha' Hm' Hu' Hf']; subst. rewrite Ha in Ha'. injection Ha' as <-.
        unfold sets in Hu'. congruence.
Qed.
End plans.

(** What a plan specification asks of a plan. *)
Definition valid_plan (spec : dict json) (plan : list pystr) : Prop :=
  ∃ limit initial state actions goal final,
    json_num (default (JInt 32) (dget (str "max_steps") spec)) = Ok limit ∧
    plan ≠ [] ∧ num_leb (NInt (Z.of_nat (length plan))) limit = true ∧
    dget (str "initial") spec = Some initial ∧ py_update [] initial = Ok state ∧
    dget (str "actions") spec = Some (JDict actions) ∧
    dget (str "goal") spec = Some (JDict goal) ∧ goal ≠ [] ∧
    let forbidden := default (JList []) (dget (str "forbidden") spec) in
    forbidden_in forbidden state = Ok false ∧
    simulates actions forbidden state plan final ∧ matches final (JDict goal) = Ok true.

(** The plan check decides plan validity: when it returns a verdict, the
    verdict is a pass exactly when the candidate is a nonempty plan within the
    step limit whose simulation from the initial state enables every action,
    enters no forbidden state (the initial one included) and ends in the goal. *)
Theorem transition_plan_decides value ctx vd :
  transition_plan value ctx = Ok (Some vd) →
  v_status vd = SPass ↔
  ∃ spec plan, extract ctx = Ok (JDict spec) ∧ plan_of value = Some plan ∧ valid_plan spec plan.
Proof.
  unfold transition_plan. intros H. apply bind_Ok in H as (sp & Hsp & H). rewrite Hsp.
  destruct (plan_of value) as [plan|] eqn:Hplan.
  2: { injection H as <-. split; [done|]. by intros (? & ? & _ & ? & _). }
  destruct (bool_decide (plan = [])) eqn:Hne; bool_prop.
  { injection H as <-. split; [done|]. intros (? & ? & _ & [= <-] & Hv).
    by destruct Hv as (? & ? & ? & ? & ? & ? & _ & ? & _). }
  apply bind_Ok in H as (spec & Hspec & H). destruct sp as [| | | | | |sp]; try discriminate Hspec.
  injection Hspec as ->. apply bind_Ok in H as (limit & Hlim & H).
  assert (Hunfold : (∃ spec0 plan0, Ok (JDict spec) = Ok (JDict spec0) ∧ Some plan = Some plan0 ∧
            valid_plan spec0 plan0) ↔ valid_plan spec plan) by naive_solver.
  rewrite Hunfold. clear Hunfold.
  destruct (num_leb _ limit) eqn:Hle; cbn [negb] in H.
  2: { injection H as <-. split; [done|]. intros (? & ? & ? & ? & ? & ? & Hl & _ & ? & _). congruence. }
  apply bind_Ok in H as (initial & Hi & H). apply bind_Ok in H as (state & Hst & H).
  apply bind_Ok in H as (actions & Hac & H). apply bind_Ok in H as (goal & Hgo & H).
  apply dgetitem_Ok in Hi, Hac, Hgo.
  destruct actions as [| | | | | |actions]; try discriminate H.
  destruct goal as [| | | | | |[|kv goal]]; try discriminate H.
  cbv zeta in H. apply bind_Ok in H as (f & Hf & H). destruct f.
  - injection H as <-. split; [done|].
    intros (? & ? & ? & ? & ? & ? & _ & _ & _ & Hi' & Hst' & _ & _ & _ & Hf' & _). congruence.
  - apply fmap_Ok in H as (w & Hw & [= ->]). rewrite (run_plan_decides _ _ _ _ _ _ _ Hw). split.
    + intros (final & Hsim & Hm). exists limit, initial, state, actions, (kv :: goal), final. by split_and!.
    + intros (? & ? & ? & ? & ? & final & ? & ? & ? & Hi' & Hst' & Ha' & Hg' & ? & ? & Hsim & Hm).
      exists final. split; congruence.
Qed.

Definition demo_obligation : Obligation :=
  mkObligation (str "plan") (str "plan it") (str "transition_plan") [str "doc"] []
    [(str "artifact", JStr (str "doc"))] None true.
Definition demo_doc : pystr :=
  str "{'initial':{'door':'open'},'actions':{'close':{'requires':{'door':'open'},'sets':{'door':'shut'}}},'goal':{'door':'shut'}}".
Definition requote (s : pystr) : pystr := (λ c, if (c =? 39)%N then 34%N else c) <$> s.
Definition demo_ctx : Context_ :=
  mkContext demo_obligation [(str "doc", mkArtifact (str "doc") (requote demo_doc) true)] [].

Lemma transition_plan_decides_witness :
  transition_plan (JList [JStr (str "close")]) demo_ctx = Ok (Some Verdict_passed) ∧
  ∃ spec plan, extract demo_ctx = Ok (JDict spec) ∧
    plan_of (JList [JStr (str "close")]) = Some plan ∧ valid_plan spec plan.
Proof.
  assert (H : transition_plan (JList [JStr (str "close")]) demo_ctx = Ok (Some Verdict_passed))
    by (vm_compute; reflexivity).
  split; [exact H|]. apply (transition_plan_decides _ _ _ H). reflexivity.
Defined.

(** ** Pointers: paths and their spelling *)
Inductive step : Type := Key (k : pystr) | Index (i : nat).

(** [reaches data path v]: following the keys and indices of [path] from
    [data] leads to [v]. *)
Inductive reaches : json → list step → json → Prop :=
| reaches_here v : reaches v [] v
| reaches_key d k w path v : dget k d = Some w → reaches w path v → reaches (JDict d) (Key k :: path) v
| reaches_index l i w path v :
    l !! i = Some w → length (str_of_nonneg (Z.of_nat i)) ≤ max_int_digits →
    reaches w path v → reaches (JList l) (Index i :: path) v.

(** The RFC 6901 spelling: [~] is written [~0] and [/] is written [~1]. *)
Definition escape_token_char (c : N) : pystr :=
  if (c =? 126)%N then [126%N; 48%N] else if (c =? 47)%N then [126%N; 49%N] else [c].
Definition escape_token (s : pystr) : pystr := mjoin (escape_token_char <$> s).
Definition step_token (s : step) : pystr :=
  match s with Key k => escape_token k | Index i => str_of_nonneg (Z.of_nat i) end.
Definition pointer_of (path : list step) : pystr := mjoin ((λ s, 47%N :: step_token s) <$> path).

Lemma escape_no_slash s : 47%N ∉ escape_token s.
Proof.
  unfold escape_token. induction s as [|c s IH]; [apply not_elem_of_nil|]. cbn.
  rewrite elem_of_app. intros [H|H]; [|done]. revert H. unfold escape_token_char.
  destruct (c =? 126)%N; [|destruct (c =? 47)%N eqn:E]; rewrite ?elem_of_cons, elem_of_nil; intros H.
  - naive_solver.
  - naive_solver.
  - apply N.eqb_neq in E. naive_solver.
Qed.

Lemma replace_tilde_plain d r c s :
  c ≠ 126%N → replace_tilde d r (c :: s) = c :: replace_tilde d r s.
Proof. intros H. destruct c as [|p]; [done|]. cbn. repeat (destruct p as [p|p|]; try done). Qed.

Lemma replace_tilde_hit d r s : replace_tilde d r (126%N :: d :: s) = r :: replace_tilde d r s.
Proof. cbn. by rewrite N.eqb_refl. Qed.

Lemma replace_tilde_miss d r c s :
  c ≠ d → replace_tilde d r (126%N :: c :: s) = 126%N :: replace_tilde d r (c :: s).
Proof. intros H. cbn [replace_tilde]. by rewrite (proj2 (N.eqb_neq c d)). Qed.

Lemma unescape_escape s : unescape (escape_token s) = s.
Proof.
  unfold unescape, escape_token. induction s as [|c s IH]; [done|].
  change (mjoin (escape_token_char <$> (c :: s))) with (escape_token_char c ++ mjoin (escape_token_char <$> s)).
  unfold escape_token_char at 1.
  destruct (c =? 126)%N eqn:E; [|destruct (c =? 47)%N eqn:E']; cbn [app].
  - apply N.eqb_eq in E as ->.
    by rewrite replace_tilde_miss, (replace_tilde_plain 49 47 48), replace_tilde_hit, IH by done.
  - apply N.eqb_eq in E' as ->. by rewrite replace_tilde_hit, replace_tilde_plain, IH by done.
  - apply N.eqb_neq in E, E'. rewrite !replace_tilde_plain by done. by rewrite IH.
Qed.

Lemma split_on_app c s t : c ∉ s → split_on c (s ++ c :: t) = s :: split_on c t.
Proof.
  induction s as [|a s IH]; cbn.
  - intros _. rewrite N.eqb_refl. by destruct (split_on c t) eqn:E; [destruct t; cbn in E; [|repeat case_match]|].
  - intros H. apply not_elem_of_cons in H as [Ha Hs]. rewrite IH by done.
    by rewrite (proj2 (N.eqb_neq a c)).
Qed.

Lemma split_on_last c s : c ∉ s → split_on c s = [s].
Proof.
  induction s as [|a s IH]; cbn; [done|]. intros H. apply not_elem_of_cons in H as [Ha Hs].
  rewrite IH by done. by rewrite (proj2 (N.eqb_neq a c)).
Qed.

Lemma decimal_digit_ascii c : is_digit c = true → decimal_digit c = Some (Z.of_N (c - 48)).
Proof.
  unfold is_digit, in_range. intros H. apply andb_true_iff in H as [H1 H2].
  apply N.leb_le in H1, H2.
  assert (c ∈ [48; 49; 50; 51; 52; 53; 54; 55; 56; 57]%N) as Hc.
  { assert (c = 48 ∨ c = 49 ∨ c = 50 ∨ c = 51 ∨ c = 52 ∨ c = 53 ∨ c = 54 ∨ c = 55 ∨ c = 56 ∨ c = 57)%N by lia.
    set_solver. }
  assert (Forall (λ c, decimal_digit c = Some (Z.of_N (c - 48))) [48; 49; 50; 51; 52; 53; 54; 55; 56; 57]%N) as Hall
    by (repeat constructor).
  rewrite Forall_forall in Hall. by apply Hall.
Qed.

Lemma digit_plain c : is_digit c = true → is_space c = false ∧ c ≠ 95%N ∧ c ≠ 43%N ∧ c ≠ 45%N ∧ c ≠ 47%N ∧ c ≠ 126%N.
Proof.
  intros H. unfold is_digit, in_range in H. apply andb_true_iff in H as [H1 H2]. apply N.leb_le in H1, H2.
  split_and!; try lia. unfold is_space, in_range. rewrite bool_decide_eq_false_2.
  - rewrite !orb_false_r. apply orb_false_iff. split; [apply orb_false_iff; split|];
      apply andb_false_iff; rewrite !N.leb_gt; lia.
  - rewrite !elem_of_cons, elem_of_nil. lia.
Qed.

Lemma int_digits_value ds acc :
  Forall (λ c, is_digit c = true) ds →
  int_digits ds false acc = Some (foldl (λ n c, n * 10 + Z.of_N (c - 48))%Z acc ds).
Proof.
  intros H. revert acc. induction H as [|c ds Hc Hds IH]; intros acc; cbn; [done|].
  destruct (digit_plain c Hc) as (_ & Hn & _). rewrite (proj2 (N.eqb_neq c 95)) by done.
  rewrite decimal_digit_ascii by done. rewrite IH. f_equal. f_equal. lia.
Qed.

Lemma strip_digits ds : Forall (λ c, is_digit c = true) ds → strip ds = ds.
Proof.
  intros H. assert (∀ l, Forall (λ c, is_digit c = true) l → lstrip l = l) as Hl.
  { intros l Hl. destruct Hl as [|c l Hc _]; [done|]. cbn. by rewrite (proj1 (digit_plain c Hc)). }
  unfold strip. rewrite (Hl ds) by done. rewrite Hl by (by apply Forall_reverse). apply reverse_involutive.
Qed.

Lemma py_int_nat i :
  length (str_of_nonneg (Z.of_nat i)) ≤ max_int_digits → py_int (str_of_nonneg (Z.of_nat i)) = Ok (Z.of_nat i).
Proof.
  destruct (str_of_nonneg_spec (Z.of_nat i)) as (d & ds & E & Hds & Hv & _); [lia|]. rewrite E. intros Hlen.
  unfold py_int. rewrite strip_digits by done.
  pose proof (Forall_inv Hds) as Hd. destruct (digit_plain d Hd) as (_ & H95 & H43 & H45 & _).
  assert (filter (λ c : N, c ≠ 95%N) (d :: ds) = d :: ds) as Hf.
  { clear -Hds. induction Hds as [|c l Hc _ IH]; [done|]. rewrite filter_cons_True, IH by (by apply digit_plain). done. }
  assert (int_digits (d :: ds) true 0 = Some (Z.of_nat i)) as Hi.
  { cbn [int_digits]. rewrite (proj2 (N.eqb_neq d 95)), decimal_digit_ascii by done.
    rewrite int_digits_value by (by apply Forall_inv_tail in Hds). f_equal. rewrite <- Hv. done. }
  assert (∀ t, (if (max_int_digits <? length (filter (λ c : N, c ≠ 95%N) (d :: ds)))%nat then t
               else match int_digits (d :: ds) true 0 with Some n => Ok (1 * n)%Z | None => t end) = Ok (Z.of_nat i)) as Hb.
  { intros t. rewrite Hf, Hi, (proj2 (Nat.ltb_ge _ _)) by done. f_equal. lia. }
  cbv zeta. destruct d as [|p]; [apply Hb|].
  repeat (destruct p as [p|p|]; try apply Hb; try done).
Qed.

Lemma token_no_slash s : 47%N ∉ step_token s.
Proof.
  destruct s as [k|i]; cbn [step_token]; [apply escape_no_slash|].
  destruct (str_of_nonneg_spec (Z.of_nat i)) as (d & ds & -> & Hds & _); [lia|].
  intros Hin. rewrite Forall_forall in Hds. by destruct (digit_plain 47 (Hds _ Hin)) as (_ & _ & _ & _ & ? & _).
Qed.

Lemma unescape_digits ds : Forall (λ c, is_digit c = true) ds → unescape ds = ds.
Proof.
  unfold unescape. induction 1 as [|c ds Hc Hds IH]; [done|].
  destruct (digit_plain c Hc) as (_ & _ & _ & _ & _ & Hn). by rewrite !replace_tilde_plain, IH by done.
Qed.

Lemma split_pointer s path :
  split_on 47 (step_token s ++ pointer_of path) = step_token s :: (step_token <$> path).
Proof.
  revert s. induction path as [|q path IH]; intros s.
  - cbn. rewrite app_nil_r. apply split_on_last, token_no_slash.
  - change (pointer_of (q :: path)) with (47%N :: (step_token q ++ pointer_of path)).
    rewrite split_on_app by apply token_no_slash. by rewrite IH.
Qed.

Lemma pointer_walk_reaches data path v :
  reaches data path v → pointer_walk data (step_token <$> path) = Ok v.
Proof.
  induction 1 as [v|d k w path v Hk _ IH|l i w path v Hi Hlen _ IH]; [done| |]; cbn [fmap list_fmap pointer_walk].
  - unfold pointer_step. cbn [step_token]. rewrite unescape_escape. unfold dgetitem. by rewrite Hk.
  - unfold pointer_step. cbn [step_token]. assert (Forall (λ c, is_digit c = true) (str_of_nonneg (Z.of_nat i))) as Hd
      by (destruct (str_of_nonneg_spec (Z.of_nat i)) as (d & ds & -> & Hds & _); [lia|done]).
    rewrite unescape_digits, py_int_nat by done.
    cbn [mbind res_bind]. unfold list_item. rewrite (proj2 (Z.ltb_ge (Z.of_nat i) 0)) by lia. cbv zeta iota.
    rewrite (proj2 (Z.ltb_ge (Z.of_nat i) 0)) by lia. by rewrite Nat2Z.id, Hi.
Qed.

(** JSON pointers address every value: following any path of object keys
    and list indices that leads from [data] to [v], the RFC 6901 spelling of
    the path makes [json_pointer] return [v], whatever characters the keys
    contain ([~] and [/] included). *)
Theorem json_pointer_complete data path v :
  reaches data path v → json_pointer data (JStr (pointer_of path)) = Ok v.
Proof.
  intros H. apply pointer_walk_reaches in H as Hw. destruct path as [|s path]; [by inversion H; subst|].
  change (pointer_of (s :: path)) with (47%N :: (step_token s ++ pointer_of path)).
  cbn [json_pointer]. by rewrite split_pointer.
Qed.

Lemma json_pointer_complete_witness :
  json_pointer (JDict [(str "a/b~c", JList [JNull; JBool true])])
    (JStr (pointer_of [Key (str "a/b~c"); Index 1])) = Ok (JBool true).
Proof.
  apply json_pointer_complete.
  apply reaches_key with (w := JList [JNull; JBool true]); [reflexivity|].
  apply reaches_index with (w := JBool true); [reflexivity|vm_compute; lia|constructor].
Defined.
