(* ===== verification/GoalSpec.v ===== *)
(** * Goal specifications (residual/goalspec.py)

    Success criteria, amendment rules, the frozen versioned goal specification,
    its content hash and its amendments. *)

From Stdlib Require Import ZArith NArith Lia.
From S2P Require Import Prelude PyData Sha256 PyFloat Json JsonFacts Core CoreFacts Storage Builtins.

(** [CheckType(value)] *)
Definition check_type_of (s : pystr) : option CheckType :=
  if decide (s = str "mechanical") then Some MECHANICAL
  else if decide (s = str "structural") then Some STRUCTURAL
  else if decide (s = str "judge") then Some JUDGE
  else None.

(** [freeze] of observation_layer/core.py on a JSON value: refuses floats that
    are not finite; the frozen copy equals the value. *)
Fixpoint freezable (v : json) : bool :=
  match v with
  | JFloat f => is_finite f
  | JList l => forallb freezable l
  | JDict d => forallb (λ kv, freezable kv.2) d
  | _ => true
  end.
Definition freeze (v : json) : res json :=
  when negb (freezable v) raise ValueError "Observation must contain finite JSON values";;
  Ok v.

Record SuccessCriterion : Type := mkCriterion {
  c_name : pystr;
  c_check_type : CheckType;
  c_description : pystr;
  c_evaluator : pystr;
  c_parameters : dict json
}.
#[export] Instance SuccessCriterion_eq_dec : EqDecision SuccessCriterion.
Proof. solve_decision. Defined.

Definition SuccessCriterion_new (name check_type description evaluator : pystr) (parameters : json)
    : res SuccessCriterion :=
  _ ← identifier name;
  ct ← of_option (ContractError "unknown criterion check type") (check_type_of check_type);
  when blank description raise ContractError "criterion requires a description";;
  when blank evaluator raise ContractError "criterion requires an evaluator reference";;
  let bad := Raise (ContractError "criterion parameters must be finite JSON object values") in
  match parameters with
  | JDict d => match freeze parameters with
               | Ok (JDict d) => Ok (mkCriterion name ct description evaluator d)
               | _ => bad
               end
  | _ => bad
  end.

Record AmendmentRule : Type := mkRule { authorized_roles : list pystr; max_amendments : Z }.
#[export] Instance AmendmentRule_eq_dec : EqDecision AmendmentRule.
Proof. solve_decision. Defined.

Definition AmendmentRule_new (roles : list pystr) (max : json) : res AmendmentRule :=
  when bool_decide (roles = []) raise ContractError "amendment rule requires at least one authorized role";;
  _ ← identifiers roles;
  m ← positive_int max false;
  Ok (mkRule roles m).

Record GoalSpec : Type := mkGoalSpec {
  goal_id : pystr;
  objective : pystr;
  success_criteria : list SuccessCriterion;
  max_passes : Z;
  token_budget : Z;
  wall_clock_budget_s : num;
  amendment_rule : AmendmentRule;
  schema_version : pystr;
  amendment_count : Z;
  parent_hash : option pystr;
  amendment_reason : option pystr;
  amended_by : option pystr
}.

(** [math.isfinite(n)] converts an integer to a float first. *)
Definition py_isfinite (n : num) : res bool :=
  match n with
  | NInt z => if is_finite (float_of_Z z) then Ok true
              else Raise (OtherError "OverflowError: int too large to convert to float")
  | NFloat f => Ok (is_finite f)
  end.

(** [re.fullmatch(r"[0-9]+\.[0-9]+\.[0-9]+", value)] *)
Definition digits1 (s : pystr) : bool := negb (bool_decide (s = [])) && forallb is_digit s.
Definition version_ok (s : pystr) : bool :=
  match split_on 46 s with
  | [a; b; c] => digits1 a && digits1 b && digits1 c
  | _ => false
  end.

Definition order_index (c : CheckType) : nat :=
  match c with MECHANICAL => 0 | STRUCTURAL => 1 | JUDGE => 2 end.

Definition opt_blank (o : option pystr) : bool := match o with Some s => blank s | None => true end.

(** [__post_init__] *)
Definition GoalSpec_new (s : GoalSpec) : res GoalSpec :=
  _ ← identifier (goal_id s);
  when blank (objective s) raise ContractError "goal spec requires a non-empty objective";;
  when bool_decide (success_criteria s = []) raise ContractError "goal spec requires at least one success criterion";;
  _ ← positive_int (JInt (max_passes s)) false;
  _ ← positive_int (JInt (token_budget s)) false;
  fin ← py_isfinite (wall_clock_budget_s s);
  when negb fin || num_leb (wall_clock_budget_s s) (NInt 0)
  raise ContractError "wall_clock_budget_s must be positive";;
  when negb (version_ok (schema_version s)) raise ContractError "schema_version must use major.minor.patch";;
  _ ← positive_int (JInt (amendment_count s)) true;
  when (max_amendments (amendment_rule s) <? amendment_count s)%Z raise ContractError "maximum amendments exceeded";;
  _ ← (if negb (amendment_count s =? 0)%Z then
         when negb (match parent_hash s with Some h => is_digest h | None => false end)
         raise ContractError "amended spec requires its parent hash";;
         when opt_blank (amendment_reason s)
              || negb (match amended_by s with
                       | Some r => bool_decide (r ∈ authorized_roles (amendment_rule s)) | None => false end)
         raise ContractError "amended spec requires an authorized role and reason";;
         Ok tt
       else
         when negb (bool_decide (parent_hash s = None) && bool_decide (amendment_reason s = None)
                    && bool_decide (amended_by s = None))
         raise ContractError "initial spec cannot carry amendment metadata";;
         Ok tt);
  let indices := (λ c, order_index (c_check_type c)) <$> success_criteria s in
  when negb (bool_decide (indices = sort_by Nat.leb indices))
  raise ContractError "success_criteria must be ordered: mechanical before structural before judge";;
  when negb (bool_decide (NoDup (c_name <$> success_criteria s))) raise ContractError "duplicate criterion name";;
  Ok s.

Definition json_of_num (n : num) : json := match n with NInt z => JInt z | NFloat f => JFloat f end.

Definition criterion_dict (c : SuccessCriterion) : json :=
  jobj [("name", JStr (c_name c)); ("check_type", JStr (check_type_str (c_check_type c)));
        ("description", JStr (c_description c)); ("evaluator", JStr (c_evaluator c));
        ("parameters", JDict (c_parameters c))].

Definition goal_to_dict (s : GoalSpec) : json :=
  jobj [("goal_id", JStr (goal_id s)); ("objective", JStr (objective s));
        ("success_criteria", JList (criterion_dict <$> success_criteria s));
        ("max_passes", JInt (max_passes s)); ("token_budget", JInt (token_budget s));
        ("wall_clock_budget_s", json_of_num (wall_clock_budget_s s));
        ("schema_version", JStr (schema_version s));
        ("amendment_rule", jobj [("authorized_roles", json_strs (authorized_roles (amendment_rule s)));
                                 ("max_amendments", JInt (max_amendments (amendment_rule s)))]);
        ("amendment_count", JInt (amendment_count s)); ("parent_hash", json_opt_str (parent_hash s));
        ("amendment_reason", json_opt_str (amendment_reason s)); ("amended_by", json_opt_str (amended_by s))].

Definition content_hash (s : GoalSpec) : res pystr := digest (goal_to_dict s).

(** The keyword arguments of [amend]; [None] keeps the old value. *)
Record Amendment : Type := mkAmendment {
  am_objective : option pystr;
  am_success_criteria : option (list SuccessCriterion);
  am_max_passes : option Z;
  am_token_budget : option Z;
  am_wall_clock_budget_s : option num;
  am_reason : pystr;
  am_by : pystr
}.

(** [f"{major}.{minor + 1}.{patch}"] *)
Definition bump_minor (version : pystr) : res pystr :=
  parts ← mapM py_int (split_on 46 version);
  match parts with
  | [major; minor; patch] =>
      a ← int_text major; b ← int_text (minor + 1); c ← int_text patch;
      Ok (a ++ [46%N] ++ b ++ [46%N] ++ c)
  | _ => Raise (ValueError "values to unpack")
  end.

Definition amend (s : GoalSpec) (a : Amendment) : res GoalSpec :=
  when blank (am_reason a) raise ContractError "amendment requires a reason";;
  _ ← identifier (am_by a);
  when negb (bool_decide (am_by a ∈ authorized_roles (amendment_rule s)))
  raise ContractError "role is not authorized to amend this spec";;
  when (max_amendments (amendment_rule s) <=? amendment_count s)%Z raise ContractError "maximum amendments exceeded";;
  version ← bump_minor (schema_version s);
  parent ← content_hash s;
  GoalSpec_new (mkGoalSpec (goal_id s)
    (default (objective s) (am_objective a))
    (default (success_criteria s) (am_success_criteria a))
    (default (max_passes s) (am_max_passes a))
    (default (token_budget s) (am_token_budget a))
    (default (wall_clock_budget_s s) (am_wall_clock_budget_s a))
    (amendment_rule s) version (amendment_count s + 1)
    (Some parent) (Some (am_reason a)) (Some (am_by a))).

(** ** Amendments *)
Definition amended (s s' : GoalSpec) : Prop := ∃ a, amend s a = Ok s'.

(** What one amendment changes and what it must leave alone. *)
Record amends (s s' : GoalSpec) : Prop := {
  am_valid : GoalSpec_new s' = Ok s';
  am_goal : goal_id s' = goal_id s;
  am_rule : amendment_rule s' = amendment_rule s;
  am_count : amendment_count s' = (amendment_count s + 1)%Z;
  am_bound : (amendment_count s' <= max_amendments (amendment_rule s))%Z;
  am_parent : ∃ h, content_hash s = Ok h ∧ parent_hash s' = Some h;
  am_version : bump_minor (schema_version s) = Ok (schema_version s');
  am_authority : ∃ r why, amended_by s' = Some r ∧ r ∈ authorized_roles (amendment_rule s) ∧
                          amendment_reason s' = Some why ∧ blank why = false
}.

Lemma GoalSpec_new_id s s' : GoalSpec_new s = Ok s' → s' = s.
Proof.
  unfold GoalSpec_new. intros H. apply bind_Ok in H as (? & _ & H). do 2 pass_guard H.
  do 2 apply bind_Ok in H as (? & _ & H). apply bind_Ok in H as (? & _ & H). do 2 pass_guard H.
  apply bind_Ok in H as (? & _ & H). pass_guard H. apply bind_Ok in H as (? & _ & H). cbv zeta in H.
  do 2 pass_guard H. by injection H as <-.
Qed.

Lemma GoalSpec_max_passes s : GoalSpec_new s = Ok s → (1 <= max_passes s)%Z.
Proof.
  unfold GoalSpec_new. intros H. apply bind_Ok in H as (? & _ & H). do 2 pass_guard H.
  apply bind_Ok in H as (m & Hm & _). unfold positive_int in Hm. pass_guard Hm. bool_prop. lia.
Qed.

Lemma amend_amends s a s' : amend s a = Ok s' → amends s s'.
Proof.
  unfold amend. intros H. pass_guard H as Hwhy. apply bind_Ok in H as (? & _ & H).
  pass_guard H as Hrole. pass_guard H as Hmax. apply bind_Ok in H as (v & Hv & H).
  apply bind_Ok in H as (h & Hh & H). bool_prop. pose proof (GoalSpec_new_id _ _ H) as E. subst s'.
  split; cbn; eauto 10. lia.
Qed.

(** An amendment preserves the goal's identity and its amendment rule,
    increments the count and the minor version, records the hash of the
    specification it replaces, an authorized role and a non-blank reason, and
    yields a specification that satisfies every construction check; and a
    chain of [n] amendments never exceeds the rule's maximum. *)
Theorem amendments_bounded n s s' :
  (amendment_count s <= max_amendments (amendment_rule s))%Z → nsteps amended n s s' →
  goal_id s' = goal_id s ∧ amendment_rule s' = amendment_rule s ∧
  amendment_count s' = (amendment_count s + Z.of_nat n)%Z ∧
  (amendment_count s' <= max_amendments (amendment_rule s))%Z ∧
  (∀ t t', amended t t' → amends t t').
Proof.
  intros Hs Hn. induction Hn as [s|n s t s' [a Ha] Hts IH].
  - split_and!; try done; [lia|]. intros t t' [a Ha]. by eapply amend_amends.
  - apply amend_amends in Ha as [? Hg Hr Hc Hb ? ? ?].
    destruct IH as (IH1 & IH2 & IH3 & IH4 & IH5); [rewrite Hr; lia|].
    rewrite Hg, Hr in *. split_and!; try done. lia.
Qed.

(** The recorded parent hash identifies the amended specification: two
    specifications that an amendment turns into the same successor have the
    same serialized contract up to the order of object keys, or those two
    contracts have different texts with one SHA-256 digest. *)
Theorem amendment_parent_unique s t s' :
  amended s s' → amended t s' →
  wf_json (goal_to_dict s) = true → wf_json (goal_to_dict t) = true →
  floats_rt (goal_to_dict s) = true → floats_rt (goal_to_dict t) = true →
  sort_json (goal_to_dict s) = sort_json (goal_to_dict t) ∨ json_collide (goal_to_dict s) (goal_to_dict t).
Proof.
  intros [a Ha] [b Hb] ? ? ? ?. destruct (amend_amends _ _ _ Ha) as [? ? ? ? ? (h & Hh & E) _ _].
  destruct (amend_amends _ _ _ Hb) as [? ? ? ? ? (h' & Hh' & E') _ _].
  assert (h' = h) as -> by congruence. by apply (digest_injective _ _ h).
Qed.

Definition demo_criteria : list SuccessCriterion :=
  [mkCriterion (str "tests") MECHANICAL (str "the tests pass") (str "run_tests") [(str "level", JInt 1)];
   mkCriterion (str "review") JUDGE (str "a reviewer agrees") (str "review") []].
Definition demo_spec : GoalSpec :=
  mkGoalSpec (str "goal") (str "ship it") demo_criteria 3 1000 (NInt 60) (mkRule [str "owner"] 2)
    (str "1.0.0") 0 None None None.
Definition demo_amendment : Amendment :=
  mkAmendment (Some (str "ship it well")) None None None None (str "clarified") (str "owner").
Definition demo_amended : GoalSpec := Eval vm_compute in
  match amend demo_spec demo_amendment with Ok s => s | Raise _ => demo_spec end.

Lemma demo_spec_valid : GoalSpec_new demo_spec = Ok demo_spec.
Proof. vm_compute. reflexivity. Qed.
Lemma demo_amends : amended demo_spec demo_amended.
Proof. exists demo_amendment. vm_compute. reflexivity. Qed.

Lemma amendments_bounded_witness :
  amendment_count demo_amended = 1%Z ∧ (amendment_count demo_amended <= 2)%Z.
Proof.
  destruct (amendments_bounded 1 demo_spec demo_amended) as (_ & _ & H1 & H2 & _).
  - vm_compute. discriminate.
  - eapply nsteps_once. exact demo_amends.
  - split; [exact H1|exact H2].
Defined.

Lemma amendment_parent_unique_witness :
  amended demo_spec demo_amended ∧
  (sort_json (goal_to_dict demo_spec) = sort_json (goal_to_dict demo_spec) ∨ json_collide (goal_to_dict demo_spec) (goal_to_dict demo_spec)).
Proof.
  split; [exact demo_amends|].
  apply (amendment_parent_unique demo_spec demo_spec demo_amended); try exact demo_amends; vm_compute; reflexivity.
Defined.
