(* ===== verification/Verifier.v ===== *)
(** * Ordered, fail-closed verification (residual/verifier.py)

    The verifier runs in the state of its caller: the monotonic clock and the
    optional [emit] callback are computations in that state. *)

From Stdlib Require Import ZArith NArith Lia.
From S2P Require Import Prelude PyData PyFloat Json Core CoreFacts Receipts GoalSpec.

(** A host evaluator: the pair it returns, with [None] for a component of the
    wrong type, or the exception it raises (a result that does not unpack
    raises too). *)
Definition Evaluator : Type := json → dict json → res (option CheckResult * option pystr).

Record CriterionResult : Type := mkCriterionResult {
  cr_name : pystr;
  cr_check_type : CheckType;
  cr_result : CheckResult;
  cr_reason : pystr;
  cr_duration_ms : float
}.

Record VerificationReport : Type := mkReport {
  vr_goal_id : pystr;
  overall_pass : bool;
  vr_results : list CriterionResult;
  primary_failure : option pystr;
  vr_duration_ms : float
}.

Definition evaluate_one (evaluators : dict Evaluator) (criterion : SuccessCriterion) (candidate : json)
    (prior_failed : bool) : CheckResult * pystr :=
  if bool_decide (c_check_type criterion = JUDGE) && prior_failed then (CR_SKIPPED, str "prior_check_failed")
  else match dget (c_evaluator criterion) evaluators with
       | None =>
           if bool_decide (c_check_type criterion = JUDGE) then (CR_FAIL, str "judge_unavailable")
           else (CR_FAIL, str "evaluator_not_registered:" ++ c_evaluator criterion)
       | Some evaluator =>
           match evaluator candidate (c_parameters criterion) with
           | Raise _ => (CR_FAIL, str "check_error")
           | Ok (Some CR_SKIPPED, _) | Ok (None, _) | Ok (_, None) => (CR_FAIL, str "invalid_check_result")
           | Ok (Some result, Some reason) => (result, take 1000 reason)
           end
       end.

(** [round((now - t) * 1000, 3)] *)
Definition elapsed_ms (t now : float) : float := fround (fmul (fsub now t) (float_of_Z 1000)) 3.

Section verify.
Context {S : Type} (monotonic : SM S float) (emit : option (pystr → json → SM S unit)).
Context (evaluators : dict Evaluator).

Definition check_event (spec : GoalSpec) (r : CriterionResult) : json :=
  jobj [("goal_id", JStr (goal_id spec)); ("check_name", JStr (cr_name r));
        ("check_type", JStr (check_type_str (cr_check_type r)));
        ("result", JStr (check_result_str (cr_result r))); ("reason", JStr (cr_reason r));
        ("duration_ms", JFloat (cr_duration_ms r))].

Fixpoint verify_loop (spec : GoalSpec) (candidate : json) (criteria : list SuccessCriterion)
    (results : list CriterionResult) (prior_failed : bool) (primary : option pystr)
    : SM S (list CriterionResult * option pystr) :=
  match criteria with
  | [] => mret (results, primary)
  | c :: criteria =>
      ct0 ← monotonic;
      let '(result, reason) := evaluate_one evaluators c candidate prior_failed in
      now ← monotonic;
      let r := mkCriterionResult (c_name c) (c_check_type c) result reason (elapsed_ms ct0 now) in
      _ ← match emit with Some f => f (str "check_evaluated") (check_event spec r) | None => mret tt end;
      let failed := negb (bool_decide (result = CR_PASS)) in
      verify_loop spec candidate criteria (results ++ [r]) (prior_failed || failed)
        (match primary with None => if failed then Some (c_name c) else None | Some _ => primary end)
  end.

Definition verify (candidate : json) (spec : GoalSpec) : SM S VerificationReport :=
  t0 ← monotonic;
  '(results, primary) ← verify_loop spec candidate (success_criteria spec) [] false None;
  let overall := forallb (λ r, bool_decide (cr_result r = CR_PASS)) results in
  now ← monotonic;
  mret (mkReport (goal_id spec) overall results primary (elapsed_ms t0 now)).

(** ** What a report says *)
(** The check of one criterion passes: its evaluator is registered and
    returned exactly a pass with a reason. *)
Definition criterion_passes (candidate : json) (c : SuccessCriterion) : Prop :=
  ∃ f reason, dget (c_evaluator c) evaluators = Some f ∧
              f candidate (c_parameters c) = Ok (Some CR_PASS, Some reason).

Lemma evaluate_one_pass c candidate prior :
  (evaluate_one evaluators c candidate prior).1 = CR_PASS ↔
  criterion_passes candidate c ∧ (c_check_type c = JUDGE → prior = false).
Proof.
  assert (criterion_passes candidate c ↔ match dget (c_evaluator c) evaluators with
            | Some f => ∃ reason, f candidate (c_parameters c) = Ok (Some CR_PASS, Some reason)
            | None => False end) as ->.
  { unfold criterion_passes. destruct (dget _ evaluators) as [f|]; naive_solver. }
  unfold evaluate_one. case_bool_decide as Hj; destruct prior; cbn.
  1: { split; [done|]. intros [_ H]. by specialize (H Hj). }
  all: destruct (dget _ evaluators) as [f|]; cbn; [|split; [done|by intros [[] _]]].
  all: destruct (f candidate _) as [[[[]|] [reason|]]|e]; cbn; split;
    try done; try (intros [[? [=]] _]); intros _; split; try done; by eexists.
Qed.

(** The loop, as the list of results it would compute without the clock. *)
Fixpoint outcomes (candidate : json) (criteria : list SuccessCriterion) (prior : bool)
    : list (SuccessCriterion * (CheckResult * pystr)) :=
  match criteria with
  | [] => []
  | c :: criteria =>
      let o := evaluate_one evaluators c candidate prior in
      (c, o) :: outcomes candidate criteria (prior || negb (bool_decide (o.1 = CR_PASS)))
  end.

Definition first_failure (l : list (SuccessCriterion * (CheckResult * pystr))) : option pystr :=
  (λ co, c_name co.1) <$> head (filter (λ co, co.2.1 ≠ CR_PASS) l).

Definition result_of (r : CriterionResult) : pystr * CheckType * CheckResult * pystr :=
  (cr_name r, cr_check_type r, cr_result r, cr_reason r).
Definition outcome_of (co : SuccessCriterion * (CheckResult * pystr)) : pystr * CheckType * CheckResult * pystr :=
  (c_name co.1, c_check_type co.1, co.2.1, co.2.2).

(** A computation that returned: its steps returned. *)
Lemma verify_loop_Ok spec candidate criteria results prior primary s rs pf s' :
  verify_loop spec candidate criteria results prior primary s = (Ok (rs, pf), s') →
  ∃ new, rs = results ++ new ∧ result_of <$> new = outcome_of <$> outcomes candidate criteria prior.
Proof.
  revert results prior primary s. induction criteria as [|c criteria IH]; intros results prior primary s H.
  { injection H as <- _ _. exists []. by rewrite app_nil_r. }
  cbn [verify_loop] in H. apply sm_bind_Ok in H as (t0 & s1 & _ & H). cbn [outcomes].
  destruct (evaluate_one evaluators c candidate prior) as [result reason].
  apply sm_bind_Ok in H as (t1 & s2 & _ & H). apply sm_bind_Ok in H as ([] & s3 & _ & H).
  apply IH in H as (new & -> & Hnew). eexists (_ :: new). split; [by rewrite <- app_assoc|].
  cbn [fmap list_fmap fst]. by rewrite Hnew.
Qed.

Context (mono_total : ∀ s, ∃ t s', monotonic s = (Ok t, s')).
Context (emit_total : ∀ f k v s, emit = Some f → ∃ s', f k v s = (Ok tt, s')).

Lemma verify_loop_total spec candidate criteria results prior primary s :
  ∃ rs s', verify_loop spec candidate criteria results prior primary s
           = (Ok (results ++ rs, match primary with
                                 | None => first_failure (outcomes candidate criteria prior)
                                 | Some _ => primary end), s') ∧
           result_of <$> rs = outcome_of <$> outcomes candidate criteria prior.
Proof using mono_total emit_total.
  revert results prior primary s. induction criteria as [|c criteria IH]; intros results prior primary s.
  { exists [], s. cbn. rewrite app_nil_r. by destruct primary. }
  cbn [verify_loop outcomes]. destruct (mono_total s) as (t0 & s1 & H1).
  unfold mbind at 1, SM_bind at 1. rewrite H1.
  destruct (evaluate_one evaluators c candidate prior) as [result reason] eqn:Ho.
  destruct (mono_total s1) as (t1 & s2 & H2). unfold mbind at 1, SM_bind at 1. rewrite H2.
  set (r := mkCriterionResult _ _ _ _ _). unfold mbind at 1, SM_bind at 1.
  assert (∃ s3, (match emit with Some f => f (str "check_evaluated") (check_event spec r)
                 | None => mret tt end) s2 = (Ok tt, s3)) as (s3 & H3).
  { destruct emit as [f|] eqn:E; [by apply emit_total|by eexists]. }
  rewrite H3. destruct (IH (results ++ [r]) (prior || negb (bool_decide (result = CR_PASS)))
    (match primary with None => if negb (bool_decide (result = CR_PASS)) then Some (c_name c) else None
     | Some _ => primary end) s3) as (rs & s' & Hrs & Hres).
  exists (r :: rs), s'. rewrite Hrs. cbn [fst]. split; [|cbn [fmap list_fmap]; by rewrite Hres].
  rewrite <- app_assoc. cbn [app]. f_equal. f_equal. f_equal.
  destruct primary; [done|]. unfold first_failure. rewrite filter_cons. cbn [fst snd].
  case_bool_decide; [rewrite decide_False by tauto|rewrite decide_True by done]; done.
Qed.

Lemma outcomes_pass candidate criteria :
  Forall (λ co, co.2.1 = CR_PASS) (outcomes candidate criteria false) ↔
  Forall (criterion_passes candidate) criteria.
Proof.
  induction criteria as [|c criteria IH]; cbn [outcomes]; [done|]. rewrite !Forall_cons. cbn [fst snd].
  pose proof (evaluate_one_pass c candidate false) as Hp.
  destruct (decide ((evaluate_one evaluators c candidate false).1 = CR_PASS)) as [E|E].
  - rewrite (bool_decide_eq_true_2 _ E). cbn [negb orb]. rewrite IH. naive_solver.
  - naive_solver.
Qed.

Lemma outcomes_length candidate criteria prior : (outcomes candidate criteria prior).*1 = criteria.
Proof.
  revert prior. induction criteria as [|c criteria IH]; intros prior; cbn; [done|]. by rewrite IH.
Qed.

Lemma outcomes_skip candidate criteria prior i c o :
  outcomes candidate criteria prior !! i = Some (c, o) → c_check_type c = JUDGE →
  prior = true ∨ (∃ j co, j < i ∧ outcomes candidate criteria prior !! j = Some co ∧ co.2.1 ≠ CR_PASS) →
  o.1 = CR_SKIPPED.
Proof.
  revert prior i. induction criteria as [|c' criteria IH]; intros prior i Hi Hj Hp; [done|].
  cbn [outcomes] in Hi, Hp. destruct i as [|i].
  - injection Hi as <- <-. destruct Hp as [->|(j & ? & ? & _)]; [|lia].
    unfold evaluate_one. by rewrite bool_decide_eq_true_2.
  - cbn in Hi. apply (IH _ _ Hi Hj). destruct Hp as [->|([|j] & co & Hlt & Hco & Hne)]; [by left| |].
    + injection Hco as <-. left. rewrite (bool_decide_eq_false_2 _ Hne). apply orb_true_r.
    + right. exists j, co. split_and!; [lia|done|done].
Qed.

Lemma first_failure_none l : first_failure l = None ↔ Forall (λ co, co.2.1 = CR_PASS) l.
Proof.
  unfold first_failure. induction l as [|co l IH]; [done|]. rewrite filter_cons, Forall_cons.
  case_decide as H; cbn; [naive_solver|]. rewrite IH. destruct (decide (co.2.1 = CR_PASS)); naive_solver.
Qed.

Lemma outcomes_overall rs l :
  result_of <$> rs = outcome_of <$> l →
  forallb (λ r, bool_decide (cr_result r = CR_PASS)) rs = true ↔ Forall (λ co, co.2.1 = CR_PASS) l.
Proof.
  revert l. induction rs as [|r rs IH]; intros [|co l] H; try done. cbn in H |- *. injection H as _ _ H1 _ H.
  rewrite andb_true_iff, bool_decide_eq_true, Forall_cons, (IH l H), H1. done.
Qed.

Lemma verify_Ok candidate spec s rep s' :
  verify candidate spec s = (Ok rep, s') →
  overall_pass rep = true ↔ Forall (criterion_passes candidate) (success_criteria spec).
Proof.
  unfold verify. intros H. apply sm_bind_Ok in H as (t0 & s1 & _ & H).
  apply sm_bind_Ok in H as ([rs pf] & s2 & Hl & H). apply sm_bind_Ok in H as (t1 & s3 & _ & H).
  injection H as <- _. cbn [overall_pass]. apply verify_loop_Ok in Hl as (new & -> & Hnew).
  cbn [app]. rewrite (outcomes_overall _ _ Hnew). apply outcomes_pass.
Qed.

(** The whole of [verify]. *)
Lemma verify_report candidate spec s :
  ∃ rep s', verify candidate spec s = (Ok rep, s') ∧
    let os := outcomes candidate (success_criteria spec) false in
    vr_goal_id rep = goal_id spec ∧ result_of <$> vr_results rep = outcome_of <$> os ∧
    primary_failure rep = first_failure os ∧
    (overall_pass rep = true ↔ Forall (criterion_passes candidate) (success_criteria spec)).
Proof using mono_total emit_total.
  unfold verify. destruct (mono_total s) as (t0 & s1 & H1). unfold mbind at 1, SM_bind at 1. rewrite H1.
  destruct (verify_loop_total spec candidate (success_criteria spec) [] false None s1) as (rs & s2 & H2 & Hrs).
  unfold mbind at 1, SM_bind at 1. rewrite H2. cbn [app].
  destruct (mono_total s2) as (t1 & s3 & H3). unfold mbind at 1, SM_bind at 1. rewrite H3.
  eexists _, s3. split; [done|]. cbn. split_and!; [done|done|done|].
  rewrite (outcomes_overall _ _ Hrs). apply outcomes_pass.
Qed.
End verify.

(** C11: verification is total, ordered and fail-closed.  Whatever the host
    evaluators do (raise, return malformed results, be missing), [verify]
    returns a report with one result per criterion in the order of the
    specification; it passes exactly when every criterion's evaluator is
    registered and returned a pass; the primary failure is the first criterion
    that did not pass, and is absent exactly when the report passes; a judge
    after any failure is skipped. *)
Theorem verify_fail_closed {S} (monotonic : SM S float) emit evaluators candidate spec s :
  (∀ s, ∃ t s', monotonic s = (Ok t, s')) →
  (∀ f k v s, emit = Some f → ∃ s', f k v s = (Ok tt, s')) →
  ∃ rep s', verify monotonic emit evaluators candidate spec s = (Ok rep, s') ∧
    cr_name <$> vr_results rep = c_name <$> success_criteria spec ∧
    (overall_pass rep = true ↔ Forall (criterion_passes evaluators candidate) (success_criteria spec)) ∧
    (primary_failure rep = None ↔ overall_pass rep = true) ∧
    primary_failure rep = cr_name <$> head (filter (λ r, cr_result r ≠ CR_PASS) (vr_results rep)) ∧
    (∀ i j r q, vr_results rep !! i = Some r → vr_results rep !! j = Some q → j < i →
       cr_check_type r = JUDGE → cr_result q ≠ CR_PASS → cr_result r = CR_SKIPPED).
Proof.
  intros Hm He. destruct (verify_report monotonic emit evaluators Hm He candidate spec s)
    as (rep & s' & Hv & _ & Hrs & Hpf & Hov). exists rep, s'. split; [done|].
  set (os := outcomes evaluators candidate (success_criteria spec) false) in *.
  assert (∀ i r, vr_results rep !! i = Some r → ∃ co, os !! i = Some co ∧ outcome_of co = result_of r) as Hl.
  { intros i r Hi. assert ((result_of <$> vr_results rep) !! i = Some (result_of r)) as Hi'
      by (by rewrite list_lookup_fmap, Hi).
    rewrite Hrs, list_lookup_fmap in Hi'. destruct (os !! i) as [co|]; [|done]. exists co. naive_solver. }
  assert (cr_name <$> vr_results rep = c_name <$> os.*1) as Hnames.
  { transitivity ((λ x : pystr * CheckType * CheckResult * pystr, x.1.1.1) <$> (result_of <$> vr_results rep)).
    - by rewrite <- list_fmap_compose.
    - by rewrite Hrs, <- !list_fmap_compose. }
  unfold os in Hnames at 1. rewrite outcomes_length in Hnames. split_and!; try done.
  - rewrite Hpf, first_failure_none, Hov. apply outcomes_pass.
  - rewrite Hpf. unfold first_failure. clear -Hrs. revert Hrs. generalize (vr_results rep). clearbody os.
    induction os as [|co os IH]; intros [|r rs] H; try done. cbn in H. injection H as E1 _ E2 _ H.
    rewrite !filter_cons. rewrite E2. case_decide; cbn; [by rewrite E1|by apply IH].
  - intros i j r q Hi Hj Hlt Hjt Hq. destruct (Hl i r Hi) as ([c o] & Hco & Eo).
    destruct (Hl j q Hj) as ([c' o'] & Hco' & Eo'). unfold outcome_of, result_of in Eo, Eo'.
    injection Eo as _ Et Er _. injection Eo' as _ _ Er' _. cbn in *.
    rewrite <- Er. apply (outcomes_skip evaluators candidate _ _ _ _ _ Hco); [congruence|].
    right. exists j, (c', o'). split_and!; [done|done|cbn; congruence].
Qed.

Definition demo_evaluators : dict Evaluator :=
  [(str "run_tests", λ v _, Ok (Some (if decide (v = JBool true) then CR_PASS else CR_FAIL), Some []));
   (str "review", λ _ _, Raise (RuntimeError "offline"))].

Lemma verify_fail_closed_witness :
  ∃ rep s', verify (λ s : nat, (Ok (float_of_Z (Z.of_nat s)), Datatypes.S s)) None demo_evaluators (JBool true) demo_spec 0
            = (Ok rep, s') ∧ cr_name <$> vr_results rep = [str "tests"; str "review"] ∧
            (primary_failure rep = None ↔ overall_pass rep = true).
Proof.
  destruct (verify_fail_closed (λ s : nat, (Ok (float_of_Z (Z.of_nat s)), Datatypes.S s)) None demo_evaluators
              (JBool true) demo_spec 0) as (rep & s' & H & Hn & _ & Hp & _).
  - intros s. by eexists _, _.
  - intros f k v s H. discriminate H.
  - exists rep, s'. split; [exact H|]. split; [exact Hn|exact Hp].
Defined.
