(* ===== verification/Brakes.v ===== *)
(** * Brakes (residual/brakes.py)

    Four state machines over the observation events of a run.  A brake reads
    the monotonic clock through an oracle [clock : nat → Z] (the nanosecond
    value of the n-th reading); the tick counter is part of the state, so two
    readings are two oracle values. *)

From Stdlib Require Import ZArith NArith Lia SpecFloat.
From S2P Require Import Prelude PyData Sha256 PyFloat Json JsonFacts Core CoreFacts GoalSpec.

Inductive BrakeAction : Type := CONTINUE | ESCALATE | ABORT.
#[export] Instance BrakeAction_eq_dec : EqDecision BrakeAction.
Proof. solve_decision. Defined.
Definition action_str (a : BrakeAction) : pystr :=
  match a with CONTINUE => str "continue" | ESCALATE => str "escalate" | ABORT => str "abort" end.

Record BrakeTrip : Type := mkTrip {
  brake_name : pystr;
  trip_reason : pystr;
  triggering_obs_hash : pystr;
  recommended_action : BrakeAction
}.

(** An observation event is a JSON object. *)
Abbreviation event := (dict json).
Definition obs_hash (e : event) : res pystr := digest (JDict e).

(** [e.get(k)] *)
Definition eget (k : string) (e : event) : json := default JNull (dget (str k) e).
Definition is_str (v : json) (s : string) : bool := py_eq v (JStr (str s)).
Definition is_True (v : json) : bool := match v with JBool true => true | _ => false end.
(** [x or {}] *)
Definition or_empty (v : json) : json := if truthy v then v else JDict [].

Definition num_str (n : num) : pystr := match n with NInt z => str_of_Z z | NFloat f => float_repr f end.
(** [f"{x:.1f}"] of a finite float *)
Definition fixed1 (f : float) : pystr :=
  match f with
  | S754_finite s m e =>
      let d := if (0 <=? e)%Z then (Zpos m * 2 ^ e * 10)%Z else round_half_even (Zpos m * 10) (2 ^ (- e)) in
      (if s then [45%N] else []) ++ str_of_Z (d / 10) ++ [46%N] ++ str_of_Z (d mod 10)
  | S754_zero s => (if s then [45%N] else []) ++ str "0.0"
  | _ => float_repr f
  end.

(** ** The interface the loop controller uses

    [update] may change the brake and still raise. *)
Class BrakeOps (B : Type) := {
  b_update : (nat → Z) → event → SM (nat * B) (option BrakeTrip);
  b_reset : B → B
}.

Definition trip (name : string) (reason : pystr) (e : event) (a : BrakeAction) : res (option BrakeTrip) :=
  h ← obs_hash e; Ok (Some (mkTrip (str name) reason h a)).

(** ** Maximum number of passes *)
Module MaxIteration.
Record t := mk { spec_max_passes : Z; pass_count : Z }.
Definition init (spec : GoalSpec) : t := mk (max_passes spec) 0.
Definition reset (b : t) : t := mk (spec_max_passes b) 0.

Definition pass_complete (e : event) : bool :=
  is_str (eget "kind" e) "state.transition" && is_str (eget "to_state" e) "pass_complete".

Definition update (e : event) (b : t) : res (option BrakeTrip) * t :=
  if pass_complete e then
    let b := mk (spec_max_passes b) (pass_count b + 1) in
    if (spec_max_passes b <=? pass_count b)%Z && negb (is_True (eget "overall_pass" e)) then
      (trip "max_iteration" (str "pass_count " ++ str_of_Z (pass_count b) ++ str " >= max_passes "
         ++ str_of_Z (spec_max_passes b)) e ESCALATE, b)
    else (Ok None, b)
  else (Ok None, b).
End MaxIteration.

(** ** Token and wall-clock budget *)
Module Budget.
Record t := mk { spec_token_budget : Z; spec_wall_clock_s : num; tokens_used : Z; start_ns : option Z }.
Definition init (spec : GoalSpec) : t := mk (token_budget spec) (wall_clock_budget_s spec) 0 None.
Definition reset (b : t) : t := mk (spec_token_budget b) (spec_wall_clock_s b) 0 None.

(** [type(tokens) is int and tokens >= 0] of an [llm.response] event *)
Definition response_tokens (e : event) : option Z :=
  match or_empty (eget "usage" e) with
  | JDict u => match eget "total_tokens" u with
               | JInt n => if (n <? 0)%Z then None else Some n
               | _ => None
               end
  | _ => None
  end.

Definition elapsed_s (now start : Z) : float := fdiv (float_of_Z (now - start)) (float_of_Z 1000000000).

Definition check_clock (now : Z) (e : event) (b : t) : res (option BrakeTrip) :=
  match start_ns b with
  | None => Ok None
  | Some start =>
      let el := elapsed_s now start in
      if num_leb (spec_wall_clock_s b) (NFloat el) then
        trip "budget" (str "elapsed " ++ fixed1 el ++ str "s >= budget " ++ num_str (spec_wall_clock_s b)
                       ++ str "s") e ABORT
      else Ok None
  end.

Definition update (clock : nat → Z) (e : event) (nb : nat * t) : res (option BrakeTrip) * (nat * t) :=
  let '(n, b) := match start_ns nb.2 with
                 | None => (S nb.1, mk (spec_token_budget nb.2) (spec_wall_clock_s nb.2) (tokens_used nb.2)
                                      (Some (clock nb.1)))
                 | Some _ => nb
                 end in
  if is_str (eget "kind" e) "llm.response" then
    match response_tokens e with
    | None => (trip "budget" (str "usage_unknown_or_invalid") e ABORT, (n, b))
    | Some tokens =>
        let b := mk (spec_token_budget b) (spec_wall_clock_s b) (tokens_used b + tokens) (start_ns b) in
        if (spec_token_budget b <=? tokens_used b)%Z then
          (trip "budget" (str "tokens " ++ str_of_Z (tokens_used b) ++ str " >= budget "
             ++ str_of_Z (spec_token_budget b)) e ABORT, (n, b))
        else (check_clock (clock n) e b, (S n, b))
    end
  else (check_clock (clock n) e b, (S n, b)).
End Budget.

(** ** Repeated tool calls *)
Module NoProgress.
Record t := mk { threshold : Z; last_fingerprint : option json; streak : Z }.
Definition init (threshold : json) : res t :=
  n ← positive_int threshold false;
  when (n <? 2)%Z raise ContractError "no-progress threshold must be >= 2";;
  Ok (mk n None 0).
Definition reset (b : t) : t := mk (threshold b) None 0.

Definition fingerprint (e : event) : res json :=
  match or_empty (eget "payload" e) with
  | JDict p =>
      let f := eget "fingerprint" p in
      if truthy f then Ok f
      else JStr <$> digest (jobj [("tool", eget "tool" p); ("args", eget "args" p); ("kwargs", eget "kwargs" p)])
  | _ => Raise (AttributeError "get")
  end.

Definition same (f : json) (last : option json) : bool :=
  match last with Some g => py_eq f g | None => py_eq f JNull end.

Definition advance (f : json) (b : t) : t :=
  if same f (last_fingerprint b) then mk (threshold b) (last_fingerprint b) (streak b + 1)
  else mk (threshold b) (Some f) 1.

Definition update (e : event) (b : t) : res (option BrakeTrip) * t :=
  if negb (is_str (eget "kind" e) "tool.invoked") then (Ok None, b)
  else match fingerprint e with
       | Raise x => (Raise x, b)
       | Ok f =>
           let b := advance f b in
           if (threshold b <=? streak b)%Z then
             (trip "no_progress" (str "identical tool call repeated " ++ str_of_Z (streak b)
                ++ str " consecutive times") e ESCALATE, b)
           else (Ok None, b)
       end.
End NoProgress.

(** ** Completion *)
Module Completion.
Record t := mk { tripped : bool }.
Definition init : t := mk false.
Definition reset (b : t) : t := mk false.

(** [event.get("payload", {}).get(k)] *)
Definition payload_get (k : string) (e : event) : res json :=
  match default (JDict []) (dget (str "payload") e) with
  | JDict p => Ok (eget k p)
  | _ => Raise (AttributeError "get")
  end.

Definition complete (e : event) : res bool :=
  if is_str (eget "kind" e) "custom" then
    ev ← payload_get "event" e;
    if is_str ev "verification_report" then is_True <$> payload_get "overall_pass" e else Ok false
  else Ok false.

Definition update (e : event) (b : t) : res (option BrakeTrip) * t :=
  if tripped b then (Ok None, b)
  else match complete e with
       | Raise x => (Raise x, b)
       | Ok false => (Ok None, b)
       | Ok true => (trip "completion" (str "all goal spec checks passed") e CONTINUE, mk true)
       end.
End Completion.

(** ** The standard brake set *)
Inductive StdBrake : Type :=
| BMax (b : MaxIteration.t)
| BBudget (b : Budget.t)
| BNoProgress (b : NoProgress.t)
| BCompletion (b : Completion.t).

Definition std_update (clock : nat → Z) (e : event) : SM (nat * StdBrake) (option BrakeTrip) := λ '(n, b),
  match b with
  | BMax b => let '(r, b) := MaxIteration.update e b in (r, (n, BMax b))
  | BBudget b => let '(r, (n, b)) := Budget.update clock e (n, b) in (r, (n, BBudget b))
  | BNoProgress b => let '(r, b) := NoProgress.update e b in (r, (n, BNoProgress b))
  | BCompletion b => let '(r, b) := Completion.update e b in (r, (n, BCompletion b))
  end.

Definition std_reset (b : StdBrake) : StdBrake :=
  match b with
  | BMax b => BMax (MaxIteration.reset b)
  | BBudget b => BBudget (Budget.reset b)
  | BNoProgress b => BNoProgress (NoProgress.reset b)
  | BCompletion b => BCompletion (Completion.reset b)
  end.

#[export] Instance StdBrake_ops : BrakeOps StdBrake := { b_update := std_update; b_reset := std_reset }.

Definition build_brakes (spec : GoalSpec) (no_progress_threshold : json) : res (list StdBrake) :=
  np ← NoProgress.init no_progress_threshold;
  Ok [BMax (MaxIteration.init spec); BBudget (Budget.init spec); BNoProgress np; BCompletion Completion.init].

#[global] Arguments trip : simpl never.
#[global] Arguments eget : simpl never.
#[global] Arguments is_str : simpl never.
#[global] Arguments Budget.response_tokens : simpl never.
#[global] Arguments Budget.elapsed_s : simpl never.

(** ** Histories

    The state of a brake after a sequence of events, from its initial state. *)
Definition after {S} (update : event → S → res (option BrakeTrip) * S) (es : list event) (s : S) : S :=
  foldl (λ s e, (update e s).2) s es.

Lemma after_snoc {S} (update : event → S → res (option BrakeTrip) * S) es e s :
  after update (es ++ [e]) s = (update e (after update es s)).2.
Proof. unfold after. by rewrite foldl_app. Qed.

Lemma after_ind {S} (update : event → S → res (option BrakeTrip) * S) (P : list event → S → Prop) s :
  P [] s → (∀ es e b, P es b → P (es ++ [e]) (update e b).2) → ∀ es, P es (after update es s).
Proof.
  intros H0 HS es. induction es as [|e es IH] using rev_ind; [done|]. rewrite after_snoc. by apply HS.
Qed.

Lemma trip_not_quiet name reason e a : trip name reason e a ≠ Ok None.
Proof. unfold trip. by destruct (obs_hash e). Qed.

Lemma trip_action name reason e a t : trip name reason e a = Ok (Some t) → recommended_action t = a.
Proof. unfold trip. intros H. apply bind_Ok in H as (h & _ & H). by injection H as <-. Qed.

(** *** Passes *)
Definition passes (es : list event) : Z := Z.of_nat (length (filter (λ e, MaxIteration.pass_complete e = true) es)).

Lemma passes_snoc es e : passes (es ++ [e]) = (passes es + (if MaxIteration.pass_complete e then 1 else 0))%Z.
Proof.
  unfold passes. rewrite filter_app, length_app, filter_cons.
  destruct (MaxIteration.pass_complete e); [rewrite decide_True by done|rewrite decide_False by done]; cbn; lia.
Qed.

Lemma max_iteration_state spec es :
  after MaxIteration.update es (MaxIteration.init spec) = MaxIteration.mk (max_passes spec) (passes es).
Proof.
  revert es. apply (after_ind _ (λ es b, b = MaxIteration.mk (max_passes spec) (passes es))); [done|].
  intros es e b ->. rewrite passes_snoc. unfold MaxIteration.update. cbn.
  destruct (MaxIteration.pass_complete e); cbn; [by case_match|by rewrite Z.add_0_r].
Qed.

(** The pass brake trips exactly at a completed pass without overall
    success when the number of completed passes of the history, that pass
    included, has reached the specification's maximum; its trips escalate. *)
Theorem max_iteration_trips spec es e :
  let b := after MaxIteration.update es (MaxIteration.init spec) in
  ((MaxIteration.update e b).1 ≠ Ok None ↔
   MaxIteration.pass_complete e = true ∧ is_True (eget "overall_pass" e) = false ∧
   (max_passes spec <= passes (es ++ [e]))%Z) ∧
  (∀ t, (MaxIteration.update e b).1 = Ok (Some t) → recommended_action t = ESCALATE).
Proof.
  cbv zeta. rewrite max_iteration_state, passes_snoc. unfold MaxIteration.update. cbn.
  destruct (MaxIteration.pass_complete e); cbn; [|naive_solver].
  destruct (max_passes spec <=? passes es + 1)%Z eqn:Hle, (is_True (eget "overall_pass" e)) eqn:Ht; bool_prop; cbn.
  - naive_solver.
  - split; [|apply trip_action]. pose proof (trip_not_quiet "max_iteration"). naive_solver.
  - naive_solver.
  - split; [|done]. naive_solver lia.
Qed.

(** *** Tokens *)
Definition is_response (e : event) : bool := is_str (eget "kind" e) "llm.response".
Definition tokens_of (e : event) : Z := if is_response e then default 0%Z (Budget.response_tokens e) else 0%Z.
Definition tokens_total (es : list event) : Z := foldr (λ e n, tokens_of e + n)%Z 0%Z es.

Lemma tokens_total_snoc es e : tokens_total (es ++ [e]) = (tokens_total es + tokens_of e)%Z.
Proof. unfold tokens_total. induction es as [|x es IH]; cbn [foldr app]; [lia|]. rewrite IH. lia. Qed.

Definition budget_after (clock : nat → Z) (spec : GoalSpec) (n : nat) (es : list event) : nat * Budget.t :=
  after (Budget.update clock) es (n, Budget.init spec).

(** The brake's history: its limits are the specification's, the tokens are
    those of the valid responses, the clock starts at the first event. *)
Record budget_history (clock : nat → Z) (spec : GoalSpec) (n : nat) (es : list event) (nb : nat * Budget.t) : Prop := {
  bh_tokens : Budget.spec_token_budget nb.2 = token_budget spec;
  bh_wall : Budget.spec_wall_clock_s nb.2 = wall_clock_budget_s spec;
  bh_used : Budget.tokens_used nb.2 = tokens_total es;
  bh_start : Budget.start_ns nb.2 = match es with [] => None | _ => Some (clock n) end;
  bh_tick : es = [] → nb.1 = n
}.

Lemma budget_state clock spec n es : budget_history clock spec n es (budget_after clock spec n es).
Proof.
  unfold budget_after. revert es. apply (after_ind _ (budget_history clock spec n)); [done|].
  intros es e [m b] [H1 H2 H3 H4 H5]. cbn in *. unfold Budget.update. cbn.
  assert (Hne : match es ++ [e] with [] => None | _ => Some (clock n) end = Some (clock n)) by (by destruct es).
  assert (Hn2 : es ++ [e] = [] → ∀ k : nat, k = n) by (by destruct es).
  assert (Hstart : match Budget.start_ns b with None => Some (clock m) | Some x => Some x end = Some (clock n)).
  { rewrite H4. destruct es; [by rewrite H5|done]. }
  fold (is_response e). assert (Ht := tokens_total_snoc es e). unfold tokens_of in Ht.
  destruct (Budget.start_ns b) as [st|] eqn:Est; cbn;
    destruct (is_response e) eqn:Er; try destruct (Budget.response_tokens e) as [tk|] eqn:Ek; cbn in *;
    try destruct (_ <=? _)%Z; split; cbn; try (rewrite Hne); naive_solver lia.
Qed.

(** The event's own contribution to the budget. *)
Definition budget_exceeded (spec : GoalSpec) (es : list event) (e : event) : Prop :=
  is_response e = true ∧
  (Budget.response_tokens e = None ∨ (token_budget spec <= tokens_total (es ++ [e]))%Z).

(** The budget brake trips on every model response whose usage is missing,
    malformed or negative, and on every response that brings the cumulative
    tokens of the history to the budget; otherwise it trips exactly when the
    time since the first event has reached the wall-clock budget.  Every trip
    asks to abort. *)
Theorem budget_trips clock spec n es e :
  let nb := budget_after clock spec n es in
  let now := clock (match es with [] => S n | _ => nb.1 end) in
  ((Budget.update clock e nb).1 ≠ Ok None ↔
   budget_exceeded spec es e ∨
   num_leb (wall_clock_budget_s spec) (NFloat (Budget.elapsed_s now (clock n))) = true) ∧
  (∀ t, (Budget.update clock e nb).1 = Ok (Some t) → recommended_action t = ABORT).
Proof.
  cbv zeta. pose proof (budget_state clock spec n es) as H. revert H.
  generalize (budget_after clock spec n es). intros [m b] [H1 H2 H3 H4 H5]. cbn in *.
  unfold Budget.update. cbn. fold (is_response e).
  unfold budget_exceeded. rewrite tokens_total_snoc. unfold tokens_of. rewrite <- H1, <- H2, <- H3.
  assert (∃ m' b', (match Budget.start_ns b with
    | None => (S m, Budget.mk (Budget.spec_token_budget b) (Budget.spec_wall_clock_s b) (Budget.tokens_used b) (Some (clock m)))
    | Some _ => (m, b) end) = (m', b') ∧ m' = (match es with [] => S n | _ => m end) ∧
    Budget.start_ns b' = Some (clock n) ∧ Budget.spec_token_budget b' = Budget.spec_token_budget b ∧
    Budget.spec_wall_clock_s b' = Budget.spec_wall_clock_s b ∧ Budget.tokens_used b' = Budget.tokens_used b)
    as (m' & b' & -> & Hm' & Hst & Ht & Hw & Hu).
  { rewrite H4. destruct es as [|x es]; [|by exists m, b]. rewrite H5 by done. by eexists _, _. }
  rewrite <- Hm'. clear Hm' H4 H5. unfold Budget.check_clock. cbn. rewrite Hst.
  pose proof trip_not_quiet as Hq. pose proof trip_action as Ha.
  destruct (is_response e); [destruct (Budget.response_tokens e) as [tk|]; cbn|]; rewrite ?Ht, ?Hw, ?Hu.
  - destruct (Budget.spec_token_budget b <=? Budget.tokens_used b + tk)%Z eqn:Hle; bool_prop.
    + split; [|apply Ha]. split; [eauto|]. intros _. apply Hq.
    + destruct (num_leb _ _) eqn:Hcl; cbn; (split; [|try apply Ha; done]).
      * split; [eauto|]. intros _. apply Hq.
      * split; [done|]. intros [[_ [?|?]]|?]; [done|lia|done].
  - split; [|apply Ha]. split; [eauto|]. intros _. apply Hq.
  - destruct (num_leb _ _) eqn:Hcl; cbn; (split; [|try apply Ha; done]).
    + split; [eauto|]. intros _. apply Hq.
    + split; [done|]. by intros [[? _]|?].
Qed.

(** *** Repetition *)
Definition is_tool (e : event) : bool := is_str (eget "kind" e) "tool.invoked".

(** The events of a history whose fingerprints are the given strings, other
    events interleaved. *)
Inductive tool_history : list event → list pystr → Prop :=
| th_nil : tool_history [] []
| th_other es fs e : tool_history es fs → is_tool e = false → tool_history (es ++ [e]) fs
| th_tool es fs e f : tool_history es fs → is_tool e = true → NoProgress.fingerprint e = Ok (JStr f) →
    tool_history (es ++ [e]) (fs ++ [f]).

(** The brake's streak is the length of the final run of one fingerprint. *)
Definition final_run (fs : list pystr) (f : pystr) (k : nat) : Prop :=
  ∃ pre, fs = pre ++ replicate k f ∧ last pre ≠ Some f.

Definition streak_state (fs : list pystr) (b : NoProgress.t) : Prop :=
  match NoProgress.last_fingerprint b with
  | None => fs = [] ∧ NoProgress.streak b = 0%Z
  | Some g => ∃ f k, g = JStr f ∧ final_run fs f (S k) ∧ NoProgress.streak b = Z.of_nat (S k)
  end.

Lemma advance_streak fs f b :
  streak_state fs b → streak_state (fs ++ [f]) (NoProgress.advance (JStr f) b).
Proof.
  unfold streak_state, NoProgress.advance, NoProgress.same.
  destruct (NoProgress.last_fingerprint b) as [g|] eqn:E.
  - intros (f' & k & -> & (pre & -> & Hpre) & Hk).
    change (py_eq (JStr f) (JStr f')) with (bool_decide (f = f')). case_bool_decide as Hf;
      cbn [NoProgress.last_fingerprint NoProgress.streak].
    + subst f'. exists f, (S k). split; [done|]. split; [|lia].
      exists pre. split; [|done]. by rewrite <- app_assoc, <- replicate_S_end.
    + exists f, 0. split; [done|]. split; [|done]. exists (pre ++ replicate (S k) f'). split; [done|].
      rewrite replicate_S_end, app_assoc, last_snoc. congruence.
  - intros [-> _]. cbn. exists f, 0. split; [done|]. split; [|done]. by exists [].
Qed.

Lemma no_progress_state b0 es fs :
  NoProgress.last_fingerprint b0 = None → NoProgress.streak b0 = 0%Z → tool_history es fs →
  streak_state fs (after NoProgress.update es b0) ∧
  NoProgress.threshold (after NoProgress.update es b0) = NoProgress.threshold b0.
Proof.
  intros H0 H1. induction 1 as [|es fs e _ [IH IHt] He|es fs e f _ [IH IHt] He Hf].
  - cbn. unfold streak_state. by rewrite H0.
  - rewrite after_snoc. unfold NoProgress.update, is_tool in *. by rewrite He.
  - rewrite after_snoc. unfold NoProgress.update, is_tool in *. rewrite He, Hf. cbn [negb].
    assert (∀ t, (if (t : bool) then (trip "no_progress" (str "identical tool call repeated "
       ++ str_of_Z (NoProgress.streak (NoProgress.advance (JStr f) (after NoProgress.update es b0)))
       ++ str " consecutive times") e ESCALATE, NoProgress.advance (JStr f) (after NoProgress.update es b0))
       else (Ok None, NoProgress.advance (JStr f) (after NoProgress.update es b0))).2
       = NoProgress.advance (JStr f) (after NoProgress.update es b0)) as Hsnd by (by intros []).
    rewrite Hsnd. split; [by apply advance_streak|]. rewrite <- IHt. unfold NoProgress.advance. by case_match.
Qed.

Lemma final_run_replicate fs f k n :
  final_run fs f (S k) → n ≤ k ↔ ∃ pre g, fs = pre ++ replicate (S n) g.
Proof.
  intros (pre & -> & Hpre). split.
  - intros Hle. exists (pre ++ replicate (k - n) f), f. rewrite <- app_assoc, <- replicate_add. do 2 f_equal. lia.
  - intros (pre' & g & E). assert (g = f) as ->.
    { apply (f_equal last) in E. rewrite !replicate_S_end, !app_assoc, !last_snoc in E. by injection E. }
    destruct (decide (n ≤ k)) as [|Hlt]; [done|]. exfalso. apply Hpre.
    replace (S n) with ((n - k - 1) + 1 + S k) in E by lia. rewrite replicate_add, (app_assoc pre') in E.
    apply app_inj_2 in E as [-> _]; [|done].
    rewrite replicate_add, app_assoc. apply last_snoc.
Qed.

(** The repetition brake trips on a tool call exactly when the last
    [threshold] tool calls of the history, this one included, have the same
    fingerprint, however many other events lie between them; its trips
    escalate. *)
Theorem no_progress_trips threshold b0 es fs e f :
  NoProgress.init threshold = Ok b0 → tool_history es fs →
  is_tool e = true → NoProgress.fingerprint e = Ok (JStr f) →
  let b := after NoProgress.update es b0 in
  ((NoProgress.update e b).1 ≠ Ok None ↔
   ∃ pre g, fs ++ [f] = pre ++ replicate (Z.to_nat (NoProgress.threshold b0)) g) ∧
  (∀ t, (NoProgress.update e b).1 = Ok (Some t) → recommended_action t = ESCALATE).
Proof.
  intros Hi Hh He Hf. cbv zeta. unfold NoProgress.init in Hi.
  apply bind_Ok in Hi as (n & Hn & Hi). pass_guard Hi. injection Hi as <-. bool_prop.
  destruct (no_progress_state (NoProgress.mk n None 0) es fs) as [Hs Ht]; [done..|].
  unfold NoProgress.update at 1 3. unfold is_tool in He. rewrite He, Hf. cbn [negb].
  apply (advance_streak _ f) in Hs. revert Hs Ht. generalize (after NoProgress.update es (NoProgress.mk n None 0)).
  cbn [NoProgress.threshold]. intros b Hs Ht. assert (Ht' : NoProgress.threshold (NoProgress.advance (JStr f) b) = n)
    by (rewrite <- Ht; unfold NoProgress.advance; by case_match).
  unfold streak_state in Hs. revert Hs Ht'. generalize (NoProgress.advance (JStr f) b). intros b' Hs Ht'.
  destruct (NoProgress.last_fingerprint b') as [g|]; [|by destruct fs, Hs].
  destruct Hs as (f' & k & -> & Hrun & Hk). cbn [NoProgress.threshold].
  replace (Z.to_nat n) with (S (Z.to_nat n - 1)) by lia.
  rewrite <- (final_run_replicate _ _ _ _ Hrun), Ht', Hk.
  pose proof trip_not_quiet as Hq. pose proof trip_action as Ha.
  destruct (n <=? Z.of_nat (S k))%Z eqn:Hle; bool_prop; cbn [fst].
  - split; [|apply Ha]. split; [lia|]. intros _. apply Hq.
  - split; [|done]. split; [done|]. lia.
Qed.

Definition tool_event (f : string) : event :=
  [(str "kind", JStr (str "tool.invoked")); (str "payload", jobj [("fingerprint", JStr (str f))])].

Lemma no_progress_trips_witness :
  (NoProgress.update (tool_event "a")
     (after NoProgress.update [tool_event "b"; tool_event "a"] (NoProgress.mk 2 None 0))).1 ≠ Ok None.
Proof.
  apply (no_progress_trips (JInt 2) (NoProgress.mk 2 None 0) [tool_event "b"; tool_event "a"]
           [str "b"; str "a"] (tool_event "a") (str "a")); try reflexivity.
  - apply (th_tool [tool_event "b"] [str "b"]); try reflexivity.
    apply (th_tool [] []); try reflexivity. constructor.
  - exists [str "b"], (str "a"). reflexivity.
Defined.
