(* ===== verification/Loop.v ===== *)
(** * The bounded loop controller (residual/loop.py)

    Gather, act and verify passes under brakes.  The harness is an oracle of
    the pass number, the clock an oracle of the reading number, the host
    callback an oracle of everything emitted so far; brakes are any instance
    of [BrakeOps], so the theorems cover host-supplied brake sets.  Extension
    modules enter through the brakes they add and the initialization failure
    they report; their observers and the lifecycle bus swallow every exception
    and cannot change the state modelled here. *)

From Stdlib Require Import ZArith NArith Lia SpecFloat.
From S2P Require Import Prelude PyData PyFloat Json JsonFacts Core CoreFacts GoalSpec Receipts Verifier Brakes.

Inductive RunOutcome : Type := SUCCESS | ESCALATED | ABORTED | AMENDED.
#[export] Instance RunOutcome_eq_dec : EqDecision RunOutcome.
Proof. solve_decision. Defined.
Definition outcome_str (o : RunOutcome) : pystr :=
  match o with
  | SUCCESS => str "success" | ESCALATED => str "escalated" | ABORTED => str "aborted" | AMENDED => str "amended"
  end.

Record RunResult : Type := mkRunResult {
  rr_outcome : RunOutcome;
  rr_goal_id : pystr;
  rr_run_id : pystr;
  total_passes : Z;
  total_tokens : option Z;
  wall_clock_s : float;
  final_verification : option VerificationReport;
  tripped_brakes : list pystr;
  trip_reasons : list pystr;
  rr_amendment_reason : option pystr;
  spec_hash : pystr
}.

Definition json_opt_int (o : option Z) : json := match o with Some z => JInt z | None => JNull end.

Section loop.
Context {B : Type} `{BrakeOps B}.
Context (clock : nat → Z) (host_emit : list (pystr * json) → res unit) (run_pass : GoalSpec → Z → res json).
Context (evaluators : dict Evaluator) (spec : GoalSpec) (run_id : pystr).

Record loop_state : Type := mkLoop {
  tick : nat;
  brakes : list B;
  trips : list BrakeTrip;
  emitted : list (pystr * json)
}.
Abbreviation M := (SM loop_state).

Definition with_brakes (n : nat) (bs : list B) (s : loop_state) : loop_state := mkLoop n bs (trips s) (emitted s).
Definition with_trips (ts : list BrakeTrip) (s : loop_state) : loop_state :=
  mkLoop (tick s) (brakes s) ts (emitted s).

(** [time.monotonic()] *)
Definition monotonic : M float := λ s,
  (Ok (fdiv (float_of_Z (clock (tick s))) (float_of_Z 1000000000)), with_brakes (S (tick s)) (brakes s) s).

Definition emit (kind : pystr) (payload : json) : M unit := λ s,
  let log := emitted s ++ [(kind, payload)] in
  (host_emit log, mkLoop (tick s) (brakes s) (trips s) log).

Definition same_trip (t u : BrakeTrip) : bool :=
  bool_decide (brake_name t = brake_name u) && bool_decide (recommended_action t = recommended_action u).

Definition record (t : BrakeTrip) : M unit :=
  s ← sm_get;
  if existsb (λ u, same_trip u t) (trips s) then mret tt
  else
    _ ← sm_mod (λ s, with_trips (trips s ++ [t]) s);
    emit (str "state.transition")
      (jobj [("from_state", JStr (str "brake_armed")); ("to_state", JStr (str "brake_tripped"));
             ("brake_name", JStr (brake_name t)); ("action", JStr (action_str (recommended_action t)));
             ("trip_reason", JStr (trip_reason t)); ("triggering_obs_hash", JStr (triggering_obs_hash t));
             ("run_id", JStr run_id)]).

(** [feed]: every brake sees the event in order; a brake's change is kept
    when a later step raises. *)
Fixpoint feed_from (e : event) (todo done : list B) : M unit :=
  match todo with
  | [] => mret tt
  | b :: todo => λ s,
      let '(r, (n, b')) := b_update clock e (tick s, b) in
      let s := with_brakes n (done ++ b' :: todo) s in
      match r with
      | Raise x => (Raise x, s)
      | Ok None => feed_from e todo (done ++ [b']) s
      | Ok (Some t) => (record t ≫= λ _, feed_from e todo (done ++ [b'])) s
      end
  end.
Definition feed (e : event) : M unit := s ← sm_get; feed_from e (brakes s) [].

Definition force (name reason : string) (a : BrakeAction) (e : json) : M unit :=
  h ← sm_lift (digest e);
  record (mkTrip (str name) (str reason) h a).

Definition has_action (a : BrakeAction) (ts : list BrakeTrip) : bool :=
  existsb (λ t, bool_decide (recommended_action t = a)) ts.

Definition decide_ (tripped : list BrakeTrip) : BrakeAction :=
  if has_action ABORT tripped then ABORT
  else if has_action ESCALATE tripped then ESCALATE
  else CONTINUE.

Definition finish (outcome : RunOutcome) (passes : Z) (tokens : option Z) (t0 : float)
    (verification : option VerificationReport) : M RunResult :=
  now ← monotonic;
  let elapsed := fround (fsub now t0) 3 in
  s ← sm_get;
  h ← sm_lift (content_hash spec);
  let result := mkRunResult outcome (goal_id spec) run_id passes tokens elapsed verification
                  (brake_name <$> trips s) (trip_reason <$> trips s) (amendment_reason spec) h in
  _ ← emit (str "checkpoint")
        (jobj [("event", JStr (str "run_closed")); ("run_id", JStr run_id); ("goal_id", JStr (goal_id spec));
               ("outcome", JStr (outcome_str outcome)); ("total_passes", JInt passes);
               ("total_tokens", json_opt_int tokens); ("wall_clock_s", JFloat elapsed);
               ("tripped_brakes", json_strs (tripped_brakes result));
               ("trip_reasons", json_strs (trip_reasons result)); ("spec_hash", JStr h)]);
  mret result.

(** [time.monotonic() - t0 >= spec.wall_clock_budget_s] *)
Definition deadline_passed (t0 : float) : M bool :=
  now ← monotonic; mret (num_leb (wall_clock_budget_s spec) (NFloat (fsub now t0))).
Definition check_deadline (t0 : float) (pass_number : Z) : M unit :=
  late ← deadline_passed t0;
  if (late : bool) then force "budget" "wall_clock_budget_exhausted" ABORT (jobj [("pass", JInt pass_number)])
  else mret tt.

Definition pass_event (from_state to_state : string) (pass_number : Z) : json :=
  jobj [("from_state", JStr (str from_state)); ("to_state", JStr (str to_state));
        ("pass_number", JInt pass_number); ("run_id", JStr run_id)].

(** Token accounting of one pass. *)
Definition valid_usage (used : json) : option Z :=
  match used with JInt n => if (n <? 0)%Z then None else Some n | _ => None end.

Definition account (pass_number : Z) (result : dict json) (tokens : option Z) : M (option Z) :=
  match valid_usage (eget "tokens_used" result) with
  | None =>
      _ ← force "budget" "usage_unknown_or_invalid" ABORT (jobj [("pass", JInt pass_number)]);
      mret None
  | Some used =>
      total ← match tokens with
              | Some t => mret (t + used)%Z
              | None => sm_raise (TypeError "unsupported operand")
              end;
      let usage := jobj [("total_tokens", JInt used)] in
      _ ← emit (str "llm.response")
            (jobj [("run_id", JStr run_id);
                   ("provider", default (JStr (str "unknown")) (dget (str "provider") result)); ("usage", usage)]);
      _ ← feed [(str "kind", JStr (str "llm.response")); (str "usage", usage)];
      _ ← (if (token_budget spec <=? total)%Z
           then force "budget" "token_budget_exhausted" ABORT (jobj [("tokens", JInt total)])
           else mret tt);
      mret (Some total)
  end.

Definition observation_dicts (v : json) : res (list (dict json)) :=
  let bad := Raise (ContractError "harness observations must be a bounded list of objects") in
  match v with
  | JList l => if (10000 <? Z.of_nat (length l))%Z then bad
               else match mapM (λ o, match o with JDict d => Some d | _ => None end) l with
                    | Some ds => Ok ds
                    | None => bad
                    end
  | _ => bad
  end.

(** Only [tool.invoked] observations of a worker reach the brakes. *)
Definition feed_observations (result : dict json) : M unit :=
  obs ← sm_lift (observation_dicts (default (JList []) (dget (str "observations") result)));
  sm_for obs (λ o, if is_str (eget "kind" o) "tool.invoked" then feed o else mret tt).

Definition halt_reason (v : json) : res (option string) :=
  match v with
  | JNull => Ok None
  | JStr s => if decide (s = str "paused") then Ok (Some "paused")
              else if decide (s = str "no_runnable_tasks") then Ok (Some "no_runnable_tasks")
              else Raise (ContractError "unknown harness halt reason")
  | JList _ | JDict _ => Raise (TypeError "unhashable type")
  | _ => Raise (ContractError "unknown harness halt reason")
  end.
Definition check_halt (result : dict json) : M unit :=
  r ← sm_lift (halt_reason (eget "halt" result));
  match r with
  | Some reason => force "dispatch" reason ESCALATE (jobj [("halt", JStr (str reason))])
  | None => mret tt
  end.

(** [{"event": kind, "run_id": run_id, **payload}] *)
Definition verifier_emit (kind : pystr) (payload : json) : M unit :=
  match payload with
  | JDict p => emit (str "custom") (JDict (dupdate [(str "event", JStr kind); (str "run_id", JStr run_id)] p))
  | _ => sm_raise (TypeError "argument after ** must be a mapping")
  end.

(** Verification of the candidate, skipped once an abort is established. *)
Definition verify_pass (candidate : json) : M (option VerificationReport) :=
  s ← sm_get;
  if has_action ABORT (trips s) then mret None
  else
    report ← verify monotonic (Some verifier_emit) evaluators candidate spec;
    let verification :=
      jobj [("event", JStr (str "verification_report")); ("goal_id", JStr (goal_id spec));
            ("overall_pass", JBool (overall_pass report)); ("primary_failure", json_opt_str (primary_failure report));
            ("duration_ms", JFloat (vr_duration_ms report)); ("run_id", JStr run_id)] in
    _ ← emit (str "custom") verification;
    _ ← feed [(str "kind", JStr (str "custom")); (str "payload", verification)];
    mret (Some report).

Definition report_passes (r : option VerificationReport) : bool :=
  match r with Some r => overall_pass r | None => false end.

Definition stop {A} (m : M RunResult) : M (RunResult + A) := r ← m; mret (inl r).

(** One iteration: [inl result] is the [return], [inr tokens] goes on. *)
Definition one_pass (t0 : float) (pass_number : Z) (tokens : option Z) (report : option VerificationReport)
    : M (RunResult + option Z * option VerificationReport) :=
  s ← sm_get;
  if negb (bool_decide (length (trips s) = 0)) then
    stop (finish ESCALATED (pass_number - 1) tokens t0 report)
  else
    late ← deadline_passed t0;
    if (late : bool) then
      _ ← force "budget" "wall_clock_budget_exhausted" ABORT (jobj [("pass", JInt pass_number)]);
      stop (finish ABORTED (pass_number - 1) tokens t0 report)
    else
      _ ← emit (str "state.transition") (pass_event "pass_pending" "pass_running" pass_number);
      result ← sm_lift (run_pass spec pass_number);
      result ← match result with
               | JDict d => mret d
               | _ => sm_raise (ContractError "harness pass must return a candidate object")
               end;
      candidate ← sm_lift (of_option (ContractError "harness pass must return a candidate object")
                             (dget (str "candidate") result));
      tokens ← account pass_number result tokens;
      _ ← feed_observations result;
      _ ← check_halt result;
      _ ← check_deadline t0 pass_number;
      report ← verify_pass candidate;
      _ ← check_deadline t0 pass_number;
      let passed := report_passes report in
      let completed :=
        [(str "event", JStr (str "pass_complete")); (str "from_state", JStr (str "pass_running"));
         (str "to_state", JStr (str "pass_complete")); (str "pass_number", JInt pass_number);
         (str "overall_pass", JBool passed); (str "run_id", JStr run_id)] in
      _ ← emit (str "state.transition") (JDict completed);
      _ ← feed ((str "kind", JStr (str "state.transition")) :: completed);
      _ ← (if (pass_number =? max_passes spec)%Z && negb passed
           then force "max_iteration" "max_passes_reached" ESCALATE (JDict completed)
           else mret tt);
      s ← sm_get;
      let decision := decide_ (trips s) in
      _ ← emit (str "custom")
            (jobj [("event", JStr (str "brake_decision")); ("pass_number", JInt pass_number);
                   ("decision", JStr (action_str decision));
                   ("tripped_brakes", json_strs (brake_name <$> trips s)); ("run_id", JStr run_id)]);
      match decision, passed with
      | ABORT, _ => stop (finish ABORTED pass_number tokens t0 report)
      | ESCALATE, _ => stop (finish ESCALATED pass_number tokens t0 report)
      | CONTINUE, true => stop (finish SUCCESS pass_number tokens t0 report)
      | CONTINUE, false => _ ← sm_mod (with_trips []); mret (inr (tokens, report))
      end.

(** [for pass_number in range(1, max_passes + 1)]; [k] passes remain. *)
Fixpoint pass_loop (t0 : float) (k : nat) (pass_number : Z) (tokens : option Z)
    (report : option VerificationReport) : M RunResult :=
  match k with
  | O => sm_raise (AssertionError "bounded loop must terminate")
  | S k =>
      r ← one_pass t0 pass_number tokens report;
      match r with
      | inl result => mret result
      | inr (tokens, report) => pass_loop t0 k (pass_number + 1) tokens report
      end
  end.

(** [_run]; [extension_failure] is [failures or self._extension_failure]. *)
Definition run_ (extension_failure : bool) : M RunResult :=
  t0 ← monotonic;
  _ ← sm_mod (with_trips []);
  h ← sm_lift (content_hash spec);
  _ ← emit (str "checkpoint")
        (jobj [("event", JStr (str "run_opened")); ("run_id", JStr run_id); ("goal_id", JStr (goal_id spec));
               ("spec_hash", JStr h); ("max_passes", JInt (max_passes spec));
               ("token_budget", JInt (token_budget spec));
               ("wall_clock_budget_s", json_of_num (wall_clock_budget_s spec));
               ("amendment_count", JInt (amendment_count spec)); ("parent_hash", json_opt_str (parent_hash spec))]);
  _ ← (if extension_failure
       then force "extensions" "extension_initialization_failed" ABORT (jobj [("run_id", JStr run_id)])
       else mret tt);
  _ ← feed [(str "kind", JStr (str "checkpoint")); (str "event", JStr (str "run_opened"));
            (str "payload", jobj [("event", JStr (str "run_opened"))])];
  s ← sm_get;
  if has_action ABORT (trips s) then finish ABORTED 0 (Some 0%Z) t0 None
  else pass_loop t0 (Z.to_nat (max_passes spec)) 1 (Some 0%Z) None.

(** [run]: the base brakes and those of the extensions ([None] when creating
    them failed), reset, then [_run]. *)
Definition run (base_brakes : list B) (extension_brakes : option (list B)) (failures : bool)
    : M RunResult :=
  _ ← sm_mod (λ s, with_brakes (tick s) (b_reset <$> (base_brakes ++ default [] extension_brakes)) s);
  run_ (failures || match extension_brakes with None => true | Some _ => false end).

(** ** Trips only accumulate within a pass *)
#[local] Set Default Proof Using "All".
Definition grows {A} (m : M A) : Prop := ∀ s, trips s `prefix_of` trips (m s).2.

Lemma grows_ret {A} (a : A) : grows (mret a).
Proof. by intros s. Qed.
Lemma grows_lift {A} (r : res A) : grows (sm_lift r).
Proof. by intros s. Qed.
Lemma grows_raise {A} e : grows (sm_raise (A := A) e).
Proof. by intros s. Qed.
Lemma grows_get : grows sm_get.
Proof. by intros s. Qed.
Lemma grows_bind {A C} (m : M A) (f : A → M C) : grows m → (∀ a, grows (f a)) → grows (m ≫= f).
Proof.
  intros Hm Hf s. specialize (Hm s). unfold mbind, SM_bind.
  destruct (m s) as [[a|e] s1]; [|done]. etrans; [exact Hm|apply Hf].
Qed.
Lemma grows_monotonic : grows monotonic.
Proof. by intros s. Qed.
Lemma grows_emit k v : grows (emit k v).
Proof. by intros s. Qed.
Hint Resolve grows_ret grows_lift grows_raise grows_get grows_bind grows_monotonic grows_emit : core.

Lemma grows_record t : grows (record t).
Proof.
  unfold record, mbind, SM_bind, sm_get. intros s.
  destruct (existsb (λ u, same_trip u t) (trips s)); [by exists []; cbn; rewrite app_nil_r|]. by exists [t].
Qed.
Hint Resolve grows_record : core.

Lemma grows_feed_from e todo dn : grows (feed_from e todo dn).
Proof.
  revert dn. induction todo as [|b todo IH]; intros dn; cbn; [auto|]. intros s.
  destruct (b_update clock e (tick s, b)) as [r [n b']]. set (s1 := with_brakes _ _ _).
  change (trips s) with (trips s1). destruct r as [[t|]|x].
  - apply (grows_bind (record t) (λ _, feed_from e todo (dn ++ [b']))); auto.
  - apply (IH (dn ++ [b']) s1).
  - by exists []; cbn; rewrite app_nil_r.
Qed.
Lemma grows_feed e : grows (feed e).
Proof. apply grows_bind; [auto|]. intros a. apply grows_feed_from. Qed.
Lemma grows_force n r a e : grows (force n r a e).
Proof. apply grows_bind; auto. Qed.
Hint Resolve grows_feed grows_force : core.
Lemma grows_for {A} (l : list A) body : (∀ x, grows (body x)) → grows (sm_for l body).
Proof. intros Hb. induction l as [|x l IH]; cbn; auto. Qed.
Lemma grows_deadline t0 n : grows (check_deadline t0 n).
Proof.
  unfold check_deadline, deadline_passed. apply grows_bind; [by apply grows_bind; auto|].
  intros []; auto.
Qed.
Lemma grows_observations d : grows (feed_observations d).
Proof. apply grows_bind; [auto|]. intros obs. apply grows_for. intros x. by destruct (is_str _ _); auto. Qed.
Lemma grows_halt d : grows (check_halt d).
Proof. apply grows_bind; [auto|]. intros []; auto. Qed.
Lemma grows_verifier_emit k v : grows (verifier_emit k v).
Proof. destruct v; cbn; auto. Qed.
Lemma grows_verify_loop candidate cs rs pf p :
  grows (verify_loop monotonic (Some verifier_emit) evaluators spec candidate cs rs pf p).
Proof.
  revert rs pf p. induction cs as [|c cs IH]; intros; cbn [verify_loop]; [auto|].
  apply grows_bind; [auto|]. intros t. destruct (evaluate_one _ _ _ _) as [x y].
  apply grows_bind; [auto|]. intros u. apply grows_bind; [apply grows_verifier_emit|]. auto.
Qed.
Lemma grows_verify_pass candidate : grows (verify_pass candidate).
Proof.
  apply grows_bind; [auto|]. intros s. destruct (has_action _ _); [auto|].
  apply grows_bind; [|auto 10]. unfold verify. apply grows_bind; [auto|]. intros t.
  apply grows_bind; [apply grows_verify_loop|]. intros [rs pf]. apply grows_bind; auto.
Qed.

Lemma has_action_prefix a ts us : ts `prefix_of` us → has_action a ts = true → has_action a us = true.
Proof. intros [k ->]. unfold has_action. rewrite existsb_app. intros ->. done. Qed.

(** After a forced trip its action is among the trips. *)
Lemma force_trips n r a e s s' : force n r a e s = (Ok tt, s') → has_action a (trips s') = true.
Proof.
  unfold force. intros Hf. apply sm_bind_Ok in Hf as (h & s1 & _ & Hf).
  unfold record in Hf. apply sm_bind_Ok in Hf as (s2 & s3 & [= <- <-] & Hf).
  set (t := mkTrip _ _ _ _) in *. destruct (existsb (λ u, same_trip u t) (trips s1)) eqn:Hex.
  - injection Hf as <-. apply existsb_exists in Hex as (u & Hu & Hs). unfold same_trip in Hs. bool_prop.
    apply existsb_exists. exists u. split; [done|]. by apply bool_decide_eq_true.
  - apply sm_bind_Ok in Hf as ([] & s2 & [= <-] & Hf). injection Hf as _ <-. cbn.
    unfold has_action. rewrite existsb_app. cbn. rewrite bool_decide_eq_true_2 by done. by rewrite orb_true_r.
Qed.

(** ** What a result says *)
(** The usage the harness reported for a pass, and the sum over the first
    [k] passes; [None] once a report is missing or invalid. *)
Definition pass_usage (n : Z) : option Z :=
  match run_pass spec n with Ok (JDict d) => valid_usage (eget "tokens_used" d) | _ => None end.
Fixpoint usage_total (k : nat) : option Z :=
  match k with
  | O => Some 0%Z
  | S k => t ← usage_total k; u ← pass_usage (Z.of_nat (S k)); Some (t + u)%Z
  end.

(** The candidate of pass [n] passes every criterion of the specification. *)
Definition candidate_verified (n : Z) : Prop :=
  ∃ d candidate, run_pass spec n = Ok (JDict d) ∧ dget (str "candidate") d = Some candidate ∧
                 Forall (criterion_passes evaluators candidate) (success_criteria spec).

Definition outcome_justified (r : RunResult) (s : loop_state) : Prop :=
  match rr_outcome r with
  | SUCCESS => decide_ (trips s) = CONTINUE ∧ candidate_verified (total_passes r) ∧
               (∃ t, total_tokens r = Some t ∧ (t < token_budget spec)%Z) ∧
               (∃ rep, final_verification r = Some rep ∧ overall_pass rep = true)
  | ESCALATED => trips s ≠ [] ∧ has_action ABORT (trips s) = false
  | ABORTED => has_action ABORT (trips s) = true
  | AMENDED => False
  end.

Record result_ok (r : RunResult) (s : loop_state) : Prop := {
  ro_passes : (0 <= total_passes r <= max_passes spec)%Z;
  ro_tokens : total_tokens r = usage_total (Z.to_nat (total_passes r));
  ro_brakes : tripped_brakes r = brake_name <$> trips s;
  ro_outcome : outcome_justified r s
}.

Lemma finish_Ok o p t t0 v s r s' :
  finish o p t t0 v s = (Ok r, s') →
  rr_outcome r = o ∧ total_passes r = p ∧ total_tokens r = t ∧ final_verification r = v ∧
  tripped_brakes r = brake_name <$> trips s ∧ trips s' = trips s.
Proof.
  unfold finish. intros Hf. apply sm_bind_Ok in Hf as (now & s1 & [= _ <-] & Hf).
  apply sm_bind_Ok in Hf as (s2 & s3 & [= <- <-] & Hf). apply sm_bind_Ok in Hf as (h & s2 & Hh & Hf).
  injection Hh as _ <-. apply sm_bind_Ok in Hf as ([] & s2 & He & Hf). injection He as _ <-.
  injection Hf as <- <-. done.
Qed.

Lemma stop_Ok {A} o p t t0 v s (x : RunResult + A) s' :
  stop (finish o p t t0 v) s = (Ok x, s') →
  ∃ r, x = inl r ∧ rr_outcome r = o ∧ total_passes r = p ∧ total_tokens r = t ∧ final_verification r = v ∧
       tripped_brakes r = brake_name <$> trips s ∧ trips s' = trips s.
Proof.
  unfold stop. intros Hf. apply sm_bind_Ok in Hf as (r & s1 & Hr & [= <- <-]).
  exists r. split; [done|]. by apply finish_Ok in Hr.
Qed.

(** Accounting keeps the sum, and leaves an abort unless the sum is known
    and below the budget. *)
Lemma account_Ok n d tokens s tokens' s' :
  account n d tokens s = (Ok tokens', s') →
  tokens' = (t ← tokens; u ← valid_usage (eget "tokens_used" d); Some (t + u)%Z) ∧
  ((∃ t, tokens' = Some t ∧ (t < token_budget spec)%Z) ∨ has_action ABORT (trips s') = true).
Proof.
  unfold account. destruct (valid_usage _) as [u|]; intros Ha.
  - apply sm_bind_Ok in Ha as (t & s1 & Ht & Ha). destruct tokens as [t'|]; [|discriminate Ht].
    injection Ht as <- <-. apply sm_bind_Ok in Ha as ([] & s2 & _ & Ha).
    apply sm_bind_Ok in Ha as ([] & s3 & _ & Ha). apply sm_bind_Ok in Ha as ([] & s4 & Hf & Ha).
    injection Ha as <- <-. split; [done|]. destruct (_ <=? _)%Z eqn:Hle; bool_prop.
    + right. by eapply force_trips.
    + left. eauto.
  - apply sm_bind_Ok in Ha as ([] & s1 & Hf & [= <- <-]). split; [by destruct tokens|].
    right. by eapply force_trips.
Qed.

Lemma grows_Ok {A} (m : M A) s a s' : grows m → m s = (Ok a, s') → trips s `prefix_of` trips s'.
Proof. intros Hg Hm. specialize (Hg s). by rewrite Hm in Hg. Qed.

Lemma abort_back {A} (m : M A) s a s' :
  grows m → m s = (Ok a, s') → has_action ABORT (trips s') = false → has_action ABORT (trips s) = false.
Proof.
  intros Hg Hm Hf. apply not_true_iff_false. intros Ht. apply not_true_iff_false in Hf.
  apply Hf. eapply has_action_prefix; [by eapply grows_Ok|done].
Qed.

Lemma decide_continue ts : decide_ ts = CONTINUE ↔ has_action ABORT ts = false ∧ has_action ESCALATE ts = false.
Proof. unfold decide_. destruct (has_action ABORT ts), (has_action ESCALATE ts); naive_solver. Qed.

Lemma decide_escalate ts : decide_ ts = ESCALATE → ts ≠ [] ∧ has_action ABORT ts = false.
Proof. unfold decide_. destruct ts as [|t ts]; [done|].
  by destruct (has_action ABORT (t :: ts)), (has_action ESCALATE (t :: ts)). Qed.
Lemma decide_abort ts : decide_ ts = ABORT → has_action ABORT ts = true.
Proof. unfold decide_. by destruct (has_action ABORT ts), (has_action ESCALATE ts). Qed.

Lemma has_action_true a ts : has_action a ts = true ↔ ∃ t, t ∈ ts ∧ recommended_action t = a.
Proof.
  unfold has_action. rewrite existsb_exists. split; intros (t & Hin & Ht); exists t.
  - rewrite list_elem_of_In. by apply bool_decide_eq_true in Ht.
  - rewrite <- list_elem_of_In. by rewrite bool_decide_eq_true.
Qed.
Lemma has_action_false a ts : has_action a ts = false ↔ ∀ t, t ∈ ts → recommended_action t ≠ a.
Proof. rewrite <- not_true_iff_false, has_action_true. naive_solver. Qed.
Lemma decide_continue_all ts : decide_ ts = CONTINUE ↔ ∀ t, t ∈ ts → recommended_action t = CONTINUE.
Proof.
  rewrite decide_continue, !has_action_false. split.
  - intros [Ha He] t Ht. specialize (Ha t Ht). specialize (He t Ht). by destruct (recommended_action t).
  - intros Hc. split; intros t Ht; by rewrite (Hc t Ht).
Qed.

Lemma usage_total_step n d :
  (1 <= n)%Z → run_pass spec n = Ok (JDict d) →
  (t ← usage_total (Z.to_nat (n - 1)); u ← valid_usage (eget "tokens_used" d); Some (t + u)%Z)
  = usage_total (Z.to_nat n).
Proof.
  intros Hn Hd. replace (Z.to_nat n) with (S (Z.to_nat (n - 1))) by lia. cbn [usage_total].
  unfold pass_usage. replace (Z.of_nat (S (Z.to_nat (n - 1)))) with n by lia. by rewrite Hd.
Qed.

(** The report of a verified pass. *)
Lemma verify_pass_Ok candidate s rep s' :
  verify_pass candidate s = (Ok rep, s') → report_passes rep = true →
  Forall (criterion_passes evaluators candidate) (success_criteria spec).
Proof.
  unfold verify_pass. intros Hv Hp. apply sm_bind_Ok in Hv as (s1 & s2 & [= <- <-] & Hv).
  destruct (has_action ABORT (trips s)); [by injection Hv as <- _|].
  apply sm_bind_Ok in Hv as (r & s2 & Hr & Hv). apply sm_bind_Ok in Hv as ([] & s3 & _ & Hv).
  apply sm_bind_Ok in Hv as ([] & s4 & _ & [= <- <-]). by eapply verify_Ok.
Qed.

(** What a pass leaves: a justified result, or the running totals with a
    clean set of trips, which the last pass never does. *)
Definition pass_post (n : Z) (x : RunResult + option Z * option VerificationReport) (s : loop_state) : Prop :=
  match x with
  | inl r => result_ok r s
  | inr (tokens, _) => tokens = usage_total (Z.to_nat n) ∧ trips s = [] ∧ (n < max_passes spec)%Z
  end.

Lemma stop_result {A} o p t t0 v s (x : RunResult + A) s' (Q : RunResult + A → loop_state → Prop) :
  stop (finish o p t t0 v) s = (Ok x, s') →
  (0 <= p <= max_passes spec)%Z → t = usage_total (Z.to_nat p) →
  (∀ r, rr_outcome r = o → total_passes r = p → total_tokens r = t → final_verification r = v →
        trips s' = trips s → outcome_justified r s') →
  (∀ r, result_ok r s' → Q (inl r) s') → Q x s'.
Proof.
  intros Hst Hp Ht Hj HQ. apply stop_Ok in Hst as (r & -> & Ho & Hpp & Htt & Hv & Hb & Htr).
  apply HQ. split; [by rewrite Hpp|congruence|congruence|by apply Hj].
Qed.

Lemma one_pass_Ok t0 n tokens report s x s' :
  one_pass t0 n tokens report s = (Ok x, s') → (1 <= n <= max_passes spec)%Z →
  tokens = usage_total (Z.to_nat (n - 1)) → has_action ABORT (trips s) = false → pass_post n x s'.
Proof.
  unfold one_pass. intros Hp Hn Ht Hab. apply sm_bind_Ok in Hp as (s0 & s1 & [= <- <-] & Hp).
  destruct (negb (bool_decide _)) eqn:Htr; bool_prop.
  { eapply stop_result; [exact Hp|lia|done| |done]. intros r Ho _ _ _ E. unfold outcome_justified.
    rewrite Ho, E. split; [|done]. by destruct (trips s). }
  apply sm_bind_Ok in Hp as (late & s1 & Hl & Hp).
  assert (trips s1 = trips s) as E1 by (unfold deadline_passed in Hl; apply sm_bind_Ok in Hl as (? & ? & [= _ <-] & [= _ <-]); done).
  destruct late.
  { apply sm_bind_Ok in Hp as ([] & s2 & Hf & Hp). eapply stop_result; [exact Hp|lia|done| |done].
    intros r Ho _ _ _ E. unfold outcome_justified. rewrite Ho, E. by eapply force_trips. }
  apply sm_bind_Ok in Hp as ([] & s2 & He & Hp).
  apply sm_bind_Ok in Hp as (res0 & s3 & Hrp & Hp). injection Hrp as Hrp <-.
  apply sm_bind_Ok in Hp as (d & s3 & Hd & Hp). destruct res0 as [| | | | | |d0]; try discriminate Hd.
  injection Hd as -> <-. apply sm_bind_Ok in Hp as (cand & s3 & Hc & Hp). injection Hc as Hc <-.
  apply of_option_Ok in Hc.
  apply sm_bind_Ok in Hp as (tokens' & s4 & Hacc & Hp). apply account_Ok in Hacc as [Ht' Hbud].
  apply sm_bind_Ok in Hp as ([] & s5 & Hobs & Hp). apply sm_bind_Ok in Hp as ([] & s6 & Hhalt & Hp).
  apply sm_bind_Ok in Hp as ([] & s7 & Hdl & Hp). apply sm_bind_Ok in Hp as (rep & s8 & Hver & Hp).
  apply sm_bind_Ok in Hp as ([] & s9 & Hdl2 & Hp). cbv zeta in Hp.
  apply sm_bind_Ok in Hp as ([] & s10 & Hem & Hp). apply sm_bind_Ok in Hp as ([] & s11 & Hfe & Hp).
  apply sm_bind_Ok in Hp as ([] & s12 & Hmax & Hp). apply sm_bind_Ok in Hp as (s13 & s14 & [= <- <-] & Hp).
  apply sm_bind_Ok in Hp as ([] & s13 & Hem2 & Hp). injection Hem2 as _ <-.
  rewrite Ht, (usage_total_step n d) in Ht' by (done || lia).
  assert (Hgmax : grows (if (n =? max_passes spec)%Z && negb (report_passes rep)
           then force "max_iteration" "max_passes_reached" ESCALATE
                  (JDict [(str "event", JStr (str "pass_complete")); (str "from_state", JStr (str "pass_running"));
                    (str "to_state", JStr (str "pass_complete")); (str "pass_number", JInt n);
                    (str "overall_pass", JBool (report_passes rep)); (str "run_id", JStr run_id)])
           else mret tt)) by (destruct ((n =? max_passes spec)%Z && negb (report_passes rep)); auto).
  assert (Hchain : has_action ABORT (trips s12) = false → has_action ABORT (trips s4) = false).
  { intros Hf. eapply (abort_back _ _ _ _ Hgmax Hmax) in Hf.
    eapply abort_back in Hf; [|apply grows_feed|exact Hfe]. eapply abort_back in Hf; [|apply grows_emit|exact Hem].
    eapply abort_back in Hf; [|apply grows_deadline|exact Hdl2].
    eapply abort_back in Hf; [|apply grows_verify_pass|exact Hver].
    eapply abort_back in Hf; [|apply grows_deadline|exact Hdl].
    eapply abort_back in Hf; [|apply grows_halt|exact Hhalt].
    by eapply abort_back in Hf; [|apply grows_observations|exact Hobs]. }
  cbn [trips] in Hp. destruct (decide_ (trips s12)) eqn:Hdec.
  - apply decide_continue in Hdec as Hd2. destruct Hd2 as [Hna Hne].
    destruct (report_passes rep) eqn:Hrep.
    + eapply stop_result; [exact Hp|lia|done| |done]. intros r Ho Hpas Htok Hfv E. unfold outcome_justified.
      rewrite Ho, E. cbn [trips]. split_and!; [done| | |].
      * exists d, cand. rewrite Hpas. split_and!; [done|done|]. by eapply verify_pass_Ok.
      * rewrite Htok. destruct Hbud as [Hb|Hb]; [done|]. by rewrite Hchain in Hb.
      * rewrite Hfv. destruct rep as [rep|]; [|done]. by exists rep.
    + apply sm_bind_Ok in Hp as ([] & s14 & [= <-] & [= <- <-]). cbn. split_and!; [done|done|].
      destruct (n =? max_passes spec)%Z eqn:Hlast; bool_prop; [|lia]. cbn [andb negb] in Hmax.
      apply force_trips in Hmax. congruence.
  - apply decide_escalate in Hdec. eapply stop_result; [exact Hp|lia|done| |done].
    intros r Ho _ _ _ E. unfold outcome_justified. by rewrite Ho, E.
  - apply decide_abort in Hdec. eapply stop_result; [exact Hp|lia|done| |done].
    intros r Ho _ _ _ E. unfold outcome_justified. by rewrite Ho, E.
Qed.

Lemma pass_loop_Ok t0 k n tokens report s r s' :
  pass_loop t0 k n tokens report s = (Ok r, s') →
  (1 <= n)%Z → (n + Z.of_nat k = max_passes spec + 1)%Z →
  tokens = usage_total (Z.to_nat (n - 1)) → has_action ABORT (trips s) = false → result_ok r s'.
Proof.
  revert n tokens report s. induction k as [|k IH]; intros n tokens report s Hl Hn Hk Ht Hab; [done|].
  cbn [pass_loop] in Hl. apply sm_bind_Ok in Hl as (x & s1 & Hx & Hl).
  apply one_pass_Ok in Hx; [|lia|done|done]. destruct x as [r'|[tokens' report']].
  - by injection Hl as <- <-.
  - destruct Hx as (Ht' & Htr & Hlt). apply IH in Hl; [done|lia|lia| |by rewrite Htr].
    rewrite Ht'. f_equal. lia.
Qed.

Lemma run_Ok failed s r s' :
  (1 <= max_passes spec)%Z → run_ failed s = (Ok r, s') → result_ok r s'.
Proof.
  intros Hm. unfold run_. intros Hr. apply sm_bind_Ok in Hr as (t0 & s1 & _ & Hr).
  apply sm_bind_Ok in Hr as ([] & s2 & _ & Hr). apply sm_bind_Ok in Hr as (h & s3 & _ & Hr).
  apply sm_bind_Ok in Hr as ([] & s4 & _ & Hr). apply sm_bind_Ok in Hr as ([] & s5 & _ & Hr).
  apply sm_bind_Ok in Hr as ([] & s6 & _ & Hr). apply sm_bind_Ok in Hr as (s7 & s8 & [= <- <-] & Hr).
  destruct (has_action ABORT (trips s6)) eqn:Hab.
  - apply finish_Ok in Hr as (Ho & Hp & Ht & _ & Hb & Htr). split.
    + rewrite Hp. lia.
    + by rewrite Hp, Ht.
    + by rewrite Hb, Htr.
    + unfold outcome_justified. by rewrite Ho, Htr.
  - eapply pass_loop_Ok; [exact Hr|lia|lia|done|done].
Qed.

Lemma pass_loop_Raise t0 k n tokens report s e s' :
  pass_loop t0 k n tokens report s = (Raise e, s') →
  (1 <= n)%Z → (n + Z.of_nat k = max_passes spec + 1)%Z → (n <= max_passes spec)%Z →
  tokens = usage_total (Z.to_nat (n - 1)) → has_action ABORT (trips s) = false →
  ∃ m tokens1 report1 s1, (n <= m <= max_passes spec)%Z ∧ one_pass t0 m tokens1 report1 s1 = (Raise e, s').
Proof.
  revert n tokens report s. induction k as [|k IH]; intros n tokens report s Hl Hn Hk Hle Ht Hab; [lia|].
  cbn [pass_loop] in Hl. apply sm_bind_Raise in Hl as [Hl|(x & s1 & Hx & Hl)].
  - exists n, tokens, report, s. split; [lia|done].
  - apply one_pass_Ok in Hx; [|lia|done|done]. destruct x as [r'|[tokens' report']]; [done|].
    destruct Hx as (Ht' & Htr & Hlt). apply IH in Hl as (m & ? & ? & ? & Hm & Hr); [| lia | lia | lia | |by rewrite Htr].
    + eexists m, _, _, _. split; [lia|exact Hr].
    + rewrite Ht'. f_equal. lia.
Qed.
End loop.

(** C10: the outcome of a run is justified, for any harness, any evaluators,
    any host brakes and any clock.  A returned result reports at most
    [max_passes] passes and exactly the sum of the usage the harness reported
    (unknown as soon as one report is invalid).  SUCCESS is reported only when
    the candidate of that very pass passes every criterion of the
    specification, the usage is known and below the token budget and every trip
    recommends to continue (a passing pass may itself be recorded as such a trip,
    as by the completion brake); ABORTED only with an abort trip, ESCALATED only
    with a trip and no abort trip; AMENDED never. *)
Theorem run_outcome_justified {B} `{BrakeOps B} clock host_emit run_pass evaluators spec run_id
    base_brakes extension_brakes failures s r s' :
  GoalSpec_new spec = Ok spec →
  run clock host_emit run_pass evaluators spec run_id base_brakes extension_brakes failures s = (Ok r, s') →
  (0 <= total_passes r <= max_passes spec)%Z ∧
  total_tokens r = usage_total run_pass spec (Z.to_nat (total_passes r)) ∧
  tripped_brakes r = brake_name <$> trips s' ∧
  match rr_outcome r with
  | SUCCESS => (∀ t, t ∈ trips s' → recommended_action t = CONTINUE) ∧
               candidate_verified run_pass evaluators spec (total_passes r) ∧
               (∃ t, total_tokens r = Some t ∧ (t < token_budget spec)%Z) ∧
               (∃ rep, final_verification r = Some rep ∧ overall_pass rep = true)
  | ESCALATED => trips s' ≠ [] ∧ ∀ t, t ∈ trips s' → recommended_action t ≠ ABORT
  | ABORTED => ∃ t, t ∈ trips s' ∧ recommended_action t = ABORT
  | AMENDED => False
  end.
Proof.
  intros Hs Hr. unfold run in Hr. apply sm_bind_Ok in Hr as ([] & s1 & _ & Hr). apply GoalSpec_max_passes in Hs.
  apply run_Ok in Hr as [Hp Ht Hb Ho]; [|done]. split_and!; [lia|lia|done|done|]. unfold outcome_justified in Ho.
  destruct (rr_outcome r); [|by rewrite <- has_action_false|by apply has_action_true|done].
  destruct Ho as (Hd & Ho). split; [|done]. by apply decide_continue_all.
Qed.

(** The pass loop is bounded: after at most [max_passes] iterations it has
    returned, or an operation of one of the passes raised; control never falls
    out of the bounded range into its final assertion. *)
Theorem pass_loop_bounded {B} `{BrakeOps B} clock host_emit run_pass evaluators spec run_id t0 s out s' :
  GoalSpec_new spec = Ok spec → has_action ABORT (trips s) = false →
  pass_loop clock host_emit run_pass evaluators spec run_id t0
    (Z.to_nat (max_passes spec)) 1 (Some 0%Z) None s = (out, s') →
  (∃ r, out = Ok r ∧ (0 <= total_passes r <= max_passes spec)%Z) ∨
  (∃ e n tokens report s1, out = Raise e ∧ (1 <= n <= max_passes spec)%Z ∧
      one_pass clock host_emit run_pass evaluators spec run_id t0 n tokens report s1 = (Raise e, s')).
Proof.
  intros Hs Hab E. apply GoalSpec_max_passes in Hs. destruct out as [r|e].
  - left. exists r. split; [done|]. apply pass_loop_Ok in E as [Hp _ _ _]; [done|lia|lia|done|done].
  - right. apply pass_loop_Raise in E as (n & tk & rep & s1 & Hn & Hr); [|lia|lia|lia|done|done].
    by exists e, n, tk, rep, s1.
Qed.

Definition demo_clock (n : nat) : Z := Z.of_nat n.
Definition demo_pass (_ : GoalSpec) (n : Z) : res json :=
  Ok (jobj [("candidate", JBool (2 <=? n)%Z); ("tokens_used", JInt 10)]).
Definition demo_pass_evaluators : dict Evaluator :=
  [(str "run_tests", λ v _, Ok (Some (if decide (v = JBool true) then CR_PASS else CR_FAIL), Some []));
   (str "review", λ _ _, Ok (Some CR_PASS, Some (str "fine")))].
Definition demo_brakes : list StdBrake := Eval vm_compute in
  match build_brakes demo_spec (JInt 3) with Ok bs => bs | Raise _ => [] end.
Definition demo_start : @loop_state StdBrake := mkLoop 0 [] [] [].
Definition demo_run : res RunResult * @loop_state StdBrake :=
  run demo_clock (λ _, Ok tt) demo_pass demo_pass_evaluators demo_spec (str "run") demo_brakes (Some []) false demo_start.

Definition demo_result : RunResult := Eval vm_compute in
  match demo_run.1 with Ok r => r | Raise _ => mkRunResult AMENDED [] [] 0 None fzero None [] [] None [] end.
Definition demo_end : @loop_state StdBrake := Eval vm_compute in demo_run.2.

Lemma demo_run_eq :
  run demo_clock (λ _, Ok tt) demo_pass demo_pass_evaluators demo_spec (str "run") demo_brakes (Some []) false demo_start
  = (Ok demo_result, demo_end).
Proof. vm_compute. reflexivity. Qed.

Lemma run_outcome_justified_witness :
  rr_outcome demo_result = SUCCESS ∧
  candidate_verified demo_pass demo_pass_evaluators demo_spec (total_passes demo_result).
Proof.
  split; [reflexivity|].
  pose proof (run_outcome_justified demo_clock (λ _, Ok tt) demo_pass demo_pass_evaluators demo_spec (str "run")
    demo_brakes (Some []) false demo_start demo_result demo_end demo_spec_valid demo_run_eq) as (_ & _ & _ & H).
  exact (proj1 (proj2 H)).
Defined.

Definition demo_loop : res RunResult * @loop_state StdBrake := Eval vm_compute in
  pass_loop demo_clock (λ _, Ok tt) demo_pass demo_pass_evaluators demo_spec (str "run") fzero
    (Z.to_nat (max_passes demo_spec)) 1 (Some 0%Z) None demo_start.

Lemma demo_loop_eq :
  pass_loop demo_clock (λ _, Ok tt) demo_pass demo_pass_evaluators demo_spec (str "run") fzero
    (Z.to_nat (max_passes demo_spec)) 1 (Some 0%Z) None demo_start = (demo_loop.1, demo_loop.2).
Proof. vm_compute. reflexivity. Qed.

Lemma pass_loop_bounded_witness :
  has_action ABORT (trips demo_start) = false ∧
  ((∃ r, demo_loop.1 = Ok r ∧ (0 <= total_passes r <= max_passes demo_spec)%Z) ∨
   (∃ e n tokens report s1, demo_loop.1 = Raise e ∧ (1 <= n <= max_passes demo_spec)%Z ∧
      one_pass demo_clock (λ _, Ok tt) demo_pass demo_pass_evaluators demo_spec (str "run") fzero n tokens report s1
      = (Raise e, demo_loop.2))).
Proof.
  split; [reflexivity|].
  exact (pass_loop_bounded demo_clock (λ _, Ok tt) demo_pass demo_pass_evaluators demo_spec (str "run") fzero
           demo_start _ _ demo_spec_valid eq_refl demo_loop_eq).
Defined.
