(* ===== verification/Providers.v ===== *)
(** * Provider contracts (residual/providers.py)

    Token usage, prices and the reply of a model call.  The transport of a
    provider (HTTP adapters, wire format) is outside: a provider is a record
    of its declared placement and prices, the size of its request body and the
    outcome of its n-th call. *)

From Stdlib Require Import ZArith NArith Lia SpecFloat.
From S2P Require Import Prelude PyData PyFloat Json Core GoalSpec.

Record Usage : Type := mkUsage {
  input_tokens : option Z;
  output_tokens : option Z;
  cached_input_tokens : option Z;
  u_source : pystr;
  cache_write_input_tokens : option Z
}.

Definition opt_neg (o : option Z) : bool := match o with Some n => (n <? 0)%Z | None => false end.

Definition Usage_new (u : Usage) : res Usage :=
  when existsb opt_neg [input_tokens u; output_tokens u; cached_input_tokens u; cache_write_input_tokens u]
  raise ContractError "invalid provider token usage";;
  when match cached_input_tokens u, input_tokens u with
       | Some c, Some i => (i <? c)%Z
       | _, _ => false
       end
  raise ContractError "cached tokens exceed input tokens";;
  when negb (bool_decide (u_source u ∈ [str "reported"; str "estimated"; str "unavailable"; str "simulation"]))
  raise ContractError "invalid usage source";;
  Ok u.

(** [Usage()] *)
Definition Usage_none : Usage := mkUsage None None None (str "unavailable") None.

Definition opt_json_int (o : option Z) : json := match o with Some n => JInt n | None => JNull end.

(** [asdict(usage)] *)
Definition usage_dict (u : Usage) : json :=
  jobj [("input_tokens", opt_json_int (input_tokens u)); ("output_tokens", opt_json_int (output_tokens u));
        ("cached_input_tokens", opt_json_int (cached_input_tokens u)); ("source", JStr (u_source u));
        ("cache_write_input_tokens", opt_json_int (cache_write_input_tokens u))].

Record Reply : Type := mkReply {
  reply_text : pystr;
  reply_usage : Usage;
  reply_elapsed_ms : num;
  finish_reason : option pystr
}.

(** ** Python arithmetic on integers and floats *)
Definition num_float (n : num) : res float :=
  match n with
  | NFloat f => Ok f
  | NInt z => let f := float_of_Z z in
              if is_finite f then Ok f else Raise (OtherError "OverflowError: int too large to convert to float")
  end.
Definition num_op (iop : Z → Z → Z) (fop : float → float → float) (a b : num) : res num :=
  match a, b with
  | NInt x, NInt y => Ok (NInt (iop x y))
  | _, _ => x ← num_float a; y ← num_float b; Ok (NFloat (fop x y))
  end.
Definition num_add : num → num → res num := num_op Z.add fadd.
Definition num_mul : num → num → res num := num_op Z.mul fmul.
(** [n / 1_000_000]: an integer quotient is rounded once. *)
Definition num_per_million (n : num) : res num :=
  match n with
  | NInt z => let f := float_of_dec (z <? 0)%Z (Z.abs z) (-6) in
              if is_finite f then Ok (NFloat f)
              else Raise (OtherError "OverflowError: integer division result too large for a float")
  | NFloat f => Ok (NFloat (fdiv f (float_of_Z 1000000)))
  end.

(** ** Prices *)
Record Prices : Type := mkPrices {
  input_per_million : num;
  output_per_million : num;
  cached_input_per_million : option num
}.

Definition price_ok (p : num) : res unit :=
  when num_ltb p (NInt 0) raise ContractError "prices must be finite and nonnegative";;
  fin ← py_isfinite p;
  when negb fin raise ContractError "prices must be finite and nonnegative";;
  Ok tt.

Definition Prices_new (p : Prices) : res Prices :=
  _ ← price_ok (input_per_million p);
  _ ← price_ok (output_per_million p);
  _ ← match cached_input_per_million p with Some c => price_ok c | None => Ok tt end;
  Ok p.

Definition cost (p : Prices) (u : Usage) : res (option num) :=
  match input_tokens u, output_tokens u with
  | Some i, Some o =>
      if negb (bool_decide (u_source u = str "reported")) then Ok None
      else if bool_decide (is_Some (cached_input_per_million p)) && bool_decide (cached_input_tokens u = None) then Ok None
      else if match cache_write_input_tokens u with Some n => negb (n =? 0)%Z | None => false end then Ok None
      else
        let cached := default 0%Z (cached_input_tokens u) in
        let cached_price := default (input_per_million p) (cached_input_per_million p) in
        a ← num_mul (NInt (i - cached)) (input_per_million p);
        b ← num_mul (NInt cached) cached_price;
        ab ← num_add a b;
        c ← num_mul (NInt o) (output_per_million p);
        total ← num_add ab c;
        Some <$> num_per_million total
  | _, _ => Ok None
  end.

(** ** Providers *)
Inductive placement_t : Type := Local | Remote.
#[export] Instance placement_eq_dec : EqDecision placement_t.
Proof. solve_decision. Defined.

(** What [generate] does: return a [Reply], return something else, raise
    [ProviderError(code)] or raise any other exception. *)
Inductive generated : Type :=
| GReply (r : Reply)
| GNotReply
| GProviderError (code : pystr)
| GException.

(** [generate] is indexed by the number of calls the process made before. *)
Record Provider : Type := mkProvider {
  p_name : pystr;
  placement : placement_t;
  prices : option Prices;
  wire_size : json → Z → res N;  (* a length in bytes *)
  generate : nat → json → Z → generated
}.
Definition is_remote (p : Provider) : bool := bool_decide (placement p = Remote).
Definition placement_str (p : placement_t) : pystr := match p with Local => str "local" | Remote => str "remote" end.
