(* ===== verification/Engine.v ===== *)
(** * The residual engine (residual/engine.py)

    [Harness.run] and everything it calls, for the routing modes that do not
    compile the task first (all but [structural] and [cic]).  The attributes a
    run resets are the fields of [hstate]; the constructor's arguments are the
    section variables.  The monotonic clock and the wall clock are oracles of
    the number of readings; a provider's replies are an oracle of the number of
    calls.  [h_sent] records every request handed to a provider, in order: the
    input/output trace of the run. *)

From Stdlib Require Import ZArith NArith Lia SpecFloat.
From S2P Require Import Prelude PyData Sha256 PyFloat Json JsonFacts Core CoreFacts Storage Receipts Builtins GoalSpec Providers.

(** ** Limits and modes *)
Record Limits : Type := mkLimits {
  local_rounds : Z;
  expert_rounds : Z;
  max_calls : Z;
  max_expert_calls : Z;
  max_remote_input_bytes : Z;
  max_request_bytes : Z;
  max_output_tokens : Z;
  max_requested_lines : Z;
  seed_lines : Z;
  max_structural_nodes : Z
}.

Definition limits_items (l : Limits) : list (string * Z * bool) :=
  [("local_rounds", local_rounds l, true); ("expert_rounds", expert_rounds l, true);
   ("max_calls", max_calls l, false); ("max_expert_calls", max_expert_calls l, true);
   ("max_remote_input_bytes", max_remote_input_bytes l, true); ("max_request_bytes", max_request_bytes l, false);
   ("max_output_tokens", max_output_tokens l, false); ("max_requested_lines", max_requested_lines l, false);
   ("seed_lines", seed_lines l, true); ("max_structural_nodes", max_structural_nodes l, true)].

Definition Limits_new (l : Limits) : res Limits :=
  _ ← for_all (limits_items l) (λ '(_, v, allow_zero), _ ← positive_int (JInt v) allow_zero; Ok tt);
  when (1000000 <? max_structural_nodes l)%Z raise ContractError "structural node limit exceeds maximum";;
  Ok l.

(** [asdict(limits)] *)
Definition limits_dict (l : Limits) : json := jobj ((λ '(k, v, _), (k, JInt v)) <$> limits_items l).

Inductive Mode : Type :=
| MResidual | MResidualFixed | MCascade | MFullCloud | MLocalOnly | MNoPull | MNoFeedback | MNoSolvers.
#[export] Instance Mode_eq_dec : EqDecision Mode.
Proof. solve_decision. Defined.
Definition mode_str (m : Mode) : pystr :=
  match m with
  | MResidual => str "residual" | MResidualFixed => str "residual_fixed" | MCascade => str "cascade"
  | MFullCloud => str "full_cloud" | MLocalOnly => str "local_only" | MNoPull => str "no_pull"
  | MNoFeedback => str "no_feedback" | MNoSolvers => str "no_solvers"
  end.

(** ** State of a run *)
Record Receipt : Type := mkReceiptRec {
  rc_binding : pystr; rc_value_sha256 : pystr; rc_verifier : pystr; rc_revision : pystr; rc_sha256 : pystr
}.
Definition receipt_body (binding value verifier revision : pystr) : dict json :=
  [(str "binding", JStr binding); (str "value_sha256", JStr value);
   (str "verifier", JStr verifier); (str "revision", JStr revision)].
Definition receipt_json (r : Receipt) : json :=
  JDict (receipt_body (rc_binding r) (rc_value_sha256 r) (rc_verifier r) (rc_revision r)
         ++ [(str "sha256", JStr (rc_sha256 r))]).

Inductive Role : Type := RLocal | RExpert.
#[export] Instance Role_eq_dec : EqDecision Role.
Proof. solve_decision. Defined.
Definition role_str (r : Role) : pystr := match r with RLocal => str "local" | RExpert => str "expert" end.

Record CallRecord : Type := mkCall {
  cl_role : Role;
  cl_provider : pystr;
  cl_placement : placement_t;
  cl_obligation_ids : list pystr;
  cl_request_bytes : Z;
  cl_packet_sha256 : pystr;
  cl_usage : option Usage;  (* [None]: the reserved record's usage *)
  cl_cost_usd : option num;
  cl_elapsed_ms : option num;
  cl_error : option pystr
}.

Definition opt_json_num (o : option num) : json := match o with Some n => json_of_num n | None => JNull end.
Definition reserved_usage : json :=
  jobj [("input_tokens", JNull); ("output_tokens", JNull); ("cached_input_tokens", JNull);
        ("source", JStr (str "unavailable"))].
Definition call_json (c : CallRecord) : json :=
  jobj [("role", JStr (role_str (cl_role c))); ("provider", JStr (cl_provider c));
        ("placement", JStr (placement_str (cl_placement c))); ("obligation_ids", json_strs (cl_obligation_ids c));
        ("request_bytes", JInt (cl_request_bytes c)); ("packet_sha256", JStr (cl_packet_sha256 c));
        ("usage", match cl_usage c with Some u => usage_dict u | None => reserved_usage end);
        ("cost_usd", opt_json_num (cl_cost_usd c)); ("elapsed_ms", opt_json_num (cl_elapsed_ms c));
        ("error", json_opt_str (cl_error c))].

(** The packet sent to a provider, before serialization: evidence is given by
    artifact and line interval. *)
Record Packet : Type := mkPacket {
  pk_ids : list pystr;
  pk_deps : list (pystr * (json * pystr));
  pk_counterexamples : list (pystr * (pystr * pystr));
  pk_manifest : list pystr;
  pk_evidence : list (pystr * Z * Z)
}.

Abbreviation wkey := (pystr * pystr * pystr)%type.

Record hstate : Type := mkH {
  h_accepted : dict json;
  h_receipts : dict Receipt;
  h_station : dict StationReceipt;
  h_failures : dict (pystr * pystr);
  h_windows : gmap wkey (list (Z * Z));
  h_calls : list CallRecord;
  h_ledger : Ledger;
  h_cache : option Cache.t;
  h_cache_hits : Z;
  h_deterministic : Z;
  h_remote_bytes : Z;
  h_expert_calls : Z;
  h_verification_ms : float;
  h_solver_ms : float;
  h_tick : nat;
  h_sent : list (Provider * Packet)
}.
Abbreviation M := (SM hstate).

Definition set_accepted v s := mkH v (h_receipts s) (h_station s) (h_failures s) (h_windows s) (h_calls s) (h_ledger s) (h_cache s) (h_cache_hits s) (h_deterministic s) (h_remote_bytes s) (h_expert_calls s) (h_verification_ms s) (h_solver_ms s) (h_tick s) (h_sent s).
Definition set_receipts v s := mkH (h_accepted s) v (h_station s) (h_failures s) (h_windows s) (h_calls s) (h_ledger s) (h_cache s) (h_cache_hits s) (h_deterministic s) (h_remote_bytes s) (h_expert_calls s) (h_verification_ms s) (h_solver_ms s) (h_tick s) (h_sent s).
Definition set_station v s := mkH (h_accepted s) (h_receipts s) v (h_failures s) (h_windows s) (h_calls s) (h_ledger s) (h_cache s) (h_cache_hits s) (h_deterministic s) (h_remote_bytes s) (h_expert_calls s) (h_verification_ms s) (h_solver_ms s) (h_tick s) (h_sent s).
Definition set_failures v s := mkH (h_accepted s) (h_receipts s) (h_station s) v (h_windows s) (h_calls s) (h_ledger s) (h_cache s) (h_cache_hits s) (h_deterministic s) (h_remote_bytes s) (h_expert_calls s) (h_verification_ms s) (h_solver_ms s) (h_tick s) (h_sent s).
Definition set_windows v s := mkH (h_accepted s) (h_receipts s) (h_station s) (h_failures s) v (h_calls s) (h_ledger s) (h_cache s) (h_cache_hits s) (h_deterministic s) (h_remote_bytes s) (h_expert_calls s) (h_verification_ms s) (h_solver_ms s) (h_tick s) (h_sent s).
Definition set_calls v s := mkH (h_accepted s) (h_receipts s) (h_station s) (h_failures s) (h_windows s) v (h_ledger s) (h_cache s) (h_cache_hits s) (h_deterministic s) (h_remote_bytes s) (h_expert_calls s) (h_verification_ms s) (h_solver_ms s) (h_tick s) (h_sent s).
Definition set_ledger v s := mkH (h_accepted s) (h_receipts s) (h_station s) (h_failures s) (h_windows s) (h_calls s) v (h_cache s) (h_cache_hits s) (h_deterministic s) (h_remote_bytes s) (h_expert_calls s) (h_verification_ms s) (h_solver_ms s) (h_tick s) (h_sent s).
Definition set_cache v s := mkH (h_accepted s) (h_receipts s) (h_station s) (h_failures s) (h_windows s) (h_calls s) (h_ledger s) v (h_cache_hits s) (h_deterministic s) (h_remote_bytes s) (h_expert_calls s) (h_verification_ms s) (h_solver_ms s) (h_tick s) (h_sent s).
Definition set_counts hits det s := mkH (h_accepted s) (h_receipts s) (h_station s) (h_failures s) (h_windows s) (h_calls s) (h_ledger s) (h_cache s) hits det (h_remote_bytes s) (h_expert_calls s) (h_verification_ms s) (h_solver_ms s) (h_tick s) (h_sent s).
Definition set_spent bytes calls s := mkH (h_accepted s) (h_receipts s) (h_station s) (h_failures s) (h_windows s) (h_calls s) (h_ledger s) (h_cache s) (h_cache_hits s) (h_deterministic s) bytes calls (h_verification_ms s) (h_solver_ms s) (h_tick s) (h_sent s).
Definition set_times ver sol n s := mkH (h_accepted s) (h_receipts s) (h_station s) (h_failures s) (h_windows s) (h_calls s) (h_ledger s) (h_cache s) (h_cache_hits s) (h_deterministic s) (h_remote_bytes s) (h_expert_calls s) ver sol n (h_sent s).
Definition set_sent v s := mkH (h_accepted s) (h_receipts s) (h_station s) (h_failures s) (h_windows s) (h_calls s) (h_ledger s) (h_cache s) (h_cache_hits s) (h_deterministic s) (h_remote_bytes s) (h_expert_calls s) (h_verification_ms s) (h_solver_ms s) (h_tick s) v.

(** ** [_merge] *)
Definition iv_leb (a b : Z * Z) : bool := (a.1 <? b.1)%Z || ((a.1 =? b.1)%Z && (a.2 <=? b.2)%Z).
(** The loop over the sorted intervals; [acc] is [merged] in reverse. *)
Fixpoint merge_sorted (acc l : list (Z * Z)) : list (Z * Z) :=
  match l with
  | [] => reverse acc
  | (start, end_) :: l =>
      match acc with
      | (s, e) :: acc' => if (start <=? e + 1)%Z then merge_sorted ((s, Z.max end_ e) :: acc') l
                          else merge_sorted ((start, end_) :: acc) l
      | [] => merge_sorted [(start, end_)] l
      end
  end.
Definition merge_ (intervals : list (Z * Z)) : list (Z * Z) := merge_sorted [] (sort_by iv_leb intervals).

(** ** [_parse]: the worker protocol *)
Record Request : Type := mkRequest { rq_obligation : pystr; rq_artifact : pystr; rq_start : Z; rq_end : Z }.

Definition parse_request (ids : list pystr) (v : json) : res Request :=
  match v with
  | JDict d =>
      when negb (keys_are d ["obligation_id"; "artifact_id"; "start_line"; "end_line"])
      raise ContractError "invalid evidence request";;
      n ← dgetitem (str "obligation_id") d;
      match n with
      | JStr n =>
          when negb (bool_decide (n ∈ ids)) raise ContractError "evidence request outside scope";;
          start ← dgetitem (str "start_line") d;
          start ← positive_int start false;
          end_ ← dgetitem (str "end_line") d;
          end_ ← positive_int end_ false;
          a ← dgetitem (str "artifact_id") d;
          match a with
          | JStr a => Ok (mkRequest n a start end_)
          | _ => Raise (ContractError "invalid artifact id")
          end
      | _ => Raise (ContractError "evidence request outside scope")
      end
  | _ => Raise (ContractError "invalid evidence request")
  end.

Definition parse_reply (text : pystr) (ids : list pystr) : res (dict json * list Request) :=
  bytes ← encode text;
  when (2000000 <? Z.of_nat (length bytes))%Z raise ContractError "response too large";;
  data ← strict_json text;
  match data with
  | JDict d =>
      when negb (keys_are d ["updates"; "requests"]) raise ContractError "invalid response keys";;
      updates ← dgetitem (str "updates") d;
      requests ← dgetitem (str "requests") d;
      match updates, requests with
      | JDict updates, JList requests =>
          when negb (forallb (λ n, bool_decide (n ∈ ids)) updates.*1) || (8 <? length requests)%nat
          raise ContractError "response exceeds obligation or request scope";;
          requests ← mapM (parse_request ids) requests;
          _ ← canonical data;
          Ok (updates, requests)
      | _, _ => Raise (ContractError "invalid response types")
      end
  | _ => Raise (ContractError "invalid response keys")
  end.

(** Reply error codes: fixed lowercase codes only. *)
Definition code_char (c : N) : bool := in_range 97 122 c || is_digit c || (c =? 95)%N.
Definition safe_code (code : pystr) : pystr :=
  if (100 <? length code)%nat || negb (forallb code_char code) then str "provider_error" else code.

Section harness.
Context (registry : Registry) (local expert : option Provider) (limits : Limits) (mode : Mode) (task : Task).
Context (mono wall : nat → Z) (run_id : pystr).

Definition tasks : dict Obligation := by_id task.
Definition get_obligation (n : pystr) : res Obligation := dgetitem n tasks.
Definition get_artifact (a : pystr) : res Artifact := dgetitem a (t_artifacts task).

(** [time.monotonic()] *)
Definition monotonic : M float := λ s,
  (Ok (fdiv (float_of_Z (mono (h_tick s))) (float_of_Z 1000000000)),
   set_times (h_verification_ms s) (h_solver_ms s) (S (h_tick s)) s).
(** [(time.monotonic() - started) * 1000] *)
Definition since (started : float) : M float := now ← monotonic; mret (fmul (fsub now started) (float_of_Z 1000)).

(** [self.ledger.add(kind, **data)] *)
Definition log (kind : string) (data : list (string * json)) : M unit :=
  s ← sm_get;
  l ← sm_lift (Ledger_add (h_ledger s) (str kind) (wall (length (l_events (h_ledger s))))
                 ((λ kv, (str kv.1, kv.2)) <$> data));
  sm_mod (set_ledger l).

Definition context (s : hstate) (n : pystr) : res Context_ :=
  o ← get_obligation n; Ok (mkContext o (t_artifacts task) (h_accepted s)).

Definition artifact_hashes (l : list pystr) : res (dict pystr) :=
  kvs ← mapM (λ a, art ← get_artifact a; h ← artifact_sha256 art; Ok (a, h)) l; Ok (dict_of kvs).
Definition json_dict_strs (d : dict pystr) : json := JDict ((λ kv, (kv.1, JStr kv.2)) <$> d).

Definition check_entry (o : Obligation) : res (pystr * Check_) := dgetitem (o_check o) (checks registry).

Definition binding (s : hstate) (n : pystr) : res json :=
  o ← get_obligation n;
  rev ← check_entry o;
  evidence ← artifact_hashes (o_evidence o);
  deps ← mapM (λ d, r ← dgetitem d (h_receipts s); Ok (d, rc_sha256 r)) (o_depends_on o);
  Ok (jobj [("contract_version", JStr (str "residual.obligation.v1")); ("task_id", JStr (t_id task));
            ("goal", JStr (t_goal task)); ("obligation", obligation_dict o); ("check_revision", JStr rev.1);
            ("evidence", json_dict_strs evidence); ("dependencies", json_dict_strs (dict_of deps))]).

(** [_identity] *)
Definition identity (s : hstate) (n : pystr) : res (option (pystr * pystr * CheckType)) :=
  o ← get_obligation n;
  match dget (o_check o) (identities registry) with
  | None => Ok None
  | Some (revision, check_type) =>
      if negb (forallb (λ d, dmem d (h_station s)) (o_depends_on o)) then Ok None
      else
        rev ← effective_revision revision;
        entry ← check_entry o;
        d ← digest (jobj [("identity", JStr rev); ("label", JStr entry.1);
                          ("check_type", JStr (check_type_str check_type))]);
        let name := if (count_char 58 (o_check o) =? 0)%nat then str "host:" ++ o_check o else o_check o in
        Ok (Some (name, d, check_type))
  end.

(** [_parents] *)
Definition parents (s : hstate) (n : pystr) : res (list ReceiptReference) :=
  o ← get_obligation n;
  refs ← mapM (λ d, r ← dgetitem d (h_station s); h ← receipt_hash r; ReceiptReference_new d h) (o_depends_on o);
  Ok (sort_by ref_leb refs).

(** [_cache_key] *)
Definition cache_key_of (s : hstate) (n : pystr) : res pystr :=
  id ← identity s n;
  match id with
  | Some (name, revision, check_type) =>
      o ← get_obligation n;
      goal_hash ← digest (jobj [("task_id", JStr (t_id task)); ("goal", JStr (t_goal task))]);
      contract_hash ← digest (obligation_dict o);
      artifacts ← artifact_hashes (o_evidence o);
      ps ← parents s n;
      cache_key (t_id task) n goal_hash contract_hash name revision check_type artifacts ps
  | None => b ← binding s n; digest b
  end.

(** [_cached_candidate]: [None] is [(False, None)]. *)
Definition cached_candidate_try (s : hstate) (n : pystr) (entry : json) : res (option json) :=
  match entry with
  | JDict d =>
      if negb (keys_are d ["schema_version"; "value"; "receipt"]) then Ok None
      else
        version ← dgetitem (str "schema_version") d;
        if negb (py_eq version (JStr (str "residual.station.cache.entry.v1"))) then Ok None
        else
          envelope ← dgetitem (str "receipt") d;
          receipt ← from_dict envelope;
          id ← identity s n;
          match id with
          | None => Raise (TypeError "cannot unpack non-iterable NoneType object")
          | Some (name, revision, _) =>
              if negb (bool_decide (sr_task_id receipt = n)) then Ok None
              else
                value ← dgetitem (str "value") d;
                key ← cache_key_of s n;
                ps ← parents s n;
                okay ← receipt_matches receipt value key name revision ps None None;
                Ok (if (okay : bool) then Some value else None)
          end
  | _ => Ok None
  end.
Definition cached_candidate (s : hstate) (n : pystr) (entry : json) : res (option json) :=
  match cached_candidate_try s n entry with
  | Raise (ContractError _ | ValueError _ | TypeError _ | KeyError _) => Ok None
  | r => r
  end.

(** [_failure] *)
Definition failure (n : pystr) (code message : pystr) : M unit :=
  _ ← sm_mod (λ s, set_failures (dset n (code, message) (h_failures s)) s);
  log "counterexample" [("obligation_id", JStr n); ("code", JStr code)].

(** The [try] of [_accept]: the canonical text and the verdict. *)
Definition check_verdict (s : hstate) (n : pystr) (value : json) : Verdict :=
  match (original ← canonical value;
         o ← get_obligation n;
         entry ← check_entry o;
         v ← strict_json original;
         ctx ← context s n;
         entry.2 v ctx) with
  | Ok (Some verdict) => verdict
  | Ok None => mkVerdict SUnknown (str "invalid_verifier_result") []
  | Raise _ => mkVerdict SUnknown (str "verifier_error")
                 (str "The host verifier could not establish this obligation.")
  end.

Definition source_t : Type := pystr.

(** The part of [_accept] after a passing verdict. *)
Definition commit (n : pystr) (value : json) (source : source_t) : M unit :=
  s ← sm_get;
  id ← sm_lift (identity s n);
  modern ← match id with
           | None => mret None
           | Some (name, revision, _) =>
               key ← sm_lift (cache_key_of s n);
               h ← sm_lift (digest value);
               ps ← sm_lift (parents s n);
               r ← sm_lift (StationReceipt_new n key h name revision (str "pass") ps unknown unknown);
               _ ← sm_mod (λ s, set_station (dset n r (h_station s)) s);
               mret (Some r)
           end;
  s ← sm_get;
  key ← sm_lift (cache_key_of s n);
  h ← sm_lift (digest value);
  o ← sm_lift (get_obligation n);
  entry ← sm_lift (check_entry o);
  sha ← sm_lift (digest (JDict (receipt_body key h (o_check o) entry.1)));
  let receipt := mkReceiptRec key h (o_check o) entry.1 sha in
  _ ← sm_mod (λ s, set_accepted (dset n value (h_accepted s)) (set_receipts (dset n receipt (h_receipts s)) s));
  _ ← sm_mod (λ s, set_failures (ddel n (h_failures s)) s);
  s ← sm_get;
  _ ← match h_cache s with
      | Some cache =>
          if bool_decide (source = str "cache") then mret tt
          else
            key ← sm_lift (cache_key_of s n);
            entry ← match modern with
                    | Some r => d ← sm_lift (receipt_to_dict r);
                                mret (jobj [("schema_version", JStr (str "residual.station.cache.entry.v1"));
                                            ("value", value); ("receipt", d)])
                    | None => mret value
                    end;
            cache ← sm_lift (Cache.put cache key entry);
            sm_mod (set_cache (Some cache))
      | None => mret tt
      end;
  _ ← log "obligation_accepted" [("obligation_id", JStr n); ("source", JStr source); ("receipt", receipt_json receipt)];
  match modern with
  | Some r => d ← sm_lift (receipt_to_dict r);
              log "station_receipt_issued" [("obligation_id", JStr n); ("receipt", d)]
  | None => mret tt
  end.

(** [_accept] *)
Definition accept (n : pystr) (value : json) (source : source_t) : M bool :=
  s ← sm_get;
  if dmem n (h_accepted s) then sm_raise (ContractError "accepted obligation cannot be overwritten")
  else
    started ← monotonic;
    let verdict := check_verdict s n value in
    ms ← since started;
    _ ← sm_mod (λ s, set_times (fadd (h_verification_ms s) ms) (h_solver_ms s) (h_tick s) s);
    _ ← log "verification" [("obligation_id", JStr n); ("source", JStr source);
                            ("status", JStr (status_str (v_status verdict))); ("code", JStr (v_code verdict))];
    if negb (bool_decide (v_status verdict = SPass)) then
      _ ← failure n (v_code verdict) (v_message verdict);
      mret false
    else
      original ← sm_lift (canonical value);
      value ← sm_lift (strict_json original);
      _ ← commit n value source;
      mret true.

(** ** [_packet] *)
Definition line_count (a : Artifact) : Z := Z.of_nat (length (artifact_lines a)).

(** [set().union( *(set(f(by_id[n])) for n in ids) )], sorted where it is used. *)
Definition union_of (f : Obligation → list pystr) (ids : list pystr) : res (gset pystr) :=
  ls ← mapM (λ n, o ← get_obligation n; Ok (f o)) ids; Ok (list_to_set (mjoin ls)).
Definition sorted_set (X : gset pystr) : list pystr := sort_str (elements X).

(** [{a for a in X if task.artifacts[a].cloud}] *)
Fixpoint only_cloud (l : list pystr) : res (list pystr) :=
  match l with
  | [] => Ok []
  | a :: l => art ← get_artifact a; rest ← only_cloud l; Ok (if a_cloud art then a :: rest else rest)
  end.

Definition windows_of (s : hstate) (p : Provider) (n a : pystr) : list (Z * Z) :=
  default [] (h_windows s !! (p_name p, n, a)).

(** Evidence intervals of one artifact. *)
Definition seed_evidence (s : hstate) (p : Provider) (ids : list pystr) (full : bool) (a : pystr)
    : res (list (pystr * Z * Z)) :=
  art ← get_artifact a;
  if full then Ok [(a, 1%Z, line_count art)]
  else
    let seed := if (seed_lines limits =? 0)%Z then [] else [(1%Z, Z.min (seed_lines limits) (line_count art))] in
    Ok ((λ iv, (a, iv.1, iv.2)) <$> merge_ (seed ++ mjoin ((λ n, windows_of s p n a) <$> ids))).

Definition excerpt_of (w : pystr * Z * Z) : res json :=
  art ← get_artifact w.1.1; excerpt art w.1.2 w.2.

(** [dependencies]: accepted values a worker may see. *)
Fixpoint visible_deps (s : hstate) (all_visible : bool) (l : list pystr) : res (list (pystr * (json * pystr))) :=
  match l with
  | [] => Ok []
  | d :: l =>
      visible ← (if all_visible then Ok true else cloud_allowed_res task d);
      if (visible : bool) then
        v ← dgetitem d (h_accepted s);
        r ← dgetitem d (h_receipts s);
        rest ← visible_deps s all_visible l;
        Ok ((d, (v, rc_sha256 r)) :: rest)
      else visible_deps s all_visible l
  end.

Definition manifest_entry (a : pystr) : res json :=
  art ← get_artifact a; h ← artifact_sha256 art;
  Ok (jobj [("artifact_id", JStr a); ("sha256", JStr h); ("line_count", JInt (line_count art))]).

Definition obligation_entry (n : pystr) : res json :=
  o ← get_obligation n;
  Ok (jobj [("id", JStr n); ("instruction", JStr (o_instruction o)); ("evidence_ids", json_strs (o_evidence o));
            ("depends_on", json_strs (o_depends_on o))]).

Definition failure_json (f : pystr * pystr) : json := jobj [("code", JStr f.1); ("message", JStr f.2)].

Definition packet_json (k : Packet) : res json :=
  obligations ← mapM obligation_entry (pk_ids k);
  manifest ← mapM manifest_entry (pk_manifest k);
  evidence ← mapM excerpt_of (pk_evidence k);
  Ok (jobj [("protocol", JStr (str "residual.packet.v1")); ("task_id", JStr (t_id task)); ("goal", JStr (t_goal task));
            ("obligations", JList obligations);
            ("accepted_dependencies",
              JDict ((λ '(d, (v, h)), (d, jobj [("value", v); ("receipt", JStr h)])) <$> pk_deps k));
            ("counterexamples", JDict ((λ nf, (nf.1, failure_json nf.2)) <$> pk_counterexamples k));
            ("manifest", JList manifest); ("evidence", JList evidence);
            ("request_limits", jobj [("max_lines", JInt (max_requested_lines limits));
                                     ("pull_enabled", JBool (negb (bool_decide (mode = MNoPull))))])]).

Definition is_full (role : Role) : bool :=
  bool_decide (role = RExpert) && bool_decide (mode ∈ [MFullCloud; MCascade]).
Definition scoping_mode : bool := bool_decide (mode ∈ [MResidual; MNoFeedback; MNoSolvers]).

(** [all(task.cloud_allowed(n) for n in ids)] *)
Definition all_public (ids : list pystr) : res bool := all_res (cloud_allowed_res task) ids.

(** The packet before the scoped-evidence heuristic, and the needed set. *)
Definition base_packet (s : hstate) (p : Provider) (ids : list pystr) (role : Role)
    : res (Packet * gset pystr) :=
  let remote := is_remote p in
  let full := is_full role in
  needed ← union_of o_evidence ids;
  local_public ← (if remote then Ok false else all_public ids);
  let artifact_ids := if full then list_to_set (t_artifacts task).*1 else needed in
  visible ← (if remote || local_public then only_cloud (sorted_set artifact_ids) else Ok (sorted_set artifact_ids));
  evidence ← mapM (seed_evidence s p ids full) visible;
  deps ← union_of o_depends_on ids;
  let deps := if full then list_to_set (h_accepted s).*1 else deps in
  dependencies ← visible_deps s (negb remote && negb local_public) (sorted_set deps);
  let counterexamples :=
    if bool_decide (mode = MNoFeedback) then []
    else omap (λ n, (λ f, (n, f)) <$> dget n (h_failures s)) ids in
  Ok (mkPacket ids dependencies counterexamples visible (mjoin evidence), needed).

(** [sum(len(text.encode()))] over the needed artifacts *)
Definition raw_size (needed : gset pystr) : res Z :=
  sizes ← mapM (λ a, art ← get_artifact a; b ← encode (a_text art); Ok (Z.of_nat (length b))) (sorted_set needed);
  Ok (foldr Z.add 0%Z sizes).

Definition with_evidence (k : Packet) (e : list (pystr * Z * Z)) : Packet :=
  mkPacket (pk_ids k) (pk_deps k) (pk_counterexamples k) (pk_manifest k) e.

Definition wire_bytes (p : Provider) (j : json) : res Z := Z.of_N <$> wire_size p j (max_output_tokens limits).

(** The heuristic: a small complete capsule replaces the seeded packet. *)
Definition scope_packet (s : hstate) (p : Provider) (k : Packet) (needed : gset pystr) : res (option Packet) :=
  j ← packet_json k;
  seed_size ← wire_bytes p j;
  raw ← raw_size needed;
  if (raw <=? 2 * seed_size)%Z then
    evidence ← mapM (λ a, art ← get_artifact a; Ok (a, 1%Z, line_count art)) (sorted_set needed);
    let scoped := with_evidence k evidence in
    j' ← packet_json scoped;
    scoped_size ← wire_bytes p j';
    let remaining := (max_remote_input_bytes limits - h_remote_bytes s)%Z in
    Ok (if (scoped_size <=? 2 * seed_size)%Z && (scoped_size <=? max_request_bytes limits)%Z
           && (negb (is_remote p) || (scoped_size <=? remaining)%Z)
        then Some scoped else None)
  else Ok None.

Definition packet (p : Provider) (ids : list pystr) (role : Role) : M Packet :=
  s ← sm_get;
  '(k, needed) ← sm_lift (base_packet s p ids role);
  _ ← sm_lift (packet_json k);
  scoped ← (if scoping_mode && bool_decide (role = RExpert)
            then sm_lift (scope_packet s p k needed) else mret None);
  let '(k, plan) := match scoped with
                    | Some k => (k, "inline_complete_scoped_evidence")
                    | None => (k, if is_full role then "full_context" else "seed_and_pull")
                    end in
  _ ← log "context_plan" [("role", JStr (role_str role)); ("plan", JStr (str plan)); ("obligation_ids", json_strs ids)];
  mret k.

(** ** [_request_evidence] *)
(** The denial code, or the merged windows to store. *)
Definition request_decision (s : hstate) (p : Provider) (r : Request) (o : Obligation)
    : res (string + list (Z * Z)) :=
  if bool_decide (mode = MNoPull) then Ok (inl "evidence_pull_disabled")
  else if negb (bool_decide (rq_artifact r ∈ o_evidence o)) then Ok (inl "undeclared_evidence")
  else
    art ← get_artifact (rq_artifact r);
    if is_remote p && negb (a_cloud art) then Ok (inl "private_evidence")
    else if (rq_end r <? rq_start r)%Z || (max_requested_lines limits <? rq_end r - rq_start r + 1)%Z
    then Ok (inl "evidence_window_limit")
    else if (line_count art <? rq_end r)%Z then Ok (inl "evidence_window_out_of_range")
    else
      let old := windows_of s p (rq_obligation r) (rq_artifact r) in
      let merged := merge_ (old ++ [(rq_start r, rq_end r)]) in
      Ok (if bool_decide (merged = old) then inl "evidence_already_supplied" else inr merged).

Definition request_evidence (p : Provider) (r : Request) : M unit :=
  s ← sm_get;
  if dmem (rq_obligation r) (h_accepted s) then mret tt
  else
    o ← sm_lift (get_obligation (rq_obligation r));
    d ← sm_lift (request_decision s p r o);
    match d with
    | inr merged =>
        _ ← sm_mod (λ s, set_windows (<[(p_name p, rq_obligation r, rq_artifact r) := merged]> (h_windows s)) s);
        art ← sm_lift (get_artifact (rq_artifact r));
        h ← sm_lift (artifact_sha256 art);
        log "evidence_requested"
          [("obligation_id", JStr (rq_obligation r)); ("artifact_id", JStr (rq_artifact r));
           ("start_line", JInt (rq_start r)); ("end_line", JInt (rq_end r)); ("artifact_sha256", JStr h)]
    | inl code =>
        _ ← failure (rq_obligation r) (str code)
              (str "Choose a permitted, unseen evidence interval within the request limits.");
        log "evidence_denied" [("obligation_id", JStr (rq_obligation r)); ("code", JStr (str code))]
    end.

(** ** [_work] *)
Definition fail_all (ns : list pystr) (code message : pystr) : M unit := sm_for ns (λ n, failure n code message).

(** [[n for n in l if task.cloud_allowed(n)]] *)
Fixpoint filter_res (f : pystr → res bool) (l : list pystr) : res (list pystr) :=
  match l with
  | [] => Ok []
  | n :: l => b ← f n; rest ← filter_res f l; Ok (if (b : bool) then n :: rest else rest)
  end.

(** The obligations of one round; those that may not leave are reported. *)
Definition round_ids (p : Provider) (ready : list pystr) : M (list pystr) :=
  s ← sm_get;
  let ids := filter (λ n, dmem n (h_accepted s) = false) ready in
  if is_remote p then
    _ ← sm_for ids (λ n,
          allowed ← sm_lift (cloud_allowed_res task n);
          if (allowed : bool) then mret tt
          else failure n (str "local_only") (str "This obligation or its dependencies cannot be sent remotely."));
    sm_lift (filter_res (cloud_allowed_res task) ids)
  else mret ids.

Definition over_budget (s : hstate) (p : Provider) (role : Role) (size : Z) : bool :=
  (max_calls limits <=? Z.of_nat (length (h_calls s)))%Z || (max_request_bytes limits <? size)%Z
  || (bool_decide (role = RExpert) && (max_expert_calls limits <=? h_expert_calls s)%Z)
  || (is_remote p && (max_remote_input_bytes limits <? h_remote_bytes s + size)%Z).

(** Reserve the call: budgets, the record and the ledger entry. *)
Definition reserve (p : Provider) (role : Role) (ids : list pystr) (k : Packet) (j : json) (size : Z) : M unit :=
  _ ← sm_mod (λ s, set_spent (if is_remote p then h_remote_bytes s + size else h_remote_bytes s)%Z
                             (if decide (role = RExpert) then h_expert_calls s + 1 else h_expert_calls s)%Z s);
  h ← sm_lift (digest j);
  _ ← sm_mod (λ s, set_calls (h_calls s ++ [mkCall role (p_name p) (placement p) ids size h None None None None]) s);
  _ ← log "call_reserved" [("role", JStr (role_str role)); ("provider", JStr (p_name p));
                           ("request_bytes", JInt size); ("packet_sha256", JStr h); ("obligation_ids", json_strs ids)];
  sm_mod (λ s, set_sent (h_sent s ++ [(p, k)]) s).

(** [record[...] = ...]: the record just appended. *)
Definition update_last (f : CallRecord → CallRecord) (l : list CallRecord) : list CallRecord :=
  match reverse l with [] => [] | c :: l => reverse (f c :: l) end.
Definition call_failed (code : pystr) (ms : float) (c : CallRecord) : CallRecord :=
  mkCall (cl_role c) (cl_provider c) (cl_placement c) (cl_obligation_ids c) (cl_request_bytes c)
    (cl_packet_sha256 c) (cl_usage c) (cl_cost_usd c) (Some (NFloat ms)) (Some code).
Definition call_done (u : Usage) (ms : num) (usd : option num) (c : CallRecord) : CallRecord :=
  mkCall (cl_role c) (cl_provider c) (cl_placement c) (cl_obligation_ids c) (cl_request_bytes c)
    (cl_packet_sha256 c) (Some u) usd (Some ms) (cl_error c).

Definition error_code (g : generated) : option pystr :=
  match g with
  | GReply _ => None
  | GNotReply => Some (str "invalid_reply_type")
  | GProviderError code => Some code
  | GException => Some (str "provider_exception")
  end.

(** A reply: accounting, protocol check, updates, evidence requests.
    [false] ends the rounds. *)
Definition handle_reply (p : Provider) (role : Role) (ids : list pystr) (r : Reply) : M bool :=
  _ ← sm_mod (λ s, set_calls (update_last (call_done (reply_usage r) (reply_elapsed_ms r) None) (h_calls s)) s);
  usd ← match prices p with Some pr => sm_lift (cost pr (reply_usage r)) | None => mret None end;
  _ ← sm_mod (λ s, set_calls (update_last (call_done (reply_usage r) (reply_elapsed_ms r) usd) (h_calls s)) s);
  h ← sm_lift (digest (JStr (reply_text r)));
  _ ← log "call_completed" [("role", JStr (role_str role)); ("usage", usage_dict (reply_usage r));
                            ("elapsed_ms", json_of_num (reply_elapsed_ms r)); ("response_sha256", JStr h);
                            ("finish_reason", json_opt_str (finish_reason r))];
  let parsed := if bool_decide (finish_reason r = Some (str "length") ∨ finish_reason r = Some (str "max_tokens"))
                then Raise (ContractError "truncated response") else parse_reply (reply_text r) ids in
  match parsed with
  | Raise _ =>
      _ ← fail_all ids (str "invalid_protocol") (str "Return exactly the documented updates/requests JSON object.");
      mret true
  | Ok (updates, requests) =>
      _ ← sm_for updates (λ nv, _ ← accept nv.1 nv.2 (role_str role); mret tt);
      _ ← sm_for requests (request_evidence p);
      match updates, requests with
      | [], [] =>
          _ ← fail_all ids (str "worker_abstained") (str "The worker returned no candidate or evidence request.");
          mret false
      | _, _ => mret true
      end
  end.

Definition call (p : Provider) (role : Role) (ids : list pystr) (k : Packet) (j : json) (size : Z) : M bool :=
  s ← sm_get;
  let g := generate p (length (h_calls s)) j (max_output_tokens limits) in
  _ ← reserve p role ids k j size;
  started ← monotonic;
  match g, error_code g with
  | GReply r, _ => handle_reply p role ids r
  | _, Some code =>
      let code := safe_code code in
      ms ← since started;
      _ ← sm_mod (λ s, set_calls (update_last (call_failed code ms) (h_calls s)) s);
      _ ← log "provider_failed" [("role", JStr (role_str role)); ("code", JStr code)];
      _ ← fail_all ids code (str "The provider call failed; no candidate was accepted.");
      mret true
  | _, None => mret true
  end.

(** One round; [false] is a [return]. *)
Definition work_round (p : Provider) (ready : list pystr) (role : Role) : M bool :=
  ids ← round_ids p ready;
  if bool_decide (ids = []) then mret false
  else
    k ← packet p ids role;
    j ← sm_lift (packet_json k);
    size ← sm_lift (wire_bytes p j);
    s ← sm_get;
    if over_budget s p role size then
      _ ← fail_all ids (str "budget_exhausted") (str "A call or request-body byte limit prevents the next request.");
      _ ← log "budget_blocked" [("role", JStr (role_str role)); ("request_bytes", JInt size)];
      mret false
    else call p role ids k j size.

Fixpoint work (rounds : nat) (p : Provider) (ready : list pystr) (role : Role) : M unit :=
  match rounds with
  | O => mret tt
  | S rounds =>
      go_on ← work_round p ready role;
      if (go_on : bool) then work rounds p ready role else mret tt
  end.

(** [_dispatch]: a local provider sees exportable and private work apart. *)
Definition dispatch (p : Provider) (ready : list pystr) (role : Role) (rounds : Z) : M unit :=
  let n := Z.to_nat rounds in
  if is_remote p then work n p ready role
  else
    public ← sm_lift (filter_res (cloud_allowed_res task) ready);
    private ← sm_lift (filter_res (λ n, negb <$> cloud_allowed_res task n) ready);
    _ ← work n p public role;
    work n p private role.

(** ** [run] *)
(** Cache first; [true] when the obligation was accepted from it. *)
Definition try_cache (n : pystr) : M bool :=
  s ← sm_get;
  match h_cache s with
  | None => mret false
  | Some cache =>
      key ← sm_lift (cache_key_of s n);
      match Cache.get cache key with
      | None => mret false
      | Some entry =>
          id ← sm_lift (identity s n);
          candidate ← match id with
                      | Some _ => sm_lift (cached_candidate s n entry)
                      | None => mret (Some entry)
                      end;
          match candidate with
          | None => mret false
          | Some value =>
              ok ← accept n value (str "cache");
              if (ok : bool) then
                _ ← sm_mod (λ s, set_counts (h_cache_hits s + 1) (h_deterministic s) s);
                mret true
              else mret false
          end
      end
  end.

(** [o.solver], unless empty or disabled by the mode *)
Definition solver_of (o : Obligation) : option pystr :=
  match o_solver o with
  | Some name => if bool_decide (name = []) || bool_decide (mode ∈ [MFullCloud; MNoSolvers]) then None else Some name
  | None => None
  end.

Definition add_solver_ms (started : float) : M unit :=
  ms ← since started;
  sm_mod (λ s, set_times (h_verification_ms s) (fadd (h_solver_ms s) ms) (h_tick s) s).

Definition try_solver (n : pystr) (name : pystr) : M unit :=
  started ← monotonic;
  s ← sm_get;
  match (f ← dgetitem name (solvers registry); ctx ← context s n; f ctx) with
  | Raise _ =>
      _ ← failure n (str "solver_error") (str "The local solver failed; use the declared evidence.");
      add_solver_ms started
  | Ok value =>
      _ ← add_solver_ms started;
      ok ← accept n value (str "deterministic");
      if (ok : bool) then sm_mod (λ s, set_counts (h_cache_hits s) (h_deterministic s + 1) s) else mret tt
  end.

Definition prepare_node (n : pystr) : M unit :=
  cached ← try_cache n;
  if (cached : bool) then mret tt
  else
    o ← sm_lift (get_obligation n);
    match solver_of o with
    | Some name => try_solver n name
    | None => mret tt
    end.

Definition ready_ids (s : hstate) (attempted : list pystr) : list pystr :=
  ids (filter (λ o, dmem (o_id o) (h_accepted s) = false ∧ ¬ (o_id o ∈ attempted) ∧
                    forallb (λ d, dmem d (h_accepted s)) (o_depends_on o) = true) (t_obligations task)).

Fixpoint run_loop (fuel : nat) (attempted : list pystr) : M unit :=
  match fuel with
  | O => sm_lift out_of_fuel
  | S fuel =>
      s ← sm_get;
      match ready_ids s attempted with
      | [] => mret tt
      | ready =>
          _ ← sm_for ready prepare_node;
          _ ← match local with
              | Some p => if bool_decide (mode = MFullCloud) then mret tt
                          else dispatch p ready RLocal (local_rounds limits)
              | None => mret tt
              end;
          _ ← match expert with
              | Some p => if bool_decide (mode = MLocalOnly) then mret tt
                          else dispatch p ready RExpert (expert_rounds limits)
              | None => mret tt
              end;
          run_loop fuel (attempted ++ ready)
      end
  end.

Definition check_registered : res unit :=
  for_all (t_obligations task) (λ o,
    when negb (dmem (o_check o) (checks registry))
         || match o_solver o with
            | Some name => negb (bool_decide (name = [])) && negb (dmem name (solvers registry))
            | None => false
            end
    raise ContractError "unregistered verifier or solver";; Ok tt).

(** ** The result *)
Definition missing_deps (s : hstate) (o : Obligation) : list pystr :=
  filter (λ d, dmem d (h_accepted s) = false) (o_depends_on o).
Definition unresolved_entry (s : hstate) (o : Obligation) : json :=
  match missing_deps s o with
  | [] => match dget (o_id o) (h_failures s) with
          | Some f => failure_json f
          | None => jobj [("code", JStr (str "no_verified_candidate"))]
          end
  | missing => jobj [("code", JStr (str "dependency_blocked")); ("dependencies", json_strs missing)]
  end.
Definition unresolved (s : hstate) : dict json :=
  dict_of ((λ o, (o_id o, unresolved_entry s o))
           <$> filter (λ o, dmem (o_id o) (h_accepted s) = false) (t_obligations task)).

Definition remote_calls (s : hstate) : list CallRecord := filter (λ c, cl_placement c = Remote) (h_calls s).
Definition reported_usage (c : CallRecord) : option (Z * Z) :=
  match cl_usage c with
  | Some u => if bool_decide (u_source u = str "reported") then
                match input_tokens u, output_tokens u with Some i, Some o => Some (i, o) | _, _ => None end
              else None
  | None => None
  end.

(** Calls whose obligations meet those of an earlier call. *)
Fixpoint repeated_dispatches (seen : gset pystr) (l : list CallRecord) : Z :=
  match l with
  | [] => 0%Z
  | c :: l =>
      ((if existsb (λ n, bool_decide (n ∈ seen)) (cl_obligation_ids c) then 1 else 0)
       + repeated_dispatches (seen ∪ list_to_set (cl_obligation_ids c)) l)%Z
  end.

Definition is_rejection (e : Event) : bool :=
  bool_decide (e_kind e = str "verification")
  && negb (match dget (str "status") (e_data e) with Some v => py_eq v (JStr (str "pass")) | None => false end).

Definition is_blocked (v : json) : bool :=
  match v with
  | JDict d => match dget (str "code") d with Some c => py_eq c (JStr (str "dependency_blocked")) | None => false end
  | _ => false
  end.

(** [float_sum] is [sum] of a list of costs: its rounding depends on the
    interpreter version. *)
Definition metrics (float_sum : list num → num) (s : hstate) (elapsed : float) : json :=
  let remote := remote_calls s in
  let reported := omap reported_usage remote in
  let priced := omap cl_cost_usd remote in
  jobj [("calls", JInt (Z.of_nat (length (h_calls s)))); ("expert_calls", JInt (h_expert_calls s));
        ("remote_calls", JInt (Z.of_nat (length remote))); ("remote_request_bytes", JInt (h_remote_bytes s));
        ("remote_input_tokens_reported", JInt (foldr Z.add 0%Z reported.*1));
        ("remote_output_tokens_reported", JInt (foldr Z.add 0%Z reported.*2));
        ("remote_usage_complete", JBool (length reported =? length remote)%nat);
        ("remote_cost_usd", if (length priced =? length remote)%nat then json_of_num (float_sum priced) else JNull);
        ("remote_cost_known_subtotal_usd", json_of_num (float_sum priced));
        ("cache_hits", JInt (h_cache_hits s)); ("deterministic_accepts", JInt (h_deterministic s));
        ("accepted_obligations", JInt (Z.of_nat (length (h_accepted s))));
        ("total_obligations", JInt (Z.of_nat (length (t_obligations task))));
        ("verification_elapsed_ms", JFloat (h_verification_ms s)); ("solver_elapsed_ms", JFloat (h_solver_ms s));
        ("structural_elapsed_ms", JFloat fzero); ("structural_search_nodes", JInt 0);
        ("structural_unsat_groups", JInt 0);
        ("dependency_blocked_obligations",
          JInt (Z.of_nat (length (filter (λ kv, is_blocked kv.2 = true) (unresolved s)))));
        ("candidate_rejections",
          JInt (Z.of_nat (length (filter (λ e, is_rejection e = true) (l_events (h_ledger s))))));
        ("repeated_dispatch_calls", JInt (repeated_dispatches ∅ (h_calls s)));
        ("elapsed_ms", JFloat elapsed)].

Definition success (s : hstate) : bool := bool_decide (length (unresolved s) = 0).
Definition status (s : hstate) : pystr :=
  if success s then str "passed"
  else if bool_decide (length (h_accepted s) = 0) then str "blocked" else str "partial".

Record RunReport : Type := mkRunReport { run_result : dict json; run_success : bool; trace_root : pystr }.

Definition result_dict (float_sum : list num → num) (s : hstate) (station : dict json) (elapsed : float) : dict json :=
  [(str "schema_version", JStr (str "residual.run.v1")); (str "task_id", JStr (t_id task));
   (str "mode", JStr (mode_str mode)); (str "status", JStr (status s)); (str "success", JBool (success s));
   (str "values", JDict (h_accepted s)); (str "unresolved", JDict (unresolved s));
   (str "receipts", JDict ((λ kv, (kv.1, receipt_json kv.2)) <$> h_receipts s));
   (str "station_receipts", JDict station); (str "metrics", metrics float_sum s elapsed);
   (str "calls", JList (call_json <$> h_calls s))].

(** The attributes [run] resets; the cache lives on. *)
Definition reset (s : hstate) : hstate :=
  mkH [] [] [] [] ∅ [] Ledger_new (h_cache s) 0 0 0 0 fzero fzero (h_tick s) [].

Definition run (float_sum : list num → num) : M RunReport :=
  start ← monotonic;
  _ ← sm_mod reset;
  _ ← sm_lift check_registered;
  hashes ← sm_lift (artifact_hashes (t_artifacts task).*1);
  _ ← log "run_started" [("run_id", JStr run_id); ("task_id", JStr (t_id task)); ("mode", JStr (mode_str mode));
                         ("limits", limits_dict limits); ("artifact_hashes", json_dict_strs hashes)];
  _ ← run_loop (S (length (t_obligations task))) [];
  s ← sm_get;
  station ← sm_lift (mapM (λ kr, d ← receipt_to_dict kr.2; Ok (kr.1, d)) (h_station s));
  elapsed ← since start;
  let result := result_dict float_sum s station elapsed in
  h ← sm_lift (digest (JDict result));
  _ ← log "run_finished" [("result_sha256", JStr h); ("success", JBool (success s))];
  s' ← sm_get;
  mret (mkRunReport result (success s) (l_head (h_ledger s'))).
End harness.
