(* ===== verification/EngineFacts.v ===== *)
(** * Correctness of the residual engine

    One invariant of the run state carries the main guarantees: every accepted
    value was passed by its registered check in a context whose dependencies
    are accepted, accepted values are never replaced, budgets are respected,
    nothing private is sent to a remote provider, and the ledger is a chain.
    Every operation preserves it on its normal and its exceptional exit. *)

From Stdlib Require Import ZArith NArith Lia SpecFloat.
From S2P Require Import Prelude PyData Sha256 PyFloat Json JsonFacts Core CoreFacts Storage Receipts Builtins GoalSpec Providers Engine.

(** ** Preservation rules that keep the facts a branch learned *)
Section rules.
Context {S A B : Type} (I : S → Prop).

Lemma preserves_lift_bind (r : res A) (f : A → SM S B) :
  (∀ a, r = Ok a → preserves I (f a)) → preserves I (sm_lift r ≫= f).
Proof.
  intros Hf s Hs. unfold mbind, SM_bind, sm_lift. destruct r as [a|e]; [by apply Hf|done].
Qed.

Lemma preserves_get_bind (f : S → SM S B) :
  (∀ s, I s → triple (λ s', s' = s) (f s) (λ _, I) (λ _, I)) → preserves I (sm_get ≫= f).
Proof. intros Hf s Hs. unfold mbind, SM_bind, sm_get. by apply Hf. Qed.

Lemma triple_at (m : SM S A) s (Q : A → S → Prop) E :
  (∀ s', s' = s → match m s' with (Ok a, s'') => Q a s'' | (Raise e, s'') => E e s'' end) →
  triple (λ s', s' = s) m Q E.
Proof. done. Qed.

Lemma triple_lift_bind P (r : res A) (f : A → SM S B) Q :
  (∀ s, P s → I s) → (∀ a, r = Ok a → triple P (f a) Q (λ _, I)) →
  triple P (sm_lift r ≫= f) Q (λ _, I).
Proof.
  intros HP Hf s Hs. unfold mbind, SM_bind, sm_lift. destruct r as [a|e]; [by apply Hf|by apply HP].
Qed.

Lemma preserves_state (m : SM S A) : (∀ s, I s → I (m s).2) → preserves I m.
Proof. intros Hm s Hs. specialize (Hm s Hs). by destruct (m s) as [[]]. Qed.

Lemma preserves_snd (m : SM S A) s : preserves I m → I s → I (m s).2.
Proof. intros Hm Hs. specialize (Hm s Hs). by destruct (m s) as [[]]. Qed.

Lemma state_bind (m : SM S A) (f : A → SM S B) s :
  I (m s).2 → (∀ a, preserves I (f a)) → I ((m ≫= f) s).2.
Proof.
  intros Hm Hf. unfold mbind, SM_bind. destruct (m s) as [[a|e] s1]; [|done].
  specialize (Hf a s1 Hm). by destruct (f a s1) as [[]].
Qed.

Lemma state_bind_Ok (m : SM S A) (f : A → SM S B) s :
  I (m s).2 → (∀ a s1, m s = (Ok a, s1) → I s1 → I (f a s1).2) → I ((m ≫= f) s).2.
Proof.
  intros Hm Hf. unfold mbind, SM_bind. destruct (m s) as [[a|e] s1] eqn:E; [|done]. by apply Hf.
Qed.

Lemma get_bind (f : S → SM S B) s : (sm_get ≫= f) s = f s s.
Proof. done. Qed.

(** Strengthen the invariant with a fact of the current state. *)
Lemma preserves_weaken (J : S → Prop) (m : SM S A) s :
  preserves J m → J s → (∀ s', J s' → I s') → triple (λ s', s' = s) m (λ _, I) (λ _, I).
Proof.
  intros Hm Hs HJ s' E. subst s'. specialize (Hm s Hs). destruct (m s) as [[a|e] s1]; by apply HJ.
Qed.
End rules.

Section engine.
Context (registry : Registry) (local expert : option Provider) (limits : Limits) (mode : Mode) (task : Task).
Context (mono wall : nat → Z) (run_id : pystr).
Context (Htask : task_ok task).
Set Default Proof Using "All".

Abbreviation tasks := (tasks task).
Abbreviation log := (log wall).
Abbreviation failure := (failure wall).
Abbreviation commit := (commit registry task wall).
Abbreviation accept := (accept registry task mono wall).

(** ** The invariant *)
Definition sub (d e : dict json) : Prop := ∀ n v, dget n d = Some v → dget n e = Some v.

(** The check registered for [n] passed on exactly [v], in a context of
    accepted values that covers the dependencies of [n]. *)
Definition check_passed (acc : dict json) (n : pystr) (v : json) : Prop :=
  ∃ o rev f vd, dget n tasks = Some o ∧ dget (o_check o) (checks registry) = Some (rev, f) ∧
    (∀ d, d ∈ o_depends_on o → is_Some (dget d acc)) ∧
    f v (mkContext o (t_artifacts task) acc) = Ok (Some vd) ∧ v_status vd = SPass.

Definition justified (s : hstate) (n : pystr) (v : json) : Prop :=
  (∃ acc, sub acc (h_accepted s) ∧ check_passed acc n v) ∧
  ∃ r, dget n (h_receipts s) = Some r ∧ digest v = Ok (rc_value_sha256 r).

Definition node_ready (s : hstate) (n : pystr) : Prop :=
  ∃ o, dget n tasks = Some o ∧ ∀ d, d ∈ o_depends_on o → is_Some (dget d (h_accepted s)).

(** What a provider may be shown. *)
Definition artifact_public (a : pystr) : Prop :=
  ∃ art, dget a (t_artifacts task) = Some art ∧ a_cloud art = true.
Definition public (n : pystr) : Prop := cloud_allowed task n = true.

Definition packet_ok (s : hstate) (pk : Provider * Packet) : Prop :=
  let k := pk.2 in
  (is_remote pk.1 = true → Forall public (pk_ids k)) ∧
  (Forall public (pk_ids k) →
     Forall artifact_public (pk_manifest k) ∧ Forall (λ w, artifact_public w.1.1) (pk_evidence k) ∧
     Forall (λ d, public d.1) (pk_deps k)) ∧
  Forall (λ d, dget d.1 (h_accepted s) = Some d.2.1) (pk_deps k).

Definition remote_bytes_of (l : list CallRecord) : Z :=
  foldr Z.add 0%Z (cl_request_bytes <$> filter (λ c, cl_placement c = Remote) l).
Definition expert_calls_of (l : list CallRecord) : Z := Z.of_nat (length (filter (λ c, cl_role c = RExpert) l)).

Record budgets_ok (s : hstate) : Prop := {
  b_calls : (Z.of_nat (length (h_calls s)) <= max_calls limits)%Z;
  b_expert : (expert_calls_of (h_calls s) <= h_expert_calls s <= max_expert_calls limits)%Z;
  b_remote : (remote_bytes_of (h_calls s) <= h_remote_bytes s <= max_remote_input_bytes limits)%Z;
  b_request : Forall (λ c, (cl_request_bytes c <= max_request_bytes limits)%Z) (h_calls s);
  b_sent : length (h_sent s) ≤ length (h_calls s)
}.

(** [ns] are the obligations being worked on, [acc0] what was accepted and
    what the ledger held before. *)
Record inv (ns : list pystr) (acc0 : dict json * list Event) (s : hstate) : Prop := {
  i_mono : sub acc0.1 (h_accepted s);
  i_prefix : acc0.2 `prefix_of` l_events (h_ledger s);
  i_ready : ∀ n, n ∈ ns → node_ready s n;
  i_wf : wf_dict (h_accepted s);
  i_justified : ∀ n v, dget n (h_accepted s) = Some v → justified s n v;
  i_budgets : budgets_ok s;
  i_sent : Forall (packet_ok s) (h_sent s);
  i_ledger : ledger_wf (h_ledger s)
}.

(** Operations that leave the tracked fields alone. *)
Record same_core (s s' : hstate) : Prop := {
  sc_accepted : h_accepted s' = h_accepted s;
  sc_receipts : h_receipts s' = h_receipts s;
  sc_calls : h_calls s' = h_calls s;
  sc_remote : h_remote_bytes s' = h_remote_bytes s;
  sc_expert : h_expert_calls s' = h_expert_calls s;
  sc_sent : h_sent s' = h_sent s;
  sc_ledger : ledger_wf (h_ledger s) → ledger_wf (h_ledger s');
  sc_prefix : l_events (h_ledger s) `prefix_of` l_events (h_ledger s')
}.

Lemma same_core_inv ns acc0 s s' : same_core s s' → inv ns acc0 s → inv ns acc0 s'.
Proof.
  intros [E1 E2 E3 E4 E5 E6 E7 E8] [H1 H0 H2 H3 H4 [B1 B2 B3 B4 B5] H6 H7]. split.
  - by rewrite E1.
  - by etrans.
  - intros n Hn. destruct (H2 n Hn) as (o & Ho & Hd). exists o. by rewrite E1.
  - by rewrite E1.
  - intros n v Hv. rewrite E1 in Hv. destruct (H4 n v Hv) as [Ha Hr]. unfold justified. by rewrite E1, E2.
  - split; by rewrite ?E3, ?E4, ?E5, ?E6.
  - rewrite E6. eapply Forall_impl; [exact H6|]. intros pk. unfold packet_ok. by rewrite E1.
  - auto.
Qed.

(** Computations all of whose effects are outside the core. *)
Definition quiet {A} (m : M A) : Prop := ∀ s, same_core s (m s).2.

Lemma same_core_refl s : same_core s s.
Proof. done. Qed.
Lemma same_core_trans s t u : same_core s t → same_core t u → same_core s u.
Proof. intros [] []. split; try congruence; [auto|]. by etrans. Qed.

Lemma quiet_ret {A} (a : A) : quiet (mret a).
Proof. intros s. apply same_core_refl. Qed.
Lemma quiet_lift {A} (r : res A) : quiet (sm_lift r).
Proof. intros s. apply same_core_refl. Qed.
Lemma quiet_get : quiet sm_get.
Proof. intros s. apply same_core_refl. Qed.
Lemma quiet_bind {A C} (m : M A) (f : A → M C) : quiet m → (∀ a, quiet (f a)) → quiet (m ≫= f).
Proof.
  intros Hm Hf s. specialize (Hm s). unfold mbind, SM_bind. destruct (m s) as [[a|e] s1]; [|done].
  eapply same_core_trans; [exact Hm|apply Hf].
Qed.
Lemma quiet_mod f : (∀ s, same_core s (f s)) → quiet (sm_mod f).
Proof. done. Qed.
Lemma quiet_for {A} (l : list A) body : (∀ x, quiet (body x)) → quiet (sm_for l body).
Proof. intros Hb. induction l as [|x l IH]; cbn; [apply quiet_ret|]. apply quiet_bind; auto. Qed.
Lemma quiet_monotonic : quiet (monotonic mono).
Proof. intros s. done. Qed.
Lemma quiet_since t : quiet (since mono t).
Proof. apply quiet_bind; [apply quiet_monotonic|]. intros. apply quiet_ret. Qed.

Lemma quiet_log kind data : quiet (log kind data).
Proof.
  intros s. unfold Engine.log, mbind, SM_bind, sm_get, sm_lift.
  destruct (Ledger_add _ _ _ _) as [l|e] eqn:E; [|apply same_core_refl].
  split; try done; cbn; [intros Hwf; by eapply Ledger_add_wf|].
  unfold Ledger_add in E. apply bind_Ok in E as (h & _ & [= <-]). by eexists.
Qed.
Lemma quiet_failure n c m : quiet (failure n c m).
Proof. apply quiet_bind; [by apply quiet_mod|]. intros. apply quiet_log. Qed.

Lemma quiet_preserves {A} ns acc0 (m : M A) : quiet m → preserves (inv ns acc0) m.
Proof.
  intros Hq s Hs. specialize (Hq s). destruct (m s) as [[a|e] s1]; by eapply same_core_inv.
Qed.

(** ** Accepting a value *)
Definition inv_at (ns : list pystr) (acc0 : dict json * list Event) (acc : dict json) (s : hstate) : Prop :=
  inv ns acc0 s ∧ h_accepted s = acc.

Lemma quiet_at {A} ns acc0 acc (m : M A) : quiet m → preserves (inv_at ns acc0 acc) m.
Proof.
  intros Hq s [Hs E]. specialize (Hq s). destruct (m s) as [[a|e] s1]; (split; [by eapply same_core_inv|]);
    exact (eq_trans (sc_accepted _ _ Hq) E).
Qed.

Lemma inv_accept ns acc0 acc s n v r :
  inv_at ns acc0 acc s → dget n acc = None → check_passed acc n v → digest v = Ok (rc_value_sha256 r) →
  inv ns acc0 (set_accepted (dset n v (h_accepted s)) (set_receipts (dset n r (h_receipts s)) s)).
Proof.
  intros [[H1 H0 H2 H3 H4 H5 H6 H7] E] Hn Hc Hd. subst acc.
  assert (Hsub : sub (h_accepted s) (dset n v (h_accepted s))).
  { intros m w Hm. rewrite dget_dset_ne; [done|]. intros ->. congruence. }
  split; cbn; try done.
  - intros m w Hm. by apply Hsub, H1.
  - intros m Hm. destruct (H2 m Hm) as (o & Ho & Hdeps). exists o. split; [done|]. intros d Hd'.
    destruct (Hdeps d Hd') as [w Hw]. exists w. cbn. by apply Hsub.
  - by apply wf_dset.
  - intros m w Hm. unfold justified. cbn. rewrite dget_dset in Hm. rewrite dget_dset. case_decide as En.
    + injection Hm as <-. subst m. split; [|by exists r]. by exists (h_accepted s).
    + destruct (H4 m w Hm) as [(acc & Hacc & Hp) Hr]. split; [|done]. exists acc. split; [|done].
      intros d x Hx. by apply Hsub, Hacc.
  - by destruct H5.
  - eapply Forall_impl; [exact H6|]. intros pk (P1 & P2 & P3). split_and!; try done.
    eapply Forall_impl; [exact P3|]. intros d Hd'. cbn in *. by apply Hsub.
Qed.

Lemma commit_ok ns acc0 acc n v src :
  dget n acc = None → check_passed acc n v →
  triple (inv_at ns acc0 acc) (commit n v src) (λ _, inv ns acc0) (λ _, inv ns acc0).
Proof.
  intros Hn Hc. unfold Engine.commit.
  assert (HJ : ∀ s, inv_at ns acc0 acc s → inv ns acc0 s) by (by intros s []).
  assert (HQ : ∀ A (m : M A), quiet m → triple (inv_at ns acc0 acc) m (λ _, inv_at ns acc0 acc) (λ _, inv ns acc0)).
  { intros A m Hm. eapply triple_conseq; [by apply (quiet_at ns acc0 acc)|done|done|]. auto. }
  eapply triple_bind; [apply HQ, quiet_get|]. intros s0. apply triple_lift_bind; [done|]. intros id _.
  eapply triple_bind; [apply HQ|].
  { destruct id as [[[name rev] ct]|]; [|apply quiet_ret].
    do 4 (apply quiet_bind; [apply quiet_lift|]; intros). apply quiet_bind; [by apply quiet_mod|].
    intros. apply quiet_ret. }
  intros modern. eapply triple_bind; [apply HQ, quiet_get|]. intros s1.
  apply triple_lift_bind; [done|]. intros key _. apply triple_lift_bind; [done|]. intros h Hh.
  apply triple_lift_bind; [done|]. intros o _. apply triple_lift_bind; [done|]. intros entry _.
  apply triple_lift_bind; [done|]. intros sha _. cbv zeta.
  eapply triple_bind with (R := λ _, inv ns acc0).
  { intros s Hs. cbn. by eapply inv_accept. }
  intros _. apply quiet_preserves. apply quiet_bind; [by apply quiet_mod|]. intros.
  apply quiet_bind; [apply quiet_get|]. intros s2. apply quiet_bind.
  { destruct (h_cache s2); [|apply quiet_ret]. destruct (bool_decide _); [apply quiet_ret|].
    apply quiet_bind; [apply quiet_lift|]. intros. apply quiet_bind.
    { destruct modern; [apply quiet_bind; [apply quiet_lift|]; intros|]; apply quiet_ret. }
    intros. apply quiet_bind; [apply quiet_lift|]. intros. by apply quiet_mod. }
  intros. apply quiet_bind; [apply quiet_log|]. intros.
  destruct modern; [apply quiet_bind; [apply quiet_lift|]; intros; apply quiet_log|apply quiet_ret].
Qed.

Lemma check_verdict_pass s n value :
  v_status (check_verdict registry task s n value) = SPass →
  ∃ original v o rev f vd, canonical value = Ok original ∧ strict_json original = Ok v ∧
    dget n tasks = Some o ∧ dget (o_check o) (checks registry) = Some (rev, f) ∧
    f v (mkContext o (t_artifacts task) (h_accepted s)) = Ok (Some vd) ∧ v_status vd = SPass.
Proof.
  unfold check_verdict. destruct (canonical value) as [original|]; cbn; [|done].
  unfold context, get_obligation. destruct (dgetitem n tasks) as [o|] eqn:Ho; cbn; [|done].
  unfold check_entry. destruct (dgetitem (o_check o) (checks registry)) as [[rev f]|] eqn:Hf; cbn; [|done].
  destruct (strict_json original) as [v|] eqn:Hv; cbn; [|done].
  destruct (f v _) as [[vd|]|] eqn:Hfv; cbn; try done. intros Hp.
  apply dgetitem_Ok in Ho, Hf. exists original, v, o, rev, f, vd. done.
Qed.

Lemma accept_ok ns acc0 n value src : n ∈ ns → preserves (inv ns acc0) (accept n value src).
Proof.
  intros Hn. unfold Engine.accept. apply preserves_get_bind. intros s Hs.
  destruct (dmem n (h_accepted s)) eqn:Hm.
  { intros s' E. subst s'. exact Hs. }
  eapply triple_conseq with (P' := inv_at ns acc0 (h_accepted s)) (Q' := λ _, inv ns acc0) (E' := λ _, inv ns acc0);
    [|intros s' E; by subst s'|done|done].
  assert (HJ : ∀ s', inv_at ns acc0 (h_accepted s) s' → inv ns acc0 s') by (by intros s' []).
  assert (HQ : ∀ A (m : M A), quiet m →
    triple (inv_at ns acc0 (h_accepted s)) m (λ _, inv_at ns acc0 (h_accepted s)) (λ _, inv ns acc0)).
  { intros A m Hq. eapply triple_conseq; [by apply (quiet_at ns acc0 (h_accepted s))|done|done|]. auto. }
  eapply triple_bind; [apply HQ, quiet_monotonic|]. intros t0. cbv zeta.
  eapply triple_bind; [apply HQ, quiet_since|]. intros ms. eapply triple_bind; [apply HQ; by apply quiet_mod|].
  intros ?. eapply triple_bind; [apply HQ, quiet_log|]. intros ?. case_bool_decide as Hp; cbn [negb].
  - destruct (check_verdict_pass s n value Hp) as (orig & v & o & rev & f & vd & Hc & Hv & Ho & Hf & Hfv & Hvd).
    apply triple_lift_bind; [done|]. intros orig' E. apply triple_lift_bind; [done|]. intros v' E'.
    assert (orig' = orig) as -> by congruence. assert (v' = v) as -> by congruence.
    eapply triple_bind; [|intros ?; by apply (quiet_preserves _ _ (mret true)), quiet_ret].
    apply commit_ok; [unfold dmem in Hm; by destruct (dget n (h_accepted s))|].
    destruct (i_ready _ _ _ Hs n Hn) as (o' & Ho' & Hd). assert (o' = o) as -> by congruence.
    by exists o, rev, f, vd.
  - eapply triple_conseq; [apply (quiet_preserves ns acc0)|apply HJ|done|done].
    apply quiet_bind; [apply quiet_failure|]. intros. apply quiet_ret.
Qed.

(** ** Packets *)
Lemma public_node n : public n → n ∈ ids (t_obligations task) → node_cloud task n.
Proof. intros Hp Hn. apply (cloud_allowed_iff task n Htask Hn); [done|constructor]. Qed.

Lemma tasks_ids n o : dget n tasks = Some o → n ∈ ids (t_obligations task).
Proof.
  intros Ho. apply dget_by_id in Ho as [Hin <-]; [|apply Htask]. by apply list_elem_of_fmap_2.
Qed.

Lemma public_evidence n o a : public n → dget n tasks = Some o → a ∈ o_evidence o → artifact_public a.
Proof.
  intros Hp Ho Ha. destruct (public_node n Hp (tasks_ids _ _ Ho)) as (o' & Ho' & _ & Hev).
  unfold Engine.tasks in Ho. assert (o' = o) as -> by congruence. by apply Hev.
Qed.

Lemma union_of_elem f ns X a :
  union_of task f ns = Ok X → a ∈ X → ∃ n o, n ∈ ns ∧ dget n tasks = Some o ∧ a ∈ f o.
Proof.
  unfold union_of. intros Hu Ha. apply bind_Ok in Hu as (ls & Hls & [= <-]).
  apply elem_of_list_to_set, list_elem_of_join in Ha as (l & Ha & Hl).
  apply mapM_res_Ok in Hls. apply list_elem_of_lookup in Hl as [i Hi].
  destruct (Forall2_lookup_r _ _ _ _ _ Hls Hi) as (n & Hn & Hf).
  apply bind_Ok in Hf as (o & Ho & [= <-]). apply dgetitem_Ok in Ho.
  exists n, o. split_and!; [by eapply list_elem_of_lookup_2|done|done].
Qed.

Lemma elem_of_sorted_set X a : a ∈ sorted_set X ↔ a ∈ X.
Proof. unfold sorted_set. rewrite elem_of_sort_by. apply elem_of_elements. Qed.

Lemma only_cloud_public l r : only_cloud task l = Ok r → Forall artifact_public r.
Proof.
  revert r. induction l as [|a l IH]; intros r Hr; cbn in Hr.
  - injection Hr as <-. constructor.
  - apply bind_Ok in Hr as (art & Hart & Hr). apply bind_Ok in Hr as (rest & Hrest & [= <-]).
    apply IH in Hrest. destruct (a_cloud art) eqn:Hc; [|done]. constructor; [|done].
    apply dgetitem_Ok in Hart. by exists art.
Qed.

Lemma all_public_true ns :
  Forall public ns → Forall (λ n, n ∈ ids (t_obligations task)) ns → all_public task ns = Ok true.
Proof.
  unfold all_public. induction 1 as [|n ns Hn _ IH]; intros Hids; [done|]. apply Forall_cons in Hids as [Hi Hids].
  cbn [all_res]. rewrite cloud_allowed_total by done. unfold public in Hn. rewrite Hn. by apply IH.
Qed.

Lemma visible_deps_ok s vis l r :
  visible_deps task s vis l = Ok r →
  Forall (λ d, dget d.1 (h_accepted s) = Some d.2.1) r ∧ (vis = false → Forall (λ d, public d.1) r).
Proof.
  revert r. induction l as [|d l IH]; intros r Hr; cbn [visible_deps] in Hr.
  - injection Hr as <-. by split.
  - apply bind_Ok in Hr as (b & Hb & Hr). destruct b.
    + apply bind_Ok in Hr as (v & Hv & Hr). apply bind_Ok in Hr as (rc & _ & Hr).
      apply bind_Ok in Hr as (rest & Hrest & [= <-]). apply IH in Hrest as [IH1 IH2].
      apply dgetitem_Ok in Hv. split; [by constructor|]. intros ->. constructor; [|by apply IH2].
      unfold public, cloud_allowed. cbn [fst]. by rewrite Hb.
    + by apply IH.
Qed.

Lemma seed_evidence_artifact s p ns full a ws :
  seed_evidence limits task s p ns full a = Ok ws → Forall (λ w, w.1.1 = a) ws.
Proof.
  unfold seed_evidence. intros Hw. apply bind_Ok in Hw as (art & _ & Hw). destruct full; injection Hw as <-.
  - by repeat constructor.
  - apply Forall_fmap. apply Forall_true. done.
Qed.

Lemma mapM_artifacts {F : pystr → res (list (pystr * Z * Z))} l r :
  (∀ a ws, F a = Ok ws → Forall (λ w, w.1.1 = a) ws) → Forall artifact_public l → mapM F l = Ok r →
  Forall (λ w, artifact_public w.1.1) (mjoin r).
Proof.
  intros HF Hl Hm. apply mapM_res_Ok in Hm. induction Hm as [|a ws l r Ha Hm IH]; cbn; [constructor|].
  apply Forall_cons in Hl as [Hpa Hl]. apply Forall_app. split; [|by apply IH].
  eapply Forall_impl; [by apply HF|]. intros w ->. done.
Qed.

Lemma base_packet_ok s p ns role k needed :
  base_packet limits mode task s p ns role = Ok (k, needed) →
  (is_remote p = true → Forall public ns) → Forall (λ n, n ∈ ids (t_obligations task)) ns →
  pk_ids k = ns ∧ packet_ok s (p, k) ∧ (Forall public ns → ∀ a, a ∈ needed → artifact_public a).
Proof.
  unfold base_packet. intros Hb Hrem Hids. apply bind_Ok in Hb as (nd & Hnd & Hb).
  apply bind_Ok in Hb as (lp & Hlp & Hb). cbv zeta in Hb. apply bind_Ok in Hb as (vis & Hvis & Hb).
  apply bind_Ok in Hb as (ev & Hev & Hb). apply bind_Ok in Hb as (deps & _ & Hb).
  apply bind_Ok in Hb as (dl & Hdl & [= <- <-]). apply visible_deps_ok in Hdl as [Hd1 Hd2].
  split; [done|]. split.
  - split_and!; cbn; [done| |done]. intros Hpub.
    assert (is_remote p || lp = true) as Hor.
    { destruct (is_remote p); [done|]. rewrite all_public_true in Hlp by done. by injection Hlp as <-. }
    rewrite Hor in Hvis. apply only_cloud_public in Hvis. split_and!; [done| |].
    + eapply mapM_artifacts; [|exact Hvis|exact Hev]. intros. by eapply seed_evidence_artifact.
    + apply Hd2. destruct (is_remote p), lp; done.
  - intros Hpub a Ha. destruct (union_of_elem _ _ _ _ Hnd Ha) as (n & o & Hn & Ho & Hao).
    rewrite Forall_forall in Hpub. by eapply public_evidence; [apply Hpub| |].
Qed.

Lemma scope_packet_ok s p k needed k' :
  scope_packet limits mode task s p k needed = Ok (Some k') → packet_ok s (p, k) →
  (Forall public (pk_ids k) → ∀ a, a ∈ needed → artifact_public a) →
  pk_ids k' = pk_ids k ∧ packet_ok s (p, k').
Proof.
  unfold scope_packet. intros Hs (P1 & P2 & P3) Hnd. apply bind_Ok in Hs as (j & _ & Hs).
  apply bind_Ok in Hs as (sz & _ & Hs). apply bind_Ok in Hs as (raw & _ & Hs).
  destruct (raw <=? 2 * sz)%Z; [|done]. apply bind_Ok in Hs as (ev & Hev & Hs). cbv zeta in Hs.
  apply bind_Ok in Hs as (j' & _ & Hs). apply bind_Ok in Hs as (sz' & _ & Hs).
  destruct (_ && _); [|done]. injection Hs as <-. split; [done|]. split_and!; cbn; [done| |done].
  intros Hpub. destruct (P2 Hpub) as (Q1 & Q2 & Q3). split_and!; [done| |done].
  apply mapM_res_Ok in Hev. apply Forall_forall. intros w Hw. apply list_elem_of_lookup in Hw as [i Hi].
  destruct (Forall2_lookup_r _ _ _ _ _ Hev Hi) as (a & Ha & Hf).
  apply bind_Ok in Hf as (art & _ & [= <-]). apply (Hnd Hpub). apply elem_of_sorted_set.
  by eapply list_elem_of_lookup_2.
Qed.

Lemma packet_ok_same s s' pk : same_core s s' → packet_ok s pk → packet_ok s' pk.
Proof. intros Hc. unfold packet_ok. by rewrite (sc_accepted _ _ Hc). Qed.

(** Both exits of a quiet computation. *)
Lemma quiet_run {A} (m : M A) s a s' : quiet m → m s = (a, s') → same_core s s'.
Proof. intros Hq Hm. specialize (Hq s). by rewrite Hm in Hq. Qed.

Lemma quiet_packet p ns role : quiet (packet limits mode task wall p ns role).
Proof.
  unfold packet. apply quiet_bind; [apply quiet_get|]. intros s.
  apply quiet_bind; [apply quiet_lift|]. intros [k nd]. apply quiet_bind; [apply quiet_lift|]. intros.
  apply quiet_bind; [destruct (_ && _); [apply quiet_lift|apply quiet_ret]|]. intros sc.
  destruct sc; (apply quiet_bind; [apply quiet_log|]); intros; apply quiet_ret.
Qed.

Lemma packet_Ok p ns role s k s' :
  packet limits mode task wall p ns role s = (Ok k, s') →
  (is_remote p = true → Forall public ns) → Forall (λ n, n ∈ ids (t_obligations task)) ns →
  pk_ids k = ns ∧ packet_ok s (p, k).
Proof.
  unfold packet. intros Hp Hrem Hids. apply sm_bind_Ok in Hp as (s0 & s1 & [= <- <-] & Hp).
  apply sm_bind_Ok in Hp as ([k0 nd] & s1 & Hb & Hp). injection Hb as Hb <-.
  apply base_packet_ok in Hb as (Hk & Hok & Hnd); [|done|done].
  apply sm_bind_Ok in Hp as (j & s1 & Hj & Hp). injection Hj as _ <-.
  apply sm_bind_Ok in Hp as (sc & s1 & Hsc & Hp).
  destruct sc as [k1|].
  - assert (scope_packet limits mode task s p k0 nd = Ok (Some k1)) as Hs.
    { destruct (scoping_mode mode && _); [by injection Hsc|done]. }
    apply scope_packet_ok in Hs as [Hids1 Hok1]; [|done|by rewrite Hk].
    apply sm_bind_Ok in Hp as ([] & s2 & _ & [= <- <-]). split; [congruence|done].
  - apply sm_bind_Ok in Hp as ([] & s2 & _ & [= <- <-]). done.
Qed.

(** ** Calls *)
Lemma remote_bytes_snoc l c :
  remote_bytes_of (l ++ [c]) = (remote_bytes_of l + if decide (cl_placement c = Remote) then cl_request_bytes c else 0)%Z.
Proof.
  unfold remote_bytes_of. rewrite filter_app, fmap_app, foldr_app, filter_cons.
  assert (∀ l x, foldr Z.add x l = (foldr Z.add 0 l + x)%Z) as Hf.
  { clear. induction l as [|y l IH]; intros x; cbn; [lia|]. rewrite IH. lia. }
  case_decide; cbn; rewrite Hf; lia.
Qed.

Lemma expert_calls_snoc l c :
  expert_calls_of (l ++ [c]) = (expert_calls_of l + if decide (cl_role c = RExpert) then 1 else 0)%Z.
Proof.
  unfold expert_calls_of. rewrite filter_app, length_app, filter_cons. case_decide; cbn; lia.
Qed.

(** The fields of a record that accounting uses. *)
Definition keeps_call (f : CallRecord → CallRecord) : Prop :=
  ∀ c, cl_role (f c) = cl_role c ∧ cl_placement (f c) = cl_placement c ∧ cl_request_bytes (f c) = cl_request_bytes c.

Lemma update_last_budgets f l :
  keeps_call f →
  length (update_last f l) = length l ∧ remote_bytes_of (update_last f l) = remote_bytes_of l ∧
  expert_calls_of (update_last f l) = expert_calls_of l ∧
  (∀ P : Z → Prop, Forall (λ c, P (cl_request_bytes c)) l → Forall (λ c, P (cl_request_bytes c)) (update_last f l)).
Proof.
  intros Hf. destruct l as [|c l _] using rev_ind; [done|]. unfold update_last.
  rewrite reverse_snoc, reverse_cons, reverse_involutive. destruct (Hf c) as (E1 & E2 & E3).
  rewrite !length_app, !remote_bytes_snoc, !expert_calls_snoc, E1, E2, E3. split_and!; try done.
  intros P HP. apply Forall_app in HP as [HP1 HP2]. apply Forall_app. split; [done|].
  constructor; [|constructor]. rewrite E3. by apply Forall_inv in HP2.
Qed.

Lemma update_last_inv ns acc0 f : keeps_call f → preserves (inv ns acc0) (sm_mod (λ s, set_calls (update_last f (h_calls s)) s)).
Proof.
  intros Hf s [H1 H0 H2 H3 H4 [B1 B2 B3 B4 B5] H6 H7].
  destruct (update_last_budgets f (h_calls s) Hf) as (E1 & E2 & E3 & E4).
  split; try done. split; cbn [h_calls h_expert_calls h_remote_bytes h_sent set_calls]; rewrite ?E1, ?E2, ?E3; try done.
  by apply (E4 (λ z, z <= max_request_bytes limits)%Z).
Qed.

Lemma over_budget_false s p role size :
  over_budget limits s p role size = false →
  (Z.of_nat (length (h_calls s)) < max_calls limits)%Z ∧ (size <= max_request_bytes limits)%Z ∧
  (role = RExpert → (h_expert_calls s < max_expert_calls limits)%Z) ∧
  (is_remote p = true → (h_remote_bytes s + size <= max_remote_input_bytes limits)%Z).
Proof.
  unfold over_budget. intros H. bool_prop. split_and!; [lia|lia| |].
  - intros ->. rewrite bool_decide_eq_true_2 in * by done. cbn [andb] in *. bool_prop. lia.
  - intros Hr. rewrite Hr in *. cbn [andb] in *. bool_prop. lia.
Qed.

Lemma reserve_ok ns acc0 p role nids k j size s :
  inv ns acc0 s → over_budget limits s p role size = false → packet_ok s (p, k) → (0 <= size)%Z →
  inv ns acc0 (reserve wall p role nids k j size s).2.
Proof.
  intros Hs (O1 & O2 & O3 & O4)%over_budget_false Hpk Hsz. destruct Hs as [H1 H0 H2 H3 H4 [B1 B2 B3 B4 B5] H6 H7].
  unfold reserve, mbind, SM_bind, sm_mod, sm_lift.
  destruct (digest j) as [h|e].
  2: { split; try done. split; try done; cbn [h_calls h_expert_calls h_remote_bytes set_spent snd].
       - destruct (decide (role = RExpert)); [specialize (O3 ltac:(done))|]; lia.
       - destruct (is_remote p); [specialize (O4 eq_refl)|]; lia. }
  set (s1 := set_calls _ _). assert (inv ns acc0 s1) as Hs1.
  { split; try done. split; cbn [h_calls h_expert_calls h_remote_bytes h_sent set_spent set_calls s1].
    - rewrite length_app. cbn [length]. lia.
    - rewrite expert_calls_snoc. cbn [cl_role]. destruct (decide (role = RExpert)); [specialize (O3 ltac:(done))|]; lia.
    - rewrite remote_bytes_snoc. cbn [cl_placement cl_request_bytes]. unfold is_remote in *.
      destruct (decide (placement p = Remote)); [rewrite bool_decide_eq_true_2 in * by done; specialize (O4 eq_refl)
        |rewrite bool_decide_eq_false_2 by done]; lia.
    - apply Forall_app. split; [done|]. by repeat constructor.
    - rewrite length_app. lia. }
  pose proof (quiet_log "call_reserved" [("role", JStr (role_str role)); ("provider", JStr (p_name p));
    ("request_bytes", JInt size); ("packet_sha256", JStr h); ("obligation_ids", json_strs nids)] s1) as Hq.
  destruct (log _ _ s1) as [[[]|e] s2]; [|by eapply same_core_inv].
  cbn [snd] in Hq |- *. pose proof (same_core_inv ns acc0 _ _ Hq Hs1) as [I1 I0 I2 I3 I4 [C1 C2 C3 C4 C5] I6 I7].
  split; try done.
  - split; try done. cbn [h_sent h_calls set_sent]. rewrite (sc_sent _ _ Hq), (sc_calls _ _ Hq).
    cbn [h_calls h_sent s1 set_calls set_spent]. rewrite !length_app. cbn [length]. lia.
  - cbn [h_sent set_sent]. apply Forall_app. split; [done|]. constructor; [|constructor].
    apply (packet_ok_same s1 s2); [exact Hq|exact Hpk].
Qed.

(** ** Replies, rounds and dispatch *)
Lemma preserves_for_in {A} I (l : list A) (body : A → M unit) :
  (∀ x, x ∈ l → preserves I (body x)) → preserves I (sm_for l body).
Proof. apply preserves_for. Qed.

Lemma fail_all_quiet l c m : quiet (fail_all wall l c m).
Proof. apply quiet_for. intros. apply quiet_failure. Qed.

Lemma parse_reply_scope text nids updates requests :
  parse_reply text nids = Ok (updates, requests) → ∀ n, n ∈ updates.*1 → n ∈ nids.
Proof.
  unfold parse_reply. intros Hp. apply bind_Ok in Hp as (b & _ & Hp). pass_guard Hp.
  apply bind_Ok in Hp as (d & _ & Hp). destruct d as [| | | | | |d]; try done. pass_guard Hp.
  apply bind_Ok in Hp as (u & _ & Hp). apply bind_Ok in Hp as (r & _ & Hp).
  destruct u as [| | | | | |u]; try done. destruct r as [| | | | |r|]; try done. pass_guard Hp as Hsc.
  apply bind_Ok in Hp as (rs & _ & Hp). apply bind_Ok in Hp as (t & _ & [= <- <-]). bool_prop.
  intros n Hn. rewrite forallb_true in H. specialize (H n Hn). by bool_prop.
Qed.

Lemma quiet_request p r : quiet (request_evidence limits mode task wall p r).
Proof.
  apply quiet_bind; [apply quiet_get|]. intros s. destruct (dmem _ _); [apply quiet_ret|].
  apply quiet_bind; [apply quiet_lift|]. intros o. apply quiet_bind; [apply quiet_lift|]. intros [c|m].
  - apply quiet_bind; [apply quiet_failure|]. intros. apply quiet_log.
  - apply quiet_bind; [by apply quiet_mod|]. intros. apply quiet_bind; [apply quiet_lift|]. intros.
    apply quiet_bind; [apply quiet_lift|]. intros. apply quiet_log.
Qed.

Lemma handle_reply_ok ns acc0 p role nids r :
  (∀ n, n ∈ nids → n ∈ ns) →
  preserves (inv ns acc0) (handle_reply registry limits mode task mono wall p role nids r).
Proof.
  intros Hsub. unfold handle_reply. apply preserves_bind; [by apply update_last_inv|]. intros _.
  apply preserves_bind; [destruct (prices p); apply quiet_preserves; [apply quiet_lift|apply quiet_ret]|]. intros usd.
  apply preserves_bind; [by apply update_last_inv|]. intros _.
  apply preserves_lift_bind. intros h _. apply preserves_bind; [apply quiet_preserves, quiet_log|]. intros _.
  cbv zeta. destruct (if bool_decide _ then _ else _) as [[updates requests]|e] eqn:Hp.
  - assert (∀ n, n ∈ updates.*1 → n ∈ nids) as Hsc.
    { destruct (bool_decide _); [done|]. by eapply parse_reply_scope. }
    apply preserves_bind.
    { apply preserves_for. intros [n v] Hin. apply preserves_bind; [|intros; apply quiet_preserves, quiet_ret].
      apply accept_ok, Hsub, Hsc. by apply (list_elem_of_fmap_2 fst) in Hin. }
    intros _. apply quiet_preserves. apply quiet_bind; [apply quiet_for; intros; apply quiet_request|]. intros.
    destruct updates, requests; try apply quiet_ret.
    apply quiet_bind; [apply fail_all_quiet|]. intros. apply quiet_ret.
  - apply quiet_preserves. apply quiet_bind; [apply fail_all_quiet|]. intros. apply quiet_ret.
Qed.

Lemma call_ok ns acc0 p role nids k j size s :
  (∀ n, n ∈ nids → n ∈ ns) → (0 <= size)%Z → inv ns acc0 s →
  over_budget limits s p role size = false → packet_ok s (p, k) →
  inv ns acc0 (call registry limits mode task mono wall p role nids k j size s).2.
Proof.
  intros Hsub Hsz Hs Hov Hpk. pose proof (reserve_ok ns acc0 p role nids k j size s Hs Hov Hpk Hsz) as Hr.
  unfold call. rewrite get_bind. cbv zeta. set (g := generate p _ j _). clearbody g.
  apply state_bind; [exact Hr|]. intros _. apply preserves_bind; [apply quiet_preserves, quiet_monotonic|]. intros t.
  assert (∀ code, preserves (inv ns acc0)
      (ms ← since mono t;
       _ ← sm_mod (λ s, set_calls (update_last (call_failed (safe_code code) ms) (h_calls s)) s);
       _ ← log "provider_failed" [("role", JStr (role_str role)); ("code", JStr (safe_code code))];
       _ ← fail_all wall nids (safe_code code) (str "The provider call failed; no candidate was accepted.");
       mret true)) as Herr.
  { intros code. apply preserves_bind; [apply quiet_preserves, quiet_since|]. intros ms.
    apply preserves_bind; [by apply update_last_inv|]. intros _. apply quiet_preserves.
    apply quiet_bind; [apply quiet_log|]. intros. apply quiet_bind; [apply fail_all_quiet|]. intros. apply quiet_ret. }
  destruct g; [by apply handle_reply_ok|apply Herr..].
Qed.

Lemma filter_res_Ok f l r :
  filter_res f l = Ok r → (∀ n, n ∈ r → n ∈ l ∧ f n = Ok true).
Proof.
  revert r. induction l as [|n l IH]; intros r Hr; cbn [filter_res] in Hr.
  - injection Hr as <-. by intros n ?%not_elem_of_nil.
  - apply bind_Ok in Hr as (b & Hb & Hr). apply bind_Ok in Hr as (rest & Hrest & [= <-]).
    intros m Hm. destruct b; [apply elem_of_cons in Hm as [->|Hm]|]; [by split; [apply list_elem_of_here|]| |];
      destruct (IH _ Hrest m Hm); (split; [by apply list_elem_of_further|done]).
Qed.

Lemma quiet_round_ids p ready : quiet (round_ids task wall p ready).
Proof.
  unfold round_ids. apply quiet_bind; [apply quiet_get|]. intros s. cbv zeta. destruct (is_remote p); [|apply quiet_ret].
  apply quiet_bind; [|intros; apply quiet_lift]. apply quiet_for. intros n.
  apply quiet_bind; [apply quiet_lift|]. intros []; [apply quiet_ret|apply quiet_failure].
Qed.

Lemma round_ids_Ok p ready s nids s' :
  round_ids task wall p ready s = (Ok nids, s') →
  (∀ n, n ∈ nids → n ∈ ready) ∧ (is_remote p = true → Forall public nids).
Proof.
  unfold round_ids. rewrite get_bind. cbv zeta. destruct (is_remote p).
  - intros Hr. apply sm_bind_Ok in Hr as ([] & s1 & _ & Hr). injection Hr as Hr <-.
    pose proof (filter_res_Ok _ _ _ Hr) as Hf. split.
    + intros n Hn. apply Hf in Hn as [Hn _]. by apply list_elem_of_filter in Hn as [_ ?].
    + intros _. apply Forall_forall. intros n Hn. apply Hf in Hn as [_ Hn].
      unfold public, cloud_allowed. by rewrite Hn.
  - intros [= <- <-]. split; [|done]. intros n Hn. by apply list_elem_of_filter in Hn as [_ ?].
Qed.

Lemma ready_nodes ns acc0 s nids :
  inv ns acc0 s → (∀ n, n ∈ nids → n ∈ ns) → Forall (λ n, n ∈ ids (t_obligations task)) nids.
Proof.
  intros Hs Hsub. apply Forall_forall. intros n Hn.
  destruct (i_ready _ _ _ Hs n (Hsub n Hn)) as (o & Ho & _). by eapply tasks_ids.
Qed.

Lemma work_round_ok ns acc0 p ready role :
  (∀ n, n ∈ ready → n ∈ ns) →
  preserves (inv ns acc0) (work_round registry limits mode task mono wall p ready role).
Proof.
  intros Hsub. apply preserves_state. intros s Hs. unfold work_round.
  apply state_bind_Ok; [by eapply same_core_inv; [apply quiet_round_ids|]|]. intros nids s1 Hr Hs1.
  apply round_ids_Ok in Hr as [Hin Hrem]. case_bool_decide as Hnil; [done|].
  apply state_bind_Ok; [by eapply same_core_inv; [apply quiet_packet|]|]. intros k s2 Hk Hs2.
  assert (Hn : ∀ n, n ∈ nids → n ∈ ns) by auto.
  pose proof (quiet_run _ _ _ _ (quiet_packet p nids role) Hk) as Hc.
  apply packet_Ok in Hk as [_ Hpk]; [|done|by eapply ready_nodes].
  apply (packet_ok_same _ s2) in Hpk; [|done].
  apply state_bind_Ok; [done|]. intros j s3 [= _ <-] _.
  apply state_bind_Ok; [done|]. intros size s3 Hsz _. injection Hsz as Hsz <-.
  unfold wire_bytes in Hsz. apply fmap_Ok in Hsz as (b & _ & <-). rewrite get_bind.
  destruct (over_budget _ s2 p role _) eqn:Hov; [|apply call_ok; try done; lia].
  eapply same_core_inv; [|exact Hs2].
  apply (quiet_bind (fail_all wall nids _ _)); [apply fail_all_quiet|]. intros.
  apply quiet_bind; [apply quiet_log|]. intros. apply quiet_ret.
Qed.

Lemma work_ok ns acc0 rounds p ready role :
  (∀ n, n ∈ ready → n ∈ ns) →
  preserves (inv ns acc0) (work registry limits mode task mono wall rounds p ready role).
Proof.
  intros Hsub. induction rounds as [|rounds IH]; cbn [work]; [apply quiet_preserves, quiet_ret|].
  apply preserves_bind; [by apply work_round_ok|]. intros []; [done|apply quiet_preserves, quiet_ret].
Qed.

Lemma dispatch_ok ns acc0 p ready role rounds :
  (∀ n, n ∈ ready → n ∈ ns) →
  preserves (inv ns acc0) (dispatch registry limits mode task mono wall p ready role rounds).
Proof.
  intros Hsub. unfold dispatch. destruct (is_remote p); [by apply work_ok|].
  apply preserves_lift_bind. intros pub Hpub. apply preserves_lift_bind. intros priv Hpriv.
  apply preserves_bind; [|intros _]; apply work_ok; intros n Hn.
  - apply Hsub. by apply (filter_res_Ok _ _ _ Hpub).
  - apply Hsub. by apply (filter_res_Ok _ _ _ Hpriv).
Qed.

(** ** The run *)
Abbreviation prepare_node := (prepare_node registry mode task mono wall).
Abbreviation run_loop := (run_loop registry local expert limits mode task mono wall).

Lemma try_cache_ok ns acc0 n : n ∈ ns → preserves (inv ns acc0) (try_cache registry task mono wall n).
Proof.
  intros Hn. apply preserves_state. intros s Hs. unfold try_cache. rewrite get_bind.
  destruct (h_cache s) as [c|]; [|done]. apply state_bind_Ok; [done|]. intros key s1 [= _ <-] _.
  destruct (Cache.get c key) as [entry|]; [|done]. apply state_bind_Ok; [done|]. intros id s1 [= _ <-] _.
  apply state_bind_Ok; [by destruct id|]. intros cand s1 _ Hs1. destruct cand as [v|]; [|done].
  apply state_bind; [apply (preserves_snd _ _ _ (accept_ok ns acc0 n v _ Hn)), Hs1|]. intros [].
  - apply quiet_preserves. apply quiet_bind; [by apply quiet_mod|]. intros. apply quiet_ret.
  - apply quiet_preserves, quiet_ret.
Qed.

Lemma quiet_solver_ms t : quiet (add_solver_ms mono t).
Proof. apply quiet_bind; [apply quiet_since|]. intros. by apply quiet_mod. Qed.

Lemma try_solver_ok ns acc0 n name : n ∈ ns → preserves (inv ns acc0) (try_solver registry task mono wall n name).
Proof.
  intros Hn. unfold try_solver. apply preserves_bind; [apply quiet_preserves, quiet_monotonic|]. intros t.
  apply preserves_state. intros s Hs. rewrite get_bind.
  match goal with |- inv _ _ (match ?r with Ok _ => _ | Raise _ => _ end s).2 => destruct r as [v|e] end.
  - apply state_bind; [by eapply same_core_inv; [apply quiet_solver_ms|]|]. intros _.
    apply preserves_bind; [by apply accept_ok|]. intros [].
    + apply quiet_preserves. by apply quiet_mod.
    + apply quiet_preserves, quiet_ret.
  - eapply same_core_inv; [|exact Hs]. apply (quiet_bind (failure n _ _)); [apply quiet_failure|].
    intros. apply quiet_solver_ms.
Qed.

Lemma prepare_node_ok ns acc0 n : n ∈ ns → preserves (inv ns acc0) (prepare_node n).
Proof.
  intros Hn. unfold Engine.prepare_node. apply preserves_bind; [by apply try_cache_ok|]. intros [].
  - apply quiet_preserves, quiet_ret.
  - apply preserves_lift_bind. intros o _. destruct (solver_of mode o); [by apply try_solver_ok|].
    apply quiet_preserves, quiet_ret.
Qed.

Lemma ready_ids_spec s att n :
  n ∈ ready_ids task s att →
  ∃ o, o ∈ t_obligations task ∧ o_id o = n ∧ dget n tasks = Some o ∧ ¬ (n ∈ att) ∧
       ∀ d, d ∈ o_depends_on o → is_Some (dget d (h_accepted s)).
Proof.
  unfold ready_ids, ids. intros Hn. apply list_elem_of_fmap in Hn as (o & -> & Ho).
  apply list_elem_of_filter in Ho as [(_ & Hatt & Hd) Ho]. exists o. split_and!; try done.
  - apply dget_by_id; [apply Htask|done].
  - intros d Hin. rewrite forallb_true in Hd. specialize (Hd d Hin). by apply dget_is_Some, dmem_true.
Qed.

Lemma inv_ready acc0 s att : inv [] acc0 s → inv (ready_ids task s att) acc0 s.
Proof.
  intros [H1 H0 H2 H3 H4 H5 H6 H7]. split; try done. intros n Hn.
  destruct (ready_ids_spec _ _ _ Hn) as (o & _ & _ & Ho & _ & Hd). by exists o.
Qed.

Lemma inv_weaken ns acc0 s : inv ns acc0 s → inv [] acc0 s.
Proof. intros [H1 H0 H2 H3 H4 H5 H6 H7]. split; try done. by intros n ?%not_elem_of_nil. Qed.

(** The work of one round on its ready obligations. *)
Definition round (ready : list pystr) : M unit :=
  _ ← sm_for ready prepare_node;
  _ ← match local with
      | Some p => if bool_decide (mode = MFullCloud) then mret tt
                  else dispatch registry limits mode task mono wall p ready RLocal (local_rounds limits)
      | None => mret tt
      end;
  match expert with
  | Some p => if bool_decide (mode = MLocalOnly) then mret tt
              else dispatch registry limits mode task mono wall p ready RExpert (expert_rounds limits)
  | None => mret tt
  end.

Lemma round_ok acc0 ready : preserves (inv ready acc0) (round ready).
Proof.
  unfold round. apply preserves_bind; [apply preserves_for; intros; by apply prepare_node_ok|]. intros _.
  apply preserves_bind; [|intros _].
  - destruct local as [p|]; [|apply quiet_preserves, quiet_ret].
    destruct (bool_decide _); [apply quiet_preserves, quiet_ret|by apply dispatch_ok].
  - destruct expert as [p|]; [|apply quiet_preserves, quiet_ret].
    destruct (bool_decide _); [apply quiet_preserves, quiet_ret|by apply dispatch_ok].
Qed.

Lemma run_loop_step fuel att s :
  run_loop (S fuel) att s =
  match ready_ids task s att with
  | [] => (Ok tt, s)
  | ready => (round ready ≫= λ _, run_loop fuel (att ++ ready)) s
  end.
Proof.
  cbn [Engine.run_loop]. rewrite get_bind. destruct (ready_ids task s att) as [|n ready]; [done|].
  unfold round, mbind, SM_bind. by repeat case_match; simplify_eq.
Qed.

Lemma run_loop_ok fuel acc0 att : preserves (inv [] acc0) (run_loop fuel att).
Proof.
  revert att. induction fuel as [|fuel IH]; intros att; [apply quiet_preserves, quiet_lift|].
  apply preserves_state. intros s Hs. rewrite run_loop_step.
  destruct (ready_ids task s att) as [|n ready] eqn:E; [done|].
  apply state_bind; [|intros _; apply IH].
  eapply inv_weaken, (preserves_snd _ _ _ (round_ok acc0 (n :: ready))). rewrite <- E. by apply inv_ready.
Qed.

(** Obligations not attempted yet bound the remaining rounds. *)
Definition pending (att : list pystr) : nat :=
  length (filter (λ o, ¬ (o_id o ∈ att)) (t_obligations task)).

Lemma pending_decreases s att n ready :
  ready_ids task s att = n :: ready → pending (att ++ n :: ready) < pending att.
Proof.
  intros E. unfold pending. assert (n ∈ ready_ids task s att) as Hn by (rewrite E; apply list_elem_of_here).
  destruct (ready_ids_spec _ _ _ Hn) as (o & Ho & Hid & _ & Hatt & _). clear E Hn s.
  induction (t_obligations task) as [|x obs IH]; [by apply not_elem_of_nil in Ho|].
  assert (∀ l, length (filter (λ o, ¬ (o_id o ∈ att ++ n :: ready)) l) ≤ length (filter (λ o, ¬ (o_id o ∈ att)) l)) as Hle.
  { clear. induction l as [|y l IH]; [done|]. rewrite !filter_cons.
    repeat case_decide; cbn [length]; try lia. set_solver. }
  rewrite !filter_cons. apply elem_of_cons in Ho as [<-|Ho].
  - rewrite decide_False by set_solver. rewrite decide_True by (by rewrite Hid). cbn [length]. specialize (Hle obs). lia.
  - specialize (IH Ho). repeat case_decide; cbn [length]; try lia. set_solver.
Qed.

(** The main loop without fuel: [n] rounds are made until no obligation is ready or
    a round raises. *)
Inductive loop_ends : nat → list pystr → hstate → res unit → hstate → Prop :=
| ends_idle att s : ready_ids task s att = [] → loop_ends 0 att s (Ok tt) s
| ends_raise att s e s' : ready_ids task s att ≠ [] → round (ready_ids task s att) s = (Raise e, s') → loop_ends 1 att s (Raise e) s'
| ends_round n att s s1 r s' :
    ready_ids task s att ≠ [] → round (ready_ids task s att) s = (Ok tt, s1) →
    loop_ends n (att ++ ready_ids task s att) s1 r s' → loop_ends (S n) att s r s'.

Lemma loop_ends_total att s : ∃ n r s', n ≤ pending att ∧ loop_ends n att s r s'.
Proof.
  remember (pending att) as m eqn:Hm. revert att s Hm. induction (lt_wf m) as [m _ IH]. intros att s ->.
  destruct (ready_ids task s att) as [|x ready] eqn:E; [exists 0, (Ok tt), s; split; [lia|by constructor]|].
  pose proof (pending_decreases _ _ _ _ E) as Hd. rewrite <- E in Hd. assert (Hne : ready_ids task s att ≠ []) by by rewrite E.
  destruct (round (ready_ids task s att) s) as [[[]|e] s1] eqn:Er.
  - destruct (IH _ Hd (att ++ ready_ids task s att) s1 eq_refl) as (n & r & s' & Hn & Hl).
    exists (S n), r, s'. split; [lia|by eapply ends_round].
  - exists 1, (Raise e), s1. split; [lia|by constructor].
Qed.

(** With more fuel than rounds, the model of the loop returns what the loop does. *)
Lemma loop_ends_run n att s r s' fuel : loop_ends n att s r s' → n < fuel → run_loop fuel att s = (r, s').
Proof.
  intros H. revert fuel. induction H as [att s E|att s e s' Hne Er|n att s s1 r s' Hne Er _ IH]; intros [|fuel] Hf; try lia; rewrite run_loop_step.
  - by rewrite E.
  - destruct (ready_ids task s att) as [|x ready]; [done|]. unfold mbind, SM_bind. by rewrite Er.
  - destruct (ready_ids task s att) as [|x ready] eqn:E; [done|]. unfold mbind, SM_bind. rewrite Er. apply IH. lia.
Qed.

Context (Hlimits : Limits_new limits = Ok limits).

Lemma limits_nonneg :
  (0 <= max_calls limits)%Z ∧ (0 <= max_expert_calls limits)%Z ∧ (0 <= max_remote_input_bytes limits)%Z.
Proof.
  unfold Limits_new in Hlimits. apply bind_Ok in Hlimits as ([] & Hall & _). apply for_all_Ok in Hall.
  assert (∀ z b, (r ← positive_int (JInt z) b; Ok tt) = Ok tt → (0 <= z)%Z) as Hz.
  { intros z b Hz. apply bind_Ok in Hz as (? & Hz & _). unfold positive_int in Hz. pass_guard Hz. bool_prop.
    destruct b; lia. }
  repeat (apply Forall_cons in Hall as [? Hall]). split_and!; by eapply Hz.
Qed.

Lemma inv_reset s : inv [] ([], []) (reset s).
Proof.
  destruct limits_nonneg as (L1 & L2 & L3). split; try done.
  - by intros n ?%not_elem_of_nil.
  - apply NoDup_nil_2.
Qed.

(** [run] after the reset. *)
Definition run_body (float_sum : list num → num) (start : float) : M RunReport :=
  _ ← sm_lift (check_registered registry task);
  hashes ← sm_lift (artifact_hashes task (t_artifacts task).*1);
  _ ← log "run_started" [("run_id", JStr run_id); ("task_id", JStr (t_id task)); ("mode", JStr (mode_str mode));
                         ("limits", limits_dict limits); ("artifact_hashes", json_dict_strs hashes)];
  _ ← run_loop (S (length (t_obligations task))) [];
  s ← sm_get;
  station ← sm_lift (mapM (λ kr, d ← receipt_to_dict kr.2; Ok (kr.1, d)) (h_station s));
  elapsed ← since mono start;
  let result := result_dict mode task float_sum s station elapsed in
  h ← sm_lift (digest (JDict result));
  _ ← log "run_finished" [("result_sha256", JStr h); ("success", JBool (success task s))];
  s' ← sm_get;
  mret (mkRunReport result (success task s) (l_head (h_ledger s'))).

Abbreviation run := (run registry local expert limits mode task mono wall run_id).

Lemma run_reset float_sum s :
  ∃ start s1, run float_sum s = run_body float_sum start (reset s1).
Proof. eexists _, _. reflexivity. Qed.

Lemma run_body_ok float_sum start : preserves (inv [] ([], [])) (run_body float_sum start).
Proof.
  unfold run_body. apply preserves_lift_bind. intros _ _. apply preserves_lift_bind. intros hashes _.
  apply preserves_bind; [apply quiet_preserves, quiet_log|]. intros _.
  apply preserves_bind; [apply run_loop_ok|]. intros _. apply quiet_preserves.
  apply quiet_bind; [apply quiet_get|]. intros s. apply quiet_bind; [apply quiet_lift|]. intros st.
  apply quiet_bind; [apply quiet_since|]. intros el. cbv zeta. apply quiet_bind; [apply quiet_lift|]. intros h.
  apply quiet_bind; [apply quiet_log|]. intros. apply quiet_bind; [apply quiet_get|]. intros. apply quiet_ret.
Qed.

Lemma run_ok float_sum s : inv [] ([], []) (run float_sum s).2.
Proof.
  destruct (run_reset float_sum s) as (start & s1 & ->).
  apply (preserves_snd _ _ _ (run_body_ok float_sum start)), inv_reset.
Qed.

Lemma unresolved_nil s : success task s = true ↔ ∀ o, o ∈ t_obligations task → is_Some (dget (o_id o) (h_accepted s)).
Proof.
  unfold success, unresolved. rewrite bool_decide_eq_true, dict_of_NoDup.
  2: { rewrite <- list_fmap_compose. pose proof (ok_nodup _ Htask) as Hnd. unfold ids in Hnd. clear -Hnd.
       induction (t_obligations task) as [|o l IH]; [apply NoDup_nil_2|]. apply NoDup_cons in Hnd as [Ho Hl].
       rewrite filter_cons. case_decide; [|by apply IH]. apply NoDup_cons. split; [|by apply IH].
       intros Hin. apply Ho. apply list_elem_of_fmap in Hin as (x & E & Hx). cbn in E. rewrite E.
       apply list_elem_of_filter in Hx as [_ Hx].
       apply (list_elem_of_fmap_2 o_id) in Hx. exact Hx. }
  rewrite length_fmap. split.
  - intros Hl o Ho. apply length_zero_iff_nil in Hl.
    destruct (dmem (o_id o) (h_accepted s)) eqn:E; [by apply dget_is_Some, dmem_true|].
    exfalso. eapply (filter_nil_not_elem_of _ _ o Hl); done.
  - intros Hall. apply length_zero_iff_nil.
    destruct (filter _ (t_obligations task)) as [|o l] eqn:E; [done|]. exfalso.
    assert (o ∈ filter (λ o, dmem (o_id o) (h_accepted s) = false) (t_obligations task)) as Ho
      by (rewrite E; apply list_elem_of_here).
    apply list_elem_of_filter in Ho as [Hf Ho]. destruct (Hall o Ho) as [v Hv]. unfold dmem in Hf. by rewrite Hv in Hf.
Qed.

Lemma log_Ok kind data s s' :
  log kind data s = (Ok tt, s') →
  ∃ e, l_events (h_ledger s') = l_events (h_ledger s) ++ [e] ∧ e_kind e = str kind ∧
       l_head (h_ledger s') = e_sha256 e ∧ h_accepted s' = h_accepted s.
Proof.
  unfold Engine.log. rewrite get_bind. intros Hl. apply sm_bind_Ok in Hl as (l & s1 & Hadd & Hl).
  injection Hadd as Hadd <-. injection Hl as <-. unfold Ledger_add in Hadd.
  apply bind_Ok in Hadd as (h & _ & [= <-]). cbn. by eexists.
Qed.

(** The report of a finished run, and its trace. *)
Lemma run_report float_sum s rep s' :
  run float_sum s = (Ok rep, s') →
  run_success rep = success task s' ∧ dget (str "values") (run_result rep) = Some (JDict (h_accepted s')) ∧
  trace_root rep = l_head (h_ledger s') ∧
  (∃ e, head (l_events (h_ledger s')) = Some e ∧ e_kind e = str "run_started") ∧
  (∃ e, last (l_events (h_ledger s')) = Some e ∧ e_kind e = str "run_finished").
Proof.
  destruct (run_reset float_sum s) as (start & s1 & ->). unfold run_body. intros Hr.
  apply sm_bind_Ok in Hr as ([] & t1 & Hc & Hr). injection Hc as _ <-.
  apply sm_bind_Ok in Hr as (hs & t1 & Hh & Hr). injection Hh as _ <-.
  apply sm_bind_Ok in Hr as ([] & t2 & Hl & Hr). pose proof (quiet_run _ _ _ _ (quiet_log _ _) Hl) as Hq.
  apply log_Ok in Hl as (e0 & He0 & Hk0 & _ & Hacc). cbn [reset h_ledger l_events Ledger_new app] in He0.
  apply sm_bind_Ok in Hr as ([] & t3 & Hloop & Hr).
  assert (inv [] ([], [e0]) t2) as Hi2.
  { destruct (same_core_inv _ _ _ _ Hq (inv_reset s1)). split; try done. cbn. by rewrite He0. }
  assert (inv [] ([], [e0]) t3) as Hi3.
  { pose proof (preserves_snd _ _ _ (run_loop_ok (S (length (t_obligations task))) ([], [e0]) []) Hi2) as Hi.
    by rewrite Hloop in Hi. }
  apply sm_bind_Ok in Hr as (t & t4 & [= <- <-] & Hr). apply sm_bind_Ok in Hr as (st & t4 & Hst & Hr).
  injection Hst as _ <-. apply sm_bind_Ok in Hr as (el & t4 & Hel & Hr).
  assert (h_accepted t4 = h_accepted t3 ∧ h_ledger t4 = h_ledger t3) as [Ea El].
  { unfold since in Hel. apply sm_bind_Ok in Hel as (now & t5 & [= _ <-] & [= _ <-]). done. }
  cbv zeta in Hr. apply sm_bind_Ok in Hr as (h & t5 & Hd & Hr). injection Hd as _ <-.
  apply sm_bind_Ok in Hr as ([] & t5 & Hl & Hr). apply log_Ok in Hl as (e1 & He1 & Hk1 & _ & Ha1).
  apply sm_bind_Ok in Hr as (t6 & t7 & [= <- <-] & [= <- <-]). cbn [run_success run_result trace_root].
  assert (success task t5 = success task t3) as Es
    by (apply eq_true_iff_eq; rewrite !unresolved_nil, Ha1, Ea; done).
  rewrite Es, Ha1, Ea, He1, El. split_and!; try done.
  - destruct (i_prefix _ _ _ Hi3) as [k Hk]. exists e0. rewrite Hk. done.
  - exists e1. by rewrite last_snoc.
Qed.
End engine.
