(* ===== verification/EngineTheorems.v ===== *)
(** * Theorems about the residual engine

    The guarantees of a run, stated of [Harness.run] for every registry,
    provider behaviour, clock and mode of the model, with a concrete run (a
    remote and a local provider, a solver and a private artifact) as witness. *)

From Stdlib Require Import ZArith NArith Lia SpecFloat.
From S2P Require Import Prelude PyData Sha256 PyFloat Json JsonFacts Core CoreFacts Storage Receipts Builtins GoalSpec Providers Engine EngineFacts.

Section theorems.
Context (registry : Registry) (local expert : option Provider) (limits : Limits) (mode : Mode).
Context (id goal : pystr) (artifacts : dict Artifact) (obligations : list Obligation) (structure : option pystr).
Context (task : Task) (mono wall : nat → Z) (run_id : pystr) (float_sum : list num → num).
Context (Htask : Task_new id goal artifacts obligations structure = Ok task).
Context (Hlimits : Limits_new limits = Ok limits).
Set Default Proof Using "All".

Abbreviation run := (run registry local expert limits mode task mono wall run_id float_sum).

Lemma run_inv s : inv registry limits task [] ([], []) (run s).2.
Proof. apply run_ok; [by destruct (Task_new_ok _ _ _ _ _ _ Htask)|done]. Qed.
End theorems.

(** C1: nothing is accepted unverified.  In the state a run leaves, whether it
    returns or raises, every accepted value was passed by the check registered
    for its obligation, applied to exactly that value in a context of accepted
    values that covers the obligation's dependencies; the dependencies are
    accepted themselves, and the obligation's receipt carries the value's
    digest. *)
Theorem accepted_values_checked registry local expert limits mode id goal artifacts obligations structure task
    mono wall run_id float_sum s :
  Task_new id goal artifacts obligations structure = Ok task → Limits_new limits = Ok limits →
  let s' := (run registry local expert limits mode task mono wall run_id float_sum s).2 in
  ∀ n v, dget n (h_accepted s') = Some v →
    (∃ acc, sub acc (h_accepted s') ∧ check_passed registry task acc n v) ∧
    (∀ o d, dget n (by_id task) = Some o → d ∈ o_depends_on o → is_Some (dget d (h_accepted s'))) ∧
    (∃ r, dget n (h_receipts s') = Some r ∧ digest v = Ok (rc_value_sha256 r)).
Proof.
  intros Ht Hl s' n v Hv.
  pose proof (run_inv registry local expert limits mode _ _ _ _ _ task mono wall run_id float_sum Ht Hl s) as Hi.
  destruct (i_justified _ _ _ _ _ _ Hi n v Hv) as [(acc & Hsub & Hc) Hr]. split_and!; [by exists acc| |done].
  intros o d Ho Hd. destruct Hc as (o' & ? & ? & ? & Ho' & _ & Hdeps & _).
  unfold Engine.tasks in Ho'. assert (o' = o) as -> by congruence. destruct (Hdeps d Hd) as [w Hw]. exists w. by apply Hsub.
Qed.

(** A finished run reports success exactly when every obligation of the
    task is accepted; the values it reports are the accepted ones. *)
Theorem run_success_complete registry local expert limits mode id goal artifacts obligations structure task
    mono wall run_id float_sum s rep s' :
  Task_new id goal artifacts obligations structure = Ok task → Limits_new limits = Ok limits →
  run registry local expert limits mode task mono wall run_id float_sum s = (Ok rep, s') →
  (run_success rep = true ↔ ∀ o, o ∈ t_obligations task → is_Some (dget (o_id o) (h_accepted s'))) ∧
  dget (str "values") (run_result rep) = Some (JDict (h_accepted s')).
Proof.
  intros Ht Hl Hr. apply Task_new_ok in Ht as [_ Ht].
  apply (run_report registry local expert limits mode task mono wall run_id Ht Hl) in Hr as (Hs & Hv & _).
  rewrite Hs. split; [|done]. by apply (unresolved_nil registry local expert limits mode task mono wall run_id).
Qed.

(** C3: the budgets hold at every exit of a run: at most [max_calls] calls, at
    most [max_expert_calls] of them in the expert role, every request body
    within [max_request_bytes], the bodies sent to remote providers together
    within [max_remote_input_bytes], and no request without a reserved call. *)
Theorem run_within_budget registry local expert limits mode id goal artifacts obligations structure task
    mono wall run_id float_sum s :
  Task_new id goal artifacts obligations structure = Ok task → Limits_new limits = Ok limits →
  let s' := (run registry local expert limits mode task mono wall run_id float_sum s).2 in
  (Z.of_nat (length (h_calls s')) <= max_calls limits)%Z ∧
  (expert_calls_of (h_calls s') <= max_expert_calls limits)%Z ∧
  (remote_bytes_of (h_calls s') <= max_remote_input_bytes limits)%Z ∧
  Forall (λ c, (cl_request_bytes c <= max_request_bytes limits)%Z) (h_calls s') ∧
  length (h_sent s') ≤ length (h_calls s').
Proof.
  intros Ht Hl s'.
  pose proof (run_inv registry local expert limits mode _ _ _ _ _ task mono wall run_id float_sum Ht Hl s) as Hi.
  fold s' in Hi. clearbody s'. destruct (i_budgets _ _ _ _ _ _ Hi) as [B1 B2 B3 B4 B5]. split_and!; try done; lia.
Qed.

(** C2: private data stays home.  Every request handed to a remote provider
    lists only obligations that may leave (their whole dependency closure
    allows it), shows only public artifacts in its manifest and its evidence,
    and only accepted values of obligations that may leave; the same holds of a
    local request all of whose obligations may leave, so a value that is later
    exported was produced from public material only. *)
Theorem run_keeps_private registry local expert limits mode id goal artifacts obligations structure task
    mono wall run_id float_sum s p k :
  Task_new id goal artifacts obligations structure = Ok task → Limits_new limits = Ok limits →
  let s' := (run registry local expert limits mode task mono wall run_id float_sum s).2 in
  (p, k) ∈ h_sent s' → is_remote p = true ∨ Forall (public task) (pk_ids k) →
  Forall (public task) (pk_ids k) ∧ Forall (artifact_public task) (pk_manifest k) ∧
  Forall (λ w, artifact_public task w.1.1) (pk_evidence k) ∧
  Forall (λ d, public task d.1 ∧ dget d.1 (h_accepted s') = Some d.2.1) (pk_deps k).
Proof.
  intros Ht Hl s' Hin Hor.
  pose proof (run_inv registry local expert limits mode _ _ _ _ _ task mono wall run_id float_sum Ht Hl s) as Hi.
  pose proof (i_sent _ _ _ _ _ _ Hi) as Hsent. rewrite Forall_forall in Hsent.
  destruct (Hsent _ Hin) as (P1 & P2 & P3). cbn [fst snd] in *.
  assert (Forall (public task) (pk_ids k)) as Hp by (destruct Hor; auto).
  destruct (P2 Hp) as (Q1 & Q2 & Q3). split_and!; try done. by apply Forall_and.
Qed.

(** Accepted values are frozen: from any reachable state of the main loop,
    whatever the remaining rounds do and however they end, each value accepted
    so far is still there unchanged. *)
Theorem accepted_values_frozen registry local expert limits mode id goal artifacts obligations structure task
    mono wall fuel att s n v :
  Task_new id goal artifacts obligations structure = Ok task →
  inv registry limits task [] ([], []) s → dget n (h_accepted s) = Some v →
  dget n (h_accepted (run_loop registry local expert limits mode task mono wall fuel att s).2) = Some v.
Proof.
  intros Ht Hi Hv. apply Task_new_ok in Ht as [_ Ht].
  assert (inv registry limits task [] (h_accepted s, []) s) as Hi'.
  { destruct Hi. split; try done. by intros m w. }
  pose proof (preserves_snd _ _ _ (run_loop_ok registry local expert limits mode task mono wall (str "r") Ht fuel
    (h_accepted s, []) att) Hi') as Hr. by apply (i_mono _ _ _ _ _ _ Hr).
Qed.

(** C38: the main loop ends, after at most one round per obligation.  From every
    state of the harness the loop without fuel has a result: after [n] rounds, [n] at
    most the number of obligations, no obligation is ready, or one of the rounds
    raised; and with any fuel above the number of obligations, as the model's, the
    loop returns exactly that result, so its bound is never what stops a run. *)
Theorem run_loop_terminates registry local expert limits mode id goal artifacts obligations structure task mono wall s :
  Task_new id goal artifacts obligations structure = Ok task →
  ∃ n r s', n ≤ length (t_obligations task) ∧
    loop_ends registry local expert limits mode task mono wall n [] s r s' ∧
    ∀ fuel, length (t_obligations task) < fuel → run_loop registry local expert limits mode task mono wall fuel [] s = (r, s').
Proof.
  intros Ht. apply Task_new_ok in Ht as [_ Ht].
  destruct (loop_ends_total registry local expert limits mode task mono wall (str "r") Ht [] s) as (n & r & s' & Hn & Hl).
  assert (pending task [] ≤ length (t_obligations task)) as Hp by apply length_filter.
  exists n, r, s'. split_and!; [lia|done|]. intros fuel Hf. eapply (loop_ends_run registry local expert limits mode task mono wall (str "r") Ht); [exact Hl|lia].
Qed.

(** The trace of a finished run is a complete hash chain: it starts with
    [run_started], ends with [run_finished], and when its lines can be read
    back (no raw line separator, floats that print exactly) [verify_ledger]
    accepts the written file anchored at the run's [trace_root]. *)
Theorem run_trace_verifies registry local expert limits mode id goal artifacts obligations structure task
    mono wall run_id float_sum s rep s' text :
  Task_new id goal artifacts obligations structure = Ok task → Limits_new limits = Ok limits →
  run registry local expert limits mode task mono wall run_id float_sum s = (Ok rep, s') →
  Forall event_ok (l_events (h_ledger s')) → Ledger_write (h_ledger s') = Ok text →
  verify_ledger text (Some (JStr (trace_root rep)))
  = Ok (mkLedgerReport (length (l_events (h_ledger s'))) (JStr (trace_root rep)) true).
Proof.
  intros Ht Hl Hr Hok Hw.
  pose proof (run_inv registry local expert limits mode _ _ _ _ _ task mono wall run_id float_sum Ht Hl s) as Hi.
  rewrite Hr in Hi. pose proof (i_ledger _ _ _ _ _ _ Hi) as Hwf. apply Task_new_ok in Ht as [_ Ht].
  apply (run_report registry local expert limits mode task mono wall run_id Ht Hl) in Hr
    as (_ & _ & -> & (e & He & Hek) & (f & Hf & Hfk)).
  by apply (ledger_verifies _ text e f true).
Qed.

(** ** A concrete run *)
Definition demo_artifact (name text : string) (cloud : bool) : pystr * Artifact :=
  (str name, mkArtifact (str name) (requote (str text)) cloud).
Definition demo_artifacts : dict Artifact :=
  [demo_artifact "doc" "{'items':[1,2]}" true; demo_artifact "secret" "{'pin':7}" false].
Definition value_obligation (id artifact pointer : string) (deps : list pystr) (cloud : bool) : Obligation :=
  mkObligation (str id) (str "extract") (str "json_value") [str artifact] deps
    [(str "artifact", JStr (str artifact)); (str "pointer", JStr (str pointer))] None cloud.
Definition count_obligation : Obligation :=
  mkObligation (str "count") (str "count") (str "dependency_count") [] [str "items"]
    [(str "dependency", JStr (str "items"))] (Some (str "dependency_count")) true.
Definition demo_nodes : list Obligation :=
  [value_obligation "items" "doc" "/items" [] true; count_obligation; value_obligation "pin" "secret" "/pin" [] false].
Definition demo_task : Task := mkTask (str "demo") (str "read the document") demo_artifacts demo_nodes None.
Definition demo_registry : Registry :=
  mkRegistry [(str "json_value", (str "1", same_as extract)); (str "dependency_count", (str "1", same_as dependency_count))]
    [] [(str "dependency_count", dependency_count)].
Definition demo_limits : Limits := mkLimits 2 4 24 12 500000 200000 2048 100 3 10000.
Definition demo_provider (name : string) (pl : placement_t) (text : string) : Provider :=
  mkProvider (str name) pl None (λ j _, t ← canonical j; b ← encode t; Ok (N.of_nat (length b)))
    (λ _ _ _, GReply (mkReply (requote (str text)) Usage_none (NInt 0) None)).
Definition demo_remote : Provider := demo_provider "cloud" Remote "{'updates':{'items':[1,2]},'requests':[]}".
Definition demo_local : Provider := demo_provider "laptop" Local "{'updates':{'pin':7},'requests':[]}".
Definition demo_h : hstate := mkH [] [] [] [] ∅ [] Ledger_new (Some Cache.empty) 0 0 0 0 fzero fzero 0 [].
Definition demo_time (n : nat) : Z := Z.of_nat n.

Definition demo_out : res RunReport * hstate :=
  run demo_registry (Some demo_local) (Some demo_remote) demo_limits MResidual demo_task demo_time demo_time
    (str "r1") (λ _, NInt 0) demo_h.
Definition demo_end : hstate := demo_out.2.
Definition ok_or {A} (d : A) (r : res A) : A := match r with Ok a => a | Raise _ => d end.
Definition demo_report : RunReport := ok_or (mkRunReport [] false []) demo_out.1.

Lemma demo_task_new : Task_new (str "demo") (str "read the document") demo_artifacts demo_nodes None = Ok demo_task.
Proof. vm_compute. reflexivity. Qed.
Lemma demo_limits_new : Limits_new demo_limits = Ok demo_limits.
Proof. vm_compute. reflexivity. Qed.
Lemma demo_out_eq :
  run demo_registry (Some demo_local) (Some demo_remote) demo_limits MResidual demo_task demo_time demo_time
    (str "r1") (λ _, NInt 0) demo_h = (Ok demo_report, demo_end).
Proof.
  assert (H : demo_out.1 = Ok demo_report) by (vm_compute; reflexivity).
  unfold demo_end. rewrite <- H. apply surjective_pairing.
Qed.

Lemma accepted_values_checked_witness :
  dget (str "count") (h_accepted demo_end) = Some (JInt 2) ∧
  ∃ acc, sub acc (h_accepted demo_end) ∧ check_passed demo_registry demo_task acc (str "count") (JInt 2).
Proof.
  assert (H : dget (str "count") (h_accepted demo_end) = Some (JInt 2)) by (vm_compute; reflexivity).
  split; [exact H|].
  exact (proj1 (accepted_values_checked _ _ _ _ _ _ _ _ _ _ _ _ _ _ _ _ demo_task_new demo_limits_new _ _ H)).
Defined.

Lemma run_success_complete_witness :
  run_success demo_report = true ∧ ∀ o, o ∈ t_obligations demo_task → is_Some (dget (o_id o) (h_accepted demo_end)).
Proof.
  assert (H : run_success demo_report = true) by (vm_compute; reflexivity). split; [exact H|].
  apply (proj1 (run_success_complete _ _ _ _ _ _ _ _ _ _ _ _ _ _ _ _ _ _ demo_task_new demo_limits_new demo_out_eq)).
  exact H.
Defined.

Lemma run_within_budget_witness :
  length (h_calls demo_end) = 4 ∧ (expert_calls_of (h_calls demo_end) <= 12)%Z.
Proof.
  split; [vm_compute; reflexivity|].
  exact (proj1 (proj2 (run_within_budget demo_registry (Some demo_local) (Some demo_remote) demo_limits MResidual
    _ _ _ _ _ demo_task demo_time demo_time (str "r1") (λ _, NInt 0) demo_h demo_task_new demo_limits_new))).
Defined.

Definition demo_packet : Packet := Eval vm_compute in
  match (λ pk : Provider * Packet, (is_remote pk.1, pk.2)) <$> h_sent demo_end with
  | l => default (mkPacket [] [] [] [] []) ((λ x : bool * Packet, x.2) <$> head (filter (λ x, x.1 = true) l))
  end.

Lemma run_keeps_private_witness :
  pk_ids demo_packet = [str "items"] ∧ Forall (artifact_public demo_task) (pk_manifest demo_packet).
Proof.
  split; [vm_compute; reflexivity|].
  assert (H : (λ pk : Provider * Packet, (is_remote pk.1, pk.2)) <$> (h_sent demo_end !! 3) = Some (true, demo_packet))
    by (vm_compute; reflexivity).
  destruct (h_sent demo_end !! 3) as [[p k]|] eqn:E; cbn [fmap option_fmap option_map fst snd] in H; [|discriminate H].
  injection H as Hp <-.
  exact (proj1 (proj2 (run_keeps_private demo_registry (Some demo_local) (Some demo_remote) demo_limits MResidual
    _ _ _ _ _ demo_task demo_time demo_time (str "r1") (λ _, NInt 0) demo_h p k
    demo_task_new demo_limits_new (list_elem_of_lookup_2 _ _ _ E) (or_introl Hp)))).
Defined.

Lemma accepted_values_frozen_witness :
  dget (str "pin") (h_accepted (run_loop demo_registry (Some demo_local) (Some demo_remote) demo_limits MResidual
    demo_task demo_time demo_time 4 [] demo_end).2) = Some (JInt 7).
Proof.
  apply (accepted_values_frozen demo_registry (Some demo_local) (Some demo_remote) demo_limits MResidual
    _ _ _ _ _ demo_task demo_time demo_time 4 [] demo_end (str "pin") (JInt 7) demo_task_new).
  - exact (run_inv demo_registry (Some demo_local) (Some demo_remote) demo_limits MResidual
      _ _ _ _ _ demo_task demo_time demo_time (str "r1") (λ _, NInt 0) demo_task_new demo_limits_new demo_h).
  - vm_compute. reflexivity.
Defined.

Lemma run_loop_terminates_witness :
  ∃ n r s', n ≤ length (t_obligations demo_task) ∧
    run_loop demo_registry (Some demo_local) (Some demo_remote) demo_limits MResidual demo_task demo_time demo_time 100 [] (reset demo_h) = (r, s').
Proof.
  destruct (run_loop_terminates demo_registry (Some demo_local) (Some demo_remote) demo_limits MResidual
    _ _ _ _ _ demo_task demo_time demo_time (reset demo_h) demo_task_new) as (n & r & s' & Hn & _ & H).
  exists n, r, s'. split; [exact Hn|]. apply H. apply Nat.ltb_lt. reflexivity.
Defined.

Definition demo_trace : pystr := ok_or [] (Ledger_write (h_ledger demo_end)).

Definition event_okb (e : Event) : bool :=
  wf_json (JDict (e_data e)) && floats_rt (JDict (e_data e))
  && match canonical (event_json e) with Ok t => no_breaks t | Raise _ => true end.

Lemma event_okb_ok es : forallb event_okb es = true → Forall event_ok es.
Proof.
  intros H. apply Forall_forall. intros e He. rewrite forallb_true in H. specialize (H e He).
  unfold event_okb in H. bool_prop. split_and!; [done|done|]. intros t Ht. by rewrite Ht in *.
Qed.

Lemma demo_events_ok : Forall event_ok (l_events (h_ledger demo_end)).
Proof. apply event_okb_ok. vm_compute. reflexivity. Qed.

Lemma run_trace_verifies_witness :
  verify_ledger demo_trace (Some (JStr (trace_root demo_report)))
  = Ok (mkLedgerReport (length (l_events (h_ledger demo_end))) (JStr (trace_root demo_report)) true).
Proof.
  apply (run_trace_verifies _ _ _ _ _ _ _ _ _ _ _ _ _ _ _ _ _ _ demo_trace demo_task_new demo_limits_new demo_out_eq
           demo_events_ok).
  vm_compute. reflexivity.
Defined.
