(* ===== verification/Journal.v ===== *)
(** * Durable hash-chained journal (residual/dsm/journal.py)

    A journal is its file text, the records in memory and the head hash.  A
    record is the JSON object of the source, so records read back from a file
    and records just appended are the same kind of value. *)

From Stdlib Require Import ZArith NArith Lia.
From S2P Require Import Prelude PyData Sha256 PyFloat Json JsonFacts Core CoreFacts Storage.

Record Journal : Type := mkJournal {
  j_file : pystr;
  j_records : list (dict json);
  j_head : json
}.

Definition JournalError {A} : res A := Raise (ContractError "journal integrity mismatch").

(** The loop of [_load] over the lines of the file. *)
Fixpoint load_lines (index : Z) (previous : json) (lines : list pystr) : res (list (dict json)) :=
  match lines with
  | [] => Ok []
  | line :: lines =>
      if blank line then load_lines (index + 1) previous lines
      else
        record ← strict_json line;
        match record with
        | JDict record =>
            let expected := default JNull (dget (str "hash") record) in
            let body := ddel (str "hash") record in
            seq ← dgetitem (str "seq") record;
            if negb (py_eq seq (JInt index)) then JournalError
            else
              prev ← dgetitem (str "prev_hash") record;
              if negb (py_eq prev previous) then JournalError
              else
                h ← digest (JDict body);
                if negb (py_eq (JStr h) expected) then JournalError
                else
                  rest ← load_lines (index + 1) expected lines;
                  Ok (record :: rest)
        | _ => Raise (AttributeError "get")
        end
  end.

Definition load (text : pystr) : res (list (dict json)) := load_lines 0 (JStr genesis) (splitlines text).

Definition head_of (records : list (dict json)) : res json :=
  match last records with
  | Some r => dgetitem (str "hash") r
  | None => Ok (JStr genesis)
  end.

(** [Journal(path)]: the constructor on the text of the file. *)
Definition Journal_open (text : pystr) : res Journal :=
  records ← load text;
  head ← head_of records;
  Ok (mkJournal text records head).

(** [cursor] *)
Definition cursor (j : Journal) : Z := Z.of_nat (length (j_records j)) - 1.

Definition record_body (seq : Z) (kind : pystr) (time_ns : Z) (prev : json) (payload : json) : dict json :=
  [(str "seq", JInt seq); (str "kind", JStr kind); (str "time_ns", JInt time_ns);
   (str "prev_hash", prev); (str "payload", payload)].

(** [append]: the record is on disk before it is in memory. *)
Definition append (j : Journal) (kind : pystr) (payload : json) (time_ns : Z) : res (Journal * dict json) :=
  let body := record_body (Z.of_nat (length (j_records j))) kind time_ns (j_head j) payload in
  h ← digest (JDict body);
  let record := body ++ [(str "hash", JStr h)] in
  line ← canonical (JDict record);
  _ ← encode line;
  Ok (mkJournal (j_file j ++ line ++ [10%N]) (j_records j ++ [record]) (JStr h), record).

(** [record["seq"] > from_seq] *)
Definition seq_after (from_seq : Z) (seq : json) : res bool :=
  match seq with
  | JInt n => Ok (from_seq <? n)%Z
  | JBool b => Ok (from_seq <? Z.b2z b)%Z
  | JFloat f => Ok (num_ltb (NInt from_seq) (NFloat f))
  | _ => Raise (TypeError "'>' not supported")
  end.
(** [replay(from_seq)] *)
Fixpoint replay_records (from_seq : Z) (records : list (dict json)) : res (list (dict json)) :=
  match records with
  | [] => Ok []
  | r :: records =>
      seq ← dgetitem (str "seq") r;
      later ← seq_after from_seq seq;
      rest ← replay_records from_seq records;
      Ok (if (later : bool) then r :: rest else rest)
  end.
Definition replay (j : Journal) (from_seq : Z) : res (list (dict json)) := replay_records from_seq (j_records j).

(** [verify()] *)
Definition verify (j : Journal) : res nat := length <$> load (j_file j).

(** ** Well-formed journals *)
(** One appended record: its position, predecessor and hash. *)
Definition record_ok (n : nat) (prev : pystr) (r : dict json) (h : pystr) : Prop :=
  ∃ kind time payload,
    r = record_body (Z.of_nat n) kind time (JStr prev) payload ++ [(str "hash", JStr h)] ∧
    digest (JDict (record_body (Z.of_nat n) kind time (JStr prev) payload)) = Ok h ∧
    wf_json payload = true ∧ floats_rt payload = true.

(** Records with their lines, from position [n] and head [prev]. *)
Inductive chain : nat → pystr → list (dict json) → pystr → pystr → Prop :=
| chain_nil n prev : chain n prev [] [] prev
| chain_cons n prev r rs line text h head :
    record_ok n prev r h → canonical (JDict r) = Ok line → no_breaks line = true → blank line = false →
    chain (S n) h rs text head → chain n prev (r :: rs) (line ++ [10%N] ++ text) head.

Definition journal_wf (j : Journal) : Prop :=
  ∃ head, j_head j = JStr head ∧ chain 0 genesis (j_records j) (j_file j) head.

Lemma chain_snoc n prev rs text head r line h :
  chain n prev rs text head → record_ok (n + length rs) head r h → canonical (JDict r) = Ok line →
  no_breaks line = true → blank line = false → chain n prev (rs ++ [r]) (text ++ line ++ [10%N]) h.
Proof.
  induction 1 as [n prev|n prev q rs l text h' head Hq Hl Hb Hk Hc IH]; intros Hr Hline Hnb Hbl.
  - rewrite Nat.add_0_r in Hr. cbn [app]. replace (line ++ [10%N]) with (line ++ [10%N] ++ []) by done.
    econstructor; try done. constructor.
  - rewrite <- app_assoc, <- (app_assoc [10%N]). change ((q :: rs) ++ [r]) with (q :: (rs ++ [r])).
    econstructor; try done. apply IH; try done. cbn [length] in Hr. by rewrite Nat.add_succ_r in Hr.
Qed.

(** The printed form of an object is never blank. *)
Lemma canonical_dict_nonblank d t : canonical (JDict d) = Ok t → blank t = false.
Proof. cbn. intros H. apply bind_Ok in H as (ts & _ & [= <-]). done. Qed.

Lemma Journal_new_wf : journal_wf (mkJournal [] [] (JStr genesis)).
Proof. exists genesis. split; [done|constructor]. Qed.

(** The line of a record has no character at which [str.splitlines] breaks. *)
Definition line_ok (r : dict json) : Prop := ∀ t, canonical (JDict r) = Ok t → no_breaks t = true.

Lemma append_wf j kind payload time j' r :
  journal_wf j → wf_json payload = true → floats_rt payload = true →
  append j kind payload time = Ok (j', r) → line_ok r → journal_wf j'.
Proof.
  intros (head & Hh & Hc) Hw Hf H Hl. unfold append in H. apply bind_Ok in H as (h & Hd & H).
  apply bind_Ok in H as (line & Hline & H). apply bind_Ok in H as (? & _ & [= <- <-]).
  exists h. split; [done|]. cbn [j_records j_file]. eapply chain_snoc; [exact Hc| |exact Hline|by apply Hl|].
  - rewrite Hh in Hd |- *. by exists kind, time, payload.
  - by eapply canonical_dict_nonblank.
Qed.

(** ** Reading a journal back *)
Lemma read_record n prev r h :
  record_ok n prev r h →
  wf_json (JDict r) = true ∧ floats_rt (JDict r) = true ∧
  ∃ d, sort_json (JDict r) = JDict d ∧ dget (str "hash") d = Some (JStr h) ∧
    dget (str "seq") d = Some (JInt (Z.of_nat n)) ∧ dget (str "prev_hash") d = Some (JStr prev) ∧
    digest (JDict (ddel (str "hash") d)) = Ok h.
Proof.
  intros (kind & time & payload & -> & Hd & Hw & Hf). cbn [wf_json floats_rt].
  split; [cbn; by rewrite Hw|]. split; [cbn; by rewrite Hf|].
  eexists. split; [reflexivity|]. do 3 (split; [reflexivity|]).
  by apply digest_sort_json in Hd.
Qed.

Lemma load_chain n prev rs text head :
  chain n prev rs text head →
  ∃ ds, load_lines (Z.of_nat n) (JStr prev) (splitlines text) = Ok ds ∧
    JDict <$> ds = sort_json <$> (JDict <$> rs) ∧
    (match last ds with Some d => dget (str "hash") d = Some (JStr head) | None => head = prev end).
Proof.
  induction 1 as [n prev|n prev r rs line text h head Hr Hl Hb Hk Hc IH]; [by exists []|].
  destruct (read_record _ _ _ _ Hr) as (Hw & Hf & d & Hsort & Hhash & Hseq & Hprev & Hdig).
  destruct IH as (ds & Hds & Hmap & Hlast). exists (d :: ds).
  change (line ++ [10%N] ++ text) with (line ++ 10%N :: text). rewrite splitlines_line by done.
  cbn [load_lines]. rewrite Hk, (strict_json_canonical _ _ Hl Hw Hf), Hsort. cbn [mbind res_bind].
  rewrite Hhash. cbn [from_option id]. rewrite (proj2 (dgetitem_Ok _ _ _) Hseq). cbn [mbind res_bind].
  rewrite py_eq_int, Z.eqb_refl. cbn [negb]. rewrite (proj2 (dgetitem_Ok _ _ _) Hprev). cbn [mbind res_bind].
  rewrite py_eq_str, bool_decide_eq_true_2 by done. cbn [negb]. rewrite Hdig. cbn [mbind res_bind].
  rewrite py_eq_str, bool_decide_eq_true_2 by done. cbn [negb].
  replace (Z.of_nat n + 1)%Z with (Z.of_nat (S n)) by lia. rewrite Hds. cbn [mbind res_bind fmap list_fmap].
  split_and!; [done|by rewrite Hmap, Hsort|]. rewrite last_cons.
  destruct (last ds); [done|]. by rewrite Hlast.
Qed.

Lemma journal_reopens j :
  journal_wf j → ∃ j', Journal_open (j_file j) = Ok j' ∧ j_file j' = j_file j ∧ j_head j' = j_head j ∧
    JDict <$> j_records j' = sort_json <$> (JDict <$> j_records j).
Proof.
  intros (head & Hh & Hc). destruct (load_chain _ _ _ _ _ Hc) as (ds & Hds & Hmap & Hlast).
  unfold Journal_open, load. change 0%Z with (Z.of_nat 0). rewrite Hds. cbn [mbind res_bind]. unfold head_of.
  destruct (last ds) as [d|] eqn:E.
  - rewrite (proj2 (dgetitem_Ok _ _ _) Hlast). cbn [mbind res_bind]. eexists. by split_and!.
  - cbn [mbind res_bind]. eexists. split; [done|]. cbn. by rewrite Hh, Hlast.
Qed.

(** Journals built by appending to an empty file. *)
Inductive built : Journal → Prop :=
| built_new : built (mkJournal [] [] (JStr genesis))
| built_append j kind payload time j' r :
    built j → wf_json payload = true → floats_rt payload = true →
    append j kind payload time = Ok (j', r) → line_ok r → built j'.

Lemma built_wf j : built j → journal_wf j.
Proof. induction 1; [apply Journal_new_wf|by eapply append_wf]. Qed.

(** A journal survives a restart: after any sequence of appends whose
    lines hold no raw line separator, opening the file again succeeds, yields
    the same records in the same order (up to the order of object keys) and
    the same head, and [verify] counts every record. *)
Theorem journal_survives_restart j :
  built j →
  ∃ j', Journal_open (j_file j) = Ok j' ∧ j_file j' = j_file j ∧ j_head j' = j_head j ∧
    JDict <$> j_records j' = sort_json <$> (JDict <$> j_records j) ∧
    verify j = Ok (length (j_records j)).
Proof.
  intros Hb. destruct (journal_reopens j (built_wf j Hb)) as (j' & Ho & Hf & Hh & Hr).
  exists j'. split_and!; try done. unfold verify. unfold Journal_open in Ho.
  apply bind_Ok in Ho as (ds & Hds & Ho). apply bind_Ok in Ho as (hd & _ & [= <-]). rewrite Hds. cbn in Hr |- *.
  f_equal. apply (f_equal length) in Hr. by rewrite !length_fmap in Hr.
Qed.

Definition demo_journal : Journal := Eval vm_compute in
  match append (mkJournal [] [] (JStr genesis)) (str "note") (jobj [("text", JStr (str "one"))]) 5 with
  | Ok (j, _) => match append j (str "note") (jobj [("text", JStr (str "two"))]) 6 with
                 | Ok (j, _) => j | Raise _ => j end
  | Raise _ => mkJournal [] [] JNull
  end.

Lemma demo_journal_built : built demo_journal.
Proof.
  destruct (append (mkJournal [] [] (JStr genesis)) (str "note") (jobj [("text", JStr (str "one"))]) 5)
    as [[j1 r1]|] eqn:E1; [|vm_compute in E1; discriminate E1].
  destruct (append j1 (str "note") (jobj [("text", JStr (str "two"))]) 6) as [[j2 r2]|] eqn:E2;
    [|vm_compute in E1; injection E1 as <- <-; vm_compute in E2; discriminate E2].
  assert (demo_journal = j2) as -> by (vm_compute in E1; injection E1 as <- <-; vm_compute in E2;
                                       injection E2 as <- <-; reflexivity).
  assert (line_ok r1 ∧ line_ok r2) as [L1 L2].
  { vm_compute in E1; injection E1 as <- <-; vm_compute in E2; injection E2 as <- <-.
    split; intros t Ht; vm_compute in Ht; injection Ht as <-; reflexivity. }
  refine (built_append j1 _ _ _ _ _ _ _ _ E2 L2); [|vm_compute; reflexivity..].
  refine (built_append _ _ _ _ _ _ built_new _ _ E1 L1); vm_compute; reflexivity.
Qed.

Lemma journal_survives_restart_witness :
  ∃ j', Journal_open (j_file demo_journal) = Ok j' ∧ j_head j' = j_head demo_journal ∧
        verify demo_journal = Ok 2.
Proof.
  destruct (journal_survives_restart demo_journal demo_journal_built) as (j' & Ho & _ & Hh & _ & Hv).
  exists j'. split; [exact Ho|]. split; [exact Hh|exact Hv].
Defined.

(** ** Appending always succeeds on storable payloads *)
(** The value has a canonical text without surrogate code points. *)
Definition storable (v : json) : bool := match canonical v with Ok t => encodable t | Raise _ => false end.

Lemma encodable_mjoin l : Forall (λ s, encodable s = true) l → encodable (mjoin l) = true.
Proof.
  induction 1 as [|s l Hs Hl IH]; [done|]. change (mjoin (s :: l)) with (s ++ mjoin l).
  by rewrite encodable_app, Hs, IH.
Qed.

Lemma encodable_join sep l : encodable sep = true → Forall (λ s, encodable s = true) l → encodable (join sep l) = true.
Proof.
  intros Hsep. induction 1 as [|s l Hs Hl IH]; [done|]. cbn [join]. destruct l; [done|].
  by rewrite !encodable_app, Hs, Hsep, IH.
Qed.

Lemma encodable_escape c : negb (in_range 55296 57343 c) = true → encodable (escape_char c) = true.
Proof.
  intros Hc. destruct (decide (c < 32)%N) as [Hlt|Hge].
  - assert (Hall : Forall (λ c, encodable (escape_char c) = true) (N.of_nat <$> seq 0 32)) by (repeat constructor).
    rewrite Forall_fmap, Forall_forall in Hall. specialize (Hall (N.to_nat c)).
    cbv beta in Hall. unfold compose in Hall. rewrite N2Nat.id in Hall. apply Hall, elem_of_seq. lia.
  - unfold escape_char. destruct (N.ltb_spec c 32); [lia|]. repeat case_match; try done.
    unfold encodable. cbn [forallb]. by rewrite Hc.
Qed.

Lemma encodable_quote s : encodable s = true → encodable (quote s) = true.
Proof.
  intros Hs. unfold quote. rewrite !encodable_app. rewrite encodable_mjoin; [done|].
  apply Forall_fmap. unfold encodable in Hs. rewrite forallb_true in Hs. apply Forall_forall. intros c Hc.
  apply encodable_escape. by apply Hs.
Qed.

Lemma storable_str s : encodable s = true → storable (JStr s) = true.
Proof. apply encodable_quote. Qed.

Lemma dec_digits_length fuel n acc : length (dec_digits fuel n acc) ≤ fuel + length acc.
Proof.
  revert n acc. induction fuel as [|fuel IH]; intros n acc; cbn [dec_digits]; [lia|].
  case_match; cbn; [lia|]. etrans; [apply IH|]. cbn. lia.
Qed.

Lemma encodable_digits ds : Forall (λ c, is_digit c = true) ds → encodable ds = true.
Proof.
  intros H. unfold encodable. apply forallb_true. intros c Hc. rewrite Forall_forall in H.
  specialize (H c Hc). unfold is_digit in H. apply in_range_iff in H.
  destruct (in_range 55296 57343 c) eqn:E; [|done]. apply in_range_iff in E. lia.
Qed.

Lemma storable_nat n : (n < 2 ^ 64)%Z → (0 <= n)%Z → storable (JInt n) = true.
Proof.
  intros Hn H0. unfold storable. cbn [canonical]. unfold int_text. rewrite Z.abs_eq by done.
  assert (Hl : length (str_of_nonneg n) ≤ max_int_digits).
  { unfold str_of_nonneg. etrans; [apply dec_digits_length|]. cbn [length].
    assert (Z.log2 n < 64)%Z by (destruct (decide (n = 0)%Z) as [->|]; [done|apply Z.log2_lt_pow2; lia]).
    unfold max_int_digits. lia. }
  apply Nat.ltb_ge in Hl. rewrite Hl. unfold str_of_Z. destruct (Z.ltb_spec n 0); [lia|].
  destruct (str_of_nonneg_spec n H0) as (d & ds & -> & Hd & _). by apply encodable_digits.
Qed.

Lemma storable_dict (d : dict json) :
  Forall (λ kv, encodable kv.1 = true ∧ storable kv.2 = true) d → storable (JDict d) = true.
Proof.
  intros H. unfold storable. cbn [canonical].
  assert (∃ ts, res_all ((λ kv, (λ t, (kv.1, t)) <$> canonical kv.2) <$> d) = Ok ts ∧
    Forall (λ kt, encodable (item_text kt) = true) ts) as (ts & -> & Hts).
  { induction H as [|[k v] d [Hk Hv] Hd (ts & Hts & IH)]; [by exists []|]. cbn [fst snd] in Hk, Hv. rewrite fmap_cons.
    cbn [res_all fst snd]. unfold storable in Hv. destruct (canonical v) as [t|]; [|done]. rewrite Hts. exists ((k, t) :: ts). split; [done|].
    constructor; [|done]. unfold item_text. cbn [fst snd]. rewrite encodable_app, (encodable_quote k Hk). by rewrite encodable_app, Hv. }
  cbn. rewrite encodable_app, encodable_join; [done|done|].
  apply Forall_fmap. rewrite sort_by_perm. exact Hts.
Qed.

Lemma storable_jobj (d : list (string * json)) :
  forallb (λ kv, encodable (str kv.1)) d = true → Forall (λ kv, storable kv.2 = true) d → storable (jobj d) = true.
Proof.
  intros Hk Hv. apply storable_dict, Forall_fmap. rewrite Forall_forall in Hv |- *. rewrite forallb_true in Hk.
  intros kv Hin. split; [by apply Hk|by apply Hv].
Qed.

Lemma digest_encodable h : is_digest h = true → encodable h = true.
Proof.
  unfold is_digest, encodable. intros [_ H]%andb_true_iff. rewrite forallb_true in *. intros c Hc.
  specialize (H c Hc). unfold is_hex in H. apply orb_true_iff in H. rewrite !in_range_iff in H. destruct (in_range 55296 57343 c) eqn:E; [|done].
  apply in_range_iff in E. lia.
Qed.

(** The head hash of a journal in use is text. *)
Definition journal_ready (j : Journal) : Prop := ∃ h, j_head j = JStr h ∧ encodable h = true.

Lemma storable_canonical v : storable v = true → ∃ t b, canonical v = Ok t ∧ encode t = Ok b.
Proof.
  unfold storable. destruct (canonical v) as [t|] eqn:E; [|done]. intros H. destruct (encode_ok t H) as [b Hb].
  by exists t, b.
Qed.

(** Appending a storable payload succeeds and adds one record at the end. *)
Lemma append_total j kind payload time :
  journal_ready j → encodable kind = true → storable payload = true →
  (0 <= time < 2 ^ 64)%Z → (Z.of_nat (length (j_records j)) < 2 ^ 64)%Z →
  ∃ j' h, append j kind payload time =
      Ok (j', record_body (Z.of_nat (length (j_records j))) kind time (j_head j) payload ++ [(str "hash", JStr h)]) ∧
    journal_ready j' ∧
    j_records j' = j_records j ++ [record_body (Z.of_nat (length (j_records j))) kind time (j_head j) payload ++ [(str "hash", JStr h)]].
Proof.
  intros (h0 & Hh & Hh0) Hkind Hp Ht Hn.
  set (body := record_body _ _ _ _ _).
  assert (Hbody : Forall (λ kv, encodable kv.1 = true ∧ storable kv.2 = true) body).
  { unfold body. rewrite Hh. repeat constructor; cbn [fst snd]; try done; try (apply storable_nat; lia); by apply storable_str. }
  destruct (storable_canonical _ (storable_dict _ Hbody)) as (t & b & Hc & Hb).
  assert (Hd : digest (JDict body) = Ok (sha256_hex b)).
  { unfold digest. rewrite Hc. cbn [mbind res_bind]. unfold sha_text. rewrite Hb. reflexivity. }
  assert (Henc : encodable (sha256_hex b) = true) by apply digest_encodable, sha256_hex_is_digest.
  set (r := body ++ [(str "hash", JStr (sha256_hex b))]).
  assert (Hr : Forall (λ kv, encodable kv.1 = true ∧ storable kv.2 = true) r).
  { apply Forall_app. split; [done|]. repeat constructor. by apply storable_str. }
  destruct (storable_canonical _ (storable_dict _ Hr)) as (t2 & b2 & Hc2 & Hb2).
  eexists _, _. unfold append. fold body. rewrite Hd. cbn [mbind res_bind]. fold r. rewrite Hc2. cbn [mbind res_bind].
  rewrite Hb2. cbn [mbind res_bind]. split; [reflexivity|]. split; [|reflexivity]. by eexists.
Qed.
