(* ===== verification/Lease.v ===== *)
(** * Leases with fencing tokens (residual/dsm/lease.py) *)

From Stdlib Require Import ZArith NArith Lia.
From S2P Require Import Prelude PyData Json Core.

Record LeaseEntry : Type := mkLease { le_holder : pystr; le_until : Z; le_token : Z }.

Record LeaseManager : Type := mkLeases { leases : gmap pystr LeaseEntry; tokens : gmap pystr Z }.
Definition LeaseManager_new : LeaseManager := mkLeases ∅ ∅.

Record Grant : Type := mkGrant { gr_resource : pystr; gr_holder : pystr; gr_token : Z; gr_expires : Z }.

Definition FencingError {A} (msg : string) : res A := Raise (ContractError msg).

Definition current_token (m : LeaseManager) (r : pystr) : Z := default 0%Z (tokens m !! r).

(** A new token for [r], recorded with its lease. *)
Definition grant (m : LeaseManager) (r h : pystr) (token ttl now : Z) : Grant * LeaseManager :=
  (mkGrant r h token (now + ttl),
   mkLeases (<[r := mkLease h (now + ttl) token]> (leases m)) (<[r := token]> (tokens m))).

(** Leased to another holder and not expired. *)
Definition busy (m : LeaseManager) (r h : pystr) (now : Z) : bool :=
  match leases m !! r with
  | Some l => negb (bool_decide (le_holder l = h)) && (now <? le_until l)%Z
  | None => false
  end.

Definition acquire (m : LeaseManager) (r h : pystr) (ttl now : Z) : res (Grant * LeaseManager) :=
  if busy m r h now then FencingError "resource is leased"
  else Ok (grant m r h (current_token m r + 1) ttl now).

Definition check (m : LeaseManager) (r h : pystr) (token now : Z) : res unit :=
  if (token <? current_token m r)%Z then FencingError "stale fencing token"
  else match leases m !! r with
       | None => FencingError "no active lease"
       | Some l =>
           if negb (bool_decide (le_holder l = h)) || negb (le_token l =? token)%Z
           then FencingError "fencing token does not match active lease"
           else if (le_until l <=? now)%Z then FencingError "lease expired"
           else Ok tt
       end.

(** [self._tokens[resource] + 1]: the token exists once [check] passed. *)
Definition renew (m : LeaseManager) (r h : pystr) (token ttl now : Z) : res (Grant * LeaseManager) :=
  _ ← check m r h token now;
  t ← of_option (KeyError "resource") (tokens m !! r);
  Ok (grant m r h (t + 1) ttl now).

Definition release (m : LeaseManager) (r h : pystr) (token : Z) : LeaseManager :=
  match leases m !! r with
  | Some l => if bool_decide (le_holder l = h) && (le_token l =? token)%Z
              then mkLeases (delete r (leases m)) (tokens m) else m
  | None => m
  end.

(** ** Any sequence of operations *)
Inductive lease_op : Type :=
| OAcquire (r h : pystr) (ttl now : Z)
| ORenew (r h : pystr) (token ttl now : Z)
| ORelease (r h : pystr) (token : Z).

(** A refused operation leaves the manager as it was. *)
Definition apply_op (m : LeaseManager) (op : lease_op) : LeaseManager :=
  match op with
  | OAcquire r h ttl now => match acquire m r h ttl now with Ok (_, m') => m' | Raise _ => m end
  | ORenew r h t ttl now => match renew m r h t ttl now with Ok (_, m') => m' | Raise _ => m end
  | ORelease r h t => release m r h t
  end.
Definition apply_ops (m : LeaseManager) (ops : list lease_op) : LeaseManager := foldl apply_op m ops.

(** A live lease carries the resource's current token. *)
Definition lease_inv (m : LeaseManager) : Prop :=
  ∀ r l, leases m !! r = Some l → tokens m !! r = Some (le_token l).

Lemma Ok_inj {A} (a b : A) : Ok a = Ok b → a = b.
Proof. by injection 1. Qed.

Lemma grant_inv m r h t ttl now : lease_inv m → lease_inv (grant m r h t ttl now).2.
Proof.
  intros Hm q l. cbn. destruct (decide (q = r)) as [->|Hne].
  - rewrite !lookup_insert_eq. by intros [= <-].
  - rewrite !lookup_insert_ne by done. apply Hm.
Qed.

Lemma apply_op_inv m op : lease_inv m → lease_inv (apply_op m op).
Proof.
  intros Hm. destruct op as [r h ttl now|r h t ttl now|r h t]; cbn.
  - unfold acquire. destruct (busy m r h now); [done|]. by apply grant_inv.
  - destruct (renew m r h t ttl now) as [[g m']|] eqn:E; [|done]. unfold renew in E.
    apply bind_Ok in E as (? & _ & E). apply bind_Ok in E as (u & _ & E).
    apply Ok_inj in E. assert (m' = (grant m r h (u + 1) ttl now).2) as -> by (by rewrite E). by apply grant_inv.
  - unfold release. destruct (leases m !! r) as [l|]; [|done]. destruct (_ && _); [|done].
    intros q k. cbn. rewrite lookup_delete_Some. intros [_ Hk]. by apply Hm.
Qed.

Lemma apply_ops_inv m ops : lease_inv m → lease_inv (apply_ops m ops).
Proof. revert m. induction ops as [|op ops IH]; intros m Hm; [done|]. cbn. apply IH. by apply apply_op_inv. Qed.

Lemma grant_token m r h t ttl now q :
  current_token (grant m r h t ttl now).2 q = if decide (q = r) then t else current_token m q.
Proof.
  unfold current_token. cbn. case_decide as E; [subst; by rewrite lookup_insert_eq|by rewrite lookup_insert_ne].
Qed.

Lemma apply_op_token m op q : (current_token m q <= current_token (apply_op m op) q)%Z.
Proof.
  destruct op as [r h ttl now|r h t ttl now|r h t]; cbn.
  - unfold acquire. destruct (busy m r h now); unfold FencingError; [lia|].
    pose proof (grant_token m r h (current_token m r + 1) ttl now q) as Ht.
    destruct (grant m r h (current_token m r + 1) ttl now) as [g m1]. cbn [snd] in Ht. rewrite Ht. case_decide; subst; lia.
  - destruct (renew m r h t ttl now) as [[g m']|] eqn:E; [|lia]. unfold renew in E.
    apply bind_Ok in E as (? & _ & E). apply bind_Ok in E as (u & Hu & E). apply of_option_Ok in Hu.
    apply Ok_inj in E. assert (m' = (grant m r h (u + 1) ttl now).2) as -> by (by rewrite E). rewrite grant_token.
    case_decide; [|lia]. subst. unfold current_token. rewrite Hu. cbn. lia.
  - unfold release. destruct (leases m !! r); [|lia]. destruct (_ && _); [|lia]. done.
Qed.

Lemma apply_ops_token m ops q : (current_token m q <= current_token (apply_ops m ops) q)%Z.
Proof.
  revert m. induction ops as [|op ops IH]; intros m; [done|]. cbn.
  etrans; [apply apply_op_token|apply IH].
Qed.

Lemma check_Ok m r h t now :
  lease_inv m → check m r h t now = Ok tt ↔
  t = current_token m r ∧ ∃ l, leases m !! r = Some l ∧ le_holder l = h ∧ le_token l = t ∧ (now < le_until l)%Z.
Proof.
  intros Hm. unfold check. destruct (t <? current_token m r)%Z eqn:Hlt; bool_prop.
  { split; [done|]. intros [-> _]. lia. }
  destruct (leases m !! r) as [l|] eqn:El; [|naive_solver].
  assert (Ht : current_token m r = le_token l) by (unfold current_token; by rewrite (Hm r l El)).
  case_bool_decide as Hh; cbn [negb orb]; [|naive_solver].
  destruct (le_token l =? t)%Z eqn:Et; bool_prop; cbn [negb]; [|naive_solver].
  destruct (le_until l <=? now)%Z eqn:Eu; bool_prop; [naive_solver lia|].
  split; [|done]. intros _. split; [congruence|]. exists l. split_and!; done.
Qed.

(** ** What the operations granted and released, in order *)
Inductive lease_event : Type := EGrant (g : Grant) | ERelease (r h : pystr) (token : Z).

Definition op_event (m : LeaseManager) (op : lease_op) : list lease_event :=
  match op with
  | OAcquire r h ttl now => match acquire m r h ttl now with Ok (g, _) => [EGrant g] | Raise _ => [] end
  | ORenew r h t ttl now => match renew m r h t ttl now with Ok (g, _) => [EGrant g] | Raise _ => [] end
  | ORelease r h t => [ERelease r h t]
  end.
Fixpoint history (m : LeaseManager) (ops : list lease_op) : list lease_event :=
  match ops with [] => [] | op :: ops => op_event m op ++ history (apply_op m op) ops end.

(** The grant of [r] that stands after an event: the latest one, until its holder
    releases it by its token. *)
Definition after_event (r : pystr) (standing : option Grant) (e : lease_event) : option Grant :=
  match e with
  | EGrant g => if decide (gr_resource g = r) then Some g else standing
  | ERelease r' h t =>
      match standing with
      | Some g => if decide (r' = r ∧ gr_holder g = h ∧ gr_token g = t) then None else Some g
      | None => None
      end
  end.
Definition standing (r : pystr) (es : list lease_event) : option Grant := foldl (after_event r) None es.
Definition granted_tokens (r : pystr) (es : list lease_event) : list Z :=
  omap (λ e, match e with EGrant g => if decide (gr_resource g = r) then Some (gr_token g) else None | ERelease _ _ _ => None end) es.

(** The manager after a history. *)
Record tracks (m : LeaseManager) (es : list lease_event) : Prop := {
  tr_standing : ∀ r, standing r es = (λ l, mkGrant r (le_holder l) (le_token l) (le_until l)) <$> leases m !! r;
  tr_numbers : ∀ r, granted_tokens r es = seqZ 1 (current_token m r);
  tr_positive : ∀ r, (0 <= current_token m r)%Z
}.

Lemma tracks_grant m es r h ttl now :
  tracks m es → tracks (grant m r h (current_token m r + 1) ttl now).2 (es ++ [EGrant (grant m r h (current_token m r + 1) ttl now).1]).
Proof.
  intros [Hs Hn Hp]. split; intros q.
  - unfold standing. rewrite foldl_app. cbn. case_decide as E.
    + subst q. by rewrite lookup_insert_eq.
    + rewrite lookup_insert_ne by done. apply Hs.
  - unfold granted_tokens. rewrite omap_app, grant_token. cbn. case_decide as E.
    + subst q. rewrite decide_True by done. specialize (Hn r). unfold granted_tokens in Hn. rewrite Hn.
      rewrite (seqZ_app 1 (current_token m r) 1) by (specialize (Hp r); lia). f_equal. rewrite Z.add_comm. by rewrite seqZ_cons, seqZ_nil by lia.
    + rewrite (decide_False (P := q = r)) by congruence. rewrite app_nil_r. apply Hn.
  - rewrite grant_token. case_decide; [specialize (Hp r); lia|apply Hp].
Qed.

Lemma check_token m r h t now : lease_inv m → check m r h t now = Ok tt → tokens m !! r = Some t ∧ current_token m r = t.
Proof.
  intros Hi Hc. apply check_Ok in Hc as [-> (l & Hl & _ & Ht & _)]; [|done]. split; [|done]. by rewrite <- Ht, (Hi r l Hl).
Qed.

(** A renewal is the grant of the next token. *)
Lemma renew_eq m r h t ttl now :
  lease_inv m →
  renew m r h t ttl now = (_ ← check m r h t now; Ok (grant m r h (current_token m r + 1) ttl now)).
Proof.
  intros Hi. unfold renew. destruct (check m r h t now) as [[]|e] eqn:Hc; [|done]. cbn.
  destruct (check_token _ _ _ _ _ Hi Hc) as [-> ->]. done.
Qed.

Lemma tracks_op m es op : lease_inv m → tracks m es → tracks (apply_op m op) (es ++ op_event m op).
Proof.
  intros Hi Ht. destruct op as [r h ttl now|r h t ttl now|r h t]; cbn [apply_op op_event].
  - unfold acquire. destruct (busy m r h now); cbn; [by rewrite app_nil_r|]. by apply tracks_grant.
  - rewrite renew_eq by done. destruct (check m r h t now); cbn; [|by rewrite app_nil_r]. by apply tracks_grant.
  - destruct Ht as [Hs Hn Hp]. unfold release.
    assert (Hst : ∀ q, standing q (es ++ [ERelease r h t]) = after_event q (standing q es) (ERelease r h t)) by (intros; unfold standing; by rewrite foldl_app).
    assert (Hgt : ∀ q, granted_tokens q (es ++ [ERelease r h t]) = granted_tokens q es) by (intros; unfold granted_tokens; by rewrite omap_app, app_nil_r).
    destruct (leases m !! r) as [l|] eqn:El.
    + case_bool_decide as Eh; [destruct (Z.eqb_spec (le_token l) t) as [Et|Et]|]; cbn [andb]; split; intros q; rewrite ?Hst, ?Hgt, ?Hs; try done; cbn.
      * destruct (decide (q = r)) as [->|Hne]; [rewrite El, lookup_delete_eq; cbn; by rewrite decide_True|].
        rewrite lookup_delete_ne by done. destruct (leases m !! q); cbn; [|done]. rewrite decide_False; [done|naive_solver].
      * apply Hp.
      * destruct (leases m !! q) eqn:Eq; cbn; [|done]. rewrite decide_False; [done|naive_solver].
      * destruct (leases m !! q) eqn:Eq; cbn; [|done]. rewrite decide_False; [done|naive_solver].
    + split; intros q; rewrite ?Hst, ?Hgt, ?Hs; try done. cbn.
      destruct (leases m !! q) eqn:Eq; cbn; [|done]. rewrite decide_False; [done|naive_solver].
Qed.

Lemma tracks_ops ops m es : lease_inv m → tracks m es → tracks (apply_ops m ops) (es ++ history m ops).
Proof.
  revert m es. induction ops as [|op ops IH]; intros m es Hi Ht; [by rewrite app_nil_r|]. cbn. rewrite app_assoc.
  apply IH; [by apply apply_op_inv|by apply tracks_op].
Qed.

Lemma tracks_new : tracks LeaseManager_new [].
Proof. by split. Qed.

(** A standing grant is kept, whatever others do before it expires. *)
Definition foreign (g : Grant) (op : lease_op) : Prop :=
  match op with
  | OAcquire r h _ now => r = gr_resource g → h ≠ gr_holder g ∧ (now < gr_expires g)%Z
  | ORenew r h _ _ _ | ORelease r h _ => r = gr_resource g → h ≠ gr_holder g
  end.

Lemma foreign_keeps m op l g :
  foreign g op → gr_holder g = le_holder l → gr_expires g = le_until l → leases m !! gr_resource g = Some l →
  leases (apply_op m op) !! gr_resource g = Some l.
Proof.
  intros Hf Hh Hu Hl. destruct op as [r h ttl now|r h t ttl now|r h t]; cbn in Hf |- *.
  - unfold acquire. destruct (decide (r = gr_resource g)) as [->|Hne].
    + destruct (Hf eq_refl) as [Hne Hnow]. assert (busy m (gr_resource g) h now = true) as ->; [|done].
      unfold busy. rewrite Hl, bool_decide_false by congruence. cbn. apply Z.ltb_lt. lia.
    + destruct (busy m r h now); [done|]. cbn. by rewrite lookup_insert_ne.
  - unfold renew. destruct (decide (r = gr_resource g)) as [->|Hne].
    + specialize (Hf eq_refl). unfold check. rewrite Hl, bool_decide_false by congruence. by destruct (t <? _)%Z.
    + destruct (check m r h t now); [|done]. cbn. destruct (tokens m !! r); [|done]. cbn. by rewrite lookup_insert_ne.
  - unfold release. destruct (decide (r = gr_resource g)) as [->|Hne].
    + specialize (Hf eq_refl). by rewrite Hl, bool_decide_false by congruence.
    + destruct (leases m !! r); [|done]. destruct (_ && _); [|done]. cbn. by rewrite lookup_delete_ne.
Qed.

Lemma foreign_ops_keep ops m l g :
  Forall (foreign g) ops → gr_holder g = le_holder l → gr_expires g = le_until l → leases m !! gr_resource g = Some l →
  leases (apply_ops m ops) !! gr_resource g = Some l.
Proof.
  intros Hf Hh Hu. revert m. induction Hf as [|op ops Hop _ IH]; intros m Hl; [done|]. cbn. apply IH. by apply foreign_keeps.
Qed.

(** C14: after any lease operations from the empty manager, leases are exactly
    what their history of grants and releases says.  The grants of a resource are
    numbered 1, 2, 3, ... by their tokens; a write passes the check exactly with the
    holder and token of the standing grant (the latest one, not yet released by its
    holder) before it expires; [acquire] is refused exactly while the standing grant
    belongs to another holder and has not expired, and a renewal passes exactly when
    the check does, both granting the next token until the time to live is over.  A
    standing grant keeps passing until it expires whatever others do meanwhile, and a
    token older than one granted never passes again, whatever operations follow. *)
Theorem fencing_exclusive ops :
  let m := apply_ops LeaseManager_new ops in
  let es := history LeaseManager_new ops in
  (∀ r, granted_tokens r es = seqZ 1 (current_token m r)) ∧
  (∀ r h t now, check m r h t now = Ok tt ↔
     ∃ g, standing r es = Some g ∧ gr_holder g = h ∧ gr_token g = t ∧ (now < gr_expires g)%Z) ∧
  (∀ r h ttl now, match acquire m r h ttl now with
     | Ok (g, _) => g = mkGrant r h (current_token m r + 1) (now + ttl) ∧
                    ∀ g', standing r es = Some g' → gr_holder g' = h ∨ (gr_expires g' <= now)%Z
     | Raise _ => ∃ g', standing r es = Some g' ∧ gr_holder g' ≠ h ∧ (now < gr_expires g')%Z
     end) ∧
  (∀ r h t ttl now, match renew m r h t ttl now with
     | Ok (g, _) => g = mkGrant r h (current_token m r + 1) (now + ttl) ∧ check m r h t now = Ok tt
     | Raise _ => check m r h t now ≠ Ok tt
     end) ∧
  (∀ r g ops' now, standing r es = Some g → Forall (foreign g) ops' → (now < gr_expires g)%Z →
     check (apply_ops m ops') r (gr_holder g) (gr_token g) now = Ok tt) ∧
  (∀ r old ops' h' now', (old < current_token m r)%Z → check (apply_ops m ops') r h' old now' ≠ Ok tt).
Proof.
  cbn zeta. assert (Hinv : lease_inv (apply_ops LeaseManager_new ops)) by (apply apply_ops_inv; by intros r l).
  destruct (tracks_ops ops LeaseManager_new [] ltac:(by intros r l) tracks_new) as [Hs Hn Hp]. rewrite app_nil_l in *.
  set (m := apply_ops LeaseManager_new ops) in *. set (es := history LeaseManager_new ops) in *. split_and!.
  - done.
  - intros r h t now. rewrite check_Ok, Hs by done. split.
    + intros [_ (l & -> & <- & <- & Hu)]. by eexists.
    + intros (g & Hg & <- & <- & Hu). apply fmap_Some in Hg as (l & Hl & ->). cbn in *. split; [|by eauto].
      unfold current_token. by rewrite (Hinv r l Hl).
  - intros r h ttl now. unfold acquire, busy. rewrite Hs. destruct (leases m !! r) as [l|]; cbn.
    + case_bool_decide; cbn; [split; [done|]; intros g' [= <-]; by left|].
      destruct (Z.ltb_spec now (le_until l)); cbn; [by eauto|]. split; [done|]. intros g' [= <-]. by right.
    + by split.
  - intros r h t ttl now. rewrite renew_eq by done. destruct (check m r h t now) as [[]|e]; done.
  - intros r g ops' now Hg Hf Hu. rewrite Hs in Hg. apply fmap_Some in Hg as (l & Hl & ->). cbn in *.
    assert (Hl' : leases (apply_ops m ops') !! r = Some l) by exact (foreign_ops_keep ops' m l _ Hf eq_refl eq_refl Hl).
    assert (Hinv' : lease_inv (apply_ops m ops')) by (by apply apply_ops_inv).
    apply check_Ok; [done|]. split; [|by eauto]. unfold current_token. by rewrite (Hinv' r l Hl').
  - intros r old ops' h' now' Hlt. pose proof (apply_ops_token m ops' r). unfold check. by rewrite (proj2 (Z.ltb_lt _ _)) by lia.
Qed.

(** Another holder is refused while the lease runs, and admitted after it. *)
Example lease_history_demo :
  history LeaseManager_new [OAcquire (str "r") (str "a") 10 0; OAcquire (str "r") (str "b") 10 5; OAcquire (str "r") (str "b") 10 10]
  = [EGrant (mkGrant (str "r") (str "a") 1 10); EGrant (mkGrant (str "r") (str "b") 2 20)].
Proof. vm_compute. reflexivity. Qed.
