(* ===== verification/Store.v ===== *)
(** * Ownership and the distributed state store
    (residual/dsm/ownership.py, residual/dsm/store.py)

    The store is its journal, its ownership table and its lease manager.
    Events are JSON objects; the fields the store compares or orders are read
    at the types the module documents (strings, integers), a field of another
    type raises [TypeError]. *)

From Stdlib Require Import ZArith NArith Lia.
From S2P Require Import Prelude PyData Sha256 PyFloat Json JsonFacts Core CoreFacts Storage Journal Lease.

(** ** Ownership *)
Definition DOMAINS : dict pystr :=
  [(str "task.lease", str "scheduler"); (str "receipt.publication", str "verifier");
   (str "integration.intent", str "integrator"); (str "task.terminal", str "orchestrator")].

Definition TERMINAL_STATES : list pystr := str <$> ["succeeded"; "failed"; "rejected"; "unknown"].
(** [TERMINAL_TRANSITIONS.get(current, set())]; [JNull] is [None]. *)
Definition terminal_transitions (current : json) : list pystr :=
  match current with
  | JNull => str "running" :: TERMINAL_STATES
  | JStr s => if decide (s = str "running") then TERMINAL_STATES else []
  | _ => []
  end.

Definition owner_of (mapping : dict pystr) (domain : pystr) : res pystr :=
  of_option (ContractError "unknown state domain") (dget domain mapping).
Definition check_writer (mapping : dict pystr) (domain writer : pystr) : res unit :=
  owner ← owner_of mapping domain;
  when negb (bool_decide (writer = owner)) raise ContractError "writer is not authoritative for domain";;
  Ok tt.

(** ** Events *)
Record DEvent : Type := mkDEvent {
  ev_id : pystr;
  ev_domain : pystr;
  ev_entity : pystr;
  ev_value : json;
  ev_writer : pystr;
  ev_token : Z  (* [event.get("fencing_token") or 0] *)
}.

Definition str_of (v : json) : res pystr := match v with JStr s => Ok s | _ => Raise (TypeError "expected a string") end.
Definition int_of (v : json) : res Z := match v with JInt n => Ok n | _ => Raise (TypeError "expected an integer") end.
Definition field (k : string) (d : dict json) : res pystr := v ← dgetitem (str k) d; str_of v.
Definition token_of (d : dict json) : res Z :=
  match dget (str "fencing_token") d with
  | None | Some (JNull | JStr [] | JList [] | JDict []) => Ok 0%Z
  | Some (JBool b) => Ok (Z.b2z b)
  | Some v => int_of v
  end.

Definition event_of (event : json) : res DEvent :=
  match event with
  | JDict d =>
      id ← field "event_id" d;
      domain ← field "domain" d;
      entity ← field "entity" d;
      value ← dgetitem (str "value") d;
      writer ← field "writer" d;
      token ← token_of d;
      Ok (mkDEvent id domain entity value writer token)
  | _ => Raise (TypeError "event is not an object")
  end.

(** ** The store *)
Record Store : Type := mkStore { st_journal : Journal; st_owners : dict pystr; st_leases : LeaseManager }.

(** [record["payload"]["event"]] *)
Definition record_event (r : dict json) : res json :=
  payload ← dgetitem (str "payload") r;
  match payload with
  | JDict p => dgetitem (str "event") p
  | _ => Raise (TypeError "payload is not an object")
  end.

Fixpoint transitions_of (records : list (dict json)) : res (list (dict json)) :=
  match records with
  | [] => Ok []
  | r :: records =>
      kind ← dgetitem (str "kind") r;
      rest ← transitions_of records;
      Ok (if py_eq kind (JStr (str "transition")) then r :: rest else rest)
  end.
(** [_transition_records] *)
Definition transition_records (st : Store) : res (list (dict json)) :=
  l ← replay (st_journal st) (-1); transitions_of l.

Fixpoint find_record (id : pystr) (records : list (dict json)) : res (option (dict json)) :=
  match records with
  | [] => Ok None
  | r :: records =>
      ev ← record_event r;
      e ← event_of ev;
      if bool_decide (ev_id e = id) then Ok (Some r) else find_record id records
  end.
(** [_find] *)
Definition find_event (st : Store) (id : pystr) : res (option (dict json)) :=
  l ← transition_records st; find_record id l.

(** [recover(root)] on the retained journal text *)
Definition recover (text : pystr) (owners : dict pystr) (leases : LeaseManager) : res Store :=
  j ← Journal_open text; Ok (mkStore j owners leases).

Definition accepted_events (st : Store) (domain entity : pystr) : res (list DEvent) :=
  l ← transition_records st;
  es ← mapM (λ r, ev ← record_event r; event_of ev) l;
  Ok (filter (λ e, ev_domain e = domain ∧ ev_entity e = entity) es).

(** [a > b] on the order keys [(fencing_token or 0, writer, event_id)] *)
Definition key_gt (a b : DEvent) : bool :=
  if (ev_token a =? ev_token b)%Z then
    match str_compare (ev_writer a) (ev_writer b) with
    | Gt => true
    | Lt => false
    | Eq => str_ltb (ev_id b) (ev_id a)
    end
  else (ev_token b <? ev_token a)%Z.
(** [max(events, key=_order_key)]: the first of the greatest. *)
Definition max_event (e : DEvent) (es : list DEvent) : DEvent :=
  foldl (λ best x, if key_gt x best then x else best) e es.

Definition current_value (st : Store) (domain entity : pystr) : res json :=
  es ← accepted_events st domain entity;
  Ok (match es with [] => JNull | e :: es => ev_value (max_event e es) end).

(** ** Admission *)
Record Ack : Type := mkAck { ack_seq : json; ack_hash : json; ack_duplicate : bool }.
Definition ack_of (r : dict json) (duplicate : bool) : res Ack :=
  seq ← dgetitem (str "seq") r; h ← dgetitem (str "hash") r; Ok (mkAck seq h duplicate).

Definition required_fields : list string := ["event_id"; "domain"; "entity"; "value"; "writer"].

(** [value not in allowed] *)
Definition value_allowed (value : json) (allowed : list pystr) : res bool :=
  match value with
  | JStr s => Ok (bool_decide (s ∈ allowed))
  | JList _ | JDict _ => Raise (TypeError "unhashable type")
  | _ => Ok false
  end.

(** Steps 2 to 4: ownership, fencing, terminal legality. *)
Definition admission (st : Store) (event : dict json) (e : DEvent) : res unit :=
  _ ← check_writer (st_owners st) (ev_domain e) (ev_writer e);
  _ ← (if decide (ev_domain e = str "task.lease") then
         holder ← field "writer_holder" event;
         token ← dgetitem (str "fencing_token") event;
         token ← int_of token;
         now ← dgetitem (str "now_ms") event;
         now ← int_of now;
         check (st_leases st) (ev_entity e) holder token now
       else Ok tt);
  if decide (ev_domain e = str "task.terminal") then
    current ← current_value st (str "task.terminal") (ev_entity e);
    allowed ← value_allowed (ev_value e) (terminal_transitions current);
    when negb allowed raise ContractError "illegal terminal transition";;
    Ok tt
  else Ok tt.

(** [submit]; [crash] is [crash_after == "journal_write"]. *)
Definition submit (event : dict json) (crash : bool) (time_ns : Z) : SM Store Ack :=
  st ← sm_get;
  if negb (forallb (λ k, dmem (str k) event) required_fields)
  then sm_raise (ContractError "event missing required field")
  else
    e ← sm_lift (event_of (JDict event));
    existing ← sm_lift (find_event st (ev_id e));
    match existing with
    | Some r => sm_lift (ack_of r true)
    | None =>
        _ ← sm_lift (admission st event e);
        '(j, r) ← sm_lift (append (st_journal st) (str "transition") (jobj [("event", JDict event)]) time_ns);
        _ ← sm_mod (λ st, mkStore j (st_owners st) (st_leases st));
        if crash then sm_raise (RuntimeError "process died between journal write and acknowledgement")
        else sm_lift (ack_of r false)
    end.

(** [provenance] *)
Definition provenance (st : Store) (id : pystr) : res (dict json) :=
  r ← find_event st id;
  match r with
  | None => Raise (ContractError "unknown accepted event")
  | Some r =>
      seq ← dgetitem (str "seq") r; h ← dgetitem (str "hash") r; prev ← dgetitem (str "prev_hash") r;
      ev ← record_event r;
      Ok [(str "seq", seq); (str "hash", h); (str "prev_hash", prev); (str "event", ev)]
  end.

(** [accepted_transitions] *)
Definition transition_entry (r : dict json) : res json :=
  seq ← dgetitem (str "seq") r; h ← dgetitem (str "hash") r;
  ev ← record_event r; e ← event_of ev;
  raw ← match ev with JDict d => Ok d | _ => Raise (TypeError "event is not an object") end;
  Ok (jobj [("seq", seq); ("hash", h); ("event_id", JStr (ev_id e)); ("domain", JStr (ev_domain e));
            ("entity", JStr (ev_entity e)); ("writer", JStr (ev_writer e)); ("value", ev_value e);
            ("fencing_token", default JNull (dget (str "fencing_token") raw))]).
Definition accepted_transitions (st : Store) : res (list json) :=
  l ← transition_records st; mapM transition_entry l.

(** ** The invariant of a store *)
Definition entry (r : dict json) : res DEvent := ev ← record_event r; event_of ev.

(** [rs] are the transition records, [es] their events. *)
Record store_ok (st : Store) (rs : list (dict json)) (es : list DEvent) : Prop := {
  so_records : transition_records st = Ok rs;
  so_events : Forall2 (λ r e, entry r = Ok e) rs es;
  so_unique : NoDup (ev_id <$> es);
  so_owners : Forall (λ e, dget (ev_domain e) (st_owners st) = Some (ev_writer e)) es
}.

Lemma find_record_none id rs es :
  Forall2 (λ r e, entry r = Ok e) rs es → find_record id rs = Ok None ↔ id ∉ ev_id <$> es.
Proof.
  induction 1 as [|r e rs es Hr Hrs IH]; cbn; [split; [intros _; apply not_elem_of_nil|done]|].
  unfold entry in Hr. apply bind_Ok in Hr as (ev & Hev & He). rewrite Hev. cbn. rewrite He. cbn.
  rewrite not_elem_of_cons. case_bool_decide as E; [naive_solver|]. rewrite IH. naive_solver.
Qed.

Lemma find_record_some id rs es r :
  Forall2 (λ r e, entry r = Ok e) rs es → find_record id rs = Ok (Some r) →
  r ∈ rs ∧ ∃ e, e ∈ es ∧ entry r = Ok e ∧ ev_id e = id.
Proof.
  induction 1 as [|q e rs es Hq Hrs IH]; cbn; [done|]. assert (Hq' := Hq).
  unfold entry in Hq'. apply bind_Ok in Hq' as (ev & Hev & He). rewrite Hev. cbn. rewrite He. cbn.
  case_bool_decide as E.
  - intros [= <-]. split; [apply list_elem_of_here|]. exists e. split; [apply list_elem_of_here|done].
  - intros H. destruct (IH H) as (Hin & x & Hx & Hx1 & Hx2). split; [by apply list_elem_of_further|].
    exists x. split; [by apply list_elem_of_further|done].
Qed.

Lemma find_record_total id rs es :
  Forall2 (λ r e, entry r = Ok e) rs es → ∃ o, find_record id rs = Ok o.
Proof.
  induction 1 as [|q e rs es Hq Hrs IH]; cbn; [eauto|]. unfold entry in Hq.
  apply bind_Ok in Hq as (ev & Hev & He). rewrite Hev. cbn. rewrite He. cbn. case_bool_decide; eauto.
Qed.

Lemma find_record_snoc id rs es r e :
  Forall2 (λ r e, entry r = Ok e) rs es → find_record id rs = Ok None → entry r = Ok e → ev_id e = id →
  find_record id (rs ++ [r]) = Ok (Some r).
Proof.
  induction 1 as [|q x rs es Hq Hrs IH]; cbn; intros Hn Hr Hid.
  - unfold entry in Hr. apply bind_Ok in Hr as (ev & Hev & He). rewrite Hev. cbn. rewrite He. cbn.
    by rewrite bool_decide_eq_true_2.
  - unfold entry in Hq. apply bind_Ok in Hq as (ev & Hev & He). rewrite Hev in *. cbn in *. rewrite He in *. cbn in *.
    case_bool_decide; [done|]. by apply IH.
Qed.

Lemma replay_snoc n rs r l seq :
  replay_records n rs = Ok l → dgetitem (str "seq") r = Ok seq → seq_after n seq = Ok true →
  replay_records n (rs ++ [r]) = Ok (l ++ [r]).
Proof.
  intros Hl Hs Ha. revert l Hl. induction rs as [|q rs IH]; intros l Hl; cbn in *.
  - injection Hl as <-. rewrite Hs. cbn. by rewrite Ha.
  - apply bind_Ok in Hl as (sq & Hsq & Hl). apply bind_Ok in Hl as (b & Hb & Hl).
    apply bind_Ok in Hl as (rest & Hrest & [= <-]). rewrite Hsq. cbn. rewrite Hb. cbn.
    rewrite (IH _ Hrest). cbn. by destruct b.
Qed.

Lemma transitions_snoc rs r l :
  transitions_of rs = Ok l → dgetitem (str "kind") r = Ok (JStr (str "transition")) →
  transitions_of (rs ++ [r]) = Ok (l ++ [r]).
Proof.
  intros Hl Hk. revert l Hl. induction rs as [|q rs IH]; intros l Hl; cbn in *.
  - injection Hl as <-. by rewrite Hk.
  - apply bind_Ok in Hl as (kq & Hkq & Hl). apply bind_Ok in Hl as (rest & Hrest & [= <-]).
    rewrite Hkq. cbn. rewrite (IH _ Hrest). cbn. by destruct (py_eq kq _).
Qed.

(** A journaled submission is the last transition record. *)
Lemma append_transition st rs event time j r owners leases_ :
  transition_records st = Ok rs →
  append (st_journal st) (str "transition") (jobj [("event", JDict event)]) time = Ok (j, r) →
  transition_records (mkStore j owners leases_) = Ok (rs ++ [r]) ∧ record_event r = Ok (JDict event) ∧
  ∃ h, ack_of r true = Ok (mkAck (JInt (Z.of_nat (length (j_records (st_journal st))))) (JStr h) true) ∧
       ack_of r false = Ok (mkAck (JInt (Z.of_nat (length (j_records (st_journal st))))) (JStr h) false).
Proof.
  intros Hrs Ha. unfold append in Ha. apply bind_Ok in Ha as (h & _ & Ha). apply bind_Ok in Ha as (line & _ & Ha).
  apply bind_Ok in Ha as (? & _ & [= <- <-]). unfold transition_records, replay in *. cbn [st_journal j_records].
  apply bind_Ok in Hrs as (l & Hl & Hrs). split_and!; [|done|by exists h].
  erewrite replay_snoc; [|exact Hl|reflexivity|cbn [seq_after]; f_equal; apply Z.ltb_lt; lia]. cbn [mbind res_bind].
  by apply transitions_snoc.
Qed.

Lemma admission_owner st event e : admission st event e = Ok tt → dget (ev_domain e) (st_owners st) = Some (ev_writer e).
Proof.
  unfold admission, check_writer, owner_of. intros H. apply bind_Ok in H as ([] & H & _).
  apply bind_Ok in H as (o & Ho & H). pass_guard H. bool_prop. apply of_option_Ok in Ho. by subst.
Qed.

(** The three ways a submission ends. *)
Lemma submit_cases st rs es event crash time out st' :
  store_ok st rs es → submit event crash time st = (out, st') →
  (st' = st ∧ ((∃ x, out = Raise x) ∨ ∃ e r a, event_of (JDict event) = Ok e ∧
     find_record (ev_id e) rs = Ok (Some r) ∧ ack_of r true = Ok a ∧ out = Ok a)) ∨
  (∃ e r, event_of (JDict event) = Ok e ∧ ¬ (ev_id e ∈ ev_id <$> es) ∧ admission st event e = Ok tt ∧
     entry r = Ok e ∧ st_owners st' = st_owners st ∧ st_leases st' = st_leases st ∧
     store_ok st' (rs ++ [r]) (es ++ [e]) ∧
     ∃ seq h, ack_of r true = Ok (mkAck seq h true) ∧
       out = if crash then Raise (RuntimeError "process died between journal write and acknowledgement")
             else Ok (mkAck seq h false)).
Proof.
  intros [Hrs Hes Hnd Hown] H. unfold submit in H. unfold mbind at 1, SM_bind at 1, sm_get in H.
  destruct (negb _); [injection H as <- <-; left; eauto|].
  unfold mbind at 1, SM_bind at 1, sm_lift at 1 in H. destruct (event_of (JDict event)) as [e|x] eqn:He;
    [|injection H as <- <-; left; eauto].
  unfold find_event in H. rewrite Hrs in H. cbn [mbind res_bind] in H.
  unfold mbind at 1, SM_bind at 1, sm_lift at 1 in H. destruct (find_record_total (ev_id e) rs es Hes) as [o Ho].
  rewrite Ho in H. destruct o as [r|].
  { unfold sm_lift in H. injection H as <- <-. left. split; [done|].
    destruct (ack_of r true) as [a|x] eqn:Ea; [right; by exists e, r, a|left; eauto]. }
  unfold mbind at 1, SM_bind at 1, sm_lift at 1 in H. destruct (admission st event e) as [[]|x] eqn:Hadm;
    [|injection H as <- <-; left; eauto].
  unfold mbind at 1, SM_bind at 1, sm_lift at 1 in H.
  destruct (append _ _ _ _) as [[j r]|x] eqn:Ha; [|injection H as <- <-; left; eauto].
  unfold mbind at 1, SM_bind at 1, sm_mod at 1 in H.
  destruct (append_transition st rs event time j r (st_owners st) (st_leases st) Hrs Ha) as (Htr & Hre & h & Ha1 & Ha2).
  right. exists e, r. assert (Hr : entry r = Ok e) by (unfold entry; by rewrite Hre).
  apply (find_record_none _ _ _ Hes) in Ho.
  assert (Hst : store_ok (mkStore j (st_owners st) (st_leases st)) (rs ++ [r]) (es ++ [e])).
  { split; [done| | |].
    - apply Forall2_app; [done|by repeat constructor].
    - rewrite fmap_app. apply NoDup_app. split; [done|]. split; [|apply NoDup_singleton].
      intros x Hx Hx'. apply list_elem_of_singleton in Hx' as ->. done.
    - apply Forall_app. split; [done|]. repeat constructor. cbn. by eapply admission_owner. }
  destruct crash; [injection H as <- <-|unfold sm_lift in H; rewrite Ha2 in H; injection H as <- <-];
    split_and!; try done; eauto.
Qed.

(** ** Sequences of submissions *)
Definition empty_store (owners : dict pystr) (leases_ : LeaseManager) : Store :=
  mkStore (mkJournal [] [] (JStr genesis)) owners leases_.

(** A submission, and a whole sequence; the caller ignores the outcomes. *)
Record submission : Type := mkSubmission { sub_event : dict json; sub_crash : bool; sub_time : Z }.
Definition submit_all (st : Store) (l : list submission) : Store :=
  foldl (λ st x, (submit (sub_event x) (sub_crash x) (sub_time x) st).2) st l.

Lemma empty_store_ok owners leases_ : store_ok (empty_store owners leases_) [] [].
Proof. split; [done|constructor|apply NoDup_nil_2|constructor]. Qed.

Lemma submit_all_ok st rs es l :
  store_ok st rs es →
  ∃ rs' es', store_ok (submit_all st l) (rs ++ rs') (es ++ es') ∧ st_owners (submit_all st l) = st_owners st.
Proof.
  revert st rs es. induction l as [|x l IH]; intros st rs es Hst.
  { exists [], []. by rewrite !app_nil_r. }
  unfold submit_all. cbn [foldl]. fold (submit_all (submit (sub_event x) (sub_crash x) (sub_time x) st).2 l).
  destruct (submit (sub_event x) (sub_crash x) (sub_time x) st) as [out st1] eqn:E. cbn [snd].
  destruct (submit_cases _ _ _ _ _ _ _ _ Hst E) as [[-> _]|(e & r & _ & _ & _ & _ & Ho & _ & Hst1 & _)]; [by apply IH|].
  destruct (IH _ _ _ Hst1) as (rs' & es' & H & Ho').
  exists (r :: rs'), (e :: es'). rewrite <- !app_assoc in H. split; [exact H|congruence].
Qed.

Lemma find_record_app id rs rs' r : find_record id rs = Ok (Some r) → find_record id (rs ++ rs') = Ok (Some r).
Proof.
  induction rs as [|q rs IH]; cbn; [done|]. intros H. apply bind_Ok in H as (ev & Hev & H). rewrite Hev. cbn.
  apply bind_Ok in H as (e & He & H). rewrite He. cbn. case_bool_decide; [done|]. by apply IH.
Qed.

Lemma event_of_fields event e :
  event_of (JDict event) = Ok e → forallb (λ k, dmem (str k) event) required_fields = true.
Proof.
  unfold event_of, field. intros H. cbn [required_fields forallb].
  assert (∀ k v, dgetitem (str k) event = Ok v → dmem (str k) event = true) as Hd
    by (intros k v Hk; apply dgetitem_Ok in Hk; unfold dmem; by rewrite Hk).
  apply bind_Ok in H as (a & Ha & H). apply bind_Ok in Ha as (? & Ha & _).
  apply bind_Ok in H as (b & Hb & H). apply bind_Ok in Hb as (? & Hb & _).
  apply bind_Ok in H as (c & Hc & H). apply bind_Ok in Hc as (? & Hc & _).
  apply bind_Ok in H as (v & Hv & H). apply bind_Ok in H as (w & Hw & _). apply bind_Ok in Hw as (? & Hw & _).
  by rewrite (Hd _ _ Ha), (Hd _ _ Hb), (Hd _ _ Hc), (Hd _ _ Hv), (Hd _ _ Hw).
Qed.

Lemma submit_duplicate st rs es event crash time e r a :
  store_ok st rs es → event_of (JDict event) = Ok e → find_record (ev_id e) rs = Ok (Some r) → ack_of r true = Ok a →
  submit event crash time st = (Ok a, st).
Proof.
  intros Hst He Hf Ha. unfold submit. unfold mbind at 1, SM_bind at 1, sm_get.
  rewrite (event_of_fields _ _ He). cbn [negb]. unfold mbind at 1, SM_bind at 1, sm_lift at 1. rewrite He.
  unfold mbind at 1, SM_bind at 1, sm_lift at 1. unfold find_event. rewrite (so_records _ _ _ Hst).
  cbn [mbind res_bind]. rewrite Hf. unfold sm_lift. by rewrite Ha.
Qed.

(** C12: transitions are accepted at most once.  Start from an empty store and
    submit anything, with crashes between the journal write and the
    acknowledgement at will: the accepted event ids stay distinct and every
    accepted writer is the owner of its domain.  Once a submission has changed
    the store, whether it was acknowledged or crashed, every later submission
    with its event id is answered as a duplicate with the same sequence number
    and hash and changes nothing. *)
Theorem submit_at_most_once owners leases_ l st event crash time out st' :
  st = submit_all (empty_store owners leases_) l → submit event crash time st = (out, st') → st' ≠ st →
  (∃ rs es, store_ok st' rs es) ∧
  ∃ e seq h, event_of (JDict event) = Ok e ∧
    ∀ l' event' e' crash' time', event_of (JDict event') = Ok e' → ev_id e' = ev_id e →
      submit event' crash' time' (submit_all st' l') = (Ok (mkAck seq h true), submit_all st' l').
Proof.
  intros -> Hs Hne. destruct (submit_all_ok _ _ _ l (empty_store_ok owners leases_)) as (rs & es & Hst & _).
  destruct (submit_cases _ _ _ _ _ _ _ _ Hst Hs) as [[? _]|(e & r & He & Hid & _ & Hr & _ & _ & Hst1 & seq & h & Hack & _)];
    [done|].
  split; [by eexists _, _|]. exists e, seq, h. split; [done|].
  intros l' event' e' crash' time' He' Hid'.
  destruct (submit_all_ok _ _ _ l' Hst1) as (rs' & es' & Hst2 & _).
  eapply submit_duplicate; [exact Hst2|exact He'| |exact Hack]. rewrite Hid'. apply find_record_app.
  eapply find_record_snoc; [exact (so_events _ _ _ Hst)| |exact Hr|done].
  by apply (find_record_none _ _ _ (so_events _ _ _ Hst)).
Qed.

(** ** Projections *)
Lemma mapM_Forall2 rs es : Forall2 (λ r e, entry r = Ok e) rs es → mapM (λ r, ev ← record_event r; event_of ev) rs = Ok es.
Proof. intros H. by apply mapM_res_Ok. Qed.

Lemma accepted_events_ok st rs es d n :
  store_ok st rs es → accepted_events st d n = Ok (filter (λ e, ev_domain e = d ∧ ev_entity e = n) es).
Proof.
  intros [Hrs Hes _ _]. unfold accepted_events. rewrite Hrs. cbn [mbind res_bind].
  by rewrite (mapM_Forall2 _ _ Hes).
Qed.

(** The winner of an increasing sequence is its last element. *)
Fixpoint increasing (e : DEvent) (es : list DEvent) : Prop :=
  match es with
  | [] => True
  | x :: es => key_gt x e = true ∧ increasing x es
  end.

Lemma max_increasing e es : increasing e es → max_event e es = List.last es e.
Proof.
  revert e. induction es as [|x es IH]; intros e; cbn [increasing]; [done|]. intros [Hx Hi].
  unfold max_event. cbn [foldl]. rewrite Hx. fold (max_event x es). rewrite IH by done.
  destruct es as [|y es]; [done|]. change (List.last (x :: y :: es) e) with (List.last (y :: es) e).
  clear. revert y. induction es as [|z es IH]; intros y; [done|].
  change (List.last (y :: z :: es) x) with (List.last (z :: es) x).
  change (List.last (y :: z :: es) e) with (List.last (z :: es) e). apply IH.
Qed.

(** No transition leaves a terminal state. *)
Lemma terminal_transitions_terminal s : s ∈ TERMINAL_STATES → terminal_transitions (JStr s) = [].
Proof.
  intros Hs. cbn [terminal_transitions]. destruct (decide (s = str "running")) as [->|]; [|done].
  by apply (bool_decide_eq_true _) in Hs.
Qed.

Lemma value_allowed_nil v : value_allowed v [] ≠ Ok true.
Proof. by destruct v. Qed.

(** Terminal states absorb, as long as order keys grow.  When the accepted
    terminal events of a task have increasing order keys (fencing token,
    writer, event id) and the last one put the task in a terminal state, that
    state is the projection and no submission for the task is accepted any
    more: the store is unchanged, whatever is submitted. *)
Theorem terminal_absorbing owners leases_ l st task e es s :
  st = submit_all (empty_store owners leases_) l →
  accepted_events st (str "task.terminal") task = Ok (e :: es) → increasing e es →
  ev_value (List.last es e) = JStr s → s ∈ TERMINAL_STATES →
  current_value st (str "task.terminal") task = Ok (JStr s) ∧
  ∀ event crash time x, event_of (JDict event) = Ok x →
    ev_domain x = str "task.terminal" → ev_entity x = task → (submit event crash time st).2 = st.
Proof.
  intros Hst Hes Hi Hv Hs.
  destruct (submit_all_ok _ _ _ l (empty_store_ok owners leases_)) as (rs & xs & Hok & _). rewrite <- Hst in Hok.
  assert (Hc : current_value st (str "task.terminal") task = Ok (JStr s)).
  { unfold current_value. rewrite Hes. cbn [mbind res_bind]. by rewrite max_increasing, Hv. }
  split; [done|]. intros event crash time x Hx Hd Hn.
  destruct (submit event crash time st) as [out st'] eqn:E. cbn [snd].
  destruct (submit_cases _ _ _ _ _ _ _ _ Hok E) as [[-> _]|(y & r & Hy & _ & Hadm & _)]; [done|]. exfalso.
  assert (y = x) as -> by congruence. unfold admission in Hadm. rewrite Hd, Hn in Hadm.
  apply bind_Ok in Hadm as (_ & _ & Hadm). rewrite (decide_False (P:=str "task.terminal" = str "task.lease")) in Hadm by done. cbn [mbind res_bind] in Hadm.
  rewrite decide_True, Hc in Hadm by done. cbn [mbind res_bind] in Hadm.
  rewrite terminal_transitions_terminal in Hadm by done. apply bind_Ok in Hadm as ([] & Ha & Hadm).
  - by apply value_allowed_nil in Ha.
  - pass_guard Hadm. bool_prop. done.
Qed.

(** ** Concrete stores *)
Definition terminal_event (id value : string) : dict json :=
  [(str "event_id", JStr (str id)); (str "domain", JStr (str "task.terminal")); (str "entity", JStr (str "t"));
   (str "value", JStr (str value)); (str "writer", JStr (str "orchestrator"))].
Definition plain (d : dict json) : submission := mkSubmission d false 0.
Definition terminal_store (l : list (string * string)) : Store :=
  submit_all (empty_store DOMAINS (LeaseManager_new)) ((λ p, plain (terminal_event p.1 p.2)) <$> l).

Definition absorbed_store : Store := terminal_store [("e1", "running"); ("e2", "succeeded")].

Lemma submit_at_most_once_witness :
  let st := empty_store DOMAINS LeaseManager_new in
  let s := submit (terminal_event "e1" "running") true 0 st in
  ∃ e seq h, event_of (JDict (terminal_event "e1" "running")) = Ok e ∧
    ∀ l' event' e' crash' time', event_of (JDict event') = Ok e' → ev_id e' = ev_id e →
      submit event' crash' time' (submit_all s.2 l') = (Ok (mkAck seq h true), submit_all s.2 l').
Proof.
  intros st s. apply (submit_at_most_once DOMAINS LeaseManager_new [] st (terminal_event "e1" "running") true 0 s.1 s.2).
  - reflexivity.
  - unfold s. by destruct (submit _ _ _ st).
  - intros H. apply (f_equal (λ st, length (j_records (st_journal st)))) in H. by vm_compute in H.
Defined.

Lemma terminal_absorbing_witness : current_value absorbed_store (str "task.terminal") (str "t") = Ok (JStr (str "succeeded")).
Proof.
  eapply (terminal_absorbing DOMAINS LeaseManager_new
    ((λ p, plain (terminal_event p.1 p.2)) <$> [("e1", "running"); ("e2", "succeeded")]) absorbed_store (str "t")).
  - reflexivity.
  - vm_compute. reflexivity.
  - vm_compute. split; [reflexivity|exact I].
  - vm_compute. reflexivity.
  - apply (bool_decide_eq_true_1 _). vm_compute. reflexivity.
Defined.

(** Terminal states do not absorb when order keys do not grow: a task whose
    running event has a greater id than its succeeded event is still projected
    as running, and a later failed event for it is accepted too. *)
Theorem terminal_not_absorbing :
  let st := terminal_store [("e2", "running"); ("e1", "succeeded")] in
  current_value st (str "task.terminal") (str "t") = Ok (JStr (str "running")) ∧
  ack_duplicate <$> (submit (terminal_event "e0" "failed") false 0 st).1 = Ok false.
Proof. vm_compute. split; reflexivity. Qed.
