(* ===== verification/Delivery.v ===== *)
(** * Durable delivery over a faulty channel
    (residual/dsm/delivery.py, residual/dsm/faults.py and the fault matrix of
    residual/dsm/evidence.py)

    Outbox, inbox and acknowledgement log each keep a hash-chained journal.
    The channel applies a fault schedule to the ordered send stream. *)

From Stdlib Require Import ZArith NArith Lia.
From S2P Require Import Prelude PyData Sha256 PyFloat Json JsonFacts Core CoreFacts Storage Journal Lease Store.

Abbreviation event := (dict json).
Definition event_id (e : event) : res pystr := field "event_id" e.
Definition payload_of (r : dict json) : res (dict json) :=
  p ← dgetitem (str "payload") r;
  match p with JDict p => Ok p | _ => Raise (TypeError "payload is not an object") end.

(** ** Acknowledgements *)
Record AckLog : Type := mkAckLog { al_journal : Journal; al_acked : gset pystr }.

Definition AckLog_open (text : pystr) : res AckLog :=
  j ← Journal_open text;
  rs ← replay j (-1);
  ids ← mapM (λ r, p ← payload_of r; field "event_id" p) rs;
  Ok (mkAckLog j (list_to_set ids)).

Definition is_acked (a : AckLog) (id : pystr) : bool := bool_decide (id ∈ al_acked a).

(** [AckLog.ack] *)
Definition ack (a : AckLog) (id : pystr) (time_ns : Z) : res (bool * AckLog) :=
  if is_acked a id then Ok (false, a)
  else
    '(j, _) ← append (al_journal a) (str "ack") (jobj [("event_id", JStr id)]) time_ns;
    Ok (true, mkAckLog j ({[id]} ∪ al_acked a)).

(** ** Outbox *)
Record Outbox : Type := mkOutbox { ob_journal : Journal; ob_acks : AckLog; ob_sent : dict event }.

Definition as_event (v : json) : res event :=
  match v with JDict d => Ok d | _ => Raise (TypeError "event is not an object") end.

(** The records of one kind. *)
Fixpoint of_kind (kind : pystr) (records : list (dict json)) : res (list (dict json)) :=
  match records with
  | [] => Ok []
  | r :: records =>
      k ← dgetitem (str "kind") r;
      rest ← of_kind kind records;
      Ok (if py_eq k (JStr kind) then r :: rest else rest)
  end.

Definition Outbox_open (text acks_text : pystr) : res Outbox :=
  j ← Journal_open text;
  acks ← AckLog_open acks_text;
  rs ← replay j (-1);
  sends ← of_kind (str "send") rs;
  sent ← mapM (λ r, v ← record_event r; e ← as_event v; id ← event_id e; Ok (id, e)) sends;
  Ok (mkOutbox j acks (dict_of sent)).

Definition publish (ob : Outbox) (e : event) (time_ns : Z) : res (pystr * Outbox) :=
  eid ← event_id e;
  if dmem eid (ob_sent ob) then Ok (eid, ob)
  else
    '(j, _) ← append (ob_journal ob) (str "send") (jobj [("event", JDict e)]) time_ns;
    Ok (eid, mkOutbox j (ob_acks ob) (dset eid e (ob_sent ob))).

(** [sorted(self._sent.items())]: the keys are distinct, so they decide. *)
Definition pending (ob : Outbox) : list event :=
  snd <$> filter (λ p, is_acked (ob_acks ob) p.1 = false) (sort_by key_leb (ob_sent ob)).

Definition outbox_ack (ob : Outbox) (id : pystr) (time_ns : Z) : res (bool * Outbox) :=
  '(b, a) ← ack (ob_acks ob) id time_ns;
  Ok (b, mkOutbox (ob_journal ob) a (ob_sent ob)).

(** ** Inbox *)
Record Inbox : Type := mkInbox { ib_journal : Journal; ib_seen : dict json }.

Definition Inbox_open (text : pystr) : res Inbox :=
  j ← Journal_open text;
  rs ← replay j (-1);
  delivers ← of_kind (str "deliver") rs;
  seen ← mapM (λ r, v ← record_event r; e ← as_event v; id ← event_id e;
                     p ← payload_of r; d ← dgetitem (str "disposition") p; Ok (id, d)) delivers;
  Ok (mkInbox j (dict_of seen)).

(** [deliver]: [true] is ["accepted"], [false] is ["duplicate"]. *)
Definition deliver (ib : Inbox) (e : event) (time_ns : Z) : res (bool * Inbox) :=
  eid ← event_id e;
  if dmem eid (ib_seen ib) then Ok (false, ib)
  else
    '(j, _) ← append (ib_journal ib) (str "deliver")
                (jobj [("event", JDict e); ("disposition", JStr (str "accepted"))]) time_ns;
    Ok (true, mkInbox j (dset eid (JStr (str "accepted")) (ib_seen ib))).

Definition seen (ib : Inbox) (id : pystr) : bool := dmem id (ib_seen ib).

(** ** The channel *)
Inductive FaultKind : Type := FDuplicate | FDelay | FReorder | FLoss.
#[export] Instance FaultKind_eq_dec : EqDecision FaultKind.
Proof. solve_decision. Defined.

Record Fault : Type := mkFault { f_at : Z; f_kind : FaultKind; f_param : Z }.
Abbreviation FaultSchedule := (list Fault).

(** The faults of one kind at a send index; the last one wins. *)
Definition fault_at (s : FaultSchedule) (index : Z) (k : FaultKind) : option Fault :=
  last (filter (λ f, f_at f = index ∧ f_kind f = k) s).
Definition has_fault (s : FaultSchedule) (index : Z) (k : FaultKind) : bool :=
  bool_decide (is_Some (fault_at s index k)).

(** [messages[i]] and [messages[i] = m], with Python's negative indices *)
Definition py_index (n : nat) (i : Z) : res nat :=
  let j := if (i <? 0)%Z then (i + Z.of_nat n)%Z else i in
  if (0 <=? j)%Z && (j <? Z.of_nat n)%Z then Ok (Z.to_nat j) else Raise (IndexError "list index out of range").

Section channel.
Context {M : Type}.
Implicit Types messages : list M.

(** One reorder fault. *)
Definition swap_at messages (at_ : Z) : res (list M) :=
  if (at_ + 1 <? Z.of_nat (length messages))%Z then
    i ← py_index (length messages) at_;
    j ← py_index (length messages) (at_ + 1);
    match messages !! i, messages !! j with
    | Some a, Some b => Ok (<[j := a]> (<[i := b]> messages))
    | _, _ => Raise (IndexError "list index out of range")
    end
  else Ok messages.

Fixpoint swap_all messages (l : list Z) : res (list M) :=
  match l with
  | [] => Ok messages
  | at_ :: l => messages ← swap_at messages at_; swap_all messages l
  end.

(** [sorted(swap)]: the distinct indices of the reorder faults *)
Definition swap_indices (s : FaultSchedule) : list Z :=
  sort_by Z.leb (remove_dups (f_at <$> filter (λ f, f_kind f = FReorder) s)).

(** [held[i] -= 1] for every held message *)
Definition tick (held : list (M * Z)) : list (M * Z) := (λ p, (p.1, (p.2 - 1)%Z)) <$> held.
Definition due (held : list (M * Z)) : list M := fst <$> filter (λ p, (p.2 <= 0)%Z) (tick held).
Definition waiting (held : list (M * Z)) : list (M * Z) := filter (λ p, (0 < p.2)%Z) (tick held).

(** [max(1, param or 1)] *)
Definition delay_cycles (f : Fault) : Z := Z.max 1 (if (f_param f =? 0)%Z then 1 else f_param f).

(** The send loop.  Messages are held in index order, which is the order
    they are sent in. *)
Fixpoint pump (s : FaultSchedule) (index : Z) messages (held : list (M * Z)) : list M :=
  match messages with
  | [] => fst <$> held
  | m :: messages =>
      due held ++
      (if has_fault s index FLoss then pump s (index + 1) messages (waiting held)
       else match fault_at s index FDelay with
            | Some f => pump s (index + 1) messages (waiting held ++ [(m, delay_cycles f)])
            | None =>
                (if has_fault s index FDuplicate then [m; m] else [m]) ++ pump s (index + 1) messages (waiting held)
            end)
  end.

Definition transmit (s : FaultSchedule) messages : res (list M) :=
  messages ← swap_all messages (swap_indices s);
  Ok (pump s 0 messages []).
End channel.
Arguments swap_indices : clear implicits.

(** ** The fault matrix *)
(** [if inbox.deliver(event) == "accepted": outbox.ack(event["event_id"])] *)
Definition receive (w : Outbox * Inbox) (e : event) : res (Outbox * Inbox) :=
  '(accepted, ib) ← deliver w.2 e 0;
  if (accepted : bool) then
    eid ← event_id e;
    '(_, ob) ← outbox_ack w.1 eid 0;
    Ok (ob, ib)
  else Ok (w.1, ib).
Fixpoint receive_all (w : Outbox * Inbox) (l : list event) : res (Outbox * Inbox) :=
  match l with
  | [] => Ok w
  | e :: l => w ← receive w e; receive_all w l
  end.
Fixpoint publish_all (ob : Outbox) (l : list event) : res Outbox :=
  match l with
  | [] => Ok ob
  | e :: l => '(_, ob) ← publish ob e 0; publish_all ob l
  end.

Definition is_accepted (r : dict json) : res bool :=
  p ← payload_of r; d ← dgetitem (str "disposition") p; Ok (py_eq d (JStr (str "accepted"))).
Fixpoint accepted_of (records : list (dict json)) : res (list pystr) :=
  match records with
  | [] => Ok []
  | r :: records =>
      k ← dgetitem (str "kind") r;
      yes ← (if py_eq k (JStr (str "deliver")) then is_accepted r else Ok false);
      if (yes : bool) then
        v ← record_event r; e ← as_event v; id ← event_id e;
        rest ← accepted_of records; Ok (id :: rest)
      else accepted_of records
  end.

Record FaultCase : Type := mkCase {
  fc_trace : list pystr;
  fc_duplicates : nat;
  fc_retransmitted : list pystr;
  fc_accepted : list pystr;
  fc_converged : bool;
  fc_idempotent : bool
}.

(** One case: publish, a pass over the faulty channel, a clean pass over what
    is still pending. *)
Definition run_case (base_events : list event) (s : FaultSchedule) : res FaultCase :=
  expected ← mapM event_id base_events;
  ob ← Outbox_open [] [];
  ib ← Inbox_open [];
  ob ← publish_all ob base_events;
  delivered ← transmit s (pending ob);
  '(ob, ib) ← receive_all (ob, ib) delivered;
  let retransmitted := pending ob in
  again ← transmit [] retransmitted;
  '(ob, ib) ← receive_all (ob, ib) again;
  rs ← replay (ib_journal ib) (-1);
  ids ← accepted_of rs;
  let accepted := sort_str ids in
  trace ← mapM event_id delivered;
  resent ← mapM event_id retransmitted;
  Ok (mkCase trace (length trace - length (remove_dups trace)) resent accepted
        (bool_decide (accepted = sort_str expected)) (length accepted =? length (remove_dups accepted))%nat).

Definition base_events : list event :=
  (λ i, [(str "event_id", JStr (str "m" ++ str_of_Z i)); (str "domain", JStr (str "receipt.publication"));
         (str "entity", JStr (str "t" ++ str_of_Z i)); (str "value", jobj [("seq", JInt i)]);
         (str "writer", JStr (str "verifier"))]) <$> [0; 1; 2; 3; 4; 5]%Z.

Definition schedules : list (string * FaultSchedule) :=
  [("clean", []);
   ("duplicate", [mkFault 1 FDuplicate 0; mkFault 4 FDuplicate 0]);
   ("delayed", [mkFault 0 FDelay 2; mkFault 3 FDelay 1]);
   ("reordered", [mkFault 1 FReorder 0; mkFault 3 FReorder 0]);
   ("lost", [mkFault 2 FLoss 0]);
   ("combined", [mkFault 0 FDelay 2; mkFault 1 FDuplicate 0; mkFault 3 FReorder 0; mkFault 4 FLoss 0])].

Definition run_fault_matrix : res (list FaultCase) := mapM (λ p, run_case base_events p.2) schedules.
Definition matrix_ok (l : list FaultCase) : bool := forallb (λ c, fc_converged c && fc_idempotent c) l.

(** ** The channel loses and invents nothing else *)
(** How many copies of the message at an index arrive. *)
Definition copies (s : FaultSchedule) (index : Z) : nat :=
  if has_fault s index FLoss then 0
  else if has_fault s index FDelay then 1
  else if has_fault s index FDuplicate then 2 else 1.
Fixpoint arrivals {M} (s : FaultSchedule) (index : Z) (messages : list M) : list M :=
  match messages with
  | [] => []
  | m :: messages => replicate (copies s index) m ++ arrivals s (index + 1) messages
  end.

Lemma due_waiting {M} (held : list (M * Z)) : due held ++ (waiting held).*1 ≡ₚ held.*1.
Proof.
  unfold due, waiting. rewrite <- fmap_app.
  assert (Hp : filter (λ p : M * Z, (p.2 <= 0)%Z) (tick held) ++ filter (λ p, (0 < p.2)%Z) (tick held) ≡ₚ tick held).
  { induction (tick held) as [|[m c] l IH]; [done|]. rewrite !filter_cons. cbn [snd].
    repeat case_decide; try lia; cbn; [by rewrite IH|]. by rewrite <- Permutation_middle, IH. }
  rewrite Hp. unfold tick. rewrite <- list_fmap_compose. done.
Qed.

Lemma has_fault_some s i k f : fault_at s i k = Some f → has_fault s i k = true.
Proof. intros H. unfold has_fault. rewrite H. by apply bool_decide_eq_true_2. Qed.
Lemma has_fault_none s i k : fault_at s i k = None → has_fault s i k = false.
Proof. intros H. unfold has_fault. rewrite H. apply bool_decide_eq_false_2. by intros []. Qed.

Lemma pump_arrivals {M} s i (messages : list M) held :
  pump s i messages held ≡ₚ held.*1 ++ arrivals s i messages.
Proof.
  revert i held. induction messages as [|m messages IH]; intros i held; cbn [pump arrivals]; [by rewrite app_nil_r|].
  rewrite <- (due_waiting held). rewrite <- app_assoc. apply Permutation_app_head. unfold copies.
  destruct (has_fault s i FLoss); [apply IH|]. destruct (fault_at s i FDelay) as [f|] eqn:Ef.
  - rewrite (has_fault_some _ _ _ _ Ef), IH, fmap_app. cbn. rewrite <- app_assoc. done.
  - rewrite (has_fault_none _ _ _ Ef), IH. destruct (has_fault s i FDuplicate); cbn [replicate]; solve_Permutation.
Qed.

Lemma swap_adjacent {M} (l : list M) i a b :
  l !! i = Some a → l !! S i = Some b → <[S i := a]> (<[i := b]> l) ≡ₚ l.
Proof.
  revert i. induction l as [|x l IH]; intros [|i]; cbn; try done.
  - destruct l as [|y l]; cbn; [done|]. intros [= ->] [= ->]. apply Permutation_swap.
  - intros Ha Hb. apply Permutation_skip. by apply IH.
Qed.

Lemma py_index_nat n i : (0 <= i < Z.of_nat n)%Z → py_index n i = Ok (Z.to_nat i).
Proof.
  intros Hi. unfold py_index. destruct (Z.ltb_spec i 0); [lia|].
  destruct (Z.leb_spec 0 i), (Z.ltb_spec i (Z.of_nat n)); try lia. done.
Qed.

Lemma swap_at_perm {M} (l : list M) at_ : (0 <= at_)%Z → ∃ l', swap_at l at_ = Ok l' ∧ l' ≡ₚ l.
Proof.
  intros H0. unfold swap_at. destruct (Z.ltb_spec (at_ + 1) (Z.of_nat (length l))); [|eauto].
  rewrite !py_index_nat by lia. cbn [mbind res_bind]. replace (Z.to_nat (at_ + 1)) with (S (Z.to_nat at_)) by lia.
  destruct (l !! Z.to_nat at_) as [a|] eqn:Ea; [|apply lookup_ge_None in Ea; lia].
  destruct (l !! S (Z.to_nat at_)) as [b|] eqn:Eb; [|apply lookup_ge_None in Eb; lia].
  eexists. split; [done|]. by apply swap_adjacent.
Qed.

Lemma swap_all_perm {M} (l : list M) idx : Forall (λ i, 0 <= i)%Z idx → ∃ l', swap_all l idx = Ok l' ∧ l' ≡ₚ l.
Proof.
  intros H. revert l. induction H as [|i idx Hi _ IH]; intros l; cbn [swap_all]; [eauto|].
  destruct (swap_at_perm l i Hi) as (l1 & -> & H1). cbn. destruct (IH l1) as (l2 & -> & H2). exists l2. split; [done|]. by rewrite H2.
Qed.

(** The schedule numbers sends from 0. *)
Definition schedule_ok (s : FaultSchedule) : bool := forallb (λ f, 0 <=? f_at f)%Z s.

Lemma swap_indices_nonneg s : schedule_ok s = true → Forall (λ i, 0 <= i)%Z (swap_indices s).
Proof.
  unfold schedule_ok. rewrite forallb_true. intros H. unfold swap_indices. rewrite sort_by_perm.
  apply Forall_forall. intros i. rewrite elem_of_remove_dups. intros (f & -> & Hf)%list_elem_of_fmap.
  apply list_elem_of_filter in Hf as [_ Hf]. specialize (H f Hf). by apply Z.leb_le.
Qed.

Lemma transmit_perm {M} s (messages : list M) :
  schedule_ok s = true → ∃ sent out, transmit s messages = Ok out ∧ sent ≡ₚ messages ∧ out ≡ₚ arrivals s 0 sent.
Proof.
  intros Hs. destruct (swap_all_perm messages _ (swap_indices_nonneg s Hs)) as (sent & E & Hp).
  exists sent, (pump s 0 sent []). unfold transmit. rewrite E. split_and!; [done|done|]. apply (pump_arrivals s 0 sent []).
Qed.

Lemma arrivals_elem {M} s i (l : list M) m : m ∈ arrivals s i l → m ∈ l.
Proof.
  revert i. induction l as [|x l IH]; intros i; cbn [arrivals]; [done|]. rewrite elem_of_app, elem_of_cons.
  intros [H|H]; [left; by apply elem_of_replicate_inv in H|right; by eapply IH].
Qed.

Lemma arrivals_clean {M} i (l : list M) : arrivals [] i l = l.
Proof. revert i. induction l as [|x l IH]; intros i; [done|]. cbn. by rewrite IH. Qed.

Lemma transmit_clean {M} (l : list M) : ∃ out, transmit [] l = Ok out ∧ out ≡ₚ l.
Proof.
  destruct (transmit_perm [] l eq_refl) as (sent & out & H & Hp & Ho). exists out. split; [done|].
  by rewrite Ho, arrivals_clean.
Qed.

(** ** The boxes *)
(** An event the boxes can store: a text id and a storable body. *)
Definition storable_event (e : event) : bool :=
  match event_id e with Ok id => encodable id && storable (JDict e) | Raise _ => false end.

Lemma replay_all_append j j' r n :
  replay j (-1) = Ok (j_records j) → j_records j' = j_records j ++ [r] → dgetitem (str "seq") r = Ok (JInt n) →
  (0 <= n)%Z → replay j' (-1) = Ok (j_records j').
Proof.
  intros Hr Hj Hs Hn. unfold replay in *. rewrite Hj. eapply replay_snoc; [exact Hr|exact Hs|].
  cbn [seq_after]. f_equal. apply Z.ltb_lt. lia.
Qed.

Definition event_record (n : Z) (kind : string) (head : json) (e : event) (extra : list (string * json)) (h : pystr) : dict json :=
  record_body n (str kind) 0 head (jobj (("event", JDict e) :: extra)) ++ [(str "hash", JStr h)].

(** A box journal: usable, replayed in full, and short enough to number. *)
Definition box (j : Journal) (n : nat) : Prop :=
  journal_ready j ∧ replay j (-1) = Ok (j_records j) ∧ length (j_records j) = n.

Lemma box_append j n kind payload :
  box j n → encodable (str kind) = true → storable payload = true → (Z.of_nat n < 2 ^ 64)%Z →
  ∃ j' h r, append j (str kind) payload 0 = Ok (j', r) ∧ box j' (S n) ∧ j_records j' = j_records j ++ [r] ∧
    r = record_body (Z.of_nat n) (str kind) 0 (j_head j) payload ++ [(str "hash", JStr h)].
Proof.
  intros (Hr & Hp & Hn) Hk Hs Hlt. destruct (append_total j (str kind) payload 0) as (j' & h & Ha & Hr' & Hj');
    [done..|lia|lia|]. rewrite Hn in *.
  eexists j', h, _. split; [exact Ha|]. split_and!; [|done|done]. split_and!; [done| |].
  - eapply replay_all_append; [done|exact Hj'|reflexivity|lia].
  - rewrite Hj', length_app. cbn. lia.
Qed.

Lemma empty_box : box (mkJournal [] [] (JStr genesis)) 0.
Proof. split_and!; [|done|done]. eexists. split; [done|]. apply digest_encodable, genesis_shape. Qed.

(** The inbox has accepted [acc], in this order. *)
Definition inbox_ok (ib : Inbox) (acc : list pystr) : Prop :=
  box (ib_journal ib) (length acc) ∧ accepted_of (j_records (ib_journal ib)) = Ok acc ∧ (ib_seen ib).*1 = acc ∧ NoDup acc.
(** The outbox holds [sent], and [acc] is acknowledged. *)
Definition outbox_ok (ob : Outbox) (sent : dict event) (acc : list pystr) : Prop :=
  box (ob_journal ob) (length sent) ∧ ob_sent ob = sent ∧
  box (al_journal (ob_acks ob)) (length acc) ∧ al_acked (ob_acks ob) = list_to_set acc.

Lemma accepted_of_snoc rs acc n head e h id :
  accepted_of rs = Ok acc → event_id e = Ok id →
  accepted_of (rs ++ [event_record n "deliver" head e [("disposition", JStr (str "accepted"))] h]) = Ok (acc ++ [id]).
Proof.
  intros Ha He. revert acc Ha. induction rs as [|r rs IH]; intros acc Ha.
  - injection Ha as <-. cbn [app accepted_of]. set (r := event_record n "deliver" head e _ h).
    assert (dgetitem (str "kind") r = Ok (JStr (str "deliver")) ∧ is_accepted r = Ok true ∧ record_event r = Ok (JDict e))
      as (-> & Hacc & ->) by (split_and!; vm_compute; reflexivity).
    cbn [mbind res_bind]. change (py_eq (JStr (str "deliver")) (JStr (str "deliver"))) with true. rewrite Hacc.
    cbn [mbind res_bind as_event]. by rewrite He.
  - cbn [app accepted_of] in *. apply bind_Ok in Ha as (k & Hk & Ha). rewrite Hk. cbn [mbind res_bind].
    apply bind_Ok in Ha as (yes & Hy & Ha). rewrite Hy. cbn [mbind res_bind]. destruct yes; [|by apply IH].
    apply bind_Ok in Ha as (v & Hv & Ha). apply bind_Ok in Ha as (x & Hx & Ha). apply bind_Ok in Ha as (i & Hi & Ha).
    apply bind_Ok in Ha as (rest & Hrest & [= <-]). rewrite Hv. cbn [mbind res_bind]. rewrite Hx. cbn [mbind res_bind].
    rewrite Hi. cbn [mbind res_bind]. by rewrite (IH _ Hrest).
Qed.

Lemma storable_payload e : storable (JDict e) = true → storable (jobj [("event", JDict e)]) = true.
Proof. intros H. by apply storable_jobj; [|repeat constructor]. Qed.

(** Delivering an event: accepted once, then a duplicate. *)
Lemma deliver_ok ib acc e id :
  inbox_ok ib acc → event_id e = Ok id → storable (JDict e) = true → (Z.of_nat (length acc) < 2 ^ 64)%Z →
  (id ∈ acc ∧ deliver ib e 0 = Ok (false, ib)) ∨
  (¬ (id ∈ acc) ∧ ∃ ib', deliver ib e 0 = Ok (true, ib') ∧ inbox_ok ib' (acc ++ [id])).
Proof.
  intros (Hb & Ha & Hs & Hnd) Hid He Hn. unfold deliver. rewrite Hid. cbn [mbind res_bind].
  destruct (dmem id (ib_seen ib)) eqn:Em; [left|right].
  - apply dmem_true in Em. rewrite Hs in Em. done.
  - apply dmem_false in Em. rewrite Hs in Em. split; [done|].
    destruct (box_append (ib_journal ib) (length acc) "deliver"
      (jobj [("event", JDict e); ("disposition", JStr (str "accepted"))])) as (j' & h & r & -> & Hb' & Hj' & Hr);
      [done|done|by apply storable_jobj; [|repeat constructor]|done|].
    eexists. split; [reflexivity|]. unfold inbox_ok. rewrite length_app, Nat.add_1_r. split_and!; cbn [ib_journal ib_seen].
    + done.
    + rewrite Hj', Hr. by apply accepted_of_snoc.
    + rewrite dkeys_dset, decide_False, Hs; [done|]. by rewrite Hs.
    + apply NoDup_app. split; [done|]. split; [|apply NoDup_singleton]. intros x Hx ->%list_elem_of_singleton. done.
Qed.

Lemma outbox_ack_ok ob sent acc id :
  outbox_ok ob sent acc → ¬ (id ∈ acc) → encodable id = true → (Z.of_nat (length acc) < 2 ^ 64)%Z →
  ∃ ob', outbox_ack ob id 0 = Ok (true, ob') ∧ outbox_ok ob' sent (acc ++ [id]).
Proof.
  intros (Hb & Hs & Hba & Hak) Hid He Hn. unfold outbox_ack, ack, is_acked. rewrite Hak.
  rewrite bool_decide_eq_false_2 by (by rewrite elem_of_list_to_set).
  destruct (box_append (al_journal (ob_acks ob)) (length acc) "ack" (jobj [("event_id", JStr id)]))
    as (j' & h & r & -> & Hb' & _); [done|done|by apply storable_jobj; [|repeat constructor; apply storable_str]|done|].
  eexists. split; [reflexivity|]. unfold outbox_ok. rewrite length_app, Nat.add_1_r. split_and!; try done. cbn. set_solver.
Qed.

(** ** Passes over the channel *)
Section passes.
(** The published events, by id. *)
Context (sent : dict event).
Hypothesis sent_wf : wf_dict sent.
Hypothesis sent_ids : Forall (λ p, event_id p.2 = Ok p.1) sent.
Hypothesis sent_storable : Forall (λ p, encodable p.1 = true ∧ storable (JDict p.2) = true) sent.
Hypothesis sent_bound : (Z.of_nat (length sent) < 2 ^ 64)%Z.
Set Default Proof Using "All".

Lemma sent_event id e : (id, e) ∈ sent → event_id e = Ok id ∧ encodable id = true ∧ storable (JDict e) = true.
Proof.
  intros Hin. split; [exact (proj1 (Forall_forall _ _) sent_ids _ Hin)|].
  exact (proj1 (Forall_forall _ _) sent_storable _ Hin).
Qed.

(** Both sides agree on what has been accepted, and it was published. *)
Definition pass_inv (w : Outbox * Inbox) (acc : list pystr) : Prop :=
  outbox_ok w.1 sent acc ∧ inbox_ok w.2 acc ∧ acc ⊆ sent.*1.

Lemma accepted_bound acc : NoDup acc → acc ⊆ sent.*1 → (Z.of_nat (length acc) < 2 ^ 64)%Z.
Proof.
  intros Hnd Hsub. assert (length acc ≤ length sent); [|lia].
  rewrite <- (length_fmap fst sent). by apply submseteq_length, NoDup_submseteq.
Qed.

Lemma receive_ok w acc id e :
  pass_inv w acc → (id, e) ∈ sent →
  ∃ w' acc', receive w e = Ok w' ∧ pass_inv w' acc' ∧ ∀ x, x ∈ acc' ↔ x ∈ acc ∨ x = id.
Proof.
  intros (Hob & Hib & Hsub) Hin. destruct (sent_event _ _ Hin) as (Hid & Henc & Hst).
  assert (Hb := accepted_bound acc (proj2 (proj2 (proj2 Hib))) Hsub). unfold receive.
  destruct (deliver_ok _ _ _ _ Hib Hid Hst Hb) as [[Hacc Hd]|(Hacc & ib' & Hd & Hib')]; rewrite Hd; cbn [mbind res_bind].
  - exists (w.1, w.2), acc. split_and!; [done| |set_solver]. done.
  - rewrite Hid. cbn [mbind res_bind].
    destruct (outbox_ack_ok _ _ _ _ Hob Hacc Henc Hb) as (ob' & -> & Hob'). cbn [mbind res_bind].
    exists (ob', ib'), (acc ++ [id]). split_and!; [done| |set_solver]. split_and!; [done..|].
    intros x [Hx|Hx]%elem_of_app; [by apply Hsub|]. apply list_elem_of_singleton in Hx as ->.
    by apply (list_elem_of_fmap_2 fst) in Hin.
Qed.

Lemma receive_all_ok w acc l :
  pass_inv w acc → Forall (λ e, ∃ id, (id, e) ∈ sent) l →
  ∃ w' acc', receive_all w l = Ok w' ∧ pass_inv w' acc' ∧
    ∀ x, x ∈ acc' ↔ x ∈ acc ∨ ∃ e, e ∈ l ∧ event_id e = Ok x.
Proof.
  intros Hw Hl. revert w acc Hw. induction Hl as [|e l (id & Hin) Hl IH]; intros w acc Hw; cbn [receive_all].
  { exists w, acc. split_and!; [done..|]. set_solver. }
  destruct (receive_ok w acc id e Hw Hin) as (w1 & acc1 & -> & Hw1 & Hacc1). cbn [mbind res_bind].
  destruct (IH w1 acc1 Hw1) as (w2 & acc2 & -> & Hw2 & Hacc2). exists w2, acc2. split_and!; [done..|].
  intros x. rewrite Hacc2, Hacc1. destruct (sent_event _ _ Hin) as (Hid & _ & _).
  split; [|intros [?|(y & [-> | ?]%elem_of_cons & ?)]; [by auto|left; right; congruence|right; eauto]].
  intros [[?| ->]|(y & ? & ?)]; [by left|right; exists e|right; exists y]; by rewrite elem_of_cons; auto.
Qed.

(** What is pending is what was published and not accepted. *)
Lemma elem_of_pending w acc e :
  pass_inv w acc → e ∈ pending w.1 ↔ ∃ id, (id, e) ∈ sent ∧ ¬ (id ∈ acc).
Proof.
  intros ((_ & Hs & _ & Hak) & _). unfold pending. rewrite list_elem_of_fmap, Hs.
  assert (Hf : ∀ id : pystr, is_acked (ob_acks w.1) id = false ↔ ¬ (id ∈ acc)).
  { intros id. unfold is_acked. rewrite Hak, bool_decide_eq_false, elem_of_list_to_set. done. }
  split.
  - intros ([id y] & -> & Hy). apply list_elem_of_filter in Hy as [Hk Hy]. cbn in *. exists id.
    rewrite sort_by_perm in Hy. split; [done|]. by apply Hf.
  - intros (id & Hin & Hk). exists (id, e). split; [done|]. apply list_elem_of_filter. cbn.
    rewrite sort_by_perm. split; [by apply Hf|done].
Qed.

(** A faulty pass and a clean pass accept every event once. *)
Lemma two_passes w s :
  pass_inv w [] → schedule_ok s = true →
  ∃ delivered w1 again w2 acc1 acc2,
    transmit s (pending w.1) = Ok delivered ∧ receive_all w delivered = Ok w1 ∧
    transmit [] (pending w1.1) = Ok again ∧ receive_all w1 again = Ok w2 ∧
    pass_inv w1 acc1 ∧ pass_inv w2 acc2 ∧ acc2 ≡ₚ sent.*1 ∧
    (∀ x, x ∈ acc1 ↔ ∃ e, e ∈ delivered ∧ event_id e = Ok x) ∧ Forall (λ e, ∃ id, (id, e) ∈ sent) delivered.
Proof.
  intros Hw Hs. destruct (transmit_perm s (pending w.1) Hs) as (st & delivered & Ht & Hst & Hdel).
  assert (Hsent : Forall (λ e, ∃ id, (id, e) ∈ sent) delivered).
  { apply Forall_forall. intros e He. rewrite Hdel in He. apply arrivals_elem in He. rewrite Hst in He.
    apply (elem_of_pending _ _ _ Hw) in He as (id & ? & _). eauto. }
  destruct (receive_all_ok w [] delivered Hw Hsent) as (w1 & acc1 & Hr1 & Hw1 & Hacc1).
  destruct (transmit_clean (pending w1.1)) as (again & Ht2 & Hag).
  assert (Hsent2 : Forall (λ e, ∃ id, (id, e) ∈ sent) again).
  { apply Forall_forall. intros e He. rewrite Hag in He. apply (elem_of_pending _ _ _ Hw1) in He as (id & ? & _). eauto. }
  destruct (receive_all_ok w1 acc1 again Hw1 Hsent2) as (w2 & acc2 & Hr2 & Hw2 & Hacc2).
  exists delivered, w1, again, w2, acc1, acc2. split_and!; try done.
  - destruct Hw2 as (_ & (_ & _ & _ & Hnd) & Hsub). apply NoDup_Permutation; [done|exact sent_wf|].
    intros x. split; [apply Hsub|]. intros Hx. apply Hacc2. destruct (decide (x ∈ acc1)) as [|Hn]; [by left|right].
    apply list_elem_of_fmap in Hx as ([id e] & -> & Hin). exists e. rewrite Hag.
    split; [apply (elem_of_pending _ _ _ Hw1); eauto|exact (proj1 (sent_event _ _ Hin))].
  - intros x. rewrite Hacc1. set_solver.
Qed.
End passes.

Lemma publish_all_ok l ids ob sent :
  outbox_ok ob sent [] → mapM event_id l = Ok ids → NoDup (sent.*1 ++ ids) →
  Forall (λ e, storable (JDict e) = true) l → (Z.of_nat (length sent + length l) < 2 ^ 64)%Z →
  ∃ ob', publish_all ob l = Ok ob' ∧ outbox_ok ob' (sent ++ zip ids l) [].
Proof.
  revert ids ob sent. induction l as [|e l IH]; intros ids ob sent Hob Hids Hnd Hst Hb; cbn [publish_all].
  { cbn in Hids. injection Hids as <-. exists ob. by rewrite app_nil_r. }
  apply mapM_res_Ok in Hids. apply Forall2_cons_inv_l in Hids as (id & ids' & Hid & Hids & ->).
  apply mapM_res_Ok in Hids. apply Forall_cons in Hst as [He Hst]. destruct Hob as (Hj & Hs & Hba & Hak).
  assert (Hn : ¬ (id ∈ sent.*1)) by (apply NoDup_app in Hnd as (_ & Hd & _); intros H; apply (Hd id H), list_elem_of_here).
  unfold publish. rewrite Hid. cbn [mbind res_bind]. rewrite Hs. rewrite (proj2 (dmem_false id sent) Hn).
  destruct (box_append (ob_journal ob) (length sent) "send" (jobj [("event", JDict e)])) as (j' & h & r & -> & Hj' & _);
    [done|done|by apply storable_payload|cbn in Hb; lia|]. cbn [mbind res_bind].
  edestruct (IH ids' (mkOutbox j' (ob_acks ob) (dset id e sent)) (sent ++ [(id, e)])) as (ob' & -> & Hob').
  - split_and!; cbn; [by rewrite length_app, Nat.add_1_r|by apply dset_fresh|done|done].
  - done.
  - rewrite fmap_app, <- app_assoc. exact Hnd.
  - done.
  - rewrite length_app. cbn in *. lia.
  - exists ob'. split; [done|]. cbn. by rewrite <- app_assoc in Hob'.
Qed.

(** ** Convergence *)
Lemma remove_dups_NoDup {A} `{EqDecision A} (l : list A) : NoDup l → remove_dups l = l.
Proof.
  induction 1 as [|x l Hx Hl IH]; [done|]. cbn. destruct (decide_rel _ x l); [done|]. by rewrite IH.
Qed.

Lemma zip_sent ids (l : list event) :
  mapM event_id l = Ok ids → forallb storable_event l = true →
  (zip ids l).*1 = ids ∧ length (zip ids l) = length l ∧ Forall (λ p, event_id p.2 = Ok p.1) (zip ids l) ∧
  Forall (λ p, encodable p.1 = true ∧ storable (JDict p.2) = true) (zip ids l).
Proof.
  intros H%mapM_res_Ok. induction H as [|e id l ids He H IH]; [done|]. intros [Hs Hl]%andb_true_iff.
  destruct (IH Hl) as (I1 & I2 & I3 & I4). cbn. unfold storable_event in Hs. rewrite He in Hs.
  apply andb_true_iff in Hs. split_and!; [by f_equal|by f_equal|by constructor|by constructor].
Qed.

Lemma mapM_ids sent l :
  Forall (λ p, event_id p.2 = Ok p.1) sent → Forall (λ e, ∃ id : pystr, (id, e) ∈ sent) l →
  ∃ out, mapM event_id l = Ok out ∧ ∀ x, x ∈ out ↔ ∃ e, e ∈ l ∧ event_id e = Ok x.
Proof.
  intros Hs. induction 1 as [|e l (id & Hin) Hl (out & Ho & IH)]; [exists []; split; [done|set_solver]|].
  rewrite Forall_forall in Hs. assert (He := Hs _ Hin). cbn in He. exists (id :: out). cbn. rewrite He. cbn. rewrite Ho. cbn.
  split; [done|]. intros x. rewrite elem_of_cons, IH. split.
  - intros [-> |(y & ? & ?)]; [exists e|exists y]; rewrite elem_of_cons; auto.
  - intros (y & [-> |?]%elem_of_cons & ?); [left; congruence|right; eauto].
Qed.

Lemma opened_outbox : Outbox_open [] [] = Ok (mkOutbox (mkJournal [] [] (JStr genesis)) (mkAckLog (mkJournal [] [] (JStr genesis)) ∅) []).
Proof. reflexivity. Qed.
Lemma opened_inbox : Inbox_open [] = Ok (mkInbox (mkJournal [] [] (JStr genesis)) []).
Proof. reflexivity. Qed.

(** C37: delivery converges under every fault schedule.  Publish any events with
    distinct text ids, send them over a channel that duplicates, delays,
    reorders or drops at any send index, acknowledge what the inbox accepts and
    resend once, over a clean channel, what is still pending: the run finishes,
    the inbox has accepted exactly the published ids, each once, and the
    messages resent are exactly those that never arrived in the first pass. *)
Theorem fault_convergence events ids s :
  mapM event_id events = Ok ids → NoDup ids → forallb storable_event events = true →
  (Z.of_nat (length events) < 2 ^ 64)%Z → schedule_ok s = true →
  ∃ c, run_case events s = Ok c ∧ fc_converged c = true ∧ fc_idempotent c = true ∧ fc_accepted c = sort_str ids ∧
    ∀ x, x ∈ fc_retransmitted c ↔ x ∈ ids ∧ ¬ (x ∈ fc_trace c).
Proof.
  intros Hids Hnd Hst Hb Hs. destruct (zip_sent ids events Hids Hst) as (Hz & Hzl & Hzi & Hzs).
  unfold run_case. rewrite Hids, opened_outbox, opened_inbox. cbn [mbind res_bind].
  edestruct (publish_all_ok events ids) with (sent := @nil (pystr * event)) as (ob & -> & Hob).
  { exact (conj empty_box (conj eq_refl (conj empty_box eq_refl))). }
  { done. } { done. }
  { rewrite forallb_true in Hst. apply Forall_forall. intros e He. specialize (Hst e He). unfold storable_event in Hst.
    destruct (event_id e); [|done]. by apply andb_true_iff in Hst as [_ ?]. }
  { cbn. lia. }
  cbn [app] in Hob. cbn [mbind res_bind]. set (sent := zip ids events) in *.
  edestruct (two_passes sent) with (w := (ob, mkInbox (mkJournal [] [] (JStr genesis)) [])) (s := s)
    as (delivered & w1 & again & w2 & acc1 & acc2 & Ht & Hr1 & Ht2 & Hr2 & Hw1 & Hw2 & Hp & Hacc1 & Hsent);
    [unfold wf_dict; by rewrite Hz|done|done|lia| |done|].
  { split; [done|]. split; [|intros ? []%not_elem_of_nil]. exact (conj empty_box (conj eq_refl (conj eq_refl NoDup_nil_2))). }
  cbn [fst] in Ht. rewrite Ht. cbn [mbind res_bind]. rewrite Hr1. cbn [mbind res_bind]. destruct w1 as [ob1 ib1].
  cbn [fst] in Ht2. rewrite Ht2. cbn [mbind res_bind]. rewrite Hr2. cbn [mbind res_bind]. destruct w2 as [ob2 ib2].
  destruct Hw2 as (_ & ((_ & Hrep & _) & Hacc & _ & Hnd2) & _). cbn [snd] in Hrep, Hacc. rewrite Hrep. cbn [mbind res_bind].
  rewrite Hacc. cbn [mbind res_bind]. destruct (mapM_ids sent delivered Hzi Hsent) as (trace & -> & Htr). cbn [mbind res_bind].
  assert (Hpend : ∀ e, e ∈ pending ob1 ↔ ∃ id, (id, e) ∈ sent ∧ ¬ (id ∈ acc1)).
  { intros e. apply (elem_of_pending sent) with (w := (ob1, ib1)); [unfold wf_dict; by rewrite Hz|done|done|lia|done]. }
  destruct (mapM_ids sent (pending ob1) Hzi) as (resent & -> & Hre).
  { apply Forall_forall. intros e (id & ? & _)%Hpend. eauto. }
  cbn [mbind res_bind]. rewrite Hz in Hp. rewrite (sort_str_perm _ _ Hp). eexists. split; [reflexivity|].
  cbn [fc_converged fc_idempotent fc_accepted fc_retransmitted fc_trace]. split_and!; [by apply bool_decide_eq_true_2| |done|].
  - rewrite remove_dups_NoDup; [apply Nat.eqb_refl|]. by rewrite (sort_by_perm str_leb).
  - intros x. rewrite Hre, Htr, <- Hacc1, <- Hz. rewrite Forall_forall in Hzi. split.
    + intros (e & (id & Hin & Hn)%Hpend & He). assert (H := Hzi _ Hin). cbn in H. assert (id = x) as -> by congruence.
      split; [by apply (list_elem_of_fmap_2 fst) in Hin|done].
    + intros [([id e] & -> & Hin)%list_elem_of_fmap Hn]. exists e. split; [apply Hpend; eauto|exact (Hzi _ Hin)].
Qed.

Definition combined_schedule : FaultSchedule :=
  [mkFault 0 FDelay 2; mkFault 1 FDuplicate 0; mkFault 3 FReorder 0; mkFault 4 FLoss 0].

Lemma fault_convergence_witness :
  ∃ c, run_case base_events combined_schedule = Ok c ∧ fc_converged c = true ∧ fc_idempotent c = true.
Proof.
  destruct (fault_convergence base_events (str <$> ["m0"; "m1"; "m2"; "m3"; "m4"; "m5"]) combined_schedule)
    as (c & H1 & H2 & H3 & _).
  - vm_compute. reflexivity.
  - apply (bool_decide_eq_true_1 _). vm_compute. reflexivity.
  - vm_compute. reflexivity.
  - vm_compute. reflexivity.
  - vm_compute. reflexivity.
  - exists c. exact (conj H1 (conj H2 H3)).
Defined.

(** The channel accounts for every message.  On a schedule over send
    indices the transmission succeeds, and its trace is, up to order, the
    messages in a permuted send order, each as often as the faults at its
    index say: never when lost, once when delayed, twice when duplicated, once
    otherwise. *)
Theorem transmit_accounts {M} s (messages : list M) :
  schedule_ok s = true →
  ∃ sent out, transmit s messages = Ok out ∧ sent ≡ₚ messages ∧ out ≡ₚ arrivals s 0 sent.
Proof. apply transmit_perm. Qed.

Lemma transmit_accounts_witness :
  ∃ sent out, transmit combined_schedule [0; 1; 2; 3; 4; 5] = Ok out ∧ sent ≡ₚ [0; 1; 2; 3; 4; 5] ∧
    out ≡ₚ arrivals combined_schedule 0 sent.
Proof. apply (transmit_accounts combined_schedule [0; 1; 2; 3; 4; 5]). vm_compute. reflexivity. Defined.

(** The shipped fault matrix, the six schedules over six messages, is run
    to completion and reports convergence and idempotence in every case. *)
Theorem fault_matrix_passes : matrix_ok <$> run_fault_matrix = Ok true.
Proof. vm_compute. reflexivity. Qed.
