(* ===== verification/Recovery.v ===== *)
(** * Crash recovery of the state store (residual/dsm/recovery.py)

    A store reopened from its journal answers as the store that wrote it, and
    the shipped recovery scenarios. *)

From Stdlib Require Import ZArith NArith Lia.
From S2P Require Import Prelude PyData Sha256 PyFloat Json JsonFacts Core CoreFacts Storage Journal Lease Store.

(** ** The scenarios *)
Definition recovery_event (eid entity value : string) : dict json :=
  [(str "event_id", JStr (str eid)); (str "domain", JStr (str "task.terminal")); (str "entity", JStr (str entity));
   (str "value", JStr (str value)); (str "writer", JStr (str "orchestrator"))].

Definition fresh_store : Store := empty_store DOMAINS LeaseManager_new.
Definition recover_store (st : Store) : res Store := recover (j_file (st_journal st)) DOMAINS LeaseManager_new.

Record Proof_ : Type := mkProof {
  p_accepted_count : nat;
  p_unique_count : nat;
  p_no_duplicate : bool;
  p_transitions : list json
}.
Definition entry_id (t : json) : res pystr :=
  match t with JDict d => field "event_id" d | _ => Raise (TypeError "not an object") end.
(** [_prove_no_duplicate_accepted] *)
Definition prove_no_duplicate_accepted (st : Store) : res Proof_ :=
  ts ← accepted_transitions st;
  ids ← mapM entry_id ts;
  Ok (mkProof (length ids) (length (remove_dups ids)) (length ids =? length (remove_dups ids))%nat ts).

Definition writer_intact (st : Store) (eid : string) : res bool :=
  p ← provenance st (str eid);
  ev ← dgetitem (str "event") p;
  e ← event_of ev;
  Ok (bool_decide (ev_writer e = str "orchestrator")).

(** The outcome of a scenario: its proof, provenance and verdict. *)
Record Scenario : Type := mkScenario { s_proof : Proof_; s_provenance : bool; s_ok : bool }.

Definition value_is (v : json) (s : string) : bool := py_eq v (JStr (str s)).

Definition scenario_crash_between_write_and_ack : res Scenario :=
  let '(r, st) := submit (recovery_event "e1" "task-1" "running") true 0 fresh_store in
  crashed ← match r with
            | Ok _ => Ok false
            | Raise (RuntimeError _) => Ok true
            | Raise x => Raise x
            end;
  let '(retry, st) := submit (recovery_event "e1" "task-1" "running") false 0 st in
  retry ← retry;
  when negb (ack_duplicate retry) raise RuntimeError "recovery retry was accepted twice";;
  recovered ← recover_store st;
  proof ← prove_no_duplicate_accepted recovered;
  v ← current_value recovered (str "task.terminal") (str "task-1");
  intact ← writer_intact recovered "e1";
  Ok (mkScenario proof intact (crashed && p_no_duplicate proof && value_is v "running")).

(** [submit] whose outcome only has to be an acknowledgement *)
Definition submit_ok (eid entity value : string) (st : Store) : res (Ack * Store) :=
  let '(r, st) := submit (recovery_event eid entity value) false 0 st in
  a ← r; Ok (a, st).

Definition seqs_of (rs : list (dict json)) : res (list json) := mapM (dgetitem (str "seq")) rs.

Definition scenario_restart_mid_stream : res Scenario :=
  '(_, st) ← submit_ok "e1" "task-1" "running" fresh_store;
  '(_, st) ← submit_ok "e2" "task-2" "running" st;
  let cursor_before := cursor (st_journal st) in
  recovered ← recover_store st;
  rs ← replay (st_journal recovered) (-1);
  caught_up ← seqs_of rs;
  when negb (py_eq (JList caught_up) (JList ((λ i, JInt (Z.of_nat i)) <$> seq 0 (Z.to_nat (cursor_before + 1)))))
    raise RuntimeError "recovery replay did not cover the retained journal";;
  '(d1, recovered) ← submit_ok "e1" "task-1" "running" recovered;
  '(d2, recovered) ← submit_ok "e2" "task-2" "running" recovered;
  '(_, recovered) ← submit_ok "e3" "task-1" "succeeded" recovered;
  let '(r, recovered) := submit (recovery_event "e4" "task-1" "failed") false 0 recovered in
  let rejected := negb (is_ok r) in
  proof ← prove_no_duplicate_accepted recovered;
  v ← current_value recovered (str "task.terminal") (str "task-1");
  _ ← current_value recovered (str "task.terminal") (str "task-2");
  intact ← all_res (writer_intact recovered) ["e1"; "e2"; "e3"];
  Ok (mkScenario proof intact
        (p_no_duplicate proof && rejected && ack_duplicate d1 && ack_duplicate d2 && value_is v "succeeded")).

(** The loop over [enumerate(("task-a", "task-b", "task-c"))]: the two event
    ids of an entity are [f"r{i}"] and [f"r{i}-done"]. *)
Fixpoint submit_runs (entities : list (string * string * string)) (st : Store) : res Store :=
  match entities with
  | [] => Ok st
  | (id, id_done, n) :: entities =>
      '(_, st) ← submit_ok id n "running" st;
      '(_, st) ← submit_ok id_done n "failed" st;
      submit_runs entities st
  end.

Definition scenario_replay_determinism : res Scenario :=
  st ← submit_runs [("r0", "r0-done", "task-a"); ("r1", "r1-done", "task-b"); ("r2", "r2-done", "task-c")] fresh_store;
  a ← recover_store st;
  b ← recover_store st;
  ta ← accepted_transitions a;
  tb ← accepted_transitions b;
  proof ← prove_no_duplicate_accepted a;
  _ ← verify (st_journal a);
  Ok (mkScenario proof true (p_no_duplicate proof && py_eq (JList ta) (JList tb))).

(** [run_recovery_suite] *)
Definition run_recovery_suite : res (list Scenario) :=
  a ← scenario_crash_between_write_and_ack;
  b ← scenario_restart_mid_stream;
  c ← scenario_replay_determinism;
  Ok [a; b; c].
Definition suite_ok (l : list Scenario) : bool := forallb s_ok l.
Definition suite_no_duplicate (l : list Scenario) : bool := forallb (λ s, p_no_duplicate (s_proof s)) l.

(** ** Texts that stay on one line *)
(** No character at which [str.splitlines] breaks but [json.dumps] leaves raw. *)
Definition safe_char (c : N) : bool := (c <? 32)%N || negb (is_linebreak c).
Definition safe_text (s : pystr) : bool := forallb safe_char s.
Fixpoint line_safe (v : json) : bool :=
  match v with
  | JStr s => safe_text s
  | JList l => forallb line_safe l
  | JDict d => forallb (λ kv, safe_text kv.1 && line_safe kv.2) d
  | JFloat f => no_breaks (float_repr f)
  | _ => true
  end.

Lemma no_breaks_app s t : no_breaks (s ++ t) = no_breaks s && no_breaks t.
Proof. apply forallb_app. Qed.

Lemma no_breaks_escape c : safe_char c = true → no_breaks (escape_char c) = true.
Proof.
  intros Hc. destruct (decide (c < 32)%N) as [Hlt|Hge].
  - assert (Hall : Forall (λ c, no_breaks (escape_char c) = true) (N.of_nat <$> seq 0 32)) by (repeat constructor).
    rewrite Forall_fmap, Forall_forall in Hall. specialize (Hall (N.to_nat c)).
    cbv beta in Hall. unfold compose in Hall. rewrite N2Nat.id in Hall. apply Hall, elem_of_seq. lia.
  - unfold safe_char in Hc. unfold escape_char. destruct (N.ltb_spec c 32); [lia|]. cbn [orb] in Hc.
    repeat case_match; try done. unfold no_breaks. cbn [forallb]. by rewrite Hc.
Qed.

Lemma no_breaks_mjoin l : Forall (λ s, no_breaks s = true) l → no_breaks (mjoin l) = true.
Proof.
  induction 1 as [|s l Hs Hl IH]; [done|]. change (mjoin (s :: l)) with (s ++ mjoin l). by rewrite no_breaks_app, Hs, IH.
Qed.

Lemma no_breaks_join sep l : no_breaks sep = true → Forall (λ s, no_breaks s = true) l → no_breaks (join sep l) = true.
Proof.
  intros Hsep. induction 1 as [|s l Hs Hl IH]; [done|]. cbn [join]. destruct l; [done|].
  by rewrite !no_breaks_app, Hs, Hsep, IH.
Qed.

Lemma no_breaks_quote s : safe_text s = true → no_breaks (quote s) = true.
Proof.
  intros Hs. unfold quote. rewrite !no_breaks_app. rewrite no_breaks_mjoin; [done|].
  apply Forall_fmap. unfold safe_text in Hs. rewrite forallb_true in Hs. apply Forall_forall. intros c Hc.
  by apply no_breaks_escape, Hs.
Qed.

Lemma digits_no_breaks ds : Forall (λ c, is_digit c = true) ds → no_breaks ds = true.
Proof.
  intros H. unfold no_breaks. apply forallb_true. intros c Hc. rewrite Forall_forall in H. specialize (H c Hc).
  apply in_range_iff in H. assert (Hall : Forall (λ c, negb (is_linebreak c) = true) (N.of_nat <$> seq 48 10)) by (repeat constructor).
  rewrite Forall_fmap, Forall_forall in Hall. specialize (Hall (N.to_nat c)). cbv beta in Hall. unfold compose in Hall.
  rewrite N2Nat.id in Hall. apply Hall, elem_of_seq. lia.
Qed.

Lemma int_no_breaks z t : int_text z = Ok t → no_breaks t = true.
Proof.
  unfold int_text. case_match; [done|]. intros [= <-]. unfold str_of_Z. destruct (Z.ltb_spec z 0).
  - destruct (str_of_nonneg_spec (- z) ltac:(lia)) as (d & ds & -> & Hd & _). by apply digits_no_breaks in Hd.
  - destruct (str_of_nonneg_spec z ltac:(lia)) as (d & ds & -> & Hd & _). by apply digits_no_breaks in Hd.
Qed.

Lemma canonical_no_breaks v : line_safe v = true → ∀ t, canonical v = Ok t → no_breaks t = true.
Proof.
  induction v as [ |b|z|f|s|l IH|d IH] using json_ind; cbn [line_safe canonical]; intros Hv t Ht.
  - by injection Ht as <-.
  - by destruct b; injection Ht as <-.
  - by apply int_no_breaks in Ht.
  - destruct (is_finite f); [|done]. by injection Ht as <-.
  - injection Ht as <-. by apply no_breaks_quote.
  - apply bind_Ok in Ht as (ts & Hts & [= <-]). change (no_breaks ([91%N] ++ (join [44%N] ts ++ [93%N])) = true).
    rewrite no_breaks_app, no_breaks_app, no_breaks_join; [done|done|].
    revert ts Hts. rewrite forallb_true in Hv. induction l as [|v l IHl]; intros ts Hts; cbn in Hts.
    { by injection Hts as <-. }
    apply bind_Ok in Hts as (t & Ht & Hts). apply bind_Ok in Hts as (ts' & Hts' & [= <-]).
    apply Forall_cons in IH as [IHv IH]. constructor; [by apply IHv; [apply Hv, list_elem_of_here|]|].
    apply IHl; [done|by intros x Hx; apply Hv, list_elem_of_further|done].
  - apply bind_Ok in Ht as (ts & Hts & [= <-]). change (no_breaks ([123%N] ++ (join [44%N] (item_text <$> sort_by key_leb ts) ++ [125%N])) = true).
    rewrite no_breaks_app, no_breaks_app, no_breaks_join; [done|done|].
    apply Forall_fmap. rewrite sort_by_perm. revert ts Hts. rewrite forallb_true in Hv.
    induction d as [|[k v] d IHd]; intros ts Hts; cbn in Hts. { by injection Hts as <-. }
    apply bind_Ok in Hts as (t & Ht & Hts). apply bind_Ok in Hts as (ts' & Hts' & [= <-]).
    apply fmap_Ok in Ht as (t' & Ht & <-). apply Forall_cons in IH as [IHv IH].
    assert (H := Hv (k, v) ltac:(apply list_elem_of_here)). cbn in H. apply andb_true_iff in H as [Hk Hvv].
    constructor; [|apply IHd; [done|by intros x Hx; apply Hv, list_elem_of_further|done]].
    unfold compose, item_text. cbn [fst snd]. rewrite no_breaks_app, (no_breaks_quote k Hk). by rewrite no_breaks_app, (IHv Hvv _ Ht).
Qed.

(** ** Reading a record back *)
(** A Python dict as it is parsed back from its canonical text. *)
Definition sorted_dict (d : dict json) : dict json := sort_by key_leb ((λ kv, (kv.1, sort_json kv.2)) <$> d).
Definition sort_event (e : DEvent) : DEvent :=
  mkDEvent (ev_id e) (ev_domain e) (ev_entity e) (sort_json (ev_value e)) (ev_writer e) (ev_token e).

Lemma dget_sorted d k : NoDup d.*1 → dget k (sorted_dict d) = sort_json <$> dget k d.
Proof. apply dget_sort_fields. Qed.

Lemma dgetitem_sorted d k : NoDup d.*1 → dgetitem k (sorted_dict d) = sort_json <$> dgetitem k d.
Proof. intros Hnd. unfold dgetitem. rewrite dget_sorted by done. by destruct (dget k d). Qed.

Lemma wf_dict_keys d : wf_json (JDict d) = true → NoDup d.*1.
Proof. cbn. intros [H _]%andb_true_iff. by apply bool_decide_eq_true in H. Qed.
Lemma wf_dict_get d k v : wf_json (JDict d) = true → dget k d = Some v → wf_json v = true.
Proof.
  cbn. intros [_ H]%andb_true_iff Hk. rewrite forallb_true in H. by apply dget_Some_elem, H in Hk.
Qed.

Lemma field_sorted d k : NoDup d.*1 → field k (sorted_dict d) = field k d.
Proof. intros Hnd. unfold field. rewrite dgetitem_sorted by done. destruct (dgetitem (str k) d) as [[]|]; done. Qed.

Lemma sort_nonempty d : sort_by key_leb ((λ kv, (kv.1, sort_json kv.2)) <$> d) = [] ↔ d = [].
Proof.
  split; [|by intros ->]. intros H. assert (Hp := sort_by_perm key_leb ((λ kv, (kv.1, sort_json kv.2)) <$> d)).
  rewrite H in Hp. apply Permutation_nil in Hp. by apply fmap_nil_inv in Hp.
Qed.

Lemma token_sorted d : NoDup d.*1 → token_of (sorted_dict d) = token_of d.
Proof.
  intros Hnd. unfold token_of. rewrite dget_sorted by done. destruct (dget (str "fencing_token") d) as [v|]; [|done]. cbn [fmap option_fmap option_map].
  destruct v as [ |b|z|f|s|[|]|[|p l]]; try done. cbn [sort_json]. destruct (sort_by _ _) eqn:E; [|done].
  by apply (sort_nonempty (p :: l)) in E.
Qed.

Lemma event_of_sorted ev : wf_json ev = true → event_of (sort_json ev) = sort_event <$> event_of ev.
Proof.
  intros Hw. destruct ev as [ | | | | | |d]; try done. apply wf_dict_keys in Hw.
  change (sort_json (JDict d)) with (JDict (sorted_dict d)). unfold event_of.
  rewrite !field_sorted, dgetitem_sorted, token_sorted by done.
  destruct (field "event_id" d), (field "domain" d), (field "entity" d), (dgetitem (str "value") d), (field "writer" d), (token_of d);
    done.
Qed.

Lemma record_event_sorted r : wf_json (JDict r) = true → record_event (sorted_dict r) = sort_json <$> record_event r.
Proof.
  intros Hw. unfold record_event. rewrite dgetitem_sorted by (by apply wf_dict_keys).
  destruct (dgetitem (str "payload") r) as [p|] eqn:E; [|done]. cbn [mbind res_bind fmap res_fmap].
  destruct p as [ | | | | | |d]; try done. apply dgetitem_Ok, (wf_dict_get _ _ _ Hw), wf_dict_keys in E.
  cbn [sort_json]. fold (sorted_dict d). by apply dgetitem_sorted.
Qed.

Lemma record_event_wf r ev : wf_json (JDict r) = true → record_event r = Ok ev → wf_json ev = true.
Proof.
  intros Hw H. unfold record_event in H. apply bind_Ok in H as (p & Hp & H). destruct p; try done.
  apply dgetitem_Ok, (wf_dict_get _ _ _ Hw) in Hp. apply dgetitem_Ok in H. by eapply wf_dict_get.
Qed.

Lemma entry_sorted r : wf_json (JDict r) = true → entry (sorted_dict r) = sort_event <$> entry r.
Proof.
  intros Hw. unfold entry. rewrite record_event_sorted by done. destruct (record_event r) as [ev|] eqn:E; [|done].
  cbn [mbind res_bind fmap res_fmap]. by apply event_of_sorted, (record_event_wf _ _ Hw).
Qed.

Abbreviation wf_records := (Forall (λ r, wf_json (JDict r) = true)).

Lemma seq_after_sorted n v : seq_after n (sort_json v) = seq_after n v.
Proof. by destruct v. Qed.
Lemma py_eq_str_sorted v s : py_eq (sort_json v) (JStr s) = py_eq v (JStr s).
Proof. by destruct v. Qed.

Lemma replay_sorted n rs :
  wf_records rs → replay_records n (List.map sorted_dict rs) = List.map sorted_dict <$> replay_records n rs.
Proof.
  induction 1 as [|r rs Hr _ IH]; [done|]. cbn [List.map replay_records].
  rewrite dgetitem_sorted by (by apply wf_dict_keys). destruct (dgetitem (str "seq") r) as [v|]; [|done].
  cbn [mbind res_bind fmap res_fmap]. rewrite seq_after_sorted. destruct (seq_after n v) as [b|]; [|done].
  cbn [mbind res_bind]. rewrite IH. destruct (replay_records n rs); [|done]. by destruct b.
Qed.

Lemma replay_sublist n rs l : replay_records n rs = Ok l → sublist l rs.
Proof.
  revert l. induction rs as [|r rs IH]; intros l H; cbn in H; [by injection H as <-|].
  apply bind_Ok in H as (v & _ & H). apply bind_Ok in H as (b & _ & H). apply bind_Ok in H as (l' & Hl & [= <-]).
  destruct b; [apply sublist_skip|apply sublist_cons]; by apply IH.
Qed.

Lemma transitions_sorted rs :
  wf_records rs → transitions_of (List.map sorted_dict rs) = List.map sorted_dict <$> transitions_of rs.
Proof.
  induction 1 as [|r rs Hr _ IH]; [done|]. cbn [List.map transitions_of].
  rewrite dgetitem_sorted by (by apply wf_dict_keys). destruct (dgetitem (str "kind") r) as [v|]; [|done].
  cbn [mbind res_bind fmap res_fmap]. rewrite IH. destruct (transitions_of rs); [|done].
  cbn. rewrite py_eq_str_sorted. by destruct (py_eq v _).
Qed.

(** ** Recovery *)
Lemma mapM_sorted rs :
  wf_records rs → mapM entry (List.map sorted_dict rs) = List.map sort_event <$> mapM entry rs.
Proof.
  induction 1 as [|r rs Hr _ IH]; [done|]. cbn [List.map mapM]. rewrite entry_sorted, IH by done.
  destruct (entry r), (mapM entry rs); done.
Qed.

Lemma filter_sorted d n es :
  filter (λ e, ev_domain e = d ∧ ev_entity e = n) (List.map sort_event es) =
  List.map sort_event (filter (λ e, ev_domain e = d ∧ ev_entity e = n) es).
Proof.
  induction es as [|e es IH]; [done|]. cbn [List.map]. rewrite !filter_cons. cbn [sort_event ev_domain ev_entity].
  case_decide; cbn [List.map]; by rewrite IH.
Qed.

Lemma max_event_sorted e es : max_event (sort_event e) (List.map sort_event es) = sort_event (max_event e es).
Proof.
  revert e. induction es as [|x es IH]; intros e; [done|]. unfold max_event in *. cbn [List.map foldl].
  change (key_gt (sort_event x) (sort_event e)) with (key_gt x e). by destruct (key_gt x e); rewrite IH.
Qed.

Lemma find_record_sorted id rs :
  wf_records rs → find_record id (List.map sorted_dict rs) = option_map sorted_dict <$> find_record id rs.
Proof.
  induction 1 as [|r rs Hr _ IH]; [done|]. cbn [List.map find_record]. assert (He := entry_sorted r Hr).
  unfold entry in He. destruct (record_event r) as [ev|] eqn:E.
  - rewrite record_event_sorted, E in * by done. cbn [mbind res_bind fmap res_fmap] in *. rewrite He.
    destruct (event_of ev) as [e|]; [|done]. cbn [mbind res_bind fmap res_fmap]. cbn [sort_event ev_id].
    case_bool_decide; [done|exact IH].
  - by rewrite record_event_sorted, E.
Qed.

Lemma Forall_sublist {A} (P : A → Prop) l k : sublist l k → Forall P k → Forall P l.
Proof. induction 1; rewrite ?Forall_cons; naive_solver. Qed.

(** [st'] is [st] with its records read back. *)
Definition reread (st st' : Store) : Prop :=
  wf_records (j_records (st_journal st)) ∧ j_records (st_journal st') = List.map sorted_dict (j_records (st_journal st)).

Lemma reread_transitions st st' : reread st st' → transition_records st' = List.map sorted_dict <$> transition_records st.
Proof.
  intros [Hw Hr]. unfold transition_records, replay. rewrite Hr, replay_sorted by done.
  destruct (replay_records (-1) (j_records (st_journal st))) as [l|] eqn:E; [|done]. cbn [mbind res_bind fmap res_fmap].
  apply transitions_sorted. by eapply Forall_sublist; [apply (replay_sublist _ _ _ E)|].
Qed.

Lemma transitions_sublist rs l : transitions_of rs = Ok l → sublist l rs.
Proof.
  revert l. induction rs as [|r rs IH]; intros l H; cbn in H; [by injection H as <-|].
  apply bind_Ok in H as (v & _ & H). apply bind_Ok in H as (l' & Hl & [= <-]).
  destruct (py_eq v _); [apply sublist_skip|apply sublist_cons]; by apply IH.
Qed.

Lemma transition_records_wf st rs :
  wf_records (j_records (st_journal st)) → transition_records st = Ok rs → wf_records rs.
Proof.
  intros Hw H. unfold transition_records in H. apply bind_Ok in H as (l & Hl & H).
  apply transitions_sublist in H. apply replay_sublist in Hl. by eapply Forall_sublist; [etrans; eassumption|].
Qed.

Lemma reread_events st st' d n :
  reread st st' → accepted_events st' d n = List.map sort_event <$> accepted_events st d n.
Proof.
  intros H. unfold accepted_events. rewrite (reread_transitions _ _ H). fold entry.
  destruct (transition_records st) as [rs|] eqn:E; [|done]. cbn [mbind res_bind fmap res_fmap].
  change (λ r, ev ← record_event r; event_of ev) with entry. rewrite mapM_sorted by (by eapply transition_records_wf; [apply H|]).
  destruct (mapM entry rs); [|done]. cbn [mbind res_bind fmap res_fmap]. by rewrite filter_sorted.
Qed.

Lemma reread_value st st' d n : reread st st' → current_value st' d n = sort_json <$> current_value st d n.
Proof.
  intros H. unfold current_value. rewrite (reread_events _ _ _ _ H). destruct (accepted_events st d n) as [[|e es]|]; [done| |done].
  cbn [mbind res_bind fmap res_fmap List.map]. by rewrite max_event_sorted.
Qed.

Lemma reread_find st st' id : reread st st' → find_event st' id = option_map sorted_dict <$> find_event st id.
Proof.
  intros H. unfold find_event. rewrite (reread_transitions _ _ H).
  destruct (transition_records st) as [rs|] eqn:E; [|done]. cbn [mbind res_bind fmap res_fmap].
  apply find_record_sorted. by eapply transition_records_wf; [apply H|].
Qed.

(** ** Stores whose journal can be read back *)
Definition recordable (event : dict json) : bool :=
  wf_json (JDict event) && floats_rt (JDict event) && line_safe (JDict event).

Lemma digest_safe h : is_digest h = true → safe_text h = true.
Proof.
  unfold is_digest, safe_text. intros [_ H]%andb_true_iff. rewrite forallb_true in *. intros c Hc. specialize (H c Hc).
  assert (Hall : Forall (λ c, is_hex c = true → safe_char c = true) (N.of_nat <$> seq 0 128)) by (by repeat constructor).
  rewrite Forall_fmap, Forall_forall in Hall. specialize (Hall (N.to_nat c)). cbv beta in Hall. unfold compose in Hall.
  rewrite N2Nat.id in Hall. apply Hall; [|done]. apply elem_of_seq. unfold is_hex in H. apply orb_true_iff in H.
  rewrite !in_range_iff in H. lia.
Qed.

Lemma built_head j : built j → ∃ h, j_head j = JStr h ∧ is_digest h = true.
Proof.
  destruct 1 as [|j kind payload time j' r Hj _ _ Ha _]; [exists genesis; split; [done|apply genesis_shape]|].
  unfold append in Ha. apply bind_Ok in Ha as (h & Hd & Ha). apply bind_Ok in Ha as (? & _ & Ha).
  apply bind_Ok in Ha as (? & _ & [= <- <-]). exists h. split; [done|]. by eapply digest_shape.
Qed.

Lemma append_transition_built j event time j' r :
  built j → recordable event = true →
  append j (str "transition") (jobj [("event", JDict event)]) time = Ok (j', r) → built j'.
Proof.
  intros Hj He Ha. unfold recordable in He. rewrite !andb_true_iff in He. destruct He as [[Hw Hf] Hl].
  refine (built_append j _ _ _ _ _ Hj _ _ Ha _).
  - cbn. cbn in Hw. by rewrite Hw.
  - cbn. cbn in Hf. by rewrite Hf.
  - destruct (built_head j Hj) as (h & Hh & Hd). unfold append in Ha. rewrite Hh in Ha.
    apply bind_Ok in Ha as (h' & Hd' & Ha). apply bind_Ok in Ha as (? & _ & Ha). apply bind_Ok in Ha as (? & _ & [= _ <-]).
    intros t. apply canonical_no_breaks. apply digest_shape, digest_safe in Hd'. apply digest_safe in Hd.
    cbn [line_safe forallb record_body app jobj fmap list_fmap fst snd]. cbn [line_safe] in Hl. rewrite Hd, Hd', Hl. reflexivity.
Qed.

Lemma submit_built st rs es event crash time out st' :
  store_ok st rs es → built (st_journal st) → recordable event = true → submit event crash time st = (out, st') →
  built (st_journal st').
Proof.
  intros Hok Hb He H. unfold submit in H. unfold mbind at 1, SM_bind at 1, sm_get in H.
  destruct (negb _); [by injection H as <- <-|].
  unfold mbind at 1, SM_bind at 1, sm_lift at 1 in H. destruct (event_of (JDict event)) as [e|x]; [|by injection H as <- <-].
  unfold mbind at 1, SM_bind at 1, sm_lift at 1 in H. destruct (find_event st (ev_id e)) as [[r|]|x]; [by injection H as <- <-| |by injection H as <- <-].
  unfold mbind at 1, SM_bind at 1, sm_lift at 1 in H. destruct (admission st event e) as [[]|x]; [|by injection H as <- <-].
  unfold mbind at 1, SM_bind at 1, sm_lift at 1 in H.
  destruct (append _ _ _ _) as [[j r]|x] eqn:Ha; [|by injection H as <- <-].
  unfold mbind at 1, SM_bind at 1, sm_mod at 1 in H. apply append_transition_built in Ha; [|done..].
  by destruct crash; injection H as <- <-.
Qed.

Lemma submit_all_built l : ∀ st rs es,
  store_ok st rs es → built (st_journal st) → Forall (λ x, recordable (sub_event x) = true) l →
  built (st_journal (submit_all st l)).
Proof.
  induction l as [|x l IH]; intros st rs es Hok Hb Hl; [done|]. apply Forall_cons in Hl as [Hx Hl].
  unfold submit_all. cbn [foldl]. fold (submit_all (submit (sub_event x) (sub_crash x) (sub_time x) st).2 l).
  destruct (submit (sub_event x) (sub_crash x) (sub_time x) st) as [out st1] eqn:E. cbn [snd].
  assert (Hb1 := submit_built _ _ _ _ _ _ _ _ Hok Hb Hx E).
  destruct (submit_cases _ _ _ _ _ _ _ _ Hok E) as [[-> _]|(e & r & _ & _ & _ & _ & _ & _ & Hst1 & _)]; by eapply IH.
Qed.

Lemma built_records_wf j : built j → wf_records (j_records j).
Proof.
  intros Hb. destruct (built_wf j Hb) as (head & _ & Hc). generalize dependent head. generalize (j_file j), genesis, 0.
  induction (j_records j) as [|r rs IH]; intros text prev n head Hc; [done|].
  inversion Hc; subst. constructor; [by eapply read_record|by eapply IH].
Qed.

Lemma sorted_records rs ds : JDict <$> ds = sort_json <$> (JDict <$> rs) → ds = List.map sorted_dict rs.
Proof.
  revert ds. induction rs as [|r rs IH]; intros [|d ds] H; try done. injection H as H1 H2. cbn. f_equal; [done|by apply IH].
Qed.

(** C13: a store survives a restart.  Submit anything, crashes included, whose
    events are Python objects without raw line separators, then rebuild the
    store from the journal file alone: recovery succeeds, and every
    projection, every list of accepted events and the record found for every
    event id are those of the store before the restart (values up to the order
    of object keys). *)
Theorem store_recovers owners leases_ leases' l st :
  st = submit_all (empty_store owners leases_) l → Forall (λ x, recordable (sub_event x) = true) l →
  ∃ st', recover (j_file (st_journal st)) owners leases' = Ok st' ∧
    (∀ d n, current_value st' d n = sort_json <$> current_value st d n) ∧
    (∀ d n, accepted_events st' d n = List.map sort_event <$> accepted_events st d n) ∧
    (∀ id, find_event st' id = option_map sorted_dict <$> find_event st id).
Proof.
  intros -> Hl. set (st := submit_all _ l).
  assert (Hb : built (st_journal st)) by (eapply submit_all_built; [apply empty_store_ok|apply built_new|done]).
  destruct (journal_reopens _ (built_wf _ Hb)) as (j' & Ho & _ & _ & Hr). unfold recover. rewrite Ho. cbn [mbind res_bind].
  assert (H : reread st (mkStore j' owners leases')).
  { split; [by apply built_records_wf|]. by apply sorted_records. }
  eexists. split; [done|]. split_and!; intros; [by apply reread_value|by apply reread_events|by apply reread_find].
Qed.

Lemma store_recovers_witness :
  ∃ st', recover (j_file (st_journal absorbed_store)) DOMAINS LeaseManager_new = Ok st' ∧
    current_value st' (str "task.terminal") (str "t") = Ok (JStr (str "succeeded")).
Proof.
  destruct (store_recovers DOMAINS LeaseManager_new LeaseManager_new
    ((λ p, plain (terminal_event p.1 p.2)) <$> [("e1", "running"); ("e2", "succeeded")]) absorbed_store eq_refl)
    as (st' & Hr & Hv & _).
  - repeat constructor.
  - exists st'. split; [exact Hr|]. rewrite Hv. vm_compute. reflexivity.
Defined.

(** The shipped recovery suite (crash between write and acknowledgement,
    restart in mid stream, two recoveries compared) runs to completion and
    reports success without duplicate accepted transitions. *)
Theorem recovery_suite_passes : (λ l, (suite_ok l, suite_no_duplicate l)) <$> run_recovery_suite = Ok (true, true).
Proof. vm_compute. reflexivity. Qed.
