(* ===== verification/Transactions.v ===== *)
(** * Compound side effects and the saga coordinator
    (residual/control_plane/transactions.py and the effect models of
    residual/control_plane/models.py)

    The coordinator's callables (dispatch, reconcile, compensate, emit) are
    host code: parameters that act on a world of their own and may raise.  What
    the first three raise is caught by the run; what [emit] raises is not, and
    leaves the effects as they are at that point. *)

From Stdlib Require Import ZArith NArith Lia.
From S2P Require Import Prelude PyData PyFloat Json JsonFacts Core CoreFacts.

Inductive IntentState : Type :=
| PREPARED | ATTEMPTED | APPLIED | FAILED | AMBIGUOUS | RECONCILING | COMPENSATING | COMPENSATED.
#[export] Instance IntentState_eq_dec : EqDecision IntentState.
Proof. solve_decision. Defined.
Definition intent_str (s : IntentState) : pystr :=
  str match s with
      | PREPARED => "prepared" | ATTEMPTED => "attempted" | APPLIED => "applied" | FAILED => "failed"
      | AMBIGUOUS => "ambiguous" | RECONCILING => "reconciling" | COMPENSATING => "compensating"
      | COMPENSATED => "compensated"
      end.

Inductive TransactionState : Type :=
| TPrepared | TInProgress | TComplete | TIncomplete | TFailed | TReconciliationRequired | TCompensating | TCompensated.
#[export] Instance TransactionState_eq_dec : EqDecision TransactionState.
Proof. solve_decision. Defined.

Record AtomicEffect : Type := mkEffect {
  effect_id : pystr;
  intent_id : pystr;
  depends_on : list pystr;
  e_state : IntentState;
  reversibility : pystr;
  result_ref : option pystr;
  compensation_intent_id : option pystr
}.
(** [replace(e, state=..., result_ref=...)] *)
Definition with_state (e : AtomicEffect) (s : IntentState) (r : option pystr) : AtomicEffect :=
  mkEffect (effect_id e) (intent_id e) (depends_on e) s (reversibility e) r (compensation_intent_id e).

Record SideEffectTransaction : Type := mkTx {
  transaction_id : pystr;
  effects : dict AtomicEffect;
  policy_hash : pystr
}.

(** ** Construction *)
(** [_assert_acyclic.visit]; [visiting] is restored when a call returns, so it
    is an argument and only [done] is threaded. *)
Fixpoint visit (fuel : nat) (effs : dict AtomicEffect) (visiting : gset pystr) (k : pystr) (done : gset pystr)
  : res (gset pystr) :=
  match fuel with
  | O => out_of_fuel
  | S fuel =>
      if bool_decide (k ∈ visiting) then Raise (ValueError "side-effect dependency cycle")
      else if bool_decide (k ∈ done) then Ok done
      else
        e ← dgetitem k effs;
        done ← (fix each deps done :=
                  match deps with
                  | [] => Ok done
                  | d :: deps => done ← visit fuel effs ({[k]} ∪ visiting) d done; each deps done
                  end) (depends_on e) done;
        Ok ({[k]} ∪ done)
  end.
(** The fuel: nested visits are at distinct known keys. *)
Definition visit_fuel (effs : dict AtomicEffect) : nat := S (length effs).
Fixpoint visit_all (fuel : nat) (effs : dict AtomicEffect) (visiting : gset pystr) (ks : list pystr) (done : gset pystr)
  : res (gset pystr) :=
  match ks with
  | [] => Ok done
  | k :: ks => done ← visit fuel effs visiting k done; visit_all fuel effs visiting ks done
  end.

Definition assert_acyclic (effs : dict AtomicEffect) : res unit :=
  _ ← visit_all (visit_fuel effs) effs ∅ effs.*1 ∅; Ok tt.

Definition unknown_deps (effs : dict AtomicEffect) : list pystr :=
  filter (λ d, dmem d effs = false) (mjoin (depends_on <$> effs.*2)).

(** [SideEffectTransaction(...)] *)
Definition Tx_new (id : pystr) (effs : dict AtomicEffect) (policy : pystr) : res SideEffectTransaction :=
  when bool_decide (policy = []) raise ValueError "transaction policy_hash is required";;
  when negb (bool_decide (unknown_deps effs = [])) raise ValueError "unknown dependencies";;
  _ ← assert_acyclic effs;
  Ok (mkTx id effs policy).

(** ** Effects *)
Definition dep_applied (effs : dict AtomicEffect) (d : pystr) : bool :=
  match dget d effs with Some e => bool_decide (e_state e = APPLIED) | None => false end.
(** [ready()]; the dependencies of a constructed transaction are known. *)
Definition is_ready (effs : dict AtomicEffect) (e : AtomicEffect) : bool :=
  bool_decide (e_state e = PREPARED) && forallb (dep_applied effs) (depends_on e).
Definition ready (effs : dict AtomicEffect) : list AtomicEffect := filter (λ e, is_ready effs e = true) effs.*2.

Definition allowed (s : IntentState) : list IntentState :=
  match s with
  | PREPARED => [ATTEMPTED]
  | ATTEMPTED => [APPLIED; FAILED; AMBIGUOUS]
  | AMBIGUOUS => [RECONCILING]
  | RECONCILING => [APPLIED; FAILED]
  | APPLIED => [COMPENSATING]
  | COMPENSATING => [COMPENSATED; FAILED]
  | _ => []
  end.

Definition transition (effs : dict AtomicEffect) (id : pystr) (s : IntentState) : res (dict AtomicEffect) :=
  e ← dgetitem id effs;
  when negb (bool_decide (s ∈ allowed (e_state e))) raise ValueError "illegal transition";;
  Ok (dset id (with_state e s None) effs).

Definition states (effs : dict AtomicEffect) : list IntentState := e_state <$> effs.*2.
Definition only (l : list IntentState) (s : IntentState) : bool :=
  negb (bool_decide (l = [])) && forallb (λ x, bool_decide (x = s)) l.
Definition has (l : list IntentState) (s : IntentState) : bool := bool_decide (s ∈ l).

(** [state] *)
Definition tx_state (effs : dict AtomicEffect) : TransactionState :=
  let s := states effs in
  if only s APPLIED then TComplete
  else if has s AMBIGUOUS || has s RECONCILING then TReconciliationRequired
  else if has s COMPENSATING then TCompensating
  else if has s COMPENSATED && forallb (λ x, bool_decide (x ∈ [COMPENSATED; FAILED; PREPARED])) s then TCompensated
  else if has s FAILED && has s APPLIED then TIncomplete
  else if has s FAILED && has s PREPARED then TIncomplete
  else if only s FAILED then TFailed
  else if only s PREPARED then TPrepared
  else TInProgress.

(** ** The coordinator *)
(** An event handed to [emit]; its reference is [name:effect_id:index]. *)
Record TxEvent : Type := mkTxEvent { te_name : pystr; te_effect : pystr }.
Definition evidence_ref (index : nat) (e : TxEvent) : pystr :=
  te_name e ++ str ":" ++ te_effect e ++ str ":" ++ str_of_Z (Z.of_nat index).

Record TransactionReceipt : Type := mkTxReceipt {
  tr_transaction_id : pystr;
  tr_policy_hash : pystr;
  tr_final_state : TransactionState;
  tr_effect_states : list (pystr * pystr);
  tr_evidence_refs : list pystr
}.

(** [outcome in (...)] *)
Definition among (v : json) (l : list json) : bool := existsb (py_eq v) l.
Definition outcome_applied (v : json) : bool := among v [JBool true; JStr (str "applied"); JStr (str "executed")].
Definition outcome_failed (v : json) : bool := among v [JBool false; JStr (str "failed"); JStr (str "denied")].

(** What an event carries besides its name and effect: the exception whose
    type name, or the outcome whose [repr], goes into the payload. *)
Inductive Extra : Type := NoExtra | ErrorType (x : exn) | Outcome (v : json).

Section coordinator.
Context {W : Type} (dispatch : W → AtomicEffect → res json * W)
  (reconcile : W → AtomicEffect → res pystr * W) (compensate : option (W → AtomicEffect → res bool * W))
  (emit : W → TxEvent → pystr → Extra → res unit * W).

Record RunState : Type := mkRun { r_effects : dict AtomicEffect; r_events : list TxEvent; r_world : W }.

(** [event]: the reference is recorded, then [emit] is called; what it raises
    is not caught. *)
Definition event (name : pystr) (e : AtomicEffect) (x : Extra) : SM RunState unit := λ rs,
  let ev := mkTxEvent name (effect_id e) in
  let '(r, w) := emit (r_world rs) ev (evidence_ref (length (r_events rs)) ev) x in
  (r, mkRun (r_effects rs) (r_events rs ++ [ev]) w).
(** [tx.transition(...)] on the shared effects. *)
Definition tx_transition (e : AtomicEffect) (s : IntentState) : SM RunState unit := λ rs,
  match transition (r_effects rs) (effect_id e) s with
  | Ok effs => (Ok tt, mkRun effs (r_events rs) (r_world rs))
  | Raise x => (Raise x, rs)
  end.
(** A transition of one effect, then its event. *)
Definition move (e : AtomicEffect) (s : IntentState) (name : pystr) (x : Extra) : SM RunState unit :=
  _ ← tx_transition e s; event name e x.
(** [try: v = f(e)], [except Exception as exc: v = fallback; event(name, e, error_type=...)] *)
Definition try_call {A} (f : W → AtomicEffect → res A * W) (e : AtomicEffect) (fallback : A) (name : pystr) : SM RunState A := λ rs,
  let '(r, w) := f (r_world rs) e in
  (match r with
   | Ok v => mret v
   | Raise x => _ ← event name e (ErrorType x); mret fallback
   end) (mkRun (r_effects rs) (r_events rs) w).

(** The reconciliation of an unknown outcome; [true] continues the loop. *)
Definition reconcile_effect (e : AtomicEffect) (outcome : json) : SM RunState bool :=
  _ ← move e AMBIGUOUS (str "ambiguous") (Outcome outcome);
  _ ← move e RECONCILING (str "reconciling") NoExtra;
  resolved ← try_call reconcile e (str "failed") (str "reconciliation_error");
  let ok := bool_decide (resolved = str "applied") in
  _ ← move e (if ok then APPLIED else FAILED) (str "reconciled_" ++ resolved) NoExtra;
  mret ok.

(** The body of the [while] loop. *)
Definition attempt (e : AtomicEffect) : SM RunState bool :=
  _ ← move e ATTEMPTED (str "attempted") NoExtra;
  outcome ← try_call dispatch e (JStr (str "ambiguous")) (str "dispatch_error");
  if outcome_applied outcome then
    _ ← move e APPLIED (str "applied") NoExtra; mret true
  else if outcome_failed outcome then
    _ ← move e FAILED (str "failed") NoExtra; mret false
  else reconcile_effect e outcome.

(** [while tx.ready()]: every turn takes one effect out of [PREPARED]. *)
Fixpoint run_loop (fuel : nat) : SM RunState unit := λ rs,
  match ready (r_effects rs) with
  | [] => (Ok tt, rs)
  | e :: _ =>
      match fuel with
      | O => (out_of_fuel, rs)
      | S fuel => (continue ← attempt e; if (continue : bool) then run_loop fuel else mret tt) rs
      end
  end.

Definition compensable (e : AtomicEffect) : bool :=
  bool_decide (e_state e = APPLIED) && negb (bool_decide (default [] (compensation_intent_id e) = [])).

(** The compensation of one effect. *)
Definition compensate_effect (f : W → AtomicEffect → res bool * W) (e : AtomicEffect) : SM RunState unit :=
  _ ← move e COMPENSATING (str "compensating") NoExtra;
  ok ← try_call f e false (str "compensation_error");
  move e (if (ok : bool) then COMPENSATED else FAILED) (str (if ok then "compensated" else "compensation_failed")) NoExtra.

Definition run_compensation : SM RunState unit := λ rs,
  match compensate with
  | Some f =>
      if has (states (r_effects rs)) FAILED
      then sm_for (reverse (filter (λ e, compensable e = true) (r_effects rs).*2)) (compensate_effect f) rs
      else (Ok tt, rs)
  | None => (Ok tt, rs)
  end.

(** [run(tx)]: the receipt or what was raised, and in both cases the effects
    of [tx] as the run leaves them. *)
Definition run_body (fuel : nat) : SM RunState unit := _ ← run_loop fuel; run_compensation.
Definition run (tx : SideEffectTransaction) (w : W) : res TransactionReceipt * RunState :=
  (_ ← run_body (length (effects tx));
   rs ← sm_get;
   mret (mkTxReceipt (transaction_id tx) (policy_hash tx) (tx_state (r_effects rs))
           (sort_by key_leb ((λ p, (p.1, intent_str (e_state p.2))) <$> r_effects rs))
           (imap evidence_ref (r_events rs)))) (mkRun (effects tx) [] w).
End coordinator.

(** ** Construction accepts exactly the acyclic transactions *)
Definition edge (effs : dict AtomicEffect) (k d : pystr) : Prop :=
  ∃ e, dget k effs = Some e ∧ d ∈ depends_on e.

Lemma visit_S fuel effs visiting k dn :
  visit (S fuel) effs visiting k dn =
    if bool_decide (k ∈ visiting) then Raise (ValueError "side-effect dependency cycle")
    else if bool_decide (k ∈ dn) then Ok dn
    else e ← dgetitem k effs; dn ← visit_all fuel effs ({[k]} ∪ visiting) (depends_on e) dn; Ok ({[k]} ∪ dn).
Proof.
  cbn [visit]. case_bool_decide; [done|]. case_bool_decide; [done|]. destruct (dgetitem k effs) as [e|]; [|done].
  cbn [mbind res_bind]. revert dn H0. generalize (depends_on e). intros ds dn _. revert dn. induction ds as [|d ds IH]; intros dn; [done|].
  cbn [visit_all]. destruct (visit fuel effs _ d dn); [|done]. cbn [mbind res_bind]. apply IH.
Qed.

(** Every visited key is accessible: no infinite dependency path starts there. *)
Definition grounded (effs : dict AtomicEffect) (dn : gset pystr) : Prop :=
  ∀ k, k ∈ dn → Acc (λ d k, edge effs k d) k.

Lemma visit_all_grounded fuel effs visiting ks dn dn' :
  (∀ v k dn dn', grounded effs dn → visit fuel effs v k dn = Ok dn' → grounded effs dn' ∧ dn ⊆ dn' ∧ k ∈ dn') →
  grounded effs dn → visit_all fuel effs visiting ks dn = Ok dn' →
  grounded effs dn' ∧ dn ⊆ dn' ∧ ∀ k, k ∈ ks → k ∈ dn'.
Proof.
  intros Hv. revert dn. induction ks as [|k ks IH]; intros dn Hg H; cbn [visit_all] in H.
  { injection H as <-. split_and!; [done|done|set_solver]. }
  apply bind_Ok in H as (d1 & H1 & H). destruct (Hv _ _ _ _ Hg H1) as (Hg1 & Hs1 & Hk).
  destruct (IH _ Hg1 H) as (Hg2 & Hs2 & Hks). split_and!; [done|set_solver|set_solver].
Qed.

Lemma visit_grounded fuel effs : ∀ visiting k dn dn',
  grounded effs dn → visit fuel effs visiting k dn = Ok dn' →
  grounded effs dn' ∧ dn ⊆ dn' ∧ k ∈ dn'.
Proof.
  induction fuel as [|fuel IH]; intros visiting k dn dn' Hg H; [done|]. rewrite visit_S in H.
  case_bool_decide; [done|]. case_bool_decide as Hd; [injection H as <-; done|].
  apply bind_Ok in H as (e & He & H). apply dgetitem_Ok in He. apply bind_Ok in H as (d1 & H1 & [= <-]).
  destruct (visit_all_grounded _ _ _ _ _ _ IH Hg H1) as (Hg1 & Hs1 & Hks). split_and!; [|set_solver|set_solver].
  intros x [->%elem_of_singleton|Hx]%elem_of_union; [|by apply Hg1].
  constructor. intros d (e' & He' & Hin). rewrite He in He'. injection He' as <-. by apply Hg1, Hks.
Qed.

Lemma visit_total fuel effs : ∀ visiting k dn,
  (∀ x, ¬ tc (edge effs) x x) → (∀ x d, edge effs x d → d ∈ effs.*1) → k ∈ effs.*1 →
  (∀ v, v ∈ visiting → tc (edge effs) v k) → visiting ⊆ list_to_set effs.*1 → length effs < fuel + size visiting →
  ∃ dn', visit fuel effs visiting k dn = Ok dn'.
Proof.
  induction fuel as [|fuel IH]; intros visiting k dn Hac Hknown Hk Hpath Hsub Hf.
  { exfalso. apply subseteq_size in Hsub. assert (size (list_to_set effs.*1 : gset pystr) ≤ length effs.*1)
      by apply size_list_to_set_le.
    rewrite length_fmap in *. lia. }
  rewrite visit_S. case_bool_decide as Hv; [by apply Hpath, Hac in Hv|]. case_bool_decide; [eauto|].
  destruct (dget k effs) as [e|] eqn:He; [|by apply dget_None in He]. rewrite (proj2 (dgetitem_Ok _ _ _) He). cbn [mbind res_bind].
  assert (∀ ds dn0, (∀ d, d ∈ ds → d ∈ depends_on e) → ∃ dn', visit_all fuel effs ({[k]} ∪ visiting) ds dn0 = Ok dn') as Hall.
  { intros ds. induction ds as [|d ds IHd]; intros dn0 Hds; cbn [visit_all]; [eauto|].
    assert (Hedge : edge effs k d) by (exists e; split; [done|apply Hds, list_elem_of_here]).
    destruct (IH ({[k]} ∪ visiting) d dn0) as [d1 ->]; try done.
    - by eapply Hknown.
    - intros v [->%elem_of_singleton|Hin]%elem_of_union; [by apply tc_once|]. eapply tc_r; [by apply Hpath|done].
    - intros x [->%elem_of_singleton|Hx]%elem_of_union; [by apply elem_of_list_to_set|by apply Hsub].
    - rewrite size_union by set_solver. rewrite size_singleton. lia.
    - cbn [mbind res_bind]. apply IHd. intros x Hx. by apply Hds, list_elem_of_further. }
  destruct (Hall (depends_on e) dn) as [d1 ->]; [done|]. cbn [mbind res_bind]. eauto.
Qed.

Lemma acc_acyclic effs x : Acc (λ d k, edge effs k d) x → ¬ tc (edge effs) x x.
Proof.
  induction 1 as [x _ IH]. intros Hc. assert (∃ y, edge effs x y ∧ tc (edge effs) y y) as (y & Hy & Hyy); [|by eapply IH].
  inversion Hc as [? ? H|? y ? H1 H2]; subst; [by exists x; split; [|apply tc_once]|].
  exists y. split; [done|]. by eapply tc_r.
Qed.

Lemma visit_all_total effs ks dn :
  (∀ x, ¬ tc (edge effs) x x) → (∀ x d, edge effs x d → d ∈ effs.*1) → (∀ k, k ∈ ks → k ∈ effs.*1) →
  ∃ dn', visit_all (visit_fuel effs) effs ∅ ks dn = Ok dn'.
Proof.
  intros Hac Hk. revert dn. induction ks as [|k ks IH]; intros dn Hks; cbn [visit_all]; [eauto|].
  destruct (visit_total (visit_fuel effs) effs ∅ k dn) as [d1 ->]; try done.
  - apply Hks, list_elem_of_here.
  - unfold visit_fuel. lia.
  - apply IH. intros x Hx. by apply Hks, list_elem_of_further.
Qed.

Lemma known_edges effs : unknown_deps effs = [] → ∀ x d, edge effs x d → d ∈ effs.*1.
Proof.
  intros H x d (e & He & Hd). apply dmem_true. destruct (dmem d effs) eqn:E; [done|]. exfalso.
  assert (d ∈ unknown_deps effs) as Hin; [|rewrite H in Hin; by apply not_elem_of_nil in Hin].
  apply list_elem_of_filter. split; [done|]. apply list_elem_of_join. exists (depends_on e). split; [done|].
  apply list_elem_of_fmap. exists e. split; [done|]. apply dget_Some_elem in He. by apply (list_elem_of_fmap_2 snd) in He.
Qed.

(** A transaction is accepted exactly when it has a policy hash, its
    dependencies are known and no effect depends on itself through any chain;
    the depth-first search always ends. *)
Theorem transaction_accepts_acyclic id effs policy :
  (∃ tx, Tx_new id effs policy = Ok tx) ↔
  policy ≠ [] ∧ unknown_deps effs = [] ∧ ∀ k, ¬ tc (edge effs) k k.
Proof.
  unfold Tx_new, assert_acyclic. split.
  - intros (tx & H). pass_guard H as Hp. pass_guard H as Hu. bool_prop. apply bind_Ok in H as ([] & H & _).
    apply bind_Ok in H as (dn & Hdn & _). split_and!; [done|done|]. intros k Hk.
    assert (grounded effs ∅) as Hg0 by (intros x []%elem_of_empty).
    destruct (visit_all_grounded _ _ _ _ _ _ (visit_grounded _ effs) Hg0 Hdn) as (Hg & _ & Hks).
    assert (k ∈ effs.*1) as Hin.
    { assert (∃ d, edge effs k d) as (d & e & He & _) by (inversion Hk; eauto).
      apply dget_is_Some. eauto. }
    eapply acc_acyclic; [|exact Hk]. apply Hg. by apply Hks.
  - intros (Hp & Hu & Hac). rewrite bool_decide_eq_false_2, bool_decide_eq_true_2 by done. cbn [negb].
    destruct (visit_all_total effs effs.*1 ∅ Hac (known_edges effs Hu)) as [dn ->]; [done|]. cbn [mbind res_bind]. eauto.
Qed.

(** ** Runs *)
(** The effects are stored under their own id. *)
Definition keyed (effs : dict AtomicEffect) : Prop := wf_dict effs ∧ Forall (λ p, effect_id p.2 = p.1) effs.
(** What a run never changes. *)
Definition shape (p : pystr * AtomicEffect) : pystr * (list pystr * option pystr) :=
  (p.1, (depends_on p.2, compensation_intent_id p.2)).

Lemma dset_dset {V} k (v w : V) (d : dict V) : dset k v (dset k w d) = dset k v d.
Proof.
  induction d as [|[j x] d IH]; cbn; [by rewrite decide_True|]. destruct (decide (k = j)) as [->|]; cbn.
  - by rewrite decide_True.
  - by rewrite decide_False, IH.
Qed.

Lemma dget_keyed effs e : keyed effs → e ∈ effs.*2 → dget (effect_id e) effs = Some e.
Proof.
  intros [Hw Hk] ([k e'] & -> & Hin)%list_elem_of_fmap. rewrite Forall_forall in Hk. assert (H := Hk _ Hin). cbn in H |- *.
  rewrite H. by apply dget_elem.
Qed.

Lemma dset_images {V B} (f : pystr * V → B) k v e (d : dict V) :
  dget k d = Some e → f (k, v) = f (k, e) → f <$> dset k v d = f <$> d.
Proof.
  intros Hk Hf. induction d as [|[j x] d IH]; cbn in *; [done|]. destruct (decide (k = j)) as [->|]; cbn.
  - injection Hk as ->. by rewrite Hf.
  - by rewrite IH.
Qed.

Lemma dset_Forall {V} (P : pystr * V → Prop) k v (d : dict V) : P (k, v) → Forall P d → Forall P (dset k v d).
Proof.
  intros Hv Hd. induction Hd as [|[j x] d Hx Hd IH]; cbn; [by repeat constructor|].
  destruct (decide (k = j)) as [->|]; by constructor.
Qed.

Lemma keyed_set effs e s :
  keyed effs → dget (effect_id e) effs = Some e → keyed (dset (effect_id e) (with_state e s None) effs).
Proof. intros [Hw Hk] He. split; [by apply wf_dset|]. by apply dset_Forall. Qed.

Lemma shape_set effs e s :
  dget (effect_id e) effs = Some e → shape <$> dset (effect_id e) (with_state e s None) effs = shape <$> effs.
Proof. intros He. by eapply dset_images. Qed.

(** The effects whose event says they took effect. *)
Definition settled (d : pystr) (evs : list TxEvent) : Prop :=
  mkTxEvent (str "applied") d ∈ evs ∨ mkTxEvent (str "reconciled_" ++ str "applied") d ∈ evs.
Definition attempted (id : pystr) : TxEvent := mkTxEvent (str "attempted") id.
Definition deps_of (effs : dict AtomicEffect) (id : pystr) : list pystr :=
  match dget id effs with Some e => depends_on e | None => [] end.
(** Each attempt comes after its dependencies took effect, and only once. *)
Definition ordered (effs : dict AtomicEffect) (evs : list TxEvent) : Prop :=
  ∀ pre id post, evs = pre ++ attempted id :: post →
    ¬ (attempted id ∈ pre) ∧ ∀ d, d ∈ deps_of effs id → settled d pre.

Lemma settled_app d evs evs' : settled d evs → settled d (evs ++ evs').
Proof. unfold settled. rewrite !elem_of_app. tauto. Qed.

Lemma ordered_quiet effs evs evs' :
  ordered effs evs → (∀ id, ¬ (attempted id ∈ evs')) → ordered effs (evs ++ evs').
Proof.
  intros Ho Hq pre id post H. apply app_eq_inv in H as [(l & -> & H)|(l & -> & H)].
  - destruct l as [|x l]; [|injection H as <- ->; by eapply Ho].
    exfalso. apply (Hq id). cbn in H. rewrite <- H. apply list_elem_of_here.
  - exfalso. apply (Hq id). rewrite H. apply elem_of_app. right. apply list_elem_of_here.
Qed.

Lemma ordered_attempt effs evs id :
  ordered effs evs → ¬ (attempted id ∈ evs) → (∀ d, d ∈ deps_of effs id → settled d evs) →
  ordered effs (evs ++ [attempted id]).
Proof.
  intros Ho Hn Hd pre x post H. apply app_eq_inv in H as [(l & -> & H)|(l & -> & H)].
  - destruct l as [|y l]; [|injection H as <- ->; by eapply Ho]. cbn in H. injection H as -> ->. by rewrite app_nil_r in Ho, Hn, Hd.
  - destruct l as [|y l]; [|by destruct l]. injection H as <- _. by rewrite app_nil_r.
Qed.

Section runs.
Context {W : Type} (dispatch : W → AtomicEffect → res json * W)
  (reconcile : W → AtomicEffect → res pystr * W) (compensate : option (W → AtomicEffect → res bool * W))
  (emit : W → TxEvent → pystr → Extra → res unit * W).
Implicit Types (rs : @RunState W).
Set Default Proof Using "All".

(** The exception came out of [emit], called with the last recorded event. *)
Definition raised_by_emit (x : exn) rs : Prop :=
  ∃ ev w ref extra, last (r_events rs) = Some ev ∧ (emit w ev ref extra).1 = Raise x.
(** Every return satisfies [Q]; whatever is raised came out of [emit] and
    leaves a state in [R]. *)
Definition wp {A} (m : SM (@RunState W) A) (Q : A → @RunState W → Prop) (R : @RunState W → Prop) rs : Prop :=
  match m rs with
  | (Ok a, rs') => Q a rs'
  | (Raise x, rs') => raised_by_emit x rs' ∧ R rs'
  end.

Lemma wp_bind {A B} (m : SM _ A) (f : A → SM _ B) Q R rs :
  wp m (λ a, wp (f a) Q R) R rs → wp (m ≫= f) Q R rs.
Proof. unfold wp, mbind, SM_bind. by destruct (m rs) as [[a|x] rs']. Qed.
Lemma wp_mono {A} (m : SM _ A) (Q Q' : A → _ → Prop) (R R' : _ → Prop) rs :
  wp m Q R rs → (∀ a rs', Q a rs' → Q' a rs') → (∀ rs', R rs' → R' rs') → wp m Q' R' rs.
Proof. unfold wp. destruct (m rs) as [[a|x] rs']; [by auto|]. intros [H1 H2] _ HR. auto. Qed.
Lemma wp_ret {A} (a : A) (Q : A → _ → Prop) R rs : Q a rs → wp (mret a) Q R rs.
Proof. done. Qed.

Lemma wp_event name e x (Q : unit → _ → Prop) (R : _ → Prop) rs :
  (∀ w, let rs' := mkRun (r_effects rs) (r_events rs ++ [mkTxEvent name (effect_id e)]) w in Q tt rs' ∧ R rs') →
  wp (event emit name e x) Q R rs.
Proof.
  intros H. unfold wp, event. destruct (emit _ _ _ _) as [[[]|y] w] eqn:E; [apply H|]. split; [|apply H].
  eexists _, _, _, _. cbn [r_events]. rewrite last_snoc. split; [done|]. by rewrite E.
Qed.
Lemma wp_move e e' s name x (Q : unit → _ → Prop) (R : _ → Prop) rs :
  dget (effect_id e) (r_effects rs) = Some e' → s ∈ allowed (e_state e') →
  (∀ w, let rs' := mkRun (dset (effect_id e) (with_state e' s None) (r_effects rs))
                     (r_events rs ++ [mkTxEvent name (effect_id e)]) w in Q tt rs' ∧ R rs') →
  wp (move emit e s name x) Q R rs.
Proof.
  intros He Hs H. apply wp_bind. unfold wp at 1, tx_transition, transition.
  rewrite (proj2 (dgetitem_Ok _ _ _) He). cbn [mbind res_bind]. rewrite bool_decide_eq_true_2 by done. by apply wp_event.
Qed.
Lemma wp_try_call {A} (f : W → AtomicEffect → res A * W) e v0 name (Q : A → _ → Prop) (R : _ → Prop) rs :
  (∀ v w0 w, (f w0 e).1 = Ok v → Q v (mkRun (r_effects rs) (r_events rs) w)) →
  (∀ w, let rs' := mkRun (r_effects rs) (r_events rs ++ [mkTxEvent name (effect_id e)]) w in Q v0 rs' ∧ R rs') →
  wp (try_call emit f e v0 name) Q R rs.
Proof.
  intros Hq Hr. unfold wp at 1, try_call. destruct (f (r_world rs) e) as [[v|x] w] eqn:E; [apply (Hq _ (r_world rs)); by rewrite E|].
  assert (H : wp (_ ← event emit name e (ErrorType x); mret v0) Q R (mkRun (r_effects rs) (r_events rs) w)); [|exact H].
  apply wp_bind, wp_event. exact Hr.
Qed.

(** The dispatcher or the reconciler said the effect took place. *)
Definition confirmed (e : AtomicEffect) : Prop :=
  (∃ w v, (dispatch w e).1 = Ok v ∧ outcome_applied v = true) ∨ (∃ w, (reconcile w e).1 = Ok (str "applied")).

(** Events that are not attempts. *)
Definition quiet (evs : list TxEvent) : Prop := ∀ id, ¬ (attempted id ∈ evs).
Lemma quiet_nil : quiet [].
Proof. intros id H. by apply not_elem_of_nil in H. Qed.
Lemma quiet_cons name id evs : name ≠ str "attempted" → quiet evs → quiet (mkTxEvent name id :: evs).
Proof. intros Hn Hq x [H|H]%elem_of_cons; [by injection H as <- _|by apply (Hq x)]. Qed.
Lemma quiet_app evs evs' : quiet evs → quiet evs' → quiet (evs ++ evs').
Proof. intros H1 H2 id [H|H]%elem_of_app; [by apply (H1 id)|by apply (H2 id)]. Qed.

Ltac solve_quiet :=
  cbn [app]; repeat apply quiet_cons; try apply quiet_nil; try done; intros Hq; vm_compute in Hq; discriminate Hq.
(** From [rs] only the effect of [e'] has moved, to [s], with [evs] recorded. *)
Definition moved (e' : AtomicEffect) (s : IntentState) (evs : list TxEvent) rs rs' : Prop :=
  r_effects rs' = dset (effect_id e') (with_state e' s None) (r_effects rs) ∧ r_events rs' = r_events rs ++ evs ∧ quiet evs.
Definition strays (e' : AtomicEffect) rs rs' : Prop := ∃ s evs, moved e' s evs rs rs'.
(** Closes the side goals of a move: where the effect is, and how far it moved. *)
Ltac set_effect := cbn [r_effects]; rewrite ?dget_dset_eq; reflexivity.
Ltac solve_moved := split_and!; cbn [r_effects r_events]; [by rewrite ?dset_dset|by rewrite <- ?app_assoc|solve_quiet].
Ltac solve_strays := eexists _, _; solve_moved.

Lemma reconcile_wp e e' v rs :
  effect_id e' = effect_id e → dget (effect_id e) (r_effects rs) = Some e' → e_state e' = ATTEMPTED →
  wp (reconcile_effect reconcile emit e v)
    (λ b rs', ∃ evs, moved e' (if b then APPLIED else FAILED) evs rs rs' ∧
       (b = true → settled (effect_id e) evs ∧ confirmed e))
    (strays e' rs) rs.
Proof.
  intros Hid He Hs. unfold strays, moved. rewrite Hid. apply wp_bind. eapply wp_move; [exact He|rewrite Hs; set_solver|]. intros w. split; [|solve_strays].
  apply wp_bind. eapply wp_move; [set_effect|set_solver|]. intros w1. split; [|solve_strays].
  apply wp_bind, wp_try_call.
  - intros r w0 w2 Hr. apply wp_bind. eapply wp_move; [set_effect|cbn; case_bool_decide; set_solver|].
    intros w3. split; [|solve_strays]. apply wp_ret. eexists. split; [solve_moved|].
    intros H. apply bool_decide_eq_true in H as ->. split; [right; set_solver|right; eauto].
  - intros w2. split; [|solve_strays]. apply wp_bind. eapply wp_move; [set_effect|cbn; case_bool_decide; set_solver|].
    intros w3. split; [|solve_strays]. apply wp_ret. eexists. split; [solve_moved|done].
Qed.

(** An attempt records [attempted], then settles its effect or strays. *)
Definition tried e rs : @RunState W := mkRun (r_effects rs) (r_events rs ++ [attempted (effect_id e)]) (r_world rs).
Lemma attempt_wp e rs :
  dget (effect_id e) (r_effects rs) = Some e → e_state e = PREPARED →
  wp (attempt dispatch reconcile emit e)
    (λ b rs', ∃ evs, moved e (if b then APPLIED else FAILED) evs (tried e rs) rs' ∧
       (b = true → settled (effect_id e) evs ∧ confirmed e))
    (strays e (tried e rs)) rs.
Proof.
  intros He Hs. unfold strays, moved, tried. cbn [r_effects r_events]. apply wp_bind.
  eapply wp_move; [exact He|rewrite Hs; set_solver|]. intros w. split; [|eexists _, []; split_and!; [reflexivity|by rewrite app_nil_r|apply quiet_nil]].
  apply wp_bind, wp_try_call.
  - intros v w0 w1 Hv. destruct (outcome_applied v) eqn:Ha; [|destruct (outcome_failed v)].
    + apply wp_bind. eapply wp_move; [set_effect|set_solver|]. intros w2. split; [|solve_strays].
      apply wp_ret. eexists. split; [solve_moved|intros _; split; [left; set_solver|left; eauto]].
    + apply wp_bind. eapply wp_move; [set_effect|set_solver|]. intros w2. split; [|solve_strays].
      apply wp_ret. eexists. split; [solve_moved|done].
    + eapply wp_mono; [eapply reconcile_wp; [|set_effect|]; done|cbn beta|]; unfold strays, moved; cbn [r_effects r_events].
      * intros b rs' (evs & (H1 & H2 & H3) & H4). exists evs. rewrite H1, dset_dset. done.
      * intros rs' (s & evs & H1 & H2 & H3). exists s, evs. rewrite H1, dset_dset. done.
  - intros w1. split; [|solve_strays].
    change (outcome_applied (JStr (str "ambiguous"))) with false. change (outcome_failed (JStr (str "ambiguous"))) with false. cbn iota.
    eapply wp_mono; [eapply reconcile_wp; [|set_effect|]; done|cbn beta|]; unfold strays, moved; cbn [r_effects r_events].
    + intros b rs' (evs & (H1 & H2 & H3) & H4). exists (mkTxEvent (str "dispatch_error") (effect_id e) :: evs).
      rewrite H1, dset_dset, H2, <- !app_assoc. split_and!; [done..|by apply quiet_cons|].
      intros Hb. destruct (H4 Hb) as [[H|H] Hc]; (split; [|done]); [left|right]; by apply list_elem_of_further.
    + intros rs' (s & evs & H1 & H2 & H3). exists s, (mkTxEvent (str "dispatch_error") (effect_id e) :: evs).
      rewrite H1, dset_dset, H2, <- !app_assoc. split_and!; [done..|by apply quiet_cons].
Qed.

(** *** The loop *)
Lemma dset_values effs id v x :
  keyed effs → effect_id v = id → x ∈ (dset id v effs).*2 → x = v ∨ (x ∈ effs.*2 ∧ effect_id x ≠ id).
Proof.
  intros Hk Hv Hx.
  assert (Hk' : keyed (dset id v effs)) by (split; [apply wf_dset, Hk|apply dset_Forall; [done|apply Hk]]).
  apply (dget_keyed _ _ Hk') in Hx. rewrite dget_dset in Hx. case_decide as Hid; [left; congruence|right].
  split; [|done]. apply dget_Some_elem in Hx. by apply (list_elem_of_fmap_2 snd) in Hx.
Qed.

Lemma deps_of_shape effs effs' id : shape <$> effs = shape <$> effs' → deps_of effs id = deps_of effs' id.
Proof.
  intros H. assert (Hg : ∀ l : dict AtomicEffect, deps_of l id = fst (default ([], None) (dget id (shape <$> l)))).
  { intros l. unfold deps_of. induction l as [|[k e] l IH]; cbn; [done|]. case_decide; [done|exact IH]. }
  by rewrite !Hg, H.
Qed.

Record loop_inv (effs0 : dict AtomicEffect) rs : Prop := {
  li_keyed : keyed (r_effects rs);
  li_shape : shape <$> r_effects rs = shape <$> effs0;
  li_ordered : ordered effs0 (r_events rs);
  li_settled : ∀ e, e ∈ (r_effects rs).*2 → e_state e = APPLIED → settled (effect_id e) (r_events rs);
  li_confirmed : ∀ e, e ∈ (r_effects rs).*2 → e_state e = APPLIED → ∃ e0, dget (effect_id e) effs0 = Some e0 ∧ confirmed e0;
  li_prepared : ∀ e, e ∈ (r_effects rs).*2 → e_state e = PREPARED → dget (effect_id e) effs0 = Some e;
  li_untried : ∀ e, e ∈ (r_effects rs).*2 → e_state e = PREPARED → ¬ (attempted (effect_id e) ∈ r_events rs)
}.

Lemma ready_spec effs e :
  e ∈ ready effs ↔ e ∈ effs.*2 ∧ e_state e = PREPARED ∧
    ∀ d, d ∈ depends_on e → ∃ x, dget d effs = Some x ∧ e_state x = APPLIED.
Proof.
  unfold ready, is_ready. rewrite list_elem_of_filter, andb_true_iff, bool_decide_eq_true, forallb_true.
  split.
  - intros ((Hp & H) & Hin). split_and!; [done..|]. intros d Hd. specialize (H d Hd). unfold dep_applied in H. destruct (dget d effs); [|done].
    apply bool_decide_eq_true in H. eauto.
  - intros (Hin & Hp & H). split_and!; [done..| |done]. intros d Hd. destruct (H d Hd) as (x & Hx & Hs). unfold dep_applied. rewrite Hx.
    by apply bool_decide_eq_true_2.
Qed.

Lemma attempt_inv effs0 e rs :
  loop_inv effs0 rs → e ∈ ready (r_effects rs) →
  wp (attempt dispatch reconcile emit e)
    (λ b rs', loop_inv effs0 rs' ∧
       r_effects rs' = dset (effect_id e) (with_state e (if b then APPLIED else FAILED) None) (r_effects rs))
    (λ rs', ordered effs0 (r_events rs') ∧ ∃ s, r_effects rs' = dset (effect_id e) (with_state e s None) (r_effects rs)) rs.
Proof.
  intros [Hk Hsh Ho Hset Hcon Hpre Hun] (Hin & Hprep & Hdeps)%ready_spec. assert (He := dget_keyed _ _ Hk Hin).
  assert (Ho' : ordered effs0 (r_events rs ++ [attempted (effect_id e)])).
  { apply ordered_attempt; [done|by apply Hun|].
    intros d Hd. rewrite <- (deps_of_shape _ _ _ Hsh) in Hd. unfold deps_of in Hd. rewrite He in Hd.
    destruct (Hdeps d Hd) as (x & Hx & Hxs). assert (Hxi := Hx). apply dget_Some_elem in Hxi.
    destruct Hk as [_ Hk]. rewrite Forall_forall in Hk. assert (Hid := Hk _ Hxi). cbn in Hid. rewrite <- Hid.
    apply Hset; [|done]. by apply (list_elem_of_fmap_2 snd) in Hxi. }
  eapply wp_mono; [by apply attempt_wp|cbn beta|]; unfold strays, moved, tried; cbn [r_effects r_events].
  2:{ intros rs' (s & evs & H1 & H2 & H3). split; [|by exists s]. rewrite H2. by apply ordered_quiet. }
  intros b rs' (evs & (Heffs & Hevs & Hq) & Hb). split; [|done]. split; rewrite ?Heffs, ?Hevs.
  - by apply keyed_set.
  - by rewrite shape_set.
  - by apply ordered_quiet.
  - intros x Hx Hxs. destruct (dset_values _ (effect_id e) (with_state e (if b then APPLIED else FAILED) None) _ Hk eq_refl Hx) as [->|[Hx' Hne]].
    + destruct b; [|done]. destruct (Hb eq_refl) as [[H|H] _]; [left|right]; apply elem_of_app; by right.
    + rewrite <- app_assoc. by apply settled_app, Hset.
  - intros x Hx Hxs. destruct (dset_values _ (effect_id e) (with_state e (if b then APPLIED else FAILED) None) _ Hk eq_refl Hx) as [->|[Hx' Hne]]; [|by apply Hcon].
    destruct b; [|done]. exists e. split; [exact (Hpre e Hin Hprep)|by apply Hb].
  - intros x Hx Hxs. destruct (dset_values _ (effect_id e) (with_state e (if b then APPLIED else FAILED) None) _ Hk eq_refl Hx) as [->|[Hx' Hne]]; [by destruct b|by apply Hpre].
  - intros x Hx Hxs. destruct (dset_values _ (effect_id e) (with_state e (if b then APPLIED else FAILED) None) _ Hk eq_refl Hx) as [->|[Hx' Hne]]; [by destruct b|].
    rewrite !elem_of_app, list_elem_of_singleton. intros [[H|[= H]]|H]; [by apply (Hun x)|done|by apply (Hq _ H)].
Qed.

Definition prepared_count (effs : dict AtomicEffect) : nat :=
  length (filter (λ p : pystr * AtomicEffect, e_state p.2 = PREPARED) effs).

Lemma prepared_count_set effs id e v :
  dget id effs = Some e → e_state e = PREPARED → e_state v ≠ PREPARED →
  prepared_count effs = S (prepared_count (dset id v effs)).
Proof.
  intros He Hs Hv. unfold prepared_count. induction effs as [|[k x] effs IH]; cbn in He; [done|].
  cbn [dset]. destruct (decide (id = k)) as [->|].
  - injection He as ->. rewrite !filter_cons. cbn [snd]. by rewrite decide_True, decide_False.
  - rewrite !filter_cons. cbn [snd]. case_decide; cbn; by rewrite IH.
Qed.

(** The states in which an effect is at rest, and effects of which at most the
    one called [id] is not. *)
Definition resting (s : IntentState) : Prop := s ∈ [PREPARED; APPLIED; FAILED; COMPENSATED].
Definition rest_but (id : pystr) (effs : dict AtomicEffect) : Prop :=
  ∀ k x, dget k effs = Some x → k ≠ id → resting (e_state x).
Lemma rest_but_set effs id v : (∀ k x, dget k effs = Some x → resting (e_state x)) → rest_but id (dset id v effs).
Proof. intros H k x Hx Hk. rewrite dget_dset_ne in Hx by done. by eapply H. Qed.
Lemma dget_state effs k x : dget k effs = Some x → e_state x ∈ states effs.
Proof. intros H. apply dget_Some_elem, (list_elem_of_fmap_2 snd) in H. unfold states. by apply list_elem_of_fmap_2. Qed.

(** What holds when [emit] raises: the events so far are in order, and at most
    one effect is not at rest. *)
Definition broken_off (effs0 : dict AtomicEffect) rs : Prop :=
  ordered effs0 (r_events rs) ∧ ∃ id, rest_but id (r_effects rs).

(** Where the loop stops: nothing is ready, or the last effect failed. *)
Lemma saga_loop_wp effs0 fuel rs :
  loop_inv effs0 rs → Forall (λ s, s ∈ [PREPARED; APPLIED]) (states (r_effects rs)) →
  prepared_count (r_effects rs) ≤ fuel →
  wp (run_loop dispatch reconcile emit fuel)
    (λ _ rs', loop_inv effs0 rs' ∧ Forall (λ s, s ∈ [PREPARED; APPLIED; FAILED]) (states (r_effects rs')) ∧
       (FAILED ∈ states (r_effects rs') ∨ ready (r_effects rs') = []))
    (broken_off effs0) rs.
Proof.
  revert rs. induction fuel as [|fuel IH]; intros rs Hi Hs Hf; unfold wp; cbn [run_loop].
  - destruct (ready (r_effects rs)) as [|e l] eqn:E.
    + split_and!; [done| |by right]. eapply Forall_impl; [exact Hs|set_solver].
    + exfalso. assert (He : e ∈ ready (r_effects rs)) by (rewrite E; apply list_elem_of_here).
      apply ready_spec in He as (Hin & Hp & _). apply (dget_keyed _ _ (li_keyed _ _ Hi)) in Hin.
      rewrite (prepared_count_set _ _ _ (with_state e FAILED None) Hin Hp) in Hf; [lia|done].
  - destruct (ready (r_effects rs)) as [|e l] eqn:E.
    { split_and!; [done| |by right]. eapply Forall_impl; [exact Hs|set_solver]. }
    assert (He : e ∈ ready (r_effects rs)) by (rewrite E; apply list_elem_of_here).
    apply wp_bind. eapply wp_mono; [apply (attempt_inv effs0 e rs Hi He)|cbn beta|].
    2:{ intros rs' (Ho & s & Heffs). split; [done|]. exists (effect_id e). rewrite Heffs. apply rest_but_set.
        intros k x Hx%dget_state. rewrite Forall_forall in Hs. unfold resting. assert (H := Hs _ Hx). set_solver. }
    intros b rs1 (Hi1 & Heffs).
    apply ready_spec in He as (Hin & Hp & _). apply (dget_keyed _ _ (li_keyed _ _ Hi)) in Hin.
    assert (Hst : Forall (λ s, s ∈ [PREPARED; APPLIED; if b then APPLIED else FAILED]) (states (r_effects rs1))).
    { rewrite Heffs. unfold states. rewrite !Forall_fmap. apply dset_Forall; [cbn; set_solver|].
      unfold states in Hs. rewrite !Forall_fmap in Hs. eapply Forall_impl; [exact Hs|]. cbn. set_solver. }
    destruct b.
    + apply IH; [done| |].
      * eapply Forall_impl; [exact Hst|set_solver].
      * rewrite (prepared_count_set _ _ _ (with_state e APPLIED None) Hin Hp) in Hf by done. rewrite Heffs. lia.
    + apply wp_ret. split_and!; [done..|]. left. apply (dget_state _ (effect_id e) (with_state e FAILED None)).
      rewrite Heffs. apply dget_dset_eq.
Qed.

(** *** Compensation *)
Lemma compensate_wp f e rs :
  dget (effect_id e) (r_effects rs) = Some e → e_state e = APPLIED →
  wp (compensate_effect emit f e) (λ _ rs', ∃ s evs, s ∈ [COMPENSATED; FAILED] ∧ moved e s evs rs rs') (strays e rs) rs.
Proof.
  intros He Hs. unfold strays, moved. apply wp_bind. eapply wp_move; [exact He|rewrite Hs; set_solver|]. intros w. split; [|solve_strays].
  apply wp_bind, wp_try_call.
  - intros b w0 w1 _. eapply wp_move; [set_effect|destruct b; set_solver|]. intros w2.
    destruct b; (split; [|solve_strays]); [exists COMPENSATED|exists FAILED]; (eexists; split; [set_solver|]; solve_moved).
  - intros w1. split; [|solve_strays]. eapply wp_move; [set_effect|set_solver|]. intros w2. split; [|solve_strays].
    exists FAILED. eexists. split; [set_solver|]. solve_moved.
Qed.

(** Compensating [l] changes the effects of [l] only, to an end state. *)
Definition compensated (effs0 : dict AtomicEffect) (l : list AtomicEffect) rs rs' : Prop :=
  keyed (r_effects rs') ∧ ordered effs0 (r_events rs') ∧
  (∀ id x, dget id (r_effects rs') = Some x →
    (dget id (r_effects rs) = Some x ∧ ¬ (id ∈ effect_id <$> l)) ∨ e_state x ∈ [COMPENSATED; FAILED]) ∧
  (∀ id, ¬ (id ∈ effect_id <$> l) → dget id (r_effects rs') = dget id (r_effects rs)).

Lemma compensate_all_wp f effs0 l rs :
  keyed (r_effects rs) → ordered effs0 (r_events rs) → NoDup (effect_id <$> l) →
  (∀ k x, dget k (r_effects rs) = Some x → resting (e_state x)) →
  Forall (λ e, dget (effect_id e) (r_effects rs) = Some e ∧ e_state e = APPLIED) l →
  wp (sm_for l (compensate_effect emit f)) (λ _, compensated effs0 l rs) (broken_off effs0) rs.
Proof.
  revert rs. induction l as [|e l IH]; intros rs Hk Ho Hnd Hr Hl.
  { apply wp_ret. split_and!; [done..| |done]. intros id x Hx. left. split; [done|apply not_elem_of_nil]. }
  apply Forall_cons in Hl as [[He Hs] Hl]. rewrite fmap_cons in Hnd. apply NoDup_cons in Hnd as [Hne Hnd].
  apply wp_bind. eapply wp_mono; [by apply (compensate_wp f e rs)|cbn beta|].
  2:{ intros rs' (s & evs & Heffs & Hevs & Hq). split; [rewrite Hevs; by apply ordered_quiet|]. exists (effect_id e).
      rewrite Heffs. by apply rest_but_set. }
  intros [] rs1 (s & evs & Hss & Heffs & Hevs & Hq). eapply wp_mono; [apply (IH rs1)|cbn beta|done].
  - rewrite Heffs. by apply keyed_set.
  - rewrite Hevs. by apply ordered_quiet.
  - done.
  - intros k x Hx. rewrite Heffs, dget_dset in Hx. case_decide; [injection Hx as <-; cbn; unfold resting; set_solver|by eapply Hr].
  - rewrite Forall_forall in Hl |- *. intros x Hx. destruct (Hl x Hx) as [Hx1 Hx2]. split; [|done].
    rewrite Heffs, dget_dset_ne; [done|]. intros Heq. apply Hne. rewrite <- Heq. by apply list_elem_of_fmap_2.
  - intros _ rs2 (Hk2 & Ho2 & Hst & Hsame). split_and!; [done..| |].
    + intros id x Hx. destruct (Hst id x Hx) as [[Hx1 Hn]|]; [|by right]. rewrite Heffs, dget_dset in Hx1.
      case_decide as Hid; [right; injection Hx1 as <-; done|left]. split; [done|]. rewrite fmap_cons, elem_of_cons. tauto.
    + intros id Hn. rewrite fmap_cons, elem_of_cons in Hn. rewrite Hsame by tauto. rewrite Heffs. apply dget_dset_ne. tauto.
Qed.

Lemma states_elem effs s : keyed effs → s ∈ states effs ↔ ∃ id e, dget id effs = Some e ∧ e_state e = s.
Proof.
  intros Hk. unfold states. rewrite list_elem_of_fmap. split.
  - intros (e & -> & Hin). exists (effect_id e), e. split; [by apply dget_keyed|done].
  - intros (id & e & He & <-). exists e. split; [done|]. apply dget_Some_elem in He. by apply (list_elem_of_fmap_2 snd) in He.
Qed.

(** The transaction state of effects that are at rest. *)
Definition at_rest (effs : dict AtomicEffect) : Prop :=
  Forall resting (states effs).

Lemma at_rest_has effs s : at_rest effs → ¬ resting s → has (states effs) s = false.
Proof.
  intros Hr Hs. unfold has. apply bool_decide_eq_false_2. intros Hin. unfold at_rest in Hr. rewrite Forall_forall in Hr.
  by apply Hs, Hr.
Qed.

Lemma tx_state_failed effs :
  at_rest effs → FAILED ∈ states effs → tx_state effs ∈ [TIncomplete; TFailed; TCompensated].
Proof.
  intros Hr Hf. unfold tx_state. rewrite !(at_rest_has effs _ Hr) by (unfold resting; set_solver). cbn [orb].
  assert (only (states effs) APPLIED = false) as ->.
  { unfold only. apply andb_false_iff. right. apply not_true_iff_false. rewrite forallb_true. intros H.
    specialize (H _ Hf). by apply bool_decide_eq_true in H. }
  assert (has (states effs) FAILED = true) as -> by (by apply bool_decide_eq_true_2). cbn [andb].
  destruct (has (states effs) COMPENSATED && _) eqn:E1; [set_solver|].
  destruct (has (states effs) APPLIED) eqn:Ea; [set_solver|]. destruct (has (states effs) PREPARED) eqn:Ep; [set_solver|].
  assert (only (states effs) FAILED = true) as ->; [|set_solver].
  unfold only. apply andb_true_iff. split.
  { apply negb_true_iff, bool_decide_eq_false_2. intros H. rewrite H in Hf. by apply not_elem_of_nil in Hf. }
  unfold has in *. rewrite bool_decide_eq_false in Ea, Ep. unfold at_rest in Hr. rewrite Forall_forall in Hr.
  apply forallb_true. intros s Hs. apply bool_decide_eq_true. assert (H := Hr s Hs).
  apply andb_false_iff in E1 as [E1|E1].
  - apply bool_decide_eq_false in E1. set_solver.
  - exfalso. apply not_true_iff_false in E1. apply E1, forallb_true. intros x Hx. apply bool_decide_eq_true.
    assert (Hx' := Hr x Hx). set_solver.
Qed.

Lemma tx_state_complete effs : states effs ≠ [] → Forall (λ s, s = APPLIED) (states effs) → tx_state effs = TComplete.
Proof.
  intros Hne Ha. unfold tx_state, only. rewrite bool_decide_eq_false_2 by done. cbn [negb andb].
  rewrite (proj2 (forallb_true _ _)); [done|]. intros s Hs. rewrite Forall_forall in Ha. apply bool_decide_eq_true. by apply Ha.
Qed.

(** When nothing is ready and nothing failed, everything is applied. *)
Lemma nothing_ready effs :
  keyed effs → (∀ x d, edge effs x d → d ∈ effs.*1) → (∀ k, k ∈ effs.*1 → Acc (λ d k, edge effs k d) k) →
  Forall (λ s, s ∈ [PREPARED; APPLIED]) (states effs) → ready effs = [] → Forall (λ s, s = APPLIED) (states effs).
Proof.
  intros Hk Hknown Hacc Hs Hr.
  assert (Hall : ∀ k, Acc (λ d k, edge effs k d) k → ∀ e, dget k effs = Some e → e_state e = APPLIED).
  { intros k. induction 1 as [k _ IH]. intros e He. rewrite Forall_forall in Hs.
    assert (Hin := He). apply dget_Some_elem, (list_elem_of_fmap_2 snd) in Hin. cbn in Hin.
    assert (Hse : e_state e ∈ [PREPARED; APPLIED]) by (apply Hs; unfold states; by apply list_elem_of_fmap_2).
    assert (H : e_state e ≠ PREPARED); [|set_solver]. intros Hp.
    assert (e ∈ ready effs) as H; [|rewrite Hr in H; by apply not_elem_of_nil in H].
    apply ready_spec. split_and!; [done..|]. intros d Hd. assert (Hed : edge effs k d) by (by exists e).
    destruct (dget d effs) as [x|] eqn:Ex; [|apply dget_None in Ex; exfalso; by apply Ex, (Hknown k)].
    exists x. split; [done|]. by apply (IH d Hed). }
  apply Forall_forall. intros s Hin. apply (states_elem _ _ Hk) in Hin as (id & e & He & <-).
  apply (Hall id); [|done]. apply Hacc. apply dget_is_Some. eauto.
Qed.

(** *** Whole runs *)
Lemma edge_deps effs k d : edge effs k d ↔ d ∈ deps_of effs k.
Proof.
  unfold edge, deps_of. destruct (dget k effs) as [e|].
  - split; [by intros (x & [= <-] & H)|eauto].
  - split; [by intros (x & H & _)|by intros H%not_elem_of_nil].
Qed.

Lemma Tx_new_ok id effs policy tx :
  Tx_new id effs policy = Ok tx →
  effects tx = effs ∧ (∀ x d, edge effs x d → d ∈ effs.*1) ∧ (∀ k, k ∈ effs.*1 → Acc (λ d k, edge effs k d) k).
Proof.
  intros H. unfold Tx_new, assert_acyclic in H. pass_guard H as Hp. pass_guard H as Hu. bool_prop.
  apply bind_Ok in H as ([] & H & [= <-]). apply bind_Ok in H as (dn & Hdn & _). split; [done|].
  split; [by apply known_edges|].
  destruct (visit_all_grounded _ _ _ _ _ _ (visit_grounded _ effs) ltac:(intros x []%elem_of_empty) Hdn) as (Hg & _ & Hks).
  intros k Hk. by apply Hg, Hks.
Qed.

Lemma keys_shape effs effs' : shape <$> effs = shape <$> effs' → effs.*1 = effs'.*1.
Proof. intros H. apply (f_equal (fmap fst)) in H. by rewrite <- !list_fmap_compose in H. Qed.

Lemma prepared_count_le effs : prepared_count effs ≤ length effs.
Proof. apply length_filter. Qed.

Lemma initial_inv effs w : keyed effs → Forall (λ s, s = PREPARED) (states effs) → loop_inv effs (mkRun effs [] w).
Proof.
  intros Hk Hp. unfold states in Hp. rewrite Forall_fmap, Forall_forall in Hp. split; cbn [r_effects r_events]; [done|done| | | | |].
  - intros pre x post H. by destruct pre.
  - intros e He Hs. specialize (Hp e He). cbn in Hp. congruence.
  - intros e He Hs. specialize (Hp e He). cbn in Hp. congruence.
  - intros e He _. by apply dget_keyed.
  - intros e _ _ H. by apply not_elem_of_nil in H.
Qed.

(** Every effect left applied was confirmed. *)
Definition applied_confirmed (effs0 effs : dict AtomicEffect) : Prop :=
  ∀ k x, dget k effs = Some x → e_state x = APPLIED → ∃ e0, dget k effs0 = Some e0 ∧ confirmed e0.
Lemma loop_confirmed effs0 rs : loop_inv effs0 rs → applied_confirmed effs0 (r_effects rs).
Proof.
  intros Hi k x Hx Hs. apply dget_Some_elem in Hx. destruct (li_keyed _ _ Hi) as [_ Hk]. rewrite Forall_forall in Hk.
  assert (Hid := Hk _ Hx). cbn in Hid. rewrite <- Hid. apply (li_confirmed _ _ Hi); [|done]. by apply (list_elem_of_fmap_2 snd) in Hx.
Qed.

Lemma run_compensation_wp effs0 rs :
  loop_inv effs0 rs → Forall (λ s, s ∈ [PREPARED; APPLIED; FAILED]) (states (r_effects rs)) →
  wp (run_compensation compensate emit)
    (λ _ rs', at_rest (r_effects rs') ∧ ordered effs0 (r_events rs') ∧ applied_confirmed effs0 (r_effects rs') ∧
       (FAILED ∈ states (r_effects rs) → FAILED ∈ states (r_effects rs')) ∧
       (¬ (FAILED ∈ states (r_effects rs)) → rs' = rs))
    (broken_off effs0) rs.
Proof.
  intros Hi Hs. assert (Hrest : at_rest (r_effects rs)) by (eapply Forall_impl; [exact Hs|unfold resting; set_solver]).
  unfold run_compensation, wp. destruct compensate as [f|]; [|split_and!; try done; [apply Hi|by apply loop_confirmed]].
  unfold has. case_bool_decide as Hf; [|split_and!; try done; [apply Hi|by apply loop_confirmed]].
  assert (Hk := li_keyed _ _ Hi). set (l := reverse _). unfold at_rest in Hrest. rewrite Forall_forall in Hrest.
  assert (Hl : Forall (λ e, dget (effect_id e) (r_effects rs) = Some e ∧ e_state e = APPLIED) l).
  { apply Forall_forall. intros e He. unfold l in He. apply elem_of_reverse, list_elem_of_filter in He as [Hc He].
    unfold compensable in Hc. apply andb_true_iff in Hc as [Hc _]. apply bool_decide_eq_true in Hc.
    split; [by apply dget_keyed|done]. }
  apply (wp_mono _ (λ _, compensated effs0 l rs) _ (broken_off effs0) _ rs).
  { apply compensate_all_wp; [done|apply Hi| | |done]; [|by intros k x Hx%dget_state; apply Hrest].
    unfold l. rewrite fmap_reverse, reverse_Permutation. destruct Hk as [Hw Hke].
    assert (Hids : effect_id <$> (r_effects rs).*2 = (r_effects rs).*1).
    { clear -Hke. induction Hke as [|p d Hp _ IH]; [done|]. cbn. by f_equal. }
    eapply sublist_NoDup; [|apply fmap_sublist, sublist_filter]. rewrite Hids. exact Hw. }
  2:{ done. }
  intros _ rs' (Hk' & Ho' & Hst & Hsame). split_and!; [|done| | |done].
  - apply Forall_forall. intros s Hin. apply (states_elem _ _ Hk') in Hin as (id & e & He & <-).
    destruct (Hst id e He) as [[He' _]|H]; [|unfold resting; set_solver]. by eapply Hrest, dget_state.
  - intros k x Hx Hxs. destruct (Hst k x Hx) as [[Hx' _]|H]; [by apply (loop_confirmed _ _ Hi k x)|]. rewrite Hxs in H. set_solver.
  - intros _. apply (states_elem _ _ Hk) in Hf as (id & e & He & Hes). apply (states_elem _ _ Hk'). exists id, e.
    split; [|done]. rewrite Hsame; [done|]. intros (x & -> & Hx)%list_elem_of_fmap. rewrite Forall_forall in Hl.
    destruct (Hl x Hx) as [Hx1 Hx2]. congruence.
Qed.

(** A run that returns ends at rest, in order, complete or with a failure. *)
Lemma run_body_wp id effs policy tx w :
  Tx_new id effs policy = Ok tx → keyed effs → Forall (λ s, s = PREPARED) (states effs) →
  wp (run_body dispatch reconcile compensate emit (length (effects tx)))
    (λ _ rs, at_rest (r_effects rs) ∧ ordered effs (r_events rs) ∧ applied_confirmed effs (r_effects rs) ∧
      ((FAILED ∈ states (r_effects rs)) ∨
       (Forall (λ s, s = APPLIED) (states (r_effects rs)) ∧ (r_effects rs).*1 = effs.*1)))
    (broken_off effs) (mkRun (effects tx) [] w).
Proof.
  intros Htx Hk Hp. destruct (Tx_new_ok _ _ _ _ Htx) as (Heffs & Hknown & Hacc). rewrite Heffs. apply wp_bind.
  eapply wp_mono; [apply (saga_loop_wp effs (length effs) (mkRun effs [] w))|cbn beta|done].
  { by apply initial_inv. } { eapply Forall_impl; [exact Hp|set_solver]. } { apply prepared_count_le. }
  intros _ rs1 (Hi & Hs & Hend). eapply wp_mono; [apply (run_compensation_wp effs rs1 Hi Hs)|cbn beta|done].
  intros _ rs (Hrest & Ho & Hc & Hf & Hsame). split_and!; [done..|].
  destruct (decide (FAILED ∈ states (r_effects rs1))) as [|Hn]; [left; by apply Hf|right].
  rewrite (Hsame Hn). assert (Hshape := li_shape _ _ Hi). split; [|by apply keys_shape]. destruct Hend as [|Hready]; [done|].
  apply nothing_ready; [apply Hi| | | |done].
  - intros x d. rewrite edge_deps, (deps_of_shape _ _ _ Hshape), <- edge_deps, (keys_shape _ _ Hshape). apply Hknown.
  - intros k. rewrite (keys_shape _ _ Hshape). intros Hin. specialize (Hacc k Hin). clear -Hacc Hshape dispatch reconcile compensate emit.
    induction Hacc as [k _ IH]. constructor. intros d. rewrite edge_deps, (deps_of_shape _ _ _ Hshape), <- edge_deps. apply IH.
  - rewrite Forall_forall in Hs |- *. intros s Hin. assert (H := Hs s Hin). set_solver.
Qed.

(** C39: the saga coordinator brings a transaction to rest.  Take an accepted
    transaction of at least one effect, all prepared and stored under their own
    ids, and any dispatcher, reconciler, compensator and [emit], each of which
    may raise.  When the run returns, no effect is left attempted, ambiguous,
    reconciling or compensating; the final state is complete, incomplete, failed
    or compensated, it is complete exactly when every effect is applied, and an
    effect is left applied only if the dispatcher or the reconciler said so.  The run raises nothing but what [emit] raised on its last event, and then at
    most one effect is not at rest; so under an [emit] that does not raise every
    run returns, whatever the other callables do. *)
Theorem run_settles id effs policy tx w :
  Tx_new id effs policy = Ok tx → keyed effs → effs ≠ [] → Forall (λ s, s = PREPARED) (states effs) →
  let '(outcome, rs) := run dispatch reconcile compensate emit tx w in
  match outcome with
  | Ok receipt =>
      at_rest (r_effects rs) ∧
      tr_final_state receipt ∈ [TComplete; TIncomplete; TFailed; TCompensated] ∧
      (tr_final_state receipt = TComplete ↔ Forall (λ s, s = APPLIED) (states (r_effects rs))) ∧
      applied_confirmed effs (r_effects rs)
  | Raise x => raised_by_emit x rs ∧ ∃ id, rest_but id (r_effects rs)
  end.
Proof.
  intros Htx Hk Hne Hp. assert (H := run_body_wp _ _ _ _ w Htx Hk Hp). unfold wp in H. unfold run, sm_get, mret, SM_ret, mbind at 1, SM_bind at 1.
  destruct (run_body dispatch reconcile compensate emit _ _) as [[[]|x] rs]; [|destruct H as [H1 [_ H2]]; by split].
  destruct H as (Hrest & _ & Hcon & Hend). unfold mbind, SM_bind. cbn [tr_final_state]. split; [done|].
  destruct Hend as [Hf|[Ha Hkeys]].
  - assert (H := tx_state_failed _ Hrest Hf). split; [set_solver|]. split; [|done]. split; [intros Hc; rewrite Hc in H; set_solver|].
    intros Ha. rewrite Forall_forall in Ha. by apply Ha in Hf.
  - rewrite tx_state_complete; [split_and!; [set_solver|done|done]| |done].
    intros H. apply (f_equal length) in H. unfold states in H. rewrite !length_fmap in H.
    apply (f_equal length) in Hkeys. rewrite !length_fmap in Hkeys. destruct effs; [done|]. cbn in *. lia.
Qed.

(** Effects are dispatched in dependency order and at most once.  In the
    events of a run, also one that [emit] broke off, every attempt of an effect
    comes after an event saying each of its dependencies was applied, and no
    effect is attempted twice. *)
Theorem run_respects_dependencies id effs policy tx w :
  Tx_new id effs policy = Ok tx → keyed effs → Forall (λ s, s = PREPARED) (states effs) →
  ordered effs (r_events (run dispatch reconcile compensate emit tx w).2).
Proof.
  intros Htx Hk Hp. assert (H := run_body_wp _ _ _ _ w Htx Hk Hp). unfold wp in H. unfold run, sm_get, mret, SM_ret, mbind at 1, SM_bind at 1.
  destruct (run_body dispatch reconcile compensate emit _ _) as [[[]|x] rs]; [apply H|apply H].
Qed.
End runs.

(** ** A concrete transaction *)
Definition demo_effect (id : string) (deps : list string) : pystr * AtomicEffect :=
  (str id, mkEffect (str id) (str "i") (str <$> deps) PREPARED (str "unknown") None (Some (str "undo"))).
(** [c] needs [b], [b] needs [a]; [a] is applied, [b] has an unknown outcome that is reconciled, [c] is denied. *)
Definition demo_effects : dict AtomicEffect :=
  [demo_effect "c" ["b"]; demo_effect "b" ["a"]; demo_effect "a" []].
Definition demo_dispatch (w : nat) (e : AtomicEffect) : res json * nat :=
  (if bool_decide (effect_id e = str "a") then Ok (JBool true)
   else if bool_decide (effect_id e = str "b") then Raise (RuntimeError "lost") else Ok (JStr (str "denied")), S w).
Definition demo_reconcile (w : nat) (e : AtomicEffect) : res pystr * nat := (Ok (str "applied"), w).
(** The compensation of [b] fails. *)
Definition demo_compensate (w : nat) (e : AtomicEffect) : res bool * nat := (Ok (bool_decide (effect_id e = str "a")), w).
Definition demo_tx : SideEffectTransaction := mkTx (str "t") demo_effects (str "p").

Lemma demo_tx_accepted : Tx_new (str "t") demo_effects (str "p") = Ok demo_tx.
Proof. vm_compute. reflexivity. Qed.
Lemma demo_keyed : keyed demo_effects.
Proof. split; [apply (bool_decide_eq_true_1 _); vm_compute; reflexivity|repeat constructor]. Qed.
Lemma demo_prepared : Forall (λ s, s = PREPARED) (states demo_effects).
Proof. repeat constructor. Qed.

(** The default [emit], and one that cannot deliver the event [name]. *)
Definition demo_emit (w : nat) (_ : TxEvent) (_ : pystr) (_ : Extra) : res unit * nat := (Ok tt, w).
Definition failing_emit (name : string) (w : nat) (ev : TxEvent) (_ : pystr) (_ : Extra) : res unit * nat :=
  (if bool_decide (te_name ev = str name) then Raise (RuntimeError "bus") else Ok tt, w).

Lemma run_settles_witness :
  ∃ receipt, (run demo_dispatch demo_reconcile (Some demo_compensate) demo_emit demo_tx 0).1 = Ok receipt ∧
    at_rest (r_effects (run demo_dispatch demo_reconcile (Some demo_compensate) demo_emit demo_tx 0).2).
Proof.
  assert (H := run_settles demo_dispatch demo_reconcile (Some demo_compensate) demo_emit (str "t") demo_effects (str "p") demo_tx 0
    demo_tx_accepted demo_keyed ltac:(discriminate) demo_prepared).
  destruct (run demo_dispatch demo_reconcile (Some demo_compensate) demo_emit demo_tx 0) as [[receipt|x] rs].
  - exists receipt. exact (conj eq_refl (proj1 H)).
  - exfalso. destruct H as [(ev & w & ref & extra & _ & E) _]. discriminate E.
Defined.

Lemma run_respects_dependencies_witness :
  ordered demo_effects (r_events (run demo_dispatch demo_reconcile None demo_emit demo_tx 0).2).
Proof.
  apply (run_respects_dependencies demo_dispatch demo_reconcile None demo_emit (str "t") demo_effects (str "p") demo_tx 0).
  - vm_compute. reflexivity.
  - exact demo_keyed.
  - exact demo_prepared.
Defined.

(** A transaction can be reported compensated although the compensation of
    an applied effect failed: its effect state is then failed, which the
    transaction state does not tell from an effect that never happened. *)
Theorem compensated_despite_failure :
  (λ r, (tr_final_state r, tr_effect_states r)) <$>
    (run demo_dispatch demo_reconcile (Some demo_compensate) demo_emit demo_tx 0).1 =
  Ok (TCompensated, [(str "a", str "compensated"); (str "b", str "failed"); (str "c", str "failed")]).
Proof. vm_compute. reflexivity. Qed.

(** An [emit] that raises strands the transaction: when it cannot deliver
    [ambiguous], the run raises with the effect [b], which was dispatched, left
    ambiguous -- neither reconciled nor, as no compensation is tried, undone --
    and [a] left applied. *)
Theorem emit_strands_effect :
  let '(outcome, rs) := run demo_dispatch demo_reconcile (Some demo_compensate) (failing_emit "ambiguous") demo_tx 0 in
  outcome = Raise (RuntimeError "bus") ∧ tx_state (r_effects rs) = TReconciliationRequired ∧
  states (r_effects rs) = [PREPARED; AMBIGUOUS; APPLIED].
Proof. vm_compute. done. Qed.
