(* ===== verification/ControlPlane.v ===== *)
(** * Control-plane governance
    (residual/control_plane/amendments.py, policy.py, routing.py,
    environment.py, invariants.py and the models they use)

    Times are Python floats.  The host's attestor is a parameter that may
    raise. *)

From Stdlib Require Import ZArith NArith Lia SpecFloat.
From S2P Require Import Prelude PyData Sha256 PyFloat Json JsonFacts Core CoreFacts Storage.

(** ** Models *)
Inductive AmendmentClass : Type := CLARIFICATION | RESTRUCTURE | RESOURCE | AUTHORITY | TRUST_BOUNDARY.
#[export] Instance AmendmentClass_eq_dec : EqDecision AmendmentClass.
Proof. solve_decision. Defined.
Definition class_int (c : AmendmentClass) : Z :=
  match c with CLARIFICATION => 0 | RESTRUCTURE => 1 | RESOURCE => 2 | AUTHORITY => 3 | TRUST_BOUNDARY => 4 end.
(** [AmendmentClass(n)] *)
Definition class_of_int (n : Z) : option AmendmentClass :=
  match n with
  | 0 => Some CLARIFICATION | 1 => Some RESTRUCTURE | 2 => Some RESOURCE | 3 => Some AUTHORITY
  | 4 => Some TRUST_BOUNDARY | _ => None
  end%Z.

Record CapabilityGrant : Type := mkGrant {
  g_subject : pystr; g_action : pystr; g_resource : pystr;
  g_scope : dict json; g_constraints : dict json; g_conditions : dict json; g_approval_policy : dict json;
  g_expires_at : option float
}.
Definition opt_float (o : option float) : json := match o with Some f => JFloat f | None => JNull end.
(** [asdict(grant)] *)
Definition grant_dict (g : CapabilityGrant) : json :=
  jobj [("subject", JStr (g_subject g)); ("action", JStr (g_action g)); ("resource", JStr (g_resource g));
        ("scope", JDict (g_scope g)); ("constraints", JDict (g_constraints g)); ("conditions", JDict (g_conditions g));
        ("approval_policy", JDict (g_approval_policy g)); ("expires_at", opt_float (g_expires_at g))].
Definition grant_fingerprint (g : CapabilityGrant) : res pystr := digest (grant_dict g).

Record MissionRevision : Type := mkRevision {
  m_mission_id : pystr; m_revision_id : pystr; m_objective : pystr; m_plan_hash : pystr; m_policy_hash : pystr;
  m_grants : list CapabilityGrant; m_parent : option pystr; m_amendment : option pystr;
  m_workspaces : list pystr; m_budget : dict json
}.
Definition authority_hash (m : MissionRevision) : res pystr :=
  fs ← mapM grant_fingerprint (m_grants m); digest (json_strs fs).

Record AmendmentDelta : Type := mkDelta {
  d_type : pystr; d_value : json; d_authority : dict json; d_resource : dict json; d_risk : option Z
}.
Record PlanAmendment : Type := mkAmendment {
  a_amendment_id : pystr; a_mission_id : pystr; a_from_revision : pystr; a_class : AmendmentClass; a_reason : pystr;
  a_proposed_delta : dict json; a_deltas : list AmendmentDelta; a_classifier_revision : pystr;
  a_counterexamples : list pystr; a_proposer : pystr; a_beneficiaries : list pystr
}.

Record RoutingDecision : Type := mkDecision {
  rd_decision_id : pystr; rd_mission_revision : pystr; rd_obligation_id : pystr; rd_eligible : list pystr;
  rd_selected : pystr; rd_scoring_inputs : dict json; rd_state_refs : list pystr; rd_router_revision : pystr;
  rd_policy_revision : pystr; rd_required_hash : pystr; rd_granted_hash : pystr; rd_excluded : dict pystr;
  rd_timestamp : float; rd_expires_at : option float; rd_preconditions : dict pystr; rd_re_route_policy : pystr
}.

Inductive CertifiedStatus : Type := CERTIFIED | STALE | INVALIDATED.
#[export] Instance CertifiedStatus_eq_dec : EqDecision CertifiedStatus.
Proof. solve_decision. Defined.

Record CertifiedState : Type := mkCertified {
  cs_key : pystr; cs_value : json; cs_evidence_refs : list pystr; cs_derivation : pystr; cs_verifier_revision : pystr;
  cs_measurement_start : float; cs_measurement_end : float; cs_sample_size : Z; cs_certified_at : float;
  cs_valid_until : float; cs_staleness_budget : float; cs_environment : pystr; cs_drift_detector : option pystr;
  cs_drift_status : pystr
}.

(** [a > b] on floats *)
Definition fgt (a b : float) : bool := num_ltb (NFloat b) (NFloat a).

(** [CertifiedState.status] *)
Definition certified_status (c : CertifiedState) (now : float) (environment : option pystr) : CertifiedStatus :=
  if match environment with Some e => negb (bool_decide (e = cs_environment c)) | None => false end then INVALIDATED
  else if negb (bool_decide (cs_drift_status c = str "stable")) then INVALIDATED
  else if fgt now (cs_valid_until c) || fgt (fsub now (cs_certified_at c)) (cs_staleness_budget c) then STALE
  else CERTIFIED.

(** ** Amendment classifier *)
Definition DEFAULT_RULES : dict AmendmentClass :=
  (λ p, (str p.1, p.2)) <$>
  [("clarification", CLARIFICATION); ("plan.restructure", RESTRUCTURE); ("scope.workspace_add", RESTRUCTURE);
   ("budget.increase", RESOURCE); ("budget.decrease", RESOURCE); ("resource.increase", RESOURCE);
   ("authority.side_effect_add", AUTHORITY); ("authority.capability_add", AUTHORITY);
   ("authority.scope_expand", AUTHORITY); ("trust_boundary.change", TRUST_BOUNDARY);
   ("verifier.policy_change", TRUST_BOUNDARY)].

Definition classify_delta (d : AmendmentDelta) : res AmendmentClass :=
  match d_risk d with
  | Some n => of_option (ValueError "risk_score must be 0..4") (class_of_int n)
  | None => of_option (ValueError "unclassified amendment delta") (dget (d_type d) DEFAULT_RULES)
  end.

(** [max(..., key=int)] *)
Definition max_class (c : AmendmentClass) (l : list AmendmentClass) : AmendmentClass :=
  foldl (λ best x, if (class_int best <? class_int x)%Z then x else best) c l.
Definition classify (deltas : list AmendmentDelta) : res AmendmentClass :=
  when bool_decide (length deltas = 0) raise ValueError "amendment requires at least one typed delta";;
  cs ← mapM classify_delta deltas;
  match cs with
  | [] => Raise (ValueError "max() arg is an empty sequence")
  | c :: cs => Ok (max_class c cs)
  end.

(** ** Policies *)
(** [all(f(x) in s for x in l)] *)
Fixpoint all_in (s : list pystr) (l : list CapabilityGrant) : res bool :=
  match l with
  | [] => Ok true
  | g :: l => f ← grant_fingerprint g; if bool_decide (f ∈ s) then all_in s l else Ok false
  end.
(** [AuthorityPolicy.allows] *)
Definition allows (required : list CapabilityGrant) (revision : MissionRevision) : res bool :=
  allowed ← mapM grant_fingerprint (m_grants revision); all_in allowed required.
(** [RoutingPolicy.validate] *)
Definition routing_validate (d : RoutingDecision) (required : list CapabilityGrant) (revision : MissionRevision) : res bool :=
  if negb (bool_decide (rd_selected d ∈ rd_eligible d)) then Ok false
  else
    ok ← allows required revision;
    if negb ok then Ok false else Ok (bool_decide (rd_required_hash d = rd_granted_hash d)).

(** [AmendmentPolicy.validate_independence] *)
Definition validate_independence (a : PlanAmendment) (verifiers humans : list pystr) : bool :=
  if bool_decide (verifiers = []) then false
  else if (class_int AUTHORITY <=? class_int (a_class a))%Z &&
          bool_decide ((list_to_set verifiers : gset pystr) ⊆ list_to_set (a_beneficiaries a) ∪ {[a_proposer a]}) then false
  else if (class_int AUTHORITY <=? class_int (a_class a))%Z && bool_decide (humans = []) then false
  else if (class_int TRUST_BOUNDARY <=? class_int (a_class a))%Z &&
          (size (list_to_set verifiers : gset pystr) <? 2)%nat then false
  else true.

(** ** Execution start *)
Inductive RoutingReason : Type :=
| ROk | RRevisionChanged | RExpired | RPolicyChanged | RMissingState (ref : pystr) | RInvalidState (ref : pystr)
| RCapabilityChanged.
(** The loop over the certified state references. *)
Fixpoint check_states (states : dict CertifiedState) (now : float) (environments : dict pystr) (refs : list pystr)
  : option RoutingReason :=
  match refs with
  | [] => None
  | r :: refs =>
      match dget r states with
      | None => Some (RMissingState r)
      | Some c =>
          if bool_decide (certified_status c now (dget r environments) = CERTIFIED)
          then check_states states now environments refs else Some (RInvalidState r)
      end
  end.
(** [validate_execution_start]: allowed exactly when the reason is [ROk]. *)
Definition validate_execution_start (d : RoutingDecision) (revision : MissionRevision) (states : dict CertifiedState)
    (policy_revision : pystr) (now : float) (environments : dict pystr) : bool * RoutingReason :=
  if negb (bool_decide (rd_mission_revision d = m_revision_id revision)) then (false, RRevisionChanged)
  else if match rd_expires_at d with Some e => fgt now e | None => false end then (false, RExpired)
  else if negb (bool_decide (rd_policy_revision d = policy_revision)) then (false, RPolicyChanged)
  else match check_states states now environments (rd_state_refs d) with
       | Some r => (false, r)
       | None => if negb (bool_decide (rd_required_hash d = rd_granted_hash d)) then (false, RCapabilityChanged)
                 else (true, ROk)
       end.

(** ** Worker environments *)
Record EnvironmentRecord : Type := mkEnvironment { er_worker : pystr; er_expected : dict json; er_revision : pystr }.
Definition environment_fingerprint (r : EnvironmentRecord) : res pystr := digest (JDict (er_expected r)).
Abbreviation EnvironmentRegistry := (dict EnvironmentRecord).
Definition register (reg : EnvironmentRegistry) (r : EnvironmentRecord) : EnvironmentRegistry := dset (er_worker r) r reg.

Inductive AttestReason : Type :=
| NotRegistered | AttestorError (e : exn) | Uncanonicalizable (e : exn) | FingerprintMismatch | Attested.
Definition attest (reg : EnvironmentRegistry) (worker : pystr) (attestor : pystr → res json)
  : res (bool * option pystr * AttestReason) :=
  match dget worker reg with
  | None => Ok (false, None, NotRegistered)
  | Some record =>
      match attestor worker with
      | Raise e => Ok (false, None, AttestorError e)
      | Ok actual =>
          match digest actual with
          | Raise e => Ok (false, None, Uncanonicalizable e)
          | Ok fp =>
              expected ← environment_fingerprint record;
              if bool_decide (fp = expected) then Ok (true, Some fp, Attested)
              else Ok (false, Some fp, FingerprintMismatch)
          end
      end
  end.

(** ** The invariant graph *)
(** The dependency metadata of one invariant: relation name, targets. *)
Abbreviation edges := (list (string * list Z)).
Definition node (requires implies : list Z) : edges := [("requires", requires); ("implies", implies); ("conflicts", [])].
Definition INVARIANT_GRAPH : list (Z * edges) :=
  [(1, node [] []); (2, node [] [3]); (3, node [2] [16; 18]); (4, node [3] [16]); (5, node [] [13]); (6, node [] [20]);
   (7, node [] [15]); (8, node [] []); (9, node [] [19]); (10, node [9] []); (11, node [7] []); (12, node [7] []);
   (13, node [3; 5] []); (14, node [7] []); (15, node [7; 14] []); (16, node [3; 4] []); (17, node [6; 14; 16] []);
   (18, node [3; 11] []); (19, node [9; 10] []); (20, node [6] [])]%Z.

Definition expected_invariants : list Z := Z.of_nat <$> seq 1 20.
Definition same_set {A} `{EqDecision A} (l k : list A) : bool :=
  forallb (λ x, bool_decide (x ∈ k)) l && forallb (λ x, bool_decide (x ∈ l)) k.
Fixpoint check_edges (invariant : Z) (es : edges) : res unit :=
  match es with
  | [] => Ok tt
  | (_, targets) :: es =>
      when negb (forallb (λ t, bool_decide (t ∈ expected_invariants)) targets) raise ValueError "unknown invariants";;
      when bool_decide (invariant ∈ targets) raise ValueError "invariant relates to itself";;
      check_edges invariant es
  end.
Definition check_node (p : Z * edges) : res unit :=
  when negb (same_set p.2.*1 ["requires"; "implies"; "conflicts"]) raise ValueError "malformed dependency metadata";;
  check_edges p.1 p.2.
Definition validate_invariant_graph (graph : list (Z * edges)) : res unit :=
  when negb (same_set graph.*1 expected_invariants) raise ValueError "invariant graph must contain exactly invariants 1..20";;
  for_all graph check_node.

(** ** Properties *)
Lemma max_class_ge c l : (class_int c <= class_int (max_class c l))%Z.
Proof.
  unfold max_class. revert c. induction l as [|x l IH]; intros c; cbn [foldl]; [done|].
  destruct (Z.ltb_spec (class_int c) (class_int x)); [etrans; [|apply IH]; lia|apply IH].
Qed.

Lemma max_class_upper c l x : x ∈ c :: l → (class_int x <= class_int (max_class c l))%Z.
Proof.
  revert c. induction l as [|y l IH]; intros c.
  - intros ->%list_elem_of_singleton. apply max_class_ge.
  - rewrite !elem_of_cons. intros [->|[->|Hx]].
    + apply max_class_ge.
    + change (max_class c (y :: l)) with (max_class (if (class_int c <? class_int y)%Z then y else c) l).
      etrans; [|apply max_class_ge]. destruct (Z.ltb_spec (class_int c) (class_int y)); lia.
    + change (max_class c (y :: l)) with (max_class (if (class_int c <? class_int y)%Z then y else c) l).
      apply IH. by apply list_elem_of_further.
Qed.

(** The class of an amendment bounds the class of each of its deltas. *)
Lemma classify_upper ds c d :
  classify ds = Ok c → d ∈ ds → ∃ c', classify_delta d = Ok c' ∧ (class_int c' <= class_int c)%Z.
Proof.
  unfold classify. intros H Hd. pass_guard H. apply bind_Ok in H as (cs & Hcs & H). apply mapM_res_Ok in Hcs.
  apply list_elem_of_lookup in Hd as [i Hi]. destruct (Forall2_lookup_l _ _ _ _ _ Hcs Hi) as (c' & Hc' & He).
  exists c'. split; [done|]. destruct cs as [|c0 cs]; [done|]. injection H as <-.
  apply max_class_upper. by apply list_elem_of_lookup_2 in Hc'.
Qed.

(** Authority cannot be expanded by its beneficiaries alone.  Take an
    amendment whose class is what the classifier computes from its deltas: if
    any delta is of class authority or above, an accepted set of verifiers
    contains one that is neither a beneficiary nor the proposer, and a human
    approved; if any delta touches the trust boundary, two different verifiers
    took part. *)
Theorem escalation_needs_independence a verifiers humans d c :
  classify (a_deltas a) = Ok (a_class a) → d ∈ a_deltas a → classify_delta d = Ok c →
  (class_int AUTHORITY <= class_int c)%Z → validate_independence a verifiers humans = true →
  (∃ v, v ∈ verifiers ∧ ¬ (v ∈ a_beneficiaries a) ∧ v ≠ a_proposer a) ∧ humans ≠ [] ∧
  (c = TRUST_BOUNDARY → ∃ v w, v ∈ verifiers ∧ w ∈ verifiers ∧ v ≠ w).
Proof.
  intros Hc Hd Hdc Hle H. destruct (classify_upper _ _ _ Hc Hd) as (c' & Hc' & Hup).
  assert (c' = c) as -> by congruence. unfold validate_independence in H.
  assert ((class_int AUTHORITY <=? class_int (a_class a))%Z = true) as Ha by (apply Z.leb_le; lia). rewrite Ha in H. cbn [andb] in H.
  case_bool_decide; [done|]. case_bool_decide as Hs; [done|]. case_bool_decide as Hh; [done|]. split_and!; [|done|].
  - assert (¬ Forall (λ v, v ∈ a_beneficiaries a ∨ v = a_proposer a) verifiers) as Hn.
    { intros Hall. apply Hs. rewrite Forall_forall in Hall. intros v Hv. apply elem_of_list_to_set in Hv.
      destruct (Hall v Hv); set_solver. }
    apply not_Forall_Exists in Hn; [|intros v; solve_decision]. apply Exists_exists in Hn as (v & Hv & Hn).
    cbn in Hn. exists v. split; [done|]. tauto.
  - intros ->. assert ((class_int TRUST_BOUNDARY <=? class_int (a_class a))%Z = true) as Ht by (apply Z.leb_le; cbn in *; lia).
    rewrite Ht in H. cbn [andb] in H. destruct (Nat.ltb_spec (size (list_to_set verifiers : gset pystr)) 2) as [|Hsz]; [done|].
    destruct verifiers as [|v vs]; [done|]. destruct (decide (Forall (λ w, w = v) vs)) as [Hall|Hn].
    + exfalso. assert ((list_to_set (v :: vs) : gset pystr) ⊆ {[v]}) as Hsub.
      { rewrite Forall_forall in Hall. intros w. rewrite elem_of_list_to_set, elem_of_cons. intros [->|Hw]; [set_solver|].
        rewrite (Hall w Hw). set_solver. }
      apply subseteq_size in Hsub. rewrite size_singleton in Hsub. lia.
    + apply not_Forall_Exists in Hn; [|intros w; solve_decision]. apply Exists_exists in Hn as (w & Hw & Hne).
      exists w, v. rewrite !elem_of_cons. auto.
Qed.

Definition demo_amendment : PlanAmendment :=
  let d t := mkDelta (str t) JNull [] [] None in
  mkAmendment (str "a") (str "m") (str "r1") TRUST_BOUNDARY (str "why") [] [d "clarification"; d "trust_boundary.change"]
    (str "amendment-classifier-v1") [] (str "worker") [str "worker"; str "router"].

Lemma escalation_needs_independence_witness :
  ∃ v, v ∈ [str "worker"; str "auditor"] ∧ ¬ (v ∈ a_beneficiaries demo_amendment) ∧ v ≠ a_proposer demo_amendment.
Proof.
  apply (escalation_needs_independence demo_amendment [str "worker"; str "auditor"] [str "alice"]
    (mkDelta (str "trust_boundary.change") JNull [] [] None) TRUST_BOUNDARY).
  - vm_compute. reflexivity.
  - right. left.
  - vm_compute. reflexivity.
  - vm_compute. discriminate.
  - vm_compute. reflexivity.
Defined.

Lemma all_in_spec s l b :
  all_in s l = Ok b → (b = true → Forall (λ g, ∃ f, grant_fingerprint g = Ok f ∧ f ∈ s) l) ∧
    (Forall (λ g, ∃ f, grant_fingerprint g = Ok f ∧ f ∈ s) l → b = true).
Proof.
  revert b. induction l as [|g l IH]; intros b H; cbn [all_in] in H; [injection H as <-; by split|].
  apply bind_Ok in H as (f & Hf & H). case_bool_decide as Hin.
  - destruct (IH _ H) as [I1 I2]. split.
    + intros Hb. constructor; [eauto|by apply I1].
    + intros [_ Hl]%Forall_cons. by apply I2.
  - injection H as <-. split; [done|]. intros [(f' & Hf' & Hin') _]%Forall_cons. congruence.
Qed.

(** Routing never enlarges authority.  When [allows] says yes, every
    required grant is one of the revision's grants up to the order of object
    keys (unless their texts differ with one SHA-256 digest); and it says yes
    whenever the required grants are among the revision's. *)
Theorem allows_within_revision required revision b :
  allows required revision = Ok b →
  Forall (λ g, wf_json (grant_dict g) = true ∧ floats_rt (grant_dict g) = true) (required ++ m_grants revision) →
  (b = true → Forall (λ g, ∃ g', g' ∈ m_grants revision ∧
     (sort_json (grant_dict g) = sort_json (grant_dict g') ∨ json_collide (grant_dict g) (grant_dict g'))) required) ∧
  (Forall (λ g, g ∈ m_grants revision) required → b = true).
Proof.
  unfold allows. intros H Hwf. apply bind_Ok in H as (fs & Hfs & H). apply mapM_res_Ok in Hfs.
  destruct (all_in_spec _ _ _ H) as [H1 H2]. apply Forall_app in Hwf as [Hr Hm]. rewrite Forall_forall in Hr, Hm. split.
  - intros Hb. specialize (H1 Hb). rewrite Forall_forall in H1 |- *. intros g Hg. destruct (H1 g Hg) as (f & Hf & Hin).
    apply list_elem_of_lookup in Hin as [i Hi]. destruct (Forall2_lookup_r _ _ _ _ _ Hfs Hi) as (g' & Hg' & Hf').
    apply list_elem_of_lookup_2 in Hg'. exists g'. split; [done|]. unfold grant_fingerprint in Hf, Hf'.
    by apply (digest_injective _ _ f); try done; [apply Hr|apply Hm|apply Hr|apply Hm].
  - intros Hall. apply H2. rewrite Forall_forall in Hall |- *. intros g Hg. specialize (Hall g Hg).
    apply list_elem_of_lookup in Hall as [i Hi]. destruct (Forall2_lookup_l _ _ _ _ _ Hfs Hi) as (f & Hf & Hfg).
    exists f. split; [done|]. by apply list_elem_of_lookup_2 in Hf.
Qed.

Definition demo_grant (action : string) : CapabilityGrant :=
  mkGrant (str "worker") (str action) (str "repo") [] [] [] [] None.
Definition demo_revision : MissionRevision :=
  mkRevision (str "m") (str "r1") (str "goal") (str "p") (str "q") [demo_grant "read"; demo_grant "write"] None None [] [].

Lemma allows_within_revision_witness :
  Forall (λ g, g ∈ m_grants demo_revision) [demo_grant "write"] → true = true.
Proof.
  apply (allows_within_revision [demo_grant "write"] demo_revision true).
  - vm_compute. reflexivity.
  - repeat constructor.
Defined.

Lemma check_states_none states now envs refs :
  check_states states now envs refs = None ↔
  Forall (λ r, ∃ c, dget r states = Some c ∧ certified_status c now (dget r envs) = CERTIFIED) refs.
Proof.
  induction refs as [|r refs IH]; cbn [check_states]; [by split|]. rewrite Forall_cons, <- IH.
  destruct (dget r states) as [c|]; [|split; [done|by intros [(c & [=] & _) _]]].
  case_bool_decide as Hc; [split; [eauto|by intros [_ ?]]|]. split; [done|]. intros [(c' & [= <-] & ?) _]. done.
Qed.

Lemma certified_iff c now env :
  certified_status c now env = CERTIFIED ↔
  (∀ e, env = Some e → e = cs_environment c) ∧ cs_drift_status c = str "stable" ∧
  fgt now (cs_valid_until c) = false ∧ fgt (fsub now (cs_certified_at c)) (cs_staleness_budget c) = false.
Proof.
  unfold certified_status. destruct env as [e|].
  - case_bool_decide as He; cbn [negb]; [|split; [done|intros [H _]; exfalso; by apply He, H]].
    case_bool_decide as Hd; cbn [negb]; [|split; [done|intros (_ & ? & _); done]].
    destruct (fgt now _), (fgt (fsub _ _) _); cbn; split; intros H; try done; try (destruct H as (_ & _ & ? & ?); done).
    split_and!; try done. congruence.
  - case_bool_decide as Hd; cbn [negb]; [|split; [done|intros (_ & ? & _); done]].
    destruct (fgt now _), (fgt (fsub _ _) _); cbn; split; intros H; try done; try (destruct H as (_ & _ & ? & ?); done).
Qed.

(** Execution starts exactly when everything the routing decision was
    based on still holds: the mission revision and policy revision are the
    current ones, the decision has not expired, every certified state it
    refers to exists, was measured in the current environment, is stable and
    neither past its validity nor its staleness budget, and the granted
    capabilities are the required ones. *)
Theorem execution_start_iff d revision states policy now envs :
  (validate_execution_start d revision states policy now envs).1 = true ↔
  rd_mission_revision d = m_revision_id revision ∧ (∀ e, rd_expires_at d = Some e → fgt now e = false) ∧
  rd_policy_revision d = policy ∧
  Forall (λ r, ∃ c, dget r states = Some c ∧ (∀ e, dget r envs = Some e → e = cs_environment c) ∧
    cs_drift_status c = str "stable" ∧ fgt now (cs_valid_until c) = false ∧
    fgt (fsub now (cs_certified_at c)) (cs_staleness_budget c) = false) (rd_state_refs d) ∧
  rd_required_hash d = rd_granted_hash d.
Proof.
  assert (Hst : check_states states now envs (rd_state_refs d) = None ↔
    Forall (λ r, ∃ c, dget r states = Some c ∧ (∀ e, dget r envs = Some e → e = cs_environment c) ∧
    cs_drift_status c = str "stable" ∧ fgt now (cs_valid_until c) = false ∧
    fgt (fsub now (cs_certified_at c)) (cs_staleness_budget c) = false) (rd_state_refs d)).
  { rewrite check_states_none. apply Forall_proper; [|done]. intros r. by setoid_rewrite certified_iff. }
  unfold validate_execution_start. case_bool_decide; cbn [negb fst]; [|naive_solver].
  assert (match rd_expires_at d with Some e => fgt now e | None => false end = false ↔ ∀ e, rd_expires_at d = Some e → fgt now e = false)
    as Hx by (destruct (rd_expires_at d); naive_solver).
  destruct (match rd_expires_at d with Some e => fgt now e | None => false end); cbn [fst].
  { split; [done|]. intros (_ & H' & _). apply Hx in H'. done. }
  case_bool_decide; cbn [negb fst]; [|naive_solver].
  destruct (check_states states now envs (rd_state_refs d)); cbn [fst].
  { split; [done|]. intros (_ & _ & _ & H' & _). apply Hst in H'. done. }
  case_bool_decide; cbn [negb fst]; naive_solver.
Qed.

(** Attestation fails closed.  A worker is accepted only if it is
    registered and its attestor returned, without raising, an environment
    equal to the registered one up to the order of object keys (unless their
    texts differ with one SHA-256 digest); otherwise it is refused with the
    reason. *)
Theorem attest_fails_closed reg worker attestor ok fp reason :
  attest reg worker attestor = Ok (ok, fp, reason) →
  (ok = true ↔ reason = Attested) ∧
  (ok = true → ∃ record actual, dget worker reg = Some record ∧ attestor worker = Ok actual ∧
    (wf_json actual = true → floats_rt actual = true → wf_json (JDict (er_expected record)) = true →
     floats_rt (JDict (er_expected record)) = true →
     sort_json actual = sort_json (JDict (er_expected record)) ∨ json_collide actual (JDict (er_expected record)))).
Proof.
  unfold attest. intros H. destruct (dget worker reg) as [record|] eqn:Er; [|by injection H as <- <- <-].
  destruct (attestor worker) as [actual|] eqn:Ea; [|by injection H as <- <- <-].
  destruct (digest actual) as [h|] eqn:Ed; [|by injection H as <- <- <-].
  apply bind_Ok in H as (h' & Hh' & H). case_bool_decide as Heq; injection H as <- <- <-; [|by split].
  split; [done|]. intros _. exists record, actual. split_and!; [done..|]. intros. subst h'. by apply (digest_injective _ _ h).
Qed.

Definition demo_registry : EnvironmentRegistry :=
  register [] (mkEnvironment (str "w1") [(str "os", JStr (str "linux"))] (str "v1")).

Lemma attest_fails_closed_witness : true = true ↔ Attested = Attested.
Proof.
  apply (attest_fails_closed demo_registry (str "w1") (λ _, Ok (jobj [("os", JStr (str "linux"))])) true
    (match digest (jobj [("os", JStr (str "linux"))]) with Ok h => Some h | Raise _ => None end) Attested).
  vm_compute. reflexivity.
Defined.

(** The shipped invariant graph is well formed. *)
Lemma invariant_graph_valid : validate_invariant_graph INVARIANT_GRAPH = Ok tt.
Proof. vm_compute. reflexivity. Qed.
