(* ===== verification/Quarantine.v ===== *)
(** * Quarantine store (residual/quarantine.py)

    Every action is held, evaluated once by the host policies and then either
    released to an executor or denied.  A hold is a Python object compared by
    identity: it carries the number of its object, so equal records are the
    same object.  Policies and the executor are host code acting on a world of
    their own; the executor runs outside the lock, so a release is two atomic
    steps and the properties hold for every interleaving of atomic steps.  A
    policy that calls back into the store that is evaluating it (the lock is
    reentrant) is not modelled. *)

From Stdlib Require Import ZArith NArith Lia.
From S2P Require Import Prelude PyData Sha256 PyFloat Json JsonFacts Core CoreFacts GoalSpec.

Inductive ActionType : Type := TOOL_CALL | FILE_WRITE | PROVIDER_CALL | CONFIG_CHANGE.
#[export] Instance ActionType_eq_dec : EqDecision ActionType.
Proof. solve_decision. Defined.
Definition action_type_str (t : ActionType) : pystr :=
  str match t with
      | TOOL_CALL => "tool_call" | FILE_WRITE => "file_write" | PROVIDER_CALL => "provider_call"
      | CONFIG_CHANGE => "config_change"
      end.
(** [ActionType(value)] *)
Definition action_type_of (s : pystr) : option ActionType :=
  find (λ t, bool_decide (action_type_str t = s)) [TOOL_CALL; FILE_WRITE; PROVIDER_CALL; CONFIG_CHANGE].

Inductive PolicyDecision : Type := ALLOW | DENY.
#[export] Instance PolicyDecision_eq_dec : EqDecision PolicyDecision.
Proof. solve_decision. Defined.

Record ProposedAction : Type := mkAction {
  pa_type : ActionType;
  pa_name : pystr;
  pa_arguments : dict json;
  pa_agent : pystr
}.
#[export] Instance ProposedAction_eq_dec : EqDecision ProposedAction.
Proof. solve_decision. Defined.

(** [ProposedAction(...)] *)
Definition ProposedAction_new (action_type name : pystr) (arguments : json) (agent_id : pystr) : res ProposedAction :=
  t ← of_option (ContractError "unknown action type") (action_type_of action_type);
  _ ← identifier agent_id;
  when bool_decide (name = []) raise ContractError "action requires a name";;
  match arguments with
  | JDict _ =>
      match freeze arguments with
      | Ok (JDict d) => Ok (mkAction t name d agent_id)
      | _ => Raise (ContractError "action arguments must be canonicalizable")
      end
  | _ => Raise (ContractError "action arguments must be canonicalizable")
  end.

Definition fingerprint (a : ProposedAction) : res pystr :=
  digest (jobj [("action_type", JStr (action_type_str (pa_type a))); ("name", JStr (pa_name a));
                ("arguments", JDict (pa_arguments a)); ("agent_id", JStr (pa_agent a))]).

Record HeldAction : Type := mkHeld {
  h_action : ProposedAction;
  h_at : Z;
  h_id : pystr;
  h_object : nat  (* the identity of the object *)
}.
#[export] Instance HeldAction_eq_dec : EqDecision HeldAction.
Proof. solve_decision. Defined.

(** ** The store *)
Inductive HoldState : Type := SHeld | SEvaluated | SExecuting | SExecuted | SDenied.
#[export] Instance HoldState_eq_dec : EqDecision HoldState.
Proof. solve_decision. Defined.

Record Entry : Type := mkEntry { en_held : HeldAction; en_state : HoldState; en_decision : option PolicyDecision }.

Record Denial : Type := mkDenial { dn_policy : pystr; dn_reason : pystr }.
#[export] Instance Denial_eq_dec : EqDecision Denial.
Proof. solve_decision. Defined.

Inductive LogEntry : Type :=
| LHeld (id fp : pystr) (t : ActionType) (name agent : pystr) (at_ns : Z)
| LEvaluated (id fp : pystr) (decision : PolicyDecision) (denials : list Denial)
| LExecuted (id fp : pystr) (at_ns : Z) (error : option pystr)
| LDenied (id fp : pystr) (at_ns : Z) (reason policy : pystr).

Record QStore : Type := mkQ {
  q_log : list LogEntry;
  q_counter : Z;
  q_holds : gmap pystr Entry;
  q_store_id : pystr;
  q_objects : nat  (* objects created so far *)
}.
Definition QStore_new (store_id : pystr) : QStore := mkQ [] 0 ∅ store_id 0.

Definition set_holds (h : gmap pystr Entry) (q : QStore) : QStore :=
  mkQ (q_log q) (q_counter q) h (q_store_id q) (q_objects q).
Definition add_log (e : LogEntry) (q : QStore) : QStore :=
  mkQ (q_log q ++ [e]) (q_counter q) (q_holds q) (q_store_id q) (q_objects q).

(** [f"{n:08d}"] *)
Definition pad8 (n : Z) : pystr :=
  let s := str_of_Z n in replicate (8 - length s) 48%N ++ s.
Definition hold_id (store_id : pystr) (n : Z) : pystr := store_id ++ str "-hold-" ++ pad8 n.

(** [hold]: the counter and the hold are in place before the fingerprint of
    the log entry is computed. *)
Definition hold (action : ProposedAction) (now : Z) : SM QStore HeldAction :=
  q ← sm_get;
  let n := (q_counter q + 1)%Z in
  let held := mkHeld action now (hold_id (q_store_id q) n) (q_objects q) in
  _ ← sm_mod (λ q, mkQ (q_log q) n (<[h_id held := mkEntry held SHeld None]> (q_holds q)) (q_store_id q) (S (q_objects q)));
  fp ← sm_lift (fingerprint action);
  _ ← sm_mod (add_log (LHeld (h_id held) fp (pa_type action) (pa_name action) (pa_agent action) now));
  mret held.

(** [_entry] *)
Definition entry_of (q : QStore) (held : HeldAction) : res Entry :=
  match q_holds q !! h_id held with
  | Some e => if bool_decide (en_held e = held) then Ok e else Raise (ContractError "foreign or forged quarantine hold")
  | None => Raise (ContractError "foreign or forged quarantine hold")
  end.

(** What a policy returns: [None], a string, or anything else. *)
Inductive PolicyResult : Type := PNone | PReason (s : pystr) | PInvalid.

Section policies.
Context {W : Type}.

Record Policy : Type := mkPolicy { po_name : pystr; po_function : W → ProposedAction → res PolicyResult * W }.

(** The loop body: a denial reason, or none. *)
Definition policy_reason (r : res PolicyResult) : option pystr :=
  match r with
  | Ok PNone => None
  | Ok (PReason s) => Some (if blank s then str "invalid_policy_result" else s)
  | Ok PInvalid => Some (str "invalid_policy_result")
  | Raise _ => Some (str "policy_error")
  end.

Fixpoint run_policies (action : ProposedAction) (policies : list Policy) (w : W) : list Denial * W :=
  match policies with
  | [] => ([], w)
  | p :: policies =>
      let '(r, w) := po_function p w action in
      let '(denials, w) := run_policies action policies w in
      (match policy_reason r with
       | Some reason => mkDenial (po_name p) (take 1000 reason) :: denials
       | None => denials
       end, w)
  end.

(** [evaluate] *)
Definition evaluate (held : HeldAction) (policies : list Policy) : SM (QStore * W) PolicyDecision := λ '(q, w),
  match entry_of q held with
  | Raise e => (Raise e, (q, w))
  | Ok e =>
      if negb (bool_decide (en_state e ∈ [SHeld; SEvaluated]))
      then (Raise (ContractError "quarantine hold is already consumed"), (q, w))
      else match en_decision e with
           | Some d => (Ok d, (q, w))
           | None =>
               let '(denials, w) := run_policies (h_action held) policies w in
               let d := if bool_decide (denials = []) then ALLOW else DENY in
               let q := set_holds (<[h_id held := mkEntry (en_held e) SEvaluated (Some d)]> (q_holds q)) q in
               match fingerprint (h_action held) with
               | Ok fp => (Ok d, (add_log (LEvaluated (h_id held) fp d denials) q, w))
               | Raise x => (Raise x, (q, w))
               end
           end
  end.
End policies.
Arguments Policy : clear implicits.

(** [release], first locked part: the hold is consumed. *)
Definition begin_release (held : HeldAction) : SM QStore unit :=
  q ← sm_get;
  e ← sm_lift (entry_of q held);
  if bool_decide (en_state e = SEvaluated ∧ en_decision e = Some ALLOW)
  then sm_mod (λ q, set_holds (<[h_id held := mkEntry (en_held e) SExecuting (en_decision e)]> (q_holds q)) q)
  else sm_raise (ContractError "release requires an unconsumed, allowed evaluation").

(** [release], second locked part: the executor has returned or raised. *)
Definition finish_release (held : HeldAction) (now : Z) (error : option pystr) : SM QStore unit :=
  q ← sm_get;
  e ← sm_lift (entry_of q held);
  _ ← sm_mod (λ q, set_holds (<[h_id held := mkEntry (en_held e) SExecuted (en_decision e)]> (q_holds q)) q);
  fp ← sm_lift (fingerprint (h_action held));
  sm_mod (add_log (LExecuted (h_id held) fp now error)).

Record ExecutedAction : Type := mkExecuted { ex_held : HeldAction; ex_at : Z; ex_result : option json; ex_error : option pystr }.

Section executors.
Context {W : Type} (executor : W → ProposedAction → res json * W) (exn_name : exn → pystr).

(** [release] on its own thread; the emit callback only observes. *)
Definition release (held : HeldAction) (now : Z) (raise_errors : bool) : SM (QStore * W) ExecutedAction := λ '(q, w),
  match begin_release held q with
  | (Raise x, q) => (Raise x, (q, w))
  | (Ok _, q) =>
      let '(r, w) := executor w (h_action held) in
      let error := match r with Ok _ => None | Raise x => Some (exn_name x) end in
      let result := match r with Ok v => Some v | Raise _ => None end in
      match finish_release held now error q with
      | (Raise x, q) => (Raise x, (q, w))
      | (Ok _, q) =>
          match r with
          | Raise x => if raise_errors then (Raise x, (q, w)) else (Ok (mkExecuted held now result error), (q, w))
          | Ok _ => (Ok (mkExecuted held now result error), (q, w))
          end
      end
  end.
End executors.

(** [deny]: two locked parts with nothing but host calls between them. *)
Definition deny (held : HeldAction) (reason policy_name : pystr) (now : Z) : SM QStore unit :=
  if blank reason then sm_raise (ContractError "denial requires a reason")
  else
    q ← sm_get;
    e ← sm_lift (entry_of q held);
    if bool_decide (en_state e = SEvaluated ∧ en_decision e = Some DENY) then
      _ ← sm_mod (λ q, set_holds (<[h_id held := mkEntry (en_held e) SDenied (en_decision e)]> (q_holds q)) q);
      fp ← sm_lift (fingerprint (h_action held));
      sm_mod (add_log (LDenied (h_id held) fp now reason policy_name))
    else sm_raise (ContractError "deny requires an unconsumed denied evaluation").

(** [query(fingerprint)] *)
Definition log_fingerprint (e : LogEntry) : pystr :=
  match e with LHeld _ fp _ _ _ _ | LEvaluated _ fp _ _ | LExecuted _ fp _ _ | LDenied _ fp _ _ _ => fp end.
Definition query (q : QStore) (fp : pystr) : list LogEntry := filter (λ e, log_fingerprint e = fp) (q_log q).

(** ** Built-in policies *)
Definition denylist_policy (forbidden : list pystr) (a : ProposedAction) : PolicyResult :=
  if bool_decide (pa_name a ∈ forbidden)
  then PReason (str "action '" ++ pa_name a ++ str "' is on the denylist") else PNone.

(** [path.replace("\\", "/").split("/")] *)
Definition path_parts (path : pystr) : list pystr :=
  split_on 47 ((λ c, if (c =? 92)%N then 47%N else c) <$> path).
Definition starts_with_slash (path : pystr) : bool :=
  match path with c :: _ => (c =? 47)%N || (c =? 92)%N | [] => false end.
(** [re.match(r"^[A-Za-z]:", path)] *)
Definition drive_letter (path : pystr) : bool :=
  match path with c :: d :: _ => is_alpha c && (d =? 58)%N | _ => false end.

Definition path_traversal_policy (a : ProposedAction) : PolicyResult :=
  if negb (bool_decide (pa_type a = FILE_WRITE)) then PNone
  else match default (JStr []) (dget (str "path") (pa_arguments a)) with
       | JStr path =>
           if bool_decide (path = []) || bool_decide (0%N ∈ path) then PReason (str "file_write path must be a string")
           else if bool_decide (str ".." ∈ path_parts path) || starts_with_slash path || drive_letter path
           then PReason (str "path escapes workspace") else PNone
       | _ => PReason (str "file_write path must be a string")
       end.

(** The closure [budget_policy(max_actions)] returns: its state is the count. *)
Definition budget_policy (max_actions : Z) (count : Z) (a : ProposedAction) : res PolicyResult * Z :=
  let count := (count + 1)%Z in
  (Ok (if (max_actions <? count)%Z
       then PReason (str "action budget exhausted (" ++ str_of_Z max_actions ++ str ")") else PNone), count).

(** [budget_policy(max_actions)]: the limit is checked when the policy is made. *)
Definition budget_policy_new (max_actions : json) : res (Policy Z) :=
  n ← positive_int max_actions true; Ok (mkPolicy (str "budget_policy") (budget_policy n)).

(** ** Every interleaving *)
(** The atomic steps of concurrent users of one store.  [OFinish] is the end of
    a release whose executor was started, so it applies to executing holds. *)
Inductive qop (W : Type) : Type :=
| OHold (action : ProposedAction) (now : Z)
| OEvaluate (held : HeldAction) (policies : list (Policy W))
| OBegin (held : HeldAction)
| OFinish (held : HeldAction) (now : Z) (error : option pystr)
| ODeny (held : HeldAction) (reason policy_name : pystr) (now : Z).
Arguments OHold {W} _ _.
Arguments OEvaluate {W} _ _.
Arguments OBegin {W} _.
Arguments OFinish {W} _ _ _.
Arguments ODeny {W} _ _ _ _.

(** The store, the policies' world and the actions handed to an executor. *)
Record QSystem (W : Type) : Type := mkSys { y_store : QStore; y_world : W; y_started : list HeldAction }.
Arguments mkSys {W} _ _ _.
Arguments y_store {W} _.
Arguments y_world {W} _.
Arguments y_started {W} _.

Definition executing (q : QStore) (held : HeldAction) : bool :=
  match entry_of q held with Ok e => bool_decide (en_state e = SExecuting) | Raise _ => false end.

Definition qstep {W} (s : QSystem W) (op : qop W) : QSystem W :=
  match op with
  | OHold a now => mkSys (hold a now (y_store s)).2 (y_world s) (y_started s)
  | OEvaluate h ps =>
      let '(q, w) := (evaluate h ps (y_store s, y_world s)).2 in mkSys q w (y_started s)
  | OBegin h =>
      let '(r, q) := begin_release h (y_store s) in
      mkSys q (y_world s) (match r with Ok _ => y_started s ++ [h] | Raise _ => y_started s end)
  | OFinish h now error =>
      if executing (y_store s) h then mkSys (finish_release h now error (y_store s)).2 (y_world s) (y_started s) else s
  | ODeny h reason name now => mkSys (deny h reason name now (y_store s)).2 (y_world s) (y_started s)
  end.
Definition qsteps {W} (s : QSystem W) (ops : list (qop W)) : QSystem W := foldl qstep s ops.
Definition qstart {W} (store_id : pystr) (w : W) : QSystem W := mkSys (QStore_new store_id) w [].

(** Hold ids do not repeat. *)
Lemma digits_value_zeros k ds : digits_value (replicate k 48%N ++ ds) = digits_value ds.
Proof. induction k as [|k IH]; [done|]. rewrite <- IH. reflexivity. Qed.

Lemma pad8_inj n m : (0 <= n)%Z → (0 <= m)%Z → pad8 n = pad8 m → n = m.
Proof.
  intros Hn Hm H. apply (f_equal digits_value) in H. unfold pad8, str_of_Z in H.
  destruct (Z.ltb_spec n 0), (Z.ltb_spec m 0); try lia. rewrite !digits_value_zeros in H.
  destruct (str_of_nonneg_spec n Hn) as (d & ds & E & _ & Hv & _), (str_of_nonneg_spec m Hm) as (d' & ds' & E' & _ & Hv' & _).
  rewrite E, E' in H. congruence.
Qed.

Lemma hold_id_inj s n m : (0 <= n)%Z → (0 <= m)%Z → hold_id s n = hold_id s m → n = m.
Proof. intros Hn Hm H. unfold hold_id in H. apply app_inv_head, app_inv_head in H. by apply pad8_inj. Qed.

(** ** The invariant *)
(** What the log says of a hold, given the fingerprint of its action. *)
Definition logged (q : QStore) (e : Entry) : Prop :=
  ∀ fp, fingerprint (h_action (en_held e)) = Ok fp →
    (∃ t n a at_, LHeld (h_id (en_held e)) fp t n a at_ ∈ q_log q) ∧
    (∀ d, en_decision e = Some d →
      ∃ denials, LEvaluated (h_id (en_held e)) fp d denials ∈ q_log q ∧ (d = ALLOW ↔ denials = [])).

Record entry_ok (q : QStore) (started : list HeldAction) (id : pystr) (e : Entry) : Prop := {
  eo_number : ∃ n, (1 <= n <= q_counter q)%Z ∧ id = hold_id (q_store_id q) n;
  eo_id : h_id (en_held e) = id;
  eo_logged : logged q e;
  eo_fresh : en_state e = SHeld → en_decision e = None;
  eo_started : en_held e ∈ started ↔ en_state e ∈ [SExecuting; SExecuted];
  eo_allowed : en_state e ∈ [SExecuting; SExecuted] → en_decision e = Some ALLOW;
  eo_denied : en_state e = SDenied → en_decision e = Some DENY
}.

Record qinv (q : QStore) (started : list HeldAction) : Prop := {
  qi_counter : (0 <= q_counter q)%Z;
  qi_entries : ∀ id e, q_holds q !! id = Some e → entry_ok q started id e;
  qi_nodup : NoDup (h_id <$> started);
  qi_held : ∀ h, h ∈ started → ∃ e, q_holds q !! h_id h = Some e ∧ en_held e = h
}.

Lemma entry_of_Ok q h e : entry_of q h = Ok e ↔ q_holds q !! h_id h = Some e ∧ en_held e = h.
Proof.
  unfold entry_of. destruct (q_holds q !! h_id h) as [x|]; [|naive_solver]. case_bool_decide; naive_solver.
Qed.

Lemma logged_mono q q' e : (∀ x, x ∈ q_log q → x ∈ q_log q') → logged q e → logged q' e.
Proof.
  intros Hl H fp Hfp. destruct (H fp Hfp) as [(t & n & a & at_ & H1) H2]. split; [exists t, n, a, at_; by apply Hl|].
  intros d Hd. destruct (H2 d Hd) as (ds & Hin & Hiff). exists ds. split; [by apply Hl|done].
Qed.

Lemma entry_ok_mono q q' started id e :
  (q_counter q <= q_counter q')%Z → q_store_id q' = q_store_id q → (∀ x, x ∈ q_log q → x ∈ q_log q') →
  entry_ok q started id e → entry_ok q' started id e.
Proof.
  intros Hc Hs Hl [(n & Hn & ->) ? ? ? ? ? ?]. split; try done.
  - exists n. rewrite Hs. split; [lia|done].
  - by eapply logged_mono.
Qed.

(** Adding to the log keeps the invariant. *)
Lemma qinv_log q started x : qinv q started → qinv (add_log x q) started.
Proof.
  intros [Hc He Hn Hh]. split; try done. intros id e Hid. eapply entry_ok_mono; [..|by apply He]; try done.
  intros y Hy. apply elem_of_app. by left.
Qed.

(** Changing the state and decision of one entry keeps the invariant, when the
    new entry is in order and the started actions grow by that entry at most. *)
Lemma qinv_update q started h e s d extra :
  qinv q started → q_holds q !! h_id h = Some e → en_held e = h →
  (extra = [] ∨ (extra = [h] ∧ ¬ (h ∈ started))) →
  entry_ok q (started ++ extra) (h_id h) (mkEntry h s d) →
  qinv (set_holds (<[h_id h := mkEntry h s d]> (q_holds q)) q) (started ++ extra).
Proof.
  intros [Hc Hen Hnd Hh] Hl Heh Hextra Hok. split; [done| | |].
  - intros id x. cbn. destruct (decide (id = h_id h)) as [->|Hne].
    + rewrite lookup_insert_eq. intros [= <-]. eapply entry_ok_mono; [..|exact Hok]; done.
    + rewrite lookup_insert_ne by done. intros Hx. destruct (Hen _ _ Hx) as [H1 H2 H3 H4 H5 H6 H7]. split; try done.
      rewrite <- H5, elem_of_app. split; [|by left]. intros [?|Hin]; [done|].
      destruct Hextra as [->|[-> _]]; [by apply not_elem_of_nil in Hin|]. apply list_elem_of_singleton in Hin.
      exfalso. apply Hne. rewrite <- H2. by rewrite Hin.
  - rewrite fmap_app. destruct Hextra as [->|[-> Hn]]; [by rewrite app_nil_r|]. apply NoDup_app. split; [done|].
    split; [|apply NoDup_singleton]. intros id (h' & -> & Hin')%list_elem_of_fmap Heq. apply list_elem_of_singleton in Heq.
    apply Hn. destruct (Hh _ Hin') as (e' & He' & <-). rewrite Heq in He'. congruence.
  - intros h' [Hin|Hin]%elem_of_app.
    + destruct (Hh _ Hin) as (e' & He' & Heh'). cbn. destruct (decide (h_id h' = h_id h)) as [Heq|Hne].
      * rewrite Heq, lookup_insert_eq. eexists. split; [done|]. cbn. rewrite Heq in He'. congruence.
      * rewrite lookup_insert_ne by done. eauto.
    + destruct Hextra as [->|[-> _]]; [by apply not_elem_of_nil in Hin|]. apply list_elem_of_singleton in Hin as ->.
      cbn. rewrite lookup_insert_eq. eauto.
Qed.

(** The states and decisions an operation may write. *)
Lemma qinv_entry q started h e :
  qinv q started → entry_of q h = Ok e → entry_ok q started (h_id h) e ∧ en_held e = h ∧ q_holds q !! h_id h = Some e.
Proof. intros HI [Hl He]%entry_of_Ok. split_and!; [by apply (qi_entries _ _ HI)|done|done]. Qed.

Lemma hold_inv a now q started : qinv q started → qinv (hold a now q).2 started.
Proof.
  intros HI. unfold hold, sm_get, sm_mod, sm_lift, mbind, SM_bind. cbn -[hold_id fingerprint].
  set (n := (q_counter q + 1)%Z). set (h := mkHeld a now (hold_id (q_store_id q) n) (q_objects q)).
  assert (Hfresh : q_holds q !! h_id h = None).
  { destruct (q_holds q !! h_id h) as [e|] eqn:E; [|done]. destruct (eo_number _ _ _ _ (qi_entries _ _ HI _ _ E)) as (m & Hm & Heq).
    apply hold_id_inj in Heq; unfold n in *; [lia| |lia]. pose proof (qi_counter _ _ HI). lia. }
  assert (Hns : ¬ (h ∈ started)).
  { intros Hin. destruct (qi_held _ _ HI _ Hin) as (e & He & _). congruence. }
  pose proof (qi_counter _ _ HI) as Hc0.
  assert (Hmain : ∀ log, (∀ x, x ∈ q_log q → x ∈ log) →
    (∀ fp, fingerprint a = Ok fp → ∃ t nm ag at_, LHeld (h_id h) fp t nm ag at_ ∈ log) →
    qinv (mkQ log n (<[h_id h := mkEntry h SHeld None]> (q_holds q)) (q_store_id q) (S (q_objects q))) started).
  { intros log Hlog Hfp. destruct HI as [Hc Hen Hnd Hh]. split; cbn [q_counter q_holds].
    - unfold n. lia.
    - intros id e. destruct (decide (id = h_id h)) as [->|Hne].
      + rewrite lookup_insert_eq. intros [= <-]. split; cbn [en_state en_decision en_held q_counter q_store_id]; try set_solver.
        * exists n. split; [unfold n; lia|done].
        * intros fp Hf. split; [by apply Hfp|done].
      + rewrite lookup_insert_ne by done. intros He. eapply entry_ok_mono; [..|by apply Hen]; cbn; try done. unfold n. lia.
    - done.
    - intros h' Hin. destruct (Hh _ Hin) as (e & He & Heh). exists e. split; [|done].
      rewrite lookup_insert_ne; [done|]. intros Heq. rewrite <- Heq in He. congruence. }
  destruct (fingerprint a) as [fp|x] eqn:Hf; cbn.
  - apply Hmain; [intros; apply elem_of_app; by left|]. intros fp' [= <-]. do 4 eexists. apply elem_of_app. right. by apply list_elem_of_singleton.
  - apply Hmain; [done|]. congruence.
Qed.

(** An entry keeps what it has under a change of state that fits its decision. *)
Lemma entry_ok_state q started extra h e s :
  entry_ok q started (h_id h) e → en_held e = h → s ≠ SHeld →
  (s ∈ [SExecuting; SExecuted] → en_decision e = Some ALLOW) → (s = SDenied → en_decision e = Some DENY) →
  (h ∈ started ++ extra ↔ s ∈ [SExecuting; SExecuted]) →
  entry_ok q (started ++ extra) (h_id h) (mkEntry h s (en_decision e)).
Proof. intros [H1 H2 H3 H4 H5 H6 H7] <- Hs Ha Hd Hst. by split. Qed.

Lemma begin_release_inv h q started :
  qinv q started →
  qinv (begin_release h q).2 (match (begin_release h q).1 with Ok _ => started ++ [h] | Raise _ => started end).
Proof.
  intros HI. unfold begin_release, sm_get, sm_lift, mbind, SM_bind. cbn.
  destruct (entry_of q h) as [e|x] eqn:Hen; [|done]. case_bool_decide as Hst; [|done]. destruct Hst as [Hs Hd]. cbn.
  destruct (qinv_entry _ _ _ _ HI Hen) as (Hok & Heh & Hl). rewrite Heh.
  assert (Hns : ¬ (h ∈ started)).
  { rewrite <- Heh, (eo_started _ _ _ _ Hok), Hs. set_solver. }
  apply (qinv_update _ _ _ e); auto.
  apply entry_ok_state; try done. rewrite elem_of_app. set_solver.
Qed.

Lemma finish_release_inv h now err q started :
  qinv q started → executing q h = true → qinv (finish_release h now err q).2 started.
Proof.
  intros HI. unfold executing, finish_release, sm_get, sm_mod, sm_lift, mbind, SM_bind. cbn -[fingerprint].
  destruct (entry_of q h) as [e|x] eqn:Hen; [|done]. intros Hs%bool_decide_eq_true. cbn -[fingerprint].
  destruct (qinv_entry _ _ _ _ HI Hen) as (Hok & Heh & Hl). rewrite Heh.
  assert (H : qinv (set_holds (<[h_id h:=mkEntry h SExecuted (en_decision e)]> (q_holds q)) q) started).
  { rewrite <- (app_nil_r started). apply (qinv_update _ _ _ e); auto.
    apply entry_ok_state; try done; [intros _; apply (eo_allowed _ _ _ _ Hok); rewrite Hs; set_solver|].
    rewrite app_nil_r. rewrite <- Heh, (eo_started _ _ _ _ Hok), Hs. set_solver. }
  destruct (fingerprint (h_action h)); [by apply (qinv_log _ _ _ H)|done].
Qed.

Lemma deny_inv h reason name now q started : qinv q started → qinv (deny h reason name now q).2 started.
Proof.
  intros HI. unfold deny. destruct (blank reason); [done|]. unfold sm_get, sm_mod, sm_lift, mbind, SM_bind. cbn -[fingerprint].
  destruct (entry_of q h) as [e|x] eqn:Hen; [|done]. case_bool_decide as Hst; [|done]. destruct Hst as [Hs Hd]. cbn -[fingerprint].
  destruct (qinv_entry _ _ _ _ HI Hen) as (Hok & Heh & Hl). rewrite Heh.
  assert (H : qinv (set_holds (<[h_id h:=mkEntry h SDenied (en_decision e)]> (q_holds q)) q) started).
  { rewrite <- (app_nil_r started). apply (qinv_update _ _ _ e); auto.
    apply entry_ok_state; try done; [set_solver|]. rewrite app_nil_r, <- Heh, (eo_started _ _ _ _ Hok), Hs. set_solver. }
  destruct (fingerprint (h_action h)); [by apply (qinv_log _ _ _ H)|done].
Qed.

Lemma evaluate_inv {W} h (ps : list (Policy W)) q w started :
  qinv q started → qinv (evaluate h ps (q, w)).2.1 started.
Proof.
  intros HI. unfold evaluate. destruct (entry_of q h) as [e|x] eqn:Hen; [|done].
  case_bool_decide as Hs; [|done]. cbn [negb]. destruct (en_decision e) as [d|] eqn:Hd; [done|].
  destruct (run_policies (h_action h) ps w) as [ds w'] eqn:Hrun.
  destruct (qinv_entry _ _ _ _ HI Hen) as (Hok & Heh & Hl). rewrite Heh.
  set (d := if bool_decide (ds = []) then ALLOW else DENY).
  assert (Hst : h ∈ started ++ [] ↔ SEvaluated ∈ [SExecuting; SExecuted]).
  { rewrite app_nil_r. rewrite <- Heh at 1. rewrite (eo_started _ _ _ _ Hok). clear - Hs. destruct (en_state e); set_solver. }
  destruct (fingerprint (h_action h)) as [fp|x] eqn:Hfp; cbn [fst snd].
  - change (qinv (set_holds (<[h_id h:=mkEntry h SEvaluated (Some d)]> (q_holds (add_log (LEvaluated (h_id h) fp d ds) q)))
        (add_log (LEvaluated (h_id h) fp d ds) q)) started).
    pose proof (qinv_log _ _ (LEvaluated (h_id h) fp d ds) HI) as HI'. rewrite <- (app_nil_r started).
    apply (qinv_update _ _ _ e); auto. pose proof (qi_entries _ _ HI' _ _ Hl) as [H1 H2 H3 H4 H5 H6 H7].
    split; cbn [en_held en_state en_decision]; try done; [|set_solver..].
    intros fp' Hfp'. cbn [en_held] in Hfp'. unfold logged in H3. rewrite Heh in H3. split; [by apply H3|]. intros d' [= <-]. exists ds. split.
    + apply elem_of_app. right. apply list_elem_of_singleton.
      rewrite Hfp in Hfp'. by injection Hfp' as ->.
    + unfold d. by case_bool_decide.
  - rewrite <- (app_nil_r started). apply (qinv_update _ _ _ e); auto. destruct Hok as [H1 H2 H3 H4 H5 H6 H7].
    split; cbn [en_held en_state en_decision]; try done; [|set_solver..]. intros fp' Hfp'. cbn [en_held] in Hfp'. congruence.
Qed.

Lemma qsteps_inv {W} (ops : list (qop W)) s : qinv (y_store s) (y_started s) →
  qinv (y_store (qsteps s ops)) (y_started (qsteps s ops)).
Proof.
  revert s. induction ops as [|op ops IH]; [done|]. intros s HI. unfold qsteps in *. cbn [foldl]. apply IH.
  destruct op as [a now|h ps|h|h now err|h r n now]; cbn [qstep].
  - by apply hold_inv.
  - pose proof (evaluate_inv h ps _ (y_world s) _ HI) as H. by destruct (evaluate h ps (y_store s, y_world s)) as [? [? ?]].
  - pose proof (begin_release_inv h _ _ HI) as H. by destruct (begin_release h (y_store s)).
  - destruct (executing (y_store s) h) eqn:E; [|done]. by apply finish_release_inv.
  - by apply deny_inv.
Qed.

(** C5: No path skips the hold, and no path executes without evaluation:
    whatever concurrent users do to a store -- hold, evaluate, begin and finish
    releases, deny, with genuine or forged holds, in any interleaving of their
    atomic steps -- no hold is handed to an executor twice, and every action
    handed to an executor is held by this store, was decided ALLOW, is never
    denied, and (when its fingerprint is defined) has in the log its hold and
    an evaluation without denials. *)
Theorem quarantine_gate {W} (store_id : pystr) (w : W) (ops : list (qop W)) :
  let s := qsteps (qstart store_id w) ops in
  NoDup (h_id <$> y_started s) ∧
  (∀ h, h ∈ y_started s → ∃ e,
    q_holds (y_store s) !! h_id h = Some e ∧ en_held e = h ∧
    en_decision e = Some ALLOW ∧ en_state e ∈ [SExecuting; SExecuted] ∧
    (∀ fp, fingerprint (h_action h) = Ok fp →
      (∃ t n a at_, LHeld (h_id h) fp t n a at_ ∈ q_log (y_store s)) ∧
      LEvaluated (h_id h) fp ALLOW [] ∈ q_log (y_store s))).
Proof.
  intros s. assert (HI : qinv (y_store s) (y_started s)).
  { apply qsteps_inv. split; cbn; [done|intros ? ? H; by rewrite lookup_empty in H|constructor|].
    intros h H. by apply not_elem_of_nil in H. }
  split; [apply HI|]. intros h Hin. destruct (qi_held _ _ HI _ Hin) as (e & He & Heh).
  pose proof (qi_entries _ _ HI _ _ He) as [_ _ Hlog _ Hst Hal _]. rewrite Heh in Hst.
  pose proof (proj1 Hst Hin) as Hs. exists e. split_and!; auto. intros fp Hfp. rewrite <- Heh in Hfp.
  destruct (Hlog fp Hfp) as [Hheld Hev]. rewrite Heh in Hheld, Hev. split; [done|].
  destruct (Hev _ (Hal Hs)) as (ds & Hin' & Hiff). by rewrite (proj1 Hiff eq_refl) in Hin'.
Qed.

(** ** The decision *)
(** The answers of the policies, in their order and each in the world the
    previous one left. *)
Fixpoint answers {W} (action : ProposedAction) (policies : list (Policy W)) (w : W) : list (res PolicyResult) :=
  match policies with
  | [] => []
  | p :: policies => let '(r, w) := po_function p w action in r :: answers action policies w
  end.

Lemma run_policies_denials {W} a (ps : list (Policy W)) w :
  (run_policies a ps w).1 = [] ↔ Forall (λ r, r = Ok PNone) (answers a ps w).
Proof.
  revert w. induction ps as [|p ps IH]; intros w; cbn; [split; auto|].
  destruct (po_function p w a) as [r w'] eqn:E. specialize (IH w'). destruct (run_policies a ps w') as [ds w''].
  rewrite Forall_cons, <- IH. cbn. destruct r as [[| |]|]; cbn; intuition congruence.
Qed.

(** Evaluation fails closed, once and for all: a fresh hold is allowed
    exactly when every policy ran without raising and answered [None]; a policy
    that raises, answers a reason, an empty string or something else makes it
    denied.  From then on every evaluation with any policies repeats the
    decision, and exactly one of release and denial accepts the hold. *)
Theorem evaluation_decides {W} (held : HeldAction) (ps : list (Policy W)) (q : QStore) (w : W) (e : Entry) (fp : pystr) :
  entry_of q held = Ok e → en_state e = SHeld → en_decision e = None → fingerprint (h_action held) = Ok fp →
  ∃ d q' w', evaluate held ps (q, w) = (Ok d, (q', w')) ∧
    (d = ALLOW ↔ Forall (λ r, r = Ok PNone) (answers (h_action held) ps w)) ∧
    (∀ V (ps' : list (Policy V)) v, evaluate held ps' (q', v) = (Ok d, (q', v))) ∧
    ((begin_release held q').1 = Ok tt ↔ d = ALLOW) ∧
    (∀ reason name now, blank reason = false → (deny held reason name now q').1 = Ok tt ↔ d = DENY).
Proof.
  intros Hen Hs Hd Hfp. unfold evaluate at 1. rewrite Hen, Hs, Hd, bool_decide_true by set_solver. cbn [negb].
  pose proof (run_policies_denials (h_action held) ps w) as Hrun.
  destruct (run_policies (h_action held) ps w) as [ds w'] eqn:E. rewrite Hfp. do 3 eexists. split; [done|].
  set (d := if bool_decide (ds = []) then ALLOW else DENY).
  apply entry_of_Ok in Hen as [Hl Heh].
  match goal with |- context [evaluate held _ (?q', _)] => assert (Hen' : entry_of q' held = Ok (mkEntry held SEvaluated (Some d))) end.
  { apply entry_of_Ok. cbn. rewrite lookup_insert_eq, Heh. done. }
  split_and!.
  - rewrite <- Hrun. unfold d. cbn. case_bool_decide; intuition congruence.
  - intros V ps' v. unfold evaluate. rewrite Hen'. cbn [en_state en_decision]. rewrite bool_decide_true by set_solver. done.
  - unfold begin_release, sm_get, sm_lift, mbind, SM_bind. rewrite Hen'. cbn [en_state en_decision]. clear.
    destruct d; cbn; rewrite ?bool_decide_true, ?bool_decide_false by naive_solver; cbn; by split.
  - intros reason name now Hb. unfold deny. rewrite Hb. unfold sm_get, sm_lift, mbind, SM_bind. rewrite Hen'. cbn [en_state en_decision].
    destruct d; cbn -[fingerprint]; rewrite ?bool_decide_true, ?bool_decide_false by naive_solver; cbn -[fingerprint]; rewrite ?Hfp;
      by split.
Qed.

(** A concrete file write, held, and two built-in policies. *)
Definition demo_action : ProposedAction :=
  mkAction FILE_WRITE (str "write") [(str "path", JStr (str "notes/a.txt"))] (str "agent-1").
Definition demo_held : HeldAction := mkHeld demo_action 5 (str "s-hold-00000001") 0.
Definition demo_store : QStore := (hold demo_action 5 (QStore_new (str "s"))).2.
Definition demo_policies : list (Policy Z) :=
  [mkPolicy (str "path_traversal_policy") (λ n a, (Ok (path_traversal_policy a), n)); mkPolicy (str "budget_policy") (budget_policy 1)].

Lemma evaluation_decides_witness : ∃ d q' n, evaluate demo_held demo_policies (demo_store, 0%Z) = (Ok d, (q', n)) ∧ d = ALLOW.
Proof.
  destruct (fingerprint demo_action) as [fp|] eqn:Hfp; [|exfalso; revert Hfp; vm_compute; discriminate].
  destruct (evaluation_decides demo_held demo_policies demo_store 0%Z (mkEntry demo_held SHeld None) fp) as (d & q' & n & He & Hd & _).
  - vm_compute. reflexivity.
  - reflexivity.
  - reflexivity.
  - exact Hfp.
  - exists d, q', n. split; [exact He|]. apply Hd. vm_compute. repeat constructor.
Defined.

(** ** Built-in policies *)
(** The components a path adds to a root, resolved without the file system:
    empty and [.] components stay, [..] leaves a directory. *)
Definition lexical_step (at_ : list pystr) (part : pystr) : list pystr :=
  if bool_decide (part = [] ∨ part = str ".") then at_
  else if bool_decide (part = str "..") then take (length at_ - 1) at_
  else at_ ++ [part].
(** A path that starts with a separator or a drive is not relative to the root. *)
Definition lexical_resolve (root : list pystr) (path : pystr) : list pystr :=
  foldl lexical_step (if starts_with_slash path || drive_letter path then [] else root) (path_parts path).

Lemma lexical_steps_below parts at_ : str ".." ∉ parts → at_ `prefix_of` foldl lexical_step at_ parts.
Proof.
  revert at_. induction parts as [|p ps IH]; intros at_ Hn; [done|]. cbn. apply not_elem_of_cons in Hn as [Hp Hn].
  trans (lexical_step at_ p); [|by apply IH]. unfold lexical_step. case_bool_decide; [done|].
  rewrite bool_decide_false by done. by apply prefix_app_r.
Qed.

(** A file write the path policy lets through stays below whatever root it is
    resolved against. *)
Lemma path_policy_confines (a : ProposedAction) (path : pystr) (root : list pystr) :
  pa_type a = FILE_WRITE → dget (str "path") (pa_arguments a) = Some (JStr path) →
  path_traversal_policy a = PNone → root `prefix_of` lexical_resolve root path.
Proof.
  intros Ht Hp. unfold path_traversal_policy. rewrite Ht, Hp. rewrite (bool_decide_true (FILE_WRITE = FILE_WRITE)) by done.
  cbn [negb]. change (default (JStr []) (Some (JStr path))) with (JStr path). cbv iota.
  destruct (bool_decide (path = []) || bool_decide (0%N ∈ path)); [discriminate|].
  destruct (bool_decide (str ".." ∈ path_parts path) || starts_with_slash path || drive_letter path) eqn:E; [discriminate|]. intros _.
  apply orb_false_iff in E as [[E1 E2]%orb_false_iff E3]. unfold lexical_resolve. rewrite E2, E3.
  apply lexical_steps_below. by apply bool_decide_eq_false in E1.
Qed.

(** The budget policy lets through the first [max_actions] proposals and no more. *)
Lemma budget_policy_bound max_actions count a : (budget_policy max_actions count a).1 = Ok PNone ↔ (count < max_actions)%Z.
Proof. unfold budget_policy. cbn. destruct (Z.ltb_spec max_actions (count + 1)); naive_solver lia. Qed.
