(* ===== verification/Gateway.v ===== *)
(** * The side-effect gateway (residual/gateway/gateway.py, intents.py)

    Every mutating action is held, evaluated and released or denied by the
    quarantine store; executors and the approval verifier are host code acting on a
    world of their own, and [hold_time] and [end_time] are the two clock readings of
    a submission. *)

From Stdlib Require Import ZArith NArith Lia.
From S2P Require Import Prelude PyData Sha256 PyFloat Json JsonFacts Core CoreFacts GoalSpec Quarantine.

(** ** [fnmatch.fnmatchcase] *)
Inductive Glob : Type := GStar | GAny | GChar (c : N) | GSet (negated : bool) (ranges : list (N * N)).

(** The members of a bracket after [prev]: a hyphen between two characters makes a
    range, one at an end or right after a range is itself. *)
Fixpoint set_ranges (prev : N) (s : pystr) : list (N * N) :=
  match s with
  | [] => [(prev, prev)]
  | c :: s' =>
      if (c =? 45)%N then
        match s' with
        | [] => [(prev, prev); (45%N, 45%N)]
        | hi :: rest => (prev, hi) :: match rest with [] => [] | x :: rest => set_ranges x rest end
        end
      else (prev, prev) :: set_ranges c s'
  end.
(** The characters up to the closing bracket, and what follows it. *)
Fixpoint to_bracket (s : pystr) : option (pystr * pystr) :=
  match s with
  | [] => None
  | c :: s => if (c =? 93)%N then Some ([], s) else '(a, b) ← to_bracket s; Some (c :: a, b)
  end.
Definition parse_bracket (s : pystr) : option (Glob * pystr) :=
  let '(negated, s) := match s with c :: s' => if (c =? 33)%N then (true, s') else (false, s) | [] => (false, s) end in
  '(body, rest) ← match s with
                  | c :: s' => if (c =? 93)%N then '(a, b) ← to_bracket s'; Some (c :: a, b) else to_bracket s
                  | [] => None
                  end;
  match body with [] => None | c :: body => Some (GSet negated (set_ranges c body), rest) end.
Fixpoint parse_glob (fuel : nat) (s : pystr) : list Glob :=
  match fuel, s with
  | S fuel, c :: s =>
      if (c =? 42)%N then GStar :: parse_glob fuel s
      else if (c =? 63)%N then GAny :: parse_glob fuel s
      else if (c =? 91)%N then match parse_bracket s with Some (g, rest) => g :: parse_glob fuel rest | None => GChar c :: parse_glob fuel s end
      else GChar c :: parse_glob fuel s
  | _, _ => []
  end.
Definition glob_one (g : Glob) (c : N) : bool :=
  match g with
  | GStar | GAny => true
  | GChar d => (c =? d)%N
  | GSet negated ranges => xorb negated (existsb (λ r : N * N, in_range r.1 r.2 c) ranges)
  end.
Fixpoint glob_match (p : list Glob) (s : pystr) : bool :=
  match p with
  | [] => bool_decide (s = [])
  | GStar :: p => (fix star s := glob_match p s || match s with [] => false | _ :: s => star s end) s
  | g :: p => match s with c :: s => glob_one g c && glob_match p s | [] => false end
  end.
Definition fnmatchcase (name pattern : pystr) : bool := glob_match (parse_glob (length pattern) pattern) name.

Example glob_star : fnmatchcase (str "src/a.py") (str "src/*.py") = true ∧ fnmatchcase (str "src/a.pyc") (str "src/*.py") = false.
Proof. vm_compute. done. Qed.
Example glob_sets : fnmatchcase (str "v7") (str "v[0-9]") = true ∧ fnmatchcase (str "v-") (str "v[!0-9]") = true ∧ fnmatchcase (str "v]") (str "v[]-]") = true ∧
  fnmatchcase (str "v[x") (str "v[x") = true ∧ fnmatchcase (str "e") (str "[a-c-e]") = true ∧ fnmatchcase (str "d") (str "[a-c-e]") = false.
Proof. vm_compute. done. Qed.

(** ** Intents (gateway/intents.py) *)
Inductive ActionKind : Type := KFileWrite | KFileDelete | KProcessSpawn | KNetworkEgress | KConfigChange | KProviderCall | KToolCall | KStateMutation.
#[export] Instance ActionKind_eq_dec : EqDecision ActionKind.
Proof. solve_decision. Defined.
Definition kind_value (k : ActionKind) : pystr :=
  str match k with
      | KFileWrite => "file_write" | KFileDelete => "file_delete" | KProcessSpawn => "process_spawn" | KNetworkEgress => "network_egress"
      | KConfigChange => "config_change" | KProviderCall => "provider_call" | KToolCall => "tool_call" | KStateMutation => "state_mutation"
      end.
Inductive Reversibility : Type := REVERSIBLE | IRREVERSIBLE | REV_UNKNOWN.
Definition reversibility_value (r : Reversibility) : pystr := str match r with REVERSIBLE => "reversible" | IRREVERSIBLE => "irreversible" | REV_UNKNOWN => "unknown" end.
Inductive BlastRadius : Type := LOCAL | MODULE | RUN | SYSTEM.
Definition radius_value (r : BlastRadius) : pystr := str match r with LOCAL => "local" | MODULE => "module" | RUN => "run" | SYSTEM => "system" end.
Definition radius_index (r : BlastRadius) : nat := match r with LOCAL => 0 | MODULE => 1 | RUN => 2 | SYSTEM => 3 end.
Definition radius_at_least (radius floor : BlastRadius) : bool := radius_index floor <=? radius_index radius.

Record SideEffectIntent : Type := mkIntent {
  si_action_kind : ActionKind;
  si_target : pystr;
  si_reversibility : Reversibility;
  si_blast_radius : BlastRadius;
  si_parameters : json;
  si_agent_id : pystr;
  si_intent_id : pystr
}.
(** [ActionKind(v)], [Reversibility(v)] and [BlastRadius(v)] of a value. *)
Definition kind_of (v : pystr) : option ActionKind :=
  List.find (λ k, bool_decide (kind_value k = v))
    [KFileWrite; KFileDelete; KProcessSpawn; KNetworkEgress; KConfigChange; KProviderCall; KToolCall; KStateMutation].
Definition reversibility_of (v : pystr) : option Reversibility :=
  List.find (λ r, bool_decide (reversibility_value r = v)) [REVERSIBLE; IRREVERSIBLE; REV_UNKNOWN].
Definition radius_of (v : pystr) : option BlastRadius :=
  List.find (λ r, bool_decide (radius_value r = v)) [LOCAL; MODULE; RUN; SYSTEM].
Definition SideEffectIntent_init (action_kind target reversibility blast_radius : pystr) (parameters : json) (agent_id intent_id : pystr) : res SideEffectIntent :=
  kind ← of_option (ContractError "unknown action kind") (kind_of action_kind);
  rev ← of_option (ContractError "unknown reversibility") (reversibility_of reversibility);
  radius ← of_option (ContractError "unknown blast radius") (radius_of blast_radius);
  when blank target || bool_decide (0%N ∈ target) raise ContractError "intent requires a non-empty target";;
  _ ← identifier agent_id;
  _ ← identifier intent_id;
  match parameters with
  | JDict _ =>
      match freeze parameters with
      | Ok p => Ok (mkIntent kind target rev radius p agent_id intent_id)
      | Raise _ => Raise (ContractError "intent parameters must be canonicalizable")
      end
  | _ => Raise (ContractError "intent parameters must be canonicalizable")
  end.
Definition intent_content (i : SideEffectIntent) : json :=
  jobj [("action_kind", JStr (kind_value (si_action_kind i))); ("target", JStr (si_target i)); ("reversibility", JStr (reversibility_value (si_reversibility i)));
        ("blast_radius", JStr (radius_value (si_blast_radius i))); ("parameters", si_parameters i); ("agent_id", JStr (si_agent_id i))].
Definition intent_content_hash (i : SideEffectIntent) : res pystr := digest (intent_content i).

(** ** The gateway (gateway/gateway.py) *)
Definition _KIND_TO_QUARANTINE_TYPE (k : ActionKind) : pystr :=
  str match k with
      | KFileWrite | KFileDelete => "file_write"
      | KProcessSpawn | KNetworkEgress | KToolCall => "tool_call"
      | KConfigChange | KStateMutation => "config_change"
      | KProviderCall => "provider_call"
      end.

Inductive GatewayStatus : Type := GExecuted | GDenied.
Record GatewayResult : Type := mkGateway {
  gr_intent : SideEffectIntent;
  gr_status : GatewayStatus;
  gr_result : option json;
  gr_error : option pystr;
  gr_denial_reason : option pystr;
  gr_hold_id : pystr
}.

Section gateway.
Context {W : Type} (exn_name : exn → pystr).
Abbreviation Executor := (W → SideEffectIntent → res json * W).

(** The allowlist, in the order of first registration. *)
Definition Executors : Type := list ((ActionKind * pystr) * Executor).
Definition gateway_register (action_kind pattern : pystr) (executor : Executor) (g : Executors) : res Executors :=
  kind ← of_option (ContractError "unknown action kind") (kind_of action_kind);
  when blank pattern raise ContractError "target pattern is required";;
  Ok (dset (kind, pattern) executor g).

Definition _resolve (i : SideEffectIntent) (g : Executors) : option Executor :=
  snd <$> List.find (λ e : (ActionKind * pystr) * Executor, bool_decide (e.1.1 = si_action_kind i) && fnmatchcase (si_target i) e.1.2) g.

Definition action_name (i : SideEffectIntent) : pystr := kind_value (si_action_kind i) ++ str ":" ++ si_target i.
Definition _to_action (i : SideEffectIntent) : res ProposedAction :=
  ProposedAction_new (_KIND_TO_QUARANTINE_TYPE (si_action_kind i)) (action_name i)
    (jobj [("intent_id", JStr (si_intent_id i)); ("target", JStr (si_target i)); ("reversibility", JStr (reversibility_value (si_reversibility i)));
           ("blast_radius", JStr (radius_value (si_blast_radius i))); ("parameters", si_parameters i)])
    (si_agent_id i).

Definition risky (i : SideEffectIntent) : bool :=
  match si_reversibility i, si_blast_radius i with IRREVERSIBLE, _ | _, SYSTEM => true | _, _ => false end.

(** [verifier]: whether the host's answer is [True] *)
Context (verifier : option (W → SideEffectIntent → res bool * W)).

Definition registration_policy (i : SideEffectIntent) (executor : option Executor) : Policy W :=
  mkPolicy (str "registration_policy") (λ w _,
    (Ok match executor with
        | None => PReason (str "deny-by-default: no registered executor for " ++ action_name i)
        | Some _ => PNone
        end, w)).
Definition approval_policy (i : SideEffectIntent) : Policy W :=
  mkPolicy (str "approval_policy") (λ w _,
    if risky i then
      match verifier with
      | None => (Ok (PReason (str "irreversible/system intent requires a host approval verifier")), w)
      | Some v => let '(r, w) := v w i in
                  (Ok match r with
                      | Ok true => PNone
                      | Ok false => PReason (str "host approval verifier rejected the intent")
                      | Raise _ => PReason (str "approval verifier error")
                      end, w)
      end
    else (Ok PNone, w)).

(** The reasons logged for a hold. *)
Definition logged_reasons (hold_id : pystr) (q : QStore) : list pystr :=
  mjoin ((λ e, match e with LEvaluated id _ _ ds => if bool_decide (id = hold_id) then dn_reason <$> ds else [] | _ => [] end) <$> q_log q).

Definition on_store {A} (m : SM QStore A) : SM (QStore * W) A := λ s, let '(r, q) := m s.1 in (r, (q, s.2)).

Definition execute (g : Executors) (i : SideEffectIntent) (raise_errors : bool) (hold_time end_time : Z) : SM (QStore * W) GatewayResult :=
  let executor := _resolve i g in
  action ← sm_lift (_to_action i);
  held ← on_store (hold action hold_time);
  decision ← evaluate held [registration_policy i executor; approval_policy i];
  if negb (bool_decide (decision = ALLOW)) then
    s ← sm_get;
    let reason := match join (str "; ") (logged_reasons (h_id held) s.1) with [] => str "policy denial" | r => r end in
    _ ← on_store (deny held reason (str "side_effect_gateway") end_time);
    mret (mkGateway i GDenied None None (Some reason) (h_id held))
  else
    x ← release (λ w _, match executor with Some ex => ex w i | None => (Raise (TypeError "'NoneType' object is not callable"), w) end) exn_name held end_time raise_errors;
    mret (mkGateway i GExecuted (ex_result x) (ex_error x) None (h_id held)).
End gateway.

(** ** The ids of the log *)
Definition log_hold (e : LogEntry) : pystr :=
  match e with LHeld id _ _ _ _ _ | LEvaluated id _ _ _ | LExecuted id _ _ _ | LDenied id _ _ _ _ => id end.
(** Every log entry is about a hold this store has given out. *)
Definition log_numbered (q : QStore) : Prop :=
  ∀ e, e ∈ q_log q → ∃ n, (1 <= n <= q_counter q)%Z ∧ log_hold e = hold_id (q_store_id q) n.

Lemma log_numbered_add q q' started h e x :
  qinv q started → entry_of q h = Ok e → q_counter q' = q_counter q → q_store_id q' = q_store_id q →
  q_log q' = q_log q ∨ (q_log q' = q_log q ++ [x] ∧ log_hold x = h_id h) →
  log_numbered q → log_numbered q'.
Proof.
  intros HI He Hc Hs Hl HN y Hy. rewrite Hc, Hs. destruct Hl as [Hl|[Hl Hx]]; rewrite Hl in Hy; [by apply HN|].
  apply elem_of_app in Hy as [Hy|Hy%list_elem_of_singleton]; [by apply HN|]. subst y. rewrite Hx.
  destruct (qinv_entry _ _ _ _ HI He) as (Hok & _ & _). exact (eo_number _ _ _ _ Hok).
Qed.

Lemma qstep_numbered {W} (s : QSystem W) op :
  qinv (y_store s) (y_started s) → log_numbered (y_store s) → log_numbered (y_store (qstep s op)).
Proof.
  intros HI HN. destruct op as [a now|h ps|h|h now err|h r n now]; cbn [qstep].
  - unfold hold, sm_get, sm_mod, sm_lift, mbind, SM_bind. cbn -[hold_id fingerprint].
    pose proof (qi_counter _ _ HI) as Hc.
    assert (Hold : ∀ e, e ∈ q_log (y_store s) → ∃ n, (1 <= n <= q_counter (y_store s) + 1)%Z ∧ log_hold e = hold_id (q_store_id (y_store s)) n).
    { intros e He. destruct (HN e He) as (n & Hn & ->). exists n. split; [lia|done]. }
    destruct (fingerprint a) as [fp|x]; cbn -[hold_id]; [|exact Hold].
    intros e [He|He%list_elem_of_singleton]%elem_of_app; [by apply Hold|]. subst e. eexists. split; [|reflexivity]. cbn. lia.
  - unfold evaluate. destruct (entry_of (y_store s) h) as [e|x] eqn:He; [|done].
    destruct (negb _); [done|]. destruct (en_decision e); [done|]. destruct (run_policies _ _ _) as [ds w].
    destruct (fingerprint _) as [fp|x]; cbn [snd y_store]; [|done]. eapply log_numbered_add; eauto.
  - unfold begin_release, sm_get, sm_mod, sm_lift, mbind, SM_bind. cbn -[fingerprint].
    destruct (entry_of _ _); [|done]. by case_bool_decide.
  - destruct (executing _ _); [|done]. unfold finish_release, sm_get, sm_mod, sm_lift, mbind, SM_bind. cbn -[fingerprint].
    destruct (entry_of (y_store s) h) as [e|x] eqn:He; [|done]. cbn -[fingerprint].
    destruct (fingerprint _) as [fp|x]; [|done]. cbn. eapply log_numbered_add; eauto.
  - unfold deny. destruct (blank r); [done|]. unfold sm_get, sm_mod, sm_lift, mbind, SM_bind. cbn -[fingerprint].
    destruct (entry_of (y_store s) h) as [e|x] eqn:He; [|done]. cbn -[fingerprint]. case_bool_decide; [|done]. cbn -[fingerprint].
    destruct (fingerprint _) as [fp|x]; [|done]. cbn. eapply log_numbered_add; eauto.
Qed.

Lemma reachable_store {W} store_id (w : W) ops :
  let s := qsteps (qstart store_id w) ops in qinv (y_store s) (y_started s) ∧ log_numbered (y_store s).
Proof.
  cbn zeta. assert (H0 : ∃ s0 : QSystem W, s0 = qstart store_id w ∧ qinv (y_store s0) (y_started s0) ∧ log_numbered (y_store s0)).
  { exists (qstart store_id w). split_and!; [done| |].
    - split; cbn; [lia|intros id e; by rewrite lookup_empty|constructor|set_solver].
    - intros e He. cbn in He. set_solver. }
  destruct H0 as (s0 & <- & HI & HN). revert s0 HI HN. induction ops as [|op ops IH]; [done|]. intros s HI HN. apply (IH (qstep s op)).
  - exact (qsteps_inv [op] s HI).
  - by apply qstep_numbered.
Qed.

(** The next hold of a reachable store is new to its log. *)
Lemma fresh_reasons q started :
  qinv q started → log_numbered q → logged_reasons (hold_id (q_store_id q) (q_counter q + 1)) q = [].
Proof.
  intros HI HN. pose proof (qi_counter _ _ HI) as Hc. apply mjoin_nil. intros e He.
  destruct (HN e He) as (n & Hn & Hid). destruct e as [| id fp d ds | |]; [done| |done..]. cbn [log_hold] in Hid.
  case_bool_decide as Heq; [|done]. exfalso. rewrite Heq in Hid. apply hold_id_inj in Hid; lia.
Qed.

(** ** What a submission does *)
(** A joined text is blank only if every part is. *)
Lemma blank_app a b : blank (a ++ b) = blank a && blank b.
Proof. unfold blank. apply forallb_app. Qed.
Lemma blank_join sep l s : s ∈ l → blank s = false → blank (join sep l) = false.
Proof.
  intros Hin Hs. induction l as [|x l IH]; [by apply not_elem_of_nil in Hin|]. apply elem_of_cons in Hin as [<-|Hin].
  - destruct l; cbn [join]; [done|]. by rewrite blank_app, Hs.
  - destruct l as [|y l]; [by apply not_elem_of_nil in Hin|]. change (join sep (x :: y :: l)) with (x ++ sep ++ join sep (y :: l)).
    rewrite !blank_app, (IH Hin). by rewrite !andb_false_r.
Qed.

(** The reasons of a log grow with it. *)
Lemma logged_reasons_evaluated id fp t n ag now d ds q q' :
  logged_reasons id q = [] → q_log q' = (q_log q ++ [LHeld id fp t n ag now]) ++ [LEvaluated id fp d ds] → logged_reasons id q' = dn_reason <$> ds.
Proof.
  intros H Hl. unfold logged_reasons in *. rewrite Hl, !fmap_app, !mjoin_app, H. cbn [fmap list_fmap].
  rewrite bool_decide_eq_true_2 by done. transitivity ([] ++ (dn_reason <$> ds) ++ []); [done|]. by rewrite app_nil_r.
Qed.

Section submission.
Context {W : Type} (exn_name : exn → pystr) (verifier : option (W → SideEffectIntent → res bool * W)).

(** Whether the host approves an intent that needs it, and the world after asking. *)
Definition approved (i : SideEffectIntent) (w : W) : bool * W :=
  if risky i then
    match verifier with
    | Some v => let '(r, w) := v w i in (match r with Ok true => true | _ => false end, w)
    | None => (false, w)
    end
  else (true, w).

Definition denying (unregistered unapproved : bool) : list pystr :=
  (if unregistered then [str "registration_policy"] else []) ++ (if unapproved then [str "approval_policy"] else []).

Lemma policies_run i ex a w :
  let '(ds, w') := run_policies a [registration_policy i ex; approval_policy verifier i] w in
  let '(ok, w1) := approved i w in
  w' = w1 ∧ dn_policy <$> ds = denying (bool_decide (ex = None)) (negb ok) ∧ ∀ d, d ∈ ds → blank (dn_reason d) = false.
Proof.
  unfold registration_policy, approval_policy, approved. cbn [run_policies po_function po_name].
  assert (Hreg : blank (take 1000 (if blank (str "deny-by-default: no registered executor for " ++ action_name i)
    then str "invalid_policy_result" else str "deny-by-default: no registered executor for " ++ action_name i)) = false).
  { rewrite blank_app. destruct (blank (action_name i)); reflexivity. }
  assert (Hap : ∀ s, s ∈ str <$> ["irreversible/system intent requires a host approval verifier";
    "host approval verifier rejected the intent"; "approval verifier error"]%string → blank (take 1000 (if blank s then str "invalid_policy_result" else s)) = false).
  { intros s Hs. repeat (apply elem_of_cons in Hs as [->|Hs]; [reflexivity|]). by apply not_elem_of_nil in Hs. }
  destruct (risky i); [destruct verifier as [v|]; [destruct (v w i) as [[[]|e] w1]|]|]; destruct ex as [ex|]; cbn [policy_reason].
  all: split_and!; [done|done|].
  all: intros d Hd; repeat (apply elem_of_cons in Hd as [->|Hd]; [first [exact Hreg|apply Hap; set_solver]|]); by apply not_elem_of_nil in Hd.
Qed.

Lemma hold_run a now q fp : fingerprint a = Ok fp →
  let id := hold_id (q_store_id q) (q_counter q + 1) in
  let held := mkHeld a now id (q_objects q) in
  hold a now q = (Ok held, mkQ (q_log q ++ [LHeld id fp (pa_type a) (pa_name a) (pa_agent a) now]) (q_counter q + 1)
    (<[id := mkEntry held SHeld None]> (q_holds q)) (q_store_id q) (S (q_objects q))).
Proof. intros Hf. unfold hold, sm_get, sm_mod, sm_lift, mbind, SM_bind. cbn -[fingerprint hold_id]. by rewrite Hf. Qed.

(** The evaluation of a hold just made: policies once, and their denials logged. *)
Lemma evaluate_run h (ps : list (Policy W)) q w fp :
  fingerprint (h_action h) = Ok fp → q_holds q !! h_id h = Some (mkEntry h SHeld None) →
  let '(ds, w1) := run_policies (h_action h) ps w in
  let d := if bool_decide (ds = []) then ALLOW else DENY in
  evaluate h ps (q, w) = (Ok d, (add_log (LEvaluated (h_id h) fp d ds) (set_holds (<[h_id h := mkEntry h SEvaluated (Some d)]> (q_holds q)) q), w1)).
Proof.
  intros Hf Hl. destruct (run_policies (h_action h) ps w) as [ds w1] eqn:Hr. cbn zeta. unfold evaluate.
  rewrite (proj2 (entry_of_Ok q h (mkEntry h SHeld None)) (conj Hl eq_refl)). cbn [en_state en_decision en_held].
  rewrite bool_decide_eq_true_2 by set_solver. cbn [negb]. by rewrite Hr, Hf.
Qed.

Lemma deny_run h reason name now q fp :
  fingerprint (h_action h) = Ok fp → q_holds q !! h_id h = Some (mkEntry h SEvaluated (Some DENY)) → blank reason = false →
  deny h reason name now q = (Ok tt, add_log (LDenied (h_id h) fp now reason name) (set_holds (<[h_id h := mkEntry h SDenied (Some DENY)]> (q_holds q)) q)).
Proof.
  intros Hf Hl Hb. unfold deny. rewrite Hb. unfold sm_get, sm_mod, sm_lift, mbind, SM_bind. cbn -[fingerprint].
  rewrite (proj2 (entry_of_Ok q h (mkEntry h SEvaluated (Some DENY))) (conj Hl eq_refl)). cbn [en_state en_decision en_held].
  rewrite bool_decide_eq_true_2 by done. cbn -[fingerprint]. by rewrite Hf.
Qed.

Lemma release_run (ex : W → ProposedAction → res json * W) h now re q w fp :
  fingerprint (h_action h) = Ok fp → q_holds q !! h_id h = Some (mkEntry h SEvaluated (Some ALLOW)) →
  let '(x, w1) := ex w (h_action h) in
  let error := match x with Ok _ => None | Raise e => Some (exn_name e) end in
  let q' := add_log (LExecuted (h_id h) fp now error) (set_holds (<[h_id h := mkEntry h SExecuted (Some ALLOW)]> (q_holds q)) q) in
  release ex exn_name h now re (q, w) =
    (match x with
     | Ok v => Ok (mkExecuted h now (Some v) None)
     | Raise e => if re then Raise e else Ok (mkExecuted h now None (Some (exn_name e)))
     end, (q', w1)).
Proof.
  intros Hf Hl. destruct (ex w (h_action h)) as [x w1] eqn:Hx. cbn zeta. unfold release, begin_release, sm_get, sm_mod, sm_lift, mbind, SM_bind.
  cbn -[fingerprint]. rewrite (proj2 (entry_of_Ok q h (mkEntry h SEvaluated (Some ALLOW))) (conj Hl eq_refl)). cbn [en_state en_decision en_held].
  rewrite bool_decide_eq_true_2 by done. cbn -[fingerprint]. rewrite Hx. unfold finish_release, sm_get, sm_mod, sm_lift, mbind, SM_bind. cbn -[fingerprint].
  unfold entry_of. cbn [q_holds set_holds]. rewrite lookup_insert_eq. cbn [en_held]. rewrite bool_decide_eq_true_2 by done. cbn -[fingerprint].
  rewrite Hf. cbn. unfold set_holds, add_log. cbn. rewrite insert_insert_eq. destruct x as [v|e]; [done|]. by destruct re.
Qed.

(** C28: On a store in whatever state concurrent users left it, a submission whose
    action is valid does exactly this: with a registered executor and, for an
    irreversible or system-wide intent, the host verifier's [True], the executor
    runs once, after the verifier, and its result or error is returned; in every other
    case no executor runs and the result is a denial with the joined reasons of the
    policies that denied. The log gains the hold, the evaluation and the outcome, the
    hold ends consumed, and no other hold changes. *)
Theorem gateway_exact store_id (w0 : W) ops g i re t0 t1 w a fp :
  _to_action i = Ok a → fingerprint a = Ok fp →
  let q := y_store (qsteps (qstart store_id w0) ops) in
  let id := hold_id (q_store_id q) (q_counter q + 1) in
  let held := mkHeld a t0 id (q_objects q) in
  let logged_hold := LHeld id fp (pa_type a) (pa_name a) (pa_agent a) t0 in
  let '(r, (q', w')) := execute exn_name verifier g i re t0 t1 (q, w) in
  let '(ok, w1) := approved i w in
  match _resolve i g, ok with
  | Some ex, true =>
      let '(x, w2) := ex w1 i in
      let error := match x with Ok _ => None | Raise e => Some (exn_name e) end in
      w' = w2 ∧
      r = match x with
          | Ok v => Ok (mkGateway i GExecuted (Some v) None None id)
          | Raise e => if re then Raise e else Ok (mkGateway i GExecuted None error None id)
          end ∧
      q_log q' = q_log q ++ [logged_hold; LEvaluated id fp ALLOW []; LExecuted id fp t1 error] ∧
      q_holds q' = <[id := mkEntry held SExecuted (Some ALLOW)]> (q_holds q)
  | ex, _ =>
      ∃ ds, let reason := join (str "; ") (dn_reason <$> ds) in
      w' = w1 ∧ dn_policy <$> ds = denying (bool_decide (ex = None)) (negb ok) ∧
      r = Ok (mkGateway i GDenied None None (Some reason) id) ∧
      q_log q' = q_log q ++ [logged_hold; LEvaluated id fp DENY ds; LDenied id fp t1 reason (str "side_effect_gateway")] ∧
      q_holds q' = <[id := mkEntry held SDenied (Some DENY)]> (q_holds q)
  end.
Proof.
  intros Ha Hf. cbn zeta. destruct (reachable_store store_id w0 ops) as [HI HN]. pose proof (fresh_reasons _ _ HI HN) as Hfresh.
  clear HI HN. set (q := y_store (qsteps (qstart store_id w0) ops)) in *. clearbody q.
  set (id := hold_id (q_store_id q) (q_counter q + 1)) in *. set (held := mkHeld a t0 id (q_objects q)).
  unfold execute. rewrite Ha. cbn zeta. unfold mbind at 1, SM_bind at 1, sm_lift at 1. unfold mbind at 1, SM_bind at 1, on_store at 1.
  pose proof (hold_run a t0 q fp Hf) as Hh. cbn zeta in Hh. fold id in Hh. fold held in Hh. cbn [fst snd]. rewrite Hh. clear Hh.
  unfold mbind at 1, SM_bind at 1.
  set (q1 := mkQ _ _ _ _ _). pose proof (policies_run i (_resolve i g) a w) as Hp.
  pose proof (evaluate_run held [registration_policy i (_resolve i g); approval_policy verifier i] q1 w fp Hf) as He.
  cbn [h_action held] in He.
  destruct (run_policies a [registration_policy i (_resolve i g); approval_policy verifier i] w) as [ds w'].
  destruct (approved i w) as [ok w1]. destruct Hp as (-> & Hnames & Hreason). cbn zeta in He. rewrite He by apply lookup_insert_eq. clear He.
  destruct (decide (ds = [])) as [Hds|Hds]; [rewrite (bool_decide_eq_true_2 _ Hds)|rewrite (bool_decide_eq_false_2 _ Hds)].
  - subst ds. destruct (_resolve i g) as [ex|]; [|by destruct ok]. destruct ok; [|done]. clear Hnames Hreason.
    rewrite bool_decide_eq_true_2 by done. cbn [negb]. unfold mbind at 1, SM_bind at 1.
    match goal with |- context [release ?e ?n held t1 re (?q2, w1)] => pose proof (release_run e held t1 re q2 w1 fp Hf) as Hr end.
    cbv beta in Hr. destruct (ex w1 i) as [x w2]. cbn zeta in Hr. rewrite Hr by apply lookup_insert_eq. clear Hr.
    unfold q1, add_log, set_holds. cbn [q_log q_holds h_id held]. rewrite <- !app_assoc, !insert_insert_eq.
    destruct x as [v|e]; [|destruct re]; split_and!; reflexivity.
  - rewrite bool_decide_eq_false_2 by done. cbn [negb]. unfold mbind at 1, SM_bind at 1, sm_get at 1. cbn [fst].
    unfold mbind at 1, SM_bind at 1, on_store. cbn [fst snd].
    match goal with |- context [logged_reasons (h_id held) ?q2] => rewrite (logged_reasons_evaluated (h_id held) fp _ _ _ _ DENY ds q q2 Hfresh eq_refl) end.
    assert (Hb : blank (join (str "; ") (dn_reason <$> ds)) = false).
    { destruct ds as [|d ds]; [done|]. apply (blank_join _ _ (dn_reason d)); [left|apply Hreason; left]. }
    destruct (join (str "; ") (dn_reason <$> ds)) as [|c cs] eqn:Hj; [done|]. rewrite <- Hj in *. clear Hj.
    erewrite deny_run by (apply lookup_insert_eq || done).
    unfold q1, add_log, set_holds. cbn [q_log q_holds h_id held]. rewrite <- !app_assoc, !insert_insert_eq.
    destruct (_resolve i g) as [ex|]; [destruct ok; [by destruct ds|]|]; exists ds; split_and!; done.
Qed.
End submission.

(** An irreversible deletion that the host approves. *)
Definition demo_intent : SideEffectIntent :=
  mkIntent KFileDelete (str "src/a.py") IRREVERSIBLE LOCAL (JDict []) (str "agent") (str "intent-1").
Example demo_intent_valid :
  SideEffectIntent_init (str "file_delete") (str "src/a.py") (str "irreversible") (str "local") (JDict []) (str "agent") (str "intent-1") = Ok demo_intent.
Proof. vm_compute. reflexivity. Qed.
Definition demo_verifier (w : list bool) (_ : SideEffectIntent) : res bool * list bool := (Ok true, w ++ [true]).
Definition demo_executor (w : list bool) (_ : SideEffectIntent) : res json * list bool := (Ok JNull, w ++ [false]).
Definition demo_executors : Executors := [((KFileWrite, str "*"), demo_executor); ((KFileDelete, str "src/*"), demo_executor)].

Definition demo_action : ProposedAction := match _to_action demo_intent with Ok a => a | Raise _ => mkAction TOOL_CALL [] [] [] end.
Lemma demo_to_action : _to_action demo_intent = Ok demo_action.
Proof. vm_compute. reflexivity. Qed.
Lemma demo_fingerprint : fingerprint demo_action = Ok (match fingerprint demo_action with Ok f => f | Raise _ => [] end).
Proof. vm_compute. reflexivity. Qed.
Lemma demo_resolve : _resolve demo_intent demo_executors = Some demo_executor.
Proof. vm_compute. reflexivity. Qed.

Lemma gateway_exact_witness :
  let '(r, (_, w')) := execute (λ _, []) (Some demo_verifier) demo_executors demo_intent false 5 6 (y_store (qsteps (qstart (str "s") ([] : list bool)) []), []) in
  w' = [true; false] ∧ r = Ok (mkGateway demo_intent GExecuted (Some JNull) None None (hold_id (str "s") 1)).
Proof.
  pose proof (gateway_exact (λ _, []) (Some demo_verifier) (str "s") [] [] demo_executors demo_intent false 5 6 [] _ _ demo_to_action demo_fingerprint) as H.
  cbn zeta in H. revert H. destruct (execute _ _ _ _ _ _ _ _) as [r [q' w']]. intros H. rewrite demo_resolve in H. destruct H as (-> & -> & _). split; reflexivity.
Defined.

(** A submission whose action is invalid raises before anything is held. *)
Lemma invalid_raises {W} exn_name verifier (g : @Executors W) i re t0 t1 s e :
  _to_action i = Raise e → execute exn_name verifier g i re t0 t1 s = (Raise e, s).
Proof. intros Ha. unfold execute. by rewrite Ha. Qed.
