(* ===== verification/Scheduler.v ===== *)
(** * Fair multi-tenant scheduling (residual/tenancy/scheduler.py)

    The deficit round-robin scheduler: every tenant with queued jobs earns its
    quota once per round, and a job runs when the credit of its tenant covers
    its cost.  The queues and credits are dictionaries keyed by tenant; the
    order of service is a deque that is rotated once per turn. *)

From Stdlib Require Import ZArith NArith Lia.
From S2P Require Import Prelude PyData Sha256 PyFloat Json JsonFacts Core CoreFacts.

#[local] Open Scope Z_scope.

Record Job : Type := mkJob { j_id : pystr; j_tenant : pystr; j_cost : Z }.
#[export] Instance Job_eq_dec : EqDecision Job.
Proof. solve_decision. Defined.

Definition Job_new (id tenant_id : pystr) (cost : Z) : res Job :=
  _ ← identifier id;
  _ ← identifier tenant_id;
  when (cost <? 1) raise ContractError "job cost must be a positive integer";;
  Ok (mkJob id tenant_id cost).

Record FairScheduler : Type := mkScheduler {
  fs_workers : Z;
  fs_quotas : dict Z;
  fs_queues : gmap pystr (list Job);
  fs_deficit : gmap pystr Z;
  fs_order : list pystr;
  fs_completed : list Job
}.

(** [FairScheduler(workers, quotas)] *)
Definition FairScheduler_new (workers : Z) (quotas : dict Z) : res FairScheduler :=
  when (workers <? 1) raise ContractError "workers must be a positive integer";;
  _ ← for_all quotas (λ '(tenant, quota),
    _ ← identifier tenant;
    when (quota <? 1) raise ContractError "tenant quota must be a positive integer";; Ok tt);
  Ok (mkScheduler workers quotas ∅ ∅ [] []).

Definition set_quota (tenant_id : pystr) (quota : Z) (s : FairScheduler) : res FairScheduler :=
  _ ← identifier tenant_id;
  when (quota <? 1) raise ContractError "tenant quota must be a positive integer";;
  Ok (mkScheduler (fs_workers s) (dset tenant_id quota (fs_quotas s)) (fs_queues s) (fs_deficit s) (fs_order s) (fs_completed s)).

(** [submit]: a tenant seen for the first time gets a queue, a credit, the last
    place of the order and, unless it has one, the quota 1. *)
Definition submit (job : Job) (s : FairScheduler) : FairScheduler :=
  let t := j_tenant job in
  match fs_queues s !! t with
  | Some queue =>
      mkScheduler (fs_workers s) (fs_quotas s) (<[t := queue ++ [job]]> (fs_queues s)) (fs_deficit s) (fs_order s) (fs_completed s)
  | None =>
      mkScheduler (fs_workers s) (if dmem t (fs_quotas s) then fs_quotas s else dset t 1 (fs_quotas s))
        (<[t := [job]]> (fs_queues s)) (<[t := 0]> (fs_deficit s)) (fs_order s ++ [t]) (fs_completed s)
  end.

Definition pending (s : FairScheduler) (tenant_id : pystr) : nat := length (default [] (fs_queues s !! tenant_id)).

(** [self.quotas.get(tenant, 1)] *)
Definition quota_of (s : FairScheduler) (tenant : pystr) : Z := default 1 (dget tenant (fs_quotas s)).

(** The inner [while]: what is served, what stays queued and the credit left. *)
Fixpoint serve (queue : list Job) (deficit steps max_steps : Z) : list Job * list Job * Z :=
  match queue with
  | [] => ([], [], deficit)
  | job :: rest =>
      if (j_cost job <=? deficit) && (steps <? max_steps)
      then let '(served, queue, deficit) := serve rest (deficit - j_cost job) (steps + 1) max_steps in
           (job :: served, queue, deficit)
      else ([], queue, deficit)
  end.

(** One iteration of the [for]: the steps so far and whether the round progressed. *)
Definition turn (max_steps steps : Z) (progressed : bool) : SM FairScheduler (Z * bool) :=
  s ← sm_get;
  match fs_order s with
  | [] => sm_raise (OtherError "IndexError")
  | tenant :: rest =>
      _ ← sm_mod (λ s, mkScheduler (fs_workers s) (fs_quotas s) (fs_queues s) (fs_deficit s) (rest ++ [tenant]) (fs_completed s));
      queue ← sm_lift (of_option (KeyError "tenant") (fs_queues s !! tenant));
      if bool_decide (queue = []) then mret (steps, progressed)
      else
        credit ← sm_lift (of_option (KeyError "tenant") (fs_deficit s !! tenant));
        let '(served, left_, deficit) := serve queue (credit + quota_of s tenant) steps max_steps in
        _ ← sm_mod (λ s, mkScheduler (fs_workers s) (fs_quotas s) (<[tenant := left_]> (fs_queues s))
              (<[tenant := if bool_decide (left_ = []) then 0 else deficit]> (fs_deficit s)) (fs_order s) (fs_completed s ++ served));
        mret (steps + Z.of_nat (length served), progressed || negb (bool_decide (served = [])))
  end.

(** [for _ in range(n)] *)
Fixpoint round (n : nat) (max_steps steps : Z) (progressed : bool) : SM FairScheduler (Z * bool) :=
  match n with
  | O => mret (steps, progressed)
  | S n => '(steps, progressed) ← turn max_steps steps progressed; round n max_steps steps progressed
  end.

(** [any(self._queues[t] for t in self._round_order)] *)
Fixpoint any_pending (queues : gmap pystr (list Job)) (order : list pystr) : res bool :=
  match order with
  | [] => Ok false
  | t :: order =>
      queue ← of_option (KeyError "tenant") (queues !! t);
      if bool_decide (queue = []) then any_pending queues order else Ok true
  end.

Fixpoint run_loop (fuel : nat) (max_steps steps : Z) : SM FairScheduler (list Job) :=
  s ← sm_get;
  busy ← sm_lift (any_pending (fs_queues s) (fs_order s));
  if (busy : bool) then
    match fuel with
    | O => sm_raise (OtherError "out of fuel")
    | S fuel =>
        '(steps, progressed) ← round (length (fs_order s)) max_steps steps false;
        if negb progressed && (max_steps <=? steps) then sm_raise (ContractError "scheduler exceeded max_steps")
        else run_loop fuel max_steps steps
    end
  else mret (fs_completed s).

(** ** Reading the state *)
Definition queue (s : FairScheduler) (t : pystr) : list Job := default [] (fs_queues s !! t).
Definition credit (s : FairScheduler) (t : pystr) : Z := default 0 (fs_deficit s !! t).
Definition cost (jobs : list Job) : Z := foldr (λ j n, j_cost j + n) 0 jobs.
(** The jobs of one tenant, in order. *)
Definition of_tenant (t : pystr) (jobs : list Job) : list Job := filter (λ j, j_tenant j = t) jobs.

(** The rounds a tenant still needs, at most. *)
Definition demand (s : FairScheduler) (t : pystr) : nat :=
  if bool_decide (queue s t = []) then 0%nat else Z.to_nat (Z.max 1 (cost (queue s t) - credit s t)).
Definition total_demand (s : FairScheduler) : nat := sum_list (demand s <$> fs_order s).

(** [run_until_idle]: one round per unit of demand and one to notice the step
    limit are enough. *)
Definition run_until_idle (max_steps : Z) : SM FairScheduler (list Job) :=
  if max_steps <? 1 then sm_raise (ContractError "max_steps must be a positive integer")
  else s ← sm_get; run_loop (S (total_demand s)) max_steps 0.

(** The states of a scheduler that is built and used through its operations. *)
Inductive reachable : FairScheduler → Prop :=
| reach_new workers quotas s : FairScheduler_new workers quotas = Ok s → reachable s
| reach_quota t n s s' : reachable s → set_quota t n s = Ok s' → reachable s'
| reach_submit id t c j s : reachable s → Job_new id t c = Ok j → reachable (submit j s)
| reach_run m s : reachable s → reachable (run_until_idle m s).2.

(** ** The invariant *)
Record wf (s : FairScheduler) : Prop := {
  wf_order : NoDup (fs_order s);
  wf_keys : ∀ t, t ∈ fs_order s ↔ is_Some (fs_queues s !! t);
  wf_credit : ∀ t, t ∈ fs_order s → ∃ d, fs_deficit s !! t = Some d ∧ 0 <= d;
  wf_jobs : ∀ t j, j ∈ queue s t → j_tenant j = t ∧ 1 <= j_cost j;
  wf_quota : ∀ t, 1 <= quota_of s t
}.

Lemma cost_app l k : cost (l ++ k) = cost l + cost k.
Proof. induction l as [|j l IH]; cbn; [done|]. unfold cost in *. lia. Qed.

Lemma of_tenant_app t l k : of_tenant t (l ++ k) = of_tenant t l ++ of_tenant t k.
Proof. apply filter_app. Qed.

Lemma of_tenant_all t l : (∀ j, j ∈ l → j_tenant j = t) → of_tenant t l = l.
Proof.
  unfold of_tenant. induction l as [|j l IH]; intros H; [done|]. rewrite filter_cons_True by (apply H; left).
  f_equal. apply IH. intros x Hx. apply H. by right.
Qed.

Lemma of_tenant_none t l : (∀ j, j ∈ l → j_tenant j ≠ t) → of_tenant t l = [].
Proof.
  unfold of_tenant. induction l as [|j l IH]; intros H; [done|]. rewrite filter_cons_False by (apply H; left).
  apply IH. intros x Hx. apply H. by right.
Qed.

(** Splitting jobs by tenant loses none. *)
Lemma of_tenants_perm order l : NoDup order → (∀ j, j ∈ l → j_tenant j ∈ order) → mjoin ((λ t, of_tenant t l) <$> order) ≡ₚ l.
Proof.
  revert l. induction order as [|t order IH]; intros l Hn Hin.
  - destruct l as [|j l]; [done|]. exfalso. by eapply not_elem_of_nil, (Hin j); left.
  - apply NoDup_cons in Hn as [Ht Hn]. cbn. transitivity (of_tenant t l ++ filter (λ j, j_tenant j ≠ t) l).
    + f_equiv. rewrite <- (IH (filter (λ j, j_tenant j ≠ t) l)); [|done|].
      * match goal with |- ?a ≡ₚ ?b => cut (a = b); [by intros ->|] end. f_equal. apply list_fmap_ext. intros i u Hu. unfold of_tenant. rewrite list_filter_filter.
        apply list_filter_iff. intros j. apply list_elem_of_lookup_2 in Hu. split; [|naive_solver]. intros Hj. split; [done|]. congruence.
      * intros j [Hj Hl]%list_elem_of_filter. specialize (Hin _ Hl). apply elem_of_cons in Hin as [?|?]; done.
    + clear. unfold of_tenant. induction l as [|j l IH]; [done|]. destruct (decide (j_tenant j = t)) as [He|He].
      * rewrite filter_cons_True, filter_cons_False by naive_solver. cbn. by rewrite IH.
      * rewrite filter_cons_False, filter_cons_True by naive_solver. rewrite <- Permutation_middle. by rewrite IH.
Qed.

(** ** One turn *)
Lemma serve_spec q d steps m served left_ d' :
  serve q d steps m = (served, left_, d') → 0 <= d → steps <= m →
  q = served ++ left_ ∧ d' = d - cost served ∧ 0 <= d' ∧ steps + Z.of_nat (length served) <= m ∧
  (steps + Z.of_nat (length served) < m → ∀ j rest, left_ = j :: rest → d' < j_cost j).
Proof.
  revert d steps served left_ d'. induction q as [|j q IH]; intros d steps served left_ d'; cbn [serve].
  - intros [= <- <- <-] Hd Hst. cbn [cost length foldr app]. split_and!; auto; try lia. done.
  - destruct ((j_cost j <=? d) && (steps <? m)) eqn:E.
    + destruct (serve q (d - j_cost j) (steps + 1) m) as [[sv lf] d1] eqn:Hs. intros [= <- <- <-] Hd Hst.
      apply andb_true_iff in E as [E1%Z.leb_le E2%Z.ltb_lt].
      destruct (IH _ _ _ _ _ Hs) as (-> & -> & H1 & H2 & H3); [lia..|]. cbn [length]. unfold cost. cbn [foldr]. fold (cost sv).
      split_and!; auto; try lia. intros Hlt. apply H3. lia.
    + intros [= <- <- <-] Hd Hst. cbn [cost length foldr app]. split_and!; auto; try lia. intros Hlt j' rest [= <- <-].
      apply andb_false_iff in E as [E%Z.leb_gt|E%Z.ltb_ge]; lia.
Qed.

(** How the state of one tenant advances when it is served [mine], in a run that
    has done [steps] steps afterwards. *)
Record advance (m steps : Z) (s s' : FairScheduler) (t : pystr) (mine : list Job) : Prop := {
  ad_queue : queue s t = mine ++ queue s' t;
  ad_idle : queue s t ≠ [] → queue s' t = [] → credit s' t = 0;
  ad_credit : queue s' t ≠ [] → credit s' t = credit s t + quota_of s t - cost mine;
  ad_head : steps < m → ∀ j rest, queue s' t = j :: rest → credit s' t < j_cost j
}.

Lemma turn_ok m steps p s t rest :
  wf s → fs_order s = t :: rest → steps <= m →
  ∃ served s', turn m steps p s = (Ok (steps + Z.of_nat (length served), p || negb (bool_decide (served = []))), s') ∧
    wf s' ∧ fs_order s' = rest ++ [t] ∧ fs_quotas s' = fs_quotas s ∧ fs_completed s' = fs_completed s ++ served ∧
    steps + Z.of_nat (length served) <= m ∧ (∀ j, j ∈ served → j_tenant j = t) ∧
    (∀ u, u ≠ t → queue s' u = queue s u ∧ credit s' u = credit s u) ∧
    advance m (steps + Z.of_nat (length served)) s s' t served.
Proof.
  intros HW Ho Hs. assert (Hin : t ∈ fs_order s) by (rewrite Ho; left).
  destruct (proj1 (wf_keys _ HW t) Hin) as [q Hq]. destruct (wf_credit _ HW t Hin) as (d & Hd & Hd0).
  assert (Hqt : queue s t = q) by (unfold queue; by rewrite Hq). assert (Hdt : credit s t = d) by (unfold credit; by rewrite Hd).
  assert (Hperm : t :: rest ≡ₚ rest ++ [t]) by apply Permutation_cons_append.
  unfold turn, sm_get, sm_mod, sm_lift, mbind, SM_bind. rewrite Ho, Hq. cbn [of_option]. destruct (decide (q = [])) as [->|Hne].
  - rewrite bool_decide_true by done. exists [], (mkScheduler (fs_workers s) (fs_quotas s) (fs_queues s) (fs_deficit s) (rest ++ [t]) (fs_completed s)).
    cbn [fs_order fs_quotas fs_completed length]. rewrite Z.add_0_r, app_nil_r, orb_false_r by done.
    assert (Hq' : ∀ u, queue (mkScheduler (fs_workers s) (fs_quotas s) (fs_queues s) (fs_deficit s) (rest ++ [t]) (fs_completed s)) u = queue s u) by done.
    split_and!; try done.
    + destruct HW as [H1 H2 H3 H4 H5]. rewrite Ho in *. split; try done; cbn; setoid_rewrite <- Hperm; auto.
    + intros j Hj. by apply not_elem_of_nil in Hj.
    + split; rewrite ?Hq', ?Hqt; done.
  - rewrite bool_decide_false by done. rewrite Hd. cbn [of_option].
    destruct (serve q (d + quota_of s t) steps m) as [[served left_] d'] eqn:Hsv. pose proof (wf_quota _ HW t) as Hquota.
    destruct (serve_spec _ _ _ _ _ _ _ Hsv) as (Hsplit & Hd' & Hd'0 & Hle & Hhead); [lia|done|].
    eexists served, _. split; [reflexivity|].
    match goal with |- wf ?x ∧ _ => set (s' := x) end.
    assert (Hqs : queue s' t = left_) by (unfold queue, s'; cbn; by rewrite lookup_insert_eq).
    assert (Hds : credit s' t = if bool_decide (left_ = []) then 0 else d') by (unfold credit, s'; cbn; by rewrite lookup_insert_eq).
    assert (Hoth : ∀ u, u ≠ t → queue s' u = queue s u ∧ credit s' u = credit s u).
    { intros u Hu. unfold queue, credit, s'. cbn. by rewrite !lookup_insert_ne by done. }
    assert (Hjobs : ∀ j, j ∈ served ∨ j ∈ left_ → j_tenant j = t ∧ 1 <= j_cost j).
    { intros j Hj. apply (wf_jobs _ HW). rewrite Hqt, Hsplit. by apply elem_of_app. }
    split_and!; try done.
    + destruct HW as [H1 H2 H3 H4 H5]. rewrite Ho in *. split; cbn.
      * by rewrite <- Hperm.
      * intros u. rewrite <- Hperm. destruct (decide (u = t)) as [->|Hu]; [rewrite lookup_insert_eq; split; [by eexists|left]|].
        rewrite lookup_insert_ne by done. apply H2.
      * intros u. rewrite <- Hperm. intros Hu. destruct (decide (u = t)) as [->|Hut].
        -- rewrite lookup_insert_eq. eexists. split; [done|]. case_bool_decide; lia.
        -- rewrite lookup_insert_ne by done. by apply H3.
      * intros u j. destruct (decide (u = t)) as [->|Hut]; [rewrite Hqs; auto|]. rewrite (proj1 (Hoth u Hut)). apply H4.
      * done.
    + intros j Hj. apply Hjobs. by left.
    + split; rewrite ?Hqs, ?Hds, ?Hqt, ?Hdt.
      * done.
      * intros _ ->. done.
      * intros Hl. rewrite bool_decide_false by done. done.
      * intros Hlt j r ->. rewrite bool_decide_false by done. by eapply Hhead.
Qed.

(** ** One round *)
(** Another view of the same tenant, at a later step. *)
Lemma advance_view m steps steps' s s' r r' t mine :
  queue r t = queue s t → credit r t = credit s t → queue r' t = queue s' t → credit r' t = credit s' t →
  quota_of r t = quota_of s t → steps <= steps' →
  advance m steps s s' t mine → advance m steps' r r' t mine.
Proof. intros E1 E2 E3 E4 E5 Hle [H1 H2 H3 H4]. split; rewrite ?E1, ?E2, ?E3, ?E4, ?E5; auto. intros Hlt. apply H4. lia. Qed.

Lemma sched_round_ok todo : ∀ m steps p s did, wf s → fs_order s = todo ++ did → steps <= m →
  ∃ served s', round (length todo) m steps p s = (Ok (steps + Z.of_nat (length served), p || negb (bool_decide (served = []))), s') ∧
    wf s' ∧ fs_order s' = did ++ todo ∧ fs_quotas s' = fs_quotas s ∧ fs_completed s' = fs_completed s ++ served ∧
    steps + Z.of_nat (length served) <= m ∧ (∀ j, j ∈ served → j_tenant j ∈ todo) ∧
    (∀ u, u ∉ todo → queue s' u = queue s u ∧ credit s' u = credit s u) ∧
    (∀ t, t ∈ todo → advance m (steps + Z.of_nat (length served)) s s' t (of_tenant t served)).
Proof.
  induction todo as [|t rest IH]; intros m steps p s did HW Ho Hs.
  - exists [], s. cbn [length round]. rewrite Z.add_0_r, orb_false_r, !app_nil_r. cbn in Ho.
    split_and!; try done; intros ? H; by apply not_elem_of_nil in H.
  - pose proof (wf_order _ HW) as Hnd. rewrite Ho in Hnd. cbn in Hnd. apply NoDup_cons in Hnd as [Htn Hnd].
    apply not_elem_of_app in Htn as [Htr _].
    destruct (turn_ok m steps p s t (rest ++ did) HW Ho Hs) as (sv1 & s1 & E1 & HW1 & Ho1 & Hq1 & Hc1 & Hl1 & Ht1 & Hu1 & Ha1).
    destruct (IH m (steps + Z.of_nat (length sv1)) (p || negb (bool_decide (sv1 = []))) s1 (did ++ [t]) HW1) as (sv2 & s2 & E2 & HW2 & Ho2 & Hq2 & Hc2 & Hl2 & Ht2 & Hu2 & Ha2);
      [by rewrite Ho1, app_assoc|done|].
    exists (sv1 ++ sv2), s2. cbn [length round]. unfold mbind, SM_bind. rewrite E1. cbn iota beta. rewrite E2.
    rewrite length_app, Nat2Z.inj_add, Z.add_assoc.
    split_and!; try done.
    + do 3 f_equal. rewrite <- orb_assoc. f_equal. clear. by destruct sv1, sv2.
    + rewrite Ho2, <- app_assoc. done.
    + congruence.
    + by rewrite Hc2, Hc1, app_assoc.
    + intros j [Hj|Hj]%elem_of_app; [rewrite (Ht1 _ Hj); left|right; auto].
    + intros u [Hut Hur]%not_elem_of_cons. destruct (Hu1 u Hut) as [<- <-]. by apply Hu2.
    + intros u Hu. rewrite of_tenant_app. assert (Hquota : ∀ x, quota_of s1 x = quota_of s x) by (intros x; unfold quota_of; by rewrite Hq1).
      apply elem_of_cons in Hu as [->|Hu].
      * rewrite (of_tenant_all t sv1) by done. rewrite (of_tenant_none t sv2), app_nil_r.
        2: { intros j Hj <-. by apply Htr, Ht2. }
        destruct (Hu2 t Htr) as [Ha Hb]. eapply advance_view; [..|exact Ha1]; try done. lia.
      * assert (Hne : u ≠ t) by (intros ->; done). rewrite (of_tenant_none u sv1) by (intros j Hj; rewrite (Ht1 _ Hj); congruence).
        destruct (Hu1 u Hne) as [Ha Hb]. eapply advance_view; [..|exact (Ha2 u Hu)]; auto; lia.
Qed.

(** The [for] over the whole order serves every tenant once and leaves the
    order as it was. *)
Lemma full_round_ok m steps p s : wf s → steps <= m →
  ∃ served s', round (length (fs_order s)) m steps p s = (Ok (steps + Z.of_nat (length served), p || negb (bool_decide (served = []))), s') ∧
    wf s' ∧ fs_order s' = fs_order s ∧ fs_quotas s' = fs_quotas s ∧ fs_completed s' = fs_completed s ++ served ∧
    steps + Z.of_nat (length served) <= m ∧ (∀ j, j ∈ served → j_tenant j ∈ fs_order s) ∧
    (∀ t, t ∈ fs_order s → advance m (steps + Z.of_nat (length served)) s s' t (of_tenant t served)).
Proof.
  intros HW Hs. destruct (sched_round_ok (fs_order s) m steps p s [] HW) as (sv & s' & H1 & H2 & H3 & H4 & H5 & H6 & H7 & H8 & H9);
    [by rewrite app_nil_r|done|]. exists sv, s'. by split_and!.
Qed.

(** ** Demand *)
Lemma cost_nonneg l : (∀ j, j ∈ l → 1 <= j_cost j) → 0 <= cost l.
Proof.
  intros H. induction l as [|j l IH]; cbn; [lia|]. pose proof (H j ltac:(left)). enough (0 <= cost l) by (unfold cost in *; lia).
  apply IH. intros x Hx. apply H. by right.
Qed.

Lemma demand_advance m steps s s' t mine :
  wf s → wf s' → steps < m → advance m steps s s' t mine →
  (demand s' t <= demand s t)%nat ∧ (queue s t ≠ [] → demand s' t < demand s t)%nat.
Proof.
  intros HW HW' Hlt [H1 H2 H3 H4]. unfold demand. pose proof (wf_quota _ HW t) as Hq.
  destruct (decide (queue s t = [])) as [He|He].
  - rewrite He in H1. symmetry in H1. apply app_eq_nil in H1 as [_ H1]. rewrite He, H1. rewrite !bool_decide_true by done. split; [lia|done].
  - rewrite (bool_decide_false (queue s t = [])) by done. case_bool_decide as He'; [split; intros; lia|].
    specialize (H3 He'). destruct (queue s' t) as [|j rest] eqn:Eq; [done|]. specialize (H4 Hlt j rest eq_refl).
    rewrite H1, cost_app. assert (Hc : 0 <= cost rest).
    { apply cost_nonneg. intros x Hx. apply (wf_jobs _ HW' t). rewrite Eq. by right. }
    unfold cost in *. cbn [foldr] in *.
    split; intros; lia.
Qed.

(** ** The run *)
Record ran (s s' : FairScheduler) (served : list Job) : Prop := {
  ran_wf : wf s';
  ran_order : fs_order s' = fs_order s;
  ran_quotas : fs_quotas s' = fs_quotas s;
  ran_completed : fs_completed s' = fs_completed s ++ served;
  ran_known : ∀ j, j ∈ served → j_tenant j ∈ fs_order s;
  ran_fifo : ∀ t, t ∈ fs_order s → queue s t = of_tenant t served ++ queue s' t
}.

Lemma ran_refl s : wf s → ran s s [].
Proof. intros HW. split; try done; [by rewrite app_nil_r|]. intros j Hj. by apply not_elem_of_nil in Hj. Qed.

Lemma ran_trans s1 s2 s3 l k : ran s1 s2 l → ran s2 s3 k → ran s1 s3 (l ++ k).
Proof.
  intros [A1 A2 A3 A4 A5 A6] [B1 B2 B3 B4 B5 B6]. split; try done; try congruence.
  - by rewrite B4, A4, app_assoc.
  - intros j [?|Hj]%elem_of_app; [auto|]. rewrite <- A2. auto.
  - intros t Ht. rewrite of_tenant_app, <- app_assoc, <- B6, <- A6 by (rewrite ?A2; done). done.
Qed.

Lemma any_pending_ok s order :
  (∀ t, t ∈ order → is_Some (fs_queues s !! t)) →
  (any_pending (fs_queues s) order = Ok true ∧ ∃ t, t ∈ order ∧ queue s t ≠ []) ∨
  (any_pending (fs_queues s) order = Ok false ∧ ∀ t, t ∈ order → queue s t = []).
Proof.
  induction order as [|t order IH]; intros H; cbn.
  - right. split; [done|]. intros t Ht. by apply not_elem_of_nil in Ht.
  - destruct (H t ltac:(left)) as [q Hq]. assert (Hqt : queue s t = q) by (unfold queue; by rewrite Hq).
    rewrite Hq. cbn. case_bool_decide as He; subst q.
    + destruct IH as [(-> & u & Hu & Hne)|[-> Hall]]; [intros u Hu; apply H; by right| |].
      * left. split; [done|]. exists u. split; [by right|done].
      * right. split; [done|]. intros u [->|Hu]%elem_of_cons; auto.
    + left. split; [done|]. exists t. split; [left|done].
Qed.

Lemma sum_list_lt (f g : pystr → nat) l t :
  (∀ u, u ∈ l → (f u <= g u)%nat) → t ∈ l → (f t < g t)%nat → (sum_list (f <$> l) < sum_list (g <$> l))%nat.
Proof.
  intros Hle Hin Hlt. apply list_elem_of_split in Hin as (l1 & l2 & ->). rewrite !fmap_app, !sum_list_with_app. cbn.
  assert (H : ∀ k, (∀ u, u ∈ k → f u <= g u)%nat → (sum_list (f <$> k) <= sum_list (g <$> k))%nat).
  { intros k Hk. induction k as [|x k IH]; cbn; [lia|]. pose proof (Hk x ltac:(left)).
    assert (sum_list (f <$> k) <= sum_list (g <$> k))%nat; [|lia]. apply IH. intros u Hu. apply Hk. by right. }
  pose proof (H l1 ltac:(intros; apply Hle; apply elem_of_app; by left)).
  pose proof (H l2 ltac:(intros; apply Hle; apply elem_of_app; right; by right)). lia.
Qed.

Definition exceeded : exn := ContractError "scheduler exceeded max_steps".

Lemma sched_loop_eq fuel m steps s :
  run_loop (S fuel) m steps s =
  match any_pending (fs_queues s) (fs_order s) with
  | Raise e => (Raise e, s)
  | Ok false => (Ok (fs_completed s), s)
  | Ok true =>
      match round (length (fs_order s)) m steps false s with
      | (Ok (steps', progressed), s1) =>
          if negb progressed && (m <=? steps') then (Raise exceeded, s1) else run_loop fuel m steps' s1
      | (Raise e, s1) => (Raise e, s1)
      end
  end.
Proof.
  cbn [run_loop]. unfold sm_get, sm_lift, mbind, SM_bind. destruct (any_pending _ _) as [[]|]; [|done..].
  destruct (round _ _ _ _ s) as [[[steps' p]|] s1]; [|done]. by destruct (negb p && (m <=? steps')).
Qed.

Lemma sched_loop_ok fuel : ∀ m steps s, wf s → steps <= m → (1 <= fuel)%nat → (steps < m → (total_demand s < fuel)%nat) →
  ∃ served s', ran s s' served ∧
    ((run_loop fuel m steps s = (Ok (fs_completed s'), s') ∧ (∀ t, t ∈ fs_order s → queue s' t = []) ∧ steps + Z.of_nat (length served) <= m) ∨
     (run_loop fuel m steps s = (Raise exceeded, s') ∧ (∃ t, t ∈ fs_order s ∧ queue s' t ≠ []) ∧ steps + Z.of_nat (length served) = m)).
Proof.
  induction fuel as [|fuel IH]; intros m steps s HW Hs Hf Hd; [lia|].
  rewrite sched_loop_eq.
  destruct (any_pending_ok s (fs_order s)) as [(-> & t & Ht & Hne)|[-> Hall]]; [intros t; apply (wf_keys _ HW)| |].
  2: { exists [], s. split; [by apply ran_refl|]. left. cbn [length]. split_and!; [done|done|lia]. }
  destruct (full_round_ok m steps false s HW Hs) as (sv & s1 & E1 & HW1 & Ho1 & Hq1 & Hc1 & Hl1 & Hk1 & Ha1).
  assert (Hran : ran s s1 sv) by (split; try done; intros u Hu; apply (Ha1 u Hu)).
  rewrite E1, orb_false_l.
  destruct (decide (sv = [])) as [->|Hsv].
  - rewrite bool_decide_true by done. cbn [negb andb length] in *. rewrite Z.add_0_r in *. destruct (Z.leb_spec m steps) as [Hm|Hm].
    + exists [], s1. split; [done|]. right. split_and!; [done| |cbn; lia]. exists t. split; [done|].
      intros He. apply Hne. rewrite (ad_queue _ _ _ _ _ _ (Ha1 t Ht)). cbn. done.
    + assert (Hdec : (total_demand s1 < total_demand s)%nat).
      { unfold total_demand. rewrite Ho1. apply sum_list_lt with t; [|done|].
        - intros u Hu. by eapply (demand_advance m), Ha1.
        - by eapply (demand_advance m); [..|by apply Ha1|]. }
      destruct (IH m steps s1 HW1 Hs) as (sv2 & s2 & Hran2 & Hor); [specialize (Hd Hm); lia|intros _; specialize (Hd Hm); lia|].
      exists sv2, s2. split; [by apply (ran_trans _ s1 _ [] sv2)|]. by rewrite Ho1 in Hor.
  - rewrite bool_decide_false by done. cbn [negb andb].
    assert (Hsm : steps < m) by (destruct sv; [done|cbn in *; lia]). specialize (Hd Hsm).
    assert (Hdec : steps + Z.of_nat (length sv) < m → (total_demand s1 < total_demand s)%nat).
    { intros Hlt. unfold total_demand. rewrite Ho1. apply sum_list_lt with t; [|done|].
      - intros u Hu. by eapply (demand_advance m), Ha1.
      - by eapply (demand_advance m); [..|by apply Ha1|]. }
    assert (Hpos : (1 <= total_demand s)%nat).
    { unfold total_demand. apply list_elem_of_split in Ht as (l1 & l2 & ->). rewrite fmap_app, sum_list_with_app. cbn.
      unfold demand at 2. rewrite bool_decide_false by done. lia. }
    destruct (IH m (steps + Z.of_nat (length sv)) s1 HW1 Hl1) as (sv2 & s2 & Hran2 & Hor); [lia|intros Hlt; specialize (Hdec Hlt); lia|].
    exists (sv ++ sv2), s2. split; [by apply (ran_trans _ s1)|]. rewrite Ho1 in Hor. rewrite length_app, Nat2Z.inj_add, Z.add_assoc. done.
Qed.

(** ** Reachable schedulers are well formed *)
Lemma quota_pos (quotas : dict Z) t :
  (∀ k n, dget k quotas = Some n → 1 <= n) → 1 <= default 1 (dget t quotas).
Proof. intros H. destruct (dget t quotas) as [n|] eqn:E; cbn; [eauto|lia]. Qed.

Lemma wf_new workers quotas s : FairScheduler_new workers quotas = Ok s → wf s.
Proof.
  unfold FairScheduler_new. destruct (workers <? 1); [done|]. cbn [mbind res_bind].
  intros (u & Hall & [= <-])%bind_Ok. split; cbn; try done.
  - constructor.
  - intros t. rewrite lookup_empty. split; intros H; [by apply not_elem_of_nil in H|by destruct H].
  - intros t H. by apply not_elem_of_nil in H.
  - intros t j. unfold queue. cbn. rewrite lookup_empty. intros H. by apply not_elem_of_nil in H.
  - intros t. apply quota_pos. intros k n Hk. apply dget_Some_elem in Hk. destruct u. apply for_all_Ok in Hall.
    rewrite Forall_forall in Hall. specialize (Hall _ Hk). cbn beta iota in Hall. apply bind_Ok in Hall as (x & _ & Hq).
    destruct (Z.ltb_spec n 1); [discriminate Hq|lia].
Qed.

Lemma wf_set_quota t n s s' : wf s → set_quota t n s = Ok s' → wf s'.
Proof.
  intros [H1 H2 H3 H4 H5]. unfold set_quota. intros (x & _ & Hq)%bind_Ok. destruct (Z.ltb_spec n 1); [discriminate Hq|].
  injection Hq as <-. split; try done. intros u. unfold quota_of. cbn. rewrite dget_dset. case_decide; [done|]. apply H5.
Qed.

Lemma wf_submit id t c j s : wf s → Job_new id t c = Ok j → wf (submit j s).
Proof.
  intros [H1 H2 H3 H4 H5] Hj. assert (Hc : 1 <= j_cost j).
  { unfold Job_new in Hj. apply bind_Ok in Hj as (? & _ & Hj). apply bind_Ok in Hj as (? & _ & Hj).
    destruct (Z.ltb_spec c 1); [discriminate Hj|]. by injection Hj as <-. }
  clear Hj. unfold submit. destruct (fs_queues s !! j_tenant j) as [q|] eqn:Hq.
  - assert (Hin : j_tenant j ∈ fs_order s) by (apply H2; by eexists). split; cbn; try done.
    + intros u. destruct (decide (u = j_tenant j)) as [->|Hu]; [rewrite lookup_insert_eq; split; [by eexists|done]|].
      rewrite lookup_insert_ne by done. apply H2.
    + intros u x. unfold queue. cbn. destruct (decide (u = j_tenant j)) as [->|Hu].
      * rewrite lookup_insert_eq. cbn. intros [Hx|Hx]%elem_of_app; [apply H4; unfold queue; by rewrite Hq|].
        apply list_elem_of_singleton in Hx as ->. done.
      * rewrite lookup_insert_ne by done. apply H4.
  - assert (Hn : j_tenant j ∉ fs_order s) by (intros Hin; apply H2 in Hin as [? ?]; congruence). split; cbn.
    + apply NoDup_app. split_and!; [done| |apply NoDup_singleton]. intros u Hu Hx. apply list_elem_of_singleton in Hx as ->. done.
    + intros u. rewrite elem_of_app, list_elem_of_singleton. destruct (decide (u = j_tenant j)) as [->|Hu].
      * rewrite lookup_insert_eq. split; [by eexists|by right].
      * rewrite lookup_insert_ne by done. rewrite <- H2. naive_solver.
    + intros u Hu. destruct (decide (u = j_tenant j)) as [->|Hne]; [rewrite lookup_insert_eq; exists 0; done|].
      rewrite lookup_insert_ne by done. apply H3. apply elem_of_app in Hu as [?|Hu]; [done|]. by apply list_elem_of_singleton in Hu.
    + intros u x. unfold queue. cbn. destruct (decide (u = j_tenant j)) as [->|Hu].
      * rewrite lookup_insert_eq. cbn. intros Hx. apply list_elem_of_singleton in Hx as ->. done.
      * rewrite lookup_insert_ne by done. apply H4.
    + intros u. unfold quota_of. cbn. destruct (dmem _ _); [apply H5|]. rewrite dget_dset. case_decide; [done|apply H5].
Qed.

Lemma run_until_idle_ok m s : wf s → 1 <= m →
  ∃ served s', ran s s' served ∧
    ((run_until_idle m s = (Ok (fs_completed s'), s') ∧ (∀ t, t ∈ fs_order s → queue s' t = []) ∧ Z.of_nat (length served) <= m) ∨
     (run_until_idle m s = (Raise exceeded, s') ∧ (∃ t, t ∈ fs_order s ∧ queue s' t ≠ []) ∧ Z.of_nat (length served) = m)).
Proof.
  intros HW Hm. unfold run_until_idle. destruct (Z.ltb_spec m 1); [lia|]. unfold sm_get, mbind, SM_bind.
  destruct (sched_loop_ok (S (total_demand s)) m 0 s HW) as (sv & s' & Hr & Hor); [lia|lia|intros _; lia|]. exists sv, s'. done.
Qed.

Lemma reachable_wf s : reachable s → wf s.
Proof.
  induction 1 as [w q s H|t n s s' _ IH H|id t c j s _ IH H|m s _ IH].
  - by eapply wf_new.
  - by eapply wf_set_quota.
  - by eapply wf_submit.
  - destruct (decide (1 <= m)) as [Hm|Hm].
    + destruct (run_until_idle_ok m s IH Hm) as (sv & s' & Hr & [[-> _]|[-> _]]); apply Hr.
    + unfold run_until_idle. destruct (Z.ltb_spec m 1); [done|lia].
Qed.

Lemma mjoin_app_perm {A B} (f g : A → list B) l : mjoin ((λ t, f t ++ g t) <$> l) ≡ₚ mjoin (f <$> l) ++ mjoin (g <$> l).
Proof.
  induction l as [|x l IH]; cbn; [done|]. rewrite IH, <- !app_assoc. apply Permutation_app_head. rewrite !app_assoc. apply Permutation_app_tail, Permutation_app_comm.
Qed.

(** The queued jobs are the served ones and those still queued. *)
Lemma ran_perm s s' served : wf s → ran s s' served →
  mjoin (queue s <$> fs_order s) ≡ₚ served ++ mjoin (queue s' <$> fs_order s).
Proof.
  intros HW [_ _ _ _ Hk Hf]. transitivity (mjoin ((λ t, of_tenant t served ++ queue s' t) <$> fs_order s)).
  - match goal with |- ?a ≡ₚ ?b => cut (a = b); [by intros ->|] end. f_equal. apply list_fmap_ext. intros i t Ht. apply Hf. by eapply list_elem_of_lookup_2.
  - rewrite mjoin_app_perm. f_equiv. apply of_tenants_perm; [by apply wf_order|done].
Qed.

Lemma queue_unknown s t : wf s → t ∉ fs_order s → queue s t = [].
Proof.
  intros HW Ht. unfold queue. destruct (fs_queues s !! t) as [q|] eqn:E; [|done]. exfalso. apply Ht, (wf_keys _ HW). by eexists.
Qed.

Definition queued (s : FairScheduler) : list Job := mjoin (queue s <$> fs_order s).

(** [run_until_idle] terminates and drains: on every scheduler built and
    used through its operations, jobs run in their tenant's submission order
    and each at most once; when no more than [max_steps] jobs are queued, the
    call returns and every queued job has been completed exactly once;
    otherwise it raises after exactly [max_steps] jobs, with the others still
    queued. *)
Theorem run_until_idle_drains (s : FairScheduler) (max_steps : Z) :
  reachable s → 1 <= max_steps →
  ∃ served s',
    fs_completed s' = fs_completed s ++ served ∧
    (∀ t, queue s t = of_tenant t served ++ queue s' t) ∧
    (Z.of_nat (length (queued s)) <= max_steps →
      run_until_idle max_steps s = (Ok (fs_completed s'), s') ∧ served ≡ₚ queued s ∧ ∀ t, queue s' t = []) ∧
    (max_steps < Z.of_nat (length (queued s)) →
      run_until_idle max_steps s = (Raise (ContractError "scheduler exceeded max_steps"), s') ∧
      Z.of_nat (length served) = max_steps).
Proof.
  intros HR Hm. pose proof (reachable_wf _ HR) as HW. destruct (run_until_idle_ok max_steps s HW Hm) as (sv & s' & Hran & Hor).
  exists sv, s'. pose proof (ran_perm _ _ _ HW Hran) as Hperm. pose proof (ran_wf _ _ _ Hran) as HW'.
  pose proof (Permutation_length Hperm) as Hlen. rewrite length_app in Hlen. fold (queued s) in Hperm, Hlen.
  assert (Hout : ∀ t, t ∉ fs_order s → queue s t = [] ∧ queue s' t = []).
  { intros t Ht. split; apply queue_unknown; try done. by rewrite (ran_order _ _ _ Hran). }
  split; [apply Hran|]. split.
  { intros t. destruct (decide (t ∈ fs_order s)) as [Hin|Hin]; [by apply Hran|]. destruct (Hout t Hin) as [-> ->].
    rewrite of_tenant_none; [done|]. intros j Hj <-. by apply Hin, Hran. }
  destruct Hor as [(Hrun & Hempty & Hle)|(Hrun & (t & Ht & Hne) & Heq)].
  - rewrite (mjoin_nil (queue s')) in Hperm, Hlen by done. rewrite app_nil_r in Hperm. cbn in Hlen. split; [|lia].
    intros _. split_and!; [done|done|]. intros t. destruct (decide (t ∈ fs_order s)) as [Hin|Hin]; [by apply Hempty|by apply Hout].
  - assert (1 <= length (mjoin (queue s' <$> fs_order s)))%nat; [|split; [lia|done]].
    apply list_elem_of_split in Ht as (l1 & l2 & ->). rewrite fmap_app, join_app. cbn. rewrite !length_app.
    destruct (queue s' t); [done|cbn; lia].
Qed.

(** ** Fairness *)
(** The body of the outer [while], [k] times. *)
Fixpoint rounds (k : nat) (max_steps steps : Z) : SM FairScheduler Z :=
  match k with
  | O => mret steps
  | S k => s ← sm_get;
           '(steps, _) ← round (length (fs_order s)) max_steps steps false;
           rounds k max_steps steps
  end.

Lemma rounds_ok k : ∀ m steps s, wf s → steps <= m →
  ∃ served s', rounds k m steps s = (Ok (steps + Z.of_nat (length served)), s') ∧ ran s s' served ∧
    (steps + Z.of_nat (length served) < m → ∀ t j rest, t ∈ fs_order s → queue s' t = j :: rest → (0 < k)%nat →
      cost (of_tenant t served) + credit s' t = credit s t + Z.of_nat k * quota_of s t ∧ credit s' t < j_cost j).
Proof.
  induction k as [|k IH]; intros m steps s HW Hs.
  - exists [], s. cbn [rounds length]. rewrite Z.add_0_r. split_and!; [done|by apply ran_refl|lia].
  - destruct (full_round_ok m steps false s HW Hs) as (sv & s1 & E1 & HW1 & Ho1 & Hq1 & Hc1 & Hl1 & Hk1 & Ha1).
    assert (Hran : ran s s1 sv) by (split; try done; intros u Hu; apply (Ha1 u Hu)).
    destruct (IH m _ s1 HW1 Hl1) as (sv2 & s2 & E2 & Hran2 & Hfair). exists (sv ++ sv2), s2.
    rewrite length_app, Nat2Z.inj_add, Z.add_assoc. split_and!.
    + cbn [rounds]. unfold sm_get, mbind, SM_bind. rewrite E1. done.
    + by apply (ran_trans _ s1).
    + intros Hlt t j rest Ht Hq _. pose proof (Ha1 t Ht) as [A1 A2 A3 A4].
      assert (Hne : queue s1 t ≠ []).
      { rewrite (ran_fifo _ _ _ Hran2 t) by (by rewrite Ho1). rewrite Hq. by destruct (of_tenant t sv2). }
      specialize (A3 Hne). rewrite of_tenant_app, cost_app. destruct k as [|k].
      * cbn in E2. injection E2 as Hlen <-. rewrite (of_tenant_none t sv2).
        2: { intros x Hx. destruct sv2; [by apply not_elem_of_nil in Hx|]. cbn in Hlen. lia. }
        cbn [cost foldr]. split; [lia|]. eapply A4; [|done]. lia.
      * destruct (Hfair ltac:(lia) t j rest) as [B1 B2]; [by rewrite Ho1|done|lia|]. unfold quota_of in *. rewrite Hq1 in B1. split; [lia|done].
Qed.

(** C36: Deficit round-robin is fair and starves nobody: over any [k] rounds of
    a scheduler built and used through its operations, a tenant that still has
    work queued (and while the step limit is not reached) has been served its
    credit plus exactly [k] quotas, less a remainder smaller than the cost of
    the next job in its queue -- whatever the other tenants submitted. *)
Theorem drr_fair (s s' : FairScheduler) (k : nat) (max_steps steps : Z) (t : pystr) (next : Job) (rest : list Job) :
  reachable s → 1 <= max_steps → rounds k max_steps 0 s = (Ok steps, s') → steps < max_steps → (0 < k)%nat →
  queue s' t = next :: rest →
  ∃ served, fs_completed s' = fs_completed s ++ served ∧
    cost (of_tenant t served) = credit s t + Z.of_nat k * quota_of s t - credit s' t ∧
    0 <= credit s' t < j_cost next.
Proof.
  intros HR Hm Hrun Hlt Hk Hq. pose proof (reachable_wf _ HR) as HW.
  destruct (rounds_ok k max_steps 0 s HW) as (sv & s1 & E & Hran & Hfair); [lia|]. rewrite E in Hrun. injection Hrun as <- <-.
  exists sv. split; [apply Hran|]. assert (Ht : t ∈ fs_order s1).
  { destruct (decide (t ∈ fs_order s1)) as [?|Hn]; [done|]. rewrite queue_unknown in Hq by (done || apply Hran). done. }
  destruct (wf_credit _ (ran_wf _ _ _ Hran) t Ht) as (d & Hd & Hd0). rewrite (ran_order _ _ _ Hran) in Ht.
  destruct (Hfair Hlt t next rest Ht Hq Hk) as [H1 H2]. assert (credit s1 t = d) by (unfold credit; by rewrite Hd). lia.
Qed.

(** Two tenants: [a] with quota 2 and jobs of cost 1 and 3, [b] with quota 1 and
    jobs of cost 2 and 1. *)
Definition demo_job (id tenant : string) (c : Z) : Job := mkJob (str id) (str tenant) c.
Definition demo_new : FairScheduler := mkScheduler 1 [(str "a", 2)] ∅ ∅ [] [].
Definition demo_jobs : list Job := [demo_job "j1" "a" 1; demo_job "j2" "a" 3; demo_job "j3" "b" 2; demo_job "j4" "b" 1].
Definition demo : FairScheduler := foldl (λ s j, submit j s) demo_new demo_jobs.

Lemma demo_reachable : reachable demo.
Proof.
  unfold demo, demo_jobs. cbn [foldl].
  do 4 (match goal with |- reachable (submit ?j _) => apply (reach_submit (j_id j) (j_tenant j) (j_cost j)); [|vm_compute; reflexivity] end).
  eapply (reach_new 1 [(str "a", 2)]). vm_compute. reflexivity.
Defined.

Lemma run_until_idle_drains_witness :
  (∃ s', run_until_idle 4 demo = (Ok (fs_completed s'), s') ∧ fs_completed s' ≡ₚ queued demo) ∧
  (∃ s', run_until_idle 3 demo = (Raise (ContractError "scheduler exceeded max_steps"), s') ∧ length (fs_completed s') = 3%nat).
Proof.
  split.
  - destruct (run_until_idle_drains demo 4 demo_reachable) as (sv & s' & Hc & _ & H & _); [lia|].
    destruct H as (H & Hp & _); [vm_compute; discriminate|]. exists s'. split; [exact H|]. rewrite Hc. exact Hp.
  - destruct (run_until_idle_drains demo 3 demo_reachable) as (sv & s' & Hc & _ & _ & H); [lia|].
    destruct H as (H & Hl); [vm_compute; reflexivity|]. exists s'. split; [exact H|]. rewrite Hc.
    replace (fs_completed demo) with (@nil Job) by (vm_compute; reflexivity). cbn [app]. lia.
Defined.

Lemma drr_fair_witness :
  let s' := (rounds 1 4 0 demo).2 in
  queue s' (str "a") = [demo_job "j2" "a" 3] ∧
  ∃ served, fs_completed s' = fs_completed demo ++ served ∧
    cost (of_tenant (str "a") served) = credit demo (str "a") + 1 * quota_of demo (str "a") - credit s' (str "a").
Proof.
  intros s'. assert (Hq : queue s' (str "a") = [demo_job "j2" "a" 3]) by (vm_compute; reflexivity). split; [exact Hq|].
  destruct (drr_fair demo s' 1 4 1 (str "a") (demo_job "j2" "a" 3) []) as (sv & Hc & Hcost & _);
    [exact demo_reachable|lia|vm_compute; reflexivity|lia|lia|exact Hq|]. exists sv. split; [exact Hc|exact Hcost].
Defined.
