(* ===== verification/Isolation.v ===== *)
(** * Tenant isolation and policy layers
    (residual/tenancy/isolation.py, residual/tenancy/policies.py)

    The data-layer boundary between tenants: principals, federation agreements
    and the store they guard; and the policy a tenant may put on top of the
    platform's floors.  Records are Python dicts on a heap: [put], [get] and [query]
    copy the dict of a record and share the objects nested in it, and a tenant may
    change every object it has a reference to. *)

From Stdlib Require Import ZArith NArith Lia SpecFloat.
From S2P Require Import Prelude PyData Sha256 PyFloat Json JsonFacts Core CoreFacts.

Record Principal : Type := mkPrincipal { p_tenant : pystr; p_admin : bool }.

Definition Principal_new (tenant_id : pystr) (admin : bool) : res Principal :=
  _ ← identifier tenant_id; Ok (mkPrincipal tenant_id admin).

Record FederationAgreement : Type := mkFederation {
  fa_grantor : pystr;
  fa_grantee : pystr;
  fa_resources : list pystr;
  fa_bilateral : bool
}.

Definition FederationAgreement_new (a : FederationAgreement) : res FederationAgreement :=
  _ ← identifier (fa_grantor a);
  _ ← identifier (fa_grantee a);
  when bool_decide (fa_grantor a = fa_grantee a) raise ContractError "federation requires two distinct tenants";;
  when bool_decide (fa_resources a = []) || bool_decide ([] ∈ fa_resources a)
    raise ContractError "federation resources must be non-empty strings";;
  when negb (fa_bilateral a) raise ContractError "federation agreement must be bilateral";;
  Ok a.

Definition covers (a : FederationAgreement) (grantor grantee resource : pystr) : bool :=
  bool_decide (fa_grantor a = grantor) && bool_decide (fa_grantee a = grantee) && bool_decide (resource ∈ fa_resources a).

(** ** Objects *)
(** An object is known by the operation that made it: the [n]th object a tenant got
    hold of, or the [n]th copy [put] made for the store. *)
Inductive Loc : Type := LHeld (tenant : pystr) (n : nat) | LStored (n : nat).
#[export] Instance Loc_eq_dec : EqDecision Loc.
Proof. solve_decision. Defined.
#[export] Instance Loc_countable : Countable Loc.
Proof.
  refine (inj_countable' (λ l, match l with LHeld t n => inl (t, n) | LStored n => inr n end)
    (λ x, match x with inl (t, n) => LHeld t n | inr n => LStored n end) _). by intros [].
Defined.

(** What a dict (or, with its positions as keys, a list) holds under a key: an
    immutable value or a reference. *)
Inductive value : Type := VAtom (a : json) | VRef (l : Loc).
Abbreviation object := (dict value).

(** The records of every owner, in insertion order, are references into the heap. *)
Record TenantStore : Type := mkTenantStore {
  ts_data : gmap pystr (dict Loc);
  ts_agreements : list FederationAgreement;
  ts_heap : gmap Loc object;
  ts_copies : nat;
  ts_handles : gmap pystr (list Loc)  (* the references a tenant has *)
}.
Definition TenantStore_new : TenantStore := mkTenantStore ∅ [] ∅ 0 ∅.

Definition add_federation (agreement : FederationAgreement) (s : TenantStore) : TenantStore :=
  mkTenantStore (ts_data s) (ts_agreements s ++ [agreement]) (ts_heap s) (ts_copies s) (ts_handles s).

Definition handles (t : pystr) (s : TenantStore) : list Loc := default [] (ts_handles s !! t).
(** The tenant gets a reference. *)
Definition hold_ref (t : pystr) (l : Loc) (s : TenantStore) : TenantStore :=
  mkTenantStore (ts_data s) (ts_agreements s) (ts_heap s) (ts_copies s) (<[t := handles t s ++ [l]]> (ts_handles s)).
Definition write_object (l : Loc) (o : object) (s : TenantStore) : TenantStore :=
  mkTenantStore (ts_data s) (ts_agreements s) (<[l := o]> (ts_heap s)) (ts_copies s) (ts_handles s).
(** A new object in the hands of the tenant. *)
Definition give (t : pystr) (o : object) (s : TenantStore) : TenantStore :=
  let l := LHeld t (length (handles t s)) in hold_ref t l (write_object l o s).

(** [_authorize] *)
Definition authorize (s : TenantStore) (principal : Principal) (owner key : pystr) (write : bool) : res unit :=
  _ ← identifier owner;
  if bool_decide (p_tenant principal = owner) then Ok tt
  else
    when write raise ContractError "cross-tenant writes are never permitted (ENT3-R2)";;
    when negb (existsb (λ a, covers a owner (p_tenant principal) key) (ts_agreements s))
      raise ContractError "cross-tenant access denied: no federation agreement (ENT3-R2)";;
    Ok tt.

(** [value] is a reference to a dict, or anything else. *)
Definition put (principal : Principal) (owner key : pystr) (value_ : value) (s : TenantStore) : res TenantStore :=
  match value_ with
  | VRef l =>
      record ← of_option (ContractError "stored value must be a mapping") (ts_heap s !! l);
      _ ← authorize s principal owner key true;
      let copy := LStored (ts_copies s) in
      Ok (mkTenantStore (<[owner := dset key copy (default [] (ts_data s !! owner))]> (ts_data s)) (ts_agreements s)
            (<[copy := record]> (ts_heap s)) (S (ts_copies s)) (ts_handles s))
  | VAtom _ => Raise (ContractError "stored value must be a mapping")
  end.

(** [self._data[owner][key]] *)
Definition record_at (s : TenantStore) (owner key : pystr) : option object :=
  l ← ts_data s !! owner ≫= dget key; ts_heap s !! l.
(** [self._data.get(owner, {})] with the dicts of its records *)
Definition records (s : TenantStore) (owner : pystr) : dict object :=
  prod_map id (λ l, default [] (ts_heap s !! l)) <$> default [] (ts_data s !! owner).

(** [get]: the caller holds the new dict. *)
Definition get (principal : Principal) (owner key : pystr) (s : TenantStore) : res (object * TenantStore) :=
  _ ← authorize s principal owner key false;
  record ← of_option (ContractError "no such record") (record_at s owner key);
  Ok (record, give (p_tenant principal) record s).

(** [query]: the caller holds the new dicts of the records. *)
Definition query_owner (principal : Principal) (owner : pystr) (s : TenantStore) : res (dict object * TenantStore) :=
  _ ← identifier owner;
  when negb (bool_decide (p_tenant principal = owner))
    raise ContractError "cross-tenant query denied: no federation agreement (ENT3-R2)";;
  Ok (records s owner, foldl (λ s r, give (p_tenant principal) r s) s (records s owner).*2).

(** ** Policy layers *)
(** [isinstance(v, (int, float)) and not isinstance(v, bool)] *)
Definition number (v : json) : option num :=
  match v with JInt z => Some (NInt z) | JFloat f => Some (NFloat f) | _ => None end.

Record PlatformFloors : Type := mkFloors {
  pf_brake : num;
  pf_verification : Z;
  pf_quarantine : gset pystr
}.
Definition PlatformFloors_new (brake_floor : json) (verification_minimum : Z) (default_quarantine : gset pystr) : res PlatformFloors :=
  brake ← of_option (ContractError "brake floor must be numeric") (number brake_floor);
  when num_leb brake (NInt 0) raise ContractError "brake floor must be positive";;
  when (verification_minimum <? 1)%Z raise ContractError "verification minimum must be a positive integer";;
  when bool_decide ([] ∈ default_quarantine) raise ContractError "default quarantine policies must be non-empty strings";;
  Ok (mkFloors brake verification_minimum default_quarantine).

Record TenantPolicy : Type := mkPolicyLayer {
  tp_tenant : pystr;
  tp_brake : num;
  tp_verification : Z;
  tp_quarantine : gset pystr;
  tp_allow : gset pystr;
  tp_deny : gset pystr
}.
Definition TenantPolicy_new (tenant_id : pystr) (brake_threshold : json) (verification_level : Z)
    (quarantine allow deny : gset pystr) : res TenantPolicy :=
  _ ← identifier tenant_id;
  brake ← of_option (ContractError "brake threshold must be a positive number") (number brake_threshold);
  when num_leb brake (NInt 0) raise ContractError "brake threshold must be a positive number";;
  when (verification_level <? 1)%Z raise ContractError "verification level must be a positive integer";;
  when bool_decide ([] ∈ quarantine) || bool_decide ([] ∈ allow) || bool_decide ([] ∈ deny)
    raise ContractError "entries must be non-empty strings";;
  when negb (bool_decide (allow ∩ deny = ∅)) raise ContractError "module cannot be both allowed and denied";;
  Ok (mkPolicyLayer tenant_id brake verification_level quarantine allow deny).

Definition validate_policy (policy : TenantPolicy) (floors : PlatformFloors) : res TenantPolicy :=
  when num_ltb (pf_brake floors) (tp_brake policy) raise ContractError "brake threshold loosens the platform floor (ENT3-R5)";;
  when (tp_verification policy <? pf_verification floors)%Z raise ContractError "verification level below the platform minimum (ENT3-R5)";;
  when negb (bool_decide (pf_quarantine floors ∖ tp_quarantine policy = ∅))
    raise ContractError "tenant dropped platform quarantine policies (ENT3-R5)";;
  Ok policy.

(** ** Sequences of operations *)
(** What a tenant writes into an object: an immutable value or one of its references. *)
Inductive entry : Type := EAtom (a : json) | EHandle (i : nat).
Definition value_of (t : pystr) (s : TenantStore) (e : entry) : value :=
  match e with
  | EAtom a => VAtom a
  | EHandle i => match handles t s !! i with Some l => VRef l | None => VAtom JNull end
  end.

(** A dict the tenant writes down. *)
Definition literal (t : pystr) (s : TenantStore) (r : dict entry) : object := prod_map id (value_of t s) <$> r.

(** [OPutNew]: the tenant makes a dict, keeps it and puts it; [OPut] puts a dict it
    holds, whoever gave it.  [OSet] changes an object the tenant holds, [OOpen] takes
    a reference out of one, [OLook] reads one. *)
Inductive sop : Type :=
| OPutNew (p : Principal) (owner key : pystr) (record : dict entry)
| OPut (p : Principal) (owner key : pystr) (i : nat)
| OPutAtom (p : Principal) (owner key : pystr) (a : json)
| OGet (p : Principal) (owner key : pystr)
| OQuery (p : Principal) (owner : pystr)
| OSet (t : pystr) (i : nat) (key : pystr) (e : entry)
| OOpen (t : pystr) (i : nat) (key : pystr)
| OLook (t : pystr) (i : nat)
| OFederate (a : FederationAgreement).

(** What the caller of an operation sees. *)
Inductive sout : Type :=
| RDone
| RRecord (r : object)
| RRecords (r : dict object).

Definition held (t : pystr) (i : nat) (s : TenantStore) : option (Loc * object) :=
  l ← handles t s !! i; o ← ts_heap s !! l; Some (l, o).
Definition nothing : res sout := Raise (IndexError "no such object").

Definition sexec (op : sop) (s : TenantStore) : res sout * TenantStore :=
  match op with
  | OPutNew p o k r =>
      let l := LHeld (p_tenant p) (length (handles (p_tenant p) s)) in
      let s := give (p_tenant p) (literal (p_tenant p) s r) s in
      match put p o k (VRef l) s with Ok s' => (Ok RDone, s') | Raise e => (Raise e, s) end
  | OPut p o k i =>
      match held (p_tenant p) i s with
      | Some (l, _) => match put p o k (VRef l) s with Ok s' => (Ok RDone, s') | Raise e => (Raise e, s) end
      | None => (nothing, s)
      end
  | OPutAtom p o k a => match put p o k (VAtom a) s with Ok s' => (Ok RDone, s') | Raise e => (Raise e, s) end
  | OGet p o k => match get p o k s with Ok (r, s') => (Ok (RRecord r), s') | Raise e => (Raise e, s) end
  | OQuery p o => match query_owner p o s with Ok (r, s') => (Ok (RRecords r), s') | Raise e => (Raise e, s) end
  | OSet t i k e =>
      match held t i s with Some (l, o) => (Ok RDone, write_object l (dset k (value_of t s e) o) s) | None => (nothing, s) end
  | OOpen t i k =>
      match held t i s with
      | Some (_, o) => match dget k o with Some (VRef l) => (Ok RDone, hold_ref t l s) | _ => (nothing, s) end
      | None => (nothing, s)
      end
  | OLook t i => match held t i s with Some (_, o) => (Ok (RRecord o), s) | None => (nothing, s) end
  | OFederate a => (Ok RDone, add_federation a s)
  end.

(** The tenant that acts; agreements are registered by the platform. *)
Definition actor (op : sop) : option pystr :=
  match op with
  | OPutNew p _ _ _ | OPut p _ _ _ | OPutAtom p _ _ _ | OGet p _ _ | OQuery p _ => Some (p_tenant p)
  | OSet t _ _ _ | OOpen t _ _ | OLook t _ => Some t
  | OFederate _ => None
  end.

(** An object without references, and a put of such a record. *)
Definition flat (o : object) : Prop := ∀ k l, (k, VRef l) ∉ o.
Definition flat_put (s : TenantStore) (op : sop) : Prop :=
  match op with
  | OPutNew _ _ _ r => Forall (λ ke, ∃ a, ke.2 = EAtom a) r
  | OPut p _ _ i => ∀ l r, held (p_tenant p) i s = Some (l, r) → flat r
  | _ => True
  end.

(** The answers a tenant gets during a run, and the store after it. *)
Fixpoint observes (t : pystr) (s : TenantStore) (ops : list sop) : list (res sout) :=
  match ops with
  | [] => []
  | op :: ops =>
      let '(r, s) := sexec op s in
      (if bool_decide (actor op = Some t) then [r] else []) ++ observes t s ops
  end.
Definition after (s : TenantStore) (ops : list sop) : TenantStore := foldl (λ s op, (sexec op s).2) s ops.

(** Every put of the run is of a record without nested objects. *)
Fixpoint flat_run (s : TenantStore) (ops : list sop) : Prop :=
  match ops with [] => True | op :: ops => flat_put s op ∧ flat_run (sexec op s).2 ops end.

Definition federations (ops : list sop) : list FederationAgreement :=
  omap (λ op, match op with OFederate a => Some a | _ => None end) ops.

(** The record an operation may write. *)
Definition target (op : sop) : option (pystr * pystr) :=
  match op with OPutNew _ o k _ | OPut _ o k _ => Some (o, k) | _ => None end.
(** An operation a tenant must not notice: whatever another tenant does, except
    writing a record some agreement shares with it. *)
Definition hidden (t : pystr) (shared : list FederationAgreement) (op : sop) : bool :=
  match op with
  | OFederate _ => false
  | _ => negb (bool_decide (actor op = Some t)) &&
         negb match target op with Some (o, k) => existsb (λ a, covers a o t k) shared | None => false end
  end.
(** A record without references, written down. *)
Definition spelled (r : object) : dict entry :=
  prod_map id (λ v, match v with VAtom a => EAtom a | VRef _ => EAtom JNull end) <$> r.
(** The run without the operations hidden from the tenant; where another tenant puts
    a dict it holds, it puts a new dict with the same entries. *)
Fixpoint purge (t : pystr) (shared : list FederationAgreement) (s : TenantStore) (ops : list sop) : list sop :=
  match ops with
  | [] => []
  | op :: ops =>
      (if hidden t shared op then []
       else if bool_decide (actor op = Some t) then [op]
       else match op with
            | OPut p o k i => match held (p_tenant p) i s with Some (_, r) => [OPutNew p o k (spelled r)] | None => [] end
            | _ => [op]
            end) ++ purge t shared (sexec op s).2 ops
  end.

(** ** Separation *)
(** An object that refers only to objects in the hands of a tenant. *)
Definition only (t : pystr) (o : object) : Prop := ∀ k l, (k, VRef l) ∈ o → ∃ n, l = LHeld t n.

Lemma flat_only t o : flat o → only t o.
Proof. intros H k l Hin. by destruct (H k l). Qed.
Lemma flat_nil : flat [].
Proof. intros k l. apply not_elem_of_nil. Qed.

(** References do not cross tenants or reach into the store. *)
Record separated (s : TenantStore) : Prop := {
  se_handles : ∀ t l, l ∈ handles t s → ∃ n, l = LHeld t n;
  se_refs : ∀ t n o, ts_heap s !! LHeld t n = Some o → only t o;
  se_flat : ∀ n o, ts_heap s !! LStored n = Some o → flat o;
  se_stored : ∀ o d k l, ts_data s !! o = Some d → (k, l) ∈ d → ∃ n, l = LStored n ∧ n < ts_copies s ∧ is_Some (ts_heap s !! l)
}.

Lemma separated_new : separated TenantStore_new.
Proof.
  split; unfold handles; cbn.
  - intros t l. rewrite lookup_empty. by intros ?%not_elem_of_nil.
  - intros t n o. by rewrite lookup_empty.
  - intros n o. by rewrite lookup_empty.
  - intros o d k l. by rewrite lookup_empty.
Qed.

(** The part of the state a tenant holds, and the part the store holds. *)
Record same_private (t : pystr) (s1 s2 : TenantStore) : Prop := {
  sp_handles : handles t s1 = handles t s2;
  sp_heap : ∀ n, ts_heap s1 !! LHeld t n = ts_heap s2 !! LHeld t n
}.
Record same_store (s1 s2 : TenantStore) : Prop := {
  ss_data : ts_data s1 = ts_data s2;
  ss_agreements : ts_agreements s1 = ts_agreements s2;
  ss_copies : ts_copies s1 = ts_copies s2;
  ss_heap : ∀ n, ts_heap s1 !! LStored n = ts_heap s2 !! LStored n
}.
#[export] Instance same_private_equivalence t : Equivalence (same_private t).
Proof. split; [done|by intros s1 s2 []|]. intros s1 s2 s3 [] []. split; [congruence|]. intros n. congruence. Qed.
#[export] Instance same_store_equivalence : Equivalence same_store.
Proof. split; [done|by intros s1 s2 []|]. intros s1 s2 s3 [] []. split; try congruence. Qed.

Lemma handles_hold t l u s : handles u (hold_ref t l s) = if decide (u = t) then handles t s ++ [l] else handles u s.
Proof.
  unfold handles at 1. cbn. case_decide as E; [subst; by rewrite lookup_insert_eq|by rewrite lookup_insert_ne by done].
Qed.

Lemma hold_ref_store t l s : same_store (hold_ref t l s) s.
Proof. done. Qed.
Lemma hold_ref_private t l s u : u ≠ t → same_private u (hold_ref t l s) s.
Proof. intros Hu. split; [|done]. rewrite handles_hold. by rewrite decide_False. Qed.
Lemma hold_ref_separated t n s : separated s → separated (hold_ref t (LHeld t n) s).
Proof.
  intros [H1 H2 H3 H4]. split; try done. intros u l. rewrite handles_hold. case_decide as E; [|apply H1].
  subst. rewrite elem_of_app, list_elem_of_singleton. intros [Hl| ->]; eauto.
Qed.

Lemma write_object_store t n o s : same_store (write_object (LHeld t n) o s) s.
Proof. split; try done. intros m. cbn. by rewrite lookup_insert_ne. Qed.
Lemma write_object_private t n o s u : u ≠ t → same_private u (write_object (LHeld t n) o s) s.
Proof. intros Hu. split; [done|]. intros m. cbn. rewrite lookup_insert_ne; [done|]. congruence. Qed.
Lemma write_object_separated t n o s : only t o → separated s → separated (write_object (LHeld t n) o s).
Proof.
  intros Ho [H1 H2 H3 H4]. split; cbn; try done.
  - intros u m x. destruct (decide (LHeld u m = LHeld t n)) as [[= -> ->]|Hne]; [rewrite lookup_insert_eq; by intros [= <-]|].
    rewrite lookup_insert_ne by done. apply H2.
  - intros m x. rewrite lookup_insert_ne by done. apply H3.
  - intros x d k l Hd Hl. destruct (H4 x d k l Hd Hl) as (m & -> & Hm & Hs). exists m. by rewrite lookup_insert_ne.
Qed.

Lemma give_store t o s : same_store (give t o s) s.
Proof. unfold give. etrans; [apply hold_ref_store|apply write_object_store]. Qed.
Lemma give_private t o s u : u ≠ t → same_private u (give t o s) s.
Proof. intros Hu. unfold give. etrans; [by apply hold_ref_private|by apply write_object_private]. Qed.
Lemma give_separated t o s : only t o → separated s → separated (give t o s).
Proof. intros Ho Hs. unfold give. by apply hold_ref_separated, write_object_separated. Qed.
Lemma give_same t o s1 s2 : same_private t s1 s2 → same_private t (give t o s1) (give t o s2).
Proof.
  intros [H1 H2]. unfold give. split.
  - rewrite !handles_hold, !decide_True by done. unfold handles in *. cbn. by rewrite H1.
  - intros n. cbn. rewrite H1. destruct (decide (LHeld t (length (handles t s2)) = LHeld t n)) as [->|Hne]; [by rewrite !lookup_insert_eq|].
    by rewrite !lookup_insert_ne.
Qed.

(** *** Records *)
Lemma dset_map {A B} (f : A → B) k v (d : dict A) : prod_map id f <$> dset k v d = dset k (f v) (prod_map id f <$> d).
Proof. induction d as [|[k' w] d IH]; [done|]. cbn. case_decide; [done|]. cbn. by rewrite <- IH. Qed.
Lemma dget_map {A B} (f : A → B) k (d : dict A) : dget k (prod_map id f <$> d) = f <$> dget k d.
Proof. induction d as [|[k' w] d IH]; [done|]. cbn. by case_decide. Qed.

Lemma elem_of_dset_or {A} (k x : pystr) (v w : A) (d : dict A) : (x, w) ∈ dset k v d → (x = k ∧ w = v) ∨ (x, w) ∈ d.
Proof.
  induction d as [|[k' v'] d IH]; cbn; [intros [= -> ->]%list_elem_of_singleton; by left|].
  case_decide as E; rewrite !elem_of_cons; [subst|]; naive_solver.
Qed.

Lemma record_at_records s o k : separated s → record_at s o k = dget k (records s o).
Proof.
  intros Hs. unfold record_at, records. rewrite dget_map. destruct (ts_data s !! o) as [d|] eqn:Ed; [|done]. cbn.
  destruct (dget k d) as [l|] eqn:El; [|done]. cbn. destruct (se_stored _ Hs o d k l Ed) as (n & -> & _ & [x Hx]); [by apply dget_Some_elem|]. by rewrite Hx.
Qed.
Lemma record_flat s o k r : separated s → record_at s o k = Some r → flat r.
Proof.
  intros Hs. unfold record_at. destruct (ts_data s !! o) as [d|] eqn:Ed; [|done]. cbn. destruct (dget k d) as [l|] eqn:El; [|done]. cbn.
  destruct (se_stored _ Hs o d k l Ed) as (n & -> & _ & _); [by apply dget_Some_elem|]. apply (se_flat _ Hs).
Qed.
Lemma records_flat s o r : separated s → r ∈ (records s o).*2 → flat r.
Proof.
  intros Hs. unfold records. destruct (ts_data s !! o) as [d|] eqn:Ed; cbn; [|by intros ?%not_elem_of_nil].
  intros ([k r'] & -> & ([k' l] & [= -> ->] & Hin)%list_elem_of_fmap)%list_elem_of_fmap. cbn.
  destruct (se_stored _ Hs o d k' l Ed Hin) as (n & -> & _ & [x Hx]). rewrite Hx. by apply (se_flat _ Hs n).
Qed.
Lemma same_store_records s1 s2 o : separated s2 → same_store s1 s2 → records s1 o = records s2 o.
Proof.
  intros Hs [H1 _ _ H2]. unfold records. rewrite H1. destruct (ts_data s2 !! o) as [d|] eqn:Ed; [|done]. cbn.
  apply list_fmap_ext. intros i [k l] Hi. cbn. f_equal. destruct (se_stored _ Hs o d k l Ed) as (n & -> & _); [by eapply list_elem_of_lookup_2|]. by rewrite H2.
Qed.

Lemma put_spec p o k l r s :
  separated s → ts_heap s !! l = Some r → flat r →
  match put p o k (VRef l) s with
  | Ok s' => authorize s p o k true = Ok tt ∧ separated s' ∧ ts_agreements s' = ts_agreements s ∧ (∀ t, same_private t s' s) ∧
             ∀ o', records s' o' = if decide (o' = o) then dset k r (records s o) else records s o'
  | Raise e => authorize s p o k true = Raise e
  end.
Proof.
  intros Hs Hl Hr. unfold put. rewrite Hl. cbn [of_option mbind res_bind]. destruct (authorize s p o k true) as [[]|e]; cbn [mbind res_bind]; [|done].
  assert (Hold : ∀ n, n < ts_copies s → <[LStored (ts_copies s) := r]> (ts_heap s) !! LStored n = ts_heap s !! LStored n).
  { intros n Hn. rewrite lookup_insert_ne; [done|]. intros [= Hc]. lia. }
  pose proof Hs as [H1 H2 H3 H4]. split_and!; [done| |done| |].
  - split; cbn; [exact H1| | |].
    + intros t n x. rewrite lookup_insert_ne by done. apply H2.
    + intros n x. destruct (decide (LStored n = LStored (ts_copies s))) as [[= ->]|Hne]; [rewrite lookup_insert_eq; by intros [= <-]|].
      rewrite lookup_insert_ne by done. apply H3.
    + intros o' d k' l' Hd Hin. destruct (decide (o' = o)) as [->|Hne].
      * rewrite lookup_insert_eq in Hd. injection Hd as <-. apply elem_of_dset_or in Hin as [[-> ->]|Hin].
        { exists (ts_copies s). rewrite lookup_insert_eq. split_and!; [done|lia|done]. }
        destruct (ts_data s !! o) as [d|] eqn:Ed; [|by apply not_elem_of_nil in Hin].
        destruct (H4 o d k' l' Ed Hin) as (n & -> & Hn & Hsm). exists n. rewrite Hold by done. split_and!; [done|lia|done].
      * rewrite lookup_insert_ne in Hd by done. destruct (H4 o' d k' l' Hd Hin) as (n & -> & Hn & Hsm). exists n. rewrite Hold by done. split_and!; [done|lia|done].
  - intros t. split; [done|]. intros n. cbn. by rewrite lookup_insert_ne.
  - intros o'. unfold records at 1. cbn [ts_data ts_heap].
    assert (Hmap : ∀ o d, ts_data s !! o = Some d →
      prod_map id (λ l, default [] (<[LStored (ts_copies s) := r]> (ts_heap s) !! l)) <$> d = prod_map id (λ l, default [] (ts_heap s !! l)) <$> d).
    { intros x d Hd. apply list_fmap_ext. intros i [k' l'] Hi. cbn. f_equal. destruct (H4 x d k' l' Hd) as (n & -> & Hn & _); [by eapply list_elem_of_lookup_2|]. by rewrite Hold. }
    case_decide as Ho.
    + subst o'. rewrite lookup_insert_eq. etrans; [exact (dset_map _ k _ _)|]. cbv beta. rewrite lookup_insert_eq. cbn [from_option]. unfold id at 1. f_equal.
      unfold records. destruct (ts_data s !! o) as [d|] eqn:Ed; [|done]. by apply (Hmap o d).
    + rewrite lookup_insert_ne by done. unfold records. destruct (ts_data s !! o') as [d|] eqn:Ed; [|done]. by apply (Hmap o' d).
Qed.

(** *** What one operation does *)
Lemma value_of_only t s e l : separated s → value_of t s e = VRef l → ∃ n, l = LHeld t n.
Proof.
  intros Hs. destruct e as [a|i]; [done|]. cbn. destruct (handles t s !! i) as [l'|] eqn:E; [|done].
  intros [= <-]. apply (se_handles _ Hs). by eapply list_elem_of_lookup_2.
Qed.
Lemma literal_flat t s r : Forall (λ ke, ∃ a, ke.2 = EAtom a) r → flat (literal t s r).
Proof.
  intros Hr k l ([k' e] & [= -> He] & Hin)%list_elem_of_fmap. rewrite Forall_forall in Hr.
  destruct (Hr _ Hin) as [a Ha]. cbn in Ha. by subst e.
Qed.
Lemma literal_eq t s1 s2 r : Forall (λ ke, ∃ a, ke.2 = EAtom a) r → literal t s1 r = literal t s2 r.
Proof.
  intros Hr. apply list_fmap_ext. intros i [k e] Hi. cbn. f_equal. destruct (Forall_lookup_1 _ _ _ _ Hr Hi) as [a Ha]. cbn in Ha. by subst e.
Qed.

Lemma literal_spelled t s r : flat r → literal t s (spelled r) = r.
Proof.
  intros Hr. unfold literal, spelled. rewrite <- list_fmap_compose. rewrite <- (list_fmap_id r) at 2. apply list_fmap_ext.
  intros i [k [a|l]] Hi; [done|]. by destruct (Hr k l (list_elem_of_lookup_2 _ _ _ Hi)).
Qed.
Lemma spelled_flat s p o k r : flat_put s (OPutNew p o k (spelled r)).
Proof.
  apply Forall_forall. intros [k' e] ([k2 v] & [= -> ->] & _)%list_elem_of_fmap. cbn. destruct v; eauto.
Qed.

Lemma held_spec t i s l o : separated s → held t i s = Some (l, o) → (∃ n, l = LHeld t n) ∧ only t o ∧ ts_heap s !! l = Some o.
Proof.
  intros Hs. unfold held. destruct (handles t s !! i) as [l'|] eqn:E; [|done]. cbn. destruct (ts_heap s !! l') as [o'|] eqn:Eo; [|done].
  cbn. intros [= <- <-]. destruct (se_handles _ Hs t l') as [n ->]; [by eapply list_elem_of_lookup_2|]. split_and!; [by exists n| |done].
  by eapply (se_refs _ Hs).
Qed.
Lemma dset_only t k v o : only t o → (∀ l, v = VRef l → ∃ n, l = LHeld t n) → only t (dset k v o).
Proof. intros Ho Hv k' l [[-> Hl]|Hin]%elem_of_dset_or; [by apply Hv|by eapply Ho]. Qed.

Lemma give_all t l s :
  Forall flat l → separated s →
  let s' := foldl (λ s r, give t r s) s l in separated s' ∧ same_store s' s ∧ ∀ u, u ≠ t → same_private u s' s.
Proof.
  cbv zeta. intros Hl. revert s. induction Hl as [|o l Ho _ IH]; intros s Hs; [done|]. cbn.
  destruct (IH (give t o s)) as (H1 & H2 & H3); [by apply give_separated; [apply flat_only|]|].
  split_and!; [done|etrans; [exact H2|apply give_store]|]. intros u Hu. etrans; [by apply H3|by apply give_private].
Qed.

(** The operations that are no put keep the store and what other tenants hold. *)
Lemma quiet_op op s t :
  separated s → actor op = Some t → target op = None →
  let s' := (sexec op s).2 in separated s' ∧ same_store s' s ∧ ∀ u, u ≠ t → same_private u s' s.
Proof.
  cbv zeta. intros Hs Ht Hn. destruct op as [p o k r|p o k i|p o k a|p o k|p o|t' i k e|t' i k|t' i|a]; cbn in Ht, Hn; try discriminate Hn; try injection Ht as <-; cbn [sexec].
  - done.
  - unfold get. destruct (authorize s p o k false); cbn; [|done]. destruct (record_at s o k) as [r|] eqn:Er; cbn; [|done].
    split_and!; [|apply give_store|intros u Hu; by apply give_private]. apply give_separated; [|done]. by eapply flat_only, record_flat.
  - unfold query_owner. destruct (identifier o); cbn; [|done]. case_bool_decide; cbn; [|done]. apply give_all; [|done].
    apply Forall_forall. intros r. by apply records_flat.
  - destruct (held t' i s) as [[l o]|] eqn:Eh; cbn; [|done]. apply held_spec in Eh as ([n ->] & Ho & _); [|done].
    split_and!; [|apply write_object_store|intros u Hu; by apply write_object_private]. apply write_object_separated; [|done].
    apply dset_only; [done|]. intros l. by apply value_of_only.
  - destruct (held t' i s) as [[l o]|] eqn:Eh; cbn; [|done]. apply held_spec in Eh as (_ & Ho & _); [|done].
    destruct (dget k o) as [[a|l']|] eqn:Ed; cbn; [done| |done]. destruct (Ho k l') as [n ->]; [by apply dget_Some_elem|].
    split_and!; [by apply hold_ref_separated|apply hold_ref_store|intros u Hu; by apply hold_ref_private].
  - by destruct (held t' i s) as [[l o]|].
  - done.
Qed.

Lemma separated_federate a s : separated s → separated (add_federation a s).
Proof. by intros []. Qed.
Lemma authorize_agreements s1 s2 p o k w : ts_agreements s1 = ts_agreements s2 → authorize s1 p o k w = authorize s2 p o k w.
Proof. intros H. unfold authorize. by rewrite H. Qed.

(** What a put of the content [r] answers and does to the records. *)
Definition stored_as (p : Principal) (o k : pystr) (r : object) (s : TenantStore) (x : res sout * TenantStore) : Prop :=
  separated x.2 ∧ ts_agreements x.2 = ts_agreements s ∧
  match x.1 with
  | Ok v => v = RDone ∧ authorize s p o k true = Ok tt ∧
            ∀ o', records x.2 o' = if decide (o' = o) then dset k r (records s o) else records s o'
  | Raise e => authorize s p o k true = Raise e ∧ ∀ o', records x.2 o' = records s o'
  end.

Lemma put_op p o k r s :
  separated s → flat_put s (OPutNew p o k r) →
  let x := sexec (OPutNew p o k r) s in
  stored_as p o k (literal (p_tenant p) s r) s x ∧ (∀ u, u ≠ p_tenant p → same_private u x.2 s) ∧
  (∀ s2, same_private (p_tenant p) s s2 → same_private (p_tenant p) x.2 (give (p_tenant p) (literal (p_tenant p) s r) s2)).
Proof.
  cbv zeta. intros Hs Hr. cbn [sexec]. set (t := p_tenant p). set (s1 := give t (literal t s r) s). unfold stored_as.
  assert (Hf : flat (literal t s r)) by by apply literal_flat.
  assert (Hs1 : separated s1) by (apply give_separated; [by apply flat_only|done]).
  assert (Hst : same_store s1 s) by apply give_store.
  assert (Hau : authorize s1 p o k true = authorize s p o k true) by (apply authorize_agreements, (ss_agreements _ _ Hst)).
  assert (Hrec : ∀ o', records s1 o' = records s o') by (intros; by apply same_store_records).
  pose proof (put_spec p o k (LHeld t (length (handles t s))) (literal t s r) s1 Hs1) as Hp.
  destruct (put _ _ _ _ s1) as [s'|e]; cbn [fst snd].
  - destruct Hp as (Ha & Hs' & Hag & Hpr & Hre); [apply lookup_insert_eq|done|]. split_and!; try done.
    + intros o'. rewrite Hre, !Hrec. done.
    + intros u Hu. etrans; [apply Hpr|by apply give_private].
    + intros s2 H2. etrans; [apply Hpr|]. by apply give_same.
  - rewrite Hau in Hp. split_and!; try done.
    + apply Hp; [apply lookup_insert_eq|done].
    + intros u Hu. by apply give_private.
    + intros s2 H2. by apply give_same.
Qed.

Lemma put_held p o k i l r s :
  separated s → held (p_tenant p) i s = Some (l, r) → flat r →
  let x := sexec (OPut p o k i) s in stored_as p o k r s x ∧ ∀ u, same_private u x.2 s.
Proof.
  cbv zeta. intros Hs Hh Hr. cbn [sexec]. rewrite Hh. destruct (held_spec _ _ _ _ _ Hs Hh) as (_ & _ & Hl).
  pose proof (put_spec p o k l r s Hs Hl Hr) as Hp. unfold stored_as. destruct (put p o k (VRef l) s) as [s'|e]; cbn [fst snd]; [|done].
  destruct Hp as (Ha & Hs' & Hag & Hpr & Hre). by split_and!.
Qed.

(** ** Noninterference *)
(** Two stores a tenant cannot tell apart. *)
Record alike (t : pystr) (shared : list FederationAgreement) (s1 s2 : TenantStore) : Prop := {
  al_agreements : ts_agreements s1 = ts_agreements s2;
  al_private : same_private t s1 s2;
  al_own : records s1 t = records s2 t;
  al_shared : ∀ o k, existsb (λ a, covers a o t k) shared = true → dget k (records s1 o) = dget k (records s2 o);
  al_known : ts_agreements s1 ⊆ shared;
  al_left : separated s1;
  al_right : separated s2
}.

(** A tenant that is authorized to write writes its own records. *)
Lemma authorize_write s p o k : authorize s p o k true = Ok tt → p_tenant p = o.
Proof. unfold authorize. intros (? & _ & H)%bind_Ok. case_bool_decide; [done|]. discriminate H. Qed.

Lemma authorize_read s p o k : authorize s p o k false = Ok tt →
  p_tenant p = o ∨ existsb (λ a, covers a o (p_tenant p) k) (ts_agreements s) = true.
Proof.
  unfold authorize. intros (? & _ & H)%bind_Ok. case_bool_decide; [by left|]. right. destruct (existsb _ _); [done|discriminate H].
Qed.

Lemma existsb_mono {A} (f : A → bool) l k : l ⊆ k → existsb f l = true → existsb f k = true.
Proof.
  rewrite !existsb_exists. intros Hs (x & Hx%list_elem_of_In & Hf). exists x. split; [apply list_elem_of_In; by apply Hs|done].
Qed.

(** A put leaves the records of every tenant but the caller's, and every record but
    the one it names. *)
Lemma stored_frame p o k r s x :
  stored_as p o k r s x →
  (∀ o', o' ≠ p_tenant p → records x.2 o' = records s o') ∧
  (∀ o' k', (o, k) ≠ (o', k') → dget k' (records x.2 o') = dget k' (records s o')).
Proof.
  intros (_ & _ & H). destruct x.1 as [v|e]; [|destruct H as [_ H]; split; intros; by rewrite H].
  destruct H as (_ & Hau%authorize_write & H). split.
  - intros o' Ho. rewrite H, decide_False; congruence.
  - intros o' k' Hne. rewrite H. case_decide as E; [|done]. subst o'. rewrite dget_dset, decide_False; [done|]. congruence.
Qed.

(** What an operation leaves of the records, of the agreements and of what the
    tenants that do not act hold. *)
Lemma step_frame op s :
  separated s → flat_put s op →
  let s' := (sexec op s).2 in
  separated s' ∧ ts_agreements s' = ts_agreements s ++ federations [op] ∧ (∀ u, actor op ≠ Some u → same_private u s' s) ∧
  (∀ o, actor op ≠ Some o → records s' o = records s o) ∧
  (∀ o k, target op ≠ Some (o, k) → dget k (records s' o) = dget k (records s o)).
Proof.
  cbv zeta. intros Hs Hf. destruct (target op) as [[o k]|] eqn:Htg.
  - destruct op as [p ? ? r|p ? ? i| | | | | | |]; try discriminate Htg; injection Htg as -> ->; cbn [actor federations omap list_omap]; rewrite app_nil_r.
    + destruct (put_op p o k r s Hs Hf) as (Hst & Hpr & _). destruct (stored_frame _ _ _ _ _ _ Hst) as [F1 F2]. destruct Hst as (H1 & H2 & _).
      split_and!; [done|done|intros u Hu; apply Hpr; congruence|intros u Hu; apply F1; congruence|intros o' k' Hne; apply F2; congruence].
    + destruct (held (p_tenant p) i s) as [[l r]|] eqn:Eh; [|cbn [sexec]; by rewrite Eh].
      destruct (put_held p o k i l r s Hs Eh (Hf l r Eh)) as [Hst Hpr]. destruct (stored_frame _ _ _ _ _ _ Hst) as [F1 F2]. destruct Hst as (H1 & H2 & _).
      split_and!; [done|done|intros u _; apply Hpr|intros u Hu; apply F1; congruence|intros o' k' Hne; apply F2; congruence].
  - destruct (actor op) as [t|] eqn:Ha; [|destruct op; try discriminate Ha; cbn; by split_and!; [apply separated_federate|..]].
    destruct (quiet_op op s t Hs Ha Htg) as (H1 & H2 & H3).
    assert (Hr : ∀ o, records (sexec op s).2 o = records s o) by (intros; by apply same_store_records).
    split_and!; [done| |intros u Hu; apply H3; congruence|done|intros; by rewrite Hr].
    rewrite (ss_agreements _ _ H2). destruct op; try done; try (by rewrite app_nil_r).
Qed.

Lemma hidden_actor t F op : hidden t F op = true → actor op ≠ Some t.
Proof. destruct op; cbn; try done; intros H%andb_true_iff; destruct H as [H _]; apply negb_true_iff, bool_decide_eq_false in H; congruence. Qed.
Lemma hidden_target t F op o k : hidden t F op = true → target op = Some (o, k) → existsb (λ a, covers a o t k) F = false.
Proof. destruct op; cbn; try done; intros H%andb_true_iff [= <- <-]; destruct H as [_ H]; by apply negb_true_iff. Qed.

(** A hidden operation changes nothing a tenant can see. *)
Lemma hidden_alike t F op s1 s2 : alike t F s1 s2 → flat_put s1 op → hidden t F op = true → alike t F (sexec op s1).2 s2.
Proof.
  intros [H1 H2 H3 H4 H5 H6 H7] Hf Hh. destruct (step_frame op s1 H6 Hf) as (K1 & K2 & K3 & K4 & K5).
  assert (Hact := hidden_actor _ _ _ Hh). assert (Hfed : federations [op] = []) by by destruct op.
  rewrite Hfed, app_nil_r in K2. split; try done.
  - congruence.
  - etrans; [by apply K3|done].
  - by rewrite K4.
  - intros o k Hs. rewrite K5; [by apply H4|]. intros Ht. rewrite (hidden_target _ _ _ _ _ Hh Ht) in Hs. done.
  - by rewrite K2.
Qed.

(** Puts of the same content on both stores. *)
Lemma puts_alike t F p o k r s1 s2 x1 x2 :
  alike t F s1 s2 → stored_as p o k r s1 x1 → stored_as p o k r s2 x2 → same_private t x1.2 x2.2 →
  alike t F x1.2 x2.2 ∧ x1.1 = x2.1.
Proof.
  intros [H1 H2 H3 H4 H5 H6 H7] (K1 & K2 & K5) (L1 & L2 & L5) Hp.
  assert (Hau : authorize s1 p o k true = authorize s2 p o k true) by by apply authorize_agreements.
  assert (Hres : x1.1 = x2.1).
  { destruct x1.1 as [v|e], x2.1 as [v'|e']; destruct K5 as (K5 & K6), L5 as (L5 & L6); [congruence|..];
      [destruct K6 as [K6 _]; congruence|destruct L6 as [L6 _]; congruence|congruence]. }
  split; [|done]. rewrite <- Hres in L5. split; try done.
  - congruence.
  - destruct x1.1 as [v|e].
    + destruct K5 as (_ & _ & ->), L5 as (_ & _ & ->). case_decide as E; [subst; by rewrite H3|done].
    + destruct K5 as (_ & ->), L5 as (_ & ->). done.
  - intros o' k' Hs. destruct x1.1 as [v|e].
    + destruct K5 as (_ & _ & ->), L5 as (_ & _ & ->). case_decide as E; [|by apply H4]. subst o'. rewrite !dget_dset. case_decide; [done|by apply H4].
    + destruct K5 as (_ & ->), L5 as (_ & ->). by apply H4.
  - by rewrite K2.
Qed.

(** A put of a new dict by whatever tenant, on both stores. *)
Lemma put_alike t F p o k r s1 s2 :
  alike t F s1 s2 → flat_put s1 (OPutNew p o k r) →
  alike t F (sexec (OPutNew p o k r) s1).2 (sexec (OPutNew p o k r) s2).2 ∧ (sexec (OPutNew p o k r) s1).1 = (sexec (OPutNew p o k r) s2).1.
Proof.
  intros Hal Hf. destruct (put_op p o k r s1 (al_left _ _ _ _ Hal) Hf) as (K1 & K3 & K4).
  destruct (put_op p o k r s2 (al_right _ _ _ _ Hal) Hf) as (L1 & L3 & L4). assert (H2 := al_private _ _ _ _ Hal).
  rewrite <- (literal_eq (p_tenant p) s1 s2 r Hf) in L1, L4. eapply puts_alike; [done..|].
  destruct (decide (p_tenant p = t)) as [<-|Hne].
  - etrans; [by apply K4|]. symmetry. by apply L4.
  - etrans; [by apply K3, not_eq_sym|]. etrans; [exact H2|]. symmetry. by apply L3, not_eq_sym.
Qed.

Lemma held_same t i s1 s2 : separated s1 → same_private t s1 s2 → held t i s1 = held t i s2.
Proof.
  intros Hs [H1 H2]. unfold held. rewrite <- H1. destruct (handles t s1 !! i) as [l|] eqn:E; [|done]. cbn.
  destruct (se_handles _ Hs t l) as [n ->]; [by eapply list_elem_of_lookup_2|]. by rewrite H2.
Qed.
(** A put of a dict the tenant holds, on both stores; and one of a dict another tenant
    holds, against a put of a new dict with its entries. *)
Lemma own_put_alike F p o k i s1 s2 :
  alike (p_tenant p) F s1 s2 → flat_put s1 (OPut p o k i) →
  alike (p_tenant p) F (sexec (OPut p o k i) s1).2 (sexec (OPut p o k i) s2).2 ∧ (sexec (OPut p o k i) s1).1 = (sexec (OPut p o k i) s2).1.
Proof.
  intros Hal Hf. pose proof Hal as [_ H2 _ _ _ H6 H7]. assert (Hh := held_same (p_tenant p) i s1 s2 H6 H2).
  destruct (held (p_tenant p) i s1) as [[l r]|] eqn:Eh; [|cbn [sexec]; by rewrite Eh, <- Hh].
  destruct (put_held p o k i l r s1 H6 Eh (Hf l r Eh)) as [K1 K2]. destruct (put_held p o k i l r s2 H7 (eq_sym Hh) (Hf l r Eh)) as [L1 L2].
  eapply puts_alike; [done..|]. etrans; [apply K2|]. etrans; [exact H2|]. symmetry. apply L2.
Qed.
Lemma other_put_alike t F p o k i l r s1 s2 :
  alike t F s1 s2 → flat_put s1 (OPut p o k i) → p_tenant p ≠ t → held (p_tenant p) i s1 = Some (l, r) →
  alike t F (sexec (OPut p o k i) s1).2 (sexec (OPutNew p o k (spelled r)) s2).2.
Proof.
  intros Hal Hf Hne Eh. pose proof Hal as [_ H2 _ _ _ H6 H7]. assert (Hr := Hf l r Eh).
  destruct (put_held p o k i l r s1 H6 Eh Hr) as [K1 K2].
  destruct (put_op p o k (spelled r) s2 H7 (spelled_flat s2 p o k r)) as (L1 & L2 & _). rewrite literal_spelled in L1 by done.
  eapply puts_alike; [done..|]. etrans; [apply K2|]. etrans; [exact H2|]. symmetry. by apply L2, not_eq_sym.
Qed.
Lemma give_all_same t l s1 s2 : same_private t s1 s2 → same_private t (foldl (λ s r, give t r s) s1 l) (foldl (λ s r, give t r s) s2 l).
Proof. revert s1 s2. induction l as [|o l IH]; intros s1 s2 H; [done|]. cbn. apply IH. by apply give_same. Qed.
Lemma value_of_same t e s1 s2 : same_private t s1 s2 → value_of t s1 e = value_of t s2 e.
Proof. intros [H _]. destruct e; [done|]. cbn. by rewrite H. Qed.

(** The tenant's own operations, puts apart, answer alike and do the same to what it holds. *)
Lemma own_same t F op s1 s2 :
  alike t F s1 s2 → actor op = Some t → target op = None →
  (sexec op s1).1 = (sexec op s2).1 ∧ same_private t (sexec op s1).2 (sexec op s2).2.
Proof.
  intros [H1 H2 H3 H4 H5 H6 H7] Ha Hn. destruct op as [p o k r|p o k i|p o k a|p o k|p o|t' i k e|t' i k|t' i|a]; cbn in Ha, Hn; try discriminate Hn; try injection Ha as <-; cbn [sexec].
  - done.
  - unfold get. rewrite (authorize_agreements s1 s2 p o k false H1). destruct (authorize s2 p o k false) as [[]|] eqn:E; cbn [mbind res_bind]; [|done].
    assert (Hr : record_at s1 o k = record_at s2 o k).
    { rewrite !record_at_records by done. apply authorize_read in E as [<-|E]; [by rewrite H3|]. apply H4. eapply existsb_mono; [|exact E]. by rewrite <- H1. }
    rewrite Hr. destruct (record_at s2 o k); cbn; [|done]. split; [done|]. by apply give_same.
  - unfold query_owner. destruct (identifier o); cbn [mbind res_bind]; [|done]. case_bool_decide as Ho; cbn [negb]; [|done]. cbn [fst snd].
    rewrite <- Ho, H3. split; [done|]. by apply give_all_same.
  - rewrite (held_same t' i s1 s2 H6 H2). destruct (held t' i s2) as [[l o]|] eqn:Eh; [|done]. cbn [fst snd]. split; [done|].
    rewrite (value_of_same _ _ _ _ H2). split; [apply H2|]. intros n. cbn. destruct (decide (l = LHeld t' n)) as [->|Hne]; [by rewrite !lookup_insert_eq|].
    rewrite !lookup_insert_ne by done. apply H2.
  - rewrite (held_same t' i s1 s2 H6 H2). destruct (held t' i s2) as [[l o]|]; [|done]. destruct (dget k o) as [[a|l']|]; [done| |done]. cbn [fst snd].
    split; [done|]. split; [|apply H2]. rewrite !handles_hold, !decide_True by done. f_equal. apply H2.
  - rewrite (held_same t' i s1 s2 H6 H2). by destruct (held t' i s2) as [[l o]|].
  - done.
Qed.

(** The tenant's own operations and agreements keep the stores alike. *)
Lemma own_alike t F op s1 s2 :
  alike t F s1 s2 → flat_put s1 op → actor op = Some t →
  alike t F (sexec op s1).2 (sexec op s2).2 ∧ (sexec op s1).1 = (sexec op s2).1.
Proof.
  intros Hal Hf Hact. destruct (target op) as [[o k]|] eqn:Ht.
  { destruct op as [p ? ? r|p ? ? i| | | | | | |]; try discriminate Ht; cbn in Hact; injection Hact as <-; [by apply put_alike|by apply own_put_alike]. }
  pose proof Hal as [H1 H2 H3 H4 H5 H6 H7]. destruct (own_same t F op s1 s2 Hal Hact Ht) as [Hr Hp]. split; [|done].
  destruct (quiet_op op s1 t H6 Hact Ht) as (A1 & A2 & _), (quiet_op op s2 t H7 Hact Ht) as (B1 & B2 & _).
  assert (R1 : ∀ o, records (sexec op s1).2 o = records s1 o) by (intros; by apply same_store_records).
  assert (R2 : ∀ o, records (sexec op s2).2 o = records s2 o) by (intros; by apply same_store_records).
  split; try done.
  - rewrite (ss_agreements _ _ A2), (ss_agreements _ _ B2). done.
  - by rewrite R1, R2.
  - intros o k Hs. rewrite R1, R2. by apply H4.
  - by rewrite (ss_agreements _ _ A2).
Qed.
Lemma federate_alike t F a s1 s2 : alike t F s1 s2 → a ∈ F → alike t F (add_federation a s1) (add_federation a s2).
Proof.
  intros [H1 H2 H3 H4 H5 H6 H7] Ha. split; [cbn; by rewrite H1|split; apply H2|exact H3|exact H4| |by apply separated_federate..].
  cbn. intros x [Hx|Hx]%elem_of_app; [by apply H5|]. by apply list_elem_of_singleton in Hx as ->.
Qed.

Lemma federations_cons op ops F : federations (op :: ops) ⊆ F → federations [op] ⊆ F ∧ federations ops ⊆ F.
Proof.
  change (op :: ops) with ([op] ++ ops). unfold federations. rewrite omap_app. intros Hf. split; intros x Hx; apply Hf, elem_of_app; auto.
Qed.

Lemma observes_purge t F ops : ∀ s1 s2, flat_run s1 ops → alike t F s1 s2 → federations ops ⊆ F → observes t s1 ops = observes t s2 (purge t F s1 ops).
Proof.
  induction ops as [|op ops IH]; intros s1 s2 Hfl Ha Hf; [done|]. destruct Hfl as [Hop Hfr]. apply federations_cons in Hf as [Hf1 Hf2]. cbn [observes purge].
  destruct (hidden t F op) eqn:Hh.
  { pose proof (hidden_alike _ _ _ _ _ Ha Hop Hh) as Ha'. assert (Hact := hidden_actor _ _ _ Hh).
    destruct (sexec op s1) as [r s1']. rewrite bool_decide_false by done. by apply IH. }
  case_bool_decide as Hact.
  { destruct (own_alike _ _ _ _ _ Ha Hop Hact) as [Ha' Hr]. cbn [app observes].
    destruct (sexec op s1) as [r1 s1'], (sexec op s2) as [r2 s2']. cbn in Hr. subst. rewrite bool_decide_true by done. f_equal. by apply IH. }
  assert (Hcase : (∃ p o k r, op = OPutNew p o k r) ∨ (∃ p o k i, op = OPut p o k i) ∨ (∃ a, op = OFederate a)).
  { destruct op; [by eauto 6|by eauto 7|..|by eauto 6]; exfalso; cbn in Hh; rewrite andb_true_r in Hh; apply negb_false_iff, bool_decide_eq_true in Hh; done. }
  destruct Hcase as [(p & o & k & r & ->)|[(p & o & k & i & ->)|[a ->]]].
  - destruct (put_alike t F p o k r s1 s2 Ha Hop) as [Ha' _]. cbn [app observes].
    destruct (sexec _ s1) as [r1 s1'], (sexec _ s2) as [r2 s2']. rewrite bool_decide_false by done. by apply IH.
  - assert (p_tenant p ≠ t) by (cbn in Hact; congruence). destruct (held (p_tenant p) i s1) as [[l r]|] eqn:Eh.
    + pose proof (other_put_alike _ _ _ _ _ _ _ _ _ _ Ha Hop ltac:(done) Eh) as Ha'. cbn [app observes].
      destruct (sexec _ s1) as [r1 s1'], (sexec _ s2) as [r2 s2']. rewrite bool_decide_false by (cbn; congruence). by apply IH.
    + assert (Hs1 : (sexec (OPut p o k i) s1).2 = s1) by (cbn [sexec]; by rewrite Eh). rewrite Hs1 in *.
      destruct (sexec (OPut p o k i) s1) as [r1 s1']. cbn in Hs1. subst s1'. by apply IH.
  - assert (Ha' := federate_alike t F a s1 s2 Ha ltac:(apply Hf1; left)). by apply IH.
Qed.

Lemma after_separated ops : ∀ s, flat_run s ops → separated s → separated (after s ops).
Proof. induction ops as [|op ops IH]; intros s Hfl Hs; [done|]. destruct Hfl as [Hop Hf]. cbn. apply IH; [done|]. by apply step_frame. Qed.

Lemma after_own ops o : ∀ s, flat_run s ops → separated s → Forall (λ op, actor op ≠ Some o) ops → records (after s ops) o = records s o.
Proof.
  induction ops as [|op ops IH]; intros s Hfl Hs Hall; [done|]. destruct Hfl as [Hop Hf]. apply Forall_cons in Hall as [Hac Hall].
  destruct (step_frame op s Hs Hop) as (K1 & _ & _ & K4 & _). change (after s (op :: ops)) with (after (sexec op s).2 ops). rewrite IH by done. by apply K4.
Qed.

(** C18: Tenants that store records without nested objects do not interfere.  Take
    any sequence of puts, reads and listings by any principals, administrators
    included, of agreements, and of changes the tenants make to the dicts they put
    or were given, in which no put is of a dict with an object nested in it.  The
    answers a tenant gets -- refusals, records, listings, and what it finds in the
    dicts it holds -- are those it would get if the other tenants had only put the
    records some agreement shares with it: nothing else they do is observable.  And
    from any point on, the records of an owner stay exactly as they are while none
    of its own principals acts. *)
Theorem tenant_noninterference (t : pystr) (ops0 ops : list sop) :
  let s := after TenantStore_new ops0 in
  flat_run TenantStore_new ops0 → flat_run s ops →
  observes t s ops = observes t s (purge t (ts_agreements s ++ federations ops) s ops) ∧
  (∀ o, Forall (λ op, actor op ≠ Some o) ops → records (after s ops) o = records s o).
Proof.
  intros s H0 Hops. assert (Hs : separated s) by (apply after_separated; [done|apply separated_new]).
  split; [|intros o; by apply after_own]. apply observes_purge; [done| |set_solver]. split; try done. set_solver.
Qed.

(** An owner shares the record of a key that holds a number; the reader changes the
    dict it was given and puts it under a key of its own. *)
Definition demo_agreement : FederationAgreement := mkFederation (str "a") (str "b") [str "k"] true.
Definition demo_flat : list sop :=
  [OFederate demo_agreement; OPutNew (mkPrincipal (str "a") false) (str "a") (str "k") [(str "n", EAtom (JInt 1))];
   OGet (mkPrincipal (str "b") false) (str "a") (str "k"); OSet (str "b") 0 (str "n") (EAtom (JInt 2));
   OPut (mkPrincipal (str "b") false) (str "b") (str "mine") 0; OPut (mkPrincipal (str "b") false) (str "a") (str "k") 0].
Lemma demo_flat_ok : flat_run (after TenantStore_new []) demo_flat.
Proof.
  cbn [flat_run demo_flat flat_put]. split_and!; try done.
  - repeat constructor. by exists (JInt 1).
  - intros l r Hh. vm_compute in Hh. injection Hh as <- <-. by intros k l' [[=]|[]%elem_of_nil]%elem_of_cons.
  - intros l r Hh. vm_compute in Hh. injection Hh as <- <-. by intros k l' [[=]|[]%elem_of_nil]%elem_of_cons.
Qed.

Lemma tenant_noninterference_witness :
  records (after TenantStore_new demo_flat) (str "a") = [(str "k", [(str "n", VAtom (JInt 1))])] ∧
  records (after TenantStore_new demo_flat) (str "b") = [(str "mine", [(str "n", VAtom (JInt 2))])] ∧
  observes (str "a") (after TenantStore_new []) demo_flat = [Ok RDone].
Proof.
  split; [vm_compute; reflexivity|]. split; [vm_compute; reflexivity|].
  rewrite (proj1 (tenant_noninterference (str "a") [] demo_flat I demo_flat_ok)). vm_compute. reflexivity.
Defined.

(** The copies are shallow: a reader that an agreement gives a record with a nested
    object can change the owner's record, although cross-tenant writes are never
    permitted.  Here no principal of the owner acts between its two looks. *)
Theorem shared_nested_writable :
  let a := str "a" in let b := str "b" in
  let owner := mkPrincipal a false in let reader := mkPrincipal b false in
  let setup := [OFederate demo_agreement;
    OPutNew owner a (str "scratch") [(str "n", EAtom (JInt 1))];
    OPutNew owner a (str "k") [(str "nested", EHandle 0)];
    OGet owner a (str "k"); OOpen a 2 (str "nested")] in
  let attack := [OGet reader a (str "k"); OOpen b 0 (str "nested"); OSet b 1 (str "n") (EAtom (JInt 666))] in
  (sexec (OLook a 3) (after TenantStore_new setup)).1 = Ok (RRecord [(str "n", VAtom (JInt 1))]) ∧
  (sexec (OLook a 3) (after (after TenantStore_new setup) attack)).1 = Ok (RRecord [(str "n", VAtom (JInt 666))]).
Proof. vm_compute. done. Qed.

(** ** Policies *)
(** An accepted layer keeps every platform policy, does not lower the
    verification level and has no threshold above the floor. *)
Lemma validate_policy_tightens policy floors p :
  validate_policy policy floors = Ok p →
  p = policy ∧ num_ltb (pf_brake floors) (tp_brake policy) = false ∧ (pf_verification floors <= tp_verification policy)%Z ∧
  pf_quarantine floors ⊆ tp_quarantine policy.
Proof.
  unfold validate_policy. destruct (num_ltb _ _); [done|]. destruct (Z.ltb_spec (tp_verification policy) (pf_verification floors)); [done|].
  case_bool_decide as Hq; [|done]. cbn. intros [= <-]. split_and!; [done|done|done|]. set_solver.
Qed.

(** The brake threshold [float("nan")] passes every check although it is not
    at or below any floor: a run is never braked at it. *)
Theorem nan_threshold_accepted :
  ∃ floors policy,
    PlatformFloors_new (JFloat (float_of_Z 1)) 1 {[str "unverified-receipt"]} = Ok floors ∧
    TenantPolicy_new (str "t") (JFloat S754_nan) 1 {[str "unverified-receipt"]} ∅ ∅ = Ok policy ∧
    validate_policy policy floors = Ok policy ∧ num_leb (tp_brake policy) (pf_brake floors) = false ∧
    ∀ observed, num_leb (tp_brake policy) observed = false ∧ num_ltb (tp_brake policy) observed = false.
Proof.
  eexists _, _. split; [vm_compute; reflexivity|]. split; [vm_compute; reflexivity|]. split; [vm_compute; reflexivity|].
  split; [vm_compute; reflexivity|]. intros [z|[]]; split; reflexivity.
Qed.
