(* ===== verification/Tenancy.v ===== *)
(** * Tenants, their lifecycle and delegation between them
    (residual/tenancy/tenant.py, lifecycle.py, delegation.py)

    A [Tenant] object refers to a mutable [TenantState] object.  The lifecycle
    manager and the delegation engine may hold the same tenants, so the states
    live in a heap and a tenant carries the address of its state. *)

From Stdlib Require Import ZArith NArith Lia SpecFloat.
From S2P Require Import Prelude PyData Sha256 PyFloat Json JsonFacts Core CoreFacts Brakes.

Record TenantState : Type := mkTenantState {
  tt_goalspecs : dict json;
  tt_modules : dict json;
  tt_receipts : list (dict json);
  tt_observations : list (dict json);
  tt_hitl : list (dict json);
  tt_quarantine : gset pystr;
  tt_brakes : dict json
}.
Definition TenantState_new : TenantState := mkTenantState [] [] [] [] [] ∅ [].

(** [append_receipt] *)
Definition append_receipt (receipt : json) (st : TenantState) : res (pystr * TenantState) :=
  match receipt with
  | JDict r =>
      chain ← digest (JList (((λ e, default JNull (dget (str "receipt_hash") e)) <$> tt_receipts st) ++ [receipt]));
      let entry := dset (str "chain_digest") (JStr chain) (dset (str "sequence") (JInt (Z.of_nat (length (tt_receipts st)))) r) in
      Ok (chain, mkTenantState (tt_goalspecs st) (tt_modules st) (tt_receipts st ++ [entry]) (tt_observations st) (tt_hitl st)
                   (tt_quarantine st) (tt_brakes st))
  | _ => Raise (ContractError "receipt must be a mapping")
  end.

Definition append_observation (observation : json) (st : TenantState) : res TenantState :=
  match observation with
  | JDict o => Ok (mkTenantState (tt_goalspecs st) (tt_modules st) (tt_receipts st) (tt_observations st ++ [o]) (tt_hitl st)
                     (tt_quarantine st) (tt_brakes st))
  | _ => Raise (ContractError "observation must be a mapping")
  end.

Definition set_hitl (q : list (dict json)) (st : TenantState) : TenantState :=
  mkTenantState (tt_goalspecs st) (tt_modules st) (tt_receipts st) (tt_observations st) q (tt_quarantine st) (tt_brakes st).
Definition enqueue_hitl (request : json) (st : TenantState) : res TenantState :=
  match request with
  | JDict r => Ok (set_hitl (tt_hitl st ++ [r]) st)
  | _ => Raise (ContractError "HITL request must be a mapping")
  end.

Record Tenant : Type := mkTenant { tn_id : pystr; tn_quota : Z; tn_state : nat }.
Definition Tenant_new (id : pystr) (quota : Z) (state : nat) : res Tenant :=
  _ ← identifier id;
  when (quota <? 1)%Z raise ContractError "tenant quota must be a positive integer";;
  Ok (mkTenant id quota state).

(** The state objects. *)
Abbreviation heap := (gmap nat TenantState).
Definition state_of (h : heap) (t : Tenant) : TenantState := default TenantState_new (h !! tn_state t).
Definition set_state (t : Tenant) (st : TenantState) (h : heap) : heap := <[tn_state t := st]> h.

Definition register_goalspec (spec_id : pystr) (spec : json) (st : TenantState) : res TenantState :=
  _ ← identifier spec_id;
  when dmem spec_id (tt_goalspecs st) raise ContractError "duplicate goalspec id";;
  Ok (mkTenantState (dset spec_id spec (tt_goalspecs st)) (tt_modules st) (tt_receipts st) (tt_observations st) (tt_hitl st)
        (tt_quarantine st) (tt_brakes st)).
Definition register_module (module_id : pystr) (module : json) (st : TenantState) : res TenantState :=
  _ ← identifier module_id;
  when dmem module_id (tt_modules st) raise ContractError "duplicate module id";;
  Ok (mkTenantState (tt_goalspecs st) (dset module_id module (tt_modules st)) (tt_receipts st) (tt_observations st) (tt_hitl st)
        (tt_quarantine st) (tt_brakes st)).

(** ** Lifecycle *)
Record PlatformOperator : Type := mkOperator { op_id : pystr; op_admin : bool }.
Definition PlatformOperator_new (id : pystr) (platform_admin : bool) : res PlatformOperator :=
  _ ← identifier id; Ok (mkOperator id platform_admin).

Record DeletionRecord : Type := mkDeletion {
  dr_tenant : pystr;
  dr_receipts : list (dict json);
  dr_observations : list (dict json);
  dr_receipt : dict json
}.

Record TenantLifecycle : Type := mkLifecycle {
  lc_heap : heap;
  lc_tenants : dict Tenant;
  lc_archives : dict DeletionRecord
}.

Definition require_platform_admin (operator : PlatformOperator) : res unit :=
  when negb (op_admin operator) raise ContractError "platform-level privileges required for tenant lifecycle (ENT3-R6)";; Ok tt.

(** [create_tenant]: the new tenant has a state object of its own. *)
Definition create_tenant (operator : PlatformOperator) (tenant_id : pystr) (quota : Z) (s : TenantLifecycle)
    : res (Tenant * TenantLifecycle) :=
  _ ← require_platform_admin operator;
  _ ← identifier tenant_id;
  when dmem tenant_id (lc_tenants s) raise ContractError "tenant already exists";;
  when dmem tenant_id (lc_archives s) raise ContractError "tenant id was previously deleted and archived";;
  let address := fresh (dom (lc_heap s)) in
  tenant ← Tenant_new tenant_id quota address;
  Ok (tenant, mkLifecycle (<[address := TenantState_new]> (lc_heap s)) (dset tenant_id tenant (lc_tenants s)) (lc_archives s)).

Definition deletion_receipt (tenant_id : pystr) (receipts observations : list (dict json)) : res (dict json) :=
  rd ← digest (JList ((λ r, default JNull (dget (str "receipt_hash") r)) <$> receipts));
  od ← digest (JList (JDict <$> observations));
  let d := [(str "kind", JStr (str "tenant-deletion")); (str "tenant_id", JStr tenant_id);
            (str "receipt_count", JInt (Z.of_nat (length receipts))); (str "observation_count", JInt (Z.of_nat (length observations)));
            (str "receipts_digest", JStr rd); (str "observations_digest", JStr od)] in
  h ← digest (JDict d);
  Ok (dset (str "receipt_hash") (JStr h) d).

(** [delete_tenant]: the tenant leaves the registry before its history is
    digested; its state object is emptied for whoever still holds it. *)
Definition delete_tenant (operator : PlatformOperator) (tenant_id : pystr) : SM TenantLifecycle DeletionRecord :=
  _ ← sm_lift (require_platform_admin operator);
  _ ← sm_lift (identifier tenant_id);
  s ← sm_get;
  tenant ← sm_lift (of_option (ContractError "unknown tenant") (dget tenant_id (lc_tenants s)));
  _ ← sm_mod (λ s, mkLifecycle (lc_heap s) (ddel tenant_id (lc_tenants s)) (lc_archives s));
  let st := state_of (lc_heap s) tenant in
  receipt ← sm_lift (deletion_receipt tenant_id (tt_receipts st) (tt_observations st));
  _ ← sm_mod (λ s, mkLifecycle (set_state tenant TenantState_new (lc_heap s)) (lc_tenants s) (lc_archives s));
  let record := mkDeletion tenant_id (tt_receipts st) (tt_observations st) receipt in
  _ ← sm_mod (λ s, mkLifecycle (lc_heap s) (lc_tenants s) (dset tenant_id record (lc_archives s)));
  mret record.

(** ** Delegation *)
Record DelegationGrant : Type := mkGrant {
  gr_id : pystr;
  gr_grantor : pystr;
  gr_grantee : pystr;
  gr_task_types : list pystr;
  gr_resources : list pystr;
  gr_expires : Z
}.

Definition DelegationGrant_new (g : DelegationGrant) : res DelegationGrant :=
  _ ← identifier (gr_id g);
  _ ← identifier (gr_grantor g);
  _ ← identifier (gr_grantee g);
  when bool_decide (gr_grantor g = gr_grantee g) raise ContractError "delegation requires two distinct tenants";;
  when bool_decide (gr_task_types g = []) || bool_decide ([] ∈ gr_task_types g)
    raise ContractError "delegation task_types must be non-empty";;
  when bool_decide (gr_resources g = []) || bool_decide ([] ∈ gr_resources g)
    raise ContractError "delegation resources must be non-empty";;
  when (gr_expires g <? 0)%Z raise ContractError "delegation expires_at must be a nonnegative integer";;
  Ok g.

Definition permits (g : DelegationGrant) (task_type resource : pystr) (now : Z) : bool :=
  (now <=? gr_expires g)%Z && bool_decide (task_type ∈ gr_task_types g) && bool_decide (resource ∈ gr_resources g).

Record DelegationReceipt : Type := mkDelegation {
  dg_grant : pystr;
  dg_task : pystr;
  dg_resource : pystr;
  dg_at : Z;
  dg_approval : json;
  dg_result : pystr
}.
Definition delegation_fields (r : DelegationReceipt) : dict json :=
  [(str "grant_id", JStr (dg_grant r)); (str "task_type", JStr (dg_task r)); (str "resource", JStr (dg_resource r));
   (str "executed_at", JInt (dg_at r)); (str "approval_id", dg_approval r); (str "result_digest", JStr (dg_result r))].
Definition delegation_hash (r : DelegationReceipt) : res pystr := digest (JDict (delegation_fields r)).
(** [to_dict] *)
Definition delegation_dict (r : DelegationReceipt) : res (dict json) :=
  h ← delegation_hash r; Ok ((str "receipt_hash", JStr h) :: delegation_fields r).

Record DelegationEngine : Type := mkEngine {
  de_heap : heap;
  de_tenants : dict Tenant;
  de_grants : dict DelegationGrant
}.

Definition add_grant (grant : DelegationGrant) (s : DelegationEngine) : res DelegationEngine :=
  when dmem (gr_id grant) (de_grants s) raise ContractError "duplicate delegation grant id";;
  when negb (dmem (gr_grantor grant) (de_tenants s)) || negb (dmem (gr_grantee grant) (de_tenants s))
    raise ContractError "delegation tenant is unknown";;
  Ok (mkEngine (de_heap s) (de_tenants s) (dset (gr_id grant) grant (de_grants s))).

(** [_scoped_grant] *)
Definition scoped_grant (s : DelegationEngine) (grant_id task_type resource : pystr) (now : Z) : res DelegationGrant :=
  grant ← of_option (ContractError "unknown delegation grant") (dget grant_id (de_grants s));
  when (gr_expires grant <? now)%Z raise ContractError "delegation grant has expired (ENT3-R4)";;
  when negb (bool_decide (task_type ∈ gr_task_types grant)) || negb (bool_decide (resource ∈ gr_resources grant))
    raise ContractError "delegation scope violation (ENT3-R4)";;
  Ok grant.

Definition request_approval (grant_id task_type resource : pystr) (now : Z) (s : DelegationEngine) : res (pystr * DelegationEngine) :=
  grant ← scoped_grant s grant_id task_type resource now;
  grantor ← dgetitem (gr_grantor grant) (de_tenants s);
  let st := state_of (de_heap s) grantor in
  approval_id ← digest (jobj [("grant", JStr (gr_id grant)); ("task", JStr task_type); ("resource", JStr resource);
                              ("at", JInt now); ("pending", JInt (Z.of_nat (length (tt_hitl st))))]);
  st' ← enqueue_hitl (jobj [("kind", JStr (str "delegation-approval")); ("approval_id", JStr approval_id);
                            ("grant_id", JStr (gr_id grant)); ("grantee", JStr (gr_grantee grant)); ("task_type", JStr task_type);
                            ("resource", JStr resource); ("approved", JBool false)]) st;
  Ok (approval_id, mkEngine (set_state grantor st' (de_heap s)) (de_tenants s) (de_grants s)).

(** The request is for this execution. *)
Definition request_matches (request : dict json) (grant : DelegationGrant) (approval_id task_type resource : pystr) : bool :=
  let field k := default JNull (dget (str k) request) in
  py_eq (field "approval_id"%string) (JStr approval_id) && py_eq (field "grant_id"%string) (JStr (gr_id grant)) &&
  py_eq (field "task_type"%string) (JStr task_type) && py_eq (field "resource"%string) (JStr resource).

(** [_approved]: the first matching request decides. *)
Fixpoint find_approved (queue : list (dict json)) (grant : DelegationGrant) (approval_id task_type resource : pystr) : res (dict json) :=
  match queue with
  | [] => Raise (ContractError "no HITL approval recorded for this execution (ENT3-R4)")
  | request :: queue =>
      if request_matches request grant approval_id task_type resource
      then when negb (truthy (default JNull (dget (str "approved") request)))
             raise ContractError "grantor HITL approval is still pending (ENT3-R4)";; Ok request
      else find_approved queue grant approval_id task_type resource
  end.
Definition approved (s : DelegationEngine) (grant : DelegationGrant) (approval_id task_type resource : pystr) : res (dict json) :=
  grantor ← dgetitem (gr_grantor grant) (de_tenants s);
  find_approved (tt_hitl (state_of (de_heap s) grantor)) grant approval_id task_type resource.

(** [self.tenants[tenant_id].state.append_receipt(receipt.to_dict())] *)
Definition append_to (receipt : DelegationReceipt) (tenant_id : pystr) : SM DelegationEngine unit :=
  s ← sm_get;
  t ← sm_lift (dgetitem tenant_id (de_tenants s));
  d ← sm_lift (delegation_dict receipt);
  r ← sm_lift (append_receipt (JDict d) (state_of (de_heap s) t));
  sm_mod (λ s, mkEngine (set_state t r.2 (de_heap s)) (de_tenants s) (de_grants s)).

Definition execute (grant_id task_type resource : pystr) (now : Z) (approval_id : pystr) (result : json)
    : SM DelegationEngine DelegationReceipt :=
  s ← sm_get;
  grant ← sm_lift (scoped_grant s grant_id task_type resource now);
  approval ← sm_lift (approved s grant approval_id task_type resource);
  match result with
  | JDict _ =>
      aid ← sm_lift (dgetitem (str "approval_id") approval);
      rd ← sm_lift (digest result);
      let receipt := mkDelegation (gr_id grant) task_type resource now aid rd in
      _ ← sm_for [gr_grantor grant; gr_grantee grant] (append_to receipt);
      mret receipt
  | _ => sm_raise (ContractError "delegation result must be a mapping")
  end.

(** ** Delegation is guarded *)
Lemma scoped_grant_Ok s gid task rsc now g :
  scoped_grant s gid task rsc now = Ok g ↔ dget gid (de_grants s) = Some g ∧ permits g task rsc now = true.
Proof.
  unfold scoped_grant, permits. destruct (dget gid (de_grants s)) as [x|]; cbn [of_option mbind res_bind]; [|naive_solver].
  transitivity (x = g ∧ (now <=? gr_expires x)%Z && bool_decide (task ∈ gr_task_types x) && bool_decide (rsc ∈ gr_resources x) = true);
    [|naive_solver].
  rewrite Z.leb_antisym. destruct (gr_expires x <? now)%Z, (bool_decide (task ∈ _)), (bool_decide (rsc ∈ _)); cbn; naive_solver.
Qed.

Lemma find_approved_Ok q g aid task rsc r :
  find_approved q g aid task rsc = Ok r →
  r ∈ q ∧ request_matches r g aid task rsc = true ∧ truthy (default JNull (dget (str "approved") r)) = true.
Proof.
  induction q as [|x q IH]; cbn [find_approved]; [done|]. destruct (request_matches x g aid task rsc) eqn:E.
  - destruct (truthy (default JNull (dget (str "approved") x))) eqn:Et; cbn [negb]; [|discriminate]. intros [= <-]. split_and!; [left|done|done].
  - intros (H1 & H2 & H3)%IH. split_and!; [by right|done|done].
Qed.

Lemma append_to_Ok receipt tid s s' :
  append_to receipt tid s = (Ok tt, s') ↔
  ∃ t d c st', dget tid (de_tenants s) = Some t ∧ delegation_dict receipt = Ok d ∧
    append_receipt (JDict d) (state_of (de_heap s) t) = Ok (c, st') ∧
    s' = mkEngine (set_state t st' (de_heap s)) (de_tenants s) (de_grants s).
Proof.
  unfold append_to, sm_get, sm_lift, sm_mod, mbind, SM_bind, dgetitem. destruct (dget tid (de_tenants s)) as [t|]; cbn [of_option]; [|naive_solver].
  destruct (delegation_dict receipt) as [d|]; [|naive_solver].
  destruct (append_receipt (JDict d) (state_of (de_heap s) t)) as [[c st']|] eqn:E;
    [|split; [done|]; intros (? & ? & ? & ? & [= <-] & [= <-] & He & _); congruence].
  split; [intros [= <-]; by exists t, d, c, st'|]. intros (? & ? & ? & ? & [= <-] & [= <-] & He & ->). rewrite E in He. by injection He as <- <-.
Qed.

(** The tenants of an engine have state objects of their own, and grants are
    between distinct tenants. *)
Record engine_ok (s : DelegationEngine) : Prop := {
  eg_distinct : ∀ a b ta tb, dget a (de_tenants s) = Some ta → dget b (de_tenants s) = Some tb → tn_state ta = tn_state tb → a = b;
  eg_parties : ∀ i g, dget i (de_grants s) = Some g → gr_grantor g ≠ gr_grantee g
}.

Lemma add_grant_ok g s s' : engine_ok s → is_ok (DelegationGrant_new g) = true → add_grant g s = Ok s' → engine_ok s'.
Proof.
  intros [H1 H2] Hg. unfold add_grant. destruct (dmem (gr_id g) (de_grants s)); [done|]. destruct (_ || _); [done|]. intros [= <-].
  split; [done|]. cbn. intros i g'. rewrite dget_dset. case_decide; [|apply H2]. intros [= <-]. destruct (DelegationGrant_new g) eqn:E; [|done].
  unfold DelegationGrant_new in E. do 3 (apply bind_Ok in E as (? & _ & E)). by case_bool_decide.
Qed.

Lemma state_of_set h t st u : state_of (set_state t st h) u = if decide (tn_state u = tn_state t) then st else state_of h u.
Proof.
  unfold state_of, set_state. case_decide as E; [by rewrite E, lookup_insert_eq|]. by rewrite lookup_insert_ne by done.
Qed.

(** A delegated execution is authorized by its grantor and recorded for
    both tenants: if [execute] returns a receipt, the grant is registered,
    unexpired and covers the task type and the resource, the grantor's queue
    holds an approved request for this approval, grant, task and resource, the
    receipt is appended to the chains of the grantor and the grantee, and
    nothing else of any tenant changes. *)
Theorem delegation_guarded (s s' : DelegationEngine) (gid task rsc aid : pystr) (now : Z) (result : json) (r : DelegationReceipt) :
  engine_ok s → execute gid task rsc now aid result s = (Ok r, s') →
  ∃ g request a b d c1 c2,
    dget gid (de_grants s) = Some g ∧ permits g task rsc now = true ∧
    dget (gr_grantor g) (de_tenants s) = Some a ∧ dget (gr_grantee g) (de_tenants s) = Some b ∧
    request ∈ tt_hitl (state_of (de_heap s) a) ∧ request_matches request g aid task rsc = true ∧
    truthy (default JNull (dget (str "approved") request)) = true ∧
    delegation_dict r = Ok d ∧
    append_receipt (JDict d) (state_of (de_heap s) a) = Ok (c1, state_of (de_heap s') a) ∧
    append_receipt (JDict d) (state_of (de_heap s) b) = Ok (c2, state_of (de_heap s') b) ∧
    (∀ t, tn_state t ≠ tn_state a → tn_state t ≠ tn_state b → state_of (de_heap s') t = state_of (de_heap s) t) ∧
    de_tenants s' = de_tenants s ∧ de_grants s' = de_grants s.
Proof.
  intros [Hd Hp]. unfold execute, sm_get, sm_lift, mbind. unfold SM_bind at 1 2 3.
  destruct (scoped_grant s gid task rsc now) as [g|] eqn:Hg; [|done]. apply scoped_grant_Ok in Hg as [Hg Hper].
  destruct (approved s g aid task rsc) as [req|] eqn:Ha; [|done].
  unfold approved in Ha. apply bind_Ok in Ha as (a & Haa & Ha). apply dgetitem_Ok in Haa.
  destruct (find_approved_Ok _ _ _ _ _ _ Ha) as (Hin & Hm & Ht).
  destruct result as [| | | | | |rr]; try done. unfold SM_bind at 1 2.
  destruct (dgetitem (str "approval_id") req) as [ai|] eqn:Hai; [|done]. destruct (digest (JDict rr)) as [rd|] eqn:Hrd; [|done].
  set (rcp := mkDelegation _ _ _ _ _ _). cbn [sm_for]. unfold mbind, SM_bind at 1 2 3.
  destruct (append_to rcp (gr_grantor g) s) as [[[]|] s1] eqn:E1; [|done].
  destruct (append_to rcp (gr_grantee g) s1) as [[[]|] s2] eqn:E2; [|done]. intros [= <- <-].
  apply append_to_Ok in E1 as (t1 & d & c1 & st1 & Ht1 & Hd1 & Hr1 & ->). apply append_to_Ok in E2 as (t2 & d2 & c2 & st2 & Ht2 & Hd2 & Hr2 & ->).
  cbn [de_tenants de_heap de_grants] in *. assert (t1 = a) as -> by congruence. assert (d2 = d) as -> by congruence.
  assert (Hne : tn_state t2 ≠ tn_state a) by (intros He; by eapply (Hp _ _ Hg), eq_sym, Hd).
  rewrite state_of_set, decide_False in Hr2 by done.
  exists g, req, a, t2, d, c1, c2. split_and!; try done.
  - rewrite state_of_set, decide_False, state_of_set, decide_True by done. done.
  - rewrite state_of_set, decide_True by done. done.
  - intros t Hta Htb. by rewrite !state_of_set, !decide_False by done.
Qed.

(** ** A concrete delegation *)
(** The granting tenant's operator approves a pending request in place. *)
Definition approve_request (aid : pystr) (request : dict json) : dict json :=
  if py_eq (default JNull (dget (str "approval_id") request)) (JStr aid) then dset (str "approved") (JBool true) request else request.
Definition human_approves (t : Tenant) (aid : pystr) (s : DelegationEngine) : DelegationEngine :=
  let st := state_of (de_heap s) t in
  mkEngine (set_state t (set_hitl (approve_request aid <$> tt_hitl st) st) (de_heap s)) (de_tenants s) (de_grants s).

Definition demo_grant : DelegationGrant :=
  mkGrant (str "g1") (str "tenantA") (str "tenantB") [str "deploy"] [str "cluster-1"] 100.
Definition demo_tenants : dict Tenant := [(str "tenantA", mkTenant (str "tenantA") 1 0); (str "tenantB", mkTenant (str "tenantB") 1 1)].
Definition demo_engine : DelegationEngine :=
  mkEngine {[0%nat := TenantState_new; 1%nat := TenantState_new]} demo_tenants [(str "g1", demo_grant)].
Definition demo_request : pystr * DelegationEngine :=
  match request_approval (str "g1") (str "deploy") (str "cluster-1") 10 demo_engine with
  | Ok r => r
  | Raise _ => ([], demo_engine)
  end.
Definition demo_approved : DelegationEngine := human_approves (mkTenant (str "tenantA") 1 0) demo_request.1 demo_request.2.
Definition demo_execute (result : json) : SM DelegationEngine DelegationReceipt :=
  execute (str "g1") (str "deploy") (str "cluster-1") 11 demo_request.1 result.

Lemma demo_engine_ok : engine_ok demo_approved.
Proof.
  split; unfold demo_approved, demo_request.
  - assert (Ht : de_tenants (human_approves (mkTenant (str "tenantA") 1 0) demo_request.1 demo_request.2) = demo_tenants) by (vm_compute; reflexivity).
    unfold demo_request in Ht. rewrite Ht. intros a b ta tb Ha Hb. apply dget_Some_elem in Ha, Hb. unfold demo_tenants in *.
    apply elem_of_cons in Ha as [[= -> ->]|Ha]; apply elem_of_cons in Hb as [[= -> ->]|Hb]; try done;
      try (apply list_elem_of_singleton in Ha as [= -> ->]); try (apply list_elem_of_singleton in Hb as [= -> ->]); done.
  - assert (Hg : de_grants (human_approves (mkTenant (str "tenantA") 1 0) demo_request.1 demo_request.2) = [(str "g1", demo_grant)]) by (vm_compute; reflexivity).
    unfold demo_request in Hg. rewrite Hg. intros i g Hi. apply dget_Some_elem, list_elem_of_singleton in Hi. injection Hi as -> ->. done.
Defined.

Lemma delegation_guarded_witness :
  ∃ r s' g, demo_execute (JDict []) demo_approved = (Ok r, s') ∧
    dget (str "g1") (de_grants demo_approved) = Some g ∧ permits g (str "deploy") (str "cluster-1") 11 = true.
Proof.
  destruct (demo_execute (JDict []) demo_approved) as [[r|e] s'] eqn:E.
  - destruct (delegation_guarded demo_approved s' (str "g1") (str "deploy") (str "cluster-1") demo_request.1 11 (JDict []) r
      demo_engine_ok E) as (g & ? & ? & ? & ? & ? & ? & Hg & Hp & _). exists r, s', g. split; [reflexivity|]. split; [exact Hg|exact Hp].
  - exfalso. apply (f_equal (λ x, is_ok x.1)) in E. revert E. vm_compute. discriminate.
Defined.

(** The approval of one execution is not consumed: with a single approved
    request, executions with different results all succeed and are recorded. *)
Theorem approval_replayed :
  ∃ r1 r2 s1 s2,
    demo_execute (JDict [(str "n", JInt 1)]) demo_approved = (Ok r1, s1) ∧
    demo_execute (JDict [(str "n", JInt 2)]) s1 = (Ok r2, s2) ∧ dg_result r1 ≠ dg_result r2 ∧
    length (tt_hitl (state_of (de_heap demo_approved) (mkTenant (str "tenantA") 1 0))) = 1 ∧
    length (tt_receipts (state_of (de_heap s2) (mkTenant (str "tenantA") 1 0))) = 2.
Proof.
  destruct (demo_execute (JDict [(str "n", JInt 1)]) demo_approved) as [[r1|e] s1] eqn:E1.
  2: { exfalso. apply (f_equal (λ x, is_ok x.1)) in E1. revert E1. vm_compute. discriminate. }
  destruct (demo_execute (JDict [(str "n", JInt 2)]) s1) as [[r2|e] s2] eqn:E2.
  2: { exfalso. apply (f_equal snd) in E1. cbn [snd] in E1. rewrite <- E1 in E2. apply (f_equal (λ x, is_ok x.1)) in E2. revert E2. vm_compute. discriminate. }
  exists r1, r2, s1, s2. split; [done|]. split; [done|].
  apply (f_equal snd) in E1 as Es1. cbn [snd] in Es1. apply (f_equal (λ x, x.1)) in E1 as Er1. cbn [fst] in Er1.
  rewrite <- Es1 in E2. apply (f_equal snd) in E2 as Es2. cbn [snd] in Es2. apply (f_equal (λ x, x.1)) in E2 as Er2. cbn [fst] in Er2.
  clear E1 E2. split.
  - intros He. assert (Hcmp : match (demo_execute (JDict [(str "n", JInt 1)]) demo_approved).1,
        (demo_execute (JDict [(str "n", JInt 2)]) (demo_execute (JDict [(str "n", JInt 1)]) demo_approved).2).1 with
        Ok a, Ok b => bool_decide (dg_result a = dg_result b) | _, _ => true end = false) by (vm_compute; reflexivity).
    rewrite Er1, Er2 in Hcmp. by rewrite bool_decide_true in Hcmp.
  - rewrite <- Es2. split; vm_compute; reflexivity.
Qed.

(** ** Lifecycle *)
(** What a deletion does on each branch; the last one is a deletion whose
    history cannot be digested. *)
Lemma delete_tenant_eq operator id s :
  delete_tenant operator id s =
  if negb (op_admin operator) then (Raise (ContractError "platform-level privileges required for tenant lifecycle (ENT3-R6)"), s) else
  match identifier id with
  | Raise e => (Raise e, s)
  | Ok _ =>
      match dget id (lc_tenants s) with
      | None => (Raise (ContractError "unknown tenant"), s)
      | Some t =>
          let st := state_of (lc_heap s) t in
          match deletion_receipt id (tt_receipts st) (tt_observations st) with
          | Ok receipt =>
              let record := mkDeletion id (tt_receipts st) (tt_observations st) receipt in
              (Ok record, mkLifecycle (set_state t TenantState_new (lc_heap s)) (ddel id (lc_tenants s)) (dset id record (lc_archives s)))
          | Raise e => (Raise e, mkLifecycle (lc_heap s) (ddel id (lc_tenants s)) (lc_archives s))
          end
      end
  end.
Proof.
  unfold delete_tenant, require_platform_admin, sm_lift, sm_get, sm_mod, mbind, SM_bind. destruct (negb (op_admin operator)); [done|].
  destruct (identifier id); [|done]. destruct (dget id (lc_tenants s)) as [t|]; [|done]. cbn [of_option].
  cbn zeta. by destruct (deletion_receipt id (tt_receipts (state_of (lc_heap s) t)) (tt_observations (state_of (lc_heap s) t))).
Qed.

(** Operators create and delete; the tenants' own activity changes states. *)
Inductive lop : Type :=
| LCreate (operator : PlatformOperator) (id : pystr) (quota : Z)
| LDelete (operator : PlatformOperator) (id : pystr)
| LState (address : nat) (st : TenantState).

Definition lstep (s : TenantLifecycle) (op : lop) : TenantLifecycle :=
  match op with
  | LCreate o id q => match create_tenant o id q s with Ok (_, s') => s' | Raise _ => s end
  | LDelete o id => (delete_tenant o id s).2
  | LState a st => mkLifecycle (<[a := st]> (lc_heap s)) (lc_tenants s) (lc_archives s)
  end.
Definition lsteps (s : TenantLifecycle) (ops : list lop) : TenantLifecycle := foldl lstep s ops.
Definition TenantLifecycle_new : TenantLifecycle := mkLifecycle ∅ [] [].

Record linv (s : TenantLifecycle) : Prop := {
  li_keys : wf_dict (lc_tenants s);
  li_disjoint : ∀ id t, dget id (lc_tenants s) = Some t → dget id (lc_archives s) = None
}.

Lemma lstep_inv s op : linv s → linv (lstep s op).
Proof.
  intros [Hk Hd]. destruct op as [o id q|o id|a st]; cbn [lstep].
  - unfold create_tenant. destruct (require_platform_admin o); cbn [mbind res_bind]; [|by split].
    destruct (identifier id); cbn [mbind res_bind]; [|by split]. destruct (dmem id (lc_tenants s)) eqn:Em; [by split|].
    destruct (dmem id (lc_archives s)) eqn:Ea; [by split|]. destruct (Tenant_new id q _) as [t|]; cbn [mbind res_bind]; [|by split].
    split; cbn; [by apply wf_dset|]. intros id' t'. rewrite dget_dset. case_decide; [subst|apply Hd]. intros _.
    unfold dmem in Ea. by destruct (dget id (lc_archives s)).
  - rewrite delete_tenant_eq. destruct (negb _); [by split|]. destruct (identifier id); [|by split].
    destruct (dget id (lc_tenants s)) as [t|] eqn:Et; [|by split].
    assert (Hdel : ∀ id' t', dget id' (ddel id (lc_tenants s)) = Some t' → id' ≠ id ∧ dget id' (lc_archives s) = None).
    { intros id' t' H. destruct (decide (id' = id)) as [->|Hne]; [by rewrite dget_ddel_eq in H|]. rewrite dget_ddel_ne in H by done. eauto. }
    cbn zeta. destruct (deletion_receipt id (tt_receipts (state_of (lc_heap s) t)) (tt_observations (state_of (lc_heap s) t))); (split; cbn; [by apply wf_ddel|]); intros id' t' H; destruct (Hdel _ _ H) as [Hne Hn]; [|done].
    by rewrite dget_dset, decide_False.
  - by split.
Qed.

Lemma lstep_archive s op id rec : linv s → dget id (lc_archives s) = Some rec → dget id (lc_archives (lstep s op)) = Some rec.
Proof.
  intros [Hk Hd] Ha. destruct op as [o id' q|o id'|a st]; cbn [lstep].
  - unfold create_tenant. destruct (require_platform_admin o); cbn [mbind res_bind]; [|done].
    destruct (identifier id'); cbn [mbind res_bind]; [|done]. destruct (dmem id' (lc_tenants s)); [done|].
    destruct (dmem id' (lc_archives s)); [done|]. by destruct (Tenant_new id' q _).
  - rewrite delete_tenant_eq. destruct (negb _); [done|]. destruct (identifier id'); [|done].
    destruct (dget id' (lc_tenants s)) as [t|] eqn:Et; [|done].
    cbn zeta. destruct (deletion_receipt id' (tt_receipts (state_of (lc_heap s) t)) (tt_observations (state_of (lc_heap s) t))); [|done]. cbn.
    rewrite dget_dset. case_decide; [subst|done]. apply Hd in Et. congruence.
  - done.
Qed.

Lemma lsteps_inv ops : ∀ s, linv s → linv (lsteps s ops).
Proof. induction ops as [|op ops IH]; intros s Hs; [done|]. apply IH. by apply lstep_inv. Qed.

Lemma lsteps_archive ops id rec : ∀ s, linv s → dget id (lc_archives s) = Some rec →
  dget id (lc_archives (lsteps s ops)) = Some rec ∧ dget id (lc_tenants (lsteps s ops)) = None.
Proof.
  induction ops as [|op ops IH]; intros s Hs Ha.
  - split; [done|]. destruct (dget id (lc_tenants s)) as [t|] eqn:E; [|done]. apply (li_disjoint _ Hs) in E. cbn in *. congruence.
  - apply IH; [by apply lstep_inv|by apply lstep_archive].
Qed.

Lemma linv_new : linv TenantLifecycle_new.
Proof. split; [apply NoDup_nil_2|done]. Qed.

(** Deletion archives everything, destroys the tenant and is final: in
    every history of creations, deletions and tenant activity, deleting a
    registered tenant whose history can be digested returns a record with all
    its receipts and observations, empties its state object for every holder,
    and from then on, whatever happens next, the record stays in the archive
    unchanged and the id is never a tenant again. *)
Theorem deletion_final (ops later : list lop) (operator : PlatformOperator) (id : pystr) (t : Tenant) (receipt : dict json) :
  let s := lsteps TenantLifecycle_new ops in
  let st := state_of (lc_heap s) t in
  let record := mkDeletion id (tt_receipts st) (tt_observations st) receipt in
  op_admin operator = true → ident_ok id = true → dget id (lc_tenants s) = Some t →
  deletion_receipt id (tt_receipts st) (tt_observations st) = Ok receipt →
  ∃ s', delete_tenant operator id s = (Ok record, s') ∧
    state_of (lc_heap s') t = TenantState_new ∧ (∀ a, a ≠ tn_state t → lc_heap s' !! a = lc_heap s !! a) ∧
    dget id (lc_archives (lsteps s' later)) = Some record ∧ dget id (lc_tenants (lsteps s' later)) = None.
Proof.
  intros s st record Hop Hid Ht Hr. pose proof (lsteps_inv ops _ linv_new) as HI. fold s in HI.
  pose proof (lstep_inv s (LDelete operator id) HI) as HI'. cbn [lstep] in HI'.
  assert (Hdel : delete_tenant operator id s =
    (Ok record, mkLifecycle (set_state t TenantState_new (lc_heap s)) (ddel id (lc_tenants s)) (dset id record (lc_archives s)))).
  { rewrite delete_tenant_eq, Hop. cbn [negb]. unfold identifier. rewrite Hid. cbn [negb]. rewrite Ht. cbn zeta. fold st. by rewrite Hr. }
  rewrite Hdel in HI'. eexists. split; [exact Hdel|]. cbn [lc_heap]. split_and!.
  - by rewrite state_of_set, decide_True.
  - intros a Ha. unfold set_state. by rewrite lookup_insert_ne.
  - apply lsteps_archive; [done|]. cbn. apply dget_dset_eq.
  - apply (lsteps_archive later id record); [done|]. cbn. apply dget_dset_eq.
Qed.

(** The lifecycle and delegation compose: once a tenant is deleted, no
    delegation it granted can be executed, even by an engine that still holds
    its tenant object and its grant. *)
Theorem deleted_grantor_cannot_delegate (s s' : TenantLifecycle) (operator : PlatformOperator) (id : pystr) (t : Tenant)
    (record : DeletionRecord) (e : DelegationEngine) (gid task rsc aid : pystr) (now : Z) (result : json) (g : DelegationGrant) :
  delete_tenant operator id s = (Ok record, s') → dget id (lc_tenants s) = Some t →
  de_heap e = lc_heap s' → dget id (de_tenants e) = Some t →
  dget gid (de_grants e) = Some g → gr_grantor g = id →
  ∃ x, execute gid task rsc now aid result e = (Raise x, e).
Proof.
  rewrite delete_tenant_eq. destruct (negb _); [done|]. destruct (identifier id); [|done]. intros Hdel Ht Hh Hte Hg Hgr.
  rewrite Ht in Hdel. cbn zeta in Hdel.
  destruct (deletion_receipt id (tt_receipts (state_of (lc_heap s) t)) (tt_observations (state_of (lc_heap s) t))); [|discriminate Hdel].
  injection Hdel as _ <-. cbn [lc_heap] in Hh.
  unfold execute, sm_get, sm_lift, mbind. unfold SM_bind at 1 2 3. destruct (scoped_grant e gid task rsc now) as [g'|] eqn:Eg; [|by eexists].
  apply scoped_grant_Ok in Eg as [Eg _]. assert (g' = g) as -> by congruence.
  unfold approved, dgetitem. rewrite Hgr, Hte. cbn [of_option mbind res_bind]. rewrite Hh, state_of_set, decide_True by done. cbn.
  by eexists.
Qed.

(** ** A concrete lifecycle *)
Definition demo_admin : PlatformOperator := mkOperator (str "root") true.
Definition demo_history : list lop :=
  [LCreate demo_admin (str "tenantA") 1; LCreate demo_admin (str "tenantB") 2;
   LState 0 (mkTenantState [] [] [[(str "receipt_hash", JStr (str "r1"))]] [[(str "seen", JInt 1)]] [] ∅ [])].
Definition demo_lifecycle : TenantLifecycle := lsteps TenantLifecycle_new demo_history.
Definition demo_tenant : Tenant := mkTenant (str "tenantA") 1 0.

Lemma deletion_final_witness :
  ∃ record s', delete_tenant demo_admin (str "tenantA") demo_lifecycle = (Ok record, s') ∧ length (dr_receipts record) = 1 ∧
    dget (str "tenantA") (lc_tenants (lsteps s' [LCreate demo_admin (str "tenantA") 1])) = None.
Proof.
  destruct (deletion_receipt (str "tenantA") (tt_receipts (state_of (lc_heap demo_lifecycle) demo_tenant))
    (tt_observations (state_of (lc_heap demo_lifecycle) demo_tenant))) as [rc|x] eqn:Hr.
  2: { exfalso. apply (f_equal is_ok) in Hr. revert Hr. vm_compute. discriminate. }
  destruct (deletion_final demo_history [LCreate demo_admin (str "tenantA") 1] demo_admin (str "tenantA") demo_tenant rc) as (s' & Hdel & _ & _ & _ & Hn);
    [reflexivity|vm_compute; reflexivity|vm_compute; reflexivity|exact Hr|].
  eexists _, s'. split; [exact Hdel|]. split; [vm_compute; reflexivity|exact Hn].
Defined.

Lemma deleted_grantor_cannot_delegate_witness :
  ∃ x, let e := mkEngine (lc_heap (delete_tenant demo_admin (str "tenantA") demo_lifecycle).2) (lc_tenants demo_lifecycle) [(str "g1", demo_grant)] in
    execute (str "g1") (str "deploy") (str "cluster-1") 11 (str "a1") (JDict []) e = (Raise x, e).
Proof.
  destruct (delete_tenant demo_admin (str "tenantA") demo_lifecycle) as [[rc|x] s'] eqn:E.
  2: { exfalso. apply (f_equal (λ x, is_ok x.1)) in E. revert E. vm_compute. discriminate. }
  apply (deleted_grantor_cannot_delegate demo_lifecycle s' demo_admin (str "tenantA") demo_tenant rc _ _ _ _ _ _ _ demo_grant E);
    vm_compute; reflexivity.
Defined.

(** A tenant with an observation that has no canonical form (a float that is
    not a number) cannot be deleted properly: the deletion raises after the
    tenant left the registry, so it is neither archived nor destroyed, and its
    id is free again. *)
Theorem undigestible_tenant_lost :
  let nan := [(str "value", JFloat S754_nan)] in
  let s := lsteps TenantLifecycle_new
             [LCreate demo_admin (str "tenantA") 1; LState 0 (mkTenantState [] [] [] [nan] [] ∅ [])] in
  ∃ e s', append_observation (JDict nan) TenantState_new = Ok (mkTenantState [] [] [] [nan] [] ∅ []) ∧
    dget (str "tenantA") (lc_tenants s) = Some demo_tenant ∧
    delete_tenant demo_admin (str "tenantA") s = (Raise e, s') ∧
    lc_tenants s' = [] ∧ lc_archives s' = [] ∧ tt_observations (state_of (lc_heap s') demo_tenant) = [nan] ∧
    is_ok (create_tenant demo_admin (str "tenantA") 1 s') = true.
Proof.
  intros nan s. exists (ValueError "Out of range float values are not JSON compliant"), (delete_tenant demo_admin (str "tenantA") s).2.
  split_and!; vm_compute; reflexivity.
Qed.
