(* ===== verification/Structural.v ===== *)
(** * Finite constraint grouping (residual/cic.py)

    Finite models of integer variables with disequalities, orders and sums:
    validation, the consistency check, the interaction graph and its connected
    components, min-fill elimination certificates and the bounded backtracking
    search.  A validated model is the typed view of its JSON text; variable
    assignments and graphs are finite maps, because nothing of theirs depends on
    the order of a dictionary or a set. *)

From Stdlib Require Import ZArith NArith Lia.
From S2P Require Import Prelude PyData Sha256 PyFloat Json JsonFacts Core CoreFacts Journal.

#[local] Open Scope Z_scope.

Record Model : Type := mkModel {
  m_domains : dict (list Z);
  m_different : list (pystr * pystr);
  m_less_than : list (pystr * pystr);
  m_sums : list (list pystr * Z)
}.

(** ** [validate_model] *)
Definition model_error {A} (msg : string) : res A := Raise (ContractError msg).

Definition as_int (v : json) : option Z := match v with JInt z => Some z | _ => None end.

Definition validate_domain (kv : pystr * json) : res (pystr * list Z) :=
  _ ← identifier kv.1;
  match kv.2 with
  | JList l =>
      values ← of_option (ContractError "invalid structural domain") (mapM as_int l);
      when negb ((1 <=? length values)%nat && (length values <=? 64)%nat) || negb (forallb (λ v, Z.abs v <=? 10 ^ 6) values)
           || negb (bool_decide (NoDup values))
        raise ContractError "invalid structural domain";;
      Ok (kv.1, values)
  | _ => model_error "invalid structural domain"
  end.

(** [keys]: a list of 1..32 names of variables. *)
Definition scope_of (domains : dict (list Z)) (v : json) : res (list pystr) :=
  match v with
  | JList l =>
      when negb ((1 <=? length l)%nat && (length l <=? 32)%nat) raise ContractError "invalid structural constraint scope";;
      mapM (λ x, match x with
                 | JStr k => if dmem k domains then Ok k else model_error "invalid structural constraint scope"
                 | _ => model_error "invalid structural constraint scope"
                 end) l
  | _ => model_error "invalid structural constraint scope"
  end.
Definition validate_pair (domains : dict (list Z)) (rule : json) : res (pystr * pystr) :=
  keys ← scope_of domains rule;
  match keys with [a; b] => Ok (a, b) | _ => model_error "invalid structural constraint scope" end.
Definition validate_sum (domains : dict (list Z)) (rule : json) : res (list pystr * Z) :=
  match rule with
  | JDict r =>
      when negb (bool_decide (list_to_set (C := gset pystr) r.*1 = {[str "keys"; str "equals"]})) raise ContractError "invalid structural sum";;
      equals ← of_option (ContractError "invalid structural sum") (dget (str "equals") r ≫= as_int);
      when (32 * 10 ^ 6 <? Z.abs equals) raise ContractError "invalid structural sum";;
      keys ← scope_of domains (default JNull (dget (str "keys") r));
      when negb (bool_decide (NoDup keys)) raise ContractError "invalid structural constraint scope";;
      Ok (keys, equals)
  | _ => model_error "invalid structural sum"
  end.

(** The rules of one kind, given how many were counted before. *)
Definition rules_of (kind : string) (count : nat) (model : dict json) : res (list json) :=
  match default (JList []) (dget (str kind) model) with
  | JList rules =>
      when (128 <? count + length rules)%nat raise ContractError "too many structural constraints";; Ok rules
  | _ => model_error "invalid structural constraints"
  end.

Definition validate_model (model : json) : res Model :=
  match model with
  | JDict m =>
      when negb (bool_decide (list_to_set (C := gset pystr) m.*1 ⊆ {[str "domains"; str "different"; str "less_than"; str "sums"]}))
        raise ContractError "unsupported structural model";;
      match dget (str "domains") m with
      | Some (JDict ds) =>
          when negb ((1 <=? length ds)%nat && (length ds <=? 32)%nat) raise ContractError "structural model requires 1..32 variables";;
          domains ← mapM validate_domain ds;
          d ← rules_of "different" 0 m;
          different ← mapM (validate_pair domains) d;
          l ← rules_of "less_than" (length d) m;
          less_than ← mapM (validate_pair domains) l;
          s ← rules_of "sums" (length d + length l) m;
          sums ← mapM (validate_sum domains) s;
          Ok (mkModel domains different less_than sums)
      | _ => model_error "structural model requires 1..32 variables"
      end
  | _ => model_error "unsupported structural model"
  end.

(** ** [consistent] *)
Definition domain (m : Model) (k : pystr) : list Z := default [] (dget k (m_domains m)).
Definition list_min (l : list Z) : Z := match l with [] => 0 | x :: l => foldl Z.min x l end.
Definition list_max (l : list Z) : Z := match l with [] => 0 | x :: l => foldl Z.max x l end.

(** [sum(values[k] if k in values else bound(domains[k]) for k in keys)] *)
Definition sum_with (bound : pystr → Z) (values : gmap pystr Z) (keys : list pystr) : Z :=
  foldr (λ k n, default (bound k) (values !! k) + n) 0 keys.

Definition pair_ok (rel : Z → Z → bool) (values : gmap pystr Z) (rule : pystr * pystr) : bool :=
  match values !! rule.1, values !! rule.2 with Some a, Some b => rel a b | _, _ => true end.
Definition sum_ok (m : Model) (values : gmap pystr Z) (rule : list pystr * Z) : bool :=
  (sum_with (λ k, list_min (domain m k)) values rule.1 <=? rule.2) &&
  (rule.2 <=? sum_with (λ k, list_max (domain m k)) values rule.1).

Definition keys_of (m : Model) : gset pystr := list_to_set (m_domains m).*1.

(** On an assignment of integers. *)
Definition consistent (m : Model) (values : gmap pystr Z) (complete : bool) : bool :=
  bool_decide (dom values ⊆ keys_of m) && (negb complete || bool_decide (dom values = keys_of m)) &&
  bool_decide (map_Forall (λ k v, v ∈ domain m k) values) &&
  forallb (pair_ok (λ a b, negb (a =? b)) values) (m_different m) &&
  forallb (pair_ok (λ a b, negb (b <=? a)) values) (m_less_than m) &&
  forallb (sum_ok m values) (m_sums m).

(** On any value: one that is not an object of integers is not consistent. *)
Definition consistent_json (m : Model) (values : json) (complete : bool) : bool :=
  match values with
  | JDict d =>
      match mapM (λ kv, (λ z, (kv.1, z)) <$> as_int kv.2) d with
      | Some l => consistent m (list_to_map l) complete
      | None => false
      end
  | _ => false
  end.

(** ** The interaction graph *)
Abbreviation graph := (gmap pystr (gset pystr)).
Definition nbrs (g : graph) (k : pystr) : gset pystr := default ∅ (g !! k).

(** [combinations(l, 2)] *)
Fixpoint combinations2 {A} (l : list A) : list (A * A) :=
  match l with [] => [] | x :: l => ((λ y, (x, y)) <$> l) ++ combinations2 l end.
Definition sorted_set (s : gset pystr) : list pystr := sort_str (elements s).

(** [graph[a].add(b); graph[b].add(a)] *)
Definition add_edge (g : graph) (e : pystr * pystr) : graph :=
  let g := <[e.1 := {[e.2]} ∪ nbrs g e.1]> g in
  <[e.2 := {[e.1]} ∪ nbrs g e.2]> g.

Definition scopes (m : Model) : list (list pystr) :=
  ((λ p, [p.1; p.2]) <$> m_different m) ++ ((λ p, [p.1; p.2]) <$> m_less_than m) ++ (m_sums m).*1.
Definition interaction_graph (m : Model) : graph :=
  foldl (λ g scope, foldl add_edge g (combinations2 (sorted_set (list_to_set scope))))
        (list_to_map ((λ k, (k, ∅)) <$> (m_domains m).*1)) (scopes m).

(** [_graph_copy]: the same graph, when it is one. *)
Definition graph_ok (g : graph) : bool :=
  bool_decide (map_Forall (λ k ns, (k ∉ ns) ∧ ns ⊆ dom g ∧ set_Forall (λ n, k ∈ nbrs g n) ns) g).
Definition graph_copy (g : graph) : res graph :=
  when (32 <? size g)%nat raise ContractError "invalid structural graph";;
  when negb (graph_ok g) raise ContractError "graph must be undirected without self edges";;
  Ok g.

(** [_eliminate]: the step and the graph without the node. *)
Definition fill_of (g : graph) (neighbors : list pystr) : list (pystr * pystr) :=
  filter (λ e, e.2 ∉ nbrs g e.1) (combinations2 neighbors).
Record Step : Type := mkStep { s_node : pystr; s_neighbors : list pystr; s_fill : list (pystr * pystr) }.
Definition eliminate (g : graph) (node : pystr) : Step * graph :=
  let neighbors := sorted_set (nbrs g node) in
  let fill := fill_of g neighbors in
  let g := foldl add_edge g fill in
  let g := foldl (λ g n, <[n := nbrs g n ∖ {[node]}]> g) g neighbors in
  (mkStep node neighbors fill, delete node g).
Fixpoint eliminate_all (g : graph) (ordering : list pystr) : list Step :=
  match ordering with
  | [] => []
  | node :: ordering => let '(step, g) := eliminate g node in step :: eliminate_all g ordering
  end.

Definition step_json (s : Step) : json :=
  jobj [("node", JStr (s_node s)); ("neighbors", json_strs (s_neighbors s));
        ("fill_edges", JList ((λ e, json_strs [e.1; e.2]) <$> s_fill s))].
Definition width (steps : list Step) : nat := foldr (λ s n, Nat.max (length (s_neighbors s)) n) 0%nat steps.
Definition certificate_json (ordering : list pystr) (steps : list Step) : json :=
  jobj [("ordering", json_strs ordering); ("width_upper_bound", JInt (Z.of_nat (width steps))); ("steps", JList (step_json <$> steps))].

Definition str_list (v : json) : option (list pystr) :=
  match v with JList l => mapM (λ x, match x with JStr s => Some s | _ => None end) l | _ => None end.
Definition permutes (g : graph) (ordering : list pystr) : bool :=
  (length ordering =? size g)%nat && bool_decide (list_to_set ordering = dom g).
Definition elimination_certificate (g : graph) (ordering : json) : res json :=
  g ← graph_copy g;
  ordering ← of_option (ContractError "elimination order must be an exact permutation") (str_list ordering);
  when negb (permutes g ordering) raise ContractError "elimination order must be an exact permutation";;
  Ok (certificate_json ordering (eliminate_all g ordering)).

(** [score(node)] and [min(remaining, key=score)] *)
Definition score (g : graph) (node : pystr) : nat * nat * pystr :=
  let neighbors := sorted_set (nbrs g node) in (length (fill_of g neighbors), length neighbors, node).
Definition score_leb (x y : nat * nat * pystr) : bool :=
  let '(a, b, c) := x in
  let '(a', b', c') := y in
  (a <? a')%nat || ((a =? a')%nat && ((b <? b')%nat || ((b =? b')%nat && str_leb c c'))).
Definition best_node (g : graph) (nodes : list pystr) : option pystr :=
  match nodes with
  | [] => None
  | n :: nodes => Some (foldl (λ best k, if score_leb (score g best) (score g k) then best else k) n nodes)
  end.
Fixpoint min_fill_order (fuel : nat) (g : graph) : option (list pystr) :=
  match best_node g (elements (dom g)) with
  | None => Some []
  | Some node =>
      match fuel with
      | O => None
      | S fuel => cons node <$> min_fill_order fuel (eliminate g node).2
      end
  end.
Definition min_fill (g : graph) : res json :=
  remaining ← graph_copy g;
  order ← of_option (OtherError "out of fuel") (min_fill_order (size remaining) remaining);
  elimination_certificate g (json_strs order).

Definition verify_certificate (g : graph) (certificate : json) : bool :=
  match certificate with
  | JDict c =>
      let r := ordering ← dgetitem (str "ordering") c;
               expected ← elimination_certificate g ordering;
               a ← canonical certificate;
               b ← canonical expected;
               Ok (bool_decide (a = b)) in
      match r with Ok b => b | Raise _ => false end
  | _ => false
  end.

(** ** Connected components *)
(** The inner [while]: the pending stack and the nodes found. *)
Fixpoint reach (fuel : nat) (g : graph) (pending : list pystr) (found : gset pystr) : option (gset pystr) :=
  match pending with
  | [] => Some found
  | node :: pending =>
      match fuel with
      | O => None
      | S fuel =>
          if bool_decide (node ∈ found) then reach fuel g pending found
          else reach fuel g (elements (nbrs g node ∖ ({[node]} ∪ found)) ++ pending) ({[node]} ∪ found)
      end
  end.
(** The pops of the stack: one for the start and one per edge end. *)
Definition degrees (g : graph) (nodes : gset pystr) : nat := sum_list_with (λ k, size (nbrs g k)) (elements nodes).
Definition reach_fuel (g : graph) : nat := S (degrees g (dom g)).

Fixpoint components_from (fuel : nat) (g : graph) (remaining : gset pystr) : option (list (list pystr)) :=
  match sorted_set remaining with
  | [] => Some []
  | first :: _ =>
      match fuel with
      | O => None
      | S fuel =>
          found ← reach (reach_fuel g) g [first] ∅;
          groups ← components_from fuel g (remaining ∖ found);
          Some (sorted_set found :: groups)
      end
  end.
Definition components (g : graph) : option (list (list pystr)) := components_from (size g) g (dom g).

(** ** [feasibility] *)
Inductive Feasibility : Type := SAT | UNSAT | UNKNOWN.
Record SearchResult : Type := mkSearch { sr_status : Feasibility; sr_assignment : option (gmap pystr Z); sr_nodes : Z }.

(** [search]: the answer, the nodes and whether the budget ran out.  The [for]
    over the values of one variable calls [next] for the rest of the order. *)
Definition found : Type := option (gmap pystr Z) * Z * bool.
Fixpoint try_values (m : Model) (max_nodes : Z) (key : pystr) (values : gmap pystr Z) (next : gmap pystr Z → Z → found)
    (vs : list Z) (nodes : Z) : found :=
  match vs with
  | [] => (None, nodes, false)
  | v :: vs =>
      if max_nodes <=? nodes then (None, nodes, true)
      else if consistent m (<[key := v]> values) false then
        match next (<[key := v]> values) (nodes + 1) with
        | (Some answer, nodes, exhausted) => (Some answer, nodes, exhausted)
        | (None, nodes, true) => (None, nodes, true)
        | (None, nodes, false) => try_values m max_nodes key values next vs nodes
        end
      else try_values m max_nodes key values next vs (nodes + 1)
  end.
Fixpoint search (m : Model) (max_nodes : Z) (order : list pystr) (values : gmap pystr Z) (nodes : Z) : found :=
  match order with
  | [] => (Some values, nodes, false)
  | key :: order =>
      try_values m max_nodes key values (λ values nodes, search m max_nodes order values nodes) (domain m key) nodes
  end.

Definition feasibility (m : Model) (ordering : list pystr) (max_nodes : Z) : res SearchResult :=
  _ ← elimination_certificate (interaction_graph m) (json_strs ordering);
  when negb ((0 <=? max_nodes) && (max_nodes <=? 1000000)) raise ContractError "invalid feasibility budget";;
  let '(answer, nodes, exhausted) := search m max_nodes (reverse ordering) ∅ 0 in
  Ok (mkSearch (match answer with Some _ => SAT | None => if exhausted then UNKNOWN else UNSAT end) answer nodes).

(** ** [_restricted] *)
Definition restricted (m : Model) (members : list pystr) : Model :=
  mkModel (filter (λ kv, kv.1 ∈ members) (m_domains m))
          (filter (λ r, r.1 ∈ members) (m_different m)) (filter (λ r, r.1 ∈ members) (m_less_than m))
          (filter (λ r, default [] (head r.1) ∈ members) (m_sums m)).

(** ** The search *)
Lemma list_min_le v l : v ∈ l → list_min l <= v.
Proof.
  destruct l as [|x l]; [by intros ?%not_elem_of_nil|]. cbn. revert x. induction l as [|y l IH]; intros x; cbn.
  - intros ->%list_elem_of_singleton. lia.
  - intros Hv. assert (Hmin : ∀ z l, foldl Z.min z l <= z).
    { clear. intros z l. revert z. induction l as [|w l IH]; intros z; cbn; [lia|]. specialize (IH (Z.min z w)). lia. }
    apply elem_of_cons in Hv as [->|Hv]; [specialize (Hmin (Z.min x y) l); lia|].
    apply elem_of_cons in Hv as [->|Hv]; [specialize (Hmin (Z.min x y) l); lia|]. apply IH. by right.
Qed.

Lemma list_max_ge v l : v ∈ l → v <= list_max l.
Proof.
  destruct l as [|x l]; [by intros ?%not_elem_of_nil|]. cbn. revert x. induction l as [|y l IH]; intros x; cbn.
  - intros ->%list_elem_of_singleton. lia.
  - intros Hv. assert (Hmax : ∀ z l, z <= foldl Z.max z l).
    { clear. intros z l. revert z. induction l as [|w l IH]; intros z; cbn; [lia|]. specialize (IH (Z.max z w)). lia. }
    apply elem_of_cons in Hv as [->|Hv]; [specialize (Hmax (Z.max x y) l); lia|].
    apply elem_of_cons in Hv as [->|Hv]; [specialize (Hmax (Z.max x y) l); lia|]. apply IH. by right.
Qed.

(** What the check means. *)
Record fits (m : Model) (values : gmap pystr Z) : Prop := {
  ft_keys : dom values ⊆ keys_of m;
  ft_domain : ∀ k v, values !! k = Some v → v ∈ domain m k;
  ft_different : ∀ r, r ∈ m_different m → pair_ok (λ a b, negb (a =? b)) values r = true;
  ft_less : ∀ r, r ∈ m_less_than m → pair_ok (λ a b, negb (b <=? a)) values r = true;
  ft_sums : ∀ r, r ∈ m_sums m → sum_ok m values r = true
}.

Lemma consistent_iff m values complete :
  consistent m values complete = true ↔ fits m values ∧ (complete = true → dom values = keys_of m).
Proof.
  unfold consistent. rewrite !andb_true_iff, !forallb_true, !bool_decide_eq_true. split.
  - intros (((((H1 & H2) & H3) & H4) & H5) & H6). split; [by split|]. intros ->. by apply bool_decide_eq_true in H2.
  - intros [[H1 H3 H4 H5 H6] H2]. split_and!; auto. destruct complete; [|done]. cbn. by apply bool_decide_eq_true, H2.
Qed.

(** Pruning is sound: a part of a fitting assignment fits. *)
Lemma fits_mono m values full : values ⊆ full → fits m full → fits m values.
Proof.
  intros Hsub [H1 H2 H3 H4 H5]. assert (Hl : ∀ k v, values !! k = Some v → full !! k = Some v) by (intros k v Hv; by apply (lookup_weaken values)).
  assert (Hpair : ∀ rel r, pair_ok rel full r = true → pair_ok rel values r = true).
  { intros rel r. unfold pair_ok. destruct (values !! r.1) as [a|] eqn:Ea; [|done]. destruct (values !! r.2) as [b|] eqn:Eb; [|done].
    by rewrite (Hl _ _ Ea), (Hl _ _ Eb). }
  split; auto.
  - etransitivity; [|exact H1]. by apply subseteq_dom.
  - intros r Hr. specialize (H5 r Hr). unfold sum_ok in *. rewrite andb_true_iff, !Z.leb_le in *.
    assert (Hsum : sum_with (λ k, list_min (domain m k)) values r.1 <= sum_with (λ k, list_min (domain m k)) full r.1 ∧
                   sum_with (λ k, list_max (domain m k)) full r.1 <= sum_with (λ k, list_max (domain m k)) values r.1); [|lia].
    clear H5. induction r.1 as [|k ks IH]; [done|]. unfold sum_with in *. cbn [foldr] in *.
    destruct (values !! k) as [v|] eqn:Ev; [rewrite (Hl _ _ Ev); cbn; lia|]. destruct (full !! k) as [v|] eqn:Ef; cbn [default from_option]; [|lia].
    pose proof (list_min_le _ _ (H2 _ _ Ef)). pose proof (list_max_ge _ _ (H2 _ _ Ef)). unfold default, from_option, id in *. lia.
Qed.

(** What a search result says of the assignments that extend [values] with a
    value from [vs] for [key], or with any value for the keys of [order]. *)
Definition covers_search (m : Model) (max nodes : Z) (todo : gset pystr) (values : gmap pystr Z)
    (extends : gmap pystr Z → Prop) (r : found) : Prop :=
  let '(answer, nodes', exhausted) := r in
  nodes <= nodes' <= max ∧ (exhausted = true → nodes' = max ∧ answer = None) ∧
  (∀ a, answer = Some a → dom a = dom values ∪ todo ∧ fits m a) ∧
  (answer = None → exhausted = false → ∀ full, fits m full → dom full = keys_of m → values ⊆ full → extends full → False).

Lemma try_values_spec (m : Model) (max : Z) (key : pystr) (values : gmap pystr Z) (todo : gset pystr) (next : gmap pystr Z → Z → found) (vs : list Z) :
  (∀ (v nodes : Z), nodes <= max → fits m (<[key := v]> values) → covers_search m max nodes todo (<[key := v]> values) (λ _, True) (next (<[key := v]> values) nodes)) →
  ∀ nodes, nodes <= max →
  covers_search m max nodes ({[key]} ∪ todo) values (λ full, ∃ v, full !! key = Some v ∧ v ∈ vs) (try_values m max key values next vs nodes).
Proof.
  intros Hnext. induction vs as [|v vs IH]; intros nodes Hn; cbn [try_values].
  - split_and!; try lia; try done. intros _ _ full _ _ _ (v & _ & Hv). by apply not_elem_of_nil in Hv.
  - destruct (Z.leb_spec max nodes) as [Hm|Hm].
    + split_and!; try lia; try done. intros _. split; [lia|done].
    + assert (Hskip : (fits m (<[key := v]> values) → ∀ full, fits m full → dom full = keys_of m → <[key := v]> values ⊆ full → False) →
        ∀ full, fits m full → dom full = keys_of m → values ⊆ full → full !! key = Some v → False).
      { intros H full Hf Hd Hsub Hv. assert (Hs : <[key := v]> values ⊆ full) by (by apply insert_subseteq_l).
        eapply H; [|exact Hf|exact Hd|exact Hs]. by eapply fits_mono. }
      assert (Hrest : ∀ n, nodes <= n <= max → (∀ full, fits m full → dom full = keys_of m → values ⊆ full → full !! key = Some v → False) →
        covers_search m max nodes ({[key]} ∪ todo) values (λ full, ∃ v', full !! key = Some v' ∧ v' ∈ v :: vs) (try_values m max key values next vs n)).
      { intros n Hle Hno. specialize (IH n ltac:(lia)). destruct (try_values m max key values next vs n) as [[ans n'] ex].
        destruct IH as (I1 & I2 & I3 & I4). split_and!; try lia; auto. intros Ha He full Hf Hd Hs (v' & Hv & Hin).
        apply elem_of_cons in Hin as [->|Hin]; [by eapply Hno|]. eapply I4; eauto. }
      destruct (consistent m (<[key := v]> values) false) eqn:Hc.
      * apply consistent_iff in Hc as [Hc _]. specialize (Hnext v (nodes + 1) ltac:(lia) Hc).
        destruct (next (<[key := v]> values) (nodes + 1)) as [[[ans|] n'] ex].
        -- destruct Hnext as (N1 & N2 & N3 & N4). split_and!; try lia; auto; [|done]. intros a [= <-]. destruct (N3 _ eq_refl) as [Hd Hf].
           split; [|done]. rewrite Hd, dom_insert_L. set_solver.
        -- destruct Hnext as (N1 & N2 & N3 & N4). destruct ex; [split_and!; try lia; auto; done|].
           apply Hrest; [lia|]. apply Hskip. intros _ full Hf Hd Hs. by eapply N4.
      * apply Hrest; [lia|]. apply Hskip. intros Hf. exfalso. apply not_true_iff_false in Hc. apply Hc. by apply consistent_iff.
Qed.

Lemma search_spec (m : Model) (max : Z) (order : list pystr) : list_to_set order ⊆ keys_of m →
  ∀ values nodes, nodes <= max → (order = [] → fits m values) →
  covers_search m max nodes (list_to_set order) values (λ _, True) (search m max order values nodes).
Proof.
  induction order as [|key order IH]; intros Hsub values nodes Hn Hf; cbn [search list_to_set].
  - split_and!; try lia; try done. intros a [= <-]. split; [set_solver|by apply Hf].
  - cbn in Hsub. pose proof (try_values_spec m max key values (list_to_set order) (λ v n, search m max order v n) (domain m key)) as H.
    specialize (H ltac:(intros v n Hle Hfit; apply IH; [set_solver|done|done]) nodes Hn).
    destruct (try_values _ _ _ _ _ _ _) as [[ans n'] ex]. destruct H as (H1 & H2 & H3 & H4). split_and!; try lia; auto.
    intros Ha He full Hfit Hd Hs _. eapply H4; eauto.
    assert (Hk : key ∈ dom full) by (rewrite Hd; set_solver). apply elem_of_dom in Hk as [v Hv]. exists v. split; [done|]. by apply (ft_domain _ _ Hfit).
Qed.

(** ** Validated models *)
Record wf_model (m : Model) : Prop := {
  wm_scopes : ∀ scope, scope ∈ scopes m → scope ≠ [] ∧ ∀ k, k ∈ scope → k ∈ keys_of m;
  wm_keys : keys_of m ≠ ∅;
  wm_size : (length (m_domains m) <= 32)%nat
}.

Lemma scope_of_wf ds v keys : scope_of ds v = Ok keys → keys ≠ [] ∧ ∀ k, k ∈ keys → k ∈ ds.*1.
Proof.
  unfold scope_of. destruct v as [| | | | |l|]; try done. destruct ((1 <=? length l)%nat) eqn:E1; [|done].
  destruct ((length l <=? 32)%nat); [|done]. cbn [negb andb]. intros H%mapM_res_Ok. split.
  - intros ->. inversion H. subst. done.
  - intros k Hk. apply list_elem_of_lookup in Hk as [i Hi]. destruct (Forall2_lookup_r _ _ _ _ _ H Hi) as (x & _ & Hx).
    destruct x; try done. destruct (dmem s ds) eqn:E; [|done]. injection Hx as <-. by apply dmem_true.
Qed.

Lemma validate_pairs_wf ds l pairs : mapM (validate_pair ds) l = Ok pairs → ∀ p, p ∈ pairs → p.1 ∈ ds.*1 ∧ p.2 ∈ ds.*1.
Proof.
  intros H%mapM_res_Ok p Hp. apply list_elem_of_lookup in Hp as [i Hi]. destruct (Forall2_lookup_r _ _ _ _ _ H Hi) as (x & _ & Hx).
  unfold validate_pair in Hx. apply bind_Ok in Hx as (keys & Hk & Hx). apply scope_of_wf in Hk as [_ Hk].
  destruct keys as [|a [|b [|]]]; try done. injection Hx as <-. cbn. split; apply Hk; set_solver.
Qed.

Lemma validate_sums_wf ds l sums : mapM (validate_sum ds) l = Ok sums → ∀ p, p ∈ sums → p.1 ≠ [] ∧ ∀ k, k ∈ p.1 → k ∈ ds.*1.
Proof.
  intros H%mapM_res_Ok p Hp. apply list_elem_of_lookup in Hp as [i Hi]. destruct (Forall2_lookup_r _ _ _ _ _ H Hi) as (x & _ & Hx).
  unfold validate_sum in Hx. destruct x; try done. destruct (negb _); [done|]. apply bind_Ok in Hx as (eqs & _ & Hx). destruct (_ <? _); [done|].
  apply bind_Ok in Hx as (keys & Hk & Hx). destruct (negb _); [done|]. injection Hx as <-. by apply scope_of_wf in Hk.
Qed.

Lemma validate_model_wf j m : validate_model j = Ok m → wf_model m.
Proof.
  unfold validate_model. destruct j as [| | | | | |d]; try done. destruct (negb _); [done|].
  destruct (dget (str "domains") d) as [[| | | | | |ds]|]; try done. destruct (1 <=? length ds)%nat eqn:E1; [|done].
  destruct (length ds <=? 32)%nat eqn:E2; [|done]. cbn [negb andb].
  intros (domains & Hd & H)%bind_Ok. apply bind_Ok in H as (dl & _ & H). apply bind_Ok in H as (df & Hdf & H).
  apply bind_Ok in H as (ll & _ & H). apply bind_Ok in H as (lt & Hlt & H). apply bind_Ok in H as (sl & _ & H).
  apply bind_Ok in H as (sm & Hsm & H). injection H as <-. apply mapM_res_Ok, Forall2_length in Hd.
  apply Nat.leb_le in E1, E2. split; cbn.
  - intros scope Hs. unfold keys_of. cbn. unfold scopes in Hs. cbn in Hs. rewrite !elem_of_app in Hs.
    assert (Hset : ∀ k, k ∈ domains.*1 → k ∈ list_to_set (C := gset pystr) domains.*1) by (intros k; by rewrite elem_of_list_to_set).
    destruct Hs as [Hs|[Hs|Hs]]; apply list_elem_of_fmap in Hs as (p & -> & Hp).
    + destruct (validate_pairs_wf _ _ _ Hdf p Hp). split; [done|]. intros k Hk. apply Hset. set_solver.
    + destruct (validate_pairs_wf _ _ _ Hlt p Hp). split; [done|]. intros k Hk. apply Hset. set_solver.
    + destruct (validate_sums_wf _ _ _ Hsm p Hp) as [? Hk]. split; [done|]. auto.
  - unfold keys_of. cbn. destruct domains as [|kv domains]; [cbn in Hd; lia|]. cbn. set_solver.
  - lia.
Qed.

(** ** Graphs *)
(** An undirected graph without self edges, on its own nodes. *)
Definition undirected (g : graph) : Prop := ∀ x y, y ∈ nbrs g x → x ≠ y ∧ y ∈ dom g ∧ x ∈ nbrs g y.

Lemma nbrs_dom (g : graph) x y : y ∈ nbrs g x → x ∈ dom g.
Proof. unfold nbrs. intros H. apply elem_of_dom. destruct (g !! x); [by eexists|]. set_solver. Qed.

Lemma graph_ok_iff g : graph_ok g = true ↔ undirected g.
Proof.
  unfold graph_ok. rewrite bool_decide_eq_true. split.
  - intros H x y Hy. unfold nbrs in Hy. destruct (g !! x) as [ns|] eqn:E; [|set_solver]. cbn in Hy.
    destruct (H _ _ E) as (H1 & H2 & H3). split_and!; [set_solver|set_solver|by apply H3].
  - intros H x ns E. assert (Hn : nbrs g x = ns) by (unfold nbrs; by rewrite E). split_and!.
    + intros Hx. rewrite <- Hn in Hx. by destruct (H _ _ Hx).
    + intros y Hy. rewrite <- Hn in Hy. by destruct (H _ _ Hy) as (_ & ? & _).
    + intros y Hy. rewrite <- Hn in Hy. by destruct (H _ _ Hy) as (_ & _ & ?).
Qed.

Lemma nbrs_insert (g : graph) k s x : nbrs (<[k := s]> g) x = if decide (x = k) then s else nbrs g x.
Proof. unfold nbrs. case_decide; [subst; by rewrite lookup_insert_eq|by rewrite lookup_insert_ne]. Qed.

Lemma nbrs_add_edge g a b x y : y ∈ nbrs (add_edge g (a, b)) x ↔ y ∈ nbrs g x ∨ (x = a ∧ y = b) ∨ (x = b ∧ y = a).
Proof. unfold add_edge. cbn. rewrite !nbrs_insert. repeat case_decide; set_solver. Qed.

Lemma dom_add_edge (g : graph) a b : dom (add_edge g (a, b)) = {[a; b]} ∪ dom g.
Proof. unfold add_edge. cbn. rewrite !dom_insert_L. set_solver. Qed.

Lemma nbrs_add_edges es : ∀ g x y, y ∈ nbrs (foldl add_edge g es) x ↔ y ∈ nbrs g x ∨ (x, y) ∈ es ∨ (y, x) ∈ es.
Proof.
  induction es as [|[a b] es IH]; intros g x y; cbn [foldl]; [set_solver|]. rewrite IH, nbrs_add_edge, !elem_of_cons. naive_solver.
Qed.

Lemma dom_add_edges es : ∀ g : graph, (∀ e, e ∈ es → e.1 ∈ dom g ∧ e.2 ∈ dom g) → dom (foldl add_edge g es) = dom g.
Proof.
  induction es as [|[a b] es IH]; intros g H; cbn [foldl]; [done|].
  assert (Hd : dom (add_edge g (a, b)) = dom g).
  { rewrite dom_add_edge. destruct (H (a, b) ltac:(left)) as [Ha Hb]. cbn in *. set_solver. }
  rewrite IH; [done|]. intros e He. rewrite Hd. apply H. by right.
Qed.

Lemma elem_of_combinations2 {A} (l : list A) x y : (x, y) ∈ combinations2 l → x ∈ l ∧ y ∈ l.
Proof.
  induction l as [|z l IH]; cbn; [by intros ?%not_elem_of_nil|]. rewrite elem_of_app, list_elem_of_fmap, !elem_of_cons. naive_solver.
Qed.
Lemma combinations2_ne {A} (l : list A) x y : NoDup l → (x, y) ∈ combinations2 l → x ≠ y.
Proof.
  induction l as [|z l IH]; cbn; [by intros _ ?%not_elem_of_nil|]. rewrite NoDup_cons, elem_of_app, list_elem_of_fmap. intros [Hz Hn].
  intros [(w & [= -> ->] & Hw)|H]; [by intros <-|]. by apply IH.
Qed.
Lemma combinations2_all {A} (l : list A) x y : x ∈ l → y ∈ l → x ≠ y → (x, y) ∈ combinations2 l ∨ (y, x) ∈ combinations2 l.
Proof.
  induction l as [|z l IH]; cbn; [by intros ?%not_elem_of_nil|]. rewrite !elem_of_cons, !elem_of_app, !list_elem_of_fmap.
  intros [->|Hx] [->|Hy] Hne; [done| | |]; [left; left; eauto|right; left; eauto|]. destruct (IH Hx Hy Hne); auto.
Qed.

Lemma sorted_set_elem (s : gset pystr) k : k ∈ sorted_set s ↔ k ∈ s.
Proof. unfold sorted_set. rewrite (sort_by_perm _). apply elem_of_elements. Qed.
Lemma NoDup_sorted_set (s : gset pystr) : NoDup (sorted_set s).
Proof. unfold sorted_set. rewrite (sort_by_perm _). apply NoDup_elements. Qed.

(** Two variables are adjacent when some constraint mentions both. *)
Lemma interaction_graph_spec m : wf_model m →
  dom (interaction_graph m) = keys_of m ∧
  ∀ x y, y ∈ nbrs (interaction_graph m) x ↔ x ≠ y ∧ ∃ scope, scope ∈ scopes m ∧ x ∈ scope ∧ y ∈ scope.
Proof.
  intros [Hsc _ _]. unfold interaction_graph. set (g0 := list_to_map _ : graph).
  assert (Hd0 : dom g0 = keys_of m).
  { unfold g0, keys_of. rewrite dom_list_to_map_L. f_equal. rewrite <- list_fmap_compose. apply list_fmap_id. }
  assert (Hn0 : ∀ x y, ¬ (y ∈ nbrs g0 x)).
  { intros x y Hy. unfold nbrs in Hy. destruct (g0 !! x) as [ns|] eqn:E; [|set_solver].
    unfold g0 in E. apply elem_of_list_to_map_2, list_elem_of_fmap in E as (k & [= -> ->] & _). set_solver. }
  assert (Hgen : ∀ l g, (∀ scope, scope ∈ l → ∀ k, k ∈ scope → k ∈ dom g) →
    let g' := foldl (λ g scope, foldl add_edge g (combinations2 (sorted_set (list_to_set scope)))) g l in
    dom g' = dom g ∧ ∀ x y, y ∈ nbrs g' x ↔ y ∈ nbrs g x ∨ (x ≠ y ∧ ∃ scope, scope ∈ l ∧ x ∈ scope ∧ y ∈ scope)).
  { induction l as [|sc l IH]; intros g Hk; cbn [foldl]; [split; [done|]; set_solver|].
    set (es := combinations2 (sorted_set (list_to_set sc))).
    assert (Hes : ∀ x y, (x, y) ∈ es → x ∈ sc ∧ y ∈ sc ∧ x ≠ y).
    { intros x y He. pose proof (combinations2_ne _ _ _ (NoDup_sorted_set _) He). apply elem_of_combinations2 in He as [H1 H2].
      rewrite sorted_set_elem, elem_of_list_to_set in H1, H2. done. }
    assert (Hall : ∀ x y, x ∈ sc → y ∈ sc → x ≠ y → (x, y) ∈ es ∨ (y, x) ∈ es).
    { intros x y Hx Hy Hne. apply combinations2_all; [by rewrite sorted_set_elem, elem_of_list_to_set..|done]. }
    assert (Hdg : dom (foldl add_edge g es) = dom g).
    { apply dom_add_edges. intros [x y] He. destruct (Hes _ _ He) as (? & ? & _). cbn. split; eapply Hk; try done; left. }
    destruct (IH (foldl add_edge g es)) as [I1 I2]; [intros s' Hs' k Hin; rewrite Hdg; eapply Hk; [by right|done]|].
    rewrite Hdg in I1. split; [done|]. intros x y. rewrite I2, nbrs_add_edges. setoid_rewrite elem_of_cons. split.
    - intros [[?|[He|He]]|(Hne & s' & ? & ? & ?)]; [by left| | |].
      + destruct (Hes _ _ He) as (? & ? & ?). right. split; [done|]. exists sc. auto.
      + destruct (Hes _ _ He) as (? & ? & ?). right. split; [done|]. exists sc. auto.
      + right. split; [done|]. exists s'. auto.
    - intros [?|(Hne & s' & [->|Hs'] & Hx & Hy)]; [by left; left|left; right; auto|]. right. split; [done|]. exists s'. auto. }
  destruct (Hgen (scopes m) g0) as [H1 H2]; [intros sc Hs k Hk; rewrite Hd0; by eapply Hsc|]. split; [by rewrite H1|].
  intros x y. rewrite H2. split; [|by right]. intros [H|H]; [by apply Hn0 in H|done].
Qed.

Lemma interaction_graph_ok m : wf_model m → graph_copy (interaction_graph m) = Ok (interaction_graph m) ∧ undirected (interaction_graph m).
Proof.
  intros HW. destruct (interaction_graph_spec m HW) as [Hd Hn]. assert (Hu : undirected (interaction_graph m)).
  { intros x y (Hne & sc & Hs & Hx & Hy)%Hn. split_and!; [done|rewrite Hd; by eapply (wm_scopes _ HW)|]. apply Hn. split; [done|]. exists sc. auto. }
  split; [|done]. unfold graph_copy. rewrite (proj2 (graph_ok_iff _) Hu). cbn [negb].
  destruct (Nat.ltb_spec 32 (size (interaction_graph m))) as [Hlt|]; [|done]. exfalso. rewrite <- size_dom, Hd in Hlt. unfold keys_of in Hlt.
  pose proof (wm_size _ HW) as Hs. pose proof (size_list_to_set_le (m_domains m).*1) as Hle. rewrite length_fmap in Hle. lia.
Qed.

Lemma str_list_strs l : str_list (json_strs l) = Some l.
Proof. unfold str_list, json_strs. induction l as [|x l IH]; cbn in *; [done|]. by rewrite IH. Qed.

Lemma permutes_iff g ordering : permutes g ordering = true ↔ NoDup ordering ∧ list_to_set ordering = dom g.
Proof.
  unfold permutes. rewrite andb_true_iff, Nat.eqb_eq, bool_decide_eq_true, <- size_dom. split; intros [H1 H2]; (split; [|done]).
  - rewrite <- H2 in H1. clear H2. induction ordering as [|x l IH]; [constructor|]. cbn in H1. rewrite size_union_alt, size_singleton in H1.
    pose proof (subseteq_size (list_to_set l ∖ {[x]}) (list_to_set (C := gset pystr) l) ltac:(set_solver)) as Hle.
    pose proof (size_list_to_set_le l) as Hl. assert (Hx : x ∉ l).
    { intros Hx. assert (Hlt : (size (list_to_set (C := gset pystr) l ∖ {[x]}) < size (list_to_set (C := gset pystr) l))%nat).
      { apply subset_size. split; [set_solver|]. intros Hs. specialize (Hs x). set_solver. }
      lia. }
    constructor; [done|]. apply IH. lia.
  - rewrite <- H2. by rewrite size_list_to_set.
Qed.

Lemma elimination_certificate_Ok g ordering : graph_copy g = Ok g → NoDup ordering → list_to_set ordering = dom g →
  elimination_certificate g (json_strs ordering) = Ok (certificate_json ordering (eliminate_all g ordering)).
Proof.
  intros Hg Hn Hs. unfold elimination_certificate. rewrite Hg. cbn [mbind res_bind]. rewrite str_list_strs. cbn [of_option mbind res_bind].
  by rewrite (proj2 (permutes_iff g ordering)).
Qed.

(** C35: The bounded search decides: for every validated model, every order of
    its variables and every budget, it returns within the budget; SAT comes
    with an assignment of every variable that satisfies every constraint, UNSAT
    means that no assignment does -- pruning loses none -- and UNKNOWN is only
    answered when the whole budget was spent. *)
Theorem feasibility_decides (j : json) (m : Model) (ordering : list pystr) (max_nodes : Z) :
  validate_model j = Ok m → NoDup ordering → list_to_set ordering = keys_of m → 0 <= max_nodes <= 1000000 →
  ∃ r, feasibility m ordering max_nodes = Ok r ∧ 0 <= sr_nodes r <= max_nodes ∧
    match sr_status r with
    | SAT => ∃ a, sr_assignment r = Some a ∧ consistent m a true = true
    | UNSAT => ∀ a, consistent m a true = false
    | UNKNOWN => sr_nodes r = max_nodes
    end.
Proof.
  intros Hv%validate_model_wf Hn Hs Hmax. destruct (interaction_graph_ok m Hv) as [Hg _]. destruct (interaction_graph_spec m Hv) as [Hd _].
  unfold feasibility. rewrite (elimination_certificate_Ok _ _ Hg Hn) by (by rewrite Hd). cbn [mbind res_bind].
  destruct (Z.leb_spec 0 max_nodes); [|lia]. destruct (Z.leb_spec max_nodes 1000000); [|lia]. cbn [andb negb].
  assert (Hrev : list_to_set (reverse ordering) = keys_of m) by (rewrite <- Hs; apply set_eq; intros k; rewrite !elem_of_list_to_set; apply elem_of_reverse).
  pose proof (search_spec m max_nodes (reverse ordering)) as Hsp. rewrite Hrev in Hsp. specialize (Hsp ltac:(done) ∅ 0 ltac:(lia)).
  assert (Hne : reverse ordering ≠ []).
  { intros E. rewrite E in Hrev. apply (wm_keys _ Hv). by rewrite <- Hrev. }
  specialize (Hsp ltac:(done)). destruct (search m max_nodes (reverse ordering) ∅ 0) as [[ans n] ex]. destruct Hsp as (H1 & H2 & H3 & H4).
  eexists. split; [done|]. cbn [sr_nodes sr_status sr_assignment]. split; [lia|]. destruct ans as [a|].
  - exists a. split; [done|]. destruct (H3 a eq_refl) as [Hda Hf]. apply consistent_iff. split; [done|]. intros _. rewrite Hda. set_solver.
  - destruct ex; [by apply H2|]. intros a. apply not_true_iff_false. intros [Hf Hda]%consistent_iff.
    eapply (H4 eq_refl eq_refl a); auto. apply map_empty_subseteq.
Qed.

(** ** Components *)
Lemma degrees_remove (g : graph) (nodes : gset pystr) (k : pystr) : k ∈ nodes → degrees g nodes = (size (nbrs g k) + degrees g (nodes ∖ {[k]}))%nat.
Proof.
  intros Hk. unfold degrees. assert (E : elements nodes ≡ₚ k :: elements (nodes ∖ {[k]})).
  { rewrite (union_difference_singleton_L k nodes Hk) at 1. by rewrite elements_disj_union, elements_singleton by set_solver. }
  by rewrite E.
Qed.

Definition closed (g : graph) (c : gset pystr) : Prop := ∀ n, n ∈ c → nbrs g n ⊆ c.

Lemma reach_spec (g : graph) (fuel : nat) : undirected g → ∀ (pending : list pystr) (fnd : gset pystr),
  (length pending + degrees g (dom g ∖ fnd) <= fuel)%nat → (∀ n, n ∈ pending → n ∈ dom g) → fnd ⊆ dom g →
  ∃ f, reach fuel g pending fnd = Some f ∧ (∀ n, n ∈ pending → n ∈ f) ∧ fnd ⊆ f ∧ f ⊆ dom g ∧
    ((∀ n y, n ∈ fnd → y ∈ nbrs g n → y ∈ fnd ∨ y ∈ pending) → closed g f) ∧
    (∀ c, closed g c → (∀ n, n ∈ pending → n ∈ c) → fnd ⊆ c → f ⊆ c).
Proof.
  intros Hu. induction fuel as [|fuel IH]; intros pending fnd Hle Hp Hf.
  - destruct pending as [|n p]; [|cbn in Hle; lia]. exists fnd. cbn. split_and!; try done; [by intros n ?%not_elem_of_nil|].
    intros H n Hn y Hy. destruct (H n y Hn Hy) as [?|?%not_elem_of_nil]; done.
  - destruct pending as [|n p]; cbn [reach].
    { exists fnd. split_and!; try done; [by intros n ?%not_elem_of_nil|].
      intros H n Hn y Hy. destruct (H n y Hn Hy) as [?|?%not_elem_of_nil]; done. }
    assert (Hn : n ∈ dom g) by (apply Hp; left). case_bool_decide as Hin.
    + destruct (IH p fnd) as (f & -> & F1 & F2 & F3 & F4 & F5); [cbn in Hle; lia|intros x Hx; apply Hp; by right|done|].
      exists f. split_and!; try done.
      * intros x [->|Hx]%elem_of_cons; auto.
      * intros H. apply F4. intros x y Hx Hy. destruct (H x y Hx Hy) as [?|[->|?]%elem_of_cons]; auto.
      * intros c Hc H1 H2. apply F5; auto. intros x Hx. apply H1. by right.
    + set (new := nbrs g n ∖ ({[n]} ∪ fnd)).
      assert (Hnew : (size new <= size (nbrs g n))%nat) by (apply subseteq_size; set_solver).
      destruct (IH (elements new ++ p) ({[n]} ∪ fnd)) as (f & -> & F1 & F2 & F3 & F4 & F5).
      * rewrite (degrees_remove g (dom g ∖ fnd) n) in Hle by set_solver. rewrite length_app. change (length (elements new)) with (size new).
        replace (dom g ∖ ({[n]} ∪ fnd)) with (dom g ∖ fnd ∖ {[n]}) by set_solver. cbn in Hle. lia.
      * intros x [Hx|Hx]%elem_of_app; [|apply Hp; by right]. apply elem_of_elements in Hx. apply (Hu n x). set_solver.
      * set_solver.
      * exists f. split_and!; try done.
        -- intros x [->|Hx]%elem_of_cons; [set_solver|]. apply F1, elem_of_app. by right.
        -- set_solver.
        -- intros H. apply F4. intros x y Hx Hy. destruct (decide (y ∈ {[n]} ∪ fnd)) as [?|Hy']; [by left|]. right. apply elem_of_app.
           apply elem_of_union in Hx as [->%elem_of_singleton|Hx]; [left; apply elem_of_elements; set_solver|].
           destruct (H x y Hx Hy) as [?|[->|?]%elem_of_cons]; [set_solver|set_solver|by right].
        -- intros c Hc H1 H2. assert (Hnc : n ∈ c) by (apply H1; left). apply F5; [done| |set_solver].
           intros x [Hx|Hx]%elem_of_app; [|apply H1; by right]. apply elem_of_elements in Hx. apply (Hc n Hnc). set_solver.
Qed.

Lemma components_from_spec (g : graph) (fuel : nat) : undirected g → ∀ remaining : gset pystr,
  remaining ⊆ dom g → closed g remaining → (size remaining <= fuel)%nat →
  ∃ groups, components_from fuel g remaining = Some groups ∧ mjoin groups ≡ₚ elements remaining ∧
    ∀ group, group ∈ groups → group ≠ [] ∧ closed g (list_to_set group).
Proof.
  intros Hu. induction fuel as [|fuel IH]; intros remaining Hr Hc Hs.
  - assert (remaining = ∅) as -> by (apply size_empty_inv in Hs || (apply leibniz_equiv, size_empty_inv; lia)). exists [].
    cbn [components_from]. unfold sorted_set. rewrite elements_empty. cbn. split_and!; try done. by intros ? ?%not_elem_of_nil.
  - cbn [components_from]. destruct (sorted_set remaining) as [|first rest] eqn:E.
    { exists []. assert (remaining = ∅) as ->.
      { apply set_eq. intros k. rewrite <- sorted_set_elem, E. set_solver. }
      rewrite elements_empty. split_and!; try done. by intros ? ?%not_elem_of_nil. }
    assert (Hfirst : first ∈ remaining) by (rewrite <- sorted_set_elem, E; left).
    destruct (reach_spec g (reach_fuel g) Hu [first] ∅) as (f & -> & F1 & _ & F3 & F4 & F5).
    { unfold reach_fuel. rewrite difference_empty_L. done. }
    { intros n ->%list_elem_of_singleton. by apply Hr. }
    { set_solver. }
    assert (Hff : first ∈ f) by (apply F1; left). assert (Hcf : closed g f) by (apply F4; set_solver).
    assert (Hfr : f ⊆ remaining) by (apply F5; [done|by intros n ->%list_elem_of_singleton|set_solver]).
    destruct (IH (remaining ∖ f)) as (groups & E2 & G1 & G2).
    { set_solver. }
    { intros n Hn y Hy. apply elem_of_difference in Hn as [Hn Hnf]. apply elem_of_difference. split; [by apply (Hc n Hn)|].
      intros Hyf. apply Hnf. destruct (Hu n y Hy) as (_ & _ & Hsym). by apply (Hcf y Hyf). }
    { assert (size (remaining ∖ f) < size remaining)%nat; [|lia]. apply subset_size. split; [set_solver|]. intros Hsub. specialize (Hsub first Hfirst). set_solver. }
    exists (sorted_set f :: groups). cbn [mbind option_bind]. rewrite E2. cbn [mbind option_bind]. split_and!; [done| |].
    + cbn. rewrite G1. unfold sorted_set. rewrite (sort_by_perm _). rewrite <- elements_disj_union by set_solver.
      by rewrite <- union_difference_L.
    + intros group [->|Hg]%elem_of_cons; [|by apply G2]. split.
      * intros En. assert (first ∈ sorted_set f) by (by rewrite sorted_set_elem). rewrite En in *. by apply not_elem_of_nil in H.
      * intros n Hn. rewrite elem_of_list_to_set, sorted_set_elem in Hn. intros y Hy. rewrite elem_of_list_to_set, sorted_set_elem. by apply (Hcf n Hn).
Qed.

(** ** Grouping *)
(** The part of an assignment that belongs to a group. *)
Definition part (group : list pystr) (a : gmap pystr Z) : gmap pystr Z := filter (λ kv, kv.1 ∈ group) a.

Lemma lookup_part group a k : part group a !! k = if decide (k ∈ group) then a !! k else None.
Proof.
  unfold part. destruct (a !! k) as [v|] eqn:E.
  - case_decide as Hk; [by apply map_lookup_filter_Some_2|]. apply map_lookup_filter_None. right. intros v' _ Hin. by apply Hk.
  - rewrite map_lookup_filter_None_2 by (by left). by case_decide.
Qed.

Lemma dget_filter_keys {V} (d : dict V) (group : list pystr) k :
  dget k (filter (λ kv, kv.1 ∈ group) d) = if decide (k ∈ group) then dget k d else None.
Proof.
  induction d as [|[j v] d IH]; cbn [dget]; [by case_decide|]. destruct (decide (j ∈ group)) as [Hj|Hj].
  - rewrite filter_cons_True by done. cbn [dget]. destruct (decide (k = j)) as [->|Hne]; [by rewrite decide_True|exact IH].
  - rewrite filter_cons_False by done. destruct (decide (k = j)) as [->|Hne]; [|exact IH]. rewrite IH. by rewrite !decide_False by done.
Qed.

Lemma domain_restricted m group k : domain (restricted m group) k = if decide (k ∈ group) then domain m k else [].
Proof. unfold domain. cbn. rewrite dget_filter_keys. by case_decide. Qed.

Lemma keys_restricted m group k : k ∈ keys_of (restricted m group) ↔ k ∈ keys_of m ∧ k ∈ group.
Proof.
  unfold keys_of. cbn. rewrite !elem_of_list_to_set, !list_elem_of_fmap. setoid_rewrite list_elem_of_filter. naive_solver.
Qed.

(** A constraint whose variables are all in the group has the same value there. *)
Lemma pair_ok_part rel a group r : r.1 ∈ group → r.2 ∈ group → pair_ok rel (part group a) r = pair_ok rel a r.
Proof. intros H1 H2. unfold pair_ok. by rewrite !lookup_part, !decide_True by done. Qed.

Lemma sum_with_part f f' a group keys :
  (∀ k, k ∈ keys → k ∈ group) → (∀ k, k ∈ group → f' k = f k) → sum_with f' (part group a) keys = sum_with f a keys.
Proof.
  intros Hk Hf. unfold sum_with. induction keys as [|k keys IH]; [done|]. cbn [foldr].
  rewrite lookup_part, decide_True by (apply Hk; left). rewrite Hf by (apply Hk; left). f_equal. apply IH. intros x Hx. apply Hk. by right.
Qed.

Lemma sum_ok_part m a group r : (∀ k, k ∈ r.1 → k ∈ group) → sum_ok (restricted m group) (part group a) r = sum_ok m a r.
Proof.
  intros Hr. unfold sum_ok. f_equal; f_equal; (apply sum_with_part; [done|]); intros k Hk; by rewrite domain_restricted, decide_True.
Qed.

Section grouping.
Context (m : Model) (HW : wf_model m).
Set Default Proof Using "All".

(** The variables of a constraint are in the group of its first one. *)
Lemma scope_closed group scope k0 k :
  closed (interaction_graph m) (list_to_set group) → scope ∈ scopes m → k0 ∈ scope → k ∈ scope → k0 ∈ group → k ∈ group.
Proof.
  intros Hc Hs H0 Hk Hg. destruct (decide (k0 = k)) as [->|Hne]; [done|].
  assert (Hn : k ∈ nbrs (interaction_graph m) k0) by (apply interaction_graph_spec; [done|]; split; [done|]; exists scope; auto).
  specialize (Hc k0 ltac:(by rewrite elem_of_list_to_set) k Hn). by rewrite elem_of_list_to_set in Hc.
Qed.

Lemma pair_scope r : r ∈ m_different m ∨ r ∈ m_less_than m → [r.1; r.2] ∈ scopes m.
Proof.
  intros H. unfold scopes. rewrite !elem_of_app, !list_elem_of_fmap. destruct H; [left|right; left]; eauto.
Qed.
Lemma sum_scope r : r ∈ m_sums m → r.1 ∈ scopes m.
Proof. intros H. unfold scopes. rewrite !elem_of_app, !list_elem_of_fmap. right. right. eauto. Qed.

Lemma pair_group group r : closed (interaction_graph m) (list_to_set group) → r ∈ m_different m ∨ r ∈ m_less_than m →
  r.1 ∈ group → r.2 ∈ group.
Proof. intros Hc Hr H1. apply (scope_closed group _ r.1 r.2 Hc (pair_scope r Hr)); [left|right; left|done]. Qed.

Lemma sum_group group r : closed (interaction_graph m) (list_to_set group) → r ∈ m_sums m →
  default [] (head r.1) ∈ group → ∀ k, k ∈ r.1 → k ∈ group.
Proof.
  intros Hc Hr Hh k Hk. destruct (wm_scopes _ HW _ (sum_scope r Hr)) as [Hne _]. destruct (r.1) as [|k0 ks] eqn:E; [done|]. cbn in Hh.
  apply (scope_closed group (k0 :: ks) k0 k Hc); [rewrite <- E; by apply sum_scope|left|done|done].
Qed.

Lemma fits_part (group : list pystr) (a : gmap pystr Z) : closed (interaction_graph m) (list_to_set group) → fits m a → fits (restricted m group) (part group a).
Proof.
  intros Hc [H1 H2 H3 H4 H5]. split.
  - intros k [v Hv]%elem_of_dom. rewrite lookup_part in Hv. case_decide as Hk; [|done]. apply keys_restricted. split; [|done].
    apply H1, elem_of_dom. by eexists.
  - intros k v Hv. rewrite lookup_part in Hv. rewrite domain_restricted. case_decide; [auto|done].
  - intros r [Hg Hr]%list_elem_of_filter. rewrite pair_ok_part; [auto|done|]. eapply pair_group; eauto.
  - intros r [Hg Hr]%list_elem_of_filter. rewrite pair_ok_part; [auto|done|]. eapply pair_group; eauto.
  - intros r [Hg Hr]%list_elem_of_filter. rewrite sum_ok_part; [auto|]. by apply sum_group.
Qed.

Lemma fits_parts (groups : list (list pystr)) (a : gmap pystr Z) :
  (∀ group, group ∈ groups → closed (interaction_graph m) (list_to_set group)) → (∀ k, k ∈ keys_of m → ∃ group, group ∈ groups ∧ k ∈ group) →
  dom a ⊆ keys_of m → (∀ group, group ∈ groups → fits (restricted m group) (part group a)) → fits m a.
Proof.
  intros Hc Hcov Hd Hf. split.
  - done.
  - intros k v Hv. destruct (Hcov k) as (g & Hg & Hk); [apply Hd, elem_of_dom; by eexists|].
    pose proof (ft_domain _ _ (Hf g Hg) k v) as H. rewrite lookup_part, domain_restricted, !decide_True in H by done. auto.
  - intros r Hr. destruct (Hcov r.1) as (g & Hg & Hk); [apply (wm_scopes _ HW _ (pair_scope r (or_introl Hr))); left|].
    rewrite <- (pair_ok_part _ a g) by (done || (eapply pair_group; eauto)). apply (ft_different _ _ (Hf g Hg)). by apply list_elem_of_filter.
  - intros r Hr. destruct (Hcov r.1) as (g & Hg & Hk); [apply (wm_scopes _ HW _ (pair_scope r (or_intror Hr))); left|].
    rewrite <- (pair_ok_part _ a g) by (done || (eapply pair_group; eauto)). apply (ft_less _ _ (Hf g Hg)). by apply list_elem_of_filter.
  - intros r Hr. destruct (wm_scopes _ HW _ (sum_scope r Hr)) as [Hne Hin]. destruct (Hcov (default [] (head r.1))) as (g & Hg & Hk).
    { apply Hin. destruct (r.1); [done|]. left. }
    rewrite <- (sum_ok_part m a g) by (by apply sum_group; auto). apply (ft_sums _ _ (Hf g Hg)). by apply list_elem_of_filter.
Qed.
End grouping.

(** Grouping is exact: the connected components of a validated model's
    interaction graph partition its variables, and an assignment of all of them
    satisfies the model exactly when, for every component, its part satisfies
    the restricted model -- so the components can be solved and checked
    separately. *)
Theorem groups_decompose (j : json) (m : Model) :
  validate_model j = Ok m →
  ∃ groups, components (interaction_graph m) = Some groups ∧ mjoin groups ≡ₚ elements (keys_of m) ∧
    ∀ a, consistent m a true = true ↔
      dom a = keys_of m ∧ ∀ group, group ∈ groups → consistent (restricted m group) (part group a) true = true.
Proof.
  intros HW%validate_model_wf. destruct (interaction_graph_ok m HW) as [_ Hu]. destruct (interaction_graph_spec m HW) as [Hd _].
  destruct (components_from_spec (interaction_graph m) (size (interaction_graph m)) Hu (dom (interaction_graph m))) as (groups & E & Hp & Hc).
  { done. } { intros n _ y Hy. by apply (Hu n y). } { by rewrite size_dom. }
  exists groups. rewrite Hd in Hp. split_and!; [exact E|exact Hp|].
  assert (Hcov : ∀ k, k ∈ keys_of m ↔ ∃ group, group ∈ groups ∧ k ∈ group).
  { intros k. rewrite <- elem_of_elements, <- Hp, list_elem_of_join. naive_solver. }
  intros a. setoid_rewrite consistent_iff. split.
  - intros [Hf Hdom]. specialize (Hdom eq_refl). split; [done|]. intros g Hg. split; [by apply fits_part; [|apply Hc|]|]. intros _.
    apply set_eq. intros k. rewrite keys_restricted, elem_of_dom, lookup_part, <- Hdom, elem_of_dom. case_decide; [naive_solver|].
    split; [by intros [? ?]|naive_solver].
  - intros [Hdom Hall]. split; [|done]. apply (fits_parts m HW groups); [intros g Hg; by apply Hc|intros k; apply Hcov|by rewrite Hdom|].
    intros g Hg. by apply Hall.
Qed.

(** ** Elimination certificates *)
Lemma nbrs_delete (g : graph) n x : nbrs (delete n g) x = if decide (x = n) then ∅ else nbrs g x.
Proof. unfold nbrs. case_decide; [subst; by rewrite lookup_delete_eq|by rewrite lookup_delete_ne]. Qed.

Lemma nbrs_drop_node n l : ∀ (g : graph) x,
  nbrs (foldl (λ g k, <[k := nbrs g k ∖ {[n]}]> g) g l) x = if decide (x ∈ l) then nbrs g x ∖ {[n]} else nbrs g x.
Proof.
  induction l as [|k l IH]; intros g x; cbn [foldl]; [by rewrite decide_False by apply not_elem_of_nil|].
  rewrite IH, nbrs_insert. destruct (decide (x = k)) as [->|Hne].
  - rewrite (decide_True (P := k ∈ k :: l)) by left. case_decide; set_solver.
  - destruct (decide (x ∈ l)) as [Hl|Hl]; [by rewrite decide_True by (by right)|]. rewrite decide_False; [done|].
    intros [?|?]%elem_of_cons; done.
Qed.

Lemma dom_drop_node n l : ∀ (g : graph), (∀ k, k ∈ l → k ∈ dom g) → dom (foldl (λ g k, <[k := nbrs g k ∖ {[n]}]> g) g l) = dom g.
Proof.
  induction l as [|k l IH]; intros g H; cbn [foldl]; [done|]. assert (Hk : k ∈ dom g) by (apply H; left).
  rewrite IH; rewrite dom_insert_L; [set_solver|]. intros x Hx. apply elem_of_union_r, H. by right.
Qed.

(** Eliminating a node connects its neighbours and removes it. *)
Lemma eliminate_spec g n : undirected g → n ∈ dom g →
  undirected (eliminate g n).2 ∧ dom (eliminate g n).2 = dom g ∖ {[n]}.
Proof.
  intros Hu Hn. unfold eliminate. cbn [snd]. set (nb := sorted_set (nbrs g n)). set (fill := fill_of g nb). set (g1 := foldl add_edge g fill).
  assert (Hnb : ∀ k, k ∈ nb ↔ k ∈ nbrs g n) by (intros k; apply sorted_set_elem).
  assert (Hfill : ∀ x y, (x, y) ∈ fill → x ∈ nb ∧ y ∈ nb ∧ x ≠ y).
  { intros x y [_ Hc]%list_elem_of_filter. pose proof (combinations2_ne _ _ _ (NoDup_sorted_set _) Hc). by apply elem_of_combinations2 in Hc as [? ?]. }
  assert (Hnbd : ∀ k, k ∈ nb → k ∈ dom g) by (intros k Hk%Hnb; by destruct (Hu _ _ Hk) as (_ & ? & _)).
  assert (Hd1 : dom g1 = dom g) by (apply dom_add_edges; intros [x y] He; destruct (Hfill _ _ He) as (? & ? & _); cbn; auto).
  assert (Hnn : n ∉ nb) by (intros Hk%Hnb; by destruct (Hu _ _ Hk)).
  set (g2 := foldl _ g1 nb). assert (Hd2 : dom g2 = dom g) by (unfold g2; rewrite dom_drop_node; [done|]; intros k Hk; rewrite Hd1; auto).
  assert (Hadj : ∀ x y, y ∈ nbrs (delete n g2) x ↔ x ≠ n ∧ y ≠ n ∧ y ∈ nbrs g1 x).
  { intros x y. rewrite nbrs_delete. case_decide as Hx; [subst; set_solver|]. unfold g2. rewrite nbrs_drop_node. case_decide as Hxn; [set_solver|].
    split; [|naive_solver]. intros Hy. split_and!; [done| |done]. intros ->. apply Hxn, Hnb. unfold g1 in Hy. rewrite nbrs_add_edges in Hy.
    destruct Hy as [Hy|[Hy|Hy]]; [by destruct (Hu _ _ Hy) as (_ & _ & ?)|destruct (Hfill _ _ Hy) as (_ & ? & _)|destruct (Hfill _ _ Hy) as (? & _)]; done. }
  split; [|by rewrite dom_delete_L, Hd2]. intros x y (Hx & Hy & Hxy)%Hadj. rewrite Hadj, dom_delete_L, Hd2.
  unfold g1 in *. rewrite !nbrs_add_edges in *. destruct Hxy as [H|[H|H]].
  - destruct (Hu _ _ H) as (? & ? & ?). split_and!; [done|set_solver|done|done|auto].
  - destruct (Hfill _ _ H) as (? & ? & ?). split_and!; [done|set_solver|done|done|auto].
  - destruct (Hfill _ _ H) as (? & ? & ?). split_and!; [done|set_solver|done|done|auto].
Qed.

Lemma best_node_in g nodes : nodes ≠ [] → ∃ n, best_node g nodes = Some n ∧ n ∈ nodes.
Proof.
  destruct nodes as [|n nodes]; [done|]. intros _. cbn [best_node]. eexists. split; [done|]. revert n. induction nodes as [|k l IH]; intros n; cbn [foldl]; [left|].
  destruct (score_leb (score g n) (score g k)).
  - specialize (IH n). apply elem_of_cons in IH as [E|?]; [rewrite E; left|]. right. by right.
  - right. apply IH.
Qed.

(** The order of [min_fill] is a permutation of the nodes. *)
Lemma min_fill_order_spec fuel : ∀ g, undirected g → (size g <= fuel)%nat →
  ∃ order, min_fill_order fuel g = Some order ∧ NoDup order ∧ list_to_set order = dom g.
Proof.
  induction fuel as [|fuel IH]; intros g Hu Hs; cbn [min_fill_order].
  - assert (dom g = ∅) as ->. { apply leibniz_equiv, size_empty_inv. rewrite size_dom. lia. }
    rewrite elements_empty. exists []. split_and!; [done|constructor|done].
  - destruct (decide (elements (dom g) = [])) as [E|E].
    + rewrite E. exists []. split_and!; [done|constructor|]. apply elements_empty_inv in E. by apply leibniz_equiv in E as ->.
    + destruct (best_node_in g _ E) as (n & -> & Hn). apply elem_of_elements in Hn. destruct (eliminate_spec g n Hu Hn) as [Hu' Hd'].
      destruct (IH (eliminate g n).2 Hu') as (order & -> & Hnd & Hset).
      { rewrite <- size_dom, Hd', size_difference, size_singleton by set_solver. rewrite size_dom. lia. }
      exists (n :: order). split; [done|]. rewrite Hd' in Hset. split.
      * constructor; [|done]. intros Hin. assert (Hx : n ∈ list_to_set (C := gset pystr) order) by (by rewrite elem_of_list_to_set).
        rewrite Hset in Hx. set_solver.
      * cbn. rewrite Hset. symmetry. by apply union_difference_singleton_L.
Qed.

(** Degrees are bounded by the number of nodes. *)
Lemma width_bound ordering : ∀ g, undirected g → NoDup ordering → list_to_set ordering = dom g → (width (eliminate_all g ordering) <= size g)%nat.
Proof.
  induction ordering as [|n ordering IH]; intros g Hu Hnd Hs; [cbn; lia|]. cbn [list_to_set] in Hs. apply NoDup_cons in Hnd as [Hn Hnd].
  assert (Hin : n ∈ dom g) by set_solver. destruct (eliminate_spec g n Hu Hin) as [Hu' Hd'].
  specialize (IH (eliminate g n).2 Hu' Hnd).
  assert (Hset : list_to_set ordering = dom (eliminate g n).2).
  { rewrite Hd', <- Hs. apply set_eq. intros k. rewrite elem_of_difference, elem_of_union, elem_of_singleton, !elem_of_list_to_set.
    split; [|naive_solver]. intros Hk. split; [by right|]. intros ->. done. }
  specialize (IH Hset). rewrite <- size_dom, Hd', size_difference, size_singleton, size_dom in IH by set_solver.
  unfold width in *. cbn [eliminate_all]. destruct (eliminate g n) as [st g'] eqn:E. cbn [foldr].
  assert (Hst : (length (s_neighbors st) <= size g)%nat).
  { unfold eliminate in E. injection E as <- _. cbn [s_neighbors]. unfold sorted_set. rewrite (sort_by_perm _).
    change (length (elements (nbrs g n))) with (size (nbrs g n)). rewrite <- size_dom. apply subseteq_size. intros k Hk. by destruct (Hu _ _ Hk) as (_ & ? & _). }
  cbn [snd] in IH. lia.
Qed.

(** ** Canonical texts of certificates *)
Lemma res_all_Ok {A} (l : list (res A)) : Forall (λ r, is_ok r = true) l → is_ok (res_all l) = true.
Proof. induction 1 as [|r l Hr _ IH]; [done|]. cbn. destruct r; [|done]. by destruct (res_all l). Qed.

Lemma canonical_list_Ok l : Forall (λ v, is_ok (canonical v) = true) l → is_ok (canonical (JList l)) = true.
Proof.
  intros H. cbn [canonical]. assert (H' : is_ok (res_all (canonical <$> l)) = true) by (by apply res_all_Ok, Forall_fmap).
  by destruct (res_all (canonical <$> l)).
Qed.

Lemma canonical_jobj_Ok d : Forall (λ kv, is_ok (canonical kv.2) = true) d → is_ok (canonical (jobj d)) = true.
Proof.
  intros H. unfold jobj. cbn [canonical]. match goal with |- is_ok (?x ≫= _) = true => assert (H' : is_ok x = true) end.
  { apply res_all_Ok. rewrite !Forall_fmap. eapply Forall_impl; [exact H|]. intros [k v] Hv. cbn in *. by destruct (canonical v). }
  match goal with |- is_ok (?x ≫= _) = true => by destruct x end.
Qed.

Lemma canonical_strs_Ok l : is_ok (canonical (json_strs l)) = true.
Proof. apply canonical_list_Ok, Forall_fmap, Forall_forall. done. Qed.

Lemma certificate_canonical ordering steps : (width steps <= 32)%nat → is_ok (canonical (certificate_json ordering steps)) = true.
Proof.
  intros Hw. apply canonical_jobj_Ok. repeat constructor; cbn [snd].
  - apply canonical_strs_Ok.
  - assert (Hs : storable (JInt (Z.of_nat (width steps))) = true) by (apply storable_nat; lia). unfold storable in Hs. by destruct (canonical _).
  - apply canonical_list_Ok, Forall_fmap, Forall_forall. intros s _. apply canonical_jobj_Ok. repeat constructor; cbn [snd].
    + apply canonical_strs_Ok.
    + apply canonical_list_Ok, Forall_fmap, Forall_forall. intros e _. apply canonical_strs_Ok.
Qed.

(** [min_fill] returns a replayable certificate: on every valid graph it
    terminates with an order that lists each node once, and the certificate it
    returns is accepted by [verify_certificate]. *)
Theorem min_fill_certified (g : graph) :
  graph_copy g = Ok g →
  ∃ order certificate, min_fill g = Ok certificate ∧ NoDup order ∧ list_to_set order = dom g ∧
    certificate = certificate_json order (eliminate_all g order) ∧ verify_certificate g certificate = true.
Proof.
  intros Hg. assert (Hu : undirected g ∧ (size g <= 32)%nat).
  { unfold graph_copy in Hg. destruct (Nat.ltb_spec 32 (size g)); [done|]. destruct (graph_ok g) eqn:E; [|done]. by apply graph_ok_iff in E. }
  destruct Hu as [Hu Hs]. destruct (min_fill_order_spec (size g) g Hu) as (order & Ho & Hnd & Hset); [done|].
  pose proof (elimination_certificate_Ok g order Hg Hnd Hset) as Hc. exists order. eexists. split; [|split; [done|split; [done|split; [done|]]]].
  - unfold min_fill. rewrite Hg. cbn [mbind res_bind]. rewrite Ho. exact Hc.
  - pose proof (width_bound order g Hu Hnd Hset) as Hw. pose proof (certificate_canonical order (eliminate_all g order)) as Hok. specialize (Hok ltac:(lia)).
    unfold verify_certificate, certificate_json at 1, jobj at 1. cbn [fmap list_fmap fst snd].
    assert (Hget : dgetitem (str "ordering") [(str "ordering", json_strs order);
        (str "width_upper_bound", JInt (Z.of_nat (width (eliminate_all g order)))); (str "steps", JList (step_json <$> eliminate_all g order))] = Ok (json_strs order)).
    { reflexivity. }
    rewrite Hget. cbn [mbind res_bind]. rewrite Hc. cbn [mbind res_bind].
    destruct (canonical (certificate_json order (eliminate_all g order))) as [t|] eqn:Et; [|done]. cbn [mbind res_bind]. by rewrite bool_decide_true.
Qed.

(** ** A concrete model *)
Definition demo_json : json :=
  jobj [("domains", jobj [("x", JList [JInt 1; JInt 2]); ("y", JList [JInt 1; JInt 2]); ("z", JList [JInt 5])]);
        ("less_than", JList [JList [JStr (str "x"); JStr (str "y")]])].
Definition demo_model : Model :=
  mkModel [(str "x", [1; 2]); (str "y", [1; 2]); (str "z", [5])] [] [(str "x", str "y")] [].
Lemma demo_valid : validate_model demo_json = Ok demo_model.
Proof. vm_compute. reflexivity. Qed.

Lemma feasibility_decides_witness :
  ∃ r, feasibility demo_model [str "z"; str "y"; str "x"] 100 = Ok r ∧ sr_status r = SAT ∧ sr_nodes r <= 100.
Proof.
  destruct (feasibility_decides demo_json demo_model [str "z"; str "y"; str "x"] 100 demo_valid) as (r & E & Hn & _).
  - apply (bool_decide_unpack _). vm_compute. exact I.
  - vm_compute. reflexivity.
  - lia.
  - exists r. split; [exact E|]. split; [|lia]. apply (f_equal (λ x, match x with Ok r => sr_status r | Raise _ => UNKNOWN end)) in E.
    rewrite <- E. vm_compute. reflexivity.
Defined.

Lemma groups_decompose_witness :
  components (interaction_graph demo_model) = Some [[str "x"; str "y"]; [str "z"]] ∧
  consistent demo_model {[str "x" := 1; str "y" := 2; str "z" := 5]} true = true.
Proof.
  split; [vm_compute; reflexivity|].
  destruct (groups_decompose demo_json demo_model demo_valid) as (groups & E & _ & H). apply H.
  assert (Hg : Some groups = Some [[str "x"; str "y"]; [str "z"]]) by (rewrite <- E; vm_compute; reflexivity). injection Hg as ->.
  split; [vm_compute; reflexivity|]. intros g Hg. apply elem_of_cons in Hg as [->|Hg]; [vm_compute; reflexivity|].
  apply list_elem_of_singleton in Hg as ->. vm_compute. reflexivity.
Defined.

Lemma min_fill_certified_witness :
  ∃ c, min_fill (interaction_graph demo_model) = Ok c ∧ verify_certificate (interaction_graph demo_model) c = true.
Proof.
  destruct (min_fill_certified (interaction_graph demo_model)) as (order & c & H & _ & _ & _ & Hv); [vm_compute; reflexivity|].
  exists c. split; [exact H|exact Hv].
Defined.
