(* ===== verification/Extensions.v ===== *)
(** * Host-selected extensions and lifecycle fan-out
    (residual/extensions.py, residual/lifecycle.py)

    Modules are host code: their hooks are functions on a world of their own,
    and a hook of the right type stands for one that passes the signature
    check.  A guarded extension brake is an instance of the brake interface, so
    what is proved of the loop holds for it. *)

From Stdlib Require Import ZArith NArith Lia.
From S2P Require Import Prelude PyData Sha256 PyFloat Json JsonFacts Core CoreFacts Receipts GoalSpec Verifier Brakes.

Record VerifierDescriptor : Type := mkDescriptor {
  vd_check_type : CheckType;
  vd_evaluator : Evaluator;
  vd_revision : VerifierRevision
}.
Definition descriptor_revision (d : VerifierDescriptor) : res pystr :=
  r ← effective_revision (vd_revision d);
  digest (jobj [("revision", JStr r); ("check_type", JStr (check_type_str (vd_check_type d)))]).

(** ** Guarded brakes *)
(** What a host brake's [update] returns: [None], a trip (with [None] for a
    reason that is not a string or an action that is not one), or anything else. *)
Inductive HostAnswer : Type :=
| HNone
| HTrip (reason : option pystr) (action : option BrakeAction)
| HOther.

(** A host brake with state [S]; [reset] says whether it returned [None]. *)
Class HostBrake (S : Type) := {
  hb_update : (nat → Z) → event → SM (nat * S) HostAnswer;
  hb_reset : S → res bool * S
}.

Record GuardedBrake (S : Type) : Type := mkGuarded { gb_name : pystr; gb_brake : S; gb_reset_failed : bool }.
Arguments mkGuarded {S} _ _ _.
Arguments gb_name {S} _.
Arguments gb_brake {S} _.
Arguments gb_reset_failed {S} _.

Section guarded.
Context {S : Type} `{HostBrake S}.

Definition guarded_reset (b : GuardedBrake S) : GuardedBrake S :=
  let '(r, s) := hb_reset (gb_brake b) in
  mkGuarded (gb_name b) s (match r with Ok true => false | _ => true end).

(** [strict_json(canonical(event))] *)
Definition detached (e : event) : res event :=
  t ← canonical (JDict e);
  v ← strict_json t;
  match v with JDict d => Ok d | _ => Raise (TypeError "event") end.

(** The body of the [try]: a trip of the host brake, checked. *)
Definition checked_answer (a : HostAnswer) : res (option (pystr * BrakeAction)) :=
  match a with
  | HNone => Ok None
  | HTrip (Some reason) (Some action) => if blank reason then Raise (ValueError "") else Ok (Some (reason, action))
  | _ => Raise (ValueError "")
  end.
Definition guarded_attempt (clock : nat → Z) (e : event) : SM (nat * GuardedBrake S) (option (pystr * BrakeAction)) := λ '(n, b),
  if gb_reset_failed b then (Raise (ValueError ""), (n, b))
  else match detached e with
       | Raise x => (Raise x, (n, b))
       | Ok e' =>
           let '(r, (n, s)) := hb_update clock e' (n, gb_brake b) in
           (r ≫= checked_answer, (n, mkGuarded (gb_name b) s (gb_reset_failed b)))
       end.

(** [update] *)
Definition guarded_update (clock : nat → Z) (e : event) : SM (nat * GuardedBrake S) (option BrakeTrip) := λ '(n, b),
  let '(r, nb) := guarded_attempt clock e (n, b) in
  let tripped reason action := h ← obs_hash e; Ok (Some (mkTrip (gb_name b) reason h action)) in
  (match r with
   | Ok None => Ok None
   | Ok (Some (reason, action)) =>
       match tripped (take 1000 reason) action with
       | Ok t => Ok t
       | Raise _ => tripped (str "extension_brake_failed") ABORT
       end
   | Raise _ => tripped (str "extension_brake_failed") ABORT
   end, nb).

#[export] Instance GuardedBrake_ops : BrakeOps (GuardedBrake S) := {
  b_update := guarded_update;
  b_reset := guarded_reset
}.
End guarded.

(** ** The registry *)
(** What a module declares for one verifier. *)
Inductive Declaration : Type :=
| DDescriptor (d : VerifierDescriptor)
| DLegacy (check_type : CheckType) (evaluator : Evaluator)
| DInvalid.

Section registry.
Context {W P : Type}.

(** Hooks say whether they returned [None]; [mo_event] is optional. *)
Record StationModule : Type := mkModule {
  mo_name : pystr;
  mo_version : pystr;
  mo_policies : list (bool * P);  (* annotated as boolean?, policy *)
  mo_verifiers : dict Declaration;
  mo_brakes : W → res (list (pystr * nat)) * W;  (* names and object identities *)
  mo_opened : GoalSpec → SM W bool;
  mo_closed : json → SM W bool;
  mo_event : option (pystr → json → SM W unit)
}.

Record ExtensionRegistry : Type := mkExtensions {
  x_modules : dict StationModule;
  x_versions : dict pystr;
  x_verifiers : dict VerifierDescriptor;
  x_policies : list P;
  x_frozen : bool;
  x_active : bool;
  x_issued : list nat;
  x_diagnostics : list (pystr * pystr)
}.
Definition ExtensionRegistry_new : ExtensionRegistry := mkExtensions [] [] [] [] false false [] [].

Definition full_name (module local : pystr) : pystr := module ++ [58%N] ++ local.

(** The descriptor of one declaration. *)
Definition declared (revisions : dict VerifierRevision) (local : pystr) (decl : Declaration) : res VerifierDescriptor :=
  match decl with
  | DDescriptor d => Ok d
  | DLegacy ct ev =>
      r ← of_option (ContractError "legacy verifier requires explicit host revision identity") (dget local revisions);
      Ok (mkDescriptor ct ev r)
  | DInvalid => Raise (ContractError "invalid verifier descriptor")
  end.
Fixpoint pending_verifiers (name : pystr) (revisions : dict VerifierRevision) (decls : dict Declaration) (pending : dict VerifierDescriptor)
    : res (dict VerifierDescriptor) :=
  match decls with
  | [] => Ok pending
  | (local, decl) :: decls =>
      _ ← identifier local;
      full ← verifier_id (full_name name local);
      d ← declared revisions local decl;
      pending_verifiers name revisions decls (dset full d pending)
  end.

(** [register_module]: nothing changes unless everything is valid. *)
Definition register_module (module : StationModule) (revisions : dict VerifierRevision) (x : ExtensionRegistry) : res ExtensionRegistry :=
  when x_frozen x raise ContractError "extension registry is frozen";;
  name ← identifier (mo_name module);
  when dmem name (x_modules x) || blank (mo_version module) raise ContractError "duplicate module or missing version";;
  when existsb fst (mo_policies module) raise ContractError "boolean policy returns are forbidden";;
  pending ← pending_verifiers name revisions (mo_verifiers module) [];
  when negb (forallb (λ kv, dmem kv.1 (mo_verifiers module)) revisions) raise ContractError "revision provided for an unknown verifier";;
  Ok (mkExtensions (dset name module (x_modules x)) (dset name (mo_version module) (x_versions x))
        (dupdate (x_verifiers x) pending) (x_policies x ++ (mo_policies module).*2) (x_frozen x) (x_active x) (x_issued x) (x_diagnostics x)).

Definition freeze_registry (x : ExtensionRegistry) : ExtensionRegistry :=
  mkExtensions (x_modules x) (x_versions x) (x_verifiers x) (x_policies x) true (x_active x) (x_issued x) (x_diagnostics x).

(** [compose]: the evaluators of the host and of the modules. *)
Fixpoint add_evaluators (verifiers : dict VerifierDescriptor) (evaluators : dict Evaluator) : res (dict Evaluator) :=
  match verifiers with
  | [] => Ok evaluators
  | (name, d) :: verifiers =>
      when dmem name evaluators raise ContractError "extension evaluator shadows a host evaluator";;
      add_evaluators verifiers (dset name (vd_evaluator d) evaluators)
  end.
Definition criterion_typed (x : ExtensionRegistry) (c : SuccessCriterion) : bool :=
  match dget (c_evaluator c) (x_verifiers x) with Some d => bool_decide (vd_check_type d = c_check_type c) | None => true end.
Definition compose (x : ExtensionRegistry) (base : dict Evaluator) (criteria : list SuccessCriterion) : res (dict Evaluator) :=
  evaluators ← add_evaluators (x_verifiers x) base;
  when negb (forallb (criterion_typed x) criteria) raise ContractError "criterion check type differs from registered verifier";;
  Ok evaluators.

(** The check of the obligation harness that a descriptor gives. *)
Definition extension_check (d : VerifierDescriptor) : Check_ := λ value ctx,
  r ← vd_evaluator d value (o_parameters (ctx_obligation ctx));
  match r with
  | (Some CR_PASS, Some reason) => Ok (Some (mkVerdict SPass (str "extension_pass") (take 1000 reason)))
  | (Some CR_FAIL, Some reason) => Ok (Some (mkVerdict SFail (str "extension_fail") (take 1000 reason)))
  | (Some CR_UNKNOWN, Some reason) => Ok (Some (mkVerdict SUnknown (str "extension_unknown") (take 1000 reason)))
  | _ => Ok (Some (mkVerdict SUnknown (str "invalid_extension_result") []))
  end.
Fixpoint add_checks (verifiers : dict VerifierDescriptor) : SM Registry unit :=
  match verifiers with
  | [] => mret tt
  | (name, d) :: verifiers =>
      revision ← sm_lift (descriptor_revision d);
      r ← sm_get;
      r' ← sm_lift (Registry_check r name (extension_check d) revision (Some (vd_revision d, vd_check_type d)));
      _ ← sm_mod (λ _, r');
      add_checks verifiers
  end.
Definition register_checks (x : ExtensionRegistry) : SM Registry unit :=
  r ← sm_get;
  if existsb (λ kv, dmem kv.1 (checks r)) (x_verifiers x) then sm_raise (ContractError "extension check shadows a host check")
  else add_checks (x_verifiers x).

(** [brakes]: every instance is fresh and has a name of its own; [alive] tells
    which issued instances still exist. *)
Fixpoint collect_brakes (alive : nat → bool) (issued : list nat) (domain : pystr) (instances : list (pystr * nat)) (acc : list (pystr * nat))
    : res (list (pystr * nat)) :=
  match instances with
  | [] => Ok acc
  | (brake_name, object) :: instances =>
      local ← identifier brake_name;
      when bool_decide (full_name domain local ∈ acc.*1) || bool_decide (object ∈ acc.*2) || bool_decide (object ∈ filter (λ o, alive o = true) issued)
        raise ContractError "duplicate or reused extension brake";;
      collect_brakes alive issued domain instances (acc ++ [(full_name domain local, object)])
  end.
Fixpoint module_brakes (alive : nat → bool) (issued : list nat) (modules : dict StationModule) (acc : list (pystr * nat)) : SM W (list (pystr * nat)) :=
  match modules with
  | [] => mret acc
  | (domain, module) :: modules =>
      instances ← mo_brakes module;
      acc ← sm_lift (collect_brakes alive issued domain instances acc);
      module_brakes alive issued modules acc
  end.
Definition brakes_of (alive : nat → bool) : SM (ExtensionRegistry * W) (list (pystr * nat)) := λ '(x, w),
  let issued := filter (λ o, alive o = true) (x_issued x) in
  match module_brakes alive issued (x_modules x) [] w with
  | (Raise e, w) => (Raise e, (x, w))
  | (Ok l, w) => (Ok l, (mkExtensions (x_modules x) (x_versions x) (x_verifiers x) (x_policies x) (x_frozen x) (x_active x)
                            (issued ++ l.*2) (x_diagnostics x), w))
  end.

Definition set_active (b : bool) (x : ExtensionRegistry) : ExtensionRegistry :=
  mkExtensions (x_modules x) (x_versions x) (x_verifiers x) (x_policies x) (x_frozen x) b (x_issued x) (x_diagnostics x).
Definition acquire (x : ExtensionRegistry) : res ExtensionRegistry :=
  when negb (x_frozen x) raise ContractError "registry must be frozen at controller construction";;
  when x_active x raise ContractError "extension registry already has an active run";;
  Ok (set_active true x).
(** Releasing a lock that is not held raises. *)
Definition release_registry (x : ExtensionRegistry) : res ExtensionRegistry :=
  when negb (x_active x) raise RuntimeError "release unlocked lock";; Ok (set_active false x).

Definition diagnostic (name hook : pystr) (x : ExtensionRegistry) : ExtensionRegistry :=
  mkExtensions (x_modules x) (x_versions x) (x_verifiers x) (x_policies x) (x_frozen x) (x_active x) (x_issued x) (x_diagnostics x ++ [(name, hook)]).

(** A hook runs; anything but [None] is a failure. *)
Fixpoint run_hooks (hook : pystr) (call : StationModule → option (SM W bool)) (modules : dict StationModule) (w : W) : list (pystr * pystr) * W :=
  match modules with
  | [] => ([], w)
  | (name, module) :: modules =>
      match call module with
      | None => run_hooks hook call modules w
      | Some m =>
          let '(r, w) := m w in
          let '(fs, w) := run_hooks hook call modules w in
          (match r with Ok true => fs | _ => (name, hook) :: fs end, w)
      end
  end.
Definition add_diagnostics (ds : list (pystr * pystr)) (x : ExtensionRegistry) : ExtensionRegistry :=
  foldl (λ x d, diagnostic d.1 d.2 x) x ds.
Definition on_run_opened (spec : GoalSpec) (x : ExtensionRegistry) (w : W) : list pystr * (ExtensionRegistry * W) :=
  let '(ds, w) := run_hooks (str "on_run_opened") (λ m, Some (mo_opened m spec)) (x_modules x) w in (ds.*1, (add_diagnostics ds x, w)).
Definition on_run_closed (result : json) (x : ExtensionRegistry) (w : W) : ExtensionRegistry * W :=
  let '(ds, w) := run_hooks (str "on_run_closed") (λ m, Some (mo_closed m result)) (x_modules x) w in (add_diagnostics ds x, w).
(** [observe]: the payload is copied for each module inside its [try]. *)
Definition observe (kind : pystr) (payload : json) (x : ExtensionRegistry) (w : W) : ExtensionRegistry * W :=
  let copy := t ← canonical payload; strict_json t in
  let '(ds, w) := run_hooks (str "on_event")
    (λ m, (λ f, (v ← sm_lift copy; _ ← f kind v; mret true) : SM W bool) <$> mo_event m) (x_modules x) w in (add_diagnostics ds x, w).
End registry.
Arguments StationModule : clear implicits.
Arguments ExtensionRegistry : clear implicits.

(** ** Guarded brakes fail closed *)
Section fail_closed.
Context {S : Type} `{HostBrake S} (clock : nat → Z).

(** A guarded brake fed events, as the loop feeds it after its reset. *)
Definition guarded_feed (es : list event) (nb : nat * GuardedBrake S) : nat * GuardedBrake S :=
  foldl (λ nb e, (guarded_update clock e nb).2) nb es.
(** The host brake on its own: it is called with a detached copy of each event
    that has one. *)
Definition host_step (ns : nat * S) (e : event) : nat * S :=
  match detached e with Ok e' => (hb_update clock e' ns).2 | Raise _ => ns end.
Definition host_answer (e : event) (ns : nat * S) : res HostAnswer :=
  e' ← detached e; (hb_update clock e' ns).1.

(** What a guarded brake owes the run, from what its host brake's last [reset]
    gave (returned [None], returned something else, or raised) and what the
    host brake answers: silence only for a successful reset and [None], a trip
    for a successful reset and a well-formed trip, and an abort for all else. *)
Inductive owed (reset : res bool) (answer : res HostAnswer) : option (pystr * BrakeAction) → Prop :=
| owed_none : reset = Ok true → answer = Ok HNone → owed reset answer None
| owed_trip reason action :
    reset = Ok true → answer = Ok (HTrip (Some reason) (Some action)) → blank reason = false →
    owed reset answer (Some (take 1000 reason, action))
| owed_abort :
    ¬ (reset = Ok true ∧ (answer = Ok HNone ∨
         ∃ reason action, answer = Ok (HTrip (Some reason) (Some action)) ∧ blank reason = false)) →
    owed reset answer (Some (str "extension_brake_failed", ABORT)).

Lemma update_keeps e n (b : GuardedBrake S) :
  let '(n', b') := (guarded_update clock e (n, b)).2 in
  gb_name b' = gb_name b ∧ gb_reset_failed b' = gb_reset_failed b ∧
  (gb_reset_failed b = false → (n', gb_brake b') = host_step (n, gb_brake b) e).
Proof.
  unfold guarded_update, guarded_attempt, host_step. destruct (gb_reset_failed b) eqn:Hr; [done|].
  destruct (detached e) as [e'|]; [|done]. by destruct (hb_update clock e' (n, gb_brake b)) as [r [n' s]].
Qed.

Lemma feed_keeps es : ∀ n (b : GuardedBrake S),
  let '(n', b') := guarded_feed es (n, b) in
  gb_name b' = gb_name b ∧ gb_reset_failed b' = gb_reset_failed b ∧
  (gb_reset_failed b = false → (n', gb_brake b') = foldl host_step (n, gb_brake b) es).
Proof.
  induction es as [|e es IH]; intros n b; [done|]. unfold guarded_feed. cbn [foldl]. assert (Hu := update_keeps e n b).
  destruct (guarded_update clock e (n, b)).2 as [n1 b1]. destruct Hu as (Hn & Hf & Hs). specialize (IH n1 b1). unfold guarded_feed in IH.
  destruct (foldl _ (n1, b1) es) as [n2 b2]. destruct IH as (Hn' & Hf' & Hs'). rewrite Hn', Hn, Hf', Hf. split_and!; [done..|].
  intros Hb. rewrite <- (Hs Hb). apply Hs'. congruence.
Qed.

(** One update: what is owed under the recorded reset. *)
Lemma update_owed reset e n (b : GuardedBrake S) :
  gb_reset_failed b = match reset with Ok true => false | _ => true end →
  ∃ due, owed reset (host_answer e (n, gb_brake b)) due ∧
    (guarded_update clock e (n, b)).1 =
      match due with
      | None => Ok None
      | Some (reason, action) => h ← obs_hash e; Ok (Some (mkTrip (gb_name b) reason h action))
      end.
Proof.
  intros Hr. unfold guarded_update, guarded_attempt, host_answer. destruct (gb_reset_failed b) eqn:Hf.
  { eexists. split; [apply owed_abort; intros [-> _]; done|]. reflexivity. }
  assert (reset = Ok true) as -> by (by destruct reset as [[]|]).
  destruct (detached e) as [e'|]; cbn [mbind res_bind]; [|eexists; split; [apply owed_abort; naive_solver|reflexivity]].
  destruct (hb_update clock e' (n, gb_brake b)) as [r [n' s]].
  destruct r as [[|[reason|] [action|]|]|]; cbn [fst mbind res_bind checked_answer];
    try (eexists; split; [apply owed_abort; naive_solver|reflexivity]).
  - eexists. split; [by apply owed_none|reflexivity].
  - destruct (blank reason) eqn:Hb.
    + exists (Some (str "extension_brake_failed", ABORT)). split; [|reflexivity]. apply owed_abort. intros [_ [Hx|(r & a & Hx & Hr')]]; [done|]. injection Hx as <- <-. congruence.
    + eexists. split; [eapply owed_trip; [reflexivity|reflexivity|exact Hb]|]. cbn [fst]. by destruct (obs_hash e).
Qed.

(** C40: An extension brake cannot fail silently.  After a reset of the guarded
    brake (the loop resets every brake before a run) and any events fed to it,
    its answer to the next event is decided by what the host brake's [reset]
    gave and by what the host brake, reset and then called with detached copies
    of the events so far, answers to a detached copy of this one.  It is [None]
    exactly when that reset returned [None] without raising and the host brake
    answers [None]; a trip with a reason that is not blank is passed on under
    the guarded brake's name; everything else -- a reset that raised or returned
    something, an exception, an answer of the wrong shape, a blank reason -- is
    an ABORT trip, on every event until the next reset.  A trip carries the
    event's digest; for an event that has no digest a trip becomes that error,
    which the update raises. *)
Theorem guarded_fail_closed (es : list event) (e : event) (n : nat) (b : GuardedBrake S) :
  let '(reset, s) := hb_reset (gb_brake b) in
  ∃ due, owed reset (host_answer e (foldl host_step (n, s) es)) due ∧
    (guarded_update clock e (guarded_feed es (n, guarded_reset b))).1 =
      match due with
      | None => Ok None
      | Some (reason, action) => h ← obs_hash e; Ok (Some (mkTrip (gb_name b) reason h action))
      end.
Proof.
  assert (Hf := feed_keeps es n (guarded_reset b)). unfold guarded_reset in *. destruct (hb_reset (gb_brake b)) as [reset s].
  destruct (guarded_feed es _) as [n1 b1]. cbn [gb_name gb_reset_failed gb_brake] in Hf. destruct Hf as (Hn & Hr & Hs).
  destruct (update_owed reset e n1 b1 Hr) as (due & Hd & ->). rewrite Hn. exists due. split; [|done].
  destruct reset as [[]|]; [rewrite <- Hs by done; exact Hd| |]; inversion Hd; subst; try done; apply owed_abort; naive_solver.
Qed.
End fail_closed.

(** A host brake whose reset raises once it has been updated, and which then
    answers [None]: the guarded brake aborts on every event after that reset. *)
#[local] Instance flaky_brake : HostBrake nat := {
  hb_update := λ _ _ '(n, k), (Ok HNone, (n, Datatypes.S k));
  hb_reset := λ k, (if (k =? 0)%nat then Ok true else Raise (OtherError "host"), k)
}.
Example flaky_aborts :
  (λ k, match (guarded_update (λ _, 0%Z) [] (guarded_feed (λ _, 0%Z) [[]; []] (0%nat, guarded_reset (mkGuarded (str "m:flaky") k false)))).1 with
        | Ok t => recommended_action <$> t | Raise _ => None end) <$> [0%nat; 1%nat] = [None; Some ABORT].
Proof. vm_compute. reflexivity. Qed.

(** ** Composition *)
Lemma add_evaluators_spec vs : ∀ base ev, add_evaluators vs base = Ok ev →
  (∀ k f, dget k base = Some f → dget k ev = Some f) ∧
  (∀ k d, dget k vs = Some d → dget k base = None ∧ dget k ev = Some (vd_evaluator d)).
Proof.
  induction vs as [|[k d] vs IH]; intros base ev; cbn [add_evaluators].
  - intros [= <-]. split; [done|]. intros k d Hk. discriminate Hk.
  - destruct (dmem k base) eqn:Hm; [done|]. intros Hadd. destruct (IH _ _ Hadd) as [H1 H2].
    assert (Hkn : dget k base = None) by (unfold dmem in Hm; by destruct (dget k base)). split.
    + intros k' f Hf. apply H1. rewrite dget_dset. case_decide; [subst; congruence|done].
    + intros k' d'. cbn [dget]. case_decide as Hd.
      * intros [= <-]. subst. split; [done|]. apply H1. by rewrite dget_dset_eq.
      * intros Hd'. destruct (H2 _ _ Hd') as [Hb He]. split; [|done]. rewrite dget_dset in Hb. by case_decide.
Qed.

(** Composed verifiers keep every host evaluator, add every registered one under
    its own name and never replace one by another. *)
Lemma compose_spec {W P} (x : ExtensionRegistry W P) base criteria ev : compose x base criteria = Ok ev →
  (∀ k f, dget k base = Some f → dget k ev = Some f) ∧
  (∀ k d, dget k (x_verifiers x) = Some d → dget k base = None ∧ dget k ev = Some (vd_evaluator d)) ∧
  (∀ c d, c ∈ criteria → dget (c_evaluator c) (x_verifiers x) = Some d → vd_check_type d = c_check_type c).
Proof.
  unfold compose. intros (ev' & Ha & H')%bind_Ok. destruct (forallb (criterion_typed x) criteria) eqn:E; [|done]. injection H' as <-.
  destruct (add_evaluators_spec _ _ _ Ha) as [H1 H2]. split_and!; [done|done|]. intros c d Hc Hd. rewrite forallb_true in E. specialize (E c Hc).
  unfold criterion_typed in E. rewrite Hd in E. by apply bool_decide_eq_true in E.
Qed.

(** One run is active at a time. *)
Lemma one_active_run {W P} (x x' : ExtensionRegistry W P) :
  acquire x = Ok x' → acquire x' = Raise (ContractError "extension registry already has an active run").
Proof. unfold acquire. destruct (x_frozen x) eqn:F; [|done]. destruct (x_active x); [done|]. intros [= <-]. cbn. by rewrite F. Qed.

(** ** Issued brakes are fresh *)
Lemma collect_brakes_fresh alive issued domain l : ∀ acc acc', collect_brakes alive issued domain l acc = Ok acc' →
  NoDup acc.*1 → NoDup acc.*2 → (∀ o, o ∈ acc.*2 → ¬ (o ∈ filter (λ o, alive o = true) issued)) →
  NoDup acc'.*1 ∧ NoDup acc'.*2 ∧ ∀ o, o ∈ acc'.*2 → ¬ (o ∈ filter (λ o, alive o = true) issued).
Proof.
  induction l as [|[nm o] l IH]; intros acc acc'; cbn [collect_brakes]; [intros [= <-]; auto|]. intros (local & _ & Hc)%bind_Ok.
  destruct (bool_decide (full_name domain local ∈ acc.*1)) eqn:E1; [done|]. destruct (bool_decide (o ∈ acc.*2)) eqn:E2; [done|].
  destruct (bool_decide (o ∈ filter _ issued)) eqn:E3; [done|]. cbn [orb] in Hc. apply bool_decide_eq_false in E1, E2, E3. intros N1 N2 N3.
  assert (Hsnoc : ∀ {A} (l : list A) y, NoDup l → ¬ (y ∈ l) → NoDup (l ++ [y])).
  { intros A k y Hk Hy. apply NoDup_app. split_and!; [done| |apply NoDup_singleton]. intros z Hz Hs. apply list_elem_of_singleton in Hs as ->. done. }
  apply (IH _ _ Hc); rewrite ?fmap_app; cbn [fmap list_fmap fst snd]; [by apply Hsnoc|by apply Hsnoc|].
  intros o' [Ho|Ho]%elem_of_app; [by apply N3|]. by apply list_elem_of_singleton in Ho as ->.
Qed.

Lemma module_brakes_fresh {W P} alive issued (modules : dict (StationModule W P)) : ∀ acc w acc' w', module_brakes alive issued modules acc w = (Ok acc', w') →
  NoDup acc.*1 → NoDup acc.*2 → (∀ o, o ∈ acc.*2 → ¬ (o ∈ filter (λ o, alive o = true) issued)) →
  NoDup acc'.*1 ∧ NoDup acc'.*2 ∧ ∀ o, o ∈ acc'.*2 → ¬ (o ∈ filter (λ o, alive o = true) issued).
Proof.
  induction modules as [|[domain m] modules IH]; intros acc w acc' w'; cbn [module_brakes]; [intros [= <- <-]; auto|].
  unfold mbind, SM_bind, sm_lift. destruct (mo_brakes m w) as [[inst|] w1]; [|done].
  destruct (collect_brakes alive issued domain inst acc) as [acc1|] eqn:E; [|done]. intros Hm N1 N2 N3.
  destruct (collect_brakes_fresh _ _ _ _ _ _ E N1 N2 N3) as (M1 & M2 & M3). by eapply IH.
Qed.

(** A run's extension brakes have distinct names and are distinct objects, none
    of which was issued to an earlier run and is still in use. *)
Lemma brakes_fresh {W P} alive (x x' : ExtensionRegistry W P) w w' l : brakes_of alive (x, w) = (Ok l, (x', w')) →
  NoDup l.*1 ∧ NoDup l.*2 ∧ (∀ o, o ∈ l.*2 → alive o = true → o ∉ x_issued x) ∧ (∀ o, o ∈ l.*2 → o ∈ x_issued x').
Proof.
  unfold brakes_of. destruct (module_brakes _ _ _ _ _) as [[l'|] w1] eqn:E; [|done]. intros [= -> <- <-].
  apply module_brakes_fresh in E as (H1 & H2 & H3); [|constructor|constructor|intros o Ho; by apply not_elem_of_nil in Ho].
  split_and!; [done|done| |].
  - intros o Ho Ha Hin. apply (H3 o Ho). apply list_elem_of_filter. split; [done|]. by apply list_elem_of_filter.
  - intros o Ho. cbn. apply elem_of_app. by right.
Qed.

(** ** Lifecycle fan-out *)
(** Handlers are callables compared by identity. *)
Record LifecycleBus : Type := mkBus { bus_handlers : dict (list nat); bus_failures : Z }.

(** [ModuleLifecycleBus(include_metrics)]; [bridge] is the default metrics handler. *)
Definition subscribe (event : pystr) (handler : nat) (b : LifecycleBus) : res LifecycleBus :=
  when bool_decide (event = []) raise TypeError "lifecycle subscriptions require an event name and callable handler";;
  let hs := default [] (dget event (bus_handlers b)) in
  Ok (mkBus (dset event (if bool_decide (handler ∈ hs) then hs else hs ++ [handler]) (bus_handlers b)) (bus_failures b)).
Definition LifecycleBus_new (bridge : option nat) : res LifecycleBus :=
  match bridge with Some h => subscribe (str "*") h (mkBus [] 0) | None => Ok (mkBus [] 0) end.

(** [list.remove]: the first occurrence. *)
Fixpoint remove_first (h : nat) (l : list nat) : list nat :=
  match l with [] => [] | x :: l => if decide (x = h) then l else x :: remove_first h l end.
Definition unsubscribe (event : pystr) (handler : nat) (b : LifecycleBus) : LifecycleBus :=
  match dget event (bus_handlers b) with
  | Some hs => if bool_decide (handler ∈ hs) then mkBus (dset event (remove_first handler hs) (bus_handlers b)) (bus_failures b) else b
  | None => b
  end.

(** [LifecycleBinding.close] *)
Definition close_binding (handlers : list (pystr * nat)) (b : LifecycleBus) : LifecycleBus :=
  foldl (λ b eh, unsubscribe eh.1 eh.2 b) b handlers.

(** The handlers of an event when it is emitted. *)
Definition recipients (event : pystr) (b : LifecycleBus) : list nat :=
  default [] (dget event (bus_handlers b)) ++ default [] (dget (str "*") (bus_handlers b)).

Section emission.
Context {W : Type} (call : nat → pystr → dict json → SM (LifecycleBus * W) unit).

(** A handler may use the bus itself; a raise is counted. *)
Definition notify (event : pystr) (payload : dict json) (handler : nat) (s : LifecycleBus * W) : LifecycleBus * W :=
  match call handler event payload s with
  | (Ok _, s) => s
  | (Raise _, (b, w)) => (mkBus (bus_handlers b) (bus_failures b + 1), w)
  end.
Definition emit_event (event : pystr) (payload : json) : SM (LifecycleBus * W) unit := λ s,
  match payload with
  | JDict p => (Ok tt, foldl (λ s h, notify event p h s) s (recipients event s.1))
  | _ => (Raise (TypeError "lifecycle payload must be a dict"), s)
  end.
End emission.

(** Every list of handlers is without duplicates. *)
Definition bus_ok (b : LifecycleBus) : Prop := ∀ e hs, dget e (bus_handlers b) = Some hs → NoDup hs.

Lemma subscribe_ok e h b b' : bus_ok b → subscribe e h b = Ok b' → bus_ok b'.
Proof.
  intros Hb. unfold subscribe. destruct (bool_decide (e = [])); [done|]. intros [= <-]. intros e' hs. cbn. rewrite dget_dset.
  case_decide; [|apply Hb]. intros [= <-]. assert (Hn : NoDup (default [] (dget e (bus_handlers b)))).
  { destruct (dget e (bus_handlers b)) eqn:E; [by eapply Hb|constructor]. }
  case_bool_decide as Hin; [done|]. apply NoDup_app. split_and!; [done| |apply NoDup_singleton].
  intros x Hx Hs. apply list_elem_of_singleton in Hs as ->. done.
Qed.

Lemma elem_of_remove_first x h l : NoDup l → x ∈ remove_first h l ↔ x ∈ l ∧ x ≠ h.
Proof.
  induction l as [|y l IH]; cbn; [intros _; split; [by intros ?%not_elem_of_nil|by intros [?%not_elem_of_nil _]]|].
  rewrite NoDup_cons. intros [Hy Hl]. specialize (IH Hl). case_decide as Hd; rewrite ?elem_of_cons; [subst; naive_solver|rewrite IH; naive_solver].
Qed.
Lemma NoDup_remove_first h l : NoDup l → NoDup (remove_first h l).
Proof.
  induction l as [|y l IH]; cbn; [done|]. rewrite NoDup_cons. intros [Hy Hl]. case_decide; [done|].
  apply NoDup_cons. split; [|auto]. rewrite elem_of_remove_first by done. naive_solver.
Qed.

Lemma unsubscribe_spec e h b : bus_ok b →
  bus_ok (unsubscribe e h b) ∧
  ∀ e' x, x ∈ default [] (dget e' (bus_handlers (unsubscribe e h b))) ↔ x ∈ default [] (dget e' (bus_handlers b)) ∧ ¬ (e' = e ∧ x = h).
Proof.
  intros Hb. unfold unsubscribe. destruct (dget e (bus_handlers b)) as [hs|] eqn:E.
  2: { split; [done|]. intros e' x. split; [|naive_solver]. intros Hx. split; [done|]. intros [-> ->]. rewrite E in Hx. by apply not_elem_of_nil in Hx. }
  case_bool_decide as Hin.
  2: { split; [done|]. intros e' x. split; [|naive_solver]. intros Hx. split; [done|]. intros [-> ->]. rewrite E in Hx. done. }
  pose proof (Hb _ _ E) as Hn. split.
  - intros e' hs'. cbn. rewrite dget_dset. case_decide; [|apply Hb]. intros [= <-]. by apply NoDup_remove_first.
  - intros e' x. cbn. rewrite dget_dset. case_decide as Hd; [subst|naive_solver]. cbn. rewrite elem_of_remove_first by done. rewrite E. cbn. naive_solver.
Qed.

(** A closed binding is detached: its handlers no longer receive its events, and
    every other subscription is as it was. *)
Lemma close_detaches handlers : ∀ b, bus_ok b → ∀ e x,
  x ∈ default [] (dget e (bus_handlers (close_binding handlers b))) ↔ x ∈ default [] (dget e (bus_handlers b)) ∧ (e, x) ∉ handlers.
Proof.
  induction handlers as [|[e0 h0] l IH]; intros b Hb e x.
  - cbn. split; [|naive_solver]. intros Hx. split; [done|]. by apply not_elem_of_nil.
  - unfold close_binding in *. cbn [foldl fst snd]. destruct (unsubscribe_spec e0 h0 b Hb) as [Hb' Hx]. rewrite (IH _ Hb'), Hx, not_elem_of_cons.
    naive_solver.
Qed.
