(* ===== verification/Graph.v ===== *)
(** * Dependency graphs by identifier

    The graphs of the factory pipeline: a list of nodes, each with the
    identifiers it depends on.  The dependency relation, acyclicity as the
    absence of a dependency chain from a node to itself, strong normalisation
    of acyclic closed graphs, topological orders and closures of a finite
    relation.  Plans, the M4 scheduler, the evidence planner and the evidence
    bus share these facts. *)

From Stdlib Require Import ZArith NArith Lia.
From stdpp Require Import relations.
From S2P Require Import Prelude PyData Core CoreFacts.

Abbreviation graph := (list (pystr * list pystr)).

(** [gdep g n d]: node [n] of [g] depends directly on [d]. *)
Definition gdep (g : graph) (n d : pystr) : Prop := ∃ ds, (n, ds) ∈ g ∧ d ∈ ds.

Definition g_closed (g : graph) : Prop := ∀ n d, gdep g n d → d ∈ g.*1.

(** No chain of dependencies leads from a node back to itself. *)
Definition g_acyclic (g : graph) : Prop := ∀ n, ¬ tc (gdep g) n n.

(** ** Acyclic closed graphs have no infinite dependency chain *)
Lemma gdep_node g n d : gdep g n d → n ∈ g.*1.
Proof. intros (ds & H & _). apply list_elem_of_fmap. by exists (n, ds). Qed.

Lemma gdep_tc_closed g n d : g_closed g → tc (gdep g) n d → d ∈ g.*1.
Proof. intros Hc. induction 1; eauto. Qed.

Lemma acyclic_sn g n : g_closed g → g_acyclic g → sn (gdep g) n.
Proof.
  intros Hc Ha. apply tc_finite_sn; [exact Ha|].
  exists g.*1. intros d. by apply gdep_tc_closed.
Qed.

Lemma sn_irrefl g n : sn (gdep g) n → ¬ tc (gdep g) n n.
Proof.
  induction 1 as [n _ IH]. intros Hn.
  inversion Hn as [? ? H1|? y ? H1 H2]; subst.
  - by apply (IH n H1).
  - apply (IH y H1). by eapply tc_r.
Qed.

Lemma sn_all_acyclic g : (∀ n, n ∈ g.*1 → sn (gdep g) n) → g_acyclic g.
Proof.
  intros H n Hn. assert (n ∈ g.*1) as Hin.
  { inversion Hn as [? ? H1|? ? ? H1]; subst; by eapply gdep_node. }
  by apply (sn_irrefl g n (H n Hin)).
Qed.

(** A nonempty set of nodes each of which depends on one of the set excludes
    acyclicity. *)
Lemma acyclic_no_core g (P : pystr → Prop) n :
  g_closed g → g_acyclic g → (∀ m, P m → ∃ d, gdep g m d ∧ P d) → ¬ P n.
Proof.
  intros Hc Ha HP Hn. pose proof (acyclic_sn g n Hc Ha) as Hsn.
  induction Hsn as [n _ IH]. destruct (HP n Hn) as (d & Hd & HPd). by apply (IH d).
Qed.

(** A rank that decreases along dependencies excludes cycles. *)
Lemma ranked_acyclic g (rank : pystr → nat) :
  (∀ n d, gdep g n d → rank d < rank n) → g_acyclic g.
Proof.
  intros Hr. assert (∀ n d, tc (gdep g) n d → rank d < rank n) as H.
  { induction 1 as [n d Hd|n m d Hd _ IH]; [by apply Hr|]. specialize (Hr _ _ Hd). lia. }
  intros n Hn. specialize (H n n Hn). lia.
Qed.

(** ** Equivalent graphs *)
Lemma tc_impl {A} (R R' : relation A) x y : (∀ x y, R x y → R' x y) → tc R x y → tc R' x y.
Proof. intros H. induction 1; [apply tc_once; auto|eapply tc_l; eauto]. Qed.

Lemma acyclic_sub g g' : (∀ n d, gdep g n d → gdep g' n d) → g_acyclic g' → g_acyclic g.
Proof. intros H Ha n Hn. apply (Ha n). by eapply tc_impl. Qed.

Lemma gdep_perm g g' n d : g ≡ₚ g' → gdep g n d → gdep g' n d.
Proof. intros Hp (ds & H & Hd). exists ds. by rewrite <- Hp. Qed.

Lemma gdep_lookup g n ds d : NoDup g.*1 → (n, ds) ∈ g → gdep g n d → d ∈ ds.
Proof.
  intros Hnd Hin (ds' & Hin' & Hd). apply (dget_elem (V := list pystr) n) in Hin, Hin'; try done. congruence.
Qed.

(** ** Topological orders *)
Definition topological (g : graph) (l : list pystr) : Prop :=
  ∀ i n d, l !! i = Some n → gdep g n d → d ∈ take i l.

Lemma topological_app g l n :
  topological g l → (∀ d, gdep g n d → d ∈ l) → topological g (l ++ [n]).
Proof.
  intros Hl Hn i m d Hi Hd. destruct (decide (i < length l)) as [Hlt|Hge].
  - rewrite lookup_app_l in Hi by done. rewrite take_app_le by lia. eauto.
  - assert (i = length l) as -> by (apply lookup_lt_Some in Hi; rewrite length_app in Hi; cbn in Hi; lia).
    rewrite lookup_app_r, Nat.sub_diag in Hi by lia. injection Hi as <-.
    rewrite take_app_length. auto.
Qed.

(** A topological order of a set of nodes excludes cycles among them. *)
Lemma topological_acyclic g l :
  NoDup l → topological g l → (∀ n, n ∈ g.*1 → n ∈ l) → g_acyclic g.
Proof.
  intros Hnd Ht Hall. apply sn_all_acyclic. intros n Hn. apply Hall in Hn.
  apply list_elem_of_lookup in Hn as [i Hi]. revert n Hi.
  induction (lt_wf i) as [i _ IH]. intros n Hi. constructor. intros d Hd.
  specialize (Ht i n d Hi Hd). apply list_elem_of_lookup in Ht as [j Hj].
  apply lookup_take_Some in Hj as [Hj Hlt]. by apply (IH j).
Qed.

(** ** Searches
    The work left of a search that expands each node once: the weights of the
    nodes not yet seen. *)
Section open_weight.
Context {V : Type} (weight : V → nat).

Fixpoint open_weight (seen : gset pystr) (l : dict V) : nat :=
  match l with
  | [] => 0
  | (k, v) :: l => (if bool_decide (k ∈ seen) then 0 else weight v) + open_weight seen l
  end.

Lemma open_weight_fresh (h : pystr) (seen : gset pystr) (l : dict V) :
  h ∉ l.*1 → open_weight ({[h]} ∪ seen) l = open_weight seen l.
Proof.
  induction l as [|[k v] l IH]; [done|]. cbn [open_weight fmap list_fmap fst]. intros [Hn Hl]%not_elem_of_cons. rewrite IH by done. f_equal.
  rewrite (bool_decide_ext (k ∈ {[h]} ∪ seen) (k ∈ seen)); [done|]. set_solver.
Qed.

Lemma open_weight_step (seen : gset pystr) (h : pystr) v (l : dict V) :
  NoDup l.*1 → dget h l = Some v → h ∉ seen → open_weight seen l = weight v + open_weight ({[h]} ∪ seen) l.
Proof.
  induction l as [|[k w] l IH]; cbn [dget open_weight]; [done|]. intros [Hk Hl]%NoDup_cons. case_decide as E.
  - intros [= ->] Hs. subst k. rewrite (bool_decide_false (h ∈ seen)) by done. rewrite (bool_decide_true (h ∈ {[h]} ∪ seen)) by set_solver.
    by rewrite open_weight_fresh by done.
  - intros Hd Hs. rewrite (IH Hl Hd Hs).
    rewrite (bool_decide_ext (k ∈ seen) (k ∈ {[h]} ∪ seen)) by set_solver. lia.
Qed.
End open_weight.

(** A homomorphism into an acyclic graph has an acyclic domain. *)
Lemma acyclic_map g g' (φ : pystr → pystr) :
  (∀ n d, gdep g' n d → gdep g (φ n) (φ d)) → g_acyclic g → g_acyclic g'.
Proof.
  intros Hφ Ha n Hn. apply (Ha (φ n)). remember n as m eqn:E in Hn at 2. rewrite <- E at 2. clear E.
  induction Hn as [x y H|x y z H _ IH]; [apply tc_once; auto|eapply tc_l; eauto].
Qed.
