(* ===== verification/JsonPlain.v ===== *)
(** * JSON values that survive printing

    A value is [plain] when its objects have unique keys and its floats convert
    back from their text: such a value is read back from its canonical text up
    to key order.  The records of the factory are plain by construction; the
    hint database [plain] proves it from their shape. *)

From Stdlib Require Import ZArith NArith Lia.
From S2P Require Import Prelude PyData Sha256 PyFloat Json JsonFacts Core CoreFacts Storage.

Definition plain (v : json) : Prop := wf_json v = true ∧ floats_rt v = true.

Create HintDb plain.

Lemma plain_null : plain JNull.
Proof. done. Qed.
Lemma plain_bool b : plain (JBool b).
Proof. done. Qed.
Lemma plain_int z : plain (JInt z).
Proof. done. Qed.
Lemma plain_str s : plain (JStr s).
Proof. done. Qed.

Lemma plain_opt_str o : plain (json_opt_str o).
Proof. by destruct o. Qed.

Lemma plain_list l : Forall plain l → plain (JList l).
Proof.
  intros H. split; cbn; apply forallb_true; rewrite Forall_forall in H; intros v Hv; by apply H.
Qed.

Lemma plain_map {A} (f : A → json) l : (∀ x, plain (f x)) → plain (JList (f <$> l)).
Proof. intros H. apply plain_list, Forall_fmap, Forall_forall. intros x _. apply H. Qed.

Lemma plain_strs l : plain (json_strs l).
Proof. apply plain_map. intros s. apply plain_str. Qed.

Lemma plain_obj (d : list (string * json)) :
  bool_decide (NoDup d.*1) = true → Forall (λ kv, plain kv.2) d → plain (jobj d).
Proof.
  intros Hnd H. apply bool_decide_eq_true in Hnd. rewrite Forall_forall in H. split; cbn.
  - apply andb_true_iff. split.
    + apply bool_decide_eq_true. rewrite <- list_fmap_compose.
      replace ((fst ∘ (λ kv : string * json, (str kv.1, kv.2))) <$> d) with (str <$> d.*1)
        by (rewrite <- list_fmap_compose; done).
      by apply NoDup_fmap_2; [apply _|].
    + apply forallb_true. intros [k v] Hv. apply list_elem_of_fmap in Hv as ([k' v'] & [= -> ->] & Hv). by apply (H (k', v')).
  - apply forallb_true. intros [k v] Hv. apply list_elem_of_fmap in Hv as ([k' v'] & [= -> ->] & Hv). by apply (H (k', v')).
Qed.

#[export] Hint Resolve plain_null plain_bool plain_int plain_str plain_opt_str plain_strs : plain.

(** An object literal whose values are plain. *)
Ltac plain_obj :=
  apply plain_obj; [vm_compute; reflexivity|];
  repeat (apply Forall_cons; split; [cbn [snd]; auto with plain|]); [..|apply Forall_nil; exact I].

Lemma plain_read v t : plain v → canonical v = Ok t → strict_json t = Ok (sort_json v).
Proof. intros [Hw Hf] Ht. by apply strict_json_canonical. Qed.

Lemma plain_digest v w h :
  plain v → plain w → digest v = Ok h → digest w = Ok h → sort_json v = sort_json w ∨ json_collide v w.
Proof. intros [] [] ? ?. by eapply digest_injective. Qed.

Lemma sort_json_strs (l : list pystr) : sort_json (json_strs l) = json_strs l.
Proof.
  unfold json_strs. cbn [sort_json]. f_equal. rewrite <- list_fmap_compose. by apply list_fmap_ext.
Qed.

Lemma sort_json_opt_str o : sort_json (json_opt_str o) = json_opt_str o.
Proof. by destruct o. Qed.

(** ** Values read back once are read back unchanged *)
Lemma sort_json_idemp v : sort_json (sort_json v) = sort_json v.
Proof.
  induction v as [|b|z|f|s|l IH|d IH] using json_ind; try done.
  - cbn [sort_json]. f_equal. rewrite <- list_fmap_compose. apply list_fmap_ext. intros i x Hx. rewrite Forall_forall in IH.
    apply IH. by eapply list_elem_of_lookup_2.
  - cbn [sort_json]. f_equal. set (l := sort_by key_leb ((λ kv, (kv.1, sort_json kv.2)) <$> d)).
    assert ((λ kv, (kv.1, sort_json kv.2)) <$> l = l) as ->; [|apply sort_by_idemp; [apply key_leb_total|apply key_leb_trans]].
    rewrite <- (list_fmap_id l) at 2. apply list_fmap_ext. intros i [k x] Hx. cbn. f_equal. apply list_elem_of_lookup_2 in Hx.
    unfold l in Hx. rewrite sort_by_perm in Hx. apply list_elem_of_fmap in Hx as (kv & [= -> ->] & Hin). rewrite Forall_forall in IH. by apply IH.
Qed.

Lemma plain_sort_json v : plain v → plain (sort_json v).
Proof.
  unfold plain. induction v as [|b|z|f|s|l IH|d IH] using json_ind; try done; cbn [sort_json wf_json floats_rt]; rewrite Forall_forall in IH.
  - rewrite !forallb_true. intros [Hw Hf]. split; intros x (y & -> & Hy)%list_elem_of_fmap; apply (IH y Hy); auto.
  - rewrite !andb_true_iff, !bool_decide_eq_true, !forallb_true. intros [[Hn Hw] Hf].
    split_and!; [rewrite sort_by_perm, <- list_fmap_compose; exact Hn|..];
      intros x Hx; rewrite sort_by_perm in Hx; apply list_elem_of_fmap in Hx as (y & -> & Hy); apply (IH y Hy); auto.
Qed.

Lemma plain_dict d : plain (JDict d) ↔ NoDup d.*1 ∧ Forall (λ kv, plain kv.2) d.
Proof.
  unfold plain. cbn [wf_json floats_rt]. rewrite andb_true_iff, bool_decide_eq_true, !forallb_true, Forall_forall. split.
  - intros [[Hn Hw] Hf]. split; [done|]. intros x Hx. split; auto.
  - intros [Hn H]. split_and!; [done|..]; intros x Hx; by apply H.
Qed.

Lemma plain_dset k v d : plain v → plain (JDict d) → plain (JDict (dset k v d)).
Proof.
  rewrite !plain_dict. intros Hv [Hn Hd]. split; [by apply wf_dset|]. clear Hn.
  induction Hd as [|[j w] d Hw Hd IH]; cbn [dset]; [by constructor|]. case_decide; by constructor.
Qed.

(** [{**base, **details}] *)
Lemma plain_merge base details : plain (JDict base) → plain (JDict details) → plain (JDict (foldl (λ d kv, dset kv.1 kv.2 d) base details)).
Proof.
  intros Hb [_ Hd]%plain_dict. revert base Hb. induction Hd as [|[k v] details Hv _ IH]; intros base Hb; [done|]. cbn. by apply IH, plain_dset.
Qed.
