(* ===== verification/Plan.v ===== *)
(** * Factory plans and their compiler (residual/factory/models.py, compiler.py)

    Requirements, factory tasks, execution plans with their canonical payload
    and graph hash, approvals of a frozen plan, and the deterministic compiler
    that turns a structured intent document into a plan or into questions.
    The dataclass constructors take untyped values, as [from_dict] passes
    whatever the document holds; the records are what a constructor returns.
    A dependency that is a hashable value other than a string is no identifier
    of the plan: the source finds it unknown when the plan is built, the model
    when the item is read. *)

From Stdlib Require Import ZArith NArith Lia.
From stdpp Require Import relations.
From S2P Require Import Prelude PyData Sha256 PyFloat Json JsonFacts Core CoreFacts Storage Builtins Graph.

(** ** Untyped values *)
(** [tuple(v)] *)
Definition json_tuple (v : json) : res (list json) :=
  match v with
  | JList l => Ok l
  | JStr s => Ok ((λ c, JStr [c]) <$> s)
  | JDict d => Ok (JStr <$> d.*1)
  | _ => Raise (TypeError "object is not iterable")
  end.

(** [v[...]] with a string index needs a dict *)
Definition json_mapping (v : json) : res (dict json) :=
  match v with JDict d => Ok d | _ => Raise (TypeError "indices must be integers") end.

Definition identifier_of (v : json) : res pystr :=
  match v with JStr s => identifier s | _ => Raise (ContractError "invalid identifier") end.

(** [isinstance(v, str) and v.strip()] *)
Definition text_of (v : json) : option pystr :=
  match v with JStr s => if blank s then None else Some s | _ => None end.
Definition is_str (v : json) : bool := match v with JStr _ => true | _ => false end.

(** [len(set(l)) == len(l)]; a list or dict is unhashable *)
Definition hashable (v : json) : bool := match v with JList _ | JDict _ => false | _ => true end.
Fixpoint all_distinct (l : list json) : bool :=
  match l with [] => true | v :: l => negb (existsb (py_eq v) l) && all_distinct l end.
Definition distinct_refs (l : list json) (msg : string) : res unit :=
  when negb (forallb hashable l) raise TypeError "unhashable type";;
  when negb (all_distinct l) raise ContractError msg;;
  Ok tt.
Definition ref_of (v : json) : res pystr :=
  match v with JStr s => Ok s | _ => Raise (ContractError "unknown dependency") end.

Definition not_subset (l : list pystr) (s : gset pystr) : bool := negb (subset l s).

(** ** Requirements *)
Record Requirement : Type := mkRequirement {
  rq_id : pystr;
  rq_statement : pystr;
  rq_acceptance : list pystr;
  rq_depends_on : list pystr
}.

Definition Requirement_init (id statement : json) (acceptance depends_on : list json) : res Requirement :=
  i ← identifier_of id;
  s ← of_option (ContractError "requirement statement must be nonempty") (text_of statement);
  a ← of_option (ContractError "requirement acceptance must contain nonempty criteria")
        (if bool_decide (acceptance = []) then None else mapM text_of acceptance);
  _ ← distinct_refs depends_on "duplicate requirement dependency";
  ds ← mapM ref_of depends_on;
  Ok (mkRequirement i s a ds).

Definition Requirement_dict (r : Requirement) : json :=
  jobj [("id", JStr (rq_id r)); ("statement", JStr (rq_statement r));
        ("acceptance", json_strs (rq_acceptance r)); ("depends_on", json_strs (rq_depends_on r))].

(** ** Tasks *)
Record FactoryTask : Type := mkFactoryTask {
  ft_id : pystr;
  ft_description : pystr;
  ft_requirement_ids : list pystr;
  ft_depends_on : list pystr;
  ft_swarm : option pystr
}.

Definition FactoryTask_init (id description : json) (requirement_ids depends_on : list json) (swarm : json)
    : res FactoryTask :=
  i ← identifier_of id;
  d ← of_option (ContractError "factory task description must be nonempty") (text_of description);
  when bool_decide (requirement_ids = []) raise ContractError "factory task must bind at least one requirement";;
  sw ← match swarm with JNull => Ok None | v => s ← identifier_of v; Ok (Some s) end;
  _ ← distinct_refs requirement_ids "duplicate factory task binding or dependency";
  _ ← distinct_refs depends_on "duplicate factory task binding or dependency";
  rs ← mapM ref_of requirement_ids;
  ds ← mapM ref_of depends_on;
  Ok (mkFactoryTask i d rs ds sw).

Definition FactoryTask_dict (t : FactoryTask) : json :=
  jobj [("id", JStr (ft_id t)); ("description", JStr (ft_description t));
        ("requirement_ids", json_strs (ft_requirement_ids t)); ("depends_on", json_strs (ft_depends_on t));
        ("swarm", json_opt_str (ft_swarm t))].

#[export] Instance Requirement_eq_dec : EqDecision Requirement.
Proof. solve_decision. Defined.
#[export] Instance FactoryTask_eq_dec : EqDecision FactoryTask.
Proof. solve_decision. Defined.

(** ** Plans *)
Record ExecutionPlan : Type := mkPlan {
  ep_intent : pystr;
  ep_requirements : list Requirement;
  ep_tasks : list FactoryTask;
  ep_schema_version : json
}.

#[export] Instance ExecutionPlan_eq_dec : EqDecision ExecutionPlan.
Proof. solve_decision. Defined.

Definition req_graph (rs : list Requirement) : graph := (λ r, (rq_id r, rq_depends_on r)) <$> rs.
Definition task_graph (ts : list FactoryTask) : graph := (λ t, (ft_id t, ft_depends_on t)) <$> ts.

(** The [while remaining] loop of [_assert_acyclic]. *)
Fixpoint acyclic_loop (fuel : nat) (remaining : list (pystr * gset pystr)) (resolved : gset pystr)
    (kind : string) : res unit :=
  match remaining with
  | [] => Ok tt
  | _ =>
      match fuel with
      | O => out_of_fuel
      | S fuel =>
          let ready := sort_str (filter (λ nd : pystr * gset pystr, nd.2 ⊆ resolved) remaining).*1 in
          when bool_decide (ready = []) raise ContractError (kind +:+ " dependency cycle");;
          let '(resolved, remaining) :=
            foldl (λ st n, ({[n]} ∪ st.1, ddel n st.2)) (resolved, remaining) ready in
          acyclic_loop fuel remaining resolved kind
      end
  end.

Definition _assert_acyclic (nodes : graph) (kind : string) : res unit :=
  acyclic_loop (length nodes) (dict_of ((λ nd : pystr * list pystr, (nd.1, list_to_set nd.2)) <$> nodes)) ∅ kind.

Definition ExecutionPlan_init (intent : json) (requirements : list Requirement) (tasks : list FactoryTask)
    (schema_version : json) : res ExecutionPlan :=
  i ← of_option (ContractError "execution plan intent must be nonempty") (text_of intent);
  when bool_decide (requirements = []) || bool_decide (tasks = [])
  raise ContractError "execution plan requires requirements and tasks";;
  let req_ids := rq_id <$> requirements in
  let task_ids := ft_id <$> tasks in
  when negb (bool_decide (NoDup req_ids)) || negb (bool_decide (NoDup task_ids))
  raise ContractError "duplicate requirement or task id";;
  let req_set := list_to_set req_ids in
  let task_set := list_to_set task_ids in
  when existsb (λ r, not_subset (rq_depends_on r) req_set) requirements
  raise ContractError "unknown requirement dependency";;
  when existsb (λ t, not_subset (ft_requirement_ids t) req_set || not_subset (ft_depends_on t) task_set) tasks
  raise ContractError "unknown task requirement or dependency";;
  _ ← _assert_acyclic (req_graph requirements) "requirement";
  _ ← _assert_acyclic (task_graph tasks) "task";
  Ok (mkPlan i requirements tasks schema_version).

Definition req_leb (x y : Requirement) : bool := str_leb (rq_id x) (rq_id y).
Definition task_leb (x y : FactoryTask) : bool := str_leb (ft_id x) (ft_id y).

Definition canonical_payload (p : ExecutionPlan) : list (string * json) :=
  [("schema_version", ep_schema_version p);
   ("intent", JStr (strip (ep_intent p)));
   ("requirements", JList (Requirement_dict <$> sort_by req_leb (ep_requirements p)));
   ("tasks", JList (FactoryTask_dict <$> sort_by task_leb (ep_tasks p)))].

Definition graph_hash (p : ExecutionPlan) : res pystr := digest (jobj (canonical_payload p)).

Definition plan_dict (p : ExecutionPlan) : res json :=
  h ← graph_hash p;
  Ok (jobj (canonical_payload p ++ [("graph_hash", JStr h)])).

Definition requirement_item (item : json) : res Requirement :=
  d ← json_mapping item;
  id ← dgetitem (str "id") d;
  statement ← dgetitem (str "statement") d;
  acceptance ← (v ← dgetitem (str "acceptance") d; json_tuple v);
  depends_on ← json_tuple (default (JList []) (dget (str "depends_on") d));
  Requirement_init id statement acceptance depends_on.

Definition task_item (item : json) : res FactoryTask :=
  d ← json_mapping item;
  id ← dgetitem (str "id") d;
  description ← dgetitem (str "description") d;
  requirement_ids ← (v ← dgetitem (str "requirement_ids") d; json_tuple v);
  depends_on ← json_tuple (default (JList []) (dget (str "depends_on") d));
  FactoryTask_init id description requirement_ids depends_on (default JNull (dget (str "swarm") d)).

Definition unknown_keys (d : dict json) (allowed : list string) : bool :=
  existsb (λ k, negb (bool_decide (k ∈ str <$> allowed))) d.*1.

Definition plan_from_dict (data : json) : res ExecutionPlan :=
  match data with
  | JDict d =>
      when unknown_keys d ["schema_version"; "intent"; "requirements"; "tasks"; "graph_hash"]
      raise ContractError "unknown execution plan keys";;
      rv ← dgetitem (str "requirements") d;
      ritems ← json_tuple rv;
      reqs ← mapM requirement_item ritems;
      tv ← dgetitem (str "tasks") d;
      titems ← json_tuple tv;
      tasks ← mapM task_item titems;
      intent ← dgetitem (str "intent") d;
      p ← ExecutionPlan_init intent reqs tasks
            (default (JStr (str "factory-plan-v1")) (dget (str "schema_version") d));
      match default JNull (dget (str "graph_hash") d) with
      | JNull => Ok p
      | supplied =>
          h ← graph_hash p;
          when negb (py_eq supplied (JStr h)) raise ContractError "execution plan hash mismatch";;
          Ok p
      end
  | _ => Raise (ContractError "execution plan must be an object")
  end.

Definition load_plan_text (text : pystr) : res ExecutionPlan :=
  v ← strict_json text; plan_from_dict v.

Definition dump_plan (p : ExecutionPlan) : res pystr :=
  v ← plan_dict p; canonical v.

(** ** Approvals *)
Record FrozenPlan : Type := mkFrozenPlan {
  fz_graph_hash : json;
  fz_approved_by : json;
  fz_approved_at : json;
  fz_schema_version : json
}.

(** [now] is [datetime.now(timezone.utc).isoformat()] *)
Definition approve (p : ExecutionPlan) (approved_by : json) (now : pystr) : res FrozenPlan :=
  by_ ← of_option (ContractError "approved_by must be nonempty") (text_of approved_by);
  h ← graph_hash p;
  Ok (mkFrozenPlan (JStr h) (JStr (strip by_)) (JStr now) (JStr (str "factory-approval-v1"))).

Definition frozen_dict (f : FrozenPlan) : json :=
  jobj [("schema_version", fz_schema_version f); ("graph_hash", fz_graph_hash f);
        ("approved_by", fz_approved_by f); ("approved_at", fz_approved_at f)].

Definition assert_matches (f : FrozenPlan) (p : ExecutionPlan) : res unit :=
  h ← graph_hash p;
  when negb (py_eq (fz_graph_hash f) (JStr h)) raise ContractError "approval does not match execution plan";;
  Ok tt.

Definition frozen_from_dict (data : json) : res FrozenPlan :=
  d ← json_mapping data;
  h ← dgetitem (str "graph_hash") d;
  by_ ← dgetitem (str "approved_by") d;
  at_ ← dgetitem (str "approved_at") d;
  Ok (mkFrozenPlan h by_ at_ (default (JStr (str "factory-approval-v1")) (dget (str "schema_version") d))).

(** ** The compiler *)
Record CompileResult : Type := mkCompileResult { cr_plan : option ExecutionPlan; cr_questions : list pystr }.

Definition cr_ready (c : CompileResult) : bool :=
  match cr_plan c with Some _ => bool_decide (cr_questions c = []) | None => false end.

(** Lists whose elements are all strings, as [_parse_tasks] and [compile] test. *)
Definition str_list (v : json) : option (list pystr) :=
  match v with JList l => mapM (λ x, match x with JStr s => Some s | _ => None end) l | _ => None end.

(** One iteration of the requirement loop: the requirement, or a question. *)
Definition compile_item (index : nat) (item : json) (seen : list pystr)
    : res (list pystr * (Requirement + pystr)) :=
  match item with
  | JDict d =>
      match default JNull (dget (str "id") d) with
      | JStr req_id =>
          _ ← identifier req_id;
          when bool_decide (req_id ∈ seen) raise ContractError "duplicate requirement id";;
          match text_of (default JNull (dget (str "statement") d)) with
          | None => Ok (req_id :: seen, inr (str "What exactly must " ++ req_id ++ str " require?"))
          | Some statement =>
              match default JNull (dget (str "acceptance") d) with
              | JList ((_ :: _) as l) =>
                  match mapM text_of l with
                  | Some acceptance =>
                      deps ← of_option (ContractError "requirement depends_on must be an array of ids")
                               (str_list (default (JList []) (dget (str "depends_on") d)));
                      r ← Requirement_init (JStr req_id) (JStr (strip statement))
                            (JStr <$> (strip <$> acceptance)) (JStr <$> deps);
                      Ok (req_id :: seen, inl r)
                  | None => Ok (req_id :: seen, inr (str "What observable acceptance criteria prove "
                                                     ++ req_id ++ str " is complete?"))
                  end
              | _ => Ok (req_id :: seen, inr (str "What observable acceptance criteria prove "
                                              ++ req_id ++ str " is complete?"))
              end
          end
      | _ => Ok (seen, inr (str "Requirement " ++ str_of_Z (Z.of_nat index) ++ str " needs a stable id."))
      end
  | _ => Raise (ContractError "requirement entries must be objects")
  end.

Fixpoint compile_items (index : nat) (items : list json) (seen : list pystr)
    : res (list Requirement * list pystr) :=
  match items with
  | [] => Ok ([], [])
  | item :: items =>
      '(seen, out) ← compile_item index item seen;
      '(rs, qs) ← compile_items (S index) items seen;
      Ok match out with inl r => (r :: rs, qs) | inr q => (rs, q :: qs) end
  end.

Definition _derive_tasks (requirements : list Requirement) : res (list FactoryTask) :=
  let req_to_task := dict_of ((λ r, (rq_id r, str "task." ++ rq_id r)) <$> requirements) in
  mapM (λ r,
    id ← dgetitem (rq_id r) req_to_task;
    deps ← mapM (λ parent, dgetitem parent req_to_task) (rq_depends_on r);
    FactoryTask_init (JStr id) (JStr (rq_statement r)) [JStr (rq_id r)] (JStr <$> deps) JNull)
    (sort_by req_leb requirements).

Definition parse_task (req_ids : gset pystr) (item : json) : res FactoryTask :=
  match item with
  | JDict d =>
      when unknown_keys d ["id"; "description"; "requirement_ids"; "depends_on"; "swarm"]
      raise ContractError "unknown factory task keys";;
      match str_list (default JNull (dget (str "requirement_ids") d)) with
      | Some ((_ :: _) as requirement_ids) =>
          when not_subset requirement_ids req_ids raise ContractError "factory task references unknown requirement";;
          depends_on ← of_option (ContractError "factory task depends_on must be an array")
                         (str_list (default (JList []) (dget (str "depends_on") d)));
          id ← dgetitem (str "id") d;
          description ← dgetitem (str "description") d;
          FactoryTask_init id description (JStr <$> requirement_ids) (JStr <$> depends_on)
            (default JNull (dget (str "swarm") d))
      | _ => Raise (ContractError "factory task requirement_ids must be a nonempty array")
      end
  | _ => Raise (ContractError "task entries must be objects")
  end.

Definition _parse_tasks (raw_tasks : list json) (req_ids : gset pystr) : res (list FactoryTask) :=
  mapM (parse_task req_ids) raw_tasks.

Definition compile (document : json) : res CompileResult :=
  match document with
  | JDict d =>
      when unknown_keys d ["intent"; "requirements"; "tasks"] raise ContractError "unknown factory input keys";;
      let intent := text_of (default JNull (dget (str "intent") d)) in
      let asked := match intent with
                   | Some _ => []
                   | None => [str "What is the project intent or desired outcome?"]
                   end in
      match default JNull (dget (str "requirements") d) with
      | JList ((_ :: _) as raw_requirements) =>
          '(requirements, qs) ← compile_items 1 raw_requirements [];
          match intent, asked ++ qs with
          | Some intent, [] =>
              let req_ids := list_to_set (rq_id <$> requirements) in
              when existsb (λ r, not_subset (rq_depends_on r) req_ids) requirements
              raise ContractError "unknown requirement dependency";;
              tasks ← match default JNull (dget (str "tasks") d) with
                      | JNull => _derive_tasks requirements
                      | JList ((_ :: _) as raw_tasks) => _parse_tasks raw_tasks req_ids
                      | _ => Raise (ContractError "tasks must be a nonempty array when supplied")
                      end;
              p ← ExecutionPlan_init (JStr (strip intent)) requirements tasks (JStr (str "factory-plan-v1"));
              Ok (mkCompileResult (Some p) [])
          | _, questions => Ok (mkCompileResult None questions)
          end
      | _ => Ok (mkCompileResult None (asked ++ [str "What requirements must the project satisfy?"]))
      end
  | _ => Raise (ContractError "factory input must be an object")
  end.
