(* ===== verification/PlanFacts.v ===== *)
(** * Facts about factory plans

    The acyclicity loop decides cycles, constructed plans are well formed, a
    plan survives being dumped and loaded, and its hash does not depend on the
    order of its requirements and tasks. *)

From Stdlib Require Import ZArith NArith Lia.
From stdpp Require Import relations.
From S2P Require Import Prelude PyData Sha256 PyFloat Json JsonFacts Core CoreFacts Storage Builtins Graph JsonPlain Plan.

(** ** The acyclicity loop *)
Section acyclic.
Context (g : graph) (kind : string) (Hnd : NoDup g.*1).

Definition node_set (nd : pystr * list pystr) : pystr * gset pystr := (nd.1, list_to_set nd.2).
Definition unresolved (R : gset pystr) : list (pystr * gset pystr) :=
  node_set <$> filter (λ nd : pystr * list pystr, nd.1 ∉ R) g.

Lemma node_set_keys (l : graph) : (node_set <$> l).*1 = l.*1.
Proof. by rewrite <- list_fmap_compose. Qed.

Lemma filter_keys_NoDup (P : pystr * list pystr → Prop) `{∀ x, Decision (P x)} : NoDup (filter P g).*1.
Proof using Hnd. eapply sublist_NoDup; [exact Hnd|]. apply fmap_sublist, sublist_filter. Qed.

Lemma ddel_filter (k : pystr) (d : list (pystr * gset pystr)) : NoDup d.*1 → ddel k d = filter (λ nd, nd.1 ≠ k) d.
Proof.
  induction d as [|[j v] d IH]; cbn [ddel]; [done|]. intros [Hj Hd]%NoDup_cons.
  rewrite filter_cons. case_decide as E; cbn [fst] in *.
  - subst. rewrite decide_False by (intros H; by apply H). symmetry.
    clear -Hj. induction d as [|[i w] d IH]; [done|]. apply not_elem_of_cons in Hj as [Hne Hj].
    rewrite filter_cons_True by (cbn in *; congruence). f_equal. by apply IH.
  - rewrite decide_True by done. f_equal. by apply IH.
Qed.

Lemma pop_ready (ready : list pystr) (R : gset pystr) :
  foldl (λ st n, ({[n]} ∪ st.1, ddel n st.2)) (R, unresolved R) ready
  = (R ∪ list_to_set ready, unresolved (R ∪ list_to_set ready)).
Proof using Hnd.
  revert R. induction ready as [|n ready IH]; intros R; [cbn; by rewrite union_empty_r_L|].
  assert (ddel n (unresolved R) = unresolved ({[n]} ∪ R)) as E.
  { rewrite ddel_filter by (unfold unresolved; rewrite node_set_keys; apply filter_keys_NoDup).
    unfold unresolved. clear IH. induction g as [|[m ds] g' IH]; [done|].
    apply NoDup_cons in Hnd as [_ Hnd']. specialize (IH Hnd').
    rewrite !filter_cons. cbn [fst]. destruct (decide (m ∉ R)) as [H|H]; destruct (decide (m ∉ {[n]} ∪ R)) as [H'|H'].
    - rewrite !fmap_cons, filter_cons_True by (cbn; set_solver). by rewrite IH.
    - rewrite fmap_cons, filter_cons_False by (cbn; set_solver). by rewrite IH.
    - set_solver.
    - apply IH. }
  change (foldl (λ st n, ({[n]} ∪ st.1, ddel n st.2)) ({[n]} ∪ R, ddel n (unresolved R)) ready
          = (R ∪ list_to_set (n :: ready), unresolved (R ∪ list_to_set (n :: ready)))).
  rewrite E, IH. cbn [list_to_set]. by replace (R ∪ ({[n]} ∪ list_to_set ready)) with ({[n]} ∪ R ∪ list_to_set ready) by set_solver.
Qed.

Lemma elem_of_unresolved (R : gset pystr) (n : pystr) (s : gset pystr) :
  (n, s) ∈ unresolved R ↔ ∃ ds, (n, ds) ∈ g ∧ (n ∉ R) ∧ s = list_to_set ds.
Proof.
  unfold unresolved. rewrite list_elem_of_fmap. split.
  - intros ([m ds] & [= -> ->] & H). apply list_elem_of_filter in H as [HR H]. eauto.
  - intros (ds & H & HR & ->). exists (n, ds). split; [done|]. by apply list_elem_of_filter.
Qed.

Lemma elem_of_ready_nodes (R : gset pystr) (n : pystr) :
  n ∈ sort_str (filter (λ nd : pystr * gset pystr, nd.2 ⊆ R) (unresolved R)).*1
  ↔ ∃ ds, (n, ds) ∈ g ∧ (n ∉ R) ∧ (∀ d, d ∈ ds → d ∈ R).
Proof.
  rewrite elem_of_sort_by, list_elem_of_fmap. split.
  - intros ([m s] & -> & H). apply list_elem_of_filter in H as [Hs H].
    apply elem_of_unresolved in H as (ds & H & HR & ->). exists ds. split_and!; [done..|].
    intros d Hd. apply Hs. cbn. by apply elem_of_list_to_set.
  - intros (ds & H & HR & Hds). exists (n, list_to_set ds). split; [done|]. apply list_elem_of_filter. split.
    + intros d Hd. cbn in Hd. apply elem_of_list_to_set in Hd. auto.
    + apply elem_of_unresolved. eauto.
Qed.

Lemma length_unresolved_lt (R S : gset pystr) (n : pystr) :
  R ⊆ S → n ∈ g.*1 → n ∉ R → n ∈ S → length (unresolved S) < length (unresolved R).
Proof.
  intros HRS Hn HnR HnS. unfold unresolved. rewrite !length_fmap. clear Hnd. induction g as [|[m ds] g' IH].
  { by apply not_elem_of_nil in Hn. }
  assert (length (filter (λ nd : pystr * list pystr, nd.1 ∉ S) g')
          ≤ length (filter (λ nd : pystr * list pystr, nd.1 ∉ R) g')) as Hle.
  { clear -HRS. induction g' as [|[i es] g' IH]; [done|]. rewrite !filter_cons. cbn [fst].
    destruct (decide (i ∉ S)), (decide (i ∉ R)); cbn [length]; try lia. set_solver. }
  rewrite !filter_cons. cbn [fst]. rewrite fmap_cons, elem_of_cons in Hn. cbn [fst] in Hn.
  destruct (decide (m ∉ S)) as [H|H], (decide (m ∉ R)) as [H'|H']; cbn [length].
  - destruct Hn as [->|Hn]; [done|]. specialize (IH Hn). lia.
  - set_solver.
  - lia.
  - destruct Hn as [->|Hn]; [done|]. by apply IH.
Qed.

Lemma acyclic_loop_sound (fuel : nat) (R : gset pystr) :
  (∀ n : pystr, n ∈ R → sn (gdep g) n) → acyclic_loop fuel (unresolved R) R kind = Ok tt → g_acyclic g.
Proof using Hnd.
  revert R. induction fuel as [|fuel IH]; intros R HR H; cbn [acyclic_loop] in H.
  all: destruct (unresolved R) as [|[n s] rest] eqn:E; [|try done].
  1,2: apply sn_all_acyclic; intros n Hn; apply HR; destruct (decide (n ∈ R)) as [|HnR]; [done|];
    apply list_elem_of_fmap in Hn as ([m ds] & -> & Hn); cbn [fst] in *;
    assert ((m, list_to_set ds : gset pystr) ∈ unresolved R) as Hin by (apply elem_of_unresolved; eauto);
    rewrite E in Hin; by apply not_elem_of_nil in Hin.
  rewrite <- E in H. cbv zeta in H. case_bool_decide as Hr; [done|]. rewrite pop_ready in H. apply IH in H; [done|].
  intros m [Hm|Hm]%elem_of_union; [auto|]. apply elem_of_list_to_set, elem_of_ready_nodes in Hm as (ds & Hin & _ & Hds).
  constructor. intros d Hd. cbn in Hd. apply HR, Hds. by eapply gdep_lookup.
Qed.

Definition ready_nodes (R : gset pystr) : list pystr :=
  sort_str (filter (λ nd : pystr * gset pystr, nd.2 ⊆ R) (unresolved R)).*1.

Lemma ready_nonempty (R : gset pystr) (n : pystr) (s : gset pystr) :
  g_closed g → g_acyclic g → (n, s) ∈ unresolved R → ready_nodes R ≠ [].
Proof.
  intros Hc Ha Hn Er. apply elem_of_unresolved in Hn as (ds & Hn & HnR & _).
  apply (acyclic_no_core g (λ m, m ∈ g.*1 ∧ m ∉ R) n Hc Ha); [|split; [apply list_elem_of_fmap; by exists (n, ds)|done]].
  intros m [Hm HmR]. apply list_elem_of_fmap in Hm as ([m' es] & -> & Hm). cbn [fst] in *.
  destruct (decide (Forall (λ d, d ∈ R) es)) as [Hall|Hex].
  - exfalso. rewrite Forall_forall in Hall. assert (m' ∈ ready_nodes R) as Hin by (apply elem_of_ready_nodes; eauto).
    rewrite Er in Hin. by apply not_elem_of_nil in Hin.
  - apply not_Forall_Exists in Hex; [|apply _]. apply Exists_exists in Hex as (d & Hd & HdR). exists d.
    assert (gdep g m' d) as Hgd by (by exists es). split; [done|]. split; [eauto|done].
Qed.

Lemma ready_shrinks (R : gset pystr) (m : pystr) :
  m ∈ ready_nodes R → length (unresolved (R ∪ list_to_set (ready_nodes R))) < length (unresolved R).
Proof using Hnd.
  intros Hm. assert (Hm' := Hm). apply elem_of_ready_nodes in Hm' as (es & Hin & HmR & _).
  apply (length_unresolved_lt _ _ m); [set_solver| |done|set_solver].
  apply list_elem_of_fmap. by exists (m, es).
Qed.

(** Every round resolves a node, so the loop ends within one round per node. *)
Lemma acyclic_loop_cases (fuel : nat) (R : gset pystr) :
  length (unresolved R) ≤ fuel →
  acyclic_loop fuel (unresolved R) R kind = Ok tt ∨
  (acyclic_loop fuel (unresolved R) R kind = Raise (ContractError (kind +:+ " dependency cycle"))
   ∧ ¬ (g_closed g ∧ g_acyclic g)).
Proof using Hnd.
  revert R. induction fuel as [|fuel IH]; intros R Hf; cbn [acyclic_loop].
  all: destruct (unresolved R) as [|[n s] rest] eqn:E; [by left|].
  { cbn in Hf. lia. }
  assert ((n, s) ∈ unresolved R) as Hn by (rewrite E; left). rewrite <- E in Hf |- *. clear E rest. cbv zeta.
  fold (ready_nodes R). case_bool_decide as Hr.
  - right. split; [done|]. intros [Hc Ha]. by apply (ready_nonempty R n s).
  - rewrite pop_ready. apply IH. destruct (ready_nodes R) as [|m l] eqn:Er; [done|].
    assert (m ∈ ready_nodes R) as Hm by (rewrite Er; left). rewrite <- Er. apply ready_shrinks in Hm. lia.
Qed.
End acyclic.

(** [_assert_acyclic] succeeds on the acyclic graphs, and otherwise raises the
    cycle error. *)
Lemma assert_acyclic_spec g kind :
  NoDup g.*1 → g_closed g →
  (_assert_acyclic g kind = Ok tt ∧ g_acyclic g) ∨
  (_assert_acyclic g kind = Raise (ContractError (kind +:+ " dependency cycle")) ∧ ¬ g_acyclic g).
Proof.
  intros Hnd Hc. assert (unresolved g ∅ = node_set <$> g) as Hu.
  { unfold unresolved. f_equal. clear. induction g as [|nd g IH]; [done|].
    rewrite filter_cons_True by set_solver. by rewrite IH. }
  unfold _assert_acyclic. fold node_set. rewrite dict_of_NoDup, <- Hu by (by rewrite node_set_keys).
  destruct (acyclic_loop_cases g kind Hnd (length g) ∅) as [H|[H Hn]].
  - by rewrite Hu, length_fmap.
  - left. split; [done|]. eapply acyclic_loop_sound; [done| |done]. set_solver.
  - right. split; [done|]. tauto.
Qed.

(** ** Well-formed plans *)
Record req_ok (r : Requirement) : Prop := {
  rok_id : ident_ok (rq_id r) = true;
  rok_statement : blank (rq_statement r) = false;
  rok_acceptance : rq_acceptance r ≠ [];
  rok_criteria : Forall (λ s, blank s = false) (rq_acceptance r);
  rok_deps : NoDup (rq_depends_on r)
}.

Record ftask_ok (t : FactoryTask) : Prop := {
  fok_id : ident_ok (ft_id t) = true;
  fok_description : blank (ft_description t) = false;
  fok_bound : ft_requirement_ids t ≠ [];
  fok_reqs : NoDup (ft_requirement_ids t);
  fok_deps : NoDup (ft_depends_on t);
  fok_swarm : ∀ s, ft_swarm t = Some s → ident_ok s = true
}.

Record plan_ok (p : ExecutionPlan) : Prop := {
  pok_intent : blank (ep_intent p) = false;
  pok_requirements : ep_requirements p ≠ [];
  pok_tasks : ep_tasks p ≠ [];
  pok_req_ids : NoDup (rq_id <$> ep_requirements p);
  pok_task_ids : NoDup (ft_id <$> ep_tasks p);
  pok_req_ok : Forall req_ok (ep_requirements p);
  pok_task_ok : Forall ftask_ok (ep_tasks p);
  pok_req_closed : g_closed (req_graph (ep_requirements p));
  pok_task_closed : g_closed (task_graph (ep_tasks p));
  pok_bound : ∀ t r, t ∈ ep_tasks p → r ∈ ft_requirement_ids t → r ∈ rq_id <$> ep_requirements p;
  pok_req_acyclic : g_acyclic (req_graph (ep_requirements p));
  pok_task_acyclic : g_acyclic (task_graph (ep_tasks p))
}.

Lemma mapM_ref_of (l : list json) k : mapM ref_of l = Ok k ↔ l = JStr <$> k.
Proof.
  rewrite mapM_res_Ok. split.
  - induction 1 as [|v s l k Hv _ IH]; [done|]. destruct v; try done. injection Hv as ->. cbn. by rewrite IH.
  - intros ->. induction k; constructor; done.
Qed.

Lemma text_of_Some v s : text_of v = Some s ↔ v = JStr s ∧ blank s = false.
Proof.
  destruct v as [| | | |t| |]; cbn; try (split; [done|by intros [? _]]).
  destruct (blank t) eqn:E; split; [done|intros [[= ->] ?]; congruence|intros [= <-]; done|by intros [[= ->] _]].
Qed.

Lemma mapM_text_of (l : list json) k : mapM text_of l = Some k ↔ l = JStr <$> k ∧ Forall (λ s, blank s = false) k.
Proof.
  rewrite mapM_Some. split.
  - induction 1 as [|v s l k Hv _ [-> IH]]; [done|]. apply text_of_Some in Hv as [-> Hb]. split; [done|by constructor].
  - intros [-> H]. induction H as [|s k Hs _ IH]; constructor; [by apply text_of_Some|done].
Qed.

Lemma distinct_refs_strs k msg : distinct_refs (JStr <$> k) msg = Ok tt ↔ NoDup k.
Proof.
  unfold distinct_refs. assert (forallb hashable (JStr <$> k) = true) as -> by (by induction k).
  assert (all_distinct (JStr <$> k) = bool_decide (NoDup k)) as ->.
  { induction k as [|s k IH]; [done|].
    change (all_distinct (JStr <$> s :: k)) with (negb (existsb (py_eq (JStr s)) (JStr <$> k)) && all_distinct (JStr <$> k)).
    rewrite IH.
    assert (existsb (py_eq (JStr s)) (JStr <$> k) = bool_decide (s ∈ k)) as ->.
    { clear. induction k as [|t k IH]; [done|].
      change (existsb (py_eq (JStr s)) (JStr <$> t :: k)) with (bool_decide (s = t) || existsb (py_eq (JStr s)) (JStr <$> k)).
      rewrite IH.
      destruct (decide (s = t)) as [->|Hne]; [rewrite (bool_decide_true (t = t)) by done; rewrite (bool_decide_true (t ∈ t :: k)) by left; done|].
      rewrite (bool_decide_false (s = t)) by done. cbn. apply bool_decide_ext. rewrite elem_of_cons. naive_solver. }
    repeat case_bool_decide; cbn; try done; exfalso;
      match goal with H : context [NoDup (_ :: _)] |- _ => rewrite NoDup_cons in H; naive_solver end. }
  cbn. case_bool_decide; cbn; split; done.
Qed.

Lemma identifier_of_Ok v s : identifier_of v = Ok s ↔ v = JStr s ∧ ident_ok s = true.
Proof.
  destruct v as [| | | |t| |]; cbn; try (split; [done|by intros [? _]]).
  unfold identifier. destruct (ident_ok t) eqn:E; cbn; split; try done.
  - intros [= <-]. done.
  - by intros [[= ->] _].
  - intros [[= ->] ?]. congruence.
Qed.

Lemma Requirement_init_Ok id st acc deps r :
  Requirement_init id st acc deps = Ok r ↔
  id = JStr (rq_id r) ∧ st = JStr (rq_statement r) ∧ acc = JStr <$> rq_acceptance r ∧
  deps = JStr <$> rq_depends_on r ∧ req_ok r.
Proof.
  unfold Requirement_init. split.
  - intros H. apply bind_Ok in H as (i & Hi & H). apply bind_Ok in H as (s & Hs & H). apply bind_Ok in H as (a & Ha & H).
    apply bind_Ok in H as ([] & Hd & H). apply bind_Ok in H as (ds & Hds & [= <-]). cbn.
    apply identifier_of_Ok in Hi as [-> Hi]. apply of_option_Ok in Hs, Ha. apply text_of_Some in Hs as [-> Hs].
    case_bool_decide as Hn; [done|]. apply mapM_text_of in Ha as [-> Ha]. apply mapM_ref_of in Hds as ->.
    apply distinct_refs_strs in Hd. split_and!; try done. constructor; cbn; try done. by intros ->.
  - intros (-> & -> & -> & -> & [Hi Hs Hn Ha Hd]). rewrite (proj2 (identifier_of_Ok _ _) (conj eq_refl Hi)). cbn -[text_of].
    rewrite (proj2 (text_of_Some _ _) (conj eq_refl Hs)). cbn -[text_of].
    rewrite bool_decide_false by (by intros ?%fmap_nil_inv).
    rewrite (proj2 (mapM_text_of _ _) (conj eq_refl Ha)). cbn. rewrite (proj2 (distinct_refs_strs _ _) Hd). cbn.
    rewrite (proj2 (mapM_ref_of _ _) eq_refl). cbn. by destruct r.
Qed.

Lemma FactoryTask_init_Ok id ds rs deps sw t :
  FactoryTask_init id ds rs deps sw = Ok t ↔
  id = JStr (ft_id t) ∧ ds = JStr (ft_description t) ∧ rs = JStr <$> ft_requirement_ids t ∧
  deps = JStr <$> ft_depends_on t ∧ sw = json_opt_str (ft_swarm t) ∧ ftask_ok t.
Proof.
  unfold FactoryTask_init. split.
  - intros H. apply bind_Ok in H as (i & Hi & H). apply bind_Ok in H as (s & Hs & H).
    case_bool_decide as Hn; [done|]. apply bind_Ok in H as (o & Ho & H).
    apply bind_Ok in H as ([] & Hr & H). apply bind_Ok in H as ([] & Hd & H).
    apply bind_Ok in H as (rs' & Hrs & H). apply bind_Ok in H as (ds' & Hds & [= <-]). cbn.
    apply identifier_of_Ok in Hi as [-> Hi]. apply of_option_Ok in Hs. apply text_of_Some in Hs as [-> Hs].
    apply mapM_ref_of in Hrs as ->. apply mapM_ref_of in Hds as ->. apply distinct_refs_strs in Hr, Hd.
    assert (sw = json_opt_str o ∧ (∀ s', o = Some s' → ident_ok s' = true)) as [-> Ho'].
    { destruct sw as [| | | |t| |]; cbn in Ho; try done; [by injection Ho as <-|].
      apply bind_Ok in Ho as (s' & Hs' & [= <-]). apply (identifier_of_Ok (JStr t)) in Hs' as [[= ->] Hs'].
      split; [done|]. by intros ? [= <-]. }
    split_and!; try done. constructor; cbn; try done. by intros ->.
  - intros (-> & -> & -> & -> & -> & [Hi Hs Hn Hr Hd Ho]). rewrite (proj2 (identifier_of_Ok _ _) (conj eq_refl Hi)). cbn -[text_of].
    rewrite (proj2 (text_of_Some _ _) (conj eq_refl Hs)). cbn -[text_of].
    rewrite bool_decide_false by (by intros ?%fmap_nil_inv).
    rewrite (proj2 (distinct_refs_strs _ _) Hr), (proj2 (distinct_refs_strs _ _) Hd).
    rewrite !(proj2 (mapM_ref_of _ _) eq_refl). destruct t as [? ? ? ? [s|]]; cbn -[identifier_of]; [|done].
    rewrite (proj2 (identifier_of_Ok (JStr s) s)) by (split; [done|by apply Ho]). done.
Qed.

Lemma not_subset_false (l : list pystr) (s : gset pystr) : not_subset l s = false ↔ (∀ x, x ∈ l → x ∈ s).
Proof.
  unfold not_subset, subset. rewrite negb_false_iff, bool_decide_eq_true. split.
  - intros H x Hx. apply H. by apply elem_of_list_to_set.
  - intros H x Hx. apply H. by apply elem_of_list_to_set in Hx.
Qed.

Lemma existsb_false {A} (f : A → bool) l : existsb f l = false ↔ (∀ x, x ∈ l → f x = false).
Proof.
  split.
  - intros H x Hx. apply not_true_iff_false. intros Hf. apply not_true_iff_false in H. apply H.
    apply existsb_exists. exists x. by rewrite <- list_elem_of_In.
  - intros H. apply not_true_iff_false. intros (x & Hx & Hf)%existsb_exists. apply list_elem_of_In in Hx.
    rewrite (H x Hx) in Hf. done.
Qed.

Lemma req_graph_keys rs : (req_graph rs).*1 = rq_id <$> rs.
Proof. unfold req_graph. by rewrite <- list_fmap_compose. Qed.
Lemma task_graph_keys ts : (task_graph ts).*1 = ft_id <$> ts.
Proof. unfold task_graph. by rewrite <- list_fmap_compose. Qed.

Lemma req_graph_dep rs n d : gdep (req_graph rs) n d ↔ ∃ r, r ∈ rs ∧ rq_id r = n ∧ d ∈ rq_depends_on r.
Proof.
  unfold gdep, req_graph. split.
  - intros (ds & H & Hd). apply list_elem_of_fmap in H as (r & [= -> ->] & Hr). eauto.
  - intros (r & Hr & <- & Hd). exists (rq_depends_on r). split; [|done]. apply list_elem_of_fmap. eauto.
Qed.
Lemma task_graph_dep ts n d : gdep (task_graph ts) n d ↔ ∃ t, t ∈ ts ∧ ft_id t = n ∧ d ∈ ft_depends_on t.
Proof.
  unfold gdep, task_graph. split.
  - intros (ds & H & Hd). apply list_elem_of_fmap in H as (r & [= -> ->] & Hr). eauto.
  - intros (r & Hr & <- & Hd). exists (ft_depends_on r). split; [|done]. apply list_elem_of_fmap. eauto.
Qed.

Lemma reqs_closed (rs : list Requirement) :
  existsb (λ r, not_subset (rq_depends_on r) (list_to_set (rq_id <$> rs))) rs = false ↔ g_closed (req_graph rs).
Proof.
  rewrite existsb_false. unfold g_closed. rewrite req_graph_keys. split.
  - intros H n d (r & Hr & <- & Hd)%req_graph_dep. specialize (H r Hr). rewrite not_subset_false in H.
    specialize (H d Hd). by apply elem_of_list_to_set in H.
  - intros H r Hr. apply not_subset_false. intros d Hd. apply elem_of_list_to_set.
    apply (H (rq_id r)). apply req_graph_dep. eauto.
Qed.

Lemma tasks_closed (rs : list pystr) (ts : list FactoryTask) :
  existsb (λ t, not_subset (ft_requirement_ids t) (list_to_set rs) || not_subset (ft_depends_on t) (list_to_set (ft_id <$> ts))) ts = false
  ↔ (∀ t r, t ∈ ts → r ∈ ft_requirement_ids t → r ∈ rs) ∧ g_closed (task_graph ts).
Proof.
  rewrite existsb_false. unfold g_closed. rewrite task_graph_keys. split.
  - intros H. split.
    + intros t r Ht Hr. specialize (H t Ht). apply orb_false_iff in H as [H _]. rewrite not_subset_false in H.
      specialize (H r Hr). by apply elem_of_list_to_set in H.
    + intros n d (t & Ht & <- & Hd)%task_graph_dep. specialize (H t Ht). apply orb_false_iff in H as [_ H].
      rewrite not_subset_false in H. specialize (H d Hd). by apply elem_of_list_to_set in H.
  - intros [Hb Hc] t Ht. apply orb_false_iff. split; apply not_subset_false; intros x Hx; apply elem_of_list_to_set.
    + by apply (Hb t).
    + apply (Hc (ft_id t)). apply task_graph_dep. eauto.
Qed.

Lemma ExecutionPlan_init_Ok intent rs ts sv p :
  Forall req_ok rs → Forall ftask_ok ts →
  (ExecutionPlan_init intent rs ts sv = Ok p ↔
   intent = JStr (ep_intent p) ∧ rs = ep_requirements p ∧ ts = ep_tasks p ∧ sv = ep_schema_version p ∧ plan_ok p).
Proof.
  intros Hrs Hts. unfold ExecutionPlan_init. cbv zeta. split.
  - intros H. apply bind_Ok in H as (i & Hi & H). apply of_option_Ok, text_of_Some in Hi as [-> Hi].
    destruct (bool_decide (rs = []) || _) eqn:E1; [done|]. apply orb_false_iff in E1 as [E1 E1'].
    apply bool_decide_eq_false in E1, E1'.
    destruct (negb _ || _) eqn:E2; [done|]. apply orb_false_iff in E2 as [E2 E2'].
    apply negb_false_iff, bool_decide_eq_true in E2, E2'.
    destruct (existsb _ rs) eqn:E3; [done|]. destruct (existsb _ ts) eqn:E4; [done|].
    apply reqs_closed in E3. apply tasks_closed in E4 as [E4 E5].
    apply bind_Ok in H as ([] & HR & H). apply bind_Ok in H as ([] & HT & [= <-]).
    destruct (assert_acyclic_spec (req_graph rs) "requirement") as [[_ HaR]|[HaR _]]; [by rewrite req_graph_keys|done| |congruence].
    destruct (assert_acyclic_spec (task_graph ts) "task") as [[_ HaT]|[HaT _]]; [by rewrite task_graph_keys|done| |congruence].
    cbn. by split_and!; try done; constructor.
  - intros (-> & -> & -> & -> & [Hi Hr Ht Hrid Htid _ _ Hrc Htc Hb Hra Hta]).
    rewrite (proj2 (text_of_Some _ _) (conj eq_refl Hi)). cbn -[text_of _assert_acyclic].
    rewrite !bool_decide_false, !bool_decide_true by done. cbn -[_assert_acyclic].
    rewrite (proj2 (reqs_closed _) Hrc), (proj2 (tasks_closed _ _)) by done.
    destruct (assert_acyclic_spec (req_graph (ep_requirements p)) "requirement") as [[-> _]|[_ HaR]];
      [by rewrite req_graph_keys|done| |done].
    destruct (assert_acyclic_spec (task_graph (ep_tasks p)) "task") as [[-> _]|[_ HaT]];
      [by rewrite task_graph_keys|done| |done].
    by destruct p.
Qed.

(** ** [str.strip] *)
Lemma lstrip_blank s : blank s = true ↔ lstrip s = [].
Proof.
  induction s as [|c s IH]; [done|]. cbn. destruct (is_space c); cbn; [apply IH|done].
Qed.

Lemma lstrip_head s : match lstrip s with c :: _ => is_space c = false | [] => True end.
Proof. induction s as [|c s IH]; cbn; [done|]. by destruct (is_space c) eqn:E. Qed.

Lemma lstrip_fix s : match s with c :: _ => is_space c = false | [] => True end → lstrip s = s.
Proof. destruct s as [|c s]; cbn; [done|]. by intros ->. Qed.

Lemma lstrip_snoc s c : is_space c = false → lstrip (s ++ [c]) = lstrip s ++ [c].
Proof. intros Hc. induction s as [|d s IH]; cbn; [by rewrite Hc|]. by destruct (is_space d). Qed.

(** The text after [lstrip] of the reverse ends, read forward, where the text
    did. *)
Lemma lstrip_reverse_head s c t : s = c :: t → is_space c = false → ∃ t', reverse (lstrip (reverse s)) = c :: t'.
Proof.
  intros -> Hc. rewrite reverse_cons, lstrip_snoc by done. rewrite reverse_app. cbn. eauto.
Qed.

Lemma strip_idemp s : strip (strip s) = strip s.
Proof.
  unfold strip. pose proof (lstrip_head s) as Hh. set (u := lstrip s) in *.
  assert (lstrip (reverse (lstrip (reverse u))) = reverse (lstrip (reverse u))) as ->.
  { apply lstrip_fix. destruct u as [|c t] eqn:E; [done|]. destruct (lstrip_reverse_head (c :: t) c t eq_refl Hh) as [t' ->]. done. }
  rewrite reverse_involutive. by rewrite (lstrip_fix (lstrip (reverse u))) by apply lstrip_head.
Qed.

Lemma blank_strip s : blank (strip s) = blank s.
Proof.
  destruct (blank s) eqn:E.
  - apply lstrip_blank in E. unfold strip. rewrite E. done.
  - apply not_true_iff_false in E. apply not_true_iff_false. intros H. apply E. apply lstrip_blank.
    unfold strip in H. pose proof (lstrip_head s) as Hh. destruct (lstrip s) as [|c t] eqn:El; [done|exfalso].
    destruct (lstrip_reverse_head (c :: t) c t eq_refl Hh) as [t' Ht']. rewrite Ht' in H. cbn in H. by rewrite Hh in H.
Qed.

(** ** Canonical plans *)
(** The plan a canonical payload describes: requirements and tasks in
    identifier order, the intent without surrounding blanks. *)
Definition canon_plan (p : ExecutionPlan) : ExecutionPlan :=
  mkPlan (strip (ep_intent p)) (sort_by req_leb (ep_requirements p)) (sort_by task_leb (ep_tasks p))
    (ep_schema_version p).

(** The same plan up to the order of requirements and tasks and blanks around
    the intent. *)
Definition plan_equiv (p q : ExecutionPlan) : Prop :=
  strip (ep_intent p) = strip (ep_intent q) ∧ ep_requirements p ≡ₚ ep_requirements q ∧
  ep_tasks p ≡ₚ ep_tasks q ∧ ep_schema_version p = ep_schema_version q.

#[export] Instance plan_equiv_equivalence : Equivalence plan_equiv.
Proof.
  unfold plan_equiv. split; [done| |].
  - intros p q (? & ? & ? & ?). by repeat split.
  - intros p q r (? & ? & ? & ?) (? & ? & ? & ?). repeat split; etrans; eauto.
Qed.

Lemma canon_plan_equiv p : plan_equiv (canon_plan p) p.
Proof. unfold plan_equiv, canon_plan. cbn [ep_intent ep_requirements ep_tasks ep_schema_version]. by rewrite strip_idemp, !sort_by_perm. Qed.

Lemma req_leb_total x y : req_leb x y = true ∨ req_leb y x = true.
Proof. apply str_leb_total. Qed.
Lemma req_leb_trans x y z : req_leb x y = true → req_leb y z = true → req_leb x z = true.
Proof. apply str_leb_trans. Qed.
Lemma task_leb_total x y : task_leb x y = true ∨ task_leb y x = true.
Proof. apply str_leb_total. Qed.
Lemma task_leb_trans x y z : task_leb x y = true → task_leb y z = true → task_leb x z = true.
Proof. apply str_leb_trans. Qed.

(** Sorting by an identifier that is unique gives one list for all orders. *)
Lemma sort_unique {A} (key : A → pystr) (leb : A → A → bool) l k :
  (∀ x y, leb x y = str_leb (key x) (key y)) → NoDup (key <$> l) → l ≡ₚ k → sort_by leb l = sort_by leb k.
Proof.
  intros Hk Hnd Hp. apply (sorted_by_unique leb).
  - intros x y Hx Hy Hxy Hyx. rewrite Hk in Hxy, Hyx. rewrite elem_of_sort_by in Hx, Hy.
    pose proof (str_leb_antisym _ _ Hxy Hyx) as E.
    apply list_elem_of_lookup in Hx as [i Hi], Hy as [j Hj].
    assert (i = j) as ->; [|congruence]. eapply NoDup_lookup; [exact Hnd| |]; rewrite list_lookup_fmap;
      [rewrite Hi|rewrite Hj]; cbn; by f_equal.
  - apply sort_by_is_sorted; intros; rewrite !Hk in *; [apply str_leb_total|by eapply str_leb_trans].
  - apply sort_by_is_sorted; intros; rewrite !Hk in *; [apply str_leb_total|by eapply str_leb_trans].
  - by rewrite !sort_by_perm.
Qed.

Lemma canonical_payload_equiv p q :
  plan_ok p → plan_equiv p q → canonical_payload p = canonical_payload q.
Proof.
  intros Hp (Hi & Hr & Ht & Hs). unfold canonical_payload. rewrite Hi, Hs.
  rewrite (sort_unique rq_id req_leb _ (ep_requirements q)) by (done || by apply Hp).
  by rewrite (sort_unique ft_id task_leb _ (ep_tasks q)) by (done || by apply Hp).
Qed.

Lemma plan_ok_equiv p q : plan_ok p → plan_equiv p q → plan_ok q.
Proof.
  intros [Hi Hr Ht Hrid Htid Hro Hto Hrc Htc Hb Hra Hta] (Ei & Er & Et & _).
  assert (req_graph (ep_requirements p) ≡ₚ req_graph (ep_requirements q)) as Gr by (unfold req_graph; by rewrite Er).
  assert (task_graph (ep_tasks p) ≡ₚ task_graph (ep_tasks q)) as Gt by (unfold task_graph; by rewrite Et).
  constructor.
  - by rewrite <- blank_strip, <- Ei, blank_strip.
  - intros E. rewrite E in Er. apply Hr. by apply Permutation_nil_r in Er.
  - intros E. rewrite E in Et. apply Ht. by apply Permutation_nil_r in Et.
  - by rewrite <- Er.
  - by rewrite <- Et.
  - by rewrite <- Er.
  - by rewrite <- Et.
  - intros n d Hd. rewrite <- Gr. eapply Hrc, gdep_perm; [symmetry; exact Gr|done].
  - intros n d Hd. rewrite <- Gt. eapply Htc, gdep_perm; [symmetry; exact Gt|done].
  - intros t r Hin. rewrite <- Er. apply Hb. by rewrite Et.
  - eapply acyclic_sub; [|exact Hra]. intros n d. apply gdep_perm. by symmetry.
  - eapply acyclic_sub; [|exact Hta]. intros n d. apply gdep_perm. by symmetry.
Qed.

Lemma plan_equiv_canon p : plan_equiv p (canon_plan p).
Proof. symmetry. apply canon_plan_equiv. Qed.

(** ** Reading back *)
Lemma requirement_item_dict r : req_ok r → requirement_item (sort_json (Requirement_dict r)) = Ok r.
Proof.
  intros Hr. assert (sort_json (Requirement_dict r) =
    jobj [("acceptance", json_strs (rq_acceptance r)); ("depends_on", json_strs (rq_depends_on r));
          ("id", JStr (rq_id r)); ("statement", JStr (rq_statement r))]) as ->.
  { transitivity (jobj [("acceptance", sort_json (json_strs (rq_acceptance r)));
                        ("depends_on", sort_json (json_strs (rq_depends_on r)));
                        ("id", JStr (rq_id r)); ("statement", JStr (rq_statement r))]); [reflexivity|].
    by rewrite !sort_json_strs. }
  change (Requirement_init (JStr (rq_id r)) (JStr (rq_statement r)) (JStr <$> rq_acceptance r) (JStr <$> rq_depends_on r) = Ok r).
  by apply Requirement_init_Ok.
Qed.

Lemma task_item_dict t : ftask_ok t → task_item (sort_json (FactoryTask_dict t)) = Ok t.
Proof.
  intros Ht. assert (sort_json (FactoryTask_dict t) =
    jobj [("depends_on", json_strs (ft_depends_on t)); ("description", JStr (ft_description t));
          ("id", JStr (ft_id t)); ("requirement_ids", json_strs (ft_requirement_ids t));
          ("swarm", json_opt_str (ft_swarm t))]) as ->.
  { transitivity (jobj [("depends_on", sort_json (json_strs (ft_depends_on t))); ("description", JStr (ft_description t));
                        ("id", JStr (ft_id t)); ("requirement_ids", sort_json (json_strs (ft_requirement_ids t)));
                        ("swarm", sort_json (json_opt_str (ft_swarm t)))]); [reflexivity|].
    by rewrite !sort_json_strs, sort_json_opt_str. }
  change (FactoryTask_init (JStr (ft_id t)) (JStr (ft_description t)) (JStr <$> ft_requirement_ids t)
            (JStr <$> ft_depends_on t) (json_opt_str (ft_swarm t)) = Ok t).
  by apply FactoryTask_init_Ok.
Qed.

Lemma mapM_items {A} (f : json → res A) (g : A → json) (P : A → Prop) l :
  (∀ x, P x → f (sort_json (g x)) = Ok x) → Forall P l → mapM f (sort_json <$> (g <$> l)) = Ok l.
Proof. intros H HP. apply mapM_res_Ok. induction HP; constructor; auto. Qed.

Lemma plan_from_dict_canon p h v :
  plan_ok p → ep_schema_version p = JStr v → graph_hash p = Ok h →
  plan_from_dict (sort_json (jobj (canonical_payload p ++ [("graph_hash", JStr h)]))) = Ok (canon_plan p).
Proof.
  intros Hp Hv Hh. pose proof (plan_ok_equiv p _ Hp (plan_equiv_canon p)) as Hc.
  set (rs := sort_json <$> (Requirement_dict <$> sort_by req_leb (ep_requirements p))).
  set (ts := sort_json <$> (FactoryTask_dict <$> sort_by task_leb (ep_tasks p))).
  assert (sort_json (jobj (canonical_payload p ++ [("graph_hash", JStr h)])) =
          jobj [("graph_hash", JStr h); ("intent", JStr (strip (ep_intent p))); ("requirements", JList rs);
                ("schema_version", JStr v); ("tasks", JList ts)]) as -> by (unfold canonical_payload; rewrite Hv; reflexivity).
  assert (mapM requirement_item rs = Ok (ep_requirements (canon_plan p))) as Hrs
    by (eapply mapM_items; [apply requirement_item_dict|apply Hc]).
  assert (mapM task_item ts = Ok (ep_tasks (canon_plan p))) as Hts
    by (eapply mapM_items; [apply task_item_dict|apply Hc]).
  transitivity (reqs ← mapM requirement_item rs; tasks ← mapM task_item ts;
    q ← ExecutionPlan_init (JStr (strip (ep_intent p))) reqs tasks (JStr v);
    h' ← graph_hash q; when negb (bool_decide (h = h')) raise ContractError "execution plan hash mismatch";; Ok q);
    [reflexivity|].
  rewrite Hrs, Hts. cbn -[ExecutionPlan_init graph_hash canon_plan].
  rewrite (proj2 (ExecutionPlan_init_Ok _ _ _ _ (canon_plan p) (pok_req_ok _ Hc) (pok_task_ok _ Hc))) by (cbn; rewrite Hv; done).
  cbn -[graph_hash canon_plan]. assert (graph_hash (canon_plan p) = Ok h) as ->.
  { unfold graph_hash. by rewrite <- (canonical_payload_equiv p _ Hp (plan_equiv_canon p)). }
  cbn -[canon_plan]. by rewrite bool_decide_true.
Qed.

Lemma plan_from_dict_payload p v :
  plan_ok p → ep_schema_version p = JStr v →
  plan_from_dict (sort_json (jobj (canonical_payload p))) = Ok (canon_plan p).
Proof.
  intros Hp Hv. pose proof (plan_ok_equiv p _ Hp (plan_equiv_canon p)) as Hc.
  set (rs := sort_json <$> (Requirement_dict <$> sort_by req_leb (ep_requirements p))).
  set (ts := sort_json <$> (FactoryTask_dict <$> sort_by task_leb (ep_tasks p))).
  assert (sort_json (jobj (canonical_payload p)) =
          jobj [("intent", JStr (strip (ep_intent p))); ("requirements", JList rs);
                ("schema_version", JStr v); ("tasks", JList ts)]) as -> by (unfold canonical_payload; rewrite Hv; reflexivity).
  transitivity (reqs ← mapM requirement_item rs; tasks ← mapM task_item ts;
    q ← ExecutionPlan_init (JStr (strip (ep_intent p))) reqs tasks (JStr v); Ok q); [reflexivity|].
  assert (mapM requirement_item rs = Ok (ep_requirements (canon_plan p))) as ->
    by (eapply mapM_items; [apply requirement_item_dict|apply Hc]).
  assert (mapM task_item ts = Ok (ep_tasks (canon_plan p))) as ->
    by (eapply mapM_items; [apply task_item_dict|apply Hc]).
  cbn -[ExecutionPlan_init canon_plan].
  by rewrite (proj2 (ExecutionPlan_init_Ok _ _ _ _ (canon_plan p) (pok_req_ok _ Hc) (pok_task_ok _ Hc))) by (cbn; rewrite Hv; done).
Qed.

(** ** The payload is plain JSON *)
Lemma plain_requirement r : plain (Requirement_dict r).
Proof. plain_obj. Qed.
Lemma plain_task t : plain (FactoryTask_dict t).
Proof. plain_obj. Qed.

Lemma plain_payload p v : ep_schema_version p = JStr v → plain (jobj (canonical_payload p)).
Proof.
  intros Hv. unfold canonical_payload. rewrite Hv. plain_obj; apply plain_map; [apply plain_requirement|apply plain_task].
Qed.

Lemma plain_plan_dict p v h :
  ep_schema_version p = JStr v → plain (jobj (canonical_payload p ++ [("graph_hash", JStr h)])).
Proof.
  intros Hv. unfold canonical_payload. rewrite Hv. cbn [app].
  plain_obj; apply plain_map; [apply plain_requirement|apply plain_task].
Qed.

Lemma graph_hash_equiv p q : plan_ok p → plan_equiv p q → graph_hash p = graph_hash q.
Proof. intros Hp He. unfold graph_hash. by rewrite (canonical_payload_equiv p q Hp He). Qed.

(** Plans with the same payload up to key order are the same plan. *)
Lemma payload_injective p q v w :
  plan_ok p → plan_ok q → ep_schema_version p = JStr v → ep_schema_version q = JStr w →
  sort_json (jobj (canonical_payload p)) = sort_json (jobj (canonical_payload q)) → plan_equiv p q.
Proof.
  intros Hp Hq Hv Hw E. pose proof (plan_from_dict_payload p v Hp Hv) as H. rewrite E in H.
  rewrite (plan_from_dict_payload q w Hq Hw) in H.
  assert (canon_plan q = canon_plan p) as H' by congruence.
  transitivity (canon_plan p); [apply plan_equiv_canon|]. rewrite <- H'. apply canon_plan_equiv.
Qed.

(** ** What the compiler builds *)
Lemma str_list_Some v l : str_list v = Some l ↔ v = JList (JStr <$> l).
Proof.
  destruct v as [| | | | |vs|]; cbn; try done. rewrite mapM_Some. split.
  - intros H. f_equal. induction H as [|x s vs l Hx _ IH]; [done|]. destruct x; try done. injection Hx as ->. cbn. by f_equal.
  - intros [= ->]. induction l; constructor; done.
Qed.

Lemma compile_item_Ok index item seen seen' out :
  compile_item index item seen = Ok (seen', out) →
  match out with
  | inl r => req_ok r ∧ (rq_id r ∉ seen) ∧ seen' = rq_id r :: seen
  | inr _ => ∀ x, x ∈ seen → x ∈ seen'
  end.
Proof.
  intros H. destruct item as [| | | | | |d]; cbn [compile_item] in H; try done.
  destruct (default JNull _) as [| | | |id| |]; try (by injection H as <- <-).
  apply bind_Ok in H as (? & _ & H). case_bool_decide as Hs; [done|].
  assert (∀ q, Ok (id :: seen, inr q) = Ok (seen', out) →
    match out with inl r => req_ok r ∧ (rq_id r ∉ seen) ∧ seen' = rq_id r :: seen | inr _ => ∀ x, x ∈ seen → x ∈ seen' end) as Hq.
  { intros q [= <- <-] y Hy. by right. }
  destruct (text_of _) as [st|]; [|by eapply Hq].
  destruct (default JNull _) as [| | | | |[|a l]|]; try (by eapply Hq).
  destruct (mapM text_of (a :: l)) as [acc|]; [|by eapply Hq].
  apply bind_Ok in H as (deps & _ & H). apply bind_Ok in H as (r & Hr & H). injection H as <- <-.
  apply Requirement_init_Ok in Hr as ([= ->] & _ & _ & _ & Hr). done.
Qed.

Lemma compile_items_Ok index items seen rs qs :
  compile_items index items seen = Ok (rs, qs) →
  Forall req_ok rs ∧ NoDup (rq_id <$> rs) ∧ (∀ r, r ∈ rs → rq_id r ∉ seen) ∧ length rs + length qs = length items.
Proof.
  revert index seen rs qs. induction items as [|item items IH]; intros index seen rs qs H; cbn [compile_items] in H.
  { injection H as <- <-. split_and!; [constructor..| |done]. intros r Hr. by apply not_elem_of_nil in Hr. }
  apply bind_Ok in H as ([seen' out] & Hi & H). apply bind_Ok in H as ([rs' qs'] & Hs & H).
  apply compile_item_Ok in Hi. apply IH in Hs as (Hok & Hnd & Hf & Hlen). destruct out as [r|q]; injection H as <- <-.
  - destruct Hi as (Hr & Hid & ->). split_and!.
    + by constructor.
    + cbn. constructor; [|done]. intros Hin. apply list_elem_of_fmap in Hin as (r' & E & Hr'). apply (Hf r' Hr'). rewrite <- E. left.
    + intros r' [->|Hr']%elem_of_cons; [done|]. intros Hs. apply (Hf r' Hr'). by right.
    + cbn. lia.
  - split_and!; [done..| |cbn; lia]. intros r Hr Hs. apply (Hf r Hr). by apply Hi.
Qed.

Lemma parse_tasks_ok raw req_ids ts : _parse_tasks raw req_ids = Ok ts → Forall ftask_ok ts.
Proof.
  unfold _parse_tasks. rewrite mapM_res_Ok. intros H. induction H as [|item t raw ts Ht _ IH]; [constructor|].
  constructor; [|done]. destruct item as [| | | | | |d]; cbn [parse_task] in Ht; try done.
  destruct (unknown_keys _ _); [done|]. destruct (str_list _) as [[|r l]|]; try done.
  destruct (not_subset _ _); [done|]. apply bind_Ok in Ht as (? & _ & Ht). apply bind_Ok in Ht as (? & _ & Ht).
  apply bind_Ok in Ht as (? & _ & Ht). by apply FactoryTask_init_Ok in Ht as (_ & _ & _ & _ & _ & Ht).
Qed.

(** *** Derived tasks *)
Definition derived_task (r : Requirement) : FactoryTask :=
  mkFactoryTask (str "task." ++ rq_id r) (rq_statement r) [rq_id r] ((λ d, str "task." ++ d) <$> rq_depends_on r) None.

Lemma ident_ok_task s : ident_ok s = true → ident_ok (str "task." ++ s) = (length s <=? 91)%nat.
Proof.
  intros H. assert (forallb ident_char s = true) as Hs.
  { destruct s as [|c s]; [done|]. cbn [ident_ok] in H. apply andb_true_iff in H as [H Hs].
    apply andb_true_iff in H as [Hc _]. cbn [forallb]. rewrite Hs. unfold ident_char. by rewrite Hc. }
  transitivity ((4 + length s <=? 95)%nat && forallb ident_char s); [reflexivity|]. rewrite Hs, andb_true_r.
  apply eq_bool_prop_intro. rewrite !Is_true_true, !Nat.leb_le. lia.
Qed.

Lemma derived_task_ok r : req_ok r → (ftask_ok (derived_task r) ↔ length (rq_id r) ≤ 91).
Proof.
  intros [Hi Hs _ _ Hd]. split.
  - intros [Ht _ _ _ _ _]. cbn [derived_task ft_id] in Ht. rewrite ident_ok_task in Ht by done. by apply Nat.leb_le.
  - intros Hl. constructor; cbn [derived_task ft_id ft_description ft_requirement_ids ft_depends_on ft_swarm]; try done.
    + rewrite ident_ok_task by done. by apply Nat.leb_le.
    + repeat constructor. apply not_elem_of_nil.
    + apply NoDup_fmap_2; [|done]. intros x y E. by apply app_inv_head in E.
Qed.

Section derive.
Context (rs : list Requirement) (Hok : Forall req_ok rs) (Hnd : NoDup (rq_id <$> rs)) (Hcl : g_closed (req_graph rs)).

Definition task_names : dict pystr := dict_of ((λ r, (rq_id r, str "task." ++ rq_id r)) <$> rs).

Lemma task_names_get n : n ∈ rq_id <$> rs → dgetitem n task_names = Ok (str "task." ++ n).
Proof using Hnd.
  intros Hn. unfold task_names. assert (((λ r, (rq_id r, str "task." ++ rq_id r)) <$> rs).*1 = rq_id <$> rs) as E
    by (by rewrite <- list_fmap_compose).
  rewrite dict_of_NoDup by (by rewrite E). apply dgetitem_Ok, dget_elem; [unfold wf_dict; by rewrite E|].
  apply list_elem_of_fmap in Hn as (r & -> & Hr). apply list_elem_of_fmap. by exists r.
Qed.

Lemma derive_one r :
  r ∈ rs →
  (id ← dgetitem (rq_id r) task_names;
   deps ← mapM (λ parent, dgetitem parent task_names) (rq_depends_on r);
   FactoryTask_init (JStr id) (JStr (rq_statement r)) [JStr (rq_id r)] (JStr <$> deps) JNull)
  = if (length (rq_id r) <=? 91)%nat then Ok (derived_task r) else Raise (ContractError "invalid identifier").
Proof using Hok Hnd Hcl.
  intros Hr. rewrite task_names_get by (by apply list_elem_of_fmap_2). cbn [mbind res_bind].
  assert (mapM (λ parent, dgetitem parent task_names) (rq_depends_on r) = Ok ((λ d, str "task." ++ d) <$> rq_depends_on r)) as ->.
  { apply mapM_res_Ok. apply Forall2_fmap_r, Forall_Forall2_diag, Forall_forall. intros d Hd. apply task_names_get.
    rewrite <- req_graph_keys. apply (Hcl (rq_id r)). apply req_graph_dep. eauto. }
  cbn [mbind res_bind]. rewrite Forall_forall in Hok. specialize (Hok r Hr). destruct (_ <=? _)%nat eqn:El.
  - apply Nat.leb_le in El. apply FactoryTask_init_Ok. cbn [derived_task ft_id ft_description ft_requirement_ids ft_depends_on ft_swarm].
    split_and!; try done. by apply derived_task_ok.
  - unfold FactoryTask_init, identifier_of, identifier. rewrite ident_ok_task, El by apply Hok. done.
Qed.

Lemma derive_tasks_ok :
  Forall (λ r, length (rq_id r) ≤ 91) rs → _derive_tasks rs = Ok (derived_task <$> sort_by req_leb rs).
Proof using Hok Hnd Hcl.
  intros Hl. unfold _derive_tasks. fold task_names. apply mapM_res_Ok.
  apply Forall2_fmap_r, Forall_Forall2_diag, Forall_forall. intros r Hr. rewrite elem_of_sort_by in Hr.
  rewrite Forall_forall in Hl. rewrite derive_one by done. by rewrite (proj2 (Nat.leb_le _ _) (Hl r Hr)).
Qed.

Lemma mapM_Raise {A B} (f : A → res B) l e :
  (∀ x, x ∈ l → is_ok (f x) = true ∨ f x = Raise e) → (∃ x, x ∈ l ∧ f x = Raise e) → mapM f l = Raise e.
Proof.
  intros Hall (x & Hx & He). induction l as [|y l IH]; [by apply not_elem_of_nil in Hx|]. cbn.
  destruct (Hall y) as [Hy|Hy]; [left| |by rewrite Hy]. destruct (f y) as [b|] eqn:Ey; [cbn|done].
  apply elem_of_cons in Hx as [->|Hx]; [congruence|]. rewrite IH; [done| |done]. intros z Hz. apply Hall. by right.
Qed.

Lemma derive_tasks_long r :
  r ∈ rs → 91 < length (rq_id r) → _derive_tasks rs = Raise (ContractError "invalid identifier").
Proof using Hok Hnd Hcl.
  intros Hr Hl. unfold _derive_tasks. fold task_names. apply mapM_Raise.
  - intros x Hx. rewrite elem_of_sort_by in Hx. rewrite derive_one by done. destruct (_ <=? _)%nat; [by left|by right].
  - exists r. rewrite elem_of_sort_by, derive_one by done. split; [done|]. by rewrite (proj2 (Nat.leb_gt _ _) Hl).
Qed.

Definition task_of (n : pystr) : pystr := str "task." ++ n.

Lemma derived_dep a b :
  gdep (task_graph (derived_task <$> sort_by req_leb rs)) a b ↔
  ∃ n d, a = task_of n ∧ b = task_of d ∧ gdep (req_graph rs) n d.
Proof.
  rewrite task_graph_dep. split.
  - intros (t & Ht & <- & Hd). apply list_elem_of_fmap in Ht as (r & -> & Hr). rewrite elem_of_sort_by in Hr.
    cbn [derived_task ft_id ft_depends_on] in *. apply list_elem_of_fmap in Hd as (d & -> & Hd).
    exists (rq_id r), d. split_and!; try done. apply req_graph_dep. eauto.
  - intros (n & d & -> & -> & (r & Hr & <- & Hd)%req_graph_dep). exists (derived_task r). split_and!.
    + apply list_elem_of_fmap_2. by rewrite elem_of_sort_by.
    + done.
    + cbn [derived_task ft_depends_on]. by apply (list_elem_of_fmap_2 task_of).
Qed.

Lemma task_of_inj n d : task_of n = task_of d → n = d.
Proof. apply app_inv_head. Qed.

Lemma derived_tc a b :
  tc (gdep (task_graph (derived_task <$> sort_by req_leb rs))) a b ↔
  ∃ n d, a = task_of n ∧ b = task_of d ∧ tc (gdep (req_graph rs)) n d.
Proof.
  split.
  - induction 1 as [a b (n & d & -> & -> & H)%derived_dep|a b c (n & d & -> & -> & H)%derived_dep _ (d' & e & E & -> & IH)].
    + exists n, d. split_and!; try done. by apply tc_once.
    + apply task_of_inj in E as <-. exists n, e. split_and!; try done. by eapply tc_l.
  - intros (n & d & -> & -> & H). induction H as [n d H|n m d H _ IH].
    + apply tc_once, derived_dep. eauto.
    + eapply tc_l; [|exact IH]. apply derived_dep. eauto.
Qed.

Lemma derived_acyclic : g_acyclic (task_graph (derived_task <$> sort_by req_leb rs)) ↔ g_acyclic (req_graph rs).
Proof.
  unfold g_acyclic. split.
  - intros H n Hn. apply (H (task_of n)). apply derived_tc. eauto.
  - intros H a Ha. apply derived_tc in Ha as (n & d & -> & E & Hn). apply task_of_inj in E as <-. by apply (H n).
Qed.
End derive.

(** ** Deciding well-formedness by running the constructors *)
Definition plan_checked (p : ExecutionPlan) : bool :=
  forallb (λ r, bool_decide (Requirement_init (JStr (rq_id r)) (JStr (rq_statement r)) (JStr <$> rq_acceptance r)
                               (JStr <$> rq_depends_on r) = Ok r)) (ep_requirements p) &&
  forallb (λ t, bool_decide (FactoryTask_init (JStr (ft_id t)) (JStr (ft_description t)) (JStr <$> ft_requirement_ids t)
                               (JStr <$> ft_depends_on t) (json_opt_str (ft_swarm t)) = Ok t)) (ep_tasks p) &&
  bool_decide (ExecutionPlan_init (JStr (ep_intent p)) (ep_requirements p) (ep_tasks p) (ep_schema_version p) = Ok p).

Lemma plan_checked_ok p : plan_checked p = true ↔ plan_ok p.
Proof.
  unfold plan_checked. rewrite !andb_true_iff, !forallb_true. split.
  - intros [[Hr Ht] Hp]. apply bool_decide_eq_true, ExecutionPlan_init_Ok in Hp as (_ & _ & _ & _ & Hp); [done|..];
      apply Forall_forall; intros x Hx; [apply Hr, bool_decide_eq_true, Requirement_init_Ok in Hx
                                        |apply Ht, bool_decide_eq_true, FactoryTask_init_Ok in Hx]; tauto.
  - intros Hp. destruct (Hp) as [_ _ _ _ _ Hr Ht _ _ _ _ _]. rewrite Forall_forall in Hr. rewrite Forall_forall in Ht.
    split_and!; [intros x Hx..|]; apply bool_decide_eq_true;
      [apply Requirement_init_Ok; split_and!; auto|apply FactoryTask_init_Ok; split_and!; auto|].
    apply ExecutionPlan_init_Ok; [apply Hp..|done].
Qed.
