(* ===== verification/PlanTheorems.v ===== *)
(** * What plans and their compiler guarantee

    The properties of residual/factory/models.py and compiler.py: the compiler
    returns a well-formed plan or questions, tasks derived from requirements
    mirror them, plans survive storage, and an approval binds one plan. *)

From Stdlib Require Import ZArith NArith Lia.
From stdpp Require Import relations.
From S2P Require Import Prelude PyData Sha256 PyFloat Json JsonFacts Core CoreFacts Storage Builtins Graph JsonPlain Plan PlanFacts.

(** C34: The compiler's result is well typed.  For every document, [compile]
    raises, or returns questions and no plan, or returns no questions and a
    plan that is well formed: distinct valid identifiers, nonblank texts, every
    dependency and binding known, and no dependency chain of requirements or of
    tasks that returns to its start. *)
Theorem compile_well_formed doc cr :
  compile doc = Ok cr →
  match cr_plan cr with
  | Some p => cr_questions cr = [] ∧ plan_ok p ∧ ep_intent p = strip (ep_intent p) ∧ cr_ready cr = true
  | None => cr_questions cr ≠ [] ∧ cr_ready cr = false
  end.
Proof.
  intros H. destruct doc as [| | | | | |d]; cbn [compile] in H; try done.
  destruct (unknown_keys _ _); [done|]. cbv zeta in H.
  set (iv := text_of _) in H. set (asked := match iv with Some _ => [] | None => _ end) in H.
  destruct (default JNull (dget (str "requirements") d)) as [| | | | |[|raw raws]|];
    try (injection H as <-; cbn; split; [by destruct asked|done]).
  apply bind_Ok in H as ([rs qs] & Hrs & H). apply compile_items_Ok in Hrs as (Hok & Hnd & _ & _).
  destruct iv as [intent|] eqn:Ei; [|injection H as <-; done].
  apply text_of_Some in Ei as [_ Ei].
  destruct (asked ++ qs) as [|q qs'] eqn:Eq; [|injection H as <-; done].
  destruct (existsb _ rs) eqn:Ed; [done|]. apply reqs_closed in Ed.
  apply bind_Ok in H as (ts & Hts & H). apply bind_Ok in H as (p & Hp & [= <-]).
  assert (Forall ftask_ok ts) as Htok.
  { destruct (default JNull (dget (str "tasks") d)) as [| | | | |[|t tl]|]; try done; [|by eapply parse_tasks_ok].
    destruct (decide (Forall (λ r, length (rq_id r) ≤ 91) rs)) as [Hl|Hl].
    - rewrite derive_tasks_ok in Hts by done. injection Hts as <-. apply Forall_fmap.
      rewrite sort_by_perm. rewrite Forall_forall in Hok, Hl |- *. intros r Hr. apply derived_task_ok; auto.
    - apply not_Forall_Exists in Hl; [|apply _]. apply Exists_exists in Hl as (r & Hr & Hlen%Nat.nle_gt).
      rewrite (derive_tasks_long rs Hok Hnd Ed r Hr) in Hts by done. done. }
  apply ExecutionPlan_init_Ok in Hp as ([= Hi] & _ & _ & _ & Hp); [|done|done].
  cbn [cr_plan cr_questions]. split_and!; [done|done| |done]. rewrite <- Hi. symmetry. apply strip_idemp.
Qed.

(** Derived tasks mirror the requirements.  For distinct well-formed
    requirements whose dependencies are known, deriving tasks gives one task per
    requirement in identifier order, bound to it, and depending on exactly the
    tasks of the requirement's dependencies (directly and through chains, so it
    has a cycle only where the requirements have one); the derivation raises
    exactly when the prefix makes some identifier longer than 96 characters. *)
Theorem derived_tasks_mirror rs :
  Forall req_ok rs → NoDup (rq_id <$> rs) → g_closed (req_graph rs) →
  (∃ ts, _derive_tasks rs = Ok ts ∧ Forall (λ r, length (rq_id r) ≤ 91) rs ∧
    ts = derived_task <$> sort_by req_leb rs ∧ Forall ftask_ok ts ∧
    (∀ a b, tc (gdep (task_graph ts)) a b ↔
            ∃ n d, a = str "task." ++ n ∧ b = str "task." ++ d ∧ tc (gdep (req_graph rs)) n d) ∧
    (g_acyclic (task_graph ts) ↔ g_acyclic (req_graph rs))) ∨
  (_derive_tasks rs = Raise (ContractError "invalid identifier") ∧ ∃ r, r ∈ rs ∧ 91 < length (rq_id r)).
Proof.
  intros Hok Hnd Hcl. destruct (decide (Forall (λ r, length (rq_id r) ≤ 91) rs)) as [Hl|Hl].
  - left. exists (derived_task <$> sort_by req_leb rs). split_and!; try done.
    + by apply derive_tasks_ok.
    + apply Forall_fmap. rewrite sort_by_perm. rewrite Forall_forall in Hok, Hl |- *. intros r Hr. apply derived_task_ok; auto.
    + apply derived_tc.
    + apply derived_acyclic.
  - right. apply not_Forall_Exists in Hl; [|apply _]. apply Exists_exists in Hl as (r & Hr & Hlen%Nat.nle_gt).
    split; [apply (derive_tasks_long rs Hok Hnd Hcl r Hr); lia|]. exists r. split; [done|lia].
Qed.

(** A plan survives storage.  Dumping a well-formed plan and loading the
    text gives the plan with its requirements and tasks in identifier order and
    the blanks around its intent removed, and this plan has the same hash. *)
Theorem plan_round_trip p v t :
  plan_ok p → ep_schema_version p = JStr v → dump_plan p = Ok t →
  load_plan_text t = Ok (canon_plan p) ∧ plan_equiv (canon_plan p) p ∧
  plan_ok (canon_plan p) ∧ graph_hash (canon_plan p) = graph_hash p.
Proof.
  intros Hp Hv H. unfold dump_plan, plan_dict in H.
  apply bind_Ok in H as (w & Hw & H). apply bind_Ok in Hw as (h & Hh & [= <-]).
  unfold load_plan_text. rewrite (plain_read _ _ (plain_plan_dict p v h Hv) H).
  change (plan_from_dict (sort_json (jobj (canonical_payload p ++ [("graph_hash", JStr h)]))) = Ok (canon_plan p) ∧
    plan_equiv (canon_plan p) p ∧ plan_ok (canon_plan p) ∧ graph_hash (canon_plan p) = graph_hash p).
  split_and!.
  - by eapply plan_from_dict_canon.
  - apply canon_plan_equiv.
  - eapply plan_ok_equiv; [done|apply plan_equiv_canon].
  - symmetry. by apply graph_hash_equiv, plan_equiv_canon.
Qed.

(** An approval binds one plan.  The approval of a well-formed plan, also
    after it was written to JSON and read back, accepts every plan that differs
    only in the order of requirements and tasks and in blanks around the
    intent; a plan it accepts is such a plan, or the two payloads are a SHA-256
    collision. *)
Theorem approval_binds_plan p q v w who now f :
  plan_ok p → plan_ok q → ep_schema_version p = JStr v → ep_schema_version q = JStr w →
  approve p who now = Ok f →
  frozen_from_dict (sort_json (frozen_dict f)) = Ok f ∧
  (plan_equiv p q → assert_matches f q = Ok tt) ∧
  (assert_matches f q = Ok tt →
   plan_equiv p q ∨ json_collide (jobj (canonical_payload p)) (jobj (canonical_payload q))).
Proof.
  intros Hp Hq Hv Hw H. unfold approve in H. apply bind_Ok in H as (b & _ & H). apply bind_Ok in H as (h & Hh & [= <-]).
  split_and!; [reflexivity| |].
  - intros He. unfold assert_matches. rewrite <- (graph_hash_equiv p q Hp He), Hh. cbn. by rewrite bool_decide_true.
  - intros H. unfold assert_matches in H. apply bind_Ok in H as (h' & Hh' & H). cbn in H.
    case_bool_decide as E; [|done]. subst h'.
    destruct (plain_digest _ _ h (plain_payload p v Hv) (plain_payload q w Hw) Hh Hh') as [E|E]; [left|by right].
    by eapply payload_injective.
Qed.

(** ** Witnesses *)
Definition demo_doc : json :=
  jobj [("intent", JStr (str " ship it "));
        ("requirements", JList
          [jobj [("id", JStr (str "b")); ("statement", JStr (str "second ")); ("acceptance", json_strs [str "ok"]);
                 ("depends_on", json_strs [str "a"])];
           jobj [("id", JStr (str "a")); ("statement", JStr (str "first")); ("acceptance", json_strs [str "ok"])]])].

Definition demo_plan : ExecutionPlan :=
  let rs := [mkRequirement (str "b") (str "second") [str "ok"] [str "a"]; mkRequirement (str "a") (str "first") [str "ok"] []] in
  mkPlan (str "ship it") rs (derived_task <$> sort_by req_leb rs) (JStr (str "factory-plan-v1")).

Lemma compile_demo : compile demo_doc = Ok (mkCompileResult (Some demo_plan) []).
Proof. vm_compute. reflexivity. Qed.

Lemma compile_well_formed_witness : plan_ok demo_plan.
Proof. exact (proj1 (proj2 (compile_well_formed demo_doc _ compile_demo))). Defined.

Lemma demo_plan_ok : plan_ok demo_plan.
Proof. apply plan_checked_ok. vm_compute. reflexivity. Qed.

Lemma derived_tasks_mirror_witness :
  _derive_tasks (ep_requirements demo_plan) = Ok (ep_tasks demo_plan) ∧ g_acyclic (task_graph (ep_tasks demo_plan)).
Proof.
  destruct (derived_tasks_mirror (ep_requirements demo_plan)) as [(ts & H & _ & E & _ & _ & Ha)|[H _]].
  - apply demo_plan_ok.
  - apply demo_plan_ok.
  - apply demo_plan_ok.
  - split; [rewrite H, E; reflexivity|]. rewrite E in Ha. apply Ha, demo_plan_ok.
  - vm_compute in H. discriminate H.
Defined.

Lemma plan_round_trip_witness : ∃ t, dump_plan demo_plan = Ok t ∧ load_plan_text t = Ok (canon_plan demo_plan).
Proof.
  destruct (dump_plan demo_plan) as [t|e] eqn:E.
  - exists t. split; [reflexivity|]. exact (proj1 (plan_round_trip demo_plan (str "factory-plan-v1") t demo_plan_ok eq_refl E)).
  - apply (f_equal is_ok) in E. vm_compute in E. discriminate E.
Defined.

Lemma approval_binds_plan_witness :
  ∃ f, approve demo_plan (JStr (str "lead")) (str "2026-01-01T00:00:00+00:00") = Ok f ∧ assert_matches f (canon_plan demo_plan) = Ok tt.
Proof.
  destruct (approve demo_plan (JStr (str "lead")) (str "2026-01-01T00:00:00+00:00")) as [f|e] eqn:E.
  - exists f. split; [reflexivity|].
    refine (proj1 (proj2 (approval_binds_plan demo_plan (canon_plan demo_plan) (str "factory-plan-v1") (str "factory-plan-v1")
      _ _ f demo_plan_ok _ eq_refl eq_refl E)) (plan_equiv_canon demo_plan)).
    exact (plan_ok_equiv _ _ demo_plan_ok (plan_equiv_canon demo_plan)).
  - apply (f_equal is_ok) in E. vm_compute in E. discriminate E.
Defined.
