(* ===== verification/WorkerContract.v ===== *)
(** * Worker contracts (residual/factory/worker_contract.py)

    The contract a factory worker runs under: identities, the workspace paths
    and tools it may use, its budgets, and the plan it is bound to.  Every field
    is validated, so a contract read from JSON is exactly a record of typed
    fields.  [WorkerContractError] is a [ValueError]; the receipts' error class
    extends it. *)

From Stdlib Require Import ZArith NArith Lia SpecFloat.
From S2P Require Import Prelude PyData Sha256 PyFloat Json JsonFacts Core CoreFacts Builtins Graph JsonPlain Plan.

Definition WorkerContractError (msg : string) : exn := ValueError ("WorkerContractError: " +:+ msg).

Definition _identifier (value : json) (name : string) : res pystr :=
  match value with
  | JStr s => when negb (ident_ok s) raise WorkerContractError name;; Ok s
  | _ => Raise (WorkerContractError name)
  end.

Definition _integer (value : json) (name : string) (minimum : Z) : res Z :=
  match value with
  | JInt z => when (z <? minimum)%Z raise WorkerContractError name;; Ok z
  | _ => Raise (WorkerContractError name)
  end.

(** A number that converts to a finite nonnegative float. *)
Definition _number (value : json) (name : string) : res float :=
  match value with
  | JInt z => when negb (is_finite (float_of_Z z)) || (z <? 0)%Z raise WorkerContractError name;; Ok (float_of_Z z)
  | JFloat f => when negb (is_finite f) || num_ltb (NFloat f) (NInt 0) raise WorkerContractError name;; Ok f
  | _ => Raise (WorkerContractError name)
  end.

Definition _strings (value : json) (name : string) (required : bool) : res (list pystr) :=
  match value with
  | JList l =>
      ss ← of_option (WorkerContractError name) (mapM text_of l);
      when negb (bool_decide (NoDup ss)) || (required && bool_decide (ss = [])) raise WorkerContractError name;;
      Ok ss
  | _ => Raise (WorkerContractError name)
  end.

Definition ends_slash (s : pystr) : bool := match last s with Some c => (c =? 47)%N | None => false end.
Definition is_control (c : N) : bool := (c <? 32)%N || (c =? 127)%N.

Definition _path (value : pystr) (selector : bool) : res pystr :=
  when bool_decide (value = []) || existsb (λ c, bool_decide (c ∈ str "\:*?[]")) value || existsb is_control value
  raise WorkerContractError "invalid workspace path";;
  let body := if selector && ends_slash value then take (length value - 1) value else value in
  when existsb (λ part, bool_decide (part ∈ [[]; str "."; str ".."])) (split_on 47 body)
  raise WorkerContractError "workspace path must be relative and normalized";;
  Ok value.

Definition starts_with (p s : pystr) : bool := match strip_prefix p s with Some _ => true | None => false end.

Definition _matches (path selector : pystr) : bool :=
  if ends_slash selector then starts_with selector path else bool_decide (path = selector).

Record WorkerContract : Type := mkContract {
  wc_task_id : pystr;
  wc_worker_id : pystr;
  wc_swarm_id : pystr;
  wc_execution_plan_hash : pystr;
  wc_attempt_id : pystr;
  wc_lease_id : pystr;
  wc_lease_generation : Z;
  wc_input_commit : pystr;
  wc_workspace_root : pystr;
  wc_inputs : list pystr;
  wc_allowed_outputs : list pystr;
  wc_forbidden : list pystr;
  wc_requirements : list pystr;
  wc_acceptance : list pystr;
  wc_dependencies : list pystr;
  wc_allowed_tools : list pystr;
  wc_forbidden_tools : list pystr;
  wc_token_budget : Z;
  wc_wall_clock_budget_s : float;
  wc_max_tool_calls : Z;
  wc_max_file_writes : Z;
  wc_memory_limit_mb : Z;
  wc_engine_hint : option pystr;
  wc_engine_class : pystr
}.

Definition contract_schema : string := "factory-worker-contract-v1".

Definition lower_hex (n : nat) (s : pystr) : bool :=
  (length s =? n)%nat && forallb (λ c, is_digit c || in_range 97 102 c) s.

Definition hex_field (value : json) (sizes : list nat) (msg : string) : res pystr :=
  match value with
  | JStr s => when negb (existsb (λ n, lower_hex n s) sizes) raise WorkerContractError msg;; Ok s
  | _ => Raise (WorkerContractError msg)
  end.

(** Absolute, not the root itself, and equal to its normal form as a POSIX path. *)
Definition workspace_root_ok (value : json) : res pystr :=
  match value with
  | JStr ((47%N :: (_ :: _) as rest) as root) =>
      when existsb is_control root || bool_decide (92%N ∈ root)
      raise WorkerContractError "workspace_root must be an absolute POSIX path";;
      when existsb (λ part, bool_decide (part ∈ [[]; str "."; str ".."])) (split_on 47 rest)
      raise WorkerContractError "workspace_root must be normalized";;
      Ok root
  | _ => Raise (WorkerContractError "workspace_root must be an absolute POSIX path")
  end.

(** One round of the loop over the tuple fields, with the check of each kind. *)
Definition path_field (self : string → json) (name : string) : res (list pystr) :=
  values ← _strings (self name) name false;
  _ ← for_all values (λ v, _ ← _path v true; Ok tt);
  Ok (sort_str values).
Definition id_field (self : string → json) (name : string) (required : bool) : res (list pystr) :=
  values ← _strings (self name) name required;
  _ ← for_all values (λ v, _ ← _identifier (JStr v) name; Ok tt);
  Ok (sort_str values).

(** [__post_init__]; [self] gives the attributes as they were passed. *)
Definition WorkerContract_init (self : string → json) : res WorkerContract :=
  task_id ← _identifier (self "task_id") "task_id";
  worker_id ← _identifier (self "worker_id") "worker_id";
  swarm_id ← _identifier (self "swarm_id") "swarm_id";
  attempt_id ← _identifier (self "attempt_id") "attempt_id";
  lease_id ← _identifier (self "lease_id") "lease_id";
  when negb (py_eq (self "schema_version") (JStr (str contract_schema)))
  raise WorkerContractError "unsupported worker contract schema";;
  plan_hash ← hex_field (self "execution_plan_hash") [64] "invalid execution_plan_hash";
  commit ← hex_field (self "input_commit") [40; 64] "input_commit must be a full Git object ID";
  generation ← _integer (self "lease_generation") "lease_generation" 1;
  root ← workspace_root_ok (self "workspace_root");
  inputs ← path_field self "inputs";
  allowed_outputs ← path_field self "allowed_outputs";
  forbidden ← path_field self "forbidden";
  requirements ← id_field self "requirements" true;
  acceptance ← (sort_by str_leb <$> _strings (self "acceptance") "acceptance" true);
  dependencies ← id_field self "dependencies" false;
  allowed_tools ← id_field self "allowed_tools" false;
  forbidden_tools ← id_field self "forbidden_tools" false;
  when bool_decide (task_id ∈ dependencies) raise WorkerContractError "self dependency";;
  when existsb (λ t, bool_decide (t ∈ forbidden_tools)) allowed_tools
  raise WorkerContractError "contradictory tool permissions";;
  token_budget ← _integer (self "token_budget") "token_budget" 0;
  max_tool_calls ← _integer (self "max_tool_calls") "max_tool_calls" 0;
  max_file_writes ← _integer (self "max_file_writes") "max_file_writes" 0;
  memory ← _integer (self "memory_limit_mb") "memory_limit_mb" 1;
  wall ← _number (self "wall_clock_budget_s") "wall_clock_budget_s";
  when num_leb (NFloat wall) (NInt 0) raise WorkerContractError "wall_clock_budget_s must be positive";;
  engine_class ← match self "engine_class" with
                 | JStr s => when negb (bool_decide (s ∈ str <$> ["local"; "cloud"; "any"]))
                             raise WorkerContractError "invalid engine_class";; Ok s
                 | _ => Raise (WorkerContractError "invalid engine_class")
                 end;
  engine_hint ← match self "engine_hint" with
                | JNull => Ok None
                | v => of_option (WorkerContractError "invalid engine_hint") (Some <$> text_of v)
                end;
  Ok (mkContract task_id worker_id swarm_id plan_hash attempt_id lease_id generation commit root inputs
        allowed_outputs forbidden requirements acceptance dependencies allowed_tools forbidden_tools
        token_budget wall max_tool_calls max_file_writes memory engine_hint engine_class).

Definition contract_dict (c : WorkerContract) : list (string * json) :=
  [("task_id", JStr (wc_task_id c)); ("worker_id", JStr (wc_worker_id c)); ("swarm_id", JStr (wc_swarm_id c));
   ("execution_plan_hash", JStr (wc_execution_plan_hash c)); ("attempt_id", JStr (wc_attempt_id c));
   ("lease_id", JStr (wc_lease_id c)); ("lease_generation", JInt (wc_lease_generation c));
   ("input_commit", JStr (wc_input_commit c)); ("workspace_root", JStr (wc_workspace_root c));
   ("inputs", json_strs (wc_inputs c)); ("allowed_outputs", json_strs (wc_allowed_outputs c));
   ("forbidden", json_strs (wc_forbidden c)); ("requirements", json_strs (wc_requirements c));
   ("acceptance", json_strs (wc_acceptance c)); ("dependencies", json_strs (wc_dependencies c));
   ("allowed_tools", json_strs (wc_allowed_tools c)); ("forbidden_tools", json_strs (wc_forbidden_tools c));
   ("token_budget", JInt (wc_token_budget c)); ("wall_clock_budget_s", JFloat (wc_wall_clock_budget_s c));
   ("max_tool_calls", JInt (wc_max_tool_calls c)); ("max_file_writes", JInt (wc_max_file_writes c));
   ("memory_limit_mb", JInt (wc_memory_limit_mb c)); ("engine_hint", json_opt_str (wc_engine_hint c));
   ("engine_class", JStr (wc_engine_class c)); ("schema_version", JStr (str contract_schema))].

Definition contract_hash (c : WorkerContract) : res pystr := digest (jobj (contract_dict c)).

Definition contract_fields : list string :=
  ["task_id"; "worker_id"; "swarm_id"; "execution_plan_hash"; "attempt_id"; "lease_id"; "lease_generation";
   "input_commit"; "workspace_root"; "inputs"; "allowed_outputs"; "forbidden"; "requirements"; "acceptance";
   "dependencies"; "allowed_tools"; "forbidden_tools"; "token_budget"; "wall_clock_budget_s"; "max_tool_calls";
   "max_file_writes"; "memory_limit_mb"].
Definition contract_defaults : list (string * json) :=
  [("engine_hint", JNull); ("engine_class", JStr (str "local")); ("schema_version", JStr (str contract_schema))].

(** The keyword arguments of the constructor call over the field defaults. *)
Definition contract_attr (d : dict json) (name : string) : json :=
  default (default JNull (dget (str name) ((λ kv, (str kv.1, kv.2)) <$> contract_defaults))) (dget (str name) d).

Definition contract_from_dict (data : json) : res WorkerContract :=
  match data with
  | JDict d =>
      when unknown_keys d (contract_fields ++ contract_defaults.*1) raise WorkerContractError "unknown worker contract fields";;
      when negb (forallb (λ k, dmem (str k) d) contract_fields)
      raise WorkerContractError "missing or invalid worker contract fields";;
      WorkerContract_init (contract_attr d)
  | _ => Raise (WorkerContractError "unknown worker contract fields")
  end.

Definition same_set (l k : list pystr) : bool := bool_decide (list_to_set (C := gset pystr) l = list_to_set k).

(** The payload of a plan is read back with its objects' keys in order, so its
    tasks and requirements are the plan's in identifier order. *)
Definition assert_matches_plan (c : WorkerContract) (plan : ExecutionPlan) : res unit :=
  _ ← canonical (jobj (canonical_payload plan));
  d ← digest (sort_json (jobj (canonical_payload plan)));
  h ← graph_hash plan;
  when negb (bool_decide (d = wc_execution_plan_hash c)) || negb (bool_decide (h = wc_execution_plan_hash c))
  raise WorkerContractError "worker contract does not match ExecutionPlan.graph_hash";;
  match filter (λ t, ft_id t = wc_task_id c) (sort_by task_leb (ep_tasks plan)) with
  | [task] =>
      when negb (same_set (ft_requirement_ids task) (wc_requirements c)) || negb (same_set (ft_depends_on task) (wc_dependencies c))
      raise WorkerContractError "worker task bindings differ from approved plan";;
      when match ft_swarm task with Some s => negb (bool_decide (s = wc_swarm_id c)) | None => false end
      raise WorkerContractError "worker swarm differs from approved plan";;
      let needed := mjoin (rq_acceptance <$> filter (λ r, rq_id r ∈ wc_requirements c) (sort_by req_leb (ep_requirements plan))) in
      when not_subset needed (list_to_set (wc_acceptance c))
      raise WorkerContractError "worker contract drops required acceptance criteria";;
      Ok tt
  | _ => Raise (WorkerContractError "unknown or duplicate plan task")
  end.

(** [part.lower() == ".git"]: only ASCII letters have those lower-case letters. *)
Definition ascii_lower (c : N) : N := if in_range 65 90 c then (c + 32)%N else c.
Definition git_part (part : pystr) : bool := bool_decide (ascii_lower <$> part = str ".git").

Definition permits_path (c : WorkerContract) (path : pystr) (write : bool) : res bool :=
  _ ← _path path false;
  if existsb git_part (split_on 47 path) then Ok false
  else if existsb (_matches path) (wc_forbidden c) then Ok false
  else Ok (existsb (_matches path) (if write then wc_allowed_outputs c else wc_inputs c)).
