(* ===== verification/AttemptGuard.v ===== *)
(** * The attempt guard (residual/factory/worker_contract.py, AttemptGuard)

    Accounting of one worker attempt under its contract.  The audit sink, the
    stop hook and the clock are host callbacks: oracles of the call number that
    may raise.  [gd_log] holds the events the sink acknowledged.  Every public
    operation runs under one lock, so a history of the guard is a sequence of
    operations. *)

From Stdlib Require Import ZArith NArith Lia SpecFloat.
From S2P Require Import Prelude PyData Sha256 PyFloat Json JsonFacts Core CoreFacts Builtins Graph JsonPlain Plan WorkerContract.

Inductive AttemptState : Type := CREATED | RUNNING | VIOLATED | AUDIT_FAILED | CANDIDATE | CANCELLED.
#[export] Instance AttemptState_eq_dec : EqDecision AttemptState.
Proof. solve_decision. Defined.

Record Guard : Type := mkGuard {
  gd_state : AttemptState;
  gd_started : option float;
  gd_tokens : Z;
  gd_tool_calls : Z;
  gd_file_writes : Z;
  gd_reservations : dict Z;
  gd_ticket : Z;
  gd_calls : nat;
  gd_log : list json
}.

Definition Guard_new : Guard := mkGuard CREATED None 0 0 0 [] 0 0 [].

Definition set_state (st : AttemptState) (g : Guard) : Guard :=
  mkGuard st (gd_started g) (gd_tokens g) (gd_tool_calls g) (gd_file_writes g) (gd_reservations g) (gd_ticket g)
    (gd_calls g) (gd_log g).
Definition set_started (f : float) (g : Guard) : Guard :=
  mkGuard (gd_state g) (Some f) (gd_tokens g) (gd_tool_calls g) (gd_file_writes g) (gd_reservations g) (gd_ticket g)
    (gd_calls g) (gd_log g).
Definition add_tool_call (g : Guard) : Guard :=
  mkGuard (gd_state g) (gd_started g) (gd_tokens g) (gd_tool_calls g + 1) (gd_file_writes g) (gd_reservations g)
    (gd_ticket g) (gd_calls g) (gd_log g).
Definition add_file_write (g : Guard) : Guard :=
  mkGuard (gd_state g) (gd_started g) (gd_tokens g) (gd_tool_calls g) (gd_file_writes g + 1) (gd_reservations g)
    (gd_ticket g) (gd_calls g) (gd_log g).
Definition set_tokens (tokens : Z) (rs : dict Z) (ticket : Z) (g : Guard) : Guard :=
  mkGuard (gd_state g) (gd_started g) tokens (gd_tool_calls g) (gd_file_writes g) rs ticket (gd_calls g) (gd_log g).
Definition called (ev : list json) (g : Guard) : Guard :=
  mkGuard (gd_state g) (gd_started g) (gd_tokens g) (gd_tool_calls g) (gd_file_writes g) (gd_reservations g)
    (gd_ticket g) (S (gd_calls g)) (gd_log g ++ ev).

Definition reserved (g : Guard) : Z := foldr Z.add 0%Z (gd_reservations g).*2.

Section guard.
Context (c : WorkerContract).
Context (observe : nat → json → res unit) (terminate : nat → res unit) (clock : nat → res json).
Abbreviation M := (SM Guard).

Definition call_observe (ev : json) : M unit := λ g,
  match observe (gd_calls g) ev with
  | Ok _ => (Ok tt, called [ev] g)
  | Raise e => (Raise e, called [] g)
  end.
Definition call_terminate : M unit := λ g, (terminate (gd_calls g), called [] g).
Definition call_clock : M json := λ g, (clock (gd_calls g), called [] g).

Definition _event (event : string) (data : list (string * json)) : res (list (string * json)) :=
  h ← contract_hash c;
  Ok ([("event", JStr (str event)); ("schema_version", JStr (str "factory-attempt-event-v1"));
       ("task_id", JStr (wc_task_id c)); ("worker_id", JStr (wc_worker_id c));
       ("swarm_id", JStr (wc_swarm_id c)); ("attempt_id", JStr (wc_attempt_id c));
       ("lease_id", JStr (wc_lease_id c)); ("lease_generation", JInt (wc_lease_generation c));
       ("execution_plan_hash", JStr (wc_execution_plan_hash c)); ("contract_hash", JStr h)] ++ data).

Definition _emit (event : string) (data : list (string * json)) : M unit :=
  sm_try (ev ← sm_lift (_event event data); call_observe (jobj ev))
    (λ e, _ ← sm_mod (set_state AUDIT_FAILED);
          _ ← sm_try call_terminate (λ _, mret tt);
          sm_raise e).

(** The stop hook runs before the audit sink; the exception carries the event. *)
Definition _violate {A} (boundary field : pystr) (action : json) : M A :=
  _ ← sm_mod (set_state VIOLATED);
  ev ← sm_lift (_event "ContractViolation"
         [("reason", JStr (str "contract_violation")); ("boundary", JStr boundary); ("field", JStr field); ("action", action)]);
  hook ← sm_try (_ ← call_terminate; mret (str "returned")) (λ _, mret (str "failed"));
  let ev := ev ++ [("stop_hook", JStr hook)] in
  ev ← sm_try (_ ← call_observe (jobj ev); mret ev) (λ _, mret (ev ++ [("audit_failed", JBool true)]));
  _ ← sm_lift (canonical (jobj ev));
  sm_raise (ValueError "ContractViolation").

Definition violate {A} (boundary field : string) (action : list (string * json)) : M A :=
  _violate (str boundary) (str field) (jobj action).

Definition read_clock : M float :=
  sm_try (v ← call_clock; sm_lift (_number v "monotonic clock"))
    (λ _, violate "resource" "monotonic_clock" [("reason", JStr (str "clock_unavailable"))]).

Definition start : M unit :=
  g ← sm_get;
  if negb (bool_decide (gd_state g = CREATED))
  then sm_raise (WorkerContractError "attempt cannot be started or restarted")
  else
    _ ← _emit "WorkerContractRecorded" [("contract", jobj (contract_dict c))];
    now ← read_clock;
    _ ← sm_mod (set_started now);
    _ ← _emit "WorkerAttemptStarted" [];
    sm_mod (set_state RUNNING).

Definition _active : M unit :=
  g ← sm_get;
  if negb (bool_decide (gd_state g = RUNNING)) then sm_raise (WorkerContractError "attempt is not running")
  else
    now ← read_clock;
    match gd_started g with
    | None => sm_raise (TypeError "'<' not supported between instances of 'float' and 'NoneType'")
    | Some started =>
        if num_ltb (NFloat now) (NFloat started)
        then violate "resource" "monotonic_clock" [("reason", JStr (str "clock_regressed"))]
        else
          let elapsed := fsub now started in
          if num_leb (NFloat (wc_wall_clock_budget_s c)) (NFloat elapsed)
          then violate "resource" "wall_clock_budget_s" [("elapsed_s", JFloat elapsed)]
          else mret tt
    end.

Definition check_deadline : M unit := _active.

Definition authorize_tool (tool : pystr) : M unit :=
  _ ← _active;
  if negb (bool_decide (tool ∈ wc_allowed_tools c)) || bool_decide (tool ∈ wc_forbidden_tools c)
  then violate "tool" "allowed_tools" [("tool", JStr (take 96 tool))]
  else
    _ ← sm_mod add_tool_call;
    g ← sm_get;
    if (wc_max_tool_calls c <? gd_tool_calls g)%Z
    then violate "resource" "max_tool_calls" [("count", JInt (gd_tool_calls g))]
    else _emit "ToolAuthorized" [("tool", JStr tool)].

Definition authorize_path (path : pystr) (write : bool) : M unit :=
  _ ← _active;
  let permitted := match permits_path c path write with Ok b => b | Raise _ => false end in
  if negb permitted
  then violate "filesystem" (if write then "allowed_outputs" else "inputs")
         [("path", JStr (take 1024 path)); ("write", JBool write)]
  else if write then
    _ ← sm_mod add_file_write;
    g ← sm_get;
    if (wc_max_file_writes c <? gd_file_writes g)%Z
    then violate "resource" "max_file_writes" [("count", JInt (gd_file_writes g))]
    else _emit "PathAuthorized" [("path", JStr path); ("write", JBool write)]
  else _emit "PathAuthorized" [("path", JStr path); ("write", JBool write)].

Definition ticket_name (n : Z) : pystr := str "call-" ++ str_of_Z n.

Definition reserve_tokens (maximum_total : json) : M pystr :=
  _ ← _active;
  n ← sm_lift (_integer maximum_total "maximum_total" 1);
  g ← sm_get;
  if (wc_token_budget c <? gd_tokens g + reserved g + n)%Z
  then violate "resource" "token_budget" [("reservation", JInt n)]
  else
    let ticket := ticket_name (gd_ticket g + 1) in
    _ ← sm_mod (set_tokens (gd_tokens g) (dset ticket n (gd_reservations g)) (gd_ticket g + 1));
    _ ← _emit "TokensReserved" [("ticket", JStr ticket); ("maximum_total", JInt n)];
    mret ticket.

Definition settle_tokens (ticket : pystr) (actual_total : json) : M unit :=
  _ ← _active;
  g ← sm_get;
  match dget ticket (gd_reservations g) with
  | None => violate "resource" "token_budget" [("reason", JStr (str "unknown_or_replayed_reservation"))]
  | Some res_total =>
      match actual_total with
      | JInt actual =>
          if (actual <? 0)%Z then violate "resource" "token_budget" [("reason", JStr (str "unknown_usage"))]
          else
            _ ← sm_mod (set_tokens (gd_tokens g + actual) (ddel ticket (gd_reservations g)) (gd_ticket g));
            if (res_total <? actual)%Z
            then violate "resource" "token_budget" [("reason", JStr (str "reservation_exceeded")); ("reported", JInt actual)]
            else _emit "TokensSettled" [("ticket", JStr ticket); ("actual_total", JInt actual)]
      | _ => violate "resource" "token_budget" [("reason", JStr (str "unknown_usage"))]
      end
  end.

Definition check_memory (resident_bytes : json) : M unit :=
  _ ← _active;
  match _integer resident_bytes "resident_bytes" 0 with
  | Raise _ => violate "resource" "memory_limit_mb" [("reason", JStr (str "memory_usage_unavailable"))]
  | Ok n =>
      if (wc_memory_limit_mb c * 1024 * 1024 <? n)%Z
      then violate "resource" "memory_limit_mb" [("resident_bytes", JInt n)]
      else mret tt
  end.

Definition assert_lease (lease_id : pystr) (generation : json) : M unit :=
  _ ← _active;
  if match generation with
     | JInt n => negb (bool_decide (lease_id = wc_lease_id c) && (n =? wc_lease_generation c)%Z)
     | _ => true
     end
  then violate "lease" "lease_generation" [("reason", JStr (str "stale_lease"))]
  else mret tt.

Definition usage (g : Guard) : json :=
  jobj [("tokens", JInt (gd_tokens g)); ("tool_calls", JInt (gd_tool_calls g));
        ("file_writes", JInt (gd_file_writes g)); ("reserved_tokens", JInt (reserved g))].

Definition finish : M unit :=
  _ ← _active;
  g ← sm_get;
  if negb (bool_decide (gd_reservations g = []))
  then violate "resource" "token_budget" [("reason", JStr (str "unsettled_usage"))]
  else
    _ ← _emit "WorkerCandidateReady" [("usage", usage g)];
    sm_mod (set_state CANDIDATE).

Definition fail (boundary field : pystr) (action : json) : M unit :=
  _ ← _active;
  _violate boundary field action.

(** [try: terminate() finally: emit(...)] *)
Definition cancel : M unit :=
  g ← sm_get;
  if negb (bool_decide (gd_state g = RUNNING)) then mret tt
  else
    _ ← sm_mod (set_state CANCELLED);
    stopped ← sm_try (_ ← call_terminate; mret (Ok tt)) (λ e, mret (Raise e));
    _ ← _emit "WorkerAttemptCancelled" [];
    sm_lift stopped.

Definition deadline (g : Guard) : option float :=
  (λ started, fadd started (wc_wall_clock_budget_s c)) <$> gd_started g.

(** ** Histories *)
Inductive GuardOp : Type :=
| OpStart | OpCheckDeadline | OpTool (tool : pystr) | OpPath (path : pystr) (write : bool)
| OpReserve (maximum_total : json) | OpSettle (ticket : pystr) (actual_total : json)
| OpMemory (resident_bytes : json) | OpLease (lease_id : pystr) (generation : json)
| OpFinish | OpFail (boundary field : pystr) (action : json) | OpCancel.

Definition guard_op (op : GuardOp) : M unit :=
  match op with
  | OpStart => start
  | OpCheckDeadline => check_deadline
  | OpTool tool => authorize_tool tool
  | OpPath path write => authorize_path path write
  | OpReserve n => _ ← reserve_tokens n; mret tt
  | OpSettle ticket n => settle_tokens ticket n
  | OpMemory n => check_memory n
  | OpLease lease_id n => assert_lease lease_id n
  | OpFinish => finish
  | OpFail boundary field action => fail boundary field action
  | OpCancel => cancel
  end.

(** Each operation's exception goes to its caller; the guard keeps its state. *)
Definition guard_run (ops : list GuardOp) (g : Guard) : Guard := foldl (λ g op, (guard_op op g).2) g ops.
End guard.
