(* ===== verification/GuardFacts.v ===== *)
(** * What the attempt guard guarantees *)

From Stdlib Require Import ZArith NArith Lia SpecFloat.
From S2P Require Import Prelude PyData Sha256 PyFloat Json JsonFacts Core CoreFacts Builtins Graph JsonPlain Plan WorkerContract AttemptGuard.

(** ** Reading the audit log *)
Definition event_field (k : string) (ev : json) : json :=
  match ev with JDict d => default JNull (dget (str k) d) | _ => JNull end.
Definition event_is (name : string) (ev : json) : bool := bool_decide (event_field "event" ev = JStr (str name)).
Definition tool_event : json → bool := event_is "ToolAuthorized".
Definition write_event (ev : json) : bool :=
  event_is "PathAuthorized" ev && bool_decide (event_field "write" ev = JBool true).
Definition count_events (f : json → bool) (log : list json) : Z := Z.of_nat (length (filter (λ ev, f ev = true) log)).

Lemma count_app f log ev : count_events f (log ++ [ev]) = (count_events f log + (if f ev then 1 else 0))%Z.
Proof.
  unfold count_events. rewrite filter_app, length_app, filter_cons, filter_nil.
  destruct (f ev) eqn:E; [rewrite decide_True by done|rewrite decide_False by done]; cbn; lia.
Qed.

(** The entries of the log, by what they authorize. *)
Definition entry_ok (c : WorkerContract) (ev : json) : Prop :=
  (tool_event ev = true → ∃ t, event_field "tool" ev = JStr t ∧ t ∈ wc_allowed_tools c ∧ t ∉ wc_forbidden_tools c) ∧
  (event_is "PathAuthorized" ev = true →
   ∃ p w, event_field "path" ev = JStr p ∧ event_field "write" ev = JBool w ∧ permits_path c p w = Ok true).

(** ** The invariant *)
Definition ticket_ok (g : Guard) (kv : pystr * Z) : Prop :=
  (1 <= kv.2)%Z ∧ ∃ n, kv.1 = ticket_name n ∧ (1 <= n <= gd_ticket g)%Z.

Record guard_acc (c : WorkerContract) (g : Guard) : Prop := {
  acc_tokens : (0 <= gd_tokens g)%Z;
  acc_ticket : (0 <= gd_ticket g)%Z;
  acc_keys : wf_dict (gd_reservations g);
  acc_entries : Forall (ticket_ok g) (gd_reservations g);
  acc_tools : (count_events tool_event (gd_log g) <= gd_tool_calls g)%Z;
  acc_tools_max : (count_events tool_event (gd_log g) <= wc_max_tool_calls c)%Z;
  acc_writes : (count_events write_event (gd_log g) <= gd_file_writes g)%Z;
  acc_writes_max : (count_events write_event (gd_log g) <= wc_max_file_writes c)%Z;
  acc_log : Forall (entry_ok c) (gd_log g)
}.

Definition within (c : WorkerContract) (g : Guard) : Prop :=
  (gd_tokens g + reserved g <= wc_token_budget c)%Z ∧ (gd_tool_calls g <= wc_max_tool_calls c)%Z ∧
  (gd_file_writes g <= wc_max_file_writes c)%Z.

Record guard_inv (c : WorkerContract) (g : Guard) : Prop := {
  inv_acc : guard_acc c g;
  inv_created : gd_state g = CREATED → within c g ∧ gd_reservations g = [];
  inv_running : gd_state g = RUNNING → within c g ∧ is_Some (gd_started g);
  inv_candidate : gd_state g = CANDIDATE → within c g ∧ gd_reservations g = []
}.

Definition terminal (st : AttemptState) : bool :=
  match st with CREATED | RUNNING => false | _ => true end.

(** Nonnegative budgets, as [WorkerContract_init] demands. *)
Definition budgets_ok (c : WorkerContract) : Prop :=
  (0 <= wc_token_budget c)%Z ∧ (0 <= wc_max_tool_calls c)%Z ∧ (0 <= wc_max_file_writes c)%Z.

Section guard_facts.
Context (c : WorkerContract).
Context (observe : nat → json → res unit) (terminate : nat → res unit) (clock : nat → res json).
Abbreviation emit' := (_emit c observe terminate).
Abbreviation active' := (_active c observe terminate clock).

(** An event that is neither an authorization of a tool nor of a path. *)
Definition neutral (event : string) : Prop :=
  str event ≠ str "ToolAuthorized" ∧ str event ≠ str "PathAuthorized".

Lemma event_name name data d rest : _event c name data = Ok d → event_field "event" (jobj (d ++ rest)) = JStr (str name).
Proof. unfold _event. intros H. apply bind_Ok in H as (h & _ & [= <-]). reflexivity. Qed.

Lemma neutral_event name data d rest :
  neutral name → _event c name data = Ok d →
  tool_event (jobj (d ++ rest)) = false ∧ event_is "PathAuthorized" (jobj (d ++ rest)) = false.
Proof.
  intros [H1 H2] H. unfold tool_event, event_is. rewrite (event_name _ _ _ rest H).
  split; apply bool_decide_eq_false; congruence.
Qed.

Lemma acc_neutral g ev :
  guard_acc c g → tool_event ev = false → event_is "PathAuthorized" ev = false → guard_acc c (called [ev] g).
Proof.
  intros [? ? ? He ? ? ? ? Hl] Ht Hp.
  assert (write_event ev = false) as Hw by (unfold write_event; by rewrite Hp).
  constructor; cbn [called gd_tokens gd_ticket gd_reservations gd_log gd_tool_calls gd_file_writes];
    rewrite ?count_app, ?Ht, ?Hw; try lia; try done.
  apply Forall_app. split; [done|]. constructor; [|done]. split; [by rewrite Ht|by rewrite Hp].
Qed.

Lemma acc_silent g : guard_acc c g → guard_acc c (called [] g).
Proof. intros [? ? ? He ? ? ? ? Hl]. by constructor; cbn [called gd_log]; rewrite ?app_nil_r. Qed.

Lemma acc_state st g : guard_acc c g → guard_acc c (set_state st g).
Proof. by intros []. Qed.

Lemma violated_post {A} boundary field action :
  triple (guard_acc c) (_violate c observe terminate (A := A) boundary field action) (λ _ _, False)
    (λ _ g, guard_acc c g ∧ gd_state g = VIOLATED).
Proof.
  intros g Hg. unfold _violate. unfold sm_mod, sm_lift, mbind at 1, SM_bind at 1. cbv beta iota.
  unfold mbind at 1, SM_bind at 1. destruct (_event _ _ _) as [d|e] eqn:Ed; [|split; [by apply acc_state|done]].
  assert (neutral "ContractViolation") as Hn by (split; by vm_compute).
  set (g1 := set_state VIOLATED g). assert (guard_acc c g1 ∧ gd_state g1 = VIOLATED) as H1 by (split; [by apply acc_state|done]).
  clearbody g1. unfold mbind at 1, SM_bind at 1.
  assert (∃ s, sm_try (_ ← call_terminate terminate; mret (str "returned")) (λ _, mret (str "failed")) g1 = (Ok s, called [] g1)) as [s ->].
  { unfold sm_try, call_terminate, mbind, SM_bind. destruct (terminate _) as [u|e]; [exists (str "returned")|exists (str "failed")]; done. }
  set (g2 := called [] g1). assert (guard_acc c g2 ∧ gd_state g2 = VIOLATED) as H2 by (destruct H1; split; [by apply acc_silent|done]).
  clearbody g2. unfold mbind at 1, SM_bind at 1.
  unfold sm_try, call_observe, mbind, SM_bind, sm_lift, sm_raise, mret, SM_ret. destruct (observe _ _) as [u|e].
  - assert (guard_acc c (called [jobj (d ++ [("stop_hook", JStr s)])] g2)) as H3.
    { destruct (neutral_event _ _ d [("stop_hook", JStr s)] Hn Ed). apply acc_neutral; tauto. }
    destruct (canonical _); (split; [done|cbn; tauto]).
  - destruct (canonical _); (split; [apply acc_silent; tauto|cbn; tauto]).
Qed.

Lemma violate_post {A} boundary field action :
  triple (guard_acc c) (violate c observe terminate (A := A) boundary field action) (λ _ _, False)
    (λ _ g, guard_acc c g ∧ gd_state g = VIOLATED).
Proof. apply violated_post. Qed.

Lemma violate_cases {A} boundary field action g :
  guard_acc c g →
  ∃ e g', violate c observe terminate (A := A) boundary field action g = (Raise e, g') ∧ guard_acc c g' ∧ gd_state g' = VIOLATED.
Proof.
  intros Hg. pose proof (violate_post (A := A) boundary field action g Hg) as H.
  destruct (violate _ _ _ _ _ _ g) as [[a|e] g']; [done|]. eauto.
Qed.

Definition audit_failure (e : exn) : SM Guard unit :=
  _ ← sm_mod (set_state AUDIT_FAILED); _ ← sm_try (call_terminate terminate) (λ _, mret tt); sm_raise e.

Lemma emit_eq name data g :
  emit' name data g =
  match _event c name data with
  | Raise e => audit_failure e g
  | Ok d => match observe (gd_calls g) (jobj d) with
            | Ok _ => (Ok tt, called [jobj d] g)
            | Raise e => audit_failure e (called [] g)
            end
  end.
Proof.
  unfold _emit, audit_failure, sm_try, sm_lift, call_observe, mbind, SM_bind.
  destruct (_event c name data) as [d|e]; [|reflexivity]. by destruct (observe _ _).
Qed.

Lemma emit_cases name data g :
  (∃ d, _event c name data = Ok d ∧ emit' name data g = (Ok tt, called [jobj d] g)) ∨
  (∃ e g', emit' name data g = (Raise e, g') ∧ gd_state g' = AUDIT_FAILED ∧ (guard_acc c g → guard_acc c g')).
Proof.
  assert (∀ e g1, (guard_acc c g → guard_acc c g1) → ∃ e' g', audit_failure e g1 = (Raise e', g')
    ∧ gd_state g' = AUDIT_FAILED ∧ (guard_acc c g → guard_acc c g')) as Hh.
  { intros e g1 Hg1. unfold audit_failure, sm_mod, sm_try, call_terminate, sm_raise, mbind, SM_bind, mret, SM_ret.
    destruct (terminate _); eexists _, _; (split_and!; [done|done|]); intros Hg; apply acc_silent, acc_state, Hg1, Hg. }
  rewrite emit_eq. destruct (_event c name data) as [d|e] eqn:Ed; [|right; by apply Hh].
  destruct (observe _ _) as [u|e]; [left; eauto|right]. apply Hh. apply acc_silent.
Qed.

(** What a passed activity check says: the attempt runs and the clock, read
    now, is not before the start and not yet at the deadline. *)
Definition on_time (g : Guard) : Prop :=
  gd_state g = RUNNING ∧ ∃ v now started,
    clock (gd_calls g) = Ok v ∧ _number v "monotonic clock" = Ok now ∧ gd_started g = Some started ∧
    num_ltb (NFloat now) (NFloat started) = false ∧
    num_leb (NFloat (wc_wall_clock_budget_s c)) (NFloat (fsub now started)) = false.

Lemma active_cases g :
  guard_acc c g → (gd_state g = RUNNING → is_Some (gd_started g)) →
  (active' g = (Ok tt, called [] g) ∧ on_time g) ∨
  (∃ e, active' g = (Raise e, g) ∧ gd_state g ≠ RUNNING) ∨
  (∃ e g', active' g = (Raise e, g') ∧ guard_acc c g' ∧ gd_state g' = VIOLATED).
Proof.
  intros Hg Hs. unfold _active, read_clock, sm_get, sm_try, call_clock, sm_lift, mbind, SM_bind. cbv beta iota.
  destruct (decide (gd_state g = RUNNING)) as [Hr|Hr]; [rewrite (bool_decide_true _ Hr)|rewrite (bool_decide_false _ Hr)]; cbn [negb];
    [|right; left; eexists; split; [reflexivity|done]].
  destruct (Hs Hr) as [started Est]. rewrite Est. cbv beta iota.
  pose proof (acc_silent g Hg) as Hg1.
  destruct (clock (gd_calls g)) as [v|e] eqn:Ec; [destruct (_number v _) as [now|e] eqn:En|].
  2,3: right; right; destruct (violate_cases (A := float) "resource" "monotonic_clock" [("reason", JStr (str "clock_unavailable"))] _ Hg1) as (e' & g' & -> & ? & ?); eauto.
  destruct (num_ltb _ _) eqn:El.
  { right; right. by apply violate_cases. }
  destruct (num_leb _ _) eqn:Ed.
  { right; right. by apply violate_cases. }
  left. split; [reflexivity|]. split; [done|]. exists v, now, started. done.
Qed.

(** ** Every operation preserves the invariant *)
Lemma inv_of_terminal g st : guard_acc c g → gd_state g = st → terminal st = true → st ≠ CANDIDATE → guard_inv c g.
Proof. intros Ha Hs Ht Hn. constructor; [done|..]; intros E; rewrite E in Hs; subst; done. Qed.

Lemma inv_silent g : guard_inv c g → guard_inv c (called [] g).
Proof. intros [Ha Hc Hr Hd]. by constructor; [apply acc_silent|..]. Qed.

(** The common shape of the mediated operations: after the activity check, the
    body runs on a running attempt within its budgets. *)
Lemma active_then {A} (body : SM Guard A) g :
  guard_inv c g →
  (∀ g, guard_inv c g → gd_state g = RUNNING → guard_inv c (body g).2) →
  guard_inv c ((_ ← active'; body) g).2.
Proof.
  intros Hi Hb. unfold mbind, SM_bind.
  destruct (active_cases g) as [[-> Ht]|[(e & -> & _)|(e & g' & -> & Ha & Hv)]]; [apply Hi|apply Hi|..].
  - apply Hb; [by apply inv_silent|apply Ht].
  - done.
  - cbn. eapply inv_of_terminal; [done|exact Hv|done|done].
Qed.

Lemma violate_inv {A} boundary field action g :
  guard_acc c g → guard_inv c (violate c observe terminate (A := A) boundary field action g).2.
Proof.
  intros Hg. destruct (violate_cases (A := A) boundary field action g Hg) as (e & g' & -> & Ha & Hv).
  eapply inv_of_terminal; [done|exact Hv|done|done].
Qed.

(** A successful audit event keeps the state of the attempt; a failed one ends it. *)
Lemma emit_inv name data g :
  guard_acc c g →
  (∀ d, _event c name data = Ok d → guard_inv c (called [jobj d] g)) →
  guard_inv c (emit' name data g).2.
Proof.
  intros Hg Hok. destruct (emit_cases name data g) as [(d & Hd & ->)|(e & g' & -> & Hs & Ha)]; [by apply Hok|].
  cbn. eapply inv_of_terminal; [by apply Ha|exact Hs|done|done].
Qed.

Lemma neutral_inv name data d g :
  neutral name → _event c name data = Ok d → guard_inv c g → guard_inv c (called [jobj d] g).
Proof.
  intros Hn Hd [Ha Hc Hr Hcd]. destruct (neutral_event name data d [] Hn Hd) as [H1 H2]. rewrite app_nil_r in H1, H2.
  by constructor; [apply acc_neutral|..].
Qed.

(** An event of a kind that authorizes nothing. *)
Ltac neutral_event_tac H := eapply neutral_inv; [|exact H|done]; by split; vm_compute.

Ltac gcbn := cbn [set_state set_started add_tool_call add_file_write set_tokens called gd_state gd_started gd_tokens
  gd_tool_calls gd_file_writes gd_reservations gd_ticket gd_calls gd_log].
Ltac gcbn_in H := cbn [set_state set_started add_tool_call add_file_write set_tokens called gd_state gd_started gd_tokens
  gd_tool_calls gd_file_writes gd_reservations gd_ticket gd_calls gd_log] in H.

Lemma acc_add_tool g : guard_acc c g → guard_acc c (add_tool_call g).
Proof. intros []. constructor; gcbn; try done; lia. Qed.
Lemma acc_add_write g : guard_acc c g → guard_acc c (add_file_write g).
Proof. intros []. constructor; gcbn; try done; lia. Qed.

Ltac sm_body := unfold mbind, SM_bind, sm_mod, sm_get, sm_lift, mret, SM_ret; cbv beta iota.

Lemma tool_inv tool g : guard_inv c g → guard_inv c (authorize_tool c observe terminate clock tool g).2.
Proof.
  intros Hi. apply active_then; [done|]. clear g Hi. intros g Hi Hr. pose proof (inv_acc _ _ Hi) as Ha.
  destruct (negb _ || _) eqn:Et; [by apply violate_inv|]. apply orb_false_iff in Et as [Et1 Et2].
  apply negb_false_iff, bool_decide_eq_true in Et1. apply bool_decide_eq_false in Et2. sm_body.
  destruct (_ <? _)%Z eqn:El; [apply violate_inv; by apply acc_add_tool|]. apply Z.ltb_ge in El. gcbn_in El.
  apply emit_inv; [by apply acc_add_tool|]. intros d Hd. unfold _event in Hd. apply bind_Ok in Hd as (h & _ & [= <-]).
  destruct (inv_running _ _ Hi Hr) as [(W1 & W2 & W3) Hst]. destruct Ha as [? ? ? He Ht Htm ? ? Hl].
  assert (∀ e, entry_ok c (jobj e) → count_events tool_event (gd_log g ++ [jobj e]) = (count_events tool_event (gd_log g) + 1)%Z →
    count_events write_event (gd_log g ++ [jobj e]) = count_events write_event (gd_log g) → guard_inv c (called [jobj e] (add_tool_call g))) as Hk.
  { intros e Hok Hc1 Hc2. constructor.
    - constructor; gcbn; try done; [lia|lia|lia|lia|apply Forall_app; split; [done|by constructor]].
    - gcbn. by rewrite Hr.
    - intros _. split; [repeat split; gcbn; done|done].
    - gcbn. by rewrite Hr. }
  apply Hk.
  - split; [|done]. intros _. exists tool. done.
  - rewrite count_app. done.
  - rewrite count_app. apply Z.add_0_r.
Qed.

Lemma path_entry path write d g :
  _event c "PathAuthorized" [("path", JStr path); ("write", JBool write)] = Ok d →
  guard_acc c g → permits_path c path write = Ok true →
  (write = true → count_events write_event (gd_log g) < gd_file_writes g ∧ gd_file_writes g <= wc_max_file_writes c)%Z →
  guard_acc c (called [jobj d] g).
Proof.
  intros Hd [? ? ? He Ht Htm ? ? Hl] Hp Hw. unfold _event in Hd. apply bind_Ok in Hd as (h & _ & [= <-]).
  assert (∀ e, entry_ok c (jobj e) → count_events tool_event (gd_log g ++ [jobj e]) = count_events tool_event (gd_log g) →
    count_events write_event (gd_log g ++ [jobj e]) = (count_events write_event (gd_log g) + (if write then 1 else 0))%Z →
    guard_acc c (called [jobj e] g)) as Hk.
  { intros e Hok Hc1 Hc2. constructor; gcbn; try done; rewrite ?Hc1, ?Hc2; try done.
    - destruct write; [destruct Hw|]; [done|lia|lia].
    - destruct write; [destruct Hw|]; [done|lia|lia].
    - apply Forall_app. split; [done|by constructor]. }
  apply Hk.
  - split; [done|]. intros _. by exists path, write.
  - rewrite count_app. apply Z.add_0_r.
  - rewrite count_app. by destruct write.
Qed.

Lemma path_inv path write g : guard_inv c g → guard_inv c (authorize_path c observe terminate clock path write g).2.
Proof.
  intros Hi. apply active_then; [done|]. clear g Hi. intros g Hi Hr. pose proof (inv_acc _ _ Hi) as Ha.
  destruct (permits_path c path write) as [[]|] eqn:Ep; cbv zeta; cbn [negb]; try (by apply violate_inv).
  destruct (inv_running _ _ Hi Hr) as [(W1 & W2 & W3) Hst]. destruct write.
  - sm_body. destruct (_ <? _)%Z eqn:El; [apply violate_inv; by apply acc_add_write|]. apply Z.ltb_ge in El. gcbn_in El.
    apply emit_inv; [by apply acc_add_write|]. intros d Hd. constructor.
    + eapply path_entry; [exact Hd|by apply acc_add_write|done|]. intros _. gcbn. pose proof (acc_writes _ _ Ha). lia.
    + gcbn. by rewrite Hr.
    + intros _. split; [repeat split; gcbn; done|done].
    + gcbn. by rewrite Hr.
  - apply emit_inv; [done|]. intros d Hd. destruct Hi as [_ Hc Hrn Hcd]. constructor; [|done..].
    eapply path_entry; [exact Hd|done|done|done].
Qed.

Lemma start_inv g : guard_inv c g → guard_inv c (start c observe terminate clock g).2.
Proof.
  intros Hi. unfold start. sm_body. destruct (decide (gd_state g = CREATED)) as [Hr|Hr];
    [rewrite (bool_decide_true _ Hr)|rewrite (bool_decide_false _ Hr)]; cbn [negb]; [|done].
  destruct (inv_created _ _ Hi Hr) as [Hw Hres].
  destruct (emit_cases "WorkerContractRecorded" [("contract", jobj (contract_dict c))] g) as [(d & Hd & ->)|(e & g' & -> & Hs & Ha)];
    [|cbn; eapply inv_of_terminal; [apply Ha, Hi|exact Hs|done|done]].
  assert (guard_inv c (called [jobj d] g)) as Hi1 by (neutral_event_tac Hd).
  set (g1 := called [jobj d] g) in *. assert (gd_state g1 = CREATED) as Hr1 by done. assert (within c g1) as Hw1 by done.
  clearbody g1. unfold read_clock, sm_try, call_clock, mbind, SM_bind, sm_lift. cbv beta iota.
  pose proof (inv_silent _ Hi1) as Hi2. set (g2 := called [] g1) in *. assert (within c g2) as Hw2 by done. assert (gd_state g2 = CREATED) as Hr2 by done. clearbody g2.
  destruct (clock (gd_calls g1)) as [v|e]; [destruct (_number v _) as [now|e]|].
  2,3: destruct (violate_cases (A := float) "resource" "monotonic_clock" [("reason", JStr (str "clock_unavailable"))] _ (inv_acc _ _ Hi2)) as (e' & g' & -> & Ha & Hv);
    cbn; eapply inv_of_terminal; [done|exact Hv|done|done].
  assert (guard_inv c (set_started now g2)) as Hi3 by (destruct Hi2 as [[] ? ? ?]; by constructor).
  destruct (emit_cases "WorkerAttemptStarted" [] (set_started now g2)) as [(d2 & Hd2 & ->)|(e & g' & -> & Hs & Ha)];
    [|cbn; eapply inv_of_terminal; [apply Ha, Hi3|exact Hs|done|done]].
  assert (guard_inv c (called [jobj d2] (set_started now g2))) as Hi4 by (neutral_event_tac Hd2).
  cbn. constructor; [apply acc_state, Hi4|done| |done]. intros _. split; [exact Hw2|eauto].
Qed.

(** *** Token reservations *)
Lemma ticket_name_inj n m : (0 <= n)%Z → (0 <= m)%Z → ticket_name n = ticket_name m → n = m.
Proof.
  intros Hn Hm H. unfold ticket_name in H. apply app_inv_head in H. unfold str_of_Z in H.
  rewrite (proj2 (Z.ltb_ge n 0)), (proj2 (Z.ltb_ge m 0)) in H by lia.
  destruct (str_of_nonneg_spec n Hn) as (d & ds & E & _ & Hv & _), (str_of_nonneg_spec m Hm) as (d' & ds' & E' & _ & Hv' & _).
  rewrite E, E' in H. rewrite <- Hv, <- Hv'. by rewrite H.
Qed.

Lemma ticket_fresh g : guard_acc c g → ticket_name (gd_ticket g + 1) ∉ (gd_reservations g).*1.
Proof.
  intros [? ? ? He _ _ _ _ _] Hin. apply list_elem_of_fmap in Hin as (kv & E & Hkv).
  rewrite Forall_forall in He. destruct (He kv Hkv) as (_ & n & E' & Hn). rewrite E' in E.
  apply ticket_name_inj in E; lia.
Qed.

Lemma sum_app (l k : list Z) : foldr Z.add 0%Z (l ++ k) = (foldr Z.add 0 l + foldr Z.add 0 k)%Z.
Proof. induction l as [|x l IH]; cbn; [done|]. rewrite IH. lia. Qed.

Lemma sum_ddel (k : pystr) (d : dict Z) v : dget k d = Some v →
  foldr Z.add 0%Z (ddel k d).*2 = (foldr Z.add 0 d.*2 - v)%Z.
Proof.
  induction d as [|[j w] d IH]; cbn; [done|]. case_decide as E.
  - intros [= <-]. cbn. lia.
  - intros H. cbn. rewrite IH by done. lia.
Qed.

Lemma acc_reserve g n :
  guard_acc c g → (1 <= n)%Z →
  let g' := set_tokens (gd_tokens g) (dset (ticket_name (gd_ticket g + 1)) n (gd_reservations g)) (gd_ticket g + 1) g in
  guard_acc c g' ∧ reserved g' = (reserved g + n)%Z.
Proof.
  intros Ha Hn g'. pose proof (ticket_fresh g Ha) as Hf. destruct Ha as [? ? Hk He ? ? ? ? ?].
  assert (gd_reservations g' = gd_reservations g ++ [(ticket_name (gd_ticket g + 1), n)]) as E by (by apply dset_fresh).
  split.
  - constructor; try (subst g'; gcbn; try done; try lia; by apply wf_dset). rewrite E. apply Forall_app. split.
    + eapply Forall_impl; [exact He|]. intros kv (H1 & m & E1 & Hm). split; [done|]. exists m. subst g'. gcbn. split; [done|lia].
    + constructor; [|done]. split; [done|]. exists (gd_ticket g + 1)%Z. subst g'. gcbn. split; [done|lia].
  - unfold reserved. rewrite E, fmap_app, sum_app. cbn. lia.
Qed.

Lemma acc_settle g k v n :
  guard_acc c g → dget k (gd_reservations g) = Some v → (0 <= n)%Z →
  let g' := set_tokens (gd_tokens g + n) (ddel k (gd_reservations g)) (gd_ticket g) g in
  guard_acc c g' ∧ reserved g' = (reserved g - v)%Z.
Proof.
  intros [? ? Hk He ? ? ? ? ?] Hv Hn g'. split; [|by apply sum_ddel].
  constructor; subst g'; gcbn; try done; [lia|by apply wf_ddel|]. rewrite Forall_forall in He |- *.
  intros kv Hkv. apply (He kv). by eapply elem_of_ddel.
Qed.

Lemma reserve_inv v g : guard_inv c g → guard_inv c (reserve_tokens c observe terminate clock v g).2.
Proof.
  intros Hi. apply active_then; [done|]. clear g Hi. intros g Hi Hr. pose proof (inv_acc _ _ Hi) as Ha.
  unfold sm_lift, sm_get, sm_mod. unfold mbind at 1, SM_bind at 1. destruct (_integer v _ 1) as [n|e] eqn:En; [|done].
  assert (1 <= n)%Z as Hn by (destruct v; try done; cbn in En; destruct (_ <? 1)%Z eqn:El; [done|]; injection En as <-; lia).
  unfold mbind at 1, SM_bind at 1. destruct (_ <? _)%Z eqn:El; [by apply violate_inv|]. apply Z.ltb_ge in El.
  destruct (inv_running _ _ Hi Hr) as [(W1 & W2 & W3) Hst]. destruct (acc_reserve g n Ha Hn) as [Ha' Hs].
  unfold mbind at 1, SM_bind at 1. set (g1 := set_tokens _ _ _ _) in *.
  assert (guard_inv c g1) as Hi1.
  { constructor; [done|..]; subst g1; gcbn; rewrite Hr; try done. intros _. split; [split_and!; [|done..]|done].
    rewrite Hs. gcbn. lia. }
  unfold mbind, SM_bind. set (t := ticket_name _).
  pose proof (emit_inv "TokensReserved" [("ticket", JStr t); ("maximum_total", JInt n)] g1 Ha') as He.
  destruct (emit' _ _ g1) as [[u|e] g2]; apply He; intros d Hd; (neutral_event_tac Hd).
Qed.

Lemma settle_inv t v g : guard_inv c g → guard_inv c (settle_tokens c observe terminate clock t v g).2.
Proof.
  intros Hi. apply active_then; [done|]. clear g Hi. intros g Hi Hr. pose proof (inv_acc _ _ Hi) as Ha.
  sm_body. destruct (dget t _) as [r|] eqn:Et; [|by apply violate_inv]. destruct v; try (by apply violate_inv).
  destruct (z <? 0)%Z eqn:Ez; [by apply violate_inv|]. apply Z.ltb_ge in Ez.
  destruct (acc_settle g t r z Ha Et Ez) as [Ha' Hs]. set (g1 := set_tokens _ _ _ _) in *.
  destruct (r <? z)%Z eqn:Er; [by apply violate_inv|]. apply Z.ltb_ge in Er.
  destruct (inv_running _ _ Hi Hr) as [(W1 & W2 & W3) Hst].
  assert (guard_inv c g1) as Hi1.
  { constructor; [done|..]; subst g1; gcbn; rewrite Hr; try done. intros _. split; [split_and!; [|done..]|done].
    rewrite Hs. gcbn. lia. }
  apply emit_inv; [done|]. intros d Hd. neutral_event_tac Hd.
Qed.

Lemma memory_inv v g : guard_inv c g → guard_inv c (check_memory c observe terminate clock v g).2.
Proof.
  intros Hi. apply active_then; [done|]. clear g Hi. intros g Hi Hr. pose proof (inv_acc _ _ Hi) as Ha.
  destruct (_integer v _ 0) as [n|e]; [|by apply violate_inv]. destruct (_ <? n)%Z; [by apply violate_inv|done].
Qed.

Lemma lease_inv l v g : guard_inv c g → guard_inv c (assert_lease c observe terminate clock l v g).2.
Proof.
  intros Hi. apply active_then; [done|]. clear g Hi. intros g Hi Hr. pose proof (inv_acc _ _ Hi) as Ha.
  match goal with |- context [if ?b then _ else _] => destruct b end; [by apply violate_inv|done].
Qed.

Lemma finish_inv g : guard_inv c g → guard_inv c (finish c observe terminate clock g).2.
Proof.
  intros Hi. apply active_then; [done|]. clear g Hi. intros g Hi Hr. pose proof (inv_acc _ _ Hi) as Ha.
  unfold sm_get, sm_mod, mbind, SM_bind. cbv beta iota.
  destruct (decide (gd_reservations g = [])) as [E|E]; [rewrite (bool_decide_true _ E)|rewrite (bool_decide_false _ E)];
    cbn [negb]; [|by apply violate_inv].
  destruct (emit_cases "WorkerCandidateReady" [("usage", usage g)] g) as [(d & Hd & ->)|(e & g' & -> & Hs & Ha')].
  - assert (guard_inv c (called [jobj d] g)) as Hi1 by (neutral_event_tac Hd).
    cbn. constructor; [apply acc_state, Hi1|done|done|]. intros _. destruct (inv_running _ _ Hi Hr). done.
  - cbn. eapply inv_of_terminal; [by apply Ha'|exact Hs|done|done].
Qed.

Lemma fail_inv b f a g : guard_inv c g → guard_inv c (fail c observe terminate clock b f a g).2.
Proof.
  intros Hi. apply active_then; [done|]. clear g Hi. intros g Hi Hr.
  pose proof (violated_post (A := unit) b f a g (inv_acc _ _ Hi)) as H.
  destruct (_violate _ _ _ _ _ _ g) as [[u|e] g']; [done|]. destruct H as [Ha Hv]. eapply inv_of_terminal; [done|exact Hv|done|done].
Qed.

Lemma cancel_inv g : guard_inv c g → guard_inv c (cancel c observe terminate g).2.
Proof.
  intros Hi. unfold cancel, sm_get, sm_mod, sm_lift, mbind, SM_bind, sm_try, call_terminate, mret, SM_ret. cbv beta iota.
  destruct (decide (gd_state g = RUNNING)) as [Hr|Hr]; [rewrite (bool_decide_true _ Hr)|rewrite (bool_decide_false _ Hr)];
    cbn [negb]; [|done].
  assert (guard_inv c (called [] (set_state CANCELLED g))) as Hi1.
  { eapply inv_of_terminal; [apply acc_silent, acc_state, Hi|reflexivity|done|done]. }
  set (g1 := called [] _) in *. clearbody g1.
  destruct (terminate _) as [u|e]; cbv beta iota;
    (destruct (emit_cases "WorkerAttemptCancelled" [] g1) as [(d & Hd & ->)|(e' & g' & -> & Hs & Ha')];
      [neutral_event_tac Hd
      |eapply inv_of_terminal; [apply Ha', Hi1|exact Hs|done|done]]).
Qed.

Lemma guard_op_inv op g : guard_inv c g → guard_inv c (guard_op c observe terminate clock op g).2.
Proof.
  intros Hi. destruct op; cbn [guard_op]; [by apply start_inv| |by apply tool_inv|by apply path_inv| |by apply settle_inv
    |by apply memory_inv|by apply lease_inv|by apply finish_inv|by apply fail_inv|by apply cancel_inv].
  - pose proof (active_then (mret tt) g Hi (λ _ H _, H)) as H. unfold check_deadline.
    unfold mbind, SM_bind in H. by destruct (active' g) as [[[]|e] g'].
  - pose proof (reserve_inv maximum_total g Hi) as H. unfold mbind, SM_bind. by destruct (reserve_tokens _ _ _ _ _ g) as [[?|?] ?].
Qed.

Lemma guard_run_inv ops g : guard_inv c g → guard_inv c (guard_run c observe terminate clock ops g).
Proof. revert g. induction ops as [|op ops IH]; intros g Hg; [done|]. apply (IH (guard_op c observe terminate clock op g).2). by apply guard_op_inv. Qed.

Lemma guard_new_inv : budgets_ok c → guard_inv c Guard_new.
Proof.
  intros (H1 & H2 & H3). constructor; try done.
  constructor; cbn; try done; try lia. constructor.
Qed.

(** A terminal attempt is never touched again. *)
Lemma terminal_op op g :
  terminal (gd_state g) = true → (guard_op c observe terminate clock op g).2 = g.
Proof.
  intros Ht. assert (gd_state g ≠ RUNNING ∧ gd_state g ≠ CREATED) as [Hr Hc] by (by destruct (gd_state g)).
  assert (active' g = (Raise (WorkerContractError "attempt is not running"), g)) as Ea.
  { unfold _active, sm_get, mbind, SM_bind. cbv beta iota. by rewrite (bool_decide_false _ Hr). }
  destruct op; cbn [guard_op];
    unfold authorize_tool, authorize_path, reserve_tokens, settle_tokens, check_memory, assert_lease, finish, fail, check_deadline;
    try (unfold mbind, SM_bind; rewrite Ea; reflexivity).
  - unfold start, sm_get, mbind, SM_bind. cbv beta iota. by rewrite (bool_decide_false _ Hc).
  - unfold cancel, sm_get, mbind, SM_bind. cbv beta iota. by rewrite (bool_decide_false _ Hr).
Qed.

Lemma terminal_run ops g :
  terminal (gd_state g) = true → guard_run c observe terminate clock ops g = g.
Proof.
  revert g. induction ops as [|op ops IH]; intros g Ht; [done|].
  change (guard_run c observe terminate clock ops (guard_op c observe terminate clock op g).2 = g).
  rewrite terminal_op by done. by apply IH.
Qed.

(** ** Operations that succeed *)
Lemma active_Ok {A} (body : SM Guard A) g a g' :
  guard_inv c g → (_ ← active'; body) g = (Ok a, g') → on_time g ∧ body (called [] g) = (Ok a, g').
Proof.
  intros Hi H. unfold mbind, SM_bind in H.
  destruct (active_cases g) as [[E Ht]|[(e & E & _)|(e & g1 & E & _)]]; [apply Hi|apply Hi|..]; rewrite E in H; [done..].
Qed.

Lemma violate_not_Ok {A} b f a g (x : A) g' : guard_acc c g → violate c observe terminate b f a g ≠ (Ok x, g').
Proof. intros Hg H. destruct (violate_cases (A := A) b f a g Hg) as (e & g1 & E & _). congruence. Qed.

Lemma emit_Ok name data g g' : emit' name data g = (Ok tt, g') → gd_state g' = gd_state g.
Proof. intros H. destruct (emit_cases name data g) as [(d & _ & E)|(e & g1 & E & _)]; [|congruence]. rewrite E in H. by injection H as <-. Qed.

Definition mediated (op : GuardOp) : bool := match op with OpStart | OpCancel => false | _ => true end.

Lemma mediated_Ok op g g' :
  guard_inv c g → mediated op = true → guard_op c observe terminate clock op g = (Ok tt, g') →
  on_time g ∧ gd_state g' = match op with OpFinish => CANDIDATE | _ => RUNNING end.
Proof.
  intros Hi Hm H. pose proof (inv_acc _ _ (inv_silent g Hi)) as Ha.
  assert (∀ A b f a (x : A) g', violate c observe terminate b f a (called [] g) = (Ok x, g') → False) as Hv
    by (intros A b f a x g1; by apply violate_not_Ok).
  destruct op; try done; cbn [guard_op] in H.
  - unfold check_deadline in H. assert ((_ ← active'; mret tt) g = (Ok tt, g')) as H' by (unfold mbind, SM_bind; by rewrite H).
    apply active_Ok in H' as [Ht E]; [|done]. split; [done|]. injection E as <-. apply Ht.
  - apply active_Ok in H as [Ht H]; [|done]. split; [done|]. revert H. sm_body. destruct (_ || _); [by intros ?%Hv|].
    destruct (_ <? _)%Z; [intros H; exfalso; eapply violate_not_Ok; [|exact H]; by apply acc_add_tool|].
    intros ->%emit_Ok. apply Ht.
  - apply active_Ok in H as [Ht H]; [|done]. split; [done|]. revert H. cbv zeta. destruct (negb _); [by intros ?%Hv|].
    destruct write; [sm_body; destruct (_ <? _)%Z; [intros H; exfalso; eapply violate_not_Ok; [|exact H]; by apply acc_add_write|]|];
      intros ->%emit_Ok; apply Ht.
  - apply sm_bind_Ok in H as (t & g1 & H & [= <-]). apply active_Ok in H as [Ht H]; [|done]. split; [done|].
    apply sm_bind_Ok in H as (n & g2 & E & H). injection E as E <-. apply sm_bind_Ok in H as (g2 & g3 & [= <- <-] & H).
    destruct (_ <? _)%Z; [by apply Hv in H|]. apply sm_bind_Ok in H as ([] & g2 & [= <-] & H).
    apply sm_bind_Ok in H as ([] & g2 & H & [= _ <-]). apply emit_Ok in H. rewrite H. apply Ht.
  - apply active_Ok in H as [Ht H]; [|done]. split; [done|]. revert H. sm_body. destruct (dget _ _) as [z|] eqn:Eg; [|by intros ?%Hv].
    destruct actual_total as [| |n| | | |]; try (by intros ?%Hv). destruct (n <? 0)%Z eqn:Ez; [by intros ?%Hv|]. destruct (z <? n)%Z.
    + intros H. exfalso. eapply violate_not_Ok; [|exact H]. apply Z.ltb_ge in Ez. exact (proj1 (acc_settle _ _ _ _ Ha Eg Ez)).
    + intros ->%emit_Ok. apply Ht.
  - apply active_Ok in H as [Ht H]; [|done]. split; [done|]. revert H. destruct (_integer _ _ _); [|by intros ?%Hv].
    destruct (_ <? _)%Z; [by intros ?%Hv|]. intros [= <-]. apply Ht.
  - apply active_Ok in H as [Ht H]; [|done]. split; [done|]. revert H.
    match goal with |- context [if ?b then _ else _] => destruct b end; [by intros ?%Hv|]. intros [= <-]. apply Ht.
  - apply active_Ok in H as [Ht H]; [|done]. split; [done|]. apply sm_bind_Ok in H as (g1 & g2 & [= <- <-] & H).
    destruct (negb _); [by apply Hv in H|]. apply sm_bind_Ok in H as ([] & g2 & _ & [= <-]). done.
  - apply active_Ok in H as [Ht H]; [|done]. exfalso.
    pose proof (violated_post (A := unit) boundary field action _ Ha) as Hp. by rewrite H in Hp.
Qed.
End guard_facts.

(** C9: The guard keeps every attempt within its contract.  Whatever the audit
    sink, the stop hook and the clock do, after any sequence of operations: while
    the attempt runs or is a candidate, the tokens spent and reserved, the tool
    calls and the file writes are within budget, and a candidate has no open
    reservation; in every state the log holds at most the allowed number of tool
    and write authorizations, each for a tool of the contract or a path it
    permits. *)
Theorem guard_within_contract c observe terminate clock ops :
  budgets_ok c →
  let g := guard_run c observe terminate clock ops Guard_new in
  (gd_state g = RUNNING ∨ gd_state g = CANDIDATE →
   0 <= gd_tokens g ∧ gd_tokens g + reserved g <= wc_token_budget c ∧
   gd_tool_calls g <= wc_max_tool_calls c ∧ gd_file_writes g <= wc_max_file_writes c)%Z ∧
  (gd_state g = CANDIDATE → gd_reservations g = []) ∧
  (count_events tool_event (gd_log g) <= wc_max_tool_calls c)%Z ∧
  (count_events write_event (gd_log g) <= wc_max_file_writes c)%Z ∧
  Forall (entry_ok c) (gd_log g).
Proof.
  intros Hb g. pose proof (guard_run_inv c observe terminate clock ops _ (guard_new_inv c Hb)) as Hi. fold g in Hi.
  destruct Hi as [[] _ Hr Hc].
  split_and!; try done.
  - intros [Hs|Hs]; [destruct (Hr Hs) as [(? & ? & ?) _]|destruct (Hc Hs) as [(? & ? & ?) _]]; done.
  - intros Hs. by destruct (Hc Hs).
Qed.

(** Attempts end once, and only work done in time counts.  After any
    sequence of operations, an ended attempt is not changed by any further
    operation, which fails unless it is a cancellation; a mediated operation
    that succeeds read a clock that is not before the start of the attempt and
    not at its deadline, and leaves the attempt running, or a candidate when it
    is [finish]. *)
Theorem guard_lifecycle c observe terminate clock ops op :
  budgets_ok c →
  let g := guard_run c observe terminate clock ops Guard_new in
  let r := guard_op c observe terminate clock op g in
  (terminal (gd_state g) = true → r.2 = g ∧ (is_ok r.1 = true → op = OpCancel)) ∧
  (mediated op = true → is_ok r.1 = true →
   on_time c clock g ∧ gd_state r.2 = match op with OpFinish => CANDIDATE | _ => RUNNING end).
Proof.
  intros Hb g r. pose proof (guard_run_inv c observe terminate clock ops _ (guard_new_inv c Hb)) as Hi. fold g in Hi.
  assert (mediated op = true → is_ok r.1 = true → on_time c clock g ∧ gd_state r.2 = match op with OpFinish => CANDIDATE | _ => RUNNING end) as Hm.
  { intros Hm Ho. subst r. destruct (guard_op c observe terminate clock op g) as [[[]|e] g'] eqn:E; [|done].
    eapply mediated_Ok; [exact Hi|done|exact E]. }
  split; [|exact Hm]. intros Ht. split; [by apply terminal_op|]. intros Ho. destruct op; try done.
  all: try (destruct (Hm eq_refl Ho) as [[Hr _] _]; rewrite Hr in Ht; done).
  exfalso. subst r. assert (gd_state g ≠ CREATED) as Hn by (by destruct (gd_state g)).
  cbn in Ho. unfold start, sm_get, mbind, SM_bind in Ho. cbv beta iota in Ho. by rewrite (bool_decide_false _ Hn) in Ho.
Qed.

(** ** Witnesses: an attempt that writes one file and becomes a candidate *)
Definition demo_contract : WorkerContract :=
  mkContract (str "task.a") (str "w1") (str "swarm") (replicate 64 48%N) (str "att1") (str "lease1") 1 (replicate 40 48%N)
    (str "/ws") [str "in/"] [str "out/"] [] [str "a"] [str "ok"] [] [str "edit"] [] 100 (float_of_Z 60) 2 1 64 None (str "local").

Definition demo_ops : list GuardOp :=
  [OpStart; OpTool (str "edit"); OpReserve (JInt 40); OpPath (str "out/x.py") true;
   OpSettle (ticket_name 1) (JInt 30); OpFinish; OpTool (str "edit")].

Lemma guard_within_contract_witness :
  gd_state (guard_run demo_contract (λ _ _, Ok tt) (λ _, Ok tt) (λ n, Ok (JInt (Z.of_nat n))) demo_ops Guard_new) = CANDIDATE ∧
  gd_reservations (guard_run demo_contract (λ _ _, Ok tt) (λ _, Ok tt) (λ n, Ok (JInt (Z.of_nat n))) demo_ops Guard_new) = [].
Proof.
  assert (gd_state (guard_run demo_contract (λ _ _, Ok tt) (λ _, Ok tt) (λ n, Ok (JInt (Z.of_nat n))) demo_ops Guard_new) = CANDIDATE) as H
    by (vm_compute; reflexivity).
  split; [exact H|]. refine (proj1 (proj2 (guard_within_contract demo_contract _ _ _ demo_ops _)) H). repeat split; discriminate.
Defined.

Lemma guard_lifecycle_witness :
  (guard_op demo_contract (λ _ _, Ok tt) (λ _, Ok tt) (λ n, Ok (JInt (Z.of_nat n))) (OpTool (str "edit"))
     (guard_run demo_contract (λ _ _, Ok tt) (λ _, Ok tt) (λ n, Ok (JInt (Z.of_nat n))) demo_ops Guard_new)).2
  = guard_run demo_contract (λ _ _, Ok tt) (λ _, Ok tt) (λ n, Ok (JInt (Z.of_nat n))) demo_ops Guard_new.
Proof.
  refine (proj1 (proj1 (guard_lifecycle demo_contract _ _ _ demo_ops (OpTool (str "edit")) _) _)).
  - repeat split; discriminate.
  - vm_compute. reflexivity.
Defined.
