(* ===== verification/EvidenceReceipts.v ===== *)
(** * Worker receipts (residual/factory/evidence_receipts.py)

    Verification decisions, artifact bindings, the receipts a Station signs, and
    the local check of a receipt's signature.  Ed25519 is a parameter: it is the
    [cryptography] package's.  A receipt read from JSON is read at the types the
    issuer writes: a binding, decision pair or flag of another type is an
    invalid receipt, like every other malformed field. *)

From Stdlib Require Import ZArith NArith Lia.
From S2P Require Import Prelude PyData Sha256 PyFloat Json JsonFacts Core CoreFacts Storage Builtins Graph JsonPlain Plan WorkerContract.

Definition RECEIPT_SCHEMA : string := "factory-worker-receipt-v1".
Definition SIGNATURE_DOMAIN : pystr := str "residual.factory.worker-receipt.v1" ++ [10%N].

Definition EvidenceError (msg : string) : exn := ValueError ("EvidenceError: " +:+ msg).
(** [except EvidenceError] *)
Definition is_EvidenceError (e : exn) : bool :=
  match e with ValueError m => String.prefix "EvidenceError: " m | _ => false end.

Definition _require_hash (value : json) (name : string) : res pystr :=
  match value with
  | JStr s => when negb (lower_hex 64 s) raise EvidenceError name;; Ok s
  | _ => Raise (EvidenceError name)
  end.

(** Python's order on pairs of strings, and of a string and a bool. *)
Definition req_pair_leb (x y : pystr * bool) : bool :=
  if bool_decide (x.1 = y.1) then implb x.2 y.2 else str_leb x.1 y.1.
Definition check_pair_leb (x y : pystr * pystr) : bool :=
  if bool_decide (x.1 = y.1) then str_leb x.2 y.2 else str_leb x.1 y.1.

(** ** Decisions *)
Record VerificationDecision : Type := mkDecision {
  vd_requirements_met : list (pystr * bool);
  vd_results : list (pystr * pystr);
  vd_verdict : pystr;
  vd_verifier_identity : pystr;
  vd_verifier_revision : pystr
}.

Definition VerificationDecision_init (d : VerificationDecision) : res VerificationDecision :=
  when negb (bool_decide (vd_verdict d ∈ str <$> ["pass"; "fail"; "unknown"])) raise EvidenceError "invalid verification verdict";;
  when blank (vd_verifier_identity d) raise EvidenceError "verifier identity required";;
  _ ← _require_hash (JStr (vd_verifier_revision d)) "verifier revision";
  let reqs := sort_by req_pair_leb (vd_requirements_met d) in
  let checks := sort_by check_pair_leb (vd_results d) in
  when negb (bool_decide (NoDup reqs.*1)) || negb (bool_decide (NoDup checks.*1))
  raise EvidenceError "duplicate verification keys";;
  when existsb (λ kv, negb (bool_decide (kv.2 ∈ str <$> ["pass"; "fail"; "unknown"; "skipped"]))) checks
  raise EvidenceError "invalid check result";;
  Ok (mkDecision reqs checks (vd_verdict d) (vd_verifier_identity d) (vd_verifier_revision d)).

(** ** Artifacts *)
Record ArtifactBinding : Type := mkBinding {
  ab_path : pystr;
  ab_sha256 : option pystr;
  ab_size_bytes : Z;
  ab_deleted : bool
}.

#[export] Instance ArtifactBinding_eq_dec : EqDecision ArtifactBinding.
Proof. solve_decision. Defined.

Definition artifact_path_ok (path : pystr) : bool :=
  match path with
  | [] => false
  | c :: _ => negb (c =? 47)%N && negb (bool_decide (str ".." ∈ split_on 47 path))
  end.

Definition ArtifactBinding_init (a : ArtifactBinding) : res ArtifactBinding :=
  when negb (artifact_path_ok (ab_path a)) raise EvidenceError "invalid artifact path";;
  if ab_deleted a then
    when negb (bool_decide (ab_sha256 a = None)) || negb (ab_size_bytes a =? 0)%Z
    raise EvidenceError "deleted artifact cannot carry bytes";;
    Ok a
  else
    _ ← _require_hash (json_opt_str (ab_sha256 a)) "artifact hash";
    when (ab_size_bytes a <? 0)%Z raise EvidenceError "invalid artifact size";;
    Ok a.

Definition binding_dict (a : ArtifactBinding) : json :=
  jobj [("path", JStr (ab_path a)); ("sha256", json_opt_str (ab_sha256 a));
        ("size_bytes", JInt (ab_size_bytes a)); ("deleted", JBool (ab_deleted a))].

Definition binding_leb (x y : ArtifactBinding) : bool := str_leb (ab_path x) (ab_path y).

(** ** Receipts *)
Record WorkerReceipt : Type := mkReceipt {
  wr_receipt_id : pystr;
  wr_execution_plan_hash : pystr;
  wr_task_id : pystr;
  wr_worker_id : pystr;
  wr_swarm_id : pystr;
  wr_attempt_id : pystr;
  wr_engine_name : pystr;
  wr_engine_version : pystr;
  wr_input_commit : pystr;
  wr_output_commit : pystr;
  wr_contract_hash : pystr;
  wr_artifacts : list ArtifactBinding;
  wr_requirements_met : list (pystr * bool);
  wr_verification_results : list (pystr * pystr);
  wr_overall_verdict : pystr;
  wr_verifier_identity : pystr;
  wr_verifier_revision : pystr;
  wr_parent_receipts : list pystr;
  wr_supersedes : option pystr;
  wr_issued_at_ns : Z;
  wr_station_key_id : pystr;
  wr_station_signature : pystr;
  wr_schema_version : pystr
}.

#[export] Instance WorkerReceipt_eq_dec : EqDecision WorkerReceipt.
Proof. solve_decision. Defined.

Definition identity_fields (r : WorkerReceipt) : list pystr :=
  [wr_receipt_id r; wr_task_id r; wr_worker_id r; wr_swarm_id r; wr_attempt_id r; wr_engine_name r; wr_engine_version r;
   wr_input_commit r; wr_output_commit r; wr_verifier_identity r; wr_station_key_id r; wr_station_signature r].

Definition WorkerReceipt_init (r : WorkerReceipt) : res WorkerReceipt :=
  when negb (bool_decide (wr_schema_version r = str RECEIPT_SCHEMA)) raise EvidenceError "unsupported receipt schema";;
  _ ← _require_hash (JStr (wr_execution_plan_hash r)) "execution_plan_hash";
  _ ← _require_hash (JStr (wr_contract_hash r)) "contract_hash";
  _ ← _require_hash (JStr (wr_verifier_revision r)) "verifier_revision";
  _ ← match wr_supersedes r with Some h => _ ← _require_hash (JStr h) "supersedes"; Ok tt | None => Ok tt end;
  _ ← for_all (wr_parent_receipts r) (λ p, _ ← _require_hash (JStr p) "parent receipt"; Ok tt);
  when negb (bool_decide (NoDup (wr_parent_receipts r))) raise EvidenceError "duplicate parent receipt";;
  when negb (bool_decide (wr_overall_verdict r = str "pass")) raise EvidenceError "only passing decisions can issue WorkerReceipt";;
  when (wr_issued_at_ns r <=? 0)%Z raise EvidenceError "receipt issued_at_ns required";;
  when existsb (λ s, bool_decide (s = [])) (identity_fields r) raise EvidenceError "receipt identity fields required";;
  let arts := sort_by binding_leb (wr_artifacts r) in
  when negb (bool_decide (NoDup (ab_path <$> arts))) raise EvidenceError "duplicate receipt artifact path";;
  Ok (mkReceipt (wr_receipt_id r) (wr_execution_plan_hash r) (wr_task_id r) (wr_worker_id r) (wr_swarm_id r) (wr_attempt_id r)
        (wr_engine_name r) (wr_engine_version r) (wr_input_commit r) (wr_output_commit r) (wr_contract_hash r) arts
        (sort_by req_pair_leb (wr_requirements_met r)) (sort_by check_pair_leb (wr_verification_results r))
        (wr_overall_verdict r) (wr_verifier_identity r) (wr_verifier_revision r) (sort_str (wr_parent_receipts r))
        (wr_supersedes r) (wr_issued_at_ns r) (wr_station_key_id r) (wr_station_signature r) (wr_schema_version r)).

Definition req_pair_json (kv : pystr * bool) : json := JList [JStr kv.1; JBool kv.2].
Definition check_pair_json (kv : pystr * pystr) : json := JList [JStr kv.1; JStr kv.2].

Definition unsigned_payload (r : WorkerReceipt) : list (string * json) :=
  [("schema_version", JStr (wr_schema_version r)); ("receipt_id", JStr (wr_receipt_id r));
   ("execution_plan_hash", JStr (wr_execution_plan_hash r)); ("task_id", JStr (wr_task_id r));
   ("worker_id", JStr (wr_worker_id r)); ("swarm_id", JStr (wr_swarm_id r)); ("attempt_id", JStr (wr_attempt_id r));
   ("engine_name", JStr (wr_engine_name r)); ("engine_version", JStr (wr_engine_version r));
   ("input_commit", JStr (wr_input_commit r)); ("output_commit", JStr (wr_output_commit r));
   ("contract_hash", JStr (wr_contract_hash r)); ("artifacts", JList (binding_dict <$> wr_artifacts r));
   ("requirements_met", JList (req_pair_json <$> wr_requirements_met r));
   ("verification_results", JList (check_pair_json <$> wr_verification_results r));
   ("overall_verdict", JStr (wr_overall_verdict r)); ("verifier_identity", JStr (wr_verifier_identity r));
   ("verifier_revision", JStr (wr_verifier_revision r)); ("parent_receipts", json_strs (wr_parent_receipts r));
   ("supersedes", json_opt_str (wr_supersedes r)); ("issued_at_ns", JInt (wr_issued_at_ns r));
   ("station_key_id", JStr (wr_station_key_id r))].

Definition _hash (value : json) : res pystr := digest value.
Definition receipt_hash (r : WorkerReceipt) : res pystr := _hash (jobj (unsigned_payload r)).

Definition receipt_dict (r : WorkerReceipt) : res json :=
  h ← receipt_hash r;
  Ok (jobj (unsigned_payload r ++ [("receipt_hash", JStr h); ("station_signature", JStr (wr_station_signature r))])).

(** Reading fields; every failure is the same [EvidenceError] of the caller. *)
Definition bad_field {A} : res A := Raise (TypeError "invalid receipt field").
Definition get_str (d : dict json) (k : string) : res pystr :=
  match dget (str k) d with Some (JStr s) => Ok s | _ => bad_field end.
Definition get_list {A} (f : json → res A) (d : dict json) (k : string) : res (list A) :=
  match dget (str k) d with Some (JList l) => mapM f l | _ => bad_field end.
Definition str_default (d : dict json) (k : string) (v : pystr) : res pystr :=
  match default (JStr v) (dget (str k) d) with JStr s => Ok s | _ => bad_field end.

Definition req_pair_of (v : json) : res (pystr * bool) :=
  match v with JList [JStr k; JBool b] => Ok (k, b) | _ => bad_field end.
Definition check_pair_of (v : json) : res (pystr * pystr) :=
  match v with JList [JStr k; JStr s] => Ok (k, s) | _ => bad_field end.
Definition opt_str_of (v : json) : res (option pystr) :=
  match v with JNull => Ok None | JStr s => Ok (Some s) | _ => bad_field end.
Definition str_of (v : json) : res pystr := match v with JStr s => Ok s | _ => bad_field end.

Definition binding_of (v : json) : res ArtifactBinding :=
  match v with
  | JDict d =>
      when unknown_keys d ["path"; "sha256"; "size_bytes"; "deleted"] raise TypeError "unexpected keyword argument";;
      path ← get_str d "path";
      sha ← (v ← dgetitem (str "sha256") d; opt_str_of v);
      size ← match dget (str "size_bytes") d with Some (JInt n) => Ok n | _ => bad_field end;
      deleted ← match default (JBool false) (dget (str "deleted") d) with JBool b => Ok b | _ => bad_field end;
      ArtifactBinding_init (mkBinding path sha size deleted)
  | _ => bad_field
  end.

Definition receipt_keys : list string :=
  ["receipt_id"; "execution_plan_hash"; "task_id"; "worker_id"; "swarm_id"; "attempt_id"; "engine_name"; "engine_version";
   "input_commit"; "output_commit"; "contract_hash"; "artifacts"; "requirements_met"; "verification_results";
   "overall_verdict"; "verifier_identity"; "verifier_revision"; "parent_receipts"; "supersedes"; "issued_at_ns";
   "station_key_id"; "station_signature"; "schema_version"].

(** The body of the [try]: the converted fields passed to the constructor. *)
Definition receipt_of (d : dict json) : res WorkerReceipt :=
  artifacts ← get_list binding_of d "artifacts";
  met ← get_list req_pair_of d "requirements_met";
  results ← get_list check_pair_of d "verification_results";
  parents ← match default (JList []) (dget (str "parent_receipts") d) with JList l => mapM str_of l | _ => bad_field end;
  when unknown_keys d receipt_keys raise TypeError "unexpected keyword argument";;
  receipt_id ← get_str d "receipt_id";
  plan ← get_str d "execution_plan_hash";
  task ← get_str d "task_id";
  worker ← get_str d "worker_id";
  swarm ← get_str d "swarm_id";
  attempt ← get_str d "attempt_id";
  engine ← get_str d "engine_name";
  version ← get_str d "engine_version";
  input ← get_str d "input_commit";
  output ← get_str d "output_commit";
  contract ← get_str d "contract_hash";
  verdict ← get_str d "overall_verdict";
  verifier ← get_str d "verifier_identity";
  revision ← get_str d "verifier_revision";
  supersedes ← opt_str_of (default JNull (dget (str "supersedes") d));
  issued ← match default (JInt 0) (dget (str "issued_at_ns") d) with JInt n => Ok n | _ => bad_field end;
  key ← str_default d "station_key_id" [];
  signature ← str_default d "station_signature" [];
  schema ← str_default d "schema_version" (str RECEIPT_SCHEMA);
  WorkerReceipt_init (mkReceipt receipt_id plan task worker swarm attempt engine version input output contract artifacts met
    results verdict verifier revision parents supersedes issued key signature schema).

Definition receipt_from_dict (value : json) : res WorkerReceipt :=
  match value with
  | JDict _ =>
      t ← canonical value;
      v ← strict_json t;
      match v with
      | JDict d =>
          let expected := default JNull (dget (str "receipt_hash") d) in
          match receipt_of (ddel (str "receipt_hash") d) with
          | Raise _ => Raise (EvidenceError "invalid receipt")
          | Ok r =>
              h ← receipt_hash r;
              when negb (py_eq expected (JStr h)) raise EvidenceError "receipt hash mismatch";;
              Ok r
          end
      | _ => Raise (EvidenceError "receipt must be an object")
      end
  | _ => Raise (EvidenceError "receipt must be an object")
  end.

(** ** Signatures *)
(** [bytes.fromhex]: pairs of hexadecimal digits, ASCII blanks between bytes. *)
Definition is_ascii_space (c : N) : bool := in_range 9 13 c || (c =? 32)%N.
Fixpoint fromhex (s : pystr) : option (list N) :=
  match s with
  | [] => Some []
  | a :: s' =>
      if is_ascii_space a then fromhex s'
      else match s' with
           | b :: s'' =>
               match hex_value a, hex_value b with
               | Some x, Some y => (λ l, (16 * x + y)%N :: l) <$> fromhex s''
               | _, _ => None
               end
           | [] => None
           end
  end.

Section station.
(** [Ed25519PublicKey.from_public_bytes(key).verify(signature, message)] returns. *)
Context (ed25519_verify : list N → list N → list N → bool).

Definition StationIdentity_verify (r : WorkerReceipt) (public_key : list N) : res bool :=
  if negb (length public_key =? 32)%nat then Ok false
  else if negb (bool_decide (sha256_hex public_key = wr_station_key_id r)) then Ok false
  else
    match fromhex (wr_station_signature r) with
    | None => Ok false
    | Some signature =>
        match receipt_hash r with
        | Ok h => Ok (ed25519_verify public_key signature (SIGNATURE_DOMAIN ++ h))
        | Raise e => if is_ValueError e then Ok false else Raise e
        end
    end.
End station.

Definition sign (ed25519_sign : list N → list N) (payload_hash : pystr) : res pystr :=
  h ← _require_hash (JStr payload_hash) "receipt hash";
  Ok (mjoin ((λ b, [hex_digit (b / 16); hex_digit (b mod 16)]) <$> ed25519_sign (SIGNATURE_DOMAIN ++ h))).
