(* ===== verification/ReceiptFacts.v ===== *)
(** * Facts about worker receipts: well-formedness and the wire round trip *)

From Stdlib Require Import ZArith NArith Lia.
From S2P Require Import Prelude PyData Sha256 PyFloat Json JsonFacts Core CoreFacts Storage Builtins Graph JsonPlain Plan PlanFacts WorkerContract EvidenceReceipts.

(** ** Lookups in a value read back *)
Lemma elem_of_sublist {A} (x : A) l k : x ∈ l → sublist l k → x ∈ k.
Proof. intros Hx Hs. apply sublist_submseteq in Hs. by eapply elem_of_submseteq. Qed.

Lemma unknown_keys_perm (d e : dict json) allowed : d.*1 ≡ₚ e.*1 → unknown_keys d allowed = unknown_keys e allowed.
Proof.
  intros H. unfold unknown_keys. apply eq_bool_prop_intro. rewrite !Is_true_true, !existsb_exists.
  split; intros (k & Hk & Hn); exists k; (split; [|done]); apply list_elem_of_In; apply list_elem_of_In in Hk;
    [by rewrite <- H|by rewrite H].
Qed.

(** ** Well-formed receipts *)
Definition binding_ok (a : ArtifactBinding) : Prop := ArtifactBinding_init a = Ok a.

Record receipt_ok (r : WorkerReceipt) : Prop := {
  wok_init : WorkerReceipt_init r = Ok r;
  wok_artifacts : Forall binding_ok (wr_artifacts r)
}.

Lemma ArtifactBinding_init_ok a b : ArtifactBinding_init a = Ok b → b = a ∧ binding_ok a.
Proof.
  unfold binding_ok. intros H. assert (b = a) as ->; [|done]. unfold ArtifactBinding_init in H.
  destruct (negb _); [done|]. destruct (ab_deleted a); [destruct (_ || _); [done|]; by injection H|].
  apply bind_Ok in H as (? & _ & H). destruct (_ <? 0)%Z; [done|]. by injection H.
Qed.

Lemma req_pair_leb_total x y : req_pair_leb x y = true ∨ req_pair_leb y x = true.
Proof.
  destruct x as [k b], y as [j e]. unfold req_pair_leb. cbn. destruct (decide (k = j)) as [->|Hn].
  - rewrite bool_decide_true by done. destruct b, e; auto.
  - rewrite !bool_decide_false by done. apply str_leb_total.
Qed.
Lemma check_pair_leb_total x y : check_pair_leb x y = true ∨ check_pair_leb y x = true.
Proof.
  destruct x as [k b], y as [j e]. unfold check_pair_leb. cbn. destruct (decide (k = j)) as [->|Hn].
  - rewrite bool_decide_true by done. apply str_leb_total.
  - rewrite !bool_decide_false by done. apply str_leb_total.
Qed.

(** Lexicographic orders on pairs are transitive. *)
Lemma lex_trans {B} (le : B → B → bool) (x y z : pystr * B) :
  (∀ a b c, le a b = true → le b c = true → le a c = true) →
  (if bool_decide (x.1 = y.1) then le x.2 y.2 else str_leb x.1 y.1) = true →
  (if bool_decide (y.1 = z.1) then le y.2 z.2 else str_leb y.1 z.1) = true →
  (if bool_decide (x.1 = z.1) then le x.2 z.2 else str_leb x.1 z.1) = true.
Proof.
  intros Ht. destruct x as [k a], y as [j b], z as [i d]; cbn. repeat case_bool_decide; subst; try congruence; eauto.
  - intros Hij Hji. exfalso. assert (i = j) by (by apply str_leb_antisym). done.
  - intros Hij Hji. by eapply str_leb_trans.
Qed.

Lemma req_pair_leb_trans x y z : req_pair_leb x y = true → req_pair_leb y z = true → req_pair_leb x z = true.
Proof. apply lex_trans. by intros [] [] []. Qed.
Lemma check_pair_leb_trans x y z : check_pair_leb x y = true → check_pair_leb y z = true → check_pair_leb x z = true.
Proof. apply lex_trans. apply str_leb_trans. Qed.
Lemma binding_leb_total x y : binding_leb x y = true ∨ binding_leb y x = true.
Proof. apply str_leb_total. Qed.
Lemma binding_leb_trans x y z : binding_leb x y = true → binding_leb y z = true → binding_leb x z = true.
Proof. apply str_leb_trans. Qed.

(** The constructor normalizes: its result is a fixed point of it. *)
Definition normal (r : WorkerReceipt) : WorkerReceipt :=
  mkReceipt (wr_receipt_id r) (wr_execution_plan_hash r) (wr_task_id r) (wr_worker_id r) (wr_swarm_id r) (wr_attempt_id r)
    (wr_engine_name r) (wr_engine_version r) (wr_input_commit r) (wr_output_commit r) (wr_contract_hash r)
    (sort_by binding_leb (wr_artifacts r))
    (sort_by req_pair_leb (wr_requirements_met r)) (sort_by check_pair_leb (wr_verification_results r))
    (wr_overall_verdict r) (wr_verifier_identity r) (wr_verifier_revision r) (sort_str (wr_parent_receipts r))
    (wr_supersedes r) (wr_issued_at_ns r) (wr_station_key_id r) (wr_station_signature r) (wr_schema_version r).

Lemma for_all_perm {A} (f : A → res unit) l k : l ≡ₚ k → for_all l f = Ok tt → for_all k f = Ok tt.
Proof. intros H. rewrite !for_all_Ok. by rewrite H. Qed.

Ltac init_step H :=
  match type of H with
  | (if ?b then Raise _ else _) = Ok _ => let E := fresh "G" in destruct b eqn:E; [discriminate H|]
  | (_ ≫= _) = Ok _ => let x := fresh "x" in let E := fresh "B" in apply bind_Ok in H as (x & E & H)
  end.

Lemma WorkerReceipt_init_Ok r r' : WorkerReceipt_init r = Ok r' → r' = normal r ∧ WorkerReceipt_init r' = Ok r'.
Proof.
  intros H. unfold WorkerReceipt_init in H. cbv zeta in H. repeat init_step H. injection H as <-.
  split; [reflexivity|]. unfold WorkerReceipt_init. cbv zeta.
  cbn [wr_schema_version wr_execution_plan_hash wr_contract_hash wr_verifier_revision wr_supersedes wr_parent_receipts
       wr_overall_verdict wr_issued_at_ns wr_artifacts wr_requirements_met wr_verification_results
       wr_receipt_id wr_task_id wr_worker_id wr_swarm_id wr_attempt_id wr_engine_name wr_engine_version
       wr_input_commit wr_output_commit wr_verifier_identity wr_station_key_id wr_station_signature].
  change (identity_fields _) with (identity_fields r).
  rewrite G, B, B0, B1, B2. cbn [mbind res_bind]. destruct x2, x3.
  rewrite (for_all_perm _ _ _ (symmetry (sort_by_perm str_leb (wr_parent_receipts r))) B3). cbn [mbind res_bind].
  rewrite (bool_decide_ext (NoDup (sort_str (wr_parent_receipts r))) (NoDup (wr_parent_receipts r))) by (by rewrite sort_by_perm).
  rewrite G0, G1, G2, G3.
  rewrite (sort_by_idemp binding_leb binding_leb_total binding_leb_trans), G4.
  rewrite (sort_by_idemp req_pair_leb req_pair_leb_total req_pair_leb_trans).
  rewrite (sort_by_idemp check_pair_leb check_pair_leb_total check_pair_leb_trans).
  by rewrite (sort_by_idemp str_leb str_leb_total str_leb_trans).
Qed.

(** ** The wire form *)
Lemma plain_binding a : plain (binding_dict a).
Proof. plain_obj. Qed.
Lemma plain_req_pair kv : plain (req_pair_json kv).
Proof. apply plain_list. repeat constructor. Qed.
Lemma plain_check_pair kv : plain (check_pair_json kv).
Proof. apply plain_list. repeat constructor. Qed.

Definition wire (r : WorkerReceipt) (h : pystr) : list (string * json) :=
  unsigned_payload r ++ [("receipt_hash", JStr h); ("station_signature", JStr (wr_station_signature r))].

Lemma plain_unsigned r : plain (jobj (unsigned_payload r)).
Proof. plain_obj; apply plain_map; [apply plain_binding|apply plain_req_pair|apply plain_check_pair]. Qed.

Lemma plain_wire r h : plain (jobj (wire r h)).
Proof. unfold wire, unsigned_payload. cbn [app]. plain_obj; apply plain_map; [apply plain_binding|apply plain_req_pair|apply plain_check_pair]. Qed.

Lemma binding_of_dict a : binding_ok a → binding_of (sort_json (binding_dict a)) = Ok a.
Proof.
  intros Ha. transitivity (sha ← opt_str_of (sort_json (json_opt_str (ab_sha256 a)));
    ArtifactBinding_init (mkBinding (ab_path a) sha (ab_size_bytes a) (ab_deleted a))); [reflexivity|].
  rewrite sort_json_opt_str. destruct a as [p [s|] z b]; exact Ha.
Qed.

Lemma pairs_of {A} (f : json → res A) (g : A → json) l :
  (∀ x, f (sort_json (g x)) = Ok x) → mapM f (sort_json <$> (g <$> l)) = Ok l.
Proof. intros H. apply (mapM_items f g (λ _, True)); [auto|]. by apply Forall_true. Qed.

Lemma strs_of l : mapM str_of (JStr <$> l) = Ok l.
Proof. apply mapM_res_Ok. induction l; constructor; done. Qed.

(** [receipt_of] reads its argument through lookups only. *)
Lemma receipt_of_ext d e :
  (∀ k, k ∈ receipt_keys → dget (str k) d = dget (str k) e) → unknown_keys d receipt_keys = unknown_keys e receipt_keys →
  receipt_of d = receipt_of e.
Proof.
  intros H Hu. unfold receipt_of, get_list, get_str, str_default.
  assert (∀ k, bool_decide (k ∈ receipt_keys) = true → dget (str k) d = dget (str k) e) as H'
    by (intros k Hk%bool_decide_eq_true; by apply H).
  rewrite !(H' "artifacts"), !(H' "requirements_met"), !(H' "verification_results"), !(H' "parent_receipts"), Hu,
    !(H' "receipt_id"), !(H' "execution_plan_hash"), !(H' "task_id"), !(H' "worker_id"), !(H' "swarm_id"), !(H' "attempt_id"),
    !(H' "engine_name"), !(H' "engine_version"), !(H' "input_commit"), !(H' "output_commit"), !(H' "contract_hash"),
    !(H' "overall_verdict"), !(H' "verifier_identity"), !(H' "verifier_revision"), !(H' "supersedes"), !(H' "issued_at_ns"),
    !(H' "station_key_id"), !(H' "station_signature"), !(H' "schema_version") by (vm_compute; reflexivity).
  reflexivity.
Qed.

(** The fields of a receipt without its hash, with the keys of inner objects in
    order. *)
Definition fields (r : WorkerReceipt) : dict json :=
  (λ kv : string * json, (str kv.1, sort_json kv.2)) <$> (unsigned_payload r ++ [("station_signature", JStr (wr_station_signature r))]).

Lemma receipt_of_fields r : receipt_ok r → receipt_of (fields r) = Ok r.
Proof.
  intros [Hi Ha].
  transitivity (artifacts ← mapM binding_of (sort_json <$> (binding_dict <$> wr_artifacts r));
    met ← mapM req_pair_of (sort_json <$> (req_pair_json <$> wr_requirements_met r));
    results ← mapM check_pair_of (sort_json <$> (check_pair_json <$> wr_verification_results r));
    parents ← match sort_json (json_strs (wr_parent_receipts r)) with JList l => mapM str_of l | _ => bad_field end;
    supersedes ← opt_str_of (sort_json (json_opt_str (wr_supersedes r)));
    WorkerReceipt_init (mkReceipt (wr_receipt_id r) (wr_execution_plan_hash r) (wr_task_id r) (wr_worker_id r) (wr_swarm_id r)
      (wr_attempt_id r) (wr_engine_name r) (wr_engine_version r) (wr_input_commit r) (wr_output_commit r) (wr_contract_hash r)
      artifacts met results (wr_overall_verdict r) (wr_verifier_identity r) (wr_verifier_revision r) parents supersedes
      (wr_issued_at_ns r) (wr_station_key_id r) (wr_station_signature r) (wr_schema_version r))); [reflexivity|].
  rewrite (mapM_items binding_of binding_dict binding_ok _ binding_of_dict Ha).
  rewrite (pairs_of req_pair_of req_pair_json), (pairs_of check_pair_of check_pair_json) by (by intros []).
  rewrite sort_json_strs, sort_json_opt_str. cbn [mbind res_bind json_strs]. rewrite strs_of. cbn [mbind res_bind].
  assert (opt_str_of (json_opt_str (wr_supersedes r)) = Ok (wr_supersedes r)) as -> by (by destruct (wr_supersedes r)).
  cbn [mbind res_bind]. destruct r. exact Hi.
Qed.

Lemma wire_keys r h s : s ∈ (wire r h).*1 → str s ≠ str "receipt_hash" → s ∈ receipt_keys.
Proof.
  intros Hs Hne. change (wire r h).*1 with (wire r []).*1 in Hs. assert (s ≠ "receipt_hash") as Hn by congruence. clear Hne.
  revert s Hs Hn. apply (proj1 (Forall_forall (λ s, s ≠ "receipt_hash" → s ∈ receipt_keys) _)). unfold wire, unsigned_payload. cbn [app fmap list_fmap fst].
  repeat (apply Forall_cons; split; [intros Hn; first [by apply (bool_decide_eq_true_1 _); vm_compute|done]|]). by apply Forall_nil.
Qed.

Lemma receipt_from_dict_wire r h t :
  receipt_ok r → receipt_hash r = Ok h → canonical (jobj (wire r h)) = Ok t →
  receipt_from_dict (sort_json (jobj (wire r h))) = Ok r.
Proof.
  intros Hr Hh Ht. pose proof (plain_read _ _ (plain_wire r h) Ht) as Hs.
  unfold receipt_from_dict. pose proof (canonical_sort_json _ _ Ht) as Hc.
  set (D := ((λ kv : string * json, (str kv.1, kv.2)) <$> wire r h) : dict json).
  assert (wf_dict D) as HD.
  { apply (bool_decide_eq_true_1 (NoDup D.*1)). subst D. reflexivity. }
  set (E := sort_by key_leb ((λ kv : pystr * json, (kv.1, sort_json kv.2)) <$> D)).
  assert (sort_json (jobj (wire r h)) = JDict E) as ES by reflexivity. rewrite ES in *. cbn [mbind res_bind].
  rewrite Hc. cbn [mbind res_bind]. rewrite Hs. cbn [mbind res_bind].
  assert (wf_dict E) as HE.
  { unfold wf_dict, E. rewrite sort_by_perm, <- list_fmap_compose. exact HD. }
  assert (dget (str "receipt_hash") E = Some (JStr h)) as -> by (unfold E; rewrite dget_sort_fields by done; reflexivity).
  cbn [default]. assert (receipt_of (ddel (str "receipt_hash") E) = Ok r) as ->.
  { rewrite <- (receipt_of_fields r Hr). apply receipt_of_ext.
    - intros k Hk. rewrite dget_ddel_ne.
      + unfold E. rewrite dget_sort_fields by done. revert k Hk.
        apply (proj1 (Forall_forall (λ k, sort_json <$> dget (str k) D = dget (str k) (fields r)) _)). repeat (apply Forall_cons; split; [reflexivity|]). by apply Forall_nil.
      + intros Heq. apply (inj str) in Heq. subst. apply (bool_decide_eq_true_2 _) in Hk. vm_compute in Hk. discriminate Hk.
    - transitivity false; [|reflexivity].
      unfold unknown_keys. apply existsb_false. intros k Hk. apply negb_false_iff, bool_decide_eq_true.
      assert (k ≠ str "receipt_hash") as Hne.
      { intros ->. revert Hk. apply dget_None. by apply dget_ddel_eq. }
      pose proof (elem_of_sublist _ _ _ Hk (dkeys_ddel_sublist _ _)) as Hk1. clear Hk. rename Hk1 into Hk. unfold E in Hk. rewrite sort_by_perm, <- list_fmap_compose in Hk.
      assert (k ∈ str <$> (wire r h).*1) as Hk' by (rewrite <- list_fmap_compose; exact Hk).
      apply list_elem_of_fmap in Hk' as (s & -> & Hs'). apply list_elem_of_fmap_2. by eapply wire_keys. }
  rewrite Hh. cbn [mbind res_bind]. change (py_eq (id (JStr h)) (JStr h)) with (bool_decide (h = h)).
  by rewrite (bool_decide_true (h = h)).
Qed.
