(* ===== verification/EvidenceBus.v ===== *)
(** * The Evidence Bus and the Station issuer (residual/factory/evidence_bus.py, station_issuer.py)

    The SQLite tables as lists and dictionaries in insertion order with their
    uniqueness and foreign-key constraints, every operation of the bus, and the
    issuer that turns a candidate into a signed receipt.  A transaction that
    raises restores the tables.  [clock] is [time.time_ns()] by reading number;
    Ed25519 is a parameter; the workspace is what the file system shows of it. *)

From Stdlib Require Import ZArith NArith Lia.
From S2P Require Import Prelude PyData Sha256 PyFloat Json JsonFacts Core CoreFacts Storage Builtins Graph JsonPlain Plan WorkerContract EvidenceReceipts.

(** ** Tables *)
Record ReceiptRow : Type := mkRow {
  rw_hash : pystr;
  rw_json : pystr;
  rw_task_id : pystr;
  rw_swarm_id : pystr;
  rw_engine_name : pystr;
  rw_verdict : pystr;
  rw_issued_at_ns : Z;
  rw_supersedes : option pystr;
  rw_previous : pystr;
  rw_queue_hash : pystr
}.

Record ArtifactRow : Type := mkArtifactRow { ar_receipt : pystr; ar_path : pystr; ar_sha256 : option pystr; ar_deleted : bool }.

Record Bus : Type := mkBus {
  b_receipts : list ReceiptRow;
  b_requirements : list (pystr * pystr);
  b_receipt_artifacts : list ArtifactRow;
  b_artifacts : dict (list N * Z);
  b_stale : dict (pystr * pystr * Z);
  b_events : list pystr;
  b_tick : nat;
  b_observed : list json
}.

Definition Bus_new : Bus := mkBus [] [] [] [] [] [] 0 [].

Definition set_receipts (l : list ReceiptRow) (b : Bus) : Bus :=
  mkBus l (b_requirements b) (b_receipt_artifacts b) (b_artifacts b) (b_stale b) (b_events b) (b_tick b) (b_observed b).
Definition set_requirements (l : list (pystr * pystr)) (b : Bus) : Bus :=
  mkBus (b_receipts b) l (b_receipt_artifacts b) (b_artifacts b) (b_stale b) (b_events b) (b_tick b) (b_observed b).
Definition set_receipt_artifacts (l : list ArtifactRow) (b : Bus) : Bus :=
  mkBus (b_receipts b) (b_requirements b) l (b_artifacts b) (b_stale b) (b_events b) (b_tick b) (b_observed b).
Definition set_artifacts (l : dict (list N * Z)) (b : Bus) : Bus :=
  mkBus (b_receipts b) (b_requirements b) (b_receipt_artifacts b) l (b_stale b) (b_events b) (b_tick b) (b_observed b).
Definition set_stale (l : dict (pystr * pystr * Z)) (b : Bus) : Bus :=
  mkBus (b_receipts b) (b_requirements b) (b_receipt_artifacts b) (b_artifacts b) l (b_events b) (b_tick b) (b_observed b).
Definition add_event (t : pystr) (b : Bus) : Bus :=
  mkBus (b_receipts b) (b_requirements b) (b_receipt_artifacts b) (b_artifacts b) (b_stale b) (b_events b ++ [t]) (b_tick b) (b_observed b).
Definition ticked (n : nat) (b : Bus) : Bus :=
  mkBus (b_receipts b) (b_requirements b) (b_receipt_artifacts b) (b_artifacts b) (b_stale b) (b_events b) n (b_observed b).
Definition add_observed (v : json) (b : Bus) : Bus :=
  mkBus (b_receipts b) (b_requirements b) (b_receipt_artifacts b) (b_artifacts b) (b_stale b) (b_events b) (b_tick b) (b_observed b ++ [v]).

Definition find_row (h : pystr) (b : Bus) : option ReceiptRow := List.find (λ r, bool_decide (rw_hash r = h)) (b_receipts b).

Definition zero_hash : pystr := replicate 64 48%N.
Definition IntegrityError : exn := OtherError "sqlite3.IntegrityError".

Definition queue_value (previous receipt_hash : pystr) : json :=
  jobj [("schema", JStr (str "factory-evidence-queue-v1")); ("previous", JStr previous); ("receipt_hash", JStr receipt_hash)].

Section bus.
Context (clock : nat → Z) (ed25519_verify : list N → list N → list N → bool).
Abbreviation M := (SM Bus).

(** [with self._tx() as db]: the exception of the body undoes its writes. *)
Definition tx {A} (m : M A) : M A := λ b,
  match m b with
  | (Ok a, b') => (Ok a, b')
  | (Raise e, b') => (Raise e, ticked (b_tick b') b)
  end.

Definition _event_value (event : string) (data : list (string * json)) : M json := λ b,
  (Ok (jobj ([("event", JStr (str event)); ("component", JStr (str "factory-evidence-bus"));
              ("time_ns", JInt (clock (b_tick b)))] ++ data)), ticked (S (b_tick b)) b).

Definition _append_event (value : json) : M unit :=
  t ← sm_lift (canonical value);
  sm_mod (add_event t).

Definition _observe (value : json) : M unit := sm_mod (add_observed value).

Definition _emit (event : string) (data : list (string * json)) : M unit :=
  value ← _event_value event data;
  _ ← tx (_append_event value);
  _observe value.

Definition observations (b : Bus) : res (list json) := mapM strict_json (b_events b).

(** ** Appending *)
Definition expected_artifacts (r : WorkerReceipt) : dict ArtifactBinding :=
  dict_of ((λ a, (ab_path a, a)) <$> filter (λ a, ab_deleted a = false) (wr_artifacts r)).

Definition check_bytes (r : WorkerReceipt) (artifact_bytes : dict (list N)) : res unit :=
  let expected := expected_artifacts r in
  when negb (same_set artifact_bytes.*1 expected.*1) raise EvidenceError "artifact byte set differs from receipt";;
  for_all artifact_bytes (λ pd,
    a ← dgetitem pd.1 expected;
    when negb (bool_decide (Some (sha256_hex pd.2) = ab_sha256 a)) || negb (Z.of_nat (length pd.2) =? ab_size_bytes a)%Z
    raise EvidenceError "artifact bytes do not match receipt";;
    Ok tt).

Definition store_artifact (expected : dict ArtifactBinding) (pd : pystr * list N) : M unit :=
  a ← sm_lift (dgetitem pd.1 expected);
  let sha := default [] (ab_sha256 a) in
  b ← sm_get;
  match dget sha (b_artifacts b) with
  | None =>
      size ← sm_lift (sql_int (Z.of_nat (length pd.2)));
      sm_mod (λ b, set_artifacts (b_artifacts b ++ [(sha, (pd.2, size))]) b)
  | Some (data, size) =>
      if negb (bool_decide (data = pd.2)) || negb (size =? Z.of_nat (length pd.2))%Z
      then sm_raise (EvidenceError "content-address collision or corrupt artifact store")
      else mret tt
  end.

(** The constraints of the receipts table.  The texts bound are parts of the
    receipt whose UTF-8 encoding was just hashed. *)
Definition insert_row (r : ReceiptRow) : M unit :=
  _ ← sm_lift (sql_int (rw_issued_at_ns r));
  b ← sm_get;
  if existsb (λ q, bool_decide (rw_hash q = rw_hash r) || bool_decide (rw_json q = rw_json r)
                   || bool_decide (rw_queue_hash q = rw_queue_hash r)) (b_receipts b)
     || match rw_supersedes r with Some h => bool_decide (find_row h b = None) | None => false end
  then sm_raise IntegrityError
  else sm_mod (λ b, set_receipts (b_receipts b ++ [r]) b).

Definition insert_requirement (h req : pystr) : M unit :=
  b ← sm_get;
  if bool_decide ((h, req) ∈ b_requirements b) then sm_raise IntegrityError
  else sm_mod (λ b, set_requirements (b_requirements b ++ [(h, req)]) b).

Definition insert_receipt_artifact (h : pystr) (a : ArtifactBinding) : M unit :=
  b ← sm_get;
  if existsb (λ q, bool_decide (ar_receipt q = h) && bool_decide (ar_path q = ab_path a)) (b_receipt_artifacts b)
  then sm_raise IntegrityError
  else sm_mod (λ b, set_receipt_artifacts
                      (b_receipt_artifacts b ++ [mkArtifactRow h (ab_path a) (ab_sha256 a) (ab_deleted a)]) b).

Fixpoint sm_map {A B} (f : A → M B) (l : list A) : M (list B) :=
  match l with
  | [] => mret []
  | x :: l => y ← f x; ys ← sm_map f l; mret (y :: ys)
  end.

Definition queue_tail (b : Bus) : pystr := match last (b_receipts b) with Some r => rw_queue_hash r | None => zero_hash end.

Definition append_tx (r : WorkerReceipt) (artifact_bytes : dict (list N)) : M (list json) :=
  b ← sm_get;
  _ ← match wr_supersedes r with
      | None => mret tt
      | Some old =>
          match find_row old b with
          | Some row => if bool_decide (rw_task_id row = wr_task_id r) then mret tt
                        else sm_raise (EvidenceError "superseded receipt missing or belongs to another task")
          | None => sm_raise (EvidenceError "superseded receipt missing or belongs to another task")
          end
      end;
  _ ← sm_for (wr_parent_receipts r) (λ parent,
        if bool_decide (find_row parent b = None) then sm_raise (EvidenceError "parent receipt missing") else mret tt);
  _ ← sm_for artifact_bytes (store_artifact (expected_artifacts r));
  text ← sm_lift (v ← receipt_dict r; canonical v);
  b ← sm_get;
  let previous := queue_tail b in
  h ← sm_lift (receipt_hash r);
  queue_hash ← sm_lift (_hash (queue_value previous h));
  _ ← insert_row (mkRow h text (wr_task_id r) (wr_swarm_id r) (wr_engine_name r) (wr_overall_verdict r) (wr_issued_at_ns r)
                    (wr_supersedes r) previous queue_hash);
  _ ← sm_for (wr_requirements_met r) (λ kv, if kv.2 then insert_requirement h kv.1 else mret tt);
  _ ← sm_for (wr_artifacts r) (insert_receipt_artifact h);
  issued ← _event_value "WorkerReceiptIssued"
             [("receipt_hash", JStr h); ("task_id", JStr (wr_task_id r)); ("swarm_id", JStr (wr_swarm_id r))];
  stored ← sm_map (λ a, _event_value "ArtifactStored"
                     [("receipt_hash", JStr h); ("artifact_hash", json_opt_str (ab_sha256 a)); ("path", JStr (ab_path a))])
             (filter (λ a, ab_deleted a = false) (wr_artifacts r));
  let emitted := issued :: stored in
  _ ← sm_for emitted _append_event;
  mret emitted.

Definition append (r : WorkerReceipt) (artifact_bytes : dict (list N)) : M unit :=
  if negb (bool_decide (wr_overall_verdict r = str "pass"))
  then sm_raise (EvidenceError "non-passing receipt cannot enter Evidence Bus")
  else
    _ ← sm_lift (check_bytes r artifact_bytes);
    emitted ← tx (append_tx r artifact_bytes);
    sm_for emitted _observe.

(** ** Reading *)
Fixpoint verify_rows (rows : list ReceiptRow) (previous : pystr) (count : Z) : res (Z * pystr) :=
  match rows with
  | [] => Ok (count, previous)
  | r :: rows =>
      expected ← _hash (queue_value previous (rw_hash r));
      when negb (bool_decide (rw_previous r = previous)) || negb (bool_decide (rw_queue_hash r = expected))
      raise EvidenceError "Evidence Bus receipt queue integrity failure";;
      verify_rows rows (rw_queue_hash r) (count + 1)
  end.
Definition verify_queue (b : Bus) : res json :=
  '(count, root) ← verify_rows (b_receipts b) zero_hash 0;
  Ok (jobj [("receipts", JInt count); ("queue_root", JStr root)]).

Definition read_row (r : ReceiptRow) : res WorkerReceipt := v ← strict_json (rw_json r); receipt_from_dict v.

Definition get (receipt_hash : pystr) (b : Bus) : res WorkerReceipt :=
  h ← _require_hash (JStr receipt_hash) "receipt hash";
  match find_row h b with
  | None => Raise (EvidenceError "receipt not found")
  | Some row => read_row row
  end.

(** The search of [is_stale]; the top of [stack] comes first. *)
Fixpoint stale_loop (fuel : nat) (superseded : gset pystr) (by_hash : dict WorkerReceipt)
    (seen : gset pystr) (stack : list pystr) : res bool :=
  match stack with
  | [] => Ok false
  | current :: stack =>
      match fuel with
      | O => out_of_fuel
      | S fuel =>
          if bool_decide (current ∈ seen) then stale_loop fuel superseded by_hash seen stack
          else
            let seen := {[current]} ∪ seen in
            if bool_decide (current ∈ superseded) then Ok true
            else match dget current by_hash with
                 | None => Raise (EvidenceError "receipt graph references missing receipt")
                 | Some value => stale_loop fuel superseded by_hash seen (rev (wr_parent_receipts value) ++ stack)
                 end
      end
  end.

Definition stale_fuel (receipts : list WorkerReceipt) : nat :=
  S (foldr (λ r n, length (wr_parent_receipts r) + n) 1 receipts).

Definition superseded_by (receipts : list WorkerReceipt) : list pystr :=
  filter (λ s, s ≠ []) (omap wr_supersedes receipts).

Definition hashed (r : WorkerReceipt) : res (pystr * WorkerReceipt) := (λ h, (h, r)) <$> receipt_hash r.

Definition is_stale (receipt_hash_ : pystr) (b : Bus) : res bool :=
  h ← _require_hash (JStr receipt_hash_) "receipt hash";
  receipts ← mapM read_row (b_receipts b);
  pairs ← mapM hashed receipts;
  stale_loop (stale_fuel receipts) (list_to_set (superseded_by receipts)) (dict_of pairs) ∅ [h].

Definition approve_stale (receipt_hash_ approved_by reason : pystr) : M unit :=
  if blank approved_by || blank reason then sm_raise (EvidenceError "stale approval identity and reason required")
  else
    b ← sm_get;
    stale ← sm_lift (is_stale receipt_hash_ b);
    if negb (stale : bool) then sm_raise (EvidenceError "receipt is not stale")
    else
      _ ← tx (b ← sm_get;
              _ ← sm_mod (λ b, ticked (S (b_tick b)) b);
              _ ← sm_lift (_ ← sql_text (strip approved_by); _ ← sql_text (strip reason); sql_int (clock (b_tick b)));
              if dmem receipt_hash_ (b_stale b) || bool_decide (find_row receipt_hash_ b = None)
              then sm_raise (EvidenceError "stale receipt approval already exists")
              else sm_mod (λ b', set_stale (b_stale b' ++ [(receipt_hash_, (strip approved_by, strip reason, clock (b_tick b)))]) b'));
      _emit "StaleReceiptApproved" [("receipt_hash", JStr receipt_hash_); ("approved_by", JStr (strip approved_by))].

Definition check_artifact (b : Bus) (a : ArtifactBinding) : res unit :=
  if ab_deleted a then Ok tt
  else match dget (default [] (ab_sha256 a)) (b_artifacts b) with
       | Some (data, _) =>
           when negb (Z.of_nat (length data) =? ab_size_bytes a)%Z || negb (bool_decide (Some (sha256_hex data) = ab_sha256 a))
           raise EvidenceError "artifact store integrity failure";;
           Ok tt
       | None => Raise (EvidenceError "artifact store integrity failure")
       end.

Definition consumable (receipt_hash_ : pystr) (station_public_key : list N) (b : Bus) : res WorkerReceipt :=
  r ← get receipt_hash_ b;
  signed ← StationIdentity_verify ed25519_verify r station_public_key;
  when negb signed raise EvidenceError "Station signature invalid";;
  _ ← for_all (wr_artifacts r) (check_artifact b);
  stale ← is_stale receipt_hash_ b;
  when (stale : bool) && negb (dmem receipt_hash_ (b_stale b)) raise EvidenceError "stale receipt requires explicit human approval";;
  Ok r.

Definition receipt_task_leb (x y : WorkerReceipt) : bool := str_leb (wr_task_id x) (wr_task_id y).

Definition admit_dependencies (c : WorkerContract) (receipt_hashes : list pystr) (station_public_key : list N)
    : M (list WorkerReceipt) :=
  if negb (bool_decide (NoDup receipt_hashes)) then sm_raise (EvidenceError "duplicate dependency receipt")
  else
    b ← sm_get;
    receipts ← sm_lift (mapM (λ h, consumable h station_public_key b) receipt_hashes);
    if negb (same_set (wr_task_id <$> receipts) (wc_dependencies c))
    then sm_raise (EvidenceError "dependency receipts do not match WorkerContract dependencies")
    else if existsb (λ r, negb (bool_decide (wr_execution_plan_hash r = wc_execution_plan_hash c))) receipts
    then sm_raise (EvidenceError "dependency receipt belongs to another ExecutionPlan")
    else
      _ ← _emit "EvidenceQueryExecuted" [("query", JStr (str "dependency-admission")); ("task_id", JStr (wc_task_id c));
                                         ("result_count", JInt (Z.of_nat (length receipts)))];
      mret (sort_by receipt_task_leb receipts).

Definition artifact (receipt_hash_ path : pystr) (station_public_key : list N) : M (list N) :=
  b ← sm_get;
  r ← sm_lift (consumable receipt_hash_ station_public_key b);
  match filter (λ a, ab_path a = path) (wr_artifacts r) with
  | [a] =>
      if ab_deleted a then sm_raise (EvidenceError "artifact path not available in receipt")
      else match dget (default [] (ab_sha256 a)) (b_artifacts b) with
           | None => sm_raise (TypeError "'NoneType' object is not subscriptable")
           | Some (data, _) =>
               _ ← _emit "EvidenceQueryExecuted" [("receipt_hash", JStr receipt_hash_);
                                                  ("artifact_hash", json_opt_str (ab_sha256 a)); ("query", JStr (str "artifact"))];
               mret data
           end
  | _ => sm_raise (EvidenceError "artifact path not available in receipt")
  end.

Record Query : Type := mkQuery {
  q_task_id : option pystr;
  q_requirement_id : option pystr;
  q_artifact_hash : option pystr;
  q_engine_name : option pystr;
  q_verification_status : option pystr;
  q_swarm_id : option pystr;
  q_start_ns : option Z;
  q_end_ns : option Z
}.

Definition opt_match {A} (o : option A) (f : A → bool) : bool := match o with Some x => f x | None => true end.

Definition row_matches (q : Query) (b : Bus) (r : ReceiptRow) : bool :=
  opt_match (q_task_id q) (λ x, bool_decide (rw_task_id r = x)) &&
  opt_match (q_engine_name q) (λ x, bool_decide (rw_engine_name r = x)) &&
  opt_match (q_verification_status q) (λ x, bool_decide (rw_verdict r = x)) &&
  opt_match (q_swarm_id q) (λ x, bool_decide (rw_swarm_id r = x)) &&
  opt_match (q_start_ns q) (λ x, x <=? rw_issued_at_ns r)%Z &&
  opt_match (q_end_ns q) (λ x, rw_issued_at_ns r <=? x)%Z &&
  opt_match (q_requirement_id q) (λ x, bool_decide ((rw_hash r, x) ∈ b_requirements b)) &&
  opt_match (q_artifact_hash q) (λ x, existsb (λ a, bool_decide (ar_receipt a = rw_hash r) && bool_decide (ar_sha256 a = Some x))
                                        (b_receipt_artifacts b)).

(** The arguments of the statement, in the order of the clauses. *)
Definition bind_query (q : Query) : res unit :=
  _ ← mapM sql_text (omap id [q_task_id q; q_engine_name q; q_verification_status q; q_swarm_id q]);
  _ ← mapM sql_int (omap id [q_start_ns q; q_end_ns q]);
  _ ← mapM sql_text (omap id [q_requirement_id q; q_artifact_hash q]);
  Ok tt.

Definition query (q : Query) : M (list WorkerReceipt) :=
  _ ← sm_lift match q_artifact_hash q with Some h => _ ← _require_hash (JStr h) "artifact hash"; Ok tt | None => Ok tt end;
  _ ← sm_lift (bind_query q);
  b ← sm_get;
  let rows := filter (λ r, row_matches q b r = true) (b_receipts b) in
  _ ← _emit "EvidenceQueryExecuted" [("query", JStr (str "receipt-index")); ("result_count", JInt (Z.of_nat (length rows)))];
  sm_lift (mapM read_row rows).

(** ** The issuer *)
(** Of the candidate tree and the runtime result, what the issuer reads. *)
Record CandidateTree : Type := mkCandidate { ct_input_commit : pystr; ct_output_commit : pystr; ct_artifacts : list (pystr * option pystr) }.

Record RuntimeResult : Type := mkRuntimeResult {
  rt_attempt_id : pystr;
  rt_status : pystr;
  rt_contract_hash : pystr;
  rt_execution_plan_hash : pystr;
  rt_candidate : option CandidateTree;
  rt_engine_name : pystr;
  rt_engine_version : pystr
}.

(** What the workspace shows at [root / path]. *)
Inductive FileState : Type := FMissing | FRegular (data : list N) | FOther.
Record Workspace : Type := mkWorkspace { ws_inside : pystr → bool; ws_file : pystr → FileState }.

Fixpoint candidate_items (ws : Workspace) (items : list (pystr * option pystr))
    : res (list ArtifactBinding * dict (list N)) :=
  match items with
  | [] => Ok ([], [])
  | (path, expected_hash) :: items =>
      when negb (ws_inside ws path) raise EvidenceError "candidate artifact escapes workspace";;
      '(a, content) ← match expected_hash with
        | None =>
            match ws_file ws path with
            | FMissing => a ← ArtifactBinding_init (mkBinding path None 0 true); Ok (a, [])
            | _ => Raise (EvidenceError "candidate deletion does not match workspace")
            end
        | Some expected =>
            match ws_file ws path with
            | FRegular data =>
                when negb (bool_decide (sha256_hex data = expected))
                raise EvidenceError "candidate artifact hash changed before Station verification";;
                a ← ArtifactBinding_init (mkBinding path (Some expected) (Z.of_nat (length data)) false);
                Ok (a, [(path, data)])
            | _ => Raise (EvidenceError "candidate artifact is not a regular file")
            end
        end;
      '(arts, rest) ← candidate_items ws items;
      Ok (a :: arts, content ++ rest)
  end.

Definition _candidate_bytes (result : RuntimeResult) (ws : Workspace) : res (list ArtifactBinding * dict (list N)) :=
  match rt_candidate result with
  | Some tree =>
      when negb (bool_decide (rt_status result = str "CANDIDATE")) raise EvidenceError "only quarantined candidates can be verified";;
      '(arts, content) ← candidate_items ws (ct_artifacts tree);
      Ok (arts, dict_of content)
  | None => Raise (EvidenceError "only quarantined candidates can be verified")
  end.

Context (ed25519_sign : list N → list N) (key_id : pystr) (new_id : nat → pystr).

Definition _issue (c : WorkerContract) (result : RuntimeResult) (ws : Workspace) (d : VerificationDecision)
    (parent_receipts : list pystr) (supersedes : option pystr) : M WorkerReceipt :=
  ch ← sm_lift (contract_hash c);
  _ ← sm_lift (
    when negb (bool_decide (rt_contract_hash result = ch)) || negb (bool_decide (rt_execution_plan_hash result = wc_execution_plan_hash c))
    raise EvidenceError "runtime candidate does not match WorkerContract";;
    when negb (bool_decide (rt_attempt_id result = wc_attempt_id c)) raise EvidenceError "runtime candidate attempt mismatch";;
    when negb (bool_decide (vd_verdict d = str "pass")) || negb (forallb snd (vd_requirements_met d))
    raise EvidenceError "Station verification did not pass";;
    let passed := (filter (λ kv, kv.2 = str "pass") (vd_results d)).*1 in
    when not_subset (wc_acceptance c) (list_to_set passed)
    raise EvidenceError "Station decision does not satisfy WorkerContract acceptance criteria";;
    let met := (filter (λ kv, kv.2 = true) (vd_requirements_met d)).*1 in
    when not_subset (wc_requirements c) (list_to_set met)
    raise EvidenceError "Station decision does not satisfy WorkerContract requirements";;
    Ok tt);
  '(artifacts, content) ← sm_lift (_candidate_bytes result ws);
  b ← sm_get;
  _ ← sm_mod (λ b, ticked (S (b_tick b)) b);
  let tree := default (mkCandidate [] [] []) (rt_candidate result) in
  let unsigned signature :=
    mkReceipt (new_id (b_tick b)) (wc_execution_plan_hash c) (wc_task_id c) (wc_worker_id c) (wc_swarm_id c) (wc_attempt_id c)
      (rt_engine_name result) (rt_engine_version result) (ct_input_commit tree) (ct_output_commit tree) ch
      artifacts (vd_requirements_met d) (vd_results d) (str "pass") (vd_verifier_identity d) (vd_verifier_revision d)
      parent_receipts supersedes (clock (b_tick b)) key_id signature (str RECEIPT_SCHEMA) in
  let sorted := mkReceipt (new_id (b_tick b)) (wc_execution_plan_hash c) (wc_task_id c) (wc_worker_id c) (wc_swarm_id c) (wc_attempt_id c)
      (rt_engine_name result) (rt_engine_version result) (ct_input_commit tree) (ct_output_commit tree) ch
      (sort_by binding_leb artifacts) (sort_by req_pair_leb (vd_requirements_met d)) (sort_by check_pair_leb (vd_results d))
      (str "pass") (vd_verifier_identity d) (vd_verifier_revision d)
      (sort_str parent_receipts) supersedes (clock (b_tick b)) key_id [] (str RECEIPT_SCHEMA) in
  signature ← sm_lift (h ← _hash (jobj (unsigned_payload sorted)); sign ed25519_sign h);
  receipt ← sm_lift (WorkerReceipt_init (unsigned signature));
  _ ← append receipt content;
  mret receipt.

Definition issue (c : WorkerContract) (result : RuntimeResult) (ws : Workspace) (d : VerificationDecision)
    (parent_receipts : list pystr) (supersedes : option pystr) : M WorkerReceipt :=
  sm_try (_issue c result ws d parent_receipts supersedes) (λ e,
    if is_EvidenceError e then
      _ ← _emit "CandidateRejected" [("attempt_id", JStr (wc_attempt_id c)); ("task_id", JStr (wc_task_id c));
                                     ("reason", JStr (str "EvidenceError"))];
      sm_raise e
    else sm_raise e).
End bus.
