(* ===== verification/BusFacts.v ===== *)
(** * Facts about the Evidence Bus

    The invariant of the tables, what reading them gives under it, the search
    for superseded ancestors, and preservation by every operation. *)

From Stdlib Require Import ZArith NArith Lia.
From stdpp Require Import relations.
From S2P Require Import Prelude PyData Sha256 PyFloat Json JsonFacts Core CoreFacts Storage Builtins Graph JsonPlain Plan PlanFacts WorkerContract EvidenceReceipts ReceiptFacts EvidenceBus.

(** ** The invariant *)
(** Row [row] stores receipt [w]. *)
Record row_ok (row : ReceiptRow) (w : WorkerReceipt) : Prop := {
  ro_receipt : receipt_ok w;
  ro_hash : receipt_hash w = Ok (rw_hash row);
  ro_json : canonical (jobj (wire w (rw_hash row))) = Ok (rw_json row);
  ro_task : rw_task_id row = wr_task_id w;
  ro_supersedes : rw_supersedes row = wr_supersedes w
}.

Definition row_hashes (b : Bus) : list pystr := rw_hash <$> b_receipts b.

Definition artifact_row_ok (kv : pystr * (list N * Z)) : Prop :=
  sha256_hex kv.2.1 = kv.1 ∧ kv.2.2 = Z.of_nat (length kv.2.1).

Record bus_holds (b : Bus) (ws : list WorkerReceipt) : Prop := {
  bh_rows : Forall2 row_ok (b_receipts b) ws;
  bh_unique : NoDup (row_hashes b);
  bh_parents : ∀ i w, ws !! i = Some w → ∀ p, p ∈ wr_parent_receipts w → p ∈ take i (row_hashes b);
  bh_superseded : ∀ i w, ws !! i = Some w → ∀ p, wr_supersedes w = Some p → p ∈ take i (row_hashes b);
  bh_queue : ∃ root, verify_rows (b_receipts b) zero_hash 0 = Ok (Z.of_nat (length ws), root) ∧ root = queue_tail b;
  bh_store_keys : wf_dict (b_artifacts b);
  bh_store : Forall artifact_row_ok (b_artifacts b);
  bh_bytes : ∀ w a, w ∈ ws → a ∈ wr_artifacts w → ab_deleted a = false →
             ∃ sha data, ab_sha256 a = Some sha ∧ dget sha (b_artifacts b) = Some (data, ab_size_bytes a)
}.

Definition bus_ok (b : Bus) : Prop := ∃ ws, bus_holds b ws.

(** ** Reading rows *)
Lemma read_row_ok row w : row_ok row w → read_row row = Ok w.
Proof.
  intros [Hr Hh Hj _ _]. unfold read_row. rewrite (plain_read _ _ (plain_wire w _) Hj).
  exact (receipt_from_dict_wire w _ _ Hr Hh Hj).
Qed.

Lemma read_rows_ok rows ws : Forall2 row_ok rows ws → mapM read_row rows = Ok ws.
Proof. intros H. apply mapM_res_Ok. eapply Forall2_impl; [exact H|]. intros. by apply read_row_ok. Qed.

Lemma hashed_ok rows ws : Forall2 row_ok rows ws → mapM hashed ws = Ok (zip (rw_hash <$> rows) ws).
Proof.
  intros H. apply mapM_res_Ok. induction H as [|row w rows ws Hr _ IH]; constructor; [|done].
  unfold hashed. by rewrite (ro_hash _ _ Hr).
Qed.

Lemma find_row_Some h b row : find_row h b = Some row → row ∈ b_receipts b ∧ rw_hash row = h.
Proof. intros H. apply List.find_some in H as [Hin Hh]. apply bool_decide_eq_true in Hh. by rewrite list_elem_of_In. Qed.

Lemma find_row_elem h b : h ∈ row_hashes b → ∃ row, find_row h b = Some row.
Proof.
  intros H. unfold find_row. destruct (List.find _ _) eqn:E; [eauto|exfalso].
  apply list_elem_of_fmap in H as (row & -> & Hr). apply list_elem_of_In in Hr.
  apply (List.find_none _ _ E) in Hr. by rewrite bool_decide_true in Hr.
Qed.

Lemma find_row_None h b : find_row h b = None ↔ h ∉ row_hashes b.
Proof.
  split.
  - intros E H. apply find_row_elem in H as [row H]. congruence.
  - intros H. destruct (find_row h b) as [row|] eqn:E; [|done]. apply find_row_Some in E as [Hr <-].
    exfalso. apply H. by apply list_elem_of_fmap_2.
Qed.

(** The receipt stored under a hash. *)
Definition stored (b : Bus) (ws : list WorkerReceipt) (h : pystr) (w : WorkerReceipt) : Prop :=
  ∃ i row, b_receipts b !! i = Some row ∧ ws !! i = Some w ∧ rw_hash row = h.

Lemma rows_lookup b ws i row : bus_holds b ws → b_receipts b !! i = Some row → ∃ w, ws !! i = Some w ∧ row_ok row w.
Proof. intros H Hi. destruct (Forall2_lookup_l _ _ _ _ _ (bh_rows _ _ H) Hi) as (w & Hw & Hr). eauto. Qed.

Lemma get_stored b ws h w : bus_holds b ws → lower_hex 64 h = true → (get h b = Ok w ↔ stored b ws h w).
Proof.
  intros Hb Hh. unfold get, _require_hash. rewrite Hh. cbn [negb mbind res_bind]. split.
  - intros H. destruct (find_row h b) as [row|] eqn:E; [|done]. apply find_row_Some in E as [Hr Eh].
    apply list_elem_of_lookup in Hr as [i Hi]. destruct (rows_lookup b ws i row Hb Hi) as (w' & Hw & Hro).
    rewrite (read_row_ok _ _ Hro) in H. injection H as <-. by exists i, row.
  - intros (i & row & Hi & Hw & Eh).
    destruct (find_row_elem h b) as [row' E]; [apply list_elem_of_fmap; exists row; split; [done|by eapply list_elem_of_lookup_2]|].
    rewrite E. apply find_row_Some in E as [Hr' Eh']. apply list_elem_of_lookup in Hr' as [j Hj].
    assert (j = i) as ->.
    { eapply NoDup_lookup; [apply Hb| |]; unfold row_hashes; rewrite list_lookup_fmap; [by rewrite Hj|rewrite Hi; cbn; by rewrite Eh, Eh']. }
    destruct (rows_lookup b ws i row' Hb Hj) as (w' & Hw' & Hro). rewrite (read_row_ok _ _ Hro). congruence.
Qed.

(** ** Superseded ancestors *)
Lemma elem_of_rev {A} (x : A) l : x ∈ rev l ↔ x ∈ l.
Proof. rewrite !list_elem_of_In. symmetry. apply in_rev. Qed.

Abbreviation open_in := (open_weight (λ w, length (wr_parent_receipts w))).

Section stale.
Context (pairs : dict WorkerReceipt) (Hnd : NoDup pairs.*1).

Definition parent_of (h p : pystr) : Prop := ∃ w, dget h pairs = Some w ∧ p ∈ wr_parent_receipts w.

Definition open_parents (seen : gset pystr) : nat := open_in seen pairs.

Lemma open_parents_step (seen : gset pystr) (h : pystr) w :
  dget h pairs = Some w → h ∉ seen → open_parents seen = length (wr_parent_receipts w) + open_parents ({[h]} ∪ seen).
Proof using Hnd. by apply (open_weight_step (λ w, length (wr_parent_receipts w))). Qed.

Definition reaches_superseded (sup : gset pystr) (h : pystr) : Prop := ∃ x, rtc parent_of h x ∧ x ∈ sup.

(** Under the invariant of the search, its answer is whether one of the pending
    receipts has a superseded ancestor. *)
Lemma stale_loop_spec (fuel : nat) (sup seen : gset pystr) (stack : list pystr) :
  (∀ h, h ∈ stack → is_Some (dget h pairs)) →
  (∀ h w p, dget h pairs = Some w → p ∈ wr_parent_receipts w → is_Some (dget p pairs)) →
  (∀ h, h ∈ seen → (h ∉ sup) ∧ (∀ p, parent_of h p → p ∈ seen ∨ p ∈ stack)) →
  length stack + open_parents seen ≤ fuel →
  ∃ r, stale_loop fuel sup pairs seen stack = Ok r ∧ (r = true ↔ ∃ h, h ∈ stack ∧ reaches_superseded sup h).
Proof using Hnd.
  intros Hst Hcl. revert seen stack Hst. induction fuel as [|fuel IH]; intros seen stack Hst Hseen Hf.
  { destruct stack as [|h stack]; [|cbn in Hf; lia]. exists false. split; [done|]. split; [done|]. intros (h & Hh & _). by apply not_elem_of_nil in Hh. }
  destruct stack as [|h stack].
  { exists false. split; [done|]. split; [done|]. intros (h & Hh & _). by apply not_elem_of_nil in Hh. }
  cbn [stale_loop]. case_bool_decide as Hin.
  - (* already seen *)
    destruct (IH seen stack) as (r & Hr & Hiff).
    + intros x Hx. apply Hst. by right.
    + intros x Hx. destruct (Hseen x Hx) as [H1 H2]. split; [done|]. intros p Hp. destruct (H2 p Hp) as [|[->|]%elem_of_cons]; auto.
    + cbn in Hf. lia.
    + exists r. split; [done|]. rewrite Hiff. split.
      * intros (x & Hx & Hs). exists x. split; [by right|done].
      * intros (x & [->|Hx]%elem_of_cons & Hs); [|eauto].
        (* the ancestors of a seen receipt are seen or below a pending one *)
        destruct Hs as (y & Hxy & Hy). assert (∀ z, rtc parent_of z y → z ∈ seen → ∃ q, q ∈ stack ∧ reaches_superseded sup q) as Hwalk.
        { intros z Hz. induction Hz as [z|z q y' Hzq Hqy IHz]; intros Hzs.
          - exfalso. by destruct (Hseen z Hzs).
          - destruct (proj2 (Hseen z Hzs) q Hzq) as [Hq|[->|Hq]%elem_of_cons]; [by apply IHz|by apply IHz|].
            exists q. split; [done|]. by exists y'. }
        by apply (Hwalk h).
  - case_bool_decide as Hsup.
    + exists true. split; [done|]. split; [|done]. intros _. exists h. split; [left|]. exists h. split; [done|done].
    + destruct (Hst h) as [w Hw]; [left|]. rewrite Hw.
      destruct (IH ({[h]} ∪ seen) (rev (wr_parent_receipts w) ++ stack)) as (r & Hr & Hiff).
      * intros x [Hx|Hx]%elem_of_app; [|apply Hst; by right]. rewrite elem_of_rev in Hx. eauto.
      * intros x Hx. destruct (decide (x = h)) as [->|Hne].
        -- split; [done|]. intros p (w' & Hw' & Hp). right. apply elem_of_app. left. rewrite elem_of_rev. congruence.
        -- destruct (Hseen x) as [H1 H2]; [set_solver|]. split; [done|]. intros p Hp.
           destruct (H2 p Hp) as [|[->|]%elem_of_cons]; [left; set_solver|left; set_solver|right; apply elem_of_app; by right].
      * rewrite length_app, length_rev. pose proof (open_parents_step seen h w Hw Hin). cbn in Hf. lia.
      * exists r. split; [done|]. rewrite Hiff. split.
        -- intros (x & [Hx|Hx]%elem_of_app & Hs); [|exists x; split; [by right|done]].
           exists h. split; [left|]. destruct Hs as (y & Hxy & Hy). exists y. split; [|done].
           eapply rtc_l; [|exact Hxy]. exists w. split; [done|]. by rewrite elem_of_rev in Hx.
        -- intros (x & [->|Hx]%elem_of_cons & Hs); [|exists x; split; [apply elem_of_app; by right|done]].
           destruct Hs as (y & Hxy & Hy). inversion Hxy as [?|? q ? Hq Hqy]; subst; [done|].
           exists q. split; [|by exists y]. apply elem_of_app. left. destruct Hq as (w' & Hw' & Hq).
           rewrite elem_of_rev. congruence.
Qed.
End stale.

(** ** [is_stale] *)
Definition parent_rel (b : Bus) (ws : list WorkerReceipt) (h p : pystr) : Prop :=
  ∃ w, stored b ws h w ∧ p ∈ wr_parent_receipts w.

(** Some receipt replaces [h] or one of the receipts it was derived from. *)
Definition stale (b : Bus) (ws : list WorkerReceipt) (h : pystr) : Prop :=
  ∃ x, rtc (parent_rel b ws) h x ∧ ∃ w, w ∈ ws ∧ wr_supersedes w = Some x.

Lemma zip_fst (l : list pystr) (ws : list WorkerReceipt) : length l = length ws → (zip l ws).*1 = l.
Proof. intros H. apply fst_zip. lia. Qed.

Lemma bus_pairs b ws : bus_holds b ws → (zip (row_hashes b) ws).*1 = row_hashes b.
Proof. intros H. apply zip_fst. unfold row_hashes. rewrite length_fmap. apply (Forall2_length _ _ _ (bh_rows _ _ H)). Qed.

Lemma stored_dget b ws h w : bus_holds b ws → (dget h (zip (row_hashes b) ws) = Some w ↔ stored b ws h w).
Proof.
  intros H. assert (wf_dict (zip (row_hashes b) ws)) as Hwf by (unfold wf_dict; rewrite (bus_pairs b ws H); apply H). split.
  - intros Hd. apply dget_Some_elem, list_elem_of_lookup in Hd as [i Hi]. apply lookup_zip_Some in Hi as [Hi Hw].
    unfold row_hashes in Hi. rewrite list_lookup_fmap in Hi. destruct (b_receipts b !! i) as [row|] eqn:E; [|done].
    injection Hi as <-. by exists i, row.
  - intros (i & row & Hi & Hw & <-). apply dget_elem; [done|]. apply list_elem_of_lookup. exists i. apply lookup_zip_Some.
    split; [|done]. unfold row_hashes. by rewrite list_lookup_fmap, Hi.
Qed.

Lemma parent_rel_pairs b ws : bus_holds b ws → ∀ h p, parent_of (zip (row_hashes b) ws) h p ↔ parent_rel b ws h p.
Proof. intros H h p. unfold parent_of, parent_rel. by setoid_rewrite (stored_dget b ws h _ H). Qed.

Lemma row_hash_hex row w : row_ok row w → lower_hex 64 (rw_hash row) = true.
Proof.
  intros [_ Hh _ _ _]. unfold receipt_hash, _hash, digest in Hh. apply bind_Ok in Hh as (t & _ & Hh).
  apply fmap_Ok in Hh as (bytes & _ & <-). apply sha256_hex_is_digest.
Qed.

Lemma receipt_supersedes_hex r h : receipt_ok r → wr_supersedes r = Some h → lower_hex 64 h = true.
Proof.
  intros [Hi _] Hs. unfold WorkerReceipt_init in Hi. cbv zeta in Hi. rewrite Hs in Hi. repeat init_step Hi.
  apply bind_Ok in B2 as (? & B2 & _). cbn in B2. by destruct (lower_hex 64 h).
Qed.

Lemma rtc_iff {A} (R S : relation A) x y : (∀ x y, R x y ↔ S x y) → rtc R x y ↔ rtc S x y.
Proof. intros H. split; induction 1 as [|x y z Hxy _ IH]; try done; (eapply rtc_l; [|exact IH]); by apply H. Qed.

Lemma stale_fuel_open (seen : gset pystr) (l : list pystr) ws : open_in seen (zip l ws) < stale_fuel ws.
Proof.
  unfold stale_fuel. assert (open_in seen (zip l ws) + 1 ≤ foldr (λ r n, length (wr_parent_receipts r) + n) 1 ws) as H; [|lia].
  revert l. induction ws as [|w ws IH]; intros [|h l]; cbn [zip zip_with open_in foldr]; try lia.
  - specialize (IH []). cbn [zip zip_with open_in] in IH. rewrite zip_with_nil_l in IH || idtac. cbn in IH. lia.
  - specialize (IH l). destruct (bool_decide _); lia.
Qed.

Lemma superseded_elem b ws x :
  bus_holds b ws → x ∈ superseded_by ws ↔ ∃ w, w ∈ ws ∧ wr_supersedes w = Some x.
Proof.
  intros H. unfold superseded_by. rewrite list_elem_of_filter, list_elem_of_omap. split.
  - intros [_ (w & Hw & Hs)]. eauto.
  - intros (w & Hw & Hs). split; [|eauto]. apply list_elem_of_lookup in Hw as [i Hi].
    destruct (Forall2_lookup_r _ _ _ _ _ (bh_rows _ _ H) Hi) as (row & _ & Hr).
    intros ->. by apply (receipt_supersedes_hex w []) in Hs; [|apply Hr].
Qed.

Lemma parents_stored b ws h w p :
  bus_holds b ws → stored b ws h w → p ∈ wr_parent_receipts w → ∃ w', stored b ws p w'.
Proof.
  intros H (i & row & Hi & Hw & _) Hp. pose proof (bh_parents _ _ H i w Hw p Hp) as Hin.
  apply list_elem_of_lookup in Hin as [j Hj]. apply lookup_take_Some in Hj as [Hj _].
  unfold row_hashes in Hj. rewrite list_lookup_fmap in Hj. destruct (b_receipts b !! j) as [row'|] eqn:E; [|done].
  injection Hj as <-. destruct (rows_lookup b ws j row' H E) as (w' & Hw' & _). exists w'. by exists j, row'.
Qed.

Lemma is_stale_spec b ws h w :
  bus_holds b ws → stored b ws h w → ∃ r, is_stale h b = Ok r ∧ (r = true ↔ stale b ws h).
Proof.
  intros H Hs. unfold is_stale. destruct (Hs) as (i & row & Hi & Hw & Eh).
  destruct (rows_lookup b ws i row H Hi) as (w' & _ & Hro).
  unfold _require_hash. rewrite <- Eh, (row_hash_hex _ _ Hro), Eh. cbn [negb mbind res_bind].
  rewrite (read_rows_ok _ _ (bh_rows _ _ H)). cbn [mbind res_bind].
  rewrite (hashed_ok _ _ (bh_rows _ _ H)). cbn [mbind res_bind]. fold (row_hashes b).
  set (pairs := zip (row_hashes b) ws). assert (NoDup pairs.*1) as Hnd by (unfold pairs; rewrite (bus_pairs b ws H); apply H).
  rewrite dict_of_NoDup by done.
  destruct (stale_loop_spec pairs Hnd (stale_fuel ws) (list_to_set (superseded_by ws)) ∅ [h]) as (r & Hr & Hiff).
  - intros x Hx. apply list_elem_of_singleton in Hx as ->. apply (stored_dget b ws h w H) in Hs. by exists w.
  - intros x v p Hx Hp. apply (stored_dget b ws x v H) in Hx.
    destruct (parents_stored b ws x v p H Hx Hp) as [w2 Hw2]. apply (stored_dget b ws p w2 H) in Hw2. by exists w2.
  - set_solver.
  - cbn. apply stale_fuel_open.
  - exists r. split; [done|]. rewrite Hiff. unfold stale. split.
    + intros (x & Hx & (y & Hxy & Hy)). apply list_elem_of_singleton in Hx as ->. exists y.
      split; [by apply (rtc_iff _ _ h y (parent_rel_pairs b ws H))|].
      apply elem_of_list_to_set in Hy. by apply (superseded_elem b ws y H).
    + intros (y & Hxy & Hy). exists h. split; [apply list_elem_of_singleton; done|]. exists y.
      split; [by apply (rtc_iff _ _ h y (parent_rel_pairs b ws H))|].
      apply elem_of_list_to_set. by apply (superseded_elem b ws y H).
Qed.

(** ** Operations that leave the receipts alone *)
(** The receipts, the artifact store and the approvals are these. *)
Definition tables_are (rows : list ReceiptRow) (store : dict (list N * Z)) (appr : dict (pystr * pystr * Z)) (b : Bus) : Prop :=
  b_receipts b = rows ∧ b_artifacts b = store ∧ b_stale b = appr.

Lemma tables_refl b : tables_are (b_receipts b) (b_artifacts b) (b_stale b) b.
Proof. done. Qed.

Lemma bus_holds_store b b' ws :
  b_receipts b' = b_receipts b → b_artifacts b' = b_artifacts b → bus_holds b ws → bus_holds b' ws.
Proof.
  intros H1 H2 []. assert (row_hashes b' = row_hashes b) as E by (unfold row_hashes; by rewrite H1).
  assert (queue_tail b' = queue_tail b) as E' by (unfold queue_tail; by rewrite H1).
  constructor; rewrite ?E, ?E', ?H1, ?H2; done.
Qed.

Lemma bus_holds_tables b b' ws :
  tables_are (b_receipts b) (b_artifacts b) (b_stale b) b' → bus_holds b ws → bus_holds b' ws.
Proof. intros (H1 & H2 & _). by apply bus_holds_store. Qed.

Section keeping.
Context (clock : nat → Z) (rows : list ReceiptRow) (store : dict (list N * Z)) (appr : dict (pystr * pystr * Z)).
Abbreviation keeps := (preserves (tables_are rows store appr)).

Lemma keeps_tx {A} (m : SM Bus A) : keeps m → keeps (tx m).
Proof. intros H b Hb. specialize (H b Hb). unfold tx. destruct (m b) as [[a|e] b']; [done|]. exact Hb. Qed.

Lemma keeps_event_value name data : keeps (_event_value clock name data).
Proof. by intros b Hb. Qed.
Lemma keeps_append_event v : keeps (_append_event v).
Proof. intros b Hb. unfold _append_event, sm_lift, sm_mod, mbind, SM_bind. by destruct (canonical v). Qed.
Lemma keeps_observe v : keeps (_observe v).
Proof. by intros b Hb. Qed.
Hint Resolve keeps_tx keeps_event_value keeps_append_event keeps_observe : sm.

Lemma keeps_emit name data : keeps (_emit clock name data).
Proof. unfold _emit. eauto 10 with sm. Qed.

Lemma keeps_insert_requirement h req : keeps (insert_requirement h req).
Proof. unfold insert_requirement. apply preserves_bind; [auto with sm|]. intros b. apply preserves_if; intros _; [auto with sm|]. by apply preserves_mod. Qed.
Lemma keeps_insert_receipt_artifact h a : keeps (insert_receipt_artifact h a).
Proof. unfold insert_receipt_artifact. apply preserves_bind; [auto with sm|]. intros b. apply preserves_if; intros _; [auto with sm|]. by apply preserves_mod. Qed.

Lemma keeps_sm_map {A B} (f : A → SM Bus B) l : (∀ x, keeps (f x)) → keeps (sm_map f l).
Proof. intros H. induction l; cbn [sm_map]; eauto with sm. Qed.

Lemma keeps_Ok {A} (m : SM Bus A) b a b' : keeps m → tables_are rows store appr b → m b = (Ok a, b') → tables_are rows store appr b'.
Proof. intros H Hb E. specialize (H b Hb). by rewrite E in H. Qed.
End keeping.

#[export] Hint Resolve keeps_tx keeps_event_value keeps_append_event keeps_observe keeps_emit keeps_insert_requirement
  keeps_insert_receipt_artifact keeps_sm_map : sm.

(** ** The artifact store *)
Definition entry_for (expected : dict ArtifactBinding) (pd : pystr * list N) : Prop :=
  ∃ a sha, dget pd.1 expected = Some a ∧ ab_sha256 a = Some sha ∧ sha256_hex pd.2 = sha ∧ Z.of_nat (length pd.2) = ab_size_bytes a.

Lemma store_artifact_Ok expected pd b b' :
  entry_for expected pd → wf_dict (b_artifacts b) → Forall artifact_row_ok (b_artifacts b) →
  store_artifact expected pd b = (Ok tt, b') →
  tables_are (b_receipts b) (b_artifacts b') (b_stale b) b' ∧ wf_dict (b_artifacts b') ∧ Forall artifact_row_ok (b_artifacts b') ∧
  (∀ k v, dget k (b_artifacts b) = Some v → dget k (b_artifacts b') = Some v) ∧
  dget (sha256_hex pd.2) (b_artifacts b') = Some (pd.2, Z.of_nat (length pd.2)).
Proof.
  intros (a & sha & Ha & Hs & Hh & Hl) Hwf Hst H. unfold store_artifact, sm_lift, sm_get, sm_mod, sm_raise, mbind, SM_bind, mret, SM_ret in H.
  rewrite (proj2 (dgetitem_Ok _ _ _) Ha) in H. cbv beta iota zeta in H. rewrite Hs in H. cbn [default] in H. unfold id in H. rewrite <- Hh in H.
  destruct (dget (sha256_hex pd.2) (b_artifacts b)) as [[data size]|] eqn:E.
  - destruct (_ || _) eqn:Ec; [done|]. injection H as <-. apply orb_false_iff in Ec as [E1 E2].
    apply negb_false_iff, bool_decide_eq_true in E1. apply negb_false_iff, Z.eqb_eq in E2. subst. done.
  - destruct (sql_int _) as [size|] eqn:Esz; [|done]. apply sql_int_Ok in Esz as ->. injection H as <-. assert (dset (sha256_hex pd.2) (pd.2, Z.of_nat (length pd.2)) (b_artifacts b)
      = b_artifacts b ++ [(sha256_hex pd.2, (pd.2, Z.of_nat (length pd.2)))]) as Ed by (apply dset_fresh; by apply dget_None).
    cbn [set_artifacts b_artifacts b_receipts b_stale]. rewrite <- Ed. split_and!.
    + done.
    + by apply wf_dset.
    + rewrite Ed. apply Forall_app. split; [done|]. by constructor.
    + intros k v Hk. rewrite dget_dset. case_decide; [congruence|done].
    + apply dget_dset_eq.
Qed.

Lemma store_all_Ok expected l b b' :
  Forall (entry_for expected) l → wf_dict (b_artifacts b) → Forall artifact_row_ok (b_artifacts b) →
  sm_for l (store_artifact expected) b = (Ok tt, b') →
  tables_are (b_receipts b) (b_artifacts b') (b_stale b) b' ∧ wf_dict (b_artifacts b') ∧ Forall artifact_row_ok (b_artifacts b') ∧
  (∀ k v, dget k (b_artifacts b) = Some v → dget k (b_artifacts b') = Some v) ∧
  (∀ pd, pd ∈ l → dget (sha256_hex pd.2) (b_artifacts b') = Some (pd.2, Z.of_nat (length pd.2))).
Proof.
  intros Hl. revert b. induction Hl as [|pd l Hpd _ IH]; intros b Hwf Hst H; cbn [sm_for] in H.
  { injection H as <-. split_and!; try done. intros pd Hpd. by apply not_elem_of_nil in Hpd. }
  apply sm_bind_Ok in H as ([] & b1 & H1 & H). apply store_artifact_Ok in H1 as ((R1 & _ & S1) & Hwf1 & Hst1 & Hk1 & Hd1); [|done..].
  apply IH in H as ((R & A & S) & Hwf' & Hst' & Hk & Hd); [|done..].
  split; [repeat split; congruence|]. split_and!; [done|done|by eauto|].
  intros q [->|Hq]%elem_of_cons; [by apply Hk|by apply Hd].
Qed.

(** ** Appending a receipt *)
Lemma receipt_paths r : receipt_ok r → NoDup (ab_path <$> wr_artifacts r).
Proof.
  intros [Hi _]. destruct (WorkerReceipt_init_Ok r r Hi) as [E _]. unfold WorkerReceipt_init in Hi. cbv zeta in Hi.
  repeat init_step Hi. apply negb_false_iff, bool_decide_eq_true in G4. by rewrite sort_by_perm in G4.
Qed.

Lemma expected_eq r : receipt_ok r →
  expected_artifacts r = (λ a, (ab_path a, a)) <$> filter (λ a, ab_deleted a = false) (wr_artifacts r).
Proof.
  intros Hr. unfold expected_artifacts. apply dict_of_NoDup. rewrite <- list_fmap_compose.
  eapply sublist_NoDup; [exact (receipt_paths r Hr)|]. apply (fmap_sublist ab_path), sublist_filter.
Qed.

Lemma check_bytes_Ok r bytes :
  receipt_ok r → check_bytes r bytes = Ok tt →
  Forall (entry_for (expected_artifacts r)) bytes ∧
  (∀ a, a ∈ wr_artifacts r → ab_deleted a = false →
   ∃ data, (ab_path a, data) ∈ bytes ∧ ab_sha256 a = Some (sha256_hex data) ∧ Z.of_nat (length data) = ab_size_bytes a).
Proof.
  intros Hr H. unfold check_bytes in H. cbv zeta in H. destruct (negb _) eqn:Es; [done|].
  apply negb_false_iff in Es. unfold same_set in Es. apply bool_decide_eq_true in Es.
  apply for_all_Ok in H. rewrite Forall_forall in H.
  assert (∀ pd, pd ∈ bytes → entry_for (expected_artifacts r) pd) as He.
  { intros pd Hpd. specialize (H pd Hpd). cbn beta in H. apply bind_Ok in H as (a & Ha & H). apply dgetitem_Ok in Ha.
    destruct (_ || _) eqn:Ec; [done|]. apply orb_false_iff in Ec as [E1 E2].
    apply negb_false_iff, bool_decide_eq_true in E1. apply negb_false_iff, Z.eqb_eq in E2. by exists a, (sha256_hex pd.2). }
  split; [by apply Forall_forall|]. intros a Ha Hd.
  assert (dget (ab_path a) (expected_artifacts r) = Some a) as Hg.
  { rewrite expected_eq by done. apply dget_elem.
    - rewrite <- expected_eq by done. unfold wf_dict. rewrite expected_eq by done. rewrite <- list_fmap_compose.
      eapply sublist_NoDup; [exact (receipt_paths r Hr)|]. apply (fmap_sublist ab_path), sublist_filter.
    - apply list_elem_of_fmap. exists a. split; [done|]. by apply list_elem_of_filter. }
  assert (ab_path a ∈ bytes.*1) as Hin.
  { apply (elem_of_list_to_set (C := gset pystr)). rewrite Es. apply elem_of_list_to_set. apply dget_is_Some. by exists a. }
  apply list_elem_of_fmap in Hin as ([p data] & E & Hpd). cbn in E. subst p. exists data. split; [done|].
  destruct (He _ Hpd) as (a' & sha & Ha' & Hs & Hh & Hl). cbn [fst snd] in Ha', Hh, Hl. rewrite Hg in Ha'. injection Ha' as <-.
  split; [congruence|done].
Qed.

Lemma verify_rows_snoc rows row p n :
  verify_rows (rows ++ [row]) p n = ('(m, q) ← verify_rows rows p n; verify_rows [row] q m).
Proof.
  revert p n. induction rows as [|r rows IH]; intros p n; [done|]. cbn [app verify_rows].
  destruct (_hash _) as [h|e]; cbn [mbind res_bind]; [|done]. destruct (_ || _); [done|]. apply IH.
Qed.

Lemma parents_checked (r : WorkerReceipt) b l b' :
  sm_for l (λ parent, if bool_decide (find_row parent b = None) then sm_raise (EvidenceError "parent receipt missing") else mret tt) b
    = (Ok tt, b') → b' = b ∧ ∀ p, p ∈ l → p ∈ row_hashes b.
Proof.
  assert (∀ c, sm_for l (λ parent, if bool_decide (find_row parent b = None) then sm_raise (EvidenceError "parent receipt missing") else mret tt) c
    = (Ok tt, b') → b' = c ∧ ∀ p, p ∈ l → p ∈ row_hashes b) as H; [|apply H].
  induction l as [|p l IH]; intros c H; cbn [sm_for] in H.
  { injection H as <-. split; [done|]. intros p Hp. by apply not_elem_of_nil in Hp. }
  apply sm_bind_Ok in H as ([] & b1 & H1 & H). case_bool_decide as E; [done|]. injection H1 as <-.
  apply IH in H as [-> Hl]. split; [done|]. intros q [->|Hq]%elem_of_cons; [|by apply Hl].
  destruct (decide (p ∈ row_hashes b)) as [|Hn]; [done|]. exfalso. apply E. by apply find_row_None.
Qed.

Lemma supersedes_checked (r : WorkerReceipt) b b' :
  match wr_supersedes r with
  | None => mret tt
  | Some old =>
      match find_row old b with
      | Some row => if bool_decide (rw_task_id row = wr_task_id r) then mret tt
                    else sm_raise (EvidenceError "superseded receipt missing or belongs to another task")
      | None => sm_raise (EvidenceError "superseded receipt missing or belongs to another task")
      end
  end b = (Ok tt, b') → b' = b ∧ ∀ p, wr_supersedes r = Some p → p ∈ row_hashes b.
Proof.
  intros H. destruct (wr_supersedes r) as [old|]; [|injection H as <-; done].
  destruct (find_row old b) as [row|] eqn:E; [|done]. case_bool_decide; [|done]. injection H as <-. split; [done|].
  intros p [= <-]. apply find_row_Some in E as [Hr <-]. by apply list_elem_of_fmap_2.
Qed.

Lemma insert_row_Ok row b b' :
  insert_row row b = (Ok tt, b') →
  tables_are (b_receipts b ++ [row]) (b_artifacts b) (b_stale b) b' ∧ rw_hash row ∉ row_hashes b.
Proof.
  intros H. unfold insert_row, sm_lift, sm_get, mbind, SM_bind in H. destruct (sql_int _); [|done]. destruct (_ || _) eqn:E in H; [done|]. injection H as <-.
  split; [done|]. apply orb_false_iff in E as [E _]. rewrite existsb_false in E. intros Hin.
  apply list_elem_of_fmap in Hin as (q & Hq & Hin). specialize (E q Hin). rewrite bool_decide_true in E by done. done.
Qed.

(** The tables after the row of [r] was added to those that hold [ws]. *)
Lemma bus_holds_append b b' ws r h text queue :
  bus_holds b ws → receipt_ok r → receipt_hash r = Ok h → canonical (jobj (wire r h)) = Ok text →
  _hash (queue_value (queue_tail b) h) = Ok queue → h ∉ row_hashes b →
  (∀ p, p ∈ wr_parent_receipts r → p ∈ row_hashes b) → (∀ p, wr_supersedes r = Some p → p ∈ row_hashes b) →
  b_receipts b' = b_receipts b ++ [mkRow h text (wr_task_id r) (wr_swarm_id r) (wr_engine_name r) (wr_overall_verdict r)
                                     (wr_issued_at_ns r) (wr_supersedes r) (queue_tail b) queue] →
  wf_dict (b_artifacts b') → Forall artifact_row_ok (b_artifacts b') →
  (∀ k v, dget k (b_artifacts b) = Some v → dget k (b_artifacts b') = Some v) →
  (∀ a, a ∈ wr_artifacts r → ab_deleted a = false →
   ∃ sha data, ab_sha256 a = Some sha ∧ dget sha (b_artifacts b') = Some (data, ab_size_bytes a)) →
  bus_holds b' (ws ++ [r]).
Proof.
  intros [Hrows Hun Hpar Hsup (root & Hq & Hroot) _ _ Hby] Hr Hh Ht Hqh Hnew Hp Hs ER Hwf Hst Hkeep Hbytes.
  assert (row_hashes b' = row_hashes b ++ [h]) as EH by (unfold row_hashes; rewrite ER, fmap_app; done).
  assert (length (row_hashes b) = length ws) as EL by (unfold row_hashes; rewrite length_fmap; by apply Forall2_length in Hrows).
  assert (∀ i w, (ws ++ [r]) !! i = Some w → (i < length ws ∧ ws !! i = Some w) ∨ (i = length ws ∧ w = r)) as Hlk.
  { intros i w Hi. apply lookup_app_Some in Hi as [Hi|[Hge Hi]]; [left; split; [by eapply lookup_lt_Some|done]|right].
    destruct (i - length ws) as [|k] eqn:Ek; [|done]. injection Hi as <-. split; [lia|done]. }
  constructor; try done.
  - rewrite ER. apply Forall2_app; [done|]. constructor; [|done]. by constructor.
  - rewrite EH. apply NoDup_app. split_and!; [done| |by repeat constructor; apply not_elem_of_nil].
    intros x Hx Hx'. apply list_elem_of_singleton in Hx' as ->. done.
  - intros i w Hi p Hw. rewrite EH. destruct (Hlk i w Hi) as [[Hlt Hi']|[-> ->]].
    + rewrite take_app_le by lia. eauto.
    + rewrite <- EL, take_app_length. auto.
  - intros i w Hi p Hw. rewrite EH. destruct (Hlk i w Hi) as [[Hlt Hi']|[-> ->]].
    + rewrite take_app_le by lia. eauto.
    + rewrite <- EL, take_app_length. auto.
  - exists queue. split; [|unfold queue_tail; rewrite ER, last_snoc; done].
    rewrite ER, verify_rows_snoc, Hq. cbn [mbind res_bind verify_rows rw_hash rw_previous rw_queue_hash]. rewrite Hroot, Hqh.
    cbn [mbind res_bind]. rewrite !bool_decide_true by done. cbn [negb orb]. rewrite length_app. cbn. do 2 f_equal. lia.
  - intros w a Hw Ha Hd. apply elem_of_app in Hw as [Hw|Hw].
    + destruct (Hby w a Hw Ha Hd) as (sha & data & H1 & H2). exists sha, data. split; [done|]. by apply Hkeep.
    + apply list_elem_of_singleton in Hw as ->. by apply Hbytes.
Qed.

Section appending.
Context (clock : nat → Z).

Lemma append_tx_Ok r bytes b ems b' ws :
  receipt_ok r → check_bytes r bytes = Ok tt → bus_holds b ws → append_tx clock r bytes b = (Ok ems, b') →
  bus_holds b' (ws ++ [r]) ∧ b_stale b' = b_stale b.
Proof.
  intros Hr Hc Hb H. destruct (check_bytes_Ok r bytes Hr Hc) as [Hent Hcov]. unfold append_tx in H.
  apply sm_bind_Ok in H as (b0 & b1 & [= <- <-] & H). apply sm_bind_Ok in H as ([] & b1 & H1 & H).
  apply supersedes_checked in H1 as [-> Hsup]. apply sm_bind_Ok in H as ([] & b1 & H1 & H).
  apply (parents_checked r) in H1 as [-> Hpar]. apply sm_bind_Ok in H as ([] & b1 & H1 & H).
  apply store_all_Ok in H1 as ((R1 & _ & S1) & Hwf1 & Hst1 & Hk1 & Hd1); [|done|apply Hb|apply Hb].
  apply sm_bind_Ok in H as (text & b2 & E & H). apply sm_lift_Ok in E as [Et ->].
  apply sm_bind_Ok in H as (b2 & b3 & [= <- <-] & H). cbv zeta in H.
  apply sm_bind_Ok in H as (h & b2 & E & H). apply sm_lift_Ok in E as [Eh ->].
  apply sm_bind_Ok in H as (q & b2 & E & H). apply sm_lift_Ok in E as [Eq ->].
  apply sm_bind_Ok in H as ([] & b2 & H2 & H). apply insert_row_Ok in H2 as [T2 Hnew].
  assert (queue_tail b1 = queue_tail b) as EQ by (unfold queue_tail; by rewrite R1).
  assert (row_hashes b1 = row_hashes b) as ERH by (unfold row_hashes; by rewrite R1). rewrite ERH in Hnew. rewrite EQ in *.
  assert (canonical (jobj (wire r h)) = Ok text) as Etx.
  { apply bind_Ok in Et as (v & Ev & Et). unfold receipt_dict in Ev. rewrite Eh in Ev. injection Ev as <-. exact Et. }
  set (rows' := b_receipts b1 ++ _) in T2.
  assert (tables_are rows' (b_artifacts b1) (b_stale b1) b') as (TR & TA & TS).
  { revert H. apply keeps_Ok; [|exact T2].
    eauto 20 with sm. }
  split; [|by rewrite TS].
  eapply bus_holds_append; try done.
  - rewrite TR. subst rows'. by rewrite R1.
  - by rewrite TA.
  - by rewrite TA.
  - by rewrite TA.
  - intros a Ha Hd. destruct (Hcov a Ha Hd) as (data & Hin & Hs & Hl). exists (sha256_hex data), data. split; [done|].
    rewrite TA, <- Hl. by apply (Hd1 (ab_path a, data)).
Qed.

Lemma append_cases r bytes b ws :
  receipt_ok r → bus_holds b ws →
  match append clock r bytes b with
  | (Ok _, b') => bus_holds b' (ws ++ [r]) ∧ b_stale b' = b_stale b
  | (Raise _, b') => tables_are (b_receipts b) (b_artifacts b) (b_stale b) b'
  end.
Proof.
  intros Hr Hb. unfold append. destruct (negb _); [by apply tables_refl|].
  unfold mbind at 1, SM_bind at 1, sm_lift. destruct (check_bytes r bytes) as [[]|e] eqn:Ec; [|by apply tables_refl].
  unfold mbind at 1, SM_bind at 1, tx. destruct (append_tx clock r bytes b) as [[ems|e] b1] eqn:Ea; [|done].
  destruct (append_tx_Ok r bytes b ems b1 ws Hr Ec Hb Ea) as [Hb1 Hs1].
  assert (preserves (tables_are (b_receipts b1) (b_artifacts b1) (b_stale b1)) (sm_for ems _observe)) as Hk
    by (apply preserves_for; intros; apply keeps_observe).
  specialize (Hk b1 (tables_refl b1)). destruct (sm_for ems _observe b1) as [[[]|e] b2] eqn:Eo.
  - split; [by eapply bus_holds_tables|]. destruct Hk as (_ & _ & ->). done.
  - exfalso. clear -Eo. revert b1 b2 Eo. induction ems as [|v ems IH]; intros b1 b2 Eo; [done|]. by apply IH in Eo.
Qed.
End appending.
