(* ===== verification/BusTheorems.v ===== *)
(** * What the Evidence Bus and the Station issuer guarantee *)

From Stdlib Require Import ZArith NArith Lia.
From stdpp Require Import relations.
From S2P Require Import Prelude PyData Sha256 PyFloat Json JsonFacts Core CoreFacts Storage Builtins Graph JsonPlain Plan PlanFacts WorkerContract EvidenceReceipts ReceiptFacts EvidenceBus BusFacts.

(** ** Consumption *)
Lemma checks_pass b ws w : bus_holds b ws → w ∈ ws → for_all (wr_artifacts w) (check_artifact b) = Ok tt.
Proof.
  intros Hb Hw. apply for_all_Ok, Forall_forall. intros a Ha. unfold check_artifact.
  destruct (ab_deleted a) eqn:Ed; [done|]. destruct (bh_bytes _ _ Hb w a Hw Ha Ed) as (sha & data & Hs & Hg).
  rewrite Hs. cbn [default]. unfold id. rewrite Hg.
  pose proof (bh_store _ _ Hb) as Hst. rewrite Forall_forall in Hst. destruct (Hst _ (dget_Some_elem _ _ _ Hg)) as [H1 H2].
  cbn [fst snd] in H1, H2. rewrite H2, Z.eqb_refl, H1, bool_decide_true by done. done.
Qed.

Lemma stored_elem b ws h w : stored b ws h w → w ∈ ws.
Proof. intros (i & row & _ & Hw & _). by eapply list_elem_of_lookup_2. Qed.

Lemma consumable_spec verify h key b ws r :
  bus_holds b ws → lower_hex 64 h = true →
  consumable verify h key b = Ok r ↔
  stored b ws h r ∧ StationIdentity_verify verify r key = Ok true ∧ (¬ stale b ws h ∨ dmem h (b_stale b) = true).
Proof.
  intros Hb Hh. unfold consumable. split.
  - intros H. apply bind_Ok in H as (w & Hg & H). apply (get_stored b ws h w Hb Hh) in Hg.
    apply bind_Ok in H as (v & Hv & H). destruct v; [|done]. cbn [negb] in H.
    apply bind_Ok in H as ([] & _ & H). destruct (is_stale_spec b ws h w Hb Hg) as (st & Est & Hst).
    rewrite Est in H. cbn [mbind res_bind] in H. destruct (st && _) eqn:Ec; [done|]. injection H as <-.
    split_and!; [done|done|]. destruct st; [right|left; intros Hs; by apply Hst in Hs].
    cbn in Ec. by apply negb_false_iff in Ec.
  - intros (Hs & Hv & Hst). rewrite (proj2 (get_stored b ws h r Hb Hh) Hs). cbn [mbind res_bind].
    rewrite Hv. cbn [mbind res_bind negb]. rewrite (checks_pass b ws r Hb (stored_elem _ _ _ _ Hs)). cbn [mbind res_bind].
    destruct (is_stale_spec b ws h r Hb Hs) as (st & Est & Hiff). rewrite Est. cbn [mbind res_bind].
    destruct Hst as [Hst| ->]; [|by rewrite andb_false_r]. destruct st; [|done]. exfalso. by apply Hst, Hiff.
Qed.

(** ** Histories *)
Section history.
Context (clock : nat → Z) (verify : list N → list N → list N → bool) (edsign : list N → list N) (key_id : pystr) (new_id : nat → pystr).

Inductive BusOp : Type :=
| BAppend (r : WorkerReceipt) (bytes : dict (list N))
| BApprove (h approved_by reason : pystr)
| BQuery (q : Query)
| BArtifact (h path : pystr) (key : list N)
| BDependencies (c : WorkerContract) (hs : list pystr) (key : list N)
| BIssue (c : WorkerContract) (result : RuntimeResult) (ws : Workspace) (d : VerificationDecision)
         (parents : list pystr) (supersedes : option pystr).

(** Receipts and bindings reach [append] through their constructors. *)
Definition bus_op (op : BusOp) : SM Bus unit :=
  match op with
  | BAppend r bytes =>
      r ← sm_lift (_ ← mapM ArtifactBinding_init (wr_artifacts r); WorkerReceipt_init r);
      append clock r bytes
  | BApprove h approved_by reason => approve_stale clock h approved_by reason
  | BQuery q => _ ← query clock q; mret tt
  | BArtifact h path key => _ ← artifact clock verify h path key; mret tt
  | BDependencies c hs key => _ ← admit_dependencies clock verify c hs key; mret tt
  | BIssue c result ws d parents supersedes =>
      _ ← issue clock edsign key_id new_id c result ws d parents supersedes; mret tt
  end.

Definition bus_run (ops : list BusOp) (b : Bus) : Bus := foldl (λ b op, (bus_op op b).2) b ops.

Lemma bind_snd {A} (m : SM Bus A) b : ((_ ← m; mret tt) b).2 = (m b).2.
Proof. unfold mbind, SM_bind. by destruct (m b) as [[a|e] b']. Qed.

Lemma init_receipt_ok r r' arts :
  mapM ArtifactBinding_init (wr_artifacts r) = Ok arts → WorkerReceipt_init r = Ok r' → receipt_ok r'.
Proof.
  intros Ha Hi. destruct (WorkerReceipt_init_Ok r r' Hi) as [-> Hn]. constructor; [done|].
  cbn [normal wr_artifacts]. rewrite sort_by_perm. apply mapM_res_Ok in Ha. clear Hi Hn.
  remember (wr_artifacts r) as l eqn:E. clear E. induction Ha as [|x y l k Hx _ IH]; constructor; [|done].
  by apply ArtifactBinding_init_ok in Hx as [_ Hx].
Qed.

(** Operations that add no receipt keep the stored ones. *)
Definition same_store (rows : list ReceiptRow) (store : dict (list N * Z)) (b : Bus) : Prop :=
  b_receipts b = rows ∧ b_artifacts b = store.

Lemma keeps_store {A} (m : SM Bus A) rows store :
  (∀ appr, preserves (tables_are rows store appr) m) → preserves (same_store rows store) m.
Proof.
  intros H b [Hr Hs]. specialize (H (b_stale b) b ltac:(by repeat split)).
  destruct (m b) as [[a|e] b']; destruct H as (? & ? & _); by split.
Qed.

Lemma keeps_holds {A} (m : SM Bus A) b ws :
  (∀ rows store, preserves (same_store rows store) m) → bus_holds b ws → bus_holds (m b).2 ws.
Proof.
  intros Hm Hb. specialize (Hm (b_receipts b) (b_artifacts b) b (conj eq_refl eq_refl)).
  assert (∀ b', same_store (b_receipts b) (b_artifacts b) b' → bus_holds b' ws) as H.
  { intros b' [H1 H2]. by apply (bus_holds_store b). }
  destruct (m b) as [[a|e] b']; by apply H.
Qed.

Lemma emit_keeps name data rows store : preserves (same_store rows store) (_emit clock name data).
Proof. apply keeps_store. intros. apply keeps_emit. Qed.

Lemma tx_keeps {A} (m : SM Bus A) rows store : preserves (same_store rows store) m → preserves (same_store rows store) (tx m).
Proof. intros H b Hb. specialize (H b Hb). unfold tx. destruct (m b) as [[a|e] b']; [done|exact Hb]. Qed.
Hint Resolve emit_keeps tx_keeps : sm.

Lemma approve_keeps h by_ why rows store : preserves (same_store rows store) (approve_stale clock h by_ why).
Proof.
  unfold approve_stale. apply preserves_if; intros _; [auto with sm|]. apply preserves_bind; [auto with sm|]. intros b.
  apply preserves_bind; [auto with sm|]. intros st. apply preserves_if; intros _; [auto with sm|].
  apply preserves_bind; [|auto with sm]. apply tx_keeps. apply preserves_bind; [auto with sm|]. intros b'.
  apply preserves_bind; [by apply preserves_mod|]. intros _.
  apply preserves_bind; [auto with sm|]. intros _. apply preserves_if; intros _; [auto with sm|by apply preserves_mod].
Qed.

Lemma query_keeps q rows store : preserves (same_store rows store) (query clock q).
Proof. unfold query. eauto 10 with sm. Qed.

Lemma artifact_keeps h p k rows store : preserves (same_store rows store) (artifact clock verify h p k).
Proof.
  unfold artifact. apply preserves_bind; [auto with sm|]. intros b. apply preserves_bind; [auto with sm|]. intros r.
  destruct (filter _ _) as [|a [|? ?]]; [auto with sm| |auto with sm]. apply preserves_if; intros _; [auto with sm|].
  destruct (dget _ _) as [[data z]|]; eauto with sm.
Qed.

Lemma dependencies_keep c hs k rows store : preserves (same_store rows store) (admit_dependencies clock verify c hs k).
Proof. unfold admit_dependencies. eauto 20 with sm. Qed.

(** *** Issuing *)
(** What the workspace shows of one entry of the candidate's tree, and the binding
    that stands for it. *)
Definition item_intact (ws : Workspace) (item : pystr * option pystr) : Prop :=
  ws_inside ws item.1 = true ∧
  match item.2 with
  | None => ws_file ws item.1 = FMissing
  | Some expected => ∃ data, ws_file ws item.1 = FRegular data ∧ sha256_hex data = expected
  end.
Definition binds (ws : Workspace) (item : pystr * option pystr) (a : ArtifactBinding) : Prop :=
  ab_path a = item.1 ∧ ab_sha256 a = item.2 ∧ ab_deleted a = bool_decide (item.2 = None) ∧
  (∀ data, ws_file ws item.1 = FRegular data → item.2 ≠ None → ab_size_bytes a = Z.of_nat (length data)).

Lemma candidate_items_ok ws items arts content :
  candidate_items ws items = Ok (arts, content) →
  Forall binding_ok arts ∧ Forall (item_intact ws) items ∧ Forall2 (binds ws) items arts.
Proof.
  revert arts content. induction items as [|[path exp] items IH]; intros arts content H; cbn [candidate_items] in H.
  { injection H as <- <-. split_and!; constructor. }
  destruct (negb _) eqn:Ei; [done|]. apply negb_false_iff in Ei.
  apply bind_Ok in H as ([a c] & Ha & H). apply bind_Ok in H as ([arts' rest] & Hr & H).
  injection H as <- <-. apply IH in Hr as (Hok & Hi & Hf).
  assert (binding_ok a ∧ item_intact ws (path, exp) ∧ binds ws (path, exp) a) as (Hb & Hd & Hs).
  { unfold item_intact, binds. cbn [fst snd]. destruct exp as [expected|]; destruct (ws_file ws path) as [|data|] eqn:Ef; try done.
    - destruct (negb _) eqn:Es; [done|]. apply negb_false_iff, bool_decide_eq_true in Es.
      apply bind_Ok in Ha as (a' & Ha & [= <- <-]). apply ArtifactBinding_init_ok in Ha as [-> Ha]. split_and!; eauto. by intros ? [= ->] _.
    - apply bind_Ok in Ha as (a' & Ha & [= <- <-]). apply ArtifactBinding_init_ok in Ha as [-> Ha]. by split_and!. }
  split_and!; by constructor.
Qed.

Lemma bound_file ws items arts a :
  Forall (item_intact ws) items → Forall2 (binds ws) items arts → a ∈ arts → ab_deleted a = false →
  ∃ data, ws_file ws (ab_path a) = FRegular data ∧ ab_sha256 a = Some (sha256_hex data).
Proof.
  intros Hi Hb Ha Hd. apply list_elem_of_lookup in Ha as [k Hk]. destruct (Forall2_lookup_r _ _ _ _ _ Hb Hk) as ([path exp] & Hx & -> & -> & He & _).
  rewrite Hd in He. destruct (Forall_lookup_1 _ _ _ _ Hi Hx) as [_ Hf]. cbn [fst snd] in *. destruct exp as [e|]; [|done].
  destruct Hf as (data & Hf & <-). by exists data.
Qed.

(** What the issuer has checked when it returns [r]. *)
Record issued (c : WorkerContract) (result : RuntimeResult) (ws : Workspace) (d : VerificationDecision)
    (parents : list pystr) (supersedes : option pystr) (r : WorkerReceipt) : Prop := {
  is_verdict : vd_verdict d = str "pass";
  is_acceptance : ∀ x, x ∈ wc_acceptance c → (x, str "pass") ∈ vd_results d;
  is_requirements : ∀ x, x ∈ wc_requirements c → (x, true) ∈ vd_requirements_met d;
  is_contract : contract_hash c = Ok (wr_contract_hash r) ∧ rt_contract_hash result = wr_contract_hash r;
  is_plan : wr_execution_plan_hash r = wc_execution_plan_hash c ∧ rt_execution_plan_hash result = wr_execution_plan_hash r;
  is_task : wr_task_id r = wc_task_id c ∧ wr_attempt_id r = wc_attempt_id c ∧ rt_attempt_id result = wc_attempt_id c;
  is_candidate : rt_status result = str "CANDIDATE";
  (* the receipt lists exactly the entries of the candidate's tree, each as the
     workspace shows it and with the hash the candidate was built with *)
  is_tree : ∃ tree arts, rt_candidate result = Some tree ∧ Forall (item_intact ws) (ct_artifacts tree) ∧
    Forall2 (binds ws) (ct_artifacts tree) arts ∧ wr_artifacts r ≡ₚ arts ∧
    wr_input_commit r = ct_input_commit tree ∧ wr_output_commit r = ct_output_commit tree;
  is_files : ∀ a, a ∈ wr_artifacts r → ab_deleted a = false →
    ∃ data, ws_file ws (ab_path a) = FRegular data ∧ ab_sha256 a = Some (sha256_hex data);
  is_parents : wr_parent_receipts r ≡ₚ parents ∧ wr_supersedes r = supersedes;
  is_signed : ∃ h s, receipt_hash r = Ok h ∧ sign edsign h = Ok s ∧ wr_station_signature r = s ∧ wr_station_key_id r = key_id
}.

Lemma subset_elem l (s : list pystr) x : not_subset l (list_to_set s) = false → x ∈ l → x ∈ s.
Proof. rewrite not_subset_false. intros H Hx. specialize (H x Hx). by apply elem_of_list_to_set in H. Qed.

Lemma _issue_Ok c result ws d parents sup b r b' rs :
  bus_holds b rs → _issue clock edsign key_id new_id c result ws d parents sup b = (Ok r, b') →
  issued c result ws d parents sup r ∧ bus_holds b' (rs ++ [r]) ∧ b_stale b' = b_stale b.
Proof.
  intros Hb H. unfold _issue in H. apply sm_bind_Ok in H as (ch & b1 & E & H). apply sm_lift_Ok in E as [Ech ->].
  apply sm_bind_Ok in H as ([] & b1 & E & H). apply sm_lift_Ok in E as [Ec ->]. cbv zeta in Ec. repeat init_step Ec. clear Ec.
  apply orb_false_iff in G as [G G']. apply negb_false_iff, bool_decide_eq_true in G, G', G0.
  apply orb_false_iff in G1 as [G1 _]. apply negb_false_iff, bool_decide_eq_true in G1.
  apply sm_bind_Ok in H as ([arts content] & b1 & E & H). apply sm_lift_Ok in E as [Ea ->].
  apply sm_bind_Ok in H as (b0 & b1 & [= <- <-] & H). apply sm_bind_Ok in H as ([] & b1 & E & H). injection E as <-. cbv zeta in H.
  apply sm_bind_Ok in H as (sg & b1 & E & H). apply sm_lift_Ok in E as [Es ->].
  apply sm_bind_Ok in H as (r0 & b1 & E & H). apply sm_lift_Ok in E as [Er ->].
  apply sm_bind_Ok in H as ([] & b1 & Happ & E). injection E as <- <-.
  unfold _candidate_bytes in Ea. destruct (rt_candidate result) as [tree|] eqn:Et; [|done].
  destruct (negb _) eqn:Est in Ea; [done|]. apply negb_false_iff, bool_decide_eq_true in Est.
  apply bind_Ok in Ea as ([arts' cont'] & Ea & [= <- <-]). apply candidate_items_ok in Ea as (Hbind & Hintact & Hfiles).
  apply bind_Ok in Es as (h & Eh & Es). destruct (WorkerReceipt_init_Ok _ _ Er) as [En Hn].
  assert (receipt_ok r0) as Hok.
  { constructor; [done|]. rewrite En. cbn [normal wr_artifacts]. by rewrite sort_by_perm. }
  assert (receipt_hash r0 = Ok h) as Hh by (rewrite En; exact Eh).
  split.
  - constructor; try done.
    + intros x Hx. pose proof (subset_elem _ _ x G2 Hx) as Hp. apply list_elem_of_fmap in Hp as ([k v] & -> & Hp).
      apply list_elem_of_filter in Hp as [Hv Hp]. cbn in Hv. by subst v.
    + intros x Hx. pose proof (subset_elem _ _ x G3 Hx) as Hp. apply list_elem_of_fmap in Hp as ([k v] & -> & Hp).
      apply list_elem_of_filter in Hp as [Hv Hp]. cbn in Hv. by subst v.
    + by rewrite En.
    + by rewrite En.
    + by rewrite En.
    + exists tree, arts'. split_and!; try done; rewrite En; cbn [normal wr_artifacts wr_input_commit wr_output_commit]; [by rewrite sort_by_perm|done..].
    + rewrite En. cbn [normal wr_artifacts]. intros a Ha. rewrite elem_of_sort_by in Ha. by eapply bound_file.
    + rewrite En. cbn [normal wr_parent_receipts wr_supersedes]. by rewrite sort_by_perm.
    + exists h, sg. split_and!; [done|done|by rewrite En|by rewrite En].
  - assert (bus_holds (ticked (S (b_tick b)) b) rs) as Hb1 by (by apply (bus_holds_store b)).
    pose proof (append_cases clock r0 (dict_of cont') _ rs Hok Hb1) as Hap. rewrite Happ in Hap. done.
Qed.

(** An [append] that raises leaves the tables as they were. *)
Lemma append_raises r bytes b e b' :
  append clock r bytes b = (Raise e, b') → b_receipts b' = b_receipts b ∧ b_artifacts b' = b_artifacts b.
Proof.
  unfold append. destruct (negb _); [by intros [= <- <-]|]. unfold mbind at 1, SM_bind at 1, sm_lift.
  destruct (check_bytes r bytes) as [[]|e']; [|by intros [= <- <-]].
  unfold mbind at 1, SM_bind at 1, tx. destruct (append_tx clock r bytes b) as [[ems|e'] b1]; [|by intros [= <- <-]].
  intros H. exfalso. clear -H. revert b1 H. induction ems as [|v ems IH]; intros b1 H; [done|]. by apply IH in H.
Qed.

Lemma append_triple r bytes rows store :
  triple (same_store rows store) (append clock r bytes) (λ _ _, True) (λ _, same_store rows store).
Proof.
  intros b [Hr Hs]. destruct (append clock r bytes b) as [[[]|e] b'] eqn:E; [done|].
  apply append_raises in E as [E1 E2]. split; congruence.
Qed.

Lemma issue_triple c result ws d parents sup rows store :
  triple (same_store rows store) (_issue clock edsign key_id new_id c result ws d parents sup) (λ _ _, True) (λ _, same_store rows store).
Proof.
  unfold _issue. eapply triple_bind; [apply preserves_lift|]. intros ch. eapply triple_bind; [apply preserves_lift|]. intros ?.
  eapply triple_bind; [apply preserves_lift|]. intros [arts content]. eapply triple_bind; [apply preserves_get|]. intros b.
  eapply triple_bind; [by apply preserves_mod|]. intros ?. cbv zeta. eapply triple_bind; [apply preserves_lift|]. intros sg.
  eapply triple_bind; [apply preserves_lift|]. intros r. eapply triple_bind; [apply append_triple|]. intros ?. by apply triple_ret.
Qed.

Lemma issue_cases c result ws d parents sup b rs :
  bus_holds b rs →
  match issue clock edsign key_id new_id c result ws d parents sup b with
  | (Ok r, b') => issued c result ws d parents sup r ∧ bus_holds b' (rs ++ [r]) ∧ b_stale b' = b_stale b
  | (Raise _, b') => same_store (b_receipts b) (b_artifacts b) b' ∧ bus_holds b' rs
  end.
Proof.
  intros Hb. unfold issue, sm_try.
  pose proof (issue_triple c result ws d parents sup (b_receipts b) (b_artifacts b) b (conj eq_refl eq_refl)) as Ht.
  destruct (_issue _ _ _ _ _ _ _ _ _ _ b) as [[r|e] b1] eqn:E; [by apply _issue_Ok|].
  assert (∀ b2, same_store (b_receipts b) (b_artifacts b) b2 → same_store (b_receipts b) (b_artifacts b) b2 ∧ bus_holds b2 rs) as Hs
    by (intros b2 Hb2; split; [done|]; destruct Hb2; by apply (bus_holds_store b)).
  destruct (is_EvidenceError e); [|by apply Hs].
  pose proof (preserves_bind _ _ (λ _, sm_raise (A := WorkerReceipt) e)
    (emit_keeps "CandidateRejected" [("attempt_id", JStr (wc_attempt_id c)); ("task_id", JStr (wc_task_id c)); ("reason", JStr (str "EvidenceError"))]
       (b_receipts b) (b_artifacts b)) (λ _, preserves_raise _ e) b1 Ht) as Hk.
  destruct ((_ ← _emit _ _ _; sm_raise e) b1) as [[r|e'] b2] eqn:E2; [|by apply Hs].
  exfalso. apply sm_bind_Ok in E2 as (? & ? & _ & E2). done.
Qed.

Lemma bus_op_holds op b ws : bus_holds b ws → ∃ ws', bus_holds (bus_op op b).2 (ws ++ ws').
Proof.
  intros Hb. destruct op; cbn [bus_op].
  - unfold mbind at 1, SM_bind at 1, sm_lift at 1.
    destruct (mapM ArtifactBinding_init (wr_artifacts r)) as [arts|e] eqn:Ea; cbn [mbind res_bind]; [|exists []; by rewrite app_nil_r].
    destruct (WorkerReceipt_init r) as [r'|e] eqn:Ei; [|exists []; by rewrite app_nil_r].
    pose proof (append_cases clock r' bytes b ws (init_receipt_ok _ _ _ Ea Ei) Hb) as H.
    destruct (append clock r' bytes b) as [[[]|e] b']; [exists [r']; apply H|]. exists []. rewrite app_nil_r. by apply (bus_holds_tables b).
  - exists []. rewrite app_nil_r. apply keeps_holds; [|done]. intros. apply approve_keeps.
  - exists []. rewrite app_nil_r, bind_snd. apply keeps_holds; [|done]. intros. apply query_keeps.
  - exists []. rewrite app_nil_r, bind_snd. apply keeps_holds; [|done]. intros. apply artifact_keeps.
  - exists []. rewrite app_nil_r, bind_snd. apply keeps_holds; [|done]. intros. apply dependencies_keep.
  - rewrite bind_snd. pose proof (issue_cases c result ws0 d parents supersedes b ws Hb) as H.
    destruct (issue _ _ _ _ _ _ _ _ _ _ b) as [[r|e] b']; [exists [r]; apply H|exists []; rewrite app_nil_r; apply H].
Qed.

Lemma bus_run_holds ops b ws : bus_holds b ws → ∃ ws', bus_holds (bus_run ops b) (ws ++ ws').
Proof.
  revert b ws. induction ops as [|op ops IH]; intros b ws Hb; [exists []; by rewrite app_nil_r|].
  destruct (bus_op_holds op b ws Hb) as [w1 H1]. destruct (IH _ _ H1) as [w2 H2]. exists (w1 ++ w2). by rewrite app_assoc.
Qed.

Lemma Bus_new_holds : bus_holds Bus_new [].
Proof. constructor; try done; [constructor|exists zero_hash; done|constructor|]. intros w a Hw. by apply not_elem_of_nil in Hw. Qed.
End history.

(** C31: The bus is an append-only chain.  After any sequence of appends,
    approvals, reads and issues, the tables hold a list of well-formed receipts,
    each row storing exactly one; parents and superseded receipts stand earlier
    in the list; every artifact of a receipt is in the store under its hash; the
    queue verifies with one link per receipt; and whatever happens later, these
    receipts stay a prefix of the list. *)
Theorem bus_append_only clock verify edsign key_id new_id ops1 ops2 :
  ∃ ws ws' root,
    bus_holds (bus_run clock verify edsign key_id new_id ops1 Bus_new) ws ∧
    bus_holds (bus_run clock verify edsign key_id new_id (ops1 ++ ops2) Bus_new) (ws ++ ws') ∧
    verify_queue (bus_run clock verify edsign key_id new_id (ops1 ++ ops2) Bus_new)
    = Ok (jobj [("receipts", JInt (Z.of_nat (length (ws ++ ws')))); ("queue_root", JStr root)]).
Proof.
  destruct (bus_run_holds clock verify edsign key_id new_id ops1 Bus_new [] Bus_new_holds) as [ws H1].
  destruct (bus_run_holds clock verify edsign key_id new_id ops2 _ _ H1) as [ws' H2].
  destruct (bh_queue _ _ H2) as (root & Hq & _). exists ws, ws', root. rewrite app_nil_l in *.
  assert (bus_run clock verify edsign key_id new_id (ops1 ++ ops2) Bus_new
    = bus_run clock verify edsign key_id new_id ops2 (bus_run clock verify edsign key_id new_id ops1 Bus_new)) as ->
    by (unfold bus_run; by rewrite foldl_app).
  split_and!; [done|done|]. unfold verify_queue. by rewrite Hq.
Qed.

(** C4: Consumption is exact.  On every bus reached by its operations, a
    receipt is handed to a consumer exactly when it is stored under the
    requested hash, the Station's signature over it verifies, and neither it nor
    any receipt it was derived from has been superseded, unless a human approved
    it; the search for superseded ancestors always ends and stored artifacts
    always match. *)
Theorem consumable_exact clock verify edsign key_id new_id ops h key :
  lower_hex 64 h = true →
  let b := bus_run clock verify edsign key_id new_id ops Bus_new in
  ∃ ws, bus_holds b ws ∧ ∀ r,
    consumable verify h key b = Ok r ↔
    stored b ws h r ∧ StationIdentity_verify verify r key = Ok true ∧ (¬ stale b ws h ∨ dmem h (b_stale b) = true).
Proof.
  intros Hh b. destruct (bus_run_holds clock verify edsign key_id new_id ops Bus_new [] Bus_new_holds) as [ws Hb].
  exists ws. split; [done|]. intros r. by apply consumable_spec.
Qed.

(** ** Signatures *)
Lemma hex_value_digit x : (x < 16)%N → hex_value (hex_digit x) = Some x ∧ is_ascii_space (hex_digit x) = false.
Proof.
  intros Hx. assert (Forall (λ x, hex_value (hex_digit x) = Some x ∧ is_ascii_space (hex_digit x) = false) (N.of_nat <$> seq 0 16)) as H
    by (repeat constructor).
  rewrite Forall_forall in H. apply H. apply list_elem_of_fmap. exists (N.to_nat x). split; [lia|]. apply elem_of_seq. lia.
Qed.

Lemma fromhex_hex bytes :
  Forall (λ x, (x < 256)%N) bytes → fromhex (mjoin ((λ x, [hex_digit (x / 16); hex_digit (x mod 16)]) <$> bytes)) = Some bytes.
Proof.
  induction 1 as [|x l Hx _ IH]; [done|].
  change (mjoin ((λ x, [hex_digit (x / 16); hex_digit (x mod 16)]) <$> x :: l))
    with (hex_digit (x / 16) :: hex_digit (x mod 16) :: mjoin ((λ x, [hex_digit (x / 16); hex_digit (x mod 16)]) <$> l)).
  destruct (hex_value_digit (x / 16)) as [H1 H1']; [apply N.Div0.div_lt_upper_bound; lia|].
  destruct (hex_value_digit (x mod 16)) as [H2 _]; [apply N.mod_lt; lia|].
  cbn [fromhex]. rewrite H1', H1, H2, IH. cbn. do 2 f_equal. pose proof (N.div_mod x 16 ltac:(lia)). lia.
Qed.

(** ** A fresh receipt is not stale *)
Section fresh.
Context (b b' : Bus) (rs : list WorkerReceipt) (r : WorkerReceipt) (h : pystr).
Context (Hb : bus_holds b rs) (Hb' : bus_holds b' (rs ++ [r])) (Hh : receipt_hash r = Ok h).

Lemma rows_of_receipts c ws : bus_holds c ws → Forall2 (λ w x, receipt_hash w = Ok x) ws (row_hashes c).
Proof.
  intros H. unfold row_hashes. apply Forall2_fmap_r. apply Forall2_flip. eapply Forall2_impl; [exact (bh_rows _ _ H)|].
  intros row w Hr. exact (ro_hash _ _ Hr).
Qed.

Lemma fresh_hashes : row_hashes b' = row_hashes b ++ [h].
Proof using Hb Hb' Hh.
  pose proof (rows_of_receipts b rs Hb) as H1. pose proof (rows_of_receipts b' _ Hb') as H2.
  apply Forall2_app_inv_l in H2 as (k1 & k2 & Hk1 & Hk2 & ->).
  assert (k1 = row_hashes b) as ->.
  { clear -H1 Hk1. revert k1 Hk1. induction H1 as [|w x ws xs Hw _ IH]; intros k1 Hk1; inversion Hk1 as [|? y ? k Hy Hk]; subst; [done|].
    rewrite (IH k Hk). f_equal. congruence. }
  inversion Hk2 as [|? y ? k Hy Hk]; subst. inversion Hk; subst. do 2 f_equal. congruence.
Qed.

Lemma stored_old x w : x ∈ row_hashes b → stored b' (rs ++ [r]) x w → stored b rs x w.
Proof using Hb Hb' Hh.
  intros Hx Hs. apply (stored_dget _ _ _ _ Hb') in Hs. apply (stored_dget _ _ _ _ Hb).
  rewrite fresh_hashes in Hs. assert (length (row_hashes b) = length rs) as El by (by rewrite <- (Forall2_length _ _ _ (rows_of_receipts b rs Hb))).
  rewrite zip_with_app in Hs by done. assert (x ∈ (zip (row_hashes b) rs).*1) as Hin by (by rewrite (bus_pairs b rs Hb)).
  revert Hs Hin. generalize (zip_with pair (row_hashes b) rs). intros l.
  induction l as [|[k v] l IH]; intros Hs Hin; [by apply not_elem_of_nil in Hin|]. cbn in *. case_decide; [done|].
  apply IH; [done|]. by apply elem_of_cons in Hin as [->|Hin].
Qed.

Lemma ancestors_old x y : x ∈ row_hashes b → rtc (parent_rel b' (rs ++ [r])) x y → rtc (parent_rel b rs) x y ∧ y ∈ row_hashes b.
Proof using Hb Hb' Hh.
  intros Hx Hr. induction Hr as [x|x z y (w & Hw & Hz) _ IH]; [done|].
  apply (stored_old x w Hx) in Hw. destruct (parents_stored b rs x w z Hb Hw Hz) as (wz & i & row & Hi & _ & Ez).
  destruct IH as [H1 H2]; [apply list_elem_of_fmap; exists row; split; [done|by eapply list_elem_of_lookup_2]|].
  split; [|done]. eapply rtc_l; [|exact H1]. by exists w.
Qed.

Lemma fresh_not_stale :
  wr_supersedes r = None → (∀ p, p ∈ wr_parent_receipts r → ¬ stale b rs p) → ¬ stale b' (rs ++ [r]) h.
Proof using Hb Hb' Hh.
  intros Hs Hp (x & Hx & w & Hw & Hsup). assert (h ∉ row_hashes b) as Hnew.
  { pose proof (bh_unique _ _ Hb') as Hn. rewrite fresh_hashes in Hn. apply NoDup_app in Hn as (_ & Hn & _).
    intros Hin. apply (Hn h Hin). left. }
  apply elem_of_app in Hw as [Hw|Hw]; [|apply list_elem_of_singleton in Hw; congruence].
  apply list_elem_of_lookup in Hw as [i Hi]. pose proof (bh_superseded _ _ Hb i w Hi x Hsup) as Hxb.
  assert (x ∈ row_hashes b) as Hxb' by (eapply elem_of_sublist; [exact Hxb|apply sublist_take]).
  inversion Hx as [?|? p ? (wr & Hst & Hin) Hpx]; subst; [done|].
  assert (wr = r) as ->.
  { apply (stored_dget _ _ _ _ Hb') in Hst. assert (stored b' (rs ++ [r]) h r) as Hr.
    { apply (stored_dget _ _ _ _ Hb'). apply dget_elem; [unfold wf_dict; rewrite (bus_pairs _ _ Hb'); apply Hb'|].
      rewrite fresh_hashes. rewrite zip_with_app by (by rewrite <- (Forall2_length _ _ _ (rows_of_receipts b rs Hb))).
      apply elem_of_app. right. left. }
    apply (stored_dget _ _ _ _ Hb') in Hr. congruence. }
  assert (p ∈ row_hashes b) as Hpb.
  { assert ((rs ++ [r]) !! length rs = Some r) as Hl by (rewrite lookup_app_r, Nat.sub_diag by lia; done).
    pose proof (bh_parents _ _ Hb' (length rs) r Hl p Hin) as Hq. rewrite fresh_hashes in Hq.
    rewrite (Forall2_length _ _ _ (rows_of_receipts b rs Hb)), take_app_length in Hq. done. }
  destruct (ancestors_old p x Hpb Hpx) as [Hpx' _]. apply (Hp p Hin). exists x. split; [done|]. exists w. split; [|done].
  by eapply list_elem_of_lookup_2.
Qed.
End fresh.


(** ** Witnesses *)
Definition demo_hash : pystr := replicate 64 97%N.
Definition demo_c : WorkerContract :=
  mkContract (str "task.a") (str "w1") (str "swarm") demo_hash (str "att1") (str "lease1") 1 (replicate 40 48%N)
    (str "/ws") [] [str "out/"] [] [str "a"] [str "ok"] [] [] [] 100 (float_of_Z 60) 2 1 64 None (str "local").
Definition demo_c_hash : pystr := match contract_hash demo_c with Ok h => h | Raise _ => [] end.
Definition demo_file : list N := [104; 105]%N.
Definition demo_result : RuntimeResult :=
  mkRuntimeResult (str "att1") (str "CANDIDATE") demo_c_hash demo_hash
    (Some (mkCandidate (replicate 40 48%N) (replicate 40 49%N) [(str "out/x", Some (sha256_hex demo_file))])) (str "e") (str "1").
Definition demo_ws : Workspace := mkWorkspace (λ _, true) (λ p, if bool_decide (p = str "out/x") then FRegular demo_file else FMissing).
Definition demo_decision : VerificationDecision :=
  mkDecision [(str "a", true)] [(str "ok", str "pass")] (str "pass") (str "station") demo_hash.
Definition demo_pub : list N := replicate 32 7%N.
(** A toy signature scheme: the signature is the length of the message. *)
Definition demo_sign (m : list N) : list N := [N.of_nat (length m) mod 256]%N.
Definition demo_verify (pub sig m : list N) : bool := bool_decide (sig = demo_sign m).

Lemma demo_sign_bytes m : Forall (λ x, (x < 256)%N) (demo_sign m).
Proof. repeat constructor. apply N.mod_lt. lia. Qed.


Lemma consumable_exact_witness :
  ∃ ws, bus_holds (bus_run (λ n, Z.of_nat n + 1)%Z demo_verify demo_sign (sha256_hex demo_pub) (λ _, str "id")
    [BIssue demo_c demo_result demo_ws demo_decision [] None] Bus_new) ws.
Proof.
  destruct (consumable_exact (λ n, Z.of_nat n + 1)%Z demo_verify demo_sign (sha256_hex demo_pub) (λ _, str "id")
    [BIssue demo_c demo_result demo_ws demo_decision [] None] demo_hash demo_pub) as (ws & H & _).
  - vm_compute. reflexivity.
  - exists ws. exact H.
Defined.
