(* ===== verification/M4Evidence.v ===== *)
(** * Readiness and integration planning (residual/factory/m4_evidence.py)

    What the M4 stage derives from consumable receipts: the ready set of the
    approved task graph, and a deterministic integration plan with the paths on
    which receipts disagree.  The state is the list of events the observer got;
    the bus is read only. *)

From Stdlib Require Import ZArith NArith Lia SpecFloat.
From S2P Require Import Prelude PyData Sha256 PyFloat Json JsonFacts Core CoreFacts Storage Builtins Graph JsonPlain Plan WorkerContract EvidenceReceipts EvidenceBus.

Definition M4EvidenceError (msg : string) : exn := RuntimeError ("M4EvidenceError: " +:+ msg).

(** [a / b] for integers [0 <= a] and [0 < b] of a quotient in range: one
    rounding of the exact quotient. *)
Definition int_div (a b : Z) : float :=
  if (a =? 0)%Z then fzero
  else
    let k := Z.max 0 (Z.log2 b - Z.log2 a + 66) in
    let q := (a * 2 ^ k / b)%Z in
    let sticky := if (a * 2 ^ k mod b =? 0)%Z then 0%Z else 1%Z in
    binary_normalize 53 1024 (2 * q + sticky) (- (k + 1)) false.

Record ReadyDagSnapshot : Type := mkSnapshot {
  rd_plan_hash : pystr;
  rd_completed_tasks : list pystr;
  rd_ready_tasks : list pystr;
  rd_blocked_tasks : list pystr;
  rd_independence_fraction : float;
  rd_receipt_hashes : list pystr
}.

Definition snapshot_dict (s : ReadyDagSnapshot) : json :=
  jobj [("schema_version", JStr (str "factory-m4-ready-dag-v1")); ("plan_hash", JStr (rd_plan_hash s));
        ("completed_tasks", json_strs (rd_completed_tasks s)); ("ready_tasks", json_strs (rd_ready_tasks s));
        ("blocked_tasks", json_strs (rd_blocked_tasks s)); ("independence_fraction", JFloat (rd_independence_fraction s));
        ("receipt_hashes", json_strs (rd_receipt_hashes s))].
Definition snapshot_hash (s : ReadyDagSnapshot) : res pystr := digest (snapshot_dict s).

Record IntegrationConflict : Type := mkConflict {
  ic_path : pystr;
  ic_receipt_hashes : list pystr;
  ic_artifact_hashes : list (option pystr)
}.
Definition conflict_dict (c : IntegrationConflict) : json :=
  jobj [("path", JStr (ic_path c)); ("receipt_hashes", json_strs (ic_receipt_hashes c));
        ("artifact_hashes", JList (json_opt_str <$> ic_artifact_hashes c))].

Record PlannedArtifact : Type := mkPlanned {
  pa_path : pystr;
  pa_sha256 : option pystr;
  pa_deleted : bool;
  pa_source_receipt_hashes : list pystr
}.
Definition planned_dict (a : PlannedArtifact) : json :=
  jobj [("path", JStr (pa_path a)); ("sha256", json_opt_str (pa_sha256 a)); ("deleted", JBool (pa_deleted a));
        ("source_receipt_hashes", json_strs (pa_source_receipt_hashes a))].

Record EvidenceIntegrationPlan : Type := mkIntegration {
  ip_execution_plan_hash : pystr;
  ip_ordered_receipt_hashes : list pystr;
  ip_ordered_task_ids : list pystr;
  ip_artifacts : list PlannedArtifact;
  ip_conflicts : list IntegrationConflict
}.
Definition integration_eligible (p : EvidenceIntegrationPlan) : bool := bool_decide (length (ip_conflicts p) = 0%nat).
Definition integration_dict (p : EvidenceIntegrationPlan) : json :=
  jobj [("schema_version", JStr (str "factory-m4-evidence-integration-plan-v1"));
        ("execution_plan_hash", JStr (ip_execution_plan_hash p));
        ("ordered_receipt_hashes", json_strs (ip_ordered_receipt_hashes p));
        ("ordered_task_ids", json_strs (ip_ordered_task_ids p)); ("artifacts", JList (planned_dict <$> ip_artifacts p));
        ("conflicts", JList (conflict_dict <$> ip_conflicts p)); ("integration_eligible", JBool (integration_eligible p))].
Definition integration_hash (p : EvidenceIntegrationPlan) : res pystr := digest (integration_dict p).

(** ** The order of tasks *)
Fixpoint order_loop (fuel : nat) (deps : pystr → list pystr) (unresolved ordered : list pystr) : res (list pystr) :=
  match unresolved with
  | [] => Ok ordered
  | _ =>
      match fuel with
      | O => out_of_fuel
      | S fuel =>
          let ready := sort_str (filter (λ t, not_subset (deps t) (list_to_set ordered) = false) unresolved) in
          when bool_decide (ready = []) raise M4EvidenceError "receipt dependency order cannot be resolved";;
          order_loop fuel deps (filter (λ t, t ∉ ready) unresolved) (ordered ++ ready)
      end
  end.

(** ** Paths *)
Abbreviation path_value := (pystr * option pystr * bool)%type.

Definition receipt_values (hr : pystr * WorkerReceipt) : list (pystr * path_value) :=
  (λ a, (ab_path a, (hr.1, ab_sha256 a, ab_deleted a))) <$> wr_artifacts hr.2.

(** [paths.setdefault(path, []).append(value)] *)
Definition add_path (paths : dict (list path_value)) (pv : pystr * path_value) : dict (list path_value) :=
  dset pv.1 (default [] (dget pv.1 paths) ++ [pv.2]) paths.

Definition value_state (v : path_value) : option pystr * bool := (v.1.2, v.2).

(** One round of [for path in sorted(paths)]: a conflict or an artifact. *)
Definition plan_path (pv : pystr * list path_value) : PlannedArtifact + IntegrationConflict :=
  let values := pv.2 in
  let receipt_ids := (λ v : path_value, v.1.1) <$> values in
  match values with
  | v :: vs =>
      if forallb (λ w, bool_decide (value_state w = value_state v)) vs
      then inl (mkPlanned pv.1 v.1.2 v.2 receipt_ids)
      else inr (mkConflict pv.1 receipt_ids ((λ v : path_value, v.1.2) <$> values))
  | [] => inr (mkConflict pv.1 [] [])
  end.

Definition lefts {A B} (l : list (A + B)) : list A := omap (λ x, match x with inl a => Some a | inr _ => None end) l.
Definition rights {A B} (l : list (A + B)) : list B := omap (λ x, match x with inr b => Some b | inl _ => None end) l.

Section m4.
Context (plan : ExecutionPlan) (bus : Bus) (verify : list N → list N → list N → bool) (station_public_key : list N) (observing : bool).
Abbreviation M := (SM (list json)).

Definition tasks : dict FactoryTask := dict_of ((λ t, (ft_id t, t)) <$> ep_tasks plan).

Definition _emit (event : string) (data : list (string * json)) : M unit :=
  if observing
  then sm_mod (λ log, log ++ [jobj ([("event", JStr (str event)); ("component", JStr (str "factory-m4-evidence"))] ++ data)])
  else mret tt.

(** The loop that fills [by_task]. *)
Fixpoint distinct_tasks (receipts : list WorkerReceipt) (by_task : list pystr) : res unit :=
  match receipts with
  | [] => Ok tt
  | r :: receipts =>
      when bool_decide (wr_task_id r ∈ by_task) raise M4EvidenceError "multiple consumable receipts supplied for one task";;
      distinct_tasks receipts (wr_task_id r :: by_task)
  end.

Definition _receipts (receipt_hashes : list pystr) : res (list WorkerReceipt) :=
  when negb (bool_decide (NoDup receipt_hashes)) raise M4EvidenceError "duplicate M3 receipt hash";;
  receipts ← mapM (λ value, consumable verify value station_public_key bus) receipt_hashes;
  _ ← for_all receipts (λ r,
        h ← graph_hash plan;
        when negb (bool_decide (wr_execution_plan_hash r = h)) raise M4EvidenceError "receipt belongs to another ExecutionPlan";;
        when negb (dmem (wr_task_id r) tasks) raise M4EvidenceError "receipt task is absent from ExecutionPlan";;
        Ok tt);
  _ ← distinct_tasks receipts [];
  Ok receipts.

Definition remaining_tasks (completed : gset pystr) : list FactoryTask := filter (λ t, ft_id t ∉ completed) (ep_tasks plan).
Definition ready_ids (completed : gset pystr) : list pystr :=
  sort_str (ft_id <$> filter (λ t, not_subset (ft_depends_on t) completed = false) (remaining_tasks completed)).
Definition blocked_ids (completed : gset pystr) : list pystr :=
  sort_str (ft_id <$> filter (λ t, ft_id t ∉ ready_ids completed) (remaining_tasks completed)).

Definition ready_dag (receipt_hashes : list pystr) : M ReadyDagSnapshot :=
  receipts ← sm_lift (_receipts receipt_hashes);
  let completed : gset pystr := list_to_set (wr_task_id <$> receipts) in
  let ready := ready_ids completed in
  let remaining := remaining_tasks completed in
  let independence := if bool_decide (remaining = []) then float_of_Z 1
                      else int_div (Z.of_nat (length ready)) (Z.of_nat (length remaining)) in
  plan_hash ← sm_lift (graph_hash plan);
  hashes ← sm_lift (mapM receipt_hash receipts);
  let snapshot := mkSnapshot plan_hash (sort_str (elements completed)) ready (blocked_ids completed) independence (sort_str hashes) in
  sh ← sm_lift (snapshot_hash snapshot);
  _ ← _emit "M4SchedulerSnapshot"
        [("snapshot_hash", JStr sh); ("ready_tasks", json_strs ready); ("blocked_tasks", json_strs (rd_blocked_tasks snapshot));
         ("independence_fraction", JFloat independence)];
  mret snapshot.

(** Every dependency is supplied, and the parents of a receipt are exactly the
    receipts of its task's dependencies. *)
Definition check_bindings (by_task : dict (pystr * WorkerReceipt)) : res unit :=
  for_all by_task (λ kv,
    task ← dgetitem kv.1 tasks;
    when not_subset (ft_depends_on task) (list_to_set by_task.*1) raise M4EvidenceError "receipt set omits task dependencies";;
    parents ← mapM (λ d, hr ← dgetitem d by_task; Ok hr.1) (ft_depends_on task);
    when negb (same_set (wr_parent_receipts kv.2.2) parents)
    raise M4EvidenceError "receipt parent bindings do not match task dependencies";;
    Ok tt).

Definition task_deps (t : pystr) : list pystr := match dget t tasks with Some task => ft_depends_on task | None => [] end.

Definition receipts_by_task (pairs : list (pystr * WorkerReceipt)) : dict (pystr * WorkerReceipt) :=
  dict_of ((λ hr : pystr * WorkerReceipt, (wr_task_id hr.2, hr)) <$> pairs).

Definition integration_plan (receipt_hashes : list pystr) : M EvidenceIntegrationPlan :=
  receipts ← sm_lift (_receipts receipt_hashes);
  pairs ← sm_lift (mapM hashed receipts);
  let by_task := receipts_by_task pairs in
  _ ← sm_lift (check_bindings by_task);
  ordered_tasks ← sm_lift (order_loop (length by_task) task_deps by_task.*1 []);
  ordered_receipts ← sm_lift (mapM (λ t, dgetitem t by_task) ordered_tasks);
  let paths := foldl add_path [] (mjoin (receipt_values <$> ordered_receipts)) in
  let planned := plan_path <$> sort_by key_leb paths in
  plan_hash ← sm_lift (graph_hash plan);
  let result := mkIntegration plan_hash ordered_receipts.*1 ordered_tasks (lefts planned) (rights planned) in
  ih ← sm_lift (integration_hash result);
  _ ← _emit "M4IntegrationPlan"
        [("integration_plan_hash", JStr ih); ("receipt_count", JInt (Z.of_nat (length (ip_ordered_receipt_hashes result))));
         ("conflict_count", JInt (Z.of_nat (length (ip_conflicts result))));
         ("integration_eligible", JBool (integration_eligible result))];
  _ ← (if integration_eligible result then mret tt
       else _emit "M4IntegrationConflict"
              [("integration_plan_hash", JStr ih); ("paths", json_strs (ic_path <$> ip_conflicts result));
               ("action", JStr (str "hitl_required"))]);
  mret result.
End m4.
