(* ===== verification/M4Theorems.v ===== *)
(** * Readiness and integration planning: the theorems *)

From Stdlib Require Import ZArith NArith Lia SpecFloat.
From stdpp Require Import relations.
From S2P Require Import Prelude PyData Sha256 PyFloat Json JsonFacts Core CoreFacts Storage Builtins Graph JsonPlain Plan PlanFacts PlanTheorems WorkerContract EvidenceReceipts ReceiptFacts EvidenceBus BusFacts BusTheorems M4Evidence.

(** ** What readiness and integration planning guarantee *)

(** ** Order independence *)
Lemma mapM_total {A B} (f : A → res B) l : (∀ x, x ∈ l → ∃ y, f x = Ok y) → ∃ k, mapM f l = Ok k.
Proof.
  induction l as [|x l IH]; intros H; [by exists []|]. destruct (H x) as [y Ey]; [left|].
  destruct IH as [k Ek]; [intros z Hz; apply H; by right|]. exists (y :: k). cbn. by rewrite Ey, Ek.
Qed.

Lemma mapM_res_ext {A B} (f g : A → res B) l : (∀ x, f x = g x) → mapM f l = mapM g l.
Proof. intros H. induction l as [|x l IH]; [done|]. cbn. by rewrite H, IH. Qed.

Lemma mapM_perm {A B} (f : A → res B) l l' k :
  l ≡ₚ l' → mapM f l = Ok k → ∃ k', mapM f l' = Ok k' ∧ k ≡ₚ k'.
Proof.
  intros Hp H. apply mapM_res_Ok in H.
  revert k H. induction Hp as [|x l l' _ IH|x y l|l1 l2 l3 _ IH1 _ IH2]; intros k H.
  - inversion H; subst. by exists [].
  - inversion H as [|? z ? k1 Hz Hk]; subst. destruct (IH k1 Hk) as (k' & H' & Hp'). exists (z :: k').
    split; [|by constructor]. apply mapM_res_Ok. apply mapM_res_Ok in H'. by constructor.
  - inversion H as [|? z ? k1 Hz Hk]; subst. inversion Hk as [|? w ? k2 Hw Hk2]; subst. exists (w :: z :: k2).
    split; [|constructor]. apply mapM_res_Ok. by repeat constructor.
  - destruct (IH1 k H) as (k1 & H1 & P1). apply mapM_res_Ok in H1. destruct (IH2 k1 H1) as (k2 & H2 & P2).
    exists k2. split; [done|]. by transitivity k1.
Qed.

(** ** The tasks of the plan *)
Section plan_facts.
Context (plan : ExecutionPlan) (Hplan : plan_ok plan).

Lemma tasks_get (t : pystr) task : dget t (tasks plan) = Some task ↔ task ∈ ep_tasks plan ∧ ft_id task = t.
Proof using Hplan.
  assert (((λ t, (ft_id t, t)) <$> ep_tasks plan).*1 = ft_id <$> ep_tasks plan) as Ek by (by rewrite <- list_fmap_compose).
  pose proof (pok_task_ids _ Hplan) as Hnd. unfold tasks. rewrite dict_of_NoDup by (by rewrite Ek). split.
  - intros H. apply dget_Some_elem, list_elem_of_fmap in H as (x & [= -> ->] & Hx). done.
  - intros [Hin <-]. apply dget_elem; [unfold wf_dict; by rewrite Ek|]. by apply (list_elem_of_fmap_2 (λ t, (ft_id t, t))).
Qed.

Lemma tasks_mem (t : pystr) : dmem t (tasks plan) = true ↔ t ∈ ft_id <$> ep_tasks plan.
Proof using Hplan.
  rewrite dmem_true, <- dget_is_Some, list_elem_of_fmap. unfold is_Some. setoid_rewrite tasks_get. naive_solver.
Qed.

(** ** Readiness *)
(** What it means for a task to be ready: planned, not completed, and with
    every dependency completed. *)
Definition task_ready (completed : gset pystr) (t : pystr) : Prop :=
  t ∈ ft_id <$> ep_tasks plan ∧ (t ∉ completed) ∧ ∀ d, gdep (task_graph (ep_tasks plan)) t d → d ∈ completed.

Lemma elem_of_ready_ids (completed : gset pystr) (t : pystr) : t ∈ ready_ids plan completed ↔ task_ready completed t.
Proof using Hplan.
  unfold ready_ids, remaining_tasks, task_ready. rewrite sort_by_perm, list_elem_of_fmap. split.
  - intros (x & -> & Hx). apply list_elem_of_filter in Hx as [Hd Hx]. apply list_elem_of_filter in Hx as [Hc Hx].
    split_and!; [by apply list_elem_of_fmap_2|done|]. intros d (y & Hy & E & Hd')%task_graph_dep.
    assert (y = x) as -> by (pose proof (proj2 (tasks_get (ft_id x) x) (conj Hx eq_refl)); pose proof (proj2 (tasks_get (ft_id x) y) (conj Hy E)); congruence).
    by apply (proj1 (not_subset_false _ _) Hd).
  - intros (Ht & Hc & Hd). apply list_elem_of_fmap in Ht as (x & -> & Hx). exists x. split; [done|].
    apply list_elem_of_filter. split; [|by apply list_elem_of_filter]. apply not_subset_false. intros d Hin.
    apply Hd, task_graph_dep. eauto.
Qed.

Lemma elem_of_blocked (completed : gset pystr) (t : pystr) :
  t ∈ blocked_ids plan completed ↔ t ∈ ft_id <$> ep_tasks plan ∧ (t ∉ completed) ∧ (t ∉ ready_ids plan completed).
Proof using Hplan.
  unfold blocked_ids, remaining_tasks. rewrite sort_by_perm, !list_elem_of_fmap. setoid_rewrite list_elem_of_filter.
  setoid_rewrite list_elem_of_filter. naive_solver.
Qed.

Lemma filtered_ids_NoDup (P : FactoryTask → Prop) `{∀ x, Decision (P x)} (completed : gset pystr) :
  NoDup (ft_id <$> filter P (remaining_tasks plan completed)).
Proof using Hplan.
  unfold remaining_tasks. eapply sublist_NoDup; [apply (pok_task_ids _ Hplan)|].
  apply fmap_sublist. etrans; apply sublist_filter.
Qed.

(** Completed, ready and blocked tasks are exactly the tasks of the plan. *)
Lemma readiness_partition (completed : gset pystr) :
  (∀ t, t ∈ completed → t ∈ ft_id <$> ep_tasks plan) →
  sort_str (elements completed) ++ ready_ids plan completed ++ blocked_ids plan completed ≡ₚ ft_id <$> ep_tasks plan.
Proof using Hplan.
  intros Hc. apply NoDup_Permutation.
  - rewrite sort_by_perm, !NoDup_app. split_and!; [apply NoDup_elements| | | |].
    + intros t Ht [Hr|Hb]%elem_of_app; apply elem_of_elements in Ht; [by apply elem_of_ready_ids in Hr as (_ & ? & _)|].
      by apply elem_of_blocked in Hb as (_ & ? & _).
    + unfold ready_ids. rewrite sort_by_perm. apply filtered_ids_NoDup.
    + intros t Hr Hb. by apply elem_of_blocked in Hb as (_ & _ & ?).
    + unfold blocked_ids. rewrite sort_by_perm. apply filtered_ids_NoDup.
  - apply Hplan.
  - intros t. rewrite !elem_of_app, sort_by_perm, elem_of_elements, elem_of_blocked. split.
    + intros [?|[Ht|Ht]]; [auto| |apply Ht]. apply elem_of_ready_ids in Ht. apply Ht.
    + intros Ht. destruct (decide (t ∈ completed)); [by left|]. destruct (decide (t ∈ ready_ids plan completed)); tauto.
Qed.

(** While a task is left, some task is ready. *)
Lemma readiness_progress (completed : gset pystr) : ready_ids plan completed = [] → blocked_ids plan completed = [].
Proof using Hplan.
  intros Hr. destruct (blocked_ids plan completed) as [|t l] eqn:Eb; [done|]. exfalso.
  apply (acyclic_no_core (task_graph (ep_tasks plan)) (λ t, t ∈ blocked_ids plan completed) t); [apply Hplan|apply Hplan| |rewrite Eb; left].
  intros m Hm. pose proof Hm as (Hin & Hc & Hnr)%elem_of_blocked.
  destruct (decide (Exists (λ d, (d ∉ completed)) (task_deps plan m))) as [He|Hne].
  - apply Exists_exists in He as (d & Hd & Hdc). apply list_elem_of_fmap in Hin as (x & -> & Hx).
    unfold task_deps in Hd. rewrite (proj2 (tasks_get (ft_id x) x)) in Hd by done.
    assert (gdep (task_graph (ep_tasks plan)) (ft_id x) d) as Hg by (apply task_graph_dep; eauto).
    exists d. split; [done|]. apply elem_of_blocked. rewrite Hr. split_and!; [|done|apply not_elem_of_nil].
    rewrite <- task_graph_keys. by eapply (pok_task_closed _ Hplan).
  - exfalso. apply Hnr. apply elem_of_ready_ids. split_and!; [done..|]. intros d (x & Hx & <- & Hd)%task_graph_dep.
    destruct (decide (d ∈ completed)) as [|Hdc]; [done|]. exfalso. apply Hne, Exists_exists. exists d. split; [|done].
    unfold task_deps. by rewrite (proj2 (tasks_get (ft_id x) x)).
Qed.
End plan_facts.

(** ** The order of integration *)
Lemma filter_iff_in {A} (P Q : A → Prop) `{∀ x, Decision (P x), ∀ x, Decision (Q x)} (l : list A) :
  (∀ x, x ∈ l → P x ↔ Q x) → filter P l = filter Q l.
Proof.
  induction l as [|x l IH]; intros Hx; [done|]. rewrite !filter_cons, IH by (intros y Hy; apply Hx; by right).
  destruct (Hx x ltac:(left)). by repeat case_decide; try tauto.
Qed.

Lemma topological_app_list g (l k : list pystr) :
  topological g l → (∀ n d, n ∈ k → gdep g n d → d ∈ l) → topological g (l ++ k).
Proof.
  revert l. induction k as [|n k IH]; intros l Hl Hk; [by rewrite app_nil_r|].
  rewrite cons_middle, app_assoc. apply IH.
  - apply topological_app; [done|]. intros d. apply Hk. left.
  - intros m d Hm Hd. apply elem_of_app. left. apply (Hk m); [by right|done].
Qed.

Lemma order_loop_step fuel deps (un ord : list pystr) :
  un ≠ [] →
  order_loop (S fuel) deps un ord =
  let ready := sort_str (filter (λ t, not_subset (deps t) (list_to_set ord) = false) un) in
  when bool_decide (ready = []) raise M4EvidenceError "receipt dependency order cannot be resolved";;
  order_loop fuel deps (filter (λ t, t ∉ ready) un) (ord ++ ready).
Proof. by destruct un. Qed.

Section order.
Context (g : graph) (Hclosed : g_closed g) (Hacyclic : g_acyclic g) (deps : pystr → list pystr).
Context (Hdeps : ∀ t d, d ∈ deps t ↔ gdep g t d).

(** Every round of the loop places a task, because the graph has no cycle. *)
Lemma order_loop_spec fuel (un ord : list pystr) :
  length un ≤ fuel → topological g ord → (∀ t d, t ∈ un → gdep g t d → d ∈ ord ++ un) →
  ∃ l, order_loop fuel deps un ord = Ok l ∧ l ≡ₚ ord ++ un ∧ topological g l.
Proof using Hclosed Hacyclic Hdeps.
  revert un ord. induction fuel as [|fuel IH]; intros un ord Hf Ht Hun.
  { destruct un; [|cbn in Hf; lia]. exists ord. by rewrite app_nil_r. }
  destruct (decide (un = [])) as [->|Hnil]; [exists ord; by rewrite app_nil_r|]. rewrite (order_loop_step _ _ _ _ Hnil).
  set (P := λ t, not_subset (deps t) (list_to_set ord) = false). set (ready := sort_str (filter P un)).
  assert (∀ t, t ∈ ready ↔ P t ∧ t ∈ un) as Hr by (intros t; unfold ready; rewrite sort_by_perm; apply list_elem_of_filter).
  assert (∀ t, P t ↔ ∀ d, gdep g t d → d ∈ ord) as HP.
  { intros t. unfold P. rewrite not_subset_false. setoid_rewrite elem_of_list_to_set. setoid_rewrite Hdeps. done. }
  assert (ready ≠ []) as Hne.
  { intros E. destruct un as [|u un0] eqn:Eu; [done|]. rewrite <- Eu in *.
    apply (acyclic_no_core g (λ t, t ∈ un) u Hclosed Hacyclic); [|rewrite Eu; left].
    intros m Hm. destruct (decide (Forall (λ d, d ∈ ord) (deps m))) as [Ha|Hn].
    - exfalso. rewrite Forall_forall in Ha. assert (m ∈ ready) as Hin; [|rewrite E in Hin; by apply not_elem_of_nil in Hin].
      apply Hr. split; [|done]. apply HP. intros d Hd. by apply Ha, Hdeps.
    - apply not_Forall_Exists in Hn; [|apply _]. apply Exists_exists in Hn as (d & Hd & Hnd). apply Hdeps in Hd.
      exists d. split; [done|]. pose proof (Hun m d Hm Hd) as [?|?]%elem_of_app; done. }
  cbv zeta. fold P. fold ready. rewrite (bool_decide_false _ Hne).
  assert (ready ++ filter (λ t, t ∉ ready) un ≡ₚ un) as Hsplit.
  { transitivity (filter P un ++ filter (λ t, ¬ P t) un); [|apply filter_app_complement].
    apply Permutation_app; [apply sort_by_perm|]. rewrite (filter_iff_in _ (λ t, ¬ P t)); [done|]. intros t Hin. rewrite Hr. tauto. }
  assert (length ready ≠ 0%nat) as Hl by (by destruct ready).
  pose proof (Permutation_length Hsplit) as Hlen. rewrite length_app in Hlen.
  destruct (IH (filter (λ t, t ∉ ready) un) (ord ++ ready)) as (l & El & Hp & Hto).
  - lia.
  - apply topological_app_list; [done|]. intros n d Hn. apply HP. by apply Hr.
  - intros t d [_ Hin]%list_elem_of_filter Hd. rewrite <- app_assoc, Hsplit. by apply (Hun t).
  - exists l. split_and!; [exact El| |done]. by rewrite Hp, <- app_assoc, Hsplit.
Qed.
End order.

Lemma order_loop_perm fuel deps (un un' ord : list pystr) :
  un ≡ₚ un' → order_loop fuel deps un ord = order_loop fuel deps un' ord.
Proof.
  revert un un' ord. induction fuel as [|fuel IH]; intros un un' ord Hp.
  { destruct un, un'; try done; by apply Permutation_length in Hp. }
  destruct (decide (un = [])) as [->|Hu]; [apply Permutation_nil in Hp; by subst|].
  assert (un' ≠ []) as Hu' by (intros ->; by apply Permutation_nil_r in Hp).
  rewrite (order_loop_step _ _ _ _ Hu), (order_loop_step _ _ _ _ Hu'). cbv zeta.
  assert (filter (λ t, not_subset (deps t) (list_to_set ord) = false) un ≡ₚ
          filter (λ t, not_subset (deps t) (list_to_set ord) = false) un') as Hf by (by rewrite Hp).
  rewrite (sort_str_perm _ _ Hf). case_bool_decide; [done|]. apply IH. by rewrite Hp.
Qed.

Section m4_facts.
Context (plan : ExecutionPlan) (bus : Bus) (verify : list N → list N → list N → bool) (key : list N) (observing : bool).

(** ** The receipts a caller supplies *)
Lemma distinct_tasks_Ok rs seen :
  distinct_tasks rs seen = Ok tt ↔ NoDup (wr_task_id <$> rs) ∧ ∀ r, r ∈ rs → wr_task_id r ∉ seen.
Proof.
  revert seen. induction rs as [|r rs IH]; intros seen; cbn [distinct_tasks].
  { split; [|done]. intros _. split; [constructor|]. intros r Hr. by apply not_elem_of_nil in Hr. }
  rewrite fmap_cons, NoDup_cons. case_bool_decide as Hs.
  - split; [done|]. intros [_ H]. exfalso. by apply (H r); [left|].
  - rewrite IH. split.
    + intros [Hnd H]. split_and!; [|done|].
      * intros Hin. apply list_elem_of_fmap in Hin as (r' & E & Hr'). apply (H r' Hr'). rewrite <- E. left.
      * intros r' [->|Hr']%elem_of_cons; [done|]. intros Hin. apply (H r' Hr'). by right.
    + intros [[Hn Hnd] H]. split; [done|]. intros r' Hr' [E|Hin]%elem_of_cons.
      * apply Hn. rewrite <- E. by apply list_elem_of_fmap_2.
      * apply (H r'); [by right|done].
Qed.

Definition receipt_fits (r : WorkerReceipt) : Prop :=
  graph_hash plan = Ok (wr_execution_plan_hash r) ∧ dmem (wr_task_id r) (tasks plan) = true.

Lemma _receipts_Ok hs rs :
  _receipts plan bus verify key hs = Ok rs ↔
  NoDup hs ∧ mapM (λ value, consumable verify value key bus) hs = Ok rs ∧ Forall receipt_fits rs ∧ NoDup (wr_task_id <$> rs).
Proof.
  unfold _receipts. destruct (decide (NoDup hs)) as [Hn|Hn]; [rewrite (bool_decide_true _ Hn)|rewrite (bool_decide_false _ Hn)]; cbn [negb];
    [|split; [done|by intros (? & _)]].
  assert (∀ l, for_all l (λ r, h ← graph_hash plan;
        when negb (bool_decide (wr_execution_plan_hash r = h)) raise M4EvidenceError "receipt belongs to another ExecutionPlan";;
        when negb (dmem (wr_task_id r) (tasks plan)) raise M4EvidenceError "receipt task is absent from ExecutionPlan";;
        Ok tt) = Ok tt ↔ Forall receipt_fits l) as Hf.
  { intros l. rewrite for_all_Ok. apply Forall_iff. intros r. unfold receipt_fits. destruct (graph_hash plan) as [h|e]; cbn [mbind res_bind].
    - case_bool_decide as E; cbn [negb]; [subst|]; [destruct (dmem _ _)|]; cbn; split; try done; try (intros [? ?]; done).
      intros [[= ->] _]. done.
    - split; [done|]. by intros [? _]. }
  split.
  - intros H. apply bind_Ok in H as (rs' & Hm & H). apply bind_Ok in H as ([] & Hc & H). apply bind_Ok in H as ([] & Hd & [= <-]).
    apply Hf in Hc. apply distinct_tasks_Ok in Hd as [Hd _]. done.
  - intros (_ & -> & Hc & Hd). cbn [mbind res_bind]. rewrite (proj2 (Hf rs) Hc). cbn [mbind res_bind].
    rewrite (proj2 (distinct_tasks_Ok rs [])); [done|]. split; [done|]. intros r _. apply not_elem_of_nil.
Qed.

Lemma _receipts_perm hs hs' rs :
  hs ≡ₚ hs' → _receipts plan bus verify key hs = Ok rs → ∃ rs', _receipts plan bus verify key hs' = Ok rs' ∧ rs ≡ₚ rs'.
Proof.
  intros Hp H. apply _receipts_Ok in H as (Hn & Hm & Hf & Hd). destruct (mapM_perm _ _ _ _ Hp Hm) as (rs' & Hm' & Hp').
  exists rs'. split; [|done]. apply _receipts_Ok. split_and!; [by rewrite <- Hp|done|by rewrite <- Hp'|by rewrite <- Hp'].
Qed.

Lemma receipt_tasks_known hs rs (t : pystr) :
  plan_ok plan → _receipts plan bus verify key hs = Ok rs → t ∈ wr_task_id <$> rs → t ∈ ft_id <$> ep_tasks plan.
Proof.
  intros Hplan H Ht. apply _receipts_Ok in H as (_ & _ & Hf & _). apply list_elem_of_fmap in Ht as (r & -> & Hr).
  apply (proj1 (Forall_forall _ _) Hf) in Hr as [_ Hr]. by apply tasks_mem.
Qed.

End m4_facts.

(** ** The values bound to a path *)
Definition values_of (path : pystr) (l : list (pystr * path_value)) : list path_value :=
  snd <$> filter (λ pv, pv.1 = path) l.

Lemma paths_wf l : wf_dict (foldl add_path [] l).
Proof.
  induction l as [|pv l IH] using rev_ind; [constructor|]. rewrite foldl_app. cbn [foldl]. by apply wf_dset.
Qed.

Lemma paths_get path l :
  dget path (foldl add_path [] l) = if bool_decide (values_of path l = []) then None else Some (values_of path l).
Proof.
  induction l as [|[p v] l IH] using rev_ind; [done|]. rewrite foldl_app. cbn [foldl]. unfold add_path at 1. cbn [fst snd].
  unfold values_of in *. rewrite dget_dset, filter_app, fmap_app, filter_cons. cbn [fst]. repeat case_decide; subst; try done; cbn [fmap list_fmap snd].
  - rewrite IH. rewrite (bool_decide_false (_ ++ _ = [])) by (intros E; by apply app_eq_nil in E as [_ ?]).
    by case_bool_decide as E; [rewrite E|].
  - by rewrite app_nil_r.
Qed.

Lemma elem_of_paths path vs l : (path, vs) ∈ foldl add_path [] l ↔ vs = values_of path l ∧ vs ≠ [].
Proof.
  split.
  - intros H. apply (dget_elem path vs) in H; [|apply paths_wf]. rewrite paths_get in H. case_bool_decide as E; [done|].
    injection H as <-. done.
  - intros [-> Hne]. apply dget_Some_elem. rewrite paths_get. by case_bool_decide.
Qed.

Lemma elem_of_values path v l : v ∈ values_of path l ↔ (path, v) ∈ l.
Proof.
  unfold values_of. rewrite list_elem_of_fmap. setoid_rewrite list_elem_of_filter. split.
  - intros ([p w] & -> & [Hp Hin]). cbn in *. by subst.
  - intros H. by exists (path, v).
Qed.

(** ** Agreement *)
Lemma forallb_counter {A} (f : A → bool) l : forallb f l = false → ∃ x, x ∈ l ∧ f x = false.
Proof.
  induction l as [|x l IH]; [done|]. cbn. destruct (f x) eqn:E; [|exists x; split; [left|done]].
  intros (y & Hy & Ey)%IH. exists y. split; [by right|done].
Qed.

Lemma plan_path_conflict path vs :
  vs ≠ [] → (∃ c, plan_path (path, vs) = inr c ∧ ic_path c = path) ↔ ∃ v w, v ∈ vs ∧ w ∈ vs ∧ value_state v ≠ value_state w.
Proof.
  intros Hne. destruct vs as [|v vs]; [done|]. unfold plan_path. cbn [fst snd].
  destruct (forallb _ vs) eqn:E; split.
  - intros (c & [=] & _).
  - intros (x & y & Hx & Hy & Hxy). exfalso. apply Hxy. rewrite forallb_true in E.
    assert (∀ z, z ∈ v :: vs → value_state z = value_state v) as Hz.
    { intros z [->|Hz]%elem_of_cons; [done|]. by apply E, bool_decide_eq_true in Hz. }
    by rewrite (Hz x Hx), (Hz y Hy).
  - intros _. apply forallb_counter in E as (w & Hw & E). apply bool_decide_eq_false in E. exists v, w.
    split_and!; [left|by right|congruence].
  - intros _. eexists. split; [reflexivity|done].
Qed.

Lemma plan_path_inr path vs c : plan_path (path, vs) = inr c → ic_path c = path.
Proof.
  unfold plan_path. cbn [fst snd]. destruct vs as [|v vs]; [by intros [= <-]|]. destruct (forallb _ vs); [done|]. by intros [= <-].
Qed.

Lemma plan_path_artifact path vs a :
  plan_path (path, vs) = inl a →
  pa_path a = path ∧ pa_source_receipt_hashes a = (λ v : path_value, v.1.1) <$> vs ∧
  ∀ v, v ∈ vs → value_state v = (pa_sha256 a, pa_deleted a).
Proof.
  unfold plan_path. cbn [fst snd]. destruct vs as [|v vs]; [done|]. destruct (forallb _ vs) eqn:E; [|done]. intros [= <-].
  split_and!; [done|done|]. rewrite forallb_true in E. intros z [->|Hz]%elem_of_cons; [done|].
  by apply E, bool_decide_eq_true in Hz.
Qed.

Lemma elem_of_rights {A B C} (f : A → B + C) l c : c ∈ rights (f <$> l) ↔ ∃ x, x ∈ l ∧ f x = inr c.
Proof.
  unfold rights. rewrite list_elem_of_omap. setoid_rewrite list_elem_of_fmap. split.
  - intros (y & (x & -> & Hx) & E). exists x. split; [done|]. by destruct (f x); simplify_eq.
  - intros (x & Hx & E). exists (f x). rewrite E. eauto.
Qed.

Lemma elem_of_lefts {A B C} (f : A → B + C) l b : b ∈ lefts (f <$> l) ↔ ∃ x, x ∈ l ∧ f x = inl b.
Proof.
  unfold lefts. rewrite list_elem_of_omap. setoid_rewrite list_elem_of_fmap. split.
  - intros (y & (x & -> & Hx) & E). exists x. split; [done|]. by destruct (f x); simplify_eq.
  - intros (x & Hx & E). exists (f x). rewrite E. eauto.
Qed.

(** ** Receipts by task *)
Lemma pairs_spec (rs : list WorkerReceipt) pairs :
  mapM hashed rs = Ok pairs → pairs.*2 = rs ∧ Forall (λ hr, receipt_hash hr.2 = Ok hr.1) pairs.
Proof.
  intros H. apply mapM_res_Ok in H. induction H as [|r [h r'] l k Hr _ [IH1 IH2]]; [done|].
  unfold hashed in Hr. destruct (receipt_hash r) as [h'|] eqn:E; [|done]. injection Hr as -> ->.
  split; [cbn; by f_equal|by constructor].
Qed.

Section by_task.
Context (plan : ExecutionPlan) (Hplan : plan_ok plan) (rs : list WorkerReceipt) (pairs : list (pystr * WorkerReceipt)).
Context (Hpairs : mapM hashed rs = Ok pairs) (Hnd : NoDup (wr_task_id <$> rs)).
Abbreviation G := (task_graph (ep_tasks plan)).

Lemma by_task_eq : receipts_by_task pairs = (λ hr : pystr * WorkerReceipt, (wr_task_id hr.2, hr)) <$> pairs.
Proof using Hpairs Hnd.
  unfold receipts_by_task. apply dict_of_NoDup. rewrite <- list_fmap_compose. destruct (pairs_spec _ _ Hpairs) as [<- _].
  by rewrite <- list_fmap_compose in Hnd.
Qed.

Lemma by_task_keys : (receipts_by_task pairs).*1 = wr_task_id <$> rs.
Proof using Hpairs Hnd.
  rewrite by_task_eq, <- list_fmap_compose. destruct (pairs_spec _ _ Hpairs) as [<- _]. by rewrite <- list_fmap_compose.
Qed.

Lemma by_task_wf : wf_dict (receipts_by_task pairs).
Proof using Hpairs Hnd. unfold wf_dict. by rewrite by_task_keys. Qed.

Lemma by_task_get t h r : dget t (receipts_by_task pairs) = Some (h, r) ↔ (h, r) ∈ pairs ∧ wr_task_id r = t.
Proof using Hpairs Hnd.
  split.
  - intros H. apply dget_Some_elem in H. rewrite by_task_eq in H. by apply list_elem_of_fmap in H as (x & [= -> <-] & Hx).
  - intros [H <-]. apply dget_elem; [apply by_task_wf|]. rewrite by_task_eq.
    by apply (list_elem_of_fmap_2 (λ hr : pystr * WorkerReceipt, (wr_task_id hr.2, hr))) in H.
Qed.

Lemma elem_of_pairs h r : (h, r) ∈ pairs ↔ r ∈ rs ∧ receipt_hash r = Ok h.
Proof using Hpairs Hnd.
  destruct (pairs_spec _ _ Hpairs) as [<- Hh]. rewrite Forall_forall in Hh. split.
  - intros H. split; [apply list_elem_of_fmap; by exists (h, r)|]. by apply (Hh (h, r)).
  - intros [Hr E]. apply list_elem_of_fmap in Hr as ([h' r'] & -> & Hin). pose proof (Hh _ Hin) as E'. cbn in *. congruence.
Qed.

(** The dependencies of every supplied receipt are supplied, and its parents
    are exactly their receipts. *)
Definition bound : Prop := ∀ r, r ∈ rs →
  (∀ d, gdep G (wr_task_id r) d → d ∈ wr_task_id <$> rs) ∧
  ∀ h, h ∈ wr_parent_receipts r ↔ ∃ r', r' ∈ rs ∧ receipt_hash r' = Ok h ∧ gdep G (wr_task_id r) (wr_task_id r').

Lemma task_deps_gdep t d : d ∈ task_deps plan t ↔ gdep G t d.
Proof using Hplan.
  rewrite task_graph_dep. unfold task_deps. destruct (dget t (tasks plan)) as [task|] eqn:E.
  - apply (tasks_get plan Hplan) in E as [Hin <-]. split; [eauto|]. intros (x & Hx & E & Hd).
    pose proof (proj2 (tasks_get plan Hplan (ft_id task) task) (conj Hin eq_refl)).
    pose proof (proj2 (tasks_get plan Hplan (ft_id task) x) (conj Hx E)). congruence.
  - split; [by intros ?%not_elem_of_nil|]. intros (x & Hx & Ex & _).
    rewrite (proj2 (tasks_get plan Hplan t x) (conj Hx Ex)) in E. done.
Qed.

Lemma parents_of_deps (deps ps : list pystr) :
  mapM (λ d, hr ← dgetitem d (receipts_by_task pairs); Ok hr.1) deps = Ok ps →
  ∀ h, h ∈ ps ↔ ∃ r, r ∈ rs ∧ receipt_hash r = Ok h ∧ wr_task_id r ∈ deps.
Proof using Hpairs Hnd.
  intros H h. apply mapM_res_Ok in H. split.
  - intros Hh. apply list_elem_of_lookup in Hh as [i Hi]. destruct (Forall2_lookup_r _ _ _ _ _ H Hi) as (d & Hd & E).
    apply bind_Ok in E as ([h' r] & Eg & [= <-]). apply dgetitem_Ok, by_task_get in Eg as [Hin <-]. apply elem_of_pairs in Hin as [? ?].
    exists r. split_and!; [done..|]. by eapply list_elem_of_lookup_2.
  - intros (r & Hr & Eh & Hd). apply list_elem_of_lookup in Hd as [i Hi]. destruct (Forall2_lookup_l _ _ _ _ _ H Hi) as (p & Hp & E).
    apply bind_Ok in E as ([h' r'] & Eg & [= <-]). apply dgetitem_Ok in Eg. cbn [fst].
    assert (dget (wr_task_id r) (receipts_by_task pairs) = Some (h, r)) as Eg' by (apply by_task_get; split; [by apply elem_of_pairs|done]).
    assert (h' = h) as -> by congruence. by eapply list_elem_of_lookup_2.
Qed.

Definition binding_check (r : WorkerReceipt) : res unit :=
  task ← dgetitem (wr_task_id r) (tasks plan);
  when not_subset (ft_depends_on task) (list_to_set (receipts_by_task pairs).*1) raise M4EvidenceError "receipt set omits task dependencies";;
  parents ← mapM (λ d, hr ← dgetitem d (receipts_by_task pairs); Ok hr.1) (ft_depends_on task);
  when negb (same_set (wr_parent_receipts r) parents)
  raise M4EvidenceError "receipt parent bindings do not match task dependencies";;
  Ok tt.

Lemma binding_check_Ok r :
  wr_task_id r ∈ ft_id <$> ep_tasks plan →
  binding_check r = Ok tt ↔
  (∀ d, gdep G (wr_task_id r) d → d ∈ wr_task_id <$> rs) ∧
  ∀ h, h ∈ wr_parent_receipts r ↔ ∃ r', r' ∈ rs ∧ receipt_hash r' = Ok h ∧ gdep G (wr_task_id r) (wr_task_id r').
Proof using Hplan Hpairs Hnd.
  intros Ht. unfold binding_check. apply list_elem_of_fmap in Ht as (task & Et & Hin).
  pose proof (proj2 (tasks_get plan Hplan (wr_task_id r) task) (conj Hin (eq_sym Et))) as Eg.
  rewrite (proj2 (dgetitem_Ok _ _ _) Eg). cbn [mbind res_bind].
  assert (∀ d, gdep G (wr_task_id r) d ↔ d ∈ ft_depends_on task) as Hd by (intros d; rewrite <- task_deps_gdep; unfold task_deps; by rewrite Eg).
  setoid_rewrite Hd. rewrite by_task_keys. destruct (not_subset _ _) eqn:Es.
  - split; [done|]. intros [H1 _]. exfalso. apply not_false_iff_true in Es. apply Es, not_subset_false.
    intros d Hx. by apply elem_of_list_to_set, H1.
  - pose proof (proj1 (not_subset_false _ _) Es) as Hsub. setoid_rewrite elem_of_list_to_set in Hsub.
    assert (∃ ps, mapM (λ d, hr ← dgetitem d (receipts_by_task pairs); Ok hr.1) (ft_depends_on task) = Ok ps) as [ps Eps].
    { apply mapM_total. intros d Hx. apply Hsub in Hx. rewrite <- by_task_keys in Hx. apply dget_is_Some in Hx as [[h' r'] Ex].
      exists h'. by rewrite (proj2 (dgetitem_Ok _ _ _) Ex). }
    rewrite Eps. cbn [mbind res_bind]. unfold same_set. setoid_rewrite <- (parents_of_deps _ _ Eps).
    case_bool_decide as Ess; cbn [negb]; (split; [|done || (intros [_ H2]; exfalso; apply Ess; set_solver)]); [|done].
    intros _. split; [done|]. set_solver.
Qed.

Lemma check_bindings_Ok :
  (∀ r, r ∈ rs → wr_task_id r ∈ ft_id <$> ep_tasks plan) → check_bindings plan (receipts_by_task pairs) = Ok tt ↔ bound.
Proof using Hplan Hpairs Hnd.
  intros Hknown. unfold check_bindings. rewrite for_all_Ok, by_task_eq, Forall_fmap. rewrite <- by_task_eq.
  change (Forall (λ hr, binding_check hr.2 = Ok tt) pairs ↔ bound). destruct (pairs_spec _ _ Hpairs) as [E _].
  rewrite <- (Forall_fmap snd (λ r, binding_check r = Ok tt)), E, Forall_forall. unfold bound.
  split; intros H r Hr; by apply binding_check_Ok, H; [apply Hknown|].
Qed.
End by_task.

(** ** The two derivations without their events *)
Section derivations.
Context (plan : ExecutionPlan) (bus : Bus) (verify : list N → list N → list N → bool) (key : list N) (observing : bool).
Abbreviation G := (task_graph (ep_tasks plan)).

Definition snapshot_core (hs : list pystr) : res (ReadyDagSnapshot * pystr) :=
  receipts ← _receipts plan bus verify key hs;
  let completed : gset pystr := list_to_set (wr_task_id <$> receipts) in
  let ready := ready_ids plan completed in
  let remaining := remaining_tasks plan completed in
  let independence := if bool_decide (remaining = []) then float_of_Z 1
                      else int_div (Z.of_nat (length ready)) (Z.of_nat (length remaining)) in
  plan_hash ← graph_hash plan;
  hashes ← mapM receipt_hash receipts;
  let snapshot := mkSnapshot plan_hash (sort_str (elements completed)) ready (blocked_ids plan completed) independence (sort_str hashes) in
  sh ← snapshot_hash snapshot;
  Ok (snapshot, sh).

Definition planned_paths (ordered : list (pystr * WorkerReceipt)) : list (PlannedArtifact + IntegrationConflict) :=
  plan_path <$> sort_by key_leb (foldl add_path [] (mjoin (receipt_values <$> ordered))).

Definition integration_core (hs : list pystr) : res (EvidenceIntegrationPlan * pystr) :=
  receipts ← _receipts plan bus verify key hs;
  pairs ← mapM hashed receipts;
  let by_task := receipts_by_task pairs in
  _ ← check_bindings plan by_task;
  ordered_tasks ← order_loop (length by_task) (task_deps plan) by_task.*1 [];
  ordered_receipts ← mapM (λ t, dgetitem t by_task) ordered_tasks;
  let planned := planned_paths ordered_receipts in
  plan_hash ← graph_hash plan;
  let result := mkIntegration plan_hash ordered_receipts.*1 ordered_tasks (lefts planned) (rights planned) in
  ih ← integration_hash result;
  Ok (result, ih).

Lemma emit_total event data log : ∃ log', _emit observing event data log = (Ok tt, log').
Proof. unfold _emit. destruct observing; eexists; reflexivity. Qed.

Lemma sm_lift_bind {S A B} (r : res A) (f : A → SM S B) (s : S) :
  (a ← sm_lift r; f a) s = match r with Ok a => f a s | Raise e => (Raise e, s) end.
Proof. by destruct r. Qed.

Lemma sm_emit_bind {A} event data (a : A) log :
  (_ ← _emit observing event data; mret a) log = (Ok a, (_emit observing event data log).2).
Proof. unfold mbind, SM_bind. by destruct (emit_total event data log) as [log' ->]. Qed.

Definition snapshot_log (s : ReadyDagSnapshot) (h : pystr) (log : list json) : list json :=
  (_emit observing "M4SchedulerSnapshot"
     [("snapshot_hash", JStr h); ("ready_tasks", json_strs (rd_ready_tasks s)); ("blocked_tasks", json_strs (rd_blocked_tasks s));
      ("independence_fraction", JFloat (rd_independence_fraction s))] log).2.

Lemma ready_dag_core hs log :
  ready_dag plan bus verify key observing hs log =
  match snapshot_core hs with Ok (s, h) => (Ok s, snapshot_log s h log) | Raise e => (Raise e, log) end.
Proof.
  unfold snapshot_core, ready_dag. rewrite sm_lift_bind. destruct (_receipts _ _ _ _ _) as [rs|]; [|done]. cbn [mbind res_bind].
  cbv zeta. rewrite sm_lift_bind. destruct (graph_hash plan) as [ph|]; [|done]. cbn [mbind res_bind]. rewrite sm_lift_bind.
  destruct (mapM receipt_hash rs) as [hashes|]; [|done]. cbn [mbind res_bind]. rewrite sm_lift_bind.
  destruct (snapshot_hash _) as [sh|]; [|done]. apply sm_emit_bind.
Qed.

Definition integration_log (p : EvidenceIntegrationPlan) (ih : pystr) (log : list json) : list json :=
  let log := (_emit observing "M4IntegrationPlan"
    [("integration_plan_hash", JStr ih); ("receipt_count", JInt (Z.of_nat (length (ip_ordered_receipt_hashes p))));
     ("conflict_count", JInt (Z.of_nat (length (ip_conflicts p)))); ("integration_eligible", JBool (integration_eligible p))] log).2 in
  if integration_eligible p then log
  else (_emit observing "M4IntegrationConflict"
          [("integration_plan_hash", JStr ih); ("paths", json_strs (ic_path <$> ip_conflicts p)); ("action", JStr (str "hitl_required"))] log).2.

Lemma integration_core_eq hs log :
  integration_plan plan bus verify key observing hs log =
  match integration_core hs with Ok (p, h) => (Ok p, integration_log p h log) | Raise e => (Raise e, log) end.
Proof.
  unfold integration_core, integration_plan. rewrite sm_lift_bind. destruct (_receipts _ _ _ _ _) as [rs|]; [|done]. cbn [mbind res_bind].
  rewrite sm_lift_bind. destruct (mapM hashed rs) as [pairs|]; [|done]. cbn [mbind res_bind]. cbv zeta. rewrite sm_lift_bind.
  destruct (check_bindings _ _) as [[]|]; [|done]. cbn [mbind res_bind]. rewrite sm_lift_bind.
  destruct (order_loop _ _ _ _) as [ord|]; [|done]. cbn [mbind res_bind]. rewrite sm_lift_bind.
  destruct (mapM _ ord) as [ordered|]; [|done]. cbn [mbind res_bind]. rewrite sm_lift_bind.
  destruct (graph_hash plan) as [ph|]; [|done]. cbn [mbind res_bind]. rewrite sm_lift_bind. fold (planned_paths ordered).
  destruct (integration_hash _) as [ih|]; [|done]. cbn [mbind res_bind]. unfold integration_log.
  match goal with |- context [_emit observing "M4IntegrationPlan" ?d] => generalize d; intros data end.
  unfold mbind at 1, SM_bind at 1. destruct (emit_total "M4IntegrationPlan" data log) as [log' ->]. cbn [snd].
  destruct (integration_eligible _); [done|]. apply sm_emit_bind.
Qed.

(** ** Neither depends on the order in which receipts are supplied *)
Lemma snapshot_core_perm hs hs' x : hs ≡ₚ hs' → snapshot_core hs = Ok x → snapshot_core hs' = Ok x.
Proof.
  intros Hp H. unfold snapshot_core in *. apply bind_Ok in H as (rs & Hr & H).
  destruct (_receipts_perm _ _ _ _ _ _ _ Hp Hr) as (rs' & Hr' & Hrs). rewrite Hr'. cbn [mbind res_bind].
  assert (list_to_set (C := gset pystr) (wr_task_id <$> rs') = list_to_set (wr_task_id <$> rs)) as -> by (apply list_to_set_perm_L; by rewrite Hrs).
  apply bind_Ok in H as (ph & -> & H). cbn [mbind res_bind]. apply bind_Ok in H as (hashes & Hm & H).
  destruct (mapM_perm _ _ _ _ Hrs Hm) as (hashes' & -> & Hh). cbn [mbind res_bind]. by rewrite <- (sort_str_perm _ _ Hh).
Qed.

Lemma bound_perm rs rs' : rs ≡ₚ rs' → bound plan rs → bound plan rs'.
Proof.
  intros Hp H r Hr. rewrite <- Hp in Hr. specialize (H r Hr). setoid_rewrite <- Hp. exact H.
Qed.

Lemma integration_core_perm hs hs' x : plan_ok plan → hs ≡ₚ hs' → integration_core hs = Ok x → integration_core hs' = Ok x.
Proof.
  intros Hplan Hp H. unfold integration_core in *. apply bind_Ok in H as (rs & Hr & H).
  destruct (_receipts_perm _ _ _ _ _ _ _ Hp Hr) as (rs' & Hr' & Hrs). rewrite Hr'. cbn [mbind res_bind].
  apply bind_Ok in H as (pairs & Hm & H). destruct (mapM_perm _ _ _ _ Hrs Hm) as (pairs' & Hm' & Hpairs). rewrite Hm'. cbn [mbind res_bind].
  pose proof (λ t, receipt_tasks_known plan bus verify key hs rs t Hplan Hr) as Hk.
  pose proof (λ t, receipt_tasks_known plan bus verify key hs' rs' t Hplan Hr') as Hk'.
  apply _receipts_Ok in Hr as (_ & _ & _ & Hnd). apply _receipts_Ok in Hr' as (_ & _ & _ & Hnd').
  assert (receipts_by_task pairs ≡ₚ receipts_by_task pairs') as Hb by (by rewrite (by_task_eq rs), (by_task_eq rs'), Hpairs).
  apply bind_Ok in H as ([] & Hc & H).
  apply (check_bindings_Ok plan Hplan rs pairs Hm Hnd) in Hc; [|intros r Hin; by apply Hk, list_elem_of_fmap_2].
  rewrite (proj2 (check_bindings_Ok plan Hplan rs' pairs' Hm' Hnd' (λ r Hin, Hk' _ (list_elem_of_fmap_2 _ _ _ Hin))) (bound_perm _ _ Hrs Hc)).
  cbn [mbind res_bind]. rewrite <- (Permutation_length Hb).
  rewrite <- (order_loop_perm _ _ (receipts_by_task pairs).*1) by (by rewrite Hb).
  apply bind_Ok in H as (ord & -> & H). cbn [mbind res_bind].
  assert (mapM (λ t, dgetitem t (receipts_by_task pairs')) ord = mapM (λ t, dgetitem t (receipts_by_task pairs)) ord) as ->; [|exact H].
  apply mapM_res_ext. intros t. unfold dgetitem. by rewrite (dget_perm t _ _ (by_task_wf rs pairs Hm Hnd) Hb).
Qed.

(** ** The specification of an integration plan *)
(** The state a receipt binds to a path: the hash of its content, or that it
    is deleted. *)
Definition binds (r : WorkerReceipt) (path : pystr) (st : option pystr * bool) : Prop :=
  ∃ a, a ∈ wr_artifacts r ∧ ab_path a = path ∧ (ab_sha256 a, ab_deleted a) = st.

Definition disputed (rs : list WorkerReceipt) (path : pystr) : Prop :=
  ∃ r1 r2 st1 st2, r1 ∈ rs ∧ r2 ∈ rs ∧ binds r1 path st1 ∧ binds r2 path st2 ∧ st1 ≠ st2.

Record integrates (rs : list WorkerReceipt) (p : EvidenceIntegrationPlan) : Prop := {
  in_tasks : ip_ordered_task_ids p ≡ₚ wr_task_id <$> rs;
  in_order : topological G (ip_ordered_task_ids p);
  in_receipts : Forall2 (λ h t, ∃ r, r ∈ rs ∧ receipt_hash r = Ok h ∧ wr_task_id r = t) (ip_ordered_receipt_hashes p) (ip_ordered_task_ids p);
  in_bound : bound plan rs;
  in_conflicts : ∀ path, path ∈ ic_path <$> ip_conflicts p ↔ disputed rs path;
  in_artifacts : ∀ path st,
    (∃ a, a ∈ ip_artifacts p ∧ pa_path a = path ∧ (pa_sha256 a, pa_deleted a) = st) ↔
    (∃ r, r ∈ rs ∧ binds r path st) ∧ ¬ disputed rs path;
  in_eligible : integration_eligible p = true ↔ ∀ path, ¬ disputed rs path
}.

(** The values of a path are what the receipts bind to it. *)
Lemma elem_of_receipt_values ordered path v :
  (path, v) ∈ mjoin (receipt_values <$> ordered) ↔
  ∃ hr a, hr ∈ ordered ∧ a ∈ wr_artifacts hr.2 ∧ ab_path a = path ∧ v = (hr.1, ab_sha256 a, ab_deleted a).
Proof.
  rewrite list_elem_of_join. setoid_rewrite list_elem_of_fmap. unfold receipt_values. split.
  - intros (l & Hin & hr & -> & Hhr). apply list_elem_of_fmap in Hin as (a & [= -> ->] & Ha). by exists hr, a.
  - intros (hr & a & Hhr & Ha & <- & ->). eexists. split; [|by exists hr].
    by apply (list_elem_of_fmap_2 (λ a, (ab_path a, (hr.1, ab_sha256 a, ab_deleted a)))).
Qed.

Lemma bound_states (rs : list WorkerReceipt) (ordered : list (pystr * WorkerReceipt)) path st :
  (∀ r, r ∈ rs ↔ r ∈ ordered.*2) →
  (∃ v, v ∈ values_of path (mjoin (receipt_values <$> ordered)) ∧ value_state v = st) ↔ ∃ r, r ∈ rs ∧ binds r path st.
Proof.
  intros Hrs. setoid_rewrite elem_of_values. setoid_rewrite elem_of_receipt_values. split.
  - intros (v & (hr & a & Hhr & Ha & Hp & ->) & <-). exists hr.2. split; [by apply Hrs, list_elem_of_fmap_2|]. by exists a.
  - intros (r & Hr & a & Ha & <- & <-). apply Hrs, list_elem_of_fmap in Hr as (hr & -> & Hhr).
    eexists. split; [by exists hr, a|done].
Qed.

Lemma planned_conflicts (rs : list WorkerReceipt) (ordered : list (pystr * WorkerReceipt)) path :
  (∀ r, r ∈ rs ↔ r ∈ ordered.*2) → path ∈ ic_path <$> rights (planned_paths ordered) ↔ disputed rs path.
Proof.
  intros Hrs. unfold planned_paths. rewrite list_elem_of_fmap. setoid_rewrite elem_of_rights. setoid_rewrite (sort_by_perm key_leb _).
  set (l := mjoin (receipt_values <$> ordered)). pose proof (λ st, bound_states rs ordered path st Hrs) as Hst. fold l in Hst.
  assert (disputed rs path ↔ ∃ v w, v ∈ values_of path l ∧ w ∈ values_of path l ∧ value_state v ≠ value_state w) as ->.
  { unfold disputed. split.
    - intros (r1 & r2 & st1 & st2 & H1 & H2 & B1 & B2 & Hne). destruct (proj2 (Hst st1)) as (v & Hv & <-); [eauto|].
      destruct (proj2 (Hst st2)) as (w & Hw & <-); [eauto|]. eauto.
    - intros (v & w & Hv & Hw & Hne). destruct (proj1 (Hst (value_state v))) as (r1 & ? & ?); [eauto|].
      destruct (proj1 (Hst (value_state w))) as (r2 & ? & ?); [eauto|]. exists r1, r2, (value_state v), (value_state w). done. }
  split.
  - intros (c & -> & [p vs] & Hin & Ec). apply elem_of_paths in Hin as [-> Hne].
    pose proof (plan_path_inr _ _ _ Ec) as Ep. rewrite Ep. apply (plan_path_conflict p); [done|]. eauto.
  - intros H. assert (values_of path l ≠ []) as Hne by (destruct H as (v & _ & Hv & _); intros E; rewrite E in Hv; by apply not_elem_of_nil in Hv).
    apply (plan_path_conflict path) in H as (c & Ec & Ep); [|done]. exists c. split; [done|]. exists (path, values_of path l).
    split; [by apply elem_of_paths|done].
Qed.

Lemma planned_artifacts (rs : list WorkerReceipt) (ordered : list (pystr * WorkerReceipt)) path st :
  (∀ r, r ∈ rs ↔ r ∈ ordered.*2) →
  (∃ a, a ∈ lefts (planned_paths ordered) ∧ pa_path a = path ∧ (pa_sha256 a, pa_deleted a) = st) ↔
  (∃ r, r ∈ rs ∧ binds r path st) ∧ ¬ disputed rs path.
Proof.
  intros Hrs. rewrite <- (planned_conflicts rs ordered path Hrs), <- (bound_states rs ordered path st Hrs).
  unfold planned_paths. rewrite list_elem_of_fmap. setoid_rewrite elem_of_rights. setoid_rewrite elem_of_lefts.
  setoid_rewrite (sort_by_perm key_leb _). set (l := mjoin (receipt_values <$> ordered)). split.
  - intros (a & ([p vs] & Hin & Ea) & <- & <-). apply elem_of_paths in Hin as [Evs Hne]. pose proof Ea as (Ep & _ & Hv)%plan_path_artifact.
    rewrite Ep. split.
    + destruct vs as [|v vs]; [done|]. exists v. rewrite <- Evs. split; [left|]. apply Hv. left.
    + intros (c & -> & [p' vs'] & Hin & Ec). apply elem_of_paths in Hin as [Evs' _]. pose proof (plan_path_inr _ _ _ Ec) as Ep'. congruence.
  - intros [(v & Hv & <-) Hn]. assert ((path, values_of path l) ∈ foldl add_path [] l) as Hin.
    { apply elem_of_paths. split; [done|]. intros E. rewrite E in Hv. by apply not_elem_of_nil in Hv. }
    destruct (plan_path (path, values_of path l)) as [a|c] eqn:E.
    + exists a. split; [by exists (path, values_of path l)|]. apply plan_path_artifact in E as (? & _ & Hs). split; [done|]. symmetry. by apply Hs.
    + exfalso. apply Hn. exists c. split; [symmetry; by eapply plan_path_inr|]. eauto.
Qed.

Lemma integration_order rs pairs :
  plan_ok plan → mapM hashed rs = Ok pairs → NoDup (wr_task_id <$> rs) → bound plan rs →
  ∃ ord ordered, order_loop (length (receipts_by_task pairs)) (task_deps plan) (receipts_by_task pairs).*1 [] = Ok ord ∧
    ord ≡ₚ wr_task_id <$> rs ∧ topological G ord ∧
    mapM (λ t, dgetitem t (receipts_by_task pairs)) ord = Ok ordered ∧ (∀ r, r ∈ rs ↔ r ∈ ordered.*2) ∧
    Forall2 (λ h t, ∃ r, r ∈ rs ∧ receipt_hash r = Ok h ∧ wr_task_id r = t) ordered.*1 ord.
Proof.
  intros Hplan Hm Hnd Hb. pose proof (by_task_keys rs pairs Hm Hnd) as Hk.
  destruct (order_loop_spec G (pok_task_closed _ Hplan) (pok_task_acyclic _ Hplan) (task_deps plan) (task_deps_gdep plan Hplan)
              (length (receipts_by_task pairs)) (receipts_by_task pairs).*1 []) as (ord & Eo & Hp & Ht).
  { by rewrite length_fmap. }
  { intros i n d Hi. done. }
  { intros t d Hin Hd. rewrite Hk in *. apply list_elem_of_fmap in Hin as (r & -> & Hr). by apply (Hb r Hr). }
  cbn in Hp. rewrite Hk in Hp. destruct (mapM_total (λ t, dgetitem t (receipts_by_task pairs)) ord) as [ordered Ed].
  { intros t Hin. rewrite Hp, <- Hk in Hin. apply dget_is_Some in Hin as [v Ev]. exists v. by apply dgetitem_Ok. }
  exists ord, ordered. split_and!; [done..| |].
  - apply mapM_res_Ok in Ed. intros r. rewrite list_elem_of_fmap. split.
    + intros Hr. assert (wr_task_id r ∈ ord) as Hin by (rewrite Hp; by apply list_elem_of_fmap_2).
      apply list_elem_of_lookup in Hin as [i Hi]. destruct (Forall2_lookup_l _ _ _ _ _ Ed Hi) as ([h r'] & Hy & Eg).
      apply dgetitem_Ok, (by_task_get rs pairs Hm Hnd) in Eg as [Hin' Et]. exists (h, r'). split; [|by eapply list_elem_of_lookup_2].
      apply (elem_of_pairs rs pairs Hm Hnd) in Hin' as [Hr' _]. by apply (NoDup_key_inj wr_task_id rs).
    + intros ([h r'] & -> & Hin). apply list_elem_of_lookup in Hin as [i Hi]. destruct (Forall2_lookup_r _ _ _ _ _ Ed Hi) as (t & _ & Eg).
      apply dgetitem_Ok, (by_task_get rs pairs Hm Hnd) in Eg as [Hin _]. by apply (elem_of_pairs rs pairs Hm Hnd) in Hin as [? _].
  - apply mapM_res_Ok in Ed. apply Forall2_fmap_l, Forall2_flip. eapply Forall2_impl; [exact Ed|]. intros t [h r] Eg.
    apply dgetitem_Ok, (by_task_get rs pairs Hm Hnd) in Eg as [Hin <-]. apply (elem_of_pairs rs pairs Hm Hnd) in Hin as [? ?].
    by exists r.
Qed.

Lemma integration_core_sound hs p ih :
  plan_ok plan → integration_core hs = Ok (p, ih) → ∃ rs, _receipts plan bus verify key hs = Ok rs ∧ integrates rs p.
Proof.
  intros Hplan H. unfold integration_core in H. apply bind_Ok in H as (rs & Hr & H). apply bind_Ok in H as (pairs & Hm & H).
  pose proof (λ t, receipt_tasks_known plan bus verify key hs rs t Hplan Hr) as Hk. exists rs. split; [done|].
  apply _receipts_Ok in Hr as (_ & _ & _ & Hnd). apply bind_Ok in H as ([] & Hc & H).
  apply (check_bindings_Ok plan Hplan rs pairs Hm Hnd) in Hc; [|intros r Hin; by apply Hk, list_elem_of_fmap_2].
  destruct (integration_order rs pairs Hplan Hm Hnd Hc) as (ord & ordered & Eo & Hp & Ht & Ed & Hrs & Hf).
  rewrite Eo in H. cbn [mbind res_bind] in H. rewrite Ed in H. cbn [mbind res_bind] in H.
  apply bind_Ok in H as (ph & _ & H). apply bind_Ok in H as (h & _ & [= <- <-]). constructor; cbn.
  - done.
  - done.
  - done.
  - done.
  - intros path. by apply planned_conflicts.
  - intros path st. by apply planned_artifacts.
  - unfold integration_eligible. cbn. rewrite bool_decide_eq_true. setoid_rewrite <- (planned_conflicts rs ordered _ Hrs). split.
    + intros E path. rewrite (nil_length_inv _ E). apply not_elem_of_nil.
    + intros Hn. destruct (rights (planned_paths ordered)) as [|c l]; [done|]. exfalso. apply (Hn (ic_path c)). left.
Qed.
End derivations.

(** ** Evidence behind the receipts *)
(** Hash [h] names a receipt [r] that may be consumed: stored, signed by the
    Station, and not stale unless a human approved it. *)
Definition usable (verify : list N → list N → list N → bool) (key : list N) (b : Bus) (ws : list WorkerReceipt)
    (h : pystr) (r : WorkerReceipt) : Prop :=
  stored b ws h r ∧ StationIdentity_verify verify r key = Ok true ∧ (¬ stale b ws h ∨ dmem h (b_stale b) = true).

Lemma consumable_usable verify key b ws h r :
  bus_holds b ws → consumable verify h key b = Ok r → usable verify key b ws h r ∧ receipt_hash r = Ok h.
Proof.
  intros Hb H. assert (lower_hex 64 h = true) as Hh.
  { unfold consumable in H. apply bind_Ok in H as (w & Hg & _). unfold get in Hg. apply bind_Ok in Hg as (h' & Hr & _).
    cbn in Hr. by destruct (lower_hex 64 h). }
  apply (consumable_spec verify h key b ws r Hb Hh) in H. split; [exact H|]. destruct H as ((i & row & Hi & Hw & <-) & _).
  destruct (rows_lookup _ _ _ _ Hb Hi) as (w & Hw' & Hro). assert (w = r) as -> by congruence. apply Hro.
Qed.

Lemma receipts_usable plan verify key b ws hs rs :
  bus_holds b ws → _receipts plan b verify key hs = Ok rs →
  Forall2 (λ h r, usable verify key b ws h r ∧ receipt_hash r = Ok h) hs rs.
Proof.
  intros Hb H. apply _receipts_Ok in H as (_ & H & _). apply mapM_res_Ok in H. eapply Forall2_impl; [exact H|].
  intros h r. by apply consumable_usable.
Qed.

Lemma receipts_hashes plan verify key b ws hs rs :
  bus_holds b ws → _receipts plan b verify key hs = Ok rs → mapM receipt_hash rs = Ok hs.
Proof.
  intros Hb H. apply mapM_res_Ok, Forall2_flip. eapply Forall2_impl; [by eapply receipts_usable|]. by intros h r [_ ?].
Qed.

(** The ordered receipts are the supplied ones. *)
Lemma integrated_hashes plan rs hs p :
  integrates plan rs p → NoDup (wr_task_id <$> rs) → mapM receipt_hash rs = Ok hs → ip_ordered_receipt_hashes p ≡ₚ hs.
Proof.
  intros Hi Hnd Hm. apply mapM_res_Ok in Hm. pose proof (in_receipts _ _ _ Hi) as Hf. pose proof (in_tasks _ _ _ Hi) as Hp.
  revert Hf Hp. generalize (ip_ordered_receipt_hashes p), (ip_ordered_task_ids p). intros hashes ts Hf Hp.
  assert (∃ rs', rs ≡ₚ rs' ∧ wr_task_id <$> rs' = ts) as (rs' & Hrs & <-).
  { apply Permutation_map_inv in Hp as (rs' & -> & Hrs). by exists rs'. }
  assert (mapM receipt_hash rs' = Ok hashes) as Hm'.
  { apply mapM_res_Ok. apply Forall2_fmap_r, Forall2_flip in Hf. rewrite Hrs in Hnd.
    assert (∀ l k, (∀ r, r ∈ l → r ∈ rs) → Forall2 (flip (λ h r, ∃ r0, r0 ∈ rs ∧ receipt_hash r0 = Ok h ∧ wr_task_id r0 = wr_task_id r)) l k →
      Forall2 (λ r h, receipt_hash r = Ok h) l k) as Hgen; [|apply Hgen; [intros r Hr; by rewrite Hrs|exact Hf]].
    intros l k Hl. induction 1 as [|r h l k (r0 & H0 & Eh & Et) _ IH]; constructor.
    - assert (r0 = r) as ->; [|done]. apply (NoDup_key_inj wr_task_id rs); [by rewrite Hrs|done|apply Hl; left|done].
    - apply IH. intros x Hx. apply Hl. by right. }
  apply mapM_res_Ok in Hm. destruct (mapM_perm _ _ _ _ Hrs Hm) as (k & Ek & Hk). rewrite Hm' in Ek. injection Ek as ->. done.
Qed.

Section statements.
Context (clock : nat → Z) (verify : list N → list N → list N → bool) (edsign : list N → list N) (key_id : pystr) (new_id : nat → pystr).
Abbreviation bus_after ops := (bus_run clock verify edsign key_id new_id ops Bus_new).

(** C30: The scheduler's view of an approved plan is exact.  On a bus reached by
    its operations, a snapshot's completed tasks are those of the supplied
    receipts, each stored, signed and not stale; a task is ready exactly when it
    is planned, not completed and all its dependencies are completed; completed,
    ready and blocked tasks partition the plan; unless the plan is complete some
    task is ready; and snapshot and event do not depend on the order in which
    the receipts are supplied. *)
Theorem ready_dag_exact ops plan key observing hs log s log' :
  plan_ok plan → ready_dag plan (bus_after ops) verify key observing hs log = (Ok s, log') →
  ∃ ws rs, bus_holds (bus_after ops) ws ∧
  Forall2 (usable verify key (bus_after ops) ws) hs rs ∧ rd_receipt_hashes s = sort_str hs ∧
  (∀ t, t ∈ rd_completed_tasks s ↔ t ∈ wr_task_id <$> rs) ∧
  (∀ t, t ∈ rd_ready_tasks s ↔ task_ready plan (list_to_set (rd_completed_tasks s)) t) ∧
  rd_completed_tasks s ++ rd_ready_tasks s ++ rd_blocked_tasks s ≡ₚ ft_id <$> ep_tasks plan ∧
  (rd_ready_tasks s = [] → rd_completed_tasks s ≡ₚ ft_id <$> ep_tasks plan) ∧
  ∀ hs', hs ≡ₚ hs' → ready_dag plan (bus_after ops) verify key observing hs' log = (Ok s, log').
Proof.
  intros Hplan H. destruct (bus_run_holds clock verify edsign key_id new_id ops Bus_new [] Bus_new_holds) as [ws Hb].
  rewrite app_nil_l in Hb. set (b := bus_after ops) in *. rewrite ready_dag_core in H.
  destruct (snapshot_core plan b verify key hs) as [[s0 h]|] eqn:Ec; [|done]. injection H as -> <-.
  pose proof Ec as Hc. unfold snapshot_core in Hc. apply bind_Ok in Hc as (rs & Hr & Hc). exists ws, rs.
  apply bind_Ok in Hc as (ph & _ & Hc). rewrite (receipts_hashes plan verify key b ws hs rs Hb Hr) in Hc. cbn [mbind res_bind] in Hc.
  apply bind_Ok in Hc as (sh & _ & [= <- <-]). cbn [rd_receipt_hashes rd_completed_tasks rd_ready_tasks rd_blocked_tasks].
  assert (∀ C : gset pystr, list_to_set (sort_str (elements C)) = C) as Hset by (intros C; apply set_eq; intros t; by rewrite elem_of_list_to_set, sort_by_perm, elem_of_elements).
  rewrite Hset. assert (∀ t, t ∈ list_to_set (C := gset pystr) (wr_task_id <$> rs) → t ∈ ft_id <$> ep_tasks plan) as Hin.
  { intros t Ht. apply elem_of_list_to_set in Ht. by eapply receipt_tasks_known. }
  pose proof (readiness_partition plan Hplan _ Hin) as Hpart. split_and!; [done| |done| | |done| |].
  - eapply Forall2_impl; [by eapply receipts_usable|]. by intros ? ? [? _].
  - intros t. by rewrite sort_by_perm, elem_of_elements, elem_of_list_to_set.
  - intros t. by apply elem_of_ready_ids.
  - intros E. rewrite E, (readiness_progress plan Hplan _ E), !app_nil_r in Hpart. done.
  - intros hs' Hp. rewrite ready_dag_core, (snapshot_core_perm _ _ _ _ _ _ _ Hp Ec). done.
Qed.

(** C7: Integration follows the approved graph and hides no disagreement.  When
    a plan is produced from receipts on a bus reached by its operations, it
    orders exactly their tasks with every dependency first, every receipt's
    parents are the receipts of its task's dependencies, the conflicts are
    exactly the paths to which two receipts bind different states, every other
    bound path is planned with the state all its receipts agree on, the plan is
    eligible exactly when there is no conflict, and the result does not depend
    on the order of the receipts.  When the receipts, their hashes and their
    bindings check, the ordering loop always finds an order. *)
Theorem integration_plan_sound ops plan key observing :
  plan_ok plan →
  (∀ hs log p log', integration_plan plan (bus_after ops) verify key observing hs log = (Ok p, log') →
   ∃ ws rs, bus_holds (bus_after ops) ws ∧
   Forall2 (usable verify key (bus_after ops) ws) hs rs ∧ integrates plan rs p ∧ ip_ordered_receipt_hashes p ≡ₚ hs ∧
   ∀ hs', hs ≡ₚ hs' → integration_plan plan (bus_after ops) verify key observing hs' log = (Ok p, log')) ∧
  (∀ hs rs pairs, _receipts plan (bus_after ops) verify key hs = Ok rs → mapM hashed rs = Ok pairs →
   check_bindings plan (receipts_by_task pairs) = Ok tt →
   is_ok (order_loop (length pairs) (task_deps plan) (receipts_by_task pairs).*1 []) = true).
Proof.
  intros Hplan. destruct (bus_run_holds clock verify edsign key_id new_id ops Bus_new [] Bus_new_holds) as [ws Hb].
  rewrite app_nil_l in Hb. set (b := bus_after ops) in *. split.
  - intros hs log p log' H. rewrite integration_core_eq in H.
    destruct (integration_core plan b verify key hs) as [[p0 ih]|] eqn:Ec; [|done]. injection H as -> <-.
    destruct (integration_core_sound plan b verify key hs p ih Hplan Ec) as (rs & Hr & Hi). exists ws, rs.
    pose proof (receipts_usable plan verify key b ws hs rs Hb Hr) as Hu. split_and!; [done| |done| |].
    + eapply Forall2_impl; [exact Hu|]. by intros ? ? [? _].
    + eapply integrated_hashes; [done| |by eapply receipts_hashes]. by apply _receipts_Ok in Hr as (_ & _ & _ & ?).
    + intros hs' Hp. by rewrite integration_core_eq, (integration_core_perm _ _ _ _ _ _ _ Hplan Hp Ec).
  - intros hs rs pairs Hr Hm Hc. pose proof (λ t, receipt_tasks_known plan b verify key hs rs t Hplan Hr) as Hk.
    apply _receipts_Ok in Hr as (_ & _ & _ & Hnd).
    apply (check_bindings_Ok plan Hplan rs pairs Hm Hnd) in Hc; [|intros r Hin; by apply Hk, list_elem_of_fmap_2].
    destruct (integration_order plan rs pairs Hplan Hm Hnd Hc) as (ord & ordered & Eo & _).
    rewrite (by_task_eq rs pairs Hm Hnd), length_fmap, <- (by_task_eq rs pairs Hm Hnd) in Eo. by rewrite Eo.
Qed.
End statements.

(** ** Witnesses *)
Definition or_nil (r : res pystr) : pystr := match r with Ok h => h | Raise _ => [] end.
Definition demo_contract (task req attempt : string) : WorkerContract :=
  mkContract (str task) (str "w1") (str "swarm") (or_nil (graph_hash demo_plan)) (str attempt) (str "lease1") 1 (replicate 40 48%N)
    (str "/ws") [] [str "out/"] [] [str req] [str "ok"] [] [] [] 100 (float_of_Z 60) 2 1 64 None (str "local").
Definition demo_candidate (c : WorkerContract) : RuntimeResult :=
  mkRuntimeResult (wc_attempt_id c) (str "CANDIDATE") (or_nil (contract_hash c)) (wc_execution_plan_hash c)
    (Some (mkCandidate (replicate 40 48%N) (replicate 40 49%N) [(str "out/x", Some (sha256_hex demo_file))])) (str "e") (str "1").
Definition demo_issue (task req attempt : string) (parents : list pystr) : BusOp :=
  let c := demo_contract task req attempt in
  BIssue c (demo_candidate c) demo_ws (mkDecision [(str req, true)] [(str "ok", str "pass")] (str "pass") (str "station") demo_hash) parents None.
Abbreviation demo_bus ops :=
  (bus_run (λ n, Z.of_nat n + 1)%Z demo_verify demo_sign (sha256_hex demo_pub) (λ _, str "id") ops Bus_new).
Definition demo_ops1 : list BusOp := [demo_issue "task.a" "a" "att1" []].

Lemma demo_ready : is_ok (ready_dag demo_plan (demo_bus demo_ops1) demo_verify demo_pub true (row_hashes (demo_bus demo_ops1)) []).1 = true.
Proof. vm_compute. reflexivity. Qed.

Lemma ready_dag_exact_witness :
  ∃ s log', ready_dag demo_plan (demo_bus demo_ops1) demo_verify demo_pub true (row_hashes (demo_bus demo_ops1)) [] = (Ok s, log') ∧
  rd_completed_tasks s ++ rd_ready_tasks s ++ rd_blocked_tasks s ≡ₚ ft_id <$> ep_tasks demo_plan.
Proof.
  pose proof demo_ready as Hok.
  destruct (ready_dag demo_plan (demo_bus demo_ops1) demo_verify demo_pub true (row_hashes (demo_bus demo_ops1)) []) as [[s|e] log'] eqn:E.
  - exists s, log'. split; [reflexivity|].
    destruct (ready_dag_exact (λ n, Z.of_nat n + 1)%Z demo_verify demo_sign (sha256_hex demo_pub) (λ _, str "id") demo_ops1 demo_plan
      demo_pub true _ [] s log' demo_plan_ok E) as (ws & rs & _ & _ & _ & _ & _ & H & _). exact H.
  - discriminate Hok.
Defined.

Lemma demo_integrates : is_ok (integration_plan demo_plan (demo_bus demo_ops1) demo_verify demo_pub true (row_hashes (demo_bus demo_ops1)) []).1 = true.
Proof. vm_compute. reflexivity. Qed.

Lemma integration_plan_sound_witness :
  ∃ p log', integration_plan demo_plan (demo_bus demo_ops1) demo_verify demo_pub true (row_hashes (demo_bus demo_ops1)) [] = (Ok p, log') ∧
  ∃ rs, integrates demo_plan rs p.
Proof.
  pose proof demo_integrates as Hok.
  destruct (integration_plan demo_plan (demo_bus demo_ops1) demo_verify demo_pub true (row_hashes (demo_bus demo_ops1)) []) as [[p|e] log'] eqn:E.
  - exists p, log'. split; [reflexivity|].
    destruct (proj1 (integration_plan_sound (λ n, Z.of_nat n + 1)%Z demo_verify demo_sign (sha256_hex demo_pub) (λ _, str "id") demo_ops1
      demo_plan demo_pub true demo_plan_ok) _ [] p log' E) as (ws & rs & _ & _ & H & _). exists rs. exact H.
  - discriminate Hok.
Defined.
