(* ===== verification/Market.v ===== *)
(** * The verified compute market (residual/assurance/market.py)

    Engine profiles with a Beta posterior of their verified pass rate, their
    retirement, and the choice of an engine.  Costs and latencies are Python
    numbers, the posterior is floats.  [log] and the square by [pow] come from
    the C library and are parameters; [sqrt] is the IEEE operation. *)

From Stdlib Require Import ZArith NArith Lia SpecFloat.
From S2P Require Import Prelude PyData Sha256 PyFloat Json Core CoreFacts Builtins Providers.

(** ** Python float operations that may raise *)
Definition ZeroDivisionError : exn := OtherError "ZeroDivisionError: float division by zero".
Definition LookupError (msg : string) : exn := OtherError ("LookupError: " +:+ msg).

Definition py_fdiv (a b : float) : res float :=
  match b with S754_zero _ => Raise ZeroDivisionError | _ => Ok (fdiv a b) end.

(** [math.sqrt] *)
Definition py_sqrt (f : float) : res float :=
  match f with
  | S754_finite true _ _ | S754_infinity true => Raise (ValueError "math domain error")
  | _ => Ok (SFsqrt 53 1024 f)
  end.

(** [max(a, b)] and [min(a, b)]: the first argument unless the second is
    strictly larger, or smaller. *)
Definition fmax (a b : float) : float := if SFltb a b then b else a.
Definition fmin (a b : float) : float := if SFltb b a then b else a.

Definition fone : float := float_of_Z 1.

Record MarketProfile : Type := mkProfile {
  mp_engine_id : pystr;
  mp_capabilities : gset pystr;
  mp_cost_per_task : num;
  mp_latency_ms : num;
  mp_availability : float;
  mp_privacy_class : Z;
  mp_location : pystr;
  mp_alpha : float;
  mp_beta : float;
  mp_trials : Z;
  mp_retired : bool
}.

Definition set_posterior (alpha beta : float) (trials : Z) (p : MarketProfile) : MarketProfile :=
  mkProfile (mp_engine_id p) (mp_capabilities p) (mp_cost_per_task p) (mp_latency_ms p) (mp_availability p) (mp_privacy_class p)
    (mp_location p) alpha beta trials (mp_retired p).
Definition set_retired (p : MarketProfile) : MarketProfile :=
  mkProfile (mp_engine_id p) (mp_capabilities p) (mp_cost_per_task p) (mp_latency_ms p) (mp_availability p) (mp_privacy_class p)
    (mp_location p) (mp_alpha p) (mp_beta p) (mp_trials p) true.

Definition pass_rate (p : MarketProfile) : res float := py_fdiv (mp_alpha p) (fadd (mp_alpha p) (mp_beta p)).

Definition profile_update (quality_adjusted_success : float) (p : MarketProfile) : MarketProfile :=
  let s := fmin fone (fmax fzero quality_adjusted_success) in
  set_posterior (fadd (mp_alpha p) s) (fadd (mp_beta p) (fsub fone s)) (mp_trials p + 1) p.

Record MarketRequest : Type := mkRequest {
  mr_capability : pystr;
  mr_required_pass_rate : float;
  mr_max_privacy_class : Z;
  mr_max_latency_ms : option num;
  mr_allow_exploration : bool
}.

Record MarketDecision : Type := mkMarketDecision {
  md_engine_id : pystr;
  md_score : float;
  md_reason : string;
  md_profile_snapshot : list (string * json)
}.

Record VerifiedComputeMarket : Type := mkMarket {
  mk_profiles : dict MarketProfile;
  mk_exploration_strength : float;
  mk_retire_min_trials : Z;
  mk_retire_floor : float
}.

Definition set_profiles (d : dict MarketProfile) (m : VerifiedComputeMarket) : VerifiedComputeMarket :=
  mkMarket d (mk_exploration_strength m) (mk_retire_min_trials m) (mk_retire_floor m).

Definition register (profile : MarketProfile) : SM VerifiedComputeMarket unit :=
  m ← sm_get;
  if dmem (mp_engine_id profile) (mk_profiles m) then sm_raise (ValueError "duplicate engine profile")
  else sm_mod (λ m, set_profiles (dset (mp_engine_id profile) profile (mk_profiles m)) m).

(** The posterior is updated before the pass rate is read. *)
Definition market_update (engine_id : pystr) (verifier_passed : bool) (verifier_reliability : float)
    : SM VerifiedComputeMarket unit :=
  m ← sm_get;
  p ← sm_lift (dgetitem engine_id (mk_profiles m));
  let reliability := fmin fone (fmax fzero verifier_reliability) in
  let adjusted := if verifier_passed then reliability else fsub fone reliability in
  let p := profile_update adjusted p in
  _ ← sm_mod (λ m, set_profiles (dset engine_id p (mk_profiles m)) m);
  if (mk_retire_min_trials m <=? mp_trials p)%Z then
    rate ← sm_lift (pass_rate p);
    if SFltb rate (mk_retire_floor m)
    then sm_mod (λ m, set_profiles (dset engine_id (set_retired p) (mk_profiles m)) m)
    else mret tt
  else mret tt.

Definition _eligible (p : MarketProfile) (r : MarketRequest) : bool :=
  negb (mp_retired p) && bool_decide (mr_capability r ∈ mp_capabilities p) && SFltb fzero (mp_availability p)
  && (mp_privacy_class p <=? mr_max_privacy_class r)%Z
  && match mr_max_latency_ms r with None => true | Some l => num_leb (mp_latency_ms p) l end.

(** The first element no later element beats. *)
Fixpoint min_by {A} (lt : A → A → bool) (best : A) (l : list A) : A :=
  match l with
  | [] => best
  | x :: l => min_by lt (if lt x best then x else best) l
  end.

(** Tuple order on [(score, engine_id)]. *)
Definition scored_lt (x y : float * MarketProfile) : bool :=
  if SFeqb x.1 y.1 then str_ltb (mp_engine_id x.2) (mp_engine_id y.2) else SFltb x.1 y.1.

Section libm.
Context (libm_log : float → float) (libm_square : float → float).

(** [x ** 2] *)
Definition py_square (f : float) : res float :=
  match f with
  | S754_nan => Ok S754_nan
  | S754_infinity _ => Ok (S754_infinity false)
  | S754_zero _ => Ok fzero
  | S754_finite _ m e =>
      let r := libm_square (S754_finite false m e) in
      if is_finite r then Ok r else Raise (OtherError "OverflowError: Numerical result out of range")
  end.

Definition lower_bound (p : MarketProfile) : res float :=
  let a := mp_alpha p in
  let b := mp_beta p in
  mean ← py_fdiv a (fadd a b);
  sq ← py_square (fadd a b);
  var ← py_fdiv (fmul a b) (fmul sq (fadd (fadd a b) fone));
  sd ← py_sqrt var;
  Ok (fmax fzero (fsub mean (fmul (float_of_dec false 164 (-2)) sd))).

(** [math.log] of a float at least 2 *)
Definition exploration (strength : float) (total_trials : Z) (p : MarketProfile) : res float :=
  t ← num_float (NInt total_trials);
  n ← num_float (NInt (mp_trials p));
  ratio ← py_fdiv (libm_log (fadd t fone)) (fadd n fone);
  root ← py_sqrt ratio;
  Ok (fmul strength root).

Definition score (m : VerifiedComputeMarket) (r : MarketRequest) (total_trials : Z) (p : MarketProfile) : res float :=
  e ← (if mr_allow_exploration r then exploration (mk_exploration_strength m) total_trials p else Ok fzero);
  lb ← lower_bound p;
  let quality_penalty := fmul (fmax fzero (fsub (mr_required_pass_rate r) lb)) (float_of_Z 100) in
  l ← num_float (mp_latency_ms p);
  c ← num_float (mp_cost_per_task p);
  Ok (fsub (fadd (fadd c (fmul l (float_of_dec false 1 (-6)))) quality_penalty) e).

Definition num_json (n : num) : json := match n with NInt z => JInt z | NFloat f => JFloat f end.

Definition profile_snapshot (p : MarketProfile) : res (list (string * json)) :=
  rate ← pass_rate p;
  lb ← lower_bound p;
  Ok [("pass_rate", JFloat rate); ("lower_bound", JFloat lb); ("trials", JInt (mp_trials p));
      ("cost_per_task", num_json (mp_cost_per_task p)); ("latency_ms", num_json (mp_latency_ms p));
      ("privacy_class", JInt (mp_privacy_class p)); ("location", JStr (mp_location p))].

(** The profiles of [l] that satisfy a test that may raise. *)
Fixpoint filterM {A} (f : A → res bool) (l : list A) : res (list A) :=
  match l with
  | [] => Ok []
  | x :: l => b ← f x; k ← filterM f l; Ok (if b : bool then x :: k else k)
  end.

(** The winner is a member of [constrained] exactly when that list, then the
    pool, is not empty. *)
Definition select (m : VerifiedComputeMarket) (r : MarketRequest) : res MarketDecision :=
  let eligible := filter (λ p, _eligible p r = true) (mk_profiles m).*2 in
  when bool_decide (eligible = []) raise LookupError "no market engine supports the capability";;
  let total_trials := Z.max 1 (foldl Z.add 0%Z (mp_trials <$> eligible)) in
  constrained ← filterM (λ p, lb ← lower_bound p; Ok (SFleb (mr_required_pass_rate r) lb)) eligible;
  let pool := if bool_decide (constrained = []) then eligible else constrained in
  scored ← mapM (λ p, s ← score m r total_trials p; Ok (s, p)) pool;
  match scored with
  | [] => Raise (LookupError "no market engine supports the capability")
  | first :: rest =>
      let '(s, best) := min_by scored_lt first rest in
      snapshot ← profile_snapshot best;
      Ok (mkMarketDecision (mp_engine_id best) s
            (if bool_decide (constrained = []) then "best_available_below_constraint" else "meets_quality_constraint") snapshot)
  end.
End libm.

(** ** The least element *)
Section min_by.
Context {A : Type} (lt : A → A → bool).
Context (lt_irrefl : ∀ x, lt x x = false) (lt_trans : ∀ x y z, lt x y = true → lt y z = true → lt x z = true).

Lemma min_by_elem best l : min_by lt best l ∈ best :: l.
Proof.
  revert best. induction l as [|x l IH]; intros best; cbn; [left|]. specialize (IH (if lt x best then x else best)).
  apply elem_of_cons in IH as [->|H]; [destruct (lt x best); [right; left|left]|by do 2 right].
Qed.

Lemma min_by_below best l : min_by lt best l = best ∨ lt (min_by lt best l) best = true.
Proof using lt_trans.
  revert best. induction l as [|x l IH]; intros best; cbn; [by left|]. destruct (lt x best) eqn:E; [|by apply IH].
  right. destruct (IH x) as [->|H]; [done|]. by eapply lt_trans.
Qed.

Lemma min_by_least best l y : y ∈ best :: l → lt y (min_by lt best l) = false.
Proof using lt_irrefl lt_trans.
  revert best. induction l as [|x l IH]; intros best Hy; cbn [min_by].
  { apply list_elem_of_singleton in Hy as ->. apply lt_irrefl. }
  destruct (lt x best) eqn:E.
  - apply elem_of_cons in Hy as [->|Hy]; [|by apply IH]. destruct (lt best _) eqn:Eb; [|done].
    assert (lt (min_by lt x l) best = true) as H.
    { destruct (min_by_below x l) as [->|H]; [done|]. by eapply lt_trans. }
    pose proof (lt_trans _ _ _ H Eb) as Hc. by rewrite lt_irrefl in Hc.
  - apply elem_of_cons in Hy as [->|Hy]; [apply IH; left|]. apply elem_of_cons in Hy as [->|Hy]; [|apply IH; by right].
    destruct (lt x (min_by lt best l)) eqn:Ex; [|done]. destruct (min_by_below best l) as [Em|Em]; [congruence|].
    by rewrite (lt_trans _ _ _ Ex Em) in E.
Qed.
End min_by.

(** ** The order of floats *)
(** A float that is not NaN as a triple compared lexicographically. *)
Definition float_key (f : float) : option (Z * Z * Z) :=
  match f with
  | S754_nan => None
  | S754_infinity true => Some (-2, 0, 0)
  | S754_infinity false => Some (2, 0, 0)
  | S754_zero _ => Some (0, 0, 0)
  | S754_finite true m e => Some (-1, - e, Z.neg m)
  | S754_finite false m e => Some (1, e, Z.pos m)
  end%Z.

Definition key_lt (x y : Z * Z * Z) : Prop :=
  (x.1.1 < y.1.1 ∨ x.1.1 = y.1.1 ∧ (x.1.2 < y.1.2 ∨ x.1.2 = y.1.2 ∧ x.2 < y.2))%Z.

Lemma SFcompare_key f g :
  match SFcompare f g with
  | None => float_key f = None ∨ float_key g = None
  | Some c => ∃ x y, float_key f = Some x ∧ float_key g = Some y ∧
      match c with Lt => key_lt x y | Eq => x = y | Gt => key_lt y x end
  end.
Proof.
  destruct f as [s|s| |s m e], g as [s'|s'| |s' m' e']; try destruct s; try destruct s'; cbn; auto;
    try (do 2 eexists; split_and!; [reflexivity..|unfold key_lt; cbn; lia]);
    try (do 2 eexists; split_and!; reflexivity).
  all: change (PosDef.Pos.compare_cont Eq m m') with (m ?= m')%positive.
  all: destruct (Z.compare_spec e e') as [->|He|He], (Pos.compare_spec m m') as [->|Hm|Hm]; cbn;
    do 2 eexists; (split_and!; [reflexivity..|]); first [reflexivity|unfold key_lt; cbn; lia].
Qed.

Lemma SFltb_key f g : SFltb f g = true ↔ ∃ x y, float_key f = Some x ∧ float_key g = Some y ∧ key_lt x y.
Proof.
  unfold SFltb. pose proof (SFcompare_key f g) as H. destruct (SFcompare f g) as [[]|].
  - destruct H as (x & y & -> & -> & ->). split; [done|]. intros (x' & y' & [= <-] & [= <-] & Hk). exfalso. unfold key_lt in Hk. lia.
  - split; [auto|done].
  - destruct H as (x & y & -> & -> & Hlt). split; [done|]. intros (x' & y' & [= <-] & [= <-] & Hk). exfalso. unfold key_lt in *. lia.
  - split; [done|]. intros (x & y & Hx & Hy & _). destruct H; congruence.
Qed.

Lemma SFeqb_key f g : SFeqb f g = true ↔ ∃ x, float_key f = Some x ∧ float_key g = Some x.
Proof.
  unfold SFeqb. pose proof (SFcompare_key f g) as H. destruct (SFcompare f g) as [[]|].
  - destruct H as (x & y & -> & -> & ->). split; eauto.
  - destruct H as (x & y & -> & -> & Hlt). split; [done|]. intros (x' & [= <-] & [= <-]). exfalso. unfold key_lt in Hlt. lia.
  - destruct H as (x & y & -> & -> & Hlt). split; [done|]. intros (x' & [= <-] & [= <-]). exfalso. unfold key_lt in Hlt. lia.
  - split; [done|]. intros (x & Hx & Hy). destruct H; congruence.
Qed.

Lemma str_ltb_trans s t u : str_ltb s t = true → str_ltb t u = true → str_ltb s u = true.
Proof.
  rewrite !str_ltb_leb, !negb_true_iff. intros H1 H2. destruct (str_leb u s) eqn:E; [|done]. exfalso.
  destruct (str_leb_total t u) as [Ht|Ht]; [|congruence]. rewrite (str_leb_trans _ _ _ Ht E) in H1. done.
Qed.
Lemma str_ltb_irrefl s : str_ltb s s = false.
Proof. by rewrite str_ltb_leb, str_leb_refl. Qed.

Lemma scored_lt_irrefl x : scored_lt x x = false.
Proof.
  unfold scored_lt. destruct (SFeqb x.1 x.1); [apply str_ltb_irrefl|]. destruct (SFltb _ _) eqn:E; [|done].
  apply SFltb_key in E as (a & b & Ha & Hb & Hlt). unfold key_lt in Hlt. replace b with a in * by congruence. lia.
Qed.

Lemma scored_lt_trans x y z : scored_lt x y = true → scored_lt y z = true → scored_lt x z = true.
Proof.
  unfold scored_lt. destruct (SFeqb x.1 y.1) eqn:E1, (SFeqb y.1 z.1) eqn:E2; intros H1 H2.
  - apply SFeqb_key in E1 as (a & Ha & Hb), E2 as (b & Hc & Hd). rewrite (proj2 (SFeqb_key x.1 z.1)) by (exists a; split; congruence).
    by eapply str_ltb_trans.
  - apply SFeqb_key in E1 as (a & Ha & Hb). apply SFltb_key in H2 as (b & c & Hb' & Hc & Hlt). assert (b = a) as -> by congruence.
    rewrite (proj2 (SFltb_key x.1 z.1)) by (exists a, c; done). destruct (SFeqb x.1 z.1) eqn:E; [|done].
    apply SFeqb_key in E as (d & Hd & Hd'). exfalso. unfold key_lt in Hlt. replace c with a in * by congruence. lia.
  - apply SFeqb_key in E2 as (a & Ha & Hb). apply SFltb_key in H1 as (b & c & Hb' & Hc & Hlt). assert (c = a) as -> by congruence.
    rewrite (proj2 (SFltb_key x.1 z.1)) by (exists b, a; done). destruct (SFeqb x.1 z.1) eqn:E; [|done].
    apply SFeqb_key in E as (d & Hd & Hd'). exfalso. unfold key_lt in Hlt. replace b with a in * by congruence. lia.
  - apply SFltb_key in H1 as (a & b & Ha & Hb & H1), H2 as (b' & c & Hb' & Hc & H2). assert (b' = b) as -> by congruence.
    assert (key_lt a c) as H by (unfold key_lt in *; lia). rewrite (proj2 (SFltb_key x.1 z.1)) by (exists a, c; done).
    destruct (SFeqb x.1 z.1) eqn:E; [|done]. apply SFeqb_key in E as (d & Hd & Hd'). exfalso. unfold key_lt in H.
    replace c with a in * by congruence. lia.
Qed.

(** ** The choice *)
Lemma filterM_elem {A} (f : A → res bool) l k x : filterM f l = Ok k → x ∈ k ↔ x ∈ l ∧ f x = Ok true.
Proof.
  revert k. induction l as [|y l IH]; intros k H; cbn in H.
  { injection H as <-. split; [by intros ?%not_elem_of_nil|]. by intros [?%not_elem_of_nil _]. }
  apply bind_Ok in H as (b & Hb & H). apply bind_Ok in H as (k' & Hk & [= <-]). specialize (IH k' Hk).
  destruct b; rewrite ?elem_of_cons, IH, ?elem_of_cons;  intuition congruence.
Qed.

Lemma scored_elem {A} (f : A → res float) l k t q :
  mapM (λ p, s ← f p; Ok (s, p)) l = Ok k → (t, q) ∈ k ↔ q ∈ l ∧ f q = Ok t.
Proof.
  intros H. apply mapM_res_Ok in H. induction H as [|x [t' q'] l k Hx _ IH].
  { split; [by intros ?%not_elem_of_nil|]. by intros [?%not_elem_of_nil _]. }
  apply bind_Ok in Hx as (s & Hs & [= -> ->]). rewrite !elem_of_cons, IH. intuition congruence.
Qed.

Section choice.
Context (libm_log libm_square : float → float).

Definition eligible (m : VerifiedComputeMarket) (r : MarketRequest) (p : MarketProfile) : Prop :=
  p ∈ (mk_profiles m).*2 ∧ _eligible p r = true.
Definition meets (r : MarketRequest) (p : MarketProfile) : Prop :=
  ∃ lb, lower_bound libm_square p = Ok lb ∧ SFleb (mr_required_pass_rate r) lb = true.
Definition trials_of (m : VerifiedComputeMarket) (r : MarketRequest) : Z :=
  Z.max 1 (foldl Z.add 0%Z (mp_trials <$> filter (λ p, _eligible p r = true) (mk_profiles m).*2)).

(** Retirement is final, whatever is registered and reported afterwards. *)
Inductive MarketOp : Type :=
| MRegister (p : MarketProfile)
| MUpdate (engine_id : pystr) (verifier_passed : bool) (verifier_reliability : float).
Definition market_op (op : MarketOp) : SM VerifiedComputeMarket unit :=
  match op with MRegister p => register p | MUpdate e v q => market_update e v q end.
Definition market_run (ops : list MarketOp) (m : VerifiedComputeMarket) : VerifiedComputeMarket :=
  foldl (λ m op, (market_op op m).2) m ops.

Definition retired_in (e : pystr) (m : VerifiedComputeMarket) : Prop :=
  ∃ p, dget e (mk_profiles m) = Some p ∧ mp_retired p = true.

Lemma retired_step e op m : retired_in e m → retired_in e (market_op op m).2.
Proof.
  intros (p & Hp & Hr). destruct op as [q|e' v q]; cbn [market_op].
  - unfold register, mbind, SM_bind, sm_get. destruct (dmem (mp_engine_id q) (mk_profiles m)) eqn:Ed; [by exists p|]. apply dmem_false in Ed. exists p. split; [|done].
    cbn. rewrite dget_dset_ne; [done|]. intros ->. apply Ed. apply dget_is_Some. eauto.
  - unfold market_update. unfold mbind, SM_bind, sm_get, sm_lift. destruct (dgetitem e' (mk_profiles m)) as [p'|] eqn:Eg; [|by exists p].
    apply dgetitem_Ok in Eg. cbn [sm_mod].
    assert (∀ q m', mp_retired q = mp_retired p' ∨ mp_retired q = true → retired_in e m' → (e = e' → True) →
      retired_in e (set_profiles (dset e' q (mk_profiles m')) m')) as Hset.
    { intros q' m' Hq (p0 & Hp0 & Hr0) _. destruct (decide (e = e')) as [->|Hne].
      - exists q'. cbn. rewrite dget_dset_eq. split; [done|]. destruct Hq as [->| ->]; [congruence|done].
      - exists p0. cbn. by rewrite dget_dset_ne. }
    set (p1 := profile_update _ p'). assert (retired_in e (set_profiles (dset e' p1 (mk_profiles m)) m)) as H1.
    { apply Hset; [by left|by exists p|done]. }
    destruct (_ <=? _)%Z; [|exact H1]. destruct (pass_rate p1) as [rate|]; [|exact H1].
    destruct (SFltb _ _); [|exact H1]. apply Hset; [by right|exact H1|done].
Qed.

Lemma retired_run e ops m r :
  retired_in e m →
  retired_in e (market_run ops m) ∧ ∀ p, dget e (mk_profiles (market_run ops m)) = Some p → _eligible p r = false.
Proof.
  revert m. induction ops as [|op ops IH]; intros m Hr.
  - split; [done|]. destruct Hr as (p & Hp & Hr). intros p' Hp'. assert (p' = p) as -> by (cbn in Hp'; congruence). unfold _eligible. by rewrite Hr.
  - apply (IH (market_op op m).2). by apply retired_step.
Qed.

(** The market takes the best admissible engine and never a retired one.  A
    decision names a registered profile that is eligible for the request; if
    some eligible profile's lower confidence bound meets the required pass rate
    then the chosen one's does, and the stated reason says which case it is; no
    profile of that pool has a smaller score, or the same score and a smaller
    identifier.  An engine once retired stays retired under every later
    registration and report, and is never eligible. *)
Theorem market_choice_best m r d :
  select libm_log libm_square m r = Ok d →
  (∃ p, eligible m r p ∧ mp_engine_id p = md_engine_id d ∧ score libm_log libm_square m r (trials_of m r) p = Ok (md_score d) ∧
    (md_reason d = "meets_quality_constraint" ↔ ∃ q, eligible m r q ∧ meets r q) ∧
    ((∃ q, eligible m r q ∧ meets r q) → meets r p) ∧
    ∀ q s, eligible m r q → ((∃ q, eligible m r q ∧ meets r q) → meets r q) →
      score libm_log libm_square m r (trials_of m r) q = Ok s → scored_lt (s, q) (md_score d, p) = false) ∧
  (∀ e ops, retired_in e m → retired_in e (market_run ops m) ∧
    ∀ p, dget e (mk_profiles (market_run ops m)) = Some p → _eligible p r = false).
Proof.
  intros H. split.
  - unfold select in H. destruct (bool_decide _) in H; [done|]. apply bind_Ok in H as (constrained & Hc & H).
    pose proof (λ x, filterM_elem _ _ _ x Hc) as Hcon. fold (trials_of m r) in H.
    assert (∀ q, q ∈ constrained ↔ eligible m r q ∧ meets r q) as Hcm.
    { intros q. rewrite Hcon, list_elem_of_filter. unfold eligible, meets. rewrite bind_Ok.
      split; [intros [[? ?] (lb & Hlb & [= Hle])]|intros [[? ?] (lb & Hlb & Hle)]; split; [done|exists lb; by rewrite Hle]]. eauto 10. }
    apply bind_Ok in H as (scored & Hs & H). destruct scored as [|first rest]; [done|].
    destruct (min_by scored_lt first rest) as [s best] eqn:Em. apply bind_Ok in H as (snap & _ & [= <-]). cbn [md_engine_id md_score md_reason].
    set (pool := if bool_decide (constrained = []) then _ else constrained) in *. pose proof (λ t q, scored_elem _ _ _ t q Hs) as Hsc.
    assert (∀ q, q ∈ pool ↔ eligible m r q ∧ ((∃ q, eligible m r q ∧ meets r q) → meets r q)) as Hpool.
    { intros q. unfold pool. case_bool_decide as E.
      - rewrite list_elem_of_filter. unfold eligible. split; [|tauto]. intros [? ?]. split; [done|]. intros (q' & Hq').
        apply Hcm in Hq'. rewrite E in Hq'. by apply not_elem_of_nil in Hq'.
      - rewrite Hcm. split; [tauto|]. intros [Hq Hm]. split; [done|]. apply Hm. destruct constrained as [|q' l]; [done|].
        exists q'. apply Hcm. left. }
    assert ((s, best) ∈ first :: rest) as Hb by (rewrite <- Em; apply min_by_elem). apply Hsc in Hb as [Hb Hbs].
    exists best. apply Hpool in Hb as [Hel Hm]. split_and!; [done|done|done| |done|].
    + case_bool_decide as E; split; try done.
      * intros (q & Hq). apply Hcm in Hq. rewrite E in Hq. by apply not_elem_of_nil in Hq.
      * intros _. destruct constrained as [|q l]; [done|]. exists q. apply Hcm. left.
    + intros q t Hq Hqm Ht. rewrite <- Em. apply (min_by_least scored_lt scored_lt_irrefl scored_lt_trans).
      apply Hsc. split; [by apply Hpool|done].
  - intros e ops Hr. by apply retired_run.
Qed.
End choice.

(** ** A witness *)
Definition demo_profile (id : string) (cost : Z) (retired : bool) : MarketProfile :=
  mkProfile (str id) {[str "code"]} (NInt cost) (NInt 10) fone 0 (str "here") fone fone 3 retired.
Definition demo_market : VerifiedComputeMarket :=
  mkMarket [(str "a", demo_profile "a" 3 false); (str "b", demo_profile "b" 2 false); (str "c", demo_profile "c" 1 true)]
    (float_of_dec false 5 (-2)) 30 (float_of_dec false 5 (-1)).
Definition demo_request : MarketRequest := mkRequest (str "code") (float_of_dec false 9 (-1)) 99 None true.

Lemma market_choice_best_witness :
  ∃ d, select (λ _, fone) (λ f, fmul f f) demo_market demo_request = Ok d ∧ md_engine_id d = str "b" ∧
  ∃ p, eligible demo_market demo_request p ∧ mp_engine_id p = md_engine_id d.
Proof.
  destruct (select (λ _, fone) (λ f, fmul f f) demo_market demo_request) as [d|e] eqn:E; [|vm_compute in E; discriminate E].
  exists d. split; [reflexivity|]. split; [vm_compute in E; injection E as <-; vm_compute; reflexivity|].
  destruct (market_choice_best _ _ _ _ _ E) as [(p & H & Hid & _) _]. exists p. split; assumption.
Defined.
