(* ===== verification/M4Scheduler.v ===== *)
(** * The adaptive scheduler (residual/factory/m4_scheduler.py)

    Placement of a task on a node, measurements, bounded capacity changes and
    structural replanning over an approved plan.  The scheduler never changes
    the plan; its state is the list of events the observer got.  Inside a tuple
    Python compares NaN by object identity: costs and latencies are meant to be
    numbers.  [set_iter] is the order in which Python iterates over a set. *)

From Stdlib Require Import ZArith NArith Lia SpecFloat.
From S2P Require Import Prelude PyData Sha256 PyFloat Json JsonFacts Core CoreFacts Storage Builtins Graph JsonPlain Plan Providers Market M4Evidence.

Definition M4SchedulerError (msg : string) : exn := RuntimeError ("M4SchedulerError: " +:+ msg).

(** ** Nodes *)
Record SchedulerNode : Type := mkNode {
  sn_node_id : pystr;
  sn_engine_id : pystr;
  sn_locality : pystr;
  sn_capabilities : gset pystr;
  sn_capacity : Z;
  sn_active_slots : Z;
  sn_healthy : bool
}.

Definition SchedulerNode_init (n : SchedulerNode) : res SchedulerNode :=
  _ ← identifier (sn_node_id n);
  when blank (sn_engine_id n) raise M4SchedulerError "scheduler node engine_id required";;
  when negb (bool_decide (sn_locality n ∈ str <$> ["local"; "cloud"])) raise M4SchedulerError "scheduler node locality must be local or cloud";;
  when bool_decide (sn_capabilities n = ∅) || existsb blank (elements (sn_capabilities n))
  raise M4SchedulerError "scheduler node capabilities required";;
  when (sn_capacity n <? 1)%Z raise M4SchedulerError "scheduler node capacity must be positive";;
  when negb ((0 <=? sn_active_slots n)%Z && (sn_active_slots n <=? sn_capacity n)%Z)
  raise M4SchedulerError "scheduler node active_slots outside capacity";;
  Ok n.

Definition available_slots (n : SchedulerNode) : Z := if sn_healthy n then (sn_capacity n - sn_active_slots n)%Z else 0%Z.
Definition is_local (n : SchedulerNode) : bool := bool_decide (sn_locality n = str "local").

Record EnginePlacement : Type := mkPlacement {
  pl_task_id : pystr;
  pl_capability : pystr;
  pl_engine_id : pystr;
  pl_node_id : pystr;
  pl_locality : pystr;
  pl_cost_per_task : num;
  pl_reason : string
}.
Definition placement_dict (p : EnginePlacement) : list (string * json) :=
  [("task_id", JStr (pl_task_id p)); ("capability", JStr (pl_capability p)); ("engine_id", JStr (pl_engine_id p));
   ("node_id", JStr (pl_node_id p)); ("locality", JStr (pl_locality p)); ("cost_per_task", num_json (pl_cost_per_task p));
   ("reason", JStr (str (pl_reason p)))].

(** ** Measurements *)
Record SchedulerMeasurements : Type := mkMeasurements {
  sm_ready_dag_hash : pystr;
  sm_worker_utilization : float;
  sm_blocked_task_ratio : float;
  sm_verification_queue_depth : Z;
  sm_integration_conflict_rate : float;
  sm_independent_tasks : Z;
  sm_blocked_tasks : Z;
  sm_active_workers : Z;
  sm_total_workers : Z;
  sm_integration_conflicts : Z;
  sm_integration_attempts : Z
}.
Definition measurements_dict (m : SchedulerMeasurements) : list (string * json) :=
  [("schema_version", JStr (str "factory-m4-scheduler-measurements-v1")); ("ready_dag_hash", JStr (sm_ready_dag_hash m));
   ("worker_utilization", JFloat (sm_worker_utilization m)); ("blocked_task_ratio", JFloat (sm_blocked_task_ratio m));
   ("verification_queue_depth", JInt (sm_verification_queue_depth m));
   ("integration_conflict_rate", JFloat (sm_integration_conflict_rate m)); ("independent_tasks", JInt (sm_independent_tasks m));
   ("blocked_tasks", JInt (sm_blocked_tasks m)); ("active_workers", JInt (sm_active_workers m));
   ("total_workers", JInt (sm_total_workers m)); ("integration_conflicts", JInt (sm_integration_conflicts m));
   ("integration_attempts", JInt (sm_integration_attempts m))].
Definition measurement_hash (m : SchedulerMeasurements) : res pystr := digest (jobj (measurements_dict m)).

(** ** Capacity, actions and policy *)
Record SchedulerCapacity : Type := mkCapacity {
  sc_workers : Z;
  sc_verifiers : Z;
  sc_min_workers : Z;
  sc_max_workers : Z;
  sc_min_verifiers : Z;
  sc_max_verifiers : Z
}.
Definition SchedulerCapacity_init (c : SchedulerCapacity) : res SchedulerCapacity :=
  when existsb (λ v, v <? 1)%Z [sc_workers c; sc_verifiers c; sc_min_workers c; sc_max_workers c; sc_min_verifiers c; sc_max_verifiers c]
  raise M4SchedulerError "scheduler capacity values must be positive integers";;
  when negb ((sc_min_workers c <=? sc_workers c)%Z && (sc_workers c <=? sc_max_workers c)%Z)
  raise M4SchedulerError "worker capacity outside configured bounds";;
  when negb ((sc_min_verifiers c <=? sc_verifiers c)%Z && (sc_verifiers c <=? sc_max_verifiers c)%Z)
  raise M4SchedulerError "verifier capacity outside configured bounds";;
  Ok c.

Record SchedulerAction : Type := mkAction {
  sa_action : string;
  sa_resource : string;
  sa_before : Z;
  sa_after : Z;
  sa_reason : string;
  sa_measurement_hash : pystr
}.
Definition SchedulerAction_init (a : SchedulerAction) : res SchedulerAction :=
  when negb (bool_decide (sa_action a ∈ ["resize"; "pause"])) raise M4SchedulerError "invalid scheduler action";;
  when negb (bool_decide (sa_resource a ∈ ["workers"; "verifiers"; "integration"])) raise M4SchedulerError "invalid scheduler resource";;
  when blank (str (sa_reason a)) raise M4SchedulerError "scheduler action reason required";;
  Ok a.
Definition action_dict (a : SchedulerAction) : list (string * json) :=
  [("action", JStr (str (sa_action a))); ("resource", JStr (str (sa_resource a))); ("before", JInt (sa_before a));
   ("after", JInt (sa_after a)); ("reason", JStr (str (sa_reason a))); ("measurement_hash", JStr (sa_measurement_hash a))].

Record SchedulerPolicy : Type := mkPolicy {
  sp_imbalance_ratio : num;
  sp_verification_queue_threshold : Z;
  sp_integration_conflict_threshold : Z;
  sp_worker_step : Z;
  sp_verifier_step : Z;
  sp_structural_downstream_threshold : Z;
  sp_structural_failure_threshold : Z;
  sp_structural_parts : Z
}.
Definition SchedulerPolicy_init (p : SchedulerPolicy) : res SchedulerPolicy :=
  when num_leb (sp_imbalance_ratio p) (NInt 1) raise M4SchedulerError "imbalance_ratio must be greater than one";;
  when existsb (λ v, v <? 1)%Z [sp_verification_queue_threshold p; sp_integration_conflict_threshold p; sp_worker_step p; sp_verifier_step p;
                                sp_structural_downstream_threshold p; sp_structural_failure_threshold p; sp_structural_parts p]
  raise M4SchedulerError "scheduler policy thresholds must be positive integers";;
  when (sp_structural_parts p <? 2)%Z raise M4SchedulerError "structural replan must create at least two subtasks";;
  Ok p.
Definition default_policy : SchedulerPolicy := mkPolicy (NFloat (float_of_Z 2)) 4 2 1 1 10 3 2.

Record StructuralReplanProposal : Type := mkProposal {
  rp_blocking_task_id : pystr;
  rp_downstream_tasks : list pystr;
  rp_failure_count : Z;
  rp_replacement_task_ids : list pystr;
  rp_source_plan_hash : pystr;
  rp_replacement_plan : ExecutionPlan;
  rp_reason : pystr
}.
Definition proposal_dict (p : StructuralReplanProposal) : res (list (string * json)) :=
  h ← graph_hash (rp_replacement_plan p);
  Ok [("schema_version", JStr (str "factory-m4-structural-replan-v1")); ("blocking_task_id", JStr (rp_blocking_task_id p));
      ("downstream_tasks", json_strs (rp_downstream_tasks p)); ("failure_count", JInt (rp_failure_count p));
      ("replacement_task_ids", json_strs (rp_replacement_task_ids p)); ("source_plan_hash", JStr (rp_source_plan_hash p));
      ("replacement_plan_hash", JStr h); ("reason", JStr (rp_reason p))].

(** ** The scheduler *)
Record Scheduler : Type := mkScheduler {
  s_plan : ExecutionPlan;
  s_market : VerifiedComputeMarket;
  s_nodes : list SchedulerNode;
  s_policy : SchedulerPolicy;
  s_observing : bool
}.
Definition Scheduler_new (plan : ExecutionPlan) (market : VerifiedComputeMarket) (nodes : list SchedulerNode)
    (policy : option SchedulerPolicy) (observing : bool) : res Scheduler :=
  when bool_decide (nodes = []) raise M4SchedulerError "scheduler requires at least one node";;
  when negb (bool_decide (NoDup (sn_node_id <$> nodes))) raise M4SchedulerError "duplicate scheduler node";;
  Ok (mkScheduler plan market nodes (default default_policy policy) observing).

(** *** Keys of candidates, compared as tuples *)
Record Candidate : Type := mkCand {
  cd_node : SchedulerNode;
  cd_profile : MarketProfile;
  cd_load : float
}.
Definition num_lex (x y : num) (rest : bool) : bool := if num_eqb x y then rest else num_ltb x y.
Definition candidate_lt (x y : Candidate) : bool :=
  let loc c := NInt (if is_local (cd_node c) then 0 else 1) in
  num_lex (loc x) (loc y)
    (num_lex (mp_cost_per_task (cd_profile x)) (mp_cost_per_task (cd_profile y))
      (num_lex (mp_latency_ms (cd_profile x)) (mp_latency_ms (cd_profile y))
        (num_lex (NFloat (cd_load x)) (NFloat (cd_load y))
          (if bool_decide (sn_engine_id (cd_node x) = sn_engine_id (cd_node y))
           then str_ltb (sn_node_id (cd_node x)) (sn_node_id (cd_node y))
           else str_ltb (sn_engine_id (cd_node x)) (sn_engine_id (cd_node y)))))).

Section scheduler.
Context (s : Scheduler) (set_iter : gset pystr → list pystr).
Abbreviation M := (SM (list json)).
Abbreviation plan := (s_plan s).
Abbreviation policy := (s_policy s).

Definition sched_tasks : dict FactoryTask := dict_of ((λ t, (ft_id t, t)) <$> ep_tasks plan).

Definition sched_emit (event : string) (data : list (string * json)) : M unit :=
  if s_observing s
  then sm_mod (λ log, log ++ [jobj ([("event", JStr (str event)); ("component", JStr (str "factory-m4-scheduler"))] ++ data)])
  else mret tt.

Definition _market_profile (engine_id : pystr) : res MarketProfile :=
  match dget engine_id (mk_profiles (s_market s)) with
  | None => Raise (M4SchedulerError "scheduler node references unavailable market engine")
  | Some p =>
      when mp_retired p || SFleb (mp_availability p) fzero raise M4SchedulerError "scheduler node references unavailable market engine";;
      Ok p
  end.

(** The loop over the nodes: candidates, and whether a capable local node was
    seen and had a free slot. *)
Record Survey : Type := mkSurvey { sv_candidates : list Candidate; sv_local_capable : bool; sv_local_available : bool }.

Definition consider (capability : pystr) (max_privacy_class : Z) (max_latency_ms : option num) (st : Survey) (node : SchedulerNode) : res Survey :=
  if negb (sn_healthy node) || negb (bool_decide (capability ∈ sn_capabilities node)) then Ok st
  else
    profile ← _market_profile (sn_engine_id node);
    if negb (bool_decide (capability ∈ mp_capabilities profile)) then Ok st
    else if (max_privacy_class <? mp_privacy_class profile)%Z then Ok st
    else if match max_latency_ms with Some l => num_ltb l (mp_latency_ms profile) | None => false end then Ok st
    else
      let capable := sv_local_capable st || is_local node in
      if (available_slots node <=? 0)%Z then Ok (mkSurvey (sv_candidates st) capable (sv_local_available st))
      else Ok (mkSurvey (sv_candidates st ++ [mkCand node profile (int_div (sn_active_slots node) (sn_capacity node))])
                        capable (sv_local_available st || is_local node)).

Fixpoint survey (capability : pystr) (max_privacy_class : Z) (max_latency_ms : option num) (st : Survey) (nodes : list SchedulerNode) : res Survey :=
  match nodes with
  | [] => Ok st
  | n :: nodes => st ← consider capability max_privacy_class max_latency_ms st n; survey capability max_privacy_class max_latency_ms st nodes
  end.

Definition select_engine (task_id capability : pystr) (max_privacy_class : Z) (max_latency_ms : option num) : M EnginePlacement :=
  if negb (dmem task_id sched_tasks) then sm_raise (M4SchedulerError "unknown scheduler task")
  else if blank capability then sm_raise (M4SchedulerError "task capability required")
  else
    sv ← sm_lift (survey capability max_privacy_class max_latency_ms (mkSurvey [] false false) (s_nodes s));
    match sv_candidates sv with
    | [] => sm_raise (LookupError "no available node supports the capability")
    | c :: cs =>
        let best := min_by candidate_lt c cs in
        let node := cd_node best in
        let reason :=
          if is_local node then "local_capability_equal_preferred"
          else if sv_local_capable sv && negb (sv_local_available sv) then "cloud_selected_local_capacity_exhausted"
          else "cloud_selected_for_capability_gap" in
        let placement := mkPlacement task_id capability (sn_engine_id node) (sn_node_id node) (sn_locality node)
                           (mp_cost_per_task (cd_profile best)) reason in
        _ ← sched_emit "M4EngineSelected" (placement_dict placement);
        mret placement
    end.

Definition measure (snapshot : ReadyDagSnapshot) (total_workers active_workers verification_queue_depth
    integration_conflicts integration_attempts : Z) : M SchedulerMeasurements :=
  result ← sm_lift (
    h ← graph_hash plan;
    when negb (bool_decide (rd_plan_hash snapshot = h)) raise M4SchedulerError "Ready DAG belongs to another ExecutionPlan";;
    when existsb (λ v, v <? 0)%Z [total_workers; active_workers; verification_queue_depth; integration_conflicts; integration_attempts]
    raise M4SchedulerError "scheduler measurements must be nonnegative integers";;
    when (total_workers <? 1)%Z || (total_workers <? active_workers)%Z raise M4SchedulerError "invalid worker utilization measurement";;
    when (integration_attempts <? integration_conflicts)%Z raise M4SchedulerError "integration conflicts exceed attempts";;
    let ready := Z.of_nat (length (rd_ready_tasks snapshot)) in
    let blocked := Z.of_nat (length (rd_blocked_tasks snapshot)) in
    let remaining := (ready + blocked)%Z in
    let blocked_ratio := if (remaining =? 0)%Z then fzero else int_div blocked remaining in
    let conflict_rate := if (integration_attempts =? 0)%Z then fzero else int_div integration_conflicts integration_attempts in
    sh ← snapshot_hash snapshot;
    Ok (mkMeasurements sh (int_div active_workers total_workers) blocked_ratio verification_queue_depth conflict_rate
          ready blocked active_workers total_workers integration_conflicts integration_attempts));
  mh ← sm_lift (measurement_hash result);
  _ ← sched_emit "M4SchedulerMeasurements" (("measurement_hash", JStr mh) :: measurements_dict result);
  mret result.

(** One action: built, then observed. *)
Definition act (event action resource : string) (before after : Z) (reason : string) (m : SchedulerMeasurements) : M SchedulerAction :=
  a ← sm_lift (mh ← measurement_hash m; SchedulerAction_init (mkAction action resource before after reason mh));
  _ ← sched_emit event (action_dict a);
  mret a.

Definition resize_to (resource : string) (before after : Z) (reason : string) (m : SchedulerMeasurements) : M (Z * list SchedulerAction) :=
  if (after =? before)%Z then mret (before, [])
  else a ← act "M4SchedulerResize" "resize" resource before after reason m; mret (after, [a]).

(** [n > max(1, k) * ratio] *)
Definition dominates (n k : Z) : res bool :=
  bound ← num_mul (NInt (Z.max 1 k)) (sp_imbalance_ratio policy);
  Ok (num_ltb bound (NInt n)).

Definition resize_verifiers (m : SchedulerMeasurements) (c : SchedulerCapacity) : M (Z * list SchedulerAction) :=
  if (sp_verification_queue_threshold policy <? sm_verification_queue_depth m)%Z
  then resize_to "verifiers" (sc_verifiers c) (Z.min (sc_max_verifiers c) (sc_verifiers c + sp_verifier_step policy))
         "verification_queue_above_threshold" m
  else mret (sc_verifiers c, []).

Definition resize_workers (m : SchedulerMeasurements) (c : SchedulerCapacity) : M (Z * list SchedulerAction) :=
  let independent := sm_independent_tasks m in
  let blocked := sm_blocked_tasks m in
  grow ← sm_lift (dominates independent blocked);
  if grow : bool
  then resize_to "workers" (sc_workers c)
         (Z.min (Z.min (sc_max_workers c) (sc_workers c + sp_worker_step policy)) (Z.max (sc_workers c) independent))
         "independent_tasks_dominate_blocked_tasks" m
  else
    shrink ← sm_lift (dominates blocked independent);
    if shrink : bool
    then resize_to "workers" (sc_workers c) (Z.max (sc_min_workers c) (sc_workers c - sp_worker_step policy))
           "blocked_tasks_dominate_independent_tasks" m
    else mret (sc_workers c, []).

Definition resize (m : SchedulerMeasurements) (c : SchedulerCapacity) : M (SchedulerCapacity * list SchedulerAction) :=
  if (sp_integration_conflict_threshold policy <? sm_integration_conflicts m)%Z then
    a ← act "M4SchedulerPaused" "pause" "integration" 0 0 "integration_conflicts_above_threshold_human_required" m;
    mret (c, [a])
  else
    '(verifiers, acts1) ← resize_verifiers m c;
    '(workers, acts2) ← resize_workers m c;
    c' ← sm_lift (SchedulerCapacity_init (mkCapacity workers verifiers (sc_min_workers c) (sc_max_workers c) (sc_min_verifiers c) (sc_max_verifiers c)));
    mret (c', acts1 ++ acts2).

(** *** Structural replanning *)
Definition direct_dependents : res (dict (gset pystr)) :=
  foldl (λ acc (td : pystr * pystr), d ← acc; s ← dgetitem td.2 d; Ok (dset td.2 ({[td.1]} ∪ s) d))
    (Ok (dict_of ((λ t, (ft_id t, ∅ : gset pystr)) <$> ep_tasks plan)))
    (mjoin ((λ t, (λ d, (ft_id t, d)) <$> ft_depends_on t) <$> ep_tasks plan)).

(** [pending] with its top first. *)
Fixpoint downstream_loop (fuel : nat) (direct : dict (gset pystr)) (found : gset pystr) (pending : list pystr) : res (gset pystr) :=
  match pending with
  | [] => Ok found
  | current :: pending =>
      match fuel with
      | O => out_of_fuel
      | S fuel =>
          if bool_decide (current ∈ found) then downstream_loop fuel direct found pending
          else
            let found := {[current]} ∪ found in
            next ← dgetitem current direct;
            downstream_loop fuel direct found (reverse (set_iter (next ∖ found)) ++ pending)
      end
  end.

Definition downstream_fuel (direct : dict (gset pystr)) : nat := sum_list ((λ kv : pystr * gset pystr, size kv.2) <$> direct) + 1.

Definition _downstream (task_id : pystr) : res (list pystr) :=
  direct ← direct_dependents;
  first ← dgetitem task_id direct;
  found ← downstream_loop (size first + downstream_fuel direct) direct ∅ (reverse (set_iter first));
  Ok (sort_str (elements found)).

(** [f"{index:02d}"] *)
Definition pad2 (n : Z) : pystr := if (n <? 10)%Z then 48%N :: str_of_Z n else str_of_Z n.
Definition part_id (id : pystr) (index : Z) : pystr := id ++ str ".part" ++ pad2 index.

Definition part_task (task : FactoryTask) (n : Z) (index : Z) : res FactoryTask :=
  FactoryTask_init (JStr (part_id (ft_id task) index))
    (JStr (str "Part " ++ str_of_Z index ++ str "/" ++ str_of_Z n ++ str " of decomposed task: " ++ ft_description task))
    (JStr <$> ft_requirement_ids task) (JStr <$> ft_depends_on task) (json_opt_str (ft_swarm task)).

Definition redirect (task_id : pystr) (replacement_ids deps : list pystr) : list pystr :=
  mjoin ((λ d, if bool_decide (d = task_id) then replacement_ids else [d]) <$> deps).

Definition indices (n : Z) : list Z := Z.of_nat <$> seq 1 (Z.to_nat n).

Definition replace_task (task : FactoryTask) (replacement_ids : list pystr) (original : FactoryTask) : res (list FactoryTask) :=
  if bool_decide (ft_id original = ft_id task)
  then mapM (part_task task (Z.of_nat (length replacement_ids))) (indices (Z.of_nat (length replacement_ids)))
  else
    t ← FactoryTask_init (JStr (ft_id original)) (JStr (ft_description original)) (JStr <$> ft_requirement_ids original)
          (JStr <$> redirect (ft_id task) replacement_ids (ft_depends_on original)) (json_opt_str (ft_swarm original));
    Ok [t].

Definition propose (task : FactoryTask) (downstream : list pystr) (failures : Z) : res StructuralReplanProposal :=
  let replacement_ids := part_id (ft_id task) <$> indices (sp_structural_parts policy) in
  tasks ← mapM (replace_task task replacement_ids) (ep_tasks plan);
  replacement ← ExecutionPlan_init (JStr (ep_intent plan)) (ep_requirements plan) (mjoin tasks) (JStr (str "factory-plan-v1"));
  h ← graph_hash plan;
  Ok (mkProposal (ft_id task) downstream failures replacement_ids h replacement
        (str "task blocks " ++ str_of_Z (Z.of_nat (length downstream)) ++ str " downstream tasks and has failed " ++
         str_of_Z failures ++ str " times; decompose into " ++ str_of_Z (Z.of_nat (length replacement_ids)) ++ str " subtasks")).

Fixpoint replan_loop (failure_counts : dict Z) (tasks : list FactoryTask) : M (list StructuralReplanProposal) :=
  match tasks with
  | [] => mret []
  | task :: tasks =>
      downstream ← sm_lift (_downstream (ft_id task));
      let failures := default 0%Z (dget (ft_id task) failure_counts) in
      if (Z.of_nat (length downstream) <? sp_structural_downstream_threshold policy)%Z
         || (failures <? sp_structural_failure_threshold policy)%Z
      then replan_loop failure_counts tasks
      else
        p ← sm_lift (propose task downstream failures);
        data ← sm_lift (proposal_dict p);
        _ ← sched_emit "M4StructuralReplan" data;
        ps ← replan_loop failure_counts tasks;
        mret (p :: ps)
  end.

Definition structural_replan (failure_counts : dict Z) : M (list StructuralReplanProposal) :=
  _ ← sm_lift (for_all failure_counts (λ kv,
        when negb (dmem kv.1 sched_tasks) || (kv.2 <? 0)%Z raise M4SchedulerError "invalid scheduler failure count";; Ok tt));
  replan_loop failure_counts (sort_by task_leb (ep_tasks plan)).
End scheduler.
