(* ===== verification/SchedulerFacts.v ===== *)
(** * What placement and capacity changes guarantee *)

From Stdlib Require Import ZArith NArith Lia SpecFloat.
From S2P Require Import Prelude PyData Sha256 PyFloat Json JsonFacts Core CoreFacts Storage Builtins Graph JsonPlain Plan Providers Market M4Evidence M4Scheduler.

(** ** Python's order of numbers *)
Lemma dyadic_scale m1 e1 m2 e2 e :
  (e ≤ e1)%Z → (e ≤ e2)%Z → dyadic_compare m1 e1 m2 e2 = (m1 * 2 ^ (e1 - e) ?= m2 * 2 ^ (e2 - e))%Z.
Proof.
  intros H1 H2. unfold dyadic_compare. set (k := Z.min e1 e2).
  replace (e1 - e)%Z with ((e1 - k) + (k - e))%Z by lia. replace (e2 - e)%Z with ((e2 - k) + (k - e))%Z by lia.
  rewrite !Z.pow_add_r, !Z.mul_assoc by lia. rewrite <- Zmult_compare_compat_r; [done|].
  apply Z.lt_gt, Z.pow_pos_nonneg; lia.
Qed.

Definition infinite (x : num) : option bool :=
  match x with NFloat (S754_infinity neg) => Some neg | _ => None end.

(** [x] below [y] by exact value; the position [-1], [0] or [1] separates the
    infinities from the finite numbers. *)
Definition num_view (x : num) : option (Z * (Z * Z)) :=
  match to_float_view x with
  | inr v => Some (0%Z, v)
  | inl (S754_infinity true) => Some ((-1)%Z, (0, 0)%Z)
  | inl (S754_infinity false) => Some (1%Z, (0, 0)%Z)
  | inl _ => None
  end.

Definition view_lt (x y : Z * (Z * Z)) : Prop :=
  (x.1 < y.1)%Z ∨ x.1 = y.1 ∧ dyadic_compare x.2.1 x.2.2 y.2.1 y.2.2 = Lt.
Definition view_eq (x y : Z * (Z * Z)) : Prop := x.1 = y.1 ∧ dyadic_compare x.2.1 x.2.2 y.2.1 y.2.2 = Eq.

Lemma num_compare_view x y :
  num_compare x y =
  match num_view x, num_view y with
  | Some v, Some w => Some (match (v.1 ?= w.1)%Z with Eq => dyadic_compare v.2.1 v.2.2 w.2.1 w.2.2 | c => c end)
  | _, _ => None
  end.
Proof.
  unfold num_compare, num_view.
  destruct x as [z|[s|s| |s m e]], y as [z'|[s'|s'| |s' m' e']]; cbn; try destruct s; try destruct s'; cbn; try reflexivity.
Qed.

Lemma num_ltb_view x y : num_ltb x y = true ↔ ∃ v w, num_view x = Some v ∧ num_view y = Some w ∧ view_lt v w.
Proof.
  unfold num_ltb, view_lt. rewrite num_compare_view. destruct (num_view x) as [v|], (num_view y) as [w|]; try (split; [done|naive_solver]).
  destruct (Z.compare_spec v.1 w.1) as [E|E|E]; [destruct (dyadic_compare _ _ _ _) eqn:Ed|..];
    (split; [try done; eauto 10|first [done|intros (v' & w' & [= <-] & [= <-] & [H|[H H']]); [lia|congruence || lia]]]).
Qed.

Lemma num_eqb_view x y : num_eqb x y = true ↔ ∃ v w, num_view x = Some v ∧ num_view y = Some w ∧ view_eq v w.
Proof.
  unfold num_eqb, view_eq. rewrite num_compare_view. destruct (num_view x) as [v|], (num_view y) as [w|]; try (split; [done|naive_solver]).
  destruct (Z.compare_spec v.1 w.1) as [E|E|E]; [destruct (dyadic_compare _ _ _ _) eqn:Ed|..];
    (split; [try done; eauto 10|first [done|intros (v' & w' & [= <-] & [= <-] & [H H']); congruence || lia]]).
Qed.

(** The exact values of three views at a common exponent. *)
Lemma views_common (v w u : Z * (Z * Z)) :
  ∃ f : Z * (Z * Z) → Z,
    (∀ a b, a ∈ [v; w; u] → b ∈ [v; w; u] → dyadic_compare a.2.1 a.2.2 b.2.1 b.2.2 = (f a ?= f b)%Z).
Proof.
  set (e := Z.min v.2.2 (Z.min w.2.2 u.2.2)). exists (λ a, a.2.1 * 2 ^ (a.2.2 - e))%Z. intros a b Ha Hb.
  assert (∀ c, c ∈ [v; w; u] → (e ≤ c.2.2)%Z) as He by (intros c; rewrite !elem_of_cons; intros [->|[->|[->|[]%not_elem_of_nil]]]; lia).
  apply dyadic_scale; by apply He.
Qed.

Lemma num_lex_trans x y z (r1 r2 r3 : bool) :
  (r1 = true → r2 = true → r3 = true) → num_lex x y r1 = true → num_lex y z r2 = true → num_lex x z r3 = true.
Proof.
  intros Hr. unfold num_lex.
  assert (∀ a b r, (if num_eqb a b then r else num_ltb a b) = true ↔
    (∃ v w, num_view a = Some v ∧ num_view b = Some w ∧ (view_lt v w ∨ view_eq v w ∧ r = true))) as Hlex.
  { intros a b r. destruct (num_eqb a b) eqn:E.
    - apply num_eqb_view in E as (v & w & -> & -> & Heq). split; [naive_solver|]. intros (v' & w' & [= <-] & [= <-] & [Hlt|[_ ?]]); [|done].
      exfalso. unfold view_lt, view_eq in *. destruct Heq as [E1 E2], Hlt as [Hlt|[_ Hlt]]; [lia|congruence].
    - rewrite num_ltb_view. split; [naive_solver|]. intros (v & w & Hv & Hw & [Hlt|[Heq _]]); [eauto|].
      assert (num_eqb a b = true) by (apply num_eqb_view; eauto). congruence. }
  rewrite !Hlex. intros (v & w & Hv & Hw & H1) (w' & u & Hw' & Hu & H2). assert (w' = w) as -> by congruence.
  exists v, u. split_and!; [done..|]. destruct (views_common v w u) as [f Hf].
  assert (∀ a, a ∈ [v; w; u] ↔ a = v ∨ a = w ∨ a = u) as Hin by set_solver.
  unfold view_lt, view_eq in *. rewrite !Hf in * by (apply Hin; auto). rewrite !Z.compare_lt_iff, !Z.compare_eq_iff in *.
  destruct H1 as [H1|[H1 ?]], H2 as [H2|[H2 ?]]; intuition lia.
Qed.

Lemma num_lex_irrefl x r : r = false → num_lex x x r = false.
Proof.
  intros ->. unfold num_lex. destruct (num_eqb x x); [done|]. destruct (num_ltb x x) eqn:E; [|done].
  apply num_ltb_view in E as (v & w & Hv & Hw & Hlt). assert (w = v) as -> by congruence. unfold view_lt in Hlt.
  rewrite (dyadic_scale _ _ _ _ v.2.2) in Hlt by lia. rewrite Z.compare_lt_iff in Hlt. lia.
Qed.

(** Candidates are ordered. *)
Lemma candidate_lt_irrefl x : candidate_lt x x = false.
Proof. unfold candidate_lt. repeat apply num_lex_irrefl. rewrite bool_decide_true by done. apply str_ltb_irrefl. Qed.

Lemma candidate_lt_trans x y z : candidate_lt x y = true → candidate_lt y z = true → candidate_lt x z = true.
Proof.
  unfold candidate_lt. do 4 (apply num_lex_trans). repeat case_bool_decide; try congruence; intros Hxy Hyz;
    try (by eapply str_ltb_trans).
  pose proof (str_ltb_trans _ _ _ Hxy Hyz) as Hc. exfalso.
  match goal with E : sn_engine_id (cd_node x) = sn_engine_id (cd_node z) |- _ => rewrite E, str_ltb_irrefl in Hc end. done.
Qed.

(** ** Placement *)
Section placement.
Context (s : Scheduler) (capability : pystr) (max_privacy : Z) (max_latency : option num).

(** The node supports the request through an available market engine. *)
Definition suits (n : SchedulerNode) (p : MarketProfile) : Prop :=
  sn_healthy n = true ∧ capability ∈ sn_capabilities n ∧ _market_profile s (sn_engine_id n) = Ok p ∧
  capability ∈ mp_capabilities p ∧ (mp_privacy_class p ≤ max_privacy)%Z ∧
  (∀ l, max_latency = Some l → num_ltb l (mp_latency_ms p) = false).

Definition candidate_of (n : SchedulerNode) (p : MarketProfile) : Candidate := mkCand n p (int_div (sn_active_slots n) (sn_capacity n)).

(** A candidate among [nodes]: it suits and has a free slot. *)
Definition placeable (nodes : list SchedulerNode) (c : Candidate) : Prop :=
  cd_node c ∈ nodes ∧ suits (cd_node c) (cd_profile c) ∧ (0 < available_slots (cd_node c))%Z ∧ c = candidate_of (cd_node c) (cd_profile c).

Lemma suits_unique n p q : suits n p → suits n q → p = q.
Proof. intros (_ & _ & Hp & _) (_ & _ & Hq & _). congruence. Qed.

Lemma consider_spec st n st' :
  consider s capability max_privacy max_latency st n = Ok st' →
  (∃ p, suits n p ∧
    st' = mkSurvey (sv_candidates st ++ if (0 <? available_slots n)%Z then [candidate_of n p] else [])
            (sv_local_capable st || is_local n) (sv_local_available st || (is_local n && (0 <? available_slots n)%Z))) ∨
  ((∀ p, ¬ suits n p) ∧ st' = st).
Proof.
  unfold consider. destruct (sn_healthy n) eqn:Hh; cbn [negb orb]; [|intros [= <-]; right; split; [by intros p (? & _); congruence|done]].
  case_bool_decide as Hc; cbn [negb]; [|intros [= <-]; right; split; [by intros p (_ & ? & _)|done]].
  intros H. apply bind_Ok in H as (p & Hp & H).
  assert (∀ q, suits n q → q = p) as Hq by (intros q (_ & _ & Hq & _); congruence).
  case_bool_decide as Hcap; cbn [negb] in H; [|injection H as <-; right; split; [intros q Hs; by rewrite (Hq q Hs) in Hs; destruct Hs as (_ & _ & _ & ? & _)|done]].
  destruct (max_privacy <? mp_privacy_class p)%Z eqn:Epr.
  { injection H as <-. right. split; [|done]. intros q Hs. rewrite (Hq q Hs) in Hs. destruct Hs as (_ & _ & _ & _ & ? & _). lia. }
  destruct (match max_latency with Some l => num_ltb l (mp_latency_ms p) | None => false end) eqn:El.
  { injection H as <-. right. split; [|done]. intros q Hs. rewrite (Hq q Hs) in Hs. destruct Hs as (_ & _ & _ & _ & _ & Hl).
    destruct max_latency as [l|]; [|done]. rewrite (Hl l eq_refl) in El. done. }
  left. exists p. split.
  { split_and!; [done|done|done|done|lia|]. intros l ->. exact El. }
  destruct (available_slots n <=? 0)%Z eqn:Ea; injection H as <-.
  - assert ((0 <? available_slots n)%Z = false) as -> by lia. by rewrite app_nil_r, andb_false_r, orb_false_r.
  - assert ((0 <? available_slots n)%Z = true) as -> by lia. by rewrite andb_true_r.
Qed.

Lemma survey_spec nodes st sv :
  survey s capability max_privacy max_latency st nodes = Ok sv →
  (∀ c, c ∈ sv_candidates sv ↔ c ∈ sv_candidates st ∨ placeable nodes c) ∧
  (sv_local_capable sv = true ↔ sv_local_capable st = true ∨ ∃ n p, n ∈ nodes ∧ suits n p ∧ is_local n = true) ∧
  (sv_local_available sv = true ↔ sv_local_available st = true ∨ ∃ c, placeable nodes c ∧ is_local (cd_node c) = true).
Proof.
  revert st. induction nodes as [|n nodes IH]; intros st H; cbn [survey] in H.
  { injection H as <-. assert (∀ x : SchedulerNode, x ∉ []) as Hn by (intros x; apply not_elem_of_nil).
    assert (∀ c, ¬ placeable [] c) as Hnp by (intros c (Hc & _); by apply Hn in Hc).
    split_and!; [intros c; split; [by left|intros [?|?%Hnp]; done]| |]; (split; [by left|]).
    - intros [?|(n & p & Hin & _)]; [done|by apply Hn in Hin].
    - intros [?|(c & Hc & _)]; [done|by apply Hnp in Hc]. }
  apply bind_Ok in H as (st' & Hc & H). apply IH in H as (H1 & H2 & H3). clear IH.
  assert (∀ c, placeable (n :: nodes) c ↔ placeable nodes c ∨
    (suits n (cd_profile c) ∧ (0 < available_slots n)%Z ∧ c = candidate_of n (cd_profile c))) as Hp.
  { intros c. unfold placeable. rewrite elem_of_cons. split.
    - intros ([E|?] & Hs & Ha & Ec); [right|left; done]. rewrite E in *. done.
    - intros [(? & ? & ? & ?)|(Hs & Ha & Ec)]; [by split; [right|]|]. rewrite Ec. cbn. split_and!; [by left|done|done|done]. }
  assert (∀ P : SchedulerNode → Prop, (∃ m p, m ∈ n :: nodes ∧ suits m p ∧ P m) ↔ (∃ p, suits n p ∧ P n) ∨ ∃ m p, m ∈ nodes ∧ suits m p ∧ P m) as Hex.
  { intros P. split.
    - intros (m & p & [->|Hm]%elem_of_cons & Hs & HP); [left; eauto|right; eauto].
    - intros [(p & Hs & HP)|(m & p & Hm & Hs & HP)]; [exists n, p; split; [left|done]|exists m, p; split; [by right|done]]. }
  rewrite Hex. setoid_rewrite Hp. destruct (consider_spec _ _ _ Hc) as [(p & Hs & ->)|[Hno ->]]; cbn [sv_candidates sv_local_capable sv_local_available] in *.
  - pose proof (λ q, suits_unique n p q Hs) as Hu. split_and!.
    + intros c. rewrite H1, elem_of_app. destruct (0 <? available_slots n)%Z eqn:Ea.
      * apply Z.ltb_lt in Ea. rewrite list_elem_of_singleton. split.
        -- intros [[?| ->]|?]; [by left|right; right; done|right; by left].
        -- intros [?|[?|(Hq & _ & E)]]; [by left; left|by right|]. left. right. by rewrite (Hu _ Hq).
      * apply Z.ltb_ge in Ea. split; [intros [[?|?%not_elem_of_nil]|?]; [by left|done|right; by left]|].
        intros [?|[?|(_ & ? & _)]]; [by left; left|by right|lia].
    + rewrite H2, orb_true_iff. split.
      * intros [[?|?]|?]; [by left|right; left; by exists p|right; by right].
      * intros [?|[(q & _ & ?)|?]]; [by left; left|by left; right|by right].
    + rewrite H3, orb_true_iff, andb_true_iff, Z.ltb_lt. split.
      * intros [[?|[? ?]]|(c & ? & ?)]; [by left|right; exists (candidate_of n p); cbn; auto|right; eauto].
      * intros [?|(c & [?|(Hq & Ha & Ec)] & Hl)]; [by left; left|right; eauto|]. rewrite Ec in Hl. by left; right.
  - split_and!.
    + intros c. rewrite H1. split; [tauto|]. intros [?|[?|(Hq & _)]]; [by left|by right|]. by apply Hno in Hq.
    + rewrite H2. split; [tauto|]. intros [?|[(q & Hq & _)|?]]; [by left| |by right]. by apply Hno in Hq.
    + rewrite H3. split; [|intros [?|(c & [?|(Hq & _)] & ?)]; [by left|right; eauto|by apply Hno in Hq]]. intros [?|(c & ? & ?)]; [by left|right; eauto].
Qed.
End placement.

Lemma local_first x y : is_local (cd_node x) = true → is_local (cd_node y) = false → candidate_lt x y = true.
Proof. intros Hx Hy. unfold candidate_lt. by rewrite Hx, Hy. Qed.

Lemma sched_emit_bind {A} s event data (a : A) log :
  ∃ log', (_ ← sched_emit s event data; mret a) log = (Ok a, log').
Proof. unfold sched_emit. destruct (s_observing s); eexists; reflexivity. Qed.

(** Every healthy node with the capability refers to an available engine. *)
Definition engines_available (s : Scheduler) (capability : pystr) (nodes : list SchedulerNode) : Prop :=
  ∀ n, n ∈ nodes → sn_healthy n = true → capability ∈ sn_capabilities n → is_ok (_market_profile s (sn_engine_id n)) = true.

Lemma survey_total s capability priv lat nodes st :
  engines_available s capability nodes → ∃ sv, survey s capability priv lat st nodes = Ok sv.
Proof.
  revert st. induction nodes as [|n nodes IH]; intros st H; cbn [survey]; [by eexists|].
  assert (∃ st', consider s capability priv lat st n = Ok st') as [st' ->].
  { unfold consider. destruct (sn_healthy n) eqn:Hh; cbn [negb orb]; [|by eexists]. case_bool_decide as Hc; cbn [negb]; [|by eexists].
    specialize (H n ltac:(left) Hh Hc). destruct (_market_profile s _) as [p|]; [|done]. cbn [mbind res_bind].
    repeat case_match; by eexists. }
  apply IH. intros m Hm. apply H. by right.
Qed.

(** Placement takes the best node that can run the task, local ones first.
    A placement names a node of the scheduler that is healthy, has a free slot
    and offers the capability through an available market engine within the
    privacy and latency limits; no such node precedes it by locality, cost,
    latency, load, engine and node identifier; it is local whenever such a node
    is local; and the recorded reason tells apart a local choice, a cloud choice
    because every capable local node is full, and one because no local node is
    capable.  A refusal records nothing, and for a known task and a capability
    whose nodes' engines are available it means that no node can run it. *)
Theorem placement_best s task capability priv lat log :
  match select_engine s task capability priv lat log with
  | (Ok p, _) =>
      ∃ c, placeable s capability priv lat (s_nodes s) c ∧
      p = mkPlacement task capability (sn_engine_id (cd_node c)) (sn_node_id (cd_node c)) (sn_locality (cd_node c))
            (mp_cost_per_task (cd_profile c)) (pl_reason p) ∧
      (∀ c', placeable s capability priv lat (s_nodes s) c' →
         candidate_lt c' c = false ∧ (is_local (cd_node c') = true → is_local (cd_node c) = true)) ∧
      (is_local (cd_node c) = true → pl_reason p = "local_capability_equal_preferred") ∧
      (is_local (cd_node c) = false → (∃ n q, n ∈ s_nodes s ∧ suits s capability priv lat n q ∧ is_local n = true) →
         pl_reason p = "cloud_selected_local_capacity_exhausted") ∧
      (is_local (cd_node c) = false → ¬ (∃ n q, n ∈ s_nodes s ∧ suits s capability priv lat n q ∧ is_local n = true) →
         pl_reason p = "cloud_selected_for_capability_gap")
  | (Raise _, log') =>
      log' = log ∧
      (dmem task (sched_tasks s) = true → blank capability = false → engines_available s capability (s_nodes s) →
       ∀ c, ¬ placeable s capability priv lat (s_nodes s) c)
  end.
Proof.
  unfold select_engine. destruct (dmem task _) eqn:Et; cbn [negb]; [|done]. destruct (blank capability) eqn:Eb; [done|].
  unfold mbind at 1, SM_bind at 1, sm_lift. destruct (survey s capability priv lat (mkSurvey [] false false) (s_nodes s)) as [sv|e] eqn:Es.
  2:{ split; [done|]. intros _ _ He. exfalso. destruct (survey_total s capability priv lat (s_nodes s) (mkSurvey [] false false) He). congruence. }
  destruct (survey_spec s capability priv lat _ _ _ Es) as (Hc & Hcap & Hav). cbn [sv_candidates sv_local_capable sv_local_available] in *.
  assert (∀ c, c ∈ sv_candidates sv ↔ placeable s capability priv lat (s_nodes s) c) as Hcand.
  { intros c. rewrite Hc. split; [intros [?%not_elem_of_nil|?]; done|by right]. }
  destruct (sv_candidates sv) as [|c cs] eqn:Ec.
  { split; [done|]. intros _ _ _ c Hp. apply Hcand in Hp. by apply not_elem_of_nil in Hp. }
  cbv zeta. match goal with |- context [(_ ← sched_emit s ?e ?d; mret ?a) log] => destruct (sched_emit_bind s e d a log) as [log' ->] end.
  set (best := min_by candidate_lt c cs). exists best. cbn [pl_reason].
  assert (∀ c', placeable s capability priv lat (s_nodes s) c' → candidate_lt c' best = false) as Hmin.
  { intros c' Hp. apply (min_by_least candidate_lt candidate_lt_irrefl candidate_lt_trans). by apply Hcand. }
  assert (∀ c', placeable s capability priv lat (s_nodes s) c' → is_local (cd_node c') = true → is_local (cd_node best) = true) as Hloc.
  { intros c' Hp Hl. destruct (is_local (cd_node best)) eqn:E; [done|]. pose proof (Hmin c' Hp) as Hn. by rewrite (local_first c' best Hl E) in Hn. }
  split_and!; [apply Hcand, min_by_elem|done|by intros c' Hp; split; [apply Hmin|apply Hloc]|by intros ->|intros Hb Hx|intros Hb Hx]; rewrite Hb.
  - rewrite (proj2 Hcap) by (by right). destruct (sv_local_available sv) eqn:Ea; [|done]. exfalso.
    destruct (proj1 Hav eq_refl) as [?|(c' & Hp & Hl)]; [done|]. rewrite (Hloc c' Hp Hl) in Hb. done.
  - destruct (sv_local_capable sv) eqn:El; [|done]. destruct (proj1 Hcap eq_refl) as [?|?]; done.
Qed.

(** ** Capacity *)
Definition capacity_ok (c : SchedulerCapacity) : Prop :=
  (1 ≤ sc_min_workers c ≤ sc_workers c)%Z ∧ (sc_workers c ≤ sc_max_workers c)%Z ∧
  (1 ≤ sc_min_verifiers c ≤ sc_verifiers c)%Z ∧ (sc_verifiers c ≤ sc_max_verifiers c)%Z.

Lemma capacity_init_ok c : SchedulerCapacity_init c = Ok c ↔ capacity_ok c.
Proof.
  unfold SchedulerCapacity_init, capacity_ok. cbn [existsb]. split.
  - intros H. res_inv. bool_prop. lia.
  - intros H. repeat match goal with |- context [(?a <? ?b)%Z] => destruct (Z.ltb_spec a b); [lia|] end. cbn [orb].
    repeat match goal with |- context [(?a <=? ?b)%Z] => destruct (Z.leb_spec a b); [|lia] end. done.
Qed.

Lemma capacity_init_only c c' : SchedulerCapacity_init c = Ok c' → c' = c.
Proof. unfold SchedulerCapacity_init. intros H. by res_inv. Qed.

Definition policy_ok (p : SchedulerPolicy) : Prop := SchedulerPolicy_init p = Ok p.
Lemma policy_steps p : policy_ok p → (1 ≤ sp_worker_step p)%Z ∧ (1 ≤ sp_verifier_step p)%Z ∧ (2 ≤ sp_structural_parts p)%Z.
Proof. unfold policy_ok, SchedulerPolicy_init. cbn [existsb]. intros H. res_inv. bool_prop. lia. Qed.

Section capacity.
Context (s : Scheduler) (m : SchedulerMeasurements).

(** An action as [resize] builds it. *)
Definition resize_action (resource : string) (before after : Z) (reason : string) (a : SchedulerAction) : Prop :=
  ∃ mh, measurement_hash m = Ok mh ∧ a = mkAction "resize" resource before after reason mh.

Lemma act_spec event action resource before after reason log :
  action ∈ ["resize"; "pause"] → resource ∈ ["workers"; "verifiers"; "integration"] → blank (str reason) = false →
  match act s event action resource before after reason m log with
  | (Ok a, _) => ∃ mh, measurement_hash m = Ok mh ∧ a = mkAction action resource before after reason mh
  | (Raise e, _) => measurement_hash m = Raise e
  end.
Proof.
  intros Ha Hr Hb. unfold act. destruct (measurement_hash m) as [mh|e]; [|done]. unfold SchedulerAction_init. cbn [mbind res_bind sa_action sa_resource sa_reason].
  rewrite (bool_decide_true _ Ha), (bool_decide_true _ Hr), Hb. cbn [negb]. unfold mbind at 1, SM_bind at 1, sm_lift.
  match goal with |- context [(_ ← sched_emit s ?e ?d; mret ?a) log] => destruct (sched_emit_bind s e d a log) as [log' ->] end. eauto.
Qed.

Lemma resize_to_spec resource before after reason log :
  resource ∈ ["workers"; "verifiers"; "integration"] → blank (str reason) = false →
  match resize_to s resource before after reason m log with
  | (Ok (v, acts), _) => v = after ∧
      ((after = before ∧ acts = []) ∨ (after ≠ before ∧ ∃ a, acts = [a] ∧ resize_action resource before after reason a))
  | (Raise e, _) => measurement_hash m = Raise e
  end.
Proof.
  intros Hr Hb. unfold resize_to. destruct (Z.eqb_spec after before) as [->|Hne]; [by split; [|left]|].
  pose proof (act_spec "M4SchedulerResize" "resize" resource before after reason log ltac:(left) Hr Hb) as H.
  unfold mbind, SM_bind. destruct (act _ _ _ _ _ _ _ _ _) as [[a|e] log']; [|done]. destruct H as (mh & Hm & ->).
  split; [done|]. right. split; [done|]. eexists. split; [done|]. by exists mh.
Qed.
End capacity.

(** The change of one resource, and the actions that record it. *)
Definition recorded (m : SchedulerMeasurements) (resource : string) (before after : Z) (acts : list SchedulerAction) : Prop :=
  (after = before ∧ acts = []) ∨ (after ≠ before ∧ ∃ reason a, acts = [a] ∧ resize_action m resource before after reason a).

Definition resize_allowed (s : Scheduler) (m : SchedulerMeasurements) (c c' : SchedulerCapacity) : Prop :=
  (sc_verifiers c ≤ sc_verifiers c' ≤ sc_verifiers c + sp_verifier_step (s_policy s))%Z ∧
  (sc_workers c - sp_worker_step (s_policy s) ≤ sc_workers c' ≤ sc_workers c + sp_worker_step (s_policy s))%Z ∧
  (sc_verifiers c' ≠ sc_verifiers c → (sp_verification_queue_threshold (s_policy s) < sm_verification_queue_depth m)%Z) ∧
  ((sc_workers c < sc_workers c')%Z →
     dominates s (sm_independent_tasks m) (sm_blocked_tasks m) = Ok true ∧ (sc_workers c' ≤ sm_independent_tasks m)%Z) ∧
  ((sc_workers c' < sc_workers c)%Z → dominates s (sm_blocked_tasks m) (sm_independent_tasks m) = Ok true).

Lemma resize_verifiers_spec s m c log :
  capacity_ok c → policy_ok (s_policy s) →
  match resize_verifiers s m c log with
  | (Ok (v, acts), _) =>
      (sc_verifiers c ≤ v ≤ sc_verifiers c + sp_verifier_step (s_policy s))%Z ∧ (v ≤ sc_max_verifiers c)%Z ∧
      (v ≠ sc_verifiers c → (sp_verification_queue_threshold (s_policy s) < sm_verification_queue_depth m)%Z) ∧
      recorded m "verifiers" (sc_verifiers c) v acts
  | (Raise e, _) => measurement_hash m = Raise e
  end.
Proof.
  intros Hc Hp. destruct (policy_steps _ Hp) as (_ & Hv & _). unfold capacity_ok in Hc. unfold resize_verifiers, recorded.
  destruct (Z.ltb_spec (sp_verification_queue_threshold (s_policy s)) (sm_verification_queue_depth m)) as [Hq|Hq].
  - pose proof (resize_to_spec s m "verifiers" (sc_verifiers c) (Z.min (sc_max_verifiers c) (sc_verifiers c + sp_verifier_step (s_policy s)))
      "verification_queue_above_threshold" log ltac:(right; left) eq_refl) as H.
    destruct (resize_to _ _ _ _ _ _ _) as [[[v acts]|e] log1]; [|done]. destruct H as [-> H]. split_and!; [lia|lia|lia|done|].
    destruct H as [?|(? & a & ? & ?)]; [by left|right]. eauto 10.
  - cbn. split_and!; [lia|lia|lia|done|by left].
Qed.

Lemma resize_workers_spec s m c log :
  capacity_ok c → policy_ok (s_policy s) →
  match resize_workers s m c log with
  | (Ok (w, acts), _) =>
      (sc_workers c - sp_worker_step (s_policy s) ≤ w ≤ sc_workers c + sp_worker_step (s_policy s))%Z ∧
      (sc_min_workers c ≤ w ≤ sc_max_workers c)%Z ∧
      ((sc_workers c < w)%Z → dominates s (sm_independent_tasks m) (sm_blocked_tasks m) = Ok true ∧ (w ≤ sm_independent_tasks m)%Z) ∧
      ((w < sc_workers c)%Z → dominates s (sm_blocked_tasks m) (sm_independent_tasks m) = Ok true) ∧
      recorded m "workers" (sc_workers c) w acts
  | (Raise e, _) =>
      measurement_hash m = Raise e ∨ dominates s (sm_independent_tasks m) (sm_blocked_tasks m) = Raise e ∨
      dominates s (sm_blocked_tasks m) (sm_independent_tasks m) = Raise e
  end.
Proof.
  intros Hc Hp. destruct (policy_steps _ Hp) as (Hw & _ & _). unfold capacity_ok in Hc. unfold resize_workers, recorded.
  unfold mbind, SM_bind, sm_lift. destruct (dominates s (sm_independent_tasks m) _) as [[]|e] eqn:E1; [| |by right; left].
  - pose proof (resize_to_spec s m "workers" (sc_workers c)
      (Z.min (Z.min (sc_max_workers c) (sc_workers c + sp_worker_step (s_policy s))) (Z.max (sc_workers c) (sm_independent_tasks m)))
      "independent_tasks_dominate_blocked_tasks" log ltac:(left) eq_refl) as H.
    destruct (resize_to _ _ _ _ _ _ _) as [[[w acts]|e] log1]; [|by left]. destruct H as [-> H]. split_and!; [lia|lia|lia|lia|..|lia|].
    + intros ?. split; [done|lia].
    + destruct H as [?|(? & a & ? & ?)]; [by left|right]. eauto 10.
  - destruct (dominates s (sm_blocked_tasks m) _) as [[]|e] eqn:E2; [| |by right; right].
    + pose proof (resize_to_spec s m "workers" (sc_workers c) (Z.max (sc_min_workers c) (sc_workers c - sp_worker_step (s_policy s)))
        "blocked_tasks_dominate_independent_tasks" log ltac:(left) eq_refl) as H.
      destruct (resize_to _ _ _ _ _ _ _) as [[[w acts]|e] log1]; [|by left]. destruct H as [-> H]. split_and!; [lia|lia|lia|lia|lia|done|].
      destruct H as [?|(? & a & ? & ?)]; [by left|right]. eauto 10.
    + cbn. split_and!; try lia. by left.
Qed.

(** Capacity changes stay within the configured bounds and the policy's
    step.  From a valid capacity and policy, a resize returns a valid capacity
    with the same bounds; above the conflict threshold it changes nothing and
    records one pause; otherwise workers and verifiers move by at most their
    step, verifiers only up and only when the verification queue is too long,
    workers up only when independent tasks dominate and never past their number,
    down only when blocked tasks dominate; each change, and nothing else, is
    recorded by one action.  It fails only when the measurements cannot be
    hashed or the imbalance test overflows. *)
Theorem resize_bounded s m c log :
  capacity_ok c → policy_ok (s_policy s) →
  match resize s m c log with
  | (Ok (c', acts), _) =>
      capacity_ok c' ∧ sc_min_workers c' = sc_min_workers c ∧ sc_max_workers c' = sc_max_workers c ∧
      sc_min_verifiers c' = sc_min_verifiers c ∧ sc_max_verifiers c' = sc_max_verifiers c ∧
      ((sp_integration_conflict_threshold (s_policy s) < sm_integration_conflicts m)%Z →
         c' = c ∧ ∃ a, acts = [a] ∧ sa_action a = "pause") ∧
      ((sm_integration_conflicts m ≤ sp_integration_conflict_threshold (s_policy s))%Z →
         resize_allowed s m c c' ∧ ∃ acts1 acts2, acts = acts1 ++ acts2 ∧
           recorded m "verifiers" (sc_verifiers c) (sc_verifiers c') acts1 ∧ recorded m "workers" (sc_workers c) (sc_workers c') acts2)
  | (Raise e, _) =>
      measurement_hash m = Raise e ∨ dominates s (sm_independent_tasks m) (sm_blocked_tasks m) = Raise e ∨
      dominates s (sm_blocked_tasks m) (sm_independent_tasks m) = Raise e
  end.
Proof.
  intros Hc Hp. unfold resize.
  destruct (Z.ltb_spec (sp_integration_conflict_threshold (s_policy s)) (sm_integration_conflicts m)) as [Hconf|Hconf].
  { pose proof (act_spec s m "M4SchedulerPaused" "pause" "integration" 0 0 "integration_conflicts_above_threshold_human_required" log
      ltac:(right; left) ltac:(right; right; left) eq_refl) as H. unfold mbind, SM_bind. destruct (act _ _ _ _ _ _ _ _ _) as [[a|e] log']; [|by left].
    destruct H as (mh & _ & ->). split; [done|]. split_and!; [done..| |intros ?; lia]. intros _. split; [done|]. by eexists. }
  unfold mbind, SM_bind. pose proof (resize_verifiers_spec s m c log Hc Hp) as Hver.
  destruct (resize_verifiers s m c log) as [[[v acts1]|e] log1]; [|by left]. destruct Hver as (Hv1 & Hv2 & Hv3 & Hv4).
  pose proof (resize_workers_spec s m c log1 Hc Hp) as Hwork.
  destruct (resize_workers s m c log1) as [[[w acts2]|e] log2]; [|done]. destruct Hwork as (Hw1 & Hw2 & Hw3 & Hw4 & Hw5).
  assert (capacity_ok (mkCapacity w v (sc_min_workers c) (sc_max_workers c) (sc_min_verifiers c) (sc_max_verifiers c))) as Hc'
    by (unfold capacity_ok in *; cbn; lia).
  unfold sm_lift. rewrite (proj2 (capacity_init_ok _) Hc'). cbn. split; [done|]. split_and!; [done..|intros ?; lia|].
  intros _. split; [done|]. by exists acts1, acts2.
Qed.

Definition demo_scheduler : Scheduler :=
  mkScheduler (mkPlan (str "i") [] [] (JStr (str "factory-plan-v1"))) demo_market [] default_policy true.
Definition demo_measurements : SchedulerMeasurements :=
  mkMeasurements (str "h") fzero fzero 9 fzero 8 1 0 1 0 0.

Lemma resize_bounded_witness :
  ∃ c', (resize demo_scheduler demo_measurements (mkCapacity 2 1 1 4 1 2) []).1 = Ok c' ∧ c'.1 = mkCapacity 3 2 1 4 1 2 ∧ capacity_ok c'.1.
Proof.
  pose proof (resize_bounded demo_scheduler demo_measurements (mkCapacity 2 1 1 4 1 2) []) as H.
  destruct (resize demo_scheduler demo_measurements (mkCapacity 2 1 1 4 1 2) []) as [[[c' acts]|e] log] eqn:E; [|vm_compute in E; discriminate E].
  exists (c', acts). split; [reflexivity|]. split; [vm_compute in E; injection E as <- _ _; reflexivity|].
  apply H; [unfold capacity_ok; cbn; lia|vm_compute; reflexivity].
Defined.
