(* ===== verification/ReplanFacts.v ===== *)
(** * What structural replanning guarantees *)

From Stdlib Require Import ZArith NArith Lia SpecFloat.
From stdpp Require Import relations.
From S2P Require Import Prelude PyData Sha256 PyFloat Json JsonFacts Core CoreFacts Storage Builtins Graph JsonPlain Plan PlanFacts WorkerContract EvidenceReceipts EvidenceBus BusFacts PlanTheorems Providers Market M4Evidence M4Theorems M4Scheduler SchedulerFacts.

(** ** Direct dependents *)
Definition add_edge (acc : res (dict (gset pystr))) (td : pystr * pystr) : res (dict (gset pystr)) :=
  d ← acc; s ← dgetitem td.2 d; Ok (dset td.2 ({[td.1]} ∪ s) d).

Lemma add_edges_spec (l : list (pystr * pystr)) (d : dict (gset pystr)) :
  wf_dict d → (∀ td, td ∈ l → td.2 ∈ d.*1) →
  ∃ d', foldl add_edge (Ok d) l = Ok d' ∧ wf_dict d' ∧ d'.*1 = d.*1 ∧
    ∀ (k : pystr) S S', dget k d = Some S → dget k d' = Some S' → ∀ x, x ∈ S' ↔ x ∈ S ∨ (x, k) ∈ l.
Proof.
  revert d. induction l as [|[t k] l IH]; intros d Hd Hin.
  { exists d. split_and!; [done..|]. intros k S S' H1 H2 x. assert (S' = S) as -> by congruence.
    split; [by left|intros [?|?%not_elem_of_nil]; done]. }
  assert (k ∈ d.*1) as Hk by (apply (Hin (t, k)); left). pose proof Hk as [S0 ES]%dget_is_Some.
  cbn [foldl]. unfold add_edge at 2. cbn [mbind res_bind fst snd]. rewrite (proj2 (dgetitem_Ok _ _ _) ES). cbn [mbind res_bind].
  assert ((dset k ({[t]} ∪ S0) d).*1 = d.*1) as Ek by (rewrite dkeys_dset; by case_decide).
  destruct (IH (dset k ({[t]} ∪ S0) d)) as (d' & E' & Hd' & Hk' & H).
  - by apply wf_dset.
  - intros td Htd. rewrite Ek. apply Hin. by right.
  - exists d'. split_and!; [done|done|by rewrite Hk'|]. intros j S S' H1 H2 x. rewrite elem_of_cons.
    destruct (decide (j = k)) as [->|Hne].
    + rewrite (H k ({[t]} ∪ S0) S' (dget_dset_eq _ _ _) H2 x). assert (S = S0) as -> by congruence. set_solver.
    + rewrite (H j S S'); [set_solver|by rewrite dget_dset_ne|done].
Qed.

Lemma open_weight_empty (d : dict (gset pystr)) : open_weight size ∅ d ≤ sum_list ((λ kv : pystr * gset pystr, size kv.2) <$> d).
Proof. induction d as [|[k v] d IH]; cbn; [done|]. rewrite bool_decide_false by set_solver. lia. Qed.

Section direct.
Context (s : Scheduler) (Hplan : plan_ok (s_plan s)).
Abbreviation G := (task_graph (ep_tasks (s_plan s))).
Abbreviation ids := (ft_id <$> ep_tasks (s_plan s)).

Lemma elem_of_edges x k : (x, k) ∈ mjoin ((λ t, (λ d, (ft_id t, d)) <$> ft_depends_on t) <$> ep_tasks (s_plan s)) ↔ gdep G x k.
Proof.
  rewrite list_elem_of_join, task_graph_dep. setoid_rewrite list_elem_of_fmap. split.
  - intros (l & Hx & t & -> & Ht). apply list_elem_of_fmap in Hx as (d & [= -> ->] & Hd). eauto.
  - intros (t & Ht & <- & Hd). eexists. split; [|by exists t]. by apply (list_elem_of_fmap_2 (λ d, (ft_id t, d))).
Qed.

Lemma direct_spec :
  ∃ direct, direct_dependents s = Ok direct ∧ wf_dict direct ∧ direct.*1 = ids ∧
    ∀ (k : pystr) S, dget k direct = Some S → ∀ x, x ∈ S ↔ gdep G x k.
Proof using Hplan.
  assert (((λ t, (ft_id t, ∅ : gset pystr)) <$> ep_tasks (s_plan s)).*1 = ids) as Ek by (by rewrite <- list_fmap_compose).
  unfold direct_dependents. rewrite dict_of_NoDup by (rewrite Ek; apply Hplan).
  destruct (add_edges_spec (mjoin ((λ t, (λ d, (ft_id t, d)) <$> ft_depends_on t) <$> ep_tasks (s_plan s)))
    ((λ t, (ft_id t, ∅ : gset pystr)) <$> ep_tasks (s_plan s))) as (d & E & Hd & Hk & H).
  - unfold wf_dict. rewrite Ek. apply Hplan.
  - intros [x k] Hx%elem_of_edges. rewrite Ek. cbn. rewrite <- task_graph_keys. by eapply (pok_task_closed _ Hplan).
  - exists d. split_and!; [exact E|done|by rewrite Hk|]. intros k S HS x.
    assert (∃ S0, dget k ((λ t, (ft_id t, ∅ : gset pystr)) <$> ep_tasks (s_plan s)) = Some S0) as [S0 ES0].
    { apply dget_is_Some. rewrite <- Hk. apply dget_is_Some. eauto. }
    assert (S0 = ∅) as -> by (apply dget_Some_elem, list_elem_of_fmap in ES0 as (t & [= _ ->] & _); done).
    rewrite (H k ∅ S ES0 HS x), elem_of_edges. set_solver.
Qed.

End direct.

Section downstream.
Context (s : Scheduler) (set_iter : gset pystr → list pystr).
Context (Hplan : plan_ok (s_plan s)) (Hiter : ∀ S : gset pystr, set_iter S ≡ₚ elements S).
Abbreviation G := (task_graph (ep_tasks (s_plan s))).
Abbreviation ids := (ft_id <$> ep_tasks (s_plan s)).

(** The search returns the closure of the pending nodes. *)
Lemma downstream_loop_spec (direct : dict (gset pystr)) (P : pystr → Prop) :
  wf_dict direct → direct.*1 = ids → (∀ (k : pystr) S, dget k direct = Some S → ∀ x, x ∈ S ↔ gdep G x k) →
  (∀ x y, P y → gdep G x y → P x) →
  ∀ fuel (found : gset pystr) (pending : list pystr),
  length pending + open_weight size found direct ≤ fuel →
  (∀ x, x ∈ found → P x) → (∀ x, x ∈ pending → P x ∧ x ∈ ids) →
  (∀ x y, y ∈ found → gdep G x y → x ∈ found ∨ x ∈ pending) →
  ∃ F, downstream_loop set_iter fuel direct found pending = Ok F ∧ found ⊆ F ∧ (∀ x, x ∈ pending → x ∈ F) ∧
    (∀ x, x ∈ F → P x) ∧ (∀ x y, y ∈ F → gdep G x y → x ∈ F).
Proof using Hplan Hiter.
  intros Hwf Hkeys Hdir HP. induction fuel as [|fuel IH]; intros found pending Hf H1 H2 H3.
  { destruct pending; [|cbn in Hf; lia]. exists found. split_and!; [done|done|by intros ? ?%not_elem_of_nil|done|].
    intros x y Hy Hd. destruct (H3 x y Hy Hd) as [?|?%not_elem_of_nil]; done. }
  destruct pending as [|c pending]; cbn [downstream_loop].
  { exists found. split_and!; [done|done|by intros ? ?%not_elem_of_nil|done|].
    intros x y Hy Hd. destruct (H3 x y Hy Hd) as [?|?%not_elem_of_nil]; done. }
  destruct (H2 c ltac:(left)) as [HPc Hc]. case_bool_decide as Hcf.
  - destruct (IH found pending) as (F & E & Hsub & Hpen & HF1 & HF2).
    + cbn in Hf. lia.
    + done.
    + intros x Hx. apply H2. by right.
    + intros x y Hy Hd. destruct (H3 x y Hy Hd) as [?|[->|?]%elem_of_cons]; auto.
    + exists F. split_and!; [done|done| |done|done]. intros x [->|Hx]%elem_of_cons; [by apply Hsub|by apply Hpen].
  - rewrite <- Hkeys in Hc. apply dget_is_Some in Hc as [next En]. rewrite (proj2 (dgetitem_Ok _ _ _) En). cbn [mbind res_bind].
    assert (∀ x, x ∈ reverse (set_iter (next ∖ ({[c]} ∪ found))) ↔ gdep G x c ∧ x ∉ {[c]} ∪ found) as Hit.
    { intros x. rewrite elem_of_reverse, Hiter, elem_of_elements, elem_of_difference, (Hdir c next En). done. }
    destruct (IH ({[c]} ∪ found) (reverse (set_iter (next ∖ ({[c]} ∪ found))) ++ pending)) as (F & E & Hsub & Hpen & HF1 & HF2).
    + rewrite length_app, length_reverse, (Permutation_length (Hiter _)).
      pose proof (open_weight_step size found c next direct Hwf En Hcf) as Hs. cbn in Hf.
      assert (length (elements (next ∖ ({[c]} ∪ found))) ≤ size next) by (change (size (next ∖ ({[c]} ∪ found)) ≤ size next); apply subseteq_size; set_solver).
      lia.
    + intros x [->%elem_of_singleton|Hx]%elem_of_union; auto.
    + intros x [[Hx _]%Hit|Hx]%elem_of_app; [|apply H2; by right]. split; [by apply (HP x c)|]. rewrite <- task_graph_keys. by eapply gdep_node.
    + intros x y Hy Hd. destruct (decide (x ∈ {[c]} ∪ found)) as [?|Hx]; [by left|right]. apply elem_of_app.
      apply elem_of_union in Hy as [->%elem_of_singleton|Hy]; [left; by apply Hit|].
      destruct (H3 x y Hy Hd) as [?|[->|?]%elem_of_cons]; [set_solver|set_solver|by right].
    + exists F. split_and!; [done|set_solver| |done|done]. intros x [->|Hx]%elem_of_cons; [set_solver|]. apply Hpen, elem_of_app. by right.
Qed.

(** The tasks downstream of [t] are those that depend on it through a chain. *)
Lemma downstream_spec t :
  t ∈ ids → ∃ l, _downstream s set_iter t = Ok l ∧ NoDup l ∧ sorted_by str_leb l ∧ ∀ x, x ∈ l ↔ tc (gdep G) x t.
Proof using Hplan Hiter.
  intros Ht. unfold _downstream. destruct (direct_spec s Hplan) as (direct & -> & Hwf & Hk & Hd). cbn [mbind res_bind].
  rewrite <- Hk in Ht. apply dget_is_Some in Ht as [first Ef]. rewrite (proj2 (dgetitem_Ok _ _ _) Ef). cbn [mbind res_bind].
  assert (∀ x, x ∈ reverse (set_iter first) ↔ gdep G x t) as Hfirst by (intros x; by rewrite elem_of_reverse, Hiter, elem_of_elements, (Hd t first Ef)).
  destruct (downstream_loop_spec direct (λ x, tc (gdep G) x t) Hwf Hk Hd) with
    (fuel := (size first + downstream_fuel direct)%nat) (found := ∅ : gset pystr) (pending := reverse (set_iter first)) as (F & -> & _ & Hpen & HF1 & HF2).
  - intros x y Hy Hxy. by eapply tc_l.
  - rewrite length_reverse, (Permutation_length (Hiter _)). pose proof (open_weight_empty direct). unfold downstream_fuel.
    change (length (elements first)) with (size first). lia.
  - set_solver.
  - intros x Hx%Hfirst. split; [by apply tc_once|]. rewrite <- task_graph_keys. by eapply gdep_node.
  - set_solver.
  - cbn [mbind res_bind]. eexists. split; [reflexivity|]. split_and!; [rewrite sort_by_perm; apply NoDup_elements|apply sort_str_sorted|].
    intros x. rewrite sort_by_perm, elem_of_elements. split; [apply HF1|]. intros H. remember t as u eqn:E.
    induction H as [x y H|x y z H _ IH]; subst; [by apply Hpen, Hfirst|]. eapply HF2; [by apply IH|done].
Qed.
End downstream.

(** ** Part identifiers *)
Lemma digits_value_zero ds : digits_value (48%N :: ds) = digits_value ds.
Proof. reflexivity. Qed.

Lemma pad2_value n : (0 ≤ n)%Z → digits_value (pad2 n) = n.
Proof.
  intros Hn. assert (digits_value (str_of_Z n) = n) as H.
  { unfold str_of_Z. destruct (Z.ltb_spec n 0); [lia|]. destruct (str_of_nonneg_spec n Hn) as (d & ds & -> & _ & Hv & _). exact Hv. }
  unfold pad2. destruct (n <? 10)%Z; [|done]. by rewrite digits_value_zero.
Qed.

Lemma part_id_inj b i j : (0 ≤ i)%Z → (0 ≤ j)%Z → part_id b i = part_id b j → i = j.
Proof.
  intros Hi Hj E. unfold part_id in E. apply app_inv_head, app_inv_head in E. by rewrite <- (pad2_value i), <- (pad2_value j), E.
Qed.

Lemma elem_of_indices n i : i ∈ indices n ↔ (1 ≤ i ≤ n)%Z.
Proof.
  unfold indices. rewrite list_elem_of_fmap. setoid_rewrite elem_of_seq. split; [intros (k & -> & Hk); lia|].
  intros Hi. exists (Z.to_nat i). lia.
Qed.

Lemma parts_NoDup b n : NoDup (part_id b <$> indices n).
Proof.
  apply NoDup_fmap_2_strong.
  - intros i j Hi%elem_of_indices Hj%elem_of_indices. apply part_id_inj; lia.
  - unfold indices. apply NoDup_fmap_2; [apply _|apply NoDup_seq].
Qed.

Lemma length_indices n : (0 ≤ n)%Z → Z.of_nat (length (indices n)) = n.
Proof. intros Hn. unfold indices. rewrite length_fmap, length_seq. lia. Qed.

Lemma NoDup_join {A B} (f : A → list B) (l : list A) :
  NoDup l → (∀ x, x ∈ l → NoDup (f x)) → (∀ x y z, x ∈ l → y ∈ l → z ∈ f x → z ∈ f y → x = y) → NoDup (mjoin (f <$> l)).
Proof.
  intros Hl Hf Hd. assert (mjoin (f <$> l) = l ≫= f) as -> by (clear; induction l as [|x l IH]; [done|]; change (f x ++ mjoin (f <$> l) = f x ++ (l ≫= f)); by rewrite IH).
  apply NoDup_bind; [intros x1 x2 y Hx1 Hx2 Hy1 Hy2; by apply (Hd x1 x2 y)|done|done].
Qed.

Lemma elem_of_join_fmap {A B} (f : A → list B) (l : list A) y : y ∈ mjoin (f <$> l) ↔ ∃ x, x ∈ l ∧ y ∈ f x.
Proof. rewrite list_elem_of_join. setoid_rewrite list_elem_of_fmap. naive_solver. Qed.

(** ** The replacement plan *)
Section replace.
Context (plan : ExecutionPlan) (Hplan : plan_ok plan) (task : FactoryTask) (Htask : task ∈ ep_tasks plan).
Context (n : Z) (Hn : (0 < n)%Z).
Abbreviation G := (task_graph (ep_tasks plan)).
Abbreviation ids := (ft_id <$> ep_tasks plan).
Abbreviation b := (ft_id task).

Definition parts : list pystr := part_id b <$> indices n.

(** The identifiers of the parts are valid and not used by the plan. *)
Definition parts_ok : Prop := ∀ p, p ∈ parts → ident_ok p = true ∧ p ∉ ids.

Context (Hparts : parts_ok).

(** What stands for a task of the plan in the replacement. *)
Definition reps (u : pystr) : list pystr := if bool_decide (u = b) then parts else [u].

Definition part_of (i : Z) : FactoryTask :=
  mkFactoryTask (part_id b i) (str "Part " ++ str_of_Z i ++ str "/" ++ str_of_Z n ++ str " of decomposed task: " ++ ft_description task)
    (ft_requirement_ids task) (ft_depends_on task) (ft_swarm task).
Definition redirected (o : FactoryTask) : FactoryTask :=
  mkFactoryTask (ft_id o) (ft_description o) (ft_requirement_ids o) (redirect b parts (ft_depends_on o)) (ft_swarm o).
Definition replaced (o : FactoryTask) : list FactoryTask :=
  if bool_decide (ft_id o = b) then part_of <$> indices n else [redirected o].
Definition new_tasks : list FactoryTask := mjoin (replaced <$> ep_tasks plan).

Lemma task_by_id o : o ∈ ep_tasks plan → ft_id o = b → o = task.
Proof using Hplan Htask. intros Ho E. by apply (NoDup_key_inj ft_id (ep_tasks plan)); [apply Hplan|..]. Qed.

Lemma task_not_self o : o ∈ ep_tasks plan → ft_id o ∉ ft_depends_on o.
Proof using Hplan.
  intros Ho Hin. apply (pok_task_acyclic _ Hplan (ft_id o)). apply tc_once, task_graph_dep. eauto.
Qed.

Lemma deps_planned o d : o ∈ ep_tasks plan → d ∈ ft_depends_on o → d ∈ ids.
Proof using Hplan. intros Ho Hd. rewrite <- task_graph_keys. apply (pok_task_closed _ Hplan (ft_id o)), task_graph_dep. eauto. Qed.

Lemma reps_NoDup u : NoDup (reps u).
Proof. unfold reps. case_bool_decide; [apply parts_NoDup|]. apply NoDup_singleton. Qed.

Lemma reps_inj u v x : u ∈ ids → v ∈ ids → x ∈ reps u → x ∈ reps v → u = v.
Proof using Hparts.
  unfold reps. intros Hu Hv. repeat case_bool_decide; subst; rewrite ?list_elem_of_singleton; intros H1 H2; try congruence; subst.
  - exfalso. by apply (Hparts v).
  - exfalso. by apply (Hparts u).
Qed.

Lemma part_of_ok i : i ∈ indices n → ftask_ok (part_of i).
Proof using Hplan Htask Hparts.
  intros Hi. pose proof (proj1 (Forall_forall _ _) (pok_task_ok _ Hplan) task Htask) as [H1 H2 H3 H4 H5 H6].
  constructor; cbn [part_of ft_id ft_description ft_requirement_ids ft_depends_on ft_swarm]; try done.
  apply (Hparts (part_id b i)). by apply list_elem_of_fmap_2.
Qed.

Lemma redirected_ok o : o ∈ ep_tasks plan → ftask_ok (redirected o).
Proof using Hplan Hparts.
  intros Ho. pose proof (proj1 (Forall_forall _ _) (pok_task_ok _ Hplan) o Ho) as [H1 H2 H3 H4 H5 H6].
  constructor; cbn [redirected ft_id ft_description ft_requirement_ids ft_depends_on ft_swarm]; try done.
  apply (NoDup_join reps); [done|intros; apply reps_NoDup|]. intros x y z Hx Hy. apply reps_inj; by eapply deps_planned.
Qed.

Lemma replace_task_Ok o : o ∈ ep_tasks plan → replace_task task parts o = Ok (replaced o).
Proof using Hplan Htask Hparts Hn.
  intros Ho. unfold replace_task, replaced. case_bool_decide as E.
  - assert (Z.of_nat (length parts) = n) as -> by (unfold parts; rewrite length_fmap; apply length_indices; lia).
    apply mapM_res_Ok. apply Forall2_fmap_r, Forall_Forall2_diag, Forall_forall. intros i Hi.
    apply FactoryTask_init_Ok. split_and!; try reflexivity. by apply part_of_ok.
  - rewrite (proj2 (FactoryTask_init_Ok _ _ _ _ _ (redirected o))); [done|]. split_and!; try reflexivity. by apply redirected_ok.
Qed.

Lemma replaced_ids o : o ∈ ep_tasks plan → ft_id <$> replaced o = reps (ft_id o).
Proof. intros Ho. unfold replaced, reps. case_bool_decide; [|done]. by rewrite <- list_fmap_compose. Qed.

Lemma elem_of_new_tasks t : t ∈ new_tasks ↔ ∃ o, o ∈ ep_tasks plan ∧ t ∈ replaced o.
Proof. apply elem_of_join_fmap. Qed.

Lemma new_ids : ft_id <$> new_tasks = mjoin (reps <$> ids).
Proof.
  assert (∀ l, ft_id <$> mjoin (replaced <$> l) = mjoin (reps <$> (ft_id <$> l))) as H; [|apply H].
  induction l as [|o l IH]; [done|].
  change (ft_id <$> (replaced o ++ mjoin (replaced <$> l)) = reps (ft_id o) ++ mjoin (reps <$> (ft_id <$> l))). rewrite fmap_app, IH.
  f_equal. unfold replaced, reps. case_bool_decide; [|done]. by rewrite <- list_fmap_compose.
Qed.

(** Dependencies of the replacement: those of the plan between what stands for
    the two tasks. *)
Lemma new_gdep x y : gdep (task_graph new_tasks) x y ↔ ∃ u v, gdep G u v ∧ x ∈ reps u ∧ y ∈ reps v.
Proof using Hplan Htask Hparts.
  rewrite task_graph_dep. setoid_rewrite elem_of_new_tasks. split.
  - intros (t & (o & Ho & Ht) & <- & Hy). exists (ft_id o). assert (ft_id t ∈ reps (ft_id o)) as Hid.
    { rewrite <- replaced_ids by done. by apply list_elem_of_fmap_2. }
    unfold replaced in Ht. case_bool_decide as E.
    + apply list_elem_of_fmap in Ht as (i & -> & _). cbn in Hy. exists y. rewrite (task_by_id o Ho E) in *. split_and!; [apply task_graph_dep; eauto|done|].
      unfold reps. rewrite bool_decide_false; [by apply list_elem_of_singleton|]. intros ->. by apply (task_not_self task).
    + apply list_elem_of_singleton in Ht as ->. cbn in Hy. apply elem_of_join_fmap in Hy as (v & Hv & Hy).
      exists v. split_and!; [apply task_graph_dep; eauto|done|done].
  - intros (u & v & (o & Ho & <- & Hd)%task_graph_dep & Hx & Hy). rewrite <- replaced_ids in Hx by done.
    apply list_elem_of_fmap in Hx as (t & -> & Ht). exists t. split_and!; [eauto|done|]. unfold replaced in Ht. case_bool_decide as E.
    + apply list_elem_of_fmap in Ht as (i & -> & _). cbn. rewrite (task_by_id o Ho E) in *. unfold reps in Hy.
      rewrite bool_decide_false in Hy; [by apply list_elem_of_singleton in Hy as ->|]. intros ->. by apply (task_not_self task).
    + apply list_elem_of_singleton in Ht as ->. cbn. apply elem_of_join_fmap. eauto.
Qed.

Definition new_plan : ExecutionPlan := mkPlan (ep_intent plan) (ep_requirements plan) new_tasks (JStr (str "factory-plan-v1")).

Lemma new_plan_ok : plan_ok new_plan.
Proof using Hplan Htask Hparts Hn.
  assert (∀ u, u ∈ ids → ∃ x, x ∈ reps u) as Hne.
  { intros u _. unfold reps. case_bool_decide; [|exists u; left]. exists (part_id b 1). apply list_elem_of_fmap_2, elem_of_indices. lia. }
  constructor; cbn [new_plan ep_intent ep_requirements ep_tasks]; try apply Hplan.
  - intros E. destruct (Hne b) as [x Hx]; [by apply list_elem_of_fmap_2|]. assert (x ∈ ft_id <$> new_tasks) as Hin; [|rewrite E in Hin; by apply not_elem_of_nil in Hin].
    rewrite new_ids. apply elem_of_join_fmap. exists b. split; [by apply list_elem_of_fmap_2|done].
  - rewrite new_ids. apply NoDup_join; [apply Hplan|intros; apply reps_NoDup|]. intros x y z Hx Hy. by apply reps_inj.
  - apply Forall_forall. intros t Ht. apply elem_of_new_tasks in Ht as (o & Ho & Ht). unfold replaced in Ht. case_bool_decide.
    + apply list_elem_of_fmap in Ht as (i & -> & Hi). by apply part_of_ok.
    + apply list_elem_of_singleton in Ht as ->. by apply redirected_ok.
  - intros x y (u & v & Hd & _ & Hy)%new_gdep. rewrite task_graph_keys, new_ids. apply elem_of_join_fmap. exists v. split; [|done].
    rewrite <- task_graph_keys. by eapply (pok_task_closed _ Hplan).
  - intros t r Ht Hr. apply elem_of_new_tasks in Ht as (o & Ho & Ht). unfold replaced in Ht. case_bool_decide.
    + apply list_elem_of_fmap in Ht as (i & -> & _). by apply (pok_bound _ Hplan task).
    + apply list_elem_of_singleton in Ht as ->. by apply (pok_bound _ Hplan o).
  - apply (acyclic_map G _ (λ x, if bool_decide (x ∈ parts) then b else x)); [|apply Hplan].
    assert (∀ u x, u ∈ ids → x ∈ reps u → (if bool_decide (x ∈ parts) then b else x) = u) as Hφ.
    { intros u x Hu. unfold reps. case_bool_decide as E; intros Hx; [by rewrite bool_decide_true|]. apply list_elem_of_singleton in Hx as ->.
      rewrite bool_decide_false; [done|]. intros Hin. by apply (Hparts u). }
    intros x y (u & v & Hd & Hx & Hy)%new_gdep. assert (u ∈ ids) as Hu by (rewrite <- task_graph_keys; by eapply gdep_node).
    assert (v ∈ ids) as Hv by (rewrite <- task_graph_keys; by eapply (pok_task_closed _ Hplan)). by rewrite (Hφ u x Hu Hx), (Hφ v y Hv Hy).
Qed.
End replace.

(** ** When a proposal is made *)
Lemma chunks_disjoint {A} (f : A → pystr) (ls : list (list A)) i j l1 l2 x y :
  NoDup (f <$> mjoin ls) → ls !! i = Some l1 → ls !! j = Some l2 → x ∈ l1 → y ∈ l2 → f x = f y → i = j.
Proof.
  revert i j. induction ls as [|l ls IH]; intros i j Hnd Hi Hj Hx Hy E; [done|].
  change (mjoin (l :: ls)) with (l ++ mjoin ls) in Hnd. rewrite fmap_app in Hnd. apply NoDup_app in Hnd as (_ & Hd & Hnd).
  assert (∀ k l', ls !! k = Some l' → ∀ z, z ∈ l' → z ∈ mjoin ls) as Hin.
  { intros k l' Hk z Hz. apply list_elem_of_join. exists l'. split; [done|]. by eapply list_elem_of_lookup_2. }
  destruct i as [|i], j as [|j]; cbn in Hi, Hj.
  - done.
  - injection Hi as ->. exfalso. apply (Hd (f x)); [by apply list_elem_of_fmap_2|]. rewrite E. by apply list_elem_of_fmap_2, (Hin j l2).
  - injection Hj as ->. exfalso. apply (Hd (f y)); [by apply list_elem_of_fmap_2|]. rewrite <- E. by apply list_elem_of_fmap_2, (Hin i l1).
  - f_equal. by eapply IH.
Qed.

Lemma part_id_longer b i : length b < length (part_id b i).
Proof. unfold part_id. rewrite !length_app. cbn. lia. Qed.

Section propose.
Context (s : Scheduler) (Hplan : plan_ok (s_plan s)) (Hpolicy : policy_ok (s_policy s)).
Context (task : FactoryTask) (Htask : task ∈ ep_tasks (s_plan s)).
Abbreviation n := (sp_structural_parts (s_policy s)).

Lemma parts_positive : (0 < n)%Z.
Proof using Hpolicy. destruct (policy_steps _ Hpolicy) as (_ & _ & ?). lia. Qed.

Lemma replaced_chunks : parts_ok (s_plan s) task n →
  mapM (replace_task task (parts task n)) (ep_tasks (s_plan s)) = Ok (replaced task n <$> ep_tasks (s_plan s)).
Proof using Hplan Hpolicy Htask.
  intros Hp. apply mapM_res_Ok, Forall2_fmap_r, Forall_Forall2_diag, Forall_forall. intros o Ho.
  apply (replace_task_Ok (s_plan s)); try done. by apply parts_positive.
Qed.

Lemma replace_task_built ps o l : replace_task task ps o = Ok l → Forall ftask_ok l.
Proof.
  unfold replace_task. case_bool_decide.
  - intros Hm%mapM_res_Ok. induction Hm as [|i t is_ l Ht _ IH]; constructor; [|done]. by apply FactoryTask_init_Ok in Ht as (_ & _ & _ & _ & _ & ?).
  - intros Hm. apply bind_Ok in Hm as (t & Ht & [= <-]). constructor; [|done]. by apply FactoryTask_init_Ok in Ht as (_ & _ & _ & _ & _ & ?).
Qed.

Lemma chunks_built ps os tss : mapM (replace_task task ps) os = Ok tss → Forall ftask_ok (mjoin tss).
Proof.
  intros H%mapM_res_Ok. apply Forall_forall. intros t (l & Ht & Hl)%list_elem_of_join. apply list_elem_of_lookup in Hl as [k Hk].
  destruct (Forall2_lookup_r _ _ _ _ _ H Hk) as (o & _ & Ho). by apply (proj1 (Forall_forall _ _) (replace_task_built _ _ _ Ho)).
Qed.

(** Conversely, a replacement that passes the constructors has valid and fresh
    part identifiers. *)
Lemma chunks_parts_ok tss q :
  mapM (replace_task task (parts task n)) (ep_tasks (s_plan s)) = Ok tss →
  ExecutionPlan_init (JStr (ep_intent (s_plan s))) (ep_requirements (s_plan s)) (mjoin tss) (JStr (str "factory-plan-v1")) = Ok q →
  parts_ok (s_plan s) task n.
Proof using Hplan Hpolicy Htask.
  intros Hm Hq p Hp. apply ExecutionPlan_init_Ok in Hq as (_ & _ & Eq & _ & Hok); [|apply Hplan|by eapply chunks_built].
  apply mapM_res_Ok in Hm.
  pose proof (pok_task_ids _ Hok) as Hnd. rewrite <- Eq in Hnd.
  pose proof Htask as [k Hk]%list_elem_of_lookup. destruct (Forall2_lookup_l _ _ _ _ _ Hm Hk) as (l & Hl & El).
  unfold replace_task in El. rewrite bool_decide_true in El by done. apply mapM_res_Ok in El. unfold parts in El at 2. rewrite length_fmap in El.
  rewrite length_indices in El by (pose proof parts_positive; lia). unfold parts in Hp. apply list_elem_of_fmap in Hp as (i & -> & Hi).
  apply list_elem_of_lookup in Hi as [j Hj]. destruct (Forall2_lookup_l _ _ _ _ _ El Hj) as (t & Ht & Et).
  unfold part_task in Et. apply FactoryTask_init_Ok in Et as ([= Eid] & _ & _ & _ & _ & Hft). split; [rewrite Eid; apply Hft|].
  intros Hin. apply list_elem_of_fmap in Hin as (o & Eo & Ho). apply list_elem_of_lookup in Ho as [k' Hk'].
  destruct (Forall2_lookup_l _ _ _ _ _ Hm Hk') as (l' & Hl' & El'). unfold replace_task in El'.
  rewrite bool_decide_false in El'.
  2:{ intros E. pose proof (part_id_longer (ft_id task) i). rewrite Eo, E in *. lia. }
  apply bind_Ok in El' as (t' & Et' & [= <-]). apply FactoryTask_init_Ok in Et' as ([= Eid'] & _).
  assert (k = k') as ->; [|].
  { eapply (chunks_disjoint ft_id tss k k' l [t'] t t'); [done|done|done|by eapply list_elem_of_lookup_2|left|congruence]. }
  assert (o = task) as -> by congruence. pose proof (part_id_longer (ft_id task) i). rewrite Eo in *. lia.
Qed.

Definition proposal (downstream : list pystr) (failures : Z) (h : pystr) : StructuralReplanProposal :=
  mkProposal (ft_id task) downstream failures (parts task n) h (new_plan (s_plan s) task n)
    (str "task blocks " ++ str_of_Z (Z.of_nat (length downstream)) ++ str " downstream tasks and has failed " ++
     str_of_Z failures ++ str " times; decompose into " ++ str_of_Z (Z.of_nat (length (parts task n))) ++ str " subtasks").

Lemma propose_spec ds f p :
  propose s task ds f = Ok p ↔ parts_ok (s_plan s) task n ∧ ∃ h, graph_hash (s_plan s) = Ok h ∧ p = proposal ds f h.
Proof using Hplan Hpolicy Htask.
  unfold propose. fold (parts task n). split.
  - intros H. apply bind_Ok in H as (tss & Hm & H). apply bind_Ok in H as (q & Hq & H). apply bind_Ok in H as (h & Hh & [= <-]).
    pose proof (chunks_parts_ok tss q Hm Hq) as Hp. split; [done|]. exists h. split; [done|].
    pose proof (chunks_built _ _ _ Hm) as Hb. rewrite (replaced_chunks Hp) in Hm. injection Hm as <-. apply ExecutionPlan_init_Ok in Hq as (E1 & E2 & E3 & E4 & _); [|apply Hplan|done].
    unfold proposal. f_equal. destruct q as [i r t v]. cbn in *. injection E1 as <-. subst. done.
  - intros (Hp & h & Hh & ->). rewrite (replaced_chunks Hp). cbn [mbind res_bind].
    assert (plan_ok (new_plan (s_plan s) task n)) as Hnew by (apply new_plan_ok; try done; by apply parts_positive).
    rewrite (proj2 (ExecutionPlan_init_Ok _ _ _ _ (new_plan (s_plan s) task n) (pok_req_ok _ Hplan) (pok_task_ok _ Hnew))); [|done].
    cbn [mbind res_bind]. by rewrite Hh.
Qed.
End propose.

(** ** The theorem *)
Lemma sorted_task_ids l : sorted_by task_leb l → sorted_by str_leb (ft_id <$> l).
Proof. induction 1 as [|t l _ IH H]; constructor; [done|]. by apply Forall_fmap. Qed.

Section replan.
Context (s : Scheduler) (set_iter : gset pystr → list pystr).
Abbreviation G := (task_graph (ep_tasks (s_plan s))).
Abbreviation ids := (ft_id <$> ep_tasks (s_plan s)).
Abbreviation n := (sp_structural_parts (s_policy s)).

Definition failures_of (counts : dict Z) (u : pystr) : Z := default 0%Z (dget u counts).

(** A structural bottleneck: enough tasks depend on [u] and it failed often
    enough. *)
Definition bottleneck (counts : dict Z) (u : pystr) : Prop :=
  (sp_structural_failure_threshold (s_policy s) ≤ failures_of counts u)%Z ∧
  ∃ l, NoDup l ∧ (∀ x, x ∈ l ↔ tc (gdep G) x u) ∧ (sp_structural_downstream_threshold (s_policy s) ≤ Z.of_nat (length l))%Z.

Record replan_ok (counts : dict Z) (p : StructuralReplanProposal) : Prop := {
  ro_bottleneck : rp_blocking_task_id p ∈ ids ∧ bottleneck counts (rp_blocking_task_id p);
  ro_downstream : ∀ x, x ∈ rp_downstream_tasks p ↔ tc (gdep G) x (rp_blocking_task_id p);
  ro_source : graph_hash (s_plan s) = Ok (rp_source_plan_hash p);
  ro_failures : rp_failure_count p = failures_of counts (rp_blocking_task_id p);
  ro_parts : NoDup (rp_replacement_task_ids p) ∧ Z.of_nat (length (rp_replacement_task_ids p)) = n ∧
             ∀ q, q ∈ rp_replacement_task_ids p → q ∉ ids;
  ro_plan : plan_ok (rp_replacement_plan p);
  ro_same : ep_intent (rp_replacement_plan p) = ep_intent (s_plan s) ∧ ep_requirements (rp_replacement_plan p) = ep_requirements (s_plan s);
  ro_deps : let reps u := if bool_decide (u = rp_blocking_task_id p) then rp_replacement_task_ids p else [u] in
    (ft_id <$> ep_tasks (rp_replacement_plan p)) = mjoin (reps <$> ids) ∧
    ∀ x y, gdep (task_graph (ep_tasks (rp_replacement_plan p))) x y ↔ ∃ u v, gdep G u v ∧ x ∈ reps u ∧ y ∈ reps v
}.

Context (Hplan : plan_ok (s_plan s)) (Hpolicy : policy_ok (s_policy s)) (Hiter : ∀ S : gset pystr, set_iter S ≡ₚ elements S).

Lemma propose_replan_ok counts task ds p :
  task ∈ ep_tasks (s_plan s) → _downstream s set_iter (ft_id task) = Ok ds →
  (sp_structural_downstream_threshold (s_policy s) ≤ Z.of_nat (length ds))%Z →
  (sp_structural_failure_threshold (s_policy s) ≤ failures_of counts (ft_id task))%Z →
  propose s task ds (failures_of counts (ft_id task)) = Ok p → rp_blocking_task_id p = ft_id task ∧ replan_ok counts p.
Proof using Hplan Hpolicy Hiter.
  intros Ht Hds Hl Hf H. apply (propose_spec s Hplan Hpolicy task Ht) in H as (Hp & h & Hh & ->). split; [done|].
  assert (ft_id task ∈ ids) as Hin by (by apply list_elem_of_fmap_2).
  destruct (downstream_spec s set_iter Hplan Hiter (ft_id task) Hin) as (l & El & Hnd & _ & Hx). assert (l = ds) as -> by congruence.
  pose proof (parts_positive s Hpolicy) as Hn. constructor; cbn [proposal rp_blocking_task_id rp_downstream_tasks rp_source_plan_hash rp_failure_count
    rp_replacement_task_ids rp_replacement_plan].
  - split; [done|]. split; [done|]. by exists ds.
  - done.
  - done.
  - done.
  - split_and!; [apply parts_NoDup|unfold parts; rewrite length_fmap; apply length_indices; lia|]. intros q Hq. by apply Hp.
  - by apply new_plan_ok.
  - done.
  - split; [apply new_ids|]. intros x y. by apply new_gdep.
Qed.

Lemma replan_loop_spec counts tasks log ps log' :
  (∀ t, t ∈ tasks → t ∈ ep_tasks (s_plan s)) → replan_loop s set_iter counts tasks log = (Ok ps, log') →
  Forall (replan_ok counts) ps ∧ sublist (rp_blocking_task_id <$> ps) (ft_id <$> tasks) ∧
  ∀ t, t ∈ tasks → bottleneck counts (ft_id t) → ft_id t ∈ rp_blocking_task_id <$> ps.
Proof using Hplan Hpolicy Hiter.
  revert log ps. induction tasks as [|t tasks IH]; intros log ps Hin H; cbn [replan_loop] in H.
  { injection H as <- <-. split_and!; [done|done|]. by intros t ?%not_elem_of_nil. }
  assert (t ∈ ep_tasks (s_plan s)) as Ht by (apply Hin; left).
  apply sm_bind_Ok in H as (ds & log1 & [Hds ->]%sm_lift_Ok & H). cbv zeta in H. fold (failures_of counts (ft_id t)) in H.
  destruct (downstream_spec s set_iter Hplan Hiter (ft_id t)) as (l & El & Hnd & _ & Hx); [by apply list_elem_of_fmap_2|].
  assert (l = ds) as -> by congruence. destruct (_ || _) eqn:Eq.
  - destruct (IH log ps) as (H1 & H2 & H3); [intros x Hx'; apply Hin; by right|done|]. split_and!; [done|by apply sublist_cons|].
    intros x [->|Hx']%elem_of_cons; [|by apply H3]. intros [Hf (l' & Hnd' & Hl' & Hlen)]. exfalso.
    assert (length l' = length ds) as E. { apply Permutation_length, NoDup_Permutation; [done..|]. intros y. by rewrite Hl', Hx. }
    apply orb_true_iff in Eq as [Eq|Eq]; apply Z.ltb_lt in Eq; lia.
  - apply orb_false_iff in Eq as [E1%Z.ltb_ge E2%Z.ltb_ge].
    apply sm_bind_Ok in H as (p & log2 & [Hp ->]%sm_lift_Ok & H). apply sm_bind_Ok in H as (data & log3 & [_ ->]%sm_lift_Ok & H).
    apply sm_bind_Ok in H as ([] & log4 & _ & H). apply sm_bind_Ok in H as (ps' & log5 & Hr & [= <- <-]).
    destruct (propose_replan_ok counts t ds p Ht Hds E1 E2 Hp) as [Eb Hok].
    destruct (IH log4 ps') as (H1 & H2 & H3); [intros x Hx'; apply Hin; by right|done|].
    split_and!; [by constructor|rewrite !fmap_cons, Eb; by apply sublist_skip|].
    intros x [->|Hx']%elem_of_cons Hb; rewrite fmap_cons; [rewrite Eb; left|right; by apply H3].
Qed.

(** What a proposal for [task] needs: part identifiers that are valid and
    unused, and plans whose texts can be hashed. *)
Definition replaceable (task : FactoryTask) : Prop :=
  parts_ok (s_plan s) task n ∧ is_ok (graph_hash (s_plan s)) = true ∧ is_ok (graph_hash (new_plan (s_plan s) task n)) = true.

Lemma bind_mret_ok {S A B} (m : SM S A) (f : A → B) (st : S) : is_ok (m st).1 = true → is_ok ((a ← m; mret (f a)) st).1 = true.
Proof. cbv [mbind SM_bind]. by destruct (m st) as [[] ?]. Qed.

Lemma sched_emit_then {A} event data (k : SM (list json) A) log :
  (_ ← sched_emit s event data; k) log = k (sched_emit s event data log).2.
Proof. unfold sched_emit. by destruct (s_observing s). Qed.

Lemma replan_loop_returns counts tasks log :
  (∀ t, t ∈ tasks → t ∈ ep_tasks (s_plan s)) → (∀ t, t ∈ tasks → bottleneck counts (ft_id t) → replaceable t) →
  is_ok (replan_loop s set_iter counts tasks log).1 = true.
Proof using Hplan Hpolicy Hiter.
  revert log. induction tasks as [|t tasks IH]; intros log Hin Hr; [done|]. cbn [replan_loop].
  assert (t ∈ ep_tasks (s_plan s)) as Ht by (apply Hin; left).
  assert (∀ log, is_ok (replan_loop s set_iter counts tasks log).1 = true) as IH'.
  { intros log'. apply IH; intros x Hx; [apply Hin|apply Hr]; by right. }
  destruct (downstream_spec s set_iter Hplan Hiter (ft_id t)) as (ds & El & Hnd & _ & Hx); [by apply list_elem_of_fmap_2|].
  rewrite sm_lift_bind, El. cbv zeta. fold (failures_of counts (ft_id t)). destruct (_ || _) eqn:Eq; [apply IH'|].
  apply orb_false_iff in Eq as [E1%Z.ltb_ge E2%Z.ltb_ge].
  destruct (Hr t) as (Hp & Hh & Hh'); [left|split; [done|by exists ds]|].
  destruct (graph_hash (s_plan s)) as [h|] eqn:Eh; [|done]. destruct (graph_hash (new_plan (s_plan s) t n)) as [h'|] eqn:Eh'; [|done].
  rewrite sm_lift_bind, (proj2 (propose_spec s Hplan Hpolicy t Ht ds _ (proposal s t ds (failures_of counts (ft_id t)) h))); [|eauto].
  rewrite sm_lift_bind. unfold proposal_dict. cbn [proposal rp_replacement_plan]. rewrite Eh'. cbn [mbind res_bind].
  rewrite sched_emit_then. apply bind_mret_ok, IH'.
Qed.

(** C29: Structural replanning proposes exactly the bottlenecks, and each
    proposal is a valid plan.  When a replan returns, the proposals name, in
    identifier order and without repetition, the planned tasks on which enough
    tasks depend through chains and which failed often enough.  Each lists
    exactly those dependents and carries a replacement that is a well-formed
    acyclic plan with the same intent and requirements, in which new parts stand
    for the task in every dependency and nothing else changes; the approved plan
    is untouched.  A proposal can be built exactly when the part identifiers are
    valid and unused, and a replan with valid counts returns when this holds of
    every bottleneck and the plans can be hashed.  Only the order of Python's
    set iteration is assumed to be some order of the elements. *)
Theorem structural_replan_sound counts :
  (∀ log ps log', structural_replan s set_iter counts log = (Ok ps, log') →
   Forall (replan_ok counts) ps ∧ NoDup (rp_blocking_task_id <$> ps) ∧ sublist (rp_blocking_task_id <$> ps) (sort_str ids) ∧
   ∀ u, u ∈ rp_blocking_task_id <$> ps ↔ u ∈ ids ∧ bottleneck counts u) ∧
  (∀ task ds f, task ∈ ep_tasks (s_plan s) →
   is_ok (propose s task ds f) = true ↔ parts_ok (s_plan s) task n ∧ is_ok (graph_hash (s_plan s)) = true) ∧
  (∀ log, (∀ u f, (u, f) ∈ counts → u ∈ ids ∧ (0 ≤ f)%Z) →
   (∀ task, task ∈ ep_tasks (s_plan s) → bottleneck counts (ft_id task) → replaceable task) →
   is_ok (structural_replan s set_iter counts log).1 = true).
Proof using Hplan Hpolicy Hiter.
  assert (ft_id <$> sort_by task_leb (ep_tasks (s_plan s)) = sort_str ids) as Es.
  { apply (sorted_by_unique str_leb); [intros x y _ _; apply str_leb_antisym| |apply sort_str_sorted|by rewrite !sort_by_perm].
    apply sorted_task_ids, sort_by_is_sorted; [apply task_leb_total|apply task_leb_trans]. }
  split_and!.
  - intros log ps log' H. unfold structural_replan in H. apply sm_bind_Ok in H as ([] & log1 & [_ ->]%sm_lift_Ok & H).
    apply replan_loop_spec in H as (H1 & H2 & H3); [|intros t Ht; by rewrite sort_by_perm in Ht]. rewrite Es in H2. split_and!; [done| |done|].
    + eapply sublist_NoDup; [|exact H2]. rewrite sort_by_perm. apply Hplan.
    + intros u. split.
      * intros (p & -> & Hp)%list_elem_of_fmap. apply (proj1 (Forall_forall _ _) H1) in Hp. apply Hp.
      * intros [Hu Hb]. apply list_elem_of_fmap in Hu as (t & -> & Ht). apply H3; [by rewrite sort_by_perm|done].
  - intros task ds f Ht. pose proof (propose_spec s Hplan Hpolicy task Ht ds f) as Hs. split.
    + intros H. destruct (propose s task ds f) as [p|]; [|done]. destruct (proj1 (Hs p) eq_refl) as (Hp & h & Hh & _). split; [done|]. by rewrite Hh.
    + intros [Hp H]. destruct (graph_hash (s_plan s)) as [h|] eqn:Hh; [|done]. by rewrite (proj2 (Hs (proposal s task ds f h))); [|eauto].
  - intros log Hc Hb. unfold structural_replan. rewrite sm_lift_bind, (proj2 (for_all_Ok _ _)).
    2:{ apply Forall_forall. intros [u f] Hu. destruct (Hc u f Hu) as [Hu' Hf]. cbn [fst snd].
        change (sched_tasks s) with (tasks (s_plan s)). rewrite (proj2 (tasks_mem (s_plan s) Hplan u) Hu'). by rewrite (proj2 (Z.ltb_ge f 0) Hf). }
    apply replan_loop_returns; intros t Ht; rewrite sort_by_perm in Ht; [done|by apply Hb].
Qed.
End replan.

(** ** A witness *)
Definition demo_replan_policy : SchedulerPolicy := mkPolicy (NFloat (float_of_Z 2)) 4 2 1 1 1 3 2.
Definition demo_replan : Scheduler := mkScheduler demo_plan demo_market [] demo_replan_policy true.

Lemma structural_replan_sound_witness :
  ∃ ps log, structural_replan demo_replan elements [(str "task.a", 3%Z)] [] = (Ok ps, log) ∧
  (rp_blocking_task_id <$> ps) = [str "task.a"] ∧ Forall (replan_ok demo_replan [(str "task.a", 3%Z)]) ps.
Proof.
  destruct (structural_replan demo_replan elements [(str "task.a", 3%Z)] []) as [[ps|e] log] eqn:E; [|vm_compute in E; discriminate E].
  exists ps, log. split; [reflexivity|]. split; [vm_compute in E; injection E as <- _; vm_compute; reflexivity|].
  refine (proj1 (proj1 (structural_replan_sound demo_replan elements _ _ _ [(str "task.a", 3%Z)]) [] ps log E)).
  - exact demo_plan_ok.
  - vm_compute. reflexivity.
  - intros S. reflexivity.
Defined.
