(* ===== verification/AesGcm.v ===== *)
(** * AES and GCM (residual/crypto/_aesgcm_fallback.py)

    Octet strings are lists of numbers below 256; a Python [bytes] object never
    holds anything else, which [octets] states. *)

From Stdlib Require Import ZArith NArith Lia.
From S2P Require Import Prelude PyData Sha256.

#[local] Open Scope N_scope.

Definition octet (x : N) : Prop := x < 256.
Definition octets (l : list N) : Prop := Forall octet l.

(** [int.from_bytes(l, 'big')] and [x.to_bytes(n, 'big')] *)
Definition from_be (l : list N) : N := foldl (λ acc b, acc * 256 + b) 0 l.
Definition to_bytes (n : nat) (x : N) : res (list N) :=
  when 256 ^ N.of_nat n <=? x raise OtherError "OverflowError: int too big to convert";;
  Ok (be_octets n x).

(** [[data[off:off + 16] for off in range(0, len(data), 16)]] *)
Fixpoint chunks_of (fuel : nat) (data : list N) : list (list N) :=
  match fuel, data with
  | S fuel, _ :: _ => take 16 data :: chunks_of fuel (drop 16 data)
  | _, _ => []
  end.
Definition chunks16 (data : list N) : list (list N) := chunks_of (length data) data.

(** ** AES *)
Definition SBOX : list N :=
  [0x63; 0x7c; 0x77; 0x7b; 0xf2; 0x6b; 0x6f; 0xc5; 0x30; 0x01; 0x67; 0x2b; 0xfe; 0xd7; 0xab; 0x76;
   0xca; 0x82; 0xc9; 0x7d; 0xfa; 0x59; 0x47; 0xf0; 0xad; 0xd4; 0xa2; 0xaf; 0x9c; 0xa4; 0x72; 0xc0;
   0xb7; 0xfd; 0x93; 0x26; 0x36; 0x3f; 0xf7; 0xcc; 0x34; 0xa5; 0xe5; 0xf1; 0x71; 0xd8; 0x31; 0x15;
   0x04; 0xc7; 0x23; 0xc3; 0x18; 0x96; 0x05; 0x9a; 0x07; 0x12; 0x80; 0xe2; 0xeb; 0x27; 0xb2; 0x75;
   0x09; 0x83; 0x2c; 0x1a; 0x1b; 0x6e; 0x5a; 0xa0; 0x52; 0x3b; 0xd6; 0xb3; 0x29; 0xe3; 0x2f; 0x84;
   0x53; 0xd1; 0x00; 0xed; 0x20; 0xfc; 0xb1; 0x5b; 0x6a; 0xcb; 0xbe; 0x39; 0x4a; 0x4c; 0x58; 0xcf;
   0xd0; 0xef; 0xaa; 0xfb; 0x43; 0x4d; 0x33; 0x85; 0x45; 0xf9; 0x02; 0x7f; 0x50; 0x3c; 0x9f; 0xa8;
   0x51; 0xa3; 0x40; 0x8f; 0x92; 0x9d; 0x38; 0xf5; 0xbc; 0xb6; 0xda; 0x21; 0x10; 0xff; 0xf3; 0xd2;
   0xcd; 0x0c; 0x13; 0xec; 0x5f; 0x97; 0x44; 0x17; 0xc4; 0xa7; 0x7e; 0x3d; 0x64; 0x5d; 0x19; 0x73;
   0x60; 0x81; 0x4f; 0xdc; 0x22; 0x2a; 0x90; 0x88; 0x46; 0xee; 0xb8; 0x14; 0xde; 0x5e; 0x0b; 0xdb;
   0xe0; 0x32; 0x3a; 0x0a; 0x49; 0x06; 0x24; 0x5c; 0xc2; 0xd3; 0xac; 0x62; 0x91; 0x95; 0xe4; 0x79;
   0xe7; 0xc8; 0x37; 0x6d; 0x8d; 0xd5; 0x4e; 0xa9; 0x6c; 0x56; 0xf4; 0xea; 0x65; 0x7a; 0xae; 0x08;
   0xba; 0x78; 0x25; 0x2e; 0x1c; 0xa6; 0xb4; 0xc6; 0xe8; 0xdd; 0x74; 0x1f; 0x4b; 0xbd; 0x8b; 0x8a;
   0x70; 0x3e; 0xb5; 0x66; 0x48; 0x03; 0xf6; 0x0e; 0x61; 0x35; 0x57; 0xb9; 0x86; 0xc1; 0x1d; 0x9e;
   0xe1; 0xf8; 0x98; 0x11; 0x69; 0xd9; 0x8e; 0x94; 0x9b; 0x1e; 0x87; 0xe9; 0xce; 0x55; 0x28; 0xdf;
   0x8c; 0xa1; 0x89; 0x0d; 0xbf; 0xe6; 0x42; 0x68; 0x41; 0x99; 0x2d; 0x0f; 0xb0; 0x54; 0xbb; 0x16].
Definition RCON : list N := [0x01; 0x02; 0x04; 0x08; 0x10; 0x20; 0x40; 0x80; 0x1b; 0x36].

Definition sbox (b : N) : N := nth (N.to_nat b) SBOX 0.

Definition _xtime (a : N) : N :=
  let a := N.shiftl a 1 in
  let a := if N.testbit a 8 then N.lxor a 0x11b else a in
  N.land a 255.

(** [while b]: one round per binary digit of [b]. *)
Fixpoint mul_loop (fuel : nat) (a b r : N) : N :=
  match fuel with
  | O => r
  | S fuel => if b =? 0 then r else mul_loop fuel (_xtime a) (N.shiftr b 1) (if N.testbit b 0 then N.lxor r a else r)
  end.
Definition _mul (a b : N) : N := mul_loop (N.size_nat b) a b 0.

(** The word that round [i] of the key schedule appends. *)
Definition next_word (nk i : nat) (w : list (list N)) : list N :=
  let temp := nth (i - 1) w [] in
  let temp :=
    if (i mod nk =? 0)%nat then
      [N.lxor (sbox (nth 1 temp 0)) (nth (i / nk - 1) RCON 0); sbox (nth 2 temp 0); sbox (nth 3 temp 0); sbox (nth 0 temp 0)]
    else if (6 <? nk)%nat && (i mod nk =? 4)%nat then sbox <$> temp
    else temp in
  (λ j, N.lxor (nth j (nth (i - nk) w []) 0) (nth j temp 0)) <$> seq 0 4.

Definition key_words (nk : nat) (key : list N) : list (list N) :=
  foldl (λ w i, w ++ [next_word nk i w]) ((λ i, take 4 (drop (4 * i) key)) <$> seq 0 nk) (seq nk (4 * (nk + 6 + 1) - nk)).

Definition _expand_key (key : list N) : res (list (list N)) :=
  let nk := (length key / 4)%nat in
  when negb (bool_decide (nk ∈ [4; 6; 8]%nat)) raise ContractError "AES key must be 16, 24, or 32 bytes";;
  let w := key_words nk key in
  Ok ((λ r, mjoin (take 4 (drop (4 * r) w))) <$> seq 0 (nk + 6 + 1)).

Definition _add_round_key (state rk : list N) : list N := zip_with N.lxor state rk.
Definition _sub_bytes (state : list N) : list N := sbox <$> state.

Definition shift_row (state : list N) (row : nat) : list N :=
  let vals := (λ c, nth (row + 4 * c) state 0) <$> seq 0 4 in
  foldl (λ st c, <[(row + 4 * c)%nat := nth ((c + row) mod 4) vals 0]> st) state (seq 0 4).
Definition _shift_rows (state : list N) : list N := foldl shift_row state [1; 2; 3]%nat.

Definition mix_column (state : list N) (c : nat) : list N :=
  let col i := nth (4 * c + i) state 0 in
  let state' := <[(4 * c)%nat := N.lxor (N.lxor (N.lxor (_mul (col 0%nat) 2) (_mul (col 1%nat) 3)) (col 2%nat)) (col 3%nat)]> state in
  let state' := <[(4 * c + 1)%nat := N.lxor (N.lxor (N.lxor (col 0%nat) (_mul (col 1%nat) 2)) (_mul (col 2%nat) 3)) (col 3%nat)]> state' in
  let state' := <[(4 * c + 2)%nat := N.lxor (N.lxor (N.lxor (col 0%nat) (col 1%nat)) (_mul (col 2%nat) 2)) (_mul (col 3%nat) 3)]> state' in
  <[(4 * c + 3)%nat := N.lxor (N.lxor (N.lxor (_mul (col 0%nat) 3) (col 1%nat)) (col 2%nat)) (_mul (col 3%nat) 2)]> state'.
Definition _mix_columns (state : list N) : list N := foldl mix_column state (seq 0 4).

Definition aes_round (state rk : list N) : list N := _add_round_key (_mix_columns (_shift_rows (_sub_bytes state))) rk.

Definition _aes_encrypt_block (round_keys : list (list N)) (block : list N) : res (list N) :=
  when negb (length block =? 16)%nat raise ContractError "AES block must be 16 bytes";;
  let state := _add_round_key block (nth 0 round_keys []) in
  let state := foldl aes_round state (take (length round_keys - 2) (drop 1 round_keys)) in
  Ok (_add_round_key (_shift_rows (_sub_bytes state)) (default [] (last round_keys))).

(** ** GCM *)
(** One bit of the product: [z] and [v] after bit [127 - i] of [y]. *)
Definition gf128_step (y : N) (zv : N * N) (i : nat) : N * N :=
  let '(z, v) := zv in
  (if N.testbit y (127 - N.of_nat i) then N.lxor z v else z,
   N.lxor (N.shiftr v 1) (if N.testbit v 0 then 0xE1000000000000000000000000000000 else 0)).
Definition _gf128_mul (x y : N) : N := (foldl (gf128_step y) (0, x) (seq 0 128)).1.

Definition pad16 (block : list N) : list N := block ++ replicate (16 - length block) 0.
Definition _ghash (h : N) (data : list N) : N :=
  foldl (λ y block, _gf128_mul (N.lxor y (from_be (pad16 block))) h) 0 (chunks16 data).

Definition _inc32 (counter : list N) : res (list N) :=
  low ← to_bytes 4 (N.land (from_be (drop 12 counter) + 1) 0xFFFFFFFF);
  Ok (take 12 counter ++ low).

Fixpoint gctr_loop (round_keys : list (list N)) (cb : list N) (blocks : list (list N)) : res (list N) :=
  match blocks with
  | [] => Ok []
  | block :: blocks =>
      ks ← _aes_encrypt_block round_keys cb;
      cb ← _inc32 cb;
      out ← gctr_loop round_keys cb blocks;
      Ok (zip_with N.lxor block ks ++ out)
  end.
Definition _gctr (round_keys : list (list N)) (icb data : list N) : res (list N) := gctr_loop round_keys icb (chunks16 data).

(** The zeros that fill the last block of [data]. *)
Definition zeros_to16 (data : list N) : list N := replicate ((16 - length data mod 16) mod 16) 0.
Definition bit_length (data : list N) : res (list N) := to_bytes 8 (N.of_nat (length data) * 8).

Definition _j0 (round_keys : list (list N)) (nonce : list N) : res (list N) :=
  if (length nonce =? 12)%nat then Ok (nonce ++ [0; 0; 0; 1])
  else
    h ← _aes_encrypt_block round_keys (replicate 16 0);
    bitlen ← bit_length nonce;
    to_bytes 16 (_ghash (from_be h) (nonce ++ zeros_to16 nonce ++ replicate 8 0 ++ bitlen)).

(** The tag of [aad] and [ciphertext], computed by both directions. *)
Definition gcm_tag (rk : list (list N)) (j0 ciphertext aad : list N) : res (list N) :=
  h ← _aes_encrypt_block rk (replicate 16 0);
  la ← bit_length aad;
  lc ← bit_length ciphertext;
  let s := _ghash (from_be h) (aad ++ zeros_to16 aad ++ ciphertext ++ zeros_to16 ciphertext ++ la ++ lc) in
  e ← _aes_encrypt_block rk j0;
  to_bytes 16 (N.lxor s (from_be e)).

Definition fallback_aesgcm_encrypt (key nonce plaintext aad : list N) : res (list N) :=
  rk ← _expand_key key;
  j0 ← _j0 rk nonce;
  icb ← _inc32 j0;
  ciphertext ← _gctr rk icb plaintext;
  tag ← gcm_tag rk j0 ciphertext aad;
  Ok (ciphertext ++ tag).

Definition fallback_aesgcm_decrypt (key nonce ciphertext_and_tag aad : list N) : res (list N) :=
  when (length ciphertext_and_tag <? 16)%nat raise ContractError "ciphertext too short for GCM tag";;
  let n := (length ciphertext_and_tag - 16)%nat in
  let ciphertext := take n ciphertext_and_tag in
  let tag := drop n ciphertext_and_tag in
  rk ← _expand_key key;
  j0 ← _j0 rk nonce;
  expected ← gcm_tag rk j0 ciphertext aad;
  when negb (bool_decide (expected = tag)) raise ContractError "AES-GCM authentication failed";;
  icb ← _inc32 j0;
  _gctr rk icb ciphertext.

(** ** Published vectors: FIPS-197 appendix C, and test cases of the GCM
    specification. *)
Definition up_to (n : nat) : list N := N.of_nat <$> seq 0 n.
Definition fips197_block : list N := (λ i, 17 * N.of_nat i) <$> seq 0 16.
Definition encrypt_with (key block : list N) : res (list N) := rk ← _expand_key key; _aes_encrypt_block rk block.

Example aes128_fips197 :
  encrypt_with (up_to 16) fips197_block = Ok [0x69; 0xc4; 0xe0; 0xd8; 0x6a; 0x7b; 0x04; 0x30; 0xd8; 0xcd; 0xb7; 0x80; 0x70; 0xb4; 0xc5; 0x5a].
Proof. vm_compute. reflexivity. Qed.
Example aes192_fips197 :
  encrypt_with (up_to 24) fips197_block = Ok [0xdd; 0xa9; 0x7c; 0xa4; 0x86; 0x4c; 0xdf; 0xe0; 0x6e; 0xaf; 0x70; 0xa0; 0xec; 0x0d; 0x71; 0x91].
Proof. vm_compute. reflexivity. Qed.
Example aes256_fips197 :
  encrypt_with (up_to 32) fips197_block = Ok [0x8e; 0xa2; 0xb7; 0xca; 0x51; 0x67; 0x45; 0xbf; 0xea; 0xfc; 0x49; 0x90; 0x4b; 0x49; 0x60; 0x89].
Proof. vm_compute. reflexivity. Qed.
Example gcm_case2 :
  fallback_aesgcm_encrypt (replicate 16 0) (replicate 12 0) (replicate 16 0) [] =
  Ok [0x03; 0x88; 0xda; 0xce; 0x60; 0xb6; 0xa3; 0x92; 0xf3; 0x28; 0xc2; 0xb9; 0x71; 0xb2; 0xfe; 0x78;
      0xab; 0x6e; 0x47; 0xd4; 0x2c; 0xec; 0x13; 0xbd; 0xf5; 0x3a; 0x67; 0xb2; 0x12; 0x57; 0xbd; 0xdf].
Proof. vm_compute. reflexivity. Qed.
