(* ===== verification/AesGcmTheorems.v ===== *)
(** * AES-GCM against its specification *)

From Stdlib Require Import ZArith NArith Lia.
From S2P Require Import Prelude PyData Sha256 AesGcm.

#[local] Open Scope N_scope.

(** ** Polynomials over the field of two elements

    A number stands for the polynomial whose coefficients are its binary digits;
    addition is [N.lxor].  The reference for the field multiplications of AES and
    GCM is the product [clmul] modulo an irreducible polynomial. *)

(** ** The product *)
Fixpoint pclmul (q : positive) (m : N) : N :=
  match q with
  | xH => m
  | xO q => N.double (pclmul q m)
  | xI q => N.lxor (N.double (pclmul q m)) m
  end.
Definition clmul (q m : N) : N := match q with N0 => 0 | Npos q => pclmul q m end.

Lemma clmul_double q m : clmul (N.double q) m = N.double (clmul q m).
Proof. by destruct q. Qed.
Lemma clmul_succ_double q m : clmul (N.succ_double q) m = N.lxor (N.double (clmul q m)) m.
Proof. destruct q; [|done]. cbn. by rewrite N.lxor_0_l. Qed.

Lemma double_testbit a i : N.testbit (N.double a) i = if i =? 0 then false else N.testbit a (N.pred i).
Proof.
  rewrite N.double_spec. destruct (N.eqb_spec i 0) as [->|Hi]; [apply N.testbit_even_0|].
  replace i with (N.succ (N.pred i)) at 1 by lia. apply N.testbit_even_succ. lia.
Qed.
Lemma double_lxor a b : N.double (N.lxor a b) = N.lxor (N.double a) (N.double b).
Proof. apply N.bits_inj. intros i. rewrite N.lxor_spec, !double_testbit. destruct (i =? 0); [done|]. apply N.lxor_spec. Qed.
Lemma double_inj_0 a : N.double a = 0 → a = 0.
Proof. rewrite N.double_spec. lia. Qed.

Lemma clmul_0_r q : clmul q 0 = 0.
Proof. destruct q as [|q]; [done|]. cbn. induction q as [q IH|q IH|]; cbn; rewrite ?IH; done. Qed.
Lemma clmul_lxor_r q a b : clmul q (N.lxor a b) = N.lxor (clmul q a) (clmul q b).
Proof.
  destruct q as [|q]; [done|]. cbn. induction q as [q IH|q IH|]; cbn; [|by rewrite IH, double_lxor|done]. rewrite IH, double_lxor.
  rewrite !N.lxor_assoc. f_equal. rewrite <- !N.lxor_assoc. f_equal. apply N.lxor_comm.
Qed.

(** The digits of a number by binary induction. *)
Lemma double_lxor_mixed a b : N.lxor (N.double a) (N.succ_double b) = N.succ_double (N.lxor a b).
Proof. by destruct a as [|a], b as [|b]; cbn; try done; destruct (Pos.lxor a b). Qed.
Lemma succ_double_lxor a b : N.lxor (N.succ_double a) (N.succ_double b) = N.double (N.lxor a b).
Proof. by destruct a as [|a], b as [|b]. Qed.

Lemma clmul_lxor_l a b m : clmul (N.lxor a b) m = N.lxor (clmul a m) (clmul b m).
Proof.
  revert b. induction a as [|a IH|a IH] using N.binary_ind; intros b.
  - by rewrite !N.lxor_0_l.
  - induction b as [|b _|b _] using N.binary_ind.
    + by rewrite !N.lxor_0_r.
    + by rewrite <- double_lxor, !clmul_double, IH, double_lxor.
    + rewrite double_lxor_mixed, clmul_double, !clmul_succ_double, IH, double_lxor. by rewrite N.lxor_assoc.
  - induction b as [|b _|b _] using N.binary_ind.
    + by rewrite !N.lxor_0_r.
    + rewrite (N.lxor_comm (N.succ_double a)), double_lxor_mixed, (N.lxor_comm b a), clmul_double, !clmul_succ_double, IH, double_lxor.
      rewrite !N.lxor_assoc. f_equal. apply N.lxor_comm.
    + rewrite succ_double_lxor, !clmul_succ_double, clmul_double, IH, double_lxor. rewrite !N.lxor_assoc. f_equal.
      rewrite (N.lxor_comm m), N.lxor_assoc, N.lxor_nilpotent. by rewrite N.lxor_0_r.
Qed.

Lemma clmul_double_r q m : clmul q (N.double m) = N.double (clmul q m).
Proof. destruct q as [|q]; [done|]. cbn. induction q as [q IH|q IH|]; cbn; [by rewrite IH, double_lxor|by rewrite IH|done]. Qed.

Lemma clmul_1_r q : clmul q 1 = q.
Proof. destruct q as [|q]; [done|]. cbn. induction q as [q IH|q IH|]; cbn; rewrite ?IH; done. Qed.

Lemma clmul_comm a b : clmul a b = clmul b a.
Proof.
  revert b. induction a as [|a IH|a IH] using N.binary_ind; intros b; [by rewrite clmul_0_r|..].
  - by rewrite clmul_double, clmul_double_r, IH.
  - rewrite clmul_succ_double, IH. replace (N.succ_double a) with (N.lxor (N.double a) 1).
    + by rewrite clmul_lxor_r, clmul_double_r, (N.lxor_comm _ (clmul b 1)), (N.lxor_comm _ b), (clmul_1_r b).
    + by destruct a.
Qed.

Lemma clmul_shiftl a n m : clmul (N.shiftl a n) m = N.shiftl (clmul a m) n.
Proof.
  induction n as [|n IH] using N.peano_ind; [by rewrite !N.shiftl_0_r|]. rewrite !N.shiftl_succ_r, clmul_double. by rewrite IH.
Qed.

(** ** Degrees *)
Lemma lxor_log2_l a b : N.log2 b < N.log2 a → N.log2 (N.lxor a b) = N.log2 a.
Proof.
  intros H. apply N.log2_bits_unique.
  - rewrite N.lxor_spec, N.bit_log2, N.bits_above_log2; [done|done|]. intros ->. cbn in H. lia.
  - intros i Hi. rewrite N.lxor_spec, !N.bits_above_log2; [done|lia|lia].
Qed.
Lemma clmul_log2 q m : q ≠ 0 → m ≠ 0 → clmul q m ≠ 0 ∧ N.log2 (clmul q m) = N.log2 q + N.log2 m.
Proof.
  intros Hq Hm. destruct q as [|q]; [done|]. clear Hq. cbn [clmul]. induction q as [q [IH1 IH2]|q [IH1 IH2]|]; cbn [pclmul].
  - assert (N.log2 (N.double (pclmul q m)) = N.succ (N.log2 (Npos q) + N.log2 m)) as Hd by (rewrite N.double_spec, N.log2_double by lia; lia).
    assert (N.log2 (Npos (xI q)) = N.succ (N.log2 (Npos q))) as El.
    { change (Npos (xI q)) with (N.succ_double (Npos q)). rewrite N.succ_double_spec. apply N.log2_succ_double. lia. }
    assert (N.log2 (N.lxor (N.double (pclmul q m)) m) = N.log2 (N.double (pclmul q m))) as Ex by (apply lxor_log2_l; lia).
    split; [|lia]. intros E. rewrite E in Ex. rewrite Hd in Ex. cbn in Ex. lia.
  - change (Npos (xO q)) with (N.double (Npos q)). rewrite !N.double_spec. rewrite !N.log2_double by lia. split; lia.
  - split; [done|]. cbn. lia.
Qed.

(** ** Congruence modulo a polynomial *)
Definition cong (m x y : N) : Prop := ∃ q, N.lxor x y = clmul q m.

Section cong.
Context (m : N).
#[export] Instance cong_refl : Reflexive (cong m).
Proof. intros x. exists 0. by rewrite N.lxor_nilpotent. Qed.
#[export] Instance cong_sym : Symmetric (cong m).
Proof. intros x y [q H]. exists q. by rewrite N.lxor_comm. Qed.
#[export] Instance cong_trans : Transitive (cong m).
Proof.
  intros x y z [q H] [r H']. exists (N.lxor q r). rewrite clmul_lxor_l, <- H, <- H', N.lxor_assoc. f_equal.
  by rewrite <- N.lxor_assoc, N.lxor_nilpotent, N.lxor_0_l.
Qed.
#[export] Instance cong_lxor : Proper (cong m ==> cong m ==> cong m) N.lxor.
Proof.
  intros x x' [q H] y y' [r H']. exists (N.lxor q r). rewrite clmul_lxor_l, <- H, <- H'. rewrite !N.lxor_assoc. f_equal. rewrite <- !N.lxor_assoc. f_equal. apply N.lxor_comm.
Qed.
#[export] Instance cong_double : Proper (cong m ==> cong m) N.double.
Proof. intros x x' [q H]. exists (N.double q). by rewrite clmul_double, <- H, double_lxor. Qed.
Lemma cong_clmul q : Proper (cong m ==> cong m) (clmul q).
Proof.
  intros x x' [r H]. exists (clmul q r). rewrite <- clmul_lxor_r, H. clear. induction q as [|q IH|q IH] using N.binary_ind; [done|..].
  - by rewrite !clmul_double, IH.
  - by rewrite !clmul_succ_double, IH, clmul_lxor_l, clmul_double.
Qed.

(** Representatives below the modulus are unique. *)
Lemma cong_unique x y : m ≠ 0 → cong m x y → x < 2 ^ N.log2 m → y < 2 ^ N.log2 m → x = y.
Proof.
  intros Hm [q H] Hx Hy. apply N.lxor_eq. destruct (N.eq_dec q 0) as [->|Hq]; [done|]. exfalso.
  destruct (clmul_log2 q m Hq Hm) as [H1 H2]. rewrite <- H in H1, H2.
  assert (N.log2 (N.lxor x y) < N.log2 m) as Hlt; [|lia].
  eapply N.le_lt_trans; [apply N.log2_lxor|]. destruct (N.eq_dec (N.log2 m) 0) as [E|E]; [rewrite E in *; assert (x = 0 ∧ y = 0) as [-> ->] by (cbn in *; lia); done|].
  apply N.max_lub_lt; (destruct (N.eq_dec x 0), (N.eq_dec y 0); subst; cbn; first [lia|apply N.log2_lt_pow2; lia]).
Qed.
End cong.

(** ** GCM: exact inversion, totality, and multiplication in the field *)

(** ** Shapes *)
Lemma length_be_octets n x : length (be_octets n x) = n.
Proof. unfold be_octets. by rewrite length_fmap, length_rev, length_seq. Qed.
Lemma to_bytes_length n x l : to_bytes n x = Ok l → length l = n.
Proof. unfold to_bytes. intros H. pass_guard H. injection H as <-. apply length_be_octets. Qed.

Lemma length_next_word nk i w : length (next_word nk i w) = 4%nat.
Proof. unfold next_word. by rewrite length_fmap, length_seq. Qed.

Lemma key_words_shape nk key :
  (4 * nk ≤ length key)%nat →
  Forall (λ x : list N, length x = 4%nat) (key_words nk key) ∧ length (key_words nk key) = (nk + (4 * (nk + 6 + 1) - nk))%nat.
Proof.
  intros Hk. unfold key_words. set (w0 := fmap _ _).
  assert (∀ js w, Forall (λ x : list N, length x = 4%nat) w →
    Forall (λ x : list N, length x = 4%nat) (foldl (λ w i, w ++ [next_word nk i w]) w js) ∧
    length (foldl (λ w i, w ++ [next_word nk i w]) w js) = (length w + length js)%nat) as Hf.
  { induction js as [|i js IH]; intros w Hw; cbn [foldl]; [split; [done|cbn; lia]|].
    destruct (IH (w ++ [next_word nk i w])) as [H1 H2].
    { apply Forall_app. split; [done|]. apply Forall_singleton, length_next_word. }
    split; [done|]. rewrite H2, length_app. cbn. lia. }
  destruct (Hf (seq nk (4 * (nk + 6 + 1) - nk)) w0) as [H1 H2].
  - unfold w0. apply Forall_fmap, Forall_forall. intros i Hi. apply elem_of_seq in Hi. unfold compose. rewrite length_take, length_drop. lia.
  - split; [done|]. rewrite H2, length_seq. unfold w0. by rewrite length_fmap, length_seq.
Qed.

Lemma mjoin_length4 (l : list (list N)) : Forall (λ x, length x = 4%nat) l → length (mjoin l) = (4 * length l)%nat.
Proof. induction 1 as [|x l Hx _ IH]; [done|]. change (mjoin (x :: l)) with (x ++ mjoin l). rewrite length_app, IH, Hx. cbn [length]. lia. Qed.

Definition round_keys_ok (rk : list (list N)) : Prop := Forall (λ x : list N, length x = 16%nat) rk ∧ (2 ≤ length rk)%nat.

Lemma expand_key_ok key rk : _expand_key key = Ok rk → round_keys_ok rk.
Proof.
  unfold _expand_key. intros H. set (nk := (length key / 4)%nat) in *.
  assert (4 * nk ≤ length key)%nat as Hk by (apply Nat.Div0.mul_div_le). clearbody nk.
  destruct (bool_decide _); [|done]. cbn [negb mbind res_bind] in H. injection H as <-.
  destruct (key_words_shape nk key Hk) as [H1 H2]. split.
  - apply Forall_fmap, Forall_forall. intros r Hr. apply elem_of_seq in Hr. unfold compose. rewrite mjoin_length4.
    + rewrite length_take, length_drop, H2. lia.
    + by apply Forall_take, Forall_drop.
  - rewrite length_fmap, length_seq. lia.
Qed.

Lemma add_round_key_length st rk : length st = 16%nat → length rk = 16%nat → length (_add_round_key st rk) = 16%nat.
Proof. intros H1 H2. unfold _add_round_key. rewrite length_zip_with. lia. Qed.
Lemma shift_row_length st row : length (shift_row st row) = length st.
Proof. unfold shift_row. cbn [seq foldl]. by rewrite !length_insert. Qed.
Lemma shift_rows_length st : length (_shift_rows st) = length st.
Proof. unfold _shift_rows. cbn [foldl]. by rewrite !shift_row_length. Qed.
Lemma mix_column_length st c : length (mix_column st c) = length st.
Proof. unfold mix_column. cbv zeta. by rewrite !length_insert. Qed.
Lemma mix_columns_length st : length (_mix_columns st) = length st.
Proof. unfold _mix_columns. cbn [seq foldl]. by rewrite !mix_column_length. Qed.
Lemma sub_bytes_length st : length (_sub_bytes st) = length st.
Proof. apply length_fmap. Qed.

Lemma aes_rounds_length st rks : length st = 16%nat → Forall (λ x : list N, length x = 16%nat) rks → length (foldl aes_round st rks) = 16%nat.
Proof.
  intros Hst Hr. revert st Hst. induction Hr as [|rk rks Hk _ IH]; intros st Hst; [exact Hst|]. cbn [foldl]. apply IH. unfold aes_round.
  apply add_round_key_length; [|done]. by rewrite mix_columns_length, shift_rows_length, sub_bytes_length.
Qed.

Lemma nth_Forall {A} (P : A → Prop) (l : list A) i d : Forall P l → P d → P (nth i l d).
Proof. intros Hl Hd. revert i. induction Hl; intros [|i]; cbn; auto. Qed.

Lemma round_keys_first rk : round_keys_ok rk → length (nth 0 rk []) = 16%nat.
Proof. intros [H1 H2]. destruct H1 as [|x l Hx]; [cbn in H2; lia|exact Hx]. Qed.
Lemma round_keys_last rk : round_keys_ok rk → length (default [] (last rk)) = 16%nat.
Proof.
  intros [H1 H2]. destruct (last rk) as [x|] eqn:E; [|apply last_None in E; subst; cbn in H2; lia].
  apply last_Some in E as [l ->]. apply Forall_app in H1 as [_ H1]. inversion H1; subst. assumption.
Qed.

Lemma aes_block_length rk block out : round_keys_ok rk → _aes_encrypt_block rk block = Ok out → length out = 16%nat.
Proof.
  intros Hrk H. unfold _aes_encrypt_block in H. destruct (length block =? 16)%nat eqn:E; [|done]. cbn [negb mbind res_bind] in H. injection H as <-.
  apply Nat.eqb_eq in E. apply add_round_key_length; [|by apply round_keys_last]. rewrite shift_rows_length, sub_bytes_length.
  apply aes_rounds_length; [|apply Forall_take, Forall_drop, Hrk]. apply add_round_key_length; [done|by apply round_keys_first].
Qed.

(** ** The counter mode is its own inverse *)
Lemma xor_twice (p k : list N) : (length p ≤ length k)%nat → zip_with N.lxor (zip_with N.lxor p k) k = p.
Proof.
  revert k. induction p as [|x p IH]; intros [|y k] H; cbn in *; [done|done|lia|]. f_equal; [|apply IH; lia].
  by rewrite N.lxor_assoc, N.lxor_nilpotent, N.lxor_0_r.
Qed.

Lemma chunks_of_app fuel x data : length x = 16%nat → chunks_of (S fuel) (x ++ data) = x :: chunks_of fuel data.
Proof. intros Hx. destruct x; [done|]. cbn [chunks_of app]. rewrite app_comm_cons. rewrite take_app_length', drop_app_length' by done. done. Qed.
Lemma chunks_of_fuel fuel fuel' data : (length data ≤ fuel)%nat → (length data ≤ fuel')%nat → chunks_of fuel data = chunks_of fuel' data.
Proof.
  revert fuel' data. induction fuel as [|fuel IH]; intros [|fuel'] [|x data] H H'; cbn in *; try done; try lia.
  f_equal. apply IH; rewrite length_drop; lia.
Qed.
Lemma chunks16_short x : x ≠ [] → (length x ≤ 16)%nat → chunks16 x = [x].
Proof.
  intros Hne Hx. unfold chunks16. destruct x as [|a x]; [done|]. cbn [length chunks_of]. rewrite take_ge, drop_ge by (cbn in *; lia).
  by destruct (length x).
Qed.
Lemma chunks16_full x data : length x = 16%nat → chunks16 (x ++ data) = x :: chunks16 data.
Proof.
  intros Hx. unfold chunks16. rewrite length_app, Hx. change (16 + length data)%nat with (S (15 + length data)).
  rewrite chunks_of_app by done. f_equal. apply chunks_of_fuel; lia.
Qed.

(** Induction over the blocks of a string. *)
Lemma blocks_ind (P : list N → Prop) :
  P [] → (∀ x, x ≠ [] → (length x ≤ 16)%nat → P x) → (∀ x data, length x = 16%nat → P data → P (x ++ data)) → ∀ data, P data.
Proof.
  intros H0 H1 H2 data. remember (length data) as n eqn:En. revert data En. induction (lt_wf n) as [n _ IH]. intros data ->.
  destruct (decide (length data ≤ 16)%nat) as [Hs|Hs]; [destruct data; [done|by apply H1]|].
  rewrite <- (take_drop 16 data). apply H2; [rewrite length_take; lia|]. apply (IH (length (drop 16 data))); [rewrite length_drop; lia|done].
Qed.

Lemma gctr_inverse rk cb p c : round_keys_ok rk → _gctr rk cb p = Ok c → length c = length p ∧ _gctr rk cb c = Ok p.
Proof.
  intros Hrk. unfold _gctr. revert cb c. induction p as [|x Hne Hx|x p Hx IH] using blocks_ind; intros cb c H.
  - by injection H as <-.
  - rewrite chunks16_short in H by done. cbn [gctr_loop] in H. apply bind_Ok in H as (ks & Hks & H). apply bind_Ok in H as (cb' & Hcb & H).
    cbn [mbind res_bind] in H. rewrite app_nil_r in H. injection H as <-. pose proof (aes_block_length _ _ _ Hrk Hks) as Hlk.
    assert (length (zip_with N.lxor x ks) = length x) as El by (rewrite length_zip_with; lia).
    split; [done|]. rewrite chunks16_short; [|intros E; rewrite E in El; by destruct x|lia]. cbn [gctr_loop]. rewrite Hks. cbn [mbind res_bind]. rewrite Hcb.
    cbn [mbind res_bind]. by rewrite app_nil_r, xor_twice by lia.
  - rewrite chunks16_full in H by done. cbn [gctr_loop] in H. apply bind_Ok in H as (ks & Hks & H). apply bind_Ok in H as (cb' & Hcb & H).
    apply bind_Ok in H as (out & Hout & H). injection H as <-. pose proof (aes_block_length _ _ _ Hrk Hks) as Hlk.
    destruct (IH _ _ Hout) as [El Hinv]. assert (length (zip_with N.lxor x ks) = 16%nat) as Ez by (rewrite length_zip_with; lia).
    split; [rewrite !length_app, El; lia|]. rewrite chunks16_full by done. cbn [gctr_loop]. rewrite Hks. cbn [mbind res_bind]. rewrite Hcb. cbn [mbind res_bind].
    rewrite Hinv. cbn [mbind res_bind]. by rewrite xor_twice by lia.
Qed.

Lemma gcm_tag_length rk j0 c aad t : gcm_tag rk j0 c aad = Ok t → length t = 16%nat.
Proof.
  unfold gcm_tag. intros H. apply bind_Ok in H as (? & _ & H). apply bind_Ok in H as (? & _ & H). apply bind_Ok in H as (? & _ & H).
  apply bind_Ok in H as (? & _ & H). by apply to_bytes_length in H.
Qed.

(** Decryption succeeds exactly on what encryption produced. *)
Lemma fallback_exact key nonce p b aad : fallback_aesgcm_decrypt key nonce b aad = Ok p ↔ fallback_aesgcm_encrypt key nonce p aad = Ok b.
Proof.
  unfold fallback_aesgcm_decrypt, fallback_aesgcm_encrypt. split; intros H.
  - destruct (length b <? 16)%nat eqn:El; [done|]. apply Nat.ltb_ge in El. cbn [mbind res_bind] in H.
    apply bind_Ok in H as (rk & Hrk & H). apply bind_Ok in H as (j0 & Hj & H). apply bind_Ok in H as (t & Ht & H).
    case_bool_decide as Et; [|done]. cbn [negb mbind res_bind] in H. apply bind_Ok in H as (icb & Hi & H).
    rewrite Hrk. cbn [mbind res_bind]. rewrite Hj. cbn [mbind res_bind]. rewrite Hi. cbn [mbind res_bind].
    destruct (gctr_inverse _ _ _ _ (expand_key_ok _ _ Hrk) H) as [_ ->]. cbn [mbind res_bind]. rewrite Ht. cbn [mbind res_bind]. by rewrite Et, take_drop.
  - apply bind_Ok in H as (rk & Hrk & H). apply bind_Ok in H as (j0 & Hj & H). apply bind_Ok in H as (icb & Hi & H).
    apply bind_Ok in H as (c & Hc & H). apply bind_Ok in H as (t & Ht & H). injection H as <-. pose proof (gcm_tag_length _ _ _ _ _ Ht) as Hlt.
    rewrite length_app, Hlt. destruct (_ <? 16)%nat eqn:El; [apply Nat.ltb_lt in El; lia|]. cbn [mbind res_bind]. rewrite Nat.add_sub.
    rewrite take_app_length, drop_app_length, Hrk. cbn [mbind res_bind]. rewrite Hj. cbn [mbind res_bind]. rewrite Ht. cbn [mbind res_bind].
    rewrite bool_decide_true by done. cbn [negb mbind res_bind]. rewrite Hi. cbn [mbind res_bind]. by apply (gctr_inverse _ _ _ _ (expand_key_ok _ _ Hrk)).
Qed.

(** ** Numbers of so many bits *)
Lemma small_iff a n : a < 2 ^ n ↔ ∀ i, n <= i → N.testbit a i = false.
Proof.
  split.
  - intros H i Hi. destruct (N.eq_dec a 0) as [->|Ha]; [apply N.bits_0|]. apply N.bits_above_log2.
    apply N.log2_lt_pow2; [lia|]. eapply N.lt_le_trans; [exact H|]. apply N.pow_le_mono_r; lia.
  - intros H. destruct (N.eq_dec a 0) as [->|Ha]; [apply N.neq_0_lt_0, N.pow_nonzero; lia|]. apply N.log2_lt_pow2; [lia|].
    destruct (N.lt_ge_cases (N.log2 a) n) as [|Hge]; [done|]. specialize (H _ Hge). by rewrite N.bit_log2 in H.
Qed.
Lemma lxor_small a b n : a < 2 ^ n → b < 2 ^ n → N.lxor a b < 2 ^ n.
Proof. rewrite !small_iff. intros Ha Hb i Hi. by rewrite N.lxor_spec, Ha, Hb. Qed.
Lemma shiftr_small a k n : a < 2 ^ n → N.shiftr a k < 2 ^ n.
Proof. rewrite !small_iff. intros Ha i Hi. rewrite N.shiftr_spec'. apply Ha. lia. Qed.
Lemma land_octet a : octet (N.land a 255).
Proof. unfold octet. change 256 with (2 ^ 8). apply small_iff. intros i Hi. rewrite N.land_spec, (proj1 (small_iff 255 8)); [by rewrite andb_false_r|done|done]. Qed.

Lemma lxor_octet a b : octet a → octet b → octet (N.lxor a b).
Proof. apply (lxor_small a b 8). Qed.
Lemma octets_nth l i : octets l → octet (nth i l 0).
Proof. intros H. by apply nth_Forall. Qed.
Lemma octets_zip_lxor a b : octets a → octets b → octets (zip_with N.lxor a b).
Proof.
  intros Ha. revert b. induction Ha as [|x a Hx _ IH]; intros b Hb; [constructor|]. destruct Hb as [|y b Hy Hb]; [constructor|].
  constructor; [|by apply IH]. by apply (lxor_small x y 8).
Qed.
Lemma be_octets_octets n x : octets (be_octets n x).
Proof. unfold be_octets, octets. apply Forall_fmap, Forall_forall. intros i _. apply land_octet. Qed.
Lemma octets_app a b : octets (a ++ b) ↔ octets a ∧ octets b.
Proof. apply Forall_app. Qed.
Lemma octets_zeros n : octets (replicate n 0).
Proof. by apply Forall_replicate. Qed.
Lemma octets_take n l : octets l → octets (take n l).
Proof. apply Forall_take. Qed.
Lemma octets_drop n l : octets l → octets (drop n l).
Proof. apply Forall_drop. Qed.

Lemma from_be_bound l : octets l → from_be l < 256 ^ N.of_nat (length l).
Proof.
  induction l as [|x l IH] using rev_ind; [done|]. intros [Hl Hx]%octets_app. inversion_clear Hx as [|? ? Hx1 _]. specialize (IH Hl).
  unfold from_be in *. rewrite foldl_app. cbn [foldl]. rewrite length_app. cbn [length]. rewrite Nat2N.inj_add, N.pow_add_r. change (256 ^ N.of_nat 1) with 256. unfold octet in Hx1. lia.
Qed.
Lemma from_be_16 l : octets l → (length l ≤ 16)%nat → from_be l < 2 ^ 128.
Proof.
  intros Hl Hn. eapply N.lt_le_trans; [by apply from_be_bound|]. change (2 ^ 128) with (256 ^ 16). apply N.pow_le_mono_r; lia.
Qed.

Lemma to_bytes_total n x : x < 256 ^ N.of_nat n → to_bytes n x = Ok (be_octets n x).
Proof. intros H. unfold to_bytes. destruct (_ <=? _) eqn:E; [apply N.leb_le in E; lia|done]. Qed.

(** ** The cipher works on octets *)
Lemma sbox_octet b : octet (sbox b).
Proof. unfold sbox. apply nth_Forall; [|done]. unfold octet. by apply (bool_decide_eq_true_1 (Forall (λ x, x < 256) SBOX)). Qed.
Lemma xtime_octet a : octet (_xtime a).
Proof. apply land_octet. Qed.
Lemma mul_octet a b : octet a → octet (_mul a b).
Proof.
  unfold _mul. generalize (N.size_nat b) as fuel. intros fuel Ha. assert (octet 0) as Hr by done. revert a b Ha Hr. generalize 0 as r.
  induction fuel as [|fuel IH]; intros r a b Ha Hr; cbn [mul_loop]; [done|]. destruct (b =? 0); [done|]. apply IH; [apply xtime_octet|].
  destruct (N.testbit b 0); [|done]. by apply (lxor_small r a 8).
Qed.

Lemma octets_insert l i x : octets l → octet x → octets (<[i := x]> l).
Proof. intros. by apply Forall_insert. Qed.
Lemma shift_rows_octets st : octets st → octets (_shift_rows st).
Proof.
  assert (∀ s row, octets s → octets (shift_row s row)) as H.
  { intros s row Hs. unfold shift_row. cbn [seq foldl]. repeat apply octets_insert; try done; apply octets_nth, Forall_fmap, Forall_forall; intros; by apply octets_nth. }
  intros Hst. unfold _shift_rows. cbn [foldl]. auto.
Qed.
Lemma mix_columns_octets st : octets st → octets (_mix_columns st).
Proof.
  assert (∀ s c, octets s → octets (mix_column s c)) as H.
  { intros s c Hs. unfold mix_column. repeat apply octets_insert; try done; repeat first [apply mul_octet|apply lxor_octet|by apply octets_nth]. }
  intros Hst. unfold _mix_columns. cbn [seq foldl]. auto.
Qed.
Lemma aes_rounds_octets st rks : octets st → Forall octets rks → octets (foldl aes_round st rks).
Proof.
  intros Hst Hr. revert st Hst. induction Hr as [|rk rks Hk _ IH]; intros st Hst; [exact Hst|]. cbn [foldl]. apply IH. apply octets_zip_lxor; [|done].
  apply mix_columns_octets, shift_rows_octets, Forall_fmap, Forall_forall. intros. apply sbox_octet.
Qed.

Lemma expand_key_octets key rk : octets key → _expand_key key = Ok rk → Forall octets rk.
Proof.
  unfold _expand_key. intros Hkey H. set (nk := (length key / 4)%nat) in *. clearbody nk. destruct (bool_decide _); [|done]. cbn [negb mbind res_bind] in H.
  injection H as <-. assert (Forall octets (key_words nk key)) as Hw.
  { unfold key_words. set (w0 := fmap _ (seq 0 nk)). assert (Forall octets w0) as H0.
    { apply Forall_fmap, Forall_forall. intros i _. by apply octets_take, octets_drop. }
    clearbody w0. revert w0 H0. generalize (seq nk (4 * (nk + 6 + 1) - nk)) as js. induction js as [|i js IH]; intros w Hw; [done|]. cbn [foldl]. apply IH.
    apply Forall_app. split; [done|]. apply Forall_singleton. unfold next_word. apply Forall_fmap, Forall_forall. intros j _. unfold compose.
    assert (∀ i, octets (nth i w [])) as Hn by (intros k; apply nth_Forall; [done|constructor]).
    apply (lxor_small _ _ 8); [by apply octets_nth|]. apply octets_nth. destruct (_ =? 0)%nat; [|destruct (_ && _); [|done]].
    - repeat constructor; try apply sbox_octet. apply (lxor_small _ _ 8); [apply sbox_octet|]. apply nth_Forall; [|done]. by apply (bool_decide_eq_true_1 (Forall (λ x, x < 256) RCON)).
    - apply Forall_fmap, Forall_forall. intros. apply sbox_octet. }
  apply Forall_fmap, Forall_forall. intros r _. unfold compose. apply Forall_forall. intros x Hx. apply list_elem_of_join in Hx as (l & Hx & Hl).
  assert (Forall octets (take 4 (drop (4 * r) (key_words nk key)))) as Hw' by (by apply Forall_take, Forall_drop).
  rewrite Forall_forall in Hw'. specialize (Hw' l Hl). unfold octets in Hw'. rewrite Forall_forall in Hw'. by apply Hw'.
Qed.

Definition keys_good (rk : list (list N)) : Prop := round_keys_ok rk ∧ Forall octets rk.

Lemma aes_block_total rk block : keys_good rk → length block = 16%nat → octets block → ∃ out, _aes_encrypt_block rk block = Ok out ∧ length out = 16%nat ∧ octets out.
Proof.
  intros [Hrk Ho] Hl Hb. destruct (_aes_encrypt_block rk block) as [out|e] eqn:E.
  - exists out. split; [done|]. split; [by eapply aes_block_length|]. unfold _aes_encrypt_block in E. rewrite Hl in E. cbn [Nat.eqb negb mbind res_bind] in E. injection E as <-.
    assert (∀ i, octets (nth i rk [])) as Hn by (intros i; apply nth_Forall; [done|constructor]).
    apply octets_zip_lxor.
    + apply shift_rows_octets, Forall_fmap, Forall_forall. intros. apply sbox_octet.
    + destruct (last rk) as [x|] eqn:El; [|constructor]. apply last_Some in El as [l ->]. apply Forall_app in Ho as [_ Ho]. inversion Ho; subst. assumption.
  - unfold _aes_encrypt_block in E. by rewrite Hl in E.
Qed.

(** ** The hash stays below [2 ^ 128] *)
Lemma gf128_step_small y zv i : zv.1 < 2 ^ 128 → zv.2 < 2 ^ 128 → (gf128_step y zv i).1 < 2 ^ 128 ∧ (gf128_step y zv i).2 < 2 ^ 128.
Proof.
  destruct zv as [z v]. cbn [fst snd gf128_step]. intros Hz Hv. split.
  - destruct (N.testbit y _); [by apply lxor_small|done].
  - apply lxor_small; [by apply shiftr_small|]. by destruct (N.testbit v 0).
Qed.
Lemma gf128_mul_small x y : x < 2 ^ 128 → _gf128_mul x y < 2 ^ 128.
Proof.
  intros Hx. unfold _gf128_mul. generalize (seq 0 128) as js. assert ((0, x).1 < 2 ^ 128 ∧ (0, x).2 < 2 ^ 128) as H by done. revert H. generalize (0, x) as zv.
  intros zv H js. revert zv H. induction js as [|i js IH]; intros zv [Hz Hv]; [done|]. cbn [foldl]. apply IH. by apply gf128_step_small.
Qed.

Lemma chunks_octets data : octets data → Forall (λ b, octets b ∧ (length b ≤ 16)%nat) (chunks16 data).
Proof.
  unfold chunks16. generalize (length data) as fuel. intros fuel. revert data. induction fuel as [|fuel IH]; intros data H; [constructor|].
  destruct data as [|x data]; [constructor|]. cbn [chunks_of]. constructor; [|by apply IH, octets_drop].
  split; [by apply octets_take|]. rewrite length_take. lia.
Qed.
Lemma ghash_small h data : octets data → _ghash h data < 2 ^ 128.
Proof.
  intros H%chunks_octets. unfold _ghash. assert (0 < 2 ^ 128) as H0 by done. revert H0. generalize 0 as y.
  induction H as [|b bs [Hb Hl] _ IH]; intros y Hy; [done|]. cbn [foldl]. apply IH, gf128_mul_small, lxor_small; [done|].
  apply from_be_16; unfold pad16; [apply octets_app; split; [done|apply octets_zeros]|rewrite length_app, length_replicate; lia].
Qed.

(** ** Totality *)
Lemma inc32_total cb : octets cb → length cb = 16%nat → ∃ c, _inc32 cb = Ok c ∧ octets c ∧ length c = 16%nat.
Proof.
  intros Ho Hl. unfold _inc32. rewrite to_bytes_total.
  - cbn [mbind res_bind]. eexists. split; [reflexivity|]. split; [apply octets_app; split; [by apply octets_take|apply be_octets_octets]|].
    rewrite length_app, length_take, length_be_octets. lia.
  - change (256 ^ N.of_nat 4) with (2 ^ 32). apply small_iff. intros i Hi. rewrite N.land_spec, (proj1 (small_iff 0xFFFFFFFF 32)); [by rewrite andb_false_r|done|done].
Qed.

Lemma gctr_total rk cb data : keys_good rk → octets cb → length cb = 16%nat → octets data → ∃ c, _gctr rk cb data = Ok c ∧ octets c ∧ length c = length data.
Proof.
  intros Hrk Hcb Hl Hd. assert (∃ c, _gctr rk cb data = Ok c ∧ octets c) as (c & Hc & Ho).
  { unfold _gctr. apply chunks_octets in Hd. revert cb Hcb Hl. induction Hd as [|b bs [Hb _] _ IH]; intros cb Hcb Hl; cbn [gctr_loop].
    - exists []. split; [done|constructor].
    - destruct (aes_block_total rk cb Hrk Hl Hcb) as (ks & -> & _ & Hk). destruct (inc32_total cb Hcb Hl) as (cb' & -> & Hcb' & Hl'). cbn [mbind res_bind].
      destruct (IH cb' Hcb' Hl') as (out & -> & Hout). cbn [mbind res_bind]. eexists. split; [reflexivity|]. apply octets_app. split; [by apply octets_zip_lxor|done]. }
  exists c. split_and!; [done|done|]. by apply (gctr_inverse rk cb data c (proj1 Hrk)).
Qed.

(** Strings an implementation can hold: fewer than [2 ^ 61] octets. *)
Definition fits (l : list N) : Prop := N.of_nat (length l) < 2 ^ 61.

Lemma bit_length_total l : fits l → ∃ b, bit_length l = Ok b ∧ octets b.
Proof.
  intros H. unfold bit_length. rewrite to_bytes_total; [eexists; split; [reflexivity|apply be_octets_octets]|]. change (256 ^ N.of_nat 8) with (2 ^ 61 * 8).
  unfold fits in H. lia.
Qed.

Lemma j0_total rk nonce : keys_good rk → octets nonce → fits nonce → ∃ j, _j0 rk nonce = Ok j ∧ octets j ∧ length j = 16%nat.
Proof.
  intros Hrk Hn Hf. unfold _j0. destruct (length nonce =? 12)%nat eqn:E.
  - apply Nat.eqb_eq in E. eexists. split; [reflexivity|]. split; [apply octets_app; split; [done|by repeat constructor]|]. rewrite length_app, E. done.
  - destruct (aes_block_total rk (replicate 16 0) Hrk eq_refl (octets_zeros 16)) as (h & -> & _ & _). cbn [mbind res_bind].
    destruct (bit_length_total nonce Hf) as (b & -> & Hb). cbn [mbind res_bind]. rewrite to_bytes_total.
    + eexists. split; [reflexivity|]. split; [apply be_octets_octets|apply length_be_octets].
    + apply ghash_small. rewrite !octets_app. split_and!; [done|apply octets_zeros..|done].
Qed.

Lemma gcm_tag_total rk j0 c aad : keys_good rk → octets j0 → length j0 = 16%nat → octets c → octets aad → fits c → fits aad → ∃ t, gcm_tag rk j0 c aad = Ok t ∧ octets t.
Proof.
  intros Hrk Hj Hl Hc Ha Hfc Hfa. unfold gcm_tag. destruct (aes_block_total rk (replicate 16 0) Hrk eq_refl (octets_zeros 16)) as (h & -> & _ & _). cbn [mbind res_bind].
  destruct (bit_length_total aad Hfa) as (la & -> & Hla). destruct (bit_length_total c Hfc) as (lc & -> & Hlc). cbn [mbind res_bind].
  destruct (aes_block_total rk j0 Hrk Hl Hj) as (e & -> & Hle & He). cbn [mbind res_bind]. rewrite to_bytes_total; [eexists; split; [reflexivity|apply be_octets_octets]|].
  change (256 ^ N.of_nat 16) with (2 ^ 128). apply lxor_small; [|apply from_be_16; [done|lia]]. apply ghash_small. rewrite !octets_app. split_and!; first [apply octets_zeros|done].
Qed.

Lemma fallback_total key nonce p aad :
  (length key / 4 ∈ [4; 6; 8])%nat → octets key → octets nonce → octets p → octets aad → fits nonce → fits p → fits aad →
  ∃ b, fallback_aesgcm_encrypt key nonce p aad = Ok b ∧ octets b ∧ length b = (length p + 16)%nat.
Proof.
  intros Hk Hok Hn Hp Ha Hfn Hfp Hfa. unfold fallback_aesgcm_encrypt.
  destruct (_expand_key key) as [rk|e] eqn:Erk.
  2:{ unfold _expand_key in Erk. set (nk := (length key / 4)%nat) in *. clearbody nk. by rewrite bool_decide_true in Erk. }
  assert (keys_good rk) as Hrk by (split; [exact (expand_key_ok key rk Erk)|exact (expand_key_octets key rk Hok Erk)]). cbn [mbind res_bind].
  destruct (j0_total rk nonce Hrk Hn Hfn) as (j & -> & Hj & Hlj). cbn [mbind res_bind]. destruct (inc32_total j Hj Hlj) as (icb & -> & Hi & Hli). cbn [mbind res_bind].
  destruct (gctr_total rk icb p Hrk Hi Hli Hp) as (c & -> & Hc & Hlc). cbn [mbind res_bind].
  destruct (gcm_tag_total rk j c aad Hrk Hj Hlj Hc Ha) as (t & Ht & Hot); [unfold fits; by rewrite Hlc|done|]. rewrite Ht. cbn [mbind res_bind].
  eexists. split; [reflexivity|]. split; [by apply octets_app|]. apply gcm_tag_length in Ht. rewrite length_app. lia.
Qed.

(** ** The field of AES: polynomials modulo [x^8 + x^4 + x^3 + x + 1] *)
Definition AES_POLY : N := 0x11b.

Lemma all_octets (P : N → Prop) `{Hdec : !∀ x, Decision (P x)} : forallb (λ i, bool_decide (P (N.of_nat i))) (seq 0 256) = true → ∀ x, octet x → P x.
Proof.
  intros H x Hx. rewrite forallb_forall in H. specialize (H (N.to_nat x)). rewrite N2Nat.id in H. apply (bool_decide_eq_true_1 _), H.
  apply in_seq. unfold octet in Hx. lia.
Qed.

Lemma xtime_eq a : octet a → _xtime a = N.lxor (N.double a) (if N.testbit a 7 then AES_POLY else 0).
Proof. apply (all_octets (λ a, _xtime a = N.lxor (N.double a) (if N.testbit a 7 then AES_POLY else 0))). vm_compute. reflexivity. Qed.

Lemma xtime_cong a : octet a → cong AES_POLY (_xtime a) (N.double a).
Proof.
  intros Ha. rewrite xtime_eq by done. exists (if N.testbit a 7 then 1 else 0). rewrite N.lxor_comm, <- N.lxor_assoc, N.lxor_nilpotent, N.lxor_0_l.
  by destruct (N.testbit a 7).
Qed.

Lemma mul_loop_cong fuel a b r : octet a → (N.size_nat b ≤ fuel)%nat → cong AES_POLY (mul_loop fuel a b r) (N.lxor r (clmul b a)).
Proof.
  revert a b r. induction fuel as [|fuel IH]; intros a b r Ha Hb.
  - destruct b as [|[]]; cbn in Hb; try lia. cbn. by rewrite N.lxor_0_r.
  - cbn [mul_loop]. destruct b as [|b]; [cbn; by rewrite N.lxor_0_r|]. cbn [N.eqb].
    assert (∀ b' r', (N.size_nat b' ≤ fuel)%nat → cong AES_POLY (mul_loop fuel (_xtime a) b' r') (N.lxor r' (N.double (clmul b' a)))) as Hs.
    { intros b' r' Hb'. etrans; [apply IH; [apply xtime_octet|done]|]. apply cong_lxor; [done|]. rewrite <- clmul_double_r. by apply cong_clmul, xtime_cong. }
    destruct b as [b|b|]; cbn [N.testbit Pos.testbit]; cbn in Hb.
    + change (N.shiftr (Npos (xI b)) 1) with (Npos b). etrans; [apply Hs; cbn; lia|]. cbn [clmul pclmul]. rewrite N.lxor_assoc. apply cong_lxor; [done|]. by rewrite N.lxor_comm.
    + change (N.shiftr (Npos (xO b)) 1) with (Npos b). etrans; [apply Hs; cbn; lia|]. done.
    + change (N.shiftr 1 1) with 0. etrans; [apply Hs; cbn; lia|]. cbn. by rewrite N.lxor_0_r.
Qed.

Lemma mul_field a b : octet a → octet (_mul a b) ∧ cong AES_POLY (_mul a b) (clmul a b).
Proof. intros Ha. split; [by apply mul_octet|]. rewrite clmul_comm. by apply mul_loop_cong. Qed.

(** The inverse of [b] is its 254th power; the table is the affine map of
    FIPS-197 after it. *)
Definition field_inverse (b : N) : N :=
  (foldl (λ p _, let sq := _mul p.2 p.2 in (_mul p.1 sq, sq)) (1, b) (seq 0 7)).1.
Definition affine (b : N) : N :=
  foldl (λ acc i, if xorb (N.testbit b i) (xorb (N.testbit b ((i + 4) mod 8)) (xorb (N.testbit b ((i + 5) mod 8))
                       (xorb (N.testbit b ((i + 6) mod 8)) (xorb (N.testbit b ((i + 7) mod 8)) (N.testbit 0x63 i)))))
                  then N.setbit acc i else acc) 0 (N.of_nat <$> seq 0 8).

Lemma sbox_spec b : octet b → (b ≠ 0 → _mul b (field_inverse b) = 1) ∧ sbox b = affine (field_inverse b).
Proof.
  apply (all_octets (λ b, (b ≠ 0 → _mul b (field_inverse b) = 1) ∧ sbox b = affine (field_inverse b))). vm_compute. reflexivity.
Qed.

(** ** The field of GCM: polynomials modulo [x^128 + x^7 + x^2 + x + 1], with the
    digits of a block reflected *)
Definition GCM_POLY : N := 2 ^ 128 + 0x87.

Fixpoint reflect (n : nat) (x : N) : N :=
  match n with
  | O => 0
  | S n => if N.testbit x (N.of_nat n) then N.succ_double (reflect n x) else N.double (reflect n x)
  end.

Lemma succ_double_testbit a i : N.testbit (N.succ_double a) i = if i =? 0 then true else N.testbit a (N.pred i).
Proof.
  rewrite N.succ_double_spec. destruct (N.eqb_spec i 0) as [->|Hi]; [apply N.testbit_odd_0|].
  replace i with (N.succ (N.pred i)) at 1 by lia. apply N.testbit_odd_succ. lia.
Qed.

Lemma reflect_spec n x i : N.testbit (reflect n x) i = (i <? N.of_nat n) && N.testbit x (N.of_nat n - 1 - i).
Proof.
  revert i. induction n as [|n IH]; intros i; cbn [reflect].
  - rewrite N.bits_0. symmetry. apply andb_false_iff. left. apply N.ltb_ge. lia.
  - replace (N.of_nat (S n) - 1 - i) with (N.of_nat n - i) by lia.
    assert (∀ b : bool, N.testbit (if b then N.succ_double (reflect n x) else N.double (reflect n x)) i = if i =? 0 then b else N.testbit (reflect n x) (N.pred i)) as Hb.
    { intros [|]; [apply succ_double_testbit|apply double_testbit]. }
    rewrite Hb. clear Hb. destruct (N.eqb_spec i 0) as [->|Hi].
    + rewrite N.sub_0_r. destruct (N.ltb_spec 0 (N.of_nat (S n))); [done|lia].
    + rewrite IH. replace (N.of_nat n - 1 - N.pred i) with (N.of_nat n - i) by lia. f_equal.
      destruct (N.ltb_spec (N.pred i) (N.of_nat n)), (N.ltb_spec i (N.of_nat (S n))); lia || done.
Qed.

Definition reflect128 : N → N := reflect 128.
Lemma reflect128_spec x i : N.testbit (reflect128 x) i = (i <? 128) && N.testbit x (127 - i).
Proof. apply (reflect_spec 128). Qed.

Lemma reflect_lxor a b : reflect128 (N.lxor a b) = N.lxor (reflect128 a) (reflect128 b).
Proof. apply N.bits_inj. intros i. rewrite N.lxor_spec, !reflect128_spec, N.lxor_spec. by destruct (i <? 128). Qed.

Lemma reflect128_small x : reflect128 x < 2 ^ 128.
Proof. apply small_iff. intros i Hi. rewrite reflect128_spec. destruct (N.ltb_spec i 128); [lia|done]. Qed.
Lemma reflect128_twice x : x < 2 ^ 128 → reflect128 (reflect128 x) = x.
Proof.
  intros Hx. apply N.bits_inj. intros i. rewrite !reflect128_spec. destruct (N.ltb_spec i 128) as [Hi|Hi]; cbn [andb].
  - destruct (N.ltb_spec (127 - i) 128); [|lia]. cbn [andb]. f_equal. lia.
  - symmetry. by apply small_iff with 128.
Qed.

(** One step down in the code is one step up in the reference. *)
Lemma reflect_step v : v < 2 ^ 128 →
  cong GCM_POLY (reflect128 (N.lxor (N.shiftr v 1) (if N.testbit v 0 then 0xE1000000000000000000000000000000 else 0))) (N.double (reflect128 v)).
Proof.
  intros Hv. rewrite reflect_lxor. assert (reflect128 (N.shiftr v 1) = N.lxor (N.double (reflect128 v)) (if N.testbit v 0 then 2 ^ 128 else 0)) as ->.
  { apply N.bits_inj. intros i. rewrite N.lxor_spec, double_testbit, !reflect128_spec, N.shiftr_spec'.
    destruct (N.ltb_spec i 128) as [Hi|Hi].
    - replace (N.testbit (if N.testbit v 0 then 2 ^ 128 else 0) i) with false by (destruct (N.testbit v 0); [by rewrite N.pow2_bits_false by lia|by rewrite N.bits_0]).
      rewrite xorb_false_r. cbn [andb]. destruct (N.eqb_spec i 0) as [->|H0].
      + cbn [N.sub]. by apply small_iff with 128.
      + destruct (N.ltb_spec (N.pred i) 128); [|lia]. cbn [andb]. f_equal. lia.
    - cbn [andb]. destruct (N.eqb_spec i 0) as [->|H0]; [lia|]. destruct (N.eq_dec i 128) as [->|Hne].
      + cbn [N.pred Pos.pred_N]. replace (127 - N.pred 128) with 0 by done. destruct (N.testbit v 0) eqn:E; [by rewrite N.pow2_bits_true|by rewrite N.bits_0].
      + destruct (N.ltb_spec (N.pred i) 128); [lia|]. cbn [andb xorb]. destruct (N.testbit v 0); [by rewrite N.pow2_bits_false by lia|by rewrite N.bits_0]. }
  exists (if N.testbit v 0 then 1 else 0). rewrite !N.lxor_assoc, N.lxor_comm, !N.lxor_assoc, N.lxor_nilpotent, N.lxor_0_r.
  destruct (N.testbit v 0); [vm_compute; reflexivity|]. cbn [clmul]. vm_compute. reflexivity.
Qed.

Lemma shiftr_digit a k : N.shiftr a k = if N.testbit a k then N.succ_double (N.shiftr a (k + 1)) else N.double (N.shiftr a (k + 1)).
Proof.
  apply N.bits_inj. intros i.
  assert (∀ b : bool, N.testbit (if b then N.succ_double (N.shiftr a (k + 1)) else N.double (N.shiftr a (k + 1))) i =
    if i =? 0 then b else N.testbit (N.shiftr a (k + 1)) (N.pred i)) as Hb by (intros [|]; [apply succ_double_testbit|apply double_testbit]).
  rewrite Hb, !N.shiftr_spec'. clear Hb. destruct (N.eqb_spec i 0) as [->|Hi]; [done|]. f_equal. lia.
Qed.

Lemma gf128_loop y k n z v :
  (k + n = 128)%nat → v < 2 ^ 128 →
  cong GCM_POLY (reflect128 (foldl (gf128_step y) (z, v) (seq k n)).1) (N.lxor (reflect128 z) (clmul (N.shiftr (reflect128 y) (N.of_nat k)) (reflect128 v))).
Proof.
  revert k z v. induction n as [|n IH]; intros k z v Hk Hv.
  - cbn [seq foldl fst]. assert (N.shiftr (reflect128 y) (N.of_nat k) = 0) as ->; [|change (clmul 0 (reflect128 v)) with 0; by rewrite N.lxor_0_r].
    apply N.bits_inj. intros i. rewrite N.shiftr_spec', reflect128_spec, N.bits_0. destruct (N.ltb_spec (i + N.of_nat k) 128); [lia|done].
  - cbn [seq foldl]. pose proof (gf128_step_small y (0, v) k) as Hs. cbn [gf128_step fst snd] in Hs |- *.
    etrans; [apply IH; [lia|apply Hs; [done|exact Hv]]|]. rewrite (shiftr_digit _ (N.of_nat k)).
    replace (N.of_nat (S k)) with (N.of_nat k + 1) by lia. rewrite reflect128_spec.
    destruct (N.ltb_spec (N.of_nat k) 128) as [_|]; [|lia]. cbn [andb]. set (q := N.shiftr _ _).
    assert (∀ w, cong GCM_POLY (N.lxor w (clmul q (reflect128 (N.lxor (N.shiftr v 1) (if N.testbit v 0 then 0xE1000000000000000000000000000000 else 0)))))
      (N.lxor w (N.double (clmul q (reflect128 v))))) as Hw.
    { intros w. apply cong_lxor; [done|]. rewrite <- clmul_double_r. by apply cong_clmul, reflect_step. }
    etrans; [apply Hw|]. destruct (N.testbit y (127 - N.of_nat k)).
    + rewrite reflect_lxor, clmul_succ_double, N.lxor_assoc. apply cong_lxor; [done|]. by rewrite N.lxor_comm.
    + by rewrite clmul_double.
Qed.

Lemma gf128_field x y : x < 2 ^ 128 → _gf128_mul x y < 2 ^ 128 ∧ cong GCM_POLY (reflect128 (_gf128_mul x y)) (clmul (reflect128 x) (reflect128 y)).
Proof.
  intros Hx. split; [by apply gf128_mul_small|]. unfold _gf128_mul. etrans; [by apply gf128_loop|]. cbn [N.of_nat]. rewrite N.shiftr_0_r, clmul_comm.
  replace (reflect128 0) with 0 by done. by rewrite N.lxor_0_l.
Qed.

(** ** Rows and columns of the state *)
Lemma state16 (st : list N) : length st = 16%nat →
  ∃ a b c d e f g h i j k l m n o p, st = [a; b; c; d; e; f; g; h; i; j; k; l; m; n; o; p].
Proof. intros H. do 17 (destruct st as [|? st]; [try done|]); [|cbn in H; lia]. by repeat eexists. Qed.

Lemma shift_rows_spec st r c : length st = 16%nat → (r < 4)%nat → (c < 4)%nat →
  nth (r + 4 * c) (_shift_rows st) 0 = nth (r + 4 * ((c + r) mod 4)) st 0.
Proof.
  intros (a0 & a1 & a2 & a3 & a4 & a5 & a6 & a7 & a8 & a9 & a10 & a11 & a12 & a13 & a14 & a15 & ->)%state16 Hr Hc.
  do 4 (destruct r as [|r]; [do 4 (destruct c as [|c]; [reflexivity|]); lia|]). lia.
Qed.

(** Row [r] of the matrix of FIPS-197: the circulant of 2, 3, 1 and 1. *)
Definition mix_row (r : nat) (col : nat → N) : N :=
  foldl N.lxor 0 ((λ j, _mul (col j) (nth ((j + 4 - r) mod 4) [2; 3; 1; 1] 0)) <$> seq 0 4).

Lemma mix_columns_spec st r c : length st = 16%nat → (r < 4)%nat → (c < 4)%nat →
  nth (4 * c + r) (_mix_columns st) 0 = mix_row r (λ j, nth (4 * c + j) st 0).
Proof.
  intros (a0 & a1 & a2 & a3 & a4 & a5 & a6 & a7 & a8 & a9 & a10 & a11 & a12 & a13 & a14 & a15 & ->)%state16 Hr Hc.
  do 4 (destruct r as [|r]; [do 4 (destruct c as [|c]; [reflexivity|]); lia|]). lia.
Qed.

(** ** Theorems *)
(** Keys of 17 to 19 octets are cut to 16, of 25 to 27 to 24, of 33 to 35 to 32. *)
Lemma expand_key_cut key extra : (length key mod 4 = 0)%nat → (length extra < 4)%nat → _expand_key (key ++ extra) = _expand_key key.
Proof.
  intros Hk He. assert (length (key ++ extra) / 4 = length key / 4)%nat as E.
  { rewrite length_app. symmetry. apply Nat.div_unique with (length extra + length key mod 4)%nat; [lia|]. pose proof (Nat.div_mod_eq (length key) 4). lia. }
  unfold _expand_key. rewrite E. clear E. set (nk := (length key / 4)%nat). assert (4 * nk = length key)%nat as Hn by (pose proof (Nat.div_mod_eq (length key) 4); lia).
  clearbody nk. destruct (bool_decide _); [|done]. cbn [negb mbind res_bind].
  assert (key_words nk (key ++ extra) = key_words nk key) as ->; [|done]. unfold key_words. f_equal. apply list_fmap_ext. intros i j Hi.
  apply lookup_seq in Hi as [-> Hi]. rewrite drop_app_le by lia. rewrite take_app_le; [done|]. rewrite length_drop. lia.
Qed.

(** C19: The fallback inverts exactly.  For every key, nonce and associated data,
    decryption returns a plaintext for precisely the strings that encrypting it
    gives, so nothing else authenticates; and for octets of the sizes a host can
    hold and a key of 16, 24 or 32 octets, encryption returns 16 octets more than
    the plaintext, which decrypt to it. *)
Theorem gcm_exact key nonce aad p :
  (∀ b, fallback_aesgcm_decrypt key nonce b aad = Ok p ↔ fallback_aesgcm_encrypt key nonce p aad = Ok b) ∧
  (length key ∈ [16; 24; 32]%nat → octets key → octets nonce → octets p → octets aad → fits nonce → fits p → fits aad →
   ∃ b, fallback_aesgcm_encrypt key nonce p aad = Ok b ∧ octets b ∧ length b = (length p + 16)%nat ∧ fallback_aesgcm_decrypt key nonce b aad = Ok p).
Proof.
  split; [intros b; apply fallback_exact|]. intros Hk Ho Hn Hp Ha Hfn Hfp Hfa. destruct (fallback_total key nonce p aad) as (b & Hb & Hob & Hlb); try done.
  - rewrite !elem_of_cons in Hk. destruct Hk as [->|[->|[->|[]%not_elem_of_nil]]]; rewrite !elem_of_cons; auto.
  - exists b. split_and!; [done|done|done|by apply fallback_exact].
Qed.

(** C20: The routines are those of the standards.  The table is inversion in the
    field of 256 elements followed by the affine map of FIPS-197; the shift and the
    mixing act on the whole state as its rows and its matrix say; and the two
    multiplications return the only representative below [2 ^ 8] and [2 ^ 128] of
    the product of polynomials modulo [x^8 + x^4 + x^3 + x + 1] and, with the digits
    reflected, modulo [x^128 + x^7 + x^2 + x + 1]. *)
Theorem aes_gcm_reference :
  (∀ b, octet b → (b ≠ 0 → _mul b (field_inverse b) = 1) ∧ sbox b = affine (field_inverse b)) ∧
  (∀ st r c, length st = 16%nat → (r < 4)%nat → (c < 4)%nat →
     nth (r + 4 * c) (_shift_rows st) 0 = nth (r + 4 * ((c + r) mod 4)) st 0 ∧
     nth (4 * c + r) (_mix_columns st) 0 = mix_row r (λ j, nth (4 * c + j) st 0)) ∧
  (∀ a b, octet a → ∀ z, z = _mul a b ↔ octet z ∧ cong AES_POLY z (clmul a b)) ∧
  (∀ x y, x < 2 ^ 128 → ∀ z, z = _gf128_mul x y ↔ z < 2 ^ 128 ∧ cong GCM_POLY (reflect128 z) (clmul (reflect128 x) (reflect128 y))).
Proof.
  split; [exact sbox_spec|]. split; [intros; split; [by apply shift_rows_spec|by apply mix_columns_spec]|]. split.
  - intros a b Ha z. destruct (mul_field a b Ha) as [H1 H2]. split; [by intros ->|]. intros [H3 H4].
    apply (cong_unique AES_POLY); [done|by etrans|exact H3|exact H1].
  - intros x y Hx z. destruct (gf128_field x y Hx) as [H1 H2]. split; [by intros ->|]. intros [H3 H4].
    assert (reflect128 z = reflect128 (_gf128_mul x y)) as E.
    { apply (cong_unique GCM_POLY); [done|by etrans|..]; change (N.log2 GCM_POLY) with 128; apply reflect128_small. }
    rewrite <- (reflect128_twice z), <- (reflect128_twice (_gf128_mul x y)) by done. by rewrite E.
Qed.

(** Two keys of 17 octets with a common prefix of 16 decrypt each other's
    messages. *)
Theorem long_key_truncated key x y nonce p aad :
  length key = 16%nat → fallback_aesgcm_encrypt (key ++ [x]) nonce p aad = fallback_aesgcm_encrypt (key ++ [y]) nonce p aad.
Proof. intros Hk. unfold fallback_aesgcm_encrypt. rewrite !expand_key_cut by (rewrite ?Hk; cbn; lia || done). done. Qed.

(** ** Witnesses *)
Definition demo_key : list N := up_to 32.
Definition demo_nonce : list N := up_to 12.
Lemma gcm_exact_witness :
  ∃ b, fallback_aesgcm_encrypt demo_key demo_nonce (str "backup") (str "aad") = Ok b ∧ length b = 22%nat ∧
    fallback_aesgcm_decrypt demo_key demo_nonce b (str "aad") = Ok (str "backup").
Proof.
  destruct (proj2 (gcm_exact demo_key demo_nonce (str "aad") (str "backup"))) as (b & H1 & _ & H2 & H3);
    [by vm_compute; repeat (left || right)|by repeat constructor..|done|done|done|].
  exists b. split_and!; [exact H1|exact H2|exact H3].
Defined.

Lemma aes_gcm_reference_witness : sbox 83 = affine (field_inverse 83).
Proof. exact (proj2 (proj1 aes_gcm_reference 83 eq_refl)). Defined.
