(* ===== verification/Crypto.v ===== *)
(** * Crypto providers, key management and key rotation (residual/crypto/provider.py, rotation.py)

    The AES-GCM backend is an interface [Aead]: the fallback of this repository is
    one instance, the third-party library another that is only known by the laws
    it documents.  [entropy k n] is the [k]th reading of [os.urandom(n)]. *)

From Stdlib Require Import ZArith NArith Lia SpecFloat.
From S2P Require Import Prelude PyData Sha256 PyFloat Json Core AesGcm AesGcmTheorems.

(** ** SHA-256 digests and HMAC *)
Section hmac.
#[local] Open Scope N_scope.

(** [hashlib.sha256(msg).digest()] *)
Definition sha256 (msg : list N) : list N :=
  let ws := be_words (padded msg) in
  let h := blocks (S (length ws / 16)) ws initial_hash in
  mjoin (be_octets 4 <$> [w_a h; w_b h; w_c h; w_d h; w_e h; w_f h; w_g h; w_h h]).

(** [hmac.new(key, msg, hashlib.sha256).digest()] *)
Definition hmac_sha256 (key msg : list N) : list N :=
  let k := if (64 <? length key)%nat then sha256 key else key in
  let k := k ++ replicate (64 - length k) 0 in
  sha256 ((N.lxor 92 <$> k) ++ sha256 ((N.lxor 54 <$> k) ++ msg)).

Example hmac_sha256_rfc4231 :
  hmac_sha256 (str "Jefe") (str "what do ya want for nothing?") =
  [0x5b; 0xdc; 0xc1; 0x46; 0xbf; 0x60; 0x75; 0x4e; 0x6a; 0x04; 0x24; 0x26; 0x08; 0x95; 0x75; 0xc7;
   0x5a; 0x00; 0x3f; 0x08; 0x9d; 0x27; 0x39; 0x83; 0x9d; 0xec; 0x58; 0xb9; 0x64; 0xec; 0x38; 0x43].
Proof. vm_compute. reflexivity. Qed.

(** [b.hex()] and [bytes.fromhex(s)], which skips ASCII white space between the
    pairs. *)
Definition hex (b : list N) : pystr := mjoin ((λ x, [hex_digit (x / 16); hex_digit (x mod 16)]) <$> b).
Definition hex_value (c : N) : option N :=
  if in_range 48 57 c then Some (c - 48) else if in_range 97 102 c then Some (c - 87) else if in_range 65 70 c then Some (c - 55) else None.
Fixpoint fromhex_opt (s : pystr) : option (list N) :=
  match s with
  | [] => Some []
  | c :: s' =>
      if in_range 9 13 c || (c =? 32) then fromhex_opt s'
      else match s' with
           | d :: s'' => x ← hex_value c; y ← hex_value d; rest ← fromhex_opt s''; Some (x * 16 + y :: rest)
           | [] => None
           end
  end.
Definition fromhex (v : json) : res (list N) :=
  match v with
  | JStr s => of_option (ValueError "non-hexadecimal number found in fromhex() arg") (fromhex_opt s)
  | _ => Raise (TypeError "fromhex() argument must be str")
  end.
End hmac.

(** ** The backend *)
Class Aead : Type := {
  aead_encrypt : list N → list N → list N → list N → res (list N);
  aead_decrypt : list N → list N → list N → list N → res (list N)
}.

#[export] Instance fallback_aead : Aead := { aead_encrypt := fallback_aesgcm_encrypt; aead_decrypt := fallback_aesgcm_decrypt }.

Definition TAG_LEN : nat := 16.
Definition KEY_LEN : nat := 32.
Definition NONCE_LEN : nat := 12.

Section provider.
(** [cryptography] is the third-party backend when it is installed. *)
Context (cryptography : option Aead) (entropy : nat → nat → list N).
Abbreviation M := (SM nat).

Definition backend_name : pystr := str (match cryptography with Some _ => "cryptography" | None => "stdlib-fallback" end).

Definition urandom (n : nat) : M (list N) := λ k, (Ok (entropy k n), S k).

Definition backend_encrypt (key nonce plaintext aad : list N) : res (list N) :=
  match cryptography with
  | Some A => @aead_encrypt A key nonce plaintext aad
  | None => fallback_aesgcm_encrypt key nonce plaintext aad
  end.
Definition backend_decrypt (key nonce ct aad : list N) : res (list N) :=
  match cryptography with
  | Some A => @aead_decrypt A key nonce ct aad
  | None => fallback_aesgcm_decrypt key nonce ct aad
  end.

Definition aesgcm_encrypt (key plaintext aad : list N) (nonce : option (list N)) : M (list N) :=
  if negb (length key =? KEY_LEN)%nat then sm_raise (ContractError "AES-256-GCM requires a 32-byte key")
  else
    nonce ← match nonce with None => urandom 12 | Some n => mret n end;
    if negb (length nonce =? NONCE_LEN)%nat then sm_raise (ContractError "AES-GCM nonce must be 12 bytes")
    else ct ← sm_lift (backend_encrypt key nonce plaintext aad); mret (nonce ++ ct).

Definition aesgcm_decrypt (key blob aad : list N) : res (list N) :=
  when negb (length key =? KEY_LEN)%nat raise ContractError "AES-256-GCM requires a 32-byte key";;
  when (length blob <? NONCE_LEN + TAG_LEN)%nat raise ContractError "ciphertext blob too short";;
  match backend_decrypt key (take NONCE_LEN blob) (drop NONCE_LEN blob) aad with
  | Ok p => Ok p
  | Raise (ContractError m) => Raise (ContractError m)
  | Raise _ => Raise (ContractError "AES-GCM decryption failed")
  end.

(** ** Key management services *)
Record KmsProvider : Type := {
  wrap_key : list N → pystr → M (list N);
  unwrap_key : list N → pystr → res (list N);
  generate_data_key : pystr → M (list N * list N)
}.

Section local_kms.
Context (master_secret : list N).

Definition LocalKms_init : res unit :=
  when (length master_secret <? 16)%nat raise ContractError "local KMS master secret must be at least 16 bytes";; Ok tt.

Definition _kek (kek_id : pystr) : res (list N) :=
  _ ← identifier kek_id;
  id ← encode kek_id;
  Ok (hmac_sha256 master_secret (str "kek:" ++ id)).

Definition local_wrap_key (plaintext_key : list N) (kek_id : pystr) : M (list N) :=
  kek ← sm_lift (_kek kek_id);
  id ← sm_lift (encode kek_id);
  aesgcm_encrypt kek plaintext_key (str "wrap:" ++ id) None.

Definition local_unwrap_key (wrapped : list N) (kek_id : pystr) : res (list N) :=
  kek ← _kek kek_id;
  id ← encode kek_id;
  aesgcm_decrypt kek wrapped (str "wrap:" ++ id).

Definition local_generate_data_key (kek_id : pystr) : M (list N * list N) :=
  dek ← urandom KEY_LEN;
  wrapped ← local_wrap_key dek kek_id;
  mret (dek, wrapped).

Definition LocalKmsProvider : KmsProvider :=
  {| wrap_key := local_wrap_key; unwrap_key := local_unwrap_key; generate_data_key := local_generate_data_key |}.
End local_kms.

(** ** The development provider *)
Record LocalDevCryptoProvider : Type := mkProvider {
  lp_signing_key : list N;
  lp_encryption_key : list N;
  lp_kms : option KmsProvider
}.

(** [key or os.urandom(n)] *)
Definition key_or_random (key : option (list N)) (n : nat) : M (list N) :=
  match key with Some (x :: k) => mret (x :: k) | _ => urandom n end.

Definition LocalDevCryptoProvider_init (signing_key encryption_key : option (list N)) (kms : option KmsProvider) : M LocalDevCryptoProvider :=
  sk ← key_or_random signing_key 32;
  if (length sk <? 16)%nat then sm_raise (ContractError "signing key must be at least 16 bytes")
  else
    ek ← key_or_random encryption_key KEY_LEN;
    if negb (length ek =? KEY_LEN)%nat then sm_raise (ContractError "encryption key must be 32 bytes")
    else mret (mkProvider sk ek kms).

Definition provider_sign (p : LocalDevCryptoProvider) (data : list N) : list N := hmac_sha256 (lp_signing_key p) data.
Definition provider_verify (p : LocalDevCryptoProvider) (data signature : list N) : bool := bool_decide (provider_sign p data = signature).
Definition provider_encrypt (p : LocalDevCryptoProvider) (plaintext aad : list N) : M (list N) := aesgcm_encrypt (lp_encryption_key p) plaintext aad None.
Definition provider_decrypt (p : LocalDevCryptoProvider) (blob aad : list N) : res (list N) := aesgcm_decrypt (lp_encryption_key p) blob aad.

(** [kms or self.kms or LocalKmsProvider(self.signing_key)] *)
Definition resolve_kms (p : LocalDevCryptoProvider) (kms : option KmsProvider) : res KmsProvider :=
  match kms, lp_kms p with
  | Some k, _ | None, Some k => Ok k
  | None, None => _ ← LocalKms_init (lp_signing_key p); Ok (LocalKmsProvider (lp_signing_key p))
  end.

Definition BACKUP_SCHEMA : pystr := str "residual.backup.v1".

Definition encrypt_backup (p : LocalDevCryptoProvider) (plaintext : list N) (kek_id : pystr) (kms : option KmsProvider) : M (dict json) :=
  k ← sm_lift (resolve_kms p kms);
  '(dek, wrapped) ← generate_data_key k kek_id;
  blob ← aesgcm_encrypt dek plaintext BACKUP_SCHEMA None;
  mret [(str "schema", JStr BACKUP_SCHEMA); (str "kek_id", JStr kek_id); (str "wrapped_dek", JStr (hex wrapped));
        (str "ciphertext", JStr (hex blob)); (str "backend", JStr backend_name)].

Definition decrypt_backup (p : LocalDevCryptoProvider) (envelope : dict json) (kms : option KmsProvider) : res (list N) :=
  when negb (py_eq (default JNull (dget (str "schema") envelope)) (JStr BACKUP_SCHEMA)) raise ContractError "unknown backup envelope schema";;
  k ← resolve_kms p kms;
  kek ← dgetitem (str "kek_id") envelope;
  wrapped ← dgetitem (str "wrapped_dek") envelope;
  wrapped ← fromhex wrapped;
  kek_id ← match kek with JStr s => Ok s | _ => Raise (ContractError "invalid identifier") end;
  dek ← unwrap_key k wrapped kek_id;
  ct ← dgetitem (str "ciphertext") envelope;
  ct ← fromhex ct;
  aesgcm_decrypt dek ct BACKUP_SCHEMA.
End provider.

(** ** Key rotation *)
Record KeyRecord : Type := mkKey {
  kr_key_id : pystr;
  kr_key : list N;
  kr_created_at : float;
  kr_retired_at : option float;
  kr_verify_until : option float
}.

Definition KeyRecord_init (key_id : pystr) (key : list N) (created_at : float) : res KeyRecord :=
  _ ← identifier key_id;
  when (length key <? 16)%nat raise ContractError "key material must be at least 16 bytes";;
  Ok (mkKey key_id key created_at None None).

Definition kr_active (r : KeyRecord) : bool := bool_decide (kr_retired_at r = None).

(** [kg_tick] and [kg_draws] count the readings of the clock and of the entropy. *)
Record KeyRing : Type := mkRing { kg_keys : dict KeyRecord; kg_active_id : option pystr; kg_tick : nat; kg_draws : nat }.
Definition KeyRing_new : KeyRing := mkRing [] None 0 0.

Section ring.
Context (clock : nat → float) (entropy : nat → nat → list N) (window : float).
Abbreviation M := (SM KeyRing).

Definition ring_now : M float := λ g, (Ok (clock (kg_tick g)), mkRing (kg_keys g) (kg_active_id g) (S (kg_tick g)) (kg_draws g)).
Definition ring_random (n : nat) : M (list N) := λ g, (Ok (entropy (kg_draws g) n), mkRing (kg_keys g) (kg_active_id g) (kg_tick g) (S (kg_draws g))).
Definition key_or_drawn (key : option (list N)) : M (list N) := match key with Some (x :: k) => mret (x :: k) | _ => ring_random 32 end.
Definition put_key (r : KeyRecord) (active : option pystr) (g : KeyRing) : KeyRing :=
  mkRing (dset (kr_key_id r) r (kg_keys g)) active (kg_tick g) (kg_draws g).

Definition add_key (key_id : pystr) (key : option (list N)) : M KeyRecord :=
  g ← sm_get;
  if dmem key_id (kg_keys g) then sm_raise (ContractError "duplicate key_id")
  else
    k ← key_or_drawn key;
    now ← ring_now;
    r ← sm_lift (KeyRecord_init key_id k now);
    _ ← sm_mod (put_key r (match kg_active_id g with None => Some key_id | Some a => Some a end));
    mret r.

(** [self._keys.get(self._active_id) if self._active_id else None] *)
Definition active_record (g : KeyRing) : option KeyRecord :=
  match kg_active_id g with Some (c :: id) => dget (c :: id) (kg_keys g) | _ => None end.

Definition retire (now : float) (r : KeyRecord) : KeyRecord := mkKey (kr_key_id r) (kr_key r) (kr_created_at r) (Some now) (Some (fadd now window)).

Definition ring_rotate (new_key_id : pystr) (key : option (list N)) : M KeyRecord :=
  g ← sm_get;
  if dmem new_key_id (kg_keys g) then sm_raise (ContractError "duplicate key_id")
  else
    now ← ring_now;
    _ ← match active_record g with
        | Some old => sm_mod (put_key (retire now old) (kg_active_id g))
        | None => mret tt
        end;
    k ← key_or_drawn key;
    r ← sm_lift (KeyRecord_init new_key_id k now);
    _ ← sm_mod (put_key r (Some new_key_id));
    mret r.

Definition ring_get (key_id : pystr) (g : KeyRing) : res KeyRecord :=
  of_option (ContractError "unknown key_id") (dget key_id (kg_keys g)).

Definition ring_sign (data : list N) (g : KeyRing) : res (pystr * list N) :=
  match active_record g with
  | None => Raise (ContractError "no active key in ring")
  | Some r => Ok (kr_key_id r, hmac_sha256 (kr_key r) data)
  end.

Definition ring_verify (key_id : pystr) (data signature : list N) : M bool :=
  g ← sm_get;
  match dget key_id (kg_keys g) with
  | None => mret false
  | Some r =>
      closed ← (if kr_active r then mret false
                else match kr_verify_until r with
                     | None => mret true
                     | Some u => now ← ring_now; mret (SFltb u now)
                     end);
      if (closed : bool) then mret false else mret (bool_decide (hmac_sha256 (kr_key r) data = signature))
  end.

Definition verify_strict (key_id : pystr) (data signature : list N) : M unit :=
  ok ← ring_verify key_id data signature;
  if (ok : bool) then mret tt else sm_raise (ContractError "signature verification failed").
End ring.
