(* ===== verification/CryptoTheorems.v ===== *)
(** * Envelopes open to what was sealed; rotated keys verify for their window *)

From Stdlib Require Import ZArith NArith Lia SpecFloat.
From S2P Require Import Prelude PyData Sha256 PyFloat Json JsonFacts Core CoreFacts Storage AesGcmTheorems AesGcm Crypto.

(** ** What a backend promises *)
Class AeadLaws (A : Aead) : Prop := {
  aead_exact k n p a b : aead_decrypt k n b a = Ok p ↔ aead_encrypt k n p a = Ok b;
  aead_total k n p a : length k = 32 → length n = 12 → octets k → octets n → octets p → octets a → fits p → fits a →
    ∃ b, aead_encrypt k n p a = Ok b ∧ octets b ∧ length b = length p + 16;
  aead_tag k n p a b : aead_encrypt k n p a = Ok b → 16 ≤ length b
}.

Lemma small_fits l : length l ≤ 1000 → fits l.
Proof. unfold fits. intros H. assert (N.of_nat (length l) <= 1000)%N by lia. eapply N.le_lt_trans; [eassumption|]. done. Qed.

#[export] Instance fallback_laws : AeadLaws fallback_aead.
Proof.
  constructor.
  - intros k n p a b. apply fallback_exact.
  - intros k n p a Hk Hn Ok_ On Op Oa Fp Fa. apply fallback_total; try done; [|apply small_fits; lia]. rewrite Hk. right. right. left.
  - intros k n p a b H. cbn in H. unfold fallback_aesgcm_encrypt in H. apply bind_Ok in H as (? & _ & H). apply bind_Ok in H as (? & _ & H).
    apply bind_Ok in H as (? & _ & H). apply bind_Ok in H as (c & _ & H). apply bind_Ok in H as (t & Ht & H). injection H as <-.
    apply gcm_tag_length in Ht. rewrite length_app. lia.
Qed.

(** ** Hexadecimal text *)
Lemma unhex_digit d : (d < 16)%N → hex_value (hex_digit d) = Some d ∧ in_range 9 13 (hex_digit d) || (hex_digit d =? 32)%N = false.
Proof.
  intros Hd. assert (∀ d, octet d → (d < 16)%N → hex_value (hex_digit d) = Some d ∧ in_range 9 13 (hex_digit d) || (hex_digit d =? 32)%N = false) as H.
  { apply (all_octets (λ d, (d < 16)%N → hex_value (hex_digit d) = Some d ∧ in_range 9 13 (hex_digit d) || (hex_digit d =? 32)%N = false)). vm_compute. reflexivity. }
  apply H; [unfold octet; lia|done].
Qed.
Lemma unhex_hex b : octets b → fromhex (JStr (hex b)) = Ok b.
Proof.
  intros H. unfold fromhex. enough (fromhex_opt (hex b) = Some b) as -> by done. induction H as [|x b Hx _ IH]; [done|].
  change (hex (x :: b)) with (hex_digit (x / 16) :: hex_digit (x mod 16) :: hex b). unfold octet in Hx.
  destruct (unhex_digit (x / 16)) as [H1 H1']; [apply N.Div0.div_lt_upper_bound; lia|]. destruct (unhex_digit (x mod 16)) as [H2 _]; [apply N.mod_lt; lia|].
  cbn [fromhex_opt]. rewrite H1', H1, H2. cbn [mbind option_bind]. rewrite IH. cbn [mbind option_bind]. do 2 f_equal. pose proof (N.Div0.div_mod x 16). lia.
Qed.

Lemma encode_ident s : ident_ok s = true → encode s = Ok s ∧ octets s ∧ length s ≤ 96.
Proof.
  intros H. assert (forallb (λ c, (c <? 128)%N) s = true ∧ length s ≤ 96) as [Ha Hl].
  { destruct s as [|c s]; [done|]. cbn [ident_ok] in H. apply andb_true_iff in H as [H H3]. apply andb_true_iff in H as [H1 H2]. apply Nat.leb_le in H2.
    split; [|cbn; lia]. cbn [forallb]. apply andb_true_iff. split.
    - unfold is_alpha in H1. rewrite orb_true_iff, !in_range_iff in H1. apply N.ltb_lt. lia.
    - rewrite forallb_forall in H3 |- *. intros x Hx. specialize (H3 x Hx). unfold ident_char, is_alpha, is_digit in H3. apply N.ltb_lt.
      rewrite !orb_true_iff, !in_range_iff, bool_decide_eq_true in H3. destruct H3 as [H3|H3]; [lia|]. rewrite !elem_of_cons in H3. destruct H3 as [->|[->|[->|[]%not_elem_of_nil]]]; lia. }
  clear H. split; [|split; [|done]].
  - clear Hl. induction s as [|c s IH]; [done|]. cbn [forallb] in Ha. apply andb_true_iff in Ha as [Hc Hs]. cbn [encode]. unfold utf8_char. rewrite Hc. cbn [mbind res_bind].
    rewrite (IH Hs). done.
  - apply Forall_forall. intros x Hx. rewrite forallb_forall in Ha. specialize (Ha x (proj1 (list_elem_of_In _ _) Hx)). apply N.ltb_lt in Ha. unfold octet. lia.
Qed.

Lemma sha256_shape msg : length (sha256 msg) = 32 ∧ octets (sha256 msg).
Proof.
  unfold sha256. cbv zeta. set (h := blocks _ _ _). clearbody h. split.
  - cbn [fmap list_fmap]. unfold mjoin. cbn [list_join]. rewrite !length_app, !length_be_octets. done.
  - cbn [fmap list_fmap]. unfold mjoin. cbn [list_join]. repeat (apply octets_app; split; [apply be_octets_octets|]). constructor.
Qed.

(** ** Envelopes *)
Section envelopes.
Context (cryptography : option Aead) (entropy : nat → nat → list N).
Context (Hlaws : match cryptography with Some A => AeadLaws A | None => True end).
Context (Hent : ∀ k n, length (entropy k n) = n ∧ octets (entropy k n)).

Lemma backend_exact k n p a b : backend_decrypt cryptography k n b a = Ok p ↔ backend_encrypt cryptography k n p a = Ok b.
Proof using Hlaws. unfold backend_decrypt, backend_encrypt. destruct cryptography as [A|]; [apply (@aead_exact A Hlaws)|apply fallback_exact]. Qed.
Lemma backend_total k n p a : length k = 32 → length n = 12 → octets k → octets n → octets p → octets a → fits p → fits a →
    ∃ b, backend_encrypt cryptography k n p a = Ok b ∧ octets b ∧ length b = length p + 16.
Proof using Hlaws. unfold backend_encrypt. destruct cryptography as [A|]; [apply (@aead_total A Hlaws)|apply (@aead_total _ fallback_laws)]. Qed.
Lemma backend_tag k n p a b : backend_encrypt cryptography k n p a = Ok b → 16 ≤ length b.
Proof using Hlaws. unfold backend_encrypt. destruct cryptography as [A|]; [apply (@aead_tag A Hlaws)|apply (@aead_tag _ fallback_laws)]. Qed.

(** Decryption returns exactly on what encryption produced for some nonce. *)
Lemma aesgcm_decrypt_Ok key blob aad p :
  aesgcm_decrypt cryptography key blob aad = Ok p ↔
  length key = 32 ∧ ∃ n ct, blob = n ++ ct ∧ length n = 12 ∧ backend_encrypt cryptography key n p aad = Ok ct.
Proof using Hlaws.
  unfold aesgcm_decrypt, KEY_LEN, NONCE_LEN, TAG_LEN. split.
  - intros H. destruct (length key =? 32) eqn:Ek; [|done]. apply Nat.eqb_eq in Ek. cbn [negb mbind res_bind] in H.
    destruct (length blob <? 12 + 16) eqn:El; [done|]. apply Nat.ltb_ge in El. cbn [mbind res_bind] in H. split; [done|].
    exists (take 12 blob), (drop 12 blob). rewrite take_drop, length_take. split_and!; [done|lia|]. apply backend_exact.
    destruct (backend_decrypt _ _ _ _ _) as [q|[]]; by inversion H.
  - intros (Hk & n & ct & -> & Hn & He). rewrite Hk. cbn [Nat.eqb negb mbind res_bind]. pose proof (backend_tag _ _ _ _ _ He) as Ht.
    rewrite length_app, Hn. destruct (_ <? _) eqn:El; [apply Nat.ltb_lt in El; lia|]. cbn [mbind res_bind].
    rewrite take_app_length', drop_app_length' by done. apply backend_exact in He. by rewrite He.
Qed.

Lemma aesgcm_encrypt_Ok key p aad s blob s' :
  aesgcm_encrypt cryptography entropy key p aad None s = (Ok blob, s') →
  s' = S s ∧ length key = 32 ∧ ∃ ct, blob = entropy s 12 ++ ct ∧ backend_encrypt cryptography key (entropy s 12) p aad = Ok ct.
Proof.
  unfold aesgcm_encrypt, KEY_LEN, NONCE_LEN. destruct (length key =? 32) eqn:Ek; [|done]. apply Nat.eqb_eq in Ek. cbn [negb]. intros H.
  apply sm_bind_Ok in H as (n & s1 & En & H). unfold urandom in En. inversion En; subst n s1. clear En. destruct (_ =? 12); [|done]. cbn [negb] in H.
  apply sm_bind_Ok in H as (ct & s1 & [Hct ->]%sm_lift_Ok & H). inversion H; subst. split_and!; [done|done|by exists ct].
Qed.

Lemma aesgcm_opens key p aad s blob s' :
  aesgcm_encrypt cryptography entropy key p aad None s = (Ok blob, s') → aesgcm_decrypt cryptography key blob aad = Ok p.
Proof using Hlaws Hent.
  intros (_ & Hk & ct & -> & He)%aesgcm_encrypt_Ok. apply aesgcm_decrypt_Ok. split; [done|]. exists (entropy s 12), ct. split_and!; [done|apply Hent|done].
Qed.

Lemma aesgcm_encrypt_total key p aad s :
  length key = 32 → octets key → octets p → octets aad → fits p → fits aad →
  ∃ blob, aesgcm_encrypt cryptography entropy key p aad None s = (Ok blob, S s) ∧ octets blob.
Proof using Hlaws Hent.
  intros Hk Ok_ Op Oa Fp Fa. destruct (Hent s 12) as [Hl Ho]. destruct (backend_total key (entropy s 12) p aad) as (ct & Hct & Oct & _); try done.
  exists (entropy s 12 ++ ct). split; [|by apply octets_app]. unfold aesgcm_encrypt, KEY_LEN, NONCE_LEN. rewrite Hk. cbn [Nat.eqb negb].
  unfold mbind, SM_bind, urandom. rewrite Hl. cbn [Nat.eqb negb]. unfold sm_lift. by rewrite Hct.
Qed.

(** What a key management service promises: a data key of 32 octets that its
    wrapped form unwraps to. *)
Class KmsLaws (K : KmsProvider) : Prop := {
  kms_opens id s dek w s' : generate_data_key K id s = (Ok (dek, w), s') → unwrap_key K w id = Ok dek ∧ length dek = 32 ∧ octets dek ∧ octets w
}.

Lemma local_generate_Ok secret id s : ident_ok id = true → octets secret →
  ∃ w, local_generate_data_key cryptography entropy secret id s = (Ok (entropy s 32, w), S (S s)) ∧ octets w ∧
    local_unwrap_key cryptography secret w id = Ok (entropy s 32).
Proof using Hlaws Hent.
  intros Hid Os. destruct (encode_ident id Hid) as (He & Oid & Hlid). destruct (Hent s 32) as [Hl Ho].
  assert (_kek secret id = Ok (hmac_sha256 secret (str "kek:" ++ id))) as Hkek by (unfold _kek, identifier; rewrite Hid; cbn [negb mbind res_bind]; by rewrite He).
  destruct (sha256_shape ((N.lxor 92 <$> (if (64 <? length secret)%nat then sha256 secret else secret) ++
    replicate (64 - length (if (64 <? length secret)%nat then sha256 secret else secret)) 0%N) ++
    sha256 ((N.lxor 54 <$> (if (64 <? length secret)%nat then sha256 secret else secret) ++
    replicate (64 - length (if (64 <? length secret)%nat then sha256 secret else secret)) 0%N) ++ str "kek:" ++ id))) as [Hkl Hko].
  fold (hmac_sha256 secret (str "kek:" ++ id)) in Hkl, Hko.
  destruct (aesgcm_encrypt_total (hmac_sha256 secret (str "kek:" ++ id)) (entropy s 32) (str "wrap:" ++ id) (S s)) as (w & Hw & Ow); try done.
  - apply octets_app. split; [by repeat constructor|done].
  - apply small_fits. lia.
  - apply small_fits. rewrite length_app. change (length (str "wrap:")) with 5. lia.
  - exists w. split; [|split; [done|]].
    + unfold local_generate_data_key, local_wrap_key, mbind, SM_bind, urandom, sm_lift, KEY_LEN. rewrite Hkek, He, Hw. done.
    + unfold local_unwrap_key. rewrite Hkek. cbn [mbind res_bind]. rewrite He. cbn [mbind res_bind]. by eapply aesgcm_opens.
Qed.

#[local] Instance local_kms_laws secret : octets secret → KmsLaws (LocalKmsProvider cryptography entropy secret).
Proof using Hlaws Hent.
  intros Os. constructor. intros id s dek w s' H. cbn [generate_data_key unwrap_key LocalKmsProvider] in *.
  destruct (ident_ok id) eqn:Hid.
  - destruct (local_generate_Ok secret id s Hid Os) as (w' & Hw & Ow & Hu). rewrite H in Hw. inversion Hw; subst. split_and!; [done|apply Hent|apply Hent|done].
  - unfold local_generate_data_key, local_wrap_key, _kek, identifier in H. apply sm_bind_Ok in H as (? & ? & _ & H). apply sm_bind_Ok in H as (? & ? & H & _).
    apply sm_bind_Ok in H as (? & ? & [H _]%sm_lift_Ok & _). by rewrite Hid in H.
Qed.

Lemma resolve_lawful p kms K :
  octets (lp_signing_key p) → (∀ k, kms = Some k ∨ lp_kms p = Some k → KmsLaws k) → resolve_kms cryptography entropy p kms = Ok K → KmsLaws K.
Proof using Hlaws Hent.
  intros Os Hk. unfold resolve_kms. destruct kms as [k|]; [intros [= <-]; apply Hk; by left|]. destruct (lp_kms p) as [k|]; [intros [= <-]; apply Hk; by right|].
  intros H. apply bind_Ok in H as (? & _ & [= <-]). by apply local_kms_laws.
Qed.

(** ** Envelopes as dictionaries *)
Definition envelope (kek_id : pystr) (w blob : list N) : dict json :=
  [(str "schema", JStr BACKUP_SCHEMA); (str "kek_id", JStr kek_id); (str "wrapped_dek", JStr (hex w)); (str "ciphertext", JStr (hex blob));
   (str "backend", JStr (backend_name cryptography))].
Lemma envelope_gets kek_id w blob :
  dget (str "schema") (envelope kek_id w blob) = Some (JStr BACKUP_SCHEMA) ∧ dget (str "kek_id") (envelope kek_id w blob) = Some (JStr kek_id) ∧
  dget (str "wrapped_dek") (envelope kek_id w blob) = Some (JStr (hex w)) ∧ dget (str "ciphertext") (envelope kek_id w blob) = Some (JStr (hex blob)).
Proof. split_and!; reflexivity. Qed.
Lemma decrypt_backup_Ok p env kms plaintext :
  decrypt_backup cryptography entropy p env kms = Ok plaintext ↔
  py_eq (default JNull (dget (str "schema") env)) (JStr BACKUP_SCHEMA) = true ∧
  ∃ K id w wrapped dek c ct, resolve_kms cryptography entropy p kms = Ok K ∧ dget (str "kek_id") env = Some (JStr id) ∧
    dget (str "wrapped_dek") env = Some w ∧ fromhex w = Ok wrapped ∧ unwrap_key K wrapped id = Ok dek ∧
    dget (str "ciphertext") env = Some c ∧ fromhex c = Ok ct ∧ aesgcm_decrypt cryptography dek ct BACKUP_SCHEMA = Ok plaintext.
Proof.
  unfold decrypt_backup. destruct (py_eq _ _); cbn [negb mbind res_bind]; [|split; [done|by intros [? _]]]. split.
  - intros H. split; [done|]. apply bind_Ok in H as (K & HK & H). apply bind_Ok in H as (kek & Hkek%dgetitem_Ok & H). apply bind_Ok in H as (w & Hw%dgetitem_Ok & H).
    apply bind_Ok in H as (wrapped & Hwr & H). apply bind_Ok in H as (id & Hid & H). apply bind_Ok in H as (dek & Hdek & H).
    apply bind_Ok in H as (c & Hc%dgetitem_Ok & H). apply bind_Ok in H as (ct & Hct & H). destruct kek; try done. inversion Hid; subst.
    exists K, id, w, wrapped, dek, c, ct. split_and!; done.
  - intros (_ & K & id & w & wrapped & dek & c & ct & HK & Hkek & Hw & Hwr & Hdek & Hc & Hct & Hp). rewrite HK. cbn [mbind res_bind].
    apply dgetitem_Ok in Hkek, Hw, Hc. rewrite Hkek. cbn [mbind res_bind]. rewrite Hw. cbn [mbind res_bind]. rewrite Hwr. cbn [mbind res_bind].
    rewrite Hdek. cbn [mbind res_bind]. rewrite Hc. cbn [mbind res_bind]. rewrite Hct. done.
Qed.

(** What a returned backup holds. *)
Lemma encrypt_backup_Ok p plaintext kek_id kms s env s' :
  octets (lp_signing_key p) → (∀ k, kms = Some k ∨ lp_kms p = Some k → KmsLaws k) → octets plaintext → fits plaintext →
  encrypt_backup cryptography entropy p plaintext kek_id kms s = (Ok env, s') →
  ∃ K dek w blob, resolve_kms cryptography entropy p kms = Ok K ∧ unwrap_key K w kek_id = Ok dek ∧ octets w ∧ octets blob ∧
    aesgcm_decrypt cryptography dek blob BACKUP_SCHEMA = Ok plaintext ∧ env = envelope kek_id w blob.
Proof using Hlaws Hent.
  intros Os Hk Op Fp H. unfold encrypt_backup in H. apply sm_bind_Ok in H as (K & s1 & [HK ->]%sm_lift_Ok & H). apply sm_bind_Ok in H as ([dek w] & s1 & Hg & H).
  apply sm_bind_Ok in H as (blob & s2 & Hb & H). pose proof (resolve_lawful p kms K Os Hk HK) as HL.
  destruct (kms_opens _ _ _ _ _ Hg) as (Hu & Hd & Od & Ow). exists K, dek, w, blob.
  destruct (aesgcm_encrypt_total dek plaintext BACKUP_SCHEMA s1) as (blob' & Hb' & Ob); try done; [by repeat constructor|].
  rewrite Hb in Hb'. unfold mret, SM_ret in H. apply pair_eq in Hb' as [Hb' _]. injection Hb' as <-. apply pair_eq in H as [H _]. injection H as <-.
  split_and!; try done. by eapply aesgcm_opens.
Qed.

Lemma envelope_opens p kms K dek kek_id w blob plaintext :
  resolve_kms cryptography entropy p kms = Ok K → unwrap_key K w kek_id = Ok dek → octets w → octets blob →
  aesgcm_decrypt cryptography dek blob BACKUP_SCHEMA = Ok plaintext → decrypt_backup cryptography entropy p (envelope kek_id w blob) kms = Ok plaintext.
Proof.
  intros HK Hu Ow Ob Hd. destruct (envelope_gets kek_id w blob) as (E1 & E2 & E3 & E4). apply decrypt_backup_Ok. rewrite E1. split; [change (py_eq (JStr BACKUP_SCHEMA) (JStr BACKUP_SCHEMA) = true); by rewrite py_eq_str, bool_decide_true|].
  exists K, kek_id, (JStr (hex w)), w, dek, (JStr (hex blob)), blob. split_and!; try done; by apply unhex_hex.
Qed.

(** A backup opens to exactly what was sealed.  With any backend and any key
    management service that keep their promises, the envelope [encrypt_backup]
    returns decrypts to the plaintext; an envelope with the same wrapped key
    decrypts to some plaintext only if its ciphertext is an encryption of that
    plaintext under the data key; and the local service keeps the promise, so that
    with a valid key name and a plaintext a host can hold a backup is always
    sealed. *)
Theorem backup_opens p plaintext kek_id kms s :
  octets (lp_signing_key p) → 16 ≤ length (lp_signing_key p) → (∀ k, kms = Some k ∨ lp_kms p = Some k → KmsLaws k) →
  (∀ env s', encrypt_backup cryptography entropy p plaintext kek_id kms s = (Ok env, s') → octets plaintext → fits plaintext →
     decrypt_backup cryptography entropy p env kms = Ok plaintext ∧
     ∃ dek, ∀ env' p', dget (str "kek_id") env' = dget (str "kek_id") env → dget (str "wrapped_dek") env' = dget (str "wrapped_dek") env →
       decrypt_backup cryptography entropy p env' kms = Ok p' →
       ∃ c n ct, dget (str "ciphertext") env' = Some c ∧ fromhex c = Ok (n ++ ct) ∧ length n = 12 ∧ backend_encrypt cryptography dek n p' BACKUP_SCHEMA = Ok ct) ∧
  (kms = None → lp_kms p = None → ident_ok kek_id = true → octets plaintext → fits plaintext →
     ∃ env s', encrypt_backup cryptography entropy p plaintext kek_id kms s = (Ok env, s') ∧ decrypt_backup cryptography entropy p env kms = Ok plaintext).
Proof using Hlaws Hent.
  intros Os Hlen Hk. split.
  - intros env s' H Op Fp. destruct (encrypt_backup_Ok p plaintext kek_id kms s env s' Os Hk Op Fp H) as (K & dek & w & blob & HK & Hu & Ow & Ob & Hd & ->).
    split; [by eapply envelope_opens|]. exists dek. intros env' p' E1 E2 H'. destruct (envelope_gets kek_id w blob) as (_ & F1 & F2 & _). rewrite F1 in E1. rewrite F2 in E2.
    apply decrypt_backup_Ok in H' as (_ & K' & id & w' & wrapped & dek' & c & ct & HK' & E1' & E2' & Hwr & Hu' & Hc & Hct & Hp).
    rewrite E1 in E1'. rewrite E2 in E2'. injection E1' as <-. injection E2' as <-. rewrite unhex_hex in Hwr by done. injection Hwr as <-.
    rewrite HK in HK'. injection HK' as <-. rewrite Hu in Hu'. injection Hu' as <-. apply aesgcm_decrypt_Ok in Hp as (_ & n & ct' & -> & Hn & He). by exists c, n, ct'.
  - intros -> Ekms Hid Op Fp. destruct (local_generate_Ok (lp_signing_key p) kek_id s Hid Os) as (w & Hg & Ow & Hu). destruct (Hent s 32) as [Hl Ho].
    destruct (aesgcm_encrypt_total (entropy s 32) plaintext BACKUP_SCHEMA (S (S s))) as (blob & Hb & Ob); try done; [by repeat constructor|].
    assert (resolve_kms cryptography entropy p None = Ok (LocalKmsProvider cryptography entropy (lp_signing_key p))) as HK.
    { unfold resolve_kms, LocalKms_init. rewrite Ekms. destruct (_ <? _) eqn:E; [apply Nat.ltb_lt in E; lia|done]. }
    exists (envelope kek_id w blob), (S (S (S s))). split.
    + unfold encrypt_backup, mbind, SM_bind, sm_lift. rewrite HK. cbn [generate_data_key LocalKmsProvider]. rewrite Hg, Hb. done.
    + eapply envelope_opens; [exact HK|exact Hu|done|done|by eapply aesgcm_opens].
Qed.
End envelopes.

(** ** Key rotation *)
(** Reads the state. *)
Ltac sm_get_step :=
  match goal with |- context [(sm_get ≫= ?f) ?u] => change ((sm_get ≫= f) u) with (f u u) end; cbv beta.

Inductive RingOp : Type :=
  | RAdd (key_id : pystr) (key : option (list N))
  | RRotate (key_id : pystr) (key : option (list N))
  | RVerify (key_id : pystr) (data signature : list N).

(** Arguments a [KeyRecord] accepts, so that a rotation can only refuse a
    duplicate. *)
Definition ring_op_ok (op : RingOp) : Prop :=
  match op with
  | RAdd id key | RRotate id key => ident_ok id = true ∧ match key with Some (x :: k) => 16 ≤ length (x :: k) | _ => True end
  | RVerify _ _ _ => True
  end.

Section ring.
Context (clock : nat → float) (entropy : nat → nat → list N) (window : float) (Hent : ∀ k n, length (entropy k n) = n).

Definition ring_op (op : RingOp) (g : KeyRing) : KeyRing :=
  match op with
  | RAdd id key => (add_key clock entropy id key g).2
  | RRotate id key => (ring_rotate clock entropy window id key g).2
  | RVerify id d s => (ring_verify clock id d s g).2
  end.
Definition ring_run (ops : list RingOp) (g : KeyRing) : KeyRing := foldl (λ g op, ring_op op g) g ops.

Record ring_inv (g : KeyRing) : Prop := {
  ri_id : ∀ id r, dget id (kg_keys g) = Some r → kr_key_id r = id ∧ ident_ok id = true;
  ri_window : ∀ id r, dget id (kg_keys g) = Some r → kr_verify_until r = (λ t, fadd t window) <$> kr_retired_at r;
  ri_active : ∀ a, kg_active_id g = Some a → ∃ r, dget a (kg_keys g) = Some r ∧ kr_retired_at r = None
}.

Lemma ri_until g : ring_inv g → ∀ id r, dget id (kg_keys g) = Some r → (kr_retired_at r = None ↔ kr_verify_until r = None).
Proof. intros Hg id r Hr. rewrite (ri_window _ Hg id r Hr). by destruct (kr_retired_at r). Qed.

(** What a step may do to the keys: nothing, a new key, or the retirement of the
    unretired active key before a new one. *)
Definition key_later (r r' : KeyRecord) : Prop :=
  kr_key_id r' = kr_key_id r ∧ kr_key r' = kr_key r ∧ (kr_retired_at r ≠ None → r' = r).
Definition ring_later (g g' : KeyRing) : Prop :=
  kg_tick g ≤ kg_tick g' ∧ ∀ id r, dget id (kg_keys g) = Some r → ∃ r', dget id (kg_keys g') = Some r' ∧ key_later r r'.

Lemma key_later_refl r : key_later r r.
Proof. done. Qed.
Lemma ring_later_refl g : ring_later g g.
Proof. split; [done|]. intros id r H. by exists r. Qed.
Lemma ring_later_trans g1 g2 g3 : ring_later g1 g2 → ring_later g2 g3 → ring_later g1 g3.
Proof.
  intros [T1 H1] [T2 H2]. split; [lia|]. intros id r Hr. destruct (H1 id r Hr) as (r' & Hr' & E1 & E2 & E3). destruct (H2 id r' Hr') as (r'' & Hr'' & F1 & F2 & F3).
  exists r''. split; [done|]. split_and!; [congruence|congruence|]. intros Hn. rewrite <- (E3 Hn). apply F3. by rewrite (E3 Hn).
Qed.

(** The key that is used is long enough. *)
Lemma drawn_ok key g : match key with Some (x :: k) => 16 ≤ length (x :: k) | _ => True end →
  ∃ k d, key_or_drawn entropy key g = (Ok k, mkRing (kg_keys g) (kg_active_id g) (kg_tick g) d) ∧ 16 ≤ length k.
Proof using Hent.
  intros H. unfold key_or_drawn. destruct key as [[|x k]|].
  - exists (entropy (kg_draws g) 32), (S (kg_draws g)). split; [done|]. rewrite Hent. lia.
  - exists (x :: k), (kg_draws g). destruct g. done.
  - exists (entropy (kg_draws g) 32), (S (kg_draws g)). split; [done|]. rewrite Hent. lia.
Qed.
Lemma record_init_ok id k t : ident_ok id = true → 16 ≤ length k → KeyRecord_init id k t = Ok (mkKey id k t None None).
Proof. intros Hid Hk. unfold KeyRecord_init, identifier. rewrite Hid. cbn [negb mbind res_bind]. destruct (_ <? _) eqn:E; [apply Nat.ltb_lt in E; lia|done]. Qed.

Lemma put_new_inv r g a t d :
  ring_inv g → ident_ok (kr_key_id r) = true → kr_retired_at r = None → kr_verify_until r = None → dget (kr_key_id r) (kg_keys g) = None →
  (a = kg_active_id g ∧ is_Some a ∨ a = Some (kr_key_id r)) → kg_tick g ≤ t →
  ring_inv (mkRing (dset (kr_key_id r) r (kg_keys g)) a t d) ∧ ring_later g (mkRing (dset (kr_key_id r) r (kg_keys g)) a t d).
Proof.
  intros [H1 H2 H3] Hid Hr Hu Hnew Ha Ht. split.
  - constructor; cbn [kg_keys kg_active_id].
    + intros id x. rewrite dget_dset. case_decide as E; [|apply H1]. intros [= <-]. by subst id.
    + intros id x. rewrite dget_dset. case_decide as E; [|apply H2]. intros [= <-]. by rewrite Hr, Hu.
    + intros i Hi. rewrite dget_dset. case_decide as E; [by exists r|]. destruct Ha as [[-> _]| ->]; [by apply H3|congruence].
  - split; [done|]. cbn [kg_keys]. intros id x Hx. exists x. rewrite dget_dset_ne; [done|]. intros ->. congruence.
Qed.

Lemma dmem_None {V} (k : pystr) (d : dict V) : dmem k d = false → dget k d = None.
Proof. unfold dmem. by destruct (dget k d). Qed.

Lemma add_key_later id key g : ring_op_ok (RAdd id key) → ring_inv g → ring_inv (ring_op (RAdd id key) g) ∧ ring_later g (ring_op (RAdd id key) g).
Proof using Hent.
  intros [Hid Hk] Hg. cbn [ring_op]. unfold add_key. sm_get_step. destruct (dmem id (kg_keys g)) eqn:Em; [split; [done|apply ring_later_refl]|].
  apply dmem_None in Em. destruct (drawn_ok key g Hk) as (k & d & Ek & Hlk). unfold mbind, SM_bind. rewrite Ek. unfold ring_now, sm_lift. cbn [kg_keys kg_active_id kg_tick kg_draws].
  rewrite record_init_ok by done. cbn [sm_mod mret SM_ret snd]. apply (put_new_inv (mkKey id k (clock (kg_tick g)) None None) g); cbn [kr_key_id kr_retired_at kr_verify_until kg_tick]; [done|done|done|done|done| |lia].
  destruct (kg_active_id g) as [a|]; [left; done|by right].
Qed.

Lemma rotate_later id key g : ring_op_ok (RRotate id key) → ring_inv g → ring_inv (ring_op (RRotate id key) g) ∧ ring_later g (ring_op (RRotate id key) g).
Proof using Hent.
  intros [Hid Hk] Hg. cbn [ring_op]. unfold ring_rotate. sm_get_step. destruct (dmem id (kg_keys g)) eqn:Em; [split; [done|apply ring_later_refl]|].
  apply dmem_None in Em. unfold mbind, SM_bind, ring_now. cbn [kg_keys kg_active_id kg_tick kg_draws].
  set (g0 := mkRing (kg_keys g) (kg_active_id g) (S (kg_tick g)) (kg_draws g)).
  assert (∃ g1, (match active_record g with Some old => sm_mod (put_key (retire window (clock (kg_tick g)) old) (kg_active_id g)) | None => mret tt end) g0 = (Ok tt, g1) ∧
    dget id (kg_keys g1) = None ∧ kg_tick g ≤ kg_tick g1 ∧ ring_later g g1 ∧
    (∀ i r, dget i (kg_keys g1) = Some r → kr_key_id r = i ∧ ident_ok i = true ∧ kr_verify_until r = (λ t, fadd t window) <$> kr_retired_at r)) as (g1 & -> & Hnew & Ht & Hl & Hi1).
  { destruct (active_record g) as [old|] eqn:Ea.
    - eexists. split; [reflexivity|]. unfold active_record in Ea. destruct (kg_active_id g) as [[|c a]|] eqn:Eid; try done. destruct (ri_active g Hg (c :: a) Eid) as (r & Hr & Hrn).
      rewrite Ea in Hr. injection Hr as <-. destruct (ri_id g Hg _ _ Ea) as [Eold Hoid]. unfold put_key. cbn [kg_keys kg_tick retire kr_key_id g0]. rewrite Eold.
      split; [|split; [lia|split]].
      + rewrite dget_dset_ne; [done|]. intros ->. congruence.
      + split; [cbn; lia|]. intros i x Hx. cbn [kg_keys]. destruct (decide (i = c :: a)) as [->|Ei]; [|exists x; by rewrite dget_dset_ne].
        assert (x = old) as -> by congruence. eexists. split; [by rewrite dget_dset_eq|]. split_and!; [by rewrite Eold|done|]. intros Hn. done.
      + intros i x. rewrite dget_dset. case_decide as Ei; [intros [= <-]; subst i; done|]. intros Hx. destruct (ri_id g Hg i x Hx). split_and!; [done|done|by apply (ri_window g Hg i)].
    - exists g0. split; [done|]. split; [done|]. split; [cbn; lia|]. split; [split; [cbn; lia|intros i x Hx; by exists x]|].
      intros i x Hx. destruct (ri_id g Hg i x Hx). split_and!; [done|done|by apply (ri_window g Hg i)]. }
  destruct (drawn_ok key g1 Hk) as (k & d & -> & Hlk). unfold sm_lift. rewrite record_init_ok by done. cbn [sm_mod mret SM_ret snd]. unfold put_key. cbn [kg_keys kg_active_id kg_tick kg_draws kr_key_id].
  split.
  - constructor; cbn [kg_keys kg_active_id].
    + intros i x. rewrite dget_dset. case_decide as E; [intros [= <-]; by subst i|]. intros Hx. by destruct (Hi1 i x Hx) as (? & ? & _).
    + intros i x. rewrite dget_dset. case_decide as E; [by intros [= <-]|]. intros Hx. by destruct (Hi1 i x Hx) as (_ & _ & ?).
    + intros a [= <-]. rewrite dget_dset_eq. by eexists.
  - eapply ring_later_trans; [exact Hl|]. split; [done|]. intros i x Hx. exists x. cbn [kg_keys]. rewrite dget_dset_ne; [done|]. intros ->. congruence.
Qed.

Lemma verify_state id data sig g :
  kg_keys (ring_verify clock id data sig g).2 = kg_keys g ∧ kg_active_id (ring_verify clock id data sig g).2 = kg_active_id g ∧ kg_tick g ≤ kg_tick (ring_verify clock id data sig g).2.
Proof.
  unfold ring_verify, mbind, SM_bind. cbn [sm_get]. destruct (dget id (kg_keys g)) as [r|]; [|done]. destruct (kr_active r); [done|].
  destruct (kr_verify_until r) as [u|]; [|done]. unfold ring_now. cbn [mret SM_ret]. destruct (SFltb _ _); cbn [mret SM_ret snd kg_keys kg_active_id kg_tick]; (split; [done|split; [done|lia]]).
Qed.

Lemma ring_op_later op g : ring_op_ok op → ring_inv g → ring_inv (ring_op op g) ∧ ring_later g (ring_op op g).
Proof using Hent.
  intros Ho Hg. destruct op as [id key|id key|id data sig]; [by apply add_key_later|by apply rotate_later|]. cbn [ring_op]. destruct (verify_state id data sig g) as (E1 & E2 & E3). split.
  - destruct Hg as [H1 H2 H3]. constructor; rewrite ?E1, ?E2; done.
  - split; [done|]. rewrite E1. intros i r Hr. by exists r.
Qed.
Lemma ring_run_later ops g : Forall ring_op_ok ops → ring_inv g → ring_inv (ring_run ops g) ∧ ring_later g (ring_run ops g).
Proof using Hent.
  intros Ho. revert g. induction Ho as [|op ops Hop _ IH]; intros g Hg; [split; [done|apply ring_later_refl]|]. destruct (ring_op_later op g Hop Hg) as [H1 H2].
  destruct (IH (ring_op op g) H1) as [H3 H4]. split; [done|]. by eapply ring_later_trans.
Qed.
Lemma ring_inv_new : ring_inv KeyRing_new.
Proof. by constructor. Qed.

(** Whether the ring still accepts a key when the clock reads [t]. *)
Definition key_open (r : KeyRecord) (t : float) : Prop := ∀ u, kr_verify_until r = Some u → SFltb u t = false.

Lemma verify_exact g id data sig : ring_inv g →
  ∃ b, (ring_verify clock id data sig g).1 = Ok b ∧
    (b = true ↔ ∃ r, dget id (kg_keys g) = Some r ∧ sig = hmac_sha256 (kr_key r) data ∧ key_open r (clock (kg_tick g))).
Proof.
  intros Hg. unfold ring_verify, mbind, SM_bind. cbn [sm_get]. destruct (dget id (kg_keys g)) as [r|] eqn:Er.
  2:{ exists false. split; [done|]. split; [done|]. by intros (? & ? & _). }
  pose proof (ri_until g Hg id r Er) as Hu. unfold kr_active. case_bool_decide as Ea.
  - cbn [mret SM_ret]. eexists. split; [reflexivity|]. rewrite bool_decide_eq_true. split; [intros <-|intros (r' & [= <-] & -> & _); done].
    exists r. split_and!; [done|done|]. intros u Hun. rewrite (proj1 Hu Ea) in Hun. done.
  - destruct (kr_verify_until r) as [u|] eqn:Eu; [|by destruct Ea; apply Hu]. unfold ring_now. cbn [kg_keys kg_active_id kg_tick kg_draws fst].
    cbn [mret SM_ret]. destruct (SFltb u (clock (kg_tick g))) eqn:El.
    + exists false. split; [done|]. split; [done|]. intros (r' & [= <-] & _ & Ho). specialize (Ho u Eu). congruence.
    + eexists. split; [reflexivity|]. rewrite bool_decide_eq_true. split; [intros <-|intros (r' & [= <-] & -> & _); done].
      exists r. split_and!; [done|done|]. intros u' Hu'. rewrite Eu in Hu'. injection Hu' as <-. done.
Qed.

Lemma open_window g id data sig t : ring_inv g →
  (∃ r, dget id (kg_keys g) = Some r ∧ sig = hmac_sha256 (kr_key r) data ∧ key_open r t) ↔
  (∃ r, dget id (kg_keys g) = Some r ∧ sig = hmac_sha256 (kr_key r) data ∧ ∀ t0, kr_retired_at r = Some t0 → SFltb (fadd t0 window) t = false).
Proof.
  intros Hg. split; intros (r & Hr & Hs & Ho); exists r; (split_and!; [done|done|]).
  - intros t0 H0. apply Ho. by rewrite (ri_window g Hg id r Hr), H0.
  - intros u Hu. rewrite (ri_window g Hg id r Hr) in Hu. apply fmap_Some in Hu as (t0 & H0 & ->). by apply Ho.
Qed.

Lemma active_verifies g data id sig : ring_inv g → ring_sign data g = Ok (id, sig) → kg_active_id g = Some id ∧ (ring_verify clock id data sig g).1 = Ok true.
Proof.
  intros Hg Hs. unfold ring_sign in Hs. destruct (active_record g) as [r|] eqn:Ea; [|done]. injection Hs as <- <-.
  unfold active_record in Ea. destruct (kg_active_id g) as [[|c a]|] eqn:Eid; try done.
  destruct (ri_active g Hg _ Eid) as (r' & Hr' & Hn). rewrite Ea in Hr'. injection Hr' as <-. destruct (ri_id g Hg _ _ Ea) as [-> _]. split; [done|].
  destruct (verify_exact g (c :: a) data (hmac_sha256 (kr_key r) data) Hg) as (b & -> & Hb). f_equal. apply Hb.
  exists r. split_and!; [done|done|]. intros u Hu. rewrite (proj1 (ri_until g Hg _ _ Ea) Hn) in Hu. done.
Qed.

(** What an addition and a rotation with valid arguments do to the ring. *)
Lemma add_key_effect id key g :
  ring_op_ok (RAdd id key) →
  match add_key clock entropy id key g with
  | (Ok r, g') => dmem id (kg_keys g) = false ∧ kr_retired_at r = None ∧ kg_keys g' = dset id r (kg_keys g) ∧
                  kg_active_id g' = match kg_active_id g with None => Some id | Some a => Some a end
  | (Raise _, g') => dmem id (kg_keys g) = true ∧ g' = g
  end.
Proof using Hent.
  intros [Hid Hk]. unfold add_key. sm_get_step. destruct (dmem id (kg_keys g)) eqn:Em; [done|].
  destruct (drawn_ok key g Hk) as (k & d & Ek & Hlk). unfold mbind, SM_bind. rewrite Ek. unfold ring_now, sm_lift. cbn [kg_keys kg_active_id kg_tick kg_draws].
  rewrite record_init_ok by done. by cbn.
Qed.

Lemma rotate_effect id key g :
  ring_op_ok (RRotate id key) → ring_inv g →
  match ring_rotate clock entropy window id key g with
  | (Ok r, g') =>
      dmem id (kg_keys g) = false ∧ kr_retired_at r = None ∧ kg_active_id g' = Some id ∧ dget id (kg_keys g') = Some r ∧
      ∀ i x, dget i (kg_keys g) = Some x →
        dget i (kg_keys g') = Some (if decide (kg_active_id g = Some i)
                                    then mkKey (kr_key_id x) (kr_key x) (kr_created_at x) (Some (clock (kg_tick g))) (Some (fadd (clock (kg_tick g)) window))
                                    else x)
  | (Raise _, g') => dmem id (kg_keys g) = true ∧ g' = g
  end.
Proof using Hent.
  intros [Hid Hk] Hg. unfold ring_rotate. sm_get_step. destruct (dmem id (kg_keys g)) eqn:Em; [done|].
  apply dmem_None in Em. unfold mbind, SM_bind, ring_now. cbn [kg_keys kg_active_id kg_tick kg_draws].
  set (g0 := mkRing (kg_keys g) (kg_active_id g) (S (kg_tick g)) (kg_draws g)).
  set (keys1 := match active_record g with Some old => dset (kr_key_id old) (retire window (clock (kg_tick g)) old) (kg_keys g) | None => kg_keys g end).
  assert ((match active_record g with Some old => sm_mod (put_key (retire window (clock (kg_tick g)) old) (kg_active_id g)) | None => mret tt end) g0
    = (Ok tt, mkRing keys1 (kg_active_id g) (S (kg_tick g)) (kg_draws g))) as -> by (unfold keys1; by destruct (active_record g)).
  destruct (drawn_ok key (mkRing keys1 (kg_active_id g) (S (kg_tick g)) (kg_draws g)) Hk) as (k & d & -> & Hlk).
  unfold sm_lift. rewrite record_init_ok by done. cbn [sm_mod mret SM_ret snd]. unfold put_key. cbn [kg_keys kg_active_id kg_tick kg_draws kr_key_id].
  split_and!; [done|done|done|by rewrite dget_dset_eq|]. intros i x Hx. rewrite dget_dset_ne by congruence. unfold keys1, active_record.
  destruct (kg_active_id g) as [a|] eqn:Ea; [|by rewrite decide_False].
  destruct (ri_active g Hg a Ea) as (old & Hold & _). destruct (ri_id g Hg a old Hold) as [Eid Hida].
  destruct a as [|c a]; [done|]. rewrite Hold, Eid, dget_dset. case_decide as Ei.
  - subst i. rewrite decide_True by done. assert (x = old) as -> by congruence. done.
  - rewrite decide_False by congruence. done.
Qed.

End ring.

(** ** Divergences *)
Definition demo_entropy (k n : nat) : list N := replicate n (N.of_nat k mod 256)%N.
Definition ring_clock (n : nat) : float := float_of_Z (100 * Z.of_nat n).
Definition demo_window : float := float_of_Z 150.
Definition demo_ring (ops : list RingOp) : KeyRing := ring_run ring_clock demo_entropy demo_window ops KeyRing_new.

(** What the ring signs now, verified after [ops]. *)
Definition sign_then (ops : list RingOp) (g : KeyRing) : res bool :=
  '(id, sig) ← ring_sign (str "data") g;
  (ring_verify ring_clock id (str "data") sig (ring_run ring_clock demo_entropy demo_window ops g)).1.

(** A rotation that refuses the new key has already retired the active one: the
    ring goes on signing with a key whose signatures it rejects once the window is
    over. *)
Theorem failed_rotation_retires :
  let g := demo_ring [RAdd (str "k1") None] in
  let g' := ring_op ring_clock demo_entropy demo_window (RRotate (str "k2") (Some [1%N])) g in
  is_ok (ring_rotate ring_clock demo_entropy demo_window (str "k2") (Some [1%N]) g).1 = false ∧
  kg_active_id g' = Some (str "k1") ∧ sign_then [] g = Ok true ∧ sign_then [RVerify (str "k1") [] []; RVerify (str "k1") [] []] g' = Ok false.
Proof. vm_compute. done. Qed.

(** A key that was added beside the active one is never retired, so its
    signatures verify for ever. *)
Theorem spare_key_never_retired :
  let g := demo_ring [RAdd (str "k1") None; RAdd (str "spare") None; RRotate (str "k2") None; RRotate (str "k3") None] in
  (λ r, (kr_key_id r, kr_active r)) <$> (kg_keys g).*2 = [(str "k1", false); (str "spare", true); (str "k2", false); (str "k3", true)].
Proof. vm_compute. done. Qed.

(** ** Witnesses *)
Lemma demo_entropy_ok k n : length (demo_entropy k n) = n ∧ octets (demo_entropy k n).
Proof. split; [apply length_replicate|]. apply Forall_replicate. apply N.mod_lt. done. Qed.

Definition demo_provider : LocalDevCryptoProvider := mkProvider (up_to 32) (up_to 32) None.

Lemma backup_opens_witness :
  ∃ env s', encrypt_backup None demo_entropy demo_provider (str "state") (str "backup") None 0 = (Ok env, s') ∧
    decrypt_backup None demo_entropy demo_provider env None = Ok (str "state").
Proof.
  assert (octets (up_to 32)) as Hk by (by repeat constructor). assert (octets (str "state")) as Hp by (by repeat constructor).
  refine (proj2 (backup_opens None demo_entropy I demo_entropy_ok demo_provider (str "state") (str "backup") None 0 Hk _ _) eq_refl eq_refl eq_refl Hp _).
  - cbn. lia.
  - by intros k [?|?].
  - by apply small_fits; cbn; lia.
Defined.

Lemma demo_ring_ok : Forall ring_op_ok [RAdd (str "k1") None; RRotate (str "k2") None].
Proof. repeat constructor. Qed.

(** The signature of the active key over one message. *)
Definition demo_signed : pystr * list N :=
  match ring_sign [1%N; 2%N; 3%N] (demo_ring [RAdd (str "k1") None; RRotate (str "k2") None]) with Ok p => p | Raise _ => ([], []) end.
Lemma demo_ring_signs :
  ring_sign [1%N; 2%N; 3%N] (demo_ring [RAdd (str "k1") None; RRotate (str "k2") None]) = Ok (demo_signed.1, demo_signed.2).
Proof. vm_compute. reflexivity. Qed.

