(* ===== verification/Hadr.v ===== *)
(** * High availability: receipt chains, replication, takeover, failover and degraded mode (residual/hadr/)

    The clock of the managers is [clock], by reading number; the event journal and
    the stations are shared, and the state of each manager stands beside them. *)

From Stdlib Require Import ZArith NArith Lia SpecFloat.
From S2P Require Import Prelude PyData Sha256 PyFloat Json JsonFacts Core CoreFacts Builtins.

(** ** Receipt chains (hadr/chain.py) *)
Definition HADR_CHAIN_SCHEMA : pystr := str "residual.hadr.chain.v1".
Definition HADR_GENESIS : pystr := replicate 64 48%N.

Record ChainReceipt : Type := mkChainReceipt {
  cr_receipt_id : pystr;
  cr_sequence : Z;
  cr_task_id : pystr;
  cr_payload : pystr;
  cr_prev_hash : pystr
}.
#[export] Instance ChainReceipt_eq_dec : EqDecision ChainReceipt.
Proof. solve_decision. Defined.

Definition chain_body (sequence : Z) (task_id payload prev_hash : pystr) : json :=
  jobj [("sequence", JInt sequence); ("task_id", JStr task_id); ("payload", JStr payload); ("prev_hash", JStr prev_hash)].
Definition _receipt_hash (sequence : Z) (task_id payload prev_hash : pystr) : res pystr :=
  t ← canonical (chain_body sequence task_id payload prev_hash);
  sha_text (HADR_CHAIN_SCHEMA ++ [10%N] ++ t).

Definition receipt_verify (r : ChainReceipt) : res bool :=
  h ← _receipt_hash (cr_sequence r) (cr_task_id r) (cr_payload r) (cr_prev_hash r);
  Ok (bool_decide (cr_receipt_id r = h)).

Definition head_hash (c : list ChainReceipt) : pystr := match last c with Some r => cr_receipt_id r | None => HADR_GENESIS end.

(** [append]: the new receipt, which the caller's chain then ends in. *)
Definition chain_append (task_id payload : pystr) (c : list ChainReceipt) : res ChainReceipt :=
  when blank task_id raise ContractError "task_id is required";;
  h ← _receipt_hash (Z.of_nat (length c)) task_id payload (head_hash c);
  Ok (mkChainReceipt h (Z.of_nat (length c)) task_id payload (head_hash c)).

Fixpoint chain_verify_from (index : Z) (prev : pystr) (c : list ChainReceipt) : res bool :=
  match c with
  | [] => Ok true
  | r :: c =>
      if negb (cr_sequence r =? index)%Z || negb (bool_decide (cr_prev_hash r = prev)) then Ok false
      else ok ← receipt_verify r;
           if negb ok then Ok false else chain_verify_from (index + 1) (cr_receipt_id r) c
  end.
Definition chain_verify (c : list ChainReceipt) : res bool := chain_verify_from 0 HADR_GENESIS c.

Definition last_verified (c : list ChainReceipt) : res (option ChainReceipt) :=
  ok ← chain_verify c;
  when negb ok raise ContractError "receipt chain failed integrity verification";;
  Ok (last c).

(** ** The event journal (hadr/events.py) *)
Definition EVENT_SCHEMA : pystr := str "residual.hadr.event.v1".
Definition HA_KINDS : list pystr := str <$> ["failover"; "backup"; "restore-test"; "takeover"; "degraded-sync"; "replication-lag-alert"].

Record HaEvent : Type := mkHaEvent { he_event_hash : pystr; he_kind : pystr; he_at : float; he_details : list (pystr * pystr); he_prev_hash : pystr }.

Definition event_body (kind : pystr) (at_ : float) (details : list (pystr * pystr)) (prev : pystr) : json :=
  jobj [("kind", JStr kind); ("at", JFloat at_); ("details", JList ((λ kv : pystr * pystr, JList [JStr kv.1; JStr kv.2]) <$> details)); ("prev_hash", JStr prev)].
Definition event_hash (kind : pystr) (at_ : float) (details : list (pystr * pystr)) (prev : pystr) : res pystr :=
  t ← canonical (event_body kind at_ details prev);
  sha_text (EVENT_SCHEMA ++ [10%N] ++ t).

Fixpoint journal_verify_from (prev : pystr) (l : list HaEvent) : res bool :=
  match l with
  | [] => Ok true
  | e :: l =>
      expect ← event_hash (he_kind e) (he_at e) (he_details e) (he_prev_hash e);
      if negb (bool_decide (he_prev_hash e = prev)) || negb (bool_decide (he_event_hash e = expect)) then Ok false
      else journal_verify_from (he_event_hash e) l
  end.
Definition journal_verify (l : list HaEvent) : res bool := journal_verify_from HADR_GENESIS l.

(** ** Stations (hadr/cluster.py) *)
Record Station : Type := mkStation {
  st_station_id : pystr;
  st_region : pystr;
  st_workers : list pystr;
  st_alive : bool;
  st_active : bool;
  st_last_heartbeat : float;
  st_reachable : bool
}.
Definition Station_init (s : Station) : res Station :=
  when blank (st_station_id s) raise ContractError "station_id is required";;
  when blank (st_region s) raise ContractError "region is required";;
  when existsb blank (st_workers s) raise ContractError "workers must be a tuple of names";;
  when bool_decide (st_workers s = []) raise ContractError "a station needs at least one worker";;
  Ok s.
Definition station_fail (s : Station) : Station :=
  mkStation (st_station_id s) (st_region s) (st_workers s) false false (st_last_heartbeat s) (st_reachable s).
Definition station_restart (at_ : float) (s : Station) : Station :=
  mkStation (st_station_id s) (st_region s) (st_workers s) true true at_ (st_reachable s).
Definition station_beat (at_ : float) (s : Station) : Station :=
  mkStation (st_station_id s) (st_region s) (st_workers s) (st_alive s) (st_active s) at_ (st_reachable s).

Record Takeover : Type := mkTakeover { tk_failed_station : pystr; tk_successor_station : pystr; tk_detected_at : float; tk_completed_at : float }.
Definition rto_seconds (t : Takeover) : float := fsub (tk_completed_at t) (tk_detected_at t).

Record HaState : Type := mkHa { ha_tick : nat; ha_journal : list HaEvent; ha_stations : dict Station; ha_takeovers : list Takeover }.
Definition HaState_new : HaState := mkHa 0 [] [] [].
Definition set_stations (d : dict Station) (s : HaState) : HaState := mkHa (ha_tick s) (ha_journal s) d (ha_takeovers s).

Section hadr.
Context (clock : nat → float) (heartbeat_timeout : float).

Definition ha_now : SM HaState float := λ s, (Ok (clock (ha_tick s)), mkHa (S (ha_tick s)) (ha_journal s) (ha_stations s) (ha_takeovers s)).

Definition ha_record (kind : pystr) (details : list (string * json)) : SM HaState HaEvent :=
  if negb (bool_decide (kind ∈ HA_KINDS)) then sm_raise (ContractError "unknown HA/DR event kind")
  else
    at_ ← ha_now;
    normalized ← sm_lift (mapM (λ kv : string * json, t ← canonical kv.2; Ok (str kv.1, t)) details);
    let normalized := sort_by (λ a b : pystr * pystr, str_ltb a.1 b.1 || bool_decide (a.1 = b.1) && str_leb a.2 b.2) normalized in
    s ← sm_get;
    let prev := match last (ha_journal s) with Some e => he_event_hash e | None => HADR_GENESIS end in
    h ← sm_lift (event_hash kind at_ normalized prev);
    let e := mkHaEvent h kind at_ normalized prev in
    _ ← sm_mod (λ s, mkHa (ha_tick s) (ha_journal s ++ [e]) (ha_stations s) (ha_takeovers s));
    mret e.

Definition register (station : Station) : SM HaState unit :=
  s ← sm_get;
  if dmem (st_station_id station) (ha_stations s) then sm_raise (ContractError "duplicate station registration")
  else
    now ← ha_now;
    sm_mod (λ s, set_stations (dset (st_station_id station) (station_beat now station) (ha_stations s)) s).

Definition get_station (station_id : pystr) (s : HaState) : res Station := of_option (ContractError "unknown station") (dget station_id (ha_stations s)).

Definition heartbeat (station_id : pystr) : SM HaState unit :=
  s ← sm_get;
  station ← sm_lift (get_station station_id s);
  if negb (st_alive station) then sm_raise (ContractError "dead stations cannot heartbeat")
  else
    now ← ha_now;
    sm_mod (λ s, set_stations (dset station_id (station_beat now station) (ha_stations s)) s).

Definition active_stations (s : HaState) : list Station := filter (λ x, st_active x = true) (ha_stations s).*2.

Definition regions (s : HaState) : gset pystr := list_to_set (st_region <$> active_stations s).

Definition by_station_id : list Station → list Station := sort_by (λ a b, str_leb (st_station_id a) (st_station_id b)).

Definition _successor_for (failed : Station) (s : HaState) : res Station :=
  let candidates := filter (λ x, st_station_id x ≠ st_station_id failed) (active_stations s) in
  let same_region := filter (λ x, st_region x = st_region failed) candidates in
  of_option (ContractError "no active station available for takeover") (head (by_station_id (match same_region with [] => candidates | _ => same_region end))).

Definition _take_over (failed : Station) (detected_at : float) : SM HaState Takeover :=
  s ← sm_get;
  successor ← sm_lift (_successor_for failed s);
  completed ← ha_now;
  let takeover := mkTakeover (st_station_id failed) (st_station_id successor) detected_at completed in
  _ ← sm_mod (λ s, mkHa (ha_tick s) (ha_journal s) (ha_stations s) (ha_takeovers s ++ [takeover]));
  _ ← ha_record (str "takeover")
        [("failed_station", JStr (st_station_id failed)); ("successor_station", JStr (st_station_id successor)); ("region", JStr (st_region failed));
         ("rto_seconds", JFloat (rto_seconds takeover))];
  mret takeover.

(** Whether the last heartbeat is too long ago. *)
Definition overdue (now : float) (x : Station) : bool := st_alive x && SFltb heartbeat_timeout (fsub now (st_last_heartbeat x)).

(** The loop of [tick] over the stations in the order of their ids. *)
Fixpoint tick_each (now : float) (l : list Station) : SM HaState (list Takeover) :=
  match l with
  | [] => mret []
  | x :: l =>
      if overdue now x then
        _ ← sm_mod (λ s, set_stations (dset (st_station_id x) (station_fail x) (ha_stations s)) s);
        t ← _take_over (station_fail x) now;
        ts ← tick_each now l;
        mret (t :: ts)
      else tick_each now l
  end.
Definition registry_tick : SM HaState (list Takeover) :=
  now ← ha_now;
  s ← sm_get;
  tick_each now (by_station_id (ha_stations s).*2).

Definition is_reachable (station_id : pystr) (s : HaState) : res bool := x ← get_station station_id s; Ok (st_reachable x && st_alive x).

(** A computation on the shared part beside a manager's own state. *)
Definition on_ha {X A} (m : SM HaState A) : SM (HaState * X) A := λ s, let '(r, h) := m s.1 in (r, (h, s.2)).

(** ** Failover of a run (hadr/failover.py) *)
Inductive TaskStatus : Type := TPending | TRunning | TDone.
#[export] Instance TaskStatus_eq_dec : EqDecision TaskStatus.
Proof. solve_decision. Defined.
Record TaskRecord : Type := mkTaskRecord { tr_task_id : pystr; tr_status : TaskStatus; tr_worker : option pystr; tr_receipt_id : option pystr }.
Definition incomplete (t : TaskRecord) : bool := negb (bool_decide (tr_status t = TDone)).
Record RunState : Type := mkRun { rn_run_id : pystr; rn_station_id : pystr; rn_tasks : list TaskRecord; rn_chain : list ChainReceipt }.

Definition update_first (task_id : pystr) (f : TaskRecord → TaskRecord) : list TaskRecord → list TaskRecord :=
  fix go l := match l with
              | [] => []
              | t :: l => if decide (tr_task_id t = task_id) then f t :: l else t :: go l
              end.

Definition run_complete (task_id worker payload : pystr) : SM RunState unit :=
  run ← sm_get;
  if negb (bool_decide (task_id ∈ tr_task_id <$> rn_tasks run)) then sm_raise (ContractError "unknown task")
  else
    _ ← sm_mod (λ run, mkRun (rn_run_id run) (rn_station_id run)
          (update_first task_id (λ t, mkTaskRecord (tr_task_id t) TDone (Some worker) (tr_receipt_id t)) (rn_tasks run)) (rn_chain run));
    r ← sm_lift (chain_append task_id payload (rn_chain run));
    sm_mod (λ run, mkRun (rn_run_id run) (rn_station_id run)
      (update_first task_id (λ t, mkTaskRecord (tr_task_id t) (tr_status t) (tr_worker t) (Some (cr_receipt_id r))) (rn_tasks run)) (rn_chain run ++ [r])).

(** The loop that hands the incomplete tasks to the workers in turn; [index] counts
    the incomplete tasks. *)
Fixpoint reassign (workers : list pystr) (index : nat) (l : list TaskRecord) : list TaskRecord :=
  match l with
  | [] => []
  | t :: l =>
      if incomplete t
      then mkTaskRecord (tr_task_id t) TPending (Some (nth (index mod length workers) workers [])) (tr_receipt_id t) :: reassign workers (S index) l
      else t :: reassign workers index l
  end.

Record FailoverReport : Type := mkFailover {
  fo_run_id : pystr;
  fo_failed_station : pystr;
  fo_successor_station : pystr;
  fo_resumed_from_receipt : option pystr;
  fo_incomplete_tasks : list pystr;
  fo_reassignments : list (pystr * pystr);
  fo_rto_seconds : float;
  fo_within_rto : bool
}.

Definition failover (rto_limit : float) (failed_station_id : pystr) : SM (HaState * RunState) FailoverReport :=
  started ← on_ha ha_now;
  s ← sm_get;
  match dget failed_station_id (ha_stations s.1) with
  | None => sm_raise (ContractError "unknown station")
  | Some failed =>
      let failed := if st_alive failed then station_fail failed else failed in
      _ ← sm_mod (λ s, (set_stations (dset failed_station_id failed (ha_stations s.1)) s.1, s.2));
      l ← sm_lift (last_verified (rn_chain s.2));
      s ← sm_get;
      successor ← sm_lift (_successor_for failed s.1);
      let workers := st_workers successor in
      let incomplete_tasks := filter (λ t, incomplete t = true) (rn_tasks s.2) in
      let resume tasks := λ s : HaState * RunState, (s.1, mkRun (rn_run_id s.2) (st_station_id successor) tasks (rn_chain s.2)) in
      if bool_decide (workers = []) then
        _ ← sm_mod (resume (rn_tasks s.2));
        sm_raise (ContractError "successor station has no available workers")
      else
        _ ← sm_mod (resume (reassign workers 0 (rn_tasks s.2)));
        completed ← on_ha ha_now;
        let rto := fsub completed started in
        let report := mkFailover (rn_run_id s.2) failed_station_id (st_station_id successor) (cr_receipt_id <$> l) (tr_task_id <$> incomplete_tasks)
                        (imap (λ i t, (tr_task_id t, nth (i mod length workers) workers [])) incomplete_tasks) rto (SFltb rto rto_limit) in
        _ ← on_ha (ha_record (str "failover")
              [("run_id", JStr (fo_run_id report)); ("failed_station", JStr (fo_failed_station report)); ("successor_station", JStr (fo_successor_station report));
               ("resumed_from_receipt", JStr (default [] (fo_resumed_from_receipt report))); ("incomplete_tasks", JList (JStr <$> fo_incomplete_tasks report));
               ("rto_seconds", JFloat rto); ("within_rto", JBool (fo_within_rto report))]);
        mret report
  end.

(** ** Replication (hadr/replication.py) *)
Record ReplicaNode : Type := mkReplica { rr_region : pystr; rr_is_primary : bool; rr_available : bool; rr_chain : list ChainReceipt }.
Record ReplicaMessage : Type := mkMessage { rm_origin : pystr; rm_target : pystr; rm_receipt : ChainReceipt; rm_enqueued_at : float; rm_deliver_at : float }.
Record Replicator : Type := mkReplicator { re_chain : list ChainReceipt; re_replicas : dict ReplicaNode; re_pending : list ReplicaMessage }.
Definition Replicator_new : Replicator := mkReplicator [] [] [].
Abbreviation RM := (SM (HaState * Replicator)).

Section replication.
Context (primary_region : pystr) (max_lag : float) (latency : pystr → float).

Definition on_repl (f : Replicator → Replicator) : RM unit := sm_mod (λ s, (s.1, f s.2)).

Definition install_in (r : ChainReceipt) (n : ReplicaNode) : ReplicaNode := mkReplica (rr_region n) (rr_is_primary n) (rr_available n) (rr_chain n ++ [r]).

(** [node.install(receipt)] for the nodes of [ids], in order *)
Definition install_all (r : ChainReceipt) (ids : list pystr) (d : dict ReplicaNode) : dict ReplicaNode :=
  foldl (λ d id, match dget id d with Some n => dset id (install_in r n) d | None => d end) d ids.

Definition add_replica (node_id : pystr) (node : ReplicaNode) : RM unit :=
  s ← sm_get;
  if dmem node_id (re_replicas s.2) then sm_raise (ContractError "duplicate replica registration")
  else on_repl (λ p, mkReplicator (re_chain p)
         (dset node_id (mkReplica (rr_region node) (bool_decide (rr_region node = primary_region)) (rr_available node) (rr_chain node)) (re_replicas p)) (re_pending p)).

(** The nodes that satisfy a condition, in the order of their ids. *)
Definition nodes_where (f : ReplicaNode → bool) (d : dict ReplicaNode) : list pystr := sort_str (filter (λ kn, f kn.2 = true) d).*1.

Definition _replicate_sync_primary (r : ChainReceipt) (d : dict ReplicaNode) : res (dict ReplicaNode) :=
  let primaries := nodes_where (λ n, rr_is_primary n && rr_available n) d in
  when bool_decide (primaries = []) raise ContractError "durability policy unmet: no available primary-region replica (RPO=0)";;
  Ok (install_all r primaries d).

(** [self.transport.send] for each secondary region, in order *)
Fixpoint send_each (r : ChainReceipt) (regions : list pystr) : RM unit :=
  match regions with
  | [] => mret tt
  | region :: regions =>
      now ← on_ha ha_now;
      _ ← on_repl (λ p, mkReplicator (re_chain p) (re_replicas p) (re_pending p ++ [mkMessage primary_region region r now (fadd now (latency region))]));
      send_each r regions
  end.
Definition secondary_regions (d : dict ReplicaNode) : list pystr :=
  sort_str (elements (list_to_set (rr_region <$> filter (λ n, rr_is_primary n = false) d.*2) : gset pystr)).

Definition replicator_append (task_id payload : pystr) : RM ChainReceipt :=
  s ← sm_get;
  r ← sm_lift (chain_append task_id payload (re_chain s.2));
  match _replicate_sync_primary r (re_replicas s.2) with
  | Raise e => sm_raise e
  | Ok d =>
      _ ← on_repl (λ p, mkReplicator (re_chain p ++ [r]) d (re_pending p));
      _ ← send_each r (secondary_regions d);
      mret r
  end.

Definition deliver : RM (list ReplicaMessage) :=
  now ← on_ha ha_now;
  s ← sm_get;
  let due := filter (λ m, SFleb (rm_deliver_at m) now = true) (re_pending s.2) in
  _ ← on_repl (λ p, mkReplicator (re_chain p)
        (foldl (λ d m, install_all (rm_receipt m) (nodes_where (λ n, bool_decide (rr_region n = rm_target m) && negb (rr_is_primary n) && rr_available n) d) d)
           (re_replicas p) due)
        (filter (λ m, SFltb now (rm_deliver_at m) = true) (re_pending p)));
  mret due.

Record LagAlert : Type := mkLagAlert { la_region : pystr; la_receipt_id : pystr; la_lag : float }.

Fixpoint alert_each (now : float) (seen : list (pystr * pystr)) (l : list ReplicaMessage) : RM (list LagAlert) :=
  match l with
  | [] => mret []
  | m :: l =>
      let lag := fsub now (rm_enqueued_at m) in
      let key := (rm_target m, cr_receipt_id (rm_receipt m)) in
      if SFltb max_lag lag && negb (bool_decide (key ∈ seen)) then
        let a := mkLagAlert (rm_target m) (cr_receipt_id (rm_receipt m)) lag in
        _ ← on_ha (ha_record (str "replication-lag-alert")
              [("region", JStr (la_region a)); ("receipt_id", JStr (la_receipt_id a)); ("lag_seconds", JFloat lag); ("max_lag_seconds", JFloat max_lag)]);
        al ← alert_each now (key :: seen) l;
        mret (a :: al)
      else alert_each now seen l
  end.
Definition message_leb (a b : ReplicaMessage) : bool :=
  str_ltb (rm_target a) (rm_target b) || bool_decide (rm_target a = rm_target b) && negb (SFltb (rm_enqueued_at b) (rm_enqueued_at a)).
Definition check_max_lag : RM (list LagAlert) :=
  now ← on_ha ha_now;
  s ← sm_get;
  alert_each now [] (sort_by message_leb (re_pending s.2)).

Definition pending_for (region : pystr) (p : Replicator) : list ReplicaMessage := filter (λ m, rm_target m = region) (re_pending p).
Definition lag (region : pystr) : RM float :=
  s ← sm_get;
  match rm_enqueued_at <$> pending_for region s.2 with
  | [] => mret (S754_zero false)
  | x :: l => now ← on_ha ha_now; mret (fsub now (foldl (λ m y, if SFltb y m then y else m) x l))
  end.

Definition assert_max_lag : RM unit :=
  alerts ← check_max_lag;
  match alerts with [] => mret tt | _ => sm_raise (ContractError "replication lag exceeds budget") end.
End replication.

(** ** Degraded mode (hadr/degraded.py) *)
Record Degraded : Type := mkDegraded { dg_station_id : pystr; dg_shared : list ChainReceipt; dg_queue : list ChainReceipt; dg_local : list ChainReceipt }.
Inductive Kept : Type := KLocal | KRemote.
Record ConflictResolution : Type := mkResolution { cf_receipt_id : pystr; cf_kept : Kept }.
Abbreviation DM := (SM (HaState * Degraded)).
Definition set_shared (c : list ChainReceipt) : HaState * Degraded → HaState * Degraded :=
  λ s, (s.1, mkDegraded (dg_station_id s.2) c (dg_queue s.2) (dg_local s.2)).
Definition set_queue (q : list ChainReceipt) : HaState * Degraded → HaState * Degraded :=
  λ s, (s.1, mkDegraded (dg_station_id s.2) (dg_shared s.2) q (dg_local s.2)).

Definition publish (r : ChainReceipt) : DM unit :=
  s ← sm_get;
  r' ← sm_lift (chain_append (cr_task_id r) (cr_payload r) (dg_shared s.2));
  sm_mod (set_shared (dg_shared s.2 ++ [r'])).

Definition operate (local_model : pystr → res pystr) (task_id work : pystr) : DM ChainReceipt :=
  if blank work then sm_raise (ContractError "work input is required")
  else
    output ← sm_lift (local_model work);
    s ← sm_get;
    r ← sm_lift (chain_append task_id output (dg_local s.2));
    _ ← sm_mod (λ s, (s.1, mkDegraded (dg_station_id s.2) (dg_shared s.2) (dg_queue s.2) (dg_local s.2 ++ [r])));
    connected ← sm_lift (is_reachable (dg_station_id s.2) s.1);
    _ ← (if negb connected then sm_mod (λ s, set_queue (dg_queue s.2 ++ [r]) s) else publish r);
    mret r.

(** The first receipt of the shared chain that decides a merge: an equal one, or a
    different result of the same task. *)
Definition deciding (r existing : ChainReceipt) : bool :=
  bool_decide (cr_receipt_id existing = cr_receipt_id r) ||
  bool_decide (cr_task_id existing = cr_task_id r) && negb (bool_decide (cr_payload existing = cr_payload r)).

Definition _merge (r : ChainReceipt) : DM (option ConflictResolution) :=
  s ← sm_get;
  match List.find (deciding r) (dg_shared s.2) with
  | None => _ ← publish r; mret None
  | Some existing =>
      if bool_decide (cr_receipt_id existing = cr_receipt_id r) then mret None
      else if str_ltb (cr_payload r) (cr_payload existing) then _ ← publish r; mret (Some (mkResolution (cr_receipt_id r) KLocal))
      else mret (Some (mkResolution (cr_receipt_id r) KRemote))
  end.

(** [self.local_queue.remove(receipt)]: the first equal entry *)
Fixpoint remove_first (r : ChainReceipt) (l : list ChainReceipt) : list ChainReceipt :=
  match l with [] => [] | x :: l => if decide (x = r) then l else x :: remove_first r l end.

Fixpoint merge_each (l : list ChainReceipt) : DM (list ConflictResolution) :=
  match l with
  | [] => mret []
  | r :: l =>
      o ← _merge r;
      _ ← sm_mod (λ s, set_queue (remove_first r (dg_queue s.2)) s);
      rest ← merge_each l;
      mret (match o with Some c => c :: rest | None => rest end)
  end.

Definition sync : DM (list ConflictResolution) :=
  s ← sm_get;
  connected ← sm_lift (is_reachable (dg_station_id s.2) s.1);
  if negb connected then sm_raise (ContractError "cannot sync while the cluster is unavailable")
  else
    resolutions ← merge_each (dg_queue s.2);
    s ← sm_get;
    _ ← on_ha (ha_record (str "degraded-sync")
          [("station_id", JStr (dg_station_id s.2)); ("merged", JInt (Z.of_nat (length resolutions))); ("queue_remaining", JInt (Z.of_nat (length (dg_queue s.2))))]);
    mret resolutions.
End hadr.
