(* ===== verification/HadrTheorems.v ===== *)
(** * Replication loses no acknowledged receipt; failover and degraded mode resume on a verified chain *)

From Stdlib Require Import ZArith NArith Lia SpecFloat.
From S2P Require Import Prelude PyData Sha256 PyFloat Json JsonFacts Core CoreFacts Storage Builtins Journal JsonPlain Hadr.

(** ** Receipt chains, the event journal and replication: what every operation keeps *)

(** ** Chains *)
(** One receipt after [prev], at position [index]. *)
Definition chain_link (index : Z) (prev : pystr) (r : ChainReceipt) : Prop :=
  cr_sequence r = index ∧ cr_prev_hash r = prev ∧ _receipt_hash index (cr_task_id r) (cr_payload r) prev = Ok (cr_receipt_id r).

Lemma chain_verify_cons index prev r c :
  chain_verify_from index prev (r :: c) = Ok true ↔ chain_link index prev r ∧ chain_verify_from (index + 1) (cr_receipt_id r) c = Ok true.
Proof.
  cbn [chain_verify_from]. unfold chain_link, receipt_verify.
  destruct (Z.eqb_spec (cr_sequence r) index) as [->|Hs]; cbn [negb orb]; [|naive_solver].
  case_bool_decide as Hp; cbn [negb]; [|naive_solver]. rewrite Hp.
  destruct (_receipt_hash _ _ _ _) as [h|]; cbn [mbind res_bind]; [|naive_solver].
  case_bool_decide; cbn [negb]; naive_solver.
Qed.

Definition chain_head (prev : pystr) (c : list ChainReceipt) : pystr := match last c with Some r => cr_receipt_id r | None => prev end.

Lemma chain_verify_snoc index prev c r :
  chain_verify_from index prev (c ++ [r]) = Ok true ↔
  chain_verify_from index prev c = Ok true ∧ chain_link (index + Z.of_nat (length c)) (chain_head prev c) r.
Proof.
  revert index prev. induction c as [|q c IH]; intros index prev; cbn [app].
  - rewrite chain_verify_cons. unfold chain_head. cbn [last length]. rewrite Z.add_0_r. cbn [chain_verify_from]. tauto.
  - rewrite !chain_verify_cons, IH. unfold chain_head.
    replace (index + Z.of_nat (length (q :: c)))%Z with (index + 1 + Z.of_nat (length c))%Z by (cbn [length]; lia).
    destruct c as [|q' c]; [cbn [last]; tauto|].
    rewrite last_cons_cons. destruct (last (q' :: c)) eqn:E; [tauto|by apply last_None in E].
Qed.

Lemma chain_append_spec t p c r :
  chain_append t p c = Ok r →
  blank t = false ∧ cr_task_id r = t ∧ cr_payload r = p ∧ chain_link (Z.of_nat (length c)) (head_hash c) r.
Proof.
  unfold chain_append. destruct (blank t); [done|]. cbn [negb]. intros H. apply bind_Ok in H as (h & Hh & [= <-]). by repeat split.
Qed.

Lemma chain_append_verifies t p c r : chain_append t p c = Ok r → chain_verify c = Ok true → chain_verify (c ++ [r]) = Ok true.
Proof.
  intros Hr Hc. apply chain_append_spec in Hr as (_ & _ & _ & Hl). unfold chain_verify. apply chain_verify_snoc. split; [done|].
  by rewrite Z.add_0_l.
Qed.

(** ** What can be hashed *)
Lemma encodable_dec_digits fuel n acc : encodable acc = true → encodable (dec_digits fuel n acc) = true.
Proof.
  revert n acc. induction fuel as [|fuel IH]; intros n acc Ha; cbn [dec_digits]; [done|].
  assert (Hc : encodable (digit_char (n mod 10) :: acc) = true).
  { unfold encodable in *. cbn [forallb]. rewrite Ha, andb_true_r. pose proof (Z.mod_pos_bound n 10 eq_refl).
    destruct (in_range 55296 57343 _) eqn:E; [|done]. unfold digit_char in E. apply in_range_iff in E. lia. }
  destruct (n <? 10)%Z; [exact Hc|by apply IH].
Qed.
Lemma encodable_cons c s : encodable (c :: s) = encodable [c] && encodable s.
Proof. exact (encodable_app [c] s). Qed.
Lemma encodable_sublist s t : s `sublist_of` t → encodable t = true → encodable s = true.
Proof.
  unfold encodable. rewrite !forallb_true. intros Hs Ht c Hc. apply Ht. by eapply elem_of_sublist.
Qed.
Lemma strip_zeros_sublist s : strip_zeros s `sublist_of` s.
Proof.
  induction s as [|c s IH]; cbn [strip_zeros]; [done|]. destruct (strip_zeros s) as [|d s'].
  - destruct (c =? 48)%N; [apply sublist_cons, sublist_nil_l|apply sublist_skip, sublist_nil_l].
  - by apply sublist_skip.
Qed.
Lemma encodable_zeros n : encodable (zeros n) = true.
Proof. unfold zeros. induction (Z.to_nat n) as [|k IH]; [done|]. exact IH. Qed.
Lemma encodable_exponent e : encodable (exponent_text e) = true.
Proof.
  unfold exponent_text. rewrite !encodable_app. unfold str_of_nonneg. rewrite encodable_dec_digits by done. by repeat case_match.
Qed.
Lemma encodable_repr_digits ds p : encodable ds = true → encodable (repr_digits ds p) = true.
Proof.
  intros H. unfold repr_digits. repeat case_match; subst; rewrite ?encodable_app, ?encodable_zeros, ?encodable_exponent, ?H; try done.
  - rewrite (encodable_sublist _ _ (sublist_take _ _) H), (encodable_sublist _ _ (sublist_drop _ _) H). done.
  - rewrite encodable_cons in H. apply andb_true_iff in H as [-> ->]. done.
Qed.
Lemma storable_float f : is_finite f = true → storable (JFloat f) = true.
Proof.
  intros Hf. unfold storable. cbn [canonical]. rewrite Hf. destruct f as [[]| | |s m e]; try done. cbn [float_repr].
  rewrite encodable_app. apply andb_true_iff. split; [by destruct s|]. unfold repr_pos.
  destruct (if (0 <=? e)%Z then _ else _) as [num den]. destruct (shortest _ _ _ _ _ _ _) as [d n].
  destruct (d =? 10 ^ n)%Z; apply encodable_repr_digits; [done|].
  eapply encodable_sublist; [apply strip_zeros_sublist|]. unfold str_of_nonneg. by apply encodable_dec_digits.
Qed.
Lemma storable_list l : Forall (λ v, storable v = true) l → storable (JList l) = true.
Proof.
  intros H. unfold storable. cbn [canonical].
  assert (∃ ts, res_all (canonical <$> l) = Ok ts ∧ Forall (λ t, encodable t = true) ts) as (ts & -> & Hts).
  { induction H as [|v l Hv _ (ts & Hts & IH)]; [by exists []|]. rewrite fmap_cons. cbn [res_all]. unfold storable in Hv.
    destruct (canonical v) as [t|]; [|done]. rewrite Hts. exists (t :: ts). split; [done|]. by constructor. }
  cbn [mbind res_bind]. rewrite !encodable_app, encodable_join; done.
Qed.
Lemma storable_bool b : storable (JBool b) = true.
Proof. by destruct b. Qed.
Lemma storable_strs l : Forall (λ s, encodable s = true) l → storable (JList (JStr <$> l)) = true.
Proof. intros H. apply storable_list, Forall_fmap. eapply Forall_impl; [exact H|]. exact storable_str. Qed.
Lemma storable_text v : storable v = true → ∃ t, canonical v = Ok t ∧ encodable t = true.
Proof. unfold storable. destruct (canonical v) as [t|]; [|done]. by exists t. Qed.

(** The hash of a storable body under a schema line. *)
Lemma schema_hash_total schema v :
  encodable schema = true → storable v = true → ∃ h, (t ← canonical v; sha_text (schema ++ [10%N] ++ t)) = Ok h.
Proof.
  intros Hs Hv. destruct (storable_text v Hv) as (t & -> & Ht). cbn [mbind res_bind]. unfold sha_text.
  destruct (encode_ok (schema ++ [10%N] ++ t)) as [b ->]; [by rewrite !encodable_app, Hs, Ht|]. eauto.
Qed.
Lemma schema_hash_digest schema v h : (t ← canonical v; sha_text (schema ++ [10%N] ++ t)) = Ok h → is_digest h = true.
Proof.
  intros H. apply bind_Ok in H as (t & _ & H). unfold sha_text in H. destruct (encode _) as [b|]; [|done]. injection H as <-. apply sha256_hex_is_digest.
Qed.

Lemma head_hash_encodable c : chain_verify c = Ok true → encodable (head_hash c) = true.
Proof.
  intros H. unfold head_hash. destruct (last c) as [r|] eqn:E; [|done]. apply last_Some in E as [c' ->]. apply chain_verify_snoc in H as (_ & _ & _ & Hh).
  apply schema_hash_digest in Hh. by apply digest_encodable.
Qed.

(** A receipt is appended whenever the task is named and its text can be encoded. *)
Lemma chain_append_total t p c :
  chain_verify c = Ok true → (Z.of_nat (length c) < 2 ^ 64)%Z → blank t = false → encodable t = true → encodable p = true →
  ∃ r, chain_append t p c = Ok r.
Proof.
  intros Hc Hn Hb Ht Hp. unfold chain_append. rewrite Hb. cbn [negb].
  destruct (schema_hash_total HADR_CHAIN_SCHEMA (chain_body (Z.of_nat (length c)) t p (head_hash c))) as [h Hh]; [done| |].
  - unfold chain_body. apply storable_jobj; [done|].
    repeat constructor; cbn [snd]; [apply storable_nat; lia|by apply storable_str..|by apply storable_str, head_hash_encodable].
  - unfold _receipt_hash. rewrite Hh. eauto.
Qed.

(** ** The journal *)
Definition event_link (prev : pystr) (e : HaEvent) : Prop :=
  he_prev_hash e = prev ∧ event_hash (he_kind e) (he_at e) (he_details e) prev = Ok (he_event_hash e).
Definition journal_head (prev : pystr) (l : list HaEvent) : pystr := match last l with Some e => he_event_hash e | None => prev end.

Lemma journal_verify_cons prev e l :
  journal_verify_from prev (e :: l) = Ok true ↔ event_link prev e ∧ journal_verify_from (he_event_hash e) l = Ok true.
Proof.
  cbn [journal_verify_from]. unfold event_link. destruct (decide (he_prev_hash e = prev)) as [Hp|Hp].
  - rewrite Hp. destruct (event_hash _ _ _ _) as [h|]; cbn [mbind res_bind]; [|naive_solver].
    rewrite bool_decide_true by done. cbn [negb orb]. case_bool_decide; cbn [negb]; naive_solver.
  - rewrite bool_decide_false by done. cbn [negb orb]. destruct (event_hash _ _ _ _); cbn [mbind res_bind]; naive_solver.
Qed.

Lemma journal_verify_snoc prev l e :
  journal_verify_from prev (l ++ [e]) = Ok true ↔ journal_verify_from prev l = Ok true ∧ event_link (journal_head prev l) e.
Proof.
  revert prev. induction l as [|q l IH]; intros prev; cbn [app].
  - rewrite journal_verify_cons. unfold journal_head. cbn [last journal_verify_from]. tauto.
  - rewrite !journal_verify_cons, IH. unfold journal_head. destruct l as [|q' l]; [cbn [last]; tauto|].
    rewrite last_cons_cons. destruct (last (q' :: l)) eqn:E; [tauto|by apply last_None in E].
Qed.

Definition journal_inv (s : HaState) : Prop := journal_verify (ha_journal s) = Ok true.

(** The shared state moved on: the journal grew and the rest is as it was. *)
Record ha_later (s s' : HaState) : Prop := {
  hl_journal : ha_journal s `prefix_of` ha_journal s';
  hl_stations : ha_stations s' = ha_stations s;
  hl_takeovers : ha_takeovers s' = ha_takeovers s;
  hl_verifies : journal_inv s → journal_inv s'
}.
#[export] Instance ha_later_preorder : PreOrder ha_later.
Proof.
  split; [by constructor|]. intros a b c [? Hs Ht ?] [? Hs' Ht' ?]. constructor; [by etrans|by rewrite Hs', Hs|by rewrite Ht', Ht|auto].
Qed.

Section record.
Context (clock : nat → float).

Lemma ha_now_later s : ha_later s (ha_now clock s).2.
Proof. by constructor. Qed.

Lemma ha_record_spec kind details s :
  match ha_record clock kind details s with
  | (Ok e, s') => he_kind e = kind ∧ ha_journal s' = ha_journal s ++ [e] ∧ event_link (journal_head HADR_GENESIS (ha_journal s)) e ∧ ha_later s s'
  | (Raise _, s') => ha_later s s'
  end.
Proof.
  unfold ha_record. destruct (bool_decide (kind ∈ HA_KINDS)); cbn [negb]; [|by constructor].
  unfold mbind at 1, SM_bind. cbn [ha_now]. set (s1 := mkHa (S (ha_tick s)) _ _ _).
  unfold mbind at 1, SM_bind, sm_lift at 1. destruct (mapM _ details) as [n|]; [|exact (ha_now_later s)].
  set (n' := sort_by _ n). clearbody n'. clear n. unfold mbind at 1, SM_bind, sm_get. fold (journal_head HADR_GENESIS (ha_journal s1)).
  unfold mbind at 1, SM_bind, sm_lift. destruct (event_hash _ _ _ _) as [h|] eqn:Eh; [|exact (ha_now_later s)].
  unfold mbind, SM_bind, sm_mod, mret, SM_ret. cbn [he_kind ha_journal].
  assert (Hl : event_link (journal_head HADR_GENESIS (ha_journal s)) (mkHaEvent h kind (clock (ha_tick s)) n' (journal_head HADR_GENESIS (ha_journal s1)))) by done.
  split_and!; [done|done|exact Hl|]. constructor; [by eexists|done|done|].
  unfold journal_inv. cbn [ha_journal]. intros H. apply journal_verify_snoc. by split.
Qed.

Lemma ha_record_later kind details s : ha_later s (ha_record clock kind details s).2.
Proof. pose proof (ha_record_spec kind details s) as H. destruct (ha_record clock kind details s) as [[e|] s']; [apply H|done]. Qed.

Lemma journal_head_encodable s : journal_inv s → encodable (journal_head HADR_GENESIS (ha_journal s)) = true.
Proof.
  intros H. unfold journal_head. destruct (last (ha_journal s)) as [e|] eqn:E; [|done]. apply last_Some in E as [l E]. unfold journal_inv in H. rewrite E in H.
  apply journal_verify_snoc in H as (_ & _ & Hh). apply schema_hash_digest in Hh. by apply digest_encodable.
Qed.

(** Events of a known kind with storable details are always recorded. *)
Lemma ha_record_total kind details s :
  journal_inv s → (∀ n, is_finite (clock n) = true) → kind ∈ HA_KINDS →
  forallb (λ kv, encodable (str kv.1)) details = true → Forall (λ kv, storable kv.2 = true) details →
  ∃ e s', ha_record clock kind details s = (Ok e, s').
Proof.
  intros Hj Hfin Hk Hkeys Hd. unfold ha_record. rewrite bool_decide_true by done. cbn [negb].
  unfold mbind at 1, SM_bind. cbn [ha_now]. set (s1 := mkHa (S (ha_tick s)) _ _ _).
  assert (∃ n, mapM (λ kv : string * json, t ← canonical kv.2; Ok (str kv.1, t)) details = Ok n ∧
    Forall (λ kv : pystr * pystr, encodable kv.1 = true ∧ encodable kv.2 = true) n) as (n & Hn & Hen).
  { clear -Hkeys Hd. rewrite forallb_true in Hkeys. induction Hd as [|[k v] details Hv _ IH]; [by exists []|].
    destruct IH as (n & Hn & Hen); [intros x Hx; apply Hkeys; by constructor|]. destruct (storable_text v Hv) as (t & Ht & Het).
    exists ((str k, t) :: n). split.
    - apply mapM_res_Ok. constructor; [cbn [snd fst]; by rewrite Ht|]. by apply mapM_res_Ok.
    - constructor; [|done]. split; [|done]. apply (Hkeys (k, v)). constructor. }
  unfold mbind at 1, SM_bind, sm_lift at 1. rewrite Hn. set (le := λ a b : pystr * pystr, _). assert (Hs : sort_by le n ≡ₚ n) by apply sort_by_perm.
  set (n' := sort_by le n) in *. clearbody n'. rewrite <- Hs in Hen. clear Hs Hn n le.
  unfold mbind at 1, SM_bind, sm_get. fold (journal_head HADR_GENESIS (ha_journal s1)).
  assert (∃ h, event_hash kind (clock (ha_tick s)) n' (journal_head HADR_GENESIS (ha_journal s1)) = Ok h) as [h Hh].
  { apply schema_hash_total; [done|]. unfold event_body. apply storable_jobj; [done|]. repeat constructor; cbn [snd].
    - apply storable_str. unfold HA_KINDS in Hk. apply list_elem_of_fmap in Hk as (k & -> & Hk). clear -Hk.
      repeat (apply elem_of_cons in Hk as [->|Hk]; [done|]). by apply elem_of_nil in Hk.
    - by apply storable_float.
    - apply storable_list, Forall_fmap. eapply Forall_impl; [exact Hen|]. intros [k v] [? ?].
      cbn. apply (storable_strs [k; v]). by repeat constructor.
    - by apply storable_str, (journal_head_encodable s). }
  unfold mbind at 1, SM_bind, sm_lift. rewrite Hh. unfold mbind, SM_bind, sm_mod, mret, SM_ret. eauto.
Qed.
End record.

(** ** Replication *)
Lemma nodes_where_elem f (d : dict ReplicaNode) id : wf_dict d → id ∈ nodes_where f d ↔ ∃ n, dget id d = Some n ∧ f n = true.
Proof.
  intros Hd. unfold nodes_where. rewrite elem_of_sort_by, list_elem_of_fmap. split.
  - intros ([k n] & -> & Hin). apply list_elem_of_filter in Hin as [Hf Hin]. exists n. split; [by apply dget_elem|done].
  - intros (n & Hn & Hf). exists (id, n). split; [done|]. apply list_elem_of_filter. split; [done|by apply dget_Some_elem].
Qed.
Lemma NoDup_nodes_where f (d : dict ReplicaNode) : wf_dict d → NoDup (nodes_where f d).
Proof.
  intros Hd. unfold nodes_where. apply NoDup_sort_by. unfold wf_dict in Hd. induction d as [|[k n] d IH]; [constructor|].
  rewrite fmap_cons in Hd. apply NoDup_cons in Hd as [Hk Hd]. rewrite filter_cons. case_decide; [|by apply IH].
  rewrite fmap_cons. apply NoDup_cons. split; [|by apply IH]. cbn [fst] in *. intros Hin. apply Hk. apply list_elem_of_fmap in Hin as (kn & -> & Hin).
  apply list_elem_of_filter in Hin as [_ Hin]. by apply list_elem_of_fmap_2.
Qed.

Lemma install_all_wf r ids d : wf_dict d → wf_dict (install_all r ids d).
Proof.
  unfold install_all. revert d. induction ids as [|id ids IH]; intros d Hd; [done|]. cbn [foldl]. apply IH. destruct (dget id d); [by apply wf_dset|done].
Qed.

Lemma dget_install_all r ids d id :
  NoDup ids → dget id (install_all r ids d) = (λ n, if decide (id ∈ ids) then install_in r n else n) <$> dget id d.
Proof.
  unfold install_all. revert d. induction ids as [|i ids IH]; intros d Hn; cbn [foldl].
  - destruct (dget id d); [|done]. cbn. by rewrite decide_False by (by intros ?%elem_of_nil).
  - apply NoDup_cons in Hn as [Hi Hn]. rewrite IH by done. destruct (decide (id = i)) as [->|Hne].
    + destruct (dget i d) as [n|] eqn:E; [|by rewrite E]. rewrite dget_dset_eq. cbn [fmap option_fmap option_map].
      by rewrite (decide_True (P := i ∈ i :: ids)), (decide_False (P := i ∈ ids)) by (done || constructor).
    + assert (dget id (match dget i d with Some n => dset i (install_in r n) d | None => d end) = dget id d) as ->.
      { destruct (dget i d); [by apply dget_dset_ne|done]. }
      destruct (dget id d); [|done]. cbn. f_equal. repeat case_decide; set_solver.
Qed.

(** The receipt goes to exactly the nodes that satisfy the condition. *)
Lemma dget_install_where f r d id :
  wf_dict d → dget id (install_all r (nodes_where f d) d) = (λ n, if f n then install_in r n else n) <$> dget id d.
Proof.
  intros Hd. rewrite dget_install_all by (by apply NoDup_nodes_where). destruct (dget id d) as [n|] eqn:E; [|done]. cbn. f_equal.
  case_decide as Hin; rewrite nodes_where_elem in Hin by done.
  - destruct Hin as (n' & Hn' & Hf). rewrite E in Hn'. injection Hn' as <-. by rewrite Hf.
  - destruct (f n) eqn:Ef; [|done]. destruct Hin. eauto.
Qed.

Lemma secondary_regions_elem d region : region ∈ secondary_regions d ↔ ∃ id n, (id, n) ∈ d ∧ rr_is_primary n = false ∧ rr_region n = region.
Proof.
  unfold secondary_regions. rewrite elem_of_sort_by, elem_of_elements, elem_of_list_to_set, list_elem_of_fmap. split.
  - intros (n & -> & Hin). apply list_elem_of_filter in Hin as [Hp Hin]. apply list_elem_of_fmap in Hin as ([id m] & -> & Hin). by exists id, m.
  - intros (id & n & Hin & Hp & <-). exists n. split; [done|]. apply list_elem_of_filter. split; [done|]. apply list_elem_of_fmap. by exists (id, n).
Qed.
Lemma NoDup_secondary_regions d : NoDup (secondary_regions d).
Proof. unfold secondary_regions. apply NoDup_sort_by, NoDup_elements. Qed.

(** ** Replication *)
Inductive ReplOp : Type :=
  | PAdd (node_id region : pystr)
  | PAvailable (node_id : pystr) (b : bool)
  | PAppend (task_id payload : pystr)
  | PDeliver
  | PCheckLag.

(** The host marks a node as available or not. *)
Definition set_available (node_id : pystr) (b : bool) : SM (HaState * Replicator) unit :=
  on_repl (λ p, match dget node_id (re_replicas p) with
                | Some n => mkReplicator (re_chain p) (dset node_id (mkReplica (rr_region n) (rr_is_primary n) b (rr_chain n)) (re_replicas p)) (re_pending p)
                | None => p
                end).

Definition is_durable_at (n : ReplicaNode) : bool := rr_is_primary n && rr_available n.

Record repl_inv (primary_region : pystr) (p : Replicator) : Prop := {
  ri_wf : wf_dict (re_replicas p);
  ri_chain : chain_verify (re_chain p) = Ok true;
  ri_region id n : dget id (re_replicas p) = Some n → rr_is_primary n = bool_decide (rr_region n = primary_region);
  ri_durable r : r ∈ re_chain p → ∃ id n, dget id (re_replicas p) = Some n ∧ rr_is_primary n = true ∧ r ∈ rr_chain n;
  ri_primary id n : dget id (re_replicas p) = Some n → rr_is_primary n = true → rr_chain n `sublist_of` re_chain p;
  ri_secondary id n r : dget id (re_replicas p) = Some n → r ∈ rr_chain n → r ∈ re_chain p;
  ri_pending m : m ∈ re_pending p → rm_receipt m ∈ re_chain p ∧ rm_target m ≠ primary_region
}.

Section replication.
Context (clock : nat → float) (primary_region : pystr) (max_lag : float) (latency : pystr → float).

Definition repl_op (op : ReplOp) : SM (HaState * Replicator) unit :=
  match op with
  | PAdd id region => add_replica primary_region id (mkReplica region false true [])
  | PAvailable id b => set_available id b
  | PAppend t p => _ ← replicator_append clock primary_region latency t p; mret tt
  | PDeliver => _ ← deliver clock; mret tt
  | PCheckLag => _ ← check_max_lag clock max_lag; mret tt
  end.
Definition repl_run (ops : list ReplOp) (s : HaState * Replicator) : HaState * Replicator := foldl (λ s op, (repl_op op s).2) s ops.

(** What one step does to the nodes: their chains only grow, with receipts of the
    replicator's chain. *)
Lemma send_each_spec r regions s :
  ∃ h ms, send_each clock primary_region latency r regions s = (Ok tt, (h, mkReplicator (re_chain s.2) (re_replicas s.2) (re_pending s.2 ++ ms))) ∧
    ha_later s.1 h ∧ rm_target <$> ms = regions ∧ Forall (λ m, rm_receipt m = r ∧ rm_deliver_at m = fadd (rm_enqueued_at m) (latency (rm_target m))) ms.
Proof.
  revert s. induction regions as [|region regions IH]; intros [h p]; cbn [send_each].
  - exists h, []. rewrite app_nil_r. destruct p. split_and!; [done|done|done|constructor].
  - unfold mbind at 1, SM_bind, on_ha at 1. cbn [ha_now fst snd]. set (h1 := mkHa (S (ha_tick h)) _ _ _). set (now := clock (ha_tick h)).
    unfold mbind at 1, SM_bind, on_repl, sm_mod. cbn [fst snd].
    set (m := mkMessage _ _ _ _ _). destruct (IH (h1, mkReplicator (re_chain p) (re_replicas p) (re_pending p ++ [m]))) as (h' & ms & E & Hl & Ht & Hf).
    cbn [fst snd re_chain re_replicas re_pending] in E, Hl.
    exists h', (m :: ms). split_and!.
    + rewrite E. by rewrite <- app_assoc.
    + etrans; [|exact Hl]. by constructor.
    + by rewrite fmap_cons, Ht.
    + by constructor.
Qed.

Definition primary_available (p : Replicator) : Prop := ∃ id n, dget id (re_replicas p) = Some n ∧ is_durable_at n = true.

Lemma append_spec t pl s :
  wf_dict (re_replicas s.2) →
  match replicator_append clock primary_region latency t pl s with
  | (Ok r, s') =>
      chain_append t pl (re_chain s.2) = Ok r ∧ primary_available s.2 ∧ ha_later s.1 s'.1 ∧
      re_chain s'.2 = re_chain s.2 ++ [r] ∧ wf_dict (re_replicas s'.2) ∧
      (∀ id, dget id (re_replicas s'.2) = (λ n, if is_durable_at n then install_in r n else n) <$> dget id (re_replicas s.2)) ∧
      ∃ ms, re_pending s'.2 = re_pending s.2 ++ ms ∧ rm_target <$> ms = secondary_regions (re_replicas s'.2) ∧ Forall (λ m, rm_receipt m = r) ms
  | (Raise e, s') => s' = s ∧ (chain_append t pl (re_chain s.2) = Raise e ∨ (∃ r, chain_append t pl (re_chain s.2) = Ok r) ∧ ¬ primary_available s.2)
  end.
Proof.
  intros Hwf. unfold replicator_append. unfold mbind at 1, SM_bind, sm_get. unfold mbind at 1, SM_bind, sm_lift.
  destruct (chain_append t pl (re_chain s.2)) as [r|e] eqn:Er; [|by auto].
  unfold _replicate_sync_primary. fold is_durable_at. set (ids := nodes_where is_durable_at (re_replicas s.2)).
  assert (Hids : ids = [] ↔ ¬ primary_available s.2).
  { unfold ids, primary_available. split.
    - intros E (id & n & Hn & Hd). assert (Hin : id ∈ nodes_where is_durable_at (re_replicas s.2)) by (apply nodes_where_elem; eauto).
      rewrite E in Hin. by apply elem_of_nil in Hin.
    - intros H. destruct (nodes_where _ _) as [|id l] eqn:E; [done|]. destruct H.
      assert (Hin : id ∈ nodes_where is_durable_at (re_replicas s.2)) by (rewrite E; constructor). apply nodes_where_elem in Hin as (n & ? & ?); eauto. }
  case_bool_decide as Hd; cbn [negb].
  - cbn [mbind res_bind]. split; [done|]. right. split; [eauto|by apply Hids].
  - cbn [mbind res_bind]. unfold mbind at 1, SM_bind, on_repl, sm_mod. cbn [fst snd]. set (d := install_all r ids (re_replicas s.2)).
    unfold mbind, SM_bind. destruct (send_each_spec r (secondary_regions d) (s.1, mkReplicator (re_chain s.2 ++ [r]) d (re_pending s.2))) as (h & ms & -> & Hl & Ht & Hf).
    cbn [fst snd re_chain re_replicas re_pending mret SM_ret] in *. split_and!; [done| |done|done| |..].
    + destruct ids as [|id l] eqn:E; [done|]. assert (Hin : id ∈ nodes_where is_durable_at (re_replicas s.2)) by (fold ids; rewrite E; constructor).
      apply nodes_where_elem in Hin as (n & ? & ?); [by exists id, n|done].
    + by apply install_all_wf.
    + intros id. by apply dget_install_where.
    + exists ms. split_and!; [done|done|]. eapply Forall_impl; [exact Hf|]. by intros m [? _].
Qed.

(** The receipts of the due messages, appended in order at the available secondary
    nodes of their targets. *)
Definition delivered_to (n : ReplicaNode) (m : ReplicaMessage) : bool := bool_decide (rr_region n = rm_target m) && negb (rr_is_primary n) && rr_available n.
Definition install_due (due : list ReplicaMessage) (n : ReplicaNode) : ReplicaNode :=
  mkReplica (rr_region n) (rr_is_primary n) (rr_available n) (rr_chain n ++ (rm_receipt <$> filter (λ m, delivered_to n m = true) due)).
Definition install_step (d : dict ReplicaNode) (m : ReplicaMessage) : dict ReplicaNode :=
  install_all (rm_receipt m) (nodes_where (λ n, delivered_to n m) d) d.

Lemma install_due_cons m due n : install_due (m :: due) n = install_due due (if delivered_to n m then install_in (rm_receipt m) n else n).
Proof.
  unfold install_due. rewrite filter_cons. destruct n as [region pr av c]. destruct (delivered_to _ m) eqn:E.
  - rewrite decide_True by done. rewrite fmap_cons. unfold install_in. cbn [rr_region rr_is_primary rr_available rr_chain]. by rewrite <- app_assoc.
  - by rewrite decide_False by done.
Qed.

Lemma deliver_nodes due d id : wf_dict d → wf_dict (foldl install_step d due) ∧ dget id (foldl install_step d due) = install_due due <$> dget id d.
Proof.
  revert d. induction due as [|m due IH]; intros d Hd; cbn [foldl].
  - split; [done|]. destruct (dget id d) as [[? ? ? c]|]; [|done]. cbn. unfold install_due. cbn. by rewrite app_nil_r.
  - destruct (IH (install_step d m)) as [Hw IH']; [by apply install_all_wf|]. split; [done|]. rewrite IH'. unfold install_step.
    rewrite dget_install_where by done. destruct (dget id d) as [n|]; [|done]. cbn [fmap option_fmap option_map]. f_equal. symmetry. apply install_due_cons.
Qed.

Definition is_due (now : float) (m : ReplicaMessage) : bool := SFleb (rm_deliver_at m) now.

Lemma deliver_spec s :
  wf_dict (re_replicas s.2) →
  let now := clock (ha_tick s.1) in let due := filter (λ m, is_due now m = true) (re_pending s.2) in
  ∃ h d, deliver clock s = (Ok due, (h, mkReplicator (re_chain s.2) d (filter (λ m, SFltb now (rm_deliver_at m) = true) (re_pending s.2)))) ∧
    ha_later s.1 h ∧ wf_dict d ∧ ∀ id, dget id d = install_due due <$> dget id (re_replicas s.2).
Proof.
  destruct s as [h p]. intros Hwf now due. exists (mkHa (S (ha_tick h)) (ha_journal h) (ha_stations h) (ha_takeovers h)), (foldl install_step (re_replicas p) due).
  split; [reflexivity|]. split; [by constructor|].
  split; [by apply (deliver_nodes due (re_replicas p) [])|]. intros id. by apply deliver_nodes.
Qed.

Lemma alert_each_spec now seen l s :
  match alert_each clock max_lag now seen l s with
  | (Ok al, s') => s'.2 = s.2 ∧ ha_later s.1 s'.1 ∧
      ∀ key, key ∈ ((λ a, (la_region a, la_receipt_id a)) <$> al) ↔
        key ∉ seen ∧ ∃ m, m ∈ l ∧ SFltb max_lag (fsub now (rm_enqueued_at m)) = true ∧ key = (rm_target m, cr_receipt_id (rm_receipt m))
  | (Raise _, s') => s'.2 = s.2 ∧ ha_later s.1 s'.1
  end.
Proof.
  revert seen s. induction l as [|m l IH]; intros seen s; cbn [alert_each].
  - split_and!; [done|reflexivity|]. intros key. cbn. split; [by intros ?%elem_of_nil|]. by intros (_ & m & ?%elem_of_nil & _).
  - set (key := (rm_target m, cr_receipt_id (rm_receipt m))). set (late := SFltb max_lag (fsub now (rm_enqueued_at m))).
    assert (Hskip : late = false ∨ key ∈ seen →
      ∀ k, (k ∉ seen ∧ ∃ m0, m0 ∈ m :: l ∧ SFltb max_lag (fsub now (rm_enqueued_at m0)) = true ∧ k = (rm_target m0, cr_receipt_id (rm_receipt m0))) ↔
           (k ∉ seen ∧ ∃ m0, m0 ∈ l ∧ SFltb max_lag (fsub now (rm_enqueued_at m0)) = true ∧ k = (rm_target m0, cr_receipt_id (rm_receipt m0)))).
    { intros Hs k. split; intros (Hk & m0 & Hm & Hl & ->); (split; [done|]); exists m0.
      - apply elem_of_cons in Hm as [->|Hm]; [|done]. destruct Hs as [Hs|Hs]; [by unfold late in Hs; rewrite Hl in Hs|done].
      - split; [by constructor|done]. }
    destruct (late && negb (bool_decide (key ∈ seen))) eqn:Ec.
    + apply andb_true_iff in Ec as [Hlate Hkey]. apply negb_true_iff, bool_decide_eq_false in Hkey.
      unfold mbind at 1, SM_bind, on_ha at 1. set (dts := [_; _; _; _]).
      pose proof (ha_record_later clock (str "replication-lag-alert") dts s.1) as Hr. destruct (ha_record _ _ _ _) as [[e|x] h]; cbn [snd] in Hr; [|done].
      unfold mbind at 1, SM_bind. specialize (IH (key :: seen) (h, s.2)). destruct (alert_each _ _ _ _ _ _) as [[al|x] s'].
      * destruct IH as (E & Hl & Hal). cbn [fst snd] in *. split_and!; [done|by etrans|]. intros k.
        rewrite fmap_cons, elem_of_cons, Hal. cbn [la_region la_receipt_id]. fold key. split.
        -- intros [->|(Hk & m0 & Hm & ?)]; [split; [done|]; exists m; split; [constructor|done]|].
           split; [intros ?; apply Hk; by constructor|]. exists m0. split; [by constructor|done].
        -- intros (Hk & m0 & Hm & Hl0 & ->). apply elem_of_cons in Hm as [->|Hm]; [by left|].
           destruct (decide ((rm_target m0, cr_receipt_id (rm_receipt m0)) = key)) as [->|Hne]; [by left|]. right. split; [|eauto].
           intros [?|?]%elem_of_cons; done.
      * destruct IH as [E Hl]. cbn [fst snd] in *. split; [done|by etrans].
    + specialize (IH seen s). apply andb_false_iff in Ec. rewrite negb_false_iff, bool_decide_eq_true in Ec. specialize (Hskip Ec).
      destruct (alert_each _ _ _ _ _ _) as [[al|x] s']; [|done]. destruct IH as (E & Hl & Hal). split_and!; [done..|]. intros k. by rewrite Hskip.
Qed.

(** A step that changes every node by [f], extends the chain by [rs] and leaves
    [ps] pending keeps the invariant. *)
Lemma inv_nodes p d rs ps (f : ReplicaNode → ReplicaNode) :
  repl_inv primary_region p → wf_dict d → (∀ id, dget id d = f <$> dget id (re_replicas p)) →
  chain_verify (re_chain p ++ rs) = Ok true →
  (∀ n, rr_region (f n) = rr_region n ∧ rr_is_primary (f n) = rr_is_primary n ∧ rr_chain n `prefix_of` rr_chain (f n)) →
  (∀ id n, dget id (re_replicas p) = Some n → rr_is_primary n = true → rr_chain (f n) = rr_chain n ∨ rr_chain (f n) = rr_chain n ++ rs) →
  (∀ id n r, dget id (re_replicas p) = Some n → r ∈ rr_chain (f n) → r ∈ rr_chain n ∨ r ∈ re_chain p ++ rs) →
  (∀ r, r ∈ rs → ∃ id n, dget id (re_replicas p) = Some n ∧ rr_is_primary n = true ∧ r ∈ rr_chain (f n)) →
  (∀ m, m ∈ ps → m ∈ re_pending p ∨ rm_receipt m ∈ rs ∧ rm_target m ≠ primary_region) →
  repl_inv primary_region (mkReplicator (re_chain p ++ rs) d ps).
Proof.
  intros Hi Hwf Hd Hv Hf Hprim Hsec Hnew Hps.
  assert (Hback : ∀ id n', dget id d = Some n' → ∃ n, dget id (re_replicas p) = Some n ∧ n' = f n).
  { intros id n' H. rewrite Hd in H. destruct (dget id (re_replicas p)) as [n|]; [|done]. injection H as <-. eauto. }
  assert (Hfwd : ∀ id n, dget id (re_replicas p) = Some n → dget id d = Some (f n)) by (intros id n H; by rewrite Hd, H).
  constructor; cbn [re_chain re_replicas re_pending].
  - done.
  - done.
  - intros id n' (n & Hn & ->)%Hback. destruct (Hf n) as (-> & -> & _). by eapply ri_region.
  - intros r Hr. apply elem_of_app in Hr as [Hr|Hr].
    + destruct (ri_durable _ _ Hi r Hr) as (id & n & Hn & Hp & Hin). destruct (Hf n) as (_ & Hp' & Hc). exists id, (f n).
      split_and!; [by apply Hfwd|by rewrite Hp'|]. destruct Hc as [k ->]. apply elem_of_app. by left.
    + destruct (Hnew r Hr) as (id & n & Hn & Hp & Hin). exists id, (f n). destruct (Hf n) as (_ & Hp' & _). split_and!; [by apply Hfwd|by rewrite Hp'|done].
  - intros id n' (n & Hn & ->)%Hback Hp. destruct (Hf n) as (_ & Hp' & _). rewrite Hp' in Hp. pose proof (ri_primary _ _ Hi id n Hn Hp) as Hs.
    destruct (Hprim id n Hn Hp) as [-> | ->]; [by apply sublist_inserts_r|by apply sublist_app].
  - intros id n' r (n & Hn & ->)%Hback Hr. destruct (Hsec id n r Hn Hr) as [H|H]; [|done]. apply elem_of_app. left. by eapply ri_secondary.
  - intros m Hm. destruct (Hps m Hm) as [H|[H H']]; [|split; [apply elem_of_app; by right|done]].
    destruct (ri_pending _ _ Hi m H). split; [apply elem_of_app; by left|done].
Qed.

(** A node that is an exact copy of the chain. *)
Definition exact_copy (id : pystr) (p : Replicator) : Prop :=
  ∃ n, dget id (re_replicas p) = Some n ∧ is_durable_at n = true ∧ rr_chain n = re_chain p.

Definition repl_kept (s s' : HaState * Replicator) (op : ReplOp) : Prop :=
  repl_inv primary_region s'.2 ∧ ha_later s.1 s'.1 ∧ re_chain s.2 `prefix_of` re_chain s'.2 ∧
  ∀ id, op ≠ PAvailable id false → exact_copy id s.2 → exact_copy id s'.2.

Lemma repl_kept_refl h s op : repl_inv primary_region s.2 → ha_later s.1 h → repl_kept s (h, s.2) op.
Proof. intros. by split_and!. Qed.

Lemma repl_add id region s : repl_inv primary_region s.2 → repl_kept s (repl_op (PAdd id region) s).2 (PAdd id region).
Proof.
  intros Hi. destruct s as [h p]. cbn [repl_op]. unfold add_replica, mbind, SM_bind, sm_get. cbn [fst snd] in *.
  destruct (dmem id (re_replicas p)) eqn:Ed; [by apply (repl_kept_refl h (h, p))|]. apply dmem_false in Ed.
  unfold on_repl, sm_mod. cbn [fst snd rr_region rr_available rr_chain].
  set (n0 := mkReplica region (bool_decide (region = primary_region)) true []). set (d := dset id n0 (re_replicas p)).
  assert (Hd : ∀ i n, dget i d = Some n → i = id ∧ n = n0 ∨ dget i (re_replicas p) = Some n).
  { intros i n. unfold d. rewrite dget_dset. case_decide; [|by right]. intros [= <-]. by left. }
  assert (Hd' : ∀ i n, dget i (re_replicas p) = Some n → dget i d = Some n).
  { intros i n H. unfold d. rewrite dget_dset_ne; [done|]. intros ->. apply Ed, dget_is_Some. eauto. }
  split_and!; cbn [fst snd re_chain].
  - constructor; cbn [re_chain re_replicas re_pending].
    + by apply wf_dset, Hi.
    + apply Hi.
    + intros i n [(-> & ->)|H]%Hd; [done|by eapply ri_region].
    + intros r Hr. destruct (ri_durable _ _ Hi r Hr) as (i & n & ? & ? & ?). exists i, n. auto.
    + intros i n [(-> & ->)|H]%Hd Hp; [apply sublist_nil_l|by eapply ri_primary].
    + intros i n r [(-> & ->)|H]%Hd Hr; [by apply elem_of_nil in Hr|by eapply ri_secondary].
    + apply Hi.
  - done.
  - done.
  - intros i _ (n & Hn & ? & ?). exists n. auto.
Qed.

Lemma repl_available id b s : repl_inv primary_region s.2 → repl_kept s (repl_op (PAvailable id b) s).2 (PAvailable id b).
Proof.
  intros Hi. destruct s as [h p]. cbn [repl_op]. unfold set_available, on_repl, sm_mod. cbn [fst snd] in *.
  destruct (dget id (re_replicas p)) as [n0|] eqn:En; [|by apply (repl_kept_refl h (h, p))].
  set (n1 := mkReplica (rr_region n0) (rr_is_primary n0) b (rr_chain n0)). set (d := dset id n1 (re_replicas p)).
  assert (Hd : ∀ i n, dget i d = Some n → i = id ∧ n = n1 ∨ dget i (re_replicas p) = Some n).
  { intros i n. unfold d. rewrite dget_dset. case_decide; [|by right]. intros [= <-]. by left. }
  split_and!; cbn [fst snd re_chain].
  - constructor; cbn [re_chain re_replicas re_pending].
    + by apply wf_dset, Hi.
    + apply Hi.
    + intros i n [(-> & ->)|H]%Hd; [by apply (ri_region _ _ Hi id n0)|by eapply ri_region].
    + intros r Hr. destruct (ri_durable _ _ Hi r Hr) as (i & n & Hn & Hp & Hc). destruct (decide (i = id)) as [->|Hne].
      * rewrite En in Hn. injection Hn as <-. exists id, n1. split; [apply dget_dset_eq|done].
      * exists i, n. split; [|done]. unfold d. by rewrite dget_dset_ne.
    + intros i n [(-> & ->)|H]%Hd Hp; [by apply (ri_primary _ _ Hi id n0)|by eapply ri_primary].
    + intros i n r [(-> & ->)|H]%Hd Hr; [by apply (ri_secondary _ _ Hi id n0)|by eapply ri_secondary].
    + apply Hi.
  - done.
  - done.
  - intros i Hne (n & Hn & Hav & Hc). destruct (decide (i = id)) as [->|Hne'].
    + rewrite En in Hn. injection Hn as <-. destruct b; [|done]. exists n1. split; [apply dget_dset_eq|]. split; [|done].
      unfold is_durable_at in *. cbn. apply andb_true_iff in Hav as [-> _]. done.
    + exists n. split; [|done]. cbn [re_replicas]. unfold d. by rewrite dget_dset_ne.
Qed.

Lemma repl_append t pl s : repl_inv primary_region s.2 → repl_kept s (repl_op (PAppend t pl) s).2 (PAppend t pl).
Proof.
  intros Hi. cbn [repl_op]. pose proof (append_spec t pl s (ri_wf _ _ Hi)) as H. unfold mbind, SM_bind.
  destruct (replicator_append _ _ _ _ _ s) as [[r|e] [h p']]; cbn [fst snd mret SM_ret] in *.
  - destruct H as (Hr & (id0 & n0 & Hn0 & Hav0) & Hl & Hc & Hwf & Hd & ms & Hps & Ht & Hms). destruct p' as [c d ps]. cbn [re_chain re_replicas re_pending] in *. subst c ps.
    set (f := λ n, if is_durable_at n then install_in r n else n) in Hd.
    assert (Hprim : ∀ n, rr_is_primary n = true → rr_chain (f n) = rr_chain n ∨ rr_chain (f n) = rr_chain n ++ [r]).
    { intros n _. unfold f. destruct (is_durable_at n); [by right|by left]. }
    assert (Hkeep : ∀ n, rr_region (f n) = rr_region n ∧ rr_is_primary (f n) = rr_is_primary n ∧ rr_chain n `prefix_of` rr_chain (f n)).
    { intros n. unfold f. destruct (is_durable_at n); [|done]. split_and!; [done..|by eexists]. }
    split_and!; cbn [fst snd re_chain]; [|done|by eexists|].
    + apply (inv_nodes s.2 d [r] _ f); [done|done|done|by apply (chain_append_verifies t pl), Hi|done|intros ? n _; apply Hprim|..].
      * intros id n r' _ Hr'. unfold f in Hr'. destruct (is_durable_at n); [|by left]. apply elem_of_app in Hr' as [?|?]; [by left|right; apply elem_of_app; by right].
      * intros r' ->%list_elem_of_singleton. exists id0, n0. split; [done|]. unfold f. rewrite Hav0. unfold is_durable_at in Hav0. apply andb_true_iff in Hav0 as [Hp0 _].
        split; [done|]. apply elem_of_app. right. by apply list_elem_of_singleton.
      * intros m Hm. apply elem_of_app in Hm as [Hm|Hm]; [by left|]. right. rewrite Forall_forall in Hms. rewrite (Hms m Hm). split; [by apply list_elem_of_singleton|].
        assert (Hin : rm_target m ∈ secondary_regions d) by (rewrite <- Ht; by apply list_elem_of_fmap_2).
        apply secondary_regions_elem in Hin as (id & n & Hin & Hp & <-). apply dget_elem in Hin; [|done]. rewrite Hd in Hin.
        destruct (dget id (re_replicas s.2)) as [n'|] eqn:En; [|done]. injection Hin as <-. destruct (Hkeep n') as (-> & Hp' & _).
        rewrite Hp' in Hp. rewrite (ri_region _ _ Hi id n' En) in Hp. by apply bool_decide_eq_false in Hp.
    + intros id _ (n & Hn & Hav & Hc). exists (f n). cbn [re_replicas]. rewrite Hd, Hn. split; [done|]. unfold f. rewrite Hav. unfold install_in. cbn.
      by rewrite Hc.
  - destruct H as [<- _]. by apply (repl_kept_refl h (h, p')).  
Qed.

Lemma install_due_primary due n : rr_is_primary n = true → install_due due n = n.
Proof.
  destruct n as [region pr av c]. cbn. intros ->. unfold install_due. cbn [rr_chain rr_region rr_is_primary rr_available]. f_equal.
  induction due as [|m due IH]; [apply app_nil_r|]. rewrite filter_cons, decide_False; [done|].
  unfold delivered_to. cbn [rr_is_primary negb]. by destruct (bool_decide _).
Qed.

Lemma repl_deliver s : repl_inv primary_region s.2 → repl_kept s (repl_op PDeliver s).2 PDeliver.
Proof.
  intros Hi. cbn [repl_op]. destruct (deliver_spec s (ri_wf _ _ Hi)) as (h & d & E & Hl & Hwf & Hd). set (due := filter (λ m, is_due _ m = true) _) in *.
  set (ps := filter (λ m, SFltb _ _ = true) _) in E. unfold mbind, SM_bind. rewrite E. cbn [fst snd mret SM_ret].
  assert (Hprim : ∀ n, rr_is_primary n = true → install_due due n = n) by (intros n; apply install_due_primary).
  split_and!; cbn [fst snd re_chain]; [|done|done|].
  - rewrite <- (app_nil_r (re_chain s.2)).
    apply (inv_nodes s.2 d [] ps (install_due due)); [done|done|done|by rewrite app_nil_r; apply Hi|..].
    + intros n. split_and!; [done..|by eexists].
    + intros id n _ Hp. left. by rewrite Hprim.
    + intros id n r _ Hr. apply elem_of_app in Hr as [Hr|Hr]; [by left|right]. rewrite app_nil_r. apply list_elem_of_fmap in Hr as (m & -> & Hm).
      apply list_elem_of_filter in Hm as [_ Hm]. apply list_elem_of_filter in Hm as [_ Hm]. by apply Hi.
    + by intros r ?%elem_of_nil.
    + intros m Hm. left. by apply list_elem_of_filter in Hm as [_ Hm].
  - intros id _ (n & Hn & Hav & Hc). exists n. cbn [re_replicas re_chain]. rewrite Hd, Hn. cbn. rewrite Hprim; [done|]. by apply andb_true_iff in Hav as [? _].
Qed.

Lemma repl_lag s : repl_inv primary_region s.2 → repl_kept s (repl_op PCheckLag s).2 PCheckLag.
Proof.
  intros Hi. destruct s as [h p]. cbn [repl_op]. unfold check_max_lag. unfold mbind at 1, SM_bind. unfold mbind at 1, SM_bind, on_ha. cbn [ha_now fst snd].
  unfold mbind at 1, SM_bind, sm_get. cbn [fst snd]. set (h1 := mkHa _ _ _ _). assert (Hl : ha_later h h1) by by constructor.
  match goal with |- context [alert_each clock max_lag ?now ?seen ?l ?s] => pose proof (alert_each_spec now seen l s) as H; destruct (alert_each clock max_lag now seen l s) as [[al|e] [h' p']] end;
    cbn [fst snd mret SM_ret] in *; destruct H as (-> & Hl'); [destruct Hl' as [Hl' _]|]; apply (repl_kept_refl h' (h, p)); try done; by etrans.
Qed.

Lemma repl_op_kept op s : repl_inv primary_region s.2 → repl_kept s (repl_op op s).2 op.
Proof. destruct op; [apply repl_add|apply repl_available|apply repl_append|apply repl_deliver|apply repl_lag]. Qed.

Lemma repl_run_kept ops s :
  repl_inv primary_region s.2 →
  let s' := repl_run ops s in
  repl_inv primary_region s'.2 ∧ ha_later s.1 s'.1 ∧ re_chain s.2 `prefix_of` re_chain s'.2 ∧
  ∀ id, PAvailable id false ∉ ops → exact_copy id s.2 → exact_copy id s'.2.
Proof.
  cbv zeta. revert s. induction ops as [|op ops IH]; intros s Hi; [by split_and!|]. change (repl_run (op :: ops) s) with (repl_run ops (repl_op op s).2).
  destruct (repl_op_kept op s Hi) as (H1 & H2 & H3 & H4). destruct (IH _ H1) as (K1 & K2 & K3 & K4). split_and!; [done|by etrans|by etrans|].
  intros id Hn Hc. apply not_elem_of_cons in Hn as [Hop Hn]. apply K4; [done|]. apply H4; [by apply not_eq_sym|done].
Qed.

Lemma repl_inv_new : repl_inv primary_region Replicator_new.
Proof. constructor; cbn; try done; try apply NoDup_nil_2; by intros ? ?%elem_of_nil. Qed.

(** The lag check alerts exactly for the messages in flight for longer than the
    limit; it does not see a message that was dropped for want of an available
    replica. *)
Theorem lag_alerts_exact s al s' : check_max_lag clock max_lag s = (Ok al, s') → ∀ key,
  key ∈ ((λ a, (la_region a, la_receipt_id a)) <$> al) ↔
  ∃ m, m ∈ re_pending s.2 ∧ SFltb max_lag (fsub (clock (ha_tick s.1)) (rm_enqueued_at m)) = true ∧ key = (rm_target m, cr_receipt_id (rm_receipt m)).
Proof.
  intros H. unfold check_max_lag in H. apply sm_bind_Ok in H as (now & s1 & H1 & H). injection H1 as <- <-.
  apply sm_bind_Ok in H as (s2 & s3 & [= <- <-] & H). cbn [fst snd] in H.
  match type of H with alert_each _ _ ?now ?seen ?l ?s = _ => pose proof (alert_each_spec now seen l s) as Hs end. rewrite H in Hs.
  destruct Hs as (_ & _ & Hk). intros key. rewrite Hk. split.
  + intros (_ & m & Hm & Hx). exists m. split; [by apply elem_of_sort_by in Hm|done].
  + intros (m & Hm & Hx). split; [by apply not_elem_of_nil|]. exists m. split; [by apply elem_of_sort_by|done].
Qed.

(** C15: no acknowledged receipt is ever lost (RPO = 0). After any sequence of
    registrations, availability changes, appends, deliveries and lag checks the
    replicator's chain verifies, every receipt of it is held by a primary-region
    replica, primary replicas hold subsequences of it, secondary replicas and messages
    in flight only receipts of it, and the event journal verifies. An append that
    returns extends the chain by its receipt, installs it at every available
    primary-region replica and puts one message in flight per secondary region; one
    that raises changes nothing, and it does not raise for a named, encodable task when
    a primary-region replica is available. Later operations only extend the chain, and
    a primary replica that is a full copy stays one as long as it is not marked
    unavailable (one that was misses what was appended meanwhile). A due message
    reaches every replica of its region that is available when it is delivered. *)
Theorem rpo_zero ops :
  let s := repl_run ops (HaState_new, Replicator_new) in
  repl_inv primary_region s.2 ∧ journal_verify (ha_journal s.1) = Ok true ∧
  (∀ t pl,
     match replicator_append clock primary_region latency t pl s with
     | (Ok r, s') =>
         cr_task_id r = t ∧ cr_payload r = pl ∧ re_chain s'.2 = re_chain s.2 ++ [r] ∧ primary_available s.2 ∧
         (∀ id n, dget id (re_replicas s.2) = Some n → dget id (re_replicas s'.2) = Some (if is_durable_at n then install_in r n else n)) ∧
         ∃ ms, re_pending s'.2 = re_pending s.2 ++ ms ∧ Forall (λ m, rm_receipt m = r) ms ∧ rm_target <$> ms = secondary_regions (re_replicas s'.2)
     | (Raise _, s') => s' = s
     end) ∧
  (∀ t pl, blank t = false → encodable t = true → encodable pl = true → (Z.of_nat (length (re_chain s.2)) < 2 ^ 64)%Z → primary_available s.2 →
     is_ok (replicator_append clock primary_region latency t pl s).1 = true) ∧
  (∀ ops', let s' := repl_run ops' s in
     re_chain s.2 `prefix_of` re_chain s'.2 ∧ ∀ id, PAvailable id false ∉ ops' → exact_copy id s.2 → exact_copy id s'.2) ∧
  (∀ m id n, m ∈ re_pending s.2 → is_due (clock (ha_tick s.1)) m = true → dget id (re_replicas s.2) = Some n → delivered_to n m = true →
     ∃ n', dget id (re_replicas (deliver clock s).2.2) = Some n' ∧ rm_receipt m ∈ rr_chain n').
Proof.
  cbv zeta. destruct (repl_run_kept ops (HaState_new, Replicator_new) repl_inv_new) as (Hi & Hl & _ & _). cbv zeta in *.
  set (s := repl_run ops _) in *. pose proof (append_spec) as Ha. split_and!.
  - done.
  - by apply (hl_verifies _ _ Hl).
  - intros t pl. specialize (Ha t pl s (ri_wf _ _ Hi)). destruct (replicator_append _ _ _ _ _ s) as [[r|e] s']; [|apply Ha].
    destruct Ha as (Hr & Hp & _ & Hc & _ & Hd & ms & Hps & Ht & Hms). apply chain_append_spec in Hr as (_ & Ht' & Hpl & _). split_and!; try done.
    + intros id n Hn. by rewrite Hd, Hn.
    + by exists ms.
  - intros t pl Hb Het Hep Hn Hav. specialize (Ha t pl s (ri_wf _ _ Hi)).
    destruct (chain_append_total t pl _ (ri_chain _ _ Hi) Hn Hb Het Hep) as [r Hr]. rewrite Hr in Ha.
    destruct (replicator_append _ _ _ _ _ s) as [[r'|e] s']; [done|]. by destruct Ha as [_ [?|[_ ?]]].
  - intros ops'. by destruct (repl_run_kept ops' s Hi) as (_ & _ & ? & ?).
  - intros m id n Hm Hdue Hn Hto. destruct (deliver_spec s (ri_wf _ _ Hi)) as (h & d & -> & _ & _ & Hd). cbn [snd re_replicas]. rewrite Hd, Hn.
    eexists; split; [reflexivity|]. unfold install_due. cbn [rr_chain]. apply elem_of_app. right. apply list_elem_of_fmap_2.
    apply list_elem_of_filter. split; [done|]. by apply list_elem_of_filter.
Qed.
End replication.
