(* ===== verification/FailoverTheorems.v ===== *)
(** * Takeover, failover and degraded mode resume on a verified chain *)

From Stdlib Require Import ZArith NArith Lia SpecFloat.
From S2P Require Import Prelude PyData Sha256 PyFloat Json JsonFacts Core CoreFacts Storage Builtins Journal JsonPlain Hadr HadrTheorems.

(** ** Takeover and failover *)
Record registry_wf (d : dict Station) : Prop := {
  rw_wf : wf_dict d;
  rw_keyed id x : dget id d = Some x → st_station_id x = id
}.

Lemma registry_wf_dset id x d : registry_wf d → st_station_id x = id → registry_wf (dset id x d).
Proof.
  intros [Hw Hk] Hx. constructor; [by apply wf_dset|]. intros i y. rewrite dget_dset. case_decide; [|apply Hk]. intros [= <-]. by subst.
Qed.

(** Who may take over from [failed]. *)
Definition candidate (failed : Station) (s : HaState) (x : Station) : Prop :=
  dget (st_station_id x) (ha_stations s) = Some x ∧ st_active x = true ∧ st_station_id x ≠ st_station_id failed.
(** The choice: same region when possible, then the least id. *)
Definition best_successor (failed : Station) (s : HaState) (x : Station) : Prop :=
  candidate failed s x ∧
  (∀ y, candidate failed s y → st_region y = st_region failed → st_region x = st_region failed) ∧
  (∀ y, candidate failed s y → (st_region x = st_region failed → st_region y = st_region failed) → str_leb (st_station_id x) (st_station_id y) = true).

Lemma elem_stations d x : registry_wf d → x ∈ d.*2 ↔ dget (st_station_id x) d = Some x.
Proof.
  intros [Hw Hk]. rewrite list_elem_of_fmap. split.
  - intros ([k y] & -> & Hin). apply dget_elem in Hin; [|done]. cbn. by rewrite (Hk _ _ Hin).
  - intros H. apply dget_Some_elem in H. by exists (st_station_id x, x).
Qed.

Lemma by_station_id_head l x : head (by_station_id l) = Some x → x ∈ l ∧ ∀ y, y ∈ l → str_leb (st_station_id x) (st_station_id y) = true.
Proof.
  intros H. unfold by_station_id in H. set (le := λ a b, str_leb (st_station_id a) (st_station_id b)) in H.
  assert (Hs : sorted_by le (sort_by le l)).
  { apply sort_by_is_sorted; unfold le; [intros a b; apply str_leb_total|intros a b c; apply str_leb_trans]. }
  assert (Hp := sort_by_perm le l). destruct (sort_by le l) as [|z k]; [done|]. injection H as ->. inversion Hs as [|? ? _ Hf]; subst.
  split; [rewrite <- Hp; constructor|]. intros y Hy. rewrite <- Hp in Hy. apply elem_of_cons in Hy as [->|Hy].
  - destruct (str_leb_total (st_station_id x) (st_station_id x)); done.
  - rewrite Forall_forall in Hf. by apply Hf.
Qed.

Lemma successor_spec failed s :
  registry_wf (ha_stations s) →
  match _successor_for failed s with
  | Ok x => best_successor failed s x
  | Raise _ => ∀ y, ¬ candidate failed s y
  end.
Proof.
  intros Hw. unfold _successor_for. set (cs := filter (λ x, st_station_id x ≠ st_station_id failed) (active_stations s)).
  set (sr := filter (λ x, st_region x = st_region failed) cs).
  assert (Hcs : ∀ y, y ∈ cs ↔ candidate failed s y).
  { intros y. unfold cs, active_stations, candidate. rewrite !list_elem_of_filter, elem_stations by done. tauto. }
  assert (Hsr : ∀ y, y ∈ sr ↔ candidate failed s y ∧ st_region y = st_region failed).
  { intros y. unfold sr. rewrite list_elem_of_filter, Hcs. tauto. }
  clearbody sr. set (pool := match sr with [] => cs | _ => sr end). destruct (head (by_station_id pool)) as [x|] eqn:E; cbn [of_option].
  - apply by_station_id_head in E as [Hx Hle]. unfold pool in *. destruct sr as [|z sr'].
    + assert (Hno : ∀ y, candidate failed s y → st_region y ≠ st_region failed).
      { intros y Hy Hr. apply (elem_of_nil y), Hsr. by split. }
      apply Hcs in Hx. split_and!; [done|intros y Hy Hr; by destruct (Hno y Hy)|]. intros y Hy _. by apply Hle, Hcs.
    + apply Hsr in Hx as [Hx Hr]. split_and!; [done|done|]. intros y Hy Hyr. apply Hle, Hsr. auto.
  - intros y Hy. assert (Hne : pool = []).
    { assert (Hp := sort_by_perm (λ a b, str_leb (st_station_id a) (st_station_id b)) pool). unfold by_station_id in E.
      destruct (sort_by _ pool); [by apply Permutation_nil in Hp|done]. }
    unfold pool in Hne. destruct sr; [|done]. apply (elem_of_nil y). rewrite <- Hne. by apply Hcs.
Qed.

Lemma station_fail_id x : st_station_id (station_fail x) = st_station_id x.
Proof. done. Qed.

Section cluster.
Context (clock : nat → float) (heartbeat_timeout : float).

(** Whatever happens, the registry stays keyed by station id and the journal
    verifies. *)
Record ha_kept (s s' : HaState) : Prop := {
  hk_registry : registry_wf (ha_stations s) → registry_wf (ha_stations s');
  hk_journal : ha_journal s `prefix_of` ha_journal s';
  hk_verifies : journal_inv s → journal_inv s'
}.
#[export] Instance ha_kept_preorder : PreOrder ha_kept.
Proof. split; [by constructor|]. intros a b c [? ? ?] [? ? ?]. constructor; [auto|by etrans|auto]. Qed.
Lemma later_kept s s' : ha_later s s' → ha_kept s s'.
Proof. intros [? Hs ? ?]. constructor; [by rewrite Hs|done|done]. Qed.

Lemma take_over_spec failed detected s :
  registry_wf (ha_stations s) →
  match _take_over clock failed detected s with
  | (Ok k, s') =>
      (∃ x, best_successor failed s x ∧ k = mkTakeover (st_station_id failed) (st_station_id x) detected (clock (ha_tick s))) ∧
      ha_takeovers s' = ha_takeovers s ++ [k] ∧ ha_stations s' = ha_stations s ∧ ha_kept s s' ∧
      ∃ e, ha_journal s' = ha_journal s ++ [e] ∧ he_kind e = str "takeover"
  | (Raise _, s') => ha_stations s' = ha_stations s ∧ ha_kept s s'
  end.
Proof.
  intros Hw. unfold _take_over. unfold mbind at 1, SM_bind, sm_get. unfold mbind at 1, SM_bind, sm_lift at 1.
  pose proof (successor_spec failed s Hw) as Hx. destruct (_successor_for failed s) as [x|]; [|split; [done|reflexivity]].
  unfold mbind at 1, SM_bind. cbn [ha_now]. unfold mbind at 1, SM_bind, sm_mod at 1. cbn [ha_tick ha_journal ha_stations ha_takeovers].
  set (k := mkTakeover _ _ _ _). set (s1 := mkHa _ _ _ _). unfold mbind, SM_bind.
  match goal with |- context [ha_record clock ?kd ?dt s1] => pose proof (ha_record_spec clock kd dt s1) as Hr; destruct (ha_record clock kd dt s1) as [[e|] s2] end.
  - destruct Hr as (Hk & Hj & _ & [Hp Hs Ht Hv]). cbn [mret SM_ret]. split_and!; [by exists x|by rewrite Ht|by rewrite Hs|by constructor; [rewrite Hs|..]|by exists e].
  - destruct Hr as [Hp Hs Ht Hv]. split; [by rewrite Hs|]. by constructor; [rewrite Hs|..].
Qed.

Lemma tick_each_spec now l s :
  registry_wf (ha_stations s) → NoDup (st_station_id <$> l) → Forall (λ x, dget (st_station_id x) (ha_stations s) = Some x) l →
  match tick_each clock heartbeat_timeout now l s with
  | (Ok ts, s') =>
      tk_failed_station <$> ts = st_station_id <$> filter (λ x, overdue heartbeat_timeout now x = true) l ∧
      ha_takeovers s' = ha_takeovers s ++ ts ∧
      (∀ id, dget id (ha_stations s') =
         (λ x, if decide (id ∈ st_station_id <$> l) then if overdue heartbeat_timeout now x then station_fail x else x else x) <$> dget id (ha_stations s)) ∧
      Forall (λ t, tk_detected_at t = now ∧ tk_successor_station t ≠ tk_failed_station t ∧
                   ∃ x, dget (tk_successor_station t) (ha_stations s) = Some x ∧ st_active x = true) ts ∧
      he_kind <$> ha_journal s' = (he_kind <$> ha_journal s) ++ replicate (length ts) (str "takeover") ∧ ha_kept s s'
  | (Raise _, s') => ha_kept s s'
  end.
Proof.
  revert s. induction l as [|x l IH]; intros s Hw Hn Hl; cbn [tick_each].
  - cbn. split_and!; [done|by rewrite app_nil_r| |constructor|by rewrite app_nil_r|reflexivity]. intros id. by destruct (dget id (ha_stations s)).
  - rewrite fmap_cons in Hn. apply NoDup_cons in Hn as [Hx Hn]. apply Forall_cons in Hl as [Hgx Hl]. rewrite filter_cons.
    destruct (overdue heartbeat_timeout now x) eqn:Eo.
    + rewrite decide_True by done. unfold mbind at 1, SM_bind, sm_mod at 1. set (s1 := set_stations _ s).
      assert (Hw1 : registry_wf (ha_stations s1)) by (by apply registry_wf_dset).
      assert (Hk1 : ha_kept s s1) by (constructor; [done|done|done]).
      unfold mbind at 1, SM_bind. pose proof (take_over_spec (station_fail x) now s1 Hw1) as Ht. destruct (_take_over _ _ _ s1) as [[k|] s2]; [|destruct Ht; by etrans].
      destruct Ht as ((y & (Hy & _) & ->) & Htk & Hs2 & Hk2 & e & Hj & He). unfold mbind, SM_bind.
      specialize (IH s2). rewrite Hs2 in IH. destruct Hy as (Hy & Hya & Hyne). rewrite station_fail_id in Hyne.
      assert (Hl' : Forall (λ x0, dget (st_station_id x0) (ha_stations s1) = Some x0) l).
      { rewrite Forall_forall in Hl |- *. intros z Hz. cbn. rewrite dget_dset_ne; [by apply Hl|]. intros E. apply Hx. rewrite <- E. by apply list_elem_of_fmap_2. }
      specialize (IH Hw1 Hn Hl'). destruct (tick_each _ _ _ l s2) as [[ts|] s']; [|by etrans; [|etrans; [|exact IH]]].
      destruct IH as (I1 & I2 & I3 & I4 & I5 & I6). cbn [mret SM_ret]. split_and!.
      * by rewrite !fmap_cons, I1.
      * by rewrite I2, Htk, <- app_assoc.
      * intros id. rewrite I3. cbn [s1 set_stations ha_stations]. rewrite dget_dset. rewrite fmap_cons. destruct (decide (id = st_station_id x)) as [->|Hne].
        -- rewrite Hgx. cbn [fmap option_fmap option_map]. rewrite decide_False by done. rewrite decide_True by constructor. by rewrite Eo.
        -- destruct (dget id (ha_stations s)); [|done]. cbn [fmap option_fmap option_map]. f_equal. repeat case_decide; set_solver.
      * constructor; [cbn; split_and!; [done|done|]|].
        -- exists y. split; [|done]. revert Hy. cbn. by rewrite dget_dset_ne.
        -- eapply Forall_impl; [exact I4|]. intros t (Hd & Hne & z & Hz & Hza). split_and!; [done|done|]. revert Hz. cbn. rewrite dget_dset.
           case_decide; [|eauto]. intros [= <-]. done.
      * rewrite I5, Hj. rewrite fmap_app, <- app_assoc. cbn. by rewrite He.
      * etrans; [exact Hk1|]. by etrans.
    + rewrite decide_False by done. specialize (IH s Hw Hn Hl). destruct (tick_each _ _ _ l s) as [[ts|] s']; [|done].
      destruct IH as (I1 & I2 & I3 & I4 & I5 & I6). split_and!; try done. intros id. rewrite I3. destruct (dget id (ha_stations s)) as [z|] eqn:Ez; [|done].
      cbn [fmap option_fmap option_map]. f_equal. rewrite fmap_cons. destruct (decide (id = st_station_id x)) as [->|Hne].
      * rewrite Ez in Hgx. injection Hgx as ->. rewrite Eo. by repeat case_decide.
      * repeat case_decide; set_solver.
Qed.

Lemma registry_tick_spec s :
  registry_wf (ha_stations s) →
  let now := clock (ha_tick s) in
  match registry_tick clock heartbeat_timeout s with
  | (Ok ts, s') =>
      tk_failed_station <$> ts = st_station_id <$> filter (λ x, overdue heartbeat_timeout now x = true) (by_station_id (ha_stations s).*2) ∧
      ha_takeovers s' = ha_takeovers s ++ ts ∧
      (∀ id, dget id (ha_stations s') = (λ x, if overdue heartbeat_timeout now x then station_fail x else x) <$> dget id (ha_stations s)) ∧
      Forall (λ t, tk_detected_at t = now ∧ tk_successor_station t ≠ tk_failed_station t ∧
                   ∃ x, dget (tk_successor_station t) (ha_stations s) = Some x ∧ st_active x = true) ts ∧
      he_kind <$> ha_journal s' = (he_kind <$> ha_journal s) ++ replicate (length ts) (str "takeover") ∧ ha_kept s s'
  | (Raise _, s') => ha_kept s s'
  end.
Proof.
  intros Hw now. unfold registry_tick. unfold mbind at 1, SM_bind. cbn [ha_now]. unfold mbind, SM_bind, sm_get. cbn [ha_stations].
  set (s1 := mkHa _ _ _ _). set (l := by_station_id _). assert (Hp : l ≡ₚ (ha_stations s).*2) by apply sort_by_perm.
  assert (Hids : st_station_id <$> l ≡ₚ (ha_stations s).*1).
  { rewrite Hp, <- list_fmap_compose. erewrite list_fmap_ext; [reflexivity|]. intros i [k x] Hkx. apply list_elem_of_lookup_2 in Hkx. cbn.
    destruct Hw as [Hw Hk]. by apply Hk, dget_elem. }
  assert (Hk : ha_kept s s1) by by constructor.
  pose proof (tick_each_spec now l s1) as H. specialize (H Hw). destruct (tick_each _ _ _ l s1) as [[ts|] s'].
  - destruct H as (I1 & I2 & I3 & I4 & I5 & I6).
    + rewrite Hids. apply Hw.
    + apply Forall_forall. intros x Hx. rewrite Hp in Hx. by apply elem_stations.
    + split_and!; try done; [|by etrans]. intros id. rewrite I3. cbn [s1 ha_stations]. destruct (dget id (ha_stations s)) as [x|] eqn:E; [|done].
      cbn [fmap option_fmap option_map]. f_equal. rewrite decide_True; [done|]. rewrite Hids. apply dget_is_Some. eauto.
  - etrans; [exact Hk|]. apply H.
    + rewrite Hids. apply Hw.
    + apply Forall_forall. intros x Hx. rewrite Hp in Hx. by apply elem_stations.
Qed.
End cluster.

Definition task_handed (workers : list pystr) (t t' : TaskRecord) : Prop :=
  if incomplete t
  then tr_task_id t' = tr_task_id t ∧ tr_receipt_id t' = tr_receipt_id t ∧ tr_status t' = TPending ∧ ∃ w, w ∈ workers ∧ tr_worker t' = Some w
  else t' = t.

Lemma reassign_handed workers index l : workers ≠ [] → Forall2 (task_handed workers) l (reassign workers index l).
Proof.
  intros Hw. revert index. induction l as [|t l IH]; intros index; cbn [reassign]; [constructor|]. unfold task_handed at 1.
  destruct (incomplete t) eqn:E; constructor; rewrite ?E; try apply IH; [|done]. split_and!; [done..|]. eexists. split; [|done].
  assert (Hlt : index mod length workers < length workers) by (apply Nat.mod_upper_bound; by destruct workers).
  apply lookup_lt_is_Some in Hlt as [w Hlw]. rewrite nth_lookup, Hlw. cbn. by eapply list_elem_of_lookup_2.
Qed.

(** The incomplete tasks, in order, go to the workers in turn. *)
Lemma reassign_pairs workers index l :
  (λ t, (tr_task_id t, default [] (tr_worker t))) <$> filter (λ t, incomplete t = true) (reassign workers index l) =
  imap (λ i t, (tr_task_id t, nth ((index + i) mod length workers) workers [])) (filter (λ t, incomplete t = true) l).
Proof.
  revert index. induction l as [|t l IH]; intros index; cbn [reassign]; [done|]. rewrite (filter_cons _ t l). destruct (incomplete t) eqn:E.
  - rewrite (decide_True (P := true = true)) by done. rewrite filter_cons_True by done. rewrite fmap_cons, imap_cons, IH. cbn [tr_task_id tr_worker default].
    f_equal; [by rewrite Nat.add_0_r|]. apply imap_ext. intros i x _. cbn. by rewrite Nat.add_succ_r.
  - rewrite filter_cons_False by (by rewrite E). by rewrite IH.
Qed.

Lemma reassign_turns workers index l i t :
  workers ≠ [] → filter (λ t, incomplete t = true) (reassign workers index l) !! i = Some t →
  tr_worker t = workers !! ((index + i) mod length workers).
Proof.
  intros Hw. revert index i. induction l as [|x l IH]; intros index i; cbn [reassign]; [done|]. destruct (incomplete x) eqn:E.
  - rewrite filter_cons_True by done. destruct i as [|i]; cbn [lookup].
    + intros [= <-]. cbn [tr_worker]. rewrite Nat.add_0_r.
      assert (Hlt : index mod length workers < length workers) by (apply Nat.mod_upper_bound; by destruct workers).
      apply lookup_lt_is_Some in Hlt as [w Hlw]. by rewrite nth_lookup, Hlw.
    + intros Hi. rewrite (IH _ _ Hi). by rewrite Nat.add_succ_r.
  - rewrite filter_cons_False by (by rewrite E). apply IH.
Qed.

Section failover.
Context (clock : nat → float) (rto_limit : float).

(** The station a failover marks as failed. *)
Definition marked (x : Station) : Station := if st_alive x then station_fail x else x.
Lemma marked_id x : st_station_id (marked x) = st_station_id x.
Proof. unfold marked. by destruct (st_alive x). Qed.
Lemma marked_region x : st_region (marked x) = st_region x.
Proof. unfold marked. by destruct (st_alive x). Qed.

Lemma candidate_marked failed s h :
  registry_wf (ha_stations s) → dget (st_station_id failed) (ha_stations s) = Some failed →
  ha_stations h = dset (st_station_id failed) (marked failed) (ha_stations s) → ∀ x, candidate (marked failed) h x ↔ candidate failed s x.
Proof.
  intros Hw Hf Hh x. unfold candidate. rewrite Hh, marked_id. split; intros (Hg & ? & Hne); (split; [|done]); rewrite dget_dset_ne in * by done; done.
Qed.

(** What the report of a completed failover says, and what it leaves. *)
Record failed_over (failed_id : pystr) (s s' : HaState * RunState) (report : FailoverReport) (failed x : Station) : Prop := {
  fd_failed : dget failed_id (ha_stations s.1) = Some failed;
  fd_best : best_successor failed s.1 x;
  fd_workers : st_workers x ≠ [];
  fd_verified : chain_verify (rn_chain s.2) = Ok true;
  fd_stations : ha_stations s'.1 = dset failed_id (marked failed) (ha_stations s.1);
  fd_event : ∃ e, ha_journal s'.1 = ha_journal s.1 ++ [e] ∧ he_kind e = str "failover";
  fd_kept : ha_kept s.1 s'.1;
  fd_chain : rn_chain s'.2 = rn_chain s.2;
  fd_station : rn_station_id s'.2 = st_station_id x;
  fd_tasks : Forall2 (task_handed (st_workers x)) (rn_tasks s.2) (rn_tasks s'.2);
  (* the incomplete tasks take the workers in turn *)
  fd_turns : ∀ i t, filter (λ t, incomplete t = true) (rn_tasks s'.2) !! i = Some t →
    tr_worker t = st_workers x !! (i mod length (st_workers x));
  fd_report_ids : fo_run_id report = rn_run_id s.2 ∧ fo_failed_station report = failed_id ∧ fo_successor_station report = st_station_id x;
  fd_resumed : fo_resumed_from_receipt report = cr_receipt_id <$> last (rn_chain s.2);
  fd_incomplete : fo_incomplete_tasks report = tr_task_id <$> filter (λ t, incomplete t = true) (rn_tasks s.2);
  fd_reassigned : fo_reassignments report = (λ t, (tr_task_id t, default [] (tr_worker t))) <$> filter (λ t, incomplete t = true) (rn_tasks s'.2);
  fd_rto : fo_rto_seconds report = fsub (clock (S (ha_tick s.1))) (clock (ha_tick s.1)) ∧ fo_within_rto report = SFltb (fo_rto_seconds report) rto_limit
}.

Definition done_kept (t t' : TaskRecord) : Prop := if incomplete t then True else t' = t.

Lemma done_kept_refl l : Forall2 done_kept l l.
Proof. induction l as [|t l IH]; constructor; [|done]. unfold done_kept. by destruct (incomplete t). Qed.
Lemma handed_kept workers l k : Forall2 (task_handed workers) l k → Forall2 done_kept l k.
Proof. intros H. eapply Forall2_impl; [exact H|]. intros t t'. unfold task_handed, done_kept. by destruct (incomplete t). Qed.

(** The last step: the event is recorded and the report returned. *)
Definition failover_details (report : FailoverReport) (rto : float) : list (string * json) :=
  [("run_id", JStr (fo_run_id report)); ("failed_station", JStr (fo_failed_station report)); ("successor_station", JStr (fo_successor_station report));
   ("resumed_from_receipt", JStr (default [] (fo_resumed_from_receipt report))); ("incomplete_tasks", JList (JStr <$> fo_incomplete_tasks report));
   ("rto_seconds", JFloat rto); ("within_rto", JBool (fo_within_rto report))].

Definition failover_report (failed_id : pystr) (s : HaState * RunState) (x : Station) : FailoverReport :=
  let rto := fsub (clock (S (ha_tick s.1))) (clock (ha_tick s.1)) in
  let todo := filter (λ t, incomplete t = true) (rn_tasks s.2) in
  mkFailover (rn_run_id s.2) failed_id (st_station_id x) (cr_receipt_id <$> last (rn_chain s.2)) (tr_task_id <$> todo)
    (imap (λ i t, (tr_task_id t, nth (i mod length (st_workers x)) (st_workers x) [])) todo) rto (SFltb rto rto_limit).

(** [failover], with its reads performed. *)
Lemma failover_unfold failed_id failed s :
  dget failed_id (ha_stations s.1) = Some failed →
  let h k := mkHa (k + ha_tick s.1) (ha_journal s.1) (dset failed_id (marked failed) (ha_stations s.1)) (ha_takeovers s.1) in
  failover clock rto_limit failed_id s =
  match last_verified (rn_chain s.2) with
  | Raise e => (Raise e, (h 1, s.2))
  | Ok l =>
      match _successor_for (marked failed) (h 1) with
      | Raise e => (Raise e, (h 1, s.2))
      | Ok x =>
          let run tasks := mkRun (rn_run_id s.2) (st_station_id x) tasks (rn_chain s.2) in
          if bool_decide (st_workers x = []) then (Raise (ContractError "successor station has no available workers"), (h 1, run (rn_tasks s.2)))
          else
            let report := failover_report failed_id s x in
            let '(r, h') := ha_record clock (str "failover") (failover_details report (fo_rto_seconds report)) (h 2) in
            (_ ← r; Ok report, (h', run (reassign (st_workers x) 0 (rn_tasks s.2))))
      end
  end.
Proof.
  intros Hf h. destruct s as [h0 run]. cbn [fst snd] in *. unfold failover. unfold mbind at 1, SM_bind, on_ha at 1. cbn [ha_now fst snd].
  unfold mbind at 1, SM_bind, sm_get at 1. cbn [fst snd ha_stations]. rewrite Hf. fold (marked failed).
  unfold mbind at 1, SM_bind, sm_mod at 1. cbn [fst snd ha_stations set_stations ha_tick ha_journal ha_takeovers].
  unfold mbind at 1, SM_bind, sm_lift at 1. unfold last_verified. destruct (chain_verify (rn_chain run)) as [[]|e]; cbn [mbind res_bind negb]; [|done|done].
  unfold mbind at 1, SM_bind, sm_get at 1. unfold mbind at 1, SM_bind, sm_lift at 1. cbn [fst snd]. change (set_stations (dset failed_id (marked failed) (ha_stations h0)) _) with (h 1).
  destruct (_successor_for (marked failed) (h 1)) as [x|e]; [|done]. case_bool_decide as Hw; [done|].
  unfold mbind at 1, SM_bind, sm_mod at 1. unfold mbind at 1, SM_bind, on_ha at 1. cbn [ha_now fst snd]. change (ha_tick (h 1)) with (S (ha_tick h0)).
  unfold mbind at 1, SM_bind, on_ha at 1. cbn [fst snd].
  match goal with |- context [ha_record clock ?k ?d ?u] => change u with (h 2); change d with (failover_details (failover_report failed_id (h0, run) x) (fo_rto_seconds (failover_report failed_id (h0, run) x))) end.
  destruct (ha_record _ _ _ _) as [[e|e] h']; done.
Qed.

(** Everything the event of a failover names can be stored, and every station has a
    worker. *)
Record recordable (failed_id : pystr) (s : HaState * RunState) : Prop := {
  rc_ids : encodable failed_id = true ∧ encodable (rn_run_id s.2) = true;
  rc_tasks : Forall (λ t, encodable (tr_task_id t) = true) (rn_tasks s.2);
  rc_stations id x : dget id (ha_stations s.1) = Some x → encodable id = true ∧ st_workers x ≠ [];
  rc_clock n : is_finite (clock n) = true;
  rc_rto : is_finite (fsub (clock (S (ha_tick s.1))) (clock (ha_tick s.1))) = true
}.

Lemma failover_storable failed_id s x :
  recordable failed_id s → chain_verify (rn_chain s.2) = Ok true → encodable (st_station_id x) = true →
  Forall (λ kv, storable kv.2 = true) (failover_details (failover_report failed_id s x) (fo_rto_seconds (failover_report failed_id s x))).
Proof.
  intros [[Hf Hr] Ht _ _ Hrto] Hc Hx. unfold failover_details, failover_report.
  repeat constructor; cbn [snd fo_run_id fo_failed_station fo_successor_station fo_resumed_from_receipt fo_incomplete_tasks fo_rto_seconds fo_within_rto].
  - by apply storable_str.
  - by apply storable_str.
  - by apply storable_str.
  - apply storable_str. pose proof (head_hash_encodable _ Hc) as He. unfold head_hash in He. by destruct (last (rn_chain s.2)).
  - apply storable_strs, Forall_fmap, Forall_forall. intros t Hin. apply list_elem_of_filter in Hin as [_ Hin]. rewrite Forall_forall in Ht. by apply Ht.
  - by apply storable_float.
  - apply storable_bool.
Qed.

Lemma failover_ok failed_id s report s' :
  registry_wf (ha_stations s.1) → failover clock rto_limit failed_id s = (Ok report, s') → ∃ failed x, failed_over failed_id s s' report failed x.
Proof.
  intros Hw. destruct (dget failed_id (ha_stations s.1)) as [failed|] eqn:Ef; [|unfold failover, mbind, SM_bind, on_ha, sm_get; cbn [ha_now fst snd ha_stations]; by rewrite Ef].
  pose proof (rw_keyed _ Hw _ _ Ef) as Hid. rewrite (failover_unfold _ _ _ Ef). cbv zeta. set (h1 := mkHa (1 + _) _ _ _). set (h2 := mkHa (2 + _) _ _ _).
  assert (Hw1 : registry_wf (ha_stations h1)) by (apply registry_wf_dset; [done|by rewrite marked_id]).
  unfold last_verified. destruct (chain_verify (rn_chain s.2)) as [[]|] eqn:Ec; cbn [mbind res_bind negb]; [|done|done].
  pose proof (successor_spec (marked failed) h1 Hw1) as Hs. destruct (_successor_for (marked failed) h1) as [x|]; [|done]. case_bool_decide as Hwk; [done|].
  pose proof (ha_record_spec clock (str "failover") (failover_details (failover_report failed_id s x) (fo_rto_seconds (failover_report failed_id s x))) h2) as Hr.
  destruct (ha_record _ _ _ _) as [[e|] h']; [|done]. destruct Hr as (Hk & Hj & _ & Hl). cbn [mbind res_bind]. intros [= <- <-]. exists failed, x.
  assert (Hcand : ∀ y, candidate (marked failed) h1 y ↔ candidate failed s.1 y) by (apply candidate_marked; [done|by rewrite Hid|by rewrite Hid]).
  pose proof (reassign_handed (st_workers x) 0 (rn_tasks s.2) Hwk) as Hre.
  constructor; cbn [fst snd rn_chain rn_station_id rn_tasks]; try done.
  - destruct Hs as (H1 & H2 & H3). split_and!; [by apply Hcand|..].
    + intros y Hy. rewrite <- (marked_region failed). by apply H2, Hcand.
    + intros y Hy. rewrite <- (marked_region failed). by apply H3, Hcand.
  - apply (hl_stations _ _ Hl).
  - by exists e.
  - etrans; [|by apply later_kept]. constructor; [done|done|done].
  - intros i t Hi. exact (reassign_turns _ 0 _ i t Hwk Hi).
  - unfold failover_report. cbn [fo_reassignments]. symmetry. apply (reassign_pairs (st_workers x) 0).
Qed.

Lemma failover_raises failed_id s e s' :
  registry_wf (ha_stations s.1) → failover clock rto_limit failed_id s = (Raise e, s') →
  rn_chain s'.2 = rn_chain s.2 ∧ Forall2 done_kept (rn_tasks s.2) (rn_tasks s'.2) ∧ ha_kept s.1 s'.1.
Proof.
  intros Hw. destruct (dget failed_id (ha_stations s.1)) as [failed|] eqn:Ef.
  - pose proof (rw_keyed _ Hw _ _ Ef) as Hid. rewrite (failover_unfold _ _ _ Ef). cbv zeta. set (h1 := mkHa (1 + _) _ _ _). set (h2 := mkHa (2 + _) _ _ _).
    assert (Hk1 : ha_kept s.1 h1) by (constructor; [intros _; apply registry_wf_dset; [done|by rewrite marked_id]|done|done]).
    assert (Hk2 : ha_kept s.1 h2) by (constructor; [intros _; apply registry_wf_dset; [done|by rewrite marked_id]|done|done]).
    pose proof (done_kept_refl (rn_tasks s.2)) as Hd.
    destruct (last_verified _) as [l|]; [|by intros [= <- <-]]. destruct (_successor_for _ _) as [x|]; [|by intros [= <- <-]].
    case_bool_decide as Hwk; [by intros [= <- <-]|].
    pose proof (ha_record_later clock (str "failover") (failover_details (failover_report failed_id s x) (fo_rto_seconds (failover_report failed_id s x))) h2) as Hl.
    destruct (ha_record _ _ _ _) as [[ev|] h']; [done|]. cbn [mbind res_bind snd] in *. intros [= <- <-]. cbn [fst snd rn_chain rn_tasks].
    split_and!; [done|by eapply handed_kept, reassign_handed|]. etrans; [exact Hk2|by apply later_kept].
  - unfold failover, mbind, SM_bind, on_ha, sm_get. cbn [ha_now fst snd ha_stations]. rewrite Ef. intros [= <- <-]. split_and!; [done|apply done_kept_refl|by constructor].
Qed.

Lemma failover_total failed_id s failed y :
  registry_wf (ha_stations s.1) → journal_inv s.1 → dget failed_id (ha_stations s.1) = Some failed → chain_verify (rn_chain s.2) = Ok true →
  candidate failed s.1 y → recordable failed_id s → is_ok (failover clock rto_limit failed_id s).1 = true.
Proof.
  intros Hw Hj Ef Hc Hy Hrec. pose proof (rw_keyed _ Hw _ _ Ef) as Hid. rewrite (failover_unfold _ _ _ Ef). cbv zeta. set (h1 := mkHa (1 + _) _ _ _). set (h2 := mkHa (2 + _) _ _ _).
  assert (Hw1 : registry_wf (ha_stations h1)) by (apply registry_wf_dset; [done|by rewrite marked_id]).
  assert (Hcand : ∀ y, candidate (marked failed) h1 y ↔ candidate failed s.1 y) by (apply candidate_marked; [done|by rewrite Hid|by rewrite Hid]).
  unfold last_verified. rewrite Hc. cbn [mbind res_bind negb]. pose proof (successor_spec (marked failed) h1 Hw1) as Hs.
  destruct (_successor_for (marked failed) h1) as [x|]; [|destruct (Hs y); by apply Hcand]. destruct Hs as (Hx & _). apply Hcand in Hx as (Hgx & _).
  destruct (rc_stations _ _ Hrec _ _ Hgx) as [Henc Hwk]. rewrite bool_decide_false by done.
  destruct (ha_record_total clock (str "failover") (failover_details (failover_report failed_id s x) (fo_rto_seconds (failover_report failed_id s x))) h2) as (e & h' & ->);
    [exact Hj|apply Hrec|unfold HA_KINDS; set_solver|done|by apply failover_storable|done].
Qed.
End failover.

(** *** Every reachable registry *)
Inductive ClusterOp : Type :=
  | CRegister (x : Station)
  | CHeartbeat (station_id : pystr)
  | CTick
  | CRestart (station_id : pystr) (at_ : float)
  | CReachable (station_id : pystr) (b : bool)
  | CFailover (station_id : pystr) (run : RunState).

Section reachable.
Context (clock : nat → float) (heartbeat_timeout rto_limit : float).

Definition on_station (id : pystr) (f : Station → Station) (s : HaState) : HaState :=
  match dget id (ha_stations s) with Some x => set_stations (dset id (f x) (ha_stations s)) s | None => s end.

Definition cluster_op (op : ClusterOp) (s : HaState) : HaState :=
  match op with
  | CRegister x => (register clock x s).2
  | CHeartbeat id => (heartbeat clock id s).2
  | CTick => (registry_tick clock heartbeat_timeout s).2
  | CRestart id t => on_station id (station_restart t) s
  | CReachable id b => on_station id (λ x, mkStation (st_station_id x) (st_region x) (st_workers x) (st_alive x) (st_active x) (st_last_heartbeat x) b) s
  | CFailover id run => (failover clock rto_limit id (s, run)).2.1
  end.
Definition cluster_run (ops : list ClusterOp) (s : HaState) : HaState := foldl (λ s op, cluster_op op s) s ops.

Lemma on_station_kept id f s : (∀ x, st_station_id (f x) = st_station_id x) → ha_kept s (on_station id f s).
Proof.
  intros Hf. unfold on_station. destruct (dget id (ha_stations s)) as [x|] eqn:E; [|reflexivity]. constructor; [|done|done].
  intros Hw. apply registry_wf_dset; [done|]. rewrite Hf. by apply (rw_keyed _ Hw).
Qed.

Lemma cluster_op_kept op s : registry_wf (ha_stations s) → ha_kept s (cluster_op op s).
Proof.
  intros Hw. destruct op as [x|id| |id t|id b|id run]; cbn [cluster_op].
  - unfold register, mbind, SM_bind, sm_get. destruct (dmem _ _); [reflexivity|]. cbn [ha_now]. unfold sm_mod. cbn [snd].
    constructor; [|done|done]. intros _. by apply registry_wf_dset.
  - unfold heartbeat, mbind, SM_bind, sm_get, sm_lift, get_station. destruct (dget id (ha_stations s)) as [x|] eqn:E; cbn [of_option]; [|reflexivity].
    destruct (st_alive x); cbn [negb]; [|reflexivity]. cbn [ha_now]. unfold sm_mod. cbn [snd].
    constructor; [|done|done]. intros _. apply registry_wf_dset; [done|]. exact (rw_keyed _ Hw _ _ E).
  - pose proof (registry_tick_spec clock heartbeat_timeout s Hw) as H. cbv zeta in H. destruct (registry_tick _ _ s) as [[ts|] s']; [apply H|done].
  - by apply on_station_kept.
  - by apply on_station_kept.
  - destruct (failover clock rto_limit id (s, run)) as [[r|e] s'] eqn:E.
    + apply failover_ok in E as (failed & x & H); [|done]. apply (fd_kept _ _ _ _ _ _ _ _ H).
    + apply failover_raises in E; [|done]. apply E.
Qed.

Lemma cluster_run_kept ops : registry_wf (ha_stations (cluster_run ops HaState_new)) ∧ journal_inv (cluster_run ops HaState_new).
Proof.
  assert (Hg : ∀ s, registry_wf (ha_stations s) ∧ journal_inv s → registry_wf (ha_stations (cluster_run ops s)) ∧ journal_inv (cluster_run ops s)).
  { induction ops as [|op ops IH]; intros s [Hw Hj]; [done|]. apply IH. destruct (cluster_op_kept op s Hw) as [H1 _ H3]. auto. }
  apply Hg. split; [|done]. constructor; [apply NoDup_nil_2|done].
Qed.

(** C16: failover resumes a run on a verified chain at the right station, and a tick
    detects exactly the overdue stations. In every registry reached by registrations,
    heartbeats, ticks, restarts, partitions and failovers: a failover that returns
    chose an active station other than the failed one, in its region when there is
    one, with the least id; the run's chain verified and is unchanged, the completed
    tasks are untouched, every other task is pending at one of the successor's
    workers, the [i]th of them at the [i]th worker modulo their number, the report names the last receipt, and one failover event was
    recorded. One that raises keeps the chain and the completed tasks, and it does
    not raise when the chain verifies and there is a candidate. A tick that returns
    marks exactly the overdue stations as failed, each with one takeover by another
    station that was active when the tick began and one takeover event, in the order
    of their ids. The journal verifies throughout. *)
Theorem failover_sound ops failed_id run :
  let s := (cluster_run ops HaState_new, run) in
  journal_verify (ha_journal s.1) = Ok true ∧
  match failover clock rto_limit failed_id s with
  | (Ok report, s') => ∃ failed x, failed_over clock rto_limit failed_id s s' report failed x
  | (Raise _, s') => rn_chain s'.2 = rn_chain s.2 ∧ Forall2 done_kept (rn_tasks s.2) (rn_tasks s'.2) ∧ ha_kept s.1 s'.1
  end ∧
  (∀ failed y, dget failed_id (ha_stations s.1) = Some failed → chain_verify (rn_chain run) = Ok true → candidate failed s.1 y →
     recordable clock failed_id s → is_ok (failover clock rto_limit failed_id s).1 = true) ∧
  match registry_tick clock heartbeat_timeout s.1 with
  | (Ok ts, s') =>
      let late := overdue heartbeat_timeout (clock (ha_tick s.1)) in
      tk_failed_station <$> ts = st_station_id <$> filter (λ x, late x = true) (by_station_id (ha_stations s.1).*2) ∧
      ha_takeovers s' = ha_takeovers s.1 ++ ts ∧
      (∀ id, dget id (ha_stations s') = (λ x, if late x then station_fail x else x) <$> dget id (ha_stations s.1)) ∧
      Forall (λ t, tk_detected_at t = clock (ha_tick s.1) ∧ tk_successor_station t ≠ tk_failed_station t ∧
                   ∃ x, dget (tk_successor_station t) (ha_stations s.1) = Some x ∧ st_active x = true) ts ∧
      he_kind <$> ha_journal s' = (he_kind <$> ha_journal s.1) ++ replicate (length ts) (str "takeover") ∧ ha_kept s.1 s'
  | (Raise _, s') => ha_kept s.1 s'
  end.
Proof.
  cbv zeta. destruct (cluster_run_kept ops) as [Hw Hj]. set (h := cluster_run ops HaState_new) in *. split_and!.
  - done.
  - destruct (failover clock rto_limit failed_id (h, run)) as [[r|e] s'] eqn:E; [by apply failover_ok|by apply failover_raises in E].
  - intros failed y Hf Hc Hy Hr. by eapply failover_total.
  - exact (registry_tick_spec clock heartbeat_timeout h Hw).
Qed.
End reachable.

(** ** Degraded mode loses no work, and what the layer does not promise *)

(** The shared chain accounts for a queued receipt: it holds it, or a result of the
    same task that the conflict rule does not rank after it. *)
Definition settled (shared : list ChainReceipt) (r : ChainReceipt) : Prop :=
  ∃ e, e ∈ shared ∧ (cr_receipt_id e = cr_receipt_id r ∨ cr_task_id e = cr_task_id r ∧ str_leb (cr_payload e) (cr_payload r) = true).

Lemma settled_prefix c c' r : c `prefix_of` c' → settled c r → settled c' r.
Proof. intros [k ->] (e & He & H). exists e. split; [apply elem_of_app; by left|done]. Qed.

(** What a step of degraded mode keeps of the chains. *)
Record degraded_later (s s' : HaState * Degraded) : Prop := {
  dl_shared : dg_shared s.2 `prefix_of` dg_shared s'.2;
  dl_local : dg_local s.2 `prefix_of` dg_local s'.2;
  dl_id : dg_station_id s'.2 = dg_station_id s.2;
  dl_verifies : chain_verify (dg_shared s.2) = Ok true → chain_verify (dg_shared s'.2) = Ok true;
  dl_local_verifies : chain_verify (dg_local s.2) = Ok true → chain_verify (dg_local s'.2) = Ok true;
  dl_ha : ha_later s.1 s'.1
}.
#[export] Instance degraded_later_preorder : PreOrder degraded_later.
Proof. split; [by constructor|]. intros a b c [] []. constructor; [by etrans|by etrans|congruence|auto|auto|by etrans]. Qed.

Section degraded.
Context (clock : nat → float).

Lemma publish_spec r s :
  match publish r s with
  | (Ok _, s') => degraded_later s s' ∧ dg_queue s'.2 = dg_queue s.2 ∧ settled (dg_shared s'.2) r
  | (Raise _, s') => s' = s
  end.
Proof.
  unfold publish, mbind, SM_bind, sm_get, sm_lift, sm_mod. destruct (chain_append _ _ _) as [r'|] eqn:E; [|done]. cbn [set_shared snd dg_shared dg_queue].
  pose proof (chain_append_spec _ _ _ _ E) as (_ & Ht & Hp & _). split_and!; [|done|].
  - constructor; cbn [set_shared fst snd dg_shared dg_local dg_station_id]; [by eexists|done|done|by eapply chain_append_verifies|done|reflexivity].
  - exists r'. split; [apply elem_of_app; right; by apply list_elem_of_singleton|]. right. rewrite Ht, Hp. split; [done|apply str_leb_refl].
Qed.

Lemma merge_spec r s :
  match _merge r s with
  | (Ok _, s') => degraded_later s s' ∧ dg_queue s'.2 = dg_queue s.2 ∧ settled (dg_shared s'.2) r
  | (Raise _, s') => s' = s
  end.
Proof.
  unfold _merge. unfold mbind at 1, SM_bind, sm_get. pose proof (publish_spec r s) as Hp.
  destruct (List.find (deciding r) (dg_shared s.2)) as [e|] eqn:Ef.
  - apply List.find_some in Ef as [Hin Hd]. apply list_elem_of_In in Hin. case_bool_decide as Hid.
    + split_and!; [reflexivity|done|]. exists e. auto.
    + unfold deciding in Hd. rewrite bool_decide_false in Hd by done. cbn [orb] in Hd. apply andb_true_iff in Hd as [Ht%bool_decide_eq_true _].
      destruct (str_ltb (cr_payload r) (cr_payload e)) eqn:El.
      * unfold mbind, SM_bind. by destruct (publish r s) as [[u|] s'].
      * split_and!; [reflexivity|done|]. exists e. split; [done|]. right. split; [done|].
        rewrite str_ltb_leb in El. by apply negb_false_iff in El.
  - unfold mbind, SM_bind. by destruct (publish r s) as [[u|] s'].
Qed.

Lemma set_queue_later q s : degraded_later s (set_queue q s).
Proof. by constructor. Qed.

(** Merging a queue from its front: what has left it is settled, what remains is its
    rest. *)
Lemma merge_each_spec l s :
  dg_queue s.2 = l →
  let '(r, s') := merge_each l s in
  degraded_later s s' ∧ (∀ x, x ∈ l → x ∈ dg_queue s'.2 ∨ settled (dg_shared s'.2) x) ∧ (is_ok r = true → dg_queue s'.2 = []).
Proof.
  revert s. induction l as [|x l IH]; intros s Hq; cbn [merge_each].
  - split_and!; [reflexivity|by intros x ?%elem_of_nil|done].
  - unfold mbind at 1, SM_bind. pose proof (merge_spec x s) as Hm. destruct (_merge x s) as [[o|e] s1].
    + destruct Hm as (Hl1 & Hq1 & Hs1). unfold mbind at 1, SM_bind, sm_mod. rewrite Hq1, Hq. cbn [remove_first]. rewrite decide_True by done.
      unfold mbind, SM_bind. specialize (IH (set_queue l s1) eq_refl). destruct (merge_each l (set_queue l s1)) as [[cs|e] s2];
        destruct IH as (Hl2 & Hx & Hok); cbn [mret SM_ret]; (split_and!; [etrans; [exact Hl1|]; etrans; [apply (set_queue_later l)|exact Hl2]|
          intros y Hy; apply elem_of_cons in Hy as [->|Hy]; [right; eapply settled_prefix; [|exact Hs1]; apply (dl_shared _ _ Hl2)|by apply Hx]|done]).
    + subst s1. split_and!; [reflexivity|intros y Hy; left; by rewrite Hq|done].
Qed.

(** Synchronizing never loses queued work: on every exit each queued receipt is still
    queued or accounted for by the shared chain, the chains only grow and keep
    verifying, and a completed sync leaves the queue empty and records one event. *)
Theorem sync_keeps_work s :
  let '(r, s') := sync clock s in
  degraded_later s s' ∧ (∀ x, x ∈ dg_queue s.2 → x ∈ dg_queue s'.2 ∨ settled (dg_shared s'.2) x) ∧
  (is_ok r = true → dg_queue s'.2 = [] ∧ is_reachable (dg_station_id s.2) s.1 = Ok true ∧
     ∃ e, ha_journal s'.1 = ha_journal s.1 ++ [e] ∧ he_kind e = str "degraded-sync").
Proof.
  unfold sync. unfold mbind at 1, SM_bind, sm_get at 1. unfold mbind at 1, SM_bind, sm_lift at 1.
  destruct (is_reachable (dg_station_id s.2) s.1) as [[]|e] eqn:Er; cbn [negb].
  - unfold mbind at 1, SM_bind. assert (Hm := merge_each_spec (dg_queue s.2) s eq_refl).
    assert (Hha : (merge_each (dg_queue s.2) s).2.1 = s.1).
    { clear. generalize (dg_queue s.2). intros l. revert s. induction l as [|x l IH]; intros s; [done|]. cbn [merge_each]. unfold mbind at 1, SM_bind.
      assert (Hx : (_merge x s).2.1 = s.1).
      { unfold _merge, publish, mbind, SM_bind, sm_get, sm_lift, sm_mod. repeat case_match; simplify_eq; try done. }
      destruct (_merge x s) as [[o|e] s1]; [|done]. unfold mbind at 1, SM_bind, sm_mod. unfold mbind, SM_bind. specialize (IH (set_queue (remove_first x (dg_queue s1.2)) s1)).
      destruct (merge_each l _) as [[cs|e] s2]; cbn in *; congruence. }
    destruct (merge_each (dg_queue s.2) s) as [[cs|e] s1]; destruct Hm as (Hl & Hx & Hok); [|by split_and!].
    unfold mbind at 1, SM_bind, sm_get. unfold mbind, SM_bind, on_ha.
    match goal with |- context [ha_record clock ?k ?d s1.1] => pose proof (ha_record_spec clock k d s1.1) as Hr; destruct (ha_record clock k d s1.1) as [[ev|ev] h] end.
    + destruct Hr as (Hk & Hj & _ & Hlater). cbn [mret SM_ret fst snd] in *. split_and!.
      * etrans; [exact Hl|]. by constructor.
      * exact Hx.
      * intros _. split_and!; [by apply Hok|done|]. exists ev. by rewrite Hj, Hha.
    + split_and!; [|exact Hx|done]. etrans; [exact Hl|]. by constructor.
  - split_and!; [reflexivity|by left|done].
  - split_and!; [reflexivity|by left|done].
Qed.

(** A task worked on in degraded mode is queued or shared. *)
Theorem operate_keeps_work local_model t w s r s' :
  operate local_model t w s = (Ok r, s') →
  degraded_later s s' ∧ dg_local s'.2 = dg_local s.2 ++ [r] ∧ cr_task_id r = t ∧ local_model w = Ok (cr_payload r) ∧
  match is_reachable (dg_station_id s.2) s.1 with
  | Ok true => dg_queue s'.2 = dg_queue s.2 ∧ settled (dg_shared s'.2) r
  | _ => dg_queue s'.2 = dg_queue s.2 ++ [r] ∧ dg_shared s'.2 = dg_shared s.2
  end.
Proof.
  unfold operate. destruct (blank w); [done|]. intros H. apply sm_bind_Ok in H as (out & s1 & Ho & H). apply sm_lift_Ok in Ho as [Ho ->].
  apply sm_bind_Ok in H as (s0 & s1 & [= <- <-] & H). apply sm_bind_Ok in H as (r' & s1 & Hr & H). apply sm_lift_Ok in Hr as [Hr ->].
  apply sm_bind_Ok in H as (u & s1 & [= <- <-] & H). set (s1 := (s.1, mkDegraded _ _ _ _)) in *.
  apply sm_bind_Ok in H as (b & s2 & Hb & H). apply sm_lift_Ok in Hb as [Hb ->]. rewrite Hb.
  apply sm_bind_Ok in H as (u' & s2 & Hp & [= -> ->]). pose proof (chain_append_spec _ _ _ _ Hr) as (_ & Ht & Hpl & _).
  assert (H1 : degraded_later s s1) by (constructor; cbn; [done|by eexists|done|done|by eapply chain_append_verifies|done]).
  destruct b; cbn [negb] in Hp.
  - pose proof (publish_spec r s1) as Hs. assert (Hloc : dg_local (publish r s1).2.2 = dg_local s.2 ++ [r]).
    { unfold publish, mbind, SM_bind, sm_get, sm_lift, sm_mod. by destruct (chain_append (cr_task_id r) (cr_payload r) (dg_shared s1.2)). }
    rewrite Hp in Hs, Hloc. destruct Hs as (Hl & Hq & Hset). split_and!; [by etrans|done|done|by rewrite Hpl|done|done].
  - injection Hp as _ <-. split_and!; [etrans; [exact H1|apply set_queue_later]|done|done|by rewrite Hpl|done|done].
Qed.
End degraded.

(** ** What the layer does not promise *)
Definition at_zero : nat → float := λ _, S754_zero false.
Definition two_primaries : HaState * Replicator :=
  repl_run at_zero (str "eu") (float_of_Z 30) (λ _, S754_zero false)
    [PAdd (str "a") (str "eu"); PAdd (str "b") (str "eu"); PAdd (str "c") (str "us"); PAppend (str "t1") (str "one");
     PAvailable (str "b") false; PAppend (str "t2") (str "two"); PAvailable (str "b") true; PAppend (str "t3") (str "three")]
    (HaState_new, Replicator_new).

(** A primary-region replica that was unavailable during one append misses that
    receipt for ever, later receipts are installed after the gap, and its chain no
    longer verifies: a restore from it is refused although it is available. *)
Theorem replica_gap :
  (rr_chain <$> dget (str "b") (re_replicas two_primaries.2)) = Some (List.filter (λ r, negb (bool_decide (cr_task_id r = str "t2"))) (re_chain two_primaries.2)) ∧
  length (re_chain two_primaries.2) = 3 ∧ (rr_available <$> dget (str "b") (re_replicas two_primaries.2)) = Some true ∧
  (chain_verify ∘ rr_chain <$> dget (str "b") (re_replicas two_primaries.2)) = Some (Ok false) ∧ chain_verify (re_chain two_primaries.2) = Ok true.
Proof. vm_compute. repeat split. Qed.

Definition lost_message : HaState * Replicator :=
  repl_run at_zero (str "eu") (float_of_Z 30) (λ _, S754_zero false)
    [PAdd (str "a") (str "eu"); PAdd (str "c") (str "us"); PAppend (str "t1") (str "one"); PAvailable (str "c") false; PDeliver; PAvailable (str "c") true; PDeliver]
    (HaState_new, Replicator_new).
(** A message that falls due while the replicas of its region are unavailable is
    dropped: no secondary holds the receipt, nothing is pending, and the lag check
    raises no alert, now or later. *)
Theorem undelivered_unalerted :
  length (re_chain lost_message.2) = 1 ∧ (rr_chain <$> dget (str "c") (re_replicas lost_message.2)) = Some [] ∧
  (check_max_lag (λ _, float_of_Z 1000) (float_of_Z 30) lost_message).1 = Ok [].
Proof. vm_compute. repeat split. Qed.

Definition three_stations : HaState :=
  let x id := mkStation (str id) (str "eu") [str "w"] true true (S754_zero false) true in
  cluster_run at_zero (float_of_Z 15) (float_of_Z 60) [CRegister (x "a"); CRegister (x "b"); CRegister (x "c")] HaState_new.
Definition after_silence : HaState := mkHa 0 [] (dset (str "c") (mkStation (str "c") (str "eu") [str "w"] true true (float_of_Z 100) true) (ha_stations three_stations)) [].
(** When several stations are overdue in one tick, the first is handed to one that is
    just as dead and that the same tick then declares failed. *)
Theorem takeover_by_dead :
  match (registry_tick (λ _, float_of_Z 100) (float_of_Z 15) after_silence).1 with
  | Ok ts => map (λ t, (tk_failed_station t, tk_successor_station t)) ts
  | Raise _ => []
  end = [(str "a", str "b"); (str "b", str "c")].
Proof. vm_compute. reflexivity. Qed.

Definition partitioned (shared : list (string * string)) (queue : list (string * string)) : HaState * Degraded :=
  let build := foldl (λ c (tp : string * string), match chain_append (str tp.1) (str tp.2) c with Ok r => c ++ [r] | Raise _ => c end) [] in
  (three_stations, mkDegraded (str "a") (build shared) (build queue) []).
Definition shared_payloads (s : HaState * Degraded) : list pystr := cr_payload <$> dg_shared s.2.

(** The outcome of a conflict depends on the order of arrival: a receipt is compared
    with the oldest conflicting result only, so a larger result is published after a
    smaller one that had already superseded the oldest, and is then the latest. *)
Theorem merge_order_dependent :
  shared_payloads (sync at_zero (partitioned [("t", "c")] [("t", "a"); ("t", "b")])).2 = [str "c"; str "a"; str "b"] ∧
  shared_payloads (sync at_zero (partitioned [("t", "c")] [("t", "b"); ("t", "a")])).2 = [str "c"; str "b"; str "a"].
Proof. vm_compute. split; reflexivity. Qed.

(** Merging is not idempotent: published receipts are rehashed at their place in the
    shared chain, so a result that is already shared under another id is appended
    again. *)
Theorem merge_republishes :
  shared_payloads (sync at_zero (partitioned [("s", "x"); ("t", "a")] [("t", "a")])).2 = [str "x"; str "a"; str "a"].
Proof. vm_compute. reflexivity. Qed.
