(* ===== verification/Backup.v ===== *)
(** * Encrypted backups and restore drills (residual/hadr/backup.py, restore.py)

    Bytes are lists of octets. The text of a note that quotes an exception is
    [failure_text]. *)

From Stdlib Require Import ZArith NArith Lia SpecFloat.
From S2P Require Import Prelude PyData Sha256 PyFloat Json JsonFacts Core CoreFacts Builtins AesGcm Crypto Hadr.

(** ** [bytes.decode("utf-8")] and [json.loads] *)
Section decode.
#[local] Open Scope N_scope.
Definition cont (x : N) : bool := in_range 128 191 x.
Definition cons_ok (c : N) (r : res pystr) : res pystr := s ← r; Ok (c :: s).
Fixpoint decode (b : list N) : res pystr :=
  match b with
  | [] => Ok []
  | x :: b =>
      if x <? 128 then cons_ok x (decode b)
      else match b with
      | y :: b =>
          if in_range 194 223 x && cont y then cons_ok ((x - 192) * 64 + (y - 128)) (decode b)
          else match b with
          | z :: b =>
              let c := (x - 224) * 4096 + (y - 128) * 64 + (z - 128) in
              if in_range 224 239 x && cont y && cont z && (2048 <=? c) && negb (in_range 55296 57343 c) then cons_ok c (decode b)
              else match b with
              | w :: b =>
                  let c := (x - 240) * 262144 + (y - 128) * 4096 + (z - 128) * 64 + (w - 128) in
                  if in_range 240 244 x && cont y && cont z && cont w && in_range 65536 1114111 c then cons_ok c (decode b)
                  else Raise (ValueError "invalid utf-8")
              | [] => Raise (ValueError "invalid utf-8")
              end
          | [] => Raise (ValueError "invalid utf-8")
          end
      | [] => Raise (ValueError "invalid utf-8")
      end
  end.
End decode.

(** [json.loads] without hooks: the last of several equal keys wins, and [NaN],
    [Infinity] and [-Infinity] are floats. *)
Definition loose_pairs (items : dict json) : json := JDict (foldl (λ d kv, dset kv.1 kv.2 d) [] items).
Definition loose_constant (s : pystr) : res (json * pystr) :=
  match strip_prefix (str "NaN") s, strip_prefix (str "Infinity") s, strip_prefix (str "-Infinity") s with
  | Some r, _, _ => Ok (JFloat S754_nan, r)
  | _, Some r, _ => Ok (JFloat (S754_infinity false), r)
  | _, _, Some r => Ok (JFloat (S754_infinity true), r)
  | _, _, _ => json_error
  end.

Fixpoint loads_value (fuel : nat) (s : pystr) {struct fuel} : res (json * pystr) :=
  match fuel with
  | O => out_of_fuel
  | S fuel =>
    match s with
    | [] => json_error
    | c :: s' =>
      if (c =? 34)%N then '(t, r) ← scan_string s'; Ok (JStr t, r)
      else if (c =? 91)%N then
        match skip_ws s' with
        | e :: r => if (e =? 93)%N then Ok (JList [], r)
                    else '(l, r) ← loads_elems fuel (e :: r); Ok (JList l, r)
        | [] => json_error
        end
      else if (c =? 123)%N then
        match skip_ws s' with
        | e :: r => if (e =? 125)%N then Ok (JDict [], r)
                    else '(items, r) ← loads_members fuel (e :: r); Ok (loose_pairs items, r)
        | [] => json_error
        end
      else if (c =? 110)%N then literal "null" JNull s
      else if (c =? 116)%N then literal "true" (JBool true) s
      else if (c =? 102)%N then literal "false" (JBool false) s
      else if is_constant s then loose_constant s
      else parse_number s
    end
  end
with loads_elems (fuel : nat) (s : pystr) {struct fuel} : res (list json * pystr) :=
  match fuel with
  | O => out_of_fuel
  | S fuel =>
    '(v, r) ← loads_value fuel s;
    match skip_ws r with
    | c :: r' =>
        if (c =? 93)%N then Ok ([v], r')
        else if (c =? 44)%N then '(l, r'') ← loads_elems fuel (skip_ws r'); Ok (v :: l, r'')
        else json_error
    | [] => json_error
    end
  end
with loads_members (fuel : nat) (s : pystr) {struct fuel} : res (dict json * pystr) :=
  match fuel with
  | O => out_of_fuel
  | S fuel =>
    match s with
    | q :: s1 =>
      if (q =? 34)%N then
        '(key, s2) ← scan_string s1;
        match skip_ws s2 with
        | c :: s3 =>
          if (c =? 58)%N then
            '(v, r) ← loads_value fuel (skip_ws s3);
            match skip_ws r with
            | e :: r' =>
                if (e =? 125)%N then Ok ([(key, v)], r')
                else if (e =? 44)%N then '(l, r'') ← loads_members fuel (skip_ws r'); Ok ((key, v) :: l, r'')
                else json_error
            | [] => json_error
            end
          else json_error
        | [] => json_error
        end
      else json_error
    | [] => json_error
    end
  end.

Definition json_loads (text : pystr) : res json :=
  when match text with c :: _ => (c =? 65279)%N | [] => false end
  raise ValueError "Unexpected UTF-8 BOM";;
  '(v, rest) ← loads_value (parse_fuel text) (skip_ws text);
  match skip_ws rest with [] => Ok v | _ => Raise (ValueError "Extra data") end.

(** ** Key management *)
Definition LocalKeyManager : Type := (list N * dict (list N))%type.
Definition km_rotate (m : LocalKeyManager) : pystr * LocalKeyManager :=
  let key_id := take 16 (hex (hmac_sha256 m.1 (str "key-id-" ++ str_of_nonneg (Z.of_nat (length m.2))))) in
  (key_id, (m.1, dset key_id (hmac_sha256 m.1 (str "key-material-" ++ key_id)) m.2)).
Definition LocalKeyManager_init (seed : list N) (keys : dict (list N)) : LocalKeyManager :=
  match keys with [] => (km_rotate (seed, [])).2 | _ => (seed, keys) end.
Definition current_key_id (m : LocalKeyManager) : res pystr := of_option (IndexError "list index out of range") (last m.2.*1).
Definition get_key (key_id : pystr) (m : LocalKeyManager) : res (list N) := of_option (ContractError "unknown backup key") (dget key_id m.2).

(** ** The cipher *)
Definition _kdf (master label : list N) : list N := hmac_sha256 master label.

(** The loop of [_keystream_xor] from the block [counter] on. *)
Fixpoint keystream_loop (fuel : nat) (key nonce : list N) (counter : N) (data : list N) : list N :=
  match fuel, data with
  | S fuel, _ :: _ =>
      let block := sha256 (key ++ nonce ++ be_octets 8 counter) in
      zip_with N.lxor (take 32 data) block ++ keystream_loop fuel key nonce (counter + 1)%N (drop 32 data)
  | _, _ => []
  end.
Definition _keystream_xor (key nonce data : list N) : list N := keystream_loop (length data) key nonce 0 data.

Definition encrypt_aead (master nonce plaintext aad : list N) : list N * list N :=
  let enc_key := _kdf master (str "residual.hadr.enc") in
  let mac_key := _kdf master (str "residual.hadr.mac") in
  let ciphertext := _keystream_xor enc_key nonce plaintext in
  (ciphertext, hmac_sha256 mac_key (nonce ++ aad ++ ciphertext)).
Definition decrypt_aead (master nonce ciphertext aad tag : list N) : res (list N) :=
  let enc_key := _kdf master (str "residual.hadr.enc") in
  let mac_key := _kdf master (str "residual.hadr.mac") in
  when negb (bool_decide (hmac_sha256 mac_key (nonce ++ aad ++ ciphertext) = tag)) raise ContractError "backup authentication failed";;
  Ok (_keystream_xor enc_key nonce ciphertext).

(** ** Backups *)
Definition BACKUP_SCHEMA : pystr := str "residual.hadr.backup.v1".
Definition BACKUP_INTERVAL_SECONDS : Z := 24 * 60 * 60.
Definition REQUIRED_COMPONENTS : list string := ["receipt_chain"; "observation_log"; "station_state"; "tenant_configs"; "module_registry"].

Record BackupRecord : Type := mkBackup {
  bk_backup_id : pystr;
  bk_created_at : float;
  bk_key_id : pystr;
  bk_nonce : list N;
  bk_ciphertext : list N;
  bk_tag : list N;
  bk_components : list pystr;
  bk_plaintext_hash : pystr
}.
Record Snapshot : Type := mkSnapshot {
  sn_chain : list ChainReceipt;
  sn_log : list pystr;
  sn_state : dict json;
  sn_tenants : dict json;
  sn_modules : dict json
}.
Definition ChainReceipt_dict (r : ChainReceipt) : json :=
  jobj [("receipt_id", JStr (cr_receipt_id r)); ("sequence", JInt (cr_sequence r)); ("task_id", JStr (cr_task_id r)); ("payload", JStr (cr_payload r));
        ("prev_hash", JStr (cr_prev_hash r))].
Definition build_snapshot (created_at : float) (c : Snapshot) : json :=
  jobj [("schema", JStr BACKUP_SCHEMA); ("created_at", JFloat created_at); ("receipt_chain", JList (ChainReceipt_dict <$> sn_chain c));
        ("observation_log", JList (JStr <$> sn_log c)); ("station_state", JDict (sn_state c)); ("tenant_configs", JDict (sn_tenants c));
        ("module_registry", JDict (sn_modules c))].

Abbreviation BM := (SM (HaState * list BackupRecord)).

Section backup.
Context (clock : nat → float) (failure_text : exn → pystr).

Definition take_backup (km : LocalKeyManager) (c : Snapshot) : BM BackupRecord :=
  now ← on_ha (ha_now clock);
  text ← sm_lift (canonical (build_snapshot now c));
  plaintext ← sm_lift (encode text);
  key_id ← sm_lift (current_key_id km);
  s ← sm_get;
  at_ ← on_ha (ha_now clock);
  let nonce := take 16 (sha256 (str "nonce:" ++ str_of_nonneg (Z.of_nat (length s.2)) ++ str ":" ++ float_repr at_)) in
  key ← sm_lift (get_key key_id km);
  let '(ciphertext, tag) := encrypt_aead key nonce plaintext BACKUP_SCHEMA in
  created ← on_ha (ha_now clock);
  let record := mkBackup (sha256_hex (nonce ++ ciphertext)) created key_id nonce ciphertext tag (str <$> REQUIRED_COMPONENTS) (sha256_hex plaintext) in
  _ ← sm_mod (λ s, (s.1, s.2 ++ [record]));
  _ ← on_ha (ha_record clock (str "backup")
        [("backup_id", JStr (bk_backup_id record)); ("created_at", JFloat created); ("key_id", JStr key_id); ("components", JList (JStr <$> bk_components record))]);
  mret record.

Definition backup_due : BM bool :=
  s ← sm_get;
  match last s.2 with
  | None => mret true
  | Some b => now ← on_ha (ha_now clock); mret (SFleb (float_of_Z BACKUP_INTERVAL_SECONDS) (fsub now (bk_created_at b)))
  end.
Definition take_daily_backup_if_due (km : LocalKeyManager) (c : Snapshot) : BM (option BackupRecord) :=
  due ← backup_due;
  if negb due then mret None else b ← take_backup km c; mret (Some b).

Definition decrypt_backup (b : BackupRecord) (km : LocalKeyManager) : res json :=
  key ← get_key (bk_key_id b) km;
  plaintext ← decrypt_aead key (bk_nonce b) (bk_ciphertext b) BACKUP_SCHEMA (bk_tag b);
  text ← decode plaintext;
  snapshot ← json_loads text;
  when negb (bool_decide (sha256_hex plaintext = bk_plaintext_hash b)) raise ContractError "backup plaintext hash mismatch";;
  Ok snapshot.

(** ** Restore drills *)
Definition QUARTER_SECONDS : Z := 92 * 24 * 60 * 60.

(** A receipt as read back: its fields are whatever the snapshot holds. *)
Record ReadReceipt : Type := mkRead { rd_receipt_id : json; rd_sequence : Z; rd_task_id : json; rd_payload : json; rd_prev_hash : json }.

(** [int(value)] *)
Definition int_of_json (v : json) : res Z :=
  match v with
  | JBool b => Ok (Z.b2z b)
  | JInt z => Ok z
  | JFloat (S754_finite s m e) => Ok (cond_Zopp s (if (0 <=? e)%Z then Z.pos m * 2 ^ e else Z.pos m / 2 ^ (- e))%Z)
  | JFloat (S754_zero _) => Ok 0%Z
  | JFloat S754_nan => Raise (ValueError "cannot convert float NaN to integer")
  | JFloat (S754_infinity _) => Raise (OtherError "OverflowError")
  | JStr s => py_int s
  | JNull | JList _ | JDict _ => Raise (TypeError "int() argument must be a string or a number")
  end.
(** [r[key]] *)
Definition subscript (key : string) (r : json) : res json :=
  match r with
  | JDict d => of_option (KeyError key) (dget (str key) d)
  | _ => Raise (TypeError "indices must be integers")
  end.
Definition read_receipt (r : json) : res ReadReceipt :=
  id ← subscript "receipt_id" r;
  seq ← subscript "sequence" r;
  seq ← int_of_json seq;
  task ← subscript "task_id" r;
  payload ← subscript "payload" r;
  prev ← subscript "prev_hash" r;
  Ok (mkRead id seq task payload prev).
(** [for r in value] *)
Definition iterate (v : json) : res (list json) :=
  match v with
  | JList l => Ok l
  | JDict d => Ok (JStr <$> d.*1)
  | JStr s => Ok ((λ c, JStr [c]) <$> s)
  | _ => Raise (TypeError "object is not iterable")
  end.

(** [ReceiptChain.verify] on the receipts read back *)
Definition read_body (r : ReadReceipt) : json :=
  jobj [("sequence", JInt (rd_sequence r)); ("task_id", rd_task_id r); ("payload", rd_payload r); ("prev_hash", rd_prev_hash r)].
Fixpoint read_verify (index : Z) (prev : json) (c : list ReadReceipt) : res bool :=
  match c with
  | [] => Ok true
  | r :: c =>
      if negb (rd_sequence r =? index)%Z || negb (py_eq (rd_prev_hash r) prev) then Ok false
      else
        t ← canonical (read_body r);
        h ← sha_text (HADR_CHAIN_SCHEMA ++ [10%N] ++ t);
        if negb (py_eq (rd_receipt_id r) (JStr h)) then Ok false else read_verify (index + 1) (rd_receipt_id r) c
  end.

Inductive Note : Type := MissingComponents (l : list string) | ChainFailed | LogIncomplete | RestoreFailed (e : exn).
Definition note_text (n : Note) : pystr :=
  match n with
  | MissingComponents l => str "missing components: " ++ join (str ", ") (str <$> l)
  | ChainFailed => str "receipt chain integrity check failed"
  | LogIncomplete => str "observation log incomplete"
  | RestoreFailed e => str "restore failed: " ++ failure_text e
  end.
(** [n.startswith("missing components")] *)
Definition says_missing (n : Note) : bool := match n with MissingComponents _ => true | _ => false end.

Record RestorationReport : Type := mkReport {
  rp_backup_id : pystr;
  rp_tested_at : float;
  rp_restored : bool;
  rp_chain_intact : bool;
  rp_log_complete : bool;
  rp_components : list string;
  rp_ok : bool;
  rp_notes : list Note
}.
(** The local variables of [run] that its [try] block assigns. *)
Record Drill : Type := mkDrill { dr_restored : bool; dr_chain : bool; dr_log : bool; dr_components : list string; dr_notes : list Note }.
Definition add_note (b : bool) (n : Note) (d : Drill) : Drill :=
  if b then mkDrill (dr_restored d) (dr_chain d) (dr_log d) (dr_components d) (dr_notes d ++ [n]) else d.

Definition py_len (v : json) : res Z :=
  match v with
  | JStr s => Ok (Z.of_nat (length s))
  | JList l => Ok (Z.of_nat (length l))
  | JDict d => Ok (Z.of_nat (length d))
  | _ => Raise (TypeError "object has no len()")
  end.
Definition is_list (v : json) : bool := match v with JList _ => true | _ => false end.

Definition drill_body (b : BackupRecord) (km : LocalKeyManager) (expected : option Z) : SM Drill unit :=
  snapshot ← sm_lift (decrypt_backup b km);
  _ ← sm_mod (λ d, mkDrill true (dr_chain d) (dr_log d) (dr_components d) (dr_notes d));
  match snapshot with
  | JDict sn =>
      let missing := List.filter (λ c, negb (dmem (str c) sn)) REQUIRED_COMPONENTS in
      let present := List.filter (λ c, dmem (str c) sn) REQUIRED_COMPONENTS in
      _ ← sm_mod (λ d, mkDrill (dr_restored d) (dr_chain d) (dr_log d) present (dr_notes d));
      _ ← sm_mod (add_note (negb (bool_decide (missing = []))) (MissingComponents missing));
      rows ← sm_lift (iterate (default (JList []) (dget (str "receipt_chain") sn)));
      chain ← sm_lift (mapM read_receipt rows);
      intact ← sm_lift (read_verify 0 (JStr HADR_GENESIS) chain);
      _ ← sm_mod (λ d, mkDrill (dr_restored d) intact (dr_log d) (dr_components d) (dr_notes d));
      _ ← sm_mod (add_note (negb intact) ChainFailed);
      let log := default (JList []) (dget (str "observation_log") sn) in
      complete ← sm_lift (match expected with Some n => l ← py_len log; Ok (n <=? l)%Z | None => Ok (is_list log) end);
      _ ← sm_mod (λ d, mkDrill (dr_restored d) (dr_chain d) complete (dr_components d) (dr_notes d));
      sm_mod (add_note (negb complete) LogIncomplete)
  | JList _ | JStr _ => sm_raise (AttributeError "get")
  | _ => sm_raise (TypeError "argument is not iterable")
  end.

Abbreviation DRM := (SM (HaState * list RestorationReport)).
Definition run_drill (b : BackupRecord) (km : LocalKeyManager) (expected : option Z) : DRM RestorationReport :=
  let '(r, d) := drill_body b km expected (mkDrill false false false [] []) in
  d ← sm_lift (match r with
               | Ok _ => Ok d
               | Raise (ContractError m) => Ok (add_note true (RestoreFailed (ContractError m)) d)
               | Raise e => Raise e
               end);
  now ← on_ha (ha_now clock);
  let report := mkReport (bk_backup_id b) now (dr_restored d) (dr_chain d) (dr_log d) (dr_components d)
                  (dr_restored d && dr_chain d && dr_log d && negb (existsb says_missing (dr_notes d))) (dr_notes d) in
  _ ← sm_mod (λ s, (s.1, s.2 ++ [report]));
  _ ← on_ha (ha_record clock (str "restore-test")
        [("backup_id", JStr (rp_backup_id report)); ("ok", JBool (rp_ok report)); ("chain_intact", JBool (rp_chain_intact report));
         ("observation_log_complete", JBool (rp_log_complete report)); ("notes", JList (JStr ∘ note_text <$> rp_notes report))]);
  mret report.

Definition quarterly_test_due : DRM bool :=
  s ← sm_get;
  match rp_tested_at <$> s.2 with
  | [] => mret true
  | x :: l =>
      now ← on_ha (ha_now clock);
      mret (SFleb (float_of_Z QUARTER_SECONDS) (fsub now (foldl (λ m y, if SFltb m y then y else m) x l)))
  end.
Definition assert_quarterly_tested : DRM unit :=
  due ← quarterly_test_due;
  if negb due then mret tt else sm_raise (ContractError "restoration test overdue (must be at least quarterly)").
End backup.
