(* ===== verification/BackupTheorems.v ===== *)
(** * A restore drill gives back what the backup took *)

From Stdlib Require Import ZArith NArith Lia SpecFloat.
From S2P Require Import Prelude PyData Sha256 PyFloat Json JsonFacts Core CoreFacts Builtins Storage Journal JsonPlain AesGcm Crypto CryptoTheorems Hadr HadrTheorems Backup.

(** ** The cipher *)
Lemma keystream_step fuel key nonce counter d :
  0 < length d →
  keystream_loop (S fuel) key nonce counter d =
  zip_with N.lxor (take 32 d) (sha256 (key ++ nonce ++ be_octets 8 counter)) ++ keystream_loop fuel key nonce (counter + 1)%N (drop 32 d).
Proof. destruct d; [cbn; lia|done]. Qed.

Lemma keystream_loop_length fuel key nonce counter data : length data ≤ fuel → length (keystream_loop fuel key nonce counter data) = length data.
Proof.
  revert counter data. induction fuel as [|fuel IH]; intros counter data Hf; [destruct data; [done|cbn in Hf; lia]|].
  destruct (decide (length data = 0)) as [E|E]; [by apply length_zero_iff_nil in E as ->|]. rewrite keystream_step by lia.
  set (block := sha256 _). assert (Hb : length block = 32) by apply sha256_shape. clearbody block.
  rewrite length_app, length_zip_with, length_take, Hb, IH; rewrite length_drop; lia.
Qed.

Lemma zip_lxor_involutive (d block : list N) : length d ≤ length block → zip_with N.lxor (zip_with N.lxor d block) block = d.
Proof.
  revert block. induction d as [|x d IH]; intros [|y block] H; cbn in *; [done|done|lia|]. f_equal; [|apply IH; lia].
  by rewrite N.lxor_assoc, N.lxor_nilpotent, N.lxor_0_r.
Qed.

Lemma keystream_loop_involutive fuel key nonce counter data :
  length data ≤ fuel → keystream_loop fuel key nonce counter (keystream_loop fuel key nonce counter data) = data.
Proof.
  revert counter data. induction fuel as [|fuel IH]; intros counter data Hf; [destruct data; [done|cbn in Hf; lia]|].
  destruct (decide (length data = 0)) as [E|Hd]; [by apply length_zero_iff_nil in E as ->|]. rename data into d. rewrite (keystream_step _ _ _ _ d) by lia.
  set (block := sha256 _). assert (Hb : length block = 32) by apply sha256_shape.
  set (z := zip_with N.lxor (take 32 d) block). set (k := keystream_loop fuel key nonce (counter + 1)%N (drop 32 d)).
  assert (Hz : length z = length d `min` 32) by (unfold z; rewrite length_zip_with, length_take; lia).
  assert (Hk : length k = length d - 32) by (unfold k; rewrite keystream_loop_length; rewrite length_drop; lia).
  assert (Ht : take 32 (z ++ k) = z).
  { destruct (decide (length d ≤ 32)) as [Hle|Hgt].
    - assert (k = []) as -> by (apply length_zero_iff_nil; lia). rewrite app_nil_r. apply take_ge. lia.
    - rewrite take_app_le by lia. apply take_ge. lia. }
  assert (Hdr : drop 32 (z ++ k) = k).
  { destruct (decide (length d ≤ 32)) as [Hle|Hgt].
    - assert (k = []) as -> by (apply length_zero_iff_nil; lia). rewrite app_nil_r. apply drop_ge. lia.
    - rewrite drop_app_ge by lia. replace (32 - length z) with 0 by lia. done. }
  rewrite keystream_step by (rewrite length_app; lia). fold block. rewrite Ht, Hdr. unfold z, k.
  rewrite zip_lxor_involutive by (rewrite length_take; lia). rewrite IH by (rewrite length_drop; lia). apply take_drop.
Qed.

Lemma keystream_involutive key nonce data : _keystream_xor key nonce (_keystream_xor key nonce data) = data.
Proof.
  unfold _keystream_xor at 1. assert (Hl : length (_keystream_xor key nonce data) = length data) by (apply keystream_loop_length; lia).
  rewrite Hl. unfold _keystream_xor. by apply keystream_loop_involutive.
Qed.

Lemma aead_opens master nonce p aad : decrypt_aead master nonce (encrypt_aead master nonce p aad).1 aad (encrypt_aead master nonce p aad).2 = Ok p.
Proof.
  unfold decrypt_aead, encrypt_aead. set (ek := _kdf master (str "residual.hadr.enc")). set (mk := _kdf master (str "residual.hadr.mac")).
  clearbody ek mk. cbn [fst snd]. rewrite bool_decide_true by reflexivity. cbn [negb]. by rewrite keystream_involutive.
Qed.

(** ** UTF-8 *)
Lemma decode_char c b bs : utf8_char c = Ok b → (c <= 1114111)%N → decode (b ++ bs) = cons_ok c (decode bs).
Proof.
  unfold utf8_char. intros H Hc. destruct (N.ltb_spec c 128) as [H1|H1].
  { injection H as <-. cbn [app decode]. apply N.ltb_lt in H1. by rewrite H1. }
  destruct (N.ltb_spec c 2048) as [H2|H2].
  { injection H as <-. cbn [app]. pose proof (N.div_mod c 64 ltac:(lia)) as E. pose proof (N.mod_lt c 64 ltac:(lia)) as Hm.
    set (q := (c / 64)%N) in *. set (r := (c mod 64)%N) in *. assert (2 <= q < 32)%N by lia. cbn [decode].
    destruct (N.ltb_spec (192 + q) 128); [lia|].
    assert (in_range 194 223 (192 + q) = true) as -> by (apply in_range_iff; lia). unfold cont. assert (in_range 128 191 (128 + r) = true) as -> by (apply in_range_iff; lia).
    cbn [andb]. f_equal. lia. }
  destruct (in_range 55296 57343 c) eqn:Es; [done|]. destruct (N.ltb_spec c 65536) as [H3|H3].
  { injection H as <-. cbn [app]. pose proof (N.div_mod c 64 ltac:(lia)) as E. pose proof (N.mod_lt c 64 ltac:(lia)) as Hm.
    pose proof (N.div_mod (c / 64) 64 ltac:(lia)) as E2. pose proof (N.mod_lt (c / 64) 64 ltac:(lia)) as Hm2.
    assert (c / 4096 = c / 64 / 64)%N as -> by (rewrite N.Div0.div_div; done).
    set (r := (c mod 64)%N) in *. set (q := (c / 64)%N) in *. set (r2 := (q mod 64)%N) in *. set (q2 := (q / 64)%N) in *. assert (q2 < 16)%N by lia.
    assert (Hv : ((224 + q2 - 224) * 4096 + (128 + r2 - 128) * 64 + (128 + r - 128))%N = c) by lia. clearbody q q2 r r2. cbn [decode]. rewrite Hv.
    destruct (N.ltb_spec (224 + q2) 128); [lia|].
    assert (in_range 194 223 (224 + q2) = false) as -> by (destruct (in_range 194 223 (224 + q2)) eqn:X; [apply in_range_iff in X; lia|done]).
    assert (in_range 224 239 (224 + q2) = true) as -> by (apply in_range_iff; lia). unfold cont.
    assert (in_range 128 191 (128 + r2) = true) as -> by (apply in_range_iff; lia). assert (in_range 128 191 (128 + r) = true) as -> by (apply in_range_iff; lia).
    apply N.leb_le in H2. rewrite H2, Es. done. }
  injection H as <-. cbn [app]. pose proof (N.div_mod c 64 ltac:(lia)) as E. pose proof (N.mod_lt c 64 ltac:(lia)) as Hm.
  pose proof (N.div_mod (c / 64) 64 ltac:(lia)) as E2. pose proof (N.mod_lt (c / 64) 64 ltac:(lia)) as Hm2.
  pose proof (N.div_mod (c / 64 / 64) 64 ltac:(lia)) as E3. pose proof (N.mod_lt (c / 64 / 64) 64 ltac:(lia)) as Hm3.
  assert (c / 262144 = c / 64 / 64 / 64)%N as -> by (rewrite !N.Div0.div_div; done). assert (c / 4096 = c / 64 / 64)%N as -> by (rewrite N.Div0.div_div; done).
  set (r := (c mod 64)%N) in *. set (q := (c / 64)%N) in *. set (r2 := (q mod 64)%N) in *. set (q2 := (q / 64)%N) in *. set (r3 := (q2 mod 64)%N) in *. set (q3 := (q2 / 64)%N) in *.
  assert (q3 < 5)%N by lia. clearbody q q2 q3 r r2 r3.
  assert (Hv : ((240 + q3 - 240) * 262144 + (128 + r3 - 128) * 4096 + (128 + r2 - 128) * 64 + (128 + r - 128))%N = c) by lia. cbn [decode]. rewrite Hv.
  destruct (N.ltb_spec (240 + q3) 128); [lia|].
  assert (in_range 194 223 (240 + q3) = false) as -> by (destruct (in_range 194 223 (240 + q3)) eqn:X; [apply in_range_iff in X; lia|done]).
  assert (in_range 224 239 (240 + q3) = false) as -> by (destruct (in_range 224 239 (240 + q3)) eqn:X; [apply in_range_iff in X; lia|done]).
  assert (in_range 240 244 (240 + q3) = true) as -> by (apply in_range_iff; lia). unfold cont.
  assert (in_range 128 191 (128 + r2) = true) as -> by (apply in_range_iff; lia). assert (in_range 128 191 (128 + r) = true) as -> by (apply in_range_iff; lia).
  assert (in_range 128 191 (128 + r3) = true) as -> by (apply in_range_iff; lia). assert (in_range 65536 1114111 c = true) as -> by (apply in_range_iff; lia). done.
Qed.

Lemma decode_encode s b : encode s = Ok b → Forall (λ c, (c <= 1114111)%N) s → decode b = Ok s.
Proof.
  intros H Hs. revert b H. induction Hs as [|c s Hc _ IH]; intros b H; cbn [encode] in H; [by injection H as <-|].
  apply bind_Ok in H as (x & Hx & H). apply bind_Ok in H as (bs & Hbs & [= <-]). rewrite (decode_char c x bs Hx Hc), (IH bs Hbs). done.
Qed.

(** ** Texts that [strict_json] reads, [json.loads] reads the same *)
Lemma pairs_loose items result d : pairs items result = Ok d → d = JDict (foldl (λ d kv, dset kv.1 kv.2 d) result items).
Proof.
  revert result. induction items as [|[k v] items IH]; intros result H; cbn [pairs] in H; [by injection H as <-|].
  destruct (dmem k result); [done|]. cbn [negb] in H. by apply IH.
Qed.

Lemma loads_agree fuel :
  (∀ s x, parse_value fuel s = Ok x → loads_value fuel s = Ok x) ∧ (∀ s x, parse_elems fuel s = Ok x → loads_elems fuel s = Ok x) ∧
  (∀ s x, parse_members fuel s = Ok x → loads_members fuel s = Ok x).
Proof.
  induction fuel as [|fuel (IHv & IHe & IHm)]; [done|]. split_and!; intros s x H.
  - destruct s as [|c s]; [done|]. cbn [parse_value loads_value] in *. destruct (c =? 34)%N; [done|]. destruct (c =? 91)%N.
    { destruct (skip_ws s) as [|e r]; [done|]. destruct (e =? 93)%N; [done|]. apply bind_Ok in H as ([l r'] & Hl & H). by rewrite (IHe _ _ Hl). }
    destruct (c =? 123)%N.
    { destruct (skip_ws s) as [|e r]; [done|]. destruct (e =? 125)%N; [done|]. apply bind_Ok in H as ([l r'] & Hl & H). rewrite (IHm _ _ Hl).
      apply bind_Ok in H as (d & Hd & [= <-]). apply pairs_loose in Hd as ->. done. }
    destruct (c =? 110)%N; [done|]. destruct (c =? 116)%N; [done|]. destruct (c =? 102)%N; [done|]. by destruct (is_constant (c :: s)).
  - cbn [parse_elems loads_elems] in *. apply bind_Ok in H as ([v r] & Hv & H). rewrite (IHv _ _ Hv). cbn [mbind res_bind] in *.
    destruct (skip_ws r) as [|c r']; [done|]. destruct (c =? 93)%N; [done|]. destruct (c =? 44)%N; [|done]. apply bind_Ok in H as ([l r''] & Hl & H). by rewrite (IHe _ _ Hl).
  - destruct s as [|q s]; [done|]. cbn [parse_members loads_members] in *. destruct (q =? 34)%N; [|done]. apply bind_Ok in H as ([key s2] & Hk & H). rewrite Hk.
    cbn [mbind res_bind]. destruct (skip_ws s2) as [|c s3]; [done|]. destruct (c =? 58)%N; [|done]. apply bind_Ok in H as ([v r] & Hv & H). rewrite (IHv _ _ Hv).
    cbn [mbind res_bind] in *. destruct (skip_ws r) as [|e r']; [done|]. destruct (e =? 125)%N; [done|]. destruct (e =? 44)%N; [|done].
    apply bind_Ok in H as ([l r''] & Hl & H). by rewrite (IHm _ _ Hl).
Qed.

Lemma json_loads_strict t v : strict_json t = Ok v → json_loads t = Ok v.
Proof.
  unfold strict_json, json_loads. intros H. destruct (match t with c :: _ => _ | [] => false end); [done|]. cbn [negb] in *.
  apply bind_Ok in H as ([x r] & Hx & H). by rewrite (proj1 (loads_agree _) _ _ Hx).
Qed.

(** ** The chain read back *)
Lemma read_receipt_back r :
  read_receipt (sort_json (ChainReceipt_dict r)) = Ok (mkRead (JStr (cr_receipt_id r)) (cr_sequence r) (JStr (cr_task_id r)) (JStr (cr_payload r)) (JStr (cr_prev_hash r))).
Proof. destruct r as [i s t p h]. vm_compute. reflexivity. Qed.

Definition read_of (r : ChainReceipt) : ReadReceipt :=
  mkRead (JStr (cr_receipt_id r)) (cr_sequence r) (JStr (cr_task_id r)) (JStr (cr_payload r)) (JStr (cr_prev_hash r)).

Lemma read_chain_back c : mapM read_receipt (sort_json <$> (ChainReceipt_dict <$> c)) = Ok (read_of <$> c).
Proof.
  apply mapM_res_Ok. induction c as [|r c IH]; [constructor|]. rewrite !fmap_cons. constructor; [apply read_receipt_back|exact IH].
Qed.

Lemma read_verify_back index prev c : read_verify index (JStr prev) (read_of <$> c) = chain_verify_from index prev c.
Proof.
  revert index prev. induction c as [|r c IH]; intros index prev; [done|]. rewrite fmap_cons. cbn [read_verify chain_verify_from read_of rd_sequence rd_prev_hash rd_receipt_id py_eq].
  unfold receipt_verify, _receipt_hash. change (read_body (read_of r)) with (chain_body (cr_sequence r) (cr_task_id r) (cr_payload r) (cr_prev_hash r)).
  destruct (negb _ || negb _); [done|]. destruct (canonical _) as [t|]; [|done]. cbn [mbind res_bind]. destruct (sha_text _) as [h|]; [|done]. cbn [mbind res_bind].
  destruct (negb (bool_decide (cr_receipt_id r = h))); [done|]. apply IH.
Qed.

(** ** Keys *)
Definition keys_derived (m : LocalKeyManager) : Prop := ∀ id k, dget id m.2 = Some k → k = hmac_sha256 m.1 (str "key-material-" ++ id).

Lemma rotate_derived m : keys_derived m → keys_derived (km_rotate m).2.
Proof.
  intros H id k. unfold km_rotate. set (kid := take 16 _). clearbody kid. cbn [fst snd]. rewrite dget_dset. case_decide; [|apply H]. subst. by intros [= <-].
Qed.
Lemma rotate_keeps m id k : keys_derived m → get_key id m = Ok k → get_key id (km_rotate m).2 = Ok k.
Proof.
  unfold get_key. intros Hm. destruct (dget id m.2) as [k'|] eqn:E; cbn [of_option]; [|done]. intros [= ->]. unfold km_rotate. set (kid := take 16 _). clearbody kid. cbn [fst snd].
  rewrite dget_dset. case_decide; [|by rewrite E]. subst. cbn [of_option]. by rewrite <- (Hm _ _ E).
Qed.
Definition rotated (n : nat) (m : LocalKeyManager) : LocalKeyManager := Nat.iter n (λ m, (km_rotate m).2) m.
Lemma rotated_keeps n m id k : keys_derived m → get_key id m = Ok k → get_key id (rotated n m) = Ok k.
Proof.
  intros Hm Hk. enough (keys_derived (rotated n m) ∧ get_key id (rotated n m) = Ok k) by tauto. unfold rotated. induction n as [|n [IH1 IH2]]; [done|]. cbn [Nat.iter].
  split; [by apply rotate_derived|by apply rotate_keeps].
Qed.
Lemma init_derived seed : keys_derived (LocalKeyManager_init seed []).
Proof. unfold LocalKeyManager_init. by apply rotate_derived. Qed.

(** ** From a backup to its drill *)
Section drill.
Context (clock : nat → float) (failure_text : exn → pystr).

Lemma take_backup_spec km c s b s' :
  take_backup clock km c s = (Ok b, s') →
  ∃ text plaintext key, canonical (build_snapshot (clock (ha_tick s.1)) c) = Ok text ∧ encode text = Ok plaintext ∧ current_key_id km = Ok (bk_key_id b) ∧
    get_key (bk_key_id b) km = Ok key ∧ (bk_ciphertext b, bk_tag b) = encrypt_aead key (bk_nonce b) plaintext BACKUP_SCHEMA ∧
    bk_plaintext_hash b = sha256_hex plaintext ∧ is_digest (bk_backup_id b) = true ∧ bk_components b = str <$> REQUIRED_COMPONENTS ∧
    s'.2 = s.2 ++ [b] ∧ ha_later s.1 s'.1 ∧ ∃ e, ha_journal s'.1 = ha_journal s.1 ++ [e] ∧ he_kind e = str "backup".
Proof.
  unfold take_backup. intros H. apply sm_bind_Ok in H as (now & s1 & Hnow & H). injection Hnow as <- <-.
  apply sm_bind_Ok in H as (text & s1 & Ht & H). apply sm_lift_Ok in Ht as [Ht ->]. apply sm_bind_Ok in H as (p & s1 & Hp & H). apply sm_lift_Ok in Hp as [Hp ->].
  apply sm_bind_Ok in H as (kid & s1 & Hk & H). apply sm_lift_Ok in Hk as [Hk ->]. apply sm_bind_Ok in H as (s0 & s1 & [= <- <-] & H).
  apply sm_bind_Ok in H as (at_ & s1 & Hat & H). injection Hat as <- <-. set (nonce := take 16 _) in H. clearbody nonce.
  apply sm_bind_Ok in H as (key & s1 & Hkey & H). apply sm_lift_Ok in Hkey as [Hkey ->].
  destruct (encrypt_aead key nonce p BACKUP_SCHEMA) as [ct tag] eqn:Ee. apply sm_bind_Ok in H as (created & s1 & Hc & H). injection Hc as <- <-.
  set (rec := mkBackup _ _ _ _ _ _ _ _) in H. apply sm_bind_Ok in H as (u & s1 & [= <- <-] & H). apply sm_bind_Ok in H as (e & s1 & He & [= <- <-]).
  cbn [fst snd ha_tick ha_journal ha_stations ha_takeovers] in *. unfold on_ha in He. cbn [fst snd] in He. set (h1 := mkHa _ _ _ _) in He.
  match type of He with context [ha_record clock ?k ?d h1] => pose proof (ha_record_spec clock k d h1) as Hr; destruct (ha_record clock k d h1) as [[e'|] h'] end; [|done].
  injection He as <- <-. destruct Hr as (Hkd & Hj & _ & Hl). exists text, p, key. cbn [fst snd]. split_and!; try done.
  - by apply sha256_hex_is_digest.
  - etrans; [|exact Hl]. by constructor.
  - by exists e'.
Qed.

Lemma decrypt_back km c s b s' :
  take_backup clock km c s = (Ok b, s') → keys_derived km → plain (build_snapshot (clock (ha_tick s.1)) c) →
  (∀ text, canonical (build_snapshot (clock (ha_tick s.1)) c) = Ok text → Forall (λ x, (x <= 1114111)%N) text) →
  ∀ n, decrypt_backup b (rotated n km) = Ok (sort_json (build_snapshot (clock (ha_tick s.1)) c)).
Proof.
  intros Hb Hkm Hplain Hchars n. apply take_backup_spec in Hb as (text & p & key & Ht & Hp & _ & Hkey & Hc & Hh & _).
  unfold decrypt_backup. rewrite (rotated_keeps n km _ key) by done. cbn [mbind res_bind].
  pose proof (aead_opens key (bk_nonce b) p BACKUP_SCHEMA) as Ho. rewrite <- Hc in Ho. cbn [fst snd] in Ho. rewrite Ho. cbn [mbind res_bind].
  rewrite (decode_encode text p Hp (Hchars text Ht)). cbn [mbind res_bind]. rewrite (json_loads_strict text _ (plain_read _ _ Hplain Ht)). cbn [mbind res_bind].
  by rewrite Hh, bool_decide_true by done.
Qed.

Definition log_complete (c : Snapshot) (expected : option Z) : bool := match expected with Some n => (n <=? Z.of_nat (length (sn_log c)))%Z | None => true end.
Definition drill_notes (v complete : bool) : list Note := (if v then [] else [ChainFailed]) ++ (if complete then [] else [LogIncomplete]).

(** The snapshot as it is read back: the same fields in the order of their names. *)
Definition sorted_snapshot (f : float) (c : Snapshot) : dict json :=
  (λ kv : string * json, (str kv.1, kv.2)) <$>
  [("created_at", JFloat f); ("module_registry", sort_json (JDict (sn_modules c))); ("observation_log", JList (sort_json <$> (JStr <$> sn_log c)));
   ("receipt_chain", JList (sort_json <$> (ChainReceipt_dict <$> sn_chain c))); ("schema", JStr BACKUP_SCHEMA); ("station_state", sort_json (JDict (sn_state c)));
   ("tenant_configs", sort_json (JDict (sn_tenants c)))].
Lemma sort_snapshot f c : sort_json (build_snapshot f c) = JDict (sorted_snapshot f c).
Proof. reflexivity. Qed.
Lemma snapshot_fields f c :
  List.filter (λ x, negb (dmem (str x) (sorted_snapshot f c))) REQUIRED_COMPONENTS = [] ∧
  List.filter (λ x, dmem (str x) (sorted_snapshot f c)) REQUIRED_COMPONENTS = REQUIRED_COMPONENTS ∧
  dget (str "receipt_chain") (sorted_snapshot f c) = Some (JList (sort_json <$> (ChainReceipt_dict <$> sn_chain c))) ∧
  dget (str "observation_log") (sorted_snapshot f c) = Some (JList (sort_json <$> (JStr <$> sn_log c))).
Proof. split_and!; reflexivity. Qed.

Lemma drill_body_back b km c f v expected :
  decrypt_backup b km = Ok (sort_json (build_snapshot f c)) → chain_verify (sn_chain c) = Ok v →
  drill_body b km expected (mkDrill false false false [] []) =
  (Ok tt, mkDrill true v (log_complete c expected) REQUIRED_COMPONENTS (drill_notes v (log_complete c expected))).
Proof.
  intros Hd Hv. unfold drill_body. unfold mbind at 1, SM_bind, sm_lift at 1. rewrite Hd.
  unfold mbind at 1, SM_bind, sm_mod at 1. cbn [dr_chain dr_log dr_components dr_notes].
  rewrite sort_snapshot. destruct (snapshot_fields f c) as (-> & -> & -> & ->). set (sn := sorted_snapshot f c). clearbody sn.
  set (log := JList (sort_json <$> (JStr <$> sn_log c))). cbn [default from_option]. unfold id.
  rewrite (bool_decide_true ([] = [])) by done. cbn [negb]. unfold mbind at 1, SM_bind, sm_mod at 1. unfold mbind at 1, SM_bind, sm_mod at 1. cbn [add_note].
  cbn [dr_restored dr_chain dr_log dr_components dr_notes]. unfold mbind at 1, SM_bind, sm_lift at 1. cbn [iterate].
  unfold mbind at 1, SM_bind, sm_lift at 1. rewrite read_chain_back. unfold mbind at 1, SM_bind, sm_lift at 1. rewrite read_verify_back. fold (chain_verify (sn_chain c)). rewrite Hv.
  unfold mbind at 1, SM_bind, sm_mod at 1. unfold mbind at 1, SM_bind, sm_mod at 1.
  assert (match expected with Some n => l ← py_len log; Ok (n <=? l)%Z | None => Ok (is_list log) end = Ok (log_complete c expected)) as ->.
  { destruct expected; [|done]. cbn [py_len log mbind res_bind log_complete]. by rewrite !length_fmap. }
  unfold mbind at 1, SM_bind, sm_lift at 1. unfold mbind at 1, SM_bind, sm_mod at 1. unfold sm_mod, drill_notes. by destruct v, (log_complete c expected).
Qed.

Lemma drill_notes_storable v complete : storable (JList (JStr ∘ note_text failure_text <$> drill_notes v complete)) = true.
Proof. by destruct v, complete. Qed.

Lemma run_drill_back b km c f v expected d :
  is_digest (bk_backup_id b) = true → decrypt_backup b km = Ok (sort_json (build_snapshot f c)) → chain_verify (sn_chain c) = Ok v →
  journal_inv d.1 → (∀ k, is_finite (clock k) = true) →
  ∃ h, run_drill clock failure_text b km expected d =
    (Ok (mkReport (bk_backup_id b) (clock (ha_tick d.1)) true v (log_complete c expected) REQUIRED_COMPONENTS (v && log_complete c expected) (drill_notes v (log_complete c expected))),
     (h, d.2 ++ [mkReport (bk_backup_id b) (clock (ha_tick d.1)) true v (log_complete c expected) REQUIRED_COMPONENTS (v && log_complete c expected) (drill_notes v (log_complete c expected))])) ∧
    journal_inv h.
Proof.
  intros Hid Hdec Hv Hj Hfin. unfold run_drill. rewrite (drill_body_back b km c f v expected Hdec Hv). unfold mbind at 1, SM_bind, sm_lift at 1.
  unfold mbind at 1, SM_bind, on_ha at 1. cbn [ha_now fst snd dr_restored dr_chain dr_log dr_components dr_notes].
  unfold mbind at 1, SM_bind, sm_mod at 1. cbn [fst snd]. unfold mbind at 1, SM_bind, on_ha at 1. cbn [fst snd].
  assert (Hok : (true && v && log_complete c expected && negb (existsb says_missing (drill_notes v (log_complete c expected)))) = (v && log_complete c expected))
    by (by destruct v, (log_complete c expected)). rewrite Hok.
  cbn [rp_backup_id rp_ok rp_chain_intact rp_log_complete rp_notes]. set (h1 := mkHa (S (ha_tick d.1)) _ _ _). set (dts := [_; _; _; _; _]).
  destruct (ha_record_total clock (str "restore-test") dts h1) as (e & h' & He); [exact Hj|exact Hfin|unfold HA_KINDS; set_solver|done| |].
  - unfold dts. repeat constructor; cbn [snd]; [by apply storable_str, digest_encodable|apply storable_bool..|apply drill_notes_storable].
  - pose proof (ha_record_later clock (str "restore-test") dts h1) as Hl. rewrite He in *. cbn [snd mret SM_ret] in *. exists h'. split; [done|]. by apply (hl_verifies _ _ Hl).
Qed.

(** C17: a backup restores to what was backed up. The backup is filed and decrypts to
    the snapshot it was taken of, up to the order of keys, under the key manager it
    was taken with and after any number of later rotations; a restore drill of it
    returns a report, files and records it, with all components present, the chain
    intact exactly when the chain that was backed up verifies, the log complete
    exactly when it has the expected number of observations, and the verdict the
    conjunction of the two; the journal still verifies. And no record is decrypted
    unless its tag is the HMAC of its nonce, the schema and its ciphertext under the
    key it names. *)
Theorem restore_drill_exact km c s b s' v :
  take_backup clock km c s = (Ok b, s') → keys_derived km → plain (build_snapshot (clock (ha_tick s.1)) c) →
  (∀ text, canonical (build_snapshot (clock (ha_tick s.1)) c) = Ok text → Forall (λ x, (x <= 1114111)%N) text) →
  chain_verify (sn_chain c) = Ok v →
  s'.2 = s.2 ++ [b] ∧
  (∀ n, decrypt_backup b (rotated n km) = Ok (sort_json (build_snapshot (clock (ha_tick s.1)) c))) ∧
  (∀ n expected d, journal_inv d.1 → (∀ k, is_finite (clock k) = true) →
     ∃ report d', run_drill clock failure_text b (rotated n km) expected d = (Ok report, d') ∧ d'.2 = d.2 ++ [report] ∧ journal_inv d'.1 ∧
       rp_restored report = true ∧ rp_components report = REQUIRED_COMPONENTS ∧ rp_chain_intact report = v ∧
       rp_log_complete report = log_complete c expected ∧ rp_ok report = v && log_complete c expected) ∧
  (∀ b' w, decrypt_backup b' km = Ok w → ∃ key, get_key (bk_key_id b') km = Ok key ∧
     bk_tag b' = hmac_sha256 (_kdf key (str "residual.hadr.mac")) (bk_nonce b' ++ BACKUP_SCHEMA ++ bk_ciphertext b')).
Proof.
  intros Hb Hkm Hplain Hchars Hv. pose proof (decrypt_back km c s b s' Hb Hkm Hplain Hchars) as Hdec.
  apply take_backup_spec in Hb as (_ & _ & _ & _ & _ & _ & _ & _ & _ & Hid & _ & Hs & _). split_and!; [done|done|..].
  - intros n expected d Hj Hfin. destruct (run_drill_back b (rotated n km) c _ v expected d Hid (Hdec n) Hv Hj Hfin) as (h & E & Hj'). eexists _, _. split; [exact E|]. done.
  - intros b' w H. unfold decrypt_backup in H. apply bind_Ok in H as (key & Hk & H). exists key. split; [done|]. apply bind_Ok in H as (p & Hp & _).
    unfold decrypt_aead in Hp. case_bool_decide as Ht; [|done]. symmetry. exact Ht.
Qed.
End drill.

Definition demo_chain : list ChainReceipt := match chain_append (str "t") (str "p") [] with Ok r => [r] | Raise _ => [] end.
Definition demo_snapshot : Snapshot := mkSnapshot demo_chain [str "started"] [(str "mode", JStr (str "primary"))] [] [].
Definition demo_manager : LocalKeyManager := LocalKeyManager_init (replicate 32 7%N) [].
Definition zero_clock : nat → float := λ _, S754_zero false.
Lemma demo_backup_taken : ∃ b s', take_backup zero_clock demo_manager demo_snapshot (HaState_new, []) = (Ok b, s').
Proof. vm_compute. eauto. Qed.
Lemma demo_plain : plain (build_snapshot (zero_clock 0) demo_snapshot) ∧ chain_verify demo_chain = Ok true.
Proof. vm_compute. repeat split. Qed.
Lemma demo_chars text : canonical (build_snapshot (zero_clock 0) demo_snapshot) = Ok text → Forall (λ x, (x <= 1114111)%N) text.
Proof.
  assert (H : match canonical (build_snapshot (zero_clock 0) demo_snapshot) with Ok t => forallb (λ x, (x <=? 1114111)%N) t | Raise _ => true end = true) by (vm_compute; reflexivity).
  intros E. rewrite E in H. apply Forall_forall. intros x Hx. rewrite forallb_true in H. by apply N.leb_le, H.
Qed.

Lemma restore_drill_exact_witness :
  ∃ b s', take_backup zero_clock demo_manager demo_snapshot (HaState_new, []) = (Ok b, s') ∧
    ∃ report d', run_drill zero_clock (λ _, []) b (rotated 2 demo_manager) (Some 1%Z) (HaState_new, []) = (Ok report, d') ∧ rp_ok report = true.
Proof.
  destruct demo_backup_taken as (b & s' & Hb). exists b, s'. split; [exact Hb|].
  destruct (restore_drill_exact zero_clock (λ _, []) demo_manager demo_snapshot (HaState_new, []) b s' true Hb (init_derived _) (proj1 demo_plain) demo_chars (proj2 demo_plain))
    as (_ & _ & H & _).
  destruct (H 2 (Some 1%Z) (HaState_new, []) eq_refl (λ _, eq_refl)) as (report & d' & E & _ & _ & _ & _ & _ & _ & Hok).
  exists report, d'. split; [exact E|exact Hok].
Defined.
