(* ===== verification/Compliance.v ===== *)
(** * Compliance: the observation log, holds, retention, erasure, residency, reports and forwarding (residual/compliance/)

    All services share one log, as they do in the source; [salt] gives the bytes of
    the n-th [secrets.token_bytes] call and [send] whether the n-th call of the
    transport succeeds. Files hold the value that is dumped to them. *)

From Stdlib Require Import ZArith NArith Lia SpecFloat.
From S2P Require Import Prelude PyData Sha256 PyFloat Json JsonFacts Core CoreFacts Builtins AesGcm Crypto Hadr Backup.

(** ** The observation log (compliance/log.py) *)
Definition upper (c : N) : bool := in_range 65 90 c.
Definition tag_char (c : N) : bool := upper c || is_digit c || (c =? 45)%N.
Definition control_char (c : N) : bool := upper c || in_range 97 122 c || is_digit c || (c =? 46)%N.
(** [[A-Z0-9-]*-[A-Za-z0-9.]+] *)
Fixpoint tag_tail (s : pystr) : bool :=
  match s with
  | [] => false
  | c :: s => (c =? 45)%N && negb (bool_decide (s = [])) && forallb control_char s || tag_char c && tag_tail s
  end.
Definition tag_match (s : pystr) : bool := match s with c :: s => upper c && tag_tail s | [] => false end.
Definition validate_tag (tag : pystr) : res pystr := when negb (tag_match tag) raise ContractError "invalid compliance tag";; Ok tag.

Definition CATEGORIES : list pystr := str <$> ["sox"; "operational"; "debug"].
Definition KINDS : list pystr :=
  str <$> ["receipt"; "observation"; "hitl_decision"; "hitl_escalation"; "contract_violation"; "sensitive_access"; "module_install"; "task_execution";
           "retention"; "legal_hold"; "residency"; "erasure"; "report"; "siem"; "transfer"].

Record ObservationEvent : Type := mkEvent {
  oe_id : Z;
  oe_kind : pystr;
  oe_timestamp : float;
  oe_actor : pystr;
  oe_task_id : pystr;
  oe_category : pystr;
  oe_region : pystr;
  oe_payload : dict json;
  oe_tags : list pystr;
  oe_chain_hash : pystr
}.

Definition body (e : ObservationEvent) : json :=
  jobj [("id", JInt (oe_id e)); ("kind", JStr (oe_kind e)); ("timestamp", JFloat (oe_timestamp e)); ("actor", JStr (oe_actor e)); ("task_id", JStr (oe_task_id e));
        ("category", JStr (oe_category e)); ("region", JStr (oe_region e)); ("payload", JDict (oe_payload e)); ("tags", JList (JStr <$> sort_str (oe_tags e)))].

Definition ObservationEvent_init (e : ObservationEvent) : res ObservationEvent :=
  when (oe_id e <? 1)%Z raise ContractError "event id must be a positive integer";;
  when negb (bool_decide (oe_kind e ∈ KINDS)) raise ContractError "unknown observation kind";;
  when negb (bool_decide (oe_category e ∈ CATEGORIES)) raise ContractError "unknown retention category";;
  when SFltb (oe_timestamp e) (S754_zero false) raise ContractError "event timestamp must be a nonnegative number";;
  when blank (oe_actor e) || blank (oe_task_id e) || blank (oe_region e) raise ContractError "actor, task_id and region are required";;
  _ ← mapM validate_tag (oe_tags e);
  _ ← canonical (JDict (oe_payload e));
  Ok e.

Definition LOG_GENESIS : pystr := replicate 64 48%N.
Definition chain_hash_of (prev : pystr) (e : ObservationEvent) : res pystr := t ← canonical (body e); sha_text (prev ++ [10%N] ++ t).
Definition with_hash (h : pystr) (e : ObservationEvent) : ObservationEvent :=
  mkEvent (oe_id e) (oe_kind e) (oe_timestamp e) (oe_actor e) (oe_task_id e) (oe_category e) (oe_region e) (oe_payload e) (oe_tags e) h.
Definition last_chain_hash (events : list ObservationEvent) : pystr := match last events with Some e => oe_chain_hash e | None => LOG_GENESIS end.
Definition _seal (events : list ObservationEvent) (e : ObservationEvent) : res ObservationEvent :=
  h ← chain_hash_of (last_chain_hash events) e;
  ObservationEvent_init (with_hash h e).

Record ObservationLog : Type := mkLog { ol_events : list ObservationEvent; ol_counter : Z; ol_archived : list ObservationEvent }.
Definition ObservationLog_new : ObservationLog := mkLog [] 1 [].

Definition log_append (kind : pystr) (timestamp : float) (actor task_id category region : pystr) (payload : dict json) (tags : list pystr) :
    SM ObservationLog ObservationEvent :=
  l ← sm_get;
  _ ← sm_mod (λ l, mkLog (ol_events l) (ol_counter l + 1) (ol_archived l));
  e ← sm_lift (ObservationEvent_init (mkEvent (ol_counter l) kind timestamp actor task_id category region payload tags []));
  sealed ← sm_lift (_seal (ol_events l) e);
  _ ← sm_mod (λ l, mkLog (ol_events l ++ [sealed]) (ol_counter l) (ol_archived l));
  mret sealed.

Record Query : Type := mkQuery { qr_kinds : list pystr; qr_actor : option pystr; qr_task_id : option pystr; qr_region : option pystr; qr_start : option float; qr_end : option float }.
Definition differs (o : option pystr) (x : pystr) : bool := match o with Some y => negb (bool_decide (x = y)) | None => false end.
Definition query (q : Query) (l : ObservationLog) : list ObservationEvent :=
  List.filter (λ e,
    negb (negb (bool_decide (qr_kinds q = [])) && negb (bool_decide (oe_kind e ∈ qr_kinds q))
          || differs (qr_actor q) (oe_actor e) || differs (qr_task_id q) (oe_task_id e) || differs (qr_region q) (oe_region e)
          || match qr_start q with Some t => SFltb (oe_timestamp e) t | None => false end
          || match qr_end q with Some t => SFltb t (oe_timestamp e) | None => false end)) (ol_events l).

Definition log_remove (ids : list Z) (l : ObservationLog) : ObservationLog :=
  mkLog (List.filter (λ e, negb (bool_decide (oe_id e ∈ ids))) (ol_events l)) (ol_counter l) (ol_archived l).
Definition mark_archived (events : list ObservationEvent) (l : ObservationLog) : ObservationLog := mkLog (ol_events l) (ol_counter l) (ol_archived l ++ events).

Definition with_actor (replacement : pystr) (e : ObservationEvent) : ObservationEvent :=
  mkEvent (oe_id e) (oe_kind e) (oe_timestamp e) replacement (oe_task_id e) (oe_category e) (oe_region e)
    (dset (str "pseudonymized") (JBool true) (oe_payload e)) (oe_tags e) (oe_chain_hash e).
(** The loop of [pseudonymize]: the sealed events and how many it changed. *)
Fixpoint reseal (ids : list Z) (replacement prev : pystr) (l : list ObservationEvent) : res (list ObservationEvent * Z) :=
  match l with
  | [] => Ok ([], 0%Z)
  | e :: l =>
      let hit := bool_decide (oe_id e ∈ ids) && negb (bool_decide (oe_actor e = replacement)) in
      e ← (if hit then ObservationEvent_init (with_actor replacement e) else Ok e);
      chain ← chain_hash_of prev e;
      e ← ObservationEvent_init (with_hash chain e);
      '(rest, n) ← reseal ids replacement chain l;
      Ok (e :: rest, (n + Z.b2z hit)%Z)
  end.
Definition log_pseudonymize (ids : list Z) (replacement : pystr) : SM ObservationLog Z :=
  l ← sm_get;
  '(events, n) ← sm_lift (reseal ids replacement LOG_GENESIS (ol_events l));
  _ ← sm_mod (λ l, mkLog events (ol_counter l) (ol_archived l));
  mret n.

Fixpoint verify_from (prev : pystr) (l : list ObservationEvent) : res bool :=
  match l with
  | [] => Ok true
  | e :: l => expected ← chain_hash_of prev e; if negb (bool_decide (oe_chain_hash e = expected)) then Ok false else verify_from (oe_chain_hash e) l
  end.
Definition verify_chain (l : ObservationLog) : res bool := verify_from LOG_GENESIS (ol_events l).

(** ** Tagging (compliance/tagging.py) *)
Definition TagPolicy : Type := dict (list pystr).
Definition TagPolicy_init (p : TagPolicy) : res TagPolicy :=
  _ ← mapM (λ kt : pystr * list pystr,
        when blank kt.1 raise ContractError "tag policy kinds must be nonempty strings";;
        when bool_decide (kt.2 = []) raise ContractError "each kind requires at least one tag";;
        _ ← mapM validate_tag kt.2;
        when negb (bool_decide (NoDup kt.2)) raise ContractError "duplicate tags in policy";;
        Ok tt) p;
  Ok p.
Definition DEFAULT_TAGS : TagPolicy :=
  (λ kt : string * list string, (str kt.1, str <$> kt.2)) <$>
  [("receipt", ["SOX-CC7.2"; "GDPR-Art32"; "PCI-DSS-Req10"]); ("hitl_decision", ["SOC2-CC2.2"]); ("hitl_escalation", ["SOC2-CC2.2"; "ISO27001-A.16.1"]);
   ("contract_violation", ["ISO27001-A.12.4"]); ("sensitive_access", ["GDPR-Art32"; "HIPAA-164.312"]); ("module_install", ["SOC2-CC8.1"]);
   ("legal_hold", ["SOX-CC7.2"]); ("erasure", ["GDPR-Art17"])].
Definition tags_for (kind : pystr) (p : TagPolicy) : list pystr := default [] (dget kind p).
Definition with_tags (tags : list pystr) (e : ObservationEvent) : ObservationEvent :=
  mkEvent (oe_id e) (oe_kind e) (oe_timestamp e) (oe_actor e) (oe_task_id e) (oe_category e) (oe_region e) (oe_payload e) tags (oe_chain_hash e).
Definition tag (p : TagPolicy) (extra : list pystr) (e : ObservationEvent) : res ObservationEvent :=
  _ ← mapM validate_tag extra;
  ObservationEvent_init (with_tags (sort_str (elements (list_to_set (oe_tags e) ∪ list_to_set (tags_for (oe_kind e) p) ∪ list_to_set extra : gset pystr))) e).

(** ** Legal holds (compliance/legal_hold.py) *)
Record HoldScope : Type := mkScope { hs_user : option pystr; hs_task_id : option pystr; hs_start : option float; hs_end : option float }.
Definition HoldScope_init (s : HoldScope) : res HoldScope :=
  when match s with mkScope None None None None => true | _ => false end raise ContractError "hold scope must constrain user, task, or time";;
  when match hs_user s with Some u => blank u | None => false end || match hs_task_id s with Some t => blank t | None => false end
  raise ContractError "hold scope user/task must be nonempty strings";;
  when match hs_start s, hs_end s with Some a, Some b => SFltb b a | _, _ => false end raise ContractError "hold scope time range is inverted";;
  Ok s.
Definition matches (s : HoldScope) (e : ObservationEvent) : bool :=
  negb (differs (hs_user s) (oe_actor e)) && negb (differs (hs_task_id s) (oe_task_id e)) &&
  negb match hs_start s with Some t => SFltb (oe_timestamp e) t | None => false end && negb match hs_end s with Some t => SFltb t (oe_timestamp e) | None => false end.

Record LegalHold : Type := mkHold { lh_id : Z; lh_scope : HoldScope; lh_reason : pystr; lh_active : bool; lh_activate_receipt : pystr; lh_release_receipt : pystr }.

(** ** Retention (compliance/retention.py) *)
Definition SECONDS_PER_YEAR : Z := 365 * 86400.
Definition RetentionPolicy : Type := dict Z.
Definition DEFAULT_RETENTION_YEARS : RetentionPolicy := [(str "sox", 7%Z); (str "operational", 3%Z); (str "debug", 1%Z)].
Definition RetentionPolicy_init (p : RetentionPolicy) : res RetentionPolicy :=
  _ ← mapM (λ cy : pystr * Z,
        when negb (bool_decide (cy.1 ∈ CATEGORIES)) raise ContractError "unknown retention category";;
        when (cy.2 <? 1)%Z raise ContractError "retention years must be positive integers";;
        Ok tt) p;
  when existsb (λ c, negb (dmem c p)) CATEGORIES raise ContractError "retention policy missing categories";;
  Ok p.
Definition max_age_seconds (category : pystr) (p : RetentionPolicy) : res Z := years ← dgetitem category p; Ok (years * SECONDS_PER_YEAR)%Z.

Record ArchiveRecord : Type := mkArchive { ar_event : ObservationEvent; ar_digest : pystr }.
Definition archive_digest (e : ObservationEvent) : res pystr :=
  t ← canonical (body e);
  sha_text (str "residual.compliance.archive.v1" ++ [10%N] ++ t ++ [10%N] ++ oe_chain_hash e).

Record RetentionReport : Type := mkRetention { rt_archived : list Z; rt_deleted : list Z; rt_held : list Z; rt_receipt_hash : pystr }.

(** ** Residency (compliance/residency.py) *)
(** [^[a-z]{2}-[a-z]+-[0-9]+$|^local$] *)
Definition lower (c : N) : bool := in_range 97 122 c.
Fixpoint span_while (f : N → bool) (s : pystr) : pystr * pystr :=
  match s with c :: s' => if f c then let '(a, b) := span_while f s' in (c :: a, b) else ([], s) | [] => ([], []) end.
Definition region_match (s : pystr) : bool :=
  bool_decide (s = str "local") ||
  match s with
  | a :: b :: d :: s' =>
      lower a && lower b && (d =? 45)%N &&
      match span_while lower s' with
      | (_ :: _, d' :: digits) => (d' =? 45)%N && negb (bool_decide (digits = [])) && forallb is_digit digits
      | _ => false
      end
  | _ => false
  end.
Record ResidencyPolicy : Type := mkResidency { rs_regions : list pystr; rs_allowed_flows : list (pystr * pystr) }.
Definition ResidencyPolicy_init (p : ResidencyPolicy) : res ResidencyPolicy :=
  when bool_decide (rs_regions p = []) || existsb (λ r, negb (region_match r)) (rs_regions p) raise ContractError "invalid region name";;
  when existsb (λ f : pystr * pystr, negb (bool_decide (f.1 ∈ rs_regions p)) || negb (bool_decide (f.2 ∈ rs_regions p))) (rs_allowed_flows p)
  raise ContractError "allowed flow references unknown region";;
  Ok p.
Record TransferApproval : Type := mkApproval {
  ta_id : Z; ta_source_region : pystr; ta_target_region : pystr; ta_approver : pystr; ta_event_ids : list Z; ta_receipt_hash : pystr
}.

(** ** The shared state of the services *)
Record SpoolRecord : Type := mkSpool { sr_event_id : Z; sr_message : pystr; sr_attempts : Z }.
Record Compliance : Type := mkCompliance {
  cm_log : ObservationLog;
  cm_holds : list LegalHold;
  cm_next_hold : Z;
  cm_archive : list ArchiveRecord;
  cm_erased : list pystr;
  cm_salts : nat;
  cm_files : list ((pystr * Z) * json);
  cm_approvals : list TransferApproval;
  cm_next_approval : Z;
  cm_spool : list SpoolRecord;
  cm_delivered : Z;
  cm_sends : nat
}.
Definition Compliance_new : Compliance := mkCompliance ObservationLog_new [] 1 [] [] 0 [] [] 1 [] 0 0.
Definition set_log (l : ObservationLog) (s : Compliance) : Compliance :=
  mkCompliance l (cm_holds s) (cm_next_hold s) (cm_archive s) (cm_erased s) (cm_salts s) (cm_files s) (cm_approvals s) (cm_next_approval s) (cm_spool s) (cm_delivered s) (cm_sends s).
Definition set_holds (h : list LegalHold) (n : Z) (s : Compliance) : Compliance :=
  mkCompliance (cm_log s) h n (cm_archive s) (cm_erased s) (cm_salts s) (cm_files s) (cm_approvals s) (cm_next_approval s) (cm_spool s) (cm_delivered s) (cm_sends s).
Definition set_archive (a : list ArchiveRecord) (s : Compliance) : Compliance :=
  mkCompliance (cm_log s) (cm_holds s) (cm_next_hold s) a (cm_erased s) (cm_salts s) (cm_files s) (cm_approvals s) (cm_next_approval s) (cm_spool s) (cm_delivered s) (cm_sends s).
Definition set_erased (e : list pystr) (n : nat) (s : Compliance) : Compliance :=
  mkCompliance (cm_log s) (cm_holds s) (cm_next_hold s) (cm_archive s) e n (cm_files s) (cm_approvals s) (cm_next_approval s) (cm_spool s) (cm_delivered s) (cm_sends s).
Definition set_files (f : list ((pystr * Z) * json)) (s : Compliance) : Compliance :=
  mkCompliance (cm_log s) (cm_holds s) (cm_next_hold s) (cm_archive s) (cm_erased s) (cm_salts s) f (cm_approvals s) (cm_next_approval s) (cm_spool s) (cm_delivered s) (cm_sends s).
Definition set_approvals (a : list TransferApproval) (n : Z) (s : Compliance) : Compliance :=
  mkCompliance (cm_log s) (cm_holds s) (cm_next_hold s) (cm_archive s) (cm_erased s) (cm_salts s) (cm_files s) a n (cm_spool s) (cm_delivered s) (cm_sends s).
Definition set_spool (q : list SpoolRecord) (d : Z) (n : nat) (s : Compliance) : Compliance :=
  mkCompliance (cm_log s) (cm_holds s) (cm_next_hold s) (cm_archive s) (cm_erased s) (cm_salts s) (cm_files s) (cm_approvals s) (cm_next_approval s) q d n.
Abbreviation CM := (SM Compliance).
Definition on_log {A} (m : SM ObservationLog A) : CM A := λ s, let '(r, l) := m (cm_log s) in (r, set_log l s).

Definition json_opt_float (o : option float) : json := match o with Some f => JFloat f | None => JNull end.
Definition sort_Z : list Z → list Z := sort_by Z.leb.

(** *** Holds *)
Definition activate (scope : HoldScope) (reason : pystr) (timestamp : float) (actor : pystr) : CM LegalHold :=
  if blank reason then sm_raise (ContractError "legal hold requires a reason")
  else
    e ← on_log (log_append (str "legal_hold") timestamp actor (str "system") (str "sox") (str "local")
          [(str "action", JStr (str "activate")); (str "reason", JStr reason);
           (str "scope", jobj [("user", json_opt_str (hs_user scope)); ("task_id", json_opt_str (hs_task_id scope)); ("start", json_opt_float (hs_start scope));
                               ("end", json_opt_float (hs_end scope))])]
          [str "SOX-CC7.2"]);
    s ← sm_get;
    let hold := mkHold (cm_next_hold s) scope reason true (oe_chain_hash e) [] in
    _ ← sm_mod (λ s, set_holds (cm_holds s ++ [hold]) (cm_next_hold s + 1) s);
    mret hold.

Definition release (hold_id : Z) (timestamp : float) (actor : pystr) : CM LegalHold :=
  s ← sm_get;
  match list_find (λ h, lh_id h = hold_id) (cm_holds s) with
  | None => sm_raise (ContractError "unknown hold id")
  | Some (i, hold) =>
      if negb (lh_active hold) then sm_raise (ContractError "hold already released")
      else
        e ← on_log (log_append (str "legal_hold") timestamp actor (str "system") (str "sox") (str "local")
              [(str "action", JStr (str "release")); (str "hold_id", JInt hold_id); (str "reason", JStr (lh_reason hold))] [str "SOX-CC7.2"]);
        let released := mkHold (lh_id hold) (lh_scope hold) (lh_reason hold) false (lh_activate_receipt hold) (oe_chain_hash e) in
        _ ← sm_mod (λ s, set_holds (<[i:=released]> (cm_holds s)) (cm_next_hold s) s);
        mret released
  end.

Definition blocked (holds : list LegalHold) (e : ObservationEvent) : bool := existsb (λ h, lh_active h && matches (lh_scope h) e) holds.

(** *** Retention; [respect] when a hold manager is given *)
Section retention.
Context (policy : RetentionPolicy) (now : float) (respect : bool).

Definition expired (e : ObservationEvent) : res bool :=
  age ← max_age_seconds (oe_category e) policy;
  Ok (negb (num_ltb (NFloat (fsub now (oe_timestamp e))) (NInt age))).

(** The loop: the ids archived and deleted, and the ids held. *)
Fixpoint retention_each (l : list ObservationEvent) : CM (list Z * list Z) :=
  match l with
  | [] => mret ([], [])
  | e :: l =>
      old ← sm_lift (expired e);
      if negb old then retention_each l
      else
        s ← sm_get;
        if respect && blocked (cm_holds s) e then
          rest ← retention_each l;
          mret (rest.1, oe_id e :: rest.2)
        else
          d ← sm_lift (archive_digest e);
          _ ← sm_mod (λ s, set_archive (cm_archive s ++ [mkArchive e d]) s);
          rest ← retention_each l;
          mret (oe_id e :: rest.1, rest.2)
  end.

Definition enforce_retention (actor : pystr) : CM RetentionReport :=
  if SFltb now (S754_zero false) then sm_raise (ContractError "retention clock must be nonnegative")
  else
    s ← sm_get;
    '(archived, held) ← retention_each (ol_events (cm_log s));
    _ ← sm_mod (λ s, set_log (log_remove archived (cm_log s)) s);
    _ ← sm_mod (λ s, set_log (mark_archived (List.filter (λ e, bool_decide (oe_id e ∈ archived)) (ar_event <$> cm_archive s)) (cm_log s)) s);
    let ids l := JList (JInt <$> sort_Z l) in
    receipt ← on_log (log_append (str "retention") now actor (str "system") (str "operational") (str "local")
          [(str "archived", ids archived); (str "deleted", ids archived); (str "held", ids held)] [str "SOX-CC7.2"; str "ISO27001-A.12.4"]);
    mret (mkRetention (sort_Z archived) (sort_Z archived) (sort_Z held) (oe_chain_hash receipt)).
End retention.

(** *** Erasure (compliance/erasure.py) *)
Record ErasureResult : Type := mkErasure { es_user : pystr; es_pseudonym : pystr; es_events : Z; es_receipt_hash : pystr }.

Definition pseudonymize (salt : nat → list N) (user : pystr) (timestamp : float) (actor : pystr) : CM ErasureResult :=
  s ← sm_get;
  if blank user then sm_raise (ContractError "erasure requires a user identity")
  else if bool_decide (user ∈ cm_erased s) then sm_raise (ContractError "user already erased")
  else
    _ ← sm_mod (λ s, set_erased (cm_erased s) (S (cm_salts s)) s);
    b ← sm_lift (encode user);
    let pseudonym := str "erased-" ++ take 32 (hex (hmac_sha256 (salt (cm_salts s)) b)) in
    let target_ids := oe_id <$> List.filter (λ e, bool_decide (oe_actor e = user)) (ol_events (cm_log s)) in
    count ← on_log (log_pseudonymize target_ids pseudonym);
    receipt ← on_log (log_append (str "erasure") timestamp actor (str "system") (str "sox") (str "local")
          [(str "action", JStr (str "pseudonymize")); (str "pseudonym", JStr pseudonym); (str "events_pseudonymized", JInt count);
           (str "salt_destroyed", JBool true); (str "article", JStr (str "GDPR-Art17"))] [str "GDPR-Art17"]);
    _ ← sm_mod (λ s, set_erased (user :: cm_erased s) (cm_salts s) s);
    mret (mkErasure user pseudonym count (oe_chain_hash receipt)).

(** *** Residency; [logged] when the store has a log *)
Section residency.
Context (policy : ResidencyPolicy) (logged : bool).

Definition _check_region (region : pystr) : res unit := when negb (bool_decide (region ∈ rs_regions policy)) raise ContractError "unknown residency region";; Ok tt.
Definition write_event (region : pystr) (e : ObservationEvent) : CM (pystr * Z) :=
  _ ← sm_mod (λ s, set_files (dset (region, oe_id e) (body e) (cm_files s)) s);
  mret (region, oe_id e).

Definition store (e : ObservationEvent) : CM (pystr * Z) :=
  _ ← sm_lift (_check_region (oe_region e));
  write_event (oe_region e) e.

Definition transfer (e : ObservationEvent) (target : pystr) (approved : bool) (approver : pystr) (timestamp : float) : CM (pystr * Z) :=
  _ ← sm_lift (_check_region (oe_region e));
  _ ← sm_lift (_check_region target);
  if bool_decide (oe_region e = target) then store e
  else if negb approved || blank approver then sm_raise (ContractError "cross-border transfer requires explicit policy approval")
  else if negb (bool_decide ((oe_region e, target) ∈ rs_allowed_flows policy)) then sm_raise (ContractError "cross-border flow is not permitted by residency policy")
  else
    let payload : dict json := [(str "source_region", JStr (oe_region e)); (str "target_region", JStr target); (str "approver", JStr approver); (str "event_id", JInt (oe_id e))] in
    receipt_hash ← sm_lift (digest (JDict payload));
    receipt_hash ← (if logged then
                      r ← on_log (log_append (str "transfer") timestamp approver (oe_task_id e) (str "sox") target payload [str "GDPR-Art44"; str "ISO27001-A.13.2"]);
                      mret (oe_chain_hash r)
                    else mret receipt_hash);
    _ ← sm_mod (λ s, set_approvals (cm_approvals s ++ [mkApproval (cm_next_approval s) (oe_region e) target approver [oe_id e] receipt_hash]) (cm_next_approval s + 1) s);
    write_event target e.
End residency.

(** *** Signing and reports (compliance/signing.py, reports.py) *)
(** The signing interface. *)
Class Signer : Type := { signer_key_id : pystr; signer_sign : list N → pystr }.

Record HmacSigner : Type := mkHmacSigner { hm_key : list N; hm_key_id : pystr }.
Definition HmacSigner_init (s : HmacSigner) : res HmacSigner :=
  when (length (hm_key s) <? 16)%nat raise ContractError "station signing key must be at least 16 bytes";;
  when blank (hm_key_id s) raise ContractError "signer requires a key id";;
  Ok s.
Definition hmac_sign (s : HmacSigner) (message : list N) : pystr := hex (hmac_sha256 (hm_key s) message).
Definition hmac_verify (s : HmacSigner) (message : list N) (signature : pystr) : bool := bool_decide (hmac_sign s message = signature).
Definition hmac_signer (s : HmacSigner) : Signer := {| signer_key_id := hm_key_id s; signer_sign := hmac_sign s |}.

Record SignedReport : Type := mkSigned { sp_body : json; sp_signature : pystr; sp_key_id : pystr }.
Definition canonical_body (r : SignedReport) : res (list N) := t ← canonical (sp_body r); encode t.
Definition report_verify (signer : Signer) (r : SignedReport) : res bool := b ← canonical_body r; Ok (bool_decide (signer_sign b = sp_signature r)).
Definition sign_report (b : json) (signer : Signer) : res SignedReport :=
  t ← canonical b;
  msg ← encode t;
  Ok (mkSigned b (signer_sign msg) signer_key_id).

Inductive ReportType : Type := TASK_EXECUTION | HITL_ESCALATIONS | CONTRACT_VIOLATIONS | SENSITIVE_ACCESS | MODULE_INSTALLS.
Definition report_value (t : ReportType) : pystr :=
  str match t with
      | TASK_EXECUTION => "task_execution" | HITL_ESCALATIONS => "hitl_escalations" | CONTRACT_VIOLATIONS => "contract_violations"
      | SENSITIVE_ACCESS => "sensitive_access" | MODULE_INSTALLS => "module_installs"
      end.
Definition _REPORT_KINDS (t : ReportType) : list pystr :=
  str <$> match t with
          | TASK_EXECUTION => ["task_execution"; "receipt"] | HITL_ESCALATIONS => ["hitl_escalation"; "hitl_decision"]
          | CONTRACT_VIOLATIONS => ["contract_violation"] | SENSITIVE_ACCESS => ["sensitive_access"] | MODULE_INSTALLS => ["module_install"]
          end.
Definition _COLUMNS (t : ReportType) : list string :=
  match t with
  | TASK_EXECUTION => ["timestamp"; "task_id"; "actor"; "chain_hash"]
  | HITL_ESCALATIONS => ["timestamp"; "task_id"; "actor"; "resolution"]
  | CONTRACT_VIOLATIONS => ["timestamp"; "task_id"; "violation"; "disposition"]
  | SENSITIVE_ACCESS => ["timestamp"; "actor"; "task_id"; "resource"]
  | MODULE_INSTALLS => ["timestamp"; "actor"; "module"; "signature"]
  end.
Record ReportRequest : Type := mkRequest { rq_type : ReportType; rq_start : float; rq_end : float }.
Definition ReportRequest_init (r : ReportRequest) : res ReportRequest :=
  when SFltb (rq_end r) (rq_start r) || SFltb (rq_start r) (S754_zero false) raise ContractError "report time range is invalid";;
  Ok r.

Definition _row (t : ReportType) (e : ObservationEvent) : json :=
  let base : dict json := [(str "timestamp", JFloat (oe_timestamp e)); (str "actor", JStr (oe_actor e)); (str "task_id", JStr (oe_task_id e)); (str "chain_hash", JStr (oe_chain_hash e))] in
  let base := foldl (λ d key, match dget (str key) (oe_payload e) with Some v => dset (str key) v d | None => d end) base
                ["resolution"; "violation"; "disposition"; "resource"; "module"; "signature"]%string in
  JDict ((λ column, (str column, default (JStr []) (dget (str column) base))) <$> _COLUMNS t).

Definition unbounded (f : float) : bool := bool_decide (f = S754_infinity false).
Definition report_query (r : ReportRequest) : Query :=
  mkQuery (_REPORT_KINDS (rq_type r)) None None None (Some (rq_start r)) (if unbounded (rq_end r) then None else Some (rq_end r)).
Definition report_body (l : ObservationLog) (r : ReportRequest) (generated_at : float) (generator : pystr) (valid : bool) : json :=
  let rows := _row (rq_type r) <$> query (report_query r) l in
  jobj [("schema", JStr (str "residual.compliance.report.v1")); ("report_type", JStr (report_value (rq_type r)));
        ("range", jobj [("start", JFloat (rq_start r)); ("end", if unbounded (rq_end r) then JStr (str "unbounded") else JFloat (rq_end r))]);
        ("generated_at", JFloat generated_at); ("generator", JStr generator); ("columns", JList (JStr ∘ str <$> _COLUMNS (rq_type r))); ("rows", JList rows);
        ("row_count", JInt (Z.of_nat (length rows))); ("log_chain_valid", JBool valid)].
Definition generate_report (l : ObservationLog) (r : ReportRequest) (signer : Signer) (generated_at : float) (generator : pystr) : res SignedReport :=
  valid ← verify_chain l;
  sign_report (report_body l r generated_at generator valid) signer.

(** *** Forwarding (compliance/siem.py) *)
Definition escape_cef (c : N) : pystr := if (c =? 92)%N || (c =? 124)%N || (c =? 61)%N then [92%N; c] else [c].
Definition _esc (s : pystr) : pystr := mjoin (escape_cef <$> s).
Definition severity (kind : pystr) : Z :=
  default 4%Z (dget kind [(str "contract_violation", 8%Z); (str "legal_hold", 6%Z); (str "erasure", 6%Z); (str "sensitive_access", 7%Z); (str "transfer", 6%Z)]).
Definition cef_format (e : ObservationEvent) : res pystr :=
  rt ← int_of_json (JFloat (oe_timestamp e));
  let extension := str "rt=" ++ str_of_Z rt ++ str " suser=" ++ _esc (oe_actor e) ++ str " cs1=" ++ _esc (oe_task_id e) ++ str " cs1Label=TaskId cs2=" ++ _esc (oe_region e)
                   ++ str " cs2Label=Region cs3=" ++ oe_chain_hash e ++ str " cs3Label=ChainHash" in
  Ok (str "CEF:0|Residual|Station|1.0|" ++ _esc (oe_kind e) ++ str "|" ++ _esc (oe_kind e) ++ str "|" ++ str_of_Z (severity (oe_kind e)) ++ str "|" ++ extension).

Section forwarding.
Context (target : pystr) (logged : bool) (send : nat → pystr → bool).

Definition enqueue (r : SpoolRecord) (q : list SpoolRecord) : list SpoolRecord := q ++ [r].
Definition acknowledge (event_id : Z) (q : list SpoolRecord) : list SpoolRecord := List.filter (λ r, negb (sr_event_id r =? event_id)%Z) q.
Definition retry (event_id : Z) (q : list SpoolRecord) : list SpoolRecord :=
  (λ r, if (sr_event_id r =? event_id)%Z then mkSpool (sr_event_id r) (sr_message r) (sr_attempts r + 1) else r) <$> q.

Definition _observe (e : ObservationEvent) (action : pystr) (timestamp : float) : CM unit :=
  if logged then
    _ ← on_log (log_append (str "siem") timestamp (str "compliance") (oe_task_id e) (str "operational") (oe_region e)
          [(str "target", JStr target); (str "action", JStr action); (str "event_id", JInt (oe_id e))] [str "ISO27001-A.12.4"]);
    mret tt
  else mret tt.
Definition _observe_by_id (event_id : Z) (action : pystr) (timestamp : float) : CM unit :=
  if logged then
    s ← sm_get;
    match List.find (λ e, (oe_id e =? event_id)%Z) (ol_events (cm_log s)) with
    | Some e => _observe e action timestamp
    | None => mret tt
    end
  else mret tt.

Definition send_one (timestamp : float) (r : SpoolRecord) : CM unit :=
  s ← sm_get;
  if send (cm_sends s) (sr_message r) then
    _ ← sm_mod (λ s, set_spool (acknowledge (sr_event_id r) (cm_spool s)) (cm_delivered s + 1) (S (cm_sends s)) s);
    _observe_by_id (sr_event_id r) (str "delivered") timestamp
  else sm_mod (λ s, set_spool (retry (sr_event_id r) (cm_spool s)) (cm_delivered s) (S (cm_sends s)) s).

Fixpoint flush_rounds (timestamp : float) (rounds : nat) : CM bool :=
  s ← sm_get;
  match rounds with
  | O => mret (bool_decide (length (cm_spool s) = 0))
  | S rounds =>
      match cm_spool s with
      | [] => mret true
      | pending => _ ← sm_for pending (send_one timestamp); flush_rounds timestamp rounds
      end
  end.
Definition flush (timestamp : float) (max_attempts : Z) : CM bool :=
  if (max_attempts <? 1)%Z then sm_raise (ContractError "max_attempts must be positive") else flush_rounds timestamp (Z.to_nat max_attempts).

Definition forward (e : ObservationEvent) (timestamp : float) : CM bool :=
  message ← sm_lift (cef_format e);
  _ ← sm_mod (λ s, set_spool (enqueue (mkSpool (oe_id e) message 0) (cm_spool s)) (cm_delivered s) (cm_sends s) s);
  flush timestamp 3.
End forwarding.
