(* ===== verification/ComplianceTheorems.v ===== *)
(** * Retention deletes only what is archived and not held; erasure; residency; reports; forwarding *)

From Stdlib Require Import ZArith NArith Lia SpecFloat Sorting.
From S2P Require Import Prelude PyData Sha256 PyFloat Json JsonFacts Core CoreFacts Storage Builtins Journal AesGcm Crypto Hadr HadrTheorems Backup Compliance.

(** ** The compliance log: sealing, deletion and erasure *)

(** One sealed event after [prev]. *)
Definition sealed_after (prev : pystr) (e : ObservationEvent) : Prop := chain_hash_of prev e = Ok (oe_chain_hash e).
Definition events_head (prev : pystr) (l : list ObservationEvent) : pystr := match last l with Some e => oe_chain_hash e | None => prev end.

Lemma verify_from_cons prev e l : verify_from prev (e :: l) = Ok true ↔ sealed_after prev e ∧ verify_from (oe_chain_hash e) l = Ok true.
Proof.
  cbn [verify_from]. unfold sealed_after. destruct (chain_hash_of prev e) as [h|]; cbn [mbind res_bind]; [|naive_solver].
  case_bool_decide; cbn [negb]; naive_solver.
Qed.

Lemma verify_from_snoc prev l e : verify_from prev (l ++ [e]) = Ok true ↔ verify_from prev l = Ok true ∧ sealed_after (events_head prev l) e.
Proof.
  revert prev. induction l as [|q l IH]; intros prev; cbn [app].
  - rewrite verify_from_cons. unfold events_head. cbn [last verify_from]. tauto.
  - rewrite !verify_from_cons, IH. unfold events_head. destruct l as [|q' l]; [cbn [last]; tauto|].
    rewrite last_cons_cons. destruct (last (q' :: l)) eqn:E; [tauto|by apply last_None in E].
Qed.

Lemma init_Ok e e' : ObservationEvent_init e = Ok e' → e' = e.
Proof.
  unfold ObservationEvent_init. intros H. repeat (match type of H with (if ?b then _ else _) = _ => destruct b; [done|] end; cbn [negb] in H).
  repeat (apply bind_Ok in H as (? & _ & H)). by injection H as <-.
Qed.

Lemma chain_hash_with h prev e : chain_hash_of prev (with_hash h e) = chain_hash_of prev e.
Proof. done. Qed.
Lemma with_hash_twice h h' e : with_hash h (with_hash h' e) = with_hash h e.
Proof. done. Qed.

(** What an append does. *)
Lemma log_append_spec kind t actor task cat region payload tags l :
  match log_append kind t actor task cat region payload tags l with
  | (Ok e, l') =>
      ol_events l' = ol_events l ++ [e] ∧ ol_counter l' = (ol_counter l + 1)%Z ∧ ol_archived l' = ol_archived l ∧ sealed_after (last_chain_hash (ol_events l)) e ∧
      oe_id e = ol_counter l ∧ oe_kind e = kind ∧ oe_timestamp e = t ∧ oe_actor e = actor ∧ oe_task_id e = task ∧ oe_category e = cat ∧ oe_region e = region ∧
      oe_payload e = payload ∧ oe_tags e = tags
  | (Raise _, l') => l' = mkLog (ol_events l) (ol_counter l + 1) (ol_archived l)
  end.
Proof.
  unfold log_append. unfold mbind at 1, SM_bind, sm_get. unfold mbind at 1, SM_bind, sm_mod at 1. unfold mbind at 1, SM_bind, sm_lift at 1.
  destruct (ObservationEvent_init _) as [e|] eqn:Ei; [|done]. apply init_Ok in Ei. unfold mbind at 1, SM_bind, sm_lift at 1.
  unfold _seal. destruct (chain_hash_of _ e) as [h|] eqn:Eh; cbn [mbind res_bind]; [|done].
  destruct (ObservationEvent_init (with_hash h e)) as [e'|] eqn:Es; [|done]. apply init_Ok in Es. subst e' e.
  unfold mbind, SM_bind, sm_mod, mret, SM_ret. cbn [ol_events ol_counter ol_archived with_hash oe_id oe_kind oe_timestamp oe_actor oe_task_id oe_category oe_region oe_payload oe_tags].
  split_and!; try done.
Qed.

Lemma last_chain_hash_head l : last_chain_hash l = events_head LOG_GENESIS l.
Proof. done. Qed.

Lemma log_append_verifies kind t actor task cat region payload tags l :
  verify_chain l = Ok true → verify_chain (log_append kind t actor task cat region payload tags l).2 = Ok true.
Proof.
  intros Hv. pose proof (log_append_spec kind t actor task cat region payload tags l) as H. destruct (log_append _ _ _ _ _ _ _ _ l) as [[e|] l'].
  - destruct H as (He & _ & _ & Hs & _). unfold verify_chain in *. cbn [snd]. rewrite He. by apply verify_from_snoc.
  - by subst l'.
Qed.

(** ** Erasure *)
(** The same observation by another actor. *)
Definition same_but_actor (e e' : ObservationEvent) : Prop :=
  oe_id e' = oe_id e ∧ oe_kind e' = oe_kind e ∧ oe_timestamp e' = oe_timestamp e ∧ oe_task_id e' = oe_task_id e ∧ oe_category e' = oe_category e ∧
  oe_region e' = oe_region e ∧ oe_tags e' = oe_tags e.
Definition resealed (ids : list Z) (replacement : pystr) (e e' : ObservationEvent) : Prop :=
  same_but_actor e e' ∧
  if bool_decide (oe_id e ∈ ids) && negb (bool_decide (oe_actor e = replacement))
  then oe_actor e' = replacement ∧ oe_payload e' = dset (str "pseudonymized") (JBool true) (oe_payload e)
  else oe_actor e' = oe_actor e ∧ oe_payload e' = oe_payload e.

Lemma reseal_spec ids replacement prev l l' n :
  reseal ids replacement prev l = Ok (l', n) →
  Forall2 (resealed ids replacement) l l' ∧ verify_from prev l' = Ok true ∧
  n = Z.of_nat (length (List.filter (λ e, bool_decide (oe_id e ∈ ids) && negb (bool_decide (oe_actor e = replacement))) l)).
Proof.
  revert prev l' n. induction l as [|e l IH]; intros prev l' n H; cbn [reseal] in H; [injection H as <- <-; by split_and!|].
  set (hit := bool_decide (oe_id e ∈ ids) && negb (bool_decide (oe_actor e = replacement))) in *.
  apply bind_Ok in H as (e1 & He1 & H). apply bind_Ok in H as (h & Hh & H). apply bind_Ok in H as (e2 & He2 & H). apply bind_Ok in H as ([rest m] & Hrest & H).
  injection H as <- <-. apply init_Ok in He2 as ->. destruct (IH _ _ _ Hrest) as (IH1 & IH2 & ->).
  assert (He1' : e1 = if hit then with_actor replacement e else e) by (destruct hit; [by apply init_Ok in He1|by injection He1 as <-]).
  split_and!.
  - constructor; [|done]. unfold resealed. fold hit. rewrite He1'. by destruct hit.
  - apply verify_from_cons. by split.
  - cbn [List.filter]. fold hit. destruct hit; cbn [length Z.b2z]; lia.
Qed.

(** Whatever the log was, a completed pseudonymization leaves one that verifies. *)
Lemma log_pseudonymize_spec ids replacement l n l' :
  log_pseudonymize ids replacement l = (Ok n, l') →
  Forall2 (resealed ids replacement) (ol_events l) (ol_events l') ∧ verify_chain l' = Ok true ∧ ol_counter l' = ol_counter l ∧ ol_archived l' = ol_archived l ∧
  n = Z.of_nat (length (List.filter (λ e, bool_decide (oe_id e ∈ ids) && negb (bool_decide (oe_actor e = replacement))) (ol_events l))).
Proof.
  unfold log_pseudonymize. intros H. apply sm_bind_Ok in H as (l0 & l1 & [= <- <-] & H). apply sm_bind_Ok in H as ([es m] & l1 & Hr & H). apply sm_lift_Ok in Hr as [Hr ->].
  apply sm_bind_Ok in H as (u & l1 & [= <- <-] & [= <- <-]). apply reseal_spec in Hr as (H1 & H2 & H3). by split_and!.
Qed.
Lemma log_pseudonymize_raises ids replacement l e l' : log_pseudonymize ids replacement l = (Raise e, l') → l' = l.
Proof.
  unfold log_pseudonymize, mbind, SM_bind, sm_get, sm_lift. destruct (reseal _ _ _ _) as [[es m]|]; [done|]. by intros [= <- <-].
Qed.

Inductive CompOp : Type :=
  | OAppend (kind : pystr) (t : float) (actor task category region : pystr) (payload : dict json) (tags : list pystr)
  | OActivate (scope : HoldScope) (reason : pystr) (t : float) (actor : pystr)
  | ORelease (hold_id : Z) (t : float) (actor : pystr)
  | ORetention (policy : RetentionPolicy) (now : float) (respect : bool) (actor : pystr)
  | OErase (user : pystr) (t : float) (actor : pystr)
  | OStore (policy : ResidencyPolicy) (e : ObservationEvent)
  | OTransfer (policy : ResidencyPolicy) (e : ObservationEvent) (target : pystr) (approved : bool) (approver : pystr) (t : float)
  | OForward (e : ObservationEvent) (t : float)
  | OFlush (t : float) (max_attempts : Z).

(** ** Ids *)
Record log_wf (l : ObservationLog) : Prop := {
  lw_sorted : StronglySorted Z.lt (oe_id <$> ol_events l);
  lw_bound e : e ∈ ol_events l → (oe_id e < ol_counter l)%Z
}.

Lemma log_wf_nodup l : log_wf l → NoDup (oe_id <$> ol_events l).
Proof.
  intros [Hs _]. induction Hs as [|x xs _ IH Hx]; constructor; [|done]. rewrite Forall_forall in Hx. intros Hin. specialize (Hx _ Hin). lia.
Qed.

Lemma sorted_snoc (l : list Z) x : StronglySorted Z.lt l → Forall (λ y, (y < x)%Z) l → StronglySorted Z.lt (l ++ [x]).
Proof.
  induction 1 as [|y l Hl IH Hy]; intros Hx; [repeat constructor|]. apply Forall_cons in Hx as [Hyx Hx]. cbn. constructor; [by apply IH|].
  apply Forall_app. split; [done|by constructor].
Qed.

Lemma log_wf_later l l' : log_wf l → ol_events l' = ol_events l → (ol_counter l <= ol_counter l')%Z → log_wf l'.
Proof. intros [H1 H2] E Hc. constructor; rewrite E; [done|]. intros e He. specialize (H2 e He). lia. Qed.

Lemma log_append_wf kind t actor task cat region payload tags l : log_wf l → log_wf (log_append kind t actor task cat region payload tags l).2.
Proof.
  intros Hw. pose proof (log_append_spec kind t actor task cat region payload tags l) as H. destruct (log_append _ _ _ _ _ _ _ _ l) as [[e|] l']; cbn [snd].
  - destruct H as (He & Hc & _ & _ & Hid & _). destruct Hw as [H1 H2]. constructor; rewrite He.
    + rewrite fmap_app. apply sorted_snoc; [done|]. apply Forall_fmap, Forall_forall. intros x Hx. cbn. rewrite Hid. by apply H2.
    + intros x Hx. rewrite Hc. apply elem_of_app in Hx as [Hx|Hx%list_elem_of_singleton]; [specialize (H2 x Hx); lia|subst x; lia].
  - subst l'. eapply log_wf_later; [exact Hw|done|cbn; lia].
Qed.

Lemma sorted_sublist (l k : list Z) : l `sublist_of` k → StronglySorted Z.lt k → StronglySorted Z.lt l.
Proof.
  intros H. induction H as [|x l k Hs IH|x l k Hs IH]; intros Hk; [done|..]; inversion Hk as [|? ? Hk' Hf]; subst.
  - constructor; [by apply IH|]. rewrite Forall_forall in Hf |- *. intros y Hy. apply Hf. by eapply elem_of_sublist.
  - by apply IH.
Qed.

Lemma filter_sublist {A} (f : A → bool) l : List.filter f l `sublist_of` l.
Proof. induction l as [|x l IH]; cbn; [done|]. destruct (f x); [by apply sublist_skip|by apply sublist_cons]. Qed.

Lemma fmap_sublist_ids (l k : list ObservationEvent) : l `sublist_of` k → oe_id <$> l `sublist_of` oe_id <$> k.
Proof. induction 1; cbn; [done|by apply sublist_skip|by apply sublist_cons]. Qed.
Lemma ids_inj (l : list ObservationEvent) e e' : NoDup (oe_id <$> l) → e ∈ l → e' ∈ l → oe_id e = oe_id e' → e = e'.
Proof.
  intros Hn He He' Hid. apply list_elem_of_lookup in He as [i Hi]. apply list_elem_of_lookup in He' as [j Hj].
  assert (i = j) as ->; [|congruence]. eapply NoDup_lookup; [exact Hn|..]; rewrite list_lookup_fmap; [rewrite Hi; reflexivity|rewrite Hj; cbn; by rewrite Hid].
Qed.

Lemma log_remove_wf ids l : log_wf l → log_wf (log_remove ids l).
Proof.
  intros [H1 H2]. constructor; cbn.
  - eapply sorted_sublist; [|exact H1]. apply fmap_sublist_ids, filter_sublist.
  - intros e He. apply H2. by eapply elem_of_sublist; [|apply filter_sublist].
Qed.

Lemma resealed_ids ids r l l' : Forall2 (resealed ids r) l l' → oe_id <$> l' = oe_id <$> l.
Proof. induction 1 as [|e e' l l' [(He & _) _] _ IH]; [done|]. by rewrite !fmap_cons, He, IH. Qed.

(** ** Retention *)
Section retention.
Context (policy : RetentionPolicy) (now : float) (respect : bool).

Definition is_expired (e : ObservationEvent) : bool := match expired policy now e with Ok b => b | Raise _ => false end.
Definition is_held (holds : list LegalHold) (e : ObservationEvent) : bool := is_expired e && (respect && blocked holds e).
Definition is_gone (holds : list LegalHold) (e : ObservationEvent) : bool := is_expired e && negb (respect && blocked holds e).

Definition archived_as (l : list ObservationEvent) (recs : list ArchiveRecord) : Prop :=
  ar_event <$> recs = l ∧ Forall (λ r, archive_digest (ar_event r) = Ok (ar_digest r)) recs.

Lemma retention_each_spec l s :
  match retention_each policy now respect l s with
  | (Ok (a, h), s') =>
      a = oe_id <$> List.filter (is_gone (cm_holds s)) l ∧ h = oe_id <$> List.filter (is_held (cm_holds s)) l ∧
      ∃ recs, s' = set_archive (cm_archive s ++ recs) s ∧ archived_as (List.filter (is_gone (cm_holds s)) l) recs
  | (Raise _, s') => ∃ recs, s' = set_archive (cm_archive s ++ recs) s
  end.
Proof.
  revert s. induction l as [|e l IH]; intros s; cbn [retention_each].
  - split_and!; [done|done|]. exists []. rewrite app_nil_r. split; [by destruct s|done].
  - unfold mbind at 1, SM_bind, sm_lift at 1. cbn [List.filter].
    assert (Hg : is_gone (cm_holds s) e = match expired policy now e with Ok b => b | Raise _ => false end && negb (respect && blocked (cm_holds s) e)) by done.
    assert (Hh : is_held (cm_holds s) e = match expired policy now e with Ok b => b | Raise _ => false end && (respect && blocked (cm_holds s) e)) by done.
    rewrite Hg, Hh. clear Hg Hh.
    destruct (expired policy now e) as [old|]; [|exists []; rewrite app_nil_r; by destruct s].
    destruct old; cbn [negb andb]; [|apply IH]. unfold mbind at 1, SM_bind, sm_get. destruct (respect && blocked (cm_holds s) e); cbn [negb].
    + unfold mbind, SM_bind. specialize (IH s). destruct (retention_each _ _ _ l s) as [[[a h]|] s']; [|done]. cbn [mret SM_ret fst snd].
      destruct IH as (-> & -> & IH). by split_and!.
    + unfold mbind at 1, SM_bind, sm_lift at 1. destruct (archive_digest e) as [d|] eqn:Ed; [|exists []; rewrite app_nil_r; by destruct s].
      unfold mbind at 1, SM_bind, sm_mod at 1. set (s1 := set_archive _ s). unfold mbind, SM_bind. specialize (IH s1).
      destruct (retention_each _ _ _ l s1) as [[[a h]|] s']; cbn [mret SM_ret fst snd].
      * destruct IH as (-> & -> & recs & -> & Hr1 & Hr2). split_and!; [done|done|]. exists (mkArchive e d :: recs). split.
        -- cbn. by rewrite <- app_assoc.
        -- split; [by rewrite fmap_cons, Hr1|by constructor].
      * destruct IH as (recs & ->). exists (mkArchive e d :: recs). cbn. by rewrite <- app_assoc.
Qed.

Lemma remove_gone holds l : NoDup (oe_id <$> l) →
  List.filter (λ e, negb (bool_decide (oe_id e ∈ oe_id <$> List.filter (is_gone holds) l))) l = List.filter (λ e, negb (is_gone holds e)) l.
Proof.
  intros Hn. apply List.filter_ext_in. intros e He. f_equal. apply list_elem_of_In in He. destruct (is_gone holds e) eqn:E.
  - apply bool_decide_true. apply list_elem_of_fmap_2. apply list_elem_of_In, List.filter_In. split; [by apply list_elem_of_In|done].
  - apply bool_decide_false. intros Hin. apply list_elem_of_fmap in Hin as (e' & Hid & Hin). apply list_elem_of_In, List.filter_In in Hin as [Hin Hg]. apply list_elem_of_In in Hin.
    assert (e = e') as -> by (by eapply ids_inj). by rewrite Hg in E.
Qed.

(** What a run of the enforcement does to log and archive, on both exits. *)
Definition retained (s s' : Compliance) : Prop :=
  cm_holds s' = cm_holds s ∧ cm_next_hold s' = cm_next_hold s ∧ (ol_counter (cm_log s) <= ol_counter (cm_log s'))%Z ∧
  ∃ recs, cm_archive s' = cm_archive s ++ recs ∧
    (ol_events (cm_log s') = ol_events (cm_log s) ∨
     archived_as (List.filter (is_gone (cm_holds s)) (ol_events (cm_log s))) recs ∧
     ∃ tail, ol_events (cm_log s') = List.filter (λ e, negb (is_gone (cm_holds s) e)) (ol_events (cm_log s)) ++ tail).

Lemma enforce_spec actor s :
  log_wf (cm_log s) →
  let '(o, s') := enforce_retention policy now respect actor s in
  match o with
  | Ok r =>
      ∃ receipt recs,
        ol_events (cm_log s') = List.filter (λ e, negb (is_gone (cm_holds s) e)) (ol_events (cm_log s)) ++ [receipt] ∧
        cm_archive s' = cm_archive s ++ recs ∧ archived_as (List.filter (is_gone (cm_holds s)) (ol_events (cm_log s))) recs ∧
        rt_archived r = sort_Z (oe_id <$> List.filter (is_gone (cm_holds s)) (ol_events (cm_log s))) ∧ rt_deleted r = rt_archived r ∧
        rt_held r = sort_Z (oe_id <$> List.filter (is_held (cm_holds s)) (ol_events (cm_log s))) ∧
        oe_kind receipt = str "retention" ∧ oe_timestamp receipt = now ∧ rt_receipt_hash r = oe_chain_hash receipt
  | Raise _ => True
  end ∧ retained s s' ∧ log_wf (cm_log s').
Proof.
  intros Hw. assert (Hn := log_wf_nodup _ Hw).
  assert (Href : retained s s) by (split_and!; [done|done|lia|]; exists []; rewrite app_nil_r; auto).
  unfold enforce_retention. destruct (SFltb now _); [done|]. unfold mbind at 1, SM_bind, sm_get. unfold mbind at 1, SM_bind.
  pose proof (retention_each_spec (ol_events (cm_log s)) s) as Hr. destruct (retention_each policy now respect (ol_events (cm_log s)) s) as [[[a h]|] s1].
  - destruct Hr as (-> & -> & recs & -> & Harch). set (a := oe_id <$> List.filter (is_gone (cm_holds s)) (ol_events (cm_log s))) in *.
    unfold mbind at 1, SM_bind, sm_mod at 1. unfold mbind at 1, SM_bind, sm_mod at 1. unfold mbind at 1, SM_bind, on_log at 1. cbn [cm_log set_log set_archive cm_archive].
    set (l2 := mark_archived _ (log_remove a (cm_log s))).
    assert (Hw2 : log_wf l2) by (eapply log_wf_later; [apply (log_remove_wf a _ Hw)|done|cbn; lia]).
    assert (He2 : ol_events l2 = List.filter (λ e, negb (is_gone (cm_holds s) e)) (ol_events (cm_log s))) by (by apply remove_gone).
    match goal with |- context [log_append ?k ?t ?ac ?ta ?c ?re ?pl ?tg l2] =>
      pose proof (log_append_spec k t ac ta c re pl tg l2) as Hs; pose proof (log_append_wf k t ac ta c re pl tg l2 Hw2) as Hw3;
      destruct (log_append k t ac ta c re pl tg l2) as [[receipt|] l3] end; cbn [fst snd mret SM_ret cm_log set_log] in *.
    + destruct Hs as (He3 & Hc3 & _ & _ & _ & Hk & Ht & _). split_and!; [|split_and!|done]; cbn [cm_holds cm_next_hold cm_log cm_archive set_log set_archive].
      * exists receipt, recs. rewrite He3, He2. by split_and!.
      * done.
      * done.
      * rewrite Hc3. cbn. lia.
      * exists recs. split; [done|]. right. split; [done|]. exists [receipt]. by rewrite He3, He2.
    + subst l3. split_and!; [done|split_and!|done]; cbn [cm_holds cm_next_hold cm_log cm_archive set_log set_archive]; [done|done|cbn; lia|].
      exists recs. split; [done|]. right. split; [done|]. exists []. by rewrite app_nil_r, <- He2.
  - destruct Hr as (recs & ->). cbn [fst snd]. split_and!; [done|split_and!|done]; cbn [cm_holds cm_next_hold cm_log cm_archive set_archive]; [done|done|lia|]. exists recs. auto.
Qed.
End retention.

(** ** Every operation *)
Section operations.
Context (salt : nat → list N) (target : pystr) (logged : bool) (send : nat → pystr → bool).

Definition comp_op (op : CompOp) : SM Compliance unit :=
  match op with
  | OAppend k t actor task cat region payload tags => _ ← on_log (log_append k t actor task cat region payload tags); mret tt
  | OActivate scope reason t actor => _ ← activate scope reason t actor; mret tt
  | ORelease id t actor => _ ← release id t actor; mret tt
  | ORetention policy now respect actor => _ ← enforce_retention policy now respect actor; mret tt
  | OErase user t actor => _ ← pseudonymize salt user t actor; mret tt
  | OStore policy e => _ ← store policy e; mret tt
  | OTransfer policy e target approved approver t => _ ← transfer policy logged e target approved approver t; mret tt
  | OForward e t => _ ← forward target logged send e t; mret tt
  | OFlush t n => _ ← flush target logged send t n; mret tt
  end.
Definition comp_run (ops : list CompOp) (s : Compliance) : Compliance := foldl (λ s op, (comp_op op s).2) s ops.

(** The log only grew, and so did the holds. *)
Record grown (s s' : Compliance) : Prop := {
  gr_wf : log_wf (cm_log s');
  gr_events : ol_events (cm_log s) `prefix_of` ol_events (cm_log s');
  gr_archive : cm_archive s' = cm_archive s;
  gr_holds : cm_holds s `prefix_of` cm_holds s'
}.

Lemma grown_append s0 k t actor task cat region payload tags : preserves (grown s0) (on_log (log_append k t actor task cat region payload tags)).
Proof.
  intros s [Hw He Ha Hh]. unfold on_log. pose proof (log_append_wf k t actor task cat region payload tags _ Hw) as Hw'.
  pose proof (log_append_spec k t actor task cat region payload tags (cm_log s)) as H. destruct (log_append _ _ _ _ _ _ _ _ _) as [[e|] l']; cbn [snd] in *.
  - destruct H as (E & _). constructor; cbn; [done|rewrite E; etrans; [exact He|by eexists]|done|done].
  - subst l'. by constructor.
Qed.
#[local] Hint Resolve grown_append : sm.

Lemma grown_mod s0 f : (∀ s, cm_log (f s) = cm_log s ∧ cm_archive (f s) = cm_archive s ∧ cm_holds s `prefix_of` cm_holds (f s)) → preserves (grown s0) (sm_mod f).
Proof. intros Hf s [Hw He Ha Hh]. destruct (Hf s) as (E1 & E2 & E3). constructor; rewrite ?E1, ?E2; [done|done|done|by etrans]. Qed.
#[local] Hint Extern 2 (preserves (grown _) (sm_mod _)) => (apply grown_mod; intros ?; split_and!; cbn; [done|done|done || by eexists]) : sm.

Lemma grown_observe s0 id a t : preserves (grown s0) (_observe_by_id target logged id a t).
Proof. unfold _observe_by_id, _observe. sm_walk. Qed.
#[local] Hint Resolve grown_observe : sm.
Lemma grown_flush s0 t n : preserves (grown s0) (flush target logged send t n).
Proof.
  unfold flush. apply preserves_if; intros _; [auto with sm|]. induction (Z.to_nat n) as [|k IH]; cbn [flush_rounds]; [sm_walk|].
  apply preserves_bind; [auto with sm|]. intros s. destruct (cm_spool s) as [|r q]; [auto with sm|]. apply preserves_bind; [|done].
  apply preserves_for. intros x _. unfold send_one. sm_walk.
Qed.
#[local] Hint Resolve grown_flush : sm.

Definition is_growing (op : CompOp) : bool := match op with ORelease _ _ _ | ORetention _ _ _ _ | OErase _ _ _ => false | _ => true end.

Lemma op_grown op s : is_growing op = true → log_wf (cm_log s) → grown s (comp_op op s).2.
Proof.
  intros Hop Hw. assert (H0 : grown s s) by by constructor.
  assert (Hp : preserves (grown s) (comp_op op)); [|specialize (Hp s H0); by destruct (comp_op op s) as [[]?]].
  destruct op; try done; cbn [comp_op]; apply preserves_bind; try (intros; by auto with sm); [auto with sm|..].
  - unfold activate. sm_walk.
  - unfold store, write_event. sm_walk.
  - unfold transfer, store, write_event. sm_walk.
  - unfold forward. sm_walk.
Qed.

Lemma release_wf id t actor s : log_wf (cm_log s) → log_wf (cm_log (release id t actor s).2) ∧ ol_events (cm_log s) `prefix_of` ol_events (cm_log (release id t actor s).2) ∧ cm_archive (release id t actor s).2 = cm_archive s.
Proof.
  intros Hw. set (I := λ s' : Compliance, log_wf (cm_log s') ∧ ol_events (cm_log s) `prefix_of` ol_events (cm_log s') ∧ cm_archive s' = cm_archive s).
  assert (Happ : ∀ k t actor task cat region payload tags, preserves I (on_log (log_append k t actor task cat region payload tags))).
  { intros k t' actor' task cat region payload tags s' (Hw' & He & Ha). unfold on_log. pose proof (log_append_wf k t' actor' task cat region payload tags _ Hw') as Hw2.
    pose proof (log_append_spec k t' actor' task cat region payload tags (cm_log s')) as H. destruct (log_append _ _ _ _ _ _ _ _ _) as [[e|] l']; cbn [snd] in *.
    - destruct H as (E & _). split_and!; cbn; [done|rewrite E; etrans; [exact He|by eexists]|done].
    - subst l'. by split_and!. }
  assert (Hp : preserves I (release id t actor)); [|specialize (Hp s); destruct (release id t actor s) as [[]?]; by apply Hp].
  unfold release. apply preserves_bind; [auto with sm|]. intros s0. destruct (list_find _ _) as [[i h]|]; [|auto with sm].
  apply preserves_if; intros _; [auto with sm|]. apply preserves_bind; [apply Happ|]. intros e. apply preserves_bind; [|auto with sm]. apply preserves_mod. done.
Qed.

(** A completed erasure. *)
Lemma erase_spec user t actor s :
  log_wf (cm_log s) →
  let '(o, s') := pseudonymize salt user t actor s in
  match o with
  | Ok r =>
      ∃ l receipt, Forall2 (resealed (oe_id <$> List.filter (λ e, bool_decide (oe_actor e = user)) (ol_events (cm_log s))) (es_pseudonym r)) (ol_events (cm_log s)) l ∧
        ol_events (cm_log s') = l ++ [receipt] ∧ verify_chain (cm_log s') = Ok true ∧ oe_kind receipt = str "erasure" ∧ oe_actor receipt = actor ∧
        es_receipt_hash r = oe_chain_hash receipt ∧ es_user r = user ∧ cm_erased s' = user :: cm_erased s ∧ user ∉ cm_erased s ∧
        es_events r = Z.of_nat (length (List.filter (λ e, bool_decide (oe_id e ∈ oe_id <$> List.filter (λ e, bool_decide (oe_actor e = user)) (ol_events (cm_log s))) &&
                                                         negb (bool_decide (oe_actor e = es_pseudonym r))) (ol_events (cm_log s)))) ∧
        ∃ b, encode user = Ok b ∧ es_pseudonym r = str "erased-" ++ take 32 (hex (hmac_sha256 (salt (cm_salts s)) b))
  | Raise _ => True
  end ∧ log_wf (cm_log s') ∧ cm_archive s' = cm_archive s ∧ cm_holds s' = cm_holds s ∧ ol_archived (cm_log s') = ol_archived (cm_log s).
Proof.
  intros Hw. unfold pseudonymize. unfold mbind at 1, SM_bind, sm_get. destruct (blank user); [done|]. case_bool_decide as He; [done|].
  unfold mbind at 1, SM_bind, sm_mod at 1. unfold mbind at 1, SM_bind, sm_lift at 1. destruct (encode user) as [b|] eqn:Eb; [|done].
  set (p := str "erased-" ++ take 32 (hex (hmac_sha256 (salt (cm_salts s)) b))). set (ids := oe_id <$> List.filter (λ e, bool_decide (oe_actor e = user)) (ol_events (cm_log s))).
  assert (Hpdef : p = str "erased-" ++ take 32 (hex (hmac_sha256 (salt (cm_salts s)) b))) by done. clearbody p.
  unfold mbind at 1, SM_bind, on_log at 1. cbn [cm_log set_erased]. destruct (log_pseudonymize ids p (cm_log s)) as [[n|] l1] eqn:El.
  - apply log_pseudonymize_spec in El as (Hf & Hv & Hc & Har & Hn).
    assert (Hw1 : log_wf l1).
    { destruct Hw as [H1 H2]. constructor; [by rewrite (resealed_ids _ _ _ _ Hf)|]. intros e Hin. rewrite Hc.
      assert (Hid : oe_id e ∈ oe_id <$> ol_events l1) by by apply list_elem_of_fmap_2. rewrite (resealed_ids _ _ _ _ Hf) in Hid.
      apply list_elem_of_fmap in Hid as (e0 & -> & Hin0). by apply H2. }
    unfold mbind at 1, SM_bind, on_log at 1. cbn [cm_log set_log].
    match goal with |- context [log_append ?k ?t ?ac ?ta ?c ?re ?pl ?tg l1] =>
      pose proof (log_append_spec k t ac ta c re pl tg l1) as Hs; pose proof (log_append_wf k t ac ta c re pl tg l1 Hw1) as Hw2;
      pose proof (log_append_verifies k t ac ta c re pl tg l1 Hv) as Hv2; destruct (log_append k t ac ta c re pl tg l1) as [[receipt|] l2] end; cbn [fst snd] in *.
    + destruct Hs as (E2 & _ & Har2 & _ & _ & Hk & _ & Hac & _). unfold mbind, SM_bind, sm_mod, mret, SM_ret.
      cbn [cm_log set_log set_erased cm_archive cm_holds cm_erased es_pseudonym es_receipt_hash es_user es_events]. split_and!; [|done|done|done|by rewrite Har2].
      exists (ol_events l1), receipt. split_and!; try done. by exists b.
    + subst l2. by split_and!.
  - apply log_pseudonymize_raises in El as ->. by split_and!.
Qed.

Lemma op_wf op s : log_wf (cm_log s) → log_wf (cm_log (comp_op op s).2).
Proof.
  intros Hw. destruct (is_growing op) eqn:Eg; [by apply (op_grown op s)|]. destruct op; try done; cbn [comp_op]; unfold mbind, SM_bind.
  - destruct (release_wf hold_id t actor s Hw) as [H _]. by destruct (release hold_id t actor s) as [[]?].
  - pose proof (enforce_spec policy now respect actor s Hw) as H. destruct (enforce_retention policy now respect actor s) as [[]?]; apply H.
  - pose proof (erase_spec user t actor s Hw) as H. destruct (pseudonymize salt user t actor s) as [[]?]; apply H.
Qed.

Lemma comp_run_wf ops : log_wf (cm_log (comp_run ops Compliance_new)).
Proof.
  assert (Hg : ∀ s, log_wf (cm_log s) → log_wf (cm_log (comp_run ops s))); [|apply Hg; constructor; [constructor|by intros e ?%elem_of_nil]].
  induction ops as [|op ops IH]; intros s Hs; [done|]. apply IH. by apply op_wf.
Qed.

(** Operations under which a hold stays in force. *)
Definition hold_safe (op : CompOp) : bool := match op with ORelease _ _ _ | OErase _ _ _ => false | ORetention _ _ respect _ => respect | _ => true end.

Lemma blocked_prefix h h' e : h `prefix_of` h' → blocked h e = true → blocked h' e = true.
Proof. intros [k ->] H. unfold blocked in *. by rewrite List.existsb_app, H. Qed.

Lemma hold_kept op s e :
  log_wf (cm_log s) → hold_safe op = true → e ∈ ol_events (cm_log s) → blocked (cm_holds s) e = true →
  e ∈ ol_events (cm_log (comp_op op s).2) ∧ blocked (cm_holds (comp_op op s).2) e = true.
Proof.
  intros Hw Hop He Hb. destruct (is_growing op) eqn:Eg.
  - destruct (op_grown op s Eg Hw) as [_ [k Hk] _ Hh]. split; [rewrite Hk; apply elem_of_app; by left|by eapply blocked_prefix].
  - destruct op; try done. cbn [hold_safe] in Hop. subst respect. cbn [comp_op].
    pose proof (enforce_spec policy now true actor s Hw) as H. unfold mbind, SM_bind.
    assert (Hk : let s' := (enforce_retention policy now true actor s).2 in e ∈ ol_events (cm_log s') ∧ blocked (cm_holds s') e = true).
    { cbv zeta. destruct (enforce_retention policy now true actor s) as [o s']. destruct H as (_ & (Hh & _ & _ & recs & _ & Hev) & _). cbn [snd]. rewrite Hh. split; [|done].
      destruct Hev as [-> | (_ & tail & ->)]; [done|]. apply elem_of_app. left. apply list_elem_of_In, List.filter_In. split; [by apply list_elem_of_In|].
      unfold is_gone. rewrite Hb. cbn. by rewrite andb_false_r. }
    destruct (enforce_retention policy now true actor s) as [[]?]; exact Hk.
Qed.

Lemma holds_kept_run ops s e :
  log_wf (cm_log s) → Forall (λ op, hold_safe op = true) ops → e ∈ ol_events (cm_log s) → blocked (cm_holds s) e = true → e ∈ ol_events (cm_log (comp_run ops s)).
Proof.
  intros Hw Hops. revert s Hw. induction Hops as [|op ops Hop _ IH]; intros s Hw He Hb; [done|]. change (comp_run (op :: ops) s) with (comp_run ops (comp_op op s).2).
  destruct (hold_kept op s e Hw Hop He Hb). apply IH; [by apply op_wf|done|done].
Qed.

(** What makes an event deletable, apart from the code: its age reached the years
    the policy gives its category, and no active hold has its user, task and time. *)
Definition past_due (policy : RetentionPolicy) (now : float) (e : ObservationEvent) : Prop :=
  ∃ years, dget (oe_category e) policy = Some years ∧
    num_ltb (NFloat (fsub now (oe_timestamp e))) (NInt (years * 365 * 24 * 60 * 60)) = false.
Definition under_hold (holds : list LegalHold) (e : ObservationEvent) : Prop :=
  ∃ h, h ∈ holds ∧ lh_active h = true ∧
    (∀ u, hs_user (lh_scope h) = Some u → oe_actor e = u) ∧ (∀ t, hs_task_id (lh_scope h) = Some t → oe_task_id e = t) ∧
    (∀ a, hs_start (lh_scope h) = Some a → SFltb (oe_timestamp e) a = false) ∧ (∀ b, hs_end (lh_scope h) = Some b → SFltb b (oe_timestamp e) = false).

Lemma is_expired_iff policy now e : is_expired policy now e = true ↔ past_due policy now e.
Proof.
  unfold is_expired, expired, max_age_seconds, past_due, dgetitem. destruct (dget (oe_category e) policy) as [y|]; cbn [of_option mbind res_bind]; [|naive_solver].
  rewrite negb_true_iff. replace (y * SECONDS_PER_YEAR)%Z with (y * 365 * 24 * 60 * 60)%Z by (unfold SECONDS_PER_YEAR; lia). naive_solver.
Qed.
Lemma differs_false o x : differs o x = false ↔ ∀ y, o = Some y → x = y.
Proof. destruct o as [y|]; cbn; [|naive_solver]. rewrite negb_false_iff, bool_decide_eq_true. naive_solver. Qed.
Lemma blocked_iff holds e : blocked holds e = true ↔ under_hold holds e.
Proof.
  unfold blocked, under_hold. rewrite existsb_exists. apply exist_proper. intros h. rewrite <- list_elem_of_In.
  unfold matches. rewrite !andb_true_iff, !negb_true_iff, !differs_false.
  destruct (hs_start (lh_scope h)), (hs_end (lh_scope h)); naive_solver.
Qed.
Lemma not_blocked holds e : blocked holds e = false ↔ ¬ under_hold holds e.
Proof. by rewrite <- blocked_iff, not_true_iff_false. Qed.

(** C26: an enforcement of retention that is given the hold manager deletes exactly
    the events that are past due and under no active hold, and archives each of them
    first. After any operations, one that returns leaves the other events in their
    order followed by its receipt, has put every deleted event, and no other, in the
    archive with its digest, and reports the deleted ids and those that were held; one
    that raises has not deleted any event that is not in the archive. An event
    under an active hold stays in the log through any appends, activations,
    transfers, forwarding and enforcements that are given the hold manager, until a
    release or an erasure. (Without the manager, holds are not consulted.) *)
Theorem retention_sound ops policy now actor :
  let s := comp_run ops Compliance_new in
  ∃ gone held : ObservationEvent → bool,
  (∀ e, gone e = true ↔ past_due policy now e ∧ ¬ under_hold (cm_holds s) e) ∧
  (∀ e, held e = true ↔ past_due policy now e ∧ under_hold (cm_holds s) e) ∧
  (let '(o, s') := enforce_retention policy now true actor s in
   match o with
   | Ok r =>
       ∃ receipt recs,
         ol_events (cm_log s') = List.filter (λ e, negb (gone e)) (ol_events (cm_log s)) ++ [receipt] ∧
         cm_archive s' = cm_archive s ++ recs ∧ archived_as (List.filter gone (ol_events (cm_log s))) recs ∧
         rt_archived r = sort_Z (oe_id <$> List.filter gone (ol_events (cm_log s))) ∧ rt_deleted r = rt_archived r ∧
         rt_held r = sort_Z (oe_id <$> List.filter held (ol_events (cm_log s))) ∧
         oe_kind receipt = str "retention" ∧ oe_timestamp receipt = now ∧ rt_receipt_hash r = oe_chain_hash receipt
   | Raise _ => ∀ e, e ∈ ol_events (cm_log s) → e ∈ ol_events (cm_log s') ∨ e ∈ ar_event <$> cm_archive s'
   end) ∧
  (∀ ops' e, Forall (λ op, hold_safe op = true) ops' → e ∈ ol_events (cm_log s) → under_hold (cm_holds s) e → e ∈ ol_events (cm_log (comp_run ops' s))).
Proof.
  cbv zeta. assert (Hw := comp_run_wf ops). set (s := comp_run ops Compliance_new) in *. pose proof (enforce_spec policy now true actor s Hw) as H.
  exists (is_gone policy now true (cm_holds s)), (is_held policy now true (cm_holds s)). split_and!.
  - intros e. unfold is_gone. cbn [andb]. by rewrite andb_true_iff, negb_true_iff, is_expired_iff, not_blocked.
  - intros e. unfold is_held. cbn [andb]. by rewrite andb_true_iff, is_expired_iff, blocked_iff.
  - destruct (enforce_retention policy now true actor s) as [o s']. destruct H as (Ho & (_ & _ & _ & recs & Har & Hev) & _).
    destruct o as [r|x]; [exact Ho|]. intros e He. destruct Hev as [-> | ([Hr _] & tail & ->)]; [by left|]. rewrite Har, fmap_app, Hr, !elem_of_app.
    destruct (is_gone policy now true (cm_holds s) e) eqn:E; [right; right|left; left]; apply list_elem_of_In, List.filter_In; (split; [by apply list_elem_of_In|by rewrite E]).
  - intros ops' e Hops He Hb%blocked_iff. by apply holds_kept_run.
Qed.

End operations.

(** ** Sample runs *)
Definition at_ (z : Z) : float := float_of_Z z.
Definition demo_salt : nat → list N := λ _, replicate 32 1%N.
Definition demo_run : list CompOp → Compliance := λ ops, comp_run demo_salt (str "splunk") true (λ _ _, true) ops Compliance_new.
Definition by_alice (t : Z) : CompOp := OAppend (str "observation") (at_ t) (str "alice") (str "t1") (str "debug") (str "local") [] [].
Definition by_bob (t : Z) : CompOp := OAppend (str "observation") (at_ t) (str "bob") (str "t2") (str "debug") (str "local") [] [].

Lemma demo_erasure :
  ∃ r s', pseudonymize demo_salt (str "alice") (at_ 2) (str "c") (demo_run [by_alice 0; by_bob 1]) = (Ok r, s') ∧ bool_decide (es_pseudonym r = str "alice") = false.
Proof. vm_compute. eexists _, _. split; reflexivity. Qed.

