(* ===== verification/ComplianceServices.v ===== *)
(** * Residency, signed reports and forwarding; where the compliance services fall short *)

From Stdlib Require Import ZArith NArith Lia SpecFloat.
From S2P Require Import Prelude PyData Sha256 PyFloat Json JsonFacts Core CoreFacts Builtins Storage Journal AesGcm Crypto Hadr HadrTheorems Backup Compliance ComplianceTheorems.

(** ** Residency *)
Section residency.
Context (policy : ResidencyPolicy) (logged : bool).

(** A transfer that returns wrote the event in its own region, or crossed a border
    with an approver, along an allowed flow between known regions, and recorded the
    approval, and observed it when there is a log; one that raises wrote nothing. *)
Theorem transfer_needs_approval e target approved approver t s :
  let '(o, s') := transfer policy logged e target approved approver t s in
  match o with
  | Ok path =>
      path = (target, oe_id e) ∧ cm_files s' = dset (target, oe_id e) (body e) (cm_files s) ∧ oe_region e ∈ rs_regions policy ∧ target ∈ rs_regions policy ∧
      (oe_region e = target ∧ cm_approvals s' = cm_approvals s ∨
       oe_region e ≠ target ∧ approved = true ∧ blank approver = false ∧ (oe_region e, target) ∈ rs_allowed_flows policy ∧
       ∃ h, cm_approvals s' = cm_approvals s ++ [mkApproval (cm_next_approval s) (oe_region e) target approver [oe_id e] h] ∧
            (logged = true → ∃ r, ol_events (cm_log s') = ol_events (cm_log s) ++ [r] ∧ oe_kind r = str "transfer" ∧ oe_actor r = approver ∧ oe_chain_hash r = h))
  | Raise _ => cm_files s' = cm_files s ∧ cm_approvals s' = cm_approvals s
  end.
Proof.
  unfold transfer, _check_region. unfold mbind at 1, SM_bind, sm_lift at 1. destruct (decide (oe_region e ∈ rs_regions policy)) as [H1|H1].
  2: { rewrite bool_decide_false by done. done. }
  rewrite bool_decide_true by done. cbn [negb]. unfold mbind at 1, SM_bind, sm_lift at 1. destruct (decide (target ∈ rs_regions policy)) as [H2|H2].
  2: { rewrite bool_decide_false by done. done. }
  rewrite bool_decide_true by done. cbn [negb]. destruct (decide (oe_region e = target)) as [H3|H3].
  { rewrite bool_decide_true by done. unfold store, _check_region, write_event, mbind, SM_bind, sm_lift, sm_mod, mret, SM_ret. rewrite bool_decide_true by done. cbn [negb].
    subst target. by split_and!; [..|left]. }
  rewrite bool_decide_false by done. destruct (negb approved || blank approver) eqn:E4; [done|]. apply orb_false_iff in E4 as [Happ%negb_false_iff Hbl].
  destruct (decide ((oe_region e, target) ∈ rs_allowed_flows policy)) as [H5|H5]; [rewrite bool_decide_true by done|by rewrite bool_decide_false by done]. cbn [negb].
  unfold mbind at 1, SM_bind, sm_lift at 1. destruct (digest _) as [h0|]; [|done]. unfold mbind at 1, SM_bind. destruct logged.
  - unfold mbind at 1, SM_bind, on_log at 1. set (payload := [_; _; _; _]).
    match goal with |- context [log_append ?k ?t ?ac ?ta ?c ?re ?pl ?tg (cm_log s)] =>
      pose proof (log_append_spec k t ac ta c re pl tg (cm_log s)) as Hs; destruct (log_append k t ac ta c re pl tg (cm_log s)) as [[r|] l'] end; [|done].
    destruct Hs as (Hev & _ & _ & _ & _ & Hk & _ & Hac & _). unfold write_event, mbind, SM_bind, sm_mod, mret, SM_ret.
    cbn [cm_files cm_approvals cm_next_approval cm_log set_log set_approvals set_files]. split_and!; try done. right. split_and!; try done. exists (oe_chain_hash r). split; [done|]. intros _. by exists r.
  - unfold write_event, mbind, SM_bind, sm_mod, mret, SM_ret. cbn [cm_files cm_approvals cm_next_approval cm_log set_approvals set_files].
    split_and!; try done. right. split_and!; try done. by exists h0.
Qed.
End residency.

(** ** Reports *)
Lemma query_elem q l e :
  e ∈ query q l ↔ e ∈ ol_events l ∧ (qr_kinds q = [] ∨ oe_kind e ∈ qr_kinds q) ∧ differs (qr_actor q) (oe_actor e) = false ∧ differs (qr_task_id q) (oe_task_id e) = false ∧
    differs (qr_region q) (oe_region e) = false ∧ (∀ t, qr_start q = Some t → SFltb (oe_timestamp e) t = false) ∧ (∀ t, qr_end q = Some t → SFltb t (oe_timestamp e) = false).
Proof.
  unfold query. rewrite list_elem_of_In, List.filter_In, <- list_elem_of_In, negb_true_iff, !orb_false_iff, andb_false_iff, !negb_false_iff, !bool_decide_eq_true.
  destruct (qr_start q), (qr_end q); naive_solver.
Qed.

(** A report is signed, names its signer, states whether the log verified, and its
    rows are those of the events of its kinds in its range, in the order of the
    log. *)
Theorem report_signed l r `{signer : Signer} at_ generator rep :
  generate_report l r signer at_ generator = Ok rep →
  report_verify signer rep = Ok true ∧ sp_key_id rep = signer_key_id ∧
  ∃ valid, verify_chain l = Ok valid ∧ sp_body rep = report_body l r at_ generator valid ∧
  ∀ e, e ∈ query (report_query r) l ↔ e ∈ ol_events l ∧ oe_kind e ∈ _REPORT_KINDS (rq_type r) ∧ SFltb (oe_timestamp e) (rq_start r) = false ∧
       (rq_end r ≠ S754_infinity false → SFltb (rq_end r) (oe_timestamp e) = false).
Proof.
  unfold generate_report, sign_report. intros H. apply bind_Ok in H as (valid & Hv & H). apply bind_Ok in H as (t & Ht & H). apply bind_Ok in H as (m & Hm & [= <-]).
  unfold report_verify, canonical_body. cbn [sp_body sp_signature sp_key_id]. rewrite Ht. cbn [mbind res_bind]. rewrite Hm. cbn [mbind res_bind].
  rewrite bool_decide_true by done. split_and!; [done|done|]. exists valid. split_and!; [done|done|]. intros e. rewrite query_elem.
  unfold report_query. cbn [qr_kinds qr_actor qr_task_id qr_region qr_start qr_end differs].
  assert (Hk : _REPORT_KINDS (rq_type r) ≠ []) by (by destruct (rq_type r)). unfold unbounded. case_bool_decide; naive_solver.
Qed.

(** ** Forwarding *)
Section forwarding.
Context (target : pystr) (logged : bool) (send : nat → pystr → bool).

Definition same_message (r r' : SpoolRecord) : Prop := sr_event_id r' = sr_event_id r ∧ sr_message r' = sr_message r.
(** A message for the event was sent successfully by one of these calls. *)
Definition sent_for (q : list SpoolRecord) (n m : nat) (id : Z) : Prop := ∃ r k, r ∈ q ∧ sr_event_id r = id ∧ n ≤ k < m ∧ send k (sr_message r) = true.

Record spool_ok (s0 s : Compliance) : Prop := {
  so_sends : cm_sends s0 ≤ cm_sends s;
  so_from r : r ∈ cm_spool s → ∃ r0, r0 ∈ cm_spool s0 ∧ same_message r0 r;
  so_kept r0 : r0 ∈ cm_spool s0 → (∃ r, r ∈ cm_spool s ∧ same_message r0 r) ∨ sent_for (cm_spool s0) (cm_sends s0) (cm_sends s) (sr_event_id r0)
}.

Lemma spool_ok_refl s : spool_ok s s.
Proof. constructor; [done|intros r Hr; by exists r|]. intros r0 Hr. left. by exists r0. Qed.

Lemma spool_ok_log {A} s0 (m : SM ObservationLog A) : preserves (spool_ok s0) (on_log m).
Proof. intros s [H1 H2 H3]. unfold on_log. destruct (m (cm_log s)) as [[]?]; by constructor. Qed.
#[local] Hint Resolve spool_ok_log : sm.

Lemma spool_ok_observe s0 id a t : preserves (spool_ok s0) (_observe_by_id target logged id a t).
Proof. unfold _observe_by_id, _observe. sm_walk. Qed.
#[local] Hint Resolve spool_ok_observe : sm.

Lemma spool_ok_send s0 t x : (∃ r0, r0 ∈ cm_spool s0 ∧ same_message r0 x) → preserves (spool_ok s0) (send_one target logged send t x).
Proof.
  intros (x0 & Hx0 & Hxid & Hxmsg) s Hs. unfold send_one. unfold mbind at 1, SM_bind, sm_get. destruct (send (cm_sends s) (sr_message x)) eqn:Esend.
  - unfold mbind, SM_bind, sm_mod. set (s1 := set_spool _ _ _ s). apply (spool_ok_observe s0 (sr_event_id x) (str "delivered") t s1). destruct Hs as [H1 H2 H3].
    assert (Hmono : ∀ id, sent_for (cm_spool s0) (cm_sends s0) (cm_sends s) id → sent_for (cm_spool s0) (cm_sends s0) (cm_sends s1) id).
    { intros id (r & k & ? & ? & ? & ?). exists r, k. cbn. split_and!; try done; lia. }
    constructor; cbn [s1 set_spool cm_sends cm_spool]; [lia|..].
    + intros r Hr. apply H2. by eapply elem_of_sublist; [|apply filter_sublist].
    + intros r0 Hr0. destruct (decide (sr_event_id r0 = sr_event_id x)) as [E|E].
      * right. exists x0, (cm_sends s). split_and!; [done|congruence|lia|lia|by rewrite <- Hxmsg].
      * destruct (H3 r0 Hr0) as [(r & Hr & Hm)|Hsent]; [left; exists r; split; [|done]|right; by apply Hmono].
        apply list_elem_of_In, List.filter_In. split; [by apply list_elem_of_In|]. apply negb_true_iff, Z.eqb_neq. destruct Hm. congruence.
  - destruct Hs as [H1 H2 H3]. constructor; cbn [set_spool cm_sends cm_spool]; [lia|..].
    + intros r Hr. apply list_elem_of_fmap in Hr as (r' & -> & Hr). destruct (H2 r' Hr) as (r0 & Hr0 & Hm). exists r0. split; [done|]. by destruct (sr_event_id r' =? sr_event_id x)%Z.
    + intros r0 Hr0. destruct (H3 r0 Hr0) as [(r & Hr & Hm)|(r & k & ? & ? & ? & ?)].
      * left. eexists. split; [by apply list_elem_of_fmap_2|]. by destruct (sr_event_id r =? sr_event_id x)%Z.
      * right. exists r, k. split_and!; try done; lia.
Qed.

Lemma spool_ok_rounds s0 t n : preserves (spool_ok s0) (flush_rounds target logged send t n).
Proof.
  induction n as [|n IH]; intros s Hs; cbn [flush_rounds]; unfold mbind at 1, SM_bind, sm_get; [done|].
  destruct (cm_spool s) as [|r q] eqn:Eq; [done|]. assert (Hp : preserves (spool_ok s0) (sm_for (r :: q) (send_one target logged send t) ≫= λ _, flush_rounds target logged send t n)).
  { apply preserves_bind; [|done]. apply preserves_for. intros x Hx. apply spool_ok_send. apply (so_from _ _ Hs). by rewrite Eq. }
  by apply Hp.
Qed.

(** Delivery is at least once: whatever the transport does and however a flush ends,
    each spooled message is still spooled, or a message of its event was confirmed
    by the transport during the flush; a flush that reports success leaves the spool
    empty. *)
Theorem at_least_once t n s :
  let '(o, s') := flush target logged send t n s in
  (∀ r, r ∈ cm_spool s → (∃ r', r' ∈ cm_spool s' ∧ same_message r r') ∨ sent_for (cm_spool s) (cm_sends s) (cm_sends s') (sr_event_id r)) ∧
  (o = Ok true → cm_spool s' = []).
Proof.
  unfold flush. destruct (n <? 1)%Z; [split; [intros r Hr; left; by exists r|done]|]. pose proof (spool_ok_rounds s t (Z.to_nat n) s (spool_ok_refl s)) as H.
  assert (Hempty : ∀ k u, let '(o, u') := flush_rounds target logged send t k u in o = Ok true → cm_spool u' = []).
  { clear. induction k as [|k IH]; intros u; cbn [flush_rounds]; unfold mbind at 1, SM_bind, sm_get.
    - cbn. intros [= E]. apply bool_decide_eq_true in E. by apply length_zero_iff_nil.
    - destruct (cm_spool u) as [|r q] eqn:Eq; [by intros _|]. unfold mbind, SM_bind. destruct (sm_for _ _ u) as [[v|e] u']; [apply IH|done]. }
  specialize (Hempty (Z.to_nat n) s). destruct (flush_rounds target logged send t (Z.to_nat n) s) as [[o|e] s'].
  - split; [apply H|]. intros [= ->]. by apply Hempty.
  - split; [apply H|done].
Qed.
End forwarding.

(** ** Where the services fall short *)
Definition two_years : Z := 2 * SECONDS_PER_YEAR.

(** Retention breaks the log's own verification: the event after a deleted one is
    sealed over a hash that is gone, so a report generated after the first deletion
    says that the log does not verify. *)
Theorem retention_breaks_chain :
  verify_chain (cm_log (demo_run [by_alice 0; by_bob two_years])) = Ok true ∧
  verify_chain (cm_log (demo_run [by_alice 0; by_bob two_years; ORetention DEFAULT_RETENTION_YEARS (at_ two_years) true (str "c")])) = Ok false.
Proof. vm_compute. split; reflexivity. Qed.

(** An erasure of anyone seals such a log anew, so that it verifies again: the check
    does not tell a log that was changed from one that was not. *)
Theorem erasure_reseals :
  verify_chain (cm_log (demo_run [by_alice 0; by_bob two_years; ORetention DEFAULT_RETENTION_YEARS (at_ two_years) true (str "c"); OErase (str "carol") (at_ two_years) (str "c")])) = Ok true.
Proof. vm_compute. reflexivity. Qed.

Definition held_alice : list CompOp := [by_alice 0; OActivate (mkScope (Some (str "alice")) None None None) (str "case") (at_ 1) (str "c")].
(** An enforcement that is not given the hold manager, which is the default, deletes
    the events under an active hold. *)
Theorem unmanaged_retention_ignores_holds :
  lh_active <$> cm_holds (demo_run held_alice) = [true] ∧
  (λ e, oe_id e) <$> ol_events (cm_log (demo_run (held_alice ++ [ORetention DEFAULT_RETENTION_YEARS (at_ two_years) false (str "c")]))) = [2; 3]%Z.
Proof. vm_compute. done. Qed.

(** An erasure leaves what payloads say: the activation of the hold still names the
    user in its scope. *)
Theorem erasure_spares_payloads :
  (λ e, (oe_actor e, v ← dget (str "scope") (oe_payload e); match v with JDict d => dget (str "user") d | _ => None end))
    <$> drop 1 (ol_events (cm_log (demo_run (held_alice ++ [OErase (str "alice") (at_ 2) (str "c")]))))
  = [(str "c", Some (JStr (str "alice"))); (str "c", None)].
Proof. vm_compute. done. Qed.

(** Erasing the user of an active hold lifts it in effect: the hold's scope no longer
    matches the pseudonymized events, and the next enforcement deletes them while the
    hold is active. *)
Theorem erasure_defeats_hold :
  (λ e, oe_id e) <$> ol_events (cm_log (demo_run (held_alice ++ [ORetention DEFAULT_RETENTION_YEARS (at_ two_years) true (str "c")]))) = [1; 2; 3]%Z ∧
  (λ e, oe_id e) <$> ol_events (cm_log (demo_run (held_alice ++ [OErase (str "alice") (at_ 2) (str "c"); ORetention DEFAULT_RETENTION_YEARS (at_ two_years) true (str "c")]))) = [2; 3; 4]%Z ∧
  lh_active <$> cm_holds (demo_run (held_alice ++ [OErase (str "alice") (at_ 2) (str "c"); ORetention DEFAULT_RETENTION_YEARS (at_ two_years) true (str "c")])) = [true].
Proof. vm_compute. repeat split. Qed.

(** An erasure also changes the hash of every later event, so the receipt that a hold
    keeps of its activation names no event of the log any more. *)
Theorem erasure_orphans_receipts :
  let s := demo_run (held_alice ++ [OErase (str "alice") (at_ 2) (str "c")]) in
  existsb (λ h, existsb (λ e, bool_decide (oe_chain_hash e = lh_activate_receipt h)) (ol_events (cm_log s))) (cm_holds s) = false.
Proof. vm_compute. reflexivity. Qed.

(** Erasure does not reach the archive: events archived before it still name the
    user. *)
Theorem erasure_spares_archive :
  let s := demo_run [by_alice 0; ORetention DEFAULT_RETENTION_YEARS (at_ two_years) true (str "c"); OErase (str "alice") (at_ two_years) (str "c")] in
  (λ r, oe_actor (ar_event r)) <$> cm_archive s = [str "alice"] ∧ oe_actor <$> ol_archived (cm_log s) = [str "alice"].
Proof. vm_compute. split; reflexivity. Qed.

(** With a clock reading of NaN, which the guard accepts, every event that is not
    held is archived and deleted, and the receipt of the run cannot be written. *)
Theorem nan_clock_deletes :
  let s := demo_run [by_alice 0; by_bob two_years] in
  let '(o, s') := enforce_retention DEFAULT_RETENTION_YEARS S754_nan true (str "c") s in
  is_ok o = false ∧ ol_events (cm_log s') = [] ∧ length (cm_archive s') = 2.
Proof. vm_compute. repeat split. Qed.
