(* ===== verification/NetAddr.v ===== *)
(** * IP addresses and networks (the standard library's [ipaddress])

    What the access-management code uses: [ip_address] and [ip_network] on
    strings, and membership.  Only whether parsing raises [ValueError] is kept
    of its errors. *)

From Stdlib Require Import ZArith NArith Lia.
From S2P Require Import Prelude PyData Json.

Inductive ip_version : Type := V4 | V6.
#[export] Instance ip_version_eq_dec : EqDecision ip_version.
Proof. solve_decision. Defined.

Record IPAddress : Type := mkIP { ip_ver : ip_version; ip_int : Z }.
Record IPNetwork : Type := mkNet { net_ver : ip_version; net_int : Z; net_prefix : Z }.

Definition max_prefixlen (v : ip_version) : Z := match v with V4 => 32 | V6 => 128 end.

(** ** IPv4 *)
Definition parse_octet (s : pystr) : option Z :=
  if bool_decide (s = []) || negb (forallb is_digit s) || (3 <? length s)%nat then None
  else if negb (bool_decide (s = [48%N])) && bool_decide (head s = Some 48%N) then None
  else let n := digits_value s in if (255 <? n)%Z then None else Some n.

Definition ipv4_int (s : pystr) : option Z :=
  match mapM parse_octet (split_on 46 s) with
  | Some [a; b; c; d] => Some (((a * 256 + b) * 256 + c) * 256 + d)%Z
  | _ => None
  end.

(** ** IPv6 *)
Definition is_hex_any (c : N) : bool := is_digit c || in_range 97 102 c || in_range 65 70 c.
Definition parse_hextet (s : pystr) : option Z :=
  if bool_decide (s = []) || negb (forallb is_hex_any s) || (4 <? length s)%nat then None
  else Some (foldl (λ acc c, 16 * acc + Z.of_N (default 0%N (hex_value c)))%Z 0%Z s).

(** A part of an address: text, or a half of an IPv4 suffix. *)
Inductive part : Type := PText (s : pystr) | PHex (z : Z).
Definition part_empty (p : part) : bool := match p with PText [] => true | _ => false end.
Definition part_value (p : part) : option Z := match p with PText s => parse_hextet s | PHex z => Some z end.

Definition ipv6_parts (s : pystr) : option (list part) :=
  let parts := split_on 58 s in
  if (length parts <? 3)%nat then None
  else
    let final := default [] (last parts) in
    if bool_decide (46%N ∈ final)
    then v ← ipv4_int final;
         Some ((PText <$> take (length parts - 1) parts) ++ [PHex (Z.land (Z.shiftr v 16) 65535); PHex (Z.land v 65535)])
    else Some (PText <$> parts).

(** The indices of the inner empty parts. *)
Definition skips (ps : list part) : list nat :=
  filter (λ i, part_empty (default (PHex 0) (ps !! i)) = true) (seq 1 (length ps - 2)).

Definition hextets (ps : list part) : option Z :=
  foldl (λ acc p, a ← acc; v ← part_value p; Some (Z.lor (Z.shiftl a 16) v)) (Some 0%Z) ps.

Definition ipv6_int (s : pystr) : option Z :=
  ps ← ipv6_parts s;
  if (9 <? length ps)%nat then None
  else
    let first_empty := part_empty (default (PHex 0) (head ps)) in
    let last_empty := part_empty (default (PHex 0) (last ps)) in
    match skips ps with
    | [] => if negb (length ps =? 8)%nat || first_empty || last_empty then None else hextets ps
    | [i] =>
        let hi := if first_empty then (i - 1)%nat else i in
        let lo := if last_empty then (length ps - i - 2)%nat else (length ps - i - 1)%nat in
        if first_empty && negb (hi =? 0)%nat || last_empty && negb (lo =? 0)%nat || (8 <=? hi + lo)%nat then None
        else h ← hextets (take hi ps);
             hextets (drop (length ps - lo) ps) ≫= λ l, Some (Z.lor (Z.shiftl h (16 * (8 - Z.of_nat hi))) l)
    | _ => None
    end.

(** [addr.partition('%')]: an IPv6 address without its scope. *)
Definition without_scope (s : pystr) : option pystr :=
  match split_on 37 s with
  | [a] => Some a
  | [a; scope] => if bool_decide (scope = []) then None else Some a
  | _ => None
  end.

Definition ip_address (s : pystr) : option IPAddress :=
  if bool_decide (47%N ∈ s) then None
  else match ipv4_int s with
       | Some z => Some (mkIP V4 z)
       | None => a ← without_scope s; z ← ipv6_int a; Some (mkIP V6 z)
       end.

(** ** Networks *)
Definition netmask (v : ip_version) (prefix : Z) : Z :=
  (Z.shiftl (Z.ones prefix) (max_prefixlen v - prefix))%Z.

Definition prefix_from_prefix_string (v : ip_version) (s : pystr) : option Z :=
  if bool_decide (s = []) || negb (forallb is_digit s) || (max_int_digits <? length s)%nat then None
  else let n := digits_value s in if (n <=? max_prefixlen v)%Z then Some n else None.

(** The prefix whose mask is [z], if [z] is a mask. *)
Definition prefix_from_ip_int (z : Z) : option Z :=
  head (filter (λ p, netmask V4 p = z) (Z.of_nat <$> seq 0 33)).

Definition prefix_from_ip_string (s : pystr) : option Z :=
  z ← ipv4_int s;
  match prefix_from_ip_int z with Some p => Some p | None => prefix_from_ip_int (Z.lxor z (Z.ones 32)) end.

Definition make_prefix (v : ip_version) (mask : pystr) : option Z :=
  match prefix_from_prefix_string v mask, v with
  | Some p, _ => Some p
  | None, V4 => prefix_from_ip_string mask
  | None, V6 => None
  end.

Definition address_of (v : ip_version) (s : pystr) : option Z :=
  match v with V4 => ipv4_int s | V6 => a ← without_scope s; ipv6_int a end.

Definition network_of (v : ip_version) (s : pystr) : option IPNetwork :=
  '(addr, prefix) ← match split_on 47 s with
                    | [a] => Some (a, Some (max_prefixlen v))
                    | [a; m] => Some (a, make_prefix v m)
                    | _ => None
                    end;
  z ← address_of v addr;
  p ← prefix;
  if (Z.land z (netmask v p) =? z)%Z then Some (mkNet v z p) else None.

Definition ip_network (s : pystr) : option IPNetwork :=
  match network_of V4 s with Some n => Some n | None => network_of V6 s end.

Definition in_network (a : IPAddress) (n : IPNetwork) : bool :=
  bool_decide (ip_ver a = net_ver n) && (Z.land (ip_int a) (netmask (net_ver n) (net_prefix n)) =? net_int n)%Z.

(** ** Checked against the interpreter *)
Example addresses_parse :
  (λ s, ip_int <$> ip_address (str s)) <$> ["10.0.0.1"; "256.1.1.1"; "01.2.3.4"; "::1"; "::"; "1::"; "fe80::1%eth0"; "::ffff:1.2.3.4"; "1:2:3:4:5:6:7:8";
     "1:2:3:4:5:6:7"; ":1:2:3:4:5:6:7"; "1::2::3"; "1:2:3:4:5:6:7::"; "10.0.0.1/8"; ""]
  = [Some 167772161; None; None; Some 1; Some 0; Some (2 ^ 112); Some (65152 * 2 ^ 112 + 1); Some 281470698652420;
     Some 5192455318486707404433266433261576; None; None; None; Some 5192455318486707404433266433261568; None; None]%Z.
Proof. vm_compute. reflexivity. Qed.

Example networks_parse :
  (λ s, (λ n, (net_int n, net_prefix n)) <$> ip_network (str s)) <$>
    ["10.0.0.0/8"; "10.0.0.1/8"; "10.0.0.0/255.0.0.0"; "10.0.0.0/0.255.255.255"; "10.0.0.7"; "fe80::/10"; "::/0"; "10.0.0.0/33"; "0.0.0.0/0.0.0.0"]
  = [Some (167772160, 8); None; Some (167772160, 8); Some (167772160, 8); Some (167772167, 32); Some (65152 * 2 ^ 112, 10); Some (0, 0); None;
     Some (0, 0)]%Z.
Proof. vm_compute. reflexivity. Qed.
