(* ===== verification/IamEvents.v ===== *)
(** * The IAM event log (residual/iam/events.py)

    Observed authentication events with hash-chained receipts.  [clock] is the
    host's clock callable, by reading number: what it returns is only known to
    be an integer after the code has tested it. *)

From Stdlib Require Import ZArith NArith Lia.
From S2P Require Import Prelude PyData Sha256 PyFloat Json JsonFacts Core CoreFacts Storage JsonPlain NetAddr.

(** [re.fullmatch(r"[a-zA-Z0-9_][a-zA-Z0-9_.@:+\-/]{0,127}", value)] *)
Definition subject_char (c : N) : bool := is_alpha c || is_digit c || bool_decide (c ∈ [95; 46; 64; 58; 43; 45; 47]%N).
Definition subject_ok (s : pystr) : bool :=
  match s with
  | c :: s' => (is_alpha c || is_digit c || (c =? 95)%N) && (length s' <=? 127)%nat && forallb subject_char s'
  | [] => false
  end.
Definition subject_identifier (value : pystr) : res pystr :=
  when negb (subject_ok value) raise ContractError "invalid subject identifier";;
  Ok value.

Definition OBSERVATION_SCHEMA : pystr := str "residual.iam.observation.v1".
Definition RECEIPT_SCHEMA : pystr := str "residual.iam.receipt.v1".

Definition AUTH_EVENT_TYPES : list pystr :=
  str <$> ["login"; "logout"; "token_refresh"; "permission_elevation"; "access_denied"; "service_account_action"; "session_revoked"; "mfa_event"].
Definition SUBJECT_HUMAN : pystr := str "human".
Definition SUBJECT_SERVICE : pystr := str "service".

Definition validate_ip (value : pystr) : res pystr :=
  match ip_address value with Some _ => Ok value | None => Raise (ContractError "invalid source IP address") end.

Record EventObservation : Type := mkEventObs {
  eo_event_type : pystr;
  eo_subject_id : pystr;
  eo_timestamp : Z;
  eo_source_ip : pystr;
  eo_result : pystr;
  eo_subject_type : pystr;
  eo_details : dict json
}.

Definition EventObservation_init (o : EventObservation) : res EventObservation :=
  when negb (bool_decide (eo_event_type o ∈ AUTH_EVENT_TYPES)) raise ContractError "unknown IAM observation event type";;
  _ ← subject_identifier (eo_subject_id o);
  _ ← validate_ip (eo_source_ip o);
  when negb (bool_decide (eo_result o ∈ [str "allow"; str "deny"])) raise ContractError "observation result must be 'allow' or 'deny'";;
  when negb (bool_decide (eo_subject_type o ∈ [SUBJECT_HUMAN; SUBJECT_SERVICE])) raise ContractError "invalid subject type";;
  _ ← canonical (JDict (eo_details o));
  Ok o.

Definition observation_payload (o : EventObservation) : json :=
  jobj [("schema", JStr OBSERVATION_SCHEMA); ("event_type", JStr (eo_event_type o)); ("subject_id", JStr (eo_subject_id o));
        ("subject_type", JStr (eo_subject_type o)); ("timestamp", JInt (eo_timestamp o)); ("source_ip", JStr (eo_source_ip o));
        ("result", JStr (eo_result o)); ("details", JDict (eo_details o))].

Record EventReceipt : Type := mkEventReceipt {
  er_receipt_hash : pystr;
  er_observation_hash : pystr;
  er_previous_hash : pystr;
  er_event_type : pystr;
  er_subject_id : pystr;
  er_subject_type : pystr;
  er_timestamp : Z
}.

Definition EventReceipt_init (r : EventReceipt) : res EventReceipt :=
  when negb (length (er_receipt_hash r) =? 64)%nat || negb (length (er_observation_hash r) =? 64)%nat
    raise ContractError "receipt hashes must be SHA-256 digests";;
  Ok r.

(** The payload without [receipt_hash]. *)
Definition receipt_core (observation_hash previous_hash event_type subject_id subject_type : pystr) (timestamp : Z) : json :=
  jobj [("schema", JStr RECEIPT_SCHEMA); ("observation_hash", JStr observation_hash); ("previous_hash", JStr previous_hash);
        ("event_type", JStr event_type); ("subject_id", JStr subject_id); ("subject_type", JStr subject_type); ("timestamp", JInt timestamp)].
Definition receipt_core_of (r : EventReceipt) : json :=
  receipt_core (er_observation_hash r) (er_previous_hash r) (er_event_type r) (er_subject_id r) (er_subject_type r) (er_timestamp r).

Definition GENESIS_HASH : pystr := replicate 64 48%N.

Record EventLog : Type := mkEventLog {
  el_observations : list EventObservation;
  el_receipts : list EventReceipt;
  el_tick : nat
}.

Definition EventLog_new : EventLog := mkEventLog [] [] 0.

Section log.
Context (clock : nat → json).

Definition read_clock : SM EventLog json := λ l,
  (Ok (clock (el_tick l)), mkEventLog (el_observations l) (el_receipts l) (S (el_tick l))).

(** [now = self._clock(); if type(now) is not int: raise] *)
Definition clock_int : SM EventLog Z :=
  t ← read_clock;
  match t with JInt z => mret z | _ => sm_raise (ContractError "clock must return integer time") end.

Definition last_hash (l : EventLog) : pystr := match last (el_receipts l) with Some r => er_receipt_hash r | None => GENESIS_HASH end.

Definition log_append (o : EventObservation) (r : EventReceipt) (l : EventLog) : EventLog :=
  mkEventLog (el_observations l ++ [o]) (el_receipts l ++ [r]) (el_tick l).

Definition record (event_type subject_id source_ip result subject_type : pystr) (details : dict json)
    (timestamp : option json) : SM EventLog (EventObservation * EventReceipt) :=
  ts ← match timestamp with None => read_clock | Some t => mret t end;
  ts ← match ts with JInt z => mret z | _ => sm_raise (ContractError "clock must return integer time") end;
  o ← sm_lift (EventObservation_init (mkEventObs event_type subject_id ts source_ip result subject_type details));
  oh ← sm_lift (digest (observation_payload o));
  l ← sm_get;
  rh ← sm_lift (digest (receipt_core oh (last_hash l) (eo_event_type o) (eo_subject_id o) (eo_subject_type o) (eo_timestamp o)));
  r ← sm_lift (EventReceipt_init (mkEventReceipt rh oh (last_hash l) (eo_event_type o) (eo_subject_id o) (eo_subject_type o) (eo_timestamp o)));
  _ ← sm_mod (log_append o r);
  mret (o, r).
End log.

(** The loop of [verify_chain] over the zipped lists. *)
Fixpoint verify_log_from (previous : pystr) (rows : list (EventObservation * EventReceipt)) : res bool :=
  match rows with
  | [] => Ok true
  | (o, r) :: rows =>
      oh ← digest (observation_payload o);
      if negb (bool_decide (er_observation_hash r = oh)) then Ok false
      else if negb (bool_decide (er_previous_hash r = previous)) then Ok false
      else rh ← digest (receipt_core_of r);
           if negb (bool_decide (er_receipt_hash r = rh)) then Ok false
           else verify_log_from (er_receipt_hash r) rows
  end.
Definition verify_log (l : EventLog) : res bool :=
  b ← verify_log_from GENESIS_HASH (zip (el_observations l) (el_receipts l));
  Ok ((b : bool) && (length (el_observations l) =? length (el_receipts l))%nat).
