(* ===== verification/IamLogFacts.v ===== *)
(** * The IAM event log is one verified, append-only chain *)

From Stdlib Require Import ZArith NArith Lia.
From S2P Require Import Prelude PyData Sha256 PyFloat Json JsonFacts Core CoreFacts Storage JsonPlain NetAddr IamEvents.

(** One link after [prev]. *)
Definition log_link (prev : pystr) (row : EventObservation * EventReceipt) : Prop :=
  digest (observation_payload row.1) = Ok (er_observation_hash row.2) ∧ er_previous_hash row.2 = prev ∧
  digest (receipt_core_of row.2) = Ok (er_receipt_hash row.2).

Definition rows_head (prev : pystr) (rows : list (EventObservation * EventReceipt)) : pystr :=
  match last rows with Some row => er_receipt_hash row.2 | None => prev end.

Lemma verify_log_cons prev row rows :
  verify_log_from prev (row :: rows) = Ok true ↔ log_link prev row ∧ verify_log_from (er_receipt_hash row.2) rows = Ok true.
Proof.
  destruct row as [o r]. cbn [verify_log_from fst snd]. unfold log_link. cbn [fst snd].
  destruct (digest (observation_payload o)) as [oh|]; cbn [mbind res_bind]; [|naive_solver].
  case_bool_decide; cbn [negb]; [|naive_solver]. case_bool_decide; cbn [negb]; [|naive_solver].
  destruct (digest (receipt_core_of r)) as [rh|]; cbn [mbind res_bind]; [|naive_solver].
  case_bool_decide; cbn [negb]; naive_solver.
Qed.

Lemma verify_log_snoc prev rows row :
  verify_log_from prev (rows ++ [row]) = Ok true ↔ verify_log_from prev rows = Ok true ∧ log_link (rows_head prev rows) row.
Proof.
  revert prev. induction rows as [|q rows IH]; intros prev; cbn [app].
  - rewrite verify_log_cons. cbn. unfold rows_head. cbn. tauto.
  - rewrite !verify_log_cons, IH. unfold rows_head. destruct rows as [|q' rows]; [cbn; tauto|].
    rewrite last_cons_cons. destruct (last (q' :: rows)) eqn:E; [tauto|by apply last_None in E].
Qed.

Definition log_rows (l : EventLog) : list (EventObservation * EventReceipt) := zip (el_observations l) (el_receipts l).

Record log_inv (l : EventLog) : Prop := {
  lg_length : length (el_observations l) = length (el_receipts l);
  lg_chain : verify_log_from GENESIS_HASH (log_rows l) = Ok true
}.

Lemma log_inv_verifies l : log_inv l ↔ verify_log l = Ok true.
Proof.
  unfold verify_log. fold (log_rows l). split.
  - intros [H1 H2]. rewrite H2. cbn. by rewrite H1, Nat.eqb_refl.
  - intros H. apply bind_Ok in H as (b & Hb & [= Hc]). apply andb_true_iff in Hc as [-> Hl]. apply Nat.eqb_eq in Hl. by constructor.
Qed.

Lemma last_hash_rows l : log_inv l → last_hash l = rows_head GENESIS_HASH (log_rows l).
Proof.
  intros [H _]. unfold last_hash, rows_head, log_rows. destruct (el_receipts l) as [|r rs _] using rev_ind.
  - destruct (el_observations l); done.
  - rewrite length_app in H. destruct (el_observations l) as [|o os _] using rev_ind; [cbn in H; lia|]. rewrite length_app in H. cbn in H.
    rewrite zip_with_app by lia. cbn. by rewrite !last_snoc.
Qed.

Lemma zip_snoc {A B} (l : list A) (k : list B) a b : length l = length k → zip (l ++ [a]) (k ++ [b]) = zip l k ++ [(a, b)].
Proof. intros H. by rewrite zip_with_app. Qed.

(** Later logs extend earlier ones. *)
Record log_le (l l' : EventLog) : Prop := {
  ll_observations : el_observations l `prefix_of` el_observations l';
  ll_receipts : el_receipts l `prefix_of` el_receipts l';
  ll_tick : el_tick l ≤ el_tick l'
}.
#[export] Instance log_le_preorder : PreOrder log_le.
Proof.
  split; [by constructor|]. intros a b c [? ? ?] [? ? ?]. constructor; [by etrans|by etrans|lia].
Qed.

Section record.
Context (clock : nat → json).

Lemma record_spec ev subj ip result st details ts l :
  match record clock ev subj ip result st details ts l with
  | (Ok (o, r), l') =>
      EventObservation_init o = Ok o ∧ eo_event_type o = ev ∧ eo_subject_id o = subj ∧ eo_source_ip o = ip ∧ eo_result o = result ∧
      eo_subject_type o = st ∧ eo_details o = details ∧ log_link (last_hash l) (o, r) ∧
      el_observations l' = el_observations l ++ [o] ∧ el_receipts l' = el_receipts l ++ [r] ∧ el_tick l ≤ el_tick l'
  | (Raise _, l') => el_observations l' = el_observations l ∧ el_receipts l' = el_receipts l ∧ el_tick l ≤ el_tick l'
  end.
Proof.
  destruct (record clock ev subj ip result st details ts l) as [[[o r]|e] l'] eqn:E; unfold record in E.
  - apply sm_bind_Ok in E as (t & l1 & E1 & E).
    assert (el_observations l1 = el_observations l ∧ el_receipts l1 = el_receipts l ∧ el_tick l ≤ el_tick l1) as (A1 & A2 & A3).
    { destruct ts; [by injection E1 as <- <-|]. injection E1 as <- <-. cbn. split_and!; [done..|lia]. }
    apply sm_bind_Ok in E as (z & l2 & E2 & E). assert (l2 = l1) as -> by (destruct t; inversion E2; done).
    apply sm_bind_Ok in E as (o' & l3 & [Ho ->]%sm_lift_Ok & E). apply sm_bind_Ok in E as (oh & l3 & [Hoh ->]%sm_lift_Ok & E).
    apply sm_bind_Ok in E as (l0 & l3 & Eg & E). injection Eg as <- <-.
    apply sm_bind_Ok in E as (rh & l3 & [Hrh ->]%sm_lift_Ok & E). apply sm_bind_Ok in E as (r' & l3 & [Hr ->]%sm_lift_Ok & E).
    apply sm_bind_Ok in E as (u & l3 & Em & E). injection Em as _ <-. injection E as <- <- <-.
    pose proof Ho as Ho'. unfold EventObservation_init in Ho. pass_guard Ho. apply bind_Ok in Ho as (? & _ & Ho). apply bind_Ok in Ho as (? & _ & Ho).
    do 2 (pass_guard Ho). apply bind_Ok in Ho as (? & _ & [= <-]). unfold EventReceipt_init in Hr. pass_guard Hr. injection Hr as <-.
    cbn. split_and!; try done; [|by rewrite A1|by rewrite A2]. unfold log_link. cbn.
    unfold last_hash in *. rewrite A2 in *. by split_and!.
  - assert (preserves (λ l', el_observations l' = el_observations l ∧ el_receipts l' = el_receipts l ∧ el_tick l ≤ el_tick l') (read_clock clock)) as Hr.
    { intros l1 (? & ? & ?). cbn. split_and!; [done..|lia]. }
    apply sm_bind_Raise in E as [E|(t & l1 & E1 & E)].
    { destruct ts; [done|]. done. }
    assert (el_observations l1 = el_observations l ∧ el_receipts l1 = el_receipts l ∧ el_tick l ≤ el_tick l1) as A.
    { destruct ts; [by injection E1 as <- <-|]. injection E1 as <- <-. cbn. split_and!; [done..|lia]. }
    apply sm_bind_Raise in E as [E|(z & l2 & E2 & E)]; [by destruct t; inversion E; subst|].
    assert (l2 = l1) as -> by (destruct t; inversion E2; done).
    repeat (apply sm_bind_Raise in E as [E|(? & ? & ? & E)];
      [by inversion E; subst|match goal with H : sm_lift _ _ = _ |- _ => apply sm_lift_Ok in H as [? ->] | H : sm_get _ = _ |- _ => injection H as <- <- end]).
    apply sm_bind_Raise in E as [E|(? & ? & ? & E)]; done.
Qed.

Lemma record_inv ev subj ip result st details ts l :
  log_inv l → log_inv (record clock ev subj ip result st details ts l).2 ∧ log_le l (record clock ev subj ip result st details ts l).2.
Proof.
  intros Hl. pose proof (record_spec ev subj ip result st details ts l) as H.
  destruct (record clock ev subj ip result st details ts l) as [[[o r]|e] l']; cbn [snd].
  - destruct H as (_ & _ & _ & _ & _ & _ & _ & Hlink & Eo & Er & Ht). rewrite (last_hash_rows l Hl) in Hlink.
    destruct Hl as [H1 H2]. split.
    + constructor; [rewrite Eo, Er, !length_app, H1; done|]. unfold log_rows. rewrite Eo, Er, zip_snoc by done.
      by apply verify_log_snoc.
    + constructor; [rewrite Eo; by apply prefix_app_r|rewrite Er; by apply prefix_app_r|done].
  - destruct H as (Eo & Er & Ht). split; [|by constructor; rewrite ?Eo, ?Er]. destruct Hl as [H1 H2]. constructor; [by rewrite Eo, Er|].
    unfold log_rows. by rewrite Eo, Er.
Qed.
End record.

(** ** Tampering *)
Definition row_plain (row : EventObservation * EventReceipt) : Prop := plain (JDict (eo_details row.1)).

Definition rows_collide (rows rows' : list (EventObservation * EventReceipt)) : Prop :=
  ∃ a b, a ∈ rows ∧ b ∈ rows' ∧
    (json_collide (observation_payload a.1) (observation_payload b.1) ∨ json_collide (receipt_core_of a.2) (receipt_core_of b.2)).

Definition same_row (a b : EventObservation * EventReceipt) : Prop :=
  sort_json (observation_payload a.1) = sort_json (observation_payload b.1) ∧ a.2 = b.2.

Lemma plain_core r : plain (receipt_core_of r).
Proof. unfold receipt_core_of, receipt_core. plain_obj. Qed.
Lemma plain_event_payload o : plain (JDict (eo_details o)) → plain (observation_payload o).
Proof. intros H. unfold observation_payload. plain_obj; done. Qed.

Lemma core_inj r r' : sort_json (receipt_core_of r) = sort_json (receipt_core_of r') → er_receipt_hash r = er_receipt_hash r' → r = r'.
Proof.
  assert (∀ q, sort_json (receipt_core_of q) = JDict
    [(str "event_type", JStr (er_event_type q)); (str "observation_hash", JStr (er_observation_hash q)); (str "previous_hash", JStr (er_previous_hash q));
     (str "schema", JStr RECEIPT_SCHEMA); (str "subject_id", JStr (er_subject_id q)); (str "subject_type", JStr (er_subject_type q));
     (str "timestamp", JInt (er_timestamp q))]) as Hc by (intros q; reflexivity).
  intros H Hh. rewrite !Hc in H. injection H. destruct r, r'. cbn in *. intros. by subst.
Qed.

Lemma log_determined prev rows rows' :
  Forall row_plain rows → Forall row_plain rows' → length rows = length rows' →
  verify_log_from prev rows = Ok true → verify_log_from prev rows' = Ok true → rows_head prev rows = rows_head prev rows' →
  Forall2 same_row rows rows' ∨ rows_collide rows rows'.
Proof.
  revert rows'. induction rows as [|a rows IH] using rev_ind; intros rows' Hp Hp' Hl H H' Eh; destruct rows' as [|b rows' _] using rev_ind;
    rewrite ?length_app in Hl; cbn in Hl; [left; constructor|lia|lia|].
  apply verify_log_snoc in H as (H & L1 & L2 & L3). apply verify_log_snoc in H' as (H' & L1' & L2' & L3').
  apply Forall_app in Hp as [Hp [Ha _]%Forall_cons_1]. apply Forall_app in Hp' as [Hp' [Hb _]%Forall_cons_1].
  unfold rows_head in Eh. rewrite !last_snoc in Eh. rewrite <- Eh in L3'.
  destruct (plain_digest _ _ _ (plain_core a.2) (plain_core b.2) L3 L3') as [Es|Hc].
  2:{ right. exists a, b. split_and!; [apply elem_of_app; right; left..|by right]. }
  apply core_inj in Es; [|done]. rewrite <- Es in L1', L2'.
  destruct (plain_digest _ _ _ (plain_event_payload _ Ha) (plain_event_payload _ Hb) L1 L1') as [Eo|Hc].
  2:{ right. exists a, b. split_and!; [apply elem_of_app; right; left..|by left]. }
  destruct (IH rows') as [Hall|(x & y & Hx & Hy & Hc)]; try done; [lia|congruence| |].
  - left. apply Forall2_app; [done|]. by repeat constructor.
  - right. exists x, y. split_and!; [apply elem_of_app; by left..|done].
Qed.
