(* ===== verification/IamAccess.v ===== *)
(** * Roles and attribute policies (residual/iam/rbac.py, residual/iam/abac.py)

    Role-based permissions with their registry, and attribute-based policies
    combined so that a denial overrides.  Attribute values come from an identity
    provider and are JSON; a frozenset of permissions is a list, of which only
    membership is used. *)

From Stdlib Require Import ZArith NArith Lia SpecFloat.
From S2P Require Import Prelude PyData Sha256 PyFloat Json JsonFacts Core CoreFacts Builtins NetAddr IamEvents.

(** ** Permissions and roles *)
Definition PERMISSION_CATEGORIES : list pystr :=
  str <$> ["task_type"; "swarm_participation"; "hitl_approval"; "receipt_visibility"; "module_installation"; "policy_modification"].
Definition WILDCARD : pystr := str "*".

Definition check_category (category : pystr) : res unit :=
  when negb (bool_decide (category ∈ PERMISSION_CATEGORIES)) raise ContractError "unknown permission category";; Ok tt.

Record Permission : Type := mkPermission { pm_category : pystr; pm_scope : pystr }.
#[export] Instance Permission_eq_dec : EqDecision Permission.
Proof. solve_decision. Defined.

Definition Permission_init (p : Permission) : res Permission :=
  _ ← check_category (pm_category p);
  when blank (pm_scope p) raise ContractError "permission scope must be a non-empty string";;
  Ok p.

Definition grants (p : Permission) (category scope : pystr) : bool :=
  if negb (bool_decide (pm_category p = category)) then false
  else bool_decide (pm_scope p = WILDCARD) || bool_decide (pm_scope p = scope).

Record Role : Type := mkRole { ro_name : pystr; ro_permissions : list Permission; ro_description : pystr }.
Definition Role_init (r : Role) : res Role := _ ← identifier (ro_name r); Ok r.
Definition role_grants (r : Role) (category scope : pystr) : bool := existsb (λ p, grants p category scope) (ro_permissions r).

Record RoleRegistry : Type := mkRegistry { rr_roles : dict Role; rr_assignments : dict (gset pystr) }.
Definition RoleRegistry_new : RoleRegistry := mkRegistry [] [].

Definition define_role (r : Role) (g : RoleRegistry) : RoleRegistry := mkRegistry (dset (ro_name r) r (rr_roles g)) (rr_assignments g).
Definition get_role (name : pystr) (g : RoleRegistry) : res Role := of_option (ContractError "unknown role") (dget name (rr_roles g)).

Definition assigned (subject_id : pystr) (g : RoleRegistry) : gset pystr := default ∅ (dget subject_id (rr_assignments g)).

Definition assign (subject_id role_name : pystr) (g : RoleRegistry) : res RoleRegistry :=
  _ ← subject_identifier subject_id;
  _ ← get_role role_name g;
  Ok (mkRegistry (rr_roles g) (dset subject_id ({[role_name]} ∪ assigned subject_id g) (rr_assignments g))).

(** [.get(subject_id, set()).discard(role_name)]: an absent subject stays absent. *)
Definition unassign (subject_id role_name : pystr) (g : RoleRegistry) : res RoleRegistry :=
  _ ← subject_identifier subject_id;
  Ok (match dget subject_id (rr_assignments g) with
      | Some names => mkRegistry (rr_roles g) (dset subject_id (names ∖ {[role_name]}) (rr_assignments g))
      | None => g
      end).

Definition roles_for (subject_id : pystr) (g : RoleRegistry) : res (list Role) :=
  _ ← subject_identifier subject_id;
  Ok (omap (λ name, dget name (rr_roles g)) (sort_str (elements (assigned subject_id g)))).

Definition rbac_allowed (subject_id category scope : pystr) (g : RoleRegistry) : res bool :=
  _ ← check_category category;
  roles ← roles_for subject_id g;
  Ok (existsb (λ r, role_grants r category scope) roles).

(** ** Attributes *)
Record UserAttributes : Type := mkAttributes {
  ua_department : json;
  ua_region : json;
  ua_clearance_level : option Z;
  ua_employment_status : json;
  ua_custom : dict json
}.

Definition UserAttributes_init (department region clearance_level employment_status : json) (custom : dict json) : res UserAttributes :=
  c ← match clearance_level with
      | JNull => Ok None
      | JInt z => when (z <? 0)%Z raise ContractError "clearance_level must be a nonnegative integer";; Ok (Some z)
      | _ => Raise (ContractError "clearance_level must be a nonnegative integer")
      end;
  _ ← canonical (JDict custom);
  Ok (mkAttributes department region c employment_status custom).

(** [int(f)] of a finite float *)
Definition float_trunc (s : bool) (m : positive) (e : Z) : Z :=
  cond_Zopp s (if (0 <=? e)%Z then Z.pos m * 2 ^ e else Z.pos m / 2 ^ (- e))%Z.

(** [int(value)] *)
Definition py_int_of (v : json) : res Z :=
  match v with
  | JInt z => Ok z
  | JBool b => Ok (Z.b2z b)
  | JFloat (S754_zero _) => Ok 0%Z
  | JFloat (S754_finite s m e) => Ok (float_trunc s m e)
  | JFloat (S754_infinity _) => Raise (OtherError "OverflowError: cannot convert float infinity to integer")
  | JFloat S754_nan => Raise (ValueError "cannot convert float NaN to integer")
  | JStr s => py_int s
  | _ => Raise (TypeError "int() argument")
  end.

Definition KNOWN_ATTRIBUTES : list pystr := str <$> ["department"; "region"; "clearance_level"; "employment_status"].

Definition from_idp (attributes : dict json) : res UserAttributes :=
  let get k := dget (str k) attributes in
  let custom := filter (λ kv : pystr * json, kv.1 ∉ KNOWN_ATTRIBUTES) attributes in
  clearance ← match get "clearance_level" with
              | None => Ok JNull
              | Some v => match py_int_of v with
                          | Ok z => Ok (JInt z)
                          | Raise (ValueError _ | TypeError _) => Raise (ContractError "clearance_level must be an integer")
                          | Raise e => Raise e
                          end
              end;
  UserAttributes_init (default JNull (get "department")) (default JNull (get "region")) clearance
    (default JNull (get "employment_status")) custom.

Definition opt_int (o : option Z) : json := match o with Some z => JInt z | None => JNull end.

Definition attr_get (a : UserAttributes) (attribute : pystr) : json :=
  if bool_decide (attribute = str "department") then ua_department a
  else if bool_decide (attribute = str "region") then ua_region a
  else if bool_decide (attribute = str "clearance_level") then opt_int (ua_clearance_level a)
  else if bool_decide (attribute = str "employment_status") then ua_employment_status a
  else default JNull (dget attribute (ua_custom a)).

(** ** Conditions and policies *)
Inductive Operator : Type := OpEq | OpNeq | OpIn | OpGte | OpLte | OpContains.
Record Condition : Type := mkCondition { cn_attribute : pystr; cn_operator : Operator; cn_value : json }.

Definition operator_of (s : pystr) : option Operator :=
  snd <$> List.find (λ kv : pystr * Operator, bool_decide (kv.1 = s))
    [(str "eq", OpEq); (str "neq", OpNeq); (str "in", OpIn); (str "gte", OpGte); (str "lte", OpLte); (str "contains", OpContains)].

Definition Condition_init (attribute operator : pystr) (value : json) : res Condition :=
  when blank attribute raise ContractError "condition attribute is required";;
  op ← of_option (ContractError "unknown condition operator") (operator_of operator);
  _ ← canonical value;
  Ok (mkCondition attribute op value).

(** [needle in hay] on strings *)
Fixpoint is_substring (needle hay : pystr) : bool :=
  bool_decide (needle `prefix_of` hay) || match hay with [] => false | _ :: hay => is_substring needle hay end.

Definition strict_num (v : json) : option num := match v with JInt z => Some (NInt z) | JFloat f => Some (NFloat f) | _ => None end.

Definition cond_matches (c : Condition) (a : UserAttributes) : res bool :=
  let actual := attr_get a (cn_attribute c) in
  match actual with
  | JNull => Ok false
  | _ =>
      match cn_operator c with
      | OpEq => Ok (py_eq actual (cn_value c))
      | OpNeq => Ok (negb (py_eq actual (cn_value c)))
      | OpIn => Ok (match cn_value c with JList l => existsb (λ x, py_eq x actual) l | _ => false end)
      | OpContains =>
          match actual with
          | JList l => Ok (existsb (λ x, py_eq x (cn_value c)) l)
          | JStr s => match cn_value c with
                      | JStr t => Ok (is_substring t s)
                      | _ => Raise (TypeError "'in <string>' requires string as left operand")
                      end
          | _ => Ok false
          end
      | OpGte => Ok (match strict_num actual, strict_num (cn_value c) with Some x, Some y => num_leb y x | _, _ => false end)
      | OpLte => Ok (match strict_num actual, strict_num (cn_value c) with Some x, Some y => num_leb x y | _, _ => false end)
      end
  end.

Inductive Effect : Type := ALLOW | DENY.
#[export] Instance Effect_eq_dec : EqDecision Effect.
Proof. solve_decision. Defined.

Record ABACPolicy : Type := mkPolicy {
  po_name : pystr;
  po_effect : Effect;
  po_category : pystr;
  po_conditions : list Condition;
  po_scope : pystr
}.

Definition ABACPolicy_init (name effect category : pystr) (conditions : list Condition) (scope : pystr) : res ABACPolicy :=
  _ ← identifier name;
  ef ← (if bool_decide (effect = str "allow") then Ok ALLOW
        else if bool_decide (effect = str "deny") then Ok DENY
        else Raise (ContractError "policy effect must be 'allow' or 'deny'"));
  _ ← check_category category;
  when blank scope raise ContractError "policy scope must be a non-empty string";;
  Ok (mkPolicy name ef category conditions scope).

Definition applies (p : ABACPolicy) (a : UserAttributes) (category scope : pystr) : res bool :=
  if negb (bool_decide (po_category p = category)) then Ok false
  else if negb (bool_decide (po_scope p = WILDCARD)) && negb (bool_decide (po_scope p = scope)) then Ok false
  else all_res (λ c, cond_matches c a) (po_conditions p).

Record ABACDecision : Type := mkDecision { ad_allowed : bool; ad_matched_allow : list pystr; ad_matched_deny : list pystr }.

Definition ABACEvaluator_init (policies : list ABACPolicy) : res (list ABACPolicy) :=
  when negb (bool_decide (NoDup (po_name <$> policies))) raise ContractError "duplicate policy names";;
  Ok policies.

Definition add_policy (policy : ABACPolicy) (policies : list ABACPolicy) : res (list ABACPolicy) :=
  when bool_decide (po_name policy ∈ po_name <$> policies) raise ContractError "duplicate policy name";;
  Ok (policies ++ [policy]).

(** The loop of [evaluate]. *)
Fixpoint matched (policies : list ABACPolicy) (a : UserAttributes) (category scope : pystr) (allow deny : list pystr) : res (list pystr * list pystr) :=
  match policies with
  | [] => Ok (allow, deny)
  | p :: policies =>
      b ← applies p a category scope;
      if negb b then matched policies a category scope allow deny
      else match po_effect p with
           | ALLOW => matched policies a category scope (allow ++ [po_name p]) deny
           | DENY => matched policies a category scope allow (deny ++ [po_name p])
           end
  end.

Definition evaluate (policies : list ABACPolicy) (a : UserAttributes) (category scope : pystr) : res ABACDecision :=
  _ ← check_category category;
  '(allow, deny) ← matched policies a category scope [] [];
  Ok (mkDecision (bool_decide (deny = []) && negb (bool_decide (allow = []))) allow deny).
