(* ===== verification/Totp.v ===== *)
(** * One-time passwords (residual/iam/mfa.py)

    SHA-1 and HMAC of the standard library, executable and checked on published
    vectors, and the RFC 6238 codes built on them. *)

From Stdlib Require Import ZArith NArith Lia SpecFloat.
From S2P Require Import Prelude PyData Sha256 PyFloat Json Core Builtins.

(** ** SHA-1 over octets *)
Section sha1.
#[local] Open Scope N_scope.

Definition rotl (n x : N) : N := rotr (32 - n) x.

Definition sha1_f (t : nat) (b c d : N) : N :=
  if (t <? 20)%nat then choose b c d
  else if (t <? 40)%nat then N.lxor b (N.lxor c d)
  else if (t <? 60)%nat then majority b c d
  else N.lxor b (N.lxor c d).
Definition sha1_k (t : nat) : N :=
  if (t <? 20)%nat then 1518500249 else if (t <? 40)%nat then 1859775393 else if (t <? 60)%nat then 2400959708 else 3395469782.

Record words5 : Type := W5 { v_a : N; v_b : N; v_c : N; v_d : N; v_e : N }.

Definition sha1_step (t : nat) (w : N) (h : words5) : words5 :=
  let temp := add32 (rotl 5 (v_a h)) (add32 (sha1_f t (v_b h) (v_c h) (v_d h)) (add32 (v_e h) (add32 (sha1_k t) w))) in
  W5 temp (v_a h) (rotl 30 (v_b h)) (v_c h) (v_d h).

(** Rounds over a sliding window of sixteen schedule words. *)
Fixpoint sha1_rounds (ts : list nat) (window : list N) (h : words5) : words5 :=
  match ts, window with
  | t :: ts, w0 :: rest =>
      let next := rotl 1 (N.lxor (nth 13 window 0) (N.lxor (nth 8 window 0) (N.lxor (nth 2 window 0) w0))) in
      sha1_rounds ts (rest ++ [next]) (sha1_step t w0 h)
  | _, _ => h
  end.

Fixpoint sha1_blocks (fuel : nat) (ws : list N) (h : words5) : words5 :=
  match fuel, ws with
  | S fuel, _ :: _ =>
      let k := sha1_rounds (seq 0 80) (take 16 ws) h in
      sha1_blocks fuel (drop 16 ws)
        (W5 (add32 (v_a h) (v_a k)) (add32 (v_b h) (v_b k)) (add32 (v_c h) (v_c k)) (add32 (v_d h) (v_d k)) (add32 (v_e h) (v_e k)))
  | _, _ => h
  end.

(** [hashlib.sha1(msg).digest()] *)
Definition sha1 (msg : list N) : list N :=
  let ws := be_words (padded msg) in
  let h := sha1_blocks (S (length ws / 16)) ws (W5 1732584193 4023233417 2562383102 271733878 3285377520) in
  mjoin (be_octets 4 <$> [v_a h; v_b h; v_c h; v_d h; v_e h]).

(** [hmac.new(key, msg, hashlib.sha1).digest()] *)
Definition hmac_sha1 (key msg : list N) : list N :=
  let k := if (64 <? length key)%nat then sha1 key else key in
  let k := k ++ replicate (64 - length k) 0 in
  sha1 ((N.lxor 92 <$> k) ++ sha1 ((N.lxor 54 <$> k) ++ msg)).
End sha1.

Example sha1_abc : sha1 (str "abc") = [169; 153; 62; 54; 71; 6; 129; 106; 186; 62; 37; 113; 120; 80; 194; 108; 156; 208; 216; 157]%N.
Proof. vm_compute. reflexivity. Qed.
Example hmac_sha1_rfc2202 :
  hmac_sha1 (str "Jefe") (str "what do ya want for nothing?")
  = [239; 252; 223; 106; 229; 235; 47; 162; 210; 116; 22; 213; 241; 132; 223; 156; 37; 154; 124; 121]%N.
Proof. vm_compute. reflexivity. Qed.

(** ** Codes *)
(** [s.zfill(n)] of digits *)
Definition zfill (n : nat) (s : pystr) : pystr := replicate (n - length s) 48%N ++ s.

(** The four octets at [offset], and the 31-bit number they are. *)
Definition truncate_digest (d : list N) : Z :=
  let offset := N.to_nat (N.land (default 0%N (last d)) 15) in
  match be_words (take 4 (drop offset d)) with
  | w :: _ => Z.land (Z.of_N w) 2147483647
  | [] => 0
  end.

Definition generate_totp (secret : list N) (at_ period digits : Z) : res pystr :=
  when bool_decide (secret = []) raise ContractError "totp secret must be non-empty bytes";;
  when (at_ <? 0)%Z raise ContractError "totp time must be a nonnegative integer";;
  when (period <? 1)%Z || negb ((6 <=? digits)%Z && (digits <=? 8)%Z) raise ContractError "invalid totp period/digits";;
  let counter := (at_ / period)%Z in
  when (2 ^ 64 <=? counter)%Z raise OtherError "struct.error: int too large to convert";;
  let d := hmac_sha1 secret (be_octets 8 (Z.to_N counter)) in
  Ok (zfill (Z.to_nat digits) (str_of_Z (truncate_digest d mod 10 ^ digits))).

Example totp_rfc6238 :
  (λ t, generate_totp (str "12345678901234567890") t 30 8) <$> [59; 1111111109; 1234567890; 20000000000]%Z
  = (λ s, Ok (str s)) <$> ["94287082"; "07081804"; "89005924"; "65353130"].
Proof. vm_compute. reflexivity. Qed.

(** [c.isdigit()]: decimal digits, and the other characters Unicode calls digits. *)
Definition digit_ranges : list (N * N) :=
  [(178, 179); (185, 185); (4969, 4977); (6618, 6618); (8304, 8304); (8308, 8313); (8320, 8329); (9312, 9320); (9332, 9340); (9352, 9360);
   (9450, 9450); (9461, 9469); (9471, 9471); (10102, 10110); (10112, 10120); (10122, 10130); (68160, 68163); (69216, 69224); (69714, 69722);
   (127232, 127242)]%N.
Definition isdigit_char (c : N) : bool :=
  match decimal_digit c with Some _ => true | None => existsb (λ r : N * N, in_range r.1 r.2 c) digit_ranges end.
Definition isdigit (s : pystr) : bool := negb (bool_decide (s = [])) && forallb isdigit_char s.
Definition isascii (s : pystr) : bool := forallb (λ c, (c <? 128)%N) s.

(** [hmac.compare_digest] on strings *)
Definition compare_digest (s t : pystr) : res bool :=
  when negb (isascii s && isascii t) raise TypeError "comparing strings with non-ASCII characters is not supported";;
  Ok (bool_decide (s = t)).

(** [at + drift * period]; the code's time may be any number. *)
Definition totp_step (at_ : json) (shift : Z) : res (Z + float) :=
  match at_ with
  | JInt z => Ok (inl (z + shift)%Z)
  | JBool b => Ok (inl (Z.b2z b + shift)%Z)
  | JFloat f => Ok (inr (fadd f (float_of_Z shift)))
  | _ => Raise (TypeError "unsupported operand type(s) for +")
  end.

Fixpoint totp_loop (secret : list N) (code : pystr) (at_ : json) (period digits : Z) (drifts : list Z) : res bool :=
  match drifts with
  | [] => Ok false
  | drift :: drifts =>
      step ← totp_step at_ (drift * period);
      match step with
      | inl z =>
          if (z <? 0)%Z then totp_loop secret code at_ period digits drifts
          else c ← generate_totp secret z period digits;
               b ← compare_digest c code;
               if (b : bool) then Ok true else totp_loop secret code at_ period digits drifts
      | inr f =>
          if num_ltb (NFloat f) (NInt 0) then totp_loop secret code at_ period digits drifts
          else when bool_decide (secret = []) raise ContractError "totp secret must be non-empty bytes";;
               Raise (ContractError "totp time must be a nonnegative integer")
      end
  end.

(** [range(-window, window + 1)] *)
Definition drift_range (window : Z) : list Z := (λ i, Z.of_nat i - window)%Z <$> seq 0 (Z.to_nat (2 * window + 1)).

Definition verify_totp (secret : list N) (code : pystr) (at_ : json) (period digits window : Z) : res bool :=
  if negb (isdigit code) then Ok false
  else
    when (window <? 0)%Z raise ContractError "window must be a nonnegative integer";;
    totp_loop secret code at_ period digits (drift_range window).

(** ** What a verified code proves *)
Lemma totp_loop_true secret code t period digits drifts :
  totp_loop secret code (JInt t) period digits drifts = Ok true →
  ∃ k, k ∈ drifts ∧ (0 <= t + k * period)%Z ∧ generate_totp secret (t + k * period) period digits = Ok code.
Proof.
  induction drifts as [|k drifts IH]; cbn; [done|]. destruct (_ <? 0)%Z eqn:E.
  - intros H. destruct (IH H) as (j & Hj & ?). exists j. split; [by right|done].
  - destruct (generate_totp _ _ _ _) as [c|] eqn:Eg; cbn [mbind res_bind]; [|done]. unfold compare_digest.
    destruct (negb _); [done|]. cbn [mbind res_bind]. case_bool_decide as Ec.
    + intros _. exists k. subst c. split_and!; [left|lia|done].
    + intros H. destruct (IH H) as (j & Hj & ?). exists j. split; [by right|done].
Qed.

Lemma drift_range_elem window k : (0 <= window)%Z → k ∈ drift_range window ↔ (- window <= k <= window)%Z.
Proof.
  intros Hw. unfold drift_range. rewrite list_elem_of_fmap. split.
  - intros (i & -> & Hi). apply elem_of_seq in Hi. lia.
  - intros H. exists (Z.to_nat (k + window)). split; [lia|]. apply elem_of_seq. lia.
Qed.

(** The codes a fixed time accepts are those of the periods within the window. *)
Lemma verify_totp_true secret code t period digits window :
  verify_totp secret code (JInt t) period digits window = Ok true →
  isdigit code = true ∧ ∃ k, (- window <= k <= window)%Z ∧ (0 <= t + k * period)%Z ∧ generate_totp secret (t + k * period) period digits = Ok code.
Proof.
  unfold verify_totp. destruct (isdigit code); cbn [negb]; [|done]. destruct (window <? 0)%Z eqn:E; [done|]. cbn [mbind res_bind].
  intros (k & Hk & ? & ?)%totp_loop_true. split; [done|]. exists k. split_and!; [..|done|done]; apply drift_range_elem in Hk; lia.
Qed.

Lemma dec_digits_bound fuel n acc d : (0 <= n < 10 ^ Z.of_nat d)%Z → (0 < d)%nat → (length (dec_digits fuel n acc) <= d + length acc)%nat.
Proof.
  revert n acc d. induction fuel as [|fuel IH]; intros n acc d Hn Hd; cbn [dec_digits]; [lia|].
  destruct (n <? 10)%Z eqn:E; [cbn; lia|]. apply Z.ltb_ge in E. destruct d as [|[|d]]; [lia|cbn in Hn; lia|].
  etrans; [apply (IH _ _ (S d)); [|lia]|cbn; lia]. split; [apply Z.div_pos; lia|]. apply Z.div_lt_upper_bound; [lia|].
  rewrite <- Z.pow_succ_r by lia. replace (Z.succ (Z.of_nat (S d))) with (Z.of_nat (S (S d))) by lia. lia.
Qed.

(** A code has exactly [digits] characters. *)
Lemma generate_totp_length secret t period digits code :
  generate_totp secret t period digits = Ok code → length code = Z.to_nat digits ∧ (6 <= digits <= 8)%Z.
Proof.
  unfold generate_totp. intros H. do 4 (pass_guard H). bool_prop. injection H as <-. unfold zfill. rewrite length_app, length_replicate.
  assert (0 < 10 ^ digits)%Z as Hp by (apply Z.pow_pos_nonneg; lia).
  set (c := (truncate_digest _ mod _)%Z). assert (0 <= c < 10 ^ digits)%Z as Hc by (apply Z.mod_pos_bound; lia).
  assert (length (str_of_Z c) <= Z.to_nat digits)%nat as Hl; [|lia].
  unfold str_of_Z. destruct (c <? 0)%Z eqn:E0; [lia|]. unfold str_of_nonneg.
  etrans; [apply (dec_digits_bound _ _ _ (Z.to_nat digits)); [rewrite Z2Nat.id by lia; lia|lia]|cbn; lia].
Qed.
