(* ===== verification/Iam.v ===== *)
(** * Elevation, sessions, service accounts and MFA (residual/iam/jit.py, sessions.py, service_accounts.py, mfa.py)

    The managers over their shared event log and role registry, as one state;
    every method is a computation on it.  They are given one clock:
    [clock] is what its readings return and [token] the random tokens of [secrets], both by reading number. *)

From Stdlib Require Import ZArith NArith Lia.
From S2P Require Import Prelude PyData Sha256 PyFloat Json JsonFacts Core CoreFacts Builtins NetAddr IamEvents IamAccess Totp.

(** ** Data *)
Definition MAX_ELEVATION_SECONDS : Z := 24 * 3600.

Record ElevationRequest : Type := mkRequest {
  eq_request_id : pystr;
  eq_subject_id : pystr;
  eq_category : pystr;
  eq_scope : pystr;
  eq_reason : pystr;
  eq_duration_seconds : Z;
  eq_requested_at : Z;
  eq_task_id : option pystr
}.

Definition ElevationRequest_init (request_id subject_id category scope reason : pystr) (duration_seconds : json) (requested_at : Z)
    (task_id : option pystr) : res ElevationRequest :=
  _ ← identifier request_id;
  _ ← subject_identifier subject_id;
  _ ← check_category category;
  when blank scope raise ContractError "elevation scope must be a non-empty string";;
  when blank reason raise ContractError "elevation requires a reason";;
  d ← match duration_seconds with
      | JInt z => when negb ((0 <? z)%Z && (z <=? MAX_ELEVATION_SECONDS)%Z) raise ContractError "elevation duration out of range";; Ok z
      | _ => Raise (ContractError "elevation duration out of range")
      end;
  _ ← match task_id with Some t => _ ← identifier t; Ok tt | None => Ok tt end;
  Ok (mkRequest request_id subject_id category scope reason d requested_at task_id).

Record ElevationGrant : Type := mkGrant {
  eg_request : ElevationRequest;
  eg_approver_id : pystr;
  eg_granted_at : Z;
  eg_expires_at : Z
}.

(** [now] is what the clock returned. *)
Definition ElevationGrant_init (request : ElevationRequest) (approver_id : pystr) (now : json) : res ElevationGrant :=
  match now with
  | JInt z =>
      _ ← identifier approver_id;
      when (z + eq_duration_seconds request <=? z)%Z raise ContractError "grant must expire after it is granted";;
      Ok (mkGrant request approver_id z (z + eq_duration_seconds request))
  | JBool _ | JFloat _ => _ ← identifier approver_id; Raise (ContractError "grant times must be integers")
  | _ => Raise (TypeError "unsupported operand type(s) for +")
  end.

Definition is_active (g : ElevationGrant) (now : json) : res bool :=
  match as_num now with
  | Some x => Ok (num_leb (NInt (eg_granted_at g)) x && num_ltb x (NInt (eg_expires_at g)))
  | None => Raise (TypeError "'<=' not supported")
  end.

Record SessionPolicy : Type := mkSessionPolicy {
  sp_session_timeout : Z;
  sp_idle_timeout : Z;
  sp_max_concurrent : Z;
  sp_allowed_networks : list pystr
}.

Definition SessionPolicy_init (p : SessionPolicy) : res SessionPolicy :=
  when (sp_session_timeout p <? 1)%Z || (sp_idle_timeout p <? 1)%Z || (sp_max_concurrent p <? 1)%Z raise ContractError "must be a positive integer";;
  when (sp_session_timeout p <? sp_idle_timeout p)%Z raise ContractError "idle timeout cannot exceed session timeout";;
  when negb (forallb (λ c, bool_decide (is_Some (ip_network c))) (sp_allowed_networks p)) raise ContractError "invalid CIDR in allowed_networks";;
  Ok p.

Definition ip_allowed (p : SessionPolicy) (ip : pystr) : res bool :=
  match ip_address ip with
  | None => Raise (ContractError "invalid source IP address")
  | Some a =>
      Ok (bool_decide (sp_allowed_networks p = []) ||
          existsb (λ c, match ip_network c with Some n => in_network a n | None => false end) (sp_allowed_networks p))
  end.

Record Session : Type := mkSession {
  ss_session_id : pystr;
  ss_subject_id : pystr;
  ss_source_ip : pystr;
  ss_created_at : Z;
  ss_last_active_at : Z;
  ss_mfa_verified : bool;
  ss_subject_type : pystr
}.

Definition Session_init (s : Session) : res Session :=
  _ ← identifier (ss_session_id s);
  _ ← subject_identifier (ss_subject_id s);
  _ ← validate_ip (ss_source_ip s);
  when (ss_last_active_at s <? ss_created_at s)%Z raise ContractError "last activity precedes session creation";;
  Ok s.

Definition FORBIDDEN_SERVICE_PERMISSIONS : list pystr := str <$> ["module_installation"; "policy_modification"].

Record ServiceAccount : Type := mkAccount {
  sa_account_id : pystr;
  sa_name : pystr;
  sa_owner_id : pystr;
  sa_permissions : list Permission;
  sa_credential_generation : Z
}.

Definition ServiceAccount_init (a : ServiceAccount) : res ServiceAccount :=
  _ ← identifier (sa_account_id a);
  when blank (sa_name a) raise ContractError "service account name is required";;
  _ ← identifier (sa_owner_id a);
  when existsb (λ p, bool_decide (pm_category p ∈ FORBIDDEN_SERVICE_PERMISSIONS)) (sa_permissions a)
    raise ContractError "service accounts can never hold admin permissions";;
  when (sa_credential_generation a <? 1)%Z raise ContractError "credential generation must be a positive integer";;
  Ok a.

(** ** State *)
Record Jit : Type := mkJit {
  ji_approvers : gset pystr;
  ji_requests : dict ElevationRequest;
  ji_grants : list ElevationGrant;
  ji_denied : gset pystr
}.
Record Sessions : Type := mkSessions { sn_sessions : dict Session; sn_revoked : gset pystr }.
Record Accounts : Type := mkAccounts { ac_accounts : dict ServiceAccount; ac_credential_hashes : dict pystr }.

Record Iam : Type := mkIam {
  ia_log : EventLog;
  ia_roles : RoleRegistry;
  ia_jit : Jit;
  ia_sessions : Sessions;
  ia_accounts : Accounts;
  ia_mfa : dict json;
  ia_tokens : nat
}.

Definition Iam_new : Iam :=
  mkIam EventLog_new RoleRegistry_new (mkJit ∅ [] [] ∅) (mkSessions [] ∅) (mkAccounts [] []) [] 0.

Definition set_log (l : EventLog) (s : Iam) : Iam := mkIam l (ia_roles s) (ia_jit s) (ia_sessions s) (ia_accounts s) (ia_mfa s) (ia_tokens s).
Definition set_roles (r : RoleRegistry) (s : Iam) : Iam := mkIam (ia_log s) r (ia_jit s) (ia_sessions s) (ia_accounts s) (ia_mfa s) (ia_tokens s).
Definition set_jit (f : Jit → Jit) (s : Iam) : Iam := mkIam (ia_log s) (ia_roles s) (f (ia_jit s)) (ia_sessions s) (ia_accounts s) (ia_mfa s) (ia_tokens s).
Definition set_sessions (f : Sessions → Sessions) (s : Iam) : Iam :=
  mkIam (ia_log s) (ia_roles s) (ia_jit s) (f (ia_sessions s)) (ia_accounts s) (ia_mfa s) (ia_tokens s).
Definition set_accounts (f : Accounts → Accounts) (s : Iam) : Iam :=
  mkIam (ia_log s) (ia_roles s) (ia_jit s) (ia_sessions s) (f (ia_accounts s)) (ia_mfa s) (ia_tokens s).
Definition set_mfa (d : dict json) (s : Iam) : Iam := mkIam (ia_log s) (ia_roles s) (ia_jit s) (ia_sessions s) (ia_accounts s) d (ia_tokens s).

Section iam.
Context (clock : nat → json) (token : nat → pystr) (policy : SessionPolicy).
Abbreviation M := (SM Iam).

Definition with_log {A} (m : SM EventLog A) : M A := λ s, let '(r, l) := m (ia_log s) in (r, set_log l s).
Definition with_roles (f : RoleRegistry → res RoleRegistry) : M unit :=
  s ← sm_get; r ← sm_lift (f (ia_roles s)); sm_mod (set_roles r).

Definition now_raw : M json := with_log (read_clock clock).
Definition now_int : M Z := with_log (clock_int clock).
Definition new_token : M pystr := λ s,
  (Ok (token (ia_tokens s)), mkIam (ia_log s) (ia_roles s) (ia_jit s) (ia_sessions s) (ia_accounts s) (ia_mfa s) (S (ia_tokens s))).
Definition log_event (event_type subject_id source_ip result subject_type : pystr) (details : list (string * json)) : M unit :=
  _ ← with_log (record clock event_type subject_id source_ip result subject_type ((λ kv, (str kv.1, kv.2)) <$> details) None); mret tt.

(** ** JITManager *)
Definition add_approver (approver_id : pystr) : M unit :=
  _ ← sm_lift (identifier approver_id);
  sm_mod (set_jit (λ j, mkJit ({[approver_id]} ∪ ji_approvers j) (ji_requests j) (ji_grants j) (ji_denied j))).

Definition request_elevation (subject_id category scope reason : pystr) (duration_seconds : json) (task_id : option pystr) : M ElevationRequest :=
  now ← now_int;
  tok ← new_token;
  r ← sm_lift (ElevationRequest_init (str "jit-" ++ tok) subject_id category scope reason duration_seconds now task_id);
  _ ← sm_mod (set_jit (λ j, mkJit (ji_approvers j) (dset (eq_request_id r) r (ji_requests j)) (ji_grants j) (ji_denied j)));
  mret r.

Definition pop_request (request_id : pystr) : Iam → Iam :=
  set_jit (λ j, mkJit (ji_approvers j) (ddel request_id (ji_requests j)) (ji_grants j) (ji_denied j)).

Definition approve (request_id approver_id source_ip : pystr) : M ElevationGrant :=
  _ ← sm_lift (identifier approver_id);
  s ← sm_get;
  match dget request_id (ji_requests (ia_jit s)) with
  | None => sm_raise (ContractError "unknown elevation request")
  | Some request =>
      _ ← sm_mod (pop_request request_id);
      if bool_decide (request_id ∈ ji_denied (ia_jit s)) then sm_raise (ContractError "elevation request already denied")
      else if negb (bool_decide (approver_id ∈ ji_approvers (ia_jit s))) || bool_decide (approver_id = eq_subject_id request) then
        _ ← log_event (str "access_denied") (eq_subject_id request) source_ip (str "deny") SUBJECT_HUMAN
              [("kind", JStr (str "jit_approval")); ("approver", JStr approver_id); ("category", JStr (eq_category request));
               ("scope", JStr (eq_scope request))];
        sm_raise (ContractError "approver is not designated for JIT pre-authorization")
      else
        now ← now_raw;
        grant ← sm_lift (ElevationGrant_init request approver_id now);
        _ ← sm_mod (set_jit (λ j, mkJit (ji_approvers j) (ji_requests j) (ji_grants j ++ [grant]) (ji_denied j)));
        _ ← log_event (str "permission_elevation") (eq_subject_id request) source_ip (str "allow") SUBJECT_HUMAN
              [("kind", JStr (str "jit_elevation")); ("approver", JStr approver_id); ("category", JStr (eq_category request));
               ("scope", JStr (eq_scope request)); ("task_id", json_opt_str (eq_task_id request)); ("expires_at", JInt (eg_expires_at grant));
               ("reason", JStr (eq_reason request))];
        mret grant
  end.

Definition deny (request_id approver_id source_ip : pystr) : M unit :=
  _ ← sm_lift (identifier approver_id);
  s ← sm_get;
  match dget request_id (ji_requests (ia_jit s)) with
  | None => sm_raise (ContractError "unknown elevation request")
  | Some request =>
      if bool_decide (request_id ∈ ji_denied (ia_jit s)) then sm_raise (ContractError "unknown elevation request")
      else
        _ ← sm_mod (pop_request request_id);
        _ ← sm_mod (set_jit (λ j, mkJit (ji_approvers j) (ji_requests j) (ji_grants j) ({[request_id]} ∪ ji_denied j)));
        log_event (str "access_denied") (eq_subject_id request) source_ip (str "deny") SUBJECT_HUMAN
          [("kind", JStr (str "jit_denied")); ("approver", JStr approver_id); ("category", JStr (eq_category request));
           ("scope", JStr (eq_scope request))]
  end.

(** The grants [is_elevated] compares with the clock. *)
Definition covers (subject_id category scope : pystr) (g : ElevationGrant) : bool :=
  bool_decide (eq_subject_id (eg_request g) = subject_id) && bool_decide (eq_category (eg_request g) = category)
  && (bool_decide (eq_scope (eg_request g) = WILDCARD) || bool_decide (eq_scope (eg_request g) = scope)).

Definition is_elevated (subject_id category scope : pystr) : M bool :=
  _ ← sm_lift (subject_identifier subject_id);
  _ ← sm_lift (check_category category);
  now ← now_raw;
  s ← sm_get;
  sm_lift (any_res (λ g, is_active g now) (filter (λ g, covers subject_id category scope g = true) (ji_grants (ia_jit s)))).

Definition active_grants (subject_id : pystr) : M (list ElevationGrant) :=
  _ ← sm_lift (subject_identifier subject_id);
  now ← now_raw;
  s ← sm_get;
  gs ← sm_lift (mapM (λ g, b ← is_active g now; Ok (if (b : bool) then [g] else []))
                  (filter (λ g, eq_subject_id (eg_request g) = subject_id) (ji_grants (ia_jit s))));
  mret (mjoin gs).

Definition is_allowed (subject_id category scope : pystr) : M bool :=
  s ← sm_get;
  b ← sm_lift (rbac_allowed subject_id category scope (ia_roles s));
  if (b : bool) then mret true else is_elevated subject_id category scope.

(** ** SessionManager *)
Definition within_timeouts (s : Session) (now : Z) : bool :=
  (now <? ss_created_at s + sp_session_timeout policy)%Z && (now <? ss_last_active_at s + sp_idle_timeout policy)%Z.

Definition live (subject_id : pystr) (now : Z) (n : Sessions) (s : Session) : bool :=
  bool_decide (ss_subject_id s = subject_id) && negb (bool_decide (ss_session_id s ∈ sn_revoked n)) && within_timeouts s now.

Definition active_for (subject_id : pystr) : M (list Session) :=
  now ← now_int;
  s ← sm_get;
  mret (filter (λ x, live subject_id now (ia_sessions s) x = true) (sn_sessions (ia_sessions s)).*2).

Definition create_session (subject_id source_ip : pystr) (mfa_verified : bool) (subject_type : pystr) : M Session :=
  _ ← sm_lift (subject_identifier subject_id);
  _ ← sm_lift (validate_ip source_ip);
  ok ← sm_lift (ip_allowed policy source_ip);
  if negb ok then
    _ ← log_event (str "access_denied") subject_id source_ip (str "deny") subject_type [("kind", JStr (str "ip_restriction"))];
    sm_raise (ContractError "source IP is not allowed by session policy")
  else
    l ← active_for subject_id;
    if (sp_max_concurrent policy <=? Z.of_nat (length l))%Z then
      _ ← log_event (str "access_denied") subject_id source_ip (str "deny") subject_type [("kind", JStr (str "concurrent_limit"))];
      sm_raise (ContractError "concurrent session limit reached")
    else
      now ← now_int;
      tok ← new_token;
      x ← sm_lift (Session_init (mkSession (str "sess-" ++ tok) subject_id source_ip now now mfa_verified subject_type));
      _ ← sm_mod (set_sessions (λ n, mkSessions (dset (ss_session_id x) x (sn_sessions n)) (sn_revoked n)));
      _ ← log_event (str "login") subject_id source_ip (str "allow") subject_type
            [("session_id", JStr (ss_session_id x)); ("mfa", JBool mfa_verified)];
      mret x.

Definition validate (session_id : pystr) (source_ip : option pystr) : M Session :=
  _ ← sm_lift (identifier session_id);
  s ← sm_get;
  match dget session_id (sn_sessions (ia_sessions s)) with
  | None => sm_raise (ContractError "unknown session")
  | Some x =>
      if bool_decide (session_id ∈ sn_revoked (ia_sessions s)) then sm_raise (ContractError "session has been revoked")
      else
        now ← now_int;
        if negb (within_timeouts x now) then sm_raise (ContractError "session expired")
        else if match source_ip with Some ip => negb (bool_decide (ip = ss_source_ip x)) | None => false end
        then sm_raise (ContractError "session IP mismatch")
        else mret x
  end.

Definition touch (session_id : pystr) (source_ip : option pystr) : M Session :=
  x ← validate session_id source_ip;
  now ← now_int;
  y ← sm_lift (Session_init (mkSession (ss_session_id x) (ss_subject_id x) (ss_source_ip x) (ss_created_at x) now (ss_mfa_verified x) (ss_subject_type x)));
  _ ← sm_mod (set_sessions (λ n, mkSessions (dset session_id y (sn_sessions n)) (sn_revoked n)));
  mret y.

Definition mark_revoked (session_id : pystr) : Iam → Iam :=
  set_sessions (λ n, mkSessions (sn_sessions n) ({[session_id]} ∪ sn_revoked n)).

Definition revoke (session_id reason : pystr) : M unit :=
  _ ← sm_lift (identifier session_id);
  if blank reason then sm_raise (ContractError "revocation reason is required")
  else
    s ← sm_get;
    match dget session_id (sn_sessions (ia_sessions s)) with
    | None => sm_raise (ContractError "unknown session")
    | Some x =>
        _ ← sm_mod (mark_revoked session_id);
        log_event (str "session_revoked") (ss_subject_id x) (ss_source_ip x) (str "allow") (ss_subject_type x)
          [("session_id", JStr session_id); ("reason", JStr reason)]
    end.

(** The loop of [revoke_all] over the sessions there were at its start. *)
Fixpoint revoke_each (subject_id reason : pystr) (l : list Session) : M Z :=
  match l with
  | [] => mret 0%Z
  | x :: l =>
      s ← sm_get;
      if bool_decide (ss_subject_id x = subject_id) && negb (bool_decide (ss_session_id x ∈ sn_revoked (ia_sessions s))) then
        _ ← revoke (ss_session_id x) reason;
        n ← revoke_each subject_id reason l;
        mret (n + 1)%Z
      else revoke_each subject_id reason l
  end.

Definition revoke_all (subject_id reason : pystr) : M Z :=
  _ ← sm_lift (subject_identifier subject_id);
  s ← sm_get;
  revoke_each subject_id reason (sn_sessions (ia_sessions s)).*2.

Definition logout (session_id : pystr) : M unit :=
  x ← validate session_id None;
  _ ← sm_mod (mark_revoked session_id);
  log_event (str "logout") (ss_subject_id x) (ss_source_ip x) (str "allow") (ss_subject_type x) [("session_id", JStr session_id)].

(** ** ServiceAccountManager *)
Definition hash_credential (credential : pystr) : res pystr :=
  when bool_decide (credential = []) raise ContractError "credential must be a non-empty string";;
  sha_text (str "residual.iam.sa" ++ [10%N] ++ credential).

Definition create_account (name owner_id : pystr) (permissions : list Permission) : M (ServiceAccount * pystr) :=
  if blank name then sm_raise (ContractError "service account name is required")
  else
    _ ← sm_lift (identifier owner_id);
    tok ← new_token;
    a ← sm_lift (ServiceAccount_init (mkAccount (str "svc-" ++ tok) name owner_id permissions 1));
    cred ← new_token;
    _ ← sm_mod (set_accounts (λ c, mkAccounts (dset (sa_account_id a) a (ac_accounts c)) (ac_credential_hashes c)));
    h ← sm_lift (hash_credential (str "svckey-" ++ cred));
    _ ← sm_mod (set_accounts (λ c, mkAccounts (ac_accounts c) (dset h (sa_account_id a) (ac_credential_hashes c))));
    mret (a, str "svckey-" ++ cred).

Definition authenticate (credential : pystr) (c : Accounts) : res ServiceAccount :=
  h ← hash_credential credential;
  match dget h (ac_credential_hashes c) with
  | None => Raise (ContractError "invalid or rotated service account credential")
  | Some id => dgetitem id (ac_accounts c)
  end.

(** Dropping the hashes of an account. *)
Definition drop_credentials (account_id : pystr) (d : dict pystr) : dict pystr := filter (λ kv : pystr * pystr, kv.2 ≠ account_id) d.

Definition rotate (account_id : pystr) : M (ServiceAccount * pystr) :=
  s ← sm_get;
  match dget account_id (ac_accounts (ia_accounts s)) with
  | None => sm_raise (ContractError "unknown service account")
  | Some a =>
      b ← sm_lift (ServiceAccount_init (mkAccount (sa_account_id a) (sa_name a) (sa_owner_id a) (sa_permissions a) (sa_credential_generation a + 1)));
      _ ← sm_mod (set_accounts (λ c, mkAccounts (ac_accounts c) (drop_credentials account_id (ac_credential_hashes c))));
      cred ← new_token;
      h ← sm_lift (hash_credential (str "svckey-" ++ cred));
      _ ← sm_mod (set_accounts (λ c, mkAccounts (dset account_id b (ac_accounts c)) (dset h account_id (ac_credential_hashes c))));
      mret (b, str "svckey-" ++ cred)
  end.

Definition authorize (account : ServiceAccount) (category scope source_ip : pystr) : M bool :=
  let allowed := existsb (λ p, grants p category scope) (sa_permissions account) in
  _ ← log_event (if allowed then str "service_account_action" else str "access_denied") (sa_account_id account) source_ip
        (if allowed then str "allow" else str "deny") SUBJECT_SERVICE
        [("category", JStr category); ("scope", JStr scope); ("owner", JStr (sa_owner_id account))];
  mret allowed.

(** ** MFAManager *)
Definition PRIVILEGED_ACTIONS : list pystr := str <$> ["hitl_approval"; "policy_modification"; "module_installation"].
Definition IDP_MFA_AMR : list pystr := str <$> ["mfa"; "otp"; "hwk"; "fido2"; "webauthn"].
Definition IDP_MFA_AUTHN_CONTEXT : list pystr :=
  str <$> ["urn:oasis:names:tc:SAML:2.0:ac:classes:Multifactor"; "http://schemas.microsoft.com/claims/multipleauthn"].

(** [c.lower()] where the result is ASCII: the letters, and the Kelvin sign. *)
Definition lower_char (c : N) : N := if in_range 65 90 c then (c + 32)%N else if (c =? 8490)%N then 107%N else c.

Definition idp_mfa_satisfied (amr : list pystr) (authn_context : option pystr) : bool :=
  existsb (λ a, bool_decide (lower_char <$> a ∈ IDP_MFA_AMR)) amr
  || match authn_context with Some c => bool_decide (c ∈ IDP_MFA_AUTHN_CONTEXT) | None => false end.

Definition verify_local (subject_id : pystr) (secret : list N) (code : pystr) : M bool :=
  _ ← sm_lift (identifier subject_id);
  t ← now_raw;
  ok ← sm_lift (verify_totp secret code t 30 6 1);
  if (ok : bool) then
    t ← now_raw;
    s ← sm_get;
    _ ← sm_mod (set_mfa (dset subject_id t (ia_mfa s)));
    mret true
  else mret false.

Definition has_local_mfa (subject_id : pystr) (s : Iam) : res bool :=
  _ ← identifier subject_id; Ok (dmem subject_id (ia_mfa s)).

Definition require_privileged (action subject_id : pystr) (amr : list pystr) (authn_context : option pystr) (s : Iam) : res unit :=
  _ ← identifier subject_id;
  when negb (bool_decide (action ∈ PRIVILEGED_ACTIONS)) raise ContractError "unknown privileged action";;
  if idp_mfa_satisfied amr authn_context then Ok tt
  else b ← has_local_mfa subject_id s;
       if (b : bool) then Ok tt else Raise (ContractError "MFA required for privileged action").
End iam.
