(* ===== verification/IamFacts.v ===== *)
(** * Access management: operations in sequence and the shared log *)

From Stdlib Require Import ZArith NArith Lia.
From S2P Require Import Prelude PyData Sha256 PyFloat Json JsonFacts Core CoreFacts Builtins NetAddr IamEvents IamLogFacts IamAccess Totp Iam.

(** ** Operations *)
Inductive IamOp : Type :=
  | ODefineRole (r : Role)
  | OAssign (subject_id role_name : pystr)
  | OUnassign (subject_id role_name : pystr)
  | OAddApprover (approver_id : pystr)
  | ORequest (subject_id category scope reason : pystr) (duration : json) (task_id : option pystr)
  | OApprove (request_id approver_id source_ip : pystr)
  | ODeny (request_id approver_id source_ip : pystr)
  | OAllowed (subject_id category scope : pystr)
  | OActiveGrants (subject_id : pystr)
  | OCreateSession (subject_id source_ip : pystr) (mfa : bool) (subject_type : pystr)
  | OValidate (session_id : pystr) (source_ip : option pystr)
  | OTouch (session_id : pystr) (source_ip : option pystr)
  | ORevoke (session_id reason : pystr)
  | ORevokeAll (subject_id reason : pystr)
  | OLogout (session_id : pystr)
  | OCreateAccount (name owner_id : pystr) (permissions : list Permission)
  | ORotate (account_id : pystr)
  | OAuthorize (account : ServiceAccount) (category scope source_ip : pystr)
  | OVerifyLocal (subject_id : pystr) (secret : list N) (code : pystr).

Definition void {S A} (m : SM S A) : SM S unit := _ ← m; mret tt.

Section ops.
Context (clock : nat → json) (token : nat → pystr) (policy : SessionPolicy).

Definition iam_op (op : IamOp) : SM Iam unit :=
  match op with
  | ODefineRole r => with_roles (λ g, Ok (define_role r g))
  | OAssign s r => with_roles (assign s r)
  | OUnassign s r => with_roles (unassign s r)
  | OAddApprover a => add_approver a
  | ORequest s c sc re d t => void (request_elevation clock token s c sc re d t)
  | OApprove r a ip => void (approve clock r a ip)
  | ODeny r a ip => deny clock r a ip
  | OAllowed s c sc => void (is_allowed clock s c sc)
  | OActiveGrants s => void (active_grants clock s)
  | OCreateSession s ip m t => void (create_session clock token policy s ip m t)
  | OValidate x ip => void (validate clock policy x ip)
  | OTouch x ip => void (touch clock policy x ip)
  | ORevoke x re => revoke clock x re
  | ORevokeAll s re => void (revoke_all clock s re)
  | OLogout x => logout clock policy x
  | OCreateAccount n o p => void (create_account token n o p)
  | ORotate a => void (rotate token a)
  | OAuthorize a c sc ip => void (authorize clock a c sc ip)
  | OVerifyLocal s k c => void (verify_local clock s k c)
  end.

Definition iam_run (ops : list IamOp) (s : Iam) : Iam := foldl (λ s op, (iam_op op s).2) s ops.

Lemma iam_run_app ops ops' s : iam_run (ops ++ ops') s = iam_run ops' (iam_run ops s).
Proof. apply foldl_app. Qed.

(** An invariant of every operation is one of every run. *)
Lemma iam_run_inv (I : Iam → Prop) ops s : (∀ op, preserves I (iam_op op)) → I s → I (iam_run ops s).
Proof.
  intros H. revert s. induction ops as [|op ops IH]; intros s Hs; [done|]. apply IH. specialize (H op s Hs).
  by destruct (iam_op op s) as [[]?].
Qed.
End ops.

(** ** Primitive steps and what they keep *)
Lemma with_log_eq {A} (m : SM EventLog A) s : with_log m s = ((m (ia_log s)).1, set_log (m (ia_log s)).2 s).
Proof. unfold with_log. by destruct (m (ia_log s)). Qed.

(** A predicate of the managers that does not look at the log, and that more
    tokens do not break. *)
Definition log_free (I : Iam → Prop) : Prop := ∀ s l, I s → I (set_log l s).

Lemma with_log_free {A} (I : Iam → Prop) (m : SM EventLog A) : log_free I → preserves I (with_log m).
Proof. intros H s Hs. rewrite with_log_eq. destruct (m (ia_log s)).1; by apply H. Qed.

Section free.
Context (clock : nat → json) (I : Iam → Prop) (HI : log_free I).

Lemma now_raw_free : preserves I (now_raw clock).
Proof using HI. by apply with_log_free. Qed.
Lemma now_int_free : preserves I (now_int clock).
Proof using HI. by apply with_log_free. Qed.
Lemma log_event_free ev subj ip result st details : preserves I (log_event clock ev subj ip result st details).
Proof using HI. apply preserves_bind; [by apply with_log_free|auto with sm]. Qed.
End free.
#[export] Hint Resolve now_raw_free now_int_free log_event_free : sm.

Lemma preserves_void {S A} (I : S → Prop) (m : SM S A) : preserves I m → preserves I (void m).
Proof. intros H. apply preserves_bind; [done|auto with sm]. Qed.
#[export] Hint Resolve preserves_void : sm.

(** ** The log under every operation *)
Section log.
Context (clock : nat → json) (token : nat → pystr) (policy : SessionPolicy).

Definition log_from (l0 : EventLog) (s : Iam) : Prop := log_inv (ia_log s) ∧ log_le l0 (ia_log s).

Lemma with_log_from {A} l0 (m : SM EventLog A) :
  (∀ l, log_inv l → log_inv (m l).2 ∧ log_le l (m l).2) → preserves (log_from l0) (with_log m).
Proof.
  intros H s [H1 H2]. rewrite with_log_eq. destruct (H _ H1) as [H3 H4]. destruct (m (ia_log s)).1; (split; [done|by etrans]).
Qed.

Lemma read_clock_le l : log_inv l → log_inv (read_clock clock l).2 ∧ log_le l (read_clock clock l).2.
Proof. intros [? ?]. split; constructor; cbn; try done. lia. Qed.

Lemma now_raw_from l0 : preserves (log_from l0) (now_raw clock).
Proof. apply with_log_from, read_clock_le. Qed.
Lemma now_int_from l0 : preserves (log_from l0) (now_int clock).
Proof.
  apply with_log_from. intros l Hl. destruct (read_clock_le l Hl) as [H1 H2]. unfold clock_int, mbind, SM_bind, read_clock in *.
  cbn [snd] in H1, H2. by destruct (clock (el_tick l)).
Qed.
Lemma log_event_from l0 ev subj ip result st details : preserves (log_from l0) (log_event clock ev subj ip result st details).
Proof. apply preserves_bind; [|auto with sm]. apply with_log_from. intros l Hl. by apply record_inv. Qed.
Lemma new_token_from l0 : preserves (log_from l0) (new_token token).
Proof. by intros s [? ?]. Qed.
#[local] Hint Resolve now_raw_from now_int_from log_event_from new_token_from : sm.
#[local] Hint Extern 2 (preserves (log_from _) (sm_mod _)) => (apply preserves_mod; done) : sm.

Lemma revoke_each_from l0 subj reason xs : preserves (log_from l0) (revoke_each clock subj reason xs).
Proof. induction xs as [|x xs IH]; cbn [revoke_each]; [auto with sm|]. unfold revoke. sm_walk; done. Qed.

Lemma iam_op_from l0 op : preserves (log_from l0) (iam_op clock token policy op).
Proof.
  destruct op; cbn [iam_op]; try apply preserves_void;
    unfold with_roles, add_approver, request_elevation, approve, deny, is_allowed, is_elevated, active_grants, create_session, active_for, touch, validate,
      revoke, revoke_all, logout, create_account, rotate, authorize, verify_local, pop_request, mark_revoked; try (sm_walk; done).
  apply preserves_bind; [auto with sm|]. intros _. apply preserves_bind; [auto with sm|]. intros s. apply revoke_each_from.
Qed.

Lemma iam_run_from ops s : log_inv (ia_log s) → log_from (ia_log s) (iam_run clock token policy ops s).
Proof. intros H. apply iam_run_inv; [intros op; apply iam_op_from|by split]. Qed.
End log.
