(* ===== verification/IamTheorems.v ===== *)
(** * Access decisions: elevation, roles and the audit trail *)

From Stdlib Require Import ZArith NArith Lia.
From S2P Require Import Prelude PyData Sha256 PyFloat Json JsonFacts Core CoreFacts Storage Builtins JsonPlain NetAddr IamEvents IamLogFacts IamAccess Totp Iam IamFacts.

(** ** Elevation is pre-authorized, bounded and decided once *)

(** ** The steps of the elevation state machine *)
Definition valid_request (r : ElevationRequest) : Prop :=
  subject_ok (eq_subject_id r) = true ∧ eq_category r ∈ PERMISSION_CATEGORIES ∧ (0 < eq_duration_seconds r <= MAX_ELEVATION_SECONDS)%Z.

Inductive jit_step (token : nat → pystr) (n n' : nat) : Jit → Jit → Prop :=
  | js_same j : jit_step token n n' j j
  | js_approver j a : jit_step token n n' j (mkJit ({[a]} ∪ ji_approvers j) (ji_requests j) (ji_grants j) (ji_denied j))
  | js_request j r k :
      valid_request r → eq_request_id r = str "jit-" ++ token k → n ≤ k < n' →
      jit_step token n n' j (mkJit (ji_approvers j) (dset (eq_request_id r) r (ji_requests j)) (ji_grants j) (ji_denied j))
  | js_lost j id : jit_step token n n' j (mkJit (ji_approvers j) (ddel id (ji_requests j)) (ji_grants j) (ji_denied j))
  | js_grant j id r g :
      dget id (ji_requests j) = Some r → id ∉ ji_denied j → eg_request g = r → eg_approver_id g ∈ ji_approvers j → eg_approver_id g ≠ eq_subject_id r →
      eg_expires_at g = (eg_granted_at g + eq_duration_seconds r)%Z →
      jit_step token n n' j (mkJit (ji_approvers j) (ddel id (ji_requests j)) (ji_grants j ++ [g]) (ji_denied j))
  | js_deny j id r :
      dget id (ji_requests j) = Some r →
      jit_step token n n' j (mkJit (ji_approvers j) (ddel id (ji_requests j)) (ji_grants j) ({[id]} ∪ ji_denied j)).

Definition jit_stepped (token : nat → pystr) (s s' : Iam) : Prop :=
  ia_tokens s ≤ ia_tokens s' ∧ jit_step token (ia_tokens s) (ia_tokens s') (ia_jit s) (ia_jit s').

Section steps.
Context (clock : nat → json) (token : nat → pystr) (policy : SessionPolicy).

(** Elsewhere the elevation state is kept. *)
Definition jit_kept (j : Jit) (n : nat) (s : Iam) : Prop := ia_jit s = j ∧ n ≤ ia_tokens s.
Lemma jit_kept_free j n : log_free (jit_kept j n).
Proof. by intros s l [? ?]. Qed.
Lemma jit_kept_token j n : preserves (jit_kept j n) (new_token token).
Proof. intros s [? ?]. split; cbn; [done|lia]. Qed.
#[local] Hint Resolve jit_kept_free jit_kept_token : sm.
#[local] Hint Extern 2 (preserves (jit_kept _ _) (sm_mod _)) => (apply preserves_mod; done) : sm.

Lemma jit_kept_revoke_each j n subj reason xs : preserves (jit_kept j n) (revoke_each clock subj reason xs).
Proof. induction xs as [|x xs IH]; cbn [revoke_each]; [auto with sm|]. unfold revoke. sm_walk; done. Qed.

Lemma kept_stepped {A} (m : SM Iam A) s : (∀ j n, preserves (jit_kept j n) m) → jit_stepped token s (m s).2.
Proof.
  intros H. specialize (H (ia_jit s) (ia_tokens s) s (conj eq_refl (le_n _))). destruct (m s) as [[a|e] s']; destruct H as [H1 H2]; cbn;
    (split; [done|rewrite H1; constructor]).
Qed.

Lemma void_state {S A} (m : SM S A) s : (void m s).2 = (m s).2.
Proof. unfold void, mbind, SM_bind. by destruct (m s) as [[]?]. Qed.

Lemma log_event_state ev subj ip result st details s :
  ∃ r l, log_event clock ev subj ip result st details s = (r, set_log l s).
Proof.
  unfold log_event, mbind, SM_bind. rewrite with_log_eq. destruct (record _ _ _ _ _ _ _ _ _) as [[[o r]|e] l]; cbn; eauto.
Qed.

Lemma request_stepped subj cat sc re d t s : jit_stepped token s (request_elevation clock token subj cat sc re d t s).2.
Proof.
  unfold request_elevation, mbind, SM_bind. unfold now_int. rewrite with_log_eq. destruct (clock_int clock (ia_log s)) as [[z|e] l]; cbn [fst snd].
  2:{ split; [done|constructor]. }
  unfold new_token. cbn [ia_tokens set_log]. unfold sm_lift.
  remember (str "jit-" ++ token (ia_tokens s)) as rid eqn:Erid. destruct (ElevationRequest_init _ _ _ _ _ _ _ _) as [r|e] eqn:E.
  2:{ cbn [snd]. split; cbn [ia_tokens ia_jit]; [lia|constructor]. }
  unfold ElevationRequest_init in E. apply bind_Ok in E as (? & _ & E). apply bind_Ok in E as (u1 & Hx & E). apply bind_Ok in E as (u2 & Hy & E).
  pass_guard E. pass_guard E. apply bind_Ok in E as (dd & Hd & E). apply bind_Ok in E as (? & _ & [= <-]).
  cbn [sm_mod mret SM_ret snd]. split; cbn [set_jit ia_tokens ia_jit]; [lia|].
  eapply js_request with (k := ia_tokens s); [|exact Erid|lia]. unfold subject_identifier in Hx. pass_guard Hx. unfold check_category in Hy. pass_guard Hy.
  destruct d; try done. pass_guard Hd. bool_prop. injection Hd as <-. unfold valid_request.
  cbn [eq_subject_id eq_category eq_duration_seconds]. split_and!; [done|done|lia|lia].
Qed.

Lemma approve_stepped rid aid ip s : jit_stepped token s (approve clock rid aid ip s).2.
Proof.
  unfold approve, mbind, SM_bind. unfold sm_lift at 1. destruct (identifier aid); [|split; [done|constructor]]. cbn [sm_get].
  destruct (dget rid (ji_requests (ia_jit s))) as [r|] eqn:Er; [|split; [done|constructor]]. cbn [sm_mod].
  destruct (bool_decide (rid ∈ ji_denied (ia_jit s))) eqn:Ed; [split; [done|apply js_lost]|]. apply bool_decide_eq_false in Ed.
  destruct (negb _ || _) eqn:Ea.
  { destruct (log_event_state (str "access_denied") (eq_subject_id r) ip (str "deny") SUBJECT_HUMAN
      [("kind", JStr (str "jit_approval")); ("approver", JStr aid); ("category", JStr (eq_category r)); ("scope", JStr (eq_scope r))] (pop_request rid s)) as ([?|?] & l & ->);
      (split; [done|apply js_lost]). }
  apply orb_false_iff in Ea as [E1 E2]. bool_prop. unfold now_raw. rewrite with_log_eq. cbn [read_clock fst snd].
  unfold sm_lift. destruct (ElevationGrant_init _ _ _) as [g|e] eqn:Eg; [|split; [done|apply js_lost]].
  assert (∀ l, jit_stepped token s (set_log l (set_jit (λ j, mkJit (ji_approvers j) (ji_requests j) (ji_grants j ++ [g]) (ji_denied j)) (pop_request rid s)))) as Hg.
  { intros l. split; [done|]. unfold ElevationGrant_init in Eg. destruct (clock _); try done; apply bind_Ok in Eg as (? & _ & Eg); try done.
    pass_guard Eg. injection Eg as <-. by apply (js_grant _ _ _ (ia_jit s) rid r). }
  set (s1 := set_jit _ _) in *. 
  edestruct (log_event_state (str "permission_elevation") (eq_subject_id r) ip (str "allow") SUBJECT_HUMAN) as ([?|?] & l & ->); apply Hg.
Qed.

Lemma deny_stepped rid aid ip s : jit_stepped token s (deny clock rid aid ip s).2.
Proof.
  unfold deny, mbind, SM_bind. unfold sm_lift at 1. destruct (identifier aid); [|split; [done|constructor]]. cbn [sm_get].
  destruct (dget rid (ji_requests (ia_jit s))) as [r|] eqn:Er; [|split; [done|constructor]].
  destruct (bool_decide _); [split; [done|constructor]|]. cbn [sm_mod].
  edestruct (log_event_state (str "access_denied") (eq_subject_id r) ip (str "deny") SUBJECT_HUMAN) as ([?|?] & l & ->);
    (split; [done|by apply (js_deny _ _ _ (ia_jit s) rid r)]).
Qed.

Lemma approver_stepped a s : jit_stepped token s (add_approver a s).2.
Proof. unfold add_approver, mbind, SM_bind, sm_lift. destruct (identifier a); (split; [done|constructor]). Qed.

Lemma iam_op_jit op s : jit_stepped token s (iam_op clock token policy op s).2.
Proof.
  destruct op; cbn [iam_op]; rewrite ?void_state; first [apply approver_stepped|apply request_stepped|apply approve_stepped|apply deny_stepped|idtac];
    apply kept_stepped; intros j n;
    unfold with_roles, is_allowed, is_elevated, active_grants, create_session, active_for, touch, validate,
      revoke, revoke_all, logout, create_account, rotate, authorize, verify_local, mark_revoked; try (sm_walk; done).
  apply preserves_bind; [auto with sm|]. intros _. apply preserves_bind; [auto with sm|]. intros s'. apply jit_kept_revoke_each.
Qed.
End steps.

(** ** The invariant *)
Section inv.
Context (token : nat → pystr) (Htok : ∀ m n, token m = token n → m = n).

Definition issued (n : nat) (id : pystr) : Prop := ∃ k, k < n ∧ id = str "jit-" ++ token k.

(** A grant was approved by a designated approver other than its subject and
    lasts as long as was asked for, a day at most. *)
Definition grant_ok (approvers : gset pystr) (g : ElevationGrant) : Prop :=
  valid_request (eg_request g) ∧ eg_approver_id g ∈ approvers ∧ eg_approver_id g ≠ eq_subject_id (eg_request g) ∧
  eg_expires_at g = (eg_granted_at g + eq_duration_seconds (eg_request g))%Z.

Definition grant_id (g : ElevationGrant) : pystr := eq_request_id (eg_request g).

Record jit_inv (n : nat) (j : Jit) : Prop := {
  jv_wf : wf_dict (ji_requests j);
  jv_requests : ∀ id r, dget id (ji_requests j) = Some r → eq_request_id r = id ∧ valid_request r ∧ issued n id;
  jv_grants : Forall (grant_ok (ji_approvers j)) (ji_grants j);
  jv_granted : ∀ g, g ∈ ji_grants j → issued n (grant_id g) ∧ dget (grant_id g) (ji_requests j) = None ∧ grant_id g ∉ ji_denied j;
  jv_once : NoDup (grant_id <$> ji_grants j);
  jv_denied : ∀ id, id ∈ ji_denied j → issued n id ∧ dget id (ji_requests j) = None
}.

Lemma issued_mono n n' id : n ≤ n' → issued n id → issued n' id.
Proof. intros Hn (k & Hk & ->). exists k. split; [lia|done]. Qed.

Lemma issued_fresh n k : issued n (str "jit-" ++ token k) → k < n.
Proof using Htok. intros (i & Hi & E). apply app_inv_head in E. apply Htok in E. lia. Qed.

Lemma ddel_sub {V} (id x : pystr) (d : dict V) r : wf_dict d → dget x (ddel id d) = Some r → dget x d = Some r ∧ x ≠ id.
Proof. intros Hd Hx. destruct (decide (x = id)) as [->|?]; [by rewrite dget_ddel_eq in Hx|by rewrite dget_ddel_ne in Hx]. Qed.
Lemma ddel_None {V} (id x : pystr) (d : dict V) : wf_dict d → dget x d = None → dget x (ddel id d) = None.
Proof. intros Hd Hx. destruct (dget x (ddel id d)) eqn:E; [|done]. apply ddel_sub in E as [? _]; congruence. Qed.

Lemma jit_inv_mono n n' j : n ≤ n' → jit_inv n j → jit_inv n' j.
Proof.
  intros Hn [H1 H2 H3 H4 H5 H6]. pose proof (issued_mono n n') as Hm. constructor; [done| |done| |done|].
  - intros id r Hr. destruct (H2 id r Hr) as (? & ? & ?). auto.
  - intros g Hg. destruct (H4 g Hg) as (? & ? & ?). auto.
  - intros id Hi. destruct (H6 id Hi). auto.
Qed.

Lemma jit_inv_pop n j id : jit_inv n j → jit_inv n (mkJit (ji_approvers j) (ddel id (ji_requests j)) (ji_grants j) (ji_denied j)).
Proof.
  intros [H1 H2 H3 H4 H5 H6]. constructor; cbn; [by apply wf_ddel| |done| |done|].
  - intros x r [Hx _]%ddel_sub; [by apply H2|done].
  - intros g Hg. destruct (H4 g Hg) as (? & ? & ?). auto using ddel_None.
  - intros x Hx. destruct (H6 x Hx). auto using ddel_None.
Qed.

Lemma jit_inv_approver n j a : jit_inv n j → jit_inv n (mkJit ({[a]} ∪ ji_approvers j) (ji_requests j) (ji_grants j) (ji_denied j)).
Proof.
  intros [H1 H2 H3 H4 H5 H6]. constructor; cbn; try done. eapply Forall_impl; [exact H3|]. intros g (? & ? & ? & ?). split_and!; try done.
  by apply elem_of_union_r.
Qed.

Lemma jit_inv_request n n' j r k :
  jit_inv n j → valid_request r → eq_request_id r = str "jit-" ++ token k → n ≤ k < n' →
  jit_inv n' (mkJit (ji_approvers j) (dset (eq_request_id r) r (ji_requests j)) (ji_grants j) (ji_denied j)).
Proof using Htok.
  intros [H1 H2 H3 H4 H5 H6] Hv Eid Hk. assert (∀ id, issued n id → id ≠ eq_request_id r) as Hf.
  { intros id Hi ->. rewrite Eid in Hi. apply issued_fresh in Hi. lia. }
  assert (∀ id, issued n id → issued n' id) as Hm by (intros id; apply issued_mono; lia). constructor; cbn; [by apply wf_dset| |done| |done|].
  - intros id q Hq. destruct (decide (id = eq_request_id r)) as [->|Hne].
    + rewrite dget_dset_eq in Hq. injection Hq as <-. split_and!; [done|done|]. exists k. split; [lia|done].
    + rewrite dget_dset_ne in Hq by done. destruct (H2 id q Hq) as (? & ? & ?). auto.
  - intros g Hg. destruct (H4 g Hg) as (Hi & Hq & Hd). rewrite dget_dset_ne by (by apply Hf). auto.
  - intros id Hi. destruct (H6 id Hi) as (Hi' & Hq). rewrite dget_dset_ne by (by apply Hf). auto.
Qed.

Lemma jit_inv_grant n j g :
  jit_inv n j → grant_ok (ji_approvers j) g → issued n (grant_id g) → dget (grant_id g) (ji_requests j) = None → grant_id g ∉ ji_denied j →
  grant_id g ∉ grant_id <$> ji_grants j → jit_inv n (mkJit (ji_approvers j) (ji_requests j) (ji_grants j ++ [g]) (ji_denied j)).
Proof.
  intros [H1 H2 H3 H4 H5 H6] Hg Hi Hr Hd Hn. constructor; cbn; [done|done| | | |done].
  - apply Forall_app. split; [done|by apply Forall_singleton].
  - intros q [Hq| ->%list_elem_of_singleton]%elem_of_app; [by apply H4|done].
  - rewrite fmap_app. apply NoDup_app. split_and!; [done| |apply NoDup_singleton]. intros x Hx ->%list_elem_of_singleton. done.
Qed.

Lemma jit_inv_deny n j id :
  jit_inv n j → issued n id → dget id (ji_requests j) = None → id ∉ grant_id <$> ji_grants j →
  jit_inv n (mkJit (ji_approvers j) (ji_requests j) (ji_grants j) ({[id]} ∪ ji_denied j)).
Proof.
  intros [H1 H2 H3 H4 H5 H6] Hi Hr Hn. constructor; cbn; [done|done|done| |done|].
  - intros g Hg. destruct (H4 g Hg) as (? & ? & ?). split_and!; [done|done|]. intros [E%elem_of_singleton|?]%elem_of_union; [|done].
    apply Hn. rewrite <- E. by apply list_elem_of_fmap_2.
  - intros x [->%elem_of_singleton|Hx]%elem_of_union; [done|by apply H6].
Qed.

Lemma pending_not_granted n j id r : jit_inv n j → dget id (ji_requests j) = Some r → id ∉ grant_id <$> ji_grants j.
Proof. intros Hj Hr (g & -> & Hg)%list_elem_of_fmap. destruct (jv_granted _ _ Hj g Hg) as (_ & ? & _). congruence. Qed.

Lemma jit_step_inv n n' j j' : n ≤ n' → jit_inv n j → jit_step token n n' j j' → jit_inv n' j'.
Proof using Htok.
  intros Hn Hj Hs. destruct Hs as [j|j a|j r k Hv Eid Hk|j id|j id r g Hr Hd Eg Ha Hne Ex|j id r Hr].
  - by eapply jit_inv_mono.
  - by eapply jit_inv_mono, jit_inv_approver.
  - by eapply jit_inv_request.
  - by eapply jit_inv_mono, jit_inv_pop.
  - eapply jit_inv_mono; [done|]. destruct (jv_requests _ _ Hj id r Hr) as (Er & Hv & Hi). assert (grant_id g = id) as Egi by (unfold grant_id; congruence).
    apply (jit_inv_grant n _ g (jit_inv_pop n j id Hj)); cbn; rewrite ?Egi; [|done|apply dget_ddel_eq, Hj|done|by eapply pending_not_granted].
    unfold grant_ok. rewrite Eg. by split_and!.
  - eapply jit_inv_mono; [done|]. destruct (jv_requests _ _ Hj id r Hr) as (Er & Hv & Hi).
    apply (jit_inv_deny n _ id (jit_inv_pop n j id Hj)); cbn; [done|apply dget_ddel_eq, Hj|by eapply pending_not_granted].
Qed.

Lemma jit_inv_new : jit_inv 0 (ia_jit Iam_new).
Proof. constructor; cbn; [constructor|done|constructor|by intros g ?%not_elem_of_nil|constructor|by intros id ?%not_elem_of_empty]. Qed.
End inv.

(** ** Decisions *)
Definition role_holds (g : RoleRegistry) (subj cat sc : pystr) : Prop :=
  ∃ name r p, name ∈ assigned subj g ∧ dget name (rr_roles g) = Some r ∧ p ∈ ro_permissions r ∧
    pm_category p = cat ∧ (pm_scope p = WILDCARD ∨ pm_scope p = sc).

Definition elevated_at (gs : list ElevationGrant) (subj cat sc : pystr) (t : Z) : Prop :=
  ∃ g, g ∈ gs ∧ eq_subject_id (eg_request g) = subj ∧ eq_category (eg_request g) = cat ∧
    (eq_scope (eg_request g) = WILDCARD ∨ eq_scope (eg_request g) = sc) ∧ (eg_granted_at g <= t < eg_expires_at g)%Z.

Lemma existsb_iff {A} (f : A → bool) l : existsb f l = true ↔ ∃ x, x ∈ l ∧ f x = true.
Proof. rewrite existsb_exists. setoid_rewrite list_elem_of_In. done. Qed.

Lemma grants_iff p cat sc : grants p cat sc = true ↔ pm_category p = cat ∧ (pm_scope p = WILDCARD ∨ pm_scope p = sc).
Proof. unfold grants. repeat case_bool_decide; cbn; naive_solver. Qed.

Lemma rbac_exact g subj cat sc :
  subject_ok subj = true → cat ∈ PERMISSION_CATEGORIES → ∃ b, rbac_allowed subj cat sc g = Ok b ∧ (b = true ↔ role_holds g subj cat sc).
Proof.
  intros Hs Hc. unfold rbac_allowed, check_category, roles_for, subject_identifier. rewrite bool_decide_true, Hs by done. cbn [negb mbind res_bind].
  eexists. split; [reflexivity|]. rewrite existsb_iff. unfold role_holds, role_grants. setoid_rewrite existsb_iff. setoid_rewrite grants_iff. split.
  - intros (r & Hr & p & Hp & ? & ?). apply list_elem_of_omap in Hr as (name & Hn & Er). rewrite sort_by_perm in Hn.
    apply elem_of_elements in Hn. by exists name, r, p.
  - intros (name & r & p & Hn & Er & Hp & ? & ?). exists r. split; [|by exists p]. apply list_elem_of_omap. exists name. split; [|done].
    rewrite sort_by_perm. by apply elem_of_elements.
Qed.

Lemma any_res_total {A} (f : A → res bool) (g : A → bool) l : (∀ x, f x = Ok (g x)) → any_res f l = Ok (existsb g l).
Proof. intros H. induction l as [|x l IH]; cbn; [done|]. rewrite H. cbn. by destruct (g x). Qed.

Lemma num_int_leb x y : num_leb (NInt x) (NInt y) = (x <=? y)%Z.
Proof. unfold num_leb, num_compare, to_float_view, dyadic_compare. cbn. rewrite !Z.mul_1_r. unfold Z.leb. by destruct (x ?= y)%Z. Qed.
Lemma num_int_ltb x y : num_ltb (NInt x) (NInt y) = (x <? y)%Z.
Proof. unfold num_ltb, num_compare, to_float_view, dyadic_compare. cbn. rewrite !Z.mul_1_r. unfold Z.ltb. by destruct (x ?= y)%Z. Qed.

Section decisions.
Context (clock : nat → json).

Lemma elevated_exact subj cat sc s t :
  subject_ok subj = true → cat ∈ PERMISSION_CATEGORIES → clock (el_tick (ia_log s)) = JInt t →
  ∃ b, (is_elevated clock subj cat sc s).1 = Ok b ∧ (b = true ↔ elevated_at (ji_grants (ia_jit s)) subj cat sc t).
Proof.
  intros Hs Hc Ht. unfold is_elevated, subject_identifier, check_category, mbind, SM_bind. rewrite Hs, bool_decide_true by done.
  unfold sm_lift at 1 2. cbn [negb]. unfold now_raw. rewrite with_log_eq. cbn [read_clock fst snd]. rewrite Ht.
  cbn [sm_get sm_lift fst set_log ia_jit]. rewrite (any_res_total _ (λ g, (eg_granted_at g <=? t)%Z && (t <? eg_expires_at g)%Z)).
  2:{ intros g. unfold is_active. cbn [as_num]. by rewrite num_int_leb, num_int_ltb. }
  eexists. split; [reflexivity|]. rewrite existsb_iff. unfold elevated_at. split.
  - intros (g & Hg & Ha). apply list_elem_of_filter in Hg as [Hcov Hg]. unfold covers in Hcov.
    rewrite !andb_true_iff, orb_true_iff, !bool_decide_eq_true in Hcov. destruct Hcov as [[? ?] ?]. apply andb_true_iff in Ha as [Hge%Z.leb_le Hlt%Z.ltb_lt].
    by exists g.
  - intros (g & Hg & E1 & E2 & E3 & Ha). exists g. split; [|apply andb_true_iff; lia]. apply list_elem_of_filter. split; [|done].
    unfold covers. rewrite E1, E2, !bool_decide_true by done. cbn. apply orb_true_iff. rewrite !bool_decide_eq_true. done.
Qed.

Lemma is_allowed_exact subj cat sc s t :
  subject_ok subj = true → cat ∈ PERMISSION_CATEGORIES → clock (el_tick (ia_log s)) = JInt t →
  ∃ b, (is_allowed clock subj cat sc s).1 = Ok b ∧ (b = true ↔ role_holds (ia_roles s) subj cat sc ∨ elevated_at (ji_grants (ia_jit s)) subj cat sc t).
Proof.
  intros Hs Hc Ht. destruct (rbac_exact (ia_roles s) subj cat sc Hs Hc) as (b & Hb & Hiff).
  destruct (elevated_exact subj cat sc s t Hs Hc Ht) as (b' & Hb' & Hiff'). unfold is_allowed, mbind, SM_bind. cbn [sm_get sm_lift]. rewrite Hb.
  destruct b; [exists true; naive_solver|]. exists b'. split; [done|]. naive_solver.
Qed.

(** An approval that returns is the last event of the log. *)
Lemma approve_observed rid aid ip s g s' :
  approve clock rid aid ip s = (Ok g, s') →
  last (ji_grants (ia_jit s')) = Some g ∧ ∃ o, last (el_observations (ia_log s')) = Some o ∧ eo_event_type o = str "permission_elevation" ∧
    eo_subject_id o = eq_subject_id (eg_request g) ∧ eo_result o = str "allow".
Proof.
  intros H. unfold approve in H. apply sm_bind_Ok in H as (u & s1 & [_ ->]%sm_lift_Ok & H). apply sm_bind_Ok in H as (s0 & s1 & Eg & H). injection Eg as <- <-.
  destruct (dget rid _) as [r|]; [|done]. apply sm_bind_Ok in H as ([] & s1 & Em & H). injection Em as <-.
  destruct (bool_decide _); [done|]. destruct (_ || _); [by apply sm_bind_Ok in H as (? & ? & _ & H)|].
  apply sm_bind_Ok in H as (now & s1 & En & H). apply sm_bind_Ok in H as (g' & s2 & [Hg ->]%sm_lift_Ok & H).
  apply sm_bind_Ok in H as ([] & s2 & Em & H). injection Em as <-. apply sm_bind_Ok in H as ([] & s3 & El & H). injection H as <- <-.
  unfold log_event in El. apply sm_bind_Ok in El as ([o rc] & s4 & El & E). injection E as <-. rewrite with_log_eq in El.
  pose proof (record_spec clock (str "permission_elevation") (eq_subject_id r) ip (str "allow") SUBJECT_HUMAN
    ((λ kv, (str kv.1, kv.2)) <$> [("kind", JStr (str "jit_elevation")); ("approver", JStr aid); ("category", JStr (eq_category r));
               ("scope", JStr (eq_scope r)); ("task_id", json_opt_str (eq_task_id r)); ("expires_at", JInt (eg_expires_at g'));
               ("reason", JStr (eq_reason r))]) None (ia_log (set_jit (λ j, mkJit (ji_approvers j) (ji_requests j) (ji_grants j ++ [g']) (ji_denied j)) s1))) as Hr.
  destruct (record _ _ _ _ _ _ _ _ _) as [[[o' rc']|e] l]; [|done]. cbn [fst snd] in El. injection El as <- <- <-.
  destruct Hr as (_ & E1 & E2 & _ & E3 & _ & _ & _ & E4 & _). cbn [set_log set_jit ia_jit ia_log ji_grants].
  split; [by rewrite last_snoc|]. exists o'. rewrite E4, last_snoc. split_and!; try done. rewrite E2.
  unfold ElevationGrant_init in Hg. destruct now; try done; apply bind_Ok in Hg as (? & _ & Hg); try done. pass_guard Hg. by injection Hg as <-.
Qed.
End decisions.

(** ** Theorems *)
Section theorems.
Context (clock : nat → json) (token : nat → pystr) (policy : SessionPolicy) (Htok : ∀ m n, token m = token n → m = n).

Lemma iam_run_jit ops : jit_inv token (ia_tokens (iam_run clock token policy ops Iam_new)) (ia_jit (iam_run clock token policy ops Iam_new)).
Proof using Htok.
  apply (iam_run_inv clock token policy (λ s, jit_inv token (ia_tokens s) (ia_jit s))).
  - intros op s Hs. pose proof (iam_op_jit clock token policy op s) as [Hn Hj]. destruct (iam_op clock token policy op s) as [[]?]; by eapply jit_step_inv.
  - apply jit_inv_new.
Qed.

Lemma jit_step_grants n n' j j' : jit_step token n n' j j' → ji_grants j `prefix_of` ji_grants j'.
Proof. destruct 1; cbn; try done. by apply prefix_app_r. Qed.

Lemma iam_run_grants ops s : ji_grants (ia_jit s) `prefix_of` ji_grants (ia_jit (iam_run clock token policy ops s)).
Proof.
  apply (iam_run_inv clock token policy (λ s', ji_grants (ia_jit s) `prefix_of` ji_grants (ia_jit s'))); [|done].
  intros op s1 Hs. pose proof (iam_op_jit clock token policy op s1) as [_ Hj%jit_step_grants]. destruct (iam_op clock token policy op s1) as [[]?]; by etrans.
Qed.

(** C22: Access is what roles and pre-authorized elevations give.  After any
    operations of the managers, a query of a well-formed subject and a known
    category answers, when the clock reads [t], exactly whether a role assigned
    to the subject holds the permission or an elevation of the subject covers it
    and [t] lies in its window.  Every elevation was approved by a designated
    approver other than its subject, from a request that is no longer pending
    and was not denied, lasts as long as requested and a day at most; no request
    is granted twice; elevations are never changed afterwards; and an approval
    that returns is the last entry of the log.  Random tokens are assumed
    distinct. *)
Theorem access_exact ops ops' :
  let s := iam_run clock token policy ops Iam_new in
  (∀ subj cat sc t, subject_ok subj = true → cat ∈ PERMISSION_CATEGORIES → clock (el_tick (ia_log s)) = JInt t →
     ∃ b, (is_allowed clock subj cat sc s).1 = Ok b ∧
       (b = true ↔ role_holds (ia_roles s) subj cat sc ∨ elevated_at (ji_grants (ia_jit s)) subj cat sc t)) ∧
  (∀ g, g ∈ ji_grants (ia_jit s) →
     grant_ok (ji_approvers (ia_jit s)) g ∧ dget (grant_id g) (ji_requests (ia_jit s)) = None ∧ grant_id g ∉ ji_denied (ia_jit s)) ∧
  NoDup (grant_id <$> ji_grants (ia_jit s)) ∧
  ji_grants (ia_jit s) `prefix_of` ji_grants (ia_jit (iam_run clock token policy ops' s)) ∧
  (∀ rid aid ip g s', approve clock rid aid ip s = (Ok g, s') →
     last (ji_grants (ia_jit s')) = Some g ∧ ∃ o, last (el_observations (ia_log s')) = Some o ∧ eo_event_type o = str "permission_elevation" ∧
       eo_subject_id o = eq_subject_id (eg_request g) ∧ eo_result o = str "allow").
Proof using Htok.
  intros s. pose proof (iam_run_jit ops) as Hj. fold s in Hj. destruct Hj as [_ _ H3 H4 H5 _]. rewrite Forall_forall in H3.
  split; [|split; [|split; [|split]]].
  - intros subj cat sc t Hs Hc Ht. by apply is_allowed_exact.
  - intros g Hg. destruct (H4 g Hg) as (_ & ? & ?). split_and!; [by apply H3|done|done].
  - done.
  - apply iam_run_grants.
  - intros rid aid ip g s' H. exact (approve_observed clock rid aid ip s g s' H).
Qed.

(** C24: The audit trail is one tamper-evident chain.  After any operations of
    the managers the log verifies, and later operations only append to it; any
    log of the same length that verifies and ends in the same receipt holds the
    same observations and receipts, or two of its entries collide. *)
Theorem audit_trail ops ops' l :
  let s := iam_run clock token policy ops Iam_new in
  verify_log (ia_log s) = Ok true ∧ log_le (ia_log s) (ia_log (iam_run clock token policy ops' s)) ∧
  (Forall row_plain (log_rows (ia_log s)) → Forall row_plain (log_rows l) →
   verify_log l = Ok true → length (el_observations l) = length (el_observations (ia_log s)) → last_hash l = last_hash (ia_log s) →
   Forall2 same_row (log_rows (ia_log s)) (log_rows l) ∨ rows_collide (log_rows (ia_log s)) (log_rows l)).
Proof using.
  intros s. assert (log_inv (ia_log s)) as Hs by (apply (iam_run_from clock token policy ops Iam_new); by constructor). split_and!.
  - by apply log_inv_verifies.
  - by apply (iam_run_from clock token policy ops' s).
  - intros Hp Hp' Hv Hl Hh. apply log_inv_verifies in Hv. apply (log_determined GENESIS_HASH); try done; [|apply Hs|apply Hv|].
    + unfold log_rows. rewrite !length_zip_with, <- (lg_length _ Hs), <- (lg_length _ Hv). lia.
    + by rewrite <- !last_hash_rows.
Qed.
End theorems.

(** ** Divergences *)
Definition demo_clock (n : nat) : json := JInt (1000 + Z.of_nat n).
Definition demo_token (n : nat) : pystr := replicate (S n) 97%N.
Definition demo_session_policy : SessionPolicy := mkSessionPolicy 28800 1800 3 [].
Definition demo_elevate (ip : string) : list IamOp :=
  [OAddApprover (str "boss"); ORequest (str "ann@corp") (str "policy_modification") (str "*") (str "incident") (JInt 600) None;
   OApprove (str "jit-a") (str "boss") (str ip)].
Definition demo_iam (ops : list IamOp) : Iam := iam_run demo_clock demo_token demo_session_policy ops Iam_new.
Definition demo_query (ops : list IamOp) : res bool :=
  (is_allowed demo_clock (str "ann@corp") (str "policy_modification") (str "x") (demo_iam ops)).1.

(** An approval with a malformed source address raises, and the elevation it
    recorded before logging is in force without any observation. *)
Theorem elevation_unobserved :
  is_ok (approve demo_clock (str "jit-a") (str "boss") (str "not-an-ip") (demo_iam (take 2 (demo_elevate "not-an-ip")))).1 = false ∧
  demo_query (demo_elevate "not-an-ip") = Ok true ∧ el_observations (ia_log (demo_iam (demo_elevate "not-an-ip"))) = [].
Proof. vm_compute. done. Qed.

(** An attempt by somebody who is no approver discards the pending request, so
    the designated approver can no longer decide it. *)
Theorem request_discarded :
  let ops := take 2 (demo_elevate "10.0.0.1") ++ [OApprove (str "jit-a") (str "mallory") (str "10.0.0.9")] in
  approve demo_clock (str "jit-a") (str "boss") (str "10.0.0.1") (demo_iam ops) = (Raise (ContractError "unknown elevation request"), demo_iam ops) ∧
  demo_query ops = Ok false.
Proof. vm_compute. done. Qed.

(** ** Witnesses *)
Lemma demo_token_inj m n : demo_token m = demo_token n → m = n.
Proof. intros E. apply (f_equal length) in E. unfold demo_token in E. rewrite !length_replicate in E. lia. Qed.

Lemma demo_granted : demo_query (demo_elevate "10.0.0.1") = Ok true.
Proof. vm_compute. reflexivity. Qed.

Lemma access_exact_witness :
  demo_query (demo_elevate "10.0.0.1") = Ok true ∧ NoDup (grant_id <$> ji_grants (ia_jit (demo_iam (demo_elevate "10.0.0.1")))).
Proof.
  split; [exact demo_granted|].
  exact (proj1 (proj2 (proj2 (access_exact demo_clock demo_token demo_session_policy demo_token_inj (demo_elevate "10.0.0.1") [])))).
Defined.

Lemma audit_trail_witness : verify_log (ia_log (demo_iam (demo_elevate "10.0.0.1"))) = Ok true.
Proof. exact (proj1 (audit_trail demo_clock demo_token demo_session_policy (demo_elevate "10.0.0.1") [] EventLog_new)). Defined.
