(* ===== verification/SessionTheorems.v ===== *)
(** * Sessions stay bound, expire, end for good and are few *)

From Stdlib Require Import ZArith NArith Lia.
From S2P Require Import Prelude PyData Sha256 PyFloat Json JsonFacts Core CoreFacts Builtins NetAddr IamEvents IamLogFacts IamAccess Totp Iam IamFacts IamTheorems.

(** ** Sessions: limits, expiry and revocation *)

(** Performs an update of the state. *)
Ltac sm_mod_step :=
  match goal with |- context [(sm_mod ?f ≫= ?k) ?u] => change ((sm_mod f ≫= k) u) with (k tt (f u)) end; cbv beta.

(** ** Steps *)
Definition tick (s : Iam) : nat := el_tick (ia_log s).

(** The sessions changed as their operations change them, and clock and tokens
    only moved on. *)
Inductive session_step (clock : nat → json) (token : nat → pystr) (policy : SessionPolicy) (s s' : Iam) : Prop :=
  | sx_same : ia_sessions s' = ia_sessions s → session_step clock token policy s s'
  | sx_create x t1 t2 :
      clock (tick s) = JInt t1 → clock (S (tick s)) = JInt t2 → S (S (tick s)) ≤ tick s' → ia_tokens s < ia_tokens s' →
      ss_session_id x = str "sess-" ++ token (ia_tokens s) → ss_created_at x = t2 → ss_last_active_at x = t2 →
      ip_allowed policy (ss_source_ip x) = Ok true →
      (Z.of_nat (length (filter (λ y, live policy (ss_subject_id x) t1 (ia_sessions s) y = true) (sn_sessions (ia_sessions s)).*2)) < sp_max_concurrent policy)%Z →
      ia_sessions s' = mkSessions (dset (ss_session_id x) x (sn_sessions (ia_sessions s))) (sn_revoked (ia_sessions s)) →
      session_step clock token policy s s'
  | sx_touch id x t1 t2 :
      dget id (sn_sessions (ia_sessions s)) = Some x → id ∉ sn_revoked (ia_sessions s) →
      clock (tick s) = JInt t1 → within_timeouts policy x t1 = true → clock (S (tick s)) = JInt t2 → (ss_created_at x <= t2)%Z → S (S (tick s)) ≤ tick s' →
      ia_sessions s' = mkSessions (dset id (mkSession (ss_session_id x) (ss_subject_id x) (ss_source_ip x) (ss_created_at x) t2 (ss_mfa_verified x)
                                           (ss_subject_type x)) (sn_sessions (ia_sessions s))) (sn_revoked (ia_sessions s)) →
      session_step clock token policy s s'
  | sx_revoke (R : gset pystr) :
      (∀ id, id ∈ R → is_Some (dget id (sn_sessions (ia_sessions s)))) →
      ia_sessions s' = mkSessions (sn_sessions (ia_sessions s)) (R ∪ sn_revoked (ia_sessions s)) →
      session_step clock token policy s s'.

Definition session_stepped clock token policy (s s' : Iam) : Prop :=
  ia_tokens s ≤ ia_tokens s' ∧ tick s ≤ tick s' ∧ session_step clock token policy s s'.

Section steps.
Context (clock : nat → json) (token : nat → pystr) (policy : SessionPolicy).

(** Clock and tokens move on in every operation. *)
Definition moved (n t : nat) (s : Iam) : Prop := n ≤ ia_tokens s ∧ t ≤ tick s.
Definition sess_kept (x : Sessions) (n t : nat) (s : Iam) : Prop := ia_sessions s = x ∧ moved n t s.

Lemma record_tick ev subj ip result st details ts l : el_tick l ≤ el_tick (record clock ev subj ip result st details ts l).2.
Proof.
  pose proof (record_spec clock ev subj ip result st details ts l) as H. destruct (record _ _ _ _ _ _ _ _ _) as [[[o r]|e] l']; cbn; apply H.
Qed.
Lemma clock_int_tick l : (clock_int clock l).2 = mkEventLog (el_observations l) (el_receipts l) (S (el_tick l)).
Proof. unfold clock_int, mbind, SM_bind, read_clock. by destruct (clock (el_tick l)). Qed.

Lemma kept_intro x n t s : ia_sessions s = x → n ≤ ia_tokens s → t ≤ tick s → sess_kept x n t s.
Proof. done. Qed.

Lemma kept_with_log {A} x n t (m : SM EventLog A) : (∀ l, el_tick l ≤ el_tick (m l).2) → preserves (sess_kept x n t) (with_log m).
Proof.
  intros Hm s (H1 & H2 & H3). rewrite with_log_eq. specialize (Hm (ia_log s)). unfold tick in H3.
  destruct (m (ia_log s)).1; (apply kept_intro; [done|done|unfold tick; cbn; lia]).
Qed.
Lemma kept_now_raw x n t : preserves (sess_kept x n t) (now_raw clock).
Proof. apply kept_with_log. intros l. cbn. lia. Qed.
Lemma kept_now_int x n t : preserves (sess_kept x n t) (now_int clock).
Proof. apply kept_with_log. intros l. rewrite clock_int_tick. cbn. lia. Qed.
Lemma kept_log_event x n t ev subj ip result st details : preserves (sess_kept x n t) (log_event clock ev subj ip result st details).
Proof. apply preserves_bind; [|auto with sm]. apply kept_with_log. intros l. apply record_tick. Qed.
Lemma kept_token x n t : preserves (sess_kept x n t) (new_token token).
Proof. intros s (? & ? & ?). apply kept_intro; cbn; [done|lia|done]. Qed.
#[local] Hint Resolve kept_now_raw kept_now_int kept_log_event kept_token : sm.
#[local] Hint Extern 2 (preserves (sess_kept _ _ _) (sm_mod _)) => (apply preserves_mod; done) : sm.

Lemma kept_state {A} (m : SM Iam A) s :
  (∀ x n t, preserves (sess_kept x n t) m) → ia_sessions (m s).2 = ia_sessions s ∧ ia_tokens s ≤ ia_tokens (m s).2 ∧ tick s ≤ tick (m s).2.
Proof.
  intros H. specialize (H (ia_sessions s) (ia_tokens s) (tick s) s (kept_intro _ _ _ s eq_refl (le_n _) (le_n _))).
  destruct (m s) as [[a|e] s']; apply H.
Qed.

Lemma sess_kept_stepped {A} (m : SM Iam A) s : (∀ x n t, preserves (sess_kept x n t) m) → session_stepped clock token policy s (m s).2.
Proof. intros (H1 & H2 & H3)%(λ H, kept_state m s H). split_and!; [done|done|by apply sx_same]. Qed.

Lemma stepped_then s s1 s2 :
  session_stepped clock token policy s s1 → ia_sessions s2 = ia_sessions s1 → ia_tokens s1 ≤ ia_tokens s2 → tick s1 ≤ tick s2 →
  session_stepped clock token policy s s2.
Proof.
  intros (H1 & H2 & H3) E Hn Ht. split_and!; [lia|lia|]. destruct H3.
  - apply sx_same. congruence.
  - eapply sx_create; eauto; [lia|lia|congruence].
  - eapply sx_touch; eauto; [lia|congruence].
  - eapply sx_revoke; eauto. congruence.
Qed.

(** An effect on the sessions followed by logging. *)
Lemma logged_stepped s s1 ev subj ip result st details :
  session_stepped clock token policy s s1 → session_stepped clock token policy s (log_event clock ev subj ip result st details s1).2.
Proof.
  intros H. destruct (kept_state (log_event clock ev subj ip result st details) s1) as (? & ? & ?); [auto with sm|]. by eapply stepped_then.
Qed.

Definition tickd (s : Iam) : Iam := set_log (mkEventLog (el_observations (ia_log s)) (el_receipts (ia_log s)) (S (tick s))) s.
Lemma now_int_eq s :
  now_int clock s = (match clock (tick s) with JInt z => Ok z | _ => Raise (ContractError "clock must return integer time") end, tickd s).
Proof. unfold now_int. rewrite with_log_eq. unfold clock_int, mbind, SM_bind, read_clock, tickd, tick. by destruct (clock (el_tick (ia_log s))). Qed.

Lemma now_int_Ok s z s1 : now_int clock s = (Ok z, s1) ↔ clock (tick s) = JInt z ∧ s1 = tickd s.
Proof. rewrite now_int_eq. destruct (clock (tick s)); naive_solver. Qed.
Lemma now_int_state s : (now_int clock s).2 = tickd s.
Proof. by rewrite now_int_eq. Qed.

(** What a returned validation found. *)
Lemma validate_Ok id ip s x s1 :
  validate clock policy id ip s = (Ok x, s1) ↔
  identifier id = Ok id ∧ dget id (sn_sessions (ia_sessions s)) = Some x ∧ id ∉ sn_revoked (ia_sessions s) ∧
  (∃ t, clock (tick s) = JInt t ∧ within_timeouts policy x t = true) ∧ (∀ i, ip = Some i → i = ss_source_ip x) ∧ s1 = tickd s.
Proof.
  unfold validate. rewrite sm_bind_Ok. split.
  - intros (u & s0 & [Hid ->]%sm_lift_Ok & H). apply sm_bind_Ok in H as (s0 & s2 & E & H). injection E as <- <-.
    destruct (dget id _) as [y|]; [|done]. case_bool_decide; [done|].
    apply sm_bind_Ok in H as (t & s2 & [Ht ->]%now_int_Ok & H). destruct (within_timeouts policy y t) eqn:Ew; [|done]. cbn [negb] in H.
    assert (u = id) as -> by (unfold identifier in Hid; pass_guard Hid; congruence).
    destruct ip as [i|].
    + case_bool_decide; [|done]. inversion H; subst. split_and!; eauto. by intros i [= ->].
    + inversion H; subst. split_and!; eauto. done.
  - intros (Hid & E & Hr & (t & Ht & Hw) & Hip & ->). exists id, s. rewrite sm_lift_Ok. split; [done|]. rewrite sm_bind_Ok. exists s, s. split; [done|].
    rewrite E, bool_decide_false by done. rewrite sm_bind_Ok. exists t, (tickd s). rewrite now_int_Ok. split; [done|]. rewrite Hw. cbn [negb].
    destruct ip as [i|]; [|done]. rewrite bool_decide_true by (by apply Hip). done.
Qed.

Lemma sm_bind_state {A B} (m : SM Iam A) (f : A → SM Iam B) (P : Iam → Prop) s :
  P (m s).2 → (∀ a s1, m s = (Ok a, s1) → P (f a s1).2) → P ((m ≫= f) s).2.
Proof. unfold mbind, SM_bind. destruct (m s) as [[a|e] s1]; eauto. Qed.

Lemma stepped_refl s : session_stepped clock token policy s s.
Proof. split_and!; [done|done|by apply sx_same]. Qed.
Lemma stepped_kept s s1 : ia_sessions s1 = ia_sessions s → ia_tokens s ≤ ia_tokens s1 → tick s ≤ tick s1 → session_stepped clock token policy s s1.
Proof. intros. split_and!; [done|done|by apply sx_same]. Qed.

Lemma logged_then_stepped {A} (r : res A) s s1 ev subj ip result st details :
  session_stepped clock token policy s s1 → session_stepped clock token policy s ((log_event clock ev subj ip result st details ≫= λ _, sm_lift r) s1).2.
Proof.
  intros H. apply sm_bind_state; [by apply logged_stepped|]. intros ? s2 E. apply (f_equal snd) in E. cbn [sm_lift snd] in *. subst s2. by apply logged_stepped.
Qed.

Lemma create_stepped subj ip mfa st s : session_stepped clock token policy s (create_session clock token policy subj ip mfa st s).2.
Proof.
  unfold create_session. apply sm_bind_state; [apply stepped_refl|]. intros ? s1 [_ ->]%sm_lift_Ok.
  apply sm_bind_state; [apply stepped_refl|]. intros ? s1 [_ ->]%sm_lift_Ok.
  apply sm_bind_state; [apply stepped_refl|]. intros ok s1 [Hip ->]%sm_lift_Ok. destruct ok; cbn [negb].
  2:{ apply (logged_then_stepped (Raise _)), stepped_refl. }
  apply sm_bind_state.
  { apply sess_kept_stepped. intros. unfold active_for. sm_walk; done. }
  intros l s1 H. unfold active_for in H. apply sm_bind_Ok in H as (t1 & s0 & [Ht1 ->]%now_int_Ok & H). apply sm_bind_Ok in H as (s0 & s2 & E & H).
  inversion E; subst s0 s2. inversion H; subst l s1. clear E H.
  assert (session_stepped clock token policy s (tickd s)) as Hk by (apply stepped_kept; cbn; [done|done|unfold tickd, tick; cbn; lia]).
  destruct (_ <=? _)%Z eqn:Hlim.
  { by apply (logged_then_stepped (Raise _)). }
  apply Z.leb_gt in Hlim.
  apply sm_bind_state. { rewrite now_int_state. apply stepped_kept; cbn; [done|done|unfold tickd, tick; cbn; lia]. }
  intros t2 s2 [Ht2 ->]%now_int_Ok. apply sm_bind_state. { apply stepped_kept; cbn; [done|lia|unfold tickd, tick; cbn; lia]. }
  intros tok s2 E. unfold new_token in E. inversion E; subst tok s2. clear E.
  apply sm_bind_state. { apply stepped_kept; cbn; [done|lia|unfold tickd, tick; cbn; lia]. }
  intros x s2 [Hx ->]%sm_lift_Ok. cbn [tickd set_log ia_tokens] in Hx. remember (str "sess-" ++ token (ia_tokens s)) as sid eqn:Esid.
  unfold Session_init in Hx. apply bind_Ok in Hx as (? & _ & Hx). apply bind_Ok in Hx as (? & _ & Hx). apply bind_Ok in Hx as (? & _ & Hx).
  pass_guard Hx. inversion Hx; subst x. clear Hx.
  sm_mod_step.
  apply (logged_then_stepped (Ok _)). split_and!; [cbn; lia|unfold tickd, tick; cbn; lia|].
  eapply (sx_create _ _ _ _ _ (mkSession sid subj ip t2 t2 mfa st) t1 t2); [done|done|unfold tickd, tick; cbn; lia|cbn; lia|done..].
Qed.

Lemma touch_stepped id ip s : session_stepped clock token policy s (touch clock policy id ip s).2.
Proof.
  unfold touch. apply sm_bind_state. { apply sess_kept_stepped. intros. unfold validate. sm_walk; done. }
  intros x s1 (_ & Ex & Hr & (t1 & Ht1 & Hw) & _ & ->)%validate_Ok.
  apply sm_bind_state. { rewrite now_int_state. apply stepped_kept; cbn; [done|done|unfold tickd, tick; cbn; lia]. }
  intros t2 s2 [Ht2 ->]%now_int_Ok. apply sm_bind_state. { apply stepped_kept; cbn; [done|done|unfold tickd, tick; cbn; lia]. }
  intros y s2 [Hy ->]%sm_lift_Ok. unfold Session_init in Hy.
  apply bind_Ok in Hy as (? & _ & Hy). apply bind_Ok in Hy as (? & _ & Hy). apply bind_Ok in Hy as (? & _ & Hy).
  destruct (_ <? _)%Z eqn:Hlt in Hy; [done|]. apply Z.ltb_ge in Hlt. inversion Hy; subst y. clear Hy.
  sm_mod_step.
  split_and!; [done|unfold tickd, tick; cbn; lia|]. eapply (sx_touch _ _ _ _ _ id x t1 t2); [done|done|done|done|done|done|unfold tickd, tick; cbn; lia|done].
Qed.

(** Revocation only adds to the revoked sessions. *)
Lemma revoked_stepped id s s1 :
  is_Some (dget id (sn_sessions (ia_sessions s))) → s1 = mark_revoked id s → session_stepped clock token policy s s1.
Proof.
  intros H ->. split_and!; [done|done|]. apply sx_revoke with (R := {[id]}); [|done]. by intros i ->%elem_of_singleton.
Qed.

Lemma revoke_stepped id reason s : session_stepped clock token policy s (revoke clock id reason s).2.
Proof.
  unfold revoke. apply sm_bind_state; [apply stepped_refl|]. intros ? s1 [_ ->]%sm_lift_Ok. destruct (blank reason); [apply stepped_refl|].
  apply sm_bind_state; [apply stepped_refl|]. intros s0 s1 E. inversion E; subst s0 s1. destruct (dget id _) as [x|] eqn:Ex; [|apply stepped_refl].
  sm_mod_step.
  by apply logged_stepped, (revoked_stepped id).
Qed.

Lemma logout_stepped id s : session_stepped clock token policy s (logout clock policy id s).2.
Proof.
  unfold logout. apply sm_bind_state. { apply sess_kept_stepped. intros. unfold validate. sm_walk; done. }
  intros x s1 (_ & Ex & _ & _ & _ & ->)%validate_Ok.
  sm_mod_step.
  apply logged_stepped. split_and!; [done|unfold tickd, tick; cbn; lia|]. apply sx_revoke with (R := {[id]}); [|done]. by intros i ->%elem_of_singleton.
Qed.

(** The steps of a revocation loop: more sessions revoked, nothing else. *)
Definition revoked_only (s s' : Iam) : Prop :=
  ia_tokens s ≤ ia_tokens s' ∧ tick s ≤ tick s' ∧ sn_sessions (ia_sessions s') = sn_sessions (ia_sessions s) ∧
  sn_revoked (ia_sessions s) ⊆ sn_revoked (ia_sessions s') ∧
  ∀ id, id ∈ sn_revoked (ia_sessions s') → id ∈ sn_revoked (ia_sessions s) ∨ is_Some (dget id (sn_sessions (ia_sessions s))).

Lemma revoked_only_refl s : revoked_only s s.
Proof. split_and!; eauto. Qed.
Lemma revoked_only_trans s s1 s2 : revoked_only s s1 → revoked_only s1 s2 → revoked_only s s2.
Proof.
  intros (A1 & A2 & A3 & A4 & A5) (B1 & B2 & B3 & B4 & B5). split_and!; [lia|lia|congruence|by etrans|].
  intros id [H|H]%B5; [by apply A5|]. right. by rewrite <- A3.
Qed.
Lemma revoke_only id reason s : revoked_only s (revoke clock id reason s).2.
Proof.
  unfold revoke. apply sm_bind_state; [apply revoked_only_refl|]. intros ? s1 [_ ->]%sm_lift_Ok. destruct (blank reason); [apply revoked_only_refl|].
  apply sm_bind_state; [apply revoked_only_refl|]. intros s0 s1 E. inversion E; subst s0 s1. destruct (dget id _) as [x|] eqn:Ex; [|apply revoked_only_refl].
  sm_mod_step.
  match goal with |- revoked_only _ (log_event ?c ?e ?a ?b ?r ?t ?d ?u).2 => destruct (kept_state (log_event c e a b r t d) u) as (E1 & E2 & E3); [auto with sm|] end.
  unfold revoked_only. rewrite E1. split_and!; [done|done|done| |].
  - cbn. apply union_subseteq_r.
  - cbn. intros i [->%elem_of_singleton|Hi]%elem_of_union; [right; by rewrite Ex|by left].
Qed.
Lemma revoke_each_only subj reason l s : revoked_only s (revoke_each clock subj reason l s).2.
Proof.
  revert s. induction l as [|x l IH]; intros s; [apply revoked_only_refl|]. cbn [revoke_each].
  apply sm_bind_state; [apply revoked_only_refl|]. intros s0 s1 E. inversion E; subst s0 s1. destruct (_ && _); [|apply IH].
  apply sm_bind_state; [apply revoke_only|]. intros u s1 E1. apply (revoked_only_trans _ s1). { replace s1 with (revoke clock (ss_session_id x) reason s).2 by by rewrite E1. apply revoke_only. }
  apply sm_bind_state; [apply IH|]. intros n s2 E2. change (revoked_only s1 s2). replace s2 with (revoke_each clock subj reason l s1).2 by by rewrite E2. apply IH.
Qed.

Lemma revoked_only_stepped s s1 : revoked_only s s1 → session_stepped clock token policy s s1.
Proof.
  intros (H1 & H2 & H3 & H4 & H5). split_and!; [done|done|]. apply sx_revoke with (R := sn_revoked (ia_sessions s1) ∖ sn_revoked (ia_sessions s)).
  - intros id [Hi Hn]%elem_of_difference. by destruct (H5 id Hi).
  - destruct (ia_sessions s1) as [d r] eqn:E. cbn in *. rewrite H3. f_equal. apply set_eq. intros i. rewrite elem_of_union, elem_of_difference.
    destruct (decide (i ∈ sn_revoked (ia_sessions s))) as [Hi|Hi]; [|tauto]. specialize (H4 i Hi). tauto.
Qed.

Lemma revoke_all_stepped subj reason s : session_stepped clock token policy s (revoke_all clock subj reason s).2.
Proof.
  unfold revoke_all. apply sm_bind_state; [apply stepped_refl|]. intros ? s1 [_ ->]%sm_lift_Ok.
  apply sm_bind_state; [apply stepped_refl|]. intros s0 s1 E. inversion E; subst s0 s1. apply revoked_only_stepped, revoke_each_only.
Qed.

Lemma iam_op_sessions op s : session_stepped clock token policy s (iam_op clock token policy op s).2.
Proof.
  destruct op; cbn [iam_op]; rewrite ?void_state;
    first [apply create_stepped|apply touch_stepped|apply revoke_stepped|apply revoke_all_stepped|apply logout_stepped|idtac];
    apply sess_kept_stepped; intros y n t;
    unfold with_roles, add_approver, request_elevation, approve, deny, is_allowed, is_elevated, active_grants, validate,
      create_account, rotate, authorize, verify_local, pop_request; sm_walk; done.
Qed.
End steps.

(** ** Counting the values of a dict *)
Section count.
Context {A : Type}.
Implicit Types (d : list (pystr * A)) (f g : A → bool).

Lemma count_cons f x (l : list A) : length (filter (λ x, f x = true) (x :: l)) = (if f x then 1 else 0) + length (filter (λ x, f x = true) l).
Proof. rewrite filter_cons. destruct (f x) eqn:E; [by rewrite decide_True|]. by rewrite decide_False. Qed.

Lemma filter_length_sub f g (l : list A) : (∀ x, x ∈ l → g x = true → f x = true) → length (filter (λ x, g x = true) l) ≤ length (filter (λ x, f x = true) l).
Proof.
  induction l as [|x l IH]; intros H; [done|]. assert (∀ y, y ∈ l → g y = true → f y = true) as Hl by (intros y Hy; apply H; by right).
  specialize (IH Hl). rewrite !count_cons. specialize (H x (list_elem_of_here x l)). destruct (g x); [rewrite H by done; lia|]. destruct (f x); lia.
Qed.

Lemma count_dset f k v d : length (filter (λ x, f x = true) (dset k v d).*2) ≤ length (filter (λ x, f x = true) d.*2) + (if f v then 1 else 0).
Proof.
  induction d as [|[j w] d IH]; cbn [dset]; [by rewrite fmap_cons, count_cons, Nat.add_comm|].
  destruct (decide (k = j)); rewrite !fmap_cons, !count_cons; cbn [snd]; [|lia]. destruct (f v), (f w); lia.
Qed.

(** Replacing a value that counted. *)
Lemma count_replace f g k v w d :
  dget k d = Some w → (∀ x, x ∈ d.*2 → g x = true → f x = true) → (g v = true → f w = true) →
  length (filter (λ x, g x = true) (dset k v d).*2) ≤ length (filter (λ x, f x = true) d.*2).
Proof.
  induction d as [|[j u] d IH]; cbn [dget dset]; [done|]. intros Hw Hall Hv. rewrite !fmap_cons in *. cbn [snd] in *.
  assert (∀ x, x ∈ d.*2 → g x = true → f x = true) as Hd by (intros x Hx; apply Hall; by right).
  destruct (decide (k = j)).
  - injection Hw as ->. rewrite !fmap_cons, !count_cons. cbn [snd]. pose proof (filter_length_sub f g d.*2 Hd).
    destruct (g v); [rewrite (Hv eq_refl); lia|]. destruct (f w); lia.
  - specialize (IH Hw Hd Hv). rewrite !fmap_cons, !count_cons. cbn [snd].
    assert (g u = true → f u = true) as Hu by (apply Hall; left). destruct (g u); [rewrite (Hu eq_refl); lia|]. destruct (f u); lia.
Qed.
End count.

(** ** The invariant *)
Section inv.
Context (clock : nat → json) (token : nat → pystr) (policy : SessionPolicy) (Htok : ∀ m n, token m = token n → m = n).

Definition sess_issued (n : nat) (id : pystr) : Prop := ∃ k, k < n ∧ id = str "sess-" ++ token k.

Record session_inv (n : nat) (S : Sessions) : Prop := {
  sv_wf : wf_dict (sn_sessions S);
  sv_session : ∀ id x, dget id (sn_sessions S) = Some x →
    ss_session_id x = id ∧ sess_issued n id ∧ ip_allowed policy (ss_source_ip x) = Ok true ∧ (ss_created_at x <= ss_last_active_at x)%Z;
  sv_revoked : ∀ id, id ∈ sn_revoked S → is_Some (dget id (sn_sessions S))
}.

Lemma sess_issued_mono n n' id : n ≤ n' → sess_issued n id → sess_issued n' id.
Proof. intros Hn (k & Hk & ->). exists k. split; [lia|done]. Qed.
Lemma session_inv_mono n n' S : n ≤ n' → session_inv n S → session_inv n' S.
Proof.
  intros Hn [H1 H2 H3]. constructor; [done| |done]. intros id x Hx. destruct (H2 id x Hx) as (? & ? & ? & ?). split_and!; eauto using sess_issued_mono.
Qed.

Lemma sess_fresh S n : session_inv n S → dget (str "sess-" ++ token n) (sn_sessions S) = None.
Proof using Htok.
  intros HS. destruct (dget _ _) as [x|] eqn:E; [|done]. apply (sv_session _ _ HS) in E as (_ & (k & Hk & E) & _).
  apply app_inv_head in E. apply Htok in E. lia.
Qed.

Lemma session_step_inv s s' :
  session_stepped clock token policy s s' → session_inv (ia_tokens s) (ia_sessions s) → session_inv (ia_tokens s') (ia_sessions s').
Proof.
  intros (Hn & _ & Hs) HS. destruct Hs as [E|x t1 t2 _ _ _ Hk Eid Ec El Hip _ E|id x t1 t2 Hx Hr _ _ _ Hle _ E|R HR E]; rewrite E.
  - by eapply session_inv_mono.
  - destruct HS as [H1 H2 H3]. constructor; cbn [sn_sessions sn_revoked].
    + by apply wf_dset.
    + intros id y. rewrite dget_dset. case_decide as Ey; [|intros Hy; destruct (H2 id y Hy) as (? & ? & ? & ?); split_and!; eauto using sess_issued_mono].
      intros [= <-]. split_and!; [done| |done|lia]. exists (ia_tokens s). by rewrite Ey.
    + intros id Hi. rewrite dget_dset. case_decide; [done|]. by apply H3.
  - apply (session_inv_mono _ _ _ Hn) in HS. destruct HS as [H1 H2 H3]. constructor; cbn [sn_sessions sn_revoked].
    + by apply wf_dset.
    + intros i y. rewrite dget_dset. case_decide as Ey; [|apply H2]. subst i. intros [= <-]. cbn. destruct (H2 id x Hx) as (? & ? & ? & ?). done.
    + intros i Hi. rewrite dget_dset. case_decide; [done|]. by apply H3.
  - apply (session_inv_mono _ _ _ Hn) in HS. destruct HS as [H1 H2 H3]. constructor; cbn [sn_sessions sn_revoked]; [done|done|].
    intros id [Hi|Hi]%elem_of_union; auto.
Qed.

(** ** What a session keeps *)
Definition same_login (x y : Session) : Prop :=
  ss_session_id y = ss_session_id x ∧ ss_subject_id y = ss_subject_id x ∧ ss_source_ip y = ss_source_ip x ∧ ss_created_at y = ss_created_at x ∧
  ss_mfa_verified y = ss_mfa_verified x ∧ ss_subject_type y = ss_subject_type x.

Lemma session_step_login s s' id x :
  session_stepped clock token policy s s' → session_inv (ia_tokens s) (ia_sessions s) →
  dget id (sn_sessions (ia_sessions s)) = Some x → ∃ y, dget id (sn_sessions (ia_sessions s')) = Some y ∧ same_login x y.
Proof using Htok.
  intros (Hn & _ & Hs) HS Hx. destruct Hs as [E|z t1 t2 _ _ _ Hk Eid Ec El Hip _ E|i z t1 t2 Hz Hr _ _ _ Hle _ E|R HR E]; rewrite E; cbn [sn_sessions].
  - by exists x.
  - exists x. split; [|done]. rewrite dget_dset_ne; [done|]. intros ->. pose proof (sess_fresh _ _ HS) as Hf. by rewrite <- Eid, Hx in Hf.
  - rewrite dget_dset. case_decide as Ei; [|by exists x]. subst i. eexists. split; [reflexivity|]. assert (z = x) as -> by congruence. done.
  - by exists x.
Qed.

Lemma session_step_revoked s s' id :
  session_stepped clock token policy s s' → id ∈ sn_revoked (ia_sessions s) → id ∈ sn_revoked (ia_sessions s').
Proof. intros (_ & _ & Hs) Hi. destruct Hs as [E|? ? ? _ _ _ _ _ _ _ _ _ E|? ? ? ? _ _ _ _ _ _ _ E|R HR E]; rewrite E; cbn; [done..|]. apply elem_of_union. by right. Qed.

(** ** How many are live *)
Context (f : nat → Z) (Hf : ∀ n, clock n = JInt (f n)) (Hmono : ∀ m n, m ≤ n → (f m <= f n)%Z).

Definition live_at (subj : pystr) (t : Z) (S : Sessions) : nat := length (filter (λ x, live policy subj t S x = true) (sn_sessions S).*2).

Lemma live_antitone subj t t' S S' x :
  (t <= t')%Z → sn_revoked S ⊆ sn_revoked S' → live policy subj t' S' x = true → live policy subj t S x = true.
Proof.
  intros Ht HR. unfold live, within_timeouts. rewrite !andb_true_iff, !negb_true_iff, !bool_decide_eq_true, !bool_decide_eq_false, !Z.ltb_lt.
  intros ((? & Hn) & ? & ?). split_and!; [done|by intros ?%HR|lia|lia].
Qed.

Definition live_bounded (s : Iam) : Prop := ∀ subj t, (f (tick s) <= t)%Z → (Z.of_nat (live_at subj t (ia_sessions s)) <= sp_max_concurrent policy)%Z.

Lemma session_step_bounded s s' :
  session_stepped clock token policy s s' → session_inv (ia_tokens s) (ia_sessions s) → live_bounded s → live_bounded s'.
Proof using Hf Hmono.
  intros (Hn & Ht & Hs) HS Hb subj t Hle. specialize (Hmono (tick s) (tick s') Ht) as Hm.
  destruct Hs as [E|x t1 t2 Ht1 Ht2 _ Hk Eid Ec El Hip Hlim E|id x t1 t2 Hx Hr Ht1 Hw Ht2 _ _ E|R HR E]; unfold live_at; rewrite E; cbn [sn_sessions].
  - apply Hb. lia.
  - rewrite Hf in Ht1. injection Ht1 as <-. set (S' := mkSessions _ _). pose proof (count_dset (live policy subj t S') (ss_session_id x) x (sn_sessions (ia_sessions s))) as Hc.
    assert (length (filter (λ y, live policy subj t S' y = true) (sn_sessions (ia_sessions s)).*2) ≤ live_at subj (f (tick s)) (ia_sessions s)) as Hc'.
    { apply filter_length_sub. intros y _. apply live_antitone; [lia|done]. }
    specialize (Hb subj (f (tick s)) (Z.le_refl _)). unfold live_at in Hb, Hc'. destruct (live policy subj t S' x) eqn:El'; [|lia].
    unfold live in El'. apply andb_true_iff in El' as [El' _]. apply andb_true_iff in El' as [<-%bool_decide_eq_true _]. lia.
  - rewrite Hf in Ht1. injection Ht1 as <-. specialize (Hb subj (f (tick s)) (Z.le_refl _)). etrans; [|exact Hb]. apply inj_le. unfold live_at.
    eapply count_replace; [exact Hx| |].
    + intros y _. apply live_antitone; [lia|done].
    + unfold live. cbn [ss_subject_id ss_session_id sn_revoked]. intros H. apply andb_true_iff in H as [H _]. by rewrite H, Hw.
  - specialize (Hb subj t ltac:(lia)). etrans; [|exact Hb]. apply inj_le. unfold live_at. apply filter_length_sub. intros y _. apply live_antitone; [done|]. apply union_subseteq_r.
Qed.
End inv.

(** ** Ending sessions *)
Section ends.
Context (clock : nat → json) (token : nat → pystr) (policy : SessionPolicy).

Lemma logged_Ok ev subj ip result st details s u s' : log_event clock ev subj ip result st details s = (Ok u, s') → ia_sessions s' = ia_sessions s.
Proof.
  intros E. destruct (log_event_state clock ev subj ip result st details s) as (r & l & E'). rewrite E' in E. by inversion E; subst.
Qed.

Lemma revoke_marks id reason s u s' : revoke clock id reason s = (Ok u, s') → id ∈ sn_revoked (ia_sessions s').
Proof.
  intros H. unfold revoke in H. apply sm_bind_Ok in H as (i & s1 & [_ ->]%sm_lift_Ok & H). destruct (blank reason); [done|].
  apply sm_bind_Ok in H as (s0 & s1 & E & H). inversion E; subst s0 s1. destruct (dget id _) as [x|]; [|done].
  apply sm_bind_Ok in H as ([] & s1 & Em & H). inversion Em; subst s1. apply logged_Ok in H. rewrite H. cbn. apply elem_of_union_l. by apply elem_of_singleton.
Qed.

Lemma logout_marks id s u s' : logout clock policy id s = (Ok u, s') → id ∈ sn_revoked (ia_sessions s').
Proof.
  intros H. unfold logout in H. apply sm_bind_Ok in H as (x & s1 & _ & H). apply sm_bind_Ok in H as ([] & s2 & Em & H).
  inversion Em; subst s2. apply logged_Ok in H. rewrite H. cbn. apply elem_of_union_l. by apply elem_of_singleton.
Qed.

Lemma revoke_each_marks subj reason l s n s' :
  revoke_each clock subj reason l s = (Ok n, s') → ∀ x, x ∈ l → ss_subject_id x = subj → ss_session_id x ∈ sn_revoked (ia_sessions s').
Proof.
  revert s n. induction l as [|y l IH]; intros s n H x Hx Es; [by apply not_elem_of_nil in Hx|]. cbn [revoke_each] in H.
  apply sm_bind_Ok in H as (s0 & s1 & E & H). inversion E; subst s0 s1.
  pose proof (λ z, revoke_each_only clock subj reason l z) as Ho. unfold revoked_only in Ho.
  destruct (_ && _) eqn:Ec.
  - apply sm_bind_Ok in H as (u & s1 & Er & H). apply sm_bind_Ok in H as (m & s2 & Em & H). inversion H; subst s'.
    apply elem_of_cons in Hx as [->|Hx]; [|by eapply IH]. apply revoke_marks in Er. destruct (Ho s1) as (_ & _ & _ & Hs & _). rewrite Em in Hs. by apply Hs.
  - apply elem_of_cons in Hx as [->|Hx]; [|by eapply IH]. rewrite Es, bool_decide_true in Ec by done. cbn [andb] in Ec. apply negb_false_iff, bool_decide_eq_true in Ec.
    destruct (Ho s) as (_ & _ & _ & Hs & _). rewrite H in Hs. by apply Hs.
Qed.

Lemma revoke_all_marks subj reason s n s' :
  revoke_all clock subj reason s = (Ok n, s') → ∀ id x, dget id (sn_sessions (ia_sessions s')) = Some x → ss_session_id x = id → ss_subject_id x = subj →
  id ∈ sn_revoked (ia_sessions s').
Proof.
  intros H id x Hx Eid Es. unfold revoke_all in H. apply sm_bind_Ok in H as (u & s1 & [_ ->]%sm_lift_Ok & H).
  apply sm_bind_Ok in H as (s0 & s1 & E & H). inversion E; subst s0 s1.
  destruct (revoke_each_only clock subj reason (sn_sessions (ia_sessions s)).*2 s) as (_ & _ & Hd & _). rewrite H in Hd. cbn [snd] in Hd. rewrite Hd in Hx.
  rewrite <- Eid. eapply revoke_each_marks; [exact H| |done]. apply list_elem_of_fmap. exists (id, x). split; [done|]. by apply dget_Some_elem.
Qed.

Lemma iam_run_revoked ops s id :
  id ∈ sn_revoked (ia_sessions s) → id ∈ sn_revoked (ia_sessions (iam_run clock token policy ops s)).
Proof.
  intros H. apply (iam_run_inv clock token policy (λ s', id ∈ sn_revoked (ia_sessions s'))); [|done].
  intros op s1 Hs. pose proof (session_step_revoked clock token policy _ _ id (iam_op_sessions clock token policy op s1) Hs) as Hs'.
  by destruct (iam_op clock token policy op s1) as [[]?].
Qed.

Lemma revoked_invalid id ip s : id ∈ sn_revoked (ia_sessions s) → is_ok (validate clock policy id ip s).1 = false.
Proof.
  intros H. destruct (validate clock policy id ip s) as [[x|e] s1] eqn:E; [|done]. apply validate_Ok in E as (_ & _ & Hn & _). done.
Qed.
End ends.

Section theorems.
Context (clock : nat → json) (token : nat → pystr) (policy : SessionPolicy) (Htok : ∀ m n, token m = token n → m = n).

Lemma iam_run_sessions ops s :
  session_inv token policy (ia_tokens s) (ia_sessions s) →
  session_inv token policy (ia_tokens (iam_run clock token policy ops s)) (ia_sessions (iam_run clock token policy ops s)).
Proof.
  intros H. apply (iam_run_inv clock token policy (λ s, session_inv token policy (ia_tokens s) (ia_sessions s))); [|done].
  intros op s1 Hs. pose proof (session_step_inv clock token policy _ _ (iam_op_sessions clock token policy op s1) Hs) as Hs'.
  by destruct (iam_op clock token policy op s1) as [[]?].
Qed.

Lemma session_inv_new : session_inv token policy (ia_tokens Iam_new) (ia_sessions Iam_new).
Proof. constructor; cbn; [constructor|done|]. by intros id ?%not_elem_of_empty. Qed.

Lemma same_login_trans x y z : same_login x y → same_login y z → same_login x z.
Proof. unfold same_login. intros (? & ? & ? & ? & ? & ?) (? & ? & ? & ? & ? & ?). split_and!; congruence. Qed.

Lemma iam_run_login ops s id x :
  session_inv token policy (ia_tokens s) (ia_sessions s) → dget id (sn_sessions (ia_sessions s)) = Some x →
  ∃ y, dget id (sn_sessions (ia_sessions (iam_run clock token policy ops s))) = Some y ∧ same_login x y.
Proof using Htok.
  intros Hi Hx.
  apply (iam_run_inv clock token policy (λ s', session_inv token policy (ia_tokens s') (ia_sessions s') ∧
    ∃ y, dget id (sn_sessions (ia_sessions s')) = Some y ∧ same_login x y)).
  - intros op s1 (Hs & y & Hy & Hxy). pose proof (iam_op_sessions clock token policy op s1) as Hst.
    pose proof (session_step_inv clock token policy _ _ Hst Hs) as Hs'. destruct (session_step_login clock token policy Htok _ _ id y Hst Hs Hy) as (z & Hz & Hyz).
    destruct (iam_op clock token policy op s1) as [[]?]; (split; [done|]; exists z; split; [done|by eapply same_login_trans]).
  - split; [done|]. by exists x.
Qed.

Lemma iam_run_bounded f ops :
  (∀ n, clock n = JInt (f n)) → (∀ m n, m ≤ n → (f m <= f n)%Z) → (0 <= sp_max_concurrent policy)%Z →
  live_bounded policy f (iam_run clock token policy ops Iam_new).
Proof.
  intros Hf Hm Hp.
  apply (iam_run_inv clock token policy (λ s, session_inv token policy (ia_tokens s) (ia_sessions s) ∧ live_bounded policy f s)).
  - intros op s1 [Hs Hb]. pose proof (iam_op_sessions clock token policy op s1) as Hst.
    pose proof (session_step_inv clock token policy _ _ Hst Hs) as Hs'. pose proof (session_step_bounded clock token policy f Hf Hm _ _ Hst Hs Hb) as Hb'.
    by destruct (iam_op clock token policy op s1) as [[]?].
  - split; [apply session_inv_new|]. intros subj t _. done.
Qed.

(** C23: Sessions are bound to their login, expire, end for good and are few.
    After any operations of the managers, a session validates exactly when it is
    stored under its id, is not revoked, the clock reads a time within its
    absolute and its idle timeout, and the address supplied is the one it was
    created from, which the policy's networks allow.  Later operations keep its
    subject, address, creation time, MFA flag and subject type.  Once a
    revocation, a logout or a revocation of all sessions of the subject has
    returned, no validation of the session succeeds however the managers go on.
    With a clock of integers that does not run backwards, no subject ever has
    more live sessions than the policy's limit.  Random tokens are assumed
    distinct. *)
Theorem sessions_safe ops ops' :
  let s := iam_run clock token policy ops Iam_new in
  (∀ id ip x, (validate clock policy id ip s).1 = Ok x ↔
     identifier id = Ok id ∧ dget id (sn_sessions (ia_sessions s)) = Some x ∧ id ∉ sn_revoked (ia_sessions s) ∧
     (∃ t, clock (tick s) = JInt t ∧ (t < ss_created_at x + sp_session_timeout policy ∧ t < ss_last_active_at x + sp_idle_timeout policy)%Z) ∧
     (∀ i, ip = Some i → i = ss_source_ip x)) ∧
  (∀ id x, dget id (sn_sessions (ia_sessions s)) = Some x →
     ss_session_id x = id ∧ ip_allowed policy (ss_source_ip x) = Ok true ∧
     ∃ y, dget id (sn_sessions (ia_sessions (iam_run clock token policy ops' s))) = Some y ∧ same_login x y) ∧
  (∀ id ip s1, (∃ reason, revoke clock id reason s = (Ok tt, s1)) ∨ logout clock policy id s = (Ok tt, s1) ∨
      (∃ reason n x, revoke_all clock (ss_subject_id x) reason s = (Ok n, s1) ∧ dget id (sn_sessions (ia_sessions s1)) = Some x) →
     is_ok (validate clock policy id ip (iam_run clock token policy ops' s1)).1 = false) ∧
  (∀ f subj t, (∀ n, clock n = JInt (f n)) → (∀ m n, m ≤ n → (f m <= f n)%Z) → (0 <= sp_max_concurrent policy)%Z → (f (tick s) <= t)%Z →
     (Z.of_nat (live_at policy subj t (ia_sessions s)) <= sp_max_concurrent policy)%Z).
Proof using Htok.
  intros s. pose proof (iam_run_sessions ops Iam_new session_inv_new) as Hi. fold s in Hi. split; [|split; [|split]].
  - intros id ip x. transitivity (validate clock policy id ip s = (Ok x, tickd s)).
    + destruct (validate clock policy id ip s) as [r s1] eqn:E. cbn [fst]. split; [|by intros [= -> _]]. intros ->.
      pose proof E as E'. apply validate_Ok in E' as (_ & _ & _ & _ & _ & ->). done.
    + rewrite validate_Ok. unfold within_timeouts. setoid_rewrite andb_true_iff. setoid_rewrite Z.ltb_lt. naive_solver.
  - intros id x Hx. destruct (sv_session _ _ _ _ Hi id x Hx) as (? & _ & ? & _). split_and!; [done|done|by apply iam_run_login].
  - intros id ip s1 H. apply revoked_invalid, iam_run_revoked. destruct H as [[reason H]|[H|(reason & n & x & H & Hx)]].
    + by eapply revoke_marks.
    + by eapply logout_marks.
    + eapply revoke_all_marks; [exact H|exact Hx| |done]. pose proof (revoke_all_stepped clock token policy (ss_subject_id x) reason s) as Hst.
      rewrite H in Hst. apply session_step_inv in Hst; [|done]. by apply (sv_session _ _ _ _ Hst).
  - intros f subj t Hf Hm Hp Ht. by apply (iam_run_bounded f ops Hf Hm Hp).
Qed.
End theorems.

(** ** Witness *)
Definition demo_login : list IamOp := [OCreateSession (str "ann@corp") (str "10.0.0.1") true SUBJECT_HUMAN].
Definition demo_logout : SM Iam unit := logout demo_clock demo_session_policy (str "sess-a").
Definition demo_validated (s : Iam) : bool := is_ok (validate demo_clock demo_session_policy (str "sess-a") (Some (str "10.0.0.1")) s).1.

Lemma demo_logged_in : demo_validated (demo_iam demo_login) = true ∧ (demo_logout (demo_iam demo_login)).1 = Ok tt.
Proof. vm_compute. done. Qed.

Lemma sessions_safe_witness :
  demo_validated (demo_iam demo_login) = true ∧ demo_validated (demo_logout (demo_iam demo_login)).2 = false ∧
  (Z.of_nat (live_at demo_session_policy (str "ann@corp") 5000 (ia_sessions (demo_iam demo_login))) <= 3)%Z.
Proof.
  destruct demo_logged_in as [H1 H2]. pose proof (sessions_safe demo_clock demo_token demo_session_policy demo_token_inj demo_login []) as (_ & _ & H3 & H4).
  split; [exact H1|]. split.
  - apply (H3 (str "sess-a") (Some (str "10.0.0.1")) (demo_logout (demo_iam demo_login)).2). right. left. fold (demo_iam demo_login).
    change ((demo_logout (demo_iam demo_login)) = (Ok tt, (demo_logout (demo_iam demo_login)).2)). rewrite <- H2. apply surjective_pairing.
  - apply (H4 (λ n, (1000 + Z.of_nat n)%Z)); [done|intros; lia|done|]. vm_compute. discriminate.
Defined.
