(* ===== verification/AccountTheorems.v ===== *)
(** * Service accounts are never privileged; deny overrides; privileged actions need MFA *)

From Stdlib Require Import ZArith NArith Lia.
From S2P Require Import Prelude PyData Sha256 PyFloat Json JsonFacts Core CoreFacts Builtins NetAddr IamEvents IamLogFacts IamAccess Totp Iam IamFacts IamTheorems SessionTheorems.

(** ** Service accounts, policies over attributes, and MFA *)

(** ** The steps of the accounts *)
Definition unprivileged (a : ServiceAccount) : Prop := ∀ p, p ∈ sa_permissions a → pm_category p ∉ FORBIDDEN_SERVICE_PERMISSIONS.
Definition account_ok (a : ServiceAccount) : Prop := unprivileged a ∧ (1 <= sa_credential_generation a)%Z.

Lemma account_init_ok a b : ServiceAccount_init a = Ok b → b = a ∧ account_ok a.
Proof.
  unfold ServiceAccount_init. intros H. apply bind_Ok in H as (? & _ & H). pass_guard H. apply bind_Ok in H as (? & _ & H).
  destruct (existsb _ _) eqn:E; [done|]. cbn [mbind res_bind] in H. destruct (_ <? 1)%Z eqn:Eg; [done|]. inversion H; subst b. split; [done|].
  split; [|lia]. intros p Hp Hc. apply (eq_true_false_abs _ (proj2 (existsb_iff _ _) (ex_intro _ p (conj Hp (bool_decide_eq_true_2 _ Hc)))) E).
Qed.

Section steps.
Context (clock : nat → json) (token : nat → pystr) (policy : SessionPolicy).

Definition svc_id (k : nat) : pystr := str "svc-" ++ token k.
Definition svc_key (k : nat) : pystr := str "svckey-" ++ token k.

Inductive account_step (n n' : nat) (c : Accounts) : Accounts → Prop :=
  | at_same : account_step n n' c c
  | at_create a k : account_ok a → sa_account_id a = svc_id k → n ≤ k < n' →
      account_step n n' c (mkAccounts (dset (sa_account_id a) a (ac_accounts c)) (ac_credential_hashes c))
  | at_credential a k h k' : account_ok a → sa_account_id a = svc_id k → n ≤ k < n' → hash_credential (svc_key k') = Ok h → n ≤ k' < n' →
      account_step n n' c (mkAccounts (dset (sa_account_id a) a (ac_accounts c)) (dset h (sa_account_id a) (ac_credential_hashes c)))
  | at_drop id : account_step n n' c (mkAccounts (ac_accounts c) (drop_credentials id (ac_credential_hashes c)))
  | at_rotate id a b h k : dget id (ac_accounts c) = Some a → account_ok b → sa_account_id b = sa_account_id a →
      hash_credential (svc_key k) = Ok h → n ≤ k < n' →
      account_step n n' c (mkAccounts (dset id b (ac_accounts c)) (dset h id (drop_credentials id (ac_credential_hashes c)))).

Definition account_stepped (s s' : Iam) : Prop :=
  ia_tokens s ≤ ia_tokens s' ∧ account_step (ia_tokens s) (ia_tokens s') (ia_accounts s) (ia_accounts s').

Lemma create_account_stepped name owner ps s : account_stepped s (create_account token name owner ps s).2.
Proof.
  unfold create_account. destruct (blank name); [split; [done|constructor]|]. apply sm_bind_state; [split; [done|constructor]|].
  intros o s1 [_ ->]%sm_lift_Ok. apply sm_bind_state; [split; [cbn; lia|constructor]|]. intros tok s1 E. unfold new_token in E. inversion E; subst tok s1. clear E.
  change (str "svc-" ++ token (ia_tokens s)) with (svc_id (ia_tokens s)).
  apply sm_bind_state; [split; [cbn; lia|constructor]|]. intros ? s1 [[-> Ha]%account_init_ok ->]%sm_lift_Ok.
  apply sm_bind_state; [split; [cbn; lia|constructor]|]. intros cred s1 E. unfold new_token in E. inversion E; subst cred s1. clear E. sm_mod_step.
  cbn [ia_tokens]. change (str "svckey-" ++ token (S (ia_tokens s))) with (svc_key (S (ia_tokens s))).
  set (a := mkAccount _ _ _ _ _) in *. apply sm_bind_state.
  { split; [cbn; lia|]. cbn [snd mret SM_ret set_accounts ia_accounts ia_tokens ac_accounts ac_credential_hashes]. eapply (at_create _ _ _ a (ia_tokens s)); [done|done|cbn; lia]. }
  intros h s1 [Hh ->]%sm_lift_Ok. sm_mod_step. split; [cbn; lia|]. cbn [snd mret SM_ret set_accounts ia_accounts ia_tokens ac_accounts ac_credential_hashes]. eapply (at_credential _ _ _ a (ia_tokens s) h (S (ia_tokens s))); [done|done|cbn; lia|done|cbn; lia].
Qed.

Lemma rotate_stepped id s : account_stepped s (rotate token id s).2.
Proof.
  unfold rotate. apply sm_bind_state; [split; [done|constructor]|]. intros s0 s1 E. inversion E; subst s0 s1. clear E.
  destruct (dget id _) as [a|] eqn:Ea; [|split; [done|constructor]]. apply sm_bind_state; [split; [done|constructor]|].
  intros b s1 [[-> Hb]%account_init_ok ->]%sm_lift_Ok. sm_mod_step. apply sm_bind_state; [split; [cbn; lia|constructor]|].
  intros cred s1 E. unfold new_token in E. inversion E; subst cred s1. clear E. cbn [set_accounts ia_tokens].
  change (str "svckey-" ++ token (ia_tokens s)) with (svc_key (ia_tokens s)). apply sm_bind_state; [split; [cbn; lia|constructor]|].
  intros h s1 [Hh ->]%sm_lift_Ok. sm_mod_step. split; [cbn; lia|]. cbn [snd mret SM_ret set_accounts ia_accounts ia_tokens ac_accounts ac_credential_hashes]. eapply (at_rotate _ _ _ id a _ h (ia_tokens s)); [done|done|done|done|cbn; lia].
Qed.

(** Elsewhere the accounts are kept. *)
Definition acc_kept (c : Accounts) (n : nat) (s : Iam) : Prop := ia_accounts s = c ∧ n ≤ ia_tokens s.
Lemma acc_kept_free c n : log_free (acc_kept c n).
Proof. by intros s l [? ?]. Qed.
Lemma acc_kept_token c n : preserves (acc_kept c n) (new_token token).
Proof. intros s [? ?]. split; cbn; [done|lia]. Qed.
#[local] Hint Resolve acc_kept_free acc_kept_token : sm.
#[local] Hint Extern 2 (preserves (acc_kept _ _) (sm_mod _)) => (apply preserves_mod; done) : sm.
Lemma acc_kept_revoke_each c n subj reason xs : preserves (acc_kept c n) (revoke_each clock subj reason xs).
Proof. induction xs as [|x xs IH]; cbn [revoke_each]; [auto with sm|]. unfold revoke. sm_walk; done. Qed.
Lemma acc_kept_stepped {A} (m : SM Iam A) s : (∀ c n, preserves (acc_kept c n) m) → account_stepped s (m s).2.
Proof.
  intros H. specialize (H (ia_accounts s) (ia_tokens s) s (conj eq_refl (le_n _))). destruct (m s) as [[a|e] s']; destruct H as [H1 H2]; cbn;
    (split; [done|rewrite H1; constructor]).
Qed.

Lemma iam_op_accounts op s : account_stepped s (iam_op clock token policy op s).2.
Proof.
  destruct op; cbn [iam_op]; rewrite ?void_state; first [apply create_account_stepped|apply rotate_stepped|idtac];
    apply acc_kept_stepped; intros c n;
    unfold with_roles, add_approver, request_elevation, approve, deny, is_allowed, is_elevated, active_grants, create_session, active_for, touch, validate,
      revoke, revoke_all, logout, authorize, verify_local, mark_revoked, pop_request; try (sm_walk; done).
  apply preserves_bind; [auto with sm|]. intros _. apply preserves_bind; [auto with sm|]. intros s'. apply acc_kept_revoke_each.
Qed.
End steps.

(** ** The invariant *)
Section inv.
Context (clock : nat → json) (token : nat → pystr) (policy : SessionPolicy) (Htok : ∀ m n, token m = token n → m = n).

Record account_inv (n : nat) (c : Accounts) : Prop := {
  av_accounts : ∀ id a, dget id (ac_accounts c) = Some a → sa_account_id a = id ∧ account_ok a ∧ ∃ k, k < n ∧ id = svc_id token k;
  av_wf : wf_dict (ac_credential_hashes c);
  av_hashes : ∀ h id, (h, id) ∈ ac_credential_hashes c → is_Some (dget id (ac_accounts c)) ∧ ∃ k, k < n ∧ hash_credential (svc_key token k) = Ok h;
  av_once : NoDup (ac_credential_hashes c).*2
}.

Lemma account_inv_mono n n' c : n ≤ n' → account_inv n c → account_inv n' c.
Proof.
  intros Hn [H1 H2 H3 H4]. constructor; [|done| |done].
  - intros id a Ha. destruct (H1 id a Ha) as (? & ? & k & ? & ?). split_and!; [done|done|]. exists k. split; [lia|done].
  - intros h id Hh. destruct (H3 h id Hh) as (? & k & ? & ?). split; [done|]. exists k. split; [lia|done].
Qed.

Lemma elem_of_dset (k x : pystr) (v w : pystr) (d : dict pystr) : (x, w) ∈ dset k v d → (x = k ∧ w = v) ∨ (x, w) ∈ d.
Proof.
  induction d as [|[j u] d IH]; cbn [dset].
  - intros [= -> ->]%list_elem_of_singleton. by left.
  - destruct (decide (k = j)) as [->|]; (intros [E|H]%elem_of_cons; [injection E as -> ->|]).
    + by left.
    + right. by right.
    + right. by left.
    + destruct (IH H); [by left|right; by right].
Qed.

(** A hash that is added leaves each account at most one, when it had none. *)
Lemma dset_values_once (h id : pystr) (d : dict pystr) : id ∉ d.*2 → NoDup d.*2 → NoDup (dset h id d).*2.
Proof.
  induction d as [|[j u] d IH]; cbn [dset]; [intros _ _; apply NoDup_singleton|]. rewrite !fmap_cons. cbn [snd]. rewrite not_elem_of_cons, NoDup_cons.
  intros [Hne Hn] [Hu Hd]. destruct (decide (h = j)); rewrite fmap_cons; cbn [snd]; apply NoDup_cons; [done|]. split; [|by apply IH].
  intros Hin. apply list_elem_of_fmap in Hin as ([x w] & -> & Hw). apply elem_of_dset in Hw as [[_ ->]|Hw]; [done|].
  apply Hu. apply list_elem_of_fmap. by exists (x, w).
Qed.

Lemma drop_sub id (d : dict pystr) kv : kv ∈ drop_credentials id d → kv ∈ d ∧ kv.2 ≠ id.
Proof. unfold drop_credentials. intros H. apply list_elem_of_filter in H as [? ?]. done. Qed.
Lemma drop_values_once id (d : dict pystr) : NoDup d.*2 → NoDup (drop_credentials id d).*2.
Proof. intros H. eapply sublist_NoDup; [exact H|]. apply fmap_sublist, sublist_filter. Qed.
Lemma drop_wf id (d : dict pystr) : wf_dict d → wf_dict (drop_credentials id d).
Proof. unfold wf_dict. intros H. eapply sublist_NoDup; [exact H|]. apply fmap_sublist, sublist_filter. Qed.

Lemma svc_fresh n k c : account_inv n c → n ≤ k → dget (svc_id token k) (ac_accounts c) = None.
Proof using Htok.
  intros Hc Hk. destruct (dget _ _) as [a|] eqn:E; [|done]. apply (av_accounts _ _ Hc) in E as (_ & _ & j & Hj & E).
  apply app_inv_head, Htok in E. lia.
Qed.
Lemma is_Some_dset {A} (k x : pystr) (v : A) d : is_Some (dget x d) → is_Some (dget x (dset k v d)).
Proof. rewrite dget_dset. by case_decide. Qed.

Lemma account_step_inv n n' c c' : n ≤ n' → account_step token n n' c c' → account_inv n c → account_inv n' c'.
Proof using Htok.
  intros Hn Hs Hi. pose proof (account_inv_mono _ _ _ Hn Hi) as [H1 H2 H3 H4].
  destruct Hs as [|a k Ha Eid Hk|a k h k' Ha Eid Hk Hh Hk'|id|id a b h k Ea Hb Eid Hh Hk].
  - done.
  - pose proof (svc_fresh n k c Hi (proj1 Hk)) as Hf. rewrite <- Eid in Hf. constructor; cbn [ac_accounts ac_credential_hashes]; [|done| |done].
    + intros i b. rewrite dget_dset. case_decide as Ei; [|apply H1]. intros [= <-]. subst i. split_and!; [done|done|]. exists k. split; [lia|done].
    + intros h i Hh. destruct (H3 h i Hh). split; [by apply is_Some_dset|done].
  - pose proof (svc_fresh n k c Hi (proj1 Hk)) as Hf. rewrite <- Eid in Hf. constructor; cbn [ac_accounts ac_credential_hashes].
    + intros i b. rewrite dget_dset. case_decide as Ei; [|apply H1]. intros [= <-]. subst i. split_and!; [done|done|]. exists k. split; [lia|done].
    + by apply wf_dset.
    + intros x i [[-> ->]|Hx]%elem_of_dset.
      * rewrite dget_dset_eq. split; [done|]. exists k'. split; [lia|done].
      * destruct (H3 x i Hx). split; [by apply is_Some_dset|done].
    + apply dset_values_once; [|done]. intros Hin. apply list_elem_of_fmap in Hin as ([x w] & E & Hw). cbn in E. subst w.
      apply H3 in Hw as [[? Hw] _]. congruence.
  - constructor; cbn [ac_accounts ac_credential_hashes]; [done|by apply drop_wf| |by apply drop_values_once].
    intros h i [Hh _]%drop_sub. by apply H3.
  - destruct (H1 id a Ea) as (Eia & _ & Hk'). constructor; cbn [ac_accounts ac_credential_hashes].
    + intros i z. rewrite dget_dset. case_decide as Ei; [|apply H1]. intros [= <-]. subst i. split_and!; [congruence|done|done].
    + by apply wf_dset, drop_wf.
    + intros x i [[-> ->]|Hx]%elem_of_dset.
      * rewrite dget_dset_eq. split; [done|]. exists k. split; [lia|done].
      * apply drop_sub in Hx as [Hx _]. destruct (H3 x i Hx). split; [by apply is_Some_dset|done].
    + apply dset_values_once; [|by apply drop_values_once]. intros Hin. apply list_elem_of_fmap in Hin as ([x w] & E & Hw). apply drop_sub in Hw as [_ Hw]. done.
Qed.

(** The credentials of an account that were issued from the [k0]th token on. *)
Definition issued_since (k0 : nat) (id : pystr) (s : Iam) : Prop :=
  k0 ≤ ia_tokens s ∧ ∀ h, (h, id) ∈ ac_credential_hashes (ia_accounts s) → ∃ k, k0 ≤ k ∧ hash_credential (svc_key token k) = Ok h.

Lemma issued_since_step k0 id s s' : account_stepped token s s' → issued_since k0 id s → issued_since k0 id s'.
Proof.
  intros [Hn Hs] [Hk H]. split; [lia|]. destruct Hs as [|a k Ha Eid Hk1|a k h k' Ha Eid Hk1 Hh Hk'|id'|id' a b h k Ea Hb Eid Hh Hk1];
    cbn [ac_credential_hashes]; intros x.
  - apply H.
  - apply H.
  - intros [[-> _]|Hx]%elem_of_dset; [|by apply H]. exists k'. split; [lia|done].
  - intros [Hx _]%drop_sub. by apply H.
  - intros [[-> _]|Hx]%elem_of_dset; [exists k; split; [lia|done]|]. apply drop_sub in Hx as [Hx _]. by apply H.
Qed.
End inv.

(** ** Service accounts *)
Section accounts.
Context (clock : nat → json) (token : nat → pystr) (policy : SessionPolicy) (Htok : ∀ m n, token m = token n → m = n).
Abbreviation run := (iam_run clock token policy).

Lemma iam_run_accounts ops : account_inv token (ia_tokens (run ops Iam_new)) (ia_accounts (run ops Iam_new)).
Proof using Htok.
  apply (iam_run_inv clock token policy (λ s, account_inv token (ia_tokens s) (ia_accounts s))).
  - intros op s Hs. pose proof (iam_op_accounts clock token policy op s) as [Hn Hc]. destruct (iam_op clock token policy op s) as [[]?]; by eapply account_step_inv.
  - constructor; cbn; [done|constructor|by intros h id ?%not_elem_of_nil|constructor].
Qed.

Lemma iam_run_since k0 id ops s : issued_since token k0 id s → issued_since token k0 id (run ops s).
Proof.
  intros H. apply (iam_run_inv clock token policy (issued_since token k0 id)); [|done].
  intros op s1 Hs. pose proof (issued_since_step token k0 id _ _ (iam_op_accounts clock token policy op s1) Hs) as H'.
  by destruct (iam_op clock token policy op s1) as [[]?].
Qed.

Lemma authenticate_Ok cred c a :
  authenticate cred c = Ok a ↔ ∃ h id, hash_credential cred = Ok h ∧ dget h (ac_credential_hashes c) = Some id ∧ dget id (ac_accounts c) = Some a.
Proof.
  unfold authenticate, dgetitem. split.
  - intros H. apply bind_Ok in H as (h & Hh & H). destruct (dget h _) as [id|] eqn:E; [|done]. destruct (dget id (ac_accounts c)) eqn:Ea; [|done].
    inversion H; subst. by exists h, id.
  - intros (h & id & Hh & E & Ea). rewrite Hh. cbn [mbind res_bind]. by rewrite E, Ea.
Qed.

(** What a rotation that returns leaves. *)
Lemma rotate_Ok id s b cred s' :
  rotate token id s = (Ok (b, cred), s') →
  ∃ a h, dget id (ac_accounts (ia_accounts s)) = Some a ∧
    b = mkAccount (sa_account_id a) (sa_name a) (sa_owner_id a) (sa_permissions a) (sa_credential_generation a + 1) ∧
    cred = svc_key token (ia_tokens s) ∧ hash_credential cred = Ok h ∧ ia_tokens s' = S (ia_tokens s) ∧
    ia_accounts s' = mkAccounts (dset id b (ac_accounts (ia_accounts s))) (dset h id (drop_credentials id (ac_credential_hashes (ia_accounts s)))).
Proof.
  intros H. unfold rotate in H. apply sm_bind_Ok in H as (s0 & s1 & E & H). inversion E; subst s0 s1. clear E.
  destruct (dget id _) as [a|] eqn:Ea; [|done]. apply sm_bind_Ok in H as (b' & s1 & [[-> _]%account_init_ok ->]%sm_lift_Ok & H).
  apply sm_bind_Ok in H as ([] & s1 & E & H). inversion E; subst s1. clear E. apply sm_bind_Ok in H as (tok & s1 & E & H). unfold new_token in E.
  inversion E; subst tok s1. clear E. change (str "svckey-" ++ token (ia_tokens s)) with (svc_key token (ia_tokens s)) in H.
  apply sm_bind_Ok in H as (h & s1 & [Hh ->]%sm_lift_Ok & H). apply sm_bind_Ok in H as ([] & s1 & E & H). inversion E; subst s1. clear E.
  unfold mret, SM_ret in H. change (set_accounts ?f s) with s in H. inversion H; subst b cred s'. clear H. exists a, h. split_and!; done.
Qed.

Lemma rotated_since id s b cred s' : rotate token id s = (Ok (b, cred), s') → issued_since token (ia_tokens s) id s'.
Proof.
  intros (a & h & _ & _ & -> & Hh & En & Ec)%rotate_Ok. split; [lia|]. rewrite Ec. cbn [ac_credential_hashes].
  intros x [[-> _]|Hx]%elem_of_dset; [by exists (ia_tokens s)|]. by apply drop_sub in Hx as [_ Hx].
Qed.

(** What an authorization that returns logged. *)
Lemma authorize_logged acc cat sc ip s b s' :
  authorize clock acc cat sc ip s = (Ok b, s') →
  (b = true ↔ ∃ p, p ∈ sa_permissions acc ∧ grants p cat sc = true) ∧
  ∃ o, el_observations (ia_log s') = el_observations (ia_log s) ++ [o] ∧ eo_subject_id o = sa_account_id acc ∧ eo_subject_type o = SUBJECT_SERVICE ∧
    eo_result o = if b then str "allow" else str "deny".
Proof.
  intros H. unfold authorize in H. apply sm_bind_Ok in H as (u & s1 & El & H). unfold mret, SM_ret in H. set (ok := existsb _ _) in *.
  injection H as <- <-. split; [unfold ok; apply existsb_iff|].
  unfold log_event in El. apply sm_bind_Ok in El as ([o rc] & s2 & El & E). injection E as _ <-. rewrite with_log_eq in El. clearbody ok.
  match type of El with context [record ?c ?e ?a ?i ?r ?t ?d ?n ?l] => pose proof (record_spec c e a i r t d n l) as Hr; destruct (record c e a i r t d n l) as [[[o' rc']|x] l'] end; [|done].
  cbn [fst snd] in El. injection El as _ _ <-. destruct Hr as (_ & _ & E2 & _ & E3 & Hty & _ & _ & E4 & _). exists o'. cbn [set_log ia_log]. rewrite E4. split_and!; try done.
Qed.

(** C25: Service accounts are never privileged and hold one credential.  After
    any operations of the managers, an account a credential authenticates is
    stored under its id and holds no permission of an administrative category,
    so no authorization of such a category answers yes; every authorization that
    returns answers whether a permission of the account grants it and appends one
    observation of a service subject with that result.  Two credentials that
    authenticate one account have the same hash.  A rotation that returns leaves
    the account with its permissions and the next generation, authenticated by
    the new credential; and however the managers go on, a credential issued
    before it authenticates the account only if it collides with one issued
    afterwards.  Random tokens are assumed distinct. *)
Theorem accounts_safe ops ops' :
  let s := run ops Iam_new in
  (∀ cred a, authenticate cred (ia_accounts s) = Ok a →
     dget (sa_account_id a) (ac_accounts (ia_accounts s)) = Some a ∧
     (∀ cat sc ip, cat ∈ FORBIDDEN_SERVICE_PERMISSIONS → (authorize clock a cat sc ip s).1 ≠ Ok true) ∧
     ∀ cred' a', authenticate cred' (ia_accounts s) = Ok a' → sa_account_id a' = sa_account_id a → hash_credential cred' = hash_credential cred) ∧
  (∀ acc cat sc ip b s', authorize clock acc cat sc ip s = (Ok b, s') →
     (b = true ↔ ∃ p, p ∈ sa_permissions acc ∧ grants p cat sc = true) ∧
     ∃ o, el_observations (ia_log s') = el_observations (ia_log s) ++ [o] ∧ eo_subject_id o = sa_account_id acc ∧ eo_subject_type o = SUBJECT_SERVICE ∧
       eo_result o = if b then str "allow" else str "deny") ∧
  (∀ id b cred s', rotate token id s = (Ok (b, cred), s') →
     authenticate cred (ia_accounts s') = Ok b ∧ sa_account_id b = id ∧
     (∃ a, dget id (ac_accounts (ia_accounts s)) = Some a ∧ sa_permissions b = sa_permissions a ∧ sa_credential_generation b = (sa_credential_generation a + 1)%Z) ∧
     ∀ k a, k < ia_tokens s → authenticate (svc_key token k) (ia_accounts (run ops' s')) = Ok a → sa_account_id a = id →
       ∃ k', k ≠ k' ∧ hash_credential (svc_key token k) = hash_credential (svc_key token k')).
Proof using Htok.
  intros s. pose proof (iam_run_accounts ops) as Hi. fold s in Hi. split; [|split].
  - intros cred a (h & id & Hh & E & Ea)%authenticate_Ok. destruct (av_accounts _ _ _ Hi id a Ea) as (Eid & [Hp _] & _). subst id. split_and!; [done| |].
    + intros cat sc ip Hc Hb. destruct (authorize clock a cat sc ip s) as [r s'] eqn:Ez. cbn [fst] in Hb. subst r.
      apply authorize_logged in Ez as [Hg _]. destruct (proj1 Hg eq_refl) as (p & Hin & [Ecat _]%grants_iff). apply (Hp p Hin). by rewrite Ecat.
    + intros cred' a' (h' & id' & Hh' & E' & Ea')%authenticate_Ok Eq. destruct (av_accounts _ _ _ Hi id' a' Ea') as (<- & _ & _). rewrite Eq in E'. rewrite Hh, Hh'. f_equal.
      apply dget_Some_elem in E, E'. pose proof (av_once _ _ _ Hi) as Ho. apply list_elem_of_lookup in E as [i Ei], E' as [j Ej].
      assert (j = i) as -> by (eapply NoDup_lookup; [exact Ho|by rewrite list_lookup_fmap, Ej|by rewrite list_lookup_fmap, Ei]). congruence.
  - intros acc cat sc ip b s' H. exact (authorize_logged acc cat sc ip s b s' H).
  - intros id b cred s' Hr. pose proof (rotated_since id s b cred s' Hr) as Hsince. pose proof Hr as Hrot. apply rotate_Ok in Hr as (a & h & Ea & Eb & Ec & Hh & En & Es).
    destruct (av_accounts _ _ _ Hi id a Ea) as (Eid & _). split_and!.
    + apply authenticate_Ok. exists h, id. rewrite Es. cbn. by rewrite !dget_dset_eq.
    + by rewrite Eb.
    + exists a. by rewrite Eb.
    + intros k a' Hk Hau E'. assert (account_inv token (ia_tokens (run ops' s')) (ia_accounts (run ops' s'))) as Hi'.
      { replace (run ops' s') with (run (ops ++ ORotate id :: ops') Iam_new); [apply iam_run_accounts|]. rewrite iam_run_app. fold s. cbn [iam_run foldl iam_op].
        f_equal. rewrite void_state. by rewrite Hrot. }
      apply authenticate_Ok in Hau as (h' & id' & Hh' & Eh' & Ea'). destruct (av_accounts _ _ _ Hi' id' a' Ea') as (Ei' & _). rewrite E' in Ei'. subst id'.
      destruct (iam_run_since _ _ ops' _ Hsince) as [_ Hs]. destruct (Hs h') as (k' & Hk' & Hhk); [by apply dget_Some_elem|].
      exists k'. split; [lia|]. by rewrite Hh', Hhk.
Qed.
End accounts.

(** ** Deny overrides *)
Section policies.
Context (a : UserAttributes) (cat sc : pystr).

Definition decided (p : ABACPolicy) : Prop := ∃ b, applies p a cat sc = Ok b.
Definition selected (e : Effect) (policies : list ABACPolicy) : list pystr :=
  po_name <$> filter (λ p, po_effect p = e ∧ applies p a cat sc = Ok true) policies.

Lemma selected_cons e p policies b :
  applies p a cat sc = Ok b → selected e (p :: policies) = (if b && bool_decide (po_effect p = e) then [po_name p] else []) ++ selected e policies.
Proof.
  intros E. unfold selected. rewrite filter_cons. case_decide as H.
  - destruct H as [H1 H2]. rewrite H2 in E. inversion E; subst b. by rewrite bool_decide_true.
  - destruct b; [|done]. rewrite bool_decide_false; [done|]. intros He. by apply H.
Qed.

Lemma matched_spec policies allow deny :
  match matched policies a cat sc allow deny with
  | Ok (al, de) => Forall decided policies ∧ al = allow ++ selected ALLOW policies ∧ de = deny ++ selected DENY policies
  | Raise e => ∃ p, p ∈ policies ∧ applies p a cat sc = Raise e
  end.
Proof.
  revert allow deny. induction policies as [|p policies IH]; intros allow deny; cbn [matched].
  - unfold selected. cbn. by rewrite !app_nil_r.
  - destruct (applies p a cat sc) as [b|e] eqn:E; cbn [mbind res_bind]; [|by exists p; split; [left|]].
    assert (decided p) as Hd by (by exists b). rewrite !(selected_cons _ _ _ _ E).
    assert (∀ al de, match matched policies a cat sc al de with
      | Ok (x, y) => Forall decided (p :: policies) ∧ x = al ++ selected ALLOW policies ∧ y = de ++ selected DENY policies
      | Raise e => ∃ q, q ∈ p :: policies ∧ applies q a cat sc = Raise e end) as IH'.
    { intros al de. specialize (IH al de). destruct (matched _ _ _ _ _ _) as [[x y]|e]; [destruct IH as (? & -> & ->); split_and!; [by constructor|done|done]|].
      destruct IH as (q & ? & ?). exists q. split; [by right|done]. }
    clear IH. destruct b; cbn [negb andb app]; [|apply IH'].
    destruct (po_effect p); [rewrite bool_decide_true, bool_decide_false by done|rewrite bool_decide_false, bool_decide_true by done]; rewrite !app_assoc, app_nil_r; apply IH'.
Qed.

Lemma selected_nil e policies : Forall decided policies → selected e policies = [] ↔ ∀ p, p ∈ policies → po_effect p = e → applies p a cat sc = Ok false.
Proof.
  intros Hd. rewrite Forall_forall in Hd. unfold selected. split.
  - intros E p Hp He. destruct (Hd p Hp) as [[] Hb]; [|done]. exfalso. apply fmap_nil_inv in E.
    assert (p ∈ filter (λ p, po_effect p = e ∧ applies p a cat sc = Ok true) policies) as Hin by (by apply list_elem_of_filter).
    rewrite E in Hin. by apply not_elem_of_nil in Hin.
  - intros H. destruct (filter _ policies) as [|p l] eqn:E; [done|]. exfalso.
    assert (p ∈ filter (λ p, po_effect p = e ∧ applies p a cat sc = Ok true) policies) as Hin by (rewrite E; left).
    apply list_elem_of_filter in Hin as [[He Ha] Hp]. by rewrite (H p Hp He) in Ha.
Qed.

Lemma evaluate_spec policies d :
  evaluate policies a cat sc = Ok d ↔
  cat ∈ PERMISSION_CATEGORIES ∧ Forall decided policies ∧
  d = mkDecision (bool_decide (selected DENY policies = []) && negb (bool_decide (selected ALLOW policies = []))) (selected ALLOW policies) (selected DENY policies).
Proof.
  unfold evaluate, check_category. pose proof (matched_spec policies [] []) as Hm. case_bool_decide as Hc; cbn [negb mbind res_bind]; [|naive_solver].
  destruct (matched _ _ _ _ _ _) as [[al de]|e]; cbn [mbind res_bind].
  - destruct Hm as (Hd & -> & ->). cbn [app]. split; [intros H; inversion H; subst; done|]. by intros (_ & _ & ->).
  - split; [done|]. intros (_ & Hd & _). destruct Hm as (p & Hp & E). rewrite Forall_forall in Hd. destruct (Hd p Hp) as [b ?]. congruence.
Qed.
End policies.

(** Deny overrides.  An evaluation returns exactly when the category is
    known and every policy decides whether it applies; it then allows exactly
    when some allow policy applies and no deny policy does, and reports the
    names of the policies that applied in their order.  Adding a deny policy
    never turns a denial into a permission, and the order of the policies does
    not matter. *)
Theorem abac_deny_overrides policies a cat sc :
  ((∃ d, evaluate policies a cat sc = Ok d) ↔ cat ∈ PERMISSION_CATEGORIES ∧ Forall (decided a cat sc) policies) ∧
  (∀ d, evaluate policies a cat sc = Ok d →
     (ad_allowed d = true ↔ (∃ p, p ∈ policies ∧ po_effect p = ALLOW ∧ applies p a cat sc = Ok true) ∧
        ∀ p, p ∈ policies → po_effect p = DENY → applies p a cat sc = Ok false) ∧
     ad_matched_allow d = selected a cat sc ALLOW policies ∧ ad_matched_deny d = selected a cat sc DENY policies ∧
     (∀ p policies' d', add_policy p policies = Ok policies' → po_effect p = DENY → evaluate policies' a cat sc = Ok d' →
        ad_allowed d' = true → ad_allowed d = true) ∧
     (∀ policies', policies' ≡ₚ policies → ∃ d', evaluate policies' a cat sc = Ok d' ∧ ad_allowed d' = ad_allowed d)).
Proof.
  assert (∀ ps, Forall (decided a cat sc) ps →
    (bool_decide (selected a cat sc DENY ps = []) && negb (bool_decide (selected a cat sc ALLOW ps = [])) = true ↔
     (∃ p, p ∈ ps ∧ po_effect p = ALLOW ∧ applies p a cat sc = Ok true) ∧ ∀ p, p ∈ ps → po_effect p = DENY → applies p a cat sc = Ok false)) as Hall.
  { intros ps Hd. rewrite andb_true_iff, negb_true_iff, bool_decide_eq_true, bool_decide_eq_false, (selected_nil a cat sc DENY ps Hd).
    split; [intros [? Hn]; split; [|done]|intros [(p & Hp & He & Ha) ?]; split; [done|]].
    - destruct (selected a cat sc ALLOW ps) as [|n l] eqn:E; [done|]. assert (n ∈ selected a cat sc ALLOW ps) as Hin by (rewrite E; left).
      unfold selected in Hin. apply list_elem_of_fmap in Hin as (p & _ & [[? ?] ?]%list_elem_of_filter). by exists p.
    - intros Hn. apply (selected_nil a cat sc ALLOW ps Hd) with (p := p) in Hn; [|done|done]. congruence. }
  split.
  - setoid_rewrite evaluate_spec. naive_solver.
  - intros d (Hc & Hd & ->)%evaluate_spec. cbn [ad_allowed ad_matched_allow ad_matched_deny]. split; [by apply Hall|]. split; [done|]. split; [done|]. split.
    + intros p ps d' Hadd He (_ & Hd' & ->)%evaluate_spec. cbn [ad_allowed]. unfold add_policy in Hadd. pass_guard Hadd. inversion Hadd; subst ps.
      rewrite !Hall by done. intros [(q & Hq & Eq & Aq) Hn]. split; [|intros r Hr; apply Hn, elem_of_app; by left].
      exists q. split; [|done]. apply elem_of_app in Hq as [?| ->%list_elem_of_singleton]; [done|congruence].
    + intros ps Hp. assert (Forall (decided a cat sc) ps) as Hd' by (by rewrite Hp).
      eexists. split; [by apply evaluate_spec|]. cbn [ad_allowed]. apply eq_true_iff_eq. rewrite !Hall by done. by setoid_rewrite Hp.
Qed.

(** ** MFA *)
Section mfa.
Context (clock : nat → json) (token : nat → pystr) (policy : SessionPolicy).

Definition mfa_kept (d : dict json) (s : Iam) : Prop := ia_mfa s = d.
Lemma mfa_kept_free d : log_free (mfa_kept d).
Proof. by intros s l. Qed.
Lemma mfa_kept_token d : preserves (mfa_kept d) (new_token token).
Proof. by intros s H. Qed.
#[local] Hint Resolve mfa_kept_free mfa_kept_token : sm.
#[local] Hint Extern 2 (preserves (mfa_kept _) (sm_mod _)) => (apply preserves_mod; done) : sm.
Lemma mfa_kept_revoke_each d subj reason xs : preserves (mfa_kept d) (revoke_each clock subj reason xs).
Proof. induction xs as [|x xs IH]; cbn [revoke_each]; [auto with sm|]. unfold revoke. sm_walk; done. Qed.
Lemma mfa_kept_state {A} (m : SM Iam A) s : (∀ d, preserves (mfa_kept d) m) → ia_mfa (m s).2 = ia_mfa s.
Proof. intros H. specialize (H (ia_mfa s) s eq_refl). by destruct (m s) as [[]?]. Qed.

Lemma verify_local_mfa subj secret code s :
  ia_mfa (verify_local clock subj secret code s).2 = ia_mfa s ∨
  verify_totp secret code (clock (tick s)) 30 6 1 = Ok true ∧ ∃ t, ia_mfa (verify_local clock subj secret code s).2 = dset subj t (ia_mfa s).
Proof.
  unfold verify_local, mbind, SM_bind. unfold sm_lift at 1 3. destruct (identifier subj); [|by left]. unfold now_raw. rewrite !with_log_eq. cbn [read_clock fst snd].
  unfold sm_lift. destruct (verify_totp _ _ _ _ _ _) as [[]|e] eqn:Ev; [|by left..]. right. split; [done|]. rewrite ?with_log_eq. cbn. eauto.
Qed.

(** Only a verified code puts a subject on record. *)
Lemma iam_op_mfa op s subj :
  dmem subj (ia_mfa (iam_op clock token policy op s).2) = true →
  dmem subj (ia_mfa s) = true ∨ ∃ secret code, op = OVerifyLocal subj secret code ∧ verify_totp secret code (clock (tick s)) 30 6 1 = Ok true.
Proof.
  destruct op; cbn [iam_op]; rewrite ?void_state.
  19:{ edestruct verify_local_mfa as [E|[Hv [t E]]]; rewrite E; [by left|]. unfold dmem. rewrite dget_dset. case_decide as Es; [|by left].
       subst subj. right. by exists secret, code. }
  all: rewrite mfa_kept_state; [by left|]; intros d;
    unfold with_roles, add_approver, request_elevation, approve, deny, is_allowed, is_elevated, active_grants, create_session, active_for, touch, validate,
      revoke, revoke_all, logout, create_account, rotate, authorize, mark_revoked, pop_request; try (sm_walk; done).
  apply preserves_bind; [auto with sm|]. intros _. apply preserves_bind; [auto with sm|]. intros s'. apply mfa_kept_revoke_each.
Qed.

Lemma iam_run_mfa ops subj :
  dmem subj (ia_mfa (iam_run clock token policy ops Iam_new)) = true →
  ∃ before secret code after, ops = before ++ OVerifyLocal subj secret code :: after ∧
    verify_totp secret code (clock (tick (iam_run clock token policy before Iam_new))) 30 6 1 = Ok true.
Proof.
  induction ops as [|op ops IH] using rev_ind; [done|]. rewrite iam_run_app. cbn [iam_run foldl].
  intros [H|(secret & code & -> & Hv)]%iam_op_mfa.
  - destruct (IH H) as (before & secret & code & after & -> & Hv). exists before, secret, code, (after ++ [op]). split; [by rewrite <- app_assoc|done].
  - by exists ops, secret, code, [].
Qed.

(** Privileged actions need MFA.  After any operations of the managers, the
    requirement passes exactly for a valid subject and a known privileged action
    when the identity provider reports a second factor or the subject is on
    record; and with an integer clock a subject is on record only after a local
    verification of it, at a time [t], of a six-digit code that is the TOTP of its
    secret for the 30-second period of [t] or one next to it. *)
Theorem privileged_needs_mfa f ops action subj amr ctx :
  (∀ n, clock n = JInt (f n)) →
  let s := iam_run clock token policy ops Iam_new in
  (require_privileged action subj amr ctx s = Ok tt ↔
     identifier subj = Ok subj ∧ action ∈ PRIVILEGED_ACTIONS ∧ (idp_mfa_satisfied amr ctx = true ∨ dmem subj (ia_mfa s) = true)) ∧
  (dmem subj (ia_mfa s) = true →
     ∃ before secret code after k, ops = before ++ OVerifyLocal subj secret code :: after ∧ (-1 <= k <= 1)%Z ∧ length code = 6 ∧
       generate_totp secret (f (tick (iam_run clock token policy before Iam_new)) + k * 30) 30 6 = Ok code).
Proof.
  intros Hf s. split.
  - unfold require_privileged, has_local_mfa. destruct (identifier subj) as [u|e] eqn:Eu; cbn [mbind res_bind]; [|naive_solver].
    assert (u = subj) as -> by (unfold identifier in Eu; pass_guard Eu; congruence).
    case_bool_decide; cbn [negb]; [|naive_solver]. destruct (idp_mfa_satisfied amr ctx); [naive_solver|]. destruct (dmem subj (ia_mfa s)); naive_solver.
  - intros (before & secret & code & after & -> & Hv)%iam_run_mfa. rewrite Hf in Hv. apply verify_totp_true in Hv as (_ & k & Hk & _ & Hg).
    exists before, secret, code, after, k. split_and!; [done|lia|lia| |done]. by apply generate_totp_length in Hg as [-> _].
Qed.
End mfa.

(** ** Witnesses *)
Definition demo_service : list IamOp := [OCreateAccount (str "ci") (str "ann") [mkPermission (str "task_type") (str "*")]; ORotate (str "svc-a")].
Definition demo_auth (k : nat) (ops : list IamOp) : bool := is_ok (authenticate (svc_key demo_token k) (ia_accounts (demo_iam ops))).

Lemma demo_rotated : demo_auth 1 (take 1 demo_service) = true ∧ demo_auth 1 demo_service = false ∧ demo_auth 2 demo_service = true.
Proof. vm_compute. done. Qed.

Lemma accounts_safe_witness :
  demo_auth 1 (take 1 demo_service) = true ∧ demo_auth 1 demo_service = false ∧
  ∀ a, authenticate (svc_key demo_token 2) (ia_accounts (demo_iam demo_service)) = Ok a →
    dget (sa_account_id a) (ac_accounts (ia_accounts (demo_iam demo_service))) = Some a.
Proof.
  destruct demo_rotated as (H1 & H2 & _). split; [exact H1|]. split; [exact H2|]. intros a Ha.
  exact (proj1 (proj1 (accounts_safe demo_clock demo_token demo_session_policy demo_token_inj demo_service []) _ a Ha)).
Defined.

Definition demo_policies : list ABACPolicy :=
  [mkPolicy (str "staff") ALLOW (str "task_type") [mkCondition (str "clearance_level") OpGte (JInt 2)] (str "*");
   mkPolicy (str "leavers") DENY (str "task_type") [mkCondition (str "employment_status") OpEq (JStr (str "terminated"))] (str "*")].
Definition demo_user (status : string) : UserAttributes := mkAttributes JNull JNull (Some 3%Z) (JStr (str status)) [].
Definition demo_evaluate (status : string) : res bool :=
  d ← evaluate demo_policies (demo_user status) (str "task_type") (str "x"); Ok (ad_allowed d).

Lemma demo_evaluated : demo_evaluate "active" = Ok true ∧ demo_evaluate "terminated" = Ok false.
Proof. vm_compute. done. Qed.

Lemma abac_deny_overrides_witness :
  demo_evaluate "active" = Ok true ∧ demo_evaluate "terminated" = Ok false ∧
  ∀ d, evaluate demo_policies (demo_user "active") (str "task_type") (str "x") = Ok d → ad_matched_deny d = selected (demo_user "active") (str "task_type") (str "x") DENY demo_policies.
Proof.
  destruct demo_evaluated as [H1 H2]. split; [exact H1|]. split; [exact H2|]. intros d Hd.
  exact (proj1 (proj2 (proj2 (proj2 (abac_deny_overrides demo_policies (demo_user "active") (str "task_type") (str "x")) d Hd)))).
Defined.

(** The code of the secret ["12345678901234567890"] at time 59 of RFC 6238. *)
Definition demo_secret : list N := N.of_nat <$> [49; 50; 51; 52; 53; 54; 55; 56; 57; 48; 49; 50; 51; 52; 53; 54; 55; 56; 57; 48].
Definition totp_clock (n : nat) : json := JInt (59 + Z.of_nat n).
Definition demo_verify : list IamOp := [OVerifyLocal (str "ann") demo_secret (str "287082")].

Lemma demo_on_record : require_privileged (str "hitl_approval") (str "ann") [] None (iam_run totp_clock demo_token demo_session_policy demo_verify Iam_new) = Ok tt ∧
  dmem (str "ann") (ia_mfa (iam_run totp_clock demo_token demo_session_policy demo_verify Iam_new)) = true.
Proof. vm_compute. done. Qed.

Lemma privileged_needs_mfa_witness :
  require_privileged (str "hitl_approval") (str "ann") [] None (iam_run totp_clock demo_token demo_session_policy demo_verify Iam_new) = Ok tt ∧
  ∃ before secret code after k, demo_verify = before ++ OVerifyLocal (str "ann") secret code :: after ∧ (-1 <= k <= 1)%Z ∧ length code = 6 ∧
    generate_totp secret (59 + Z.of_nat (tick (iam_run totp_clock demo_token demo_session_policy before Iam_new)) + k * 30) 30 6 = Ok code.
Proof.
  split; [exact (proj1 demo_on_record)|].
  exact (proj2 (privileged_needs_mfa totp_clock demo_token demo_session_policy (λ n, 59 + Z.of_nat n)%Z demo_verify (str "hitl_approval") (str "ann") [] None
    (λ n, eq_refl)) (proj2 demo_on_record)).
Defined.
