(* ===== verification/Observations.v ===== *)
(** * Observations (observation_layer/core.py)

    Observations with their digests, the sequencer that links them, and the
    verification of a chain; a chain that verifies under an anchored head is
    determined by it up to hash collisions.  [clock] is [time.time_ns()] and
    [new_id] is [str(uuid.uuid4())], by reading number. *)

From Stdlib Require Import ZArith NArith Lia.
From S2P Require Import Prelude PyData Sha256 PyFloat Json JsonFacts Core CoreFacts Storage Builtins GoalSpec JsonPlain Plan WorkerContract.

(** ** Observations *)
Definition observation_kinds : list pystr :=
  str <$> ["agent.spawned"; "agent.terminated"; "tool.invoked"; "tool.completed"; "tool.failed"; "llm.request"; "llm.response";
           "llm.failed"; "llm.stream_chunk"; "state.transition"; "handoff"; "checkpoint"; "custom"].
Definition SCHEMA_VERSION : pystr := str "1.1.0".
Definition GENESIS : pystr := str "GENESIS".

Record Observation : Type := mkObservation {
  ob_obs_id : pystr;
  ob_trace_id : pystr;
  ob_kind : pystr;
  ob_timestamp_ns : Z;
  ob_schema_version : pystr;
  ob_prev_hash : pystr;
  ob_payload : dict json;
  ob_tags : dict json;
  ob_source : pystr;
  ob_digest : pystr
}.

(** The fields but the digest. *)
Definition observation_content (o : Observation) : list (string * json) :=
  [("obs_id", JStr (ob_obs_id o)); ("trace_id", JStr (ob_trace_id o)); ("kind", JStr (ob_kind o));
   ("timestamp_ns", JInt (ob_timestamp_ns o)); ("schema_version", JStr (ob_schema_version o)); ("prev_hash", JStr (ob_prev_hash o));
   ("payload", JDict (ob_payload o)); ("tags", JDict (ob_tags o)); ("source", JStr (ob_source o))].
Definition observation_dict (o : Observation) : json := jobj (observation_content o ++ [("digest", JStr (ob_digest o))]).

Definition canonical_bytes (o : Observation) : res (list N) := t ← canonical (jobj (observation_content o)); encode t.
Definition observation_hash (o : Observation) : res pystr := sha256_hex <$> canonical_bytes o.

Definition identity_ok (s : pystr) : bool := (0 <? length s)%nat && (length s <=? 200)%nat.

Definition with_digest (d : pystr) (o : Observation) : Observation :=
  mkObservation (ob_obs_id o) (ob_trace_id o) (ob_kind o) (ob_timestamp_ns o) (ob_schema_version o) (ob_prev_hash o)
    (ob_payload o) (ob_tags o) (ob_source o) d.

Definition Observation_init (o : Observation) : res Observation :=
  when negb (bool_decide (ob_kind o ∈ observation_kinds)) raise ValueError "not a valid ObservationKind";;
  when negb (bool_decide (ob_schema_version o = SCHEMA_VERSION)) raise ValueError "Unsupported observation schema";;
  when negb (identity_ok (ob_obs_id o) && identity_ok (ob_trace_id o) && identity_ok (ob_source o)) raise ValueError "Invalid observation identity";;
  when (ob_timestamp_ns o <? 0)%Z raise ValueError "Invalid observation time";;
  when negb (forallb (λ kv, is_str kv.2) (ob_tags o)) raise ValueError "Invalid observation payload or tags";;
  when negb (bool_decide (ob_prev_hash o = GENESIS)) && negb (lower_hex 64 (ob_prev_hash o)) raise ValueError "Invalid previous digest";;
  _ ← freeze (JDict (ob_payload o));
  _ ← freeze (JDict (ob_tags o));
  bytes ← canonical_bytes o;
  when (24000 <? Z.of_nat (length bytes))%Z raise ValueError "Observation exceeds 24 KB; reference an artifact instead";;
  if bool_decide (ob_digest o = []) then h ← observation_hash o; Ok (with_digest h o) else Ok o.

Definition observation_fields : list string :=
  ["obs_id"; "trace_id"; "kind"; "timestamp_ns"; "schema_version"; "prev_hash"; "payload"; "tags"; "source"; "digest"].

(** A field that must have a type; the error is that of the constructor's check. *)
Definition typed_str (e : exn) (v : json) : res pystr := match v with JStr s => Ok s | _ => Raise e end.
Definition typed_dict (e : exn) (v : json) : res (dict json) := match v with JDict d => Ok d | _ => Raise e end.
Definition typed_int (e : exn) (v : json) : res Z := match v with JInt z => Ok z | _ => Raise e end.

(** A digest: every false value asks for a fresh one; the class also takes other
    true values, which only [verify_chain] refuses, here at once. *)
Definition falsy_or_str (e : exn) (v : json) : res pystr :=
  match v with JStr s => Ok s | v => if truthy v then Raise e else Ok [] end.

(** The constructor called with the members of a JSON object. *)
Definition observation_of (v : json) : res Observation :=
  d ← typed_dict (TypeError "argument must be a mapping") v;
  when existsb (λ k, negb (bool_decide (k ∈ str <$> observation_fields))) d.*1 raise TypeError "unexpected keyword argument";;
  let arg k := of_option (TypeError "missing required argument") (dget (str k) d) in
  let opt k v := default v (dget (str k) d) in
  obs_id ← arg "obs_id";
  trace_id ← arg "trace_id";
  kind ← arg "kind";
  timestamp_ns ← arg "timestamp_ns";
  schema_version ← arg "schema_version";
  prev_hash ← arg "prev_hash";
  payload ← arg "payload";
  kind ← typed_str (ValueError "not a valid ObservationKind") kind;
  schema_version ← typed_str (ValueError "Unsupported observation schema") schema_version;
  obs_id ← typed_str (ValueError "Invalid observation identity") obs_id;
  trace_id ← typed_str (ValueError "Invalid observation identity") trace_id;
  source ← typed_str (ValueError "Invalid observation identity") (opt "source" (JStr (str "unknown")));
  timestamp_ns ← typed_int (ValueError "Invalid observation time") timestamp_ns;
  payload ← typed_dict (ValueError "Invalid observation payload or tags") payload;
  tags ← typed_dict (ValueError "Invalid observation payload or tags") (opt "tags" (JDict []));
  prev_hash ← typed_str (TypeError "object has no len") prev_hash;
  digest ← falsy_or_str (WorkerContractError "observation chain is invalid") (opt "digest" (JStr []));
  Observation_init (mkObservation obs_id trace_id kind timestamp_ns schema_version prev_hash payload tags source digest).

(** The loop of [verify_chain]; an exception it catches is [false]. *)
Fixpoint verify_chain_from (prev : pystr) (trace : option pystr) (seen : list pystr) (os : list Observation) : bool :=
  match os with
  | [] => true
  | o :: os =>
      bool_decide (ob_schema_version o = SCHEMA_VERSION) && bool_decide (ob_prev_hash o = prev)
      && match observation_hash o with Ok h => bool_decide (ob_digest o = h) | Raise _ => false end
      && negb (bool_decide (ob_obs_id o ∈ seen))
      && match trace with Some t => bool_decide (t = ob_trace_id o) | None => true end
      && bool_decide (ob_kind o ∈ observation_kinds)
      && verify_chain_from (ob_digest o) (Some (ob_trace_id o)) (ob_obs_id o :: seen) os
  end.

(** [prev] after the loop. *)
Definition chain_head (prev : pystr) (os : list Observation) : pystr := match last os with Some o => ob_digest o | None => prev end.

Definition verify_chain (os : list Observation) (expected_head : option pystr) (expected_count : option Z) : bool :=
  verify_chain_from GENESIS None [] os
  && match expected_head with Some h => bool_decide (chain_head GENESIS os = h) | None => true end
  && match expected_count with Some n => (Z.of_nat (length os) =? n)%Z | None => true end.

(** ** The sequencer *)
Record ObservationSequencer : Type := mkSequencer {
  sq_trace_id : pystr;
  sq_prev : pystr;
  sq_count : Z;
  sq_tick : nat
}.

Section sequencer.
Context (clock : nat → Z) (new_id : nat → pystr).

(** The readings of identifier and clock of a draft. *)
Definition sq_read : SM ObservationSequencer (pystr * Z) := λ s,
  (Ok (new_id (sq_tick s), clock (sq_tick s)), mkSequencer (sq_trace_id s) (sq_prev s) (sq_count s) (S (sq_tick s))).

Definition draft (kind : pystr) (payload : dict json) (tags : option (dict json)) (source : pystr) : SM ObservationSequencer Observation :=
  '(id, t) ← sq_read;
  s ← sm_get;
  sm_lift (Observation_init (mkObservation id (sq_trace_id s) kind t SCHEMA_VERSION (sq_prev s) payload (default [] tags) source [])).

Definition sq_advance (digest : pystr) (s : ObservationSequencer) : ObservationSequencer :=
  mkSequencer (sq_trace_id s) digest (sq_count s + 1) (sq_tick s).

Definition commit (o : Observation) : SM ObservationSequencer Observation :=
  s ← sm_get;
  sealed ← sm_lift (Observation_init (mkObservation (ob_obs_id o) (sq_trace_id s) (ob_kind o) (ob_timestamp_ns o) (ob_schema_version o)
                      (sq_prev s) (ob_payload o) (ob_tags o) (ob_source o) []));
  _ ← sm_mod (sq_advance (ob_digest sealed));
  mret sealed.

Definition next (kind : pystr) (payload : dict json) (tags : option (dict json)) (source : pystr) : SM ObservationSequencer Observation :=
  o ← draft kind payload tags source; commit o.
End sequencer.

(** ** Sealing *)
Lemma plain_observation o : plain (JDict (ob_payload o)) → plain (JDict (ob_tags o)) → plain (observation_dict o).
Proof. intros Hp Ht. unfold observation_dict, observation_content. cbn [app]. plain_obj; done. Qed.

Lemma observation_hash_digest d o : observation_hash (with_digest d o) = observation_hash o.
Proof. reflexivity. Qed.

Lemma hash_nonempty o h : observation_hash o = Ok h → h ≠ [] ∧ lower_hex 64 h = true.
Proof.
  unfold observation_hash. intros H. apply fmap_Ok in H as (b & _ & <-). pose proof (sha256_hex_is_digest b) as Hd. split; [|exact Hd].
  intros E. rewrite E in Hd. discriminate Hd.
Qed.

(** A sealed observation passes its own constructor again. *)
Lemma init_sealed o o' : ob_digest o = [] → Observation_init o = Ok o' →
  ∃ h, observation_hash o = Ok h ∧ o' = with_digest h o ∧ Observation_init o' = Ok o'.
Proof.
  intros Hd H. assert (∃ h, observation_hash o = Ok h ∧ o' = with_digest h o) as (h & Hh & ->).
  { unfold Observation_init in H. rewrite Hd in H. repeat (pass_guard H). apply bind_Ok in H as (? & _ & H). apply bind_Ok in H as (? & _ & H).
    apply bind_Ok in H as (? & _ & H). pass_guard H. rewrite bool_decide_true in H by done. apply bind_Ok in H as (h & Hh & [= <-]). eauto. }
  exists h. split_and!; [done|done|]. revert H. unfold Observation_init.
  change (canonical_bytes (with_digest h o)) with (canonical_bytes o). cbn [with_digest ob_kind ob_schema_version ob_obs_id ob_trace_id ob_source
    ob_timestamp_ns ob_tags ob_prev_hash ob_payload ob_digest]. rewrite (bool_decide_false (h = [])) by (by apply (hash_nonempty o)).
  destruct (negb _); [done|]. destruct (negb _); [done|]. destruct (negb _); [done|]. destruct (_ <? _)%Z; [done|]. destruct (negb _); [done|].
  destruct (_ && _); [done|]. destruct (freeze _) as [?|]; [|done]. cbn [mbind res_bind]. destruct (freeze _) as [?|]; [|done]. cbn [mbind res_bind].
  destruct (canonical_bytes o) as [?|]; [|done]. cbn [mbind res_bind]. by destruct (_ <? _)%Z.
Qed.

Lemma verify_chain_snoc prev trace seen os o :
  verify_chain_from prev trace seen os = true →
  ob_schema_version o = SCHEMA_VERSION → ob_kind o ∈ observation_kinds → observation_hash o = Ok (ob_digest o) →
  ob_prev_hash o = match last os with Some q => ob_digest q | None => prev end →
  (∀ t, trace = Some t → t = ob_trace_id o) → (∀ q, q ∈ os → ob_trace_id q = ob_trace_id o) →
  ob_obs_id o ∉ seen → (∀ q, q ∈ os → ob_obs_id q ≠ ob_obs_id o) →
  verify_chain_from prev trace seen (os ++ [o]) = true.
Proof.
  intros H Hs Hk Hh. revert prev trace seen H. induction os as [|q os IH]; intros prev trace seen H Hp Ht Hts Hn Hns; cbn [app verify_chain_from] in *.
  - cbn in Hp. rewrite Hh, (bool_decide_true (ob_schema_version o = SCHEMA_VERSION)), (bool_decide_true (ob_prev_hash o = prev)),
      (bool_decide_true (ob_digest o = ob_digest o)), (bool_decide_false (ob_obs_id o ∈ seen)), (bool_decide_true (ob_kind o ∈ _)) by done. cbn.
    destruct trace as [t|]; [|done]. by rewrite (Ht t eq_refl), bool_decide_true.
  - apply andb_true_iff in H as [H1 H2]. rewrite H1. cbn [andb]. apply IH; try done.
    + rewrite Hp. destruct os as [|q' os]; [done|]. rewrite last_cons_cons. by destruct (last (q' :: os)) eqn:E; [|by apply last_None in E].
    + intros t [= <-]. apply Hts. left.
    + intros q' Hq'. apply Hts. by right.
    + intros [E|?]%elem_of_cons; [|done]. apply (Hns q); [left|done].
    + intros q' Hq'. apply Hns. by right.
Qed.


(** ** Anchored chains *)
Definition obs_plain (o : Observation) : Prop := plain (JDict (ob_payload o)) ∧ plain (JDict (ob_tags o)).

(** The same JSON content up to key order, and the same digest. *)
Definition same_observation (o o' : Observation) : Prop :=
  sort_json (jobj (observation_content o)) = sort_json (jobj (observation_content o')) ∧ ob_digest o = ob_digest o'.

Definition chains_collide (os os' : list Observation) : Prop :=
  ∃ o o', o ∈ os ∧ o' ∈ os' ∧ json_collide (jobj (observation_content o)) (jobj (observation_content o')).

Lemma hash_is_digest o : observation_hash o = digest (jobj (observation_content o)).
Proof. unfold observation_hash, canonical_bytes, digest, sha_text. by destruct (canonical _). Qed.

Lemma plain_content o : obs_plain o → plain (jobj (observation_content o)).
Proof. intros [Hp Ht]. unfold observation_content. plain_obj; done. Qed.

Lemma content_prev o :
  match sort_json (jobj (observation_content o)) with JDict d => dget (str "prev_hash") d | _ => None end = Some (JStr (ob_prev_hash o)).
Proof. reflexivity. Qed.

Lemma verify_chain_last prev trace seen os o :
  verify_chain_from prev trace seen (os ++ [o]) = true →
  verify_chain_from prev trace seen os = true ∧ ob_prev_hash o = chain_head prev os ∧ observation_hash o = Ok (ob_digest o).
Proof.
  revert prev trace seen. induction os as [|q os IH]; intros prev trace seen H; cbn [app verify_chain_from] in *.
  - split; [done|]. bool_prop. destruct (observation_hash o) as [h|] eqn:Eh; [|done]. bool_prop. cbn. split; congruence.
  - apply andb_true_iff in H as [H1 H2]. apply IH in H2 as (H2 & Hp & Hh). rewrite H1, H2. split_and!; [done| |done].
    rewrite Hp. unfold chain_head. destruct os as [|q' os]; [done|]. rewrite last_cons_cons. by destruct (last (q' :: os)) eqn:E; [|by apply last_None in E].
Qed.

Lemma hash_not_genesis o : observation_hash o ≠ Ok GENESIS.
Proof. intros [_ H]%hash_nonempty. discriminate H. Qed.

Lemma chain_determined os os' :
  Forall obs_plain os → Forall obs_plain os' →
  verify_chain_from GENESIS None [] os = true → verify_chain_from GENESIS None [] os' = true → chain_head GENESIS os = chain_head GENESIS os' →
  Forall2 same_observation os os' ∨ chains_collide os os'.
Proof.
  revert os'. induction os as [|o os IH] using rev_ind; intros os' Hp Hp' H H' Eh; destruct os' as [|o' os' _] using rev_ind.
  - left. constructor.
  - apply verify_chain_last in H' as (_ & _ & H'). unfold chain_head in Eh. rewrite last_snoc in Eh. cbn in Eh. rewrite <- Eh in H'. by apply hash_not_genesis in H'.
  - apply verify_chain_last in H as (_ & _ & H). unfold chain_head in Eh. rewrite last_snoc in Eh. cbn in Eh. rewrite Eh in H. by apply hash_not_genesis in H.
  - apply verify_chain_last in H as (H & Ep & Ed). apply verify_chain_last in H' as (H' & Ep' & Ed').
    unfold chain_head in Eh. rewrite !last_snoc in Eh. apply Forall_app in Hp as [Hp [Ho _]%Forall_cons_1]. apply Forall_app in Hp' as [Hp' [Ho' _]%Forall_cons_1].
    rewrite hash_is_digest in Ed, Ed'. rewrite <- Eh in Ed'.
    destruct (plain_digest _ _ _ (plain_content o Ho) (plain_content o' Ho') Ed Ed') as [Es|Hc].
    2:{ right. exists o, o'. split_and!; [apply elem_of_app; right; left..|done]. }
    pose proof (content_prev o) as E1. rewrite Es, content_prev in E1. injection E1 as E1.
    destruct (IH os' Hp Hp' H H') as [Hall|(q & q' & Hq & Hq' & Hc)]; [congruence| |].
    + left. apply Forall2_app; [done|]. by repeat constructor.
    + right. exists q, q'. split_and!; [apply elem_of_app; by left..|done].
Qed.

Lemma chain_unanchored os : verify_chain os None None = verify_chain_from GENESIS None [] os.
Proof. unfold verify_chain. by rewrite !andb_true_r. Qed.

Lemma chain_anchored os h n :
  verify_chain os (Some h) (Some n) = true ↔
  verify_chain_from GENESIS None [] os = true ∧ chain_head GENESIS os = h ∧ Z.of_nat (length os) = n.
Proof. unfold verify_chain. rewrite !andb_true_iff, bool_decide_eq_true, Z.eqb_eq. tauto. Qed.

Lemma chain_anchored_head os h :
  verify_chain os (Some h) None = true ↔ verify_chain_from GENESIS None [] os = true ∧ chain_head GENESIS os = h.
Proof. unfold verify_chain. rewrite !andb_true_iff, bool_decide_eq_true. tauto. Qed.
