(* ===== verification/ObservationBus.v ===== *)
(** * The observation bus and its filters (observation_layer/bus.py, observation_layer/filters.py)

    Drafts pass the filter, are sealed by the sequencer and handed to the sink;
    an exception on the way is counted and hidden.  Filters are computations
    over a state of their own; a filter that returns something else than an
    observation or [None] is one that raises, which has the same effect.  The
    sink is a parameter, by number of the write. *)

From Stdlib Require Import ZArith NArith Lia.
From S2P Require Import Prelude PyData Sha256 PyFloat Json JsonFacts Core CoreFacts Storage GoalSpec JsonPlain Observations.

(** ** Filters *)
Definition Filter (F : Type) : Type := Observation → SM F (option Observation).

Section filters.
Context {F : Type}.

Fixpoint compose (filters : list (Filter F)) : Filter F := λ obs,
  match filters with
  | [] => mret (Some obs)
  | flt :: filters =>
      r ← flt obs;
      match r with None => mret None | Some obs => compose filters obs end
  end.

Definition allow_kinds (kinds : list pystr) : Filter F := λ obs, mret (if bool_decide (ob_kind obs ∈ kinds) then Some obs else None).
Definition deny_kinds (kinds : list pystr) : Filter F := λ obs, mret (if bool_decide (ob_kind obs ∈ kinds) then None else Some obs).
Definition require_tags (kv : dict pystr) : Filter F := λ obs,
  mret (if forallb (λ p : pystr * pystr, bool_decide (dget p.1 (ob_tags obs) = Some (JStr p.2))) kv then Some obs else None).

(** [_redact_in]; a pattern is its substitution. *)
Fixpoint _redact_in (patterns : list (pystr → pystr)) (obj : json) : json :=
  match obj with
  | JDict d => JDict ((λ kv, (kv.1, _redact_in patterns kv.2)) <$> d)
  | JList l => JList (_redact_in patterns <$> l)
  | JStr s => JStr (foldl (λ s (p : pystr → pystr), p s) s patterns)
  | v => v
  end.

Definition redact_payload (patterns : list (pystr → pystr)) : Filter F := λ obs,
  let payload := (λ kv, (kv.1, _redact_in patterns kv.2)) <$> ob_payload obs in
  o ← sm_lift (Observation_init (mkObservation (ob_obs_id obs) (ob_trace_id obs) (ob_kind obs) (ob_timestamp_ns obs)
                 (ob_schema_version obs) (ob_prev_hash obs) payload (ob_tags obs) (ob_source obs) []));
  mret (Some o).
End filters.

(** [sample_every(n)]: the state is the closure's [counters]. *)
Definition sample_every (n : Z) : res (Filter (dict Z)) :=
  when (n <? 1)%Z raise ValueError "Sampling interval must be a positive integer";;
  Ok (λ obs,
    counters ← sm_get;
    let c := default 0%Z (dget (ob_trace_id obs) counters) in
    _ ← sm_mod (dset (ob_trace_id obs) (c + 1)%Z);
    mret (if (c mod n =? 0)%Z then Some obs else None)).

(** ** The bus *)
Record ObservationBus (F : Type) : Type := mkOBus {
  bu_sequencer : ObservationSequencer;
  bu_filter_state : F;
  bu_sink : list Observation;      (* what the sink has taken *)
  bu_writes : nat;                 (* calls of [sink.emit] *)
  bu_emitted : Z;
  bu_dropped_by_filter : Z;
  bu_errors : Z;
  bu_last_error : option string
}.
Arguments mkOBus {F}.
Arguments bu_sequencer {F}.
Arguments bu_filter_state {F}.
Arguments bu_sink {F}.
Arguments bu_writes {F}.
Arguments bu_emitted {F}.
Arguments bu_dropped_by_filter {F}.
Arguments bu_errors {F}.
Arguments bu_last_error {F}.

Section bus.
Context {F : Type} (clock : nat → Z) (new_id : nat → pystr).
Context (filter : option (Filter F)) (sink : nat → Observation → res unit).
Abbreviation Bus := (ObservationBus F).
Abbreviation M := (SM Bus).

Definition Bus_init (trace_id : pystr) (f : F) : Bus := mkOBus (mkSequencer trace_id GENESIS 0 0) f [] 0 0 0 0 None.

Definition with_sequencer {A} (m : SM ObservationSequencer A) : M A := λ b,
  let '(r, s) := m (bu_sequencer b) in
  (r, mkOBus s (bu_filter_state b) (bu_sink b) (bu_writes b) (bu_emitted b) (bu_dropped_by_filter b) (bu_errors b) (bu_last_error b)).
Definition with_filter {A} (m : SM F A) : M A := λ b,
  let '(r, f) := m (bu_filter_state b) in
  (r, mkOBus (bu_sequencer b) f (bu_sink b) (bu_writes b) (bu_emitted b) (bu_dropped_by_filter b) (bu_errors b) (bu_last_error b)).
Definition sink_emit (o : Observation) : M unit := λ b,
  let r := sink (bu_writes b) o in
  (r, mkOBus (bu_sequencer b) (bu_filter_state b) (if is_ok r then bu_sink b ++ [o] else bu_sink b) (S (bu_writes b))
        (bu_emitted b) (bu_dropped_by_filter b) (bu_errors b) (bu_last_error b)).

Definition count_emitted (b : Bus) : Bus :=
  mkOBus (bu_sequencer b) (bu_filter_state b) (bu_sink b) (bu_writes b) (bu_emitted b + 1) (bu_dropped_by_filter b) (bu_errors b) (bu_last_error b).
Definition count_dropped (b : Bus) : Bus :=
  mkOBus (bu_sequencer b) (bu_filter_state b) (bu_sink b) (bu_writes b) (bu_emitted b) (bu_dropped_by_filter b + 1) (bu_errors b) (bu_last_error b).
Definition count_error (msg : string) (b : Bus) : Bus :=
  mkOBus (bu_sequencer b) (bu_filter_state b) (bu_sink b) (bu_writes b) (bu_emitted b) (bu_dropped_by_filter b) (bu_errors b + 1) (Some msg).

Definition emit (kind : pystr) (payload : dict json) (tags : option (dict json)) (source : pystr) : M (option Observation) :=
  sm_try (
    obs ← with_sequencer (draft clock new_id kind payload tags source);
    filtered ← match filter with Some flt => with_filter (flt obs) | None => mret (Some obs) end;
    match filtered with
    | None => _ ← sm_mod count_dropped; mret None
    | Some obs =>
        obs ← with_sequencer (commit obs);
        _ ← sink_emit obs;
        _ ← sm_mod count_emitted;
        mret (Some obs)
    end)
    (λ _, _ ← sm_mod (count_error "observation_delivery_failed"); mret None).

(** [r] is what the sink's method does. *)
Definition flush (r : res unit) : M unit := sm_try (sm_lift r) (λ _, sm_mod (count_error "observation_flush_failed")).
Definition close (r : res unit) : M unit := sm_try (sm_lift r) (λ _, sm_mod (count_error "observation_close_failed")).

Record TraceContext : Type := mkContext { tc_trace_id : pystr; tc_default_tags : dict json; tc_source : pystr }.

Definition TraceContext_init (b : Bus) (trace_id : pystr) (default_tags : option (dict json)) (source : pystr) : res TraceContext :=
  when negb (bool_decide (sq_trace_id (bu_sequencer b) = trace_id)) raise ValueError "A trace context must match its bus";;
  Ok (mkContext trace_id (default [] default_tags) source).

Definition context_emit (c : TraceContext) (kind : pystr) (payload : dict json) (tags : option (dict json)) (source : option pystr) : M (option Observation) :=
  let merged := foldl (λ d kv, dset kv.1 kv.2 d) (tc_default_tags c) (default [] tags) in
  emit kind payload (Some merged) (match source with Some s => if bool_decide (s = []) then tc_source c else s | None => tc_source c end).

(** Operations in sequence; the lock makes each of them one step. *)
Inductive BusOp : Type :=
  | BEmit (kind : pystr) (payload : dict json) (tags : option (dict json)) (source : pystr)
  | BContext (c : TraceContext) (kind : pystr) (payload : dict json) (tags : option (dict json)) (source : option pystr)
  | BFlush (r : res unit)
  | BClose (r : res unit).

Definition obus_op (op : BusOp) (b : Bus) : Bus :=
  match op with
  | BEmit kind payload tags source => (emit kind payload tags source b).2
  | BContext c kind payload tags source => (context_emit c kind payload tags source b).2
  | BFlush r => (flush r b).2
  | BClose r => (close r b).2
  end.
Definition obus_run (ops : list BusOp) (b : Bus) : Bus := foldl (λ b op, obus_op op b) b ops.
End bus.

(** ** What filters may do *)

(** A filter keeps the identity of the observations it passes, and their JSON
    stays plain. *)
Definition keeps_identity {F} (flt : Filter F) : Prop := ∀ o f o' f',
  flt o f = (Ok (Some o'), f') → ob_obs_id o' = ob_obs_id o ∧ (obs_plain o → obs_plain o').

Lemma compose_keeps {F} (filters : list (Filter F)) : Forall keeps_identity filters → keeps_identity (compose filters).
Proof.
  induction 1 as [|flt filters Hf _ IH]; intros o f o' f' H; cbn [compose] in H; [by inversion H|].
  apply sm_bind_Ok in H as ([o1|] & f1 & H1 & H); [|done]. destruct (Hf _ _ _ _ H1) as [E1 P1]. destruct (IH _ _ _ _ H) as [E2 P2].
  split; [congruence|auto].
Qed.

Lemma guard_keeps {F} (test : Observation → bool) : keeps_identity (F := F) (λ o, mret (if test o then Some o else None)).
Proof. intros o f o' f' H. destruct (test o); by inversion H. Qed.

Lemma redact_plain patterns v : plain v → plain (_redact_in patterns v).
Proof.
  induction v as [|b|z|f|s|l IH|d IH] using json_ind; try done; cbn [_redact_in]; rewrite Forall_forall in IH.
  - intros [Hw Hf]. cbn in Hw, Hf. rewrite forallb_true in Hw, Hf. apply plain_list, Forall_fmap, Forall_forall. intros x Hx.
    apply (IH x Hx). split; auto.
  - rewrite !plain_dict. intros [Hn Hd]. split; [by rewrite <- list_fmap_compose|].
    apply Forall_fmap, Forall_forall. intros x Hx. rewrite Forall_forall in Hd. apply (IH x Hx), (Hd x Hx).
Qed.

Lemma init_fields o o' : Observation_init o = Ok o' → ∃ d, o' = with_digest d o.
Proof.
  unfold Observation_init. intros H. repeat (pass_guard H). apply bind_Ok in H as (? & _ & H). apply bind_Ok in H as (? & _ & H).
  apply bind_Ok in H as (? & _ & H). pass_guard H. case_bool_decide.
  - apply bind_Ok in H as (h & _ & [= <-]). eauto.
  - injection H as <-. exists (ob_digest o). by destruct o.
Qed.

Lemma redact_keeps {F} patterns : keeps_identity (F := F) (redact_payload patterns).
Proof.
  intros o f o' f' H. apply sm_bind_Ok in H as (o1 & f1 & [H1 ->]%sm_lift_Ok & H). injection H as <- <-.
  apply init_fields in H1 as [d ->]. split; [done|]. intros [Hp Ht]. split; [|done].
  exact (redact_plain patterns (JDict (ob_payload o)) Hp).
Qed.

Lemma sample_keeps n flt : sample_every n = Ok flt → keeps_identity flt.
Proof.
  unfold sample_every. intros H. pass_guard H. injection H as <-. intros o f o' f' H.
  apply sm_bind_Ok in H as (c & f1 & Eg & H). injection Eg as <- <-. cbv zeta in H. apply sm_bind_Ok in H as (u & f2 & _ & H).
  destruct (_ =? 0)%Z; by inversion H.
Qed.

(** The filters of filters.py and their compositions. *)
Inductive library_filter {F} : Filter F → Prop :=
  | lf_allow kinds : library_filter (allow_kinds kinds)
  | lf_deny kinds : library_filter (deny_kinds kinds)
  | lf_require kv : library_filter (require_tags kv)
  | lf_redact patterns : library_filter (redact_payload patterns)
  | lf_compose filters : Forall library_filter filters → library_filter (compose filters).

Lemma library_keeps {F} (flt : Filter F) : library_filter flt → keeps_identity flt.
Proof.
  revert flt. fix IH 2. intros flt [kinds|kinds|kv|patterns|filters Hf].
  - apply (guard_keeps (λ o, bool_decide (ob_kind o ∈ kinds))).
  - intros o f o' f' H. unfold deny_kinds in H. destruct (bool_decide _); by inversion H.
  - apply guard_keeps.
  - apply redact_keeps.
  - apply compose_keeps. induction Hf as [|x l Hx _ IHl]; constructor; [by apply IH|done].
Qed.

(** ** Drafting and committing *)
Lemma init_form o o' : Observation_init o = Ok o' → ob_kind o ∈ observation_kinds ∧ ob_schema_version o = SCHEMA_VERSION.
Proof.
  unfold Observation_init. intros H. pass_guard H. pass_guard H. by bool_prop.
Qed.

(** The content a filter returned and the sequencer keeps. *)
Definition same_data (o q : Observation) : Prop :=
  ob_obs_id q = ob_obs_id o ∧ ob_kind q = ob_kind o ∧ ob_timestamp_ns q = ob_timestamp_ns o ∧
  ob_payload q = ob_payload o ∧ ob_tags q = ob_tags o ∧ ob_source q = ob_source o.

(** [q] is the next link of the sequencer's chain. *)
Record linked (s : ObservationSequencer) (q : Observation) : Prop := {
  li_hash : observation_hash q = Ok (ob_digest q);
  li_prev : ob_prev_hash q = sq_prev s;
  li_trace : ob_trace_id q = sq_trace_id s;
  li_form : ob_kind q ∈ observation_kinds ∧ ob_schema_version q = SCHEMA_VERSION
}.

Section sequencing.
Context (clock : nat → Z) (new_id : nat → pystr).

Lemma draft_spec kind payload tags source s :
  let '(r, s') := draft clock new_id kind payload tags source s in
  s' = mkSequencer (sq_trace_id s) (sq_prev s) (sq_count s) (S (sq_tick s)) ∧
  ∀ o, r = Ok o → ob_obs_id o = new_id (sq_tick s) ∧ ob_payload o = payload ∧ ob_tags o = default [] tags.
Proof. cbn. split; [done|]. intros o [d ->]%init_fields. done. Qed.

Lemma commit_spec o s :
  match commit o s with
  | (Raise _, s') => s' = s
  | (Ok q, s') => s' = sq_advance (ob_digest q) s ∧ linked s q ∧ same_data o q
  end.
Proof.
  cbv [commit mbind SM_bind sm_get sm_lift sm_mod mret SM_ret].
  destruct (Observation_init _) as [q|e] eqn:E; [|done]. split; [done|].
  pose proof (init_form _ _ E) as Hf. apply init_sealed in E as (h & Hh & -> & _); [|done]. split; [|done]. by constructor.
Qed.
End sequencing.

Lemma sublist_length_eq {A} (l k : list A) : sublist l k → length l = length k → l = k.
Proof.
  induction 1 as [|x l k _ IH|x l k H _]; cbn; [done|intros [= E]; by rewrite IH|].
  intros E. apply sublist_length in H. lia.
Qed.

(** ** The chain behind the bus *)
Section chain.
Context {F : Type} (clock : nat → Z) (new_id : nat → pystr) (filter : option (Filter F)) (sink : nat → Observation → res unit).

(** The content is what the filter returned for some draft. *)
Definition passed (o : Observation) : Prop :=
  match filter with
  | None => True
  | Some flt => ∃ d f o1 f', flt d f = (Ok (Some o1), f') ∧ same_data o1 o
  end.

Record bus_inv (b : ObservationBus F) (os : list Observation) : Prop := {
  bi_chain : verify_chain_from GENESIS None [] os = true;
  bi_head : sq_prev (bu_sequencer b) = chain_head GENESIS os;
  bi_count : sq_count (bu_sequencer b) = Z.of_nat (length os);
  bi_trace : ∀ o, o ∈ os → ob_trace_id o = sq_trace_id (bu_sequencer b);
  bi_ids : ∀ o, o ∈ os → ∃ k, k < sq_tick (bu_sequencer b) ∧ ob_obs_id o = new_id k;
  bi_plain : Forall obs_plain os;
  bi_passed : Forall passed os;
  bi_sink : sublist (bu_sink b) os;
  bi_emitted : bu_emitted b = Z.of_nat (length (bu_sink b));
  bi_lost : (Z.of_nat (length os) <= bu_emitted b + bu_errors b)%Z
}.

(** The effect of one emission: an observation may be committed, and if so the
    sink may take it; one counter moves. *)
Definition emission (b b' : ObservationBus F) (o : option Observation) (taken : bool) : Prop :=
  let s := bu_sequencer b in
  bu_sequencer b' = mkSequencer (sq_trace_id s) (match o with Some q => ob_digest q | None => sq_prev s end)
                      (sq_count s + if o is Some _ then 1 else 0) (S (sq_tick s)) ∧
  bu_sink b' = bu_sink b ++ (match o with Some q => if taken then [q] else [] | None => [] end) ∧
  bu_emitted b' = (bu_emitted b + if o is Some _ then if taken then 1 else 0 else 0)%Z ∧
  (bu_errors b <= bu_errors b')%Z ∧ (o ≠ None → taken = false → bu_errors b' = bu_errors b + 1)%Z ∧
  (bu_emitted b' + bu_dropped_by_filter b' + bu_errors b' = bu_emitted b + bu_dropped_by_filter b + bu_errors b + 1)%Z.

Context (Hkeep : ∀ flt, filter = Some flt → keeps_identity flt).

Lemma emit_spec kind payload tags source b :
  plain (JDict payload) → plain (JDict (default [] tags)) →
  ∃ o taken, emission b (emit clock new_id filter sink kind payload tags source b).2 o taken ∧
    ∀ q, o = Some q → linked (bu_sequencer b) q ∧ ob_obs_id q = new_id (sq_tick (bu_sequencer b)) ∧ obs_plain q ∧ passed q.
Proof using Hkeep.
  intros Hp Ht. unfold emit, sm_try, mbind, SM_bind. unfold with_sequencer at 1.
  pose proof (draft_spec clock new_id kind payload tags source (bu_sequencer b)) as Hd.
  destruct (draft _ _ _ _ _ _ _) as [[d|e] s1]; destruct Hd as [-> Hd].
  2:{ exists None, false. unfold emission. cbn. rewrite app_nil_r. split_and!; try done; try lia. f_equal. lia. }
  destruct (Hd d eq_refl) as (Hid & Epay & Etags). clear Hd.
  assert (obs_plain d) as Hpd by (unfold obs_plain; by rewrite Epay, Etags).
  set (b1 := mkOBus _ _ _ _ _ _ _ _).
  assert (∀ r b2, (match filter with Some flt => with_filter (flt d) | None => mret (Some d) end) b1 = (r, b2) →
    bu_sequencer b2 = bu_sequencer b1 ∧ bu_sink b2 = bu_sink b ∧ bu_emitted b2 = bu_emitted b ∧ bu_dropped_by_filter b2 = bu_dropped_by_filter b ∧
    bu_errors b2 = bu_errors b ∧ ∀ o1, r = Ok (Some o1) → ob_obs_id o1 = ob_obs_id d ∧ obs_plain o1 ∧ ∀ q, same_data o1 q → passed q) as Hf.
  { intros r b2 H. unfold passed. destruct filter as [flt|] eqn:Ef.
    - unfold with_filter in H. destruct (flt d (bu_filter_state b1)) as [r' f'] eqn:Efd. injection H as <- <-. split_and!; [done..|].
      intros o1 ->. destruct (Hkeep flt eq_refl _ _ _ _ Efd) as [E1 E2]. split_and!; [done|auto|]. intros q Hq. by exists d, (bu_filter_state b1), o1, f'.
    - inversion H; subst. split_and!; [done..|]. intros o1 [= <-]. by split_and!. }
  destruct ((match filter with Some flt => with_filter (flt d) | None => mret (Some d) end) b1) as [[[o1|]|e] b2] eqn:E2;
    destruct (Hf _ _ eq_refl) as (Es & Ek & Em & Edr & Eer & Ho); clear Hf.
  - destruct (Ho o1 eq_refl) as (Hid1 & Hp1 & Hpass). unfold with_sequencer. pose proof (commit_spec o1 (bu_sequencer b2)) as Hc.
    destruct (commit o1 (bu_sequencer b2)) as [[q|e] s2].
    + destruct Hc as (-> & Hl & Hsd). exists (Some q), (is_ok (sink (bu_writes b2) q)). split.
      * unfold sink_emit. cbn [bu_writes]. destruct (sink (bu_writes b2) q) as [[]|e]; unfold emission; cbn; rewrite Es, Ek, Em, Edr, Eer;
          cbn; rewrite ?app_nil_r; split_and!; try done; try lia.
      * intros q' [= <-]. rewrite Es in Hl. split_and!; [by destruct Hl; constructor| | |by apply Hpass].
        -- destruct Hsd as (-> & _). congruence.
        -- destruct Hsd as (_ & _ & _ & E3 & E4 & _). unfold obs_plain. by rewrite E3, E4.
    + subst s2. exists None, false. split; [|done]. unfold emission. cbn. rewrite Es, Ek, Em, Edr, Eer. cbn. rewrite app_nil_r.
      split_and!; try done; try lia. f_equal. lia.
  - exists None, false. split; [|done]. unfold emission. cbn. rewrite Es, Ek, Em, Edr, Eer. cbn. rewrite app_nil_r.
    split_and!; try done; try lia. f_equal. lia.
  - exists None, false. split; [|done]. unfold emission. cbn. rewrite Es, Ek, Em, Edr, Eer. cbn. rewrite app_nil_r.
    split_and!; try done; try lia. f_equal. lia.
Qed.

Context (Hid : ∀ m n, new_id m = new_id n → m = n).

(** One emission extends the chain by what it commits. *)
Lemma emission_inv b b' o taken os :
  bus_inv b os → emission b b' o taken →
  (∀ q, o = Some q → linked (bu_sequencer b) q ∧ ob_obs_id q = new_id (sq_tick (bu_sequencer b)) ∧ obs_plain q ∧ passed q) →
  bus_inv b' (os ++ match o with Some q => [q] | None => [] end).
Proof using Hid.
  intros [H1 H2 H3 H4 H5 H6 H7 H8 H9 H10] (Es & Ek & Em & Hle & Herr & _) Ho. destruct o as [q|].
  - destruct (Ho q eq_refl) as ([L1 L2 L3 [L4 L5]] & Hq & Hpl & Hpa). constructor; rewrite ?Es, ?Ek, ?Em, ?length_app; cbn.
    + apply verify_chain_snoc; try done; [by rewrite L2, H2| |apply not_elem_of_nil|].
      * intros x Hx. rewrite L3. by apply H4.
      * intros x Hx E. destruct (H5 x Hx) as (k & Hk & Ex). rewrite Ex, Hq in E. apply Hid in E. lia.
    + unfold chain_head. by rewrite last_snoc.
    + lia.
    + intros x [Hx| ->%list_elem_of_singleton]%elem_of_app; [by apply H4|done].
    + intros x [Hx| ->%list_elem_of_singleton]%elem_of_app; [destruct (H5 x Hx) as (k & ? & ?); exists k; split; [lia|done]|].
      exists (sq_tick (bu_sequencer b)). split; [lia|done].
    + apply Forall_app. split; [done|by apply Forall_singleton].
    + apply Forall_app. split; [done|by apply Forall_singleton].
    + destruct taken; [by apply sublist_app|]. rewrite app_nil_r. by apply sublist_inserts_r.
    + rewrite H9. destruct taken; cbn; lia.
    + destruct taken; [lia|]. rewrite Herr by done. lia.
  - rewrite app_nil_r. constructor; rewrite ?Es, ?Ek, ?Em, ?app_nil_r; cbn; try done; [lia| |lia..].
    intros x Hx. destruct (H5 x Hx) as (k & ? & ?). exists k. split; [lia|done].
Qed.

Definition bus_op_plain (op : BusOp) : Prop :=
  match op with
  | BEmit _ payload tags _ => plain (JDict payload) ∧ plain (JDict (default [] tags))
  | BContext c _ payload tags _ => plain (JDict payload) ∧ plain (JDict (tc_default_tags c)) ∧ plain (JDict (default [] tags))
  | _ => True
  end.

(** Operations that move a counter. *)
Definition counted (op : BusOp) : Z :=
  match op with
  | BEmit _ _ _ _ | BContext _ _ _ _ _ => 1
  | BFlush r | BClose r => if is_ok r then 0 else 1
  end.

Definition counters (b : ObservationBus F) : Z := (bu_emitted b + bu_dropped_by_filter b + bu_errors b)%Z.

Lemma obus_op_inv op b os :
  bus_op_plain op → bus_inv b os →
  (∃ os', bus_inv (obus_op clock new_id filter sink op b) (os ++ os')) ∧
  counters (obus_op clock new_id filter sink op b) = (counters b + counted op)%Z ∧
  sq_trace_id (bu_sequencer (obus_op clock new_id filter sink op b)) = sq_trace_id (bu_sequencer b).
Proof using Hkeep Hid.
  intros Hp Hb. assert (∀ kind payload tags source, plain (JDict payload) → plain (JDict (default [] tags)) →
    let b' := (emit clock new_id filter sink kind payload tags source b).2 in
    (∃ os', bus_inv b' (os ++ os')) ∧ counters b' = (counters b + 1)%Z ∧ sq_trace_id (bu_sequencer b') = sq_trace_id (bu_sequencer b)) as Hemit.
  { intros kind payload tags source H1 H2. destruct (emit_spec kind payload tags source b H1 H2) as (o & taken & He & Ho). cbv zeta. split_and!.
    - eexists. by eapply emission_inv.
    - apply He.
    - destruct He as (-> & _). done. }
  assert (∀ msg, bus_inv (count_error msg b) os) as Herr.
  { intros msg. destruct Hb as [? ? ? ? ? ? ? ? ? Hl]. constructor; cbn; try done. lia. }
  destruct op as [kind payload tags source|c kind payload tags source|[[]|e]|[[]|e]]; cbn [obus_op counted bus_op_plain] in *.
  - destruct Hp as [H1 H2]. by apply Hemit.
  - destruct Hp as (H1 & H2 & H3). apply Hemit; [done|]. by apply plain_merge.
  - cbn. split_and!; [exists []; by rewrite app_nil_r|lia|done].
  - cbn. split_and!; [exists []; by rewrite app_nil_r|unfold counters; cbn; lia|done].
  - cbn. split_and!; [exists []; by rewrite app_nil_r|lia|done].
  - cbn. split_and!; [exists []; by rewrite app_nil_r|unfold counters; cbn; lia|done].
Qed.

Lemma obus_run_inv ops b os :
  Forall bus_op_plain ops → bus_inv b os →
  (∃ os', bus_inv (obus_run clock new_id filter sink ops b) (os ++ os')) ∧
  counters (obus_run clock new_id filter sink ops b) = (counters b + foldr Z.add 0 (counted <$> ops))%Z ∧
  sq_trace_id (bu_sequencer (obus_run clock new_id filter sink ops b)) = sq_trace_id (bu_sequencer b).
Proof using Hkeep Hid.
  intros Hp. revert b os. induction Hp as [|op ops Hop _ IH]; intros b os Hb.
  { cbn. split_and!; [exists []; by rewrite app_nil_r|lia|done]. }
  destruct (obus_op_inv op b os Hop Hb) as ((os1 & H1) & Hc & Ht). destruct (IH _ _ H1) as ((os2 & H2) & Hc2 & Ht2).
  rewrite <- app_assoc in H2.
  change (obus_run clock new_id filter sink (op :: ops) b) with (obus_run clock new_id filter sink ops (obus_op clock new_id filter sink op b)).
  split_and!; [by eexists| |congruence]. rewrite Hc2, Hc. cbn. lia.
Qed.

Lemma bus_inv_new trace f : bus_inv (Bus_init trace f) [].
Proof. constructor; cbn; try done; by intros o ?%not_elem_of_nil. Qed.

(** C32: The bus seals one chain and hides no loss.  Let the filter keep the
    identifier of what it passes and its JSON plain, as every filter of filters.py
    and every composition of them does, whatever else it drops or changes, and let
    the sink do anything.  After any emissions of plain JSON (distinct keys,
    finite numbers), flushes and closes on a fresh bus there is one chain of sealed observations that verifies anchored at the sequencer's head
    and count, each carrying exactly the content the filter returned; what later
    operations seal is appended to it; the sink holds a subsequence of it of
    [emitted] length, and every missing one was counted as an error; the sink's
    content verifies against the anchors exactly when nothing is missing; every
    chain that verifies against the head is this one, or two observations
    collide; and each emission and each failed flush or close moves one counter.
    Identifiers are assumed distinct, as UUIDs are. *)
Theorem observation_bus_chain trace f ops ops' :
  Forall bus_op_plain ops → Forall bus_op_plain ops' →
  let b := obus_run clock new_id filter sink ops (Bus_init trace f) in
  let b' := obus_run clock new_id filter sink ops' b in
  let head := sq_prev (bu_sequencer b) in
  let count := sq_count (bu_sequencer b) in
  ∃ os os',
    verify_chain os (Some head) (Some count) = true ∧
    verify_chain (os ++ os') (Some (sq_prev (bu_sequencer b'))) (Some (sq_count (bu_sequencer b'))) = true ∧
    Forall passed os ∧ (∀ o, o ∈ os → ob_trace_id o = trace) ∧
    sublist (bu_sink b) os ∧ bu_emitted b = Z.of_nat (length (bu_sink b)) ∧ (count - bu_emitted b <= bu_errors b)%Z ∧
    (verify_chain (bu_sink b) (Some head) (Some count) = true ↔ bu_sink b = os) ∧
    (∀ os2, Forall obs_plain os2 → verify_chain os2 (Some head) None = true → Forall2 same_observation os os2 ∨ chains_collide os os2) ∧
    counters b = foldr Z.add 0%Z (counted <$> ops).
Proof using Hkeep Hid.
  intros Hp Hp' b b' head count.
  destruct (obus_run_inv ops _ [] Hp (bus_inv_new trace f)) as ((os & Hos) & Hc & Ht). fold b in Hos, Hc, Ht. cbn [app] in Hos.
  destruct (obus_run_inv ops' b os Hp' Hos) as ((os' & Hos') & _). fold b' in Hos'. exists os, os'.
  pose proof Hos as [H1 H2 H3 H4 H5 H6 H7 H8 H9 H10]. split_and!; try done.
  - apply chain_anchored. by split_and!.
  - apply chain_anchored. destruct Hos' as [E1 E2 E3 _ _ _ _ _ _ _]. by split_and!.
  - intros o Ho. by rewrite (H4 o Ho), Ht.
  - unfold count. lia.
  - split.
    + intros (_ & _ & Hl)%chain_anchored. apply sublist_length_eq; [done|]. unfold count in Hl. lia.
    + intros ->. apply chain_anchored. by split_and!.
  - intros os2 Hp2 [V2 E2]%chain_anchored_head. apply chain_determined; try done. unfold head in E2. congruence.
Qed.
End chain.

(** ** Two instances *)

(** Every string of a redacted payload but the keys went through the patterns. *)
Inductive redacted (patterns : list (pystr → pystr)) : json → Prop :=
  | red_str s : redacted patterns (JStr (foldl (λ s (p : pystr → pystr), p s) s patterns))
  | red_list l : Forall (redacted patterns) l → redacted patterns (JList l)
  | red_dict d : Forall (λ kv, redacted patterns kv.2) d → redacted patterns (JDict d)
  | red_null : redacted patterns JNull
  | red_bool b : redacted patterns (JBool b)
  | red_int z : redacted patterns (JInt z)
  | red_float f : redacted patterns (JFloat f).

Lemma redact_in_redacted patterns v : redacted patterns (_redact_in patterns v).
Proof.
  induction v as [|b|z|f|s|l IH|d IH] using json_ind; cbn [_redact_in]; constructor; rewrite Forall_fmap; exact IH.
Qed.

(** What reaches the sink of a redacting bus is redacted. *)
Corollary sink_redacted {F} clock new_id patterns sink trace (f : F) ops :
  (∀ m n, new_id m = new_id n → m = n) → Forall bus_op_plain ops →
  Forall (λ o, redacted patterns (JDict (ob_payload o)))
    (bu_sink (obus_run clock new_id (Some (redact_payload patterns)) sink ops (Bus_init trace f))).
Proof.
  intros Hid Hp. set (b := obus_run _ _ _ _ _ _).
  destruct (obus_run_inv clock new_id (Some (redact_payload patterns)) sink
    ltac:(intros flt [= <-]; apply redact_keeps) Hid ops _ [] Hp (bus_inv_new new_id _ trace f)) as ((os & Hos) & _). fold b in Hos.
  apply Forall_forall. intros o Ho. destruct Hos as [_ _ _ _ _ _ H7 H8 _ _]. cbn [app] in *.
  assert (o ∈ os) as Hin by (by apply (sublist_subseteq _ _ H8)). rewrite Forall_forall in H7. destruct (H7 o Hin) as (d & g & o1 & g' & Hf & Hsd).
  destruct Hsd as (_ & _ & _ & -> & _). apply sm_bind_Ok in Hf as (o2 & g1 & [Hi ->]%sm_lift_Ok & Hf). inversion Hf; subst o2.
  apply init_fields in Hi as [dg ->]. exact (redact_in_redacted patterns (JDict (ob_payload d))).
Qed.

(** A secret used as a key of the payload is not redacted, although the filter
    is documented to apply to every string in the payload tree. *)
Lemma key_not_redacted patterns s v : _redact_in patterns (JDict [(s, v)]) = JDict [(s, _redact_in patterns v)].
Proof. reflexivity. Qed.

(** A host filter that gives every observation one identifier breaks the chain: the
    identifier is taken from the filter's answer and not checked. *)
Definition renaming_filter : Filter unit := λ o,
  mret (Some (mkObservation (str "one") (ob_trace_id o) (ob_kind o) (ob_timestamp_ns o) (ob_schema_version o) (ob_prev_hash o)
                (ob_payload o) (ob_tags o) (ob_source o) (ob_digest o))).
Theorem renaming_filter_breaks_chain :
  let op := BEmit (str "custom") [] None (str "src") in
  let b := obus_run (λ n, Z.of_nat n) (λ n, replicate (S n) 97%N) (Some renaming_filter) (λ _ _, Ok tt) [op; op] (Bus_init (str "t") tt) in
  bu_emitted b = 2%Z ∧ bu_errors b = 0%Z ∧ verify_chain (bu_sink b) None None = false.
Proof. vm_compute. done. Qed.

(** ** A witness *)
Definition demo_obs_id (n : nat) : pystr := replicate (S n) 97%N.
Definition demo_bus_ops : list BusOp :=
  [BEmit (str "custom") [(str "k", JStr (str "v"))] None (str "src"); BEmit (str "handoff") [] None (str "src");
   BEmit (str "custom") [] None (str "src"); BEmit (str "bogus") [] None (str "src"); BFlush (Ok tt)].
(** The sink fails at its second write. *)
Definition demo_sink (n : nat) (o : Observation) : res unit := if (n =? 1)%nat then Raise (OtherError "disk full") else Ok tt.
Definition demo_filter : Filter unit := compose [deny_kinds [str "handoff"]; redact_payload [λ s, str "X" ++ s]].
Definition demo_obus : ObservationBus unit :=
  obus_run (λ n, Z.of_nat n) demo_obs_id (Some demo_filter) demo_sink demo_bus_ops (Bus_init (str "t") tt).

Lemma demo_obus_emitted : bu_emitted demo_obus = 1%Z.
Proof. vm_compute. reflexivity. Qed.
Lemma demo_obus_count : sq_count (bu_sequencer demo_obus) = 2%Z.
Proof. vm_compute. reflexivity. Qed.

Lemma observation_bus_chain_witness :
  ∃ os, verify_chain os (Some (sq_prev (bu_sequencer demo_obus))) (Some 2%Z) = true ∧ bu_sink demo_obus ≠ os.
Proof.
  destruct (observation_bus_chain (λ n, Z.of_nat n) demo_obs_id (Some demo_filter) demo_sink) with (trace := str "t") (f := tt)
    (ops := demo_bus_ops) (ops' := @nil BusOp) as (os & os' & H1 & _ & _ & _ & _ & He & _ & H2 & _).
  - intros flt [= <-]. apply library_keeps. repeat constructor.
  - intros m n E. apply (f_equal length) in E. unfold demo_obs_id in E. rewrite !length_replicate in E. lia.
  - repeat constructor; try (vm_compute; reflexivity).
  - constructor.
  - fold demo_obus in H1, H2, He. rewrite demo_obus_count in H1.
    exists os. split; [exact H1|]. intros E. apply chain_anchored in H1 as (_ & _ & H1). rewrite demo_obus_emitted, E in He. lia.
Defined.
