(* ===== verification/RuntimeJournal.v ===== *)
(** * The runtime journal (residual/factory/runtime_journal.py)

    The journal of worker attempts: the SQLite
    tables as lists in insertion order with their uniqueness constraints, and
    every operation as one transaction that is undone when it raises.  [clock]
    is [time.time_ns()] and [new_id] is [str(uuid.uuid4())], by reading number.
    Opening the file, its permissions, lock contention and the retries before a
    transaction starts are not modelled: they change no table. *)

From Stdlib Require Import ZArith NArith Lia.
From S2P Require Import Prelude PyData Sha256 PyFloat Json JsonFacts Core CoreFacts Storage Builtins GoalSpec JsonPlain Plan WorkerContract Observations.

(** ** The journal *)
Definition JournalError (msg : string) : exn := WorkerContractError ("JournalError: " +:+ msg).

Inductive AttemptState : Type := RESERVED | RUNNING | CANDIDATE | VIOLATED | FAILED | CANCELLED | AUDIT_FAILED | PURGED.
#[export] Instance AttemptState_eq_dec : EqDecision AttemptState.
Proof. solve_decision. Defined.

Definition state_text (s : AttemptState) : string :=
  match s with
  | RESERVED => "RESERVED" | RUNNING => "RUNNING" | CANDIDATE => "CANDIDATE" | VIOLATED => "VIOLATED"
  | FAILED => "FAILED" | CANCELLED => "CANCELLED" | AUDIT_FAILED => "AUDIT_FAILED" | PURGED => "PURGED"
  end.
Definition terminal_state (s : pystr) : option AttemptState :=
  List.find (λ t, bool_decide (s = str (state_text t))) [CANDIDATE; VIOLATED; FAILED; CANCELLED; AUDIT_FAILED].

Definition active (s : AttemptState) : bool := match s with RESERVED | RUNNING => true | _ => false end.
(** States that keep another attempt of the task out. *)
Definition occupying (s : AttemptState) : bool := match s with RESERVED | RUNNING | CANDIDATE => true | _ => false end.

Record AttemptRow : Type := mkAttempt {
  at_attempt_id : pystr;
  at_task_id : pystr;
  at_worker_id : pystr;
  at_swarm_id : pystr;
  at_plan_hash : pystr;
  at_contract_hash : pystr;
  at_contract_json : pystr;
  at_lease_id : pystr;
  at_generation : Z;
  at_workspace : pystr;
  at_state : AttemptState;
  at_revoked : bool;
  at_pid : option Z;
  at_created_ns : Z;
  at_updated_ns : Z
}.

Definition at_task (r : AttemptRow) : pystr * pystr := (at_plan_hash r, at_task_id r).

Definition set_row (state : AttemptState) (revoked : bool) (pid : option Z) (now : Z) (r : AttemptRow) : AttemptRow :=
  mkAttempt (at_attempt_id r) (at_task_id r) (at_worker_id r) (at_swarm_id r) (at_plan_hash r) (at_contract_hash r) (at_contract_json r)
    (at_lease_id r) (at_generation r) (at_workspace r) state revoked pid (at_created_ns r) now.

Record EventRow : Type := mkEventRow { er_digest : pystr; er_record : pystr }.

Record RuntimeJournal : Type := mkRJournal {
  rj_trace_id : pystr;
  rj_attempts : list AttemptRow;
  rj_generations : list ((pystr * pystr) * Z);
  rj_events : list EventRow;
  rj_tick : nat
}.

Definition set_attempts (l : list AttemptRow) (j : RuntimeJournal) : RuntimeJournal :=
  mkRJournal (rj_trace_id j) l (rj_generations j) (rj_events j) (rj_tick j).
Definition set_generations (l : list ((pystr * pystr) * Z)) (j : RuntimeJournal) : RuntimeJournal :=
  mkRJournal (rj_trace_id j) (rj_attempts j) l (rj_events j) (rj_tick j).
Definition add_event_row (e : EventRow) (j : RuntimeJournal) : RuntimeJournal :=
  mkRJournal (rj_trace_id j) (rj_attempts j) (rj_generations j) (rj_events j ++ [e]) (rj_tick j).
Definition set_tick (n : nat) (j : RuntimeJournal) : RuntimeJournal :=
  mkRJournal (rj_trace_id j) (rj_attempts j) (rj_generations j) (rj_events j) n.

Definition find_attempt (id : pystr) (j : RuntimeJournal) : option AttemptRow :=
  List.find (λ r, bool_decide (at_attempt_id r = id)) (rj_attempts j).

(** [UPDATE attempts SET ... WHERE attempt_id=id] *)
Definition update_attempt (id : pystr) (f : AttemptRow → AttemptRow) (j : RuntimeJournal) : RuntimeJournal :=
  set_attempts ((λ r, if bool_decide (at_attempt_id r = id) then f r else r) <$> rj_attempts j) j.

Section journal.
Context (clock : nat → Z) (new_id : nat → pystr).
Abbreviation M := (SM RuntimeJournal).

(** [with self._transaction() as db] *)
Definition transaction {A} (m : M A) : M A := λ j,
  match m j with
  | (Ok a, j') => (Ok a, j')
  | (Raise e, j') => (Raise e, set_tick (rj_tick j') j)
  end.

Definition now : M Z := λ j, (Ok (clock (rj_tick j)), set_tick (S (rj_tick j)) j).
Definition uuid : M pystr := λ j, (Ok (new_id (rj_tick j)), set_tick (S (rj_tick j)) j).

Definition tail_digest (j : RuntimeJournal) : pystr := match last (rj_events j) with Some e => er_digest e | None => GENESIS end.

Definition _append (payload : dict json) : M unit :=
  payload ← sm_lift (t ← canonical (JDict payload); v ← strict_json t; typed_dict (TypeError "payload") v);
  j ← sm_get;
  id ← uuid;
  t ← now;
  o ← sm_lift (Observation_init (mkObservation id (rj_trace_id j) (str "custom") t SCHEMA_VERSION (tail_digest j) payload
                 [(str "component", JStr (str "factory-runtime"))] (str "residual.factory.runtime") []));
  record ← sm_lift (canonical (observation_dict o));
  if existsb (λ e, bool_decide (er_digest e = ob_digest o)) (rj_events j)
  then sm_raise (OtherError "sqlite3.IntegrityError")
  else sm_mod (add_event_row (mkEventRow (ob_digest o) record)).

Definition observe (payload : dict json) : M unit := transaction (_append payload).

Definition strs (d : list (string * json)) : dict json := (λ kv, (str kv.1, kv.2)) <$> d.

Definition generation_of (c : WorkerContract) (j : RuntimeJournal) : option Z :=
  snd <$> List.find (λ kv : (pystr * pystr) * Z, bool_decide (kv.1 = (wc_execution_plan_hash c, wc_task_id c))) (rj_generations j).

(** [INSERT INTO generations ... ON CONFLICT DO UPDATE] *)
Definition upsert_generation (k : pystr * pystr) (g : Z) (j : RuntimeJournal) : RuntimeJournal :=
  if existsb (λ kv : (pystr * pystr) * Z, bool_decide (kv.1 = k)) (rj_generations j)
  then set_generations ((λ kv : (pystr * pystr) * Z, if bool_decide (kv.1 = k) then (k, g) else kv) <$> rj_generations j) j
  else set_generations (rj_generations j ++ [(k, g)]) j.

Definition insert_attempt (r : AttemptRow) : M unit :=
  j ← sm_get;
  if existsb (λ q, bool_decide (at_attempt_id q = at_attempt_id r) || bool_decide (at_worker_id q = at_worker_id r)
                   || bool_decide (at_lease_id q = at_lease_id r) || bool_decide (at_workspace q = at_workspace r)) (rj_attempts j)
  then sm_raise (JournalError "attempt, worker, lease or workspace identity was already used")
  else sm_mod (λ j, set_attempts (rj_attempts j ++ [r]) j).

Definition occupied (c : WorkerContract) (j : RuntimeJournal) : bool :=
  existsb (λ r, bool_decide (at_task r = (wc_execution_plan_hash c, wc_task_id c)) && occupying (at_state r)) (rj_attempts j).

Definition claim (c : WorkerContract) (source_hash : pystr) (approval : dict json) : M unit := transaction (
  j ← sm_get;
  if match generation_of c j with Some g => (wc_lease_generation c <=? g)%Z | None => false end
  then sm_raise (JournalError "lease generation must increase across attempts")
  else if occupied c j then sm_raise (JournalError "task already has an active or quarantined attempt")
  else
    t ← now;
    ch ← sm_lift (contract_hash c);
    cj ← sm_lift (canonical (jobj (contract_dict c)));
    g ← sm_lift (sql_int (wc_lease_generation c));
    _ ← insert_attempt (mkAttempt (wc_attempt_id c) (wc_task_id c) (wc_worker_id c) (wc_swarm_id c) (wc_execution_plan_hash c) ch cj
          (wc_lease_id c) g (wc_workspace_root c) RESERVED false None t t);
    _ ← sm_mod (upsert_generation (wc_execution_plan_hash c, wc_task_id c) g);
    _append (strs [("event", JStr (str "RuntimeAttemptClaimed")); ("contract", jobj (contract_dict c)); ("contract_hash", JStr ch);
                   ("execution_plan_hash", JStr (wc_execution_plan_hash c)); ("attempt_id", JStr (wc_attempt_id c));
                   ("source_sha256", JStr source_hash); ("approval", JDict approval); ("approval_trust", JStr (str "local_operator"));
                   ("profile", JStr (str "linux-seccomp-broker-v1"))])).

Definition started (c : WorkerContract) (pid : Z) : M unit := transaction (
  t ← now;
  p ← sm_lift (sql_int pid);
  j ← sm_get;
  match find_attempt (wc_attempt_id c) j with
  | Some r =>
      if bool_decide (at_state r = RESERVED) && negb (at_revoked r) then
        _ ← sm_mod (update_attempt (wc_attempt_id c) (set_row RUNNING (at_revoked r) (Some p) t));
        ch ← sm_lift (contract_hash c);
        _append (strs [("event", JStr (str "RuntimeProcessSpawned")); ("attempt_id", JStr (wc_attempt_id c));
                       ("contract_hash", JStr ch); ("pid", JInt pid)])
      else sm_raise (JournalError "attempt is not reserved or has been revoked")
  | None => sm_raise (JournalError "attempt is not reserved or has been revoked")
  end).

(** The test shared by [lease_is_current] and [lease_read]. *)
Definition row_current (c : WorkerContract) (row : option AttemptRow) : res bool :=
  match row with
  | None => Ok false
  | Some r =>
      if bool_decide (at_lease_id r = wc_lease_id c) && (at_generation r =? wc_lease_generation c)%Z && negb (at_revoked r)
         && active (at_state r)
      then ch ← contract_hash c; Ok (bool_decide (at_contract_hash r = ch))
      else Ok false
  end.

Definition lease_is_current (c : WorkerContract) (j : RuntimeJournal) : res bool := row_current c (find_attempt (wc_attempt_id c) j).

Inductive LeaseState : Type := current | revoked | unknown.
Record LeaseRead : Type := mkLeaseRead { lr_state : LeaseState; lr_diag : option (string * Z) }.

(** [exhausted]: the caller's deadline has passed.  [failure]: the class and
    code of the [sqlite3.Error] that reading raised. *)
Definition lease_read (c : WorkerContract) (exhausted : bool) (failure : option (string * option Z)) (j : RuntimeJournal) : res LeaseRead :=
  if exhausted then Ok (mkLeaseRead unknown (Some ("read_budget_exhausted", 0%Z)))
  else
    match failure with
    | Some (name, code) => Ok (mkLeaseRead unknown (Some (name, default (-1)%Z code)))
    | None =>
        b ← row_current c (find_attempt (wc_attempt_id c) j);
        Ok (mkLeaseRead (if b : bool then current else revoked) None)
    end.

Definition revoke (attempt_id : pystr) : M unit := transaction (
  j ← sm_get;
  match find_attempt attempt_id j with
  | Some r =>
      if active (at_state r) then
        t ← now;
        _ ← sm_mod (update_attempt attempt_id (λ r, set_row (at_state r) true (at_pid r) t r));
        _append (strs [("event", JStr (str "RuntimeLeaseRevoked")); ("attempt_id", JStr attempt_id)])
      else sm_raise (JournalError "only an active attempt can be revoked")
  | None => sm_raise (JournalError "only an active attempt can be revoked")
  end).

Definition finish (c : WorkerContract) (state : pystr) (details : dict json) : M unit :=
  match terminal_state state with
  | None => sm_raise (JournalError "invalid terminal runtime state")
  | Some st => transaction (
      j ← sm_get;
      match find_attempt (wc_attempt_id c) j with
      | Some r =>
          if negb (active (at_state r)) then sm_raise (JournalError "attempt already terminal or unknown")
          else if bool_decide (st = CANDIDATE) && at_revoked r then sm_raise (JournalError "revoked attempt cannot produce a candidate")
          else
            t ← now;
            _ ← sm_mod (update_attempt (wc_attempt_id c) (λ r, set_row st (at_revoked r) (at_pid r) t r));
            ch ← sm_lift (contract_hash c);
            _append (foldl (λ d kv, dset kv.1 kv.2 d)
              (strs [("event", JStr (str "RuntimeAttemptFinished")); ("attempt_id", JStr (wc_attempt_id c));
                     ("execution_plan_hash", JStr (wc_execution_plan_hash c)); ("contract_hash", JStr ch); ("state", JStr state)]) details)
      | None => sm_raise (JournalError "attempt already terminal or unknown")
      end)
  end.

Definition mark_purged (attempt_id : pystr) : M unit := transaction (
  j ← sm_get;
  match find_attempt attempt_id j with
  | Some r =>
      if active (at_state r) then sm_raise (JournalError "active attempts cannot be purged")
      else
        t ← now;
        _ ← sm_mod (update_attempt attempt_id (λ r, set_row PURGED (at_revoked r) (at_pid r) t r));
        _append (strs [("event", JStr (str "RuntimeCandidatePurged")); ("attempt_id", JStr attempt_id)])
  | None => sm_raise (JournalError "active attempts cannot be purged")
  end).

Definition attempt_leb (x y : AttemptRow) : bool :=
  if (at_created_ns x =? at_created_ns y)%Z then str_leb (at_attempt_id x) (at_attempt_id y) else (at_created_ns x <? at_created_ns y)%Z.
Definition attempts (j : RuntimeJournal) : list AttemptRow := sort_by attempt_leb (rj_attempts j).

Definition observations (j : RuntimeJournal) : res (list Observation) :=
  values ← mapM (λ e, v ← strict_json (er_record e); observation_of v) (rj_events j);
  when negb (verify_chain values None None) raise JournalError "observation chain is invalid";;
  Ok values.

(** Opening an empty file or one written before. *)
Definition RuntimeJournal_open (trace_id : pystr) (saved : option RuntimeJournal) : res RuntimeJournal :=
  when negb ((0 <? length trace_id)%nat && (length trace_id <=? 96)%nat) raise JournalError "invalid runtime trace_id";;
  j ← match saved with
      | None => Ok (mkRJournal trace_id [] [] [] 0)
      | Some j => when negb (bool_decide (rj_trace_id j = trace_id)) raise JournalError "journal belongs to another run";; Ok j
      end;
  _ ← observations j;
  Ok j.
End journal.
