(* ===== verification/RuntimeFacts.v ===== *)
(** * What the runtime journal guarantees about attempts and leases *)

From Stdlib Require Import ZArith NArith Lia.
From S2P Require Import Prelude PyData Sha256 PyFloat Json JsonFacts Core CoreFacts Storage Builtins GoalSpec JsonPlain Plan WorkerContract Observations RuntimeJournal.

(** ** The life of an attempt *)
Definition same_identity (r r' : AttemptRow) : Prop :=
  at_attempt_id r' = at_attempt_id r ∧ at_task r' = at_task r ∧ at_worker_id r' = at_worker_id r ∧
  at_lease_id r' = at_lease_id r ∧ at_generation r' = at_generation r ∧ at_workspace r' = at_workspace r ∧
  at_contract_hash r' = at_contract_hash r.

(** The transitions of one attempt. *)
Inductive attempt_step (r r' : AttemptRow) : Prop :=
| step_start : at_state r = RESERVED → at_revoked r = false → at_state r' = RUNNING → at_revoked r' = false → attempt_step r r'
| step_revoke : active (at_state r) = true → at_state r' = at_state r → at_revoked r' = true → attempt_step r r'
| step_finish : active (at_state r) = true → active (at_state r') = false → at_state r' ≠ PURGED → at_revoked r' = at_revoked r →
    (at_state r' = CANDIDATE → at_revoked r = false) → attempt_step r r'
| step_purge : active (at_state r) = false → at_state r' = PURGED → at_revoked r' = at_revoked r → attempt_step r r'.

(** What one operation does to the tables. *)
Inductive journal_change (j j' : RuntimeJournal) : Prop :=
| change_none : rj_attempts j' = rj_attempts j → rj_generations j' = rj_generations j → journal_change j j'
| change_claim r :
    rj_attempts j' = rj_attempts j ++ [r] → at_state r = RESERVED → at_revoked r = false →
    (∀ q, q ∈ rj_attempts j → at_attempt_id q ≠ at_attempt_id r ∧ at_worker_id q ≠ at_worker_id r ∧
       at_lease_id q ≠ at_lease_id r ∧ at_workspace q ≠ at_workspace r ∧ (at_task q = at_task r → occupying (at_state q) = false)) →
    (∀ g, (at_task r, g) ∈ rj_generations j → (g < at_generation r)%Z) →
    (∀ k g, (k, g) ∈ rj_generations j' ↔ (k = at_task r ∧ g = at_generation r) ∨ (k ≠ at_task r ∧ (k, g) ∈ rj_generations j)) →
    (NoDup (rj_generations j).*1 → NoDup (rj_generations j').*1) →
    journal_change j j'
| change_update id f :
    rj_attempts j' = ((λ r, if bool_decide (at_attempt_id r = id) then f r else r) <$> rj_attempts j) →
    rj_generations j' = rj_generations j →
    (∀ r, r ∈ rj_attempts j → at_attempt_id r = id → same_identity r (f r) ∧ (attempt_step r (f r) ∨ f r = r)) → journal_change j j'.

(** ** The invariant *)
Record journal_inv (j : RuntimeJournal) : Prop := {
  ji_ids : NoDup (at_attempt_id <$> rj_attempts j);
  ji_workers : NoDup (at_worker_id <$> rj_attempts j);
  ji_leases : NoDup (at_lease_id <$> rj_attempts j);
  ji_workspaces : NoDup (at_workspace <$> rj_attempts j);
  ji_keys : NoDup (rj_generations j).*1;
  ji_generations : ∀ r, r ∈ rj_attempts j → ∃ g, (at_task r, g) ∈ rj_generations j ∧ (at_generation r ≤ g)%Z ∧
                   (occupying (at_state r) = true → at_generation r = g);
  ji_increasing : StronglySorted (λ r q, at_task r = at_task q → (at_generation r < at_generation q)%Z ∧ occupying (at_state r) = false) (rj_attempts j);
  ji_revoked : ∀ r, r ∈ rj_attempts j → at_revoked r = true → at_state r ≠ CANDIDATE
}.

Lemma journal_inv_new trace tick : journal_inv (mkRJournal trace [] [] [] tick).
Proof. constructor; cbn; try constructor; intros r Hr; by apply not_elem_of_nil in Hr. Qed.

Lemma NoDup_snoc {A} (l : list A) x : NoDup (l ++ [x]) ↔ NoDup l ∧ x ∉ l.
Proof.
  rewrite NoDup_app. split.
  - intros (? & H & _). split; [done|]. intros Hx. apply (H x Hx). left.
  - intros [Hl Hx]. split_and!; [done| |apply NoDup_singleton]. intros y Hy ->%list_elem_of_singleton. done.
Qed.

Lemma StronglySorted_snoc {A} (R : A → A → Prop) l x : StronglySorted R l → (∀ y, y ∈ l → R y x) → StronglySorted R (l ++ [x]).
Proof.
  induction 1 as [|y l Hl IH Hy]; intros Hx; cbn; [repeat constructor|]. constructor.
  - apply IH. intros z Hz. apply Hx. by right.
  - apply Forall_app. split; [done|]. constructor; [|done]. apply Hx. left.
Qed.

Lemma StronglySorted_fmap {A} (R : A → A → Prop) (f : A → A) l :
  (∀ x y, x ∈ l → y ∈ l → R x y → R (f x) (f y)) → StronglySorted R l → StronglySorted R (f <$> l).
Proof.
  intros Hf H. induction H as [|x l Hl IH Hx]; cbn; constructor.
  - apply IH. intros y z Hy Hz. apply Hf; by right.
  - apply Forall_fmap, Forall_forall. intros y Hy. rewrite Forall_forall in Hx. apply Hf; [left|by right|by apply Hx].
Qed.

Lemma step_occupying r r' : attempt_step r r' → occupying (at_state r') = true → occupying (at_state r) = true.
Proof.
  intros H. destruct H as [H1 _ _ _|H1 H2 _|H1 _ _ _ _|H1 H2 _].
  - by rewrite H1.
  - by rewrite H2.
  - by destruct (at_state r).
  - by rewrite H2.
Qed.

Lemma step_revoked r r' : attempt_step r r' → (at_revoked r = true → at_state r ≠ CANDIDATE) → at_revoked r' = true → at_state r' ≠ CANDIDATE.
Proof.
  intros H Hr. destruct H as [_ _ H1 H2|H1 H2 _|_ _ _ H1 H2|_ H1 _].
  - by rewrite H1.
  - rewrite H2. by destruct (at_state r).
  - rewrite H1. intros Ht Hc. by rewrite H2 in Ht.
  - by rewrite H1.
Qed.

Section update.
Context (j j' : RuntimeJournal) (id : pystr) (f : AttemptRow → AttemptRow).
Abbreviation F := (λ r, if bool_decide (at_attempt_id r = id) then f r else r).
Context (Ha : rj_attempts j' = F <$> rj_attempts j) (Hg : rj_generations j' = rj_generations j).
Context (Hf : ∀ r, r ∈ rj_attempts j → at_attempt_id r = id → same_identity r (f r) ∧ (attempt_step r (f r) ∨ f r = r)).

Lemma update_row r : r ∈ rj_attempts j → same_identity r (F r) ∧ (attempt_step r (F r) ∨ F r = r).
Proof using Hf. intros Hr. cbv beta. case_bool_decide as E; [by apply Hf|]. split; [unfold same_identity; by split_and!|by right]. Qed.

Lemma update_keys {B} (k : AttemptRow → B) :
  (∀ r r', same_identity r r' → k r' = k r) → k <$> rj_attempts j' = k <$> rj_attempts j.
Proof using Ha Hf.
  intros Hk. rewrite Ha, <- list_fmap_compose. apply list_fmap_ext. intros i r Hr. apply Hk. cbn.
  apply update_row. by eapply list_elem_of_lookup_2.
Qed.

Lemma update_inv : journal_inv j → journal_inv j'.
Proof using Ha Hg Hf.
  intros [H1 H2 H3 H4 H5 H6 H7 H8]. constructor.
  - rewrite update_keys; [done|by intros r r' (? & _)].
  - rewrite update_keys; [done|by intros r r' (_ & _ & ? & _)].
  - rewrite update_keys; [done|by intros r r' (_ & _ & _ & ? & _)].
  - rewrite update_keys; [done|by intros r r' (_ & _ & _ & _ & _ & ? & _)].
  - by rewrite Hg.
  - intros q Hq. rewrite Ha in Hq. apply list_elem_of_fmap in Hq as (r & -> & Hr). destruct (update_row r Hr) as [(_ & Et & _ & _ & Eg & _) Hs].
    rewrite Et, Eg, Hg. destruct (H6 r Hr) as (g & Hin & Hle & Ho). exists g. split_and!; [done|done|]. intros Hocc. apply Ho.
    destruct Hs as [Hs|E]; [by eapply step_occupying|by rewrite E in Hocc].
  - rewrite Ha. apply StronglySorted_fmap; [|done]. intros r q Hr Hq HR. destruct (update_row r Hr) as [(_ & Et & _ & _ & Eg & _) Hs].
    destruct (update_row q Hq) as [(_ & Et' & _ & _ & Eg' & _) _]. rewrite Et, Eg, Et', Eg'. intros E. destruct (HR E) as [Hlt Ho]. split; [done|].
    destruct (occupying (at_state (F r))) eqn:Eo; [|done]. destruct Hs as [Hs|E0]; [|rewrite E0 in Eo; congruence].
    rewrite (step_occupying _ _ Hs Eo) in Ho. done.
  - intros q Hq. rewrite Ha in Hq. apply list_elem_of_fmap in Hq as (r & -> & Hr). destruct (update_row r Hr) as [_ [Hs| ->]]; [|by apply H8].
    eapply step_revoked; [done|]. by apply H8.
Qed.
End update.

Lemma change_inv j j' : journal_change j j' → journal_inv j → journal_inv j'.
Proof.
  intros Hc Hj. destruct Hc as [Ha Hg|r Ha Hs Hr Hq Hlt Hgen Hkeys|id f Ha Hg Hf].
  - destruct Hj. constructor; rewrite ?Ha, ?Hg; done.
  - destruct Hj as [H1 H2 H3 H4 H5 H6 H7 H8].
    assert (∀ k : AttemptRow → pystr, (∀ q, q ∈ rj_attempts j → k q ≠ k r) → NoDup (k <$> rj_attempts j) → NoDup (k <$> rj_attempts j')) as Hnd.
    { intros k Hk Hn. rewrite Ha, fmap_app. apply NoDup_snoc. split; [done|]. intros (q & E & Hin)%list_elem_of_fmap. by apply (Hk q Hin). }
    assert (∀ q, q ∈ rj_attempts j → at_task q = at_task r → (at_generation q < at_generation r)%Z) as Hless.
    { intros q Hin E. destruct (H6 q Hin) as (g & Hg & Hle & _). rewrite E in Hg. specialize (Hlt g Hg). lia. }
    constructor.
    + apply Hnd; [|done]. intros q Hin. by apply Hq.
    + apply Hnd; [|done]. intros q Hin. by apply Hq.
    + apply Hnd; [|done]. intros q Hin. by apply Hq.
    + apply Hnd; [|done]. intros q Hin. by apply Hq.
    + by apply Hkeys.
    + intros q Hin. rewrite Ha in Hin. apply elem_of_app in Hin as [Hin| ->%list_elem_of_singleton].
      * destruct (decide (at_task q = at_task r)) as [E|E].
        -- exists (at_generation r). split_and!; [apply Hgen; by left|specialize (Hless q Hin E); lia|].
           intros Ho. destruct (Hq q Hin) as (_ & _ & _ & _ & Hno). rewrite (Hno E) in Ho. done.
        -- destruct (H6 q Hin) as (g & Hg & Hle & Ho). exists g. split_and!; [apply Hgen; by right|done|done].
      * exists (at_generation r). split_and!; [apply Hgen; by left|lia|done].
    + rewrite Ha. apply StronglySorted_snoc; [done|]. intros q Hin E. split; [by apply Hless|]. by apply Hq.
    + intros q Hin. rewrite Ha in Hin. apply elem_of_app in Hin as [Hin| ->%list_elem_of_singleton]; [by apply H8|]. by rewrite Hs.
  - by eapply update_inv.
Qed.

(** ** The operations *)
Section ops.
Context (clock : nat → Z) (new_id : nat → pystr).

Definition tables_of (a : list AttemptRow) (g : list ((pystr * pystr) * Z)) (j : RuntimeJournal) : Prop :=
  rj_attempts j = a ∧ rj_generations j = g.

Lemma now_keeps a g : preserves (tables_of a g) (now clock).
Proof. by intros j [? ?]. Qed.
Lemma uuid_keeps a g : preserves (tables_of a g) (uuid new_id).
Proof. by intros j [? ?]. Qed.
Hint Resolve now_keeps uuid_keeps : sm.

Lemma append_keeps payload a g : preserves (tables_of a g) (_append clock new_id payload).
Proof.
  unfold _append. apply preserves_bind; [auto with sm|]. intros p. apply preserves_bind; [auto with sm|]. intros j.
  apply preserves_bind; [auto with sm|]. intros id. apply preserves_bind; [auto with sm|]. intros t. apply preserves_bind; [auto with sm|]. intros o.
  apply preserves_bind; [auto with sm|]. intros r. apply preserves_if; intros _; [auto with sm|]. apply preserves_mod. by intros s [? ?].
Qed.

Lemma append_tables payload j x j' : _append clock new_id payload j = (x, j') → tables_of (rj_attempts j) (rj_generations j) j'.
Proof.
  intros E. pose proof (append_keeps payload (rj_attempts j) (rj_generations j) j (conj eq_refl eq_refl)) as H. rewrite E in H. by destruct x.
Qed.

Lemma transaction_change {A} (m : SM RuntimeJournal A) j :
  (∀ a j', m j = (Ok a, j') → journal_change j j') → journal_change j (transaction m j).2.
Proof.
  intros H. unfold transaction. destruct (m j) as [[a|e] j'] eqn:E; [by apply (H a)|]. by apply change_none.
Qed.

Lemma observe_change payload j : journal_change j (observe clock new_id payload j).2.
Proof. apply transaction_change. intros a j' [Ha Hg]%append_tables. by apply change_none. Qed.

(** A change of the rows of one attempt, then an event. *)
Lemma update_then {A} id f t (k : SM RuntimeJournal A) j x j' :
  (∀ a g, preserves (tables_of a g) k) →
  (∀ r, r ∈ rj_attempts j → at_attempt_id r = id → same_identity r (f r) ∧ (attempt_step r (f r) ∨ f r = r)) →
  (_ ← sm_mod (update_attempt id f); k) (set_tick t j) = (Ok x, j') → journal_change j j'.
Proof.
  intros Hk Hf H. apply sm_bind_Ok in H as (u & j1 & E1 & H). injection E1 as <- <-.
  pose proof (Hk _ _ (update_attempt id f (set_tick t j)) (conj eq_refl eq_refl)) as Ht. rewrite H in Ht. destruct Ht as [Ha Hg].
  by apply (change_update j j' id f).
Qed.

Lemma find_attempt_Some id j r : find_attempt id j = Some r → r ∈ rj_attempts j ∧ at_attempt_id r = id.
Proof. intros Hf. apply List.find_some in Hf as [Hin E]. apply list_elem_of_In in Hin. by apply bool_decide_eq_true in E. Qed.

Lemma find_attempt_unique id j r q :
  NoDup (at_attempt_id <$> rj_attempts j) → find_attempt id j = Some r → q ∈ rj_attempts j → at_attempt_id q = id → q = r.
Proof. intros Hnd Hf Hq Eq. apply find_attempt_Some in Hf as [Hr E]. apply (NoDup_key_inj at_attempt_id (rj_attempts j)); congruence. Qed.

Lemma same_identity_set st rv pid t r : same_identity r (set_row st rv pid t r).
Proof. unfold same_identity. by split_and!. Qed.

Context (j : RuntimeJournal) (Hj : journal_inv j).
Hint Resolve append_keeps : sm.

Lemma started_change c pid : journal_change j (started clock new_id c pid j).2.
Proof using Hj.
  apply transaction_change. intros a j' H. apply sm_bind_Ok in H as (t & j1 & E1 & H). injection E1 as <- <-.
  apply sm_bind_Ok in H as (p & j1 & E1 & H). apply sm_lift_Ok in E1 as [_ ->]. apply sm_bind_Ok in H as (j2 & j3 & E1 & H). injection E1 as <- <-.
  destruct (find_attempt _ _) as [r|] eqn:Ef; [|done]. destruct (_ && _) eqn:Es; [|done]. apply andb_true_iff in Es as [Es Er].
  apply bool_decide_eq_true in Es. apply negb_true_iff in Er.
  eapply update_then; [|  |exact H]; [intros; eauto with sm|]. intros q Hq E. split; [apply same_identity_set|left].
  rewrite (find_attempt_unique _ j r q (ji_ids _ Hj) Ef Hq E). by apply step_start.
Qed.

Lemma revoke_change id : journal_change j (revoke clock new_id id j).2.
Proof using Hj.
  apply transaction_change. intros a j' H. apply sm_bind_Ok in H as (j1 & j2 & E1 & H). injection E1 as <- <-.
  destruct (find_attempt _ _) as [r|] eqn:Ef; [|done]. destruct (active _) eqn:Es; [|done].
  apply sm_bind_Ok in H as (t & j1 & E1 & H). injection E1 as <- <-.
  eapply update_then; [|  |exact H]; [intros; eauto with sm|]. intros q Hq E. split; [apply same_identity_set|left].
  rewrite (find_attempt_unique _ j r q (ji_ids _ Hj) Ef Hq E). by apply step_revoke.
Qed.

Lemma terminal_state_spec s st : terminal_state s = Some st → active st = false ∧ st ≠ PURGED.
Proof.
  intros H. apply List.find_some in H as [H _]. apply list_elem_of_In in H. revert st H. apply Forall_forall. repeat constructor; done.
Qed.

Lemma finish_change c state details : journal_change j (finish clock new_id c state details j).2.
Proof using Hj.
  unfold finish. destruct (terminal_state state) as [st|] eqn:Et; [|by apply change_none]. apply terminal_state_spec in Et as [Ht Hp].
  apply transaction_change. intros a j' H. apply sm_bind_Ok in H as (j1 & j2 & E1 & H). injection E1 as <- <-.
  destruct (find_attempt _ _) as [r|] eqn:Ef; [|done]. destruct (active (at_state r)) eqn:Es; cbn [negb] in H; [|done].
  destruct (_ && _) eqn:Ec; [done|]. apply sm_bind_Ok in H as (t & j1 & E1 & H). injection E1 as <- <-.
  eapply update_then; [|  |exact H]; [intros; eauto with sm|]. intros q Hq E. split; [apply same_identity_set|left].
  rewrite (find_attempt_unique _ j r q (ji_ids _ Hj) Ef Hq E). apply step_finish; try done. cbn. intros ->.
  by rewrite bool_decide_true in Ec.
Qed.

Lemma purge_change id : journal_change j (mark_purged clock new_id id j).2.
Proof using Hj.
  apply transaction_change. intros a j' H. apply sm_bind_Ok in H as (j1 & j2 & E1 & H). injection E1 as <- <-.
  destruct (find_attempt _ _) as [r|] eqn:Ef; [|done]. destruct (active _) eqn:Es; [done|].
  apply sm_bind_Ok in H as (t & j1 & E1 & H). injection E1 as <- <-.
  eapply update_then; [|  |exact H]; [intros; eauto with sm|]. intros q Hq E. split; [apply same_identity_set|left].
  rewrite (find_attempt_unique _ j r q (ji_ids _ Hj) Ef Hq E). by apply step_purge.
Qed.

Lemma upsert_spec k g (l : list ((pystr * pystr) * Z)) :
  NoDup l.*1 →
  let l' := if existsb (λ kv : (pystr * pystr) * Z, bool_decide (kv.1 = k)) l
            then (λ kv : (pystr * pystr) * Z, if bool_decide (kv.1 = k) then (k, g) else kv) <$> l else l ++ [(k, g)] in
  NoDup l'.*1 ∧ ∀ k' g', (k', g') ∈ l' ↔ (k' = k ∧ g' = g) ∨ (k' ≠ k ∧ (k', g') ∈ l).
Proof.
  intros Hnd l'. unfold l'. destruct (existsb _ l) eqn:E.
  - assert (((λ kv : (pystr * pystr) * Z, if bool_decide (kv.1 = k) then (k, g) else kv) <$> l).*1 = l.*1) as Ek.
    { rewrite <- list_fmap_compose. apply list_fmap_ext. intros i [k' g'] _. cbn. by case_bool_decide; subst. }
    rewrite Ek. split; [done|]. apply existsb_exists in E as ([k0 g0] & Hin & E). apply bool_decide_eq_true in E. cbn in E. subst k0.
    apply list_elem_of_In in Hin. intros k' g'. rewrite list_elem_of_fmap. split.
    + intros ([a b] & Ea & Hab). cbn in Ea. case_bool_decide; simplify_eq; [by left|by right].
    + intros [[-> ->]|[Hne Hk]]; [exists (k, g0)|exists (k', g')]; cbn; [by rewrite bool_decide_true|by rewrite bool_decide_false].
  - assert (k ∉ l.*1) as Hk.
    { intros ([k0 g0] & -> & Hin)%list_elem_of_fmap. apply not_true_iff_false in E. apply E, existsb_exists. exists (k0, g0).
      split; [by apply list_elem_of_In|by apply bool_decide_eq_true]. }
    rewrite fmap_app. split; [by apply NoDup_snoc|]. intros k' g'. rewrite elem_of_app, list_elem_of_singleton. split.
    + intros [Hin|[= -> ->]]; [right|by left]. split; [|done]. intros ->. apply Hk. apply list_elem_of_fmap. by exists (k, g').
    + intros [[-> ->]|[_ ?]]; [by right|by left].
Qed.

Lemma upsert_attempts k g i : rj_attempts (upsert_generation k g i) = rj_attempts i.
Proof. unfold upsert_generation. by destruct (existsb _ _). Qed.

Lemma upsert_generations k g i :
  rj_generations (upsert_generation k g i) =
  if existsb (λ kv : (pystr * pystr) * Z, bool_decide (kv.1 = k)) (rj_generations i)
  then (λ kv : (pystr * pystr) * Z, if bool_decide (kv.1 = k) then (k, g) else kv) <$> rj_generations i else rj_generations i ++ [(k, g)].
Proof. unfold upsert_generation. by destruct (existsb _ _). Qed.

Lemma claim_change c source_hash approval : journal_change j (claim clock new_id c source_hash approval j).2.
Proof using Hj.
  apply transaction_change. intros a j' H. apply sm_bind_Ok in H as (j1 & j2 & E1 & H). injection E1 as <- <-.
  destruct (match generation_of c j with Some g => _ | None => false end) eqn:Eg; [done|]. destruct (occupied c j) eqn:Eo; [done|].
  apply sm_bind_Ok in H as (t & j1 & E1 & H). injection E1 as <- <-. apply sm_bind_Ok in H as (ch & j1 & E1 & H). apply sm_lift_Ok in E1 as [_ ->].
  apply sm_bind_Ok in H as (cj & j1 & E1 & H). apply sm_lift_Ok in E1 as [_ ->].
  apply sm_bind_Ok in H as (g & j1 & E1 & H). apply sm_lift_Ok in E1 as [Eq ->].
  assert (g = wc_lease_generation c) as -> by (by apply sql_int_Ok in Eq).
  apply sm_bind_Ok in H as (u & j1 & E1 & H). unfold insert_attempt in E1. apply sm_bind_Ok in E1 as (j2 & j3 & E2 & E1). injection E2 as <- <-.
  destruct (existsb _ _) eqn:Eu; [done|]. injection E1 as <- <-. apply sm_bind_Ok in H as (u' & j1 & E1 & H). injection E1 as <- <-.
  apply append_tables in H as [Ha Hg]. pose proof (upsert_spec (wc_execution_plan_hash c, wc_task_id c) (wc_lease_generation c) (rj_generations j) (ji_keys _ Hj)) as [Hk Hm].
  rewrite upsert_attempts in Ha. eapply change_claim; [exact Ha|reflexivity|reflexivity|..].
  - intros q Hq. cbn. apply not_true_iff_false in Eu. rewrite existsb_exists in Eu.
    assert (at_attempt_id q ≠ wc_attempt_id c ∧ at_worker_id q ≠ wc_worker_id c ∧ at_lease_id q ≠ wc_lease_id c ∧ at_workspace q ≠ wc_workspace_root c) as (?&?&?&?).
    { split_and!; intros E; apply Eu; exists q; (split; [by apply list_elem_of_In|]); rewrite !orb_true_iff, !bool_decide_eq_true; cbn; tauto. }
    split_and!; [done..|]. intros E. apply not_true_iff_false in Eo. unfold occupied in Eo. rewrite existsb_exists in Eo.
    destruct (occupying (at_state q)) eqn:Es; [|done]. exfalso. apply Eo. exists q. split; [by apply list_elem_of_In|]. by rewrite bool_decide_true, Es.
  - cbn. intros g Hin. destruct (generation_of c j) as [g0|] eqn:Egen.
    + unfold generation_of in Egen. destruct (List.find _ _) as [[k g1]|] eqn:Ef; [|done]. injection Egen as ->. apply List.find_some in Ef as [Hf Ek].
      apply list_elem_of_In in Hf. apply bool_decide_eq_true in Ek. cbn in Ek. subst k.
      assert (g = g0) as ->; [|lia]. assert (((wc_execution_plan_hash c, wc_task_id c), g) = ((wc_execution_plan_hash c, wc_task_id c), g0)) as E;
        [|by injection E]. by apply (NoDup_key_inj fst (rj_generations j)); [apply Hj|..].
    + exfalso. unfold generation_of in Egen. destruct (List.find _ _) as [kv|] eqn:Ef; [done|].
      pose proof (List.find_none _ _ Ef ((wc_execution_plan_hash c, wc_task_id c), g) (proj1 (list_elem_of_In _ _) Hin)) as E.
      cbn in E. by rewrite bool_decide_true in E.
  - rewrite Hg, upsert_generations. exact Hm.
  - rewrite Hg, upsert_generations. intros _. exact Hk.
Qed.
End ops.

(** ** Histories *)
Inductive JournalOp : Type :=
| JClaim (c : WorkerContract) (source_hash : pystr) (approval : dict json)
| JStarted (c : WorkerContract) (pid : Z)
| JRevoke (attempt_id : pystr)
| JFinish (c : WorkerContract) (state : pystr) (details : dict json)
| JPurge (attempt_id : pystr)
| JObserve (payload : dict json).

Section history.
Context (clock : nat → Z) (new_id : nat → pystr).

Definition journal_op (op : JournalOp) : SM RuntimeJournal unit :=
  match op with
  | JClaim c h approval => claim clock new_id c h approval
  | JStarted c pid => started clock new_id c pid
  | JRevoke id => revoke clock new_id id
  | JFinish c state details => finish clock new_id c state details
  | JPurge id => mark_purged clock new_id id
  | JObserve payload => observe clock new_id payload
  end.
Definition journal_run (ops : list JournalOp) (j : RuntimeJournal) : RuntimeJournal := foldl (λ j op, (journal_op op j).2) j ops.

Lemma op_change op j : journal_inv j → journal_change j (journal_op op j).2.
Proof.
  intros Hj. destruct op; [by apply claim_change|by apply started_change|by apply revoke_change|by apply finish_change|by apply purge_change|by apply observe_change].
Qed.

Lemma journal_run_inv ops j : journal_inv j → journal_inv (journal_run ops j).
Proof. revert j. induction ops as [|op ops IH]; intros j Hj; [done|]. apply IH. eapply change_inv; [by apply op_change|done]. Qed.

(** *** Leases *)
(** The attempt [id] can no longer hold a lease: it was revoked or ended. *)
Definition lost (id : pystr) (j : RuntimeJournal) : Prop :=
  ∃ r, r ∈ rj_attempts j ∧ at_attempt_id r = id ∧ (at_revoked r = true ∨ active (at_state r) = false).

Lemma step_lost r r' : attempt_step r r' → at_revoked r = true ∨ active (at_state r) = false → at_revoked r' = true ∨ active (at_state r') = false.
Proof.
  intros [H1 H2 H3 H4|H1 H2 H3|H1 H2 H3 H4 H5|H1 H2 H3] Hl.
  - rewrite H1, H2 in Hl. by destruct Hl.
  - by left.
  - by right.
  - right. by rewrite H2.
Qed.

Lemma change_lost id j j' : journal_change j j' → lost id j → lost id j'.
Proof.
  intros Hc (r & Hr & Hid & Hl). destruct Hc as [Ha _|q Ha _ _ _ _ _ _|id' f Ha _ Hf].
  - exists r. by rewrite Ha.
  - exists r. rewrite Ha. split_and!; [apply elem_of_app; by left|done|done].
  - exists (if bool_decide (at_attempt_id r = id') then f r else r). rewrite Ha. split.
    { apply list_elem_of_fmap. by exists r. }
    case_bool_decide as E; [|done]. destruct (Hf r Hr E) as [(Ei & _) [Hs| ->]]; [|done]. split; [by rewrite Ei|]. by eapply step_lost.
Qed.

Lemma run_lost id ops j : journal_inv j → lost id j → lost id (journal_run ops j).
Proof.
  revert j. induction ops as [|op ops IH]; intros j Hj Hl; [done|]. apply IH; [eapply change_inv; [by apply op_change|done]|].
  eapply change_lost; [by apply op_change|done].
Qed.

Lemma current_spec c j :
  lease_is_current c j = Ok true →
  ∃ r, r ∈ rj_attempts j ∧ find_attempt (wc_attempt_id c) j = Some r ∧ at_attempt_id r = wc_attempt_id c ∧ at_lease_id r = wc_lease_id c ∧
    at_generation r = wc_lease_generation c ∧ at_revoked r = false ∧ active (at_state r) = true ∧ contract_hash c = Ok (at_contract_hash r).
Proof.
  unfold lease_is_current, row_current. destruct (find_attempt _ _) as [r|] eqn:Ef; [|done]. pose proof Ef as [Hr Eid]%find_attempt_Some.
  destruct (_ && _) eqn:E; [|done]. intros H. apply bind_Ok in H as (ch & Hch & [= Hb]). bool_prop. subst.
  exists r. split_and!; done.
Qed.

Lemma lost_not_current c j : journal_inv j → lost (wc_attempt_id c) j → lease_is_current c j ≠ Ok true.
Proof.
  intros Hj (r & Hr & Eid & Hl) H. apply current_spec in H as (q & Hq & Hf & Eq & _ & _ & Hrev & Hact & _).
  assert (r = q) as -> by (by eapply find_attempt_unique; [apply Hj|..]). destruct Hl; congruence.
Qed.

Lemma sorted_pairs {A} (R : A → A → Prop) l i k x y : StronglySorted R l → l !! i = Some x → l !! k = Some y → i < k → R x y.
Proof.
  intros H. revert i k. induction H as [|z l Hl IH Hz]; intros i k Hi Hk Hlt; [done|]. destruct k as [|k]; [lia|]. destruct i as [|i]; cbn in *.
  - injection Hi as ->. rewrite Forall_forall in Hz. apply Hz. by eapply list_elem_of_lookup_2.
  - eapply IH; [done..|lia].
Qed.

Lemma occupants_unique j r q :
  journal_inv j → r ∈ rj_attempts j → q ∈ rj_attempts j → at_task r = at_task q →
  occupying (at_state r) = true → occupying (at_state q) = true → r = q.
Proof.
  intros Hj [i Hi]%list_elem_of_lookup [k Hk]%list_elem_of_lookup Et Hr Hq. pose proof (ji_increasing _ Hj) as Hs.
  destruct (decide (i = k)) as [->|Hne]; [congruence|]. exfalso. destruct (decide (i < k)) as [Hlt|Hlt].
  - destruct (sorted_pairs _ _ _ _ _ _ Hs Hi Hk Hlt Et). congruence.
  - destruct (sorted_pairs _ _ _ _ _ _ Hs Hk Hi ltac:(lia) (eq_sym Et)). congruence.
Qed.

(** C6: The journal fences workers.  After any operations on a fresh journal
    no attempt, worker, lease or workspace identity is used twice; of a task at
    most one attempt is reserved, running or a quarantined candidate; the lease
    generations of a task strictly increase, so a contract whose lease is
    current holds the newest generation of its task and every other attempt of
    the task has ended; a revoked attempt is never a candidate; an attempt that
    was revoked or ended never has a current lease again, whatever follows; and
    a lease read is unknown exactly when the store could not be read in time. *)
Theorem journal_fences trace tick ops :
  let j := journal_run ops (mkRJournal trace [] [] [] tick) in
  NoDup (at_attempt_id <$> rj_attempts j) ∧ NoDup (at_worker_id <$> rj_attempts j) ∧
  NoDup (at_lease_id <$> rj_attempts j) ∧ NoDup (at_workspace <$> rj_attempts j) ∧
  (∀ r q, r ∈ rj_attempts j → q ∈ rj_attempts j → at_task r = at_task q →
     occupying (at_state r) = true → occupying (at_state q) = true → r = q) ∧
  (∀ r, r ∈ rj_attempts j → at_revoked r = true → at_state r ≠ CANDIDATE) ∧
  (∀ c, lease_is_current c j = Ok true →
     ∃ r, r ∈ rj_attempts j ∧ at_attempt_id r = wc_attempt_id c ∧ at_lease_id r = wc_lease_id c ∧ at_generation r = wc_lease_generation c ∧
       ∀ q, q ∈ rj_attempts j → at_task q = at_task r → q = r ∨ (at_generation q < at_generation r)%Z ∧ occupying (at_state q) = false) ∧
  (∀ c ops', lost (wc_attempt_id c) j → lease_is_current c (journal_run ops' j) ≠ Ok true) ∧
  (∀ c exhausted failure lr, lease_read c exhausted failure j = Ok lr →
     (lr_state lr = unknown ↔ exhausted = true ∨ failure ≠ None) ∧
     (lr_state lr = current ↔ exhausted = false ∧ failure = None ∧ lease_is_current c j = Ok true)).
Proof.
  intros j. assert (journal_inv j) as Hj by apply journal_run_inv, journal_inv_new.
  split_and!; [apply Hj..|by intros r q; apply occupants_unique|apply Hj| | |].
  - intros c (r & Hr & _ & Eid & El & Eg & _ & Hact & _)%current_spec. exists r. split_and!; [done..|]. intros q Hq Et.
    assert (occupying (at_state r) = true) as Ho by (by destruct (at_state r)).
    pose proof Hq as [k Hk]%list_elem_of_lookup. pose proof Hr as [i Hi]%list_elem_of_lookup. pose proof (ji_increasing _ Hj) as Hs.
    destruct (decide (k = i)) as [->|Hne]; [left; congruence|right]. destruct (decide (k < i)) as [Hlt|Hlt].
    + exact (sorted_pairs _ _ _ _ _ _ Hs Hk Hi Hlt Et).
    + destruct (sorted_pairs _ _ _ _ _ _ Hs Hi Hk ltac:(lia) (eq_sym Et)). congruence.
  - intros c ops' Hl. apply lost_not_current; [by apply journal_run_inv|by apply run_lost].
  - intros c exhausted failure lr. unfold lease_read. destruct exhausted; [intros [= <-]; cbn; naive_solver|].
    destruct failure as [[name code]|]; [intros [= <-]; cbn; naive_solver|]. intros H. apply bind_Ok in H as (b & Hb & [= <-]). fold (lease_is_current c j) in Hb.
    rewrite Hb. destruct b; cbn; naive_solver.
Qed.
End history.
