(* ===== verification/RuntimeTheorems.v ===== *)
(** * The observations of the runtime journal form one verified chain *)

From Stdlib Require Import ZArith NArith Lia.
From S2P Require Import Prelude PyData Sha256 PyFloat Json JsonFacts Core CoreFacts Storage Builtins GoalSpec JsonPlain Plan WorkerContract Observations RuntimeJournal RuntimeFacts.

(** ** Reading an observation back *)
Lemma observation_of_dict o :
  observation_of (sort_json (observation_dict o)) =
  Observation_init (mkObservation (ob_obs_id o) (ob_trace_id o) (ob_kind o) (ob_timestamp_ns o) (ob_schema_version o) (ob_prev_hash o)
    (sort_by key_leb ((λ kv, (kv.1, sort_json kv.2)) <$> ob_payload o)) (sort_by key_leb ((λ kv, (kv.1, sort_json kv.2)) <$> ob_tags o))
    (ob_source o) (ob_digest o)).
Proof. reflexivity. Qed.

(** ** Appending *)
Section append.
Context (clock : nat → Z) (new_id : nat → pystr).

(** What the chain knows of an event. *)
Record sealed (j : RuntimeJournal) (o : Observation) (e : EventRow) : Prop := {
  se_read : (v ← strict_json (er_record e); observation_of v) = Ok o;
  se_digest : er_digest e = ob_digest o;
  se_hash : observation_hash o = Ok (ob_digest o);
  se_prev : ob_prev_hash o = tail_digest j;
  se_trace : ob_trace_id o = rj_trace_id j;
  se_id : ob_obs_id o = new_id (rj_tick j);
  se_form : ob_schema_version o = SCHEMA_VERSION ∧ ob_kind o = str "custom"
}.

Lemma append_sealed payload j x j' :
  plain (JDict payload) → _append clock new_id payload j = (Ok x, j') →
  ∃ o e, sealed j o e ∧ j' = set_tick (S (S (rj_tick j))) (add_event_row e j) ∧ JDict (ob_payload o) = sort_json (JDict payload).
Proof.
  intros Hp H. unfold _append in H. apply sm_bind_Ok in H as (p & j1 & E & H). apply sm_lift_Ok in E as [Ep ->].
  apply bind_Ok in Ep as (t & Ht & Ep). rewrite (plain_read _ _ Hp Ht) in Ep. cbn [mbind res_bind] in Ep.
  assert (JDict p = sort_json (JDict payload)) as Es by (cbn in *; congruence). clear Ep.
  apply sm_bind_Ok in H as (j1 & j2 & E & H). injection E as <- <-. apply sm_bind_Ok in H as (id & j1 & E & H). injection E as <- <-.
  apply sm_bind_Ok in H as (tm & j1 & E & H). injection E as <- <-. apply sm_bind_Ok in H as (o & j1 & E & H). apply sm_lift_Ok in E as [Eo ->].
  apply sm_bind_Ok in H as (rec & j1 & E & H). apply sm_lift_Ok in E as [Er ->]. destruct (existsb _ _); [done|]. injection H as _ <-.
  apply init_sealed in Eo as (h & Hh & Eo & Hinit); [|done].
  assert (ob_payload o = p ∧ plain (JDict (ob_tags o)) ∧ sort_by key_leb ((λ kv, (kv.1, sort_json kv.2)) <$> ob_tags o) = ob_tags o)
    as (Ep & Htags & Etags) by (rewrite Eo; by repeat split).
  assert (plain (JDict p)) as Hpp by (rewrite Es; by apply plain_sort_json). rewrite <- Ep in Hpp, Es. exists o. eexists.
  split_and!; [|reflexivity|exact Es]. constructor; [|done|by rewrite Eo|by rewrite Eo..|by rewrite Eo]. cbn [er_record].
  rewrite (plain_read _ rec (plain_observation o Hpp Htags) Er). cbn [mbind res_bind]. rewrite observation_of_dict, Etags.
  assert (sort_by key_leb ((λ kv, (kv.1, sort_json kv.2)) <$> ob_payload o) = ob_payload o) as ->; [|rewrite <- Hinit; by destruct o].
  assert (sort_json (JDict (ob_payload o)) = JDict (ob_payload o)) as Ei by (rewrite Es; apply sort_json_idemp). by injection Ei.
Qed.

Lemma append_ticks payload n : preserves (λ j, n ≤ rj_tick j) (_append clock new_id payload).
Proof.
  unfold _append. assert (preserves (λ j, n ≤ rj_tick j) (now clock)) as Hn by (intros j Hj; cbn; lia).
  assert (preserves (λ j, n ≤ rj_tick j) (uuid new_id)) as Hu by (intros j Hj; cbn; lia).
  apply preserves_bind; [auto with sm|]. intros p. apply preserves_bind; [auto with sm|]. intros j.
  apply preserves_bind; [done|]. intros id. apply preserves_bind; [done|]. intros t. apply preserves_bind; [auto with sm|]. intros o.
  apply preserves_bind; [auto with sm|]. intros r. apply preserves_if; intros _; [auto with sm|]. by apply preserves_mod.
Qed.

(** ** Every operation ends by appending one event *)
(** Nothing of the chain changed, and readings of clock and identifiers only
    moved on. *)
Definition frame (j j' : RuntimeJournal) : Prop :=
  rj_events j' = rj_events j ∧ rj_trace_id j' = rj_trace_id j ∧ rj_tick j ≤ rj_tick j'.
Definition framed {A} (m : SM RuntimeJournal A) : Prop := ∀ j, frame j (m j).2.

Definition ends_in_append (m : SM RuntimeJournal unit) : Prop := ∀ j,
  match m j with
  | (Ok _, j') => ∃ payload jm, plain (JDict payload) ∧ frame j jm ∧ _append clock new_id payload jm = (Ok tt, j')
  | (Raise _, j') => rj_tick j ≤ rj_tick j'
  end.

Lemma frame_trans j1 j2 j3 : frame j1 j2 → frame j2 j3 → frame j1 j3.
Proof. intros (? & ? & ?) (? & ? & ?). unfold frame. split_and!; [congruence..|lia]. Qed.

Lemma framed_lift {A} (r : res A) : framed (sm_lift r).
Proof. intros j. unfold frame. by split_and!. Qed.
Lemma framed_get : framed sm_get.
Proof. intros j. unfold frame. by split_and!. Qed.
Lemma framed_now : framed (now clock).
Proof. intros j. unfold frame. cbn. split_and!; [done..|lia]. Qed.
Lemma framed_update id f : framed (sm_mod (update_attempt id f)).
Proof. intros j. unfold frame. by split_and!. Qed.
Lemma framed_upsert k g : framed (sm_mod (upsert_generation k g)).
Proof. intros j. unfold frame. cbn. unfold upsert_generation. by destruct (existsb _ _); split_and!. Qed.
Lemma framed_insert r : framed (insert_attempt r).
Proof. intros j. unfold insert_attempt, mbind, SM_bind, sm_get. destruct (existsb _ _); unfold frame; by split_and!. Qed.

Lemma ends_bind {A} (m : SM RuntimeJournal A) f : framed m → (∀ a, ends_in_append (f a)) → ends_in_append (m ≫= f).
Proof.
  intros Hm Hf j. unfold mbind, SM_bind. specialize (Hm j). destruct (m j) as [[a|e] j1]; [|apply Hm]. cbn in Hm. specialize (Hf a j1).
  destruct (f a j1) as [[u|e] j2]; [|destruct Hm as (_ & _ & ?); lia]. destruct Hf as (p & jm & Hp & Hfr & Ha).
  exists p, jm. split_and!; [done|by eapply frame_trans|done].
Qed.
Lemma ends_raise e : ends_in_append (sm_raise e).
Proof. intros j. cbn. lia. Qed.
Lemma ends_if (b : bool) m k : ends_in_append m → ends_in_append k → ends_in_append (if b then m else k).
Proof. by destruct b. Qed.
Lemma ends_match {A} (o : option A) m k : (∀ a, ends_in_append (m a)) → ends_in_append k → ends_in_append (match o with Some a => m a | None => k end).
Proof. by destruct o. Qed.
Lemma ends_append payload : plain (JDict payload) → ends_in_append (_append clock new_id payload).
Proof.
  intros Hp j. destruct (_append clock new_id payload j) as [[[]|e] j'] eqn:E.
  - exists payload, j. split_and!; [done| |done]. unfold frame. by split_and!.
  - pose proof (append_ticks payload (rj_tick j) j (le_n _)) as H. rewrite E in H. exact H.
Qed.
End append.

Create HintDb ends.
#[export] Hint Resolve framed_lift framed_get framed_now framed_update framed_upsert framed_insert
  ends_bind ends_raise ends_if ends_match ends_append : ends.

(** ** The chain *)
Section chain.
Context (clock : nat → Z) (new_id : nat → pystr) (Hid : ∀ m n, new_id m = new_id n → m = n).

(** Caller-supplied JSON in the operations. *)
Definition op_plain (op : JournalOp) : Prop :=
  match op with
  | JClaim c _ approval => plain (jobj (contract_dict c)) ∧ plain (JDict approval)
  | JFinish _ _ details => plain (JDict details)
  | JObserve payload => plain (JDict payload)
  | _ => True
  end.

(** Outside its transaction an operation does nothing to the tables. *)
Lemma transaction_ends (m : SM RuntimeJournal unit) j :
  ends_in_append clock new_id m →
  match transaction m j with
  | (Ok _, j') => ∃ payload jm, plain (JDict payload) ∧ frame j jm ∧ _append clock new_id payload jm = (Ok tt, j')
  | (Raise _, j') => frame j j'
  end.
Proof.
  intros Hm. specialize (Hm j). unfold transaction. destruct (m j) as [[u|e] j'] eqn:E; [done|]. unfold frame. by split_and!.
Qed.

Lemma op_ends op j :
  op_plain op →
  match journal_op clock new_id op j with
  | (Ok _, j') => ∃ payload jm, plain (JDict payload) ∧ frame j jm ∧ _append clock new_id payload jm = (Ok tt, j')
  | (Raise _, j') => frame j j'
  end.
Proof.
  intros Hp. destruct op as [c h approval|c pid|id|c state details|id|payload]; cbn [journal_op op_plain] in *.
  - apply transaction_ends. destruct Hp as [Hc Ha]. apply ends_bind; [auto with ends|intros i].
    do 2 (apply ends_if; [auto with ends|]). do 6 (apply ends_bind; [auto with ends|intros ?]).
    apply ends_append. plain_obj; done.
  - apply transaction_ends. do 3 (apply ends_bind; [auto with ends|intros ?]). apply ends_match; [intros r|auto with ends].
    apply ends_if; [|auto with ends]. do 2 (apply ends_bind; [auto with ends|intros ?]). apply ends_append. plain_obj.
  - apply transaction_ends. apply ends_bind; [auto with ends|intros i]. apply ends_match; [intros r|auto with ends].
    apply ends_if; [|auto with ends]. do 2 (apply ends_bind; [auto with ends|intros ?]). apply ends_append. plain_obj.
  - unfold finish. destruct (terminal_state state) as [st|]; [|unfold frame; by split_and!]. apply transaction_ends.
    apply ends_bind; [auto with ends|intros i]. apply ends_match; [intros r|auto with ends]. do 2 (apply ends_if; [auto with ends|]).
    do 3 (apply ends_bind; [auto with ends|intros ?]). apply ends_append, plain_merge; [|done]. plain_obj.
  - apply transaction_ends. apply ends_bind; [auto with ends|intros i]. apply ends_match; [intros r|auto with ends].
    apply ends_if; [auto with ends|]. do 2 (apply ends_bind; [auto with ends|intros ?]). apply ends_append. plain_obj.
  - by apply transaction_ends, ends_append.
Qed.

(** The observations behind the events. *)
Record chain_inv (j : RuntimeJournal) (os : list Observation) : Prop := {
  ci_rows : Forall2 (λ e o, (v ← strict_json (er_record e); observation_of v) = Ok o ∧ er_digest e = ob_digest o) (rj_events j) os;
  ci_chain : verify_chain_from GENESIS None [] os = true;
  ci_trace : ∀ o, o ∈ os → ob_trace_id o = rj_trace_id j;
  ci_ids : ∀ o, o ∈ os → ∃ k, k < rj_tick j ∧ ob_obs_id o = new_id k
}.

Lemma frame_chain j j' os : frame j j' → chain_inv j os → chain_inv j' os.
Proof.
  intros (He & Ht & Hk) [H1 H2 H3 H4]. constructor; [by rewrite He|done|by rewrite Ht|].
  intros o Ho. destruct (H4 o Ho) as (k & Hlt & E). exists k. split; [lia|done].
Qed.

Lemma tail_digest_chain j os : chain_inv j os → tail_digest j = chain_head GENESIS os.
Proof.
  intros [H1 _ _ _]. unfold tail_digest, chain_head. destruct os as [|q os _] using rev_ind; [apply Forall2_nil_inv_r in H1; by rewrite H1|].
  apply Forall2_app_inv_r in H1 as (l1 & l2 & _ & Hl2 & ->). inversion Hl2 as [|e' ? l3 ? [_ He'] Hn]; subst. inversion Hn; subst.
  by rewrite !last_snoc.
Qed.

Lemma append_chain payload j os j' :
  plain (JDict payload) → chain_inv j os → _append clock new_id payload j = (Ok tt, j') →
  ∃ o, chain_inv j' (os ++ [o]) ∧ JDict (ob_payload o) = sort_json (JDict payload) ∧ rj_trace_id j' = rj_trace_id j.
Proof using Hid.
  intros Hp [H1 H2 H3 H4] H. destruct (append_sealed clock new_id payload j tt j' Hp H) as (o & e & [S1 S2 S3 S4 S5 S6 [S7 S8]] & -> & Hpay).
  exists o. split; [|by split]. constructor; cbn [set_tick add_event_row rj_events rj_trace_id rj_tick].
  - apply Forall2_app; [done|]. by repeat constructor.
  - apply verify_chain_snoc; try done.
    + rewrite S8. vm_compute. repeat constructor.
    + rewrite S4. by apply tail_digest_chain.
    + intros q Hq. rewrite S5. by apply H3.
    + apply not_elem_of_nil.
    + intros q Hq E. destruct (H4 q Hq) as (k & Hk & Ek). rewrite S6, Ek in E. apply Hid in E. lia.
  - intros q [Hq| ->%list_elem_of_singleton]%elem_of_app; [by apply H3|done].
  - intros q [Hq| ->%list_elem_of_singleton]%elem_of_app; [destruct (H4 q Hq) as (k & ? & ?); exists k; split; [lia|done]|].
    exists (rj_tick j). split; [lia|done].
Qed.

Lemma observations_chain j os : chain_inv j os → observations j = Ok os.
Proof.
  intros [H1 H2 _ _]. unfold observations. rewrite (proj2 (mapM_res_Ok _ _ os)); cbn [mbind res_bind]; [by rewrite chain_unanchored, H2|].
  eapply Forall2_impl; [exact H1|]. by intros e o [? _].
Qed.

(** The number of operations that returned. *)
Fixpoint committed (ops : list JournalOp) (j : RuntimeJournal) : nat :=
  match ops with
  | [] => 0
  | op :: ops => (if is_ok (journal_op clock new_id op j).1 then 1 else 0) + committed ops (journal_op clock new_id op j).2
  end.

Lemma run_chain ops j os :
  Forall op_plain ops → chain_inv j os →
  ∃ os', chain_inv (journal_run clock new_id ops j) (os ++ os') ∧ length os' = committed ops j ∧
    rj_trace_id (journal_run clock new_id ops j) = rj_trace_id j.
Proof using Hid.
  intros Hp. revert j os. induction Hp as [|op ops Hop _ IH]; intros j os Hj.
  { exists []. by rewrite app_nil_r. }
  pose proof (op_ends op j Hop) as H. change (journal_run clock new_id (op :: ops) j) with (journal_run clock new_id ops (journal_op clock new_id op j).2).
  cbn [committed]. destruct (journal_op clock new_id op j) as [[[]|e] j1]; cbn [fst snd is_ok].
  - destruct H as (payload & jm & Hpl & Hf & Ha). destruct (append_chain payload jm os j1 Hpl (frame_chain _ _ _ Hf Hj) Ha) as (o & Ho & _ & Et).
    destruct (IH j1 (os ++ [o]) Ho) as (os' & H' & Hl & Etr). exists (o :: os'). rewrite <- app_assoc in H'. destruct Hf as (_ & Ef & _).
    split_and!; [done|cbn; by rewrite Hl|congruence].
  - destruct (IH j1 os (frame_chain _ _ _ H Hj)) as (os' & H' & Hl & Etr). exists os'. destruct H as (_ & Ef & _).
    split_and!; [done|done|congruence].
Qed.

(** C33: The journal's observations always form one verified chain.  After any
    operations with well-formed JSON on a fresh journal, reading the events back
    succeeds with exactly one observation per operation that returned and none
    for an operation that raised, the chain verifies anchored at the last stored
    digest and this number, whatever follows only appends to it, and reopening
    the file under its trace accepts it and under any other refuses it.  Identifiers are assumed distinct, as UUIDs are. *)
Theorem journal_chain_verifies trace ops ops' :
  0 < length trace ≤ 96 → Forall op_plain ops → Forall op_plain ops' →
  let j0 := mkRJournal trace [] [] [] 0 in
  let j := journal_run clock new_id ops j0 in
  ∃ os os', observations j = Ok os ∧ length os = committed ops j0 ∧
    verify_chain os (Some (tail_digest j)) (Some (Z.of_nat (committed ops j0))) = true ∧
    observations (journal_run clock new_id ops' j) = Ok (os ++ os') ∧
    RuntimeJournal_open trace (Some j) = Ok j ∧
    ∀ trace', 0 < length trace' ≤ 96 → trace' ≠ trace →
      RuntimeJournal_open trace' (Some j) = Raise (JournalError "journal belongs to another run").
Proof using Hid.
  intros Ht Hp Hp' j0 j. destruct (run_chain ops j0 [] Hp) as (os & Hos & Hl & Etr).
  { constructor; [constructor|done|by intros o ?%not_elem_of_nil..]. }
  cbn [app] in Hos. fold j in Hos. destruct (run_chain ops' j os Hp' Hos) as (os' & Hos' & _). exists os, os'.
  fold j in Etr. cbn in Etr.
  assert (∀ t : pystr, 0 < length t ≤ 96 → (0 <? length t)%nat && (length t <=? 96)%nat = true) as Hlen.
  { intros t Hlt. apply andb_true_iff. rewrite Nat.ltb_lt, Nat.leb_le. lia. }
  split_and!; [by apply observations_chain|done| |by apply observations_chain| |].
  - apply chain_anchored. rewrite (tail_digest_chain j os Hos), <- Hl. by destruct Hos.
  - unfold RuntimeJournal_open. rewrite (Hlen _ Ht), Etr, bool_decide_true by done. cbn [negb mbind res_bind].
    by rewrite (observations_chain _ _ Hos).
  - intros t' Ht' Hne. unfold RuntimeJournal_open. rewrite (Hlen _ Ht'), Etr, bool_decide_false by done. done.
Qed.
End chain.

(** ** A witness *)
Definition demo_lease : WorkerContract :=
  mkContract (str "task.a") (str "w1") (str "swarm") (replicate 64 97%N) (str "att1") (str "lease1") 1 (replicate 40 48%N)
    (str "/ws") [] [str "out/"] [] [str "a"] [str "ok"] [] [] [] 100 (float_of_Z 60) 2 1 64 None (str "local").
Definition demo_ids (n : nat) : pystr := replicate (S n) 97%N.
Definition demo_journal_ops : list JournalOp :=
  [JClaim demo_lease (str "src") []; JStarted demo_lease 42; JRevoke (str "att1"); JFinish demo_lease (str "CANDIDATE") []].

Lemma demo_ids_inj m n : demo_ids m = demo_ids n → m = n.
Proof. intros E. apply (f_equal length) in E. unfold demo_ids in E. rewrite !length_replicate in E. lia. Qed.

Lemma demo_committed : committed (λ n, Z.of_nat n) demo_ids demo_journal_ops (mkRJournal (str "run") [] [] [] 0) = 3%nat.
Proof. vm_compute. reflexivity. Qed.

Lemma journal_chain_verifies_witness :
  ∃ os, observations (journal_run (λ n, Z.of_nat n) demo_ids demo_journal_ops (mkRJournal (str "run") [] [] [] 0)) = Ok os ∧ length os = 3%nat.
Proof.
  destruct (journal_chain_verifies (λ n, Z.of_nat n) demo_ids demo_ids_inj (str "run") demo_journal_ops []) as (os & os' & H & Hl & _).
  - cbn. lia.
  - repeat constructor; try (vm_compute; reflexivity).
  - constructor.
  - exists os. split; [exact H|]. rewrite Hl. exact demo_committed.
Defined.
